(* ===== verification/_CoqProject ===== *)
-Q . S2P
Prelude.v
NineP.v
NinePProofs.v
Carve.v
CarveProofs.v
Geometry.v
GeometryProofs.v
PaneData.v
PaneTree.v
PaneCarve.v
PaneRep.v
PaneWalks.v
PaneInv.v
PaneSplit.v
PaneHost.v
PaneFocus.v
PaneClose.v
PaneStamp.v
PaneWork.v
PaneMove.v
PaneSend.v
PaneGrant.v
PaneGeom.v
PaneSpec.v
PaneClaims.v
Glob.v
GlobProofs.v
GlobClaims.v
Digits.v
Utf8.v
Json.v
JsonProofs.v
JsonRound.v
VtBase.v
Vt.v
VtResize.v
VtInv.v
VtWidth.v
VtTotal.v
VtReflow.v
VtRows.v
VtLines.v
VtClaims.v
VtSeq.v
Kaua.v
KauaVt.v
KauaFrame.v
KauaSession.v
KauaIn.v
KauaSize.v
KauaInProofs.v
KauaLayout.v
KauaClaims.v
Chords.v
ChordsClaims.v
NoraText.v
NoraSpec.v
NoraOps.v
NoraDiag.v
NoraEdit.v
NoraMulti.v
NoraKeys.v
NoraHost.v
NoraClaims.v
NoraPromises.v
Frame.v
FrameProofs.v
Virtq.v
VirtqProofs.v
Va.v
VaProofs.v
Ring.v
RingProofs.v
RingClaims.v
Present.v
PresentProofs.v
PresentClaims.v
Heap.v
HeapProofs.v
HeapClaims.v
