(* ===== verification/Prelude.v ===== *)
(** * Thylacine userspace: a verification library

    Thylacine's userland (src/usr) is a set of Rust crates over a C kernel: a
    compositor (tapestryd) that keeps a tree of panes and serves surfaces over 9P,
    a client library (libtapestry) that presents frames and reads events, a desktop
    (halcyond, libhalcyon) that carves the screen, the 9P codec every server shares
    (ninep), the terminal emulator, the toolkit and the editor of the text side (vt,
    kaua, nora), and the heap every program allocates from (thyla-heap).  Every crate is
    built with overflow checks, so an overflow, a bad index and an [unwrap] of [None]
    all stop a program: the definitions return an [outcome], and the theorems say
    that they return.

    ** Files and what they model

    - Prelude: outcomes, results and their notations, machine integers at their
      width, loops, slices, little-endian words, sorting, and the lemmas the
      components share.
    - NineP, NinePProofs: src/usr/lib/ninep/src/lib.rs.  The pack and unpack
      primitives, every message parser and builder, directory entries and the
      readiness answer.  The wire format is stated as byte strings; a builder
      [Emits] its string and a parser is a [Codec] of it.
    - Carve, CarveProofs: src/usr/lib/libhalcyon/src/carve.rs.  Weighted division of
      an extent, divider drags, stacks.
    - Geometry, GeometryProofs: the rectangles and effects of
      src/usr/tapestryd/src/pane.rs, with the metrics and scale tables of
      libhalcyon and cartoon.
    - PaneData, PaneTree, PaneCarve: the pane tree of src/usr/tapestryd/src/pane.rs,
      [Layout] as an arena of panes with workspaces over it; every operation of it is
      a definition of these files ([split], [host], [close], [focus_dir],
      [move_dir], [switch_workspace], [recompute], ...).
    - PaneRep, PaneWalks, PaneInv: what a correct arena is.  [rep] relates a slot to
      the abstract tree it roots, [inv l ts] says the arena holds exactly the trees
      [ts], one per workspace, with the links, ids, focus and numbers that go with
      it.
    - PaneSplit, PaneHost, PaneFocus, PaneClose, PaneStamp, PaneWork, PaneMove,
      PaneSend, PaneGeom: each family of operations returns, keeps [inv], and
      refines an operation of the abstract tree.  PaneGrant: with room in the pane
      table they are not refused.
    - PaneSpec, PaneClaims: the verbs a client drives the layout with, the layouts
      they reach, and the properties of all of them.
    - Chords, ChordsClaims: the compositor's keyboard.  The keymap
      (src/usr/lictor/src/keymap.rs), the chord table and its grammar
      (src/usr/tapestryd/src/chords.rs), and the way of a key to a surface
      ([chord_key], [key_event], [seat_resumed] of server.rs, the drain of main.rs),
      with what routing reads of the compositor an argument of each key ([Routing]).
      The specification is the set of keys that are down and a fate per key ([Fate],
      [follow]).
    - Glob, GlobProofs, GlobClaims: src/usr/utopia/libutopia/src/eval/glob.rs, the
      shell's pattern matcher against the reading of a pattern it documents, with
      [unescape] of parser/lexer.rs.
    - Frame, FrameProofs: src/usr/lib/parley/src/frame.rs, the Content-Length
      encoder and the streaming decoder of LSP and DAP messages.
    - Digits, Utf8: decimal text of integers, and UTF-8 as core's [str] checks and
      writes it.
    - Json, JsonProofs, JsonRound: src/usr/lib/parley/src/json.rs, the JSON value,
      its parser and its serializer; the f64 operations of core are a class
      ([Float64]) whose laws the round trip assumes.
    - VtBase, Vt, VtResize: src/usr/lib/vt/src/lib.rs, the terminal emulator every
      tile runs: palettes, widths, the pen, the escape state machine over two flat
      screens ([Vt] has the struct's fields), and the reflow of a resize.
    - VtInv, VtWidth, VtTotal, VtReflow: the invariant of [Vt], that drawing keeps
      it ([paints]), that every byte and every resize returns ([steps], [regrid_ok]).
      VtRows, VtLines, VtClaims: the screen as a list of rows and as logical lines,
      and the properties.
    - Kaua, KauaIn: src/usr/lib/kaua/src, the toolkit of full-screen programs.  Kaua
      is the output side (rect.rs, style.rs, buffer.rs, encode.rs, term.rs,
      layout.rs), KauaIn the input side (event.rs, input.rs, query.rs, intake.rs);
      the terminal the intake reads is a class ([Fd0]).
    - VtSeq, KauaVt, KauaFrame, KauaSession, KauaSize: the toolkit's bytes on the
      emulator of Vt, one sequence, frame, session and size probe at a time.
      KauaInProofs: the parser, and the intake on any terminal, told by the calls it
      made ([pulled], [concluded]).  KauaLayout: layouts.  KauaClaims: the properties.
    - NoraText: src/usr/nora/src/text.rs and wrap.rs, the editor's text buffer
      ([TextBuffer]: lines, cursor, undo stack, revision; byte offsets and char
      boundaries are those of Rust's strings) and its soft-wrap rows.  NoraDiag:
      diag.rs, debug.rs, vartree.rs.  NoraEdit: editor.rs, the modal editor as a
      function of a key on its state ([Editor] has the struct's fields; every mode,
      motion, text object, caret edit, buffer, command, menu, picker, dashboard and
      completion function is a definition), and the file requests of main.rs
      ([handle_request]).  The Unicode table, the manual's text, and what files and
      gofmt answer are classes ([Unicode], [Manual], [Files]).
    - NoraSpec, NoraOps: positions in the text joined with line breaks (module
      NoraFlat), the abstract document ([Doc]: the text before and after the caret,
      and a history), that each buffer operation refines the document's (NoraRefine,
      NoraOps), and search (NoraFind).  NoraMulti: edits at several carets as cuts
      of each line, the keys that make them (module NoraReplace), bracket scans as
      scans of the document's characters, and text objects (NoraObjects).  NoraKeys: the
      editor's invariant ([einv]) and what every key keeps of it and of the documents
      ([changes]).  NoraHost: the inputs of the binary ([Input], [feed]), and in its
      module NoraView scrolling and the tree of variables.  NoraClaims, NoraPromises:
      the properties.
    - Virtq, VirtqProofs: src/usr/lib/netdev/src/ring.rs, the counters of the
      transmit and receive virtqueues.
    - Va, VaProofs: src/usr/tapestryd/src/va.rs, the first-fit allocator of mapping
      addresses, refining the set of free addresses.
    - Ring, RingProofs, RingClaims: src/usr/lib/libtapestry/src/ring.rs and [RingCore]
      of lib.rs, the event ring, as a state machine with its reads in flight.
    - Present, PresentProofs, PresentClaims: the client half of a present
      ([Surface] of src/usr/lib/libtapestry/src/lib.rs) and the compositor's gates
      ([present], [rects_cover_full] of src/usr/tapestryd/src/server.rs).
    - Heap, HeapProofs, HeapClaims: src/usr/lib/thyla-heap/src/lib.rs, dlmalloc's
      platform and the direct blocks, with threads interleaving between their atomic
      steps.

    ** What the theorems show

    - The pane tree: from a new layout every verb returns and keeps the invariant;
      splits, closes, hosts, moves, keeps, focus and workspace changes each do to
      the abstract tree what they say and nothing else; a recompute tiles the
      canvas without overlap.
    - The keyboard: a key pressed with Super reaches no surface until it is released,
      whatever is rebound meanwhile; a key a surface had goes on to that surface, and one
      that no one had goes where a press would go by then; the chord table's text
      rebuilds it.
    - The codec: parsers decode exactly the wire format and never panic on any
      bytes; builders frame exactly; ring messages round trip.
    - The carve: children partition the extent, the flex loop terminates, drags and
      stacks respect their minima.
    - The glob matcher: it returns on every input, and accepts exactly what the
      pattern documents, on inputs without a slash and for patterns of literals and
      stars on all; where it does not is stated too; escapes round trip.
    - Framing: a stream of messages is given back whole and in order however it is
      cut into chunks, and what is buffered of any stream is capped.
    - JSON: on any bytes the parser returns a value of its type or an error inside
      the input, and reads a serialized value back as itself.
    - The terminal: no byte stream, resize or theme change stops it or breaks its
      invariant; the alternate screen leaves the main one alone; line operations are
      gaps opened and closed in a list of rows; a resize re-cuts logical lines,
      hands what slides off the top to the history where that is captured, and cuts
      off text only below a full screen; a synchronized frame is held for a bounded
      time.
    - The toolkit: its frames of printable characters of width one, drawn on that
      terminal, appear as drawn, a session of such frames gives the screen back as it
      found it, the size probe is answered and read back after at most 18 typed bytes;
      the intake hands out each event without reading past it, at the end of the file and
      over errors too; layouts tile.
    - The editor: any session of keys, answers and redraws runs without a panic and
      keeps the cursor in the text of every buffer; keys lose no work unasked (the
      exceptions, [:wq] on a failed write and [:q] over other buffers, are evaluated
      in NoraPromises); the buffer implements its abstract document; cut and paste,
      search, replace by several carets, bracket jumps, scrolling and the numbering
      of the variables tile do what they say.
    - Virtqueues: no slot is posted over while in flight and no more is reaped than
      was posted, whatever the device reports.
    - The mapping window and the heap: what is handed out is held by nobody else,
      counts are exact, releases restore.
    - The event ring: a completion reaches the slot and generation it was armed
      for, events are FIFO, slots are recycled, errors mean what they say.
    - Presents: a descriptor means the same at both ends, bad ones are refused, the
      cover test is pixel coverage, buffer ages are exact.

    ** Bounds and fuel

    Recursion that is not structural takes fuel, and the theorems that a function
    returns show it is enough: walks of the pane tree take the arena's length (every
    walk descends or climbs a tree of distinct slots), the flex loop one round per
    child, the record loop of a completion one step per byte, the heap's halving
    loop 64 steps (a length below 2^64 halves to the least in fewer), the glob loop
    one turn per pattern byte for each byte the star can start from, a drain of
    frames one turn per byte buffered, the JSON parser one level per nesting it
    allows ([MAX_DEPTH] and one to refuse) and its loops the bytes left, the width
    search one turn per table entry, a re-cut one turn per row.  A terminal's sides
    are below 2^31, so that the cell count and every cursor sum fit a word; the
    toolkit's are [u16], and its size probe parks the cursor at 9999, so is exact up
    to there.  The intake's loop takes the 4096 quiet bytes the code allows.  The
    editor's walks (word motions, the enclosing bracket) take one turn per position
    of the document, its other loops are structural; its revision counter is a [u64]
    and its bracket depth an [i32], so sessions ask for room before each input
    ([room]: a revision below 2^64 less what the longest count and paste can add, a
    text of less than 2^31 characters), and a tree of variables for open nodes nested
    no deeper than a [u16].  Surface
    slots are below 65533, so that an owner packs and unpacks.  A
    layout's epoch and ids are counters; theorems about a run ask that they are not about to
    pass 2^64.

    ** What is not modelled

    The kernel and everything that only moves bytes through it: the 9P serving
    loops, device and scanout I/O, rendering.  What such code answers is an argument
    of the definitions that use it (whether a write or a mapping succeeded, the
    completions and the bytes they left, what a reservation returned), and what is
    assumed of it is a hypothesis (the kernel completes each read once, and maps only
    fresh ranges).  dlmalloc, the TCP/IP stack and the cryptography are third-party.
    Of the pane tree, the resize tracks are defined and evaluated but have no
    theorem yet.  Of JSON, the decimal text of a float is core's and enters by its
    laws.  A terminal's renderer (the painting of cells) is not modelled, and the
    text a resize keeps is stated for screens of single-width cells.  Of the
    toolkit, the widgets and the poll loop (source.rs) are not modelled; frames are
    stated for single-width printable glyphs (the toolkit sends any character as it is)
    and writes that succeed.  Of the editor,
    the rendering (view.rs, theme.rs, syntax.rs) and the processes it talks to
    (lsp_host.rs, dap_host.rs, the poll loop of main.rs) are not modelled; what they
    hand the editor is an input.  A motion's count is a number and positions are
    natural numbers, bounded by the text in memory.

    ** Plan

    Next: the tracks; the pointer's buttons and grabs (tapestryd/server.rs); the desktop's
    queues and selections (halcyond/downq.rs, select.rs); the wire formats of
    inlinewire and beacon; path resolution (libthyla-rs/fs/path.rs); the
    toolkit's widgets (kaua/widget.rs); the editor's view; the RPC and DAP layers of parley over the JSON
    and the framing. *)

From stdpp Require Export prelude.
From stdpp Require Import sorting.
From Stdlib Require Export ZArith Lia.

#[global] Set Default Goal Selector "!".

(** ** Outcomes

    Every crate of the workspace is built with [overflow-checks = true]
    (src/usr/Cargo.toml), so an arithmetic overflow, an out-of-range index and
    an [unwrap] of [None] all stop the program.  [outcome] makes that visible:
    [Done] carries a value, [Panic] is a Rust panic and [OutOfFuel] is a
    recursion that did not finish within the fuel of the model.  Theorems that
    a function returns say that it is [Done]. *)

Inductive outcome (A : Type) : Type :=
  | Done (a : A)
  | Panic
  | OutOfFuel.
Arguments Done {A} a.
Arguments Panic {A}.
Arguments OutOfFuel {A}.

#[global] Instance outcome_ret : MRet outcome := @Done.
#[global] Instance outcome_bind : MBind outcome := λ A B k m,
  match m with
  | Done a => k a
  | Panic => Panic
  | OutOfFuel => OutOfFuel
  end.
(** One step of a sequence whose head has returned. *)
Tactic Notation "obind" := cbn [mbind outcome_bind].
Tactic Notation "obind" "in" hyp(H) := cbn [mbind outcome_bind] in H.
(** The same by rewriting, where the continuation is not to be reduced. *)
Lemma bind_done {A B} (a : A) (k : A → outcome B) : Done a ≫= k = k a.
Proof. done. Qed.
#[global] Instance outcome_fmap : FMap outcome := λ A B f m,
  match m with
  | Done a => Done (f a)
  | Panic => Panic
  | OutOfFuel => OutOfFuel
  end.

#[global] Instance outcome_eq_dec `{EqDecision A} : EqDecision (outcome A).
Proof. solve_decision. Defined.

(** [Option::unwrap], [Option::expect]. *)
Definition unwrap {A} (o : option A) : outcome A :=
  match o with Some a => Done a | None => Panic end.

(** ** Results

    [Result<A, E>]; the [?] operator is the bind of [outcome (result E A)]. *)

Inductive result (E A : Type) : Type :=
  | Ok (a : A)
  | Err (e : E).
Arguments Ok {E A} a.
Arguments Err {E A} e.

#[global] Instance result_eq_dec `{EqDecision E, EqDecision A} :
  EqDecision (result E A).
Proof. solve_decision. Defined.

Definition try_bind {E A B} (m : outcome (result E A))
    (k : A → outcome (result E B)) : outcome (result E B) :=
  match m with
  | Done (Ok a) => k a
  | Done (Err e) => Done (Err e)
  | Panic => Panic
  | OutOfFuel => OutOfFuel
  end.

Declare Scope rust_scope.
Delimit Scope rust_scope with rust.
Notation "x '←?' m ; k" := (try_bind m (λ x, k))
  (at level 20, m at level 100, k at level 200, only parsing) : rust_scope.
Notation "' x '←?' m ; k" := (try_bind m (λ x, k))
  (at level 20, x pattern, m at level 100, k at level 200, only parsing) : rust_scope.

(** The [?] operator on an [Option] inside a function returning [Option]. *)
Definition opt_try {A B} (m : outcome (option A)) (k : A → outcome (option B)) :
    outcome (option B) :=
  match m with
  | Done (Some a) => k a
  | Done None => Done None
  | Panic => Panic
  | OutOfFuel => OutOfFuel
  end.

Notation "x '←!' m ; k" := (opt_try m (λ x, k))
  (at level 20, m at level 100, k at level 200, only parsing) : rust_scope.
Notation "' x '←!' m ; k" := (opt_try m (λ x, k))
  (at level 20, x pattern, m at level 100, k at level 200, only parsing) : rust_scope.
Open Scope rust_scope.

(** ** Machine integers

    A [w]-bit unsigned integer is a [Z]; its range is [in_u w]. *)

Definition in_u (w x : Z) : Prop := (0 ≤ x < 2 ^ w)%Z.
#[global] Instance in_u_dec w x : Decision (in_u w x).
Proof. unfold in_u. apply _. Defined.

Definition u_max (w : Z) : Z := (2 ^ w - 1)%Z.

(** Arithmetic with overflow checks. *)
Definition uadd (w a b : Z) : outcome Z :=
  if (a + b <=? u_max w)%Z then Done (a + b)%Z else Panic.
Definition usub (a b : Z) : outcome Z :=
  if (b <=? a)%Z then Done (a - b)%Z else Panic.
Definition umul (w a b : Z) : outcome Z :=
  if (a * b <=? u_max w)%Z then Done (a * b)%Z else Panic.

(** [checked_add], [saturating_add], [saturating_sub], [saturating_mul],
    a truncating cast, and a left shift at width [w]. *)
Definition checked_add (w a b : Z) : option Z :=
  if (a + b <=? u_max w)%Z then Some (a + b)%Z else None.
Definition checked_mul (w a b : Z) : option Z :=
  if (a * b <=? u_max w)%Z then Some (a * b)%Z else None.
Definition sat_add (w a b : Z) : Z := Z.min (a + b) (u_max w).
Definition sat_sub (a b : Z) : Z := Z.max (a - b) 0.
Definition sat_mul (w a b : Z) : Z := Z.min (a * b) (u_max w).
Definition as_u (w x : Z) : Z := (x mod 2 ^ w)%Z.
Definition ushl (w x k : Z) : Z := as_u w (Z.shiftl x k).

Lemma uadd_ok w a b : (a + b ≤ u_max w)%Z → uadd w a b = Done (a + b)%Z.
Proof. intros H. unfold uadd. by rewrite (proj2 (Z.leb_le _ _) H). Qed.
Lemma uadd_panic w a b : (u_max w < a + b)%Z → uadd w a b = Panic.
Proof. intros H. unfold uadd. by rewrite (proj2 (Z.leb_gt _ _) H). Qed.
Lemma usub_ok a b : (b ≤ a)%Z → usub a b = Done (a - b)%Z.
Proof. intros H. unfold usub. by rewrite (proj2 (Z.leb_le _ _) H). Qed.
Lemma umul_ok w a b : (a * b ≤ u_max w)%Z → umul w a b = Done (a * b)%Z.
Proof. intros H. unfold umul. by rewrite (proj2 (Z.leb_le _ _) H). Qed.
Lemma uadd_inv w a b c : uadd w a b = Done c → c = (a + b)%Z ∧ (a + b ≤ u_max w)%Z.
Proof. unfold uadd. destruct (Z.leb_spec (a + b) (u_max w)); naive_solver. Qed.
Lemma usub_inv a b c : usub a b = Done c → c = (a - b)%Z ∧ (b ≤ a)%Z.
Proof. unfold usub. destruct (Z.leb_spec b a); naive_solver. Qed.

Lemma as_u_small w x : in_u w x → as_u w x = x.
Proof. intros H. apply Z.mod_small, H. Qed.
Lemma as_u_in w x : (0 ≤ w)%Z → in_u w (as_u w x).
Proof. intros H. apply Z.mod_pos_bound, Z.pow_pos_nonneg; lia. Qed.

(** Signed arithmetic at width [w]: the result if it is in range, else a panic. *)
Definition in_i (w x : Z) : Prop := (- 2 ^ (w - 1) ≤ x < 2 ^ (w - 1))%Z.
Definition ichk (w x : Z) : outcome Z :=
  if ((- 2 ^ (w - 1) <=? x) && (x <? 2 ^ (w - 1)))%Z then Done x else Panic.
(** [x as i<w>]: two's complement. *)
Definition as_i (w x : Z) : Z := ((x + 2 ^ (w - 1)) mod 2 ^ w - 2 ^ (w - 1))%Z.

Lemma ichk_ok w x : in_i w x → ichk w x = Done x.
Proof.
  intros [H1 H2]. unfold ichk.
  by rewrite (proj2 (Z.leb_le _ _) H1), (proj2 (Z.ltb_lt _ _) H2).
Qed.
Lemma as_i_small w x : (0 < w)%Z → in_i w x → as_i w x = x.
Proof.
  intros Hw [H1 H2]. unfold as_i.
  assert (2 ^ w = 2 * 2 ^ (w - 1))%Z as Hp.
  { rewrite <-Z.pow_succ_r by lia. f_equal. lia. }
  rewrite Z.mod_small by lia. lia.
Qed.

(** ** Loops

    [for x in l { ... }] threading a state, and the short-circuiting
    [any], [all] and [find_map] of an iterator whose closure may stop. *)

Section Loops.
Context {A B C : Type}.
Fixpoint foldM (f : A → B → outcome A) (a : A) (l : list B) : outcome A :=
  match l with
  | [] => Done a
  | b :: l => a ← f a b; foldM f a l
  end.
Fixpoint mapM_o (f : B → outcome C) (l : list B) : outcome (list C) :=
  match l with
  | [] => Done []
  | b :: l => c ← f b; cs ← mapM_o f l; Done (c :: cs)
  end.
Fixpoint anyM (f : B → outcome bool) (l : list B) : outcome bool :=
  match l with
  | [] => Done false
  | b :: l => r ← f b; if (r : bool) then Done true else anyM f l
  end.
Fixpoint allM (f : B → outcome bool) (l : list B) : outcome bool :=
  match l with
  | [] => Done true
  | b :: l => r ← f b; if (r : bool) then allM f l else Done false
  end.
Fixpoint filterM (f : B → outcome bool) (l : list B) : outcome (list B) :=
  match l with
  | [] => Done []
  | b :: l => r ← f b; rest ← filterM f l; Done (if (r : bool) then b :: rest else rest)
  end.
Fixpoint find_mapM (f : B → outcome (option C)) (l : list B) : outcome (option C) :=
  match l with
  | [] => Done None
  | b :: l => r ← f b; match r with Some c => Done (Some c) | None => find_mapM f l end
  end.
End Loops.

Lemma foldM_inv {A B} (P : A → Prop) (f : A → B → outcome A) a l :
  P a → (∀ a b, b ∈ l → P a → ∃ a', f a b = Done a' ∧ P a') →
  ∃ a', foldM f a l = Done a' ∧ P a'.
Proof.
  revert a. induction l as [|b l IH]; intros a Ha Hf; [by exists a|]. cbn.
  destruct (Hf a b) as (a' & -> & Ha'); [left|done|]. cbn. apply IH; [done|].
  intros a2 b2 Hb2. apply Hf. by right.
Qed.
Lemma foldM_app {A B} (f : A → B → outcome A) a l1 l2 : foldM f a (l1 ++ l2) = (a ← foldM f a l1; foldM f a l2).
Proof. revert a. induction l1 as [|b l1 IH]; intros a; [done|]. cbn. destruct (f a b); cbn; [apply IH|done..]. Qed.
Lemma mapM_total {A B} (f : A → outcome B) l :
  (∀ a, a ∈ l → ∃ b, f a = Done b) → ∃ bs, mapM_o f l = Done bs ∧ length bs = length l.
Proof.
  induction l as [|a l IH]; intros Hf; [by exists []|]. cbn.
  destruct (Hf a) as [b ->]; [left|]. destruct IH as (bs & -> & Hl); [intros; apply Hf; by right|].
  cbn. eexists. split; [done|]. cbn. by rewrite Hl.
Qed.
Lemma mapM_Forall {A B} (P : B → Prop) (f : A → outcome B) l :
  (∀ a, a ∈ l → ∃ b, f a = Done b ∧ P b) → ∃ bs, mapM_o f l = Done bs ∧ length bs = length l ∧ Forall P bs.
Proof.
  induction l as [|a l IH]; intros Hf; [by exists []|]. cbn. destruct (Hf a) as (b & -> & Hb); [left|].
  destruct IH as (bs & -> & Hl & HF); [intros; apply Hf; by right|]. cbn. eexists. split; [done|]. cbn. rewrite Hl.
  split; [done|by constructor].
Qed.
Lemma anyM_existsb {A} (f : A → outcome bool) (g : A → bool) l :
  (∀ a, a ∈ l → f a = Done (g a)) → anyM f l = Done (existsb g l).
Proof.
  induction l as [|a l IH]; intros Hf; [done|]. cbn. rewrite Hf by left. cbn. destruct (g a); [done|].
  apply IH. intros b Hb. apply Hf. by right.
Qed.
Lemma forallb_Forall {A} (f : A → bool) xs : forallb f xs = true ↔ Forall (λ x, f x = true) xs.
Proof. rewrite forallb_forall, Forall_forall. by setoid_rewrite list_elem_of_In. Qed.
Lemma allM_forallb {A} (f : A → outcome bool) (g : A → bool) l :
  (∀ a, a ∈ l → f a = Done (g a)) → allM f l = Done (forallb g l).
Proof.
  induction l as [|a l IH]; intros Hf; [done|]. cbn. rewrite Hf by left. cbn. destruct (g a); [|done].
  apply IH. intros b Hb. apply Hf. by right.
Qed.
Lemma filterM_filter {A} (f : A → outcome bool) (g : A → bool) l :
  (∀ a, a ∈ l → f a = Done (g a)) → filterM f l = Done (List.filter g l).
Proof.
  induction l as [|a l IH]; intros Hf; [done|]. cbn. rewrite Hf by left. cbn.
  rewrite IH; [done|]. intros b Hb. apply Hf. by right.
Qed.
Lemma mapM_fmap {A B} (f : A → outcome B) (g : A → B) l :
  (∀ a, a ∈ l → f a = Done (g a)) → mapM_o f l = Done (g <$> l).
Proof.
  induction l as [|a l IH]; intros Hf; [done|]. cbn. rewrite Hf by left. cbn.
  rewrite IH; [done|]. intros b Hb. apply Hf. by right.
Qed.
Lemma existsb_fmap {A B} (f : A → B) (p : B → bool) l : existsb p (f <$> l) = existsb (λ a, p (f a)) l.
Proof. induction l as [|a l IH]; [done|]. cbn. f_equal. exact IH. Qed.
Lemma existsb_ext_in {A} (p q : A → bool) l : (∀ a, a ∈ l → p a = q a) → existsb p l = existsb q l.
Proof.
  induction l as [|a l IH]; intros H; [done|]. cbn. rewrite H by left. f_equal. apply IH. intros b Hb. apply H. by right.
Qed.

(** What a step keeps holds of all that is reached. *)
Lemma rtc_keeps {A} (R : relation A) (P : A → Prop) x y :
  (∀ x y, R x y → P x → P y) → P x → rtc R x y → P y.
Proof. intros HR Hx H. induction H as [|x y z Hs _ IH]; [done|]. apply IH. by eapply HR. Qed.

(** [iter().position(p)]. *)
Fixpoint position {A} (p : A → bool) (l : list A) : option nat :=
  match l with
  | [] => None
  | a :: l => if p a then Some 0 else S <$> position p l
  end.
Lemma position_Some {A} (p : A → bool) l i : position p l = Some i →
  ∃ x, l !! i = Some x ∧ p x = true.
Proof.
  revert i. induction l as [|a l IH]; intros i; cbn; [done|].
  destruct (p a) eqn:Hp; [intros [= <-]; by exists a|].
  destruct (position p l) as [j|] eqn:Hj; [|done]. intros [= <-]. by apply IH.
Qed.
Lemma position_None {A} (p : A → bool) l : position p l = None → Forall (λ x, p x = false) l.
Proof.
  induction l as [|a l IH]; cbn; [by constructor|].
  destruct (p a) eqn:Hp; [done|]. destruct (position p l); [done|]. constructor; auto.
Qed.
Lemma position_first {A} (p : A → bool) l i x : l !! i = Some x → p x = true →
  (∀ j y, (j < i)%nat → l !! j = Some y → p y = false) → position p l = Some i.
Proof.
  revert i. induction l as [|a l IH]; intros i Hi Hp Hf; [done|].
  destruct i as [|i]; cbn in *; [simplify_eq; by rewrite Hp|].
  rewrite (Hf 0 a) by (done || lia). rewrite (IH i); [done..|].
  intros j y Hj Hl. by apply (Hf (S j)); [lia|].
Qed.
Lemma position_split {A} (p : A → bool) v i : position p v = Some i →
  ∃ v1 x v2, v = v1 ++ x :: v2 ∧ length v1 = i ∧ p x = true ∧ Forall (λ y, p y = false) v1.
Proof.
  revert i. induction v as [|x v IH]; intros i; cbn [position]; [done|]. destruct (p x) eqn:Hx.
  - intros [= <-]. by exists [], x, v.
  - destruct (position p v) as [j|]; [|done]. intros [= <-].
    destruct (IH j eq_refl) as (v1 & y & v2 & -> & <- & Hy & Hall). exists (x :: v1), y, v2.
    split; [done|]. split; [done|]. split; [done|]. by constructor.
Qed.

(** ** Slices

    A slice or a [Vec] is a list; [usize] offsets into a byte buffer are [Z].
    Indexing and slicing out of range panic. *)

Notation zlen l := (Z.of_nat (length l)).

Definition idx {A} (l : list A) (i : Z) : outcome A :=
  if (0 <=? i)%Z then unwrap (l !! Z.to_nat i) else Panic.
Definition set_idx {A} (l : list A) (i : Z) (v : A) : outcome (list A) :=
  if (0 <=? i)%Z && (i <? zlen l)%Z then Done (<[Z.to_nat i := v]> l) else Panic.
(** [&l[a..b]] *)
Definition slice {A} (l : list A) (a b : Z) : outcome (list A) :=
  if (0 <=? a)%Z && (a <=? b)%Z && (b <=? zlen l)%Z
  then Done (take (Z.to_nat (b - a)) (drop (Z.to_nat a) l)) else Panic.
(** [l[a..b].copy_from_slice(s)]: panics on a range or length mismatch. *)
Definition copy_from_slice {A} (l : list A) (a b : Z) (s : list A) : outcome (list A) :=
  if (0 <=? a)%Z && (a <=? b)%Z && (b <=? zlen l)%Z && (zlen s =? b - a)%Z
  then Done (take (Z.to_nat a) l ++ s ++ drop (Z.to_nat b) l) else Panic.

(** [Vec::insert], [Vec::remove] and [slice::swap], which panic out of range. *)
Definition vec_insert {A} (v : list A) (i : nat) (x : A) : outcome (list A) :=
  if i <=? length v then Done (take i v ++ x :: drop i v) else Panic.
Definition vec_remove {A} (v : list A) (i : nat) : outcome (list A) :=
  if i <? length v then Done (delete i v) else Panic.
Definition vec_swap {A} (v : list A) (i j : nat) : outcome (list A) :=
  a ← unwrap (v !! i); b ← unwrap (v !! j); Done (<[j := a]> (<[i := b]> v)).

Lemma idx_app_mid {A} (d r : list A) x i :
  i = zlen d → idx (d ++ x :: r) i = Done x.
Proof.
  intros ->. unfold idx. rewrite (proj2 (Z.leb_le _ _)) by lia.
  rewrite Nat2Z.id, list_lookup_middle by done. done.
Qed.

Lemma set_idx_app_mid {A} (d r : list A) x v i :
  i = zlen d → set_idx (d ++ x :: r) i v = Done (d ++ v :: r).
Proof.
  intros ->. unfold set_idx.
  rewrite (proj2 (Z.leb_le _ _)), (proj2 (Z.ltb_lt _ _)) by (rewrite ?length_app; simpl; lia).
  simpl. rewrite Nat2Z.id, insert_app_r_alt, Nat.sub_diag by lia. done.
Qed.

Lemma slice_app_mid {A} (d s r : list A) a b :
  a = zlen d → b = (zlen d + zlen s)%Z → slice (d ++ s ++ r) a b = Done s.
Proof.
  intros -> ->. unfold slice.
  rewrite !(proj2 (Z.leb_le _ _)) by (rewrite ?length_app; lia). simpl.
  rewrite Nat2Z.id, drop_app_length. f_equal.
  replace (Z.to_nat _) with (length s) by lia. by rewrite take_app_length.
Qed.

Lemma copy_app_mid {A} (d r s : list A) a b :
  a = zlen d → b = (zlen d + zlen s)%Z → length s ≤ length r →
  copy_from_slice (d ++ r) a b s = Done (d ++ s ++ drop (length s) r).
Proof.
  intros -> -> Hr. unfold copy_from_slice.
  rewrite !(proj2 (Z.leb_le _ _)), (proj2 (Z.eqb_eq _ _)) by (rewrite ?length_app; lia).
  simpl. rewrite Nat2Z.id, take_app_length. do 3 f_equal.
  replace (Z.to_nat _) with (length d + length s) by lia.
  by rewrite drop_app_add'.
Qed.

(** ** Little-endian words *)

Fixpoint le_bytes (n : nat) (v : Z) : list Z :=
  match n with
  | 0 => []
  | S n => (v mod 256)%Z :: le_bytes n (v / 256)
  end.
Fixpoint le_val (bs : list Z) : Z :=
  match bs with
  | [] => 0
  | b :: bs => (b + 256 * le_val bs)%Z
  end.

Definition is_byte (b : Z) : Prop := in_u 8 b.
Notation bytes_ok := (Forall is_byte).

Lemma length_le_bytes n v : length (le_bytes n v) = n.
Proof. revert v. induction n; simpl; auto. Qed.

Lemma le_bytes_ok n v : bytes_ok (le_bytes n v).
Proof.
  revert v. induction n as [|n IH]; intros v; simpl; constructor; auto.
  apply Z.mod_pos_bound. lia.
Qed.

Lemma pow_256_succ n : (2 ^ (8 * Z.of_nat (S n)) = 256 * 2 ^ (8 * Z.of_nat n))%Z.
Proof.
  replace (8 * Z.of_nat (S n))%Z with (8 + 8 * Z.of_nat n)%Z by lia.
  rewrite Z.pow_add_r by lia. done.
Qed.

Lemma le_val_bytes n v : in_u (8 * Z.of_nat n) v → le_val (le_bytes n v) = v.
Proof.
  revert v. induction n as [|n IH]; intros v Hv; unfold in_u in *.
  { change (2 ^ (8 * Z.of_nat 0))%Z with 1%Z in Hv. simpl. lia. }
  rewrite pow_256_succ in Hv. simpl.
  rewrite IH; [|split; [apply Z.div_pos; lia|apply Z.div_lt_upper_bound; lia]].
  pose proof (Z.div_mod v 256). lia.
Qed.

Lemma le_val_bound bs : bytes_ok bs → in_u (8 * zlen bs) (le_val bs).
Proof.
  induction 1 as [|b bs Hb _ IH]; unfold in_u, is_byte in *; simpl length; [done|].
  rewrite pow_256_succ. simpl. unfold in_u in Hb. lia.
Qed.

Lemma le_bytes_val bs : bytes_ok bs → le_bytes (length bs) (le_val bs) = bs.
Proof.
  induction 1 as [|b bs Hb _ IH]; simpl; [done|].
  unfold is_byte, in_u in Hb.
  rewrite (Z.mul_comm 256), Z.mod_add, Z.mod_small, Z.div_add, Z.div_small by lia.
  by rewrite Z.add_0_l, IH.
Qed.

Section Words.
Local Open Scope Z_scope.
(** [uN::from_le_bytes] of the [n] bytes at [o]. *)
Definition get_le (d : list Z) (n : nat) (o : Z) : outcome Z :=
  bs ← mapM_o (λ k, i ← uadd 64 o (Z.of_nat k); idx d i) (seq 0 n);
  Done (le_val bs).

(** The [n] bytes at [o]. *)
Definition bytes_at (d : list Z) (n : nat) (o : Z) : list Z := take n (drop (Z.to_nat o) d).
Lemma idx_lookup (d : list Z) i : 0 ≤ i → idx d i = unwrap (d !! Z.to_nat i).
Proof. intros H. unfold idx. by rewrite (proj2 (Z.leb_le _ _)). Qed.
Lemma get_le_ok d n o : 0 ≤ o → o + Z.of_nat n ≤ zlen d → zlen d ≤ u_max 64 →
  get_le d n o = Done (le_val (bytes_at d n o)).
Proof.
  intros Ho Hn Hd. unfold get_le.
  enough (mapM_o (λ k, i ← uadd 64 o (Z.of_nat k); idx d i) (seq 0 n) = Done (bytes_at d n o)) as -> by done.
  assert (∀ m j, (j + m = n)%nat → mapM_o (λ k, i ← uadd 64 o (Z.of_nat k); idx d i) (seq j m) =
    Done (take m (drop (Z.to_nat o + j) d))) as H.
  { induction m as [|m IH]; intros j Hj; [done|]. cbn [seq mapM_o]. rewrite uadd_ok by lia. obind.
    rewrite (idx_lookup d (o + Z.of_nat j)) by lia.
    replace (Z.to_nat (o + Z.of_nat j)) with (Z.to_nat o + j)%nat by lia.
    destruct (lookup_lt_is_Some_2 d (Z.to_nat o + j)) as [x Hx]; [lia|]. rewrite Hx. cbn [unwrap mbind outcome_bind].
    rewrite IH by lia. obind. rewrite (drop_S _ _ _ Hx). cbn [take].
    by replace (Z.to_nat o + S j)%nat with (S (Z.to_nat o + j)) by lia. }
  rewrite (H n 0%nat) by lia. unfold bytes_at. by rewrite Nat.add_0_r.
Qed.
Lemma bytes_at_mid (d s r : list Z) n o : o = zlen d → length s = n → bytes_at (d ++ s ++ r) n o = s.
Proof. intros -> <-. unfold bytes_at. by rewrite Nat2Z.id, drop_app_length, take_app_length. Qed.
(** A word read back where it was written. *)
Lemma get_le_mid (d r : list Z) n o v : o = zlen d → in_u (8 * Z.of_nat n) v → zlen (d ++ le_bytes n v ++ r) ≤ u_max 64 →
  get_le (d ++ le_bytes n v ++ r) n o = Done v.
Proof.
  intros Ho Hv Hl. rewrite get_le_ok; [|lia|rewrite !length_app, length_le_bytes; lia|done].
  rewrite bytes_at_mid by (done || apply length_le_bytes). by rewrite le_val_bytes.
Qed.
End Words.

(** An [|] of a value with one shifted past it is their sum. *)
Lemma lor_shiftl_add a b k :
  (0 ≤ k)%Z → in_u k a → Z.lor a (Z.shiftl b k) = (a + b * 2 ^ k)%Z.
Proof.
  intros Hk Ha. rewrite <-Z.shiftl_mul_pow2 by done. symmetry.
  apply Z.add_nocarry_lor. apply Z.bits_inj'. intros i Hi.
  rewrite Z.land_spec, Z.shiftl_spec, Z.bits_0 by done.
  destruct (Z_lt_le_dec i k) as [?|?].
  - rewrite (Z.testbit_neg_r b) by lia. apply andb_false_r.
  - rewrite <-(Z.mod_small a (2 ^ k)) by apply Ha.
    by rewrite Z.mod_pow2_bits_high.
Qed.

Lemma land_255 v : Z.land v 255 = (v mod 256)%Z.
Proof. change 255%Z with (Z.ones 8). by rewrite Z.land_ones. Qed.

(** ** Sorting

    [sort_unstable] of values whose order is total: elements that compare equal
    are equal, so any sort gives the same list. *)

Section Sort.
Context {A : Type} (le : A → A → bool).
Fixpoint sort_insert (a : A) (l : list A) : list A :=
  match l with
  | [] => [a]
  | b :: l => if le a b then a :: b :: l else b :: sort_insert a l
  end.
Definition isort (l : list A) : list A := foldr sort_insert [] l.

Lemma sort_insert_perm a l : sort_insert a l ≡ₚ a :: l.
Proof.
  induction l as [|b l IH]; [done|]. cbn [sort_insert]. destruct (le a b); [done|]. rewrite IH. apply Permutation_swap.
Qed.
Lemma isort_perm l : isort l ≡ₚ l.
Proof. induction l as [|a l IH]; [done|]. unfold isort in *. cbn [foldr]. by rewrite sort_insert_perm, IH. Qed.

Context (le_total : ∀ a b, le a b = false → le b a = true)
  (le_trans : ∀ a b c, le a b = true → le b c = true → le a c = true).
Lemma isort_sorted l : StronglySorted (λ a b, le a b = true) (isort l).
Proof.
  induction l as [|a l IH]; [constructor|]. unfold isort in *. cbn [foldr].
  induction IH as [|b l' Hs IHs Hb]; cbn [sort_insert]; [repeat constructor|].
  destruct (le a b) eqn:Hab.
  - constructor; [by constructor|]. constructor; [done|]. eapply Forall_impl; [exact Hb|]. intros c. by apply le_trans.
  - constructor; [done|]. rewrite sort_insert_perm. constructor; [by apply le_total|done].
Qed.
End Sort.
