(* ===== verification/NinePProofs.v ===== *)
(** * Correctness of the 9P codec

    The wire format is stated as byte strings: [frame], [str_bytes],
    [qid_bytes] and one body per message.  [Emits] says that a packer appends
    exactly the given bytes or fails without touching what precedes its
    offset; [Codec] says that an unpacker decodes exactly the encodings of its
    values, fails on every other input, and never panics.  Both are closed
    under sequencing, so each message's theorem is a composition. *)

From S2P Require Import Prelude NineP.
Import NineP.
Open Scope Z_scope.

Module NinePProofs.

(** ** The wire format *)

Definition str_bytes (s : list Z) : list Z := le_bytes 2 (zlen s) ++ s.
Definition qid_bytes (q : Qid) : list Z :=
  [kind q] ++ le_bytes 4 (version q) ++ le_bytes 8 (path q).
Definition frame (mtype tag : Z) (body : list Z) : list Z :=
  le_bytes 4 (P9_HDR_LEN + zlen body) ++ [mtype] ++ le_bytes 2 tag ++ body.

(** A buffer a Rust slice can be. *)
Definition buf_ok (buf : list Z) : Prop := zlen buf < 2 ^ 63.

(** A packer appends [bs] at its offset, or fails and leaves the prefix. *)
Class Emits (m : Z → W Z) (bs : list Z) : Prop := {
  emits_ok d r : buf_ok (d ++ r) → (length bs ≤ length r)%nat →
    m (zlen d) (d ++ r) = Done (d ++ bs ++ drop (length bs) r, Ok (zlen d + zlen bs));
  emits_err d r : buf_ok (d ++ r) → (length r < length bs)%nat →
    ∃ r', m (zlen d) (d ++ r) = Done (d ++ r', Err tt) ∧ length r' = length r;
}.

(** A builder produces [msg] at the front of the buffer, or fails when the
    buffer is too short for it. *)
Definition Frames (b : W Z) (msg : list Z) : Prop := ∀ out, buf_ok out →
  if decide (length msg ≤ length out)%nat
  then b out = Done (msg ++ drop (length msg) out, Ok (zlen msg))
  else ∃ out', b out = Done (out', Err tt) ∧ length out' = length out.

(** The continuation of a builder after the header and [d] body bytes. *)
Definition Finish (k : Z → W Z) (bs : list Z) : Prop := ∀ mtype tag d r,
  let h := le_bytes 4 0 ++ [mtype] ++ le_bytes 2 tag ++ d in
  buf_ok (h ++ r) → P9_HDR_LEN + zlen (d ++ bs) ≤ u_max 32 →
  if decide (length bs ≤ length r)%nat
  then k (zlen h) (h ++ r) =
         Done (frame mtype tag (d ++ bs) ++ drop (length bs) r,
               Ok (P9_HDR_LEN + zlen (d ++ bs)))
  else ∃ out', k (zlen h) (h ++ r) = Done (out', Err tt) ∧
               length out' = length (h ++ r).

(** An unpacker decodes exactly the encodings [enc a] of the valid [a]. *)
Class Codec {A} (p : list Z → Z → res (A * Z)) (enc : A → list Z)
    (valid : A → Prop) : Prop := {
  codec_run d r : buf_ok (d ++ r) → bytes_ok (d ++ r) →
    (∃ a r', valid a ∧ r = enc a ++ r' ∧
       p (d ++ r) (zlen d) = Done (Ok (a, zlen d + zlen (enc a)))) ∨
    ((∀ a r', valid a → r ≠ enc a ++ r') ∧ p (d ++ r) (zlen d) = fail);
  codec_prefix a b r r' : valid a → valid b → enc a ++ r = enc b ++ r' → a = b;
}.

(** A message parser decodes exactly the bodies [enc a] after the header. *)
Definition Parses {A} (parse : list Z → res A) (enc : A → list Z)
    (valid : A → Prop) : Prop := ∀ hdr body,
  zlen hdr = P9_HDR_LEN → buf_ok (hdr ++ body) → bytes_ok (hdr ++ body) →
  (∃ a rest, valid a ∧ body = enc a ++ rest ∧ parse (hdr ++ body) = Done (Ok a) ∧
     ∀ a' rest', valid a' → body = enc a' ++ rest' → a' = a) ∨
  ((∀ a rest, valid a → body ≠ enc a ++ rest) ∧ parse (hdr ++ body) = fail).

(** Two unpackers in sequence; the second may depend on the first's value. *)
Definition pdep {A B} (p : list Z → Z → res (A * Z)) (q : A → list Z → Z → res (B * Z))
    (buf : list Z) (off : Z) : res ((A * B) * Z) :=
  '(a, o) ←? p buf off;
  '(b, o) ←? q a buf o;
  Done (Ok ((a, b), o)).
Notation pseq p q := (pdep p (λ _, q)).

(** [n] names, each of at most [P9_NAME_MAX] bytes. *)
Fixpoint unpack_names (n : nat) (buf : list Z) (off : Z) : res (list (list Z) * Z) :=
  match n with
  | O => Done (Ok ([], off))
  | S n =>
      '(name, o) ←? unpack_str buf off;
      if P9_NAME_MAX <? zlen name then fail else
      '(l, o) ←? unpack_names n buf o;
      Done (Ok (name :: l, o))
  end.

(** The body of a write: a count and that many bytes. *)
Definition unpack_blob (buf : list Z) (off : Z) : res (list Z * Z) :=
  '(count, p) ←? unpack_u32 buf off;
  e ← uadd 64 p count;
  if zlen buf <? e then fail else
  data ← slice buf p e;
  Done (Ok (data, e)).

(** *** Message bodies *)

Definition tversion_body (a : TversionArgs) : list Z :=
  le_bytes 4 (tv_msize a) ++ str_bytes (tv_version a).
Definition tversion_ok (a : TversionArgs) : Prop :=
  in_u 32 (tv_msize a) ∧ in_u 16 (zlen (tv_version a)).

Definition tattach_body (a : TattachArgs) : list Z :=
  le_bytes 4 (ta_fid a) ++ le_bytes 4 (ta_afid a) ++ str_bytes (ta_uname a) ++
  str_bytes (ta_aname a) ++ le_bytes 4 (ta_n_uname a).
Definition tattach_ok (a : TattachArgs) : Prop :=
  in_u 32 (ta_fid a) ∧ in_u 32 (ta_afid a) ∧ in_u 16 (zlen (ta_uname a)) ∧
  in_u 16 (zlen (ta_aname a)) ∧ in_u 32 (ta_n_uname a).

(** The names of a walk are the first [nwname] of the fixed array, whose other
    entries are empty. *)
Definition twalk_body (a : TwalkArgs) : list Z :=
  le_bytes 4 (tw_fid a) ++ le_bytes 4 (tw_newfid a) ++ le_bytes 2 (tw_nwname a) ++
  concat (str_bytes <$> take (Z.to_nat (tw_nwname a)) (tw_names a)).
Definition name_ok (s : list Z) : Prop := zlen s ≤ P9_NAME_MAX.
Definition twalk_ok (a : TwalkArgs) : Prop :=
  in_u 32 (tw_fid a) ∧ in_u 32 (tw_newfid a) ∧ 0 ≤ tw_nwname a ≤ P9_MAX_WALK ∧
  ∃ l, tw_names a = l ++ replicate (16 - length l) [] ∧
       zlen l = tw_nwname a ∧ Forall name_ok l.

Definition tlopen_body (a : TlopenArgs) : list Z :=
  le_bytes 4 (tl_fid a) ++ le_bytes 4 (tl_flags a).
Definition tlopen_ok (a : TlopenArgs) : Prop := in_u 32 (tl_fid a) ∧ in_u 32 (tl_flags a).

Definition tread_body (a : TreadArgs) : list Z :=
  le_bytes 4 (tr_fid a) ++ le_bytes 8 (tr_offset a) ++ le_bytes 4 (tr_count a).
Definition tread_ok (a : TreadArgs) : Prop :=
  in_u 32 (tr_fid a) ∧ in_u 64 (tr_offset a) ∧ in_u 32 (tr_count a).

Definition twrite_body (a : TwriteArgs) : list Z :=
  le_bytes 4 (twr_fid a) ++ le_bytes 8 (twr_offset a) ++
  le_bytes 4 (twr_count a) ++ twr_data a.
Definition twrite_ok (a : TwriteArgs) : Prop :=
  in_u 32 (twr_fid a) ∧ in_u 64 (twr_offset a) ∧ in_u 32 (twr_count a) ∧
  twr_count a = zlen (twr_data a).

Definition treaddir_body (a : TreaddirArgs) : list Z :=
  le_bytes 4 (trd_fid a) ++ le_bytes 8 (trd_offset a) ++ le_bytes 4 (trd_count a).
Definition treaddir_ok (a : TreaddirArgs) : Prop :=
  in_u 32 (trd_fid a) ∧ in_u 64 (trd_offset a) ∧ in_u 32 (trd_count a).

Definition rweft_body (g : WeftGeom) : list Z :=
  le_bytes 8 (share_id g) ++ le_bytes 4 (ring_size g) ++ le_bytes 4 (ring_entries g).
Definition rweft_ok (g : WeftGeom) : Prop :=
  in_u 64 (share_id g) ∧ in_u 32 (ring_size g) ∧ in_u 32 (ring_entries g).

Definition tweftio_body (a : WeftIoReq) : list Z :=
  le_bytes 4 (wi_fid a) ++ le_bytes 4 (wi_off a) ++ le_bytes 4 (wi_len a) ++
  le_bytes 4 (wi_dir a).
Definition tweftio_ok (a : WeftIoReq) : Prop :=
  in_u 32 (wi_fid a) ∧ in_u 32 (wi_off a) ∧ in_u 32 (wi_len a) ∧ in_u 32 (wi_dir a).

Definition rgetattr_body (valid : Z) (qid : Qid) (mode uid gid nlink size : Z) : list Z :=
  le_bytes 8 valid ++ qid_bytes qid ++ le_bytes 4 mode ++ le_bytes 4 uid ++
  le_bytes 4 gid ++ le_bytes 8 nlink ++ le_bytes 8 0 ++ le_bytes 8 size ++
  concat (replicate 12 (le_bytes 8 0)).

Definition dirent_bytes (qid : Qid) (next_offset dtype : Z) (name : list Z) : list Z :=
  qid_bytes qid ++ le_bytes 8 next_offset ++ [dtype] ++ str_bytes name.

(** ** Packers *)

Lemma byte_of_shift v k :
  (0 ≤ k) → as_u 8 (Z.land (Z.shiftr v k) 255) = (v / 2 ^ k) mod 256.
Proof.
  intros Hk. rewrite land_255, Z.shiftr_div_pow2 by done.
  apply as_u_small, Z.mod_pos_bound. lia.
Qed.
Lemma byte_of v : as_u 8 (Z.land v 255) = v mod 256.
Proof. rewrite land_255. apply as_u_small, Z.mod_pos_bound. lia. Qed.

Lemma le_bytes_lookup n v i :
  (i < n)%nat → le_bytes n v !! i = Some ((v / 2 ^ (8 * Z.of_nat i)) mod 256).
Proof.
  revert v i. induction n as [|n IH]; intros v i Hi; [lia|].
  destruct i as [|i]; simpl.
  { by rewrite Z.div_1_r. }
  rewrite IH, pow_256_succ, Z.div_div by lia. done.
Qed.

Lemma le_bytes_4 v :
  le_bytes 4 v = [v mod 256; (v / 2 ^ 8) mod 256; (v / 2 ^ 16) mod 256; (v / 2 ^ 24) mod 256].
Proof.
  simpl. rewrite !Z.div_div by lia. done.
Qed.
Lemma le_bytes_1 v : in_u 8 v → le_bytes 1 v = [v].
Proof. intros H. simpl. by rewrite Z.mod_small. Qed.
Lemma le_bytes_2 v : le_bytes 2 v = [v mod 256; (v / 2 ^ 8) mod 256].
Proof. done. Qed.

Lemma guard_len_ok {A} off n (k : W A) out :
  buf_ok out → 0 ≤ off → off + n ≤ zlen out → guard_len off n k out = k out.
Proof.
  unfold buf_ok. intros Hb H0 H. unfold guard_len.
  rewrite uadd_ok by (unfold u_max; lia). cbn.
  destruct (Z.ltb_spec (zlen out) (off + n)); [lia|done].
Qed.
Lemma guard_len_err {A} off n (k : W A) out :
  off + n ≤ u_max 64 → zlen out < off + n → guard_len off n k out = Done (out, Err tt).
Proof.
  intros Hb H. unfold guard_len. rewrite uadd_ok by done. cbn.
  destruct (Z.ltb_spec (zlen out) (off + n)); [done|lia].
Qed.

Lemma wset_mid {A} (d r : list Z) x i v (k : W A) :
  i = zlen d → wset i v k (d ++ x :: r) = k (d ++ v :: r).
Proof. intros Hi. unfold wset. by rewrite set_idx_app_mid. Qed.

(** A run of [wset]s at consecutive offsets writes the bytes in order. *)
Lemma wset_snoc {A} (d r : list Z) x i v (k : W A) :
  i = zlen d → wset i v k (d ++ x :: r) = k ((d ++ [v]) ++ r).
Proof. intros Hi. rewrite wset_mid by done. by rewrite <-app_assoc. Qed.

Lemma wbind_ok {A B} (m : W A) (k : A → W B) out out' a :
  m out = Done (out', Ok a) → wbind m k out = k a out'.
Proof. intros H. unfold wbind. by rewrite H. Qed.
Lemma wbind_err {A B} (m : W A) (k : A → W B) out out' :
  m out = Done (out', Err tt) → wbind m k out = Done (out', Err tt).
Proof. intros H. unfold wbind. by rewrite H. Qed.

(** The generic step: a guard of [length bs] followed by code that writes
    exactly [bs] when they fit. *)
Lemma emits_guarded (n : Z) (k : Z → W Z) bs :
  n = zlen bs → zlen bs < 2 ^ 63 →
  (∀ d r1 r2, length r1 = length bs →
     k (zlen d) (d ++ r1 ++ r2) = Done (d ++ bs ++ r2, Ok (zlen d + zlen bs))) →
  Emits (λ off, guard_len off n (k off)) bs.
Proof.
  intros -> Hbs Hk. split; intros d r Hb Hr.
  - rewrite guard_len_ok by (try done; rewrite ?length_app; lia).
    rewrite <-(take_drop (length bs) r) at 1.
    rewrite Hk by (rewrite length_take; lia). done.
  - exists r. split; [|done]. unfold buf_ok in Hb. rewrite length_app in Hb.
    apply guard_len_err; [unfold u_max; lia|rewrite length_app; lia].
Qed.

#[global] Instance emits_u8 v : Emits (λ off, pack_u8 off v) [v].
Proof.
  apply emits_guarded; [done..|]. intros d [|x [|? ?]] r2 Hr; try done.
  simpl. by rewrite wset_mid.
Qed.
#[global] Instance emits_u16 v : Emits (λ off, pack_u16 off v) (le_bytes 2 v).
Proof.
  apply emits_guarded; [done..|]. intros d [|x [|y [|? ?]]] r2 Hr; try done.
  rewrite byte_of, byte_of_shift, le_bytes_2 by lia. simpl app.
  rewrite wset_snoc, wset_mid by (rewrite ?length_app; simpl; lia).
  unfold wret. by rewrite <-app_assoc.
Qed.
#[global] Instance emits_u32 v : Emits (λ off, pack_u32 off v) (le_bytes 4 v).
Proof.
  apply emits_guarded; [done..|]. intros d [|x [|y [|z [|t [|? ?]]]]] r2 Hr; try done.
  rewrite byte_of, !byte_of_shift, le_bytes_4 by lia. simpl app.
  rewrite !wset_snoc by (rewrite ?length_app; simpl; lia).
  unfold wret. by rewrite <-!app_assoc.
Qed.

Lemma pack_u64_loop_run v n i d r1 r2 :
  (n + i = 8)%nat → length r1 = n →
  pack_u64_loop (zlen d) v n (Z.of_nat i)
    ((d ++ take i (le_bytes 8 v)) ++ r1 ++ r2) =
  Done ((d ++ le_bytes 8 v) ++ r2, Ok (zlen d + 8)).
Proof.
  revert i r1. induction n as [|n IH]; intros i r1 Hn Hr.
  { destruct r1; [|done]. cbn [pack_u64_loop app].
    rewrite take_ge by (rewrite length_le_bytes; lia). done. }
  destruct r1 as [|x r1]; [done|]. cbn [pack_u64_loop app].
  assert (i < 8)%nat as Hi by lia.
  rewrite wset_snoc by (rewrite length_app, length_take, length_le_bytes; lia).
  rewrite byte_of_shift by lia.
  replace (Z.of_nat i + 1) with (Z.of_nat (S i)) by lia.
  rewrite <-(app_assoc d). rewrite <-take_S_r by (by apply le_bytes_lookup).
  apply IH; simpl in *; lia.
Qed.

#[global] Instance emits_u64 v : Emits (λ off, pack_u64 off v) (le_bytes 8 v).
Proof.
  apply emits_guarded; [done..|]. intros d r1 r2 Hr.
  pose proof (pack_u64_loop_run v 8 0 d r1 r2 eq_refl Hr) as H.
  rewrite take_0, app_nil_r in H. change (Z.of_nat 0) with 0 in H.
  rewrite H. by rewrite <-app_assoc.
Qed.

#[global] Instance emits_bind m k bs bs' :
  Emits m bs → Emits k bs' → Emits (λ off, wbind (m off) k) (bs ++ bs').
Proof.
  intros Hm Hk. split; intros d r Hb Hr; rewrite length_app in Hr.
  - rewrite (wbind_ok _ _ _ _ _ (@emits_ok m bs Hm d r Hb ltac:(lia))).
    assert (length (drop (length bs) r) = length r - length bs)%nat as Hd
      by apply length_drop.
    rewrite (app_assoc d). replace (zlen d + zlen bs) with (zlen (d ++ bs))
      by (rewrite length_app; lia).
    rewrite (@emits_ok k bs' Hk (d ++ bs)); [..|lia].
    + rewrite drop_drop, !length_app, <-!app_assoc, !Nat2Z.inj_add, Z.add_assoc.
      done.
    + unfold buf_ok in *. rewrite !length_app in *. lia.
  - destruct (decide (length bs ≤ length r)%nat) as [Hle|Hle].
    + rewrite (wbind_ok _ _ _ _ _ (@emits_ok m bs Hm d r Hb Hle)).
      assert (length (drop (length bs) r) = length r - length bs)%nat as Hd
        by apply length_drop.
      rewrite (app_assoc d). replace (zlen d + zlen bs) with (zlen (d ++ bs))
        by (rewrite length_app; lia).
      destruct (@emits_err k bs' Hk (d ++ bs) (drop (length bs) r)) as (r' & -> & Hr').
      * unfold buf_ok in *. rewrite !length_app in *. lia.
      * lia.
      * exists (bs ++ r'). rewrite length_app, <-app_assoc. split; [done|lia].
    + destruct (@emits_err m bs Hm d r Hb ltac:(lia)) as (r' & Hr1 & Hr2).
      exists r'. by rewrite (wbind_err _ _ _ _ Hr1).
Qed.

Lemma emits_bytes s : zlen s < 2 ^ 63 → Emits (λ off, pack_bytes off s) s.
Proof.
  intros Hs. apply emits_guarded; [done..|]. intros d r1 r2 Hr.
  rewrite (copy_app_mid d (r1 ++ r2)) by (rewrite ?length_app; lia). cbn.
  by rewrite <-Hr, drop_app_length.
Qed.

Lemma emits_str s : zlen s ≤ u_max 16 → Emits (λ off, pack_str off s) (str_bytes s).
Proof.
  intros Hs. unfold pack_str.
  rewrite (proj2 (Z.ltb_ge _ _)) by done.
  rewrite as_u_small by (unfold in_u, u_max in *; lia).
  apply emits_bind; [apply _|]. apply emits_bytes. unfold u_max in Hs. lia.
Qed.

#[global] Instance emits_qid q : Emits (λ off, pack_qid off q) (qid_bytes q).
Proof.
  unfold pack_qid, qid_bytes. apply emits_bind; [apply _|].
  apply emits_bind; apply _.
Qed.

(** ** Builders *)

Lemma length_frame mtype tag body : length (frame mtype tag body) = (7 + length body)%nat.
Proof. unfold frame. rewrite !length_app, !length_le_bytes. simpl. lia. Qed.

Lemma patch_header_run total (x y z t : Z) r :
  total ≤ u_max 32 → 0 ≤ total →
  patch_header_size total (x :: y :: z :: t :: r) = Done (le_bytes 4 total ++ r, Ok tt).
Proof.
  intros H H0. unfold patch_header_size.
  rewrite (proj2 (Z.ltb_ge (zlen _) 4)) by (simpl; lia).
  rewrite (proj2 (Z.ltb_ge (u_max 32) _)) by done. simpl orb.
  rewrite (as_u_small 32 total) by (unfold in_u, u_max in *; lia).
  rewrite byte_of, !byte_of_shift, le_bytes_4 by lia.
  change (x :: y :: z :: t :: r) with ([] ++ x :: y :: z :: t :: r).
  by rewrite !wset_snoc by done.
Qed.

Lemma finish_patch : Finish (λ p, _ ←w patch_header_size p; wret p) [].
Proof.
  intros mtype tag d r h Hb Hs. rewrite decide_True by (simpl; lia).
  rewrite app_nil_r in *. cbn [length drop].
  assert (zlen h = P9_HDR_LEN + zlen d) as Hh.
  { unfold h. rewrite !length_app, !length_le_bytes. unfold P9_HDR_LEN. simpl. lia. }
  unfold wbind. rewrite Hh. unfold h. simpl app at 1.
  rewrite patch_header_run by (unfold P9_HDR_LEN in *; lia). unfold wret, frame.
  by rewrite <-!app_assoc.
Qed.

Lemma finish_bind m k bs bs' :
  Emits m bs → Finish k bs' → Finish (λ p, wbind (m p) k) (bs ++ bs').
Proof.
  intros Hm Hk mtype tag d r h Hb Hs.
  assert (Hh : ∀ x, h ++ x ++ drop (length x) r =
    (le_bytes 4 0 ++ [mtype] ++ le_bytes 2 tag ++ (d ++ x)) ++ drop (length x) r).
  { intros x. unfold h. by rewrite <-!app_assoc. }
  assert (Hl : zlen h + zlen bs =
    zlen (le_bytes 4 0 ++ [mtype] ++ le_bytes 2 tag ++ (d ++ bs))).
  { unfold h. rewrite !length_app. lia. }
  destruct (decide (length bs ≤ length r)%nat) as [Hle|Hle].
  - rewrite (wbind_ok _ _ _ _ _ (@emits_ok m bs Hm h r Hb Hle)), Hh, Hl.
    assert (length (drop (length bs) r) = length r - length bs)%nat as Hd
      by apply length_drop.
    pose proof (Hk mtype tag (d ++ bs) (drop (length bs) r)) as Hk'.
    cbv zeta in Hk'. rewrite <-(app_assoc d) in Hk'.
    ospecialize (Hk' _ _); [|done|].
    { unfold buf_ok, h in Hb |- *. rewrite !length_app, Hd in *. lia. }
    rewrite !length_app in *. repeat case_decide; try lia.
    + rewrite Hk', drop_drop. done.
    + destruct Hk' as (out' & -> & Ho). exists out'. split; [done|].
      unfold h. rewrite Ho, !length_app. lia.
  - destruct (@emits_err m bs Hm h r Hb ltac:(lia)) as (r' & Hr1 & Hr2).
    rewrite decide_False by (rewrite length_app; lia).
    exists (h ++ r'). rewrite (wbind_err _ _ _ _ Hr1), !length_app. auto.
Qed.

Lemma emits_header mtype tag :
  Emits (λ p, p ←w pack_u32 p 0; p ←w pack_u8 p mtype; pack_u16 p tag)
    (le_bytes 4 0 ++ [mtype] ++ le_bytes 2 tag).
Proof. apply emits_bind; [apply _|]. apply emits_bind; apply _. Qed.

Lemma frames_header mtype tag k bs :
  Finish k bs → P9_HDR_LEN + zlen bs ≤ u_max 32 →
  Frames (p ←w build_header mtype tag; k p) (frame mtype tag bs).
Proof.
  intros Hk Hs out Hb. rewrite length_frame.
  pose proof (emits_header mtype tag) as Hh.
  destruct (decide (7 ≤ length out)%nat) as [Hle|Hle].
  - pose proof (@emits_ok _ _ Hh [] out Hb ltac:(simpl; lia)) as H.
    change (wbind (pack_u32 (zlen (@nil Z)) 0) _) with (build_header mtype tag) in H.
    cbn [app] in H. rewrite (wbind_ok _ _ _ _ _ H).
    pose proof (Hk mtype tag [] (drop 7 out)) as Hk'. cbv zeta in Hk'.
    rewrite app_nil_r in Hk'. cbn [app] in Hk'.
    assert (length (drop 7 out) = length out - 7)%nat as Hd by apply length_drop.
    ospecialize (Hk' _ _); [|done|].
    { unfold buf_ok in *. rewrite !length_app, !length_le_bytes. simpl length. lia. }
    set (h := le_bytes 4 0 ++ mtype :: le_bytes 2 tag) in *.
    assert (length h = 7)%nat as Hh7 by done.
    change (zlen (@nil Z)) with 0. rewrite Z.add_0_l, Hh7 in *.
    repeat case_decide; try lia.
    + rewrite Hk', drop_drop. unfold P9_HDR_LEN. do 3 f_equal. lia.
    + destruct Hk' as (out' & -> & Ho). exists out'.
      rewrite length_app in Ho. split; [done|lia].
  - rewrite decide_False by lia.
    destruct (@emits_err _ _ Hh [] out Hb ltac:(simpl; lia)) as (r' & H & Hr').
    change (wbind (pack_u32 (zlen (@nil Z)) 0) _) with (build_header mtype tag) in H.
    exists r'. cbn [app] in H. by rewrite (wbind_err _ _ _ _ H).
Qed.

Lemma Frames_eq b msg msg' : msg = msg' → Frames b msg → Frames b msg'.
Proof. by intros ->. Qed.

(** Solves [Frames build (frame t tag body)] for a builder that is a chain of
    packers between [build_header] and [patch_header_size]. *)
Ltac frames :=
  eapply Frames_eq;
  [|apply frames_header;
    [repeat (apply finish_bind; [first [apply _ | assumption]|]); apply finish_patch|]];
  [rewrite ?app_nil_r; reflexivity
  |rewrite ?app_nil_r; unfold P9_HDR_LEN, u_max in *;
   rewrite ?length_app, ?length_le_bytes; simpl length; try lia].

(** ** Unpackers *)

Lemma guard_read_ok {A} (buf : list Z) off n (k : Z → res A) :
  buf_ok buf → 0 ≤ off → off + n ≤ zlen buf →
  (e ← uadd 64 off n; if zlen buf <? e then fail else k e) = k (off + n).
Proof.
  unfold buf_ok. intros Hb H0 H. rewrite uadd_ok by (unfold u_max; lia). cbn.
  destruct (Z.ltb_spec (zlen buf) (off + n)); [lia|done].
Qed.
Lemma guard_read_err {A} (buf : list Z) off n (k : Z → res A) :
  off + n ≤ u_max 64 → zlen buf < off + n →
  (e ← uadd 64 off n; if zlen buf <? e then fail else k e) = fail.
Proof.
  intros Hb H. rewrite uadd_ok by done. cbn.
  destruct (Z.ltb_spec (zlen buf) (off + n)); [done|lia].
Qed.

(** An unpacker of an [n]-byte little-endian word. *)
Lemma codec_word (n : nat) (k : list Z → Z → Z → res (Z * Z)) :
  (n ≤ 8)%nat →
  (∀ d bs r, length bs = n → bytes_ok bs →
     k (d ++ bs ++ r) (zlen d) (zlen d + Z.of_nat n) =
     Done (Ok (le_val bs, zlen d + Z.of_nat n))) →
  Codec (λ buf off, e ← uadd 64 off (Z.of_nat n);
                    if zlen buf <? e then fail else k buf off e)
    (le_bytes n) (in_u (8 * Z.of_nat n)).
Proof.
  intros Hn Hk. split.
  - intros d r Hb Hbs. apply Forall_app in Hbs as [_ Hbs].
    destruct (decide (n ≤ length r)%nat) as [Hle|Hlt].
    + left. assert (length (take n r) = n) as Ht by (rewrite length_take; lia).
      assert (bytes_ok (take n r)) as Hbt by by apply Forall_take.
      pose proof (le_bytes_val _ Hbt) as He. pose proof (le_val_bound _ Hbt) as Hv.
      rewrite Ht in He, Hv.
      exists (le_val (take n r)), (drop n r). split_and!; [done|..].
      * by rewrite He, take_drop.
      * rewrite guard_read_ok by (done || (rewrite ?length_app; lia)).
        rewrite <-(take_drop n r) at 1. rewrite Hk, length_le_bytes; done.
    + right. split.
      * intros a r' _ ->. rewrite length_app, length_le_bytes in Hlt. lia.
      * apply guard_read_err; unfold buf_ok, u_max in *; rewrite ?length_app in *; lia.
  - intros a b r r' Ha Hb Heq. apply app_inj_1 in Heq as [Heq _].
    + apply (f_equal le_val) in Heq. by rewrite !le_val_bytes in Heq.
    + by rewrite !length_le_bytes.
Qed.

Lemma ushl_byte w b k : is_byte b → 0 ≤ k → k + 8 ≤ w → ushl w b k = Z.shiftl b k.
Proof.
  intros [Hb0 Hb] Hk Hw. apply as_u_small. rewrite Z.shiftl_mul_pow2 by done.
  split; [lia|]. apply Z.lt_le_trans with (2 ^ 8 * 2 ^ k).
  - apply Z.mul_lt_mono_pos_r; [lia|done].
  - rewrite <-Z.pow_add_r by lia. apply Z.pow_le_mono_r; lia.
Qed.

Lemma idx_app_2 (d : list Z) i j x r :
  Z.of_nat j = i → r !! j = Some x → idx (d ++ r) (zlen d + i) = Done x.
Proof.
  intros <- Hx. unfold idx. rewrite (proj2 (Z.leb_le _ _)) by lia.
  replace (Z.to_nat _) with (length d + j)%nat by lia.
  rewrite lookup_app_r by lia. replace (_ - _)%nat with j by lia. by rewrite Hx.
Qed.

#[global] Instance codec_u8 : Codec unpack_u8 (le_bytes 1) (in_u 8).
Proof.
  apply (codec_word 1); [lia|]. intros d [|x [|? ?]] r Hl Hb; try done.
  simpl app. rewrite idx_app_mid by done. cbn. by rewrite Z.mul_0_r, Z.add_0_r.
Qed.

#[global] Instance codec_u16 : Codec unpack_u16 (le_bytes 2) (in_u 16).
Proof.
  apply (codec_word 2); [lia|]. intros d [|x [|y [|? ?]]] r Hl Hb; try done.
  apply Forall_cons in Hb as [Hx Hb]. apply Forall_cons in Hb as [Hy _].
  cbn [app]. rewrite (idx_app_mid d (y :: r) x (zlen d)) by done. cbn.
  rewrite (idx_app_2 d 1 1 y) by done. cbn.
  rewrite ushl_byte, lor_shiftl_add by (lia || done).
  do 4 f_equal. change (2 ^ 8) with 256. lia.
Qed.

Lemma lor_bytes_4 x y z t :
  is_byte x → is_byte y → is_byte z → is_byte t →
  Z.lor (Z.lor (Z.lor x (ushl 32 y 8)) (ushl 32 z 16)) (ushl 32 t 24) =
  le_val [x; y; z; t].
Proof.
  unfold is_byte, in_u. intros Hx Hy Hz Ht. rewrite !ushl_byte by (lia || done).
  change (2 ^ 8) with 256 in *.
  rewrite (lor_shiftl_add x) by (unfold in_u; lia). change (2 ^ 8) with 256.
  rewrite (lor_shiftl_add (x + _)) by (unfold in_u; lia). change (2 ^ 16) with 65536.
  rewrite lor_shiftl_add by (unfold in_u; lia). change (2 ^ 24) with 16777216.
  cbn [le_val]. lia.
Qed.

#[global] Instance codec_u32 : Codec unpack_u32 (le_bytes 4) (in_u 32).
Proof.
  apply (codec_word 4); [lia|].
  intros d [|x [|y [|z [|t [|? ?]]]]] r Hl Hb; try done.
  rewrite !Forall_cons in Hb. destruct Hb as (Hx & Hy & Hz & Ht & _).
  cbn [app]. rewrite (idx_app_mid d (y :: z :: t :: r) x (zlen d)) by done.
  cbn -[Z.lor le_val].
  rewrite (idx_app_2 d 1 1 y), (idx_app_2 d 2 2 z), (idx_app_2 d 3 3 t) by done.
  cbn -[Z.lor le_val]. by rewrite lor_bytes_4.
Qed.

Lemma le_val_take_S bs i b :
  bs !! i = Some b →
  le_val (take (S i) bs) = le_val (take i bs) + b * 2 ^ (8 * Z.of_nat i).
Proof.
  revert i. induction bs as [|x bs IH]; intros i Hi; [done|].
  destruct i as [|i].
  { simpl in *. simplify_eq. change (2 ^ _) with 1. lia. }
  rewrite !firstn_cons. cbn [le_val lookup] in *.
  rewrite (IH i), pow_256_succ by done. lia.
Qed.

Lemma unpack_u64_loop_run d bs r n i :
  length bs = 8%nat → bytes_ok bs → (n + i = 8)%nat →
  unpack_u64_loop (d ++ bs ++ r) (zlen d) n (Z.of_nat i) (le_val (take i bs)) =
  Done (le_val bs).
Proof.
  intros Hl Hb. revert i. induction n as [|n IH]; intros i Hn.
  { cbn. rewrite take_ge by lia. done. }
  destruct (lookup_lt_is_Some_2 bs i ltac:(lia)) as [b Hi].
  assert (is_byte b) as Hbb by by eapply Forall_lookup_1.
  cbn [unpack_u64_loop].
  rewrite (idx_app_2 d (Z.of_nat i) i b) by (done || by rewrite lookup_app_l by lia).
  cbn -[Z.mul]. rewrite ushl_byte by (done || lia).
  rewrite lor_shiftl_add; [|lia|].
  - replace (Z.of_nat i + 1) with (Z.of_nat (S i)) by lia.
    rewrite <-le_val_take_S by done. apply IH. lia.
  - pose proof (le_val_bound (take i bs) ltac:(by apply Forall_take)) as Ht.
    rewrite length_take in Ht. replace (i `min` length bs)%nat with i in Ht by lia. done.
Qed.

#[global] Instance codec_u64 : Codec unpack_u64 (le_bytes 8) (in_u 64).
Proof.
  apply (codec_word 8); [lia|]. intros d bs r Hl Hb.
  pose proof (unpack_u64_loop_run d bs r 8 0 Hl Hb eq_refl) as H.
  rewrite take_0 in H. change (Z.of_nat 0) with 0 in H. cbn [le_val] in H.
  rewrite H. done.
Qed.

(** A length word followed by that many bytes. *)
Lemma codec_counted (n : nat) (pl : list Z → Z → res (Z * Z)) :
  (n ≤ 4)%nat → Codec pl (le_bytes n) (in_u (8 * Z.of_nat n)) →
  Codec (λ buf off, '(len, p) ←? pl buf off;
                    e ← uadd 64 p len;
                    if zlen buf <? e then fail else
                    s ← slice buf p e;
                    Done (Ok (s, e)))
    (λ s : list Z, le_bytes n (zlen s) ++ s) (λ s : list Z, in_u (8 * Z.of_nat n) (zlen s)).
Proof.
  intros Hn Hpl.
  assert (2 ^ (8 * Z.of_nat n) ≤ 2 ^ 32) as Hw by (apply Z.pow_le_mono_r; lia).
  assert (Hpre : ∀ (a : list Z) len r r', in_u (8 * Z.of_nat n) (zlen a) → in_u (8 * Z.of_nat n) len →
    le_bytes n (zlen a) ++ r = le_bytes n len ++ r' → len = zlen a ∧ r = r').
  { intros a len r r' Ha Hl Heq. split; [symmetry; by eapply codec_prefix|].
    apply app_inj_1 in Heq as [_ ?]; [done|by rewrite !length_le_bytes]. }
  split.
  - intros d r Hb Hbs.
    destruct (codec_run d r Hb Hbs) as [(len & r1 & Hlen & -> & ->)|[Hno ->]].
    2:{ right. split; [|done]. intros a r' Ha. rewrite <-app_assoc. by apply Hno. }
    cbn [try_bind]. rewrite (app_assoc d).
    replace (zlen d + zlen (le_bytes n len)) with (zlen (d ++ le_bytes n len))
      by (rewrite length_app; lia).
    unfold buf_ok in *. rewrite !app_assoc in Hb. unfold in_u in Hlen.
    set (d' := d ++ le_bytes n len) in *.
    rewrite length_app in Hb.
    destruct (decide (len ≤ zlen r1)) as [Hle|Hgt].
    + left. exists (take (Z.to_nat len) r1), (drop (Z.to_nat len) r1).
      assert (zlen (take (Z.to_nat len) r1) = len) as Ht by (rewrite length_take; lia).
      rewrite Ht. split_and!; [done|..].
      * by rewrite <-app_assoc, take_drop.
      * rewrite guard_read_ok by (unfold buf_ok; rewrite ?length_app; lia).
        rewrite <-(take_drop (Z.to_nat len) r1) at 1.
        rewrite slice_app_mid by (done || lia). cbn.
        unfold d'. rewrite !length_app. do 3 f_equal. lia.
    + right. split.
      * intros a r' Ha Heq. rewrite <-app_assoc in Heq. symmetry in Heq.
        apply Hpre in Heq as [-> <-]; [|done..]. rewrite length_app in Hgt. lia.
      * apply guard_read_err; unfold u_max; rewrite ?length_app; lia.
  - intros a b r r' Ha Hb Heq. rewrite <-!app_assoc in Heq.
    apply Hpre in Heq as [Hl Heq]; [|done..].
    by apply app_inj_1 in Heq as [? _]; [|lia].
Qed.

#[global] Instance codec_str : Codec unpack_str str_bytes (λ s, in_u 16 (zlen s)).
Proof. apply (codec_counted 2); [lia|apply _]. Qed.
#[global] Instance codec_blob :
  Codec unpack_blob (λ s, le_bytes 4 (zlen s) ++ s) (λ s, in_u 32 (zlen s)).
Proof. apply (codec_counted 4); [lia|apply _]. Qed.

#[global] Instance codec_dep {A B} (p : list Z → Z → res (A * Z))
    (q : A → list Z → Z → res (B * Z)) e1 (e2 : A → B → list Z)
    (v1 : A → Prop) (v2 : A → B → Prop) :
  Codec p e1 v1 → (∀ a, v1 a → Codec (q a) (e2 a) (v2 a)) →
  Codec (pdep p q) (λ x, e1 x.1 ++ e2 x.1 x.2) (λ x, v1 x.1 ∧ v2 x.1 x.2).
Proof.
  intros Hp Hq. split.
  - intros d r Hb Hbs. unfold pdep.
    destruct (codec_run (p:=p) d r Hb Hbs) as [(a & r1 & Ha & -> & ->)|[Hno ->]].
    2:{ right. split; [|done]. intros [a b] r' [Ha _]. rewrite <-app_assoc. by apply Hno. }
    cbn [try_bind]. rewrite (app_assoc d) in *. specialize (Hq a Ha).
    replace (zlen d + zlen (e1 a)) with (zlen (d ++ e1 a)) by (rewrite length_app; lia).
    destruct (codec_run (p:=q a) (d ++ e1 a) r1 Hb Hbs) as [(b & r2 & Hvb & -> & ->)|[Hno ->]].
    + left. exists (a, b), r2. cbn. rewrite <-app_assoc. split_and!; [done..|].
      rewrite !length_app. do 3 f_equal. lia.
    + right. split; [|done]. intros [a' b'] r' [Ha' Hb'] Heq. cbn in *.
      rewrite <-app_assoc in Heq. pose proof (codec_prefix _ _ _ _ Ha Ha' Heq) as <-.
      apply app_inv_head in Heq as ->. by eapply Hno.
  - intros [a b] [a' b'] r r' [Ha Hb] [Ha' Hb'] Heq. cbn in *.
    rewrite <-!app_assoc in Heq. pose proof (codec_prefix _ _ _ _ Ha Ha' Heq) as <-.
    apply app_inv_head in Heq. specialize (Hq a Ha).
    by pose proof (codec_prefix _ _ _ _ Hb Hb' Heq) as <-.
Qed.

Lemma name_ok_in s : name_ok s → in_u 16 (zlen s).
Proof. unfold name_ok, in_u, P9_NAME_MAX. lia. Qed.

#[global] Instance codec_names n :
  Codec (unpack_names n) (λ l, concat (str_bytes <$> l))
    (λ l, length l = n ∧ Forall name_ok l).
Proof.
  induction n as [|n IH]; split.
  - intros d r Hb Hbs. left. exists [], r. cbn. rewrite Z.add_0_r. done.
  - intros [|??] [|??] r r' [? _] [? _]; done.
  - intros d r Hb Hbs. cbn [unpack_names].
    destruct (codec_run (p:=unpack_str) d r Hb Hbs) as [(a & r1 & Ha & -> & ->)|[Hno ->]].
    2:{ right. split; [|done]. intros [|a l] r' [Hl Hn]; [done|].
        apply Forall_cons in Hn as [Hn _]. rewrite fmap_cons, concat_cons, <-app_assoc.
        by apply Hno, name_ok_in. }
    cbn [try_bind]. destruct (Z.ltb_spec P9_NAME_MAX (zlen a)) as [Hgt|Hle].
    { right. split; [|done]. intros [|a' l] r' [Hl Hn] Heq; [done|].
      apply Forall_cons in Hn as [Hn _]. rewrite fmap_cons, concat_cons, <-app_assoc in Heq.
      assert (a = a') as <-.
      { eapply (codec_prefix (p:=unpack_str)); [done|by apply name_ok_in|done]. }
      unfold name_ok in *; lia. }
    rewrite (app_assoc d) in *.
    replace (zlen d + zlen (str_bytes a)) with (zlen (d ++ str_bytes a))
      by (rewrite length_app; lia).
    destruct (codec_run (p:=unpack_names n) (d ++ str_bytes a) r1 Hb Hbs)
      as [(l & r2 & [Hl Hn] & -> & ->)|[Hno ->]].
    + left. exists (a :: l), r2. rewrite fmap_cons, concat_cons, <-app_assoc.
      split_and!; [by simpl; f_equal|by constructor|done|].
      cbn [try_bind]. rewrite !length_app. do 3 f_equal. lia.
    + right. split; [|done]. intros [|a' l] r' [Hl Hn] Heq; [done|].
      apply Forall_cons in Hn as [Hn Hn']. rewrite fmap_cons, concat_cons, <-app_assoc in Heq.
      assert (a = a') as <-.
      { eapply (codec_prefix (p:=unpack_str)); [done|by apply name_ok_in|done]. }
      apply app_inv_head in Heq as ->. eapply (Hno l r'); [|done]. by simplify_eq/=.
  - intros [|a l] [|a' l'] r r' [Hl Hn] [Hl' Hn'] Heq; try done.
    apply Forall_cons in Hn as [Ha Hn], Hn' as [Ha' Hn']. 
    rewrite !fmap_cons, !concat_cons, <-!app_assoc in Heq.
    assert (a = a') as <-.
    { eapply (codec_prefix (p:=unpack_str)); [by apply name_ok_in..|done]. }
    apply app_inv_head in Heq. f_equal.
    eapply (codec_prefix (p:=unpack_names n)); [..|done]; by simplify_eq/=.
Qed.

(** A message parser is an unpacker run after the header. *)
Lemma parses_of_codec {A B} (parse : list Z → res B) (p : list Z → Z → res (A * Z))
    (enc : A → list Z) (valid : A → Prop) (f : A → B) (enc' : B → list Z) (valid' : B → Prop) :
  Codec p enc valid →
  (∀ buf, parse buf = ('(a, _) ←? p buf P9_HDR_LEN; Done (Ok (f a)))) →
  (∀ a, valid a → valid' (f a) ∧ enc' (f a) = enc a) →
  (∀ b, valid' b → ∃ a, b = f a ∧ valid a) →
  Parses parse enc' valid'.
Proof.
  intros Hp Hparse Hf Hsurj hdr body Hh Hb Hbs.
  rewrite Hparse, <-Hh.
  destruct (codec_run (p:=p) hdr body Hb Hbs) as [(a & r1 & Ha & -> & ->)|[Hno ->]].
  - left. destruct (Hf a Ha) as [Hv He]. exists (f a), r1. rewrite He.
    split_and!; [done..|]. intros b rest Hvb Heq.
    destruct (Hsurj b Hvb) as (a' & -> & Ha'). destruct (Hf a' Ha') as [_ He'].
    rewrite He' in Heq. f_equal. by eapply (codec_prefix (p:=p)).
  - right. split; [|done]. intros b rest Hvb.
    destruct (Hsurj b Hvb) as (a & -> & Ha). destruct (Hf a Ha) as [_ ->]. by apply Hno.
Qed.

(** Reduces a parser and its [pdep] form to the same tree of matches. *)
Ltac same_parse parse :=
  intros ?; unfold parse, pdep, try_bind;
  repeat (match goal with
          | |- context [match ?p with Done _ => _ | _ => _ end] =>
              destruct p as [[[]|]| |]; try reflexivity
          end).

Lemma parses_tversion : Parses parse_tversion tversion_body tversion_ok.
Proof.
  eapply (parses_of_codec parse_tversion (pseq unpack_u32 unpack_str) _ _
    (λ x, mkTversion x.1 x.2)); [apply _|same_parse parse_tversion|done|].
  intros [m v] H. by exists (m, v).
Qed.

Lemma parses_tattach : Parses parse_tattach tattach_body tattach_ok.
Proof.
  eapply (parses_of_codec parse_tattach
    (pseq unpack_u32 (pseq unpack_u32 (pseq unpack_str (pseq unpack_str unpack_u32)))) _ _
    (λ '(a, (b, (c, (d, e)))), mkTattach a b c d e));
    [apply _|same_parse parse_tattach|by intros (?&?&?&?&?)|].
  intros [a b c d e] H. by exists (a, (b, (c, (d, e)))).
Qed.

Lemma parses_tlopen : Parses parse_tlopen tlopen_body tlopen_ok.
Proof.
  eapply (parses_of_codec parse_tlopen (pseq unpack_u32 unpack_u32) _ _
    (λ x, mkTlopen x.1 x.2)); [apply _|same_parse parse_tlopen|done|].
  intros [m v] H. by exists (m, v).
Qed.

Lemma parses_tread : Parses parse_tread tread_body tread_ok.
Proof.
  eapply (parses_of_codec parse_tread (pseq unpack_u32 (pseq unpack_u64 unpack_u32)) _ _
    (λ '(a, (b, c)), mkTread a b c)); [apply _|same_parse parse_tread|by intros (?&?&?)|].
  intros [a b c] H. by exists (a, (b, c)).
Qed.

Lemma parses_treaddir : Parses parse_treaddir treaddir_body treaddir_ok.
Proof.
  eapply (parses_of_codec parse_treaddir (pseq unpack_u32 (pseq unpack_u64 unpack_u32)) _ _
    (λ '(a, (b, c)), mkTreaddir a b c)); [apply _|same_parse parse_treaddir|by intros (?&?&?)|].
  intros [a b c] H. by exists (a, (b, c)).
Qed.

Lemma unpack_counted_len buf off count p e data :
  unpack_u32 buf off = Done (Ok (count, p)) → uadd 64 p count = Done e →
  slice buf p e = Done data → count = zlen data.
Proof.
  intros _ He Hs. apply uadd_inv in He as [-> _]. unfold slice in Hs.
  destruct (_ && _) eqn:Hg in Hs; [|done]. injection Hs as <-.
  rewrite !andb_true_iff, !Z.leb_le in Hg.
  rewrite length_take, length_drop. lia.
Qed.

Lemma parses_twrite : Parses parse_twrite twrite_body twrite_ok.
Proof.
  eapply (parses_of_codec parse_twrite (pseq unpack_u32 (pseq unpack_u64 unpack_blob)) _ _
    (λ '(a, (b, c)), mkTwrite a b (zlen c) c)); [apply _|..].
  - intros buf. unfold parse_twrite, pdep, unpack_blob, try_bind.
    destruct (unpack_u32 buf P9_HDR_LEN) as [[[fid p]|]| |]; try reflexivity.
    destruct (unpack_u64 buf p) as [[[offset p']|]| |]; try reflexivity.
    destruct (unpack_u32 buf p') as [[[count p'']|]| |] eqn:Hc; try reflexivity.
    destruct (uadd 64 p'' count) as [e| |] eqn:He; try reflexivity. cbn.
    destruct (zlen buf <? e); [reflexivity|].
    destruct (slice buf p'' e) as [data| |] eqn:Hs; try reflexivity. cbn.
    by rewrite (unpack_counted_len _ _ _ _ _ _ Hc He Hs).
  - intros (a & b & c) (Ha & Hb & Hc). split; [|done]. by unfold twrite_ok; cbn in *; auto.
  - intros [a b c d] (?&?&?&?). exists (a, (b, d)). by simplify_eq/=.
Qed.

(** The walk's name loop fills the array from index [i]. *)
Lemma parse_names_run buf n i p (pre : list (list Z)) k :
  i = zlen pre → (n ≤ k)%nat →
  parse_names buf n i p (pre ++ replicate k []) =
  ('(l, _) ←? unpack_names n buf p; Done (Ok (pre ++ l ++ replicate (k - n) []))).
Proof.
  revert i p pre k. induction n as [|n IH]; intros i p pre k -> Hk.
  { cbn. by rewrite Nat.sub_0_r. }
  cbn [parse_names unpack_names]. unfold try_bind at 1 3.
  destruct (unpack_str buf p) as [[[name np]|]| |]; try reflexivity. cbn [try_bind].
  destruct (P9_NAME_MAX <? zlen name); [reflexivity|].
  destruct k as [|k]; [lia|]. cbn [replicate].
  rewrite set_idx_app_mid by done. obind.
  rewrite (cons_middle name), (app_assoc pre).
  rewrite IH by (rewrite ?length_app; simpl; lia). unfold try_bind.
  destruct (unpack_names n buf np) as [[[l o]|]| |]; try reflexivity.
  by rewrite <-app_assoc.
Qed.

#[global] Instance codec_guard {A} (b : bool) (p : list Z → Z → res (A * Z)) enc (v : A → Prop) :
  Codec p enc v →
  Codec (λ buf off, if b then fail else p buf off) enc (λ a, b = false ∧ v a).
Proof.
  intros Hp. destruct b; split.
  - intros d r _ _. right. split; [by intros ?? []|done].
  - by intros ???? [].
  - intros d r Hb Hbs. destruct (codec_run (p:=p) d r Hb Hbs)
      as [(a & r' & Ha & Hr)|[Hno ?]]; [left; by exists a, r'|right].
    split; [|done]. intros a r' [_ Ha]. by apply Hno.
  - intros a a' r r' [_ Ha] [_ Ha']. by apply (codec_prefix (p:=p)).
Qed.

Lemma parses_twalk : Parses parse_twalk twalk_body twalk_ok.
Proof.
  eapply (parses_of_codec parse_twalk
    (pseq unpack_u32 (pseq unpack_u32 (pdep unpack_u16 (λ n buf off,
       if P9_MAX_WALK <? n then fail else unpack_names (Z.to_nat n) buf off)))) _ _
    (λ '(a, (b, (n, l))), mkTwalk a b n (l ++ replicate (16 - Z.to_nat n) [])));
    [apply _|..].
  - intros buf. unfold parse_twalk, pdep.
    destruct (unpack_u32 buf P9_HDR_LEN) as [[[fid p]|]| |]; try reflexivity. cbn [try_bind].
    destruct (unpack_u32 buf p) as [[[newfid p']|]| |]; try reflexivity. cbn [try_bind].
    destruct (unpack_u16 buf p') as [[[n p'']|]| |]; try reflexivity. cbn [try_bind].
    destruct (Z.ltb_spec P9_MAX_WALK n); [reflexivity|].
    pose proof (parse_names_run buf (Z.to_nat n) 0 p'' [] 16) as Hr.
    cbn [app] in Hr. change (Z.to_nat P9_MAX_WALK) with 16%nat.
    rewrite Hr by (unfold P9_MAX_WALK in *; done || lia). unfold try_bind.
    destruct (unpack_names (Z.to_nat n) buf p'') as [[[l o]|]| |]; reflexivity.
  - intros (a & b & n & l) (Ha & Hb & Hn & Hm & Hl & Hnames). cbn in *.
    apply Z.ltb_ge in Hm. unfold in_u in Hn.
    split; [|unfold twalk_body; cbn; rewrite <-Hl, take_app_length; done].
    refine (conj Ha (conj Hb (conj _ _))); cbn; [lia|].
    exists l. rewrite Hl. split_and!; [done|lia|done].
  - intros [a b n names] (Ha & Hb & Hn & l & Hl & Hz & Hnm). cbn in *.
    exists (a, (b, (n, l))). unfold P9_MAX_WALK in *.
    assert (Z.to_nat n = length l) as Hnl by lia. rewrite Hnl, Hl.
    split; [done|]. cbn. split_and!; try done.
    + unfold in_u. lia.
    + apply Z.ltb_ge. lia.
Qed.

Lemma parses_word (parse : list Z → res Z) (p : list Z → Z → res (Z * Z)) enc (v : Z → Prop) :
  Codec p enc v → (∀ buf, parse buf = ('(x, _) ←? p buf P9_HDR_LEN; Done (Ok x))) →
  Parses parse enc v.
Proof.
  intros Hc Hp. eapply (parses_of_codec parse p enc v id); eauto.
Qed.

Lemma parses_rweft : Parses parse_rweft rweft_body rweft_ok.
Proof.
  eapply (parses_of_codec parse_rweft (pseq unpack_u64 (pseq unpack_u32 unpack_u32)) _ _
    (λ '(a, (b, c)), mkWeftGeom a b c)); [apply _|same_parse parse_rweft|by intros (?&?&?)|].
  intros [a b c] H. by exists (a, (b, c)).
Qed.

Lemma parses_tweftio : Parses parse_tweftio tweftio_body tweftio_ok.
Proof.
  eapply (parses_of_codec parse_tweftio
    (pseq unpack_u32 (pseq unpack_u32 (pseq unpack_u32 unpack_u32))) _ _
    (λ '(a, (b, (c, d))), mkWeftIo a b c d)); [apply _|same_parse parse_tweftio|by intros (?&?&?&?)|].
  intros [a b c d] H. by exists (a, (b, (c, d))).
Qed.

(** C9: Every message parser, run on a buffer with a 7-byte header, returns the
    unique arguments whose wire body the rest of the buffer starts with, and
    [Err] exactly when it starts with the body of no valid arguments. *)
Theorem parsers_decode :
  Parses parse_tversion tversion_body tversion_ok ∧
  Parses parse_tattach tattach_body tattach_ok ∧
  Parses parse_twalk twalk_body twalk_ok ∧
  Parses parse_tlopen tlopen_body tlopen_ok ∧
  Parses parse_tread tread_body tread_ok ∧
  Parses parse_twrite twrite_body twrite_ok ∧
  Parses parse_tclunk (le_bytes 4) (in_u 32) ∧
  Parses parse_tflush (le_bytes 2) (in_u 16) ∧
  Parses parse_treaddir treaddir_body treaddir_ok ∧
  Parses parse_tgetattr (le_bytes 4) (in_u 32) ∧
  Parses parse_tweft (le_bytes 4) (in_u 32) ∧
  Parses parse_rweft rweft_body rweft_ok ∧
  Parses parse_tweftio tweftio_body tweftio_ok ∧
  Parses parse_rweftio (le_bytes 4) (in_u 32).
Proof.
  split_and!; first [apply parses_tversion | apply parses_tattach | apply parses_twalk
    | apply parses_tlopen | apply parses_tread | apply parses_twrite
    | apply parses_treaddir | apply parses_rweft | apply parses_tweftio
    | eapply parses_word; [apply _|done]].
Qed.

(** A parser whose first read fails on a buffer shorter than the header is
    total once it is total after a header. *)
Lemma parses_total {A} (parse : list Z → res A) enc valid :
  Parses parse enc valid →
  (∀ buf, zlen buf < P9_HDR_LEN → parse buf = fail) →
  ∀ buf, buf_ok buf → bytes_ok buf → ∃ r, parse buf = Done r.
Proof.
  intros Hp Hs buf Hb Hbs. destruct (Z.lt_ge_cases (zlen buf) P9_HDR_LEN) as [Hlt|Hge].
  { rewrite Hs by done. eauto. }
  unfold P9_HDR_LEN in Hge.
  rewrite <-(take_drop 7 buf) in Hb, Hbs |- *.
  destruct (Hp (take 7 buf) (drop 7 buf)) as [(a & rest & _ & _ & -> & _)|[_ ->]]; eauto.
  rewrite length_take. unfold P9_HDR_LEN. lia.
Qed.

Lemma short_u32 buf : zlen buf < P9_HDR_LEN → unpack_u32 buf P9_HDR_LEN = fail.
Proof. intros H. apply guard_read_err; unfold P9_HDR_LEN, u_max in *; lia. Qed.
Lemma short_u16 buf : zlen buf < P9_HDR_LEN → unpack_u16 buf P9_HDR_LEN = fail.
Proof. intros H. apply guard_read_err; unfold P9_HDR_LEN, u_max in *; lia. Qed.
Lemma short_u64 buf : zlen buf < P9_HDR_LEN → unpack_u64 buf P9_HDR_LEN = fail.
Proof. intros H. apply guard_read_err; unfold P9_HDR_LEN, u_max in *; lia. Qed.

Lemma frames_rwalk tag qids :
  zlen qids ≤ P9_MAX_WALK →
  Frames (build_rwalk tag qids)
    (frame P9_RWALK tag (le_bytes 2 (zlen qids) ++ concat (qid_bytes <$> qids))).
Proof.
  unfold P9_MAX_WALK. intros Hq. unfold build_rwalk, P9_MAX_WALK.
  rewrite (proj2 (Z.ltb_ge _ _)) by done.
  rewrite as_u_small by (unfold in_u; lia).
  assert (Hqs : Emits (λ p, pack_qids p qids) (concat (qid_bytes <$> qids))).
  { clear Hq. induction qids as [|q qids IH]; cbn [pack_qids].
    - split; intros d r _ Hr; [|simpl in Hr; lia].
      cbn. by rewrite drop_0, Z.add_0_r.
    - by apply emits_bind; [apply _|]. }
  assert (length (concat (qid_bytes <$> qids)) = 13 * length qids)%nat as Hl.
  { clear. induction qids as [|q qids IH]; [done|].
    rewrite fmap_cons, concat_cons, length_app, IH. unfold qid_bytes.
    rewrite !length_app, !length_le_bytes. simpl. lia. }
  frames.
Qed.

Lemma frames_counted mtype tag data :
  P9_HDR_LEN + 4 + zlen data ≤ u_max 32 →
  Frames (p ←w build_header mtype tag; p ←w pack_u32 p (as_u 32 (zlen data));
          total ←w pack_bytes p data; _ ←w patch_header_size total; wret total)
    (frame mtype tag (le_bytes 4 (zlen data) ++ data)).
Proof.
  unfold P9_HDR_LEN. intros Hd.
  rewrite as_u_small by (unfold in_u, u_max in *; lia).
  pose proof (emits_bytes data ltac:(unfold u_max in Hd; lia)). frames.
Qed.

Lemma frames_rversion tag msize v : zlen v ≤ u_max 16 →
  Frames (build_rversion tag msize v)
    (frame P9_RVERSION tag (le_bytes 4 msize ++ str_bytes v)).
Proof.
  intros H. pose proof (emits_str v H). frames.
Qed.
Lemma frames_rattach tag q :
  Frames (build_rattach tag q) (frame P9_RATTACH tag (qid_bytes q)).
Proof. frames. Qed.
Lemma frames_rlopen tag q iounit :
  Frames (build_rlopen tag q iounit) (frame P9_RLOPEN tag (qid_bytes q ++ le_bytes 4 iounit)).
Proof. frames. Qed.
Lemma frames_rread tag data : P9_HDR_LEN + 4 + zlen data ≤ u_max 32 →
  Frames (build_rread tag data) (frame P9_RREAD tag (le_bytes 4 (zlen data) ++ data)).
Proof.
  intros H. unfold build_rread.
  rewrite (proj2 (Z.ltb_ge _ _)) by (unfold P9_HDR_LEN in *; lia).
  by apply frames_counted.
Qed.
Lemma frames_rreaddir tag data : P9_HDR_LEN + 4 + zlen data ≤ u_max 32 →
  Frames (build_rreaddir tag data) (frame P9_RREADDIR tag (le_bytes 4 (zlen data) ++ data)).
Proof.
  intros H. unfold build_rreaddir.
  rewrite (proj2 (Z.ltb_ge _ _)) by (unfold P9_HDR_LEN in *; lia).
  by apply frames_counted.
Qed.
Lemma frames_rwrite tag count :
  Frames (build_rwrite tag count) (frame P9_RWRITE tag (le_bytes 4 count)).
Proof. frames. Qed.
Lemma frames_rclunk tag : Frames (build_rclunk tag) (frame P9_RCLUNK tag []).
Proof. frames. Qed.
Lemma frames_rflush tag : Frames (build_rflush tag) (frame P9_RFLUSH tag []).
Proof. frames. Qed.
Lemma frames_rlerror tag e :
  Frames (build_rlerror tag e) (frame P9_RLERROR tag (le_bytes 4 e)).
Proof. frames. Qed.
Lemma frames_rgetattr tag valid q mode uid gid nlink sz :
  Frames (build_rgetattr tag valid q mode uid gid nlink sz)
    (frame P9_RGETATTR tag (rgetattr_body valid q mode uid gid nlink sz)).
Proof. unfold rgetattr_body. cbn [replicate concat]. frames. Qed.
Lemma frames_rweft tag g :
  Frames (build_rweft tag (share_id g) (ring_size g) (ring_entries g))
    (frame P9_RWEFT tag (rweft_body g)).
Proof. frames. Qed.
Lemma frames_tweft tag fid :
  Frames (build_tweft tag fid) (frame P9_TWEFT tag (le_bytes 4 fid)).
Proof. frames. Qed.
Lemma frames_rweftio tag count :
  Frames (build_rweftio tag count) (frame P9_RWEFTIO tag (le_bytes 4 count)).
Proof. frames. Qed.
Lemma frames_tweftio tag a :
  Frames (build_tweftio tag (wi_fid a) (wi_off a) (wi_len a) (wi_dir a))
    (frame P9_TWEFTIO tag (tweftio_body a)).
Proof. frames. Qed.

(** Every builder writes its framed message (back-patched size, type, tag,
    body) at the front of the buffer, leaves the rest of the buffer alone and
    returns the message's length; it fails exactly when the buffer is too
    short for the message. *)
Theorem builders_frame tag :
  (∀ msize v, zlen v ≤ u_max 16 → Frames (build_rversion tag msize v)
     (frame P9_RVERSION tag (le_bytes 4 msize ++ str_bytes v))) ∧
  (∀ q, Frames (build_rattach tag q) (frame P9_RATTACH tag (qid_bytes q))) ∧
  (∀ qids, zlen qids ≤ P9_MAX_WALK → Frames (build_rwalk tag qids)
     (frame P9_RWALK tag (le_bytes 2 (zlen qids) ++ concat (qid_bytes <$> qids)))) ∧
  (∀ q iounit, Frames (build_rlopen tag q iounit)
     (frame P9_RLOPEN tag (qid_bytes q ++ le_bytes 4 iounit))) ∧
  (∀ data, P9_HDR_LEN + 4 + zlen data ≤ u_max 32 → Frames (build_rread tag data)
     (frame P9_RREAD tag (le_bytes 4 (zlen data) ++ data))) ∧
  (∀ count, Frames (build_rwrite tag count) (frame P9_RWRITE tag (le_bytes 4 count))) ∧
  Frames (build_rclunk tag) (frame P9_RCLUNK tag []) ∧
  Frames (build_rflush tag) (frame P9_RFLUSH tag []) ∧
  (∀ e, Frames (build_rlerror tag e) (frame P9_RLERROR tag (le_bytes 4 e))) ∧
  (∀ valid q mode uid gid nlink sz, Frames (build_rgetattr tag valid q mode uid gid nlink sz)
     (frame P9_RGETATTR tag (rgetattr_body valid q mode uid gid nlink sz))) ∧
  (∀ g, Frames (build_rweft tag (share_id g) (ring_size g) (ring_entries g))
     (frame P9_RWEFT tag (rweft_body g))) ∧
  (∀ fid, Frames (build_tweft tag fid) (frame P9_TWEFT tag (le_bytes 4 fid))) ∧
  (∀ count, Frames (build_rweftio tag count) (frame P9_RWEFTIO tag (le_bytes 4 count))) ∧
  (∀ a, Frames (build_tweftio tag (wi_fid a) (wi_off a) (wi_len a) (wi_dir a))
     (frame P9_TWEFTIO tag (tweftio_body a))) ∧
  (∀ data, P9_HDR_LEN + 4 + zlen data ≤ u_max 32 → Frames (build_rreaddir tag data)
     (frame P9_RREADDIR tag (le_bytes 4 (zlen data) ++ data))).
Proof.
  exact (conj (frames_rversion tag) (conj (frames_rattach tag) (conj (frames_rwalk tag)
    (conj (frames_rlopen tag) (conj (frames_rread tag) (conj (frames_rwrite tag)
    (conj (frames_rclunk tag) (conj (frames_rflush tag) (conj (frames_rlerror tag)
    (conj (frames_rgetattr tag) (conj (frames_rweft tag) (conj (frames_tweft tag)
    (conj (frames_rweftio tag) (conj (frames_tweftio tag) (frames_rreaddir tag))))))))))))))).
Qed.

(** Reading the header of a buffer. *)
Lemma codec_hdr : Codec (pseq unpack_u32 (pseq unpack_u8 unpack_u16))
  (λ x, le_bytes 4 x.1 ++ le_bytes 1 x.2.1 ++ le_bytes 2 x.2.2)
  (λ x, in_u 32 x.1 ∧ in_u 8 x.2.1 ∧ in_u 16 x.2.2).
Proof.
  apply (codec_dep unpack_u32 (λ _, pseq unpack_u8 unpack_u16) (le_bytes 4)
    (λ _ x, le_bytes 1 x.1 ++ le_bytes 2 x.2) (in_u 32) (λ _ x, in_u 8 x.1 ∧ in_u 16 x.2));
    [apply _|intros _ _].
  apply (codec_dep unpack_u8 (λ _, unpack_u16) (le_bytes 1) (λ _, le_bytes 2)
    (in_u 8) (λ _, in_u 16)); intros; apply _.
Qed.

Lemma peek_header_run (h : Header) rest :
  in_u 32 (size h) → in_u 8 (mtype h) → in_u 16 (tag h) →
  buf_ok (le_bytes 4 (size h) ++ le_bytes 1 (mtype h) ++ le_bytes 2 (tag h) ++ rest) →
  bytes_ok rest →
  peek_header (le_bytes 4 (size h) ++ le_bytes 1 (mtype h) ++ le_bytes 2 (tag h) ++ rest) =
  Done (Ok h).
Proof.
  intros Hs Hm Ht Hb Hr. unfold peek_header.
  set (buf := _ ++ _) in *.
  rewrite (proj2 (Z.ltb_ge _ _))
    by (unfold buf; rewrite !length_app, !length_le_bytes; unfold P9_HDR_LEN; lia).
  pose proof codec_hdr as Hc.
  destruct (@codec_run _ _ _ _ Hc [] buf Hb) as [(x & r' & Hx & Hbuf & Hrun)|[Hno _]].
  - unfold buf. cbn [app]. rewrite !Forall_app. auto using le_bytes_ok.
  - assert (x = (size h, (mtype h, tag h))) as ->.
    { eapply (@codec_prefix _ _ _ _ Hc); [done|done|]. unfold buf in Hbuf.
      rewrite <-Hbuf. cbn [fst snd]. by rewrite <-!app_assoc. }
    cbn [app length] in Hrun. change (Z.of_nat 0) with 0 in Hrun. unfold pdep in Hrun.
    destruct (unpack_u32 buf 0) as [[[? p]|]| |]; try done. cbn [try_bind] in *.
    destruct (unpack_u8 buf p) as [[[? p']|]| |]; try done. cbn [try_bind] in *.
    destruct (unpack_u16 buf p') as [[[? p'']|]| |]; try done. cbn [try_bind] in *.
    destruct h. by simplify_eq/=.
  - exfalso. eapply (Hno (size h, (mtype h, tag h)) rest); [done|].
    unfold buf. cbn [fst snd]. by rewrite <-!app_assoc.
Qed.

Lemma peek_header_total buf : buf_ok buf → bytes_ok buf → ∃ r, peek_header buf = Done r.
Proof.
  intros Hb Hbs. unfold peek_header. destruct (zlen buf <? P9_HDR_LEN); [by eexists|].
  pose proof codec_hdr as Hc.
  assert (∃ r, pdep unpack_u32 (λ _, pseq unpack_u8 unpack_u16) buf 0 = Done r) as [r Hr].
  { destruct (@codec_run _ _ _ _ Hc [] buf Hb Hbs) as [(x & r' & _ & _ & Hr)|[_ Hr]]; eauto. }
  unfold pdep in Hr.
  destruct (unpack_u32 buf 0) as [[[? p]|]| |]; try done; [|by eexists]. cbn [try_bind] in *.
  destruct (unpack_u8 buf p) as [[[? p']|]| |]; try done; [|by eexists]. cbn [try_bind] in *.
  destruct (unpack_u16 buf p') as [[[? p'']|]| |]; try done; by eexists.
Qed.

Ltac rewrite_short Hs :=
  match goal with |- ?f _ = _ => unfold f end;
  first [rewrite short_u32 by exact Hs | rewrite short_u16 by exact Hs
        | rewrite short_u64 by exact Hs]; reflexivity.

(** No parser panics: on every buffer, of any length and content, each of
    them returns [Ok] or [Err]. *)
Theorem parsers_never_panic buf :
  buf_ok buf → bytes_ok buf →
  (∃ r, peek_header buf = Done r) ∧ (∃ r, parse_tversion buf = Done r) ∧
  (∃ r, parse_tattach buf = Done r) ∧ (∃ r, parse_twalk buf = Done r) ∧
  (∃ r, parse_tlopen buf = Done r) ∧ (∃ r, parse_tread buf = Done r) ∧
  (∃ r, parse_twrite buf = Done r) ∧ (∃ r, parse_tclunk buf = Done r) ∧
  (∃ r, parse_tflush buf = Done r) ∧ (∃ r, parse_treaddir buf = Done r) ∧
  (∃ r, parse_tgetattr buf = Done r) ∧ (∃ r, parse_tweft buf = Done r) ∧
  (∃ r, parse_rweft buf = Done r) ∧ (∃ r, parse_tweftio buf = Done r) ∧
  (∃ r, parse_rweftio buf = Done r).
Proof.
  intros Hb Hbs. split; [by apply peek_header_total|].
  split_and!; eapply parses_total; try done;
    first [apply parses_tversion | apply parses_tattach | apply parses_twalk
      | apply parses_tlopen | apply parses_tread | apply parses_twrite
      | apply parses_treaddir | apply parses_rweft | apply parses_tweftio
      | (eapply parses_word; [apply codec_u16|done])
      | (eapply parses_word; [apply codec_u32|done]) | idtac].
  all: intros buf' Hs.
  all: rewrite_short Hs.
Qed.

(** What a builder wrote is what the matching parser reads, and the header
    announces it. *)
Lemma build_parse {A} (b : W Z) t g parse (enc : A → list Z) valid a out :
  Frames b (frame t g (enc a)) → Parses parse enc valid → valid a →
  in_u 8 t → in_u 16 g → bytes_ok (enc a) → P9_HDR_LEN + zlen (enc a) ≤ u_max 32 →
  buf_ok out → bytes_ok out → P9_HDR_LEN + zlen (enc a) ≤ zlen out →
  ∃ out', b out = Done (out', Ok (P9_HDR_LEN + zlen (enc a))) ∧
    parse out' = Done (Ok a) ∧
    peek_header out' = Done (Ok (mkHeader (P9_HDR_LEN + zlen (enc a)) t g)).
Proof.
  intros Hf Hp Ha Ht Hg He Hmax Hb Hbs Hlen. specialize (Hf out Hb).
  unfold P9_HDR_LEN in Hlen.
  rewrite decide_True in Hf by (rewrite length_frame; lia).
  rewrite length_frame in Hf. eexists. split.
  { rewrite Hf. do 3 f_equal. unfold P9_HDR_LEN. lia. }
  set (rest := drop _ out). unfold frame.
  assert (bytes_ok rest) as Hrest by by apply Forall_drop.
  assert (zlen (enc a) + zlen rest + 7 = zlen out) as Hl.
  { unfold rest. rewrite length_drop. lia. }
  unfold buf_ok in Hb. change [t] with ([t] ++ @nil Z). rewrite <-!app_assoc. cbn [app]. split.
  - specialize (Hp (le_bytes 4 (P9_HDR_LEN + zlen (enc a)) ++ t :: le_bytes 2 g)
      (enc a ++ rest)). rewrite <-app_assoc in Hp. cbn [app] in Hp.
    destruct Hp as [(a' & r & _ & _ & -> & Hu)|[Hno _]].
    + done.
    + unfold buf_ok. rewrite !length_app, length_cons, !length_app, !length_le_bytes. lia.
    + rewrite !Forall_app, Forall_cons, !Forall_app. auto 10 using le_bytes_ok.
    + by rewrite <-(Hu a rest).
    + by destruct (Hno a rest Ha).
  - pose proof (peek_header_run (mkHeader (P9_HDR_LEN + zlen (enc a)) t g)
      (enc a ++ rest)) as H. cbn [size mtype tag] in H.
    rewrite le_bytes_1 in H by done. apply H; [|done..| |].
    + unfold in_u, P9_HDR_LEN, u_max in *. lia.
    + unfold buf_ok. rewrite !length_app, !length_le_bytes. cbn [length]. lia.
    + rewrite Forall_app. auto.
Qed.

(** The zero-copy ring messages round trip: a buffer that holds the built
    message parses back to the same fields, and its header announces the
    message's length, type and tag. *)
Theorem weft_roundtrip g out :
  in_u 16 g → buf_ok out → bytes_ok out → 23 ≤ zlen out →
  (∀ a, rweft_ok a → ∃ out',
     build_rweft g (share_id a) (ring_size a) (ring_entries a) out = Done (out', Ok 23) ∧
     parse_rweft out' = Done (Ok a) ∧
     peek_header out' = Done (Ok (mkHeader 23 P9_RWEFT g))) ∧
  (∀ a, tweftio_ok a → ∃ out',
     build_tweftio g (wi_fid a) (wi_off a) (wi_len a) (wi_dir a) out = Done (out', Ok 23) ∧
     parse_tweftio out' = Done (Ok a) ∧
     peek_header out' = Done (Ok (mkHeader 23 P9_TWEFTIO g))) ∧
  (∀ fid, in_u 32 fid → ∃ out', build_tweft g fid out = Done (out', Ok 11) ∧
     parse_tweft out' = Done (Ok fid) ∧
     peek_header out' = Done (Ok (mkHeader 11 P9_TWEFT g))) ∧
  (∀ n, in_u 32 n → ∃ out', build_rweftio g n out = Done (out', Ok 11) ∧
     parse_rweftio out' = Done (Ok n) ∧
     peek_header out' = Done (Ok (mkHeader 11 P9_RWEFTIO g))).
Proof.
  intros Hg Hb Hbs Hl. split_and!; intros a Ha.
  - apply (build_parse _ _ _ parse_rweft rweft_body rweft_ok a); try done;
      [apply frames_rweft|apply parses_rweft|].
    unfold rweft_body. rewrite !Forall_app. auto using le_bytes_ok.
  - apply (build_parse _ _ _ parse_tweftio tweftio_body tweftio_ok a); try done;
      [apply frames_tweftio|apply parses_tweftio|].
    unfold tweftio_body. rewrite !Forall_app. auto using le_bytes_ok.
  - apply (build_parse _ _ _ parse_tweft (le_bytes 4) (in_u 32) a); try done;
      [apply frames_tweft|by eapply parses_word; [apply _|]|apply le_bytes_ok|].
    unfold P9_HDR_LEN. rewrite length_le_bytes. lia.
  - apply (build_parse _ _ _ parse_rweftio (le_bytes 4) (in_u 32) a); try done;
      [apply frames_rweftio|by eapply parses_word; [apply _|]|apply le_bytes_ok|].
    unfold P9_HDR_LEN. rewrite length_le_bytes. lia.
Qed.

(** [pack_dirent] writes exactly [dirent_len] bytes, so the budget a server
    computes with [dirent_len] before packing an entry is exact: the entry is
    written when it fits and refused, the bytes before it intact, when it does
    not. *)
Theorem dirent_budget d r qid next dtype name n :
  buf_ok (d ++ r) → zlen name ≤ u_max 16 → dirent_len (zlen name) = Done n →
  if decide (n ≤ zlen r)
  then pack_dirent (zlen d) qid next dtype name (d ++ r) =
         Done (d ++ dirent_bytes qid next dtype name ++ drop (Z.to_nat n) r, Ok (zlen d + n))
  else ∃ r', pack_dirent (zlen d) qid next dtype name (d ++ r) = Done (d ++ r', Err tt) ∧
         length r' = length r.
Proof.
  intros Hb Hn Hd. apply uadd_inv in Hd as [-> _].
  assert (He : Emits (λ off, pack_dirent off qid next dtype name)
    (dirent_bytes qid next dtype name)).
  { pose proof (emits_str name Hn). unfold pack_dirent, dirent_bytes.
    apply emits_bind; [apply _|]. apply emits_bind; [apply _|].
    apply emits_bind; [apply _|done]. }
  assert (length (dirent_bytes qid next dtype name) = 24 + length name)%nat as Hl.
  { unfold dirent_bytes, qid_bytes, str_bytes.
    rewrite !length_app, !length_le_bytes. simpl. lia. }
  unfold P9_QID_LEN in *. case_decide as Hc.
  - rewrite (@emits_ok _ _ He) by (done || lia). rewrite Hl.
    replace (Z.to_nat _) with (24 + length name)%nat by lia.
    do 3 f_equal. lia.
  - apply (@emits_err _ _ He); [done|lia].
Qed.

(** The two mask tests of [ready_answer], as arithmetic. *)
Lemma land_high_mask offset :
  in_u 64 offset →
  Z.land offset (Z.shiftl (Z.ones 47) 17) = Z.shiftl (offset / 2 ^ 17) 17.
Proof.
  intros Ho. rewrite <-Z.shiftr_div_pow2 by lia. apply Z.bits_inj'. intros i Hi.
  rewrite Z.land_spec, !Z.shiftl_spec by done.
  destruct (Z.lt_ge_cases i 17).
  { rewrite !(Z.testbit_neg_r _ (i - 17)) by lia. apply andb_false_r. }
  rewrite Z.shiftr_spec, Z.testbit_ones_nonneg by lia.
  replace (i - 17 + 17) with i by lia.
  destruct (Z.ltb_spec (i - 17) 47); [apply andb_true_r|].
  rewrite <-(Z.mod_small offset (2 ^ 64)), Z.mod_pow2_bits_high by (done || lia). done.
Qed.

Lemma land_bit offset k :
  0 ≤ k → (Z.land offset (Z.shiftl 1 k) =? 0) = negb (Z.testbit offset k).
Proof.
  intros Hk. rewrite <-Z.land_comm. destruct (Z.eqb_spec (Z.land (Z.shiftl 1 k) offset) 0) as [H|H].
  - assert (Z.testbit (Z.land (Z.shiftl 1 k) offset) k = false) as Hb by (rewrite H; apply Z.bits_0).
    rewrite Z.land_spec, Z.shiftl_spec, Z.sub_diag in Hb by done. simpl in Hb. by rewrite Hb.
  - destruct (Z.testbit offset k) eqn:Hb; [done|]. destruct H. apply Z.bits_inj'. intros i Hi.
    rewrite Z.land_spec, Z.shiftl_spec, Z.bits_0 by done.
    destruct (decide (i = k)) as [->|]; [by rewrite Hb, andb_false_r|].
    destruct (Z.lt_ge_cases i k); [by rewrite Z.testbit_neg_r by lia|].
    by rewrite (Z.bits_above_log2 1) by (simpl; lia).
Qed.

(** A readiness read is refused exactly when its offset carries a bit
    outside the 16-bit mask and the snapshot bit; otherwise it is answered at
    once exactly when the file is ready for the mask or it is a snapshot, and
    deferred with the same mask when not; its length never exceeds 4, the
    requested count or the negotiated message size. *)
Theorem ready_answer_spec offset count msize level :
  in_u 64 offset → in_u 32 count → in_u 32 msize →
  let mask := offset mod 2 ^ 16 in
  let snapshot := Z.testbit offset 16 in
  (ready_answer offset count msize level = Refuse E_INVAL ∧ 2 ^ 17 ≤ offset) ∨
  (offset < 2 ^ 17 ∧ ∃ len, 0 ≤ len ≤ 4 ∧ len ≤ count ∧ (len = 0 ∨ len + 11 ≤ msize) ∧
   ready_answer offset count msize level =
     if bool_decide (level mask ≠ 0) || snapshot then Reply (level mask) len
     else Defer mask len).
Proof.
  intros Ho Hc Hm mask snapshot. unfold ready_answer.
  change (Z.land (Z.lnot _) _) with (Z.shiftl (Z.ones 47) 17).
  rewrite land_high_mask by done.
  change P9_POLL_MASK with (Z.ones 16). rewrite Z.land_ones by lia. fold mask.
  rewrite (as_u_small 16 mask) by (apply Z.mod_pos_bound; lia).
  change P9_POLL_SNAPSHOT with (Z.shiftl 1 16). rewrite land_bit by done.
  fold snapshot. unfold in_u in *.
  destruct (Z.eqb_spec (Z.shiftl (offset / 2 ^ 17) 17) 0) as [H0|H0]; cbn [negb].
  - right. apply Z.shiftl_eq_0_iff, Z.div_small_iff in H0; [|lia..]. split; [lia|].
    exists (Z.min (Z.min (sat_sub msize (P9_HDR_LEN + 4)) count) 4).
    split; [|split; [|split]]; [unfold sat_sub, P9_HDR_LEN; lia..|].
    rewrite bool_decide_not. unfold snapshot.
    destruct (Z.testbit offset 16); [by rewrite !orb_true_r|].
    by destruct (Z.eqb_spec (level mask) 0); case_bool_decide.
  - left. split; [done|]. destruct (Z.lt_ge_cases offset (2 ^ 17)); [|done].
    by rewrite Z.div_small in H0 by lia.
Qed.

(** ** Witnesses *)

Lemma parsers_never_panic_witness :
  buf_ok [11; 0; 0; 0; 120; 1; 0; 255; 0; 0; 0] ∧
  ∃ r, parse_tattach [11; 0; 0; 0; 120; 1; 0; 255; 0; 0; 0] = Done r.
Proof.
  split; [done|].
  apply (parsers_never_panic [11; 0; 0; 0; 120; 1; 0; 255; 0; 0; 0]); [done|].
  repeat constructor; unfold is_byte, in_u; lia.
Defined.

Lemma weft_roundtrip_witness : ∃ out',
  build_tweft 7 42 (replicate 32 0) = Done (out', Ok 11) ∧
  parse_tweft out' = Done (Ok 42) ∧
  peek_header out' = Done (Ok (mkHeader 11 P9_TWEFT 7)).
Proof.
  assert (in_u 16 7) as H1 by done.
  assert (buf_ok (replicate 32 0)) as H2 by done.
  assert (bytes_ok (replicate 32 0)) as H3 by (apply Forall_replicate; done).
  assert (23 ≤ zlen (replicate 32 0)) as H4 by done.
  destruct (weft_roundtrip 7 (replicate 32 0) H1 H2 H3 H4) as (_ & _ & H & _).
  apply (H 42). done.
Defined.

Lemma dirent_budget_witness :
  if decide (26 ≤ zlen (replicate 30 0))
  then pack_dirent (zlen [1; 2]) (mkQid 128 0 5) 1 4 [97; 98] ([1; 2] ++ replicate 30 0) =
         Done ([1; 2] ++ dirent_bytes (mkQid 128 0 5) 1 4 [97; 98] ++
               drop (Z.to_nat 26) (replicate 30 0), Ok (zlen [1; 2] + 26))
  else ∃ r', pack_dirent (zlen [1; 2]) (mkQid 128 0 5) 1 4 [97; 98] ([1; 2] ++ replicate 30 0) =
         Done ([1; 2] ++ r', Err tt) ∧ length r' = length (replicate 30 0).
Proof. apply dirent_budget; done. Defined.

Lemma ready_answer_spec_witness :
  let mask := 0x10001 mod 2 ^ 16 in
  let snapshot := Z.testbit 0x10001 16 in
  (ready_answer 0x10001 4 8192 (λ _, 0) = Refuse E_INVAL ∧ 2 ^ 17 ≤ 0x10001) ∨
  (0x10001 < 2 ^ 17 ∧ ∃ len, 0 ≤ len ≤ 4 ∧ len ≤ 4 ∧ (len = 0 ∨ len + 11 ≤ 8192) ∧
   ready_answer 0x10001 4 8192 (λ _, 0) =
     if bool_decide (0 ≠ 0) || snapshot then Reply 0 len else Defer mask len).
Proof. apply (ready_answer_spec 0x10001 4 8192 (λ _, 0)); done. Defined.

End NinePProofs.
