(* ===== verification/Carve.v ===== *)
(** * Split and stack arithmetic (src/usr/lib/libhalcyon/src/carve.rs)

    The weighted division of an extent among the children of a split, the
    divider drag, and the header/body allocation of a stack.  Widths are [u32],
    weights [u16].  [split_spans] works in [u128], which no product of a [u32], a
    [u16] and a child count can leave, so it is exact here; [drag_pair] works in
    [u64] and keeps its overflow check.  [split_spans]'s loop is a Fixpoint on fuel
    [S n]: every pass that does not stop freezes at least one of the [n]
    children. *)

From S2P Require Import Prelude.
Open Scope Z_scope.

Module Carve.

Record Span := mkSpan { start : Z; span_end : Z }.

Definition span_len (s : Span) : Z := sat_sub (span_end s) (start s).
Definition span_is_empty (s : Span) : bool := span_end s <=? start s.

Definition MIN_PANE_W : Z := 260.
Definition MIN_BODY_H : Z := 54.
Definition DEFAULT_WEIGHT : Z := 1.
Definition DRAG_RATIO_MIN_PCT : Z := 22.
Definition DRAG_RATIO_MAX_PCT : Z := 78.

Definition clamp_u32 (v : Z) : Z := if u_max 32 <? v then u_max 32 else v.

Definition zsum (l : list Z) : Z := foldr Z.add 0 l.

(** A child of a division: its weight ([w(i)], at least one) and its minimum
    ([min(i)], zero when the caller gave none). *)
Record child := mkChild { wt : Z; mn : Z }.

Definition children_of (weights minima : list Z) : list child :=
  imap (λ i w, mkChild (Z.max w 1) (default 0 (minima !! i))) weights.

(** The overflow branch: every child at its minimum from the origin. *)
Fixpoint minima_spans (b t : Z) (cs : list child) : list Span :=
  match cs with
  | [] => []
  | c :: cs =>
      mkSpan (clamp_u32 b) (clamp_u32 (b + mn c)) :: minima_spans (b + mn c + t) t cs
  end.

(** The sums of one turn of the flex loop: the weights of the children not yet
    frozen and the minima of the frozen ones. *)
Definition live_weight (cs : list child) (fr : list bool) : Z :=
  zsum (zip_with (λ c (f : bool), if f then 0 else wt c) cs fr).
Definition frozen_min (cs : list child) (fr : list bool) : Z :=
  zsum (zip_with (λ c (f : bool), if f then mn c else 0) cs fr).

(** The pass: freeze every child whose share falls below its minimum. *)
Definition below_min (s r : Z) (c : child) : bool := r * wt c <? mn c * s.
Definition freeze_pass (s r : Z) (cs : list child) (fr : list bool) : list bool :=
  zip_with (λ c (f : bool), f || below_min s r c) cs fr.

Fixpoint flex (fuel : nat) (usable : Z) (cs : list child) (fr : list bool) :
    outcome (list bool * Z * Z) :=
  match fuel with
  | O => OutOfFuel
  | S fuel =>
      let s := live_weight cs fr in
      r ← usub usable (frozen_min cs fr);
      if s =? 0 then Done (fr, s, r) else
      let any := existsb (λ x, x) (zip_with (λ c (f : bool), negb f && below_min s r c) cs fr) in
      if any then flex fuel usable cs (freeze_pass s r cs fr) else Done (fr, s, r)
  end.

Definition ext_num (den r : Z) (c : child) (f : bool) : Z :=
  if f then mn c * den else r * wt c.

Definition snap (den num : Z) : Z := (num + den / 2) / den.

(** The snapped boundaries [starts], the last one included. *)
Fixpoint boundaries (den t num : Z) (exts : list Z) : list Z :=
  match exts with
  | [] => [snap den num]
  | e :: exts => snap den num :: boundaries den t (num + (e + t * den)) exts
  end.

(** Child [k] is [[b_k, b_{k+1} - t)]. *)
Fixpoint spans_of (t : Z) (starts : list Z) : list Span :=
  match starts with
  | a :: ((b :: _) as rest) =>
      mkSpan (clamp_u32 a) (clamp_u32 (Z.max (sat_sub b t) a)) :: spans_of t rest
  | _ => []
  end.

Definition split_spans (origin extent track : Z) (weights minima : list Z) :
    outcome (list Span) :=
  let n := zlen weights in
  if n =? 0 then Done [] else
  let usable := sat_sub extent ((n - 1) * track) in
  let cs := children_of weights minima in
  if usable <? zsum (mn <$> cs)
  then Done (minima_spans origin track cs)
  else
    '(fr, s, r) ← flex (S (length cs)) usable cs (replicate (length cs) false);
    let den := if s =? 0 then 1 else s in
    Done (spans_of track
            (boundaries den track (origin * den) (zip_with (ext_num den r) cs fr))).

(** ** The divider drag *)

Definition div_ceil (a b : Z) : Z := (a + b - 1) / b.

Definition clamp_first (p a min_first min_second : Z) : option (Z * Z) :=
  let lo := div_ceil (DRAG_RATIO_MIN_PCT * p) 100 in
  let hi := (DRAG_RATIO_MAX_PCT * p) / 100 in
  let lo := Z.max lo min_first in
  if p <? min_second then None else
  let hi := Z.min hi (p - min_second) in
  if hi <? lo then None else
  let a := Z.min (Z.max a lo) hi in
  Some (clamp_u32 a, clamp_u32 (p - a)).

Definition drag_pair (origin first second track min_first min_second pos : Z) :
    outcome (option (Z * Z)) :=
  let p := first + second in
  let f := p + track in
  if f =? 0 then Done None else
  if pos - origin <? - 2 ^ 63 then Panic else
  let rel := Z.min (Z.max (pos - origin) 0) f in
  x ← umul 64 (2 * rel) p;
  y ← uadd 64 x f;
  Done (clamp_first p (y / (2 * f)) min_first min_second).

Definition equalise_pair (first second min_first min_second : Z) : option (Z * Z) :=
  let p := first + second in
  clamp_first p (div_ceil p 2) min_first min_second.

(** ** The stack's headers and body *)

Definition header_span (inner_y bottom : Z) (n open header : Z) (i : Z) : Span :=
  let start := if i <=? open then sat_add 32 inner_y (sat_mul 32 (as_u 32 i) header)
               else sat_sub bottom (sat_mul 32 (as_u 32 (n - i)) header) in
  mkSpan start (sat_add 32 start header).

Definition stack_alloc (inner_y inner_h : Z) (n open : nat) (header sep : Z) :
    outcome (list Span * Span) :=
  match n with
  | O => e ← uadd 32 inner_y inner_h; Done ([], mkSpan inner_y e)
  | S n' =>
      let open := Nat.min open n' in
      let bottom := sat_add 32 inner_y inner_h in
      let headers := (λ i, header_span inner_y bottom (Z.of_nat n) (Z.of_nat open) header
                             (Z.of_nat i)) <$> seq 0 n in
      h ← unwrap (headers !! open);
      let body_start := span_end h in
      let after := as_u 32 (Z.of_nat (n - 1 - open)) in
      let b := if (open + 1 <? n)%nat then sep else 0 in
      let body_end := sat_sub (sat_sub bottom (sat_mul 32 after header)) b in
      Done (headers, mkSpan body_start (Z.max body_end body_start))
  end.

Definition stack_min_h (n : nat) (header sep body_min frame : Z) : outcome Z :=
  let sep := if (1 <? n)%nat then sep else 0 in
  f2 ← umul 32 2 frame;
  Done (sat_add 32 (sat_add 32 (sat_add 32 f2 (sat_mul 32 (as_u 32 (Z.of_nat n)) header)) sep) body_min).

End Carve.
