(* ===== verification/CarveProofs.v ===== *)
(** * Correctness of the split and stack arithmetic

    [split_spans] returns for every input, and when the minima fit it divides
    the extent exactly: the spans are separated by one track, none is below its
    minimum and the last ends where the extent ends.  A divider drag conserves
    the pair's extent and keeps both minima, and the extents it writes back as
    weights are a fixed point of the division. *)

From S2P Require Import Prelude Carve.
Import Carve.
Open Scope Z_scope.

Module CarveProofs.

(** ** Specification *)

(** [spans] lays [cs] out from [b]: consecutive spans are one [t] apart and no
    span is shorter than its minimum; [e] is where the last one ends. *)
Inductive laid (t : Z) : Z → list child → list Span → Z → Prop :=
  | laid_one b c e : mn c ≤ e - b → laid t b [c] [mkSpan b e] e
  | laid_cons b c e cs spans e' : mn c ≤ e - b → laid t (e + t) cs spans e' →
      laid t b (c :: cs) (mkSpan b e :: spans) e'.

Definition children_ok (cs : list child) : Prop :=
  Forall (λ c, 1 ≤ wt c ∧ 0 ≤ mn c) cs.

(** ** Sums *)

Lemma zsum_cons x l : zsum (x :: l) = x + zsum l.
Proof. done. Qed.
Lemma zsum_nonneg l : Forall (λ x, 0 ≤ x) l → 0 ≤ zsum l.
Proof. induction 1; [done|]. rewrite zsum_cons. lia. Qed.

(** Facts about one flex turn, by induction over the two lists. *)
Lemma turn_bounds cs fr :
  children_ok cs → length fr = length cs →
  0 ≤ frozen_min cs fr ≤ zsum (mn <$> cs) ∧ 0 ≤ live_weight cs fr.
Proof.
  intros Hok. revert fr. induction Hok as [|c cs [Hw Hm] _ IH]; intros [|f fr] Hl; try done.
  destruct (IH fr ltac:(by simplify_eq/=)) as [IH1 IH2].
  unfold frozen_min, live_weight, zsum in *. cbn in *. destruct f; lia.
Qed.

(** If every live child is below its minimum, the live minima exceed [r]. *)
Lemma all_below cs fr s r :
  children_ok cs → 0 ≤ s → Forall2 (λ c (f : bool), f = false → r * wt c < mn c * s) cs fr →
  r * live_weight cs fr ≤ s * (zsum (mn <$> cs) - frozen_min cs fr) ∧
  (0 < live_weight cs fr →
   r * live_weight cs fr < s * (zsum (mn <$> cs) - frozen_min cs fr)).
Proof.
  intros Hok Hs HF. induction HF as [|c f cs fr Hc _ IH]; [cbn; lia|].
  apply Forall_cons in Hok as [[Hw Hm] Hok]. destruct (IH Hok) as [IH1 IH2].
  unfold frozen_min, live_weight, zsum in *. cbn in *.
  destruct f; [|specialize (Hc eq_refl)].
  - rewrite Z.add_0_l. split; [lia|]. intros. specialize (IH2 ltac:(lia)). lia.
  - split; lia.
Qed.

(** A pass that leaves nothing live froze every live child. *)
Lemma pass_dead cs fr s r :
  children_ok cs → length fr = length cs → live_weight cs (freeze_pass s r cs fr) ≤ 0 →
  Forall2 (λ c (f : bool), f = false → r * wt c < mn c * s) cs fr.
Proof.
  intros Hok. revert fr. induction Hok as [|c cs [Hw Hm] Hok IH]; intros [|f fr] Hl Hd; try done.
  assert (length (freeze_pass s r cs fr) = length cs) as Hl'.
  { unfold freeze_pass. rewrite length_zip_with. simplify_eq/=. lia. }
  pose proof (turn_bounds cs _ Hok Hl') as [_ Hb].
  unfold live_weight, freeze_pass, zsum in *. cbn in Hd, Hb.
  unfold below_min at 1 in Hd.
  constructor.
  - intros ->. cbn in Hd. destruct (Z.ltb_spec (r * wt c) (mn c * s)); [done|lia].
  - apply IH; [by simplify_eq/=|]. destruct (f || _); lia.
Qed.

Definition n_live (fr : list bool) : nat :=
  foldr (λ (f : bool) n, if f then n else S n) O fr.

Lemma pass_live cs fr s r :
  length fr = length cs →
  (n_live (freeze_pass s r cs fr) ≤ n_live fr)%nat ∧
  (existsb (λ x, x) (zip_with (λ c (f : bool), negb f && below_min s r c) cs fr) = true →
   (n_live (freeze_pass s r cs fr) < n_live fr)%nat).
Proof.
  revert fr. induction cs as [|c cs IH]; intros [|f fr] Hl; try done.
  destruct (IH fr ltac:(by simplify_eq/=)) as [IH1 IH2].
  unfold n_live, freeze_pass in *. cbn. destruct f; cbn; [done|].
  destruct (below_min s r c); cbn; split; try lia. intros He. specialize (IH2 He). lia.
Qed.

Lemma none_below cs fr s r :
  length fr = length cs →
  existsb (λ x, x) (zip_with (λ c (f : bool), negb f && below_min s r c) cs fr) = false →
  Forall2 (λ c (f : bool), f = false → mn c * s ≤ r * wt c) cs fr.
Proof.
  revert fr. induction cs as [|c cs IH]; intros [|f fr] Hl He; try done.
  cbn in He. apply orb_false_iff in He as [Hc He].
  constructor; [|by apply IH; simplify_eq/=].
  intros ->. cbn in Hc. unfold below_min in Hc. by apply Z.ltb_ge in Hc.
Qed.

(** The flex loop returns within its fuel, with something left to share. *)
Lemma flex_spec fuel usable cs fr :
  children_ok cs → length fr = length cs → zsum (mn <$> cs) ≤ usable →
  0 < live_weight cs fr → (n_live fr < fuel)%nat →
  ∃ fr' s r, flex fuel usable cs fr = Done (fr', s, r) ∧ length fr' = length cs ∧
    s = live_weight cs fr' ∧ 0 < s ∧ r = usable - frozen_min cs fr' ∧ 0 ≤ r ∧
    Forall2 (λ c (f : bool), f = false → mn c * s ≤ r * wt c) cs fr'.
Proof.
  intros Hok. revert fr. induction fuel as [|fuel IH]; intros fr Hl Hm Hw Hf; [lia|].
  pose proof (turn_bounds cs fr Hok Hl) as [Hfm _].
  cbn [flex]. rewrite usub_ok by lia. obind.
  set (s := live_weight cs fr) in *. set (r := usable - frozen_min cs fr).
  destruct (Z.eqb_spec s 0); [lia|].
  destruct (existsb _ _) eqn:He.
  - apply IH; [| |..].
    + unfold freeze_pass. rewrite length_zip_with. lia.
    + done.
    + destruct (Z.lt_ge_cases 0 (live_weight cs (freeze_pass s r cs fr))) as [|Hd]; [done|].
      apply pass_dead in Hd; [|done..].
      apply all_below in Hd as [_ Hd]; [|done|lia]. specialize (Hd Hw). fold s in Hd. nia.
    + pose proof (proj2 (pass_live cs fr s r Hl) He). lia.
  - exists fr, s, r. split_and!; try done; try lia. by apply none_below.
Qed.

(** ** Boundaries *)

Lemma snap_mono den a b : 0 < den → a ≤ b → snap den a ≤ snap den b.
Proof. intros Hd Hab. apply Z.div_le_mono; lia. Qed.
Lemma snap_add den a k : 0 < den → snap den (a + k * den) = snap den a + k.
Proof.
  intros Hd. unfold snap. rewrite <-Z.div_add by lia. f_equal. lia.
Qed.
Lemma snap_mul den k : 0 < den → snap den (k * den) = k.
Proof.
  intros Hd. rewrite <-(Z.add_0_l (k * den)), snap_add by done.
  unfold snap. rewrite Z.div_small; [lia|]. split; [apply Z.div_pos; lia|].
  rewrite Z.add_0_l. apply Z.div_lt; lia.
Qed.
Lemma snap_nonneg den a : 0 < den → 0 ≤ a → 0 ≤ snap den a.
Proof.
  intros. assert (0 ≤ den / 2) by (apply Z.div_pos; lia). apply Z.div_pos; lia.
Qed.

Lemma clamp_u32_id v : v ≤ u_max 32 → clamp_u32 v = v.
Proof. intros. unfold clamp_u32. by rewrite (proj2 (Z.ltb_ge _ _)). Qed.

Definition total_ext (den t : Z) (exts : list Z) : Z := zsum ((λ e, e + t * den) <$> exts).

Lemma boundaries_head den t num exts :
  ∃ rest, boundaries den t num exts = snap den num :: rest.
Proof. destruct exts; cbn; eauto. Qed.

Lemma total_ext_nonneg den t cs exts :
  0 < den → 0 ≤ t → children_ok cs → Forall2 (λ c e, mn c * den ≤ e) cs exts →
  0 ≤ total_ext den t exts.
Proof.
  intros Hd Ht Hok HF. induction HF as [|c e cs exts Hc _ IH]; [done|].
  apply Forall_cons in Hok as [[_ Hm] Hok]. specialize (IH Hok).
  unfold total_ext in *. rewrite fmap_cons, zsum_cons.
  assert (0 ≤ mn c * den) by nia. assert (0 ≤ t * den) by nia. lia.
Qed.

Lemma spans_of_cons t a b l :
  spans_of t (a :: b :: l) =
  mkSpan (clamp_u32 a) (clamp_u32 (Z.max (sat_sub b t) a)) :: spans_of t (b :: l).
Proof. done. Qed.

Lemma laid_boundaries den t num cs exts :
  0 < den → 0 ≤ t → 0 ≤ num → cs ≠ [] → children_ok cs →
  Forall2 (λ c e, mn c * den ≤ e) cs exts →
  snap den (num + total_ext den t exts) - t ≤ u_max 32 →
  laid t (snap den num) cs (spans_of t (boundaries den t num exts))
    (snap den (num + total_ext den t exts) - t).
Proof.
  intros Hd Ht Hnum Hne Hok HF. revert num Hnum Hne.
  induction HF as [|c e cs exts Hc HF IH]; intros num Hnum Hne Hmax; [done|].
  apply Forall_cons in Hok as [[_ Hm] Hok]. specialize (IH Hok).
  assert (snap den num + mn c + t ≤ snap den (num + (e + t * den))) as Hstep.
  { rewrite <-Z.add_assoc, <-snap_add by done. apply snap_mono; [done|nia]. }
  pose proof (snap_nonneg den num Hd Hnum) as Hs0.
  assert (total_ext den t (e :: exts) = e + t * den + total_ext den t exts) as Ht' by done.
  rewrite Ht', Z.add_assoc in Hmax |- *.
  pose proof (total_ext_nonneg den t cs exts Hd Ht Hok HF) as Hrest.
  assert (snap den (num + (e + t * den)) ≤
          snap den (num + (e + t * den) + total_ext den t exts)) as Hmono
    by (apply snap_mono; lia).
  cbn [boundaries].
  destruct (boundaries_head den t (num + (e + t * den)) exts) as [rest Hb].
  assert (mkSpan (clamp_u32 (snap den num))
     (clamp_u32 (Z.max (sat_sub (snap den (num + (e + t * den))) t) (snap den num))) =
     mkSpan (snap den num) (snap den (num + (e + t * den)) - t)) as Hspan.
  { unfold sat_sub. rewrite Z.max_l, Z.max_l by lia. by rewrite !clamp_u32_id by lia. }
  destruct HF as [|c' e' cs' exts' Hc' HF'].
  - cbn in *. unfold total_ext in *. cbn in *. rewrite Z.add_0_r in *. rewrite Hspan.
    constructor. lia.
  - rewrite Hb, spans_of_cons, Hspan. constructor; [lia|].
    rewrite <-Hb, Z.sub_add. apply IH; [nia|done|done].
Qed.

Lemma children_of_ok weights minima :
  Forall (λ m, 0 ≤ m) minima → children_ok (children_of weights minima).
Proof.
  intros Hm. apply Forall_lookup_2. intros i c Hc. unfold children_of in Hc.
  rewrite list_lookup_imap in Hc.
  destruct (weights !! i) as [w|]; simplify_eq/=. split; [lia|].
  destruct (minima !! i) as [m|] eqn:Hi; cbn; [|lia].
  by eapply Forall_lookup_1 in Hi.
Qed.
Lemma length_children_of weights minima :
  length (children_of weights minima) = length weights.
Proof. apply length_imap. Qed.

Lemma live_weight_all cs : live_weight cs (replicate (length cs) false) = zsum (wt <$> cs).
Proof. unfold live_weight, zsum. induction cs as [|c cs IH]; [done|]. cbn in *. by rewrite IH. Qed.
Lemma n_live_all n : n_live (replicate n false) = n.
Proof. unfold n_live. induction n as [|n IH]; [done|]. cbn. by rewrite IH. Qed.
Lemma frozen_min_none cs : frozen_min cs (replicate (length cs) false) = 0.
Proof. unfold frozen_min, zsum. induction cs as [|c cs IH]; [done|]. cbn in *. by rewrite IH. Qed.

Lemma weights_pos cs : children_ok cs → cs ≠ [] → 0 < zsum (wt <$> cs).
Proof.
  intros Hok Hne. destruct Hok as [|c cs [Hw _] Hok]; [done|].
  rewrite fmap_cons, zsum_cons.
  assert (0 ≤ zsum (wt <$> cs)); [|lia].
  apply zsum_nonneg, Forall_fmap. eapply Forall_impl; [exact Hok|]. cbn. lia.
Qed.

(** The shares of the children add up to the usable extent. *)
Lemma shares_total den r cs fr :
  length fr = length cs →
  zsum (zip_with (ext_num den r) cs fr) = frozen_min cs fr * den + r * live_weight cs fr.
Proof.
  unfold frozen_min, live_weight. revert fr.
  induction cs as [|c cs IH]; intros [|f fr] Hl; try done; [cbn; lia|].
  cbn [zip_with]. rewrite !zsum_cons, IH by by simplify_eq/=.
  unfold ext_num. destruct f; lia.
Qed.
Lemma total_ext_eq den t exts : total_ext den t exts = zsum exts + zlen exts * (t * den).
Proof.
  unfold total_ext. induction exts as [|e exts IH]; [done|].
  rewrite fmap_cons, !zsum_cons, IH. cbn [length]. lia.
Qed.

Lemma shares_min s r cs fr :
  length fr = length cs →
  Forall2 (λ c (f : bool), f = false → mn c * s ≤ r * wt c) cs fr →
  Forall2 (λ c e, mn c * s ≤ e) cs (zip_with (ext_num s r) cs fr).
Proof.
  intros Hl H. induction H as [|c f cs fr Hc H IH]; cbn; constructor.
  - unfold ext_num. destruct f; [lia|by apply Hc].
  - apply IH. by simplify_eq/=.
Qed.

(** The division when the minima fit: [flex] leaves something to share. *)
Lemma split_spans_fit origin extent track weights minima :
  weights ≠ [] → Forall (λ m, 0 ≤ m) minima →
  zsum (mn <$> children_of weights minima) ≤ sat_sub extent ((zlen weights - 1) * track) →
  ∃ fr s r, let cs := children_of weights minima in
    let exts := zip_with (ext_num s r) cs fr in
    split_spans origin extent track weights minima =
      Done (spans_of track (boundaries s track (origin * s) exts)) ∧
    length fr = length cs ∧ 0 < s ∧ children_ok cs ∧
    Forall2 (λ c e, mn c * s ≤ e) cs exts ∧
    zsum exts = sat_sub extent ((zlen weights - 1) * track) * s.
Proof.
  intros Hne Hm Hfit. pose proof (children_of_ok weights minima Hm) as Hok.
  pose proof (length_children_of weights minima) as Hl.
  set (cs := children_of weights minima) in *.
  assert (cs ≠ []) as Hcs by (destruct weights; [done|]; by destruct cs).
  unfold split_spans. rewrite (proj2 (Z.eqb_neq _ _)) by (destruct weights; [done|]; simpl; lia).
  fold cs. rewrite (proj2 (Z.ltb_ge _ _)) by done.
  destruct (flex_spec (S (length cs)) (sat_sub extent ((zlen weights - 1) * track)) cs
    (replicate (length cs) false)) as (fr & s & r & -> & Hfr & Hs & Hpos & Hr & Hr0 & HF).
  - done.
  - apply length_replicate.
  - done.
  - rewrite live_weight_all. by apply weights_pos.
  - rewrite n_live_all. lia.
  - exists fr, s, r. cbn. fold cs. rewrite (proj2 (Z.eqb_neq s 0)) by lia.
    split_and!; try done; [by apply shares_min|].
    rewrite shares_total, <-Hs by done. subst r. lia.
Qed.

(** When the minima fit beside the tracks, [split_spans] returns and divides
    the extent exactly: the first span starts at the origin, consecutive spans
    are one track apart, no span is below its minimum and the last one ends at
    [origin + extent] (or, when the tracks alone overrun it, after the last
    track). *)
Theorem split_spans_partition origin extent track weights minima :
  weights ≠ [] → Forall (λ m, 0 ≤ m) minima → 0 ≤ origin → 0 ≤ track →
  zsum (mn <$> children_of weights minima) ≤ sat_sub extent ((zlen weights - 1) * track) →
  origin + Z.max extent ((zlen weights - 1) * track) ≤ u_max 32 →
  ∃ spans, split_spans origin extent track weights minima = Done spans ∧
    laid track origin (children_of weights minima) spans
      (origin + Z.max extent ((zlen weights - 1) * track)).
Proof.
  intros Hne Hm Ho Ht Hfit Hmax.
  destruct (split_spans_fit origin extent track weights minima Hne Hm Hfit)
    as (fr & s & r & Hsp & Hfr & Hs & Hok & HF & Hsum).
  set (cs := children_of weights minima) in *. set (exts := zip_with _ _ _) in *.
  eexists. split; [exact Hsp|].
  assert (length exts = length weights) as Hle.
  { unfold exts. rewrite length_zip_with.
    pose proof (length_children_of weights minima) as Hlc. fold cs in Hlc. lia. }
  assert (snap s (origin * s + total_ext s track exts) - track =
          origin + Z.max extent ((zlen weights - 1) * track)) as He.
  { rewrite total_ext_eq, Hsum, Hle. unfold sat_sub.
    replace (origin * s + _) with ((origin + Z.max (extent - (zlen weights - 1) * track) 0 +
      zlen weights * track) * s) by lia.
    rewrite snap_mul by done. lia. }
  rewrite <-He. rewrite <-(snap_mul s origin Hs) at 1.
  apply laid_boundaries; try done; [nia| |lia].
  unfold cs. destruct weights; [done|]. by intros ?%(f_equal length).
Qed.

Lemma length_minima_spans b t cs : length (minima_spans b t cs) = length cs.
Proof. revert b. induction cs; intros; cbn; auto. Qed.
Lemma length_spans_of t l : length (spans_of t l) = (length l - 1)%nat.
Proof.
  induction l as [|a [|b l] IH]; [done..|]. rewrite spans_of_cons. cbn [length] in *. lia.
Qed.
Lemma length_boundaries den t num exts : length (boundaries den t num exts) = S (length exts).
Proof. revert num. induction exts; intros; cbn; auto. Qed.

(** [split_spans] returns on every input, within its fuel, with one span per
    child: the flex loop terminates because each pass that continues freezes a
    child. *)
Theorem split_spans_total origin extent track weights minima :
  Forall (λ m, 0 ≤ m) minima →
  ∃ spans, split_spans origin extent track weights minima = Done spans ∧
    length spans = length weights.
Proof.
  intros Hm. pose proof (length_children_of weights minima) as Hl.
  destruct weights as [|w ws] eqn:Hws; [by exists []|]. rewrite <-Hws in *.
  destruct (Z.lt_ge_cases (sat_sub extent ((zlen weights - 1) * track))
    (zsum (mn <$> children_of weights minima))) as [Hlt|Hge].
  - eexists. unfold split_spans.
    rewrite (proj2 (Z.eqb_neq _ _)), (proj2 (Z.ltb_lt _ _)) by (done || subst; simpl; lia).
    split; [done|]. by rewrite length_minima_spans.
  - destruct (split_spans_fit origin extent track weights minima)
      as (fr & s & r & -> & Hfr & _); [by subst|done|lia|].
    eexists. split; [done|].
    rewrite length_spans_of, length_boundaries, length_zip_with. lia.
Qed.

(** ** The fixed point: extents written back as weights *)

(** The spans of [es] laid from [b], each exactly its extent. *)
Fixpoint exact_spans (t b : Z) (es : list Z) : list Span :=
  match es with
  | [] => []
  | e :: es => mkSpan b (b + e) :: exact_spans t (b + e + t) es
  end.

Lemma spans_exact den t b es :
  0 < den → 0 ≤ t → 0 ≤ b → Forall (λ e, 0 ≤ e) es →
  b + zsum es + zlen es * t ≤ u_max 32 + t →
  spans_of t (boundaries den t (b * den) ((λ e, e * den) <$> es)) = exact_spans t b es.
Proof.
  intros Hd Ht Hb Hes. revert b Hb.
  induction Hes as [|e es He Hes IH]; intros b Hb Hmax; [done|].
  rewrite fmap_cons. cbn [boundaries exact_spans].
  replace (b * den + (e * den + t * den)) with ((b + e + t) * den) by lia.
  destruct (boundaries_head den t ((b + e + t) * den) ((λ e, e * den) <$> es)) as [rest Hh].
  rewrite Hh, spans_of_cons, <-Hh. rewrite !snap_mul by done.
  pose proof (zsum_nonneg es Hes) as Hz. rewrite zsum_cons in Hmax. cbn [length] in Hmax.
  assert (0 ≤ zlen es * t) by nia.
  rewrite IH by lia. f_equal. unfold sat_sub.
  rewrite !clamp_u32_id by lia. f_equal; lia.
Qed.

Lemma children_wt ws minima :
  Forall (λ w, 1 ≤ w) ws → wt <$> children_of ws minima = ws.
Proof.
  intros Hw. unfold children_of. apply list_eq. intros i.
  rewrite list_lookup_fmap, list_lookup_imap.
  destruct (ws !! i) as [w|] eqn:Hi; [|done]. cbn.
  eapply Forall_lookup_1 in Hw; [|done]. f_equal. cbn in Hw. lia.
Qed.

Lemma none_frozen s cs :
  Forall (λ c, mn c ≤ wt c) cs → 0 ≤ s →
  existsb (λ x, x) (zip_with (λ c (f : bool), negb f && below_min s s c) cs
    (replicate (length cs) false)) = false ∧
  zip_with (ext_num s s) cs (replicate (length cs) false) = (λ e, e * s) <$> (wt <$> cs).
Proof.
  intros HF Hs. induction HF as [|c cs Hc _ [IH1 IH2]]; [done|].
  cbn [length replicate zip_with existsb fmap list_fmap negb andb].
  rewrite IH1, IH2. unfold below_min, ext_num.
  rewrite (proj2 (Z.ltb_ge _ _)) by nia. split; [done|]. f_equal. lia.
Qed.

(** The extents a layout holds are a fixed point of the division: written
    back as weights, when each is at least its minimum and together with the
    tracks they fill the extent, [split_spans] returns exactly those extents. *)
Theorem split_spans_fixed_point origin track es minima :
  es ≠ [] → Forall (λ e, 1 ≤ e) es → 0 ≤ origin → 0 ≤ track →
  Forall (λ c, mn c ≤ wt c) (children_of es minima) →
  origin + zsum es + (zlen es - 1) * track ≤ u_max 32 →
  split_spans origin (zsum es + (zlen es - 1) * track) track es minima =
    Done (exact_spans track origin es).
Proof.
  intros Hne Hes Ho Ht Hmin Hmax. unfold split_spans.
  pose proof (children_wt es minima Hes) as Hwt.
  pose proof (length_children_of es minima) as Hlc.
  set (cs := children_of es minima) in *.
  assert (0 < zsum es) as Hpos.
  { destruct Hes as [|e es He Hes]; [done|]. rewrite zsum_cons.
    assert (0 ≤ zsum es); [|lia]. apply zsum_nonneg. eapply Forall_impl; [done|]. cbn. lia. }
  rewrite (proj2 (Z.eqb_neq _ _)) by (destruct es; [done|]; simpl; lia).
  assert (sat_sub (zsum es + (zlen es - 1) * track) ((zlen es - 1) * track) = zsum es) as ->
    by (unfold sat_sub; lia).
  assert (zsum (mn <$> cs) ≤ zsum es) as Hms.
  { rewrite <-Hwt. clear -Hmin. induction Hmin as [|c cs Hc _ IH]; [done|].
    rewrite !fmap_cons, !zsum_cons. lia. }
  rewrite (proj2 (Z.ltb_ge _ _)) by done. cbn [flex].
  rewrite frozen_min_none, usub_ok by lia. obind.
  rewrite live_weight_all, Hwt, Z.sub_0_r.
  rewrite (proj2 (Z.eqb_neq (zsum es) 0)) by lia.
  destruct (none_frozen (zsum es) cs Hmin ltac:(lia)) as [-> Hx].
  obind.
  rewrite (proj2 (Z.eqb_neq (zsum es) 0)) by lia. f_equal. rewrite Hx, Hwt.
  apply spans_exact; try lia. eapply Forall_impl; [done|]. cbn. lia.
Qed.

(** ** The divider drag *)

(** The extents the drag may give the first of a pair of total [p]. *)
Definition admissible (p m1 m2 a : Z) : Prop :=
  m1 ≤ a ∧ m2 ≤ p - a ∧ DRAG_RATIO_MIN_PCT * p ≤ 100 * a ≤ DRAG_RATIO_MAX_PCT * p.
(** [a'] is the admissible extent nearest to the wanted [a]. *)
Definition nearest_admissible (p m1 m2 a a' : Z) : Prop :=
  admissible p m1 m2 a' ∧ ∀ x, admissible p m1 m2 x → Z.abs (a' - a) ≤ Z.abs (x - a).

Lemma div_ceil_le a b x : 0 < b → div_ceil a b ≤ x ↔ a ≤ b * x.
Proof.
  intros Hb. unfold div_ceil. split; intros H.
  - pose proof (Z.mul_succ_div_gt (a + b - 1) b Hb). nia.
  - apply Z.lt_succ_r, Z.div_lt_upper_bound; nia.
Qed.
Lemma le_div_iff a b x : 0 < b → x ≤ a / b ↔ b * x ≤ a.
Proof.
  intros Hb. split; intros H; [|by apply Z.div_le_lower_bound].
  pose proof (Z.mul_div_le a b Hb). nia.
Qed.

(** The clamp: the nearest admissible extent, or [None] when there is none. *)
Lemma clamp_first_spec p a m1 m2 :
  0 ≤ p ≤ u_max 32 → 0 ≤ m1 → 0 ≤ m2 →
  match clamp_first p a m1 m2 with
  | Some (x, y) => x + y = p ∧ nearest_admissible p m1 m2 a x
  | None => ∀ x, ¬ admissible p m1 m2 x
  end.
Proof.
  intros Hp Hm1 Hm2. unfold clamp_first.
  set (lo := div_ceil _ 100). set (hi := _ / 100).
  assert (∀ x, lo ≤ x ↔ DRAG_RATIO_MIN_PCT * p ≤ 100 * x) as Hlo
    by (intros; by apply div_ceil_le).
  assert (∀ x, x ≤ hi ↔ 100 * x ≤ DRAG_RATIO_MAX_PCT * p) as Hhi
    by (intros; by apply le_div_iff).
  assert (∀ x, admissible p m1 m2 x ↔
    Z.max lo m1 ≤ x ∧ x ≤ Z.min hi (p - m2)) as Hadm.
  { intros x. specialize (Hlo x). specialize (Hhi x). unfold admissible. lia. }
  clearbody lo hi. clear Hlo Hhi.
  destruct (Z.ltb_spec p m2).
  { intros x [Hx1 Hx2]%Hadm. lia. }
  destruct (Z.ltb_spec (Z.min hi (p - m2)) (Z.max lo m1)).
  { intros x [Hx1 Hx2]%Hadm. lia. }
  rewrite !clamp_u32_id by lia. split; [lia|]. split; [apply Hadm; lia|].
  intros x Hx%Hadm. lia.
Qed.

(** The extent the pointer asks for: [rel * p / f], half up. *)
Definition wanted (origin first second track pos : Z) : Z :=
  let p := first + second in let f := p + track in
  let rel := Z.min (Z.max (pos - origin) 0) f in (2 * rel * p + f) / (2 * f).

(** A divider drag on a pair that fits a display never panics, conserves the
    pair's extent and gives the first child the admissible extent (both minima
    and the 22..78 percent band) nearest to the one under the pointer; it refuses
    exactly when no extent is admissible or the pair is empty. *)
Theorem drag_pair_spec origin first second track m1 m2 pos :
  0 ≤ first → 0 ≤ second → 0 ≤ track → 0 ≤ m1 → 0 ≤ m2 →
  first + second + track < 2 ^ 31 → 0 ≤ origin < 2 ^ 32 → - 2 ^ 62 ≤ pos →
  ∃ o, drag_pair origin first second track m1 m2 pos = Done o ∧
  match o with
  | Some (x, y) => x + y = first + second ∧
      nearest_admissible (first + second) m1 m2 (wanted origin first second track pos) x
  | None => first + second + track = 0 ∨ ∀ x, ¬ admissible (first + second) m1 m2 x
  end.
Proof.
  intros Hf Hs Ht Hm1 Hm2 Hd Ho Hpos. unfold drag_pair, wanted.
  set (p := first + second) in *. set (f := p + track) in *.
  destruct (Z.eqb_spec f 0); [by exists None; auto|].
  rewrite (proj2 (Z.ltb_ge _ _)) by lia.
  set (rel := Z.min _ f).
  assert (0 ≤ rel ≤ f) as Hrel by (unfold rel; lia).
  assert (0 ≤ 2 * rel * p ≤ 2 ^ 32 * 2 ^ 31) as Hprod by (unfold f, p in *; nia).
  change (2 ^ 32 * 2 ^ 31) with (2 ^ 63) in Hprod.
  rewrite umul_ok by (unfold u_max; lia). obind.
  rewrite uadd_ok by (unfold u_max; lia). obind.
  eexists. split; [done|].
  pose proof (clamp_first_spec p ((2 * rel * p + f) / (2 * f)) m1 m2) as Hc.
  destruct (clamp_first _ _ _ _) as [[x y]|]; [|right]; apply Hc; unfold u_max, p, f in *; lia.
Qed.

(** Equalising a pair conserves its extent and gives the first child the
    admissible extent nearest to half of it, rounded up; it refuses exactly
    when no extent is admissible. *)
Theorem equalise_pair_spec first second m1 m2 :
  0 ≤ first → 0 ≤ second → 0 ≤ m1 → 0 ≤ m2 → first + second ≤ u_max 32 →
  match equalise_pair first second m1 m2 with
  | Some (x, y) => x + y = first + second ∧
      nearest_admissible (first + second) m1 m2 (div_ceil (first + second) 2) x
  | None => ∀ x, ¬ admissible (first + second) m1 m2 x
  end.
Proof. intros. unfold equalise_pair. apply clamp_first_spec; lia. Qed.

(** ** Stacks *)

(** Header [i] of a column of headers [h] tall from [y]. *)
Definition headers_down (y h : Z) (i : nat) : Span :=
  mkSpan (y + Z.of_nat i * h) (y + Z.of_nat i * h + h).

Lemma u_max_32 : u_max 32 = 4294967295.
Proof. done. Qed.
Ltac sat := unfold sat_add, sat_sub, sat_mul, in_u; rewrite ?u_max_32; lia.

Section Stack.
Context (y h header : Z) (n open : nat).
Context (Hopen : (open < n)%nat) (Hy : 0 ≤ y) (Hhd : 0 ≤ header)
  (Hn : Z.of_nat n < 2 ^ 32) (Hbox : y + h < 2 ^ 32) (Hroom : Z.of_nat n * header ≤ h).
Let hdr i := header_span y (sat_add 32 y h) (Z.of_nat n) (Z.of_nat open) header (Z.of_nat i).

Lemma headers_le i : (i ≤ n)%nat → 0 ≤ Z.of_nat i * header ≤ Z.of_nat n * header.
Proof using Hhd. intros Hi. clear -Hhd Hi. nia. Qed.

Lemma header_above i : (i ≤ open)%nat → hdr i = headers_down y header i.
Proof using Hopen Hy Hhd Hn Hbox Hroom.
  intros Hi. unfold hdr, header_span, headers_down.
  rewrite (proj2 (Z.leb_le _ _)), as_u_small by (unfold in_u; lia).
  pose proof (headers_le i ltac:(lia)). pose proof (headers_le (S i) ltac:(lia)).
  f_equal; sat.
Qed.

Lemma header_below i : (open < i < n)%nat →
  hdr i = headers_down (y + h - Z.of_nat n * header) header i.
Proof using Hopen Hy Hhd Hn Hbox Hroom.
  intros Hi. unfold hdr, header_span, headers_down.
  rewrite (proj2 (Z.leb_gt _ _)), as_u_small by (unfold in_u; lia).
  pose proof (headers_le (n - i) ltac:(lia)). pose proof (headers_le (S i) ltac:(lia)).
  f_equal; sat.
Qed.
End Stack.

(** A frame of at least [stack_min_h] leaves room in its inner box. *)
Lemma stack_min_room n header sep body_min frame total h :
  0 ≤ header → 0 ≤ sep → 0 ≤ body_min → 0 ≤ frame → Z.of_nat n < 2 ^ 32 →
  stack_min_h n header sep body_min frame = Done total → total < u_max 32 →
  total ≤ h + 2 * frame →
  Z.of_nat n * header + (if (1 <? n)%nat then sep else 0) + body_min ≤ h.
Proof.
  intros Hhd Hsep Hbm Hfr Hn Hmin Htot Hfit. unfold stack_min_h in Hmin.
  destruct (umul 32 2 frame) as [f2| |] eqn:Hf2; [|done..].
  unfold umul in Hf2. destruct (Z.leb_spec (2 * frame) (u_max 32)) as [Hle|]; [|done].
  injection Hf2 as <-. injection Hmin as Hmin.
  rewrite (as_u_small 32 (Z.of_nat n)) in Hmin by (unfold in_u; lia).
  set (sep1 := if (1 <? n)%nat then sep else 0) in *.
  assert (0 ≤ sep1) as Hs1 by (unfold sep1; by destruct (1 <? n)%nat).
  unfold sat_add, sat_mul in Hmin. rewrite u_max_32 in *. lia.
Qed.

(** In a box that holds the headers, the separator and a body of [body_min]
    (an inner box of a frame of at least [stack_min_h]), the headers up to the
    open one stack down from the top, the later ones stack up from the bottom,
    and the body is everything between but the separator, at least
    [body_min] tall. *)
Theorem stack_alloc_layout y h n open header sep body_min frame total :
  (open < n)%nat → 0 ≤ y → 0 ≤ header → 0 ≤ sep → 0 ≤ body_min → 0 ≤ frame →
  Z.of_nat n < 2 ^ 32 → y + h < 2 ^ 32 →
  stack_min_h n header sep body_min frame = Done total → total < u_max 32 →
  total ≤ h + 2 * frame →
  ∃ headers body, stack_alloc y h n open header sep = Done (headers, body) ∧
    (∀ i, (i ≤ open)%nat → headers !! i = Some (headers_down y header i)) ∧
    (∀ i, (open < i < n)%nat →
      headers !! i = Some (headers_down (y + h - Z.of_nat n * header) header i)) ∧
    start body = y + Z.of_nat (S open) * header ∧
    span_end body = y + h - Z.of_nat (n - S open) * header - (if (S open <? n)%nat then sep else 0) ∧
    body_min ≤ span_len body.
Proof.
  intros Hopen Hy Hhd Hsep Hbm Hfr Hn Hb Hmin Htot Hfit.
  pose proof (stack_min_room _ _ _ _ _ _ _ Hhd Hsep Hbm Hfr Hn Hmin Htot Hfit) as Hroom.
  set (sep1 := if (1 <? n)%nat then sep else 0) in *.
  assert (0 ≤ sep1) as Hs1 by (unfold sep1; by destruct (1 <? n)%nat).
  clear Hmin Htot Hfit.
  destruct n as [|n']; [lia|]. unfold stack_alloc. set (n := S n') in *.
  replace (Nat.min open n') with open by lia.
  set (hs := _ <$> seq 0 n).
  assert (∀ i, (i < n)%nat → hs !! i = Some (header_span y (sat_add 32 y h) (Z.of_nat n)
    (Z.of_nat open) header (Z.of_nat i))) as Hhs.
  { intros i Hin. unfold hs. rewrite list_lookup_fmap, lookup_seq_lt by done. done. }
  rewrite Hhs, header_above by lia. cbn [unwrap mbind outcome_bind].
  eexists _, _. split; [done|].
  split; [by intros i Hi; rewrite Hhs, header_above by lia|].
  split; [by intros i Hi; rewrite Hhs, header_below by lia|].
  rewrite as_u_small by (unfold in_u; lia).
  replace (n - 1 - open)%nat with (n - S open)%nat by lia.
  replace (open + 1)%nat with (S open) by lia.
  assert (0 ≤ (if (S open <? n)%nat then sep else 0) ≤ sep1) as Hsp.
  { unfold sep1. destruct (Nat.ltb_spec (S open) n), (Nat.ltb_spec 1 n); lia. }
  set (sp := if (S open <? n)%nat then sep else 0) in *.
  pose proof (headers_le header n Hhd (n - S open) ltac:(lia)) as Hafter.
  assert (Z.of_nat (S open) * header + Z.of_nat (n - S open) * header = Z.of_nat n * header)
    by (rewrite <-Z.mul_add_distr_r; f_equal; lia).
  unfold span_len, headers_down. cbn [start span_end]. split_and!; sat.
Qed.

(** ** Instances of the theorems *)

Lemma split_spans_partition_witness :
  ∃ spans, split_spans 10 1000 6 [1; 3; 1] [260; 0; 260] = Done spans ∧
    laid 6 10 (children_of [1; 3; 1] [260; 0; 260]) spans 1010.
Proof.
  apply (split_spans_partition 10 1000 6 [1; 3; 1] [260; 0; 260]);
    [done|by repeat constructor|lia|lia|vm_compute; done..].
Defined.

Lemma split_spans_total_witness :
  ∃ spans, split_spans 0 100 6 [1; 3] [260; 260] = Done spans ∧ length spans = 2%nat.
Proof. apply (split_spans_total 0 100 6 [1; 3] [260; 260]). by repeat constructor. Defined.

Lemma split_spans_fixed_point_witness :
  split_spans 10 1006 6 [300; 700] [260; 260] = Done [mkSpan 10 310; mkSpan 316 1016].
Proof.
  apply (split_spans_fixed_point 10 6 [300; 700] [260; 260]);
    [done|by repeat constructor|lia|lia|by repeat constructor|vm_compute; done].
Defined.

Lemma drag_pair_spec_witness :
  ∃ o, drag_pair 0 500 500 6 260 260 100 = Done o ∧
  match o with
  | Some (x, y) => x + y = 1000 ∧ nearest_admissible 1000 260 260 (wanted 0 500 500 6 100) x
  | None => 1006 = 0 ∨ ∀ x, ¬ admissible 1000 260 260 x
  end.
Proof. apply (drag_pair_spec 0 500 500 6 260 260 100); lia. Defined.

Lemma equalise_pair_spec_witness :
  match equalise_pair 300 701 260 260 with
  | Some (x, y) => x + y = 1001 ∧ nearest_admissible 1001 260 260 (div_ceil 1001 2) x
  | None => ∀ x, ¬ admissible 1001 260 260 x
  end.
Proof. apply (equalise_pair_spec 300 701 260 260); (lia || done). Defined.

Lemma stack_alloc_layout_witness :
  ∃ headers body, stack_alloc 40 300 3 1 24 1 = Done (headers, body) ∧
    (∀ i, (i ≤ 1)%nat → headers !! i = Some (headers_down 40 24 i)) ∧
    (∀ i, (1 < i < 3)%nat → headers !! i = Some (headers_down (40 + 300 - 72) 24 i)) ∧
    start body = 88 ∧ span_end body = 315 ∧ 54 ≤ span_len body.
Proof. apply (stack_alloc_layout 40 300 3 1 24 1 54 2 131); (lia || done). Defined.

End CarveProofs.
