(* ===== verification/Geometry.v ===== *)
(** * Display geometry and effects (src/usr/tapestryd/src/pane.rs)

    The rectangles of the compositor and the pure decisions over them: the
    union, growth and subtraction of rectangles, the overlay of a placed card,
    the admission of display-bound chrome, and the metrics table with its
    scaling (src/usr/lib/libhalcyon/src/theme.rs, scale.rs).  Coordinates are
    [u32] with checked arithmetic, so a function that adds two of them returns
    an [outcome]. *)

From S2P Require Import Prelude.
Open Scope Z_scope.

Module Geometry.

Record Rect := mkRect { rx : Z; ry : Z; rw : Z; rh : Z }.

#[global] Instance Rect_eq_dec : EqDecision Rect.
Proof. solve_decision. Defined.

Definition ZERO : Rect := mkRect 0 0 0 0.

Definition is_empty (r : Rect) : bool := (rw r =? 0) || (rh r =? 0).

Definition intersect (a b : Rect) : outcome Rect :=
  let x1 := Z.max (rx a) (rx b) in
  let y1 := Z.max (ry a) (ry b) in
  ax ← uadd 32 (rx a) (rw a);
  bx ← uadd 32 (rx b) (rw b);
  ay ← uadd 32 (ry a) (rh a);
  by_ ← uadd 32 (ry b) (rh b);
  let x2 := Z.min ax bx in
  let y2 := Z.min ay by_ in
  if (x2 <=? x1) || (y2 <=? y1) then Done ZERO
  else Done (mkRect x1 y1 (x2 - x1) (y2 - y1)).

Definition contains (r : Rect) (x y : Z) : bool :=
  (rx r <=? x) && (x <? sat_add 32 (rx r) (rw r)) &&
  (ry r <=? y) && (y <? sat_add 32 (ry r) (rh r)).

Definition rect_union (a b : Rect) : outcome Rect :=
  if is_empty a then Done b else
  if is_empty b then Done a else
  let x1 := Z.min (rx a) (rx b) in
  let y1 := Z.min (ry a) (ry b) in
  ax ← uadd 32 (rx a) (rw a);
  bx ← uadd 32 (rx b) (rw b);
  ay ← uadd 32 (ry a) (rh a);
  by_ ← uadd 32 (ry b) (rh b);
  let x2 := Z.max ax bx in
  let y2 := Z.max ay by_ in
  Done (mkRect x1 y1 (x2 - x1) (y2 - y1)).

Definition grow_clamped (r : Rect) (b disp_w disp_h : Z) : Rect :=
  if is_empty r then ZERO else
  let x0 := sat_sub (rx r) b in
  let y0 := sat_sub (ry r) b in
  let x1 := Z.min (sat_add 32 (sat_add 32 (rx r) (rw r)) b) disp_w in
  let y1 := Z.min (sat_add 32 (sat_add 32 (ry r) (rh r)) b) disp_h in
  if (x1 <=? x0) || (y1 <=? y0) then ZERO
  else mkRect x0 y0 (x1 - x0) (y1 - y0).

Definition bars_around (outer inner : Rect) : outcome (list Rect) :=
  if is_empty inner then Done [outer; ZERO; ZERO; ZERO] else
  ox1 ← uadd 32 (rx outer) (rw outer);
  oy1 ← uadd 32 (ry outer) (rh outer);
  ix1 ← uadd 32 (rx inner) (rw inner);
  iy1 ← uadd 32 (ry inner) (rh inner);
  Done [ mkRect (rx outer) (ry outer) (rw outer) (sat_sub (ry inner) (ry outer));
         mkRect (rx outer) (Z.min iy1 oy1) (rw outer) (sat_sub oy1 iy1);
         mkRect (rx outer) (ry inner) (sat_sub (rx inner) (rx outer)) (rh inner);
         mkRect (Z.min ix1 ox1) (ry inner) (sat_sub ox1 ix1) (rh inner) ].

(** One piece against one hole: the piece itself, or its bars. *)
Definition cut (p h : Rect) : outcome (list Rect) :=
  i ← intersect p h;
  if is_empty i then Done [p] else
  bs ← bars_around p i;
  Done (filter (λ b, is_empty b = false) bs).

Definition subtract_rects (r : Rect) (holes : list Rect) : outcome (list Rect) :=
  let out := if is_empty r then [] else [r] in
  foldM (λ out h,
    foldM (λ next p, c ← cut p h; Done (next ++ c)) [] out) out holes.

(** [r] shrunk by [b] on every side. *)
Definition inset (r : Rect) (b : Z) : outcome Rect :=
  b2 ← umul 32 2 b;
  if (b2 <? rw r) && (b2 <? rh r) then
    x ← uadd 32 (rx r) b;
    y ← uadd 32 (ry r) b;
    Done (mkRect x y (rw r - b2) (rh r - b2))
  else Done ZERO.

(** ** Display-bound chrome *)

Record StatusReq := mkStatusReq {
  bar_registered : bool;
  st_w : Z; st_h : Z; st_disp_w : Z; st_disp_h : Z;
  req_status_h : Z;
  st_session_declared : bool;
  st_requester_is_session : bool }.

Inductive StatusAdmit := Admit | Malformed | NotYours.

Definition admit_status_bar (r : StatusReq) : StatusAdmit :=
  if bar_registered r || negb (st_w r =? st_disp_w r) || negb (st_h r =? req_status_h r)
     || (st_disp_h r <=? req_status_h r) then Malformed else
  if st_session_declared r && negb (st_requester_is_session r) then NotYours else
  Admit.

Record RailReq := mkRailReq {
  rail_registered : bool;
  rl_w : Z; rl_h : Z; rl_disp_w : Z; rl_disp_h : Z;
  req_rail_h : Z;
  rl_instrument : bool;
  rl_session_declared : bool;
  rl_requester_is_session : bool }.

Definition admit_rail (r : RailReq) : StatusAdmit :=
  if negb (rl_instrument r) || (req_rail_h r =? 0) || rail_registered r
     || negb (rl_w r =? rl_disp_w r) || negb (rl_h r =? req_rail_h r)
     || (rl_disp_h r <=? req_rail_h r) then Malformed else
  if rl_session_declared r && negb (rl_requester_is_session r) then NotYours else
  Admit.

Definition chrome_bind_admitted (chrome_owner : Z) (occupant : option Z) (pane_owner : Z) : bool :=
  match occupant with
  | Some o => o =? chrome_owner
  | None => pane_owner =? chrome_owner
  end.

(** ** Scaling and the metrics table *)

Definition SCALE_MIN : Z := 100.
Definition SCALE_MAX : Z := 200.
Definition SCALE_STEP : Z := 25.

Definition ipx (logical pct : Z) : outcome Z :=
  m ← ichk 32 (logical * pct);
  a ← ichk 32 (m + 50);
  Done (Z.quot a 100).

Definition is_valid_pct (pct : Z) : bool :=
  (SCALE_MIN <=? pct) && (pct <=? SCALE_MAX) && (pct mod SCALE_STEP =? 0).

Definition step (pct dir : Z) : outcome Z :=
  let cur := if is_valid_pct pct then pct else SCALE_MIN in
  if 0 <? dir then n ← uadd 16 cur SCALE_STEP; Done (Z.min n SCALE_MAX)
  else if dir <? 0 then Done (Z.max (sat_sub cur SCALE_STEP) SCALE_MIN)
  else Done cur.

Record Metrics := mkMetrics {
  bevel : Z; gap : Z; hairline : Z; header_h : Z; status_h : Z; tag_pad_x : Z;
  tab_strip_h : Z; rail_h : Z; outer_pad : Z; track : Z; rule : Z; rule_off : Z;
  joint : Z; frame : Z; index_w : Z; header_gap : Z; action_w : Z; mark_w : Z;
  mark_inset_y : Z; min_pane_w : Z; min_body_h : Z }.

Definition legacy (bevel gap hairline header_h status_h tag_pad_x tab_strip_h : Z) : Metrics :=
  mkMetrics bevel gap hairline header_h status_h tag_pad_x tab_strip_h
    0 0 0 0 0 0 0 0 0 0 0 0 0 0.

Definition METRICS_BASE : Metrics := legacy 2 2 1 20 20 6 5.

Definition mark (base pct floor : Z) : outcome Z :=
  if base =? 0 then Done 0 else
  v ← ipx base pct;
  Done (if v <? floor then floor else v).

Definition at_scale (m : Metrics) (pct : Z) : outcome Metrics :=
  bevel ← mark (bevel m) pct 2;
  gap ← ipx (gap m) pct;
  hairline ← mark (hairline m) pct 1;
  header_h ← ipx (header_h m) pct;
  status_h ← ipx (status_h m) pct;
  tag_pad_x ← ipx (tag_pad_x m) pct;
  tab_strip_h ← ipx (tab_strip_h m) pct;
  rail_h ← ipx (rail_h m) pct;
  outer_pad ← ipx (outer_pad m) pct;
  track ← ipx (track m) pct;
  rule ← mark (rule m) pct 2;
  rule_off ← ipx (rule_off m) pct;
  joint ← mark (joint m) pct 3;
  frame ← mark (frame m) pct 1;
  index_w ← ipx (index_w m) pct;
  header_gap ← ipx (header_gap m) pct;
  action_w ← ipx (action_w m) pct;
  mark_w ← mark (mark_w m) pct 2;
  mark_inset_y ← ipx (mark_inset_y m) pct;
  min_pane_w ← ipx (min_pane_w m) pct;
  min_body_h ← ipx (min_body_h m) pct;
  Done (mkMetrics bevel gap hairline header_h status_h tag_pad_x tab_strip_h rail_h
    outer_pad track rule rule_off joint frame index_w header_gap action_w mark_w
    mark_inset_y min_pane_w min_body_h).

Inductive Profile := Legacy | Instrument.
#[global] Instance Profile_eq_dec : EqDecision Profile.
Proof. solve_decision. Defined.

(** ** Effects *)

Definition pct256 (tenths : Z) : Z := as_u 8 ((tenths * 256 + 500) / 1000).

Definition DIVIDER_DRAG : Z := 0xFFD59A42.
Definition DIVIDER_DRAG_ALPHA : Z := pct256 250.
Definition DIVIDER_DRAG_BLUR : Z := 10.
Definition MENU_SHADOW : Z := 0xFF000000.
Definition MENU_SHADOW_ALPHA : Z := pct256 320.
Definition MENU_SHADOW_DY : Z := 20.
Definition MENU_SHADOW_BLUR : Z := 55.
Definition DIALOG_SHADOW : Z := 0xFF000000.
Definition DIALOG_SHADOW_ALPHA : Z := pct256 350.
Definition DIALOG_SHADOW_DY : Z := 24.
Definition DIALOG_SHADOW_BLUR : Z := 80.
Definition BACKDROP : Z := 0xFF030404.
Definition BACKDROP_ALPHA : Z := pct256 720.
Definition BACKDROP_BLUR : Z := 3.
Definition GLOW_RADIUS_MAX : Z := 32.

Record TrackGlow := mkTrackGlow {
  tg_x : Z; tg_y : Z; tg_w : Z; tg_h : Z; tg_color : Z; tg_alpha : Z; tg_radius : Z }.

Definition track_glow (rule : Rect) (dragged instrument : bool) (pct : Z) :
    outcome (option TrackGlow) :=
  if negb instrument || negb dragged || (rw rule =? 0) || (rh rule =? 0) then Done None else
  b ← ipx DIVIDER_DRAG_BLUR pct;
  Done (Some (mkTrackGlow (as_i 32 (rx rule)) (as_i 32 (ry rule)) (rw rule) (rh rule)
    DIVIDER_DRAG DIVIDER_DRAG_ALPHA (as_u 32 (Z.max b 0)))).

Inductive MenuClass := Menu | Dialog.

Record CardShadow := mkCardShadow { cs_rect : Rect; cs_color : Z; cs_alpha : Z; cs_radius : Z }.
Record Backdrop := mkBackdrop { bd_color : Z; bd_alpha : Z; bd_radius : Z }.
Record MenuEffects := mkMenuEffects {
  region : Rect; backdrop : option Backdrop; shadow : CardShadow }.

(** The closure [ipx] of [menu_effects]: a scaled length, never negative. *)
Definition ipx_u (v pct : Z) : outcome Z := b ← ipx v pct; Done (as_u 32 (Z.max b 0)).

Definition menu_effects (card : Rect) (class : MenuClass) (instrument : bool)
    (pct disp_w disp_h : Z) : outcome (option MenuEffects) :=
  if negb instrument || is_empty card || (disp_w =? 0) || (disp_h =? 0) then Done None else
  let '(color, alpha, dy, blur) :=
    match class with
    | Menu => (MENU_SHADOW, MENU_SHADOW_ALPHA, MENU_SHADOW_DY, MENU_SHADOW_BLUR)
    | Dialog => (DIALOG_SHADOW, DIALOG_SHADOW_ALPHA, DIALOG_SHADOW_DY, DIALOG_SHADOW_BLUR)
    end in
  dy ← ipx_u dy pct;
  radius ← ipx_u blur pct;
  let shadow := mkCardShadow (mkRect (rx card) (sat_add 32 (ry card) dy) (rw card) (rh card))
                  color alpha radius in
  '(region, backdrop) ←
    match class with
    | Menu => Done (grow_clamped (cs_rect shadow) (Z.min (cs_radius shadow) GLOW_RADIUS_MAX)
                      disp_w disp_h, None)
    | Dialog =>
        b ← ipx_u BACKDROP_BLUR pct;
        Done (mkRect 0 0 disp_w disp_h, Some (mkBackdrop BACKDROP BACKDROP_ALPHA b))
    end;
  if is_empty region then Done None else Done (Some (mkMenuEffects region backdrop shadow)).

(** The operations of a display list. *)
Inductive Op :=
  | Clear (color : Z)
  | FillRect (x y w h color : Z)
  | RectAlpha (x y w h color alpha : Z)
  | Glow (x y w h color alpha radius : Z)
  | Blur (x y w h radius : Z)
  | Glyphs (atlas_gen baseline_x baseline_y color start count : Z)
  | Image (blob_id x y w h : Z)
  | Embed (surface_ref x y w h : Z).

Definition effect_cartoons (e : MenuEffects) : list Op * list Op :=
  let rg := region e in
  let x := as_i 32 (rx rg) in
  let y := as_i 32 (ry rg) in
  let s := shadow e in
  let glow := Glow (as_i 32 (rx (cs_rect s))) (as_i 32 (ry (cs_rect s))) (rw (cs_rect s))
                (rh (cs_rect s)) (cs_color s) (cs_alpha s) (cs_radius s) in
  match backdrop e with
  | Some b => ([Blur x y (rw rg) (rh rg) (bd_radius b)],
               [RectAlpha x y (rw rg) (rh rg) (bd_color b) (bd_alpha b); glow])
  | None => ([], [glow])
  end.

Record OverlayPlan := mkOverlayPlan { touch : Rect; save : Rect }.

Definition overlay_plan (r : Rect) (fx : option MenuEffects) (card : Rect) (disp_w disp_h : Z) :
    outcome (option OverlayPlan) :=
  let display := mkRect 0 0 disp_w disp_h in
  reach ← rect_union (from_option region ZERO fx) card;
  i ← intersect r reach;
  touch ← intersect i display;
  if is_empty touch then Done None else
  let blur := from_option (λ b, Z.min (bd_radius b) GLOW_RADIUS_MAX) 0
                (fx ≫= backdrop) in
  Done (Some (mkOverlayPlan touch (grow_clamped touch blur disp_w disp_h))).

End Geometry.
