(* ===== verification/GeometryProofs.v ===== *)
(** * Correctness of the display geometry

    Rectangles are judged by the points they hold: [intersect], [bars_around]
    and [subtract_rects] compute the intersection and the difference of point
    sets, [grow_clamped] the points of the display near a rectangle, and an
    overlay plan saves every pixel that laying a card over an upload can write.
    No function panics on rectangles inside the coordinate range. *)

From S2P Require Import Prelude Geometry.
Import Geometry.
Open Scope Z_scope.

Module GeometryProofs.

(** ** Points *)

Definition in_rect (r : Rect) (x y : Z) : Prop :=
  rx r ≤ x < rx r + rw r ∧ ry r ≤ y < ry r + rh r.

(** A rectangle of the display: its far corner is a coordinate. *)
Definition rect_ok (r : Rect) : Prop :=
  0 ≤ rx r ∧ 0 ≤ ry r ∧ 0 ≤ rw r ∧ 0 ≤ rh r ∧
  rx r + rw r ≤ u_max 32 ∧ ry r + rh r ≤ u_max 32.

Definition disjoint_rects (a b : Rect) : Prop := ∀ x y, ¬ (in_rect a x y ∧ in_rect b x y).
Definition covers (ps : list Rect) (x y : Z) : Prop := Exists (λ p, in_rect p x y) ps.

Lemma u32_eq : u_max 32 = 4294967295.
Proof. done. Qed.

Ltac geo := unfold rect_ok, in_rect in *; rewrite ?u32_eq in *; cbn in *; lia.

Lemma is_empty_spec r : rect_ok r → is_empty r = true ↔ ∀ x y, ¬ in_rect r x y.
Proof.
  intros Hr. unfold is_empty. rewrite orb_true_iff, !Z.eqb_eq. split; [intros H x y; geo|].
  intros H. specialize (H (rx r) (ry r)). geo.
Qed.
Lemma is_empty_false r : rect_ok r → is_empty r = false ↔ 0 < rw r ∧ 0 < rh r.
Proof. intros Hr. unfold is_empty. rewrite orb_false_iff, !Z.eqb_neq. geo. Qed.

Lemma ZERO_ok : rect_ok ZERO.
Proof. geo. Qed.
Lemma in_ZERO x y : ¬ in_rect ZERO x y.
Proof. geo. Qed.

(** ** Intersection *)

Lemma intersect_spec a b : rect_ok a → rect_ok b →
  ∃ r, intersect a b = Done r ∧ rect_ok r ∧
    (∀ x y, in_rect r x y ↔ in_rect a x y ∧ in_rect b x y) ∧
    (is_empty r = false →
     rx a ≤ rx r ∧ rx r + rw r ≤ rx a + rw a ∧ ry a ≤ ry r ∧ ry r + rh r ≤ ry a + rh a).
Proof.
  intros Ha Hb. unfold intersect. rewrite !uadd_ok by geo. obind.
  destruct (Z.leb_spec (Z.min (rx a + rw a) (rx b + rw b)) (Z.max (rx a) (rx b)));
    [|destruct (Z.leb_spec (Z.min (ry a + rh a) (ry b + rh b)) (Z.max (ry a) (ry b)))];
    cbn [orb]; (eexists; split; [done|split; [geo|]]).
  - split; [intros; geo|done].
  - split; [intros; geo|done].
  - split; intros; geo.
Qed.

(** ** Difference *)

Lemma bars_around_spec p i :
  rect_ok p → rect_ok i → is_empty i = false →
  rx p ≤ rx i → rx i + rw i ≤ rx p + rw p → ry p ≤ ry i → ry i + rh i ≤ ry p + rh p →
  ∃ bs, bars_around p i = Done bs ∧ Forall rect_ok bs ∧
    ForallOrdPairs disjoint_rects bs ∧
    ∀ x y, covers bs x y ↔ in_rect p x y ∧ ¬ in_rect i x y.
Proof.
  intros Hp Hi He H1 H2 H3 H4. unfold bars_around. rewrite He, !uadd_ok by geo.
  obind. unfold sat_sub. eexists. split; [done|].
  apply is_empty_false in He; [|done]. split_and!.
  - repeat constructor; geo.
  - unfold disjoint_rects. repeat constructor; intros x y; geo.
  - intros x y. unfold covers. rewrite !Exists_cons, Exists_nil. geo.
Qed.

Lemma covers_app ps qs x y : covers (ps ++ qs) x y ↔ covers ps x y ∨ covers qs x y.
Proof. apply Exists_app. Qed.
Lemma covers_filter ps x y : Forall rect_ok ps →
  covers (filter (λ b, is_empty b = false) ps) x y ↔ covers ps x y.
Proof.
  induction 1 as [|p ps Hp _ IH]; [done|].
  destruct (is_empty p) eqn:He.
  - rewrite filter_cons_False by congruence. unfold covers in *.
    rewrite Exists_cons, IH. pose proof (proj1 (is_empty_spec p Hp) He x y). tauto.
  - rewrite filter_cons_True by done. unfold covers in *. by rewrite !Exists_cons, IH.
Qed.

Lemma forall_filter {A} (P Q : A → Prop) `{∀ x, Decision (P x)} (l : list A) :
  Forall Q l → Forall Q (filter P l).
Proof. rewrite !Forall_forall. intros Hl a [_ Ha]%list_elem_of_filter. by apply Hl. Qed.
Lemma pairs_filter {A} (P : A → Prop) `{∀ x, Decision (P x)} R (l : list A) :
  ForallOrdPairs R l → ForallOrdPairs R (filter P l).
Proof.
  induction 1 as [|a l Ha _ IH]; [constructor|].
  destruct (decide (P a)).
  - rewrite filter_cons_True by done. constructor; [|done]. by apply forall_filter.
  - by rewrite filter_cons_False.
Qed.
Lemma pairs_app {A} (R : A → A → Prop) (l k : list A) :
  ForallOrdPairs R l → ForallOrdPairs R k → Forall (λ a, Forall (R a) k) l →
  ForallOrdPairs R (l ++ k).
Proof.
  induction 1 as [|a l Ha _ IH]; intros Hk Hf; [done|].
  apply Forall_cons in Hf as [Hf1 Hf2]. cbn. constructor; [|by apply IH].
  apply Forall_app. done.
Qed.

(** What a cut of the pieces leaves: pieces on the display, nonempty, disjoint. *)
Definition pieces (ps : list Rect) : Prop :=
  Forall rect_ok ps ∧ Forall (λ p, is_empty p = false) ps ∧ ForallOrdPairs disjoint_rects ps.

Lemma pieces_nil : pieces [].
Proof. repeat constructor. Qed.
Lemma pieces_one p : rect_ok p → is_empty p = false → pieces [p].
Proof.
  intros. split; [by apply Forall_singleton|]. split; [by apply Forall_singleton|].
  repeat constructor.
Qed.

Lemma cut_spec p h : rect_ok p → is_empty p = false → rect_ok h →
  ∃ c, cut p h = Done c ∧ pieces c ∧
    ∀ x y, covers c x y ↔ in_rect p x y ∧ ¬ in_rect h x y.
Proof.
  intros Hp Hpe Hh. unfold cut.
  destruct (intersect_spec p h Hp Hh) as (i & -> & Hi & Hin & Hsub). obind.
  destruct (is_empty i) eqn:He.
  - eexists. split; [done|]. split; [by apply pieces_one|].
    intros x y. unfold covers. rewrite Exists_cons, Exists_nil.
    pose proof (proj1 (is_empty_spec i Hi) He x y). specialize (Hin x y). tauto.
  - destruct (Hsub eq_refl) as (H1 & H2 & H3 & H4).
    destruct (bars_around_spec p i Hp Hi He H1 H2 H3 H4) as (bs & -> & Hok & Hd & Hc).
    obind. eexists. split; [done|]. split.
    + split; [by apply forall_filter|]. split; [|by apply pairs_filter].
      apply Forall_forall. by intros b [Hb _]%list_elem_of_filter.
    + intros x y. rewrite covers_filter, Hc, Hin by done. tauto.
Qed.

(** Two pieces cut out of disjoint rectangles are disjoint. *)
Lemma sub_disjoint (l k : list Rect) (P Q : Z → Z → Prop) :
  (∀ x y, covers l x y → P x y) → (∀ x y, covers k x y → Q x y) →
  (∀ x y, ¬ (P x y ∧ Q x y)) → Forall (λ a, Forall (disjoint_rects a) k) l.
Proof.
  intros Hl Hk Hd. rewrite Forall_forall. intros a Ha. rewrite Forall_forall.
  intros b Hb x y [H1 H2]. apply (Hd x y). split; [apply Hl|apply Hk];
    apply Exists_exists; eauto.
Qed.

Lemma cut_all ps h : pieces ps → rect_ok h → ∀ acc, pieces acc →
  (∀ x y, ¬ (covers acc x y ∧ covers ps x y)) →
  ∃ out, foldM (λ next p, c ← cut p h; Done (next ++ c)) acc ps = Done out ∧ pieces out ∧
    ∀ x y, covers out x y ↔ covers acc x y ∨ (covers ps x y ∧ ¬ in_rect h x y).
Proof.
  intros (Hok & Hne & Hd) Hh. induction Hd as [|p ps Hp Hd IH]; intros acc Hacc Hdis.
  { exists acc. split; [done|]. split; [done|]. intros x y. unfold covers. rewrite Exists_nil. tauto. }
  apply Forall_cons in Hok as [Hpok Hok]. apply Forall_cons in Hne as [Hpne Hne].
  specialize (IH Hok Hne). cbn [foldM].
  destruct (cut_spec p h Hpok Hpne Hh) as (c & -> & (Hc1 & Hc2 & Hc3) & Hcc).
  obind. destruct Hacc as (Ha1 & Ha2 & Ha3).
  assert (∀ x y, covers (p :: ps) x y ↔ in_rect p x y ∨ covers ps x y) as Hcons
    by (intros; apply Exists_cons).
  destruct (IH (acc ++ c)) as (out & -> & Hout & Hco).
  - split; [by apply Forall_app|]. split; [by apply Forall_app|].
    apply pairs_app; [done..|]. eapply (sub_disjoint acc c (covers acc) (in_rect p)).
    + done.
    + intros x y ?%Hcc. tauto.
    + intros x y [? ?]. apply (Hdis x y). rewrite Hcons. tauto.
  - intros x y [Hx Hy]. apply covers_app in Hx as [Hx|[Hx _]%Hcc].
    + apply (Hdis x y). rewrite Hcons. tauto.
    + apply Exists_exists in Hy as (q & Hq & Hy).
      eapply Forall_forall in Hp; [|done]. by apply (Hp x y).
  - exists out. split; [done|]. split; [done|]. intros x y.
    rewrite Hco, covers_app, Hcc, Hcons. tauto.
Qed.

Lemma subtract_all holes : Forall rect_ok holes → ∀ ps, pieces ps →
  ∃ out, foldM (λ out h, foldM (λ next p, c ← cut p h; Done (next ++ c)) [] out) ps holes
      = Done out ∧ pieces out ∧
    ∀ x y, covers out x y ↔ covers ps x y ∧ ¬ covers holes x y.
Proof.
  induction 1 as [|h holes Hh _ IH]; intros ps Hps.
  { exists ps. split; [done|]. split; [done|]. intros x y. unfold covers at 3.
    rewrite Exists_nil. tauto. }
  cbn [foldM]. destruct (cut_all ps h Hps Hh []) as (out1 & -> & Ho1 & Hc1).
  - apply pieces_nil.
  - intros x y [H _]. by apply Exists_nil in H.
  - obind. destruct (IH out1 Ho1) as (out & -> & Ho & Hc).
    exists out. split; [done|]. split; [done|]. intros x y.
    rewrite Hc, Hc1. unfold covers at 1 5. rewrite Exists_nil, Exists_cons. tauto.
Qed.

(** C40: Subtracting holes from a rectangle never panics; the pieces are nonempty,
    lie in the coordinate range, are pairwise disjoint, and cover exactly the
    points of the rectangle that are in no hole. *)
Theorem subtract_rects_exact r holes :
  rect_ok r → Forall rect_ok holes →
  ∃ out, subtract_rects r holes = Done out ∧
    Forall (λ p, rect_ok p ∧ is_empty p = false) out ∧
    ForallOrdPairs disjoint_rects out ∧
    ∀ x y, covers out x y ↔ in_rect r x y ∧ ¬ covers holes x y.
Proof.
  intros Hr Hh. unfold subtract_rects.
  destruct (subtract_all holes Hh (if is_empty r then [] else [r])) as (out & -> & (H1 & H2 & H3) & Hc).
  - destruct (is_empty r) eqn:He; [apply pieces_nil|by apply pieces_one].
  - exists out. split; [done|]. split; [by apply Forall_and|]. split; [done|].
    intros x y. rewrite Hc. destruct (is_empty r) eqn:He.
    + unfold covers at 1. rewrite Exists_nil. pose proof (proj1 (is_empty_spec r Hr) He x y). tauto.
    + unfold covers at 1. rewrite Exists_cons, Exists_nil. tauto.
Qed.

(** ** Union and growth *)

Definition within (a b : Rect) : Prop :=
  rx b ≤ rx a ∧ rx a + rw a ≤ rx b + rw b ∧ ry b ≤ ry a ∧ ry a + rh a ≤ ry b + rh b.

Lemma rect_union_spec a b : rect_ok a → rect_ok b →
  ∃ u, rect_union a b = Done u ∧ rect_ok u ∧
    (∀ x y, in_rect a x y ∨ in_rect b x y → in_rect u x y) ∧
    (∀ r, (is_empty a = false → within a r) → (is_empty b = false → within b r) →
       is_empty a = false ∨ is_empty b = false → within u r).
Proof.
  intros Ha Hb. unfold rect_union. destruct (is_empty a) eqn:Hea.
  { exists b. split; [done|]. split; [done|]. split.
    - intros x y [H|H]; [|done]. by apply (proj1 (is_empty_spec a Ha) Hea) in H.
    - intros r _ Hw [|Hn]; [done|]. by apply Hw. }
  destruct (is_empty b) eqn:Heb.
  { exists a. split; [done|]. split; [done|]. split.
    - intros x y [H|H]; [done|]. by apply (proj1 (is_empty_spec b Hb) Heb) in H.
    - intros r Hw _ _. by apply Hw. }
  rewrite !uadd_ok by geo. obind. eexists. split; [done|]. split; [geo|].
  split; [intros; geo|]. intros r Hwa Hwb _. specialize (Hwa eq_refl). specialize (Hwb eq_refl).
  unfold within in *. cbn. lia.
Qed.

(** [x, y] is within [b] of some point of [r] on each axis. *)
Definition near (r : Rect) (b x y : Z) : Prop :=
  ∃ x' y', in_rect r x' y' ∧ Z.abs (x - x') ≤ b ∧ Z.abs (y - y') ≤ b.

Lemma near_bounds r b x y : 0 ≤ b → 0 < rw r → 0 < rh r →
  near r b x y ↔
  rx r - b ≤ x < rx r + rw r + b ∧ ry r - b ≤ y < ry r + rh r + b.
Proof.
  intros Hb Hw Hh. split.
  - intros (x' & y' & H & Hx & Hy). unfold in_rect in H. lia.
  - intros H. exists (Z.min (Z.max x (rx r)) (rx r + rw r - 1)),
      (Z.min (Z.max y (ry r)) (ry r + rh r - 1)). unfold in_rect. lia.
Qed.

Lemma grow_clamped_spec r b dw dh :
  rect_ok r → 0 ≤ b → in_u 32 dw → in_u 32 dh →
  rect_ok (grow_clamped r b dw dh) ∧
  ∀ x y, in_rect (grow_clamped r b dw dh) x y ↔
    near r b x y ∧ 0 ≤ x < dw ∧ 0 ≤ y < dh.
Proof.
  intros Hr Hb Hw Hh. unfold grow_clamped. change (2 ^ 32) with 4294967296 in *.
  destruct (is_empty r) eqn:He.
  { split; [apply ZERO_ok|]. intros x y. split; [by intros ?%in_ZERO|].
    intros [(x' & y' & H & _) _]. by apply (proj1 (is_empty_spec r Hr) He) in H. }
  apply is_empty_false in He as [Hrw Hrh]; [|done].
  setoid_rewrite near_bounds; [|done..]. unfold sat_sub, sat_add, in_u in *.
  change (2 ^ 32) with 4294967296 in *. rewrite u32_eq.
  destruct (Z.leb_spec (Z.min (Z.min (Z.min (rx r + rw r) 4294967295 + b) 4294967295) dw)
    (Z.max (rx r - b) 0)); [|destruct (Z.leb_spec
      (Z.min (Z.min (Z.min (ry r + rh r) 4294967295 + b) 4294967295) dh) (Z.max (ry r - b) 0))];
    cbn [orb]; (split; [geo|intros; geo]).
Qed.

(** ** Overlays *)

(** What an upload of [r] owes a standing card: the plan exists exactly when
    the upload meets the card or its effects on the display; [touch] is then
    that meeting, and [save] holds exactly the pixels of the display within the
    backdrop's clamped blur radius of it -- all the application can write. *)
Theorem overlay_plan_exact r fx card dw dh :
  rect_ok r → rect_ok card → from_option (rect_ok ∘ region) True fx →
  (∀ b, fx ≫= backdrop = Some b → 0 ≤ bd_radius b) → in_u 32 dw → in_u 32 dh →
  ∃ reach o, rect_union (from_option region ZERO fx) card = Done reach ∧
    overlay_plan r fx card dw dh = Done o ∧
  let radius := from_option (λ b, Z.min (bd_radius b) GLOW_RADIUS_MAX) 0 (fx ≫= backdrop) in
  match o with
  | None => ∀ x y, in_rect r x y → in_rect reach x y → ¬ (0 ≤ x < dw ∧ 0 ≤ y < dh)
  | Some p =>
      (∀ x y, in_rect (touch p) x y ↔
         in_rect r x y ∧ in_rect reach x y ∧ 0 ≤ x < dw ∧ 0 ≤ y < dh) ∧
      (∀ x y, in_rect (save p) x y ↔
         near (touch p) radius x y ∧ 0 ≤ x < dw ∧ 0 ≤ y < dh) ∧
      is_empty (touch p) = false
  end.
Proof.
  intros Hr Hc Hfx Hrad Hw Hh. unfold overlay_plan.
  assert (rect_ok (from_option region ZERO fx)) as Hreg by (destruct fx; [done|apply ZERO_ok]).
  destruct (rect_union_spec _ card Hreg Hc) as (reach & -> & Hreach & _).
  assert (rect_ok (mkRect 0 0 dw dh)) as Hdisp.
  { unfold in_u in *. change (2 ^ 32) with 4294967296 in *. geo. }
  destruct (intersect_spec r reach Hr Hreach) as (i & Hie & Hi & Hin & _).
  destruct (intersect_spec i _ Hi Hdisp) as (t & Hte & Ht & Htn & _).
  exists reach. obind. rewrite Hie. obind.
  rewrite Hte. obind.
  assert (∀ x y, in_rect (mkRect 0 0 dw dh) x y ↔ 0 ≤ x < dw ∧ 0 ≤ y < dh) as Hd
    by (intros; unfold in_rect; cbn; lia).
  set (radius := from_option _ 0 (fx ≫= backdrop)).
  assert (0 ≤ radius) as Hrd.
  { unfold radius. destruct (fx ≫= backdrop) as [b|]; cbn; [|lia].
    specialize (Hrad b eq_refl). unfold GLOW_RADIUS_MAX. lia. }
  destruct (is_empty t) eqn:He; eexists; (split; [done|]); (split; [done|]).
  - intros x y H1 H2 H3. apply (proj1 (is_empty_spec t Ht) He x y).
    by rewrite Htn, Hin, Hd.
  - cbn [touch save]. split; [|split; [|done]].
    + intros x y. rewrite Htn, Hin, Hd. tauto.
    + intros x y. by apply grow_clamped_spec.
Qed.

(** ** Scaling *)

Definition valid_pct (pct : Z) : Prop := pct = 100 ∨ pct = 125 ∨ pct = 150 ∨ pct = 175 ∨ pct = 200.
Lemma is_valid_pct_spec pct : is_valid_pct pct = true ↔ valid_pct pct.
Proof.
  unfold is_valid_pct, valid_pct, SCALE_MIN, SCALE_MAX, SCALE_STEP.
  rewrite !andb_true_iff, !Z.leb_le, Z.eqb_eq.
  split; [|intuition (subst; done || lia)].
  intros [[H1 H2] H3]. apply Z.mod_divide in H3 as [k ->]; lia.
Qed.

(** Round half up. *)
Definition half_up (v pct p : Z) : Prop := 100 * p - 50 ≤ v * pct < 100 * p + 50.

Lemma ipx_spec v pct : 0 ≤ v < 2 ^ 15 → 0 ≤ pct < 2 ^ 16 - 1 →
  ∃ p, ipx v pct = Done p ∧ half_up v pct p ∧ 0 ≤ p.
Proof.
  intros Hv Hp. unfold ipx.
  assert (0 ≤ v * pct ≤ 32767 * 65534) as Hm by nia.
  rewrite !ichk_ok by (unfold in_i; lia). obind.
  rewrite ichk_ok by (unfold in_i; lia). obind.
  eexists. split; [done|]. rewrite Z.quot_div_nonneg by lia. unfold half_up.
  pose proof (Z.mul_div_le (v * pct + 50) 100). pose proof (Z.mul_succ_div_gt (v * pct + 50) 100).
  lia.
Qed.

Definition metric_fields (m : Metrics) : list Z :=
  [bevel m; gap m; hairline m; header_h m; status_h m; tag_pad_x m; tab_strip_h m; rail_h m;
   outer_pad m; track m; rule m; rule_off m; joint m; frame m; index_w m; header_gap m;
   action_w m; mark_w m; mark_inset_y m; min_pane_w m; min_body_h m].

(** The floor of each field; [None] for a field that only scales. *)
Definition metric_floors : list (option Z) :=
  [Some 2; None; Some 1; None; None; None; None; None; None; None; Some 2; None; Some 3; Some 1;
   None; None; None; Some 2; None; None; None].

(** A field scaled to [v'] from [v]: half up, never below its floor, and an
    absent mark stays absent. *)
Definition scaled (pct : Z) (floor : option Z) (v v' : Z) : Prop :=
  match floor with
  | None => half_up v pct v'
  | Some f => (v = 0 ∧ v' = 0) ∨ (v ≠ 0 ∧ f ≤ v' ∧ (half_up v pct v' ∨ v' = f))
  end.

Lemma mark_spec v pct f : 0 ≤ v < 2 ^ 15 → 0 ≤ pct < 2 ^ 16 - 1 →
  ∃ p, mark v pct f = Done p ∧ scaled pct (Some f) v p.
Proof.
  intros Hv Hp. unfold mark, scaled. destruct (Z.eqb_spec v 0) as [->|Hn]; [by eauto|].
  destruct (ipx_spec v pct Hv Hp) as (p & -> & Hh & _). cbn.
  destruct (Z.ltb_spec p f); eexists; (split; [done|]); right; split_and!; auto; lia.
Qed.

Fixpoint scaled_all (pct : Z) (fl : list (option Z)) (vs vs' : list Z) : Prop :=
  match fl, vs, vs' with
  | f :: fl, v :: vs, v' :: vs' => scaled pct f v v' ∧ scaled_all pct fl vs vs'
  | [], [], [] => True
  | _, _, _ => False
  end.

(** Scaling a metrics table never panics for a table and a percent of display
    size, rounds every field half up, keeps each structural mark at or above its
    floor, and leaves an absent mark absent. *)
Theorem at_scale_spec m pct :
  Forall (λ v, 0 ≤ v < 2 ^ 15) (metric_fields m) → 0 ≤ pct < 2 ^ 16 - 1 →
  ∃ m', at_scale m pct = Done m' ∧
    scaled_all pct metric_floors (metric_fields m) (metric_fields m').
Proof.
  intros Hm Hp. unfold metric_fields in Hm.
  repeat (apply Forall_cons in Hm as [? Hm]). clear Hm. unfold at_scale.
  repeat match goal with
  | |- ∃ m', (_ ← mark ?v ?p ?f; _) = _ ∧ _ =>
      let H := fresh "H" in let q := fresh "q" in
      destruct (mark_spec v p f) as (q & -> & H); [done..|]; obind
  | |- ∃ m', (_ ← ipx ?v ?p; _) = _ ∧ _ =>
      let H := fresh "H" in let q := fresh "q" in
      destruct (ipx_spec v p) as (q & -> & H & _); [done..|]; obind
  end.
  eexists. split; [reflexivity|]. unfold metric_fields, metric_floors.
  cbn [scaled_all bevel gap hairline header_h status_h tag_pad_x tab_strip_h rail_h
   outer_pad track rule rule_off joint frame index_w header_gap action_w mark_w
   mark_inset_y min_pane_w min_body_h].
  repeat (split; [assumption|]). exact I.
Qed.

(** A scale step from any percent lands on one of the five valid percents,
    one step away where the range allows it. *)
Theorem step_valid pct dir :
  in_u 16 pct →
  ∃ p, step pct dir = Done p ∧ is_valid_pct p = true ∧
    (is_valid_pct pct = true →
     p = Z.min SCALE_MAX (Z.max SCALE_MIN (pct + SCALE_STEP * Z.sgn dir))).
Proof.
  intros Hp. unfold step.
  set (cur := if is_valid_pct pct then pct else SCALE_MIN).
  assert (valid_pct cur) as Hcur.
  { unfold cur. destruct (is_valid_pct pct) eqn:Hv; [by apply is_valid_pct_spec|by left]. }
  assert (is_valid_pct pct = true → cur = pct) as Heq by (unfold cur; by intros ->).
  clearbody cur. unfold valid_pct, SCALE_STEP, SCALE_MIN, SCALE_MAX, sat_sub in *.
  destruct (Z.ltb_spec 0 dir); [|destruct (Z.ltb_spec dir 0)].
  - rewrite uadd_ok by (unfold u_max; lia). obind.
    eexists. split; [done|]. rewrite is_valid_pct_spec. unfold valid_pct. split; [lia|].
    intros Hv. rewrite <-Heq by done. rewrite Z.sgn_pos by done. lia.
  - eexists. split; [done|]. rewrite is_valid_pct_spec. unfold valid_pct. split; [lia|].
    intros Hv. rewrite <-Heq by done. rewrite Z.sgn_neg by done. lia.
  - eexists. split; [done|]. rewrite is_valid_pct_spec. unfold valid_pct. split; [lia|].
    intros Hv. rewrite <-Heq by done. replace dir with 0 by lia. cbn. lia.
Qed.

(** A menu's effects never panic at a valid scale, are absent under the legacy
    profile and for an empty card, and their region is exactly the pixels of the
    display the effects can change: those within the clamped radius of the
    displaced card for a menu, the whole display for a dialog.  The only other
    absence is a menu whose shadow reaches no pixel of the display. *)
Theorem menu_effects_region card class instrument pct dw dh :
  rect_ok card → is_valid_pct pct = true → in_u 32 dw → in_u 32 dh →
  ry card + rh card + 48 ≤ u_max 32 →
  ∃ o, menu_effects card class instrument pct dw dh = Done o ∧
  match o with
  | None => instrument = false ∨ is_empty card = true ∨ dw = 0 ∨ dh = 0 ∨
      (class = Menu ∧ ∃ dy bl, ipx_u MENU_SHADOW_DY pct = Done dy ∧
         ipx_u MENU_SHADOW_BLUR pct = Done bl ∧
         ∀ x y, near (mkRect (rx card) (ry card + dy) (rw card) (rh card))
                  (Z.min bl GLOW_RADIUS_MAX) x y → ¬ (0 ≤ x < dw ∧ 0 ≤ y < dh))
  | Some e => instrument = true ∧ is_empty (region e) = false ∧
      ∀ x y, in_rect (region e) x y ↔ 0 ≤ x < dw ∧ 0 ≤ y < dh ∧
        match class with
        | Menu => near (cs_rect (shadow e)) (Z.min (cs_radius (shadow e)) GLOW_RADIUS_MAX) x y
        | Dialog => True
        end
  end.
Proof.
  intros Hc Hp%is_valid_pct_spec Hw Hh Hroom. unfold menu_effects.
  destruct instrument; [|by exists None; auto]. cbn [negb orb].
  destruct (is_empty card) eqn:Hce; [by exists None; auto|].
  destruct (Z.eqb_spec dw 0); [by exists None; auto 6|].
  destruct (Z.eqb_spec dh 0); [by exists None; auto 6|]. cbn [orb].
  assert (∀ v, 0 ≤ v < 100 → ∃ p, ipx_u v pct = Done p ∧ 0 ≤ p ∧ 100 * p - 50 ≤ v * pct) as Hi.
  { intros v Hv. unfold ipx_u.
    destruct (ipx_spec v pct) as (p & -> & Hhu & Hp0); [lia|unfold valid_pct in Hp; lia|].
    unfold half_up in Hhu.
    cbn. exists p. rewrite Z.max_l, as_u_small by (unfold in_u, valid_pct in *; nia). split; [done|lia]. }
  destruct class; obind.
  - destruct (Hi MENU_SHADOW_DY) as (dy & Hdye & Hdy & Hdy'); [unfold MENU_SHADOW_DY; lia|].
    destruct (Hi MENU_SHADOW_BLUR) as (bl & Hble & Hbl & _); [unfold MENU_SHADOW_BLUR; lia|].
    rewrite Hdye, Hble. cbn [mbind outcome_bind cs_rect cs_radius].
    assert (0 ≤ dy ≤ 48) as Hd by (unfold MENU_SHADOW_DY, valid_pct in *; lia).
    replace (sat_add 32 (ry card) dy) with (ry card + dy) by (unfold sat_add; geo).
    set (sh := mkRect _ _ _ _).
    assert (rect_ok sh) as Hsh by (unfold sh; geo).
    destruct (grow_clamped_spec sh (Z.min bl GLOW_RADIUS_MAX) dw dh Hsh) as [Hg Hgi];
      [unfold GLOW_RADIUS_MAX; lia|done..|].
    destruct (is_empty (grow_clamped _ _ _ _)) eqn:He; (eexists; split; [done|]).
    { do 4 right. split; [done|]. exists dy, bl. split; [done|]. split; [done|].
      intros x y Hn Hxy. apply (proj1 (is_empty_spec _ Hg) He x y). by apply Hgi. }
    cbn [region shadow cs_rect cs_radius]. split; [done|]. split; [done|].
    intros x y. rewrite Hgi. tauto.
  - destruct (Hi DIALOG_SHADOW_DY) as (dy & -> & Hdy & Hdy'); [unfold DIALOG_SHADOW_DY; lia|].
    destruct (Hi DIALOG_SHADOW_BLUR) as (bl & -> & Hbl & _); [unfold DIALOG_SHADOW_BLUR; lia|].
    cbn [mbind outcome_bind cs_rect cs_radius].
    destruct (Hi BACKDROP_BLUR) as (bb & -> & _); [unfold BACKDROP_BLUR; lia|].
    obind. unfold is_empty at 1. cbn [rw rh].
    rewrite (proj2 (Z.eqb_neq dw 0)), (proj2 (Z.eqb_neq dh 0)) by done. cbn [orb].
    eexists. split; [done|]. cbn [region shadow]. split; [done|]. split.
    + unfold is_empty. cbn. by rewrite (proj2 (Z.eqb_neq dw 0)), (proj2 (Z.eqb_neq dh 0)).
    + intros x y. unfold in_rect. cbn. lia.
Qed.

(** ** Instances of the theorems *)

Lemma subtract_rects_exact_witness :
  ∃ out, subtract_rects (mkRect 0 0 100 80) [mkRect 10 10 20 20; mkRect 90 0 50 200] = Done out ∧
    Forall (λ p, rect_ok p ∧ is_empty p = false) out ∧ ForallOrdPairs disjoint_rects out ∧
    ∀ x y, covers out x y ↔ in_rect (mkRect 0 0 100 80) x y ∧
      ¬ covers [mkRect 10 10 20 20; mkRect 90 0 50 200] x y.
Proof.
  apply (subtract_rects_exact (mkRect 0 0 100 80) [mkRect 10 10 20 20; mkRect 90 0 50 200]).
  - geo.
  - apply Forall_cons; split; [geo|]. apply Forall_cons; split; [geo|constructor].
Defined.

Lemma overlay_plan_exact_witness :
  ∃ reach o, rect_union ZERO (mkRect 10 10 40 40) = Done reach ∧
    overlay_plan (mkRect 0 0 20 20) None (mkRect 10 10 40 40) 640 480 = Done o ∧
  match o with
  | None => ∀ x y, in_rect (mkRect 0 0 20 20) x y → in_rect reach x y →
      ¬ (0 ≤ x < 640 ∧ 0 ≤ y < 480)
  | Some p =>
      (∀ x y, in_rect (touch p) x y ↔
         in_rect (mkRect 0 0 20 20) x y ∧ in_rect reach x y ∧ 0 ≤ x < 640 ∧ 0 ≤ y < 480) ∧
      (∀ x y, in_rect (save p) x y ↔ near (touch p) 0 x y ∧ 0 ≤ x < 640 ∧ 0 ≤ y < 480) ∧
      is_empty (touch p) = false
  end.
Proof.
  apply (overlay_plan_exact (mkRect 0 0 20 20) None (mkRect 10 10 40 40) 640 480);
    [geo|geo|done|done|unfold in_u; lia|unfold in_u; lia].
Defined.

Lemma at_scale_spec_witness :
  ∃ m', at_scale METRICS_BASE 150 = Done m' ∧
    scaled_all 150 metric_floors (metric_fields METRICS_BASE) (metric_fields m').
Proof. apply (at_scale_spec METRICS_BASE 150); [by repeat constructor|lia]. Defined.

Lemma step_valid_witness :
  ∃ p, step 125 1 = Done p ∧ is_valid_pct p = true ∧
    (is_valid_pct 125 = true → p = Z.min SCALE_MAX (Z.max SCALE_MIN (125 + SCALE_STEP * Z.sgn 1))).
Proof. apply (step_valid 125 1). unfold in_u. lia. Defined.

Lemma menu_effects_region_witness :
  ∃ o, menu_effects (mkRect 10 10 40 40) Dialog true 100 640 480 = Done o ∧
  match o with
  | None => true = false ∨ false = true ∨ 640 = 0 ∨ 480 = 0 ∨
      (Dialog = Menu ∧ ∃ dy bl, ipx_u MENU_SHADOW_DY 100 = Done dy ∧
         ipx_u MENU_SHADOW_BLUR 100 = Done bl ∧
         ∀ x y, near (mkRect 10 (10 + dy) 40 40) (Z.min bl GLOW_RADIUS_MAX) x y →
           ¬ (0 ≤ x < 640 ∧ 0 ≤ y < 480))
  | Some e => true = true ∧ is_empty (region e) = false ∧
      ∀ x y, in_rect (region e) x y ↔ 0 ≤ x < 640 ∧ 0 ≤ y < 480 ∧ True
  end.
Proof.
  apply (menu_effects_region (mkRect 10 10 40 40) Dialog true 100 640 480);
    [geo|done|unfold in_u; lia|unfold in_u; lia|done].
Defined.

End GeometryProofs.
