(* ===== verification/PaneData.v ===== *)
(** * The pane tree's data (src/usr/tapestryd/src/pane.rs)

    The arena of panes, the workspaces over it and the layout that holds both,
    with the accessors every operation is written in: [get] and the updates
    through [get_mut].  A slot is a [nat] index into [panes]; a pane id is a
    [u32], the epoch a [u64], a claim token a [u128], all [Z]. *)

From stdpp Require Import strings.
From S2P Require Import Prelude Geometry.
Import Geometry.
Open Scope nat_scope.

Module PaneData.

Definition MAX_PANES : nat := 32.
Definition MAX_WORKSPACES : nat := 9.
Definition DEFAULT_WEIGHT : Z := 1.

Inductive Dir := Left | Right | Up | Down.
Inductive Mode := SplitH | SplitV | Tabbed | Stacked.
Inductive Role := RContent | RChrome | RPinTarget | RMenu | RStatus | RRail.
Inductive Status := Resting | StOk | StErr.

#[global] Instance Mode_eq_dec : EqDecision Mode.
Proof. solve_decision. Defined.
#[global] Instance Role_eq_dec : EqDecision Role.
Proof. solve_decision. Defined.
#[global] Instance Status_eq_dec : EqDecision Status.
Proof. solve_decision. Defined.
#[global] Instance Dir_eq_dec : EqDecision Dir.
Proof. solve_decision. Defined.

Definition horizontal (d : Dir) : bool := match d with Left | Right => true | _ => false end.
Definition before (d : Dir) : bool := match d with Left | Up => true | _ => false end.

Inductive Kind :=
  | Leaf (surface : option nat)
  | Container (mode : Mode) (children : list nat) (act : nat).

Record Pane := mkPane {
  pid : Z;
  parent : option nat;
  kind : Kind;
  role : Role;
  focusable : bool;
  tag : string;
  rect : Rect;
  content : Rect;
  tagbar : Rect;
  weight : Z;
  dividers : list Rect;
  separator : Rect;
  status : Status;
  visible : bool;
  claim_token : option Z;
  owner_principal : Z;
  creator_conn : Z;
  creator_peer : Z;
  backgrounded : bool;
  fresh : bool }.

Record Workspace := mkWorkspace {
  ws_root : nat;
  ws_focused : Z;
  number : Z }.

Record Layout := mkLayout {
  panes : list (option Pane);
  workspaces : list Workspace;
  active : nat;
  focused : nat;
  id_seq : Z;
  epoch : Z;
  zoomed_id : option Z;
  metrics : Metrics;
  profile : Profile;
  area : Rect }.

(** ** Field assignments *)

Definition set_pid (v : Z) (p : Pane) : Pane := mkPane v (parent p) (kind p) (role p) (focusable
  p) (tag p) (rect p) (content p) (tagbar p) (weight p) (dividers p) (separator p) (status p)
  (visible p) (claim_token p) (owner_principal p) (creator_conn p) (creator_peer p) (backgrounded
  p) (fresh p).
Definition set_parent (v : option nat) (p : Pane) : Pane := mkPane (pid p) v (kind p) (role p)
  (focusable p) (tag p) (rect p) (content p) (tagbar p) (weight p) (dividers p) (separator p)
  (status p) (visible p) (claim_token p) (owner_principal p) (creator_conn p) (creator_peer p)
  (backgrounded p) (fresh p).
Definition set_kind (v : Kind) (p : Pane) : Pane := mkPane (pid p) (parent p) v (role p)
  (focusable p) (tag p) (rect p) (content p) (tagbar p) (weight p) (dividers p) (separator p)
  (status p) (visible p) (claim_token p) (owner_principal p) (creator_conn p) (creator_peer p)
  (backgrounded p) (fresh p).
Definition set_role (v : Role) (p : Pane) : Pane := mkPane (pid p) (parent p) (kind p) v
  (focusable p) (tag p) (rect p) (content p) (tagbar p) (weight p) (dividers p) (separator p)
  (status p) (visible p) (claim_token p) (owner_principal p) (creator_conn p) (creator_peer p)
  (backgrounded p) (fresh p).
Definition set_focusable (v : bool) (p : Pane) : Pane := mkPane (pid p) (parent p) (kind p) (role
  p) v (tag p) (rect p) (content p) (tagbar p) (weight p) (dividers p) (separator p) (status p)
  (visible p) (claim_token p) (owner_principal p) (creator_conn p) (creator_peer p) (backgrounded
  p) (fresh p).
Definition set_tag (v : string) (p : Pane) : Pane := mkPane (pid p) (parent p) (kind p) (role p)
  (focusable p) v (rect p) (content p) (tagbar p) (weight p) (dividers p) (separator p) (status p)
  (visible p) (claim_token p) (owner_principal p) (creator_conn p) (creator_peer p) (backgrounded
  p) (fresh p).
Definition set_rect (v : Rect) (p : Pane) : Pane := mkPane (pid p) (parent p) (kind p) (role p)
  (focusable p) (tag p) v (content p) (tagbar p) (weight p) (dividers p) (separator p) (status p)
  (visible p) (claim_token p) (owner_principal p) (creator_conn p) (creator_peer p) (backgrounded
  p) (fresh p).
Definition set_content (v : Rect) (p : Pane) : Pane := mkPane (pid p) (parent p) (kind p) (role p)
  (focusable p) (tag p) (rect p) v (tagbar p) (weight p) (dividers p) (separator p) (status p)
  (visible p) (claim_token p) (owner_principal p) (creator_conn p) (creator_peer p) (backgrounded
  p) (fresh p).
Definition set_tagbar (v : Rect) (p : Pane) : Pane := mkPane (pid p) (parent p) (kind p) (role p)
  (focusable p) (tag p) (rect p) (content p) v (weight p) (dividers p) (separator p) (status p)
  (visible p) (claim_token p) (owner_principal p) (creator_conn p) (creator_peer p) (backgrounded
  p) (fresh p).
Definition set_weight (v : Z) (p : Pane) : Pane := mkPane (pid p) (parent p) (kind p) (role p)
  (focusable p) (tag p) (rect p) (content p) (tagbar p) v (dividers p) (separator p) (status p)
  (visible p) (claim_token p) (owner_principal p) (creator_conn p) (creator_peer p) (backgrounded
  p) (fresh p).
Definition set_dividers (v : list Rect) (p : Pane) : Pane := mkPane (pid p) (parent p) (kind p)
  (role p) (focusable p) (tag p) (rect p) (content p) (tagbar p) (weight p) v (separator p)
  (status p) (visible p) (claim_token p) (owner_principal p) (creator_conn p) (creator_peer p)
  (backgrounded p) (fresh p).
Definition set_separator (v : Rect) (p : Pane) : Pane := mkPane (pid p) (parent p) (kind p) (role
  p) (focusable p) (tag p) (rect p) (content p) (tagbar p) (weight p) (dividers p) v (status p)
  (visible p) (claim_token p) (owner_principal p) (creator_conn p) (creator_peer p) (backgrounded
  p) (fresh p).
Definition set_status (v : Status) (p : Pane) : Pane := mkPane (pid p) (parent p) (kind p) (role
  p) (focusable p) (tag p) (rect p) (content p) (tagbar p) (weight p) (dividers p) (separator p) v
  (visible p) (claim_token p) (owner_principal p) (creator_conn p) (creator_peer p) (backgrounded
  p) (fresh p).
Definition set_visible (v : bool) (p : Pane) : Pane := mkPane (pid p) (parent p) (kind p) (role p)
  (focusable p) (tag p) (rect p) (content p) (tagbar p) (weight p) (dividers p) (separator p)
  (status p) v (claim_token p) (owner_principal p) (creator_conn p) (creator_peer p) (backgrounded
  p) (fresh p).
Definition set_claim_token (v : option Z) (p : Pane) : Pane := mkPane (pid p) (parent p) (kind p)
  (role p) (focusable p) (tag p) (rect p) (content p) (tagbar p) (weight p) (dividers p)
  (separator p) (status p) (visible p) v (owner_principal p) (creator_conn p) (creator_peer p)
  (backgrounded p) (fresh p).
Definition set_owner_principal (v : Z) (p : Pane) : Pane := mkPane (pid p) (parent p) (kind p)
  (role p) (focusable p) (tag p) (rect p) (content p) (tagbar p) (weight p) (dividers p)
  (separator p) (status p) (visible p) (claim_token p) v (creator_conn p) (creator_peer p)
  (backgrounded p) (fresh p).
Definition set_creator_conn (v : Z) (p : Pane) : Pane := mkPane (pid p) (parent p) (kind p) (role
  p) (focusable p) (tag p) (rect p) (content p) (tagbar p) (weight p) (dividers p) (separator p)
  (status p) (visible p) (claim_token p) (owner_principal p) v (creator_peer p) (backgrounded p)
  (fresh p).
Definition set_creator_peer (v : Z) (p : Pane) : Pane := mkPane (pid p) (parent p) (kind p) (role
  p) (focusable p) (tag p) (rect p) (content p) (tagbar p) (weight p) (dividers p) (separator p)
  (status p) (visible p) (claim_token p) (owner_principal p) (creator_conn p) v (backgrounded p)
  (fresh p).
Definition set_backgrounded (v : bool) (p : Pane) : Pane := mkPane (pid p) (parent p) (kind p)
  (role p) (focusable p) (tag p) (rect p) (content p) (tagbar p) (weight p) (dividers p)
  (separator p) (status p) (visible p) (claim_token p) (owner_principal p) (creator_conn p)
  (creator_peer p) v (fresh p).
Definition set_fresh (v : bool) (p : Pane) : Pane := mkPane (pid p) (parent p) (kind p) (role p)
  (focusable p) (tag p) (rect p) (content p) (tagbar p) (weight p) (dividers p) (separator p)
  (status p) (visible p) (claim_token p) (owner_principal p) (creator_conn p) (creator_peer p)
  (backgrounded p) v.

Definition set_panes (v : list (option Pane)) (l : Layout) : Layout := mkLayout v (workspaces l)
  (active l) (focused l) (id_seq l) (epoch l) (zoomed_id l) (metrics l) (profile l) (area l).
Definition set_workspaces (v : list Workspace) (l : Layout) : Layout := mkLayout (panes l) v
  (active l) (focused l) (id_seq l) (epoch l) (zoomed_id l) (metrics l) (profile l) (area l).
Definition set_active (v : nat) (l : Layout) : Layout := mkLayout (panes l) (workspaces l) v
  (focused l) (id_seq l) (epoch l) (zoomed_id l) (metrics l) (profile l) (area l).
Definition set_focused (v : nat) (l : Layout) : Layout := mkLayout (panes l) (workspaces l)
  (active l) v (id_seq l) (epoch l) (zoomed_id l) (metrics l) (profile l) (area l).
Definition set_id_seq (v : Z) (l : Layout) : Layout := mkLayout (panes l) (workspaces l) (active
  l) (focused l) v (epoch l) (zoomed_id l) (metrics l) (profile l) (area l).
Definition set_epoch (v : Z) (l : Layout) : Layout := mkLayout (panes l) (workspaces l) (active l)
  (focused l) (id_seq l) v (zoomed_id l) (metrics l) (profile l) (area l).
Definition set_zoomed_id (v : option Z) (l : Layout) : Layout := mkLayout (panes l) (workspaces l)
  (active l) (focused l) (id_seq l) (epoch l) v (metrics l) (profile l) (area l).
Definition set_metrics (v : Metrics) (l : Layout) : Layout := mkLayout (panes l) (workspaces l)
  (active l) (focused l) (id_seq l) (epoch l) (zoomed_id l) v (profile l) (area l).
Definition set_profile (v : Profile) (l : Layout) : Layout := mkLayout (panes l) (workspaces l)
  (active l) (focused l) (id_seq l) (epoch l) (zoomed_id l) (metrics l) v (area l).
Definition set_area (v : Rect) (l : Layout) : Layout := mkLayout (panes l) (workspaces l) (active
  l) (focused l) (id_seq l) (epoch l) (zoomed_id l) (metrics l) (profile l) v.

(** ** Accessors *)

Definition get (l : Layout) (slot : nat) : option Pane := mjoin (panes l !! slot).

(** [if let Some(p) = self.get_mut(slot) { p := f p }] *)
Definition upd (l : Layout) (slot : nat) (f : Pane → Pane) : Layout :=
  match get l slot with
  | Some p => set_panes (<[slot := Some (f p)]> (panes l)) l
  | None => l
  end.
(** [let p = self.get_mut(slot).unwrap(); p := f p] *)
Definition upd_unwrap (l : Layout) (slot : nat) (f : Pane → Pane) : outcome Layout :=
  _ ← unwrap (get l slot); Done (upd l slot f).
(** [self.panes[slot] = None] *)
Definition clear_slot (l : Layout) (slot : nat) : outcome Layout :=
  if slot <? length (panes l) then Done (set_panes (<[slot := None]> (panes l)) l) else Panic.

(** [if let Some(Kind::Container { mode, children, active }) =
    self.get_mut(slot).map(|p| &mut p.kind) { .. }] *)
Definition with_kids (l : Layout) (slot : nat)
    (f : Mode → list nat → nat → outcome (list nat * nat)) : outcome Layout :=
  match kind <$> get l slot with
  | Some (Container m cs a) =>
      '(cs', a') ← f m cs a; Done (upd l slot (set_kind (Container m cs' a')))
  | _ => Done l
  end.

(** [self.workspaces[i] := f ..] *)
Definition upd_ws (l : Layout) (i : nat) (f : Workspace → Workspace) : outcome Layout :=
  w ← unwrap (workspaces l !! i); Done (set_workspaces (<[i := f w]> (workspaces l)) l).
Definition ws_set_root (r : nat) (w : Workspace) : Workspace :=
  mkWorkspace r (ws_focused w) (number w).
Definition ws_set_focused (f : Z) (w : Workspace) : Workspace :=
  mkWorkspace (ws_root w) f (number w).

(** [self.epoch += 1] *)
Definition bump (l : Layout) : outcome Layout :=
  e ← uadd 64 (epoch l) 1; Done (set_epoch e l).

Definition id_of (l : Layout) (slot : nat) : option Z := pid <$> get l slot.

Definition slot_of_id (l : Layout) (id : Z) : option nat :=
  position (λ o, from_option (λ p, Z.eqb (pid p) id) false o) (panes l).

(** All live (slot, id) pairs, slot-ordered. *)
Definition live_ids (l : Layout) : list (nat * Z) :=
  omap (λ x, (λ p, (x.1, pid p)) <$> x.2) (imap pair (panes l)).

Definition is_leaf (l : Layout) (slot : nat) : bool :=
  match kind <$> get l slot with Some (Leaf _) => true | _ => false end.
Definition leaf_surface (l : Layout) (slot : nat) : option nat :=
  match kind <$> get l slot with Some (Leaf s) => s | _ => None end.
Definition is_empty_kind (k : Kind) : bool := match k with Leaf None => true | _ => false end.
Definition is_empty_leaf (l : Layout) (slot : nat) : bool :=
  from_option is_empty_kind false (kind <$> get l slot).
Definition kids_of (l : Layout) (slot : nat) : list nat :=
  match kind <$> get l slot with Some (Container _ cs _) => cs | _ => [] end.

(** The fuel of every walk over the tree: one more than the arena's length. *)
Definition tree_fuel (l : Layout) : nat := S (length (panes l)).

End PaneData.
