(* ===== verification/PaneTree.v ===== *)
(** * The pane tree's operations (src/usr/tapestryd/src/pane.rs)

    Every operation of [Layout] that reads or changes the tree: allocation, the
    walks, splitting, hosting, closing, focus, moves, workspaces and the
    ownership stamps.  A method taking [&mut self] returns the new layout beside
    its result.  A recursion or a loop over the tree is a Fixpoint on fuel,
    started with [tree_fuel]: a walk down a tree visits distinct slots and a walk
    up ends at a root, so the arena's length bounds both. *)

From stdpp Require Import strings.
From S2P Require Import Prelude Geometry Carve PaneData.
Import Geometry PaneData.
Open Scope nat_scope.

Module PaneTree.

(** ** Slots and roots *)

Definition root (l : Layout) : outcome nat :=
  w ← unwrap (workspaces l !! active l); Done (ws_root w).

Definition workspace_of_root (l : Layout) (slot : nat) : option nat :=
  position (λ w, ws_root w =? slot) (workspaces l).
Definition is_workspace_root (l : Layout) (slot : nat) : bool :=
  bool_decide (is_Some (workspace_of_root l slot)).

Definition reseat_root (l : Layout) (old new : nat) : outcome Layout :=
  match workspace_of_root l old with
  | Some i => upd_ws l i (ws_set_root new)
  | None => Done l
  end.

Definition workspace_count (l : Layout) : nat := length (workspaces l).
Definition active_workspace (l : Layout) : nat := active l.
Definition active_number (l : Layout) : outcome Z :=
  w ← unwrap (workspaces l !! active l); Done (number w).
Definition workspace_numbers (l : Layout) : list Z := number <$> workspaces l.

Definition live_count (l : Layout) : nat := length (filter is_Some (panes l)).

Definition fresh_pane (id : Z) (par : option nat) (k : Kind) : Pane :=
  mkPane id par k RContent true EmptyString ZERO ZERO ZERO DEFAULT_WEIGHT [] ZERO Resting
    false None 0 0 0 false false.

Definition alloc (l : Layout) (par : option nat) (k : Kind) : option (Layout * nat) :=
  if MAX_PANES <=? live_count l then None else
  id ← checked_add 32 (id_seq l) 1;
  let l := set_id_seq id l in
  let p := fresh_pane id par k in
  Some
    match position (λ o : option Pane, bool_decide (o = None)) (panes l) with
    | Some i => (set_panes (<[i := Some p]> (panes l)) l, i)
    | None => (set_panes (panes l ++ [Some p]) l, length (panes l))
    end.

Definition pane_owner_principal (l : Layout) (slot : nat) : Z :=
  from_option owner_principal 0%Z (get l slot).
Definition set_owner (l : Layout) (slot : nat) (principal : Z) : Layout :=
  upd l slot (set_owner_principal principal).
Definition pane_creator (l : Layout) (slot : nat) : Z :=
  from_option creator_conn 0%Z (get l slot).
Definition set_creator (l : Layout) (slot : nat) (conn peer : Z) : Layout :=
  upd l slot (λ p, set_creator_peer peer (set_creator_conn conn p)).

(** ** Walks *)

Fixpoint subtree_reserved_f (fuel : nat) (l : Layout) (slot : nat) : outcome bool :=
  match fuel with
  | O => OutOfFuel
  | S fuel =>
      match get l slot with
      | None => Done false
      | Some p =>
          if bool_decide (is_Some (claim_token p)) || negb (creator_conn p =? 0)%Z
          then Done true
          else anyM (subtree_reserved_f fuel l) (kids_of l slot)
      end
  end.
Definition subtree_reserved (l : Layout) := subtree_reserved_f (tree_fuel l) l.

Fixpoint top_of_f (fuel : nat) (l : Layout) (cur : nat) : outcome nat :=
  match fuel with
  | O => OutOfFuel
  | S fuel =>
      match get l cur ≫= parent with
      | Some p => top_of_f fuel l p
      | None => Done cur
      end
  end.
Definition top_of (l : Layout) := top_of_f (tree_fuel l) l.

Fixpoint in_active_root_f (fuel : nat) (l : Layout) (cur : nat) : outcome bool :=
  match fuel with
  | O => OutOfFuel
  | S fuel =>
      r ← root l;
      if cur =? r then Done true else
      match get l cur ≫= parent with
      | Some p => in_active_root_f fuel l p
      | None => Done false
      end
  end.
Definition in_active_root (l : Layout) := in_active_root_f (tree_fuel l) l.

(** The order [first_leaf] tries: the active child, then the others. *)
Definition leaf_order (cs : list nat) (a : nat) : list nat :=
  fold_left (λ order c, if decide (c ∈ order) then order else order ++ [c]) cs
    (match cs !! a with Some c => [c] | None => [] end).
Fixpoint first_leaf_f (fuel : nat) (l : Layout) (slot : nat) : outcome (option nat) :=
  match fuel with
  | O => OutOfFuel
  | S fuel =>
      match kind <$> get l slot with
      | Some (Leaf _) => Done (Some slot)
      | Some (Container _ cs a) => find_mapM (first_leaf_f fuel l) (leaf_order cs a)
      | None => Done None
      end
  end.
Definition first_leaf (l : Layout) := first_leaf_f (tree_fuel l) l.

Fixpoint first_unbackgrounded_leaf_f (fuel : nat) (l : Layout) (slot : nat) :
    outcome (option nat) :=
  match fuel with
  | O => OutOfFuel
  | S fuel =>
      match get l slot with
      | None => Done None
      | Some p =>
          match kind p with
          | Leaf _ => Done (if backgrounded p then None else Some slot)
          | Container _ cs _ => find_mapM (first_unbackgrounded_leaf_f fuel l) cs
          end
      end
  end.
Definition first_unbackgrounded_leaf (l : Layout) := first_unbackgrounded_leaf_f (tree_fuel l) l.

Fixpoint collect_surfaces_f (fuel : nat) (l : Layout) (out : list nat) (slot : nat) :
    outcome (list nat) :=
  match fuel with
  | O => OutOfFuel
  | S fuel =>
      match kind <$> get l slot with
      | Some (Leaf (Some n)) => Done (out ++ [n])
      | Some (Container _ cs _) => foldM (collect_surfaces_f fuel l) out cs
      | _ => Done out
      end
  end.
Definition subtree_surfaces (l : Layout) (slot : nat) : outcome (list nat) :=
  collect_surfaces_f (tree_fuel l) l [] slot.

Fixpoint collect_hosted_f (fuel : nat) (l : Layout) (out : list (nat * nat)) (slot : nat) :
    outcome (list (nat * nat)) :=
  match fuel with
  | O => OutOfFuel
  | S fuel =>
      match kind <$> get l slot with
      | Some (Leaf (Some n)) => Done (out ++ [(slot, n)])
      | Some (Container _ cs _) => foldM (collect_hosted_f fuel l) out cs
      | _ => Done out
      end
  end.
Definition subtree_hosted (l : Layout) (slot : nat) : outcome (list (nat * nat)) :=
  collect_hosted_f (tree_fuel l) l [] slot.

Fixpoint leaves_outside_f (fuel : nat) (l : Layout) (skip : nat) (out : list nat) (at_ : nat) :
    outcome (list nat) :=
  match fuel with
  | O => OutOfFuel
  | S fuel =>
      if at_ =? skip then Done out else
      match kind <$> get l at_ with
      | Some (Leaf _) => Done (out ++ [at_])
      | Some (Container _ cs _) => foldM (leaves_outside_f fuel l skip) out cs
      | None => Done out
      end
  end.
Definition leaves_beside (l : Layout) (slot : nat) : outcome (list nat) :=
  match get l slot with
  | Some _ => t ← top_of l slot; leaves_outside_f (tree_fuel l) l slot [] t
  | None => Done []
  end.

Definition is_bg_leaf (l : Layout) (slot : nat) : bool :=
  from_option (λ p, backgrounded p && match kind p with Leaf _ => true | _ => false end)
    false (get l slot).

Fixpoint is_bg_subtree_f (fuel : nat) (l : Layout) (slot : nat) : outcome bool :=
  match fuel with
  | O => OutOfFuel
  | S fuel =>
      match get l slot with
      | Some p =>
          match kind p with
          | Leaf _ => Done (backgrounded p)
          | Container _ cs _ =>
              if bool_decide (cs = []) then Done false else allM (is_bg_subtree_f fuel l) cs
          end
      | None => Done false
      end
  end.
Definition is_bg_subtree (l : Layout) := is_bg_subtree_f (tree_fuel l) l.

Definition workspace_number_of (l : Layout) (slot : nat) : outcome (option Z) :=
  match get l slot with
  | None => Done None
  | Some _ =>
      t ← top_of l slot;
      Done (number <$> List.find (λ w, ws_root w =? t) (workspaces l))
  end.

Definition find_hosting (l : Layout) (n : nat) : option nat :=
  position (λ o, match kind <$> o with Some (Leaf (Some s)) => s =? n | _ => false end) (panes l).

Definition hosted_leaves (l : Layout) : list (nat * nat) :=
  omap (λ x, match kind <$> x.2 with Some (Leaf (Some n)) => Some (x.1, n) | _ => None end)
    (imap pair (panes l)).

Definition visible_hosted (l : Layout) : list (nat * nat * Rect) :=
  omap (λ x, p ← x.2;
     match kind p with
     | Leaf (Some n) => if visible p then Some (x.1, n, content p) else None
     | _ => None
     end) (imap pair (panes l)).

Definition surface_at (l : Layout) (x y : Z) : option (nat * Rect) :=
  list_find (λ o : option Pane,
    match o with
    | Some p => match kind p with Leaf (Some _) => visible p && contains (content p) x y | _ => false end
    | None => false
    end = true) (panes l) ≫= λ x,
  p ← x.2; match kind p with Leaf (Some n) => Some (n, content p) | _ => None end.

(** ** Keeping a place *)

Definition rest_unusable (l : Layout) (slot : nat) (system : nat → bool) : outcome bool :=
  ls ← leaves_beside l slot;
  Done (forallb (λ f, from_option system false (leaf_surface l f)) ls).

Definition keeps_place (l : Layout) (slot : nat) (seat system : nat → bool) : outcome bool :=
  inside ← subtree_surfaces l slot;
  let goes_on := existsb (λ x, negb (bool_decide (x.2 ∈ inside)) && seat x.2) (hosted_leaves l) in
  if goes_on : bool then rest_unusable l slot system else Done false.

(** ** Freeing *)

Fixpoint free_subtree_f (fuel : nat) (l : Layout) (slot : nat) : outcome Layout :=
  match fuel with
  | O => OutOfFuel
  | S fuel => l ← foldM (free_subtree_f fuel) l (kids_of l slot); clear_slot l slot
  end.
Definition free_subtree (l : Layout) (slot : nat) : outcome Layout :=
  free_subtree_f (tree_fuel l) l slot.

(** ** The division's lists and minima *)

Definition divide_list (l : Layout) (children : list nat) : outcome (list nat) :=
  fg ← filterM (λ c, b ← is_bg_subtree l c; Done (negb b)) children;
  Done (match fg with [] => children | _ => fg end).

Definition divide_of (l : Layout) (slot : nat) : outcome (list nat) :=
  match kind <$> get l slot with
  | Some (Container (SplitH | SplitV) cs _) => divide_list l cs
  | _ => Done []
  end.

Definition weight_of (l : Layout) (c : nat) : Z := from_option weight DEFAULT_WEIGHT (get l c).

(** A [u64] sum of at most [MAX_PANES] [u16] weights cannot overflow. *)
Definition sibling_mean (l : Layout) (container : nat) : outcome Z :=
  match kids_of l container with
  | [] => Done DEFAULT_WEIGHT
  | cs =>
      kids ← divide_list l cs;
      let sum := foldr Z.add 0%Z (weight_of l <$> kids) in
      let n := zlen kids in
      if (n =? 0)%Z then Panic else
      Done (Z.min (Z.max ((sum + n / 2) / n) 1) (u_max 16))
  end.

Definition px_of (v : Z) : Z := as_u 32 (Z.max v 0).

(** The axis of a pair of minima: (along, across). *)
Definition on_axis (horiz : bool) (s : Z * Z) : Z * Z := if horiz then s else (s.2, s.1).

(** What a hypothetical split makes of a lone leaf. *)
Definition nested_min (m : Metrics) (leaf_min : Z * Z) (mode : Mode) : outcome (Z * Z) :=
  let t := px_of (track m) in
  match mode with
  | SplitH => d ← umul 32 2 leaf_min.1; w ← uadd 32 d t; Done (w, leaf_min.2)
  | SplitV => d ← umul 32 2 leaf_min.2; h ← uadd 32 d t; Done (leaf_min.1, h)
  | Tabbed => Done leaf_min
  | Stacked =>
      h ← Carve.stack_min_h 2 (px_of (header_h m)) (px_of (hairline m)) (px_of (min_body_h m))
            (px_of (frame m));
      Done (px_of (min_pane_w m), h)
  end.

Definition is_hyp (hyp : option (nat * Mode)) (c : nat) : bool :=
  match hyp with Some (f, _) => f =? c | None => false end.
Definition hyp_mode (hyp : option (nat * Mode)) (c : nat) (m : Mode) : bool :=
  match hyp with Some (f, hm) => (f =? c) && bool_decide (hm = m) | None => false end.

(** The metrics the minima read, as [u32]. *)
Definition mf (l : Layout) : Z := px_of (frame (metrics l)).
Definition mt (l : Layout) : Z := px_of (track (metrics l)).
Definition mhdr (l : Layout) : Z := px_of (header_h (metrics l)).
Definition msep (l : Layout) : Z := px_of (hairline (metrics l)).
Definition mpane_w (l : Layout) : Z := px_of (min_pane_w (metrics l)).
Definition mbody_h (l : Layout) : Z := px_of (min_body_h (metrics l)).

(** The tiles of a stack or tab that grow it: the containers and the leaf about
    to become one; [n] counts the tiles of a [Stacked] container. *)
Definition tile_step (l : Layout) (rec : nat → outcome (Z * Z)) (hyp : option (nat * Mode)) (mode : Mode)
    (st : nat * Z * Z) (c : nat) : outcome (nat * Z * Z) :=
  let '(n, w, body) := st in
  if hyp_mode hyp c mode then Done (if bool_decide (mode = Stacked) then S n else n, w, body) else
  if is_leaf l c && negb (is_hyp hyp c) then Done st else
  '(cw, ch) ← rec c;
  f2 ← umul 32 2 (mf l);
  Done (n, Z.max w (sat_add 32 cw f2), Z.max body ch).

(** The parts of a split along its axis. *)
Definition split_part (rec_none rec_hyp : nat → outcome (Z * Z)) (leaf_min : Z * Z)
    (hyp : option (nat * Mode)) (mode : Mode) (parts : list (Z * Z)) (c : nat) :
    outcome (list (Z * Z)) :=
  if hyp_mode hyp c mode then p ← rec_none c; Done (parts ++ [p; leaf_min])
  else p ← rec_hyp c; Done (parts ++ [p]).

Fixpoint min_size_hyp_f (l : Layout) (fuel : nat) (slot : nat) (hyp : option (nat * Mode)) :
    outcome (Z * Z) :=
  match fuel with
  | O => OutOfFuel
  | S fuel =>
      lh ← Carve.stack_min_h 1 (mhdr l) (msep l) (mbody_h l) (mf l);
      let leaf_min := (mpane_w l, lh) in
      match kind <$> get l slot with
      | None => Done (0, 0)%Z
      | Some (Leaf _) =>
          match hyp with
          | Some (s, mode) => if s =? slot then nested_min (metrics l) leaf_min mode else Done leaf_min
          | None => Done leaf_min
          end
      | Some (Container mode cs _) =>
          if is_hyp hyp slot then
            own ← min_size_hyp_f l fuel slot None;
            match hyp with
            | Some (_, SplitV) =>
                Done (Z.max own.1 leaf_min.1, sat_add 32 (sat_add 32 own.2 (mt l)) leaf_min.2)
            | _ => Done (sat_add 32 (sat_add 32 own.1 (mt l)) leaf_min.1, Z.max own.2 leaf_min.2)
            end
          else
            eff ← divide_list l cs;
            match mode with
            | SplitH | SplitV =>
                let horiz := bool_decide (mode = SplitH) in
                parts ← foldM (split_part (λ c, min_size_hyp_f l fuel c None)
                           (λ c, min_size_hyp_f l fuel c hyp) leaf_min hyp mode) [] eff;
                let n := as_u 32 (zlen parts) in
                let s := fold_left (λ ax p, let q := on_axis horiz p in
                           (sat_add 32 ax.1 q.1, Z.max ax.2 q.2)) parts (0, 0)%Z in
                let along := sat_add 32 s.1 (sat_mul 32 (sat_sub n 1) (mt l)) in
                Done (if horiz then (along, s.2) else (s.2, along))
            | Stacked =>
                '(n, w, body) ← foldM (tile_step l (λ c, min_size_hyp_f l fuel c hyp) hyp Stacked)
                     (length eff, mpane_w l, mbody_h l) eff;
                h ← Carve.stack_min_h n (mhdr l) (msep l) body (mf l);
                Done (w, h)
            | Tabbed =>
                '(_, w, body) ← foldM (tile_step l (λ c, min_size_hyp_f l fuel c hyp) hyp Tabbed)
                     (length eff, mpane_w l, mbody_h l) eff;
                h ← Carve.stack_min_h 1 (mhdr l) (msep l) body (mf l);
                Done (w, h)
            end
      end
  end.
(** A hypothetical container recurs once on its own slot: one more level. *)
Definition min_size_hyp (l : Layout) := min_size_hyp_f l (S (tree_fuel l)).

Definition min_size (l : Layout) : outcome (Z * Z) :=
  if decide (profile l = Instrument) then r ← root l; min_size_hyp l r None
  else Done (0, 0)%Z.

(** ** Split targets *)

Fixpoint split_target_f (fuel : nat) (l : Layout) (t : nat) (mode : Mode) : outcome (option nat) :=
  match fuel with
  | O => OutOfFuel
  | S fuel =>
      match get l t ≫= parent with
      | None => Done (Some t)
      | Some pi =>
          match kind <$> get l pi with
          | Some (Container ((Stacked | Tabbed) as pm) _ _) =>
              if decide (pm = mode) then Done (if is_leaf l t then Some t else None) else
              match mode with
              | SplitH | SplitV => split_target_f fuel l pi mode
              | _ => Done None
              end
          | _ => Done (Some t)
          end
      end
  end.
Definition split_target (l : Layout) (slot : nat) (mode : Mode) : outcome (option nat) :=
  if decide (profile l = Instrument) then split_target_f (tree_fuel l) l slot mode
  else Done (Some slot).

Definition stack_parent_mode (l : Layout) (slot : nat) : option Mode :=
  pi ← (get l slot ≫= parent);
  match kind <$> get l pi with
  | Some (Container ((Stacked | Tabbed) as m) _ _) => Some m
  | _ => None
  end.

Definition new_tile_mode (l : Layout) (slot : nat) : Mode :=
  default Stacked (stack_parent_mode l slot).

Definition mode_target (l : Layout) (slot : nat) : option nat :=
  match kind <$> get l slot with
  | Some (Container _ _ _) => Some slot
  | Some (Leaf _) => get l slot ≫= parent
  | None => None
  end.

Definition stacking_refused (l : Layout) (slot : nat) (mode : Mode) : bool :=
  if decide (profile l = Instrument) then
    match mode with
    | SplitH | SplitV => false
    | _ =>
        match mode_target l slot with
        | None => false
        | Some t => existsb (λ c, negb (is_leaf l c)) (kids_of l t)
        end
    end
  else false.

Definition split_fits (l : Layout) (slot : nat) (mode : Mode) : outcome bool :=
  if negb (bool_decide (profile l = Instrument)) || negb (is_leaf l slot) then Done true else
  o ← split_target l slot mode;
  match o with
  | None => Done true
  | Some slot =>
      r ← inset (area l) (px_of (outer_pad (metrics l)));
      t ← top_of l slot;
      '(w, h) ← min_size_hyp l t (Some (slot, mode));
      Done ((w <=? rw r) && (h <=? rh r))%Z
  end.

(** ** Splitting *)

(** The sibling insert: [new_leaf] after [slot] in [pi], made the active child. *)
Definition split_flatten (l : Layout) (pi slot : nat) : outcome (Layout * option nat) :=
  share ← sibling_mean l pi;
  match alloc l (Some pi) (Leaf None) with
  | None => Done (l, None)
  | Some (l, new_leaf) =>
      l ← with_kids l pi (λ _ cs _,
            let at_ := default 0 (position (Nat.eqb slot) cs) in
            cs ← vec_insert cs (at_ + 1) new_leaf;
            Done (cs, at_ + 1));
      l ← upd_unwrap l new_leaf (set_weight share);
      ina ← in_active_root l new_leaf;
      let l := if (ina : bool) then set_focused new_leaf l else l in
      l ← bump l;
      Done (l, Some new_leaf)
  end.

(** The nesting: the node's place taken by a container of the node and a new leaf. *)
Definition split_nest (l : Layout) (slot : nat) (p : Pane) (mode : Mode) :
    outcome (Layout * option nat) :=
  let par := parent p in
  let leaf_weight := weight p in
  match alloc l par (Container mode [] 1) with
  | None => Done (l, None)
  | Some (l, container) =>
      match alloc l (Some container) (Leaf None) with
      | None => l ← clear_slot l container; Done (l, None)
      | Some (l, new_leaf) =>
          l ← match par with
              | Some pi =>
                  with_kids l pi (λ _ cs a,
                    Done (match position (Nat.eqb slot) cs with
                          | Some at_ => <[at_ := container]> cs
                          | None => cs
                          end, a))
              | None => reseat_root l slot container
              end;
          l ← upd_unwrap l slot (set_parent (Some container));
          l ← upd_unwrap l slot (set_weight DEFAULT_WEIGHT);
          l ← upd_unwrap l container (set_weight leaf_weight);
          l ← with_kids l container (λ _ cs a, Done (cs ++ [slot; new_leaf], a));
          ina ← in_active_root l new_leaf;
          let l := if (ina : bool) then set_focused new_leaf l else l in
          l ← bump l;
          Done (l, Some new_leaf)
      end
  end.

Definition split (l : Layout) (slot : nat) (mode : Mode) : outcome (Layout * option nat) :=
  if negb (is_leaf l slot) then Done (l, None) else
  o ← split_target l slot mode;
  match o with
  | None => Done (l, None)
  | Some slot =>
      match get l slot with
      | None => Done (l, None)
      | Some p =>
          match parent p with
          | Some pi =>
              match get l pi with
              | None => Done (l, None)
              | Some q =>
                  match kind q with
                  | Container m _ _ =>
                      if decide (m = mode) then split_flatten l pi slot
                      else split_nest l slot p mode
                  | Leaf _ => split_nest l slot p mode
                  end
              end
          | None => split_nest l slot p mode
          end
      end
  end.

Definition set_pane_weight (l : Layout) (slot : nat) (w : Z) : outcome (Layout * bool) :=
  if (w =? 0)%Z then Done (l, false) else
  match get l slot with
  | Some p =>
      match parent p with
      | None => Done (l, false)
      | Some _ =>
          if negb (weight p =? w)%Z then
            l ← bump (upd l slot (set_weight w)); Done (l, true)
          else Done (l, true)
      end
  | None => Done (l, false)
  end.

(** ** Hosting *)

(** A leaf a new program takes: its status, claim, freshness and reservation reset. *)
Definition hosted (n : nat) (p : Pane) : Pane :=
  set_creator_peer 0 (set_creator_conn 0 (set_fresh false (set_claim_token None
    (set_status Resting (set_kind (Leaf (Some n)) p))))).

Definition host_mode (l : Layout) (f : nat) (p : Pane) : outcome (option Mode) :=
  let mode := if (rh (content p) <=? rw (content p))%Z then SplitH else SplitV in
  if decide (profile l = Instrument) then
    match stack_parent_mode l f with
    | Some pm => b ← split_fits l f pm; Done (if (b : bool) then Some pm else None)
    | None =>
        b ← split_fits l f mode;
        if (b : bool) then Done (Some mode) else
        b ← split_fits l f Stacked;
        Done (if (b : bool) then Some Stacked else None)
    end
  else Done (Some mode).

Definition host_for (l : Layout) (n : nat) (conn peer : Z) : outcome (Layout * option nat) :=
  let f := focused l in
  let reserved_elsewhere :=
    negb (conn =? 0)%Z &&
    from_option (λ p, negb (creator_conn p =? 0)%Z && negb (creator_conn p =? conn)%Z
                      && negb (creator_peer p =? peer)%Z) false (get l f) in
  if negb reserved_elsewhere && is_empty_leaf l f then
    l ← bump (upd l f (hosted n)); Done (l, Some f)
  else
    match get l f with
    | None => Done (l, None)
    | Some p =>
        om ← host_mode l f p;
        match om with
        | None => Done (l, None)
        | Some mode =>
            '(l, o) ← split l f mode;
            match o with
            | None => Done (l, None)
            | Some leaf =>
                let l := if is_leaf l leaf then upd l leaf (set_kind (Leaf (Some n))) else l in
                l ← bump l;
                Done (l, Some leaf)
            end
        end
    end.

Definition host (l : Layout) (n : nat) : outcome (Layout * option nat) := host_for l n 0 0.

Definition host_into (l : Layout) (n slot : nat) : outcome (Layout * option nat) :=
  if is_empty_leaf l slot then l ← bump (upd l slot (hosted n)); Done (l, Some slot)
  else Done (l, None).

Definition mint_claim (l : Layout) (slot : nat) (token : Z) : Layout * bool :=
  if is_empty_leaf l slot then (upd l slot (set_claim_token (Some token)), true) else (l, false).

Definition find_claim (l : Layout) (token : Z) : option nat :=
  position (λ o, match o with
                 | Some p => is_empty_kind (kind p) && bool_decide (claim_token p = Some token)
                 | None => false
                 end) (panes l).

Definition consume_claim (l : Layout) (token : Z) : Layout * option nat :=
  match find_claim l token with
  | Some slot => (upd l slot (set_claim_token None), Some slot)
  | None => (l, None)
  end.

(** ** Closing *)

Definition dissolve_if_single (l : Layout) (slot : nat) : outcome Layout :=
  match get l slot with
  | Some p =>
      match kind p with
      | Container _ [only] _ =>
          l ← upd_unwrap l only (set_weight (weight p));
          l ← match parent p with
              | Some g =>
                  l ← with_kids l g (λ _ cs a,
                        Done (match position (Nat.eqb slot) cs with
                              | Some at_ => <[at_ := only]> cs
                              | None => cs
                              end, a));
                  upd_unwrap l only (set_parent (Some g))
              | None =>
                  l ← reseat_root l slot only;
                  upd_unwrap l only (set_parent None)
              end;
          l ← clear_slot l slot;
          if focused l =? slot then
            o ← first_leaf l only;
            r ← root l;
            Done (set_focused (default r o) l)
          else Done l
      | _ => Done l
      end
  | None => Done l
  end.

(** A collapsed root is a pristine empty leaf. *)
Definition collapse (p : Pane) : Pane :=
  set_separator ZERO (set_dividers [] (set_weight DEFAULT_WEIGHT (set_tag EmptyString
    (set_focusable true (set_role RContent (set_fresh false (set_creator_peer 0
      (set_creator_conn 0 (set_claim_token None (set_status Resting
        (set_kind (Leaf None) p))))))))))).

Definition close_root (l : Layout) (slot wi : nat) : outcome Layout :=
  let kids := kids_of l slot in
  let l := upd l slot collapse in
  l ← foldM free_subtree l kids;
  if wi =? active l then Done (set_focused slot l) else
  match id_of l slot with
  | Some id => upd_ws l wi (ws_set_focused id)
  | None => Done l
  end.

(** The children of a container without [slot], the active index following it. *)
Definition remove_child (slot : nat) (cs : list nat) (a : nat) : list nat * nat :=
  match position (Nat.eqb slot) cs with
  | Some at_ =>
      let cs' := delete at_ cs in
      (cs', if at_ <? a then a - 1
            else if (length cs' <=? a) && negb (bool_decide (cs' = [])) then length cs' - 1
            else a)
  | None => (cs, a)
  end.

Definition close_child (l : Layout) (slot par : nat) : outcome Layout :=
  l ← free_subtree l slot;
  l ← with_kids l par (λ _ cs a, Done (remove_child slot cs a));
  l ← match get l (focused l) with
      | None => o ← first_leaf l par; r ← root l; Done (set_focused (default r o) l)
      | Some _ => Done l
      end;
  dissolve_if_single l par.

Definition close_inner (l : Layout) (slot : nat) : outcome (Layout * list nat) :=
  unhosted ← subtree_surfaces l slot;
  match workspace_of_root l slot with
  | Some wi => l ← close_root l slot wi; Done (l, unhosted)
  | None =>
      match get l slot ≫= parent with
      | Some par => l ← close_child l slot par; Done (l, unhosted)
      | None => Done (l, unhosted)
      end
  end.

Definition close (l : Layout) (slot : nat) : outcome (Layout * list nat) :=
  '(l, unhosted) ← close_inner l slot;
  l ← bump l;
  Done (l, unhosted).

(** ** Focus *)

(** The walk up from the focused leaf: the path made the active child of each
    ancestor. *)
Fixpoint reveal_f (fuel : nat) (l : Layout) (cur : nat) : outcome Layout :=
  match fuel with
  | O => OutOfFuel
  | S fuel =>
      match get l cur ≫= parent with
      | None => Done l
      | Some pi =>
          l ← match kind <$> get l pi with
              | Some (Container m cs a) =>
                  match position (Nat.eqb cur) cs with
                  | Some at_ =>
                      if negb (a =? at_) then bump (upd l pi (set_kind (Container m cs at_)))
                      else Done l
                  | None => Done l
                  end
              | _ => Done l
              end;
          reveal_f fuel l pi
      end
  end.

Definition focus (l : Layout) (slot : nat) : outcome (Layout * bool) :=
  ina ← in_active_root l slot;
  if negb ina then Done (l, false) else
  o ← first_leaf l slot;
  match o with
  | Some f =>
      l ← (if negb (focused l =? f) then bump (set_focused f l) else Done l);
      l ← reveal_f (tree_fuel l) l f;
      Done (l, true)
  | None => Done (l, false)
  end.

Definition set_mode (l : Layout) (slot : nat) (mode : Mode) : outcome (Layout * bool) :=
  if stacking_refused l slot mode then Done (l, false) else
  match mode_target l slot with
  | Some t =>
      match kind <$> get l t with
      | Some (Container m cs a) =>
          if decide (m ≠ mode) then
            l ← bump (upd l t (set_kind (Container mode cs a))); Done (l, true)
          else Done (l, true)
      | _ => Done (l, false)
      end
  | None => Done (l, false)
  end.

Definition zoom_id (l : Layout) : option Z := zoomed_id l.

Definition zoom_toggle (l : Layout) (slot : nat) : outcome (Layout * bool) :=
  if negb (is_leaf l slot) then Done (l, false) else
  ina ← in_active_root l slot;
  if negb ina then Done (l, false) else
  match id_of l slot with
  | None => Done (l, false)
  | Some id =>
      l ← (if decide (zoomed_id l = Some id) then Done (set_zoomed_id None l)
           else '(l, _) ← focus (set_zoomed_id (Some id) l) slot; Done l);
      l ← bump l;
      Done (l, true)
  end.

Definition unzoom (l : Layout) : outcome Layout :=
  match zoomed_id l with
  | Some _ => bump (set_zoomed_id None l)
  | None => Done l
  end.

(** The overlap of two intervals [a1, a1 + l1) and [a2, a2 + l2). *)
Definition overlap (a1 l1 a2 l2 : Z) : outcome Z :=
  e1 ← uadd 32 a1 l1;
  e2 ← uadd 32 a2 l2;
  Done (sat_sub (Z.min e1 e2) (Z.max a1 a2)).

(** One candidate: is [r] strictly in [dir] of [fr], how far, and its overlap. *)
Definition candidate (dir : Dir) (fr r : Rect) : outcome (bool * Z * Z) :=
  match dir with
  | Left => e ← uadd 32 (rx r) (rw r); ov ← overlap (ry r) (rh r) (ry fr) (rh fr);
      Done ((e <=? rx fr)%Z, (rx fr - Z.min e (rx fr))%Z, ov)
  | Right => e ← uadd 32 (rx fr) (rw fr); ov ← overlap (ry r) (rh r) (ry fr) (rh fr);
      Done ((e <=? rx r)%Z, sat_sub (rx r) e, ov)
  | Up => e ← uadd 32 (ry r) (rh r); ov ← overlap (rx r) (rw r) (rx fr) (rw fr);
      Done ((e <=? ry fr)%Z, (ry fr - Z.min e (ry fr))%Z, ov)
  | Down => e ← uadd 32 (ry fr) (rh fr); ov ← overlap (rx r) (rw r) (rx fr) (rw fr);
      Done ((e <=? ry r)%Z, sat_sub (ry r) e, ov)
  end.

Definition neighbor_step (l : Layout) (dir : Dir) (fr : Rect)
    (best : option (nat * Z * Z)) (x : nat * Z) : outcome (option (nat * Z * Z)) :=
  let slot := x.1 in
  if (slot =? focused l) || negb (is_leaf l slot) then Done best else
  p ← unwrap (get l slot);
  if negb (visible p) || negb (focusable p) then Done best else
  '(ok, dist, ov) ← candidate dir fr (rect p);
  if negb ok || (ov =? 0)%Z then Done best else
  let better := match best with
                | None => true
                | Some (_, bd, bo) => (dist <? bd)%Z || ((dist =? bd) && (bo <? ov))%Z
                end in
  Done (if better then Some (slot, dist, ov) else best).

Definition neighbor_dir (l : Layout) (dir : Dir) : outcome (option nat) :=
  match get l (focused l) with
  | None => Done None
  | Some p =>
      best ← foldM (neighbor_step l dir (rect p)) None (live_ids l);
      Done (option_map (λ x : nat * Z * Z, x.1.1) best)
  end.

Definition focus_dir (l : Layout) (dir : Dir) : outcome (Layout * bool) :=
  o ← neighbor_dir l dir;
  match o with
  | Some s => focus l s
  | None => Done (l, false)
  end.

Definition is_tab (l : Layout) (p : nat) : bool :=
  match kind <$> get l p with
  | Some (Container (Tabbed | Stacked) _ _) => true
  | _ => false
  end.

Fixpoint tab_ancestor_f (fuel : nat) (l : Layout) (cur : nat) : outcome (option nat) :=
  match fuel with
  | O => OutOfFuel
  | S fuel =>
      match get l cur ≫= parent with
      | None => Done None
      | Some p => if is_tab l p then Done (Some p) else tab_ancestor_f fuel l p
      end
  end.
Definition tab_ancestor (l : Layout) := tab_ancestor_f (tree_fuel l) l.

(** The cycle over the children, skipping the backgrounded ones. *)
Fixpoint cycle_next (k : nat) (forward : bool) (bg : list bool) (n next : nat) : nat :=
  match k with
  | O => next
  | S k =>
      let next := if forward then (next + 1) mod n else (next + n - 1) mod n in
      if negb (default false (bg !! next)) then next else cycle_next k forward bg n next
  end.

Definition tab_cycle_at (l : Layout) (p : nat) (forward : bool) : outcome (Layout * bool) :=
  match kind <$> get l p with
  | Some (Container m cs a) =>
      bg ← mapM_o (is_bg_subtree l) cs;
      match cs with
      | [] => Done (l, false)
      | _ =>
          let n := length cs in
          let next := cycle_next n forward bg n a in
          target ← unwrap (cs !! next);
          l ← bump (upd l p (set_kind (Container m cs next)));
          focus l target
      end
  | _ => Done (l, false)
  end.

Fixpoint tab_cycle_f (fuel : nat) (l : Layout) (cur : nat) (forward : bool) :
    outcome (Layout * bool) :=
  match fuel with
  | O => OutOfFuel
  | S fuel =>
      match get l cur ≫= parent with
      | None => Done (l, false)
      | Some p => if is_tab l p then tab_cycle_at l p forward else tab_cycle_f fuel l p forward
      end
  end.
Definition tab_cycle (l : Layout) (forward : bool) : outcome (Layout * bool) :=
  tab_cycle_f (tree_fuel l) l (focused l) forward.

Fixpoint focus_child_of_f (fuel : nat) (l : Layout) (container cur : nat) : outcome (option nat) :=
  match fuel with
  | O => OutOfFuel
  | S fuel =>
      match get l cur ≫= parent with
      | None => Done None
      | Some p => if p =? container then Done (Some cur) else focus_child_of_f fuel l container p
      end
  end.
Definition focus_child_of (l : Layout) (container : nat) : outcome (option nat) :=
  focus_child_of_f (tree_fuel l) l container (focused l).

Definition focused_surface (l : Layout) : option nat := leaf_surface l (focused l).

(** ** Moving *)

Definition detach_child (slot : nat) (cs : list nat) (a : nat) : list nat * nat :=
  match position (Nat.eqb slot) cs with
  | Some at_ =>
      let cs' := delete at_ cs in
      (cs', if (length cs' <=? a) && negb (bool_decide (cs' = [])) then length cs' - 1 else a)
  | None => (cs, a)
  end.

Definition detach_leaf (l : Layout) (slot : nat) : outcome Layout :=
  match get l slot ≫= parent with
  | None => Done l
  | Some par =>
      l ← with_kids l par (λ _ cs a, Done (detach_child slot cs a));
      l ← upd_unwrap l slot (set_parent None);
      dissolve_if_single l par
  end.

Definition axis_match (horiz : bool) (m : Mode) : bool :=
  match m with
  | SplitH | Tabbed => horiz
  | SplitV | Stacked => negb horiz
  end.

(** The cross-axis move: the root wrapped in a fresh container beside the leaf. *)
Definition move_wrap (l : Layout) (slot : nat) (horiz before : bool) : outcome (Layout * bool) :=
  match alloc l None (Container (if horiz then SplitH else SplitV) [] 0) with
  | None => Done (l, false)
  | Some (l, c) =>
      l ← detach_leaf l slot;
      oldroot ← root l;
      l ← with_kids l c (λ _ cs a,
            Done (cs ++ (if before then [slot; oldroot] else [oldroot; slot]), a));
      l ← upd_unwrap l oldroot (set_parent (Some c));
      l ← upd_unwrap l slot (set_parent (Some c));
      l ← upd_unwrap l oldroot (set_weight DEFAULT_WEIGHT);
      l ← upd_unwrap l slot (set_weight DEFAULT_WEIGHT);
      l ← reseat_root l oldroot c;
      l ← bump l;
      '(l, _) ← focus l slot;
      Done (l, true)
  end.

(** The swap with the nearest sibling the user can see. *)
Definition move_swap (l : Layout) (slot anc : nat) (i j : nat) : outcome (Layout * bool) :=
  l ← with_kids l anc (λ _ cs a, cs ← vec_swap cs i j; Done (cs, a));
  l ← bump l;
  '(l, _) ← focus l slot;
  Done (l, true).

(** The pull out of a nested container, beside it. *)
Definition move_out (l : Layout) (slot anc at_ : nat) : outcome (Layout * bool) :=
  l ← detach_leaf l slot;
  share ← sibling_mean l anc;
  l ← with_kids l anc (λ _ cs a, cs ← vec_insert cs (Nat.min at_ (length cs)) slot; Done (cs, a));
  l ← upd_unwrap l slot (set_parent (Some anc));
  l ← upd_unwrap l slot (set_weight share);
  l ← bump l;
  '(l, _) ← focus l slot;
  Done (l, true).

Definition seen_sibling (l : Layout) (kids : list nat) (i : nat) (before : bool) :
    outcome (option nat) :=
  find_mapM (λ k, c ← unwrap (kids !! k); b ← is_bg_subtree l c;
                  Done (if (b : bool) then None else Some k))
    (if before then rev (seq 0 i) else seq (i + 1) (length kids - (i + 1))).

Fixpoint move_dir_f (fuel : nat) (l : Layout) (slot : nat) (horiz before : bool)
    (sub : nat) (saw_axis_edge : bool) : outcome (Layout * bool) :=
  match fuel with
  | O => OutOfFuel
  | S fuel =>
      match get l sub ≫= parent with
      | None =>
          if (sub =? slot) || saw_axis_edge then Done (l, false)
          else move_wrap l slot horiz before
      | Some anc =>
          match kind <$> get l anc with
          | Some (Container mode kids _) =>
              if negb (axis_match horiz mode)
              then move_dir_f fuel l slot horiz before anc saw_axis_edge
              else
                match position (Nat.eqb sub) kids with
                | None => Done (l, false)
                | Some i =>
                    if sub =? slot then
                      j ← seen_sibling l kids i before;
                      match j with
                      | Some j => move_swap l slot anc i j
                      | None => move_dir_f fuel l slot horiz before anc true
                      end
                    else move_out l slot anc (if before then i else i + 1)
                end
          | _ => Done (l, false)
          end
      end
  end.

Definition move_dir (l : Layout) (slot : nat) (dir : Dir) : outcome (Layout * bool) :=
  if negb (is_leaf l slot) then Done (l, false) else
  ina ← in_active_root l slot;
  if negb ina then Done (l, false) else
  move_dir_f (tree_fuel l) l slot (horizontal dir) (before dir) slot false.

(** ** Workspaces *)

Definition new : outcome Layout :=
  let l := mkLayout [] [] 0 0 0 1 None METRICS_BASE Legacy ZERO in
  '(l, r) ← unwrap (alloc l None (Leaf None));
  root_id ← unwrap (id_of l r);
  let l := set_workspaces (workspaces l ++ [mkWorkspace r root_id 1]) l in
  Done (set_focused r l).

Definition in_ws_range (n : Z) : bool := negb (n =? 0)%Z && (Z.to_nat n <=? MAX_WORKSPACES).

Definition ensure_workspace (l : Layout) (n owner : Z) : outcome (Layout * option nat) :=
  if negb (in_ws_range n) then Done (l, None) else
  match position (λ w, Z.eqb (number w) n) (workspaces l) with
  | Some i => Done (l, Some i)
  | None =>
      if MAX_WORKSPACES <=? length (workspaces l) then Done (l, None) else
      match alloc l None (Leaf None) with
      | None => Done (l, None)
      | Some (l, r) =>
          match id_of l r with
          | None => l ← clear_slot l r; Done (l, None)
          | Some root_id =>
              let l := set_owner l r owner in
              let l := upd l r (set_fresh true) in
              let at_ := default (length (workspaces l))
                           (position (λ w, Z.ltb n (number w)) (workspaces l)) in
              ws ← vec_insert (workspaces l) at_ (mkWorkspace r root_id n);
              let l := set_workspaces ws l in
              let l := if at_ <=? active l then set_active (active l + 1) l else l in
              Done (l, Some at_)
          end
      end
  end.

Definition inactive_roots (l : Layout) : list nat :=
  omap (λ x, if x.1 =? active l then None else Some (ws_root x.2)) (imap pair (workspaces l)).

Definition active_is (l : Layout) (n : Z) : bool :=
  bool_decide (number <$> workspaces l !! active l = Some n).

Definition switch_workspace (l : Layout) (n owner : Z) : outcome (Layout * bool) :=
  if active_is l n then Done (l, false) else
  '(l, o) ← ensure_workspace l n owner;
  match o with
  | None => Done (l, false)
  | Some k =>
      l ← upd_ws l (active l) (ws_set_focused (default 0%Z (id_of l (focused l))));
      let l := set_active k l in
      w ← unwrap (workspaces l !! k);
      r ← root l;
      keep ← match slot_of_id l (ws_focused w) with
             | Some s => if is_leaf l s then b ← in_active_root l s; Done (if (b : bool) then Some s else None)
                         else Done None
             | None => Done None
             end;
      f ← match keep with
          | Some s => Done s
          | None => o ← first_leaf l r; Done (default r o)
          end;
      l ← bump (set_zoomed_id None (set_focused f l));
      Done (l, true)
  end.

Fixpoint reap_f (i : nat) (l : Layout) (dropped : nat) : outcome (Layout * nat) :=
  match i with
  | O => Done (l, dropped)
  | S i =>
      if i =? active l then reap_f i l dropped else
      w ← unwrap (workspaces l !! i);
      hs ← subtree_hosted l (ws_root w);
      res ← (match hs with [] => subtree_reserved l (ws_root w) | _ => Done true end);
      if (res : bool) then reap_f i l dropped else
      l ← free_subtree l (ws_root w);
      let l := set_workspaces (delete i (workspaces l)) l in
      let l := if i <? active l then set_active (active l - 1) l else l in
      reap_f i l (dropped + 1)
  end.

Definition reap_empty_workspaces (l : Layout) : outcome (Layout * nat) :=
  '(l, dropped) ← reap_f (length (workspaces l)) l 0;
  l ← (if 0 <? dropped then bump l else Done l);
  Done (l, dropped).

(** [self.panes[f] = None] for a leaf hoisted before a refusal. *)
Definition roll_back (l : Layout) (o : option nat) : outcome Layout :=
  match o with Some f => clear_slot l f | None => Done l end.

(** The place the leaf leaves: detached, or taken by the fresh leaf. *)
Definition leave_place (l : Layout) (leaf : nat) (pre_fresh par : option nat) : outcome Layout :=
  match pre_fresh, par with
  | None, _ => detach_leaf l leaf
  | Some fresh, None => upd_ws l (active l) (ws_set_root fresh)
  | Some fresh, Some pi =>
      let w := weight_of l leaf in
      l ← with_kids l pi (λ _ cs a,
            Done (match position (Nat.eqb leaf) cs with
                  | Some at_ => <[at_ := fresh]> cs
                  | None => cs
                  end, a));
      let l := upd l fresh (λ p, set_weight w (set_parent (Some pi) p)) in
      Done (upd l leaf (set_parent None))
  end.

(** The arrival: the leaf as the target's root, or beside it in a container. *)
Definition arrive (l : Layout) (leaf k : nat) (pre_container : option nat) : outcome Layout :=
  w ← unwrap (workspaces l !! k);
  let tr := ws_root w in
  match pre_container with
  | None =>
      l ← upd_ws l k (ws_set_root leaf);
      l ← upd_unwrap l leaf (set_parent None);
      free_subtree l tr
  | Some c =>
      l ← with_kids l c (λ _ cs a, Done (cs ++ [tr; leaf], a));
      l ← upd_unwrap l tr (λ p, set_weight DEFAULT_WEIGHT (set_parent (Some c) p));
      l ← upd_unwrap l leaf (λ p, set_weight DEFAULT_WEIGHT (set_parent (Some c) p));
      upd_ws l k (ws_set_root c)
  end.

(** Every pane the move needs: the fresh leaf left behind, the target workspace
    and the container of an occupied target; on any failure nothing is left. *)
Definition move_prepare (l : Layout) (leaf : nat) (par : option nat) (n owner : Z)
    (keep_place : bool) : outcome (Layout * option (option nat * nat * option nat)) :=
  match (if bool_decide (is_Some par) && negb keep_place then Some (l, None)
         else '(l, f) ← alloc l None (Leaf None);
              Some (upd (set_owner l f owner) f (set_fresh true), Some f)) with
  | None => Done (l, None)
  | Some (l, pre_fresh) =>
      '(l, ok) ← ensure_workspace l n owner;
      match ok with
      | None => l ← roll_back l pre_fresh; Done (l, None)
      | Some k =>
          w ← unwrap (workspaces l !! k);
          let tr_now := ws_root w in
          placeholder ← (if is_leaf l tr_now && negb (bool_decide (is_Some (leaf_surface l tr_now)))
                         then r ← subtree_reserved l tr_now; Done (negb r) else Done false);
          if (placeholder : bool) then Done (l, Some (pre_fresh, k, None)) else
          match alloc l None (Container SplitH [] 0) with
          | Some (l, c) => Done (l, Some (pre_fresh, k, Some c))
          | None => l ← roll_back l pre_fresh; Done (l, None)
          end
      end
  end.

Definition move_focused_to_workspace (l : Layout) (n owner : Z) (keep_place : bool) :
    outcome (Layout * bool) :=
  if active_is l n then Done (l, false) else
  let leaf := focused l in
  if negb (is_leaf l leaf) || negb (bool_decide (is_Some (leaf_surface l leaf))) || is_bg_leaf l leaf
  then Done (l, false) else
  if negb (in_ws_range n) then Done (l, false) else
  let par := get l leaf ≫= parent in
  '(l, pre) ← move_prepare l leaf par n owner keep_place;
  match pre with
  | None => Done (l, false)
  | Some (pre_fresh, k, pre_container) =>
      l ← leave_place l leaf pre_fresh par;
      l ← arrive l leaf k pre_container;
      l ← upd_ws l k (ws_set_focused (default 0%Z (id_of l leaf)));
      r ← root l;
      f ← match pre_fresh with
          | Some f => Done f
          | None =>
              o ← first_unbackgrounded_leaf l r;
              match o with
              | Some f => Done f
              | None => o ← first_leaf l r; Done (default r o)
              end
          end;
      l ← bump (set_zoomed_id None (set_focused f l));
      Done (l, true)
  end.

(** The pane emptied in place: a fresh leaf under a new id. *)
Definition keep_fresh (id owner : Z) (p : Pane) : Pane :=
  set_separator ZERO (set_dividers [] (set_fresh true (set_creator_peer 0 (set_creator_conn 0
    (set_owner_principal owner (set_claim_token None (set_status Resting (set_tag EmptyString
      (set_backgrounded false (set_focusable true (set_role RContent
        (set_kind (Leaf None) (set_pid id p))))))))))))).

Definition keep_as_fresh (l : Layout) (slot : nat) (owner : Z) :
    outcome (Layout * option (list nat)) :=
  match id_of l slot, checked_add 32 (id_seq l) 1 with
  | Some old, Some id =>
      let l := set_id_seq id l in
      unhosted ← subtree_surfaces l slot;
      let kids := kids_of l slot in
      let l := upd l slot (keep_fresh id owner) in
      l ← foldM free_subtree l kids;
      let l := if decide (zoomed_id l = Some old) then set_zoomed_id None l else l in
      top ← top_of l slot;
      l ← match workspace_of_root l top with
          | Some wi =>
              if wi =? active l then Done (set_focused slot l)
              else upd_ws l wi (ws_set_focused id)
          | None => Done l
          end;
      l ← bump l;
      Done (l, Some unhosted)
  | _, _ => Done (l, None)
  end.

Definition ask_fresh (l : Layout) (slot : nat) : outcome (Layout * bool) :=
  match get l slot with
  | Some p =>
      if fresh p && is_empty_kind (kind p) then
        l ← bump (upd l slot (set_fresh false)); Done (l, true)
      else Done (l, false)
  | None => Done (l, false)
  end.

Definition fresh_ids (l : Layout) : list Z :=
  omap (λ o, p ← o; if fresh p then Some (pid p) else None) (panes l).

(** ** Stamps over the whole arena *)

(** [for p in self.panes.iter_mut().flatten() { .. }] *)
Definition map_panes (l : Layout) (f : Pane → Pane) : Layout := set_panes (List.map (option_map f) (panes l)) l.
Definition count_panes (l : Layout) (P : Pane → bool) : nat :=
  length (filter (λ o, from_option P false o = true) (panes l)).

Definition restamp_empties (l : Layout) (from to : Z) : Layout * nat :=
  let hit p := (owner_principal p =? from)%Z && is_empty_kind (kind p) in
  (map_panes l (λ p, if hit p then set_owner_principal to p else p), count_panes l hit).

Definition release_creator (l : Layout) (conn : Z) : Layout * nat :=
  if (conn =? 0)%Z then (l, 0) else
  (map_panes l (λ p, if (creator_conn p =? conn)%Z
                     then set_creator_peer 0 (set_creator_conn 0 p) else p),
   count_panes l (λ p, (creator_conn p =? conn)%Z && is_empty_kind (kind p))).

Fixpoint stamp_bg_subtree_f (fuel : nat) (l : Layout) (slot : nat) : outcome Layout :=
  match fuel with
  | O => OutOfFuel
  | S fuel =>
      let kids := kids_of l slot in
      foldM (stamp_bg_subtree_f fuel) (upd l slot (set_backgrounded true)) kids
  end.

Definition apply_backgrounded (l : Layout) (bg : list nat) : outcome Layout :=
  let l := set_panes (imap (λ i, option_map (set_backgrounded (bool_decide (i ∈ bg)))) (panes l)) l in
  foldM (λ l r, stamp_bg_subtree_f (tree_fuel l) l r) l (inactive_roots l).

End PaneTree.
