(* ===== verification/PaneCarve.v ===== *)
(** * The pane tree's geometry (src/usr/tapestryd/src/pane.rs)

    [recompute] and the two carves it chooses between: the legacy equal division
    with its chrome ring and tag bars, and the Instrument carve with weighted
    splits, tracks, frames, headers and bodies.  Also the divider drag, which
    writes the extents a carve laid back as weights, and the test that a
    mutation keeps the minima. *)

From stdpp Require Import strings.
From S2P Require Import Prelude Geometry Carve PaneData PaneTree.
Import Geometry PaneData PaneTree.
Open Scope nat_scope.

Module PaneCarve.

(** ** The legacy carve *)

Definition strip_h (mode : Mode) (n : Z) (r : Rect) (unit_ : Z) : outcome Z :=
  total ← match mode with
          | Tabbed => Done unit_
          | Stacked => umul 32 unit_ (Z.max n 1)
          | _ => Done 0%Z
          end;
  if (total =? 0)%Z then Done 0%Z else
  t8 ← uadd 32 total 8;
  Done (if ((rh r <? t8) || (rw r <? 8))%Z then 0%Z else total).

(** The children a tab or a stack shows, and the one it opens. *)
Definition effective (l : Layout) (children : list nat) : outcome (list nat) :=
  filterM (λ c, b ← is_bg_subtree l c; Done (negb b)) children.
Definition shown_child (l : Layout) (children eff : list nat) (act : nat) : outcome (option nat) :=
  a ← match children !! act with
      | Some a => b ← is_bg_subtree l a; Done (if (b : bool) then None else Some a)
      | None => Done None
      end;
  Done (match a with Some a => Some a | None => eff !! 0 end).

(** The rectangle of one child of a division, from [pos] along the axis. *)
Definition along (horiz : bool) (r : Rect) (pos ext : Z) : Rect :=
  if horiz then mkRect pos (ry r) ext (rh r) else mkRect (rx r) pos (rw r) ext.

(** The equal division of [r] among [cs], the remainder to the last: child [i]
    of [n], at [pos]. *)
Fixpoint divide_legacy (rec : Layout → nat → Rect → outcome Layout) (horiz : bool) (r : Rect)
    (each n i pos : Z) (l : Layout) (cs : list nat) : outcome Layout :=
  match cs with
  | [] => Done l
  | c :: cs =>
      w ← (if (i =? n - 1)%Z
           then e ← (if horiz then uadd 32 (rx r) (rw r) else uadd 32 (ry r) (rh r)); usub e pos
           else Done each);
      l ← rec l c (along horiz r pos w);
      pos ← uadd 32 pos w;
      divide_legacy rec horiz r each n (i + 1) pos l cs
  end.

Definition place (r : Rect) (p : Pane) : Pane := set_rect r (set_visible true p).

Fixpoint layout_pane_f (fuel : nat) (l : Layout) (slot : nat) (r : Rect) : outcome Layout :=
  match fuel with
  | O => OutOfFuel
  | S fuel =>
      match get l slot with
      | None => Done l
      | Some p =>
          let l := upd l slot (place r) in
          match kind p with
          | Leaf _ => Done l
          | Container ((Tabbed | Stacked) as mode) children act =>
              eff ← effective l children;
              strip ← strip_h mode (as_u 32 (zlen eff)) r (as_u 32 (tab_strip_h (metrics l)));
              shown ← shown_child l children eff act;
              match shown with
              | Some a =>
                  y ← uadd 32 (ry r) strip;
                  h ← usub (rh r) strip;
                  layout_pane_f fuel l a (mkRect (rx r) y (rw r) h)
              | None => Done l
              end
          | Container mode children _ =>
              match children with
              | [] => Done l
              | _ =>
                  divide ← divide_list l children;
                  l ← foldM (λ l c, if decide (c ∈ divide) then Done l
                                    else layout_pane_f fuel l c ZERO) l children;
                  let n := as_u 32 (zlen divide) in
                  if (n =? 0)%Z then Panic else
                  let horiz := bool_decide (mode = SplitH) in
                  divide_legacy (layout_pane_f fuel) horiz r
                    ((if horiz then rw r else rh r) / n) n 0
                    (if horiz then rx r else ry r) l divide
              end
          end
      end
  end.
Definition layout_pane (l : Layout) := layout_pane_f (tree_fuel l) l.

Definition is_leaf_kind (k : Kind) : bool := match k with Leaf _ => true | _ => false end.

Definition visible_leaf_count (l : Layout) : nat :=
  count_panes l (λ p, is_leaf_kind (kind p) && visible p).
Definition foreground_leaf_count (l : Layout) : nat :=
  count_panes l (λ p, is_leaf_kind (kind p) && visible p && negb (backgrounded p)).

(** The content of one visible pane: inside the ring, below the tag bar. *)
Definition inset_pane (ring tag_h : Z) (p : Pane) : outcome Pane :=
  if negb (visible p) then Done p else
  let r := rect p in
  let full := Done (set_content r p) in
  if negb ((0 <? ring)%Z && is_leaf_kind (kind p)) then full else
  r2 ← umul 32 2 ring;
  if negb ((r2 <? rw r) && (r2 <? rh r))%Z then full else
  x ← uadd 32 (rx r) ring;
  y ← uadd 32 (ry r) ring;
  let c := mkRect x y (rw r - r2) (rh r - r2) in
  t2 ← uadd 32 tag_h tag_h;
  if (t2 <? rh c)%Z then
    y' ← uadd 32 (ry c) tag_h;
    Done (set_content (mkRect (rx c) y' (rw c) (rh c - tag_h))
            (set_tagbar (mkRect (rx c) (ry c) (rw c) tag_h) p))
  else Done (set_content c p).

Definition map_panesM (l : Layout) (f : Pane → outcome Pane) : outcome Layout :=
  ps ← mapM_o (λ o, match o with
                    | Some p => p ← f p; Done (Some p)
                    | None => Done None
                    end) (panes l);
  Done (set_panes ps l).

(** The zoomed leaf of the active tree; a stale zoom clears. *)
Definition zoom_target (l : Layout) : outcome (Layout * option nat) :=
  match zoomed_id l with
  | None => Done (l, None)
  | Some zid =>
      match slot_of_id l zid with
      | Some z =>
          if is_leaf l z then
            ina ← in_active_root l z;
            if (ina : bool) then Done (l, Some z) else Done (set_zoomed_id None l, None)
          else Done (set_zoomed_id None l, None)
      | None => Done (set_zoomed_id None l, None)
      end
  end.

Definition recompute_legacy (l : Layout) (disp_w disp_h gaps : Z) : outcome Layout :=
  let full := mkRect 0 0 disp_w disp_h in
  '(l, z) ← zoom_target l;
  match z with
  | Some z => upd_unwrap l z (λ p, set_content full (place full p))
  | None =>
      r ← root l;
      l ← layout_pane l r full;
      bh ← ichk 32 (bevel (metrics l) + hairline (metrics l));
      ring ← (if 1 <? foreground_leaf_count l then uadd 32 gaps (as_u 32 bh) else Done 0%Z);
      map_panesM l (inset_pane ring (as_u 32 (header_h (metrics l))))
  end.

(** ** The Instrument carve *)

Definition show_container (l : Layout) (slot : nat) (r : Rect) : Layout :=
  upd l slot (λ p, set_content r (place r p)).

(** One tile of a frame. *)
Definition place_tile (carve : Layout → nat → Rect → outcome Layout) (inner rect_ body_rect sep : Rect)
    (headers : list Carve.Span) (open i : nat) (l : Layout) (t : nat) : outcome Layout :=
  hs ← unwrap (headers !! i);
  header ← intersect (mkRect (rx inner) (Carve.start hs) (rw inner) (Carve.span_len hs)) inner;
  let is_open := i =? open in
  if is_leaf l t then
    upd_unwrap l t (λ p,
      set_separator (if is_open then sep else ZERO)
        (set_content (if is_open then body_rect else ZERO)
          (set_tagbar header (set_rect rect_
            (set_visible (is_open && negb (is_empty body_rect)) p)))))
  else
    l ← (if is_open then carve l t body_rect else Done l);
    upd_unwrap l t (λ p,
      let p := set_separator (if is_open then sep else ZERO) (set_tagbar header p) in
      if is_open then p else set_rect rect_ p).

Fixpoint place_tiles (f : nat → Layout → nat → outcome Layout) (i : nat) (l : Layout)
    (tiles : list nat) : outcome Layout :=
  match tiles with
  | [] => Done l
  | t :: tiles => l ← f i l t; place_tiles f (S i) l tiles
  end.

Definition place_frame (carve : Layout → nat → Rect → outcome Layout) (l : Layout) (r : Rect)
    (tiles : list nat) (open members : nat) : outcome Layout :=
  inner ← inset r (mf l);
  '(headers, body) ← Carve.stack_alloc (ry inner) (rh inner) (length tiles) open (mhdr l) (msep l);
  body_rect ← intersect (mkRect (rx inner) (Carve.start body) (rw inner) (Carve.span_len body)) inner;
  match tiles with
  | [t] =>
      if (members =? 1) && is_empty_leaf l t then
        upd_unwrap l t (λ p,
          set_content ZERO (set_tagbar inner (set_rect r (set_visible (negb (is_empty inner)) p))))
      else
        place_tiles (place_tile carve inner r body_rect ZERO headers open) 0 l tiles
  | _ =>
      sep ← (if open + 1 <? length tiles
             then intersect (mkRect (rx inner) (Carve.span_end body) (rw inner) (msep l)) inner
             else Done ZERO);
      place_tiles (place_tile carve inner r body_rect sep headers open) 0 l tiles
  end.

(** The children of a split laid along the axis, and the tracks between them. *)
Fixpoint place_split (carve : Layout → nat → Rect → outcome Layout) (horiz : bool) (r : Rect) (t : Z)
    (spans : list Carve.Span) (i n : nat) (dividers : list Rect) (l : Layout) (cs : list nat) :
    outcome (Layout * list Rect) :=
  match cs with
  | [] => Done (l, dividers)
  | c :: cs =>
      sp ← unwrap (spans !! i);
      child ← intersect (along horiz r (Carve.start sp) (Carve.span_len sp)) r;
      l ← carve l c child;
      dividers ← (if i + 1 <? n
                  then track ← intersect (along horiz r (Carve.span_end sp) t) r;
                       Done (dividers ++ [track])
                  else Done dividers);
      place_split carve horiz r t spans (S i) n dividers l cs
  end.

Definition min_along (l : Layout) (horiz : bool) (c : nat) : outcome Z :=
  '(w, h) ← min_size_hyp l c None; Done (if horiz then w else h).

Fixpoint carve_f (fuel : nat) (l : Layout) (slot : nat) (r : Rect) : outcome Layout :=
  match fuel with
  | O => OutOfFuel
  | S fuel =>
      match kind <$> get l slot with
      | None => Done l
      | Some (Leaf _) => place_frame (carve_f fuel) l r [slot] 0 1
      | Some (Container ((SplitH | SplitV) as mode) children _) =>
          let l := show_container l slot r in
          match children with
          | [] => Done l
          | _ =>
              divide ← divide_list l children;
              l ← foldM (λ l c, if decide (c ∈ divide) then Done l else carve_f fuel l c ZERO)
                    l children;
              let horiz := bool_decide (mode = SplitH) in
              let t := mt l in
              minima ← mapM_o (min_along l horiz) divide;
              spans ← Carve.split_spans (if horiz then rx r else ry r)
                        (if horiz then rw r else rh r) t (weight_of l <$> divide) minima;
              '(l, dividers) ← place_split (carve_f fuel) horiz r t spans 0 (length divide) [] l divide;
              upd_unwrap l slot (set_dividers dividers)
          end
      | Some (Container Tabbed children act) =>
          let l := show_container l slot r in
          eff ← effective l children;
          shown ← shown_child l children eff act;
          match shown with
          | Some a => place_frame (carve_f fuel) l r [a] 0 (length eff)
          | None => Done l
          end
      | Some (Container Stacked children act) =>
          let l := show_container l slot r in
          eff ← effective l children;
          match eff with
          | [] => Done l
          | _ =>
              let open := default 0 (a ← children !! act; position (Nat.eqb a) eff) in
              place_frame (carve_f fuel) l r eff open (length eff)
          end
      end
  end.

(** A frame and its open tile are two levels of the code's recursion and one of
    the tree. *)
Definition carve (l : Layout) := carve_f (tree_fuel l) l.

Definition recompute_instrument (l : Layout) (area_ : Rect) : outcome Layout :=
  '(l, z) ← zoom_target l;
  match z with
  | Some z => upd_unwrap l z (λ p, set_content area_ (place area_ p))
  | None =>
      r ← root l;
      a ← inset area_ (px_of (outer_pad (metrics l)));
      carve l r a
  end.

Definition hide (p : Pane) : Pane :=
  set_separator ZERO (set_dividers [] (set_tagbar ZERO (set_content ZERO (set_rect ZERO
    (set_visible false p))))).

Definition recompute (l : Layout) (area_ : Rect) (gaps : Z) (m : Metrics) (prof : Profile) :
    outcome Layout :=
  let l := set_area area_ (set_profile prof (set_metrics m l)) in
  let l := map_panes l hide in
  match prof with
  | Legacy => recompute_legacy l (rw area_) (rh area_) gaps
  | Instrument => recompute_instrument l area_
  end.

(** ** Strips *)

Definition strip_of (l : Layout) (i : nat) (p : Pane) :
    outcome (option (nat * Rect * Mode * list nat * nat)) :=
  match kind p with
  | Container ((Tabbed | Stacked) as m) children act =>
      if negb (visible p) then Done None else
      eff ← effective l children;
      match eff with
      | [] => Done None
      | _ =>
          strip ← strip_h m (as_u 32 (zlen eff)) (rect p) (as_u 32 (tab_strip_h (metrics l)));
          if (strip =? 0)%Z then Done None else
          let eff_active := default 0 (ac ← children !! act; position (Nat.eqb ac) eff) in
          Done (Some (i, mkRect (rx (rect p)) (ry (rect p)) (rw (rect p)) strip, m, eff, eff_active))
      end
  | _ => Done None
  end.
Definition visible_strips (l : Layout) : outcome (list (nat * Rect * Mode * list nat * nat)) :=
  os ← mapM_o (λ x : nat * option Pane,
         match x.2 with Some p => strip_of l x.1 p | None => Done None end) (imap pair (panes l));
  Done (omap (M:=list) (λ o, o) os).

(** ** Tracks *)

Definition track_at (l : Layout) (x y : Z) : option (nat * nat) :=
  head (omap (λ e : nat * option Pane,
    p ← e.2;
    if visible p then (λ i, (e.1, i)) <$> position (λ d, contains d x y) (dividers p) else None)
    (imap pair (panes l))).

Record TrackPair := mkTrackPair {
  tp_first : nat; tp_second : nat; tp_origin : Z; tp_ext1 : Z; tp_ext2 : Z;
  tp_min1 : Z; tp_min2 : Z; tp_horiz : bool }.

Definition track_pair (l : Layout) (slot idx : nat) : outcome (option TrackPair) :=
  match get l slot with
  | None => Done None
  | Some p =>
      match kind p with
      | Container ((SplitH | SplitV) as mode) _ _ =>
          let horiz := bool_decide (mode = SplitH) in
          if length (dividers p) <=? idx then Done None else
          divide ← divide_of l slot;
          match divide !! idx, divide !! (idx + 1) with
          | Some a, Some b =>
              match get l a, get l b with
              | Some pa, Some pb =>
                  ma ← min_along l horiz a;
                  mb ← min_along l horiz b;
                  let ra := rect pa in
                  let rb := rect pb in
                  Done (Some (if horiz then mkTrackPair a b (rx ra) (rw ra) (rw rb) ma mb true
                              else mkTrackPair a b (ry ra) (rh ra) (rh rb) ma mb false))
              | _, _ => Done None
              end
          | _, _ => Done None
          end
      | _ => Done None
      end
  end.

Definition set_pair_extents (l : Layout) (slot a b : nat) (ea eb : Z) (horiz : bool) :
    outcome (Layout * bool) :=
  divide ← divide_of l slot;
  foldM (λ s c,
    let '(l, changed) := s in
    let e := if c =? a then ea else if c =? b then eb else
             let r := from_option rect ZERO (get l c) in if horiz then rw r else rh r in
    let w := Z.min (Z.max e 1) (u_max 16) in
    let before := weight <$> get l c in
    '(l, ok) ← set_pane_weight l c w;
    Done (l, if ok && negb (bool_decide (before = Some w)) then true else changed))
    (l, false) divide.

Inductive DragVerdict := Changed | Unchanged | Refused.

Definition apply_pair (l : Layout) (slot : nat) (tp : TrackPair) (o : option (Z * Z)) :
    outcome (Layout * DragVerdict) :=
  match o with
  | Some (na, nb) =>
      '(l, changed) ← set_pair_extents l slot (tp_first tp) (tp_second tp) na nb (tp_horiz tp);
      Done (l, if (changed : bool) then Changed else Unchanged)
  | None => Done (l, Refused)
  end.

Definition drag_track (l : Layout) (slot idx : nat) (pos : Z * Z) : outcome (Layout * DragVerdict) :=
  o ← track_pair l slot idx;
  match o with
  | None => Done (l, Refused)
  | Some tp =>
      let p := if tp_horiz tp then pos.1 else pos.2 in
      r ← Carve.drag_pair (tp_origin tp) (tp_ext1 tp) (tp_ext2 tp) (mt l) (tp_min1 tp) (tp_min2 tp) p;
      apply_pair l slot tp r
  end.

Definition equalise_track (l : Layout) (slot idx : nat) : outcome (Layout * DragVerdict) :=
  o ← track_pair l slot idx;
  match o with
  | None => Done (l, Refused)
  | Some tp =>
      apply_pair l slot tp
        (Carve.equalise_pair (tp_ext1 tp) (tp_ext2 tp) (tp_min1 tp) (tp_min2 tp))
  end.

(** ** The minima of a mutation *)

Definition min_fits_root (l : Layout) (r : nat) : outcome bool :=
  if decide (profile l = Instrument) then
    a ← inset (area l) (px_of (outer_pad (metrics l)));
    '(w, h) ← min_size_hyp l r None;
    Done ((w <=? rw a) && (h <=? rh a))%Z
  else Done true.

Definition fits_after (l : Layout) (mutate : Layout → outcome (Layout * bool)) : outcome bool :=
  if decide (profile l = Instrument) then
    before ← mapM_o (λ w, f ← min_fits_root l (ws_root w); Done (number w, f)) (workspaces l);
    '(trial, done_) ← mutate l;
    if negb done_ then Done true else
    allM (λ w,
      fits ← min_fits_root trial (ws_root w);
      Done (fits || negb (from_option snd true
              (List.find (λ x : Z * bool, Z.eqb x.1 (number w)) before)))) (workspaces trial)
  else Done true.

End PaneCarve.
