(* ===== verification/PaneRep.v ===== *)
(** * Trees in the pane arena

    The shape a correct arena has.  A [ptree] is the tree a slot roots; [rep]
    says that an arena holds it, every child naming its parent; a [ctx] is a
    tree with a hole, so that [plug C t] is the tree in which [t] stands at the
    hole.  [heap] says that the live slots of an arena are exactly the nodes of
    a list of trees, each node once.  [heap_surgery] is the one lemma every
    structural change goes through: it replaces a subtree, frees some nodes and
    takes others, given an accounting of the nodes. *)

From stdpp Require Import strings.
From S2P Require Import Prelude Geometry PaneData.
Import Geometry PaneData.
Open Scope nat_scope.

Module PaneRep.

(** ** Trees and contexts *)

Inductive ptree :=
  | TLeaf (s : nat)
  | TNode (s : nat) (ts : list ptree).

Definition root_of (t : ptree) : nat := match t with TLeaf s | TNode s _ => s end.
Notation roots ts := (root_of <$> ts).

Fixpoint nodes (t : ptree) : list nat :=
  match t with
  | TLeaf s => [s]
  | TNode s ts => s :: (ts ≫= nodes)
  end.
Fixpoint leaves (t : ptree) : list nat :=
  match t with
  | TLeaf s => [s]
  | TNode _ ts => ts ≫= leaves
  end.
(** Every container has at least two children. *)
Fixpoint wide (t : ptree) : Prop :=
  match t with
  | TLeaf _ => True
  | TNode _ ts => 2 ≤ length ts ∧ foldr (λ t P, wide t ∧ P) True ts
  end.

Record cframe := mkFrame { fr_slot : nat; fr_left : list ptree; fr_right : list ptree }.
(** Innermost frame first. *)
Notation ctx := (list cframe).

Definition fill (f : cframe) (t : ptree) : ptree :=
  TNode (fr_slot f) (fr_left f ++ t :: fr_right f).
Fixpoint plug (C : ctx) (t : ptree) : ptree :=
  match C with
  | [] => t
  | f :: C => plug C (fill f t)
  end.
Definition ctx_parent (C : ctx) : option nat := fr_slot <$> head C.
Fixpoint ctx_nodes (C : ctx) : list nat :=
  match C with
  | [] => []
  | f :: C => fr_slot f :: (fr_left f ≫= nodes) ++ (fr_right f ≫= nodes) ++ ctx_nodes C
  end.
Definition wide_ctx (C : ctx) : Prop :=
  Forall (λ f, 1 ≤ length (fr_left f) + length (fr_right f) ∧
               Forall wide (fr_left f) ∧ Forall wide (fr_right f)) C.

(** ** Representation *)

Inductive rep (g : nat → option Pane) : option nat → ptree → Prop :=
  | rep_leaf par s p sf : g s = Some p → parent p = par → kind p = Leaf sf →
      rep g par (TLeaf s)
  | rep_node par s p m a ts : g s = Some p → parent p = par →
      kind p = Container m (roots ts) a → a < length ts →
      Forall (rep g (Some s)) ts → rep g par (TNode s ts).

(** The arena holds the context, with [r] standing at the hole. *)
Inductive crep (g : nat → option Pane) : ctx → nat → Prop :=
  | crep_nil r : crep g [] r
  | crep_cons f C r p m a : g (fr_slot f) = Some p → parent p = ctx_parent C →
      kind p = Container m (roots (fr_left f) ++ r :: roots (fr_right f)) a →
      a < length (fr_left f) + S (length (fr_right f)) →
      Forall (rep g (Some (fr_slot f))) (fr_left f ++ fr_right f) →
      crep g C (fr_slot f) → crep g (f :: C) r.

(** The live slots are the nodes of [us], each node once. *)
Record heap (g : nat → option Pane) (us : list ptree) : Prop := mkHeap {
  heap_rep : Forall (rep g None) us;
  heap_nodup : NoDup (us ≫= nodes);
  heap_cover s : is_Some (g s) → s ∈ us ≫= nodes }.

(** The arena holds the trees, perhaps beside other live slots. *)
Record trees (g : nat → option Pane) (us : list ptree) : Prop := mkTrees {
  trees_rep : Forall (rep g None) us;
  trees_nodup : NoDup (us ≫= nodes) }.

(** The arena with the slots [xs] out of sight: panes between two places. *)
Definition masked (xs : list nat) (g : nat → option Pane) (s : nat) : option Pane :=
  if decide (s ∈ xs) then None else g s.

(** Two panes with the same place in the tree: a leaf stays a leaf, a container
    keeps its children, whatever its mode and its active child become. *)
Definition same_kind (k k' : Kind) : Prop :=
  match k, k' with
  | Leaf _, Leaf _ => True
  | Container _ cs a, Container _ cs' a' => cs = cs' ∧ (a < length cs → a' < length cs')
  | _, _ => False
  end.
Definition sim (o o' : option Pane) : Prop :=
  match o, o' with
  | Some p, Some p' => parent p = parent p' ∧ same_kind (kind p) (kind p')
  | None, None => True
  | _, _ => False
  end.

(** ** Facts on trees *)

Lemma ptree_rect' (P : ptree → Prop) :
  (∀ s, P (TLeaf s)) → (∀ s ts, Forall P ts → P (TNode s ts)) → ∀ t, P t.
Proof.
  intros Hl Hn. fix IH 1. intros [s|s ts]; [apply Hl|]. apply Hn.
  induction ts; constructor; [apply IH|done].
Qed.

Lemma wide_node s ts : wide (TNode s ts) ↔ 2 ≤ length ts ∧ Forall wide ts.
Proof.
  cbn. split; intros [H1 H2]; (split; [done|]); clear H1; induction ts; cbn in *;
    [constructor|constructor; tauto|done|inversion H2; tauto].
Qed.

Lemma nodes_root t : root_of t ∈ nodes t.
Proof. destruct t; set_solver. Qed.
Lemma nodes_nonempty t : 1 ≤ length (nodes t).
Proof. destruct t; cbn; lia. Qed.
Lemma leaves_nodes t s : s ∈ leaves t → s ∈ nodes t.
Proof.
  induction t as [s'|s' ts IH] using ptree_rect'; [done|]. cbn.
  rewrite list_elem_of_bind. intros (t & Hs & Ht). right.
  apply list_elem_of_bind. exists t. split; [|done].
  rewrite Forall_forall in IH. by apply IH.
Qed.

Lemma root_fill f t : root_of (fill f t) = fr_slot f.
Proof. done. Qed.

Lemma nodes_plug C t : nodes (plug C t) ≡ₚ nodes t ++ ctx_nodes C.
Proof.
  revert t. induction C as [|f C IH]; intros t; cbn; [by rewrite app_nil_r|].
  rewrite IH. unfold fill. cbn. rewrite bind_app, bind_cons.
  solve_Permutation.
Qed.

Lemma plug_app C C' t : plug (C ++ C') t = plug C' (plug C t).
Proof. revert t. induction C; intros t; cbn; auto. Qed.

(** Every node stands at some hole. *)
Lemma find_ctx T s : s ∈ nodes T → ∃ C t, T = plug C t ∧ root_of t = s.
Proof.
  induction T as [s'|s' ts IH] using ptree_rect'; cbn.
  - intros ->%list_elem_of_singleton. by exists [], (TLeaf s').
  - intros [->|Hs]%elem_of_cons; [by exists [], (TNode s' ts)|].
    apply list_elem_of_bind in Hs as (t & Hs & Ht).
    apply list_elem_of_split in Ht as (ls & rs & ->).
    rewrite Forall_forall in IH. destruct (IH t) as (C & t' & -> & Hr); [set_solver|done|].
    exists (C ++ [mkFrame s' ls rs]), t'. by rewrite plug_app.
Qed.

Lemma wide_plug C t : wide (plug C t) ↔ wide t ∧ wide_ctx C.
Proof.
  revert t. induction C as [|f C IH]; intros t; cbn [plug].
  { split; [by intros; split; [|constructor]|tauto]. }
  rewrite IH. unfold fill, wide_ctx. rewrite wide_node, Forall_cons, Forall_app, Forall_cons.
  rewrite length_app. cbn. intuition lia.
Qed.

Lemma root_plug C t : ∃ r, root_of (plug C t) = r ∧ (C = [] → r = root_of t).
Proof. eexists. split; [done|]. by intros ->. Qed.
Lemma root_plug_ext C t t' : (C = [] → root_of t = root_of t') →
  root_of (plug C t) = root_of (plug C t').
Proof.
  revert t t'. induction C as [|f C IH]; intros t t' H; [by apply H|]. cbn. by apply IH.
Qed.

Lemma leaves_plug C t : ∃ rest, leaves (plug C t) ≡ₚ leaves t ++ rest ∧
  ∀ t', leaves (plug C t') ≡ₚ leaves t' ++ rest.
Proof.
  assert (∃ rest, ∀ t', leaves (plug C t') ≡ₚ leaves t' ++ rest) as [rest Hr]; [|by eauto].
  clear t. induction C as [|f C [rest IH]]; cbn.
  { exists []. intros. by rewrite app_nil_r. }
  exists ((fr_left f ≫= leaves) ++ (fr_right f ≫= leaves) ++ rest). intros t'. rewrite IH.
  unfold fill. cbn. rewrite bind_app, bind_cons. solve_Permutation.
Qed.
Lemma leaves_in_plug C t s : s ∈ leaves t → s ∈ leaves (plug C t).
Proof. destruct (leaves_plug C t) as (rest & -> & _). set_solver. Qed.

(** A leaf slot of a tree stands at a hole as a leaf. *)
Lemma find_leaf T s : s ∈ leaves T → ∃ C, T = plug C (TLeaf s).
Proof.
  induction T as [s'|s' ts IH] using ptree_rect'; cbn.
  - intros ->%list_elem_of_singleton. by exists [].
  - intros (t & Hs & Ht)%list_elem_of_bind.
    apply list_elem_of_split in Ht as (ls & rs & ->).
    rewrite Forall_forall in IH. destruct (IH t) as (C & ->); [set_solver|done|].
    exists (C ++ [mkFrame s' ls rs]). by rewrite plug_app.
Qed.

Lemma ctx_depth C : length C ≤ length (ctx_nodes C).
Proof. induction C as [|f C IH]; cbn; [lia|]. rewrite !length_app. lia. Qed.

Lemma leaves_exist t : wide t → ∃ s, s ∈ leaves t.
Proof.
  induction t as [s'|s' ts IH] using ptree_rect'; [intros; exists s'; set_solver|].
  rewrite wide_node. intros [Hl Hw]. destruct ts as [|t ts]; [cbn in *; lia|].
  apply Forall_cons in IH as [IHt _], Hw as [Hw _]. destruct (IHt Hw) as [s Hs].
  exists s. cbn. set_solver.
Qed.

(** ** Facts on representation *)

Lemma sim_refl o : sim o o.
Proof. destruct o as [p|]; [|done]. split; [done|]. by destruct (kind p). Qed.
Lemma same_kind_refl k : same_kind k k.
Proof. by destruct k. Qed.
Lemma sim_trans o1 o2 o3 : sim o1 o2 → sim o2 o3 → sim o1 o3.
Proof.
  destruct o1 as [p1|], o2 as [p2|], o3 as [p3|]; try done. intros [H1 K1] [H2 K2].
  split; [congruence|]. destruct (kind p1), (kind p2), (kind p3); cbn in *; naive_solver.
Qed.
Lemma sim_some o o' : sim o o' → is_Some o ↔ is_Some o'.
Proof. destruct o, o'; cbn; intros; try done; split; eauto. Qed.
Lemma sim_none o o' : sim o o' → o = None ↔ o' = None.
Proof. by destruct o, o'. Qed.

Lemma rep_par g par t : rep g par t → ∃ p, g (root_of t) = Some p ∧ parent p = par.
Proof. destruct 1; eauto. Qed.

Lemma rep_live g par t s : rep g par t → s ∈ nodes t → is_Some (g s).
Proof.
  revert par. induction t as [s'|s' ts IH] using ptree_rect'; intros par H.
  - inversion H; subst. intros ->%list_elem_of_singleton. by eexists.
  - inversion H; subst. intros [->|Hs]%elem_of_cons; [by eexists|].
    apply list_elem_of_bind in Hs as (t & Hs & Ht). rewrite Forall_forall in *. by eapply IH; eauto.
Qed.

Lemma rep_sim g g' par t :
  (∀ s, s ∈ nodes t → sim (g s) (g' s)) → rep g par t → rep g' par t.
Proof.
  revert par. induction t as [s'|s' ts IH] using ptree_rect'; intros par Hs H;
    inversion H as [? ? p sf Hg Hp Hk|? ? p m a ? Hg Hp Hk Ha Hts]; subst;
    (assert (sim (g s') (g' s')) as Hss by (apply Hs; set_solver));
    rewrite Hg in Hss; destruct (g' s') as [p'|] eqn:Hg'; try done; destruct Hss as [Hpar Hkk];
    rewrite Hk in Hkk.
  - destruct (kind p') as [sf'|] eqn:Hk'; [|done]. by econstructor.
  - destruct (kind p') as [sf'|m' cs' a'] eqn:Hk'; [done|]. destruct Hkk as [<- Hact].
    rewrite length_fmap in Hact. econstructor; [done|done|done|by apply Hact|].
    rewrite Forall_forall in *. intros t Ht. apply IH; [done| |by apply Hts].
    intros s Hin. apply Hs. cbn. right. apply list_elem_of_bind. eauto.
Qed.
Lemma rep_agree g g' par t :
  (∀ s, s ∈ nodes t → g' s = g s) → rep g par t → rep g' par t.
Proof. intros H. apply rep_sim. intros s Hs. rewrite H by done. apply sim_refl. Qed.

(** Only the root's parent field ties a tree to where it stands. *)
Lemma rep_reparent g g' par par' t p p' :
  rep g par t → NoDup (nodes t) → g (root_of t) = Some p → g' (root_of t) = Some p' →
  parent p' = par' → same_kind (kind p) (kind p') →
  (∀ s, s ∈ nodes t → s ≠ root_of t → sim (g s) (g' s)) → rep g' par' t.
Proof.
  intros H Hnd Hg Hg' Hp Hk Ho. destruct H as [? s q sf H1 H2 H3|? s q m a ts H1 H2 H3 H4 H5];
    cbn in *; rewrite H1 in Hg; simplify_eq.
  - rewrite H3 in Hk. destruct (kind p') eqn:Hk'; [|done]. by econstructor.
  - rewrite H3 in Hk. destruct (kind p') as [sf'|m' cs' a'] eqn:Hk'; [done|]. destruct Hk as [<- Hact].
    rewrite length_fmap in Hact. econstructor; [done|done|done|by apply Hact|].
    apply NoDup_cons in Hnd as [Hs Hnd].
    rewrite Forall_forall in *. intros t Ht. apply (rep_sim g); [|by apply H5].
    intros s' Hs'. apply Ho; [right; apply list_elem_of_bind; eauto|].
    intros ->. apply Hs, list_elem_of_bind. eauto.
Qed.

Lemma rep_plug g C t : rep g None (plug C t) ↔ crep g C (root_of t) ∧ rep g (ctx_parent C) t.
Proof.
  revert t. induction C as [|f C IH]; intros t; cbn [plug].
  - split; [intros; split; [constructor|done]|by intros [_ ?]].
  - rewrite IH. unfold ctx_parent at 2. cbn [head fmap option_fmap option_map]. split.
    + intros [Hc Hr]. inversion Hr as [|? ? p m a ts H1 H2 H3 H4 H5]; subst. unfold fill in *.
      rewrite fmap_app, fmap_cons in H3. rewrite length_app in H4. cbn in H4.
      rewrite Forall_app, Forall_cons in H5. destruct H5 as (H5 & H6 & H7).
      split; [|done]. econstructor; [done|done|done|lia| |done]. by apply Forall_app.
    + intros [Hc Hr]. inversion Hc as [|? ? ? p m a H1 H2 H3 H4 H5 H6]; subst.
      split; [done|]. unfold fill. econstructor; [done|done| | |].
      * rewrite fmap_app, fmap_cons. done.
      * rewrite length_app. cbn. lia.
      * rewrite Forall_app in H5. rewrite Forall_app, Forall_cons. tauto.
Qed.

Lemma crep_live g C r s : crep g C r → s ∈ ctx_nodes C → is_Some (g s).
Proof.
  induction 1 as [|f C r p m a H1 H2 H3 H4 H5 H6 IH]; cbn; [by intros ?%elem_of_nil|].
  rewrite elem_of_cons, !elem_of_app. intros [->|[Hs|[Hs|Hs]]]; [by eauto| | |by apply IH];
    apply list_elem_of_bind in Hs as (t & Hs & Ht); rewrite Forall_forall in H5;
    (eapply rep_live; [|done]; apply H5; set_solver).
Qed.

(** A context survives a change that touches at most the slot above the hole. *)
Lemma crep_change g g' C r r' :
  crep g C r → NoDup (ctx_nodes C) →
  (∀ s, s ∈ ctx_nodes C → ctx_parent C ≠ Some s → sim (g s) (g' s)) →
  match C with
  | [] => True
  | f :: _ => ∀ p, g (fr_slot f) = Some p → ∃ p' m a, g' (fr_slot f) = Some p' ∧
      parent p' = parent p ∧
      kind p' = Container m (roots (fr_left f) ++ r' :: roots (fr_right f)) a ∧
      a < length (fr_left f) + S (length (fr_right f))
  end →
  crep g' C r'.
Proof.
  assert (∀ C r, crep g C r → (∀ s, s ∈ ctx_nodes C → sim (g s) (g' s)) → crep g' C r) as Hsim.
  { clear. induction 1 as [|f C r p m a H1 H2 H3 H4 H5 H6 IH]; intros Hs; [constructor|].
    assert (sim (g (fr_slot f)) (g' (fr_slot f))) as Hf by (apply Hs; cbn; set_solver).
    rewrite H1 in Hf. destruct (g' (fr_slot f)) as [p'|] eqn:Hg'; [|done].
    destruct Hf as [Hp Hk]. rewrite H3 in Hk. destruct (kind p') as [sf'|m' cs' a'] eqn:Hk'; [done|].
    destruct Hk as [<- Hact]. rewrite length_app, !length_fmap in Hact. cbn in Hact.
    rewrite length_fmap in Hact. econstructor; [done|congruence|done|by apply Hact| |].
    - rewrite Forall_forall in *. intros t Ht. apply (rep_sim g); [|by apply H5].
      intros s Hin. apply Hs. cbn. rewrite elem_of_cons, !elem_of_app, !list_elem_of_bind.
      apply elem_of_app in Ht as [Ht|Ht]; [right; left|right; right; left]; eauto.
    - apply IH. intros s Hin. apply Hs. cbn. set_solver. }
  intros H Hnd Hs Hf. destruct H as [|f C r p m a H1 H2 H3 H4 H5 H6]; [constructor|].
  destruct (Hf p H1) as (p' & m' & a' & G1 & G2 & G3 & G4).
  cbn in Hnd. apply NoDup_cons in Hnd as [Hni Hnd].
  assert (∀ s, s ∈ (fr_left f ≫= nodes) ++ (fr_right f ≫= nodes) ++ ctx_nodes C →
    sim (g s) (g' s)) as Hin.
  { intros s Hin. apply Hs; [cbn; by right|]. cbn. intros [= <-]. done. }
  econstructor; [done|congruence|done|done| |].
  - rewrite Forall_forall in *. intros t Ht. apply (rep_sim g); [|by apply H5].
    intros s Hn. apply Hin. rewrite !elem_of_app, !list_elem_of_bind.
    apply elem_of_app in Ht as [Ht|Ht]; [left|right; left]; eauto.
  - apply Hsim; [done|]. intros s Hn. apply Hin. set_solver.
Qed.

(** ** Heaps *)

#[global] Instance heap_perm g : Proper ((≡ₚ) ==> iff) (heap g).
Proof.
  assert (∀ us vs, us ≡ₚ vs → heap g us → heap g vs) as H.
  { intros us vs Hp [H1 H2 H3]. split.
    - by rewrite <-Hp.
    - by rewrite <-Hp.
    - intros s Hs. rewrite <-Hp. auto. }
  intros us vs Hp. split; apply H; [done|by symmetry].
Qed.

Lemma heap_sim g g' us : (∀ s, sim (g s) (g' s)) → heap g us → heap g' us.
Proof.
  intros Hs [H1 H2 H3]. split; [|done|].
  - rewrite Forall_forall in *. intros t Ht. by apply (rep_sim g); auto.
  - intros s Hs'. apply H3. by rewrite (sim_some _ _ (Hs s)).
Qed.

Lemma heap_trees g us : heap g us → trees g us.
Proof. by intros [? ? _]. Qed.

Lemma rep_hide xs g par t : rep (masked xs g) par t → rep g par t.
Proof.
  intros H. eapply rep_agree; [|exact H]. intros s Hs.
  destruct (rep_live _ _ _ _ H Hs) as [p Hp]. unfold masked in *. by case_decide.
Qed.
Lemma trees_hide xs g us : trees (masked xs g) us → trees g us.
Proof.
  intros [H1 H2]. split; [|done]. eapply Forall_impl; [exact H1|]. intros t. apply rep_hide.
Qed.
Lemma heap_hide_nil g us : heap (masked [] g) us ↔ heap g us.
Proof.
  split; apply heap_sim; intros s; unfold masked; rewrite decide_False by set_solver; apply sim_refl.
Qed.
Lemma hide_out xs g s : s ∉ xs → masked xs g s = g s.
Proof. intros. unfold masked. by rewrite decide_False. Qed.
Lemma hide_in xs g s : s ∈ xs → masked xs g s = None.
Proof. intros. unfold masked. by rewrite decide_True. Qed.
(** No node of a tree of the hidden arena is out of sight. *)
Lemma heap_hide_nodes xs g us s : heap (masked xs g) us → s ∈ us ≫= nodes → s ∉ xs.
Proof.
  intros [H _ _] (t & Hs & Ht)%list_elem_of_bind Hx. rewrite Forall_forall in H.
  destruct (rep_live _ _ _ _ (H t Ht) Hs) as [p Hp]. by rewrite hide_in in Hp.
Qed.

(** The slot above the hole, after the child at the hole became [r']. *)
Definition hole_ok (g g' : nat → option Pane) (C : ctx) (r' : nat) : Prop :=
  match C with
  | [] => True
  | f :: _ => ∀ p, g (fr_slot f) = Some p → ∃ p' m a, g' (fr_slot f) = Some p' ∧
      parent p' = parent p ∧
      kind p' = Container m (roots (fr_left f) ++ r' :: roots (fr_right f)) a ∧
      a < length (fr_left f) + S (length (fr_right f))
  end.

(** Replace [t] at the hole by [t'], consuming the trees [ds] and the free slots
    [new], leaving the trees [us'] apart and freeing [freed]. *)
Lemma heap_surgery g g' C t t' ds us us' new freed :
  heap g (plug C t :: ds ++ us) →
  nodes t ++ (ds ≫= nodes) ++ new ≡ₚ nodes t' ++ (us' ≫= nodes) ++ freed →
  NoDup new → (∀ s, s ∈ new → g s = None) → (∀ s, s ∈ freed → g' s = None) →
  (∀ s, s ∉ nodes t → s ∉ ds ≫= nodes → s ∉ new → ctx_parent C ≠ Some s → sim (g s) (g' s)) →
  hole_ok g g' C (root_of t') →
  (NoDup (nodes t' ++ (us' ≫= nodes)) → rep g' (ctx_parent C) t' ∧ Forall (rep g' None) us') →
  heap g' (plug C t' :: us' ++ us).
Proof.
  intros [Hrep Hnd Hcov] Hperm Hnew1 Hnew2 Hfr Hout Hhole Hrep'.
  rewrite Forall_cons, Forall_app in Hrep. destruct Hrep as (Hpl & Hds & Hus).
  rewrite bind_cons, nodes_plug, bind_app in Hnd.
  set (O := ctx_nodes C ++ (us ≫= nodes)).
  assert (Forall (rep g None) us ∧ crep g C (root_of t)) as [_ Hc].
  { split; [done|]. by apply rep_plug. }
  assert (∀ s, s ∈ O → is_Some (g s)) as Hlive.
  { intros s [Hs|Hs]%elem_of_app; [by eapply crep_live|].
    apply list_elem_of_bind in Hs as (u & Hs & Hu). rewrite Forall_forall in Hus.
    exact (rep_live g None u s (Hus u Hu) Hs). }
  assert (NoDup ((nodes t ++ (ds ≫= nodes) ++ new) ++ O)) as Hall.
  { assert (NoDup ((nodes t ++ (ds ≫= nodes) ++ O) ++ new)) as H.
    - apply NoDup_app. split; [|split; [|done]].
      + unfold O. rewrite <-!app_assoc in Hnd. eapply NoDup_Permutation_proper; [|exact Hnd].
        solve_Permutation.
      + intros s Hs Hn. specialize (Hnew2 s Hn).
        assert (is_Some (g s)) as [? ?]; [|congruence].
        rewrite !elem_of_app in Hs. destruct Hs as [Hs|[Hs|Hs]]; [| |by apply Hlive].
        * apply rep_plug in Hpl as [_ Hpl]. by eapply rep_live.
        * apply list_elem_of_bind in Hs as (u & Hs & Hu). rewrite Forall_forall in Hds.
          exact (rep_live g None u s (Hds u Hu) Hs).
    - eapply NoDup_Permutation_proper; [|exact H]. solve_Permutation. }
  rewrite Hperm in Hall.
  assert (∀ s, s ∈ O → ctx_parent C ≠ Some s → sim (g s) (g' s)) as HO.
  { intros s Hs Hpar. apply Hout; [| | |done];
      (rewrite <-Hperm in Hall; apply NoDup_app in Hall as (_ & Hd & _);
       intros Hin; apply (Hd s); [|done]; rewrite !elem_of_app; tauto). }
  apply NoDup_app in Hall as Hall'. destruct Hall' as (Hin & Hdis & HnO).
  assert (NoDup (nodes t' ++ (us' ≫= nodes))) as Hnd'.
  { rewrite app_assoc in Hin. by apply NoDup_app in Hin as [? _]. }
  destruct (Hrep' Hnd') as [Ht' Hus'].
  split.
  - rewrite Forall_cons, Forall_app. split_and!; [|done|].
    + apply rep_plug. split; [|done]. eapply crep_change; [exact Hc| | |exact Hhole].
      * unfold O in HnO. by apply NoDup_app in HnO as [? _].
      * intros s Hs. apply HO. apply elem_of_app. by left.
    + rewrite Forall_forall in *. intros u Hu. apply (rep_sim g); [|by apply Hus].
      intros s Hs. assert (s ∈ us ≫= nodes) as Hsu by (apply list_elem_of_bind; eauto).
      apply HO; [apply elem_of_app; by right|]. intros Hpar.
      unfold O in HnO. apply NoDup_app in HnO as (_ & Hd & _). apply (Hd s); [|done].
      destruct C as [|f C]; [done|]. cbn in *. simplify_eq. set_solver.
  - rewrite bind_cons, nodes_plug, bind_app.
    assert (NoDup ((nodes t' ++ (us' ≫= nodes)) ++ O)) as H.
    { apply NoDup_app. split; [done|]. split; [|done].
      intros s Hs. apply Hdis. rewrite app_assoc. apply elem_of_app. by left. }
    eapply NoDup_Permutation_proper; [|exact H]. unfold O. solve_Permutation.
  - intros s Hs. rewrite bind_cons, nodes_plug, bind_app.
    destruct (decide (s ∈ (nodes t' ++ (us' ≫= nodes) ++ freed) ++ O)) as [Hi|Hi].
    { rewrite !elem_of_app in Hi. destruct Hi as [[Hi|[Hi|Hi]]|Hi].
      - set_solver.
      - set_solver.
      - rewrite (Hfr s Hi) in Hs. by apply is_Some_None in Hs.
      - unfold O in Hi. set_solver. }
    exfalso. apply Hi. rewrite <-Hperm. rewrite <-Hperm in Hi.
    assert (sim (g s) (g' s)) as Hsim.
    { apply Hout; [set_solver..|]. intros Hpar. apply Hi, elem_of_app. right.
      unfold O. apply elem_of_app. left. destruct C as [|f C]; [done|]. cbn in *.
      simplify_eq. set_solver. }
    apply (sim_some _ _ Hsim), Hcov in Hs.
    rewrite bind_cons, nodes_plug, bind_app in Hs. unfold O. set_solver.
Qed.

End PaneRep.
