(* ===== verification/PaneWalks.v ===== *)
(** * The walks over a represented tree

    What each walk of the pane tree computes on an arena that holds a tree, with
    the fuel it is given: the walks up end at the tree's root, [first_leaf] is
    the leaf along the active children, the collections are those of the
    tree's leaves, and freeing a subtree clears exactly its nodes. *)

From stdpp Require Import strings.
From S2P Require Import Prelude Geometry PaneData PaneTree PaneRep.
Import Geometry PaneData PaneTree PaneRep.
Open Scope nat_scope.

Module PaneWalks.

(** ** Reading an updated layout *)

Create Rewrite HintDb layout.

Lemma get_upd l s f s' :
  get (upd l s f) s' = if decide (s = s') then f <$> get l s' else get l s'.
Proof.
  unfold upd. destruct (get l s) as [p|] eqn:Hs; unfold get in *; cbn.
  - destruct (decide (s = s')) as [<-|Hn].
    + rewrite Hs. destruct (panes l !! s) eqn:Hl; [|done].
      rewrite list_lookup_insert_eq; [done|]. by eapply lookup_lt_Some.
    + by rewrite list_lookup_insert_ne.
  - by destruct (decide (s = s')) as [<-|Hn]; [rewrite Hs|].
Qed.
Lemma get_upd_eq l s f p : get l s = Some p → get (upd l s f) s = Some (f p).
Proof. intros H. rewrite get_upd, decide_True by done. by rewrite H. Qed.
Lemma get_upd_ne l s f s' : s ≠ s' → get (upd l s f) s' = get l s'.
Proof. intros H. by rewrite get_upd, decide_False. Qed.

(** Two layouts that differ only in their panes, over arenas of one length. *)
Definition panes_only (l l' : Layout) : Prop :=
  l' = set_panes (panes l') l ∧ length (panes l') = length (panes l).

Lemma panes_only_refl l : panes_only l l.
Proof. split; [|done]. by destruct l. Qed.
Lemma panes_only_trans l1 l2 l3 : panes_only l1 l2 → panes_only l2 l3 → panes_only l1 l3.
Proof.
  intros [H1 L1] [H2 L2]. split; [|congruence]. rewrite H2 at 1. rewrite H1. done.
Qed.
Lemma panes_only_upd l s f : panes_only l (upd l s f).
Proof.
  unfold upd. destruct (get l s); [|apply panes_only_refl].
  split; [done|]. cbn. apply length_insert.
Qed.
Lemma panes_only_fields l l' : panes_only l l' →
  workspaces l' = workspaces l ∧ active l' = active l ∧ focused l' = focused l ∧
  id_seq l' = id_seq l ∧ epoch l' = epoch l ∧ zoomed_id l' = zoomed_id l ∧
  metrics l' = metrics l ∧ profile l' = profile l ∧ area l' = area l.
Proof. intros [-> _]. done. Qed.

Lemma upd_unwrap_ok l s f p : get l s = Some p → upd_unwrap l s f = Done (upd l s f).
Proof. intros H. unfold upd_unwrap. by rewrite H. Qed.

Lemma get_lt l s p : get l s = Some p → s < length (panes l).
Proof. unfold get. destruct (panes l !! s) eqn:H; [|done]. intros _. by eapply lookup_lt_Some. Qed.

(** [l'] is [l] with the slots [ns] cleared. *)
Definition frees (l l' : Layout) (ns : list nat) : Prop :=
  panes_only l l' ∧ ∀ s, get l' s = if decide (s ∈ ns) then None else get l s.

Lemma clear_slot_ok l s p : get l s = Some p →
  ∃ l', clear_slot l s = Done l' ∧ frees l l' [s].
Proof.
  intros Hp. pose proof (get_lt l s p Hp) as Hlt. unfold clear_slot.
  rewrite (proj2 (Nat.ltb_lt _ _)) by done. eexists. split; [done|]. split.
  - split; [done|]. cbn. apply length_insert.
  - intros s'. unfold get. cbn. destruct (decide (s' ∈ [s])) as [->%list_elem_of_singleton|Hn].
    + by rewrite list_lookup_insert_eq.
    + rewrite list_lookup_insert_ne; [done|]. set_solver.
Qed.

Lemma frees_trans l1 l2 l3 ns ms : frees l1 l2 ns → frees l2 l3 ms → frees l1 l3 (ns ++ ms).
Proof.
  intros [P1 G1] [P2 G2]. split; [by eapply panes_only_trans|].
  intros s. rewrite G2, G1. repeat case_decide; set_solver.
Qed.

(** ** Positions *)

Lemma position_mid s (ls rs : list nat) : s ∉ ls →
  position (Nat.eqb s) (ls ++ s :: rs) = Some (length ls).
Proof.
  induction ls as [|x ls IH]; cbn; [by rewrite Nat.eqb_refl|].
  intros Hs. rewrite (proj2 (Nat.eqb_neq s x)) by set_solver. rewrite IH; [done|set_solver].
Qed.

(** ** Sizes *)

Section Heap.
Context (l : Layout) (us : list ptree) (Hheap : trees (get l) us).

Lemma heap_size : length (us ≫= nodes) ≤ length (panes l).
Proof using Hheap.
  destruct Hheap as [H1 H2].
  rewrite <-(length_seq (length (panes l)) 0).
  apply submseteq_length, NoDup_submseteq; [done|].
  intros s Hs. apply list_elem_of_bind in Hs as (u & Hs & Hu).
  rewrite Forall_forall in H1. destruct (rep_live _ _ _ _ (H1 u Hu) Hs) as [p Hp].
  apply elem_of_seq. apply get_lt in Hp. lia.
Qed.

Lemma tree_size T : T ∈ us → length (nodes T) ≤ length (panes l).
Proof using Hheap.
  intros HT. pose proof heap_size.
  apply list_elem_of_split in HT as (u1 & u2 & Hus). rewrite Hus in *.
  rewrite bind_app, bind_cons, !length_app in *. lia.
Qed.
Lemma plug_size C t : plug C t ∈ us → length C + length (nodes t) ≤ length (panes l).
Proof using Hheap.
  intros HT%tree_size. rewrite nodes_plug, length_app in HT.
  pose proof (ctx_depth C). lia.
Qed.
Lemma heap_tree T : T ∈ us → rep (get l) None T ∧ NoDup (nodes T).
Proof using Hheap.
  destruct Hheap as [H1 H2]. intros HT. rewrite Forall_forall in H1. split; [by apply H1|].
  apply list_elem_of_split in HT as (u1 & u2 & ->).
  rewrite bind_app, bind_cons in H2. apply NoDup_app in H2 as (_ & _ & H2).
  by apply NoDup_app in H2 as [? _].
Qed.
End Heap.

(** A live slot stands at a hole of one of the trees. *)
Lemma heap_find l us s p : heap (get l) us → get l s = Some p →
  ∃ i C t, us !! i = Some (plug C t) ∧ root_of t = s.
Proof.
  intros [_ _ H3] Hp.
  apply mk_is_Some, H3, list_elem_of_bind in Hp as (T & Hs & HT).
  apply find_ctx in Hs as (C & t & -> & Hr). apply list_elem_of_lookup_1 in HT as [i Hi]. eauto.
Qed.

(** ** Walks up *)

Lemma top_of_walk l C t fuel : rep (get l) None (plug C t) → length C < fuel →
  top_of_f fuel l (root_of t) = Done (root_of (plug C t)).
Proof.
  revert t fuel. induction C as [|f C IH]; intros t [|fuel] H Hf; cbn in Hf; try lia; cbn [top_of_f].
  - apply rep_par in H as (p & Hp & Hpar). cbn in Hp. by rewrite Hp; cbn; rewrite Hpar.
  - pose proof (proj1 (rep_plug _ _ _) H) as [_ Hr]. apply rep_par in Hr as (p & Hp & Hpar).
    rewrite Hp. cbn. rewrite Hpar. cbn. apply (IH (fill f t)); [done|lia].
Qed.

Lemma active_walk_true l C t fuel r : root l = Done r → rep (get l) None (plug C t) →
  root_of (plug C t) = r → length C < fuel → in_active_root_f fuel l (root_of t) = Done true.
Proof.
  intros Hroot. revert t fuel.
  induction C as [|f C IH]; intros t [|fuel] H Hr Hf; cbn in Hf; try lia;
    cbn [in_active_root_f]; rewrite Hroot; obind.
  - cbn in Hr. by rewrite Hr, Nat.eqb_refl.
  - destruct (root_of t =? r); [done|].
    pose proof (proj1 (rep_plug _ _ _) H) as [_ Hp]. apply rep_par in Hp as (p & Hp & Hpar).
    rewrite Hp. cbn. rewrite Hpar. cbn. apply (IH (fill f t)); [done|done|lia].
Qed.

Lemma active_walk_false l C t fuel r : root l = Done r → rep (get l) None (plug C t) →
  r ∉ nodes (plug C t) → length C < fuel → in_active_root_f fuel l (root_of t) = Done false.
Proof.
  intros Hroot. revert t fuel.
  induction C as [|f C IH]; intros t [|fuel] H Hr Hf; cbn in Hf; try lia;
    cbn [in_active_root_f]; rewrite Hroot; obind.
  - cbn in Hr. rewrite (proj2 (Nat.eqb_neq _ _)) by (intros <-; by apply Hr, nodes_root).
    apply rep_par in H as (p & Hp & Hpar). cbn in Hp. by rewrite Hp; cbn; rewrite Hpar.
  - rewrite (proj2 (Nat.eqb_neq _ _)).
    2:{ intros <-. apply Hr. change (plug (f :: C) t) with (plug C (fill f t)).
        rewrite nodes_plug. unfold fill. cbn. rewrite bind_app, bind_cons.
        pose proof (nodes_root t). set_solver. }
    pose proof (proj1 (rep_plug _ _ _) H) as [_ Hp]. apply rep_par in Hp as (p & Hp & Hpar).
    rewrite Hp. cbn. rewrite Hpar. cbn. apply (IH (fill f t)); [done|done|lia].
Qed.

(** ** Walks down *)

Lemma child_size t ts s fuel : t ∈ ts → length (nodes (TNode s ts)) ≤ S fuel →
  length (nodes t) ≤ fuel.
Proof.
  intros Ht. apply list_elem_of_split in Ht as (l1 & l2 & ->).
  cbn. rewrite bind_app, bind_cons, !length_app. lia.
Qed.

Lemma leaf_order_head cs a c : cs !! a = Some c → ∃ rest, leaf_order cs a = c :: rest.
Proof.
  intros H. unfold leaf_order. rewrite H.
  assert (∀ xs acc, ∃ rest, fold_left (λ (order : list nat) (c0 : nat),
    if decide (c0 ∈ order) then order else order ++ [c0]) xs (c :: acc) = c :: rest) as Hg;
    [|by apply Hg].
  clear H. induction xs as [|x xs IH]; intros acc; cbn [fold_left]; [eauto|].
  case_decide; [apply IH|]. apply (IH (acc ++ [x])).
Qed.

(** [s] is the leaf reached from [t] along the active children. *)
Inductive follows (g : nat → option Pane) : ptree → nat → Prop :=
  | follows_leaf s : follows g (TLeaf s) s
  | follows_node s p m a cs ts t s' : g s = Some p → kind p = Container m cs a →
      ts !! a = Some t → follows g t s' → follows g (TNode s ts) s'.

Lemma follows_in g t s : follows g t s → s ∈ leaves t.
Proof.
  induction 1 as [|s p m a cs ts t s' _ _ Ht _ IH]; [set_solver|].
  cbn. apply list_elem_of_bind. exists t. split; [done|]. by eapply list_elem_of_lookup_2.
Qed.

Lemma first_leaf_walk l t par fuel : rep (get l) par t → length (nodes t) ≤ fuel →
  ∃ s, first_leaf_f fuel l (root_of t) = Done (Some s) ∧ follows (get l) t s.
Proof.
  revert par fuel. induction t as [s|s ts IH] using ptree_rect'; intros par [|fuel] H Hf;
    try (cbn in Hf; lia); cbn [first_leaf_f root_of].
  - inversion H as [? ? p sf Hg Hp Hk|]; subst. rewrite Hg. cbn. rewrite Hk.
    exists s. split; [done|constructor].
  - inversion H as [|? ? p m a ? Hg Hp Hk Ha Hts]; subst. rewrite Hg. cbn. rewrite Hk.
    destruct (lookup_lt_is_Some_2 ts a Ha) as [t Ht].
    destruct (leaf_order_head (roots ts) a (root_of t)) as [rest ->].
    { by rewrite list_lookup_fmap, Ht. }
    cbn [find_mapM]. assert (t ∈ ts) as Hin by by eapply list_elem_of_lookup_2.
    rewrite Forall_forall in IH, Hts.
    destruct (IH t Hin (Some s) fuel (Hts t Hin)) as (s' & -> & Hs').
    { by eapply child_size. }
    cbn. exists s'. split; [done|]. by econstructor.
Qed.

(** The surfaces and the leaves of a subtree. *)
Definition bg_leaf (l : Layout) (s : nat) : bool := from_option backgrounded false (get l s).
Definition hosted_of (l : Layout) (s : nat) : option (nat * nat) :=
  (λ n, (s, n)) <$> leaf_surface l s.
Definition reserved_slot (l : Layout) (s : nat) : bool :=
  from_option (λ p, bool_decide (is_Some (claim_token p)) || negb (creator_conn p =? 0)%Z)
    false (get l s).

Lemma collect_surfaces_walk l t par fuel out : rep (get l) par t → length (nodes t) ≤ fuel →
  collect_surfaces_f fuel l out (root_of t) = Done (out ++ omap (leaf_surface l) (leaves t)).
Proof.
  revert par fuel out. induction t as [s|s ts IH] using ptree_rect'; intros par [|fuel] out H Hf;
    try (cbn in Hf; lia); cbn [collect_surfaces_f root_of].
  - inversion H as [? ? p sf Hg Hp Hk|]; subst. cbn. unfold leaf_surface. rewrite Hg. cbn.
    rewrite Hk. destruct sf; [done|]. by rewrite app_nil_r.
  - inversion H as [|? ? p m a ? Hg Hp Hk Ha Hts]; subst. rewrite Hg. cbn. rewrite Hk.
    assert (∀ t, t ∈ ts → length (nodes t) ≤ fuel) as Hsz by (intros; by eapply child_size).
    clear H Hk Ha Hf. revert out. induction ts as [|t ts IHts]; intros out; cbn.
    { by rewrite app_nil_r. }
    apply Forall_cons in IH as [IHt IH], Hts as [Ht Hts].
    rewrite (IHt (Some s) fuel out) by (done || apply Hsz; set_solver).
    cbn. rewrite IHts by (done || intros; apply Hsz; set_solver).
    rewrite omap_app, app_assoc. done.
Qed.

Lemma collect_hosted_walk l t par fuel out : rep (get l) par t → length (nodes t) ≤ fuel →
  collect_hosted_f fuel l out (root_of t) = Done (out ++ omap (hosted_of l) (leaves t)).
Proof.
  revert par fuel out. induction t as [s|s ts IH] using ptree_rect'; intros par [|fuel] out H Hf;
    try (cbn in Hf; lia); cbn [collect_hosted_f root_of].
  - inversion H as [? ? p sf Hg Hp Hk|]; subst. cbn. unfold hosted_of, leaf_surface. rewrite Hg. cbn.
    rewrite Hk. destruct sf; [done|]. cbn. by rewrite app_nil_r.
  - inversion H as [|? ? p m a ? Hg Hp Hk Ha Hts]; subst. rewrite Hg. cbn. rewrite Hk.
    assert (∀ t, t ∈ ts → length (nodes t) ≤ fuel) as Hsz by (intros; by eapply child_size).
    clear H Hk Ha Hf. revert out. induction ts as [|t ts IHts]; intros out; cbn.
    { by rewrite app_nil_r. }
    apply Forall_cons in IH as [IHt IH], Hts as [Ht Hts].
    rewrite (IHt (Some s) fuel out) by (done || apply Hsz; set_solver).
    cbn. rewrite IHts by (done || intros; apply Hsz; set_solver).
    rewrite omap_app, app_assoc. done.
Qed.

Lemma anyM_map {A} (f : A → outcome bool) (b : A → bool) xs :
  (∀ x, x ∈ xs → f x = Done (b x)) → anyM f xs = Done (existsb b xs).
Proof.
  induction xs as [|x xs IH]; intros H; [done|]. cbn.
  rewrite H by set_solver. cbn. destruct (b x); [done|]. apply IH. set_solver.
Qed.
Lemma allM_map {A} (f : A → outcome bool) (b : A → bool) xs :
  (∀ x, x ∈ xs → f x = Done (b x)) → allM f xs = Done (forallb b xs).
Proof.
  induction xs as [|x xs IH]; intros H; [done|]. cbn.
  rewrite H by set_solver. cbn. destruct (b x); [|done]. apply IH. set_solver.
Qed.
Lemma filterM_map {A} (f : A → outcome bool) (b : A → bool) xs :
  (∀ x, x ∈ xs → f x = Done (b x)) → filterM f xs = Done (filter (λ x, b x = true) xs).
Proof.
  induction xs as [|x xs IH]; intros H; [done|]. cbn [filterM].
  rewrite H by set_solver. obind. rewrite IH by set_solver.
  obind. destruct (b x) eqn:Hb.
  - by rewrite filter_cons_True.
  - by rewrite filter_cons_False by congruence.
Qed.
Lemma existsb_bind {A} (b : nat → bool) (f : A → list nat) xs :
  existsb (λ x, existsb b (f x)) xs = existsb b (xs ≫= f).
Proof.
  induction xs as [|x xs IH]; [done|]. rewrite bind_cons, existsb_app, <-IH. done.
Qed.
Lemma forallb_bind {A} (b : nat → bool) (f : A → list nat) xs :
  forallb (λ x, forallb b (f x)) xs = forallb b (xs ≫= f).
Proof.
  induction xs as [|x xs IH]; [done|]. rewrite bind_cons, forallb_app, <-IH. done.
Qed.

(** A predicate of a tree, read off its root by a function of the slots. *)
Lemma anyM_roots (f : nat → outcome bool) (b : ptree → bool) ts :
  (∀ t, t ∈ ts → f (root_of t) = Done (b t)) → anyM f (roots ts) = Done (existsb b ts).
Proof.
  induction ts as [|t ts IH]; intros H; [done|]. cbn.
  rewrite H by set_solver. cbn. destruct (b t); [done|]. apply IH. set_solver.
Qed.
Lemma allM_roots (f : nat → outcome bool) (b : ptree → bool) ts :
  (∀ t, t ∈ ts → f (root_of t) = Done (b t)) → allM f (roots ts) = Done (forallb b ts).
Proof.
  induction ts as [|t ts IH]; intros H; [done|]. cbn.
  rewrite H by set_solver. cbn. destruct (b t); [|done]. apply IH. set_solver.
Qed.

Lemma reserved_walk l t par fuel : rep (get l) par t → length (nodes t) ≤ fuel →
  subtree_reserved_f fuel l (root_of t) = Done (existsb (reserved_slot l) (nodes t)).
Proof.
  revert par fuel. induction t as [s|s ts IH] using ptree_rect'; intros par [|fuel] H Hf;
    try (cbn in Hf; lia); cbn [subtree_reserved_f root_of].
  - inversion H as [? ? p sf Hg Hp Hk|]; subst. cbn. unfold reserved_slot at 1, kids_of.
    rewrite Hg. cbn. rewrite Hk. rewrite orb_false_r. by destruct (_ || _).
  - inversion H as [|? ? p m a ? Hg Hp Hk Ha Hts]; subst. cbn [nodes existsb].
    unfold reserved_slot at 1, kids_of. rewrite Hg. cbn [from_option fmap option_fmap option_map].
    rewrite Hk. destruct (_ || negb _) eqn:Hres; [done|]. cbn [orb].
    rewrite (anyM_roots _ (λ t, existsb (reserved_slot l) (nodes t))).
    + by rewrite existsb_bind.
    + intros t Ht. rewrite Forall_forall in IH, Hts.
      apply (IH t Ht (Some s)); [by apply Hts|]. by eapply child_size.
Qed.

Lemma bg_walk l t par fuel : rep (get l) par t → length (nodes t) ≤ fuel →
  is_bg_subtree_f fuel l (root_of t) = Done (forallb (bg_leaf l) (leaves t)).
Proof.
  revert par fuel. induction t as [s|s ts IH] using ptree_rect'; intros par [|fuel] H Hf;
    try (cbn in Hf; lia); cbn [is_bg_subtree_f root_of].
  - inversion H as [? ? p sf Hg Hp Hk|]; subst. cbn. unfold bg_leaf. rewrite Hg. cbn.
    rewrite Hk. by rewrite andb_true_r.
  - inversion H as [|? ? p m a ? Hg Hp Hk Ha Hts]; subst. rewrite Hg. cbn. rewrite Hk.
    destruct ts as [|t0 ts0] eqn:Hts0; [cbn in *; lia|]. rewrite <-Hts0 in *.
    rewrite bool_decide_eq_false_2 by (subst; done).
    rewrite (allM_roots _ (λ t, forallb (bg_leaf l) (leaves t))).
    + cbn. by rewrite forallb_bind.
    + intros t Ht. rewrite Forall_forall in IH, Hts.
      apply (IH t Ht (Some s)); [by apply Hts|]. by eapply child_size.
Qed.

Lemma head_app_filter {A} (P : A → Prop) `{∀ x, Decision (P x)} (xs ys : list A) :
  head (filter P (xs ++ ys)) =
  match head (filter P xs) with Some x => Some x | None => head (filter P ys) end.
Proof. rewrite filter_app. by destruct (filter P xs). Qed.

Lemma unbg_walk l t par fuel : rep (get l) par t → length (nodes t) ≤ fuel →
  first_unbackgrounded_leaf_f fuel l (root_of t) =
    Done (head (filter (λ s, bg_leaf l s = false) (leaves t))).
Proof.
  revert par fuel. induction t as [s|s ts IH] using ptree_rect'; intros par [|fuel] H Hf;
    try (cbn in Hf; lia); cbn [first_unbackgrounded_leaf_f root_of].
  - inversion H as [? ? p sf Hg Hp Hk|]; subst. rewrite Hg, Hk. cbn [leaves].
    assert (bg_leaf l s = backgrounded p) as Hb by (unfold bg_leaf; by rewrite Hg).
    destruct (backgrounded p).
    + by rewrite filter_cons_False by congruence.
    + by rewrite filter_cons_True.
  - inversion H as [|? ? p m a ? Hg Hp Hk Ha Hts]; subst. rewrite Hg, Hk. cbn [leaves].
    assert (∀ t, t ∈ ts → length (nodes t) ≤ fuel) as Hsz by (intros; by eapply child_size).
    clear H Hk Ha Hf. induction ts as [|t ts IHts]; [done|].
    apply Forall_cons in IH as [IHt IH], Hts as [Ht Hts].
    rewrite fmap_cons, bind_cons, head_app_filter. cbn [find_mapM].
    rewrite (IHt (Some s) fuel) by (done || apply Hsz; set_solver).
    obind. destruct (head _); [done|].
    apply IHts; [done|done|]. intros; apply Hsz; set_solver.
Qed.

(** ** Freeing *)

Lemma free_subtree_walk fuel l t par : rep (get l) par t → NoDup (nodes t) →
  length (nodes t) ≤ fuel →
  ∃ l', free_subtree_f fuel l (root_of t) = Done l' ∧ frees l l' (nodes t).
Proof.
  revert l par fuel. induction t as [s|s ts IH] using ptree_rect'; intros l par [|fuel] H Hnd Hf;
    try (cbn in Hf; lia); cbn [free_subtree_f root_of].
  - inversion H as [? ? p sf Hg Hp Hk|]; subst. unfold kids_of. rewrite Hg. cbn. rewrite Hk. cbn.
    by apply clear_slot_ok with p.
  - inversion H as [|? ? p m a ? Hg Hp Hk Ha Hts]; subst. unfold kids_of. rewrite Hg.
    cbn [fmap option_fmap option_map]. rewrite Hk.
    assert (∀ t, t ∈ ts → length (nodes t) ≤ fuel) as Hsz by (intros; by eapply child_size).
    cbn in Hnd. apply NoDup_cons in Hnd as [Hs Hnd].
    assert (∃ l', foldM (free_subtree_f fuel) l (roots ts) = Done l' ∧
      frees l l' (ts ≫= nodes)) as (l' & -> & Hfr).
    { clear H Hk Ha Hf Hg Hs. revert l Hts. induction ts as [|t ts IHts]; intros l Hts.
      - exists l. split; [done|]. split; [apply panes_only_refl|]. intros s'.
        rewrite decide_False by (cbn; set_solver). done.
      - apply Forall_cons in IH as [IHt IH], Hts as [Ht Hts].
        rewrite bind_cons in Hnd. apply NoDup_app in Hnd as (Hn1 & Hd & Hn2).
        rewrite fmap_cons. cbn [foldM].
        destruct (IHt l (Some s) fuel Ht Hn1) as (l1 & -> & Hf1); [apply Hsz; set_solver|].
        obind.
        destruct (IHts IH Hn2) with (l := l1) as (l2 & -> & Hf2).
        + intros; apply Hsz; set_solver.
        + rewrite Forall_forall in *. intros u Hu. apply (rep_agree (get l)); [|by apply Hts].
          intros x Hx. rewrite (proj2 Hf1), decide_False; [done|]. intros Hx'.
          apply (Hd x Hx'). apply list_elem_of_bind. eauto.
        + exists l2. split; [done|]. rewrite bind_cons. by eapply frees_trans. }
    obind.
    destruct (clear_slot_ok l' s p) as (l'' & -> & Hfr').
    { rewrite (proj2 Hfr), decide_False by done. done. }
    exists l''. split; [done|]. destruct (frees_trans _ _ _ _ _ Hfr Hfr') as [P G].
    split; [done|]. intros s'. rewrite G. cbn [nodes].
    repeat case_decide; set_solver.
Qed.

Lemma frees_agree l l' ns s : frees l l' ns → s ∉ ns → get l' s = get l s.
Proof. intros [_ H] Hs. by rewrite H, decide_False. Qed.
Lemma frees_gone l l' ns s : frees l l' ns → s ∈ ns → get l' s = None.
Proof. intros [_ H] Hs. by rewrite H, decide_True. Qed.

(** Freeing several trees in turn: the fuel of each is the arena's. *)
Lemma free_all l par ts : Forall (rep (get l) par) ts → NoDup (ts ≫= nodes) →
  length (ts ≫= nodes) ≤ length (panes l) →
  ∃ l', foldM free_subtree l (roots ts) = Done l' ∧ frees l l' (ts ≫= nodes).
Proof.
  revert l. induction ts as [|t ts IH]; intros l Hts Hnd Hlen.
  - exists l. split; [done|]. split; [apply panes_only_refl|]. intros s'.
    rewrite decide_False by (cbn; set_solver). done.
  - apply Forall_cons in Hts as [Ht Hts]. rewrite bind_cons, ?length_app in *.
    apply NoDup_app in Hnd as (Hn1 & Hd & Hn2). rewrite fmap_cons. cbn [foldM].
    unfold free_subtree at 2.
    destruct (free_subtree_walk (tree_fuel l) l t par Ht Hn1) as (l1 & -> & Hf1);
      [unfold tree_fuel; lia|]. obind.
    destruct (IH l1) as (l2 & -> & Hf2); [|done| |].
    + rewrite Forall_forall in *. intros u Hu. apply (rep_agree (get l)); [|by apply Hts].
      intros x Hx. eapply frees_agree; [done|]. intros Hx'.
      apply (Hd x Hx'). apply list_elem_of_bind. eauto.
    + destruct Hf1 as [[_ ->] _]. lia.
    + exists l2. split; [done|]. by eapply frees_trans.
Qed.

End PaneWalks.
