(* ===== verification/PaneInv.v ===== *)
(** * The invariant of the pane tree

    [inv l ts]: the arena of [l] holds exactly the trees [ts], one per workspace
    and in its order; every container has at least two children and an active
    child; the workspace numbers ascend within 1..9; focus is on a leaf of the
    active workspace's tree; the pane ids are distinct and never above the
    counter; every weight is a share.  The lemmas here are those every operation
    shares: allocation, updates that keep the shape, the surgery of one tree of
    the list, and the test for the active tree. *)

From stdpp Require Import strings sorting.
From S2P Require Import Prelude Geometry GeometryProofs PaneData PaneTree PaneRep PaneWalks.
Import Geometry GeometryProofs PaneData PaneTree PaneRep PaneWalks.
Open Scope nat_scope.

Module PaneInv.

(** Everything but the arena and the id counter. *)
Definition meta (l : Layout) :=
  (workspaces l, active l, focused l, epoch l, zoomed_id l, metrics l, profile l, area l).

(** The facts of one pane, and of pairs of panes. *)
Record local_ok (l : Layout) : Prop := mkLocal {
  lo_id s p : get l s = Some p → (0 < pid p ≤ id_seq l)%Z;
  lo_weight s p : get l s = Some p → (1 ≤ weight p ≤ u_max 16)%Z;
  lo_rect s p : get l s = Some p → rect_ok (rect p);
  lo_inj s s' p p' : get l s = Some p → get l s' = Some p' → pid p = pid p' → s = s';
  lo_seq : (0 ≤ id_seq l ≤ u_max 32)%Z;
  lo_len : length (panes l) ≤ MAX_PANES }.

Definition numbers_ok (ws : list Workspace) : Prop :=
  StronglySorted Z.lt (number <$> ws) ∧ Forall (λ w, (1 ≤ number w ≤ 9)%Z) ws.

(** The shape: trees, roots and workspace numbers. *)
Record shape (l : Layout) (ts : list ptree) : Prop := mkShape {
  sh_heap : heap (get l) ts;
  sh_roots : ws_root <$> workspaces l = root_of <$> ts;
  sh_wide : Forall wide ts;
  sh_nums : numbers_ok (workspaces l);
  sh_active : active l < length ts }.

(** The shape but for the cover and the widths: other slots may be live, and a
    container may be down to one child. *)
Record skel (l : Layout) (ts : list ptree) : Prop := mkSkel {
  sk_trees : trees (get l) ts;
  sk_roots : ws_root <$> workspaces l = root_of <$> ts;
  sk_nums : numbers_ok (workspaces l);
  sk_active : active l < length ts }.

(** The display the layout was last carved for is one of the coordinate range,
    and its metrics are lengths of a display. *)
Definition length_ok (v : Z) : Prop := (0 ≤ v < 2 ^ 15)%Z.
Definition metrics_ok (m : Metrics) : Prop :=
  length_ok (bevel m) ∧ length_ok (hairline m) ∧ length_ok (header_h m) ∧
  length_ok (tab_strip_h m) ∧ length_ok (outer_pad m) ∧ length_ok (track m) ∧
  length_ok (frame m) ∧ length_ok (min_pane_w m) ∧ length_ok (min_body_h m).
Definition env_ok (l : Layout) : Prop := metrics_ok (metrics l) ∧ rect_ok (area l).

Record inv (l : Layout) (ts : list ptree) : Prop := mkInv {
  inv_shape : shape l ts;
  inv_local : local_ok l;
  inv_focus : ∃ T, ts !! active l = Some T ∧ focused l ∈ leaves T;
  inv_epoch : (0 ≤ epoch l)%Z;
  inv_env : env_ok l }.

(** Room for the epoch to move. *)
Definition headroom (l : Layout) : Prop := (epoch l + 128 ≤ u_max 64)%Z.

(** [l'] is at most [k] epochs after [l]. *)
Definition later (k : Z) (l l' : Layout) : Prop := (epoch l ≤ epoch l' ≤ epoch l + k)%Z.

Lemma shape_skel l ts : shape l ts → skel l ts.
Proof. intros [H1 H2 H3 H4 H5]. split; try done. by apply heap_trees. Qed.
Lemma shape_trees l ts : shape l ts → trees (get l) ts.
Proof. intros H. apply heap_trees, H. Qed.

(** ** Epochs and fields *)

Lemma bump_ok l : (epoch l < u_max 64)%Z → bump l = Done (set_epoch (epoch l + 1)%Z l).
Proof. intros H. unfold bump. by rewrite uadd_ok by lia. Qed.

Lemma panes_only_meta l l' : panes_only l l' → meta l' = meta l.
Proof. intros [-> _]. done. Qed.
Lemma meta_upd l s f : meta (upd l s f) = meta l.
Proof. apply panes_only_meta, panes_only_upd. Qed.
Lemma id_seq_upd l s f : id_seq (upd l s f) = id_seq l.
Proof. by apply panes_only_fields, panes_only_upd. Qed.
Lemma length_upd l s f : length (panes (upd l s f)) = length (panes l).
Proof. apply panes_only_upd. Qed.
#[export] Hint Rewrite meta_upd id_seq_upd length_upd : layout.

Ltac meta_inv H := unfold meta in H; injection H as ? ? ? ? ? ? ? ?.

Lemma with_kids_ok l s f p m cs a cs' a' :
  get l s = Some p → kind p = Container m cs a → f m cs a = Done (cs', a') →
  with_kids l s f = Done (upd l s (set_kind (Container m cs' a'))).
Proof. intros Hg Hk Hf. unfold with_kids. rewrite Hg. cbn. rewrite Hk, Hf. done. Qed.

(** ** Local facts *)

Lemma local_ext l l' : local_ok l → id_seq l' = id_seq l → length (panes l') ≤ MAX_PANES →
  (∀ s p', get l' s = Some p' → ∃ p, get l s = Some p ∧ pid p' = pid p ∧
     (1 ≤ weight p' ≤ u_max 16)%Z ∧ rect_ok (rect p')) →
  local_ok l'.
Proof.
  intros [H1 H2 H2' H3 H4 H5] Hs Hl Hg. split.
  - intros s p' H. destruct (Hg s p' H) as (p & Hp & -> & _). rewrite Hs. by eapply H1.
  - intros s p' H. by destruct (Hg s p' H) as (p & Hp & _ & ? & _).
  - intros s p' H. by destruct (Hg s p' H) as (p & Hp & _ & _ & ?).
  - intros s s' p p' G G' Hid. destruct (Hg _ _ G) as (q & Hq & Hi & _), (Hg _ _ G') as (q' & Hq' & Hi' & _).
    eapply H3; [exact Hq|exact Hq'|congruence].
  - by rewrite Hs.
  - done.
Qed.

Lemma local_upd l s f :
  local_ok l → (∀ p, get l s = Some p → pid (f p) = pid p ∧ (1 ≤ weight (f p) ≤ u_max 16)%Z ∧
    rect_ok (rect (f p))) →
  local_ok (upd l s f).
Proof.
  intros H Hf. eapply local_ext; [done|apply id_seq_upd|rewrite length_upd; apply H|].
  intros s' p'. rewrite get_upd. case_decide as Hd; [subst s'|].
  - destruct (get l s) as [p|] eqn:Hp; [|done]. cbn. intros [= <-]. exists p.
    split; [done|]. by apply Hf.
  - intros Hp. exists p'. split; [done|]. split; [done|].
    split; [by eapply lo_weight|by eapply lo_rect].
Qed.
(** The common case: neither the id, the weight nor the rectangle changes. *)
Lemma local_upd_keep l s f :
  local_ok l → (∀ p, pid (f p) = pid p ∧ weight (f p) = weight p ∧ rect (f p) = rect p) →
  local_ok (upd l s f).
Proof.
  intros H Hf. apply local_upd; [done|]. intros p Hp. destruct (Hf p) as (-> & -> & ->).
  split; [done|]. split; [by eapply lo_weight|by eapply lo_rect].
Qed.
(** A weight assigned. *)
Lemma local_upd_weight l s w :
  local_ok l → (1 ≤ w ≤ u_max 16)%Z → local_ok (upd l s (set_weight w)).
Proof. intros H Hw. apply local_upd; [done|]. intros p Hp. split; [done|]. split; [done|]. exact (lo_rect l H s p Hp). Qed.

Lemma local_frees l l' ns : local_ok l → frees l l' ns → local_ok l'.
Proof.
  intros H [[E L] G]. eapply local_ext; [done|by rewrite E|rewrite L; apply H|].
  intros s p'. rewrite G. case_decide; [done|]. intros Hp. exists p'.
  split; [done|]. split; [done|]. split; [by eapply lo_weight|by eapply lo_rect].
Qed.
Lemma local_meta l l' : local_ok l → panes l' = panes l → id_seq l' = id_seq l → local_ok l'.
Proof.
  intros H Hp Hs. assert (∀ s, get l' s = get l s) as Hg by (intros; unfold get; by rewrite Hp).
  eapply local_ext; [done|done|rewrite Hp; apply H|]. intros s p'. rewrite Hg.
  intros G. exists p'. split; [done|]. split; [done|]. split; [by eapply lo_weight|by eapply lo_rect].
Qed.

(** ** Allocation *)

Lemma live_full (ps : list (option Pane)) :
  Forall (λ o, bool_decide (o = None) = false) ps → length (filter is_Some ps) = length ps.
Proof.
  induction 1 as [|o ps Ho _ IH]; [done|]. apply bool_decide_eq_false in Ho.
  rewrite filter_cons_True by (by apply not_eq_None_Some). cbn. by rewrite IH.
Qed.

(** [l'] is [l] with a new pane at [s], a slot that was free. *)
Definition allocs (l l' : Layout) (par : option nat) (k : Kind) (s : nat) : Prop :=
  get l s = None ∧ meta l' = meta l ∧ id_seq l' = (id_seq l + 1)%Z ∧
  (∀ s', get l' s' = if decide (s = s') then Some (fresh_pane (id_seq l + 1) par k) else get l s').

Lemma alloc_spec l par k l' s : local_ok l → alloc l par k = Some (l', s) →
  allocs l l' par k s ∧ local_ok l'.
Proof.
  intros H. unfold alloc. destruct (Nat.leb_spec MAX_PANES (live_count l)) as [|Hlive]; [done|].
  unfold checked_add. destruct (Z.leb_spec (id_seq l + 1) (u_max 32)) as [Hid|]; [|done].
  cbn [mbind option_bind].
  assert (allocs l l' par k s → length (panes l') ≤ MAX_PANES → local_ok l') as Hloc.
  { intros (Hn & _ & Hseq & Hg) Hlen. split; [| | | |rewrite Hseq; pose proof (lo_seq l H); lia|done].
    - intros s' p. rewrite Hg, Hseq. case_decide.
      + intros [= <-]. cbn. pose proof (lo_seq l H). lia.
      + intros Hp%(lo_id l H). lia.
    - intros s' p. rewrite Hg. case_decide.
      + intros [= <-]. done.
      + apply (lo_weight l H).
    - intros s' p. rewrite Hg. case_decide.
      + intros [= <-]. apply ZERO_ok.
      + apply (lo_rect l H).
    - intros s1 s2 p1 p2. rewrite !Hg.
      repeat case_decide; intros G1 G2 Hi; [congruence| | |by eapply (lo_inj l H)].
      + injection G1 as <-. apply (lo_id l H) in G2. cbn in Hi. lia.
      + injection G2 as <-. apply (lo_id l H) in G1. cbn in Hi. lia. }
  destruct (position _ _) as [i|] eqn:Hpos; intros [= <- <-].
  - apply position_Some in Hpos as (o & Ho & ->%bool_decide_eq_true).
    change (panes l !! i = Some None) in Ho.
    assert (allocs l (set_panes (<[i:=Some (fresh_pane (id_seq l + 1) par k)]> (panes l))
      (set_id_seq (id_seq l + 1) l)) par k i) as Ha.
    { split; [unfold get; by rewrite Ho|]. split; [done|]. split; [done|].
      intros s'. unfold get. cbn. case_decide as Hd.
      - subst. rewrite list_lookup_insert_eq; [done|]. by eapply lookup_lt_Some.
      - by rewrite list_lookup_insert_ne. }
    split; [done|]. apply Hloc; [done|]. cbn. rewrite length_insert. apply H.
  - apply position_None in Hpos. change (panes (set_id_seq (id_seq l + 1) l)) with (panes l) in *.
    assert (length (panes l) < MAX_PANES) as Hlt.
    { unfold live_count in Hlive. rewrite live_full in Hlive by done. lia. }
    assert (allocs l (set_panes (panes l ++ [Some (fresh_pane (id_seq l + 1) par k)])
      (set_id_seq (id_seq l + 1) l)) par k (length (panes l))) as Ha.
    { split; [unfold get; by rewrite lookup_ge_None_2|]. split; [done|]. split; [done|].
      intros s'. unfold get. cbn. case_decide as Hd.
      - subst. by rewrite list_lookup_middle.
      - destruct (decide (s' < length (panes l))).
        + by rewrite lookup_app_l.
        + rewrite !lookup_ge_None_2; [done|lia|rewrite length_app; cbn; lia]. }
    split; [done|]. apply Hloc; [done|]. cbn. rewrite length_app. cbn. lia.
Qed.

(** ** One tree of the list *)

Lemma perm_delete {A} (ts : list A) i t : ts !! i = Some t → ts ≡ₚ t :: delete i ts.
Proof. intros H. by apply delete_Permutation. Qed.
Lemma delete_insert_eq {A} (ts : list A) i t : delete i (<[i := t]> ts) = delete i ts.
Proof.
  apply list_eq. intros j. rewrite !list_lookup_delete. case_decide.
  - by rewrite list_lookup_insert_ne by lia.
  - by rewrite list_lookup_insert_ne by lia.
Qed.
Lemma perm_insert {A} (ts : list A) i t t' : ts !! i = Some t → <[i := t']> ts ≡ₚ t' :: delete i ts.
Proof.
  intros H. rewrite (perm_delete (<[i := t']> ts) i t').
  - by rewrite delete_insert_eq.
  - apply list_lookup_insert_eq. by eapply lookup_lt_Some.
Qed.

Lemma roots_insert (ts : list ptree) i T T' : ts !! i = Some T → root_of T' = root_of T →
  roots (<[i := T']> ts) = roots ts.
Proof.
  intros H Hr. rewrite list_fmap_insert, Hr. apply list_insert_id. by rewrite list_lookup_fmap, H.
Qed.

Lemma trees_disjoint g ts i j T T' s : trees g ts → ts !! i = Some T → ts !! j = Some T' →
  s ∈ nodes T → s ∈ nodes T' → i = j.
Proof.
  intros [_ Hnd] Hi Hj Hs Hs'. destruct (decide (i = j)) as [|Hn]; [done|]. exfalso.
  rewrite (perm_delete ts i T Hi), bind_cons in Hnd.
  apply NoDup_app in Hnd as (_ & Hd & _). apply (Hd s Hs), list_elem_of_bind.
  exists T'. split; [done|]. destruct (decide (i < j)).
  - apply (list_elem_of_lookup_2 _ (j - 1)). rewrite list_lookup_delete_ge by lia.
    by replace (S (j - 1)) with j by lia.
  - apply (list_elem_of_lookup_2 _ j). by rewrite list_lookup_delete_lt by lia.
Qed.

(** Surgery on the tree at [i], with no tree consumed or left apart. *)
Lemma surgery_at g g' ts i C t t' new freed :
  heap g ts → ts !! i = Some (plug C t) →
  nodes t ++ new ≡ₚ nodes t' ++ freed →
  NoDup new → (∀ s, s ∈ new → g s = None) → (∀ s, s ∈ freed → g' s = None) →
  (∀ s, s ∉ nodes t → s ∉ new → ctx_parent C ≠ Some s → sim (g s) (g' s)) →
  hole_ok g g' C (root_of t') →
  (NoDup (nodes t') → rep g' (ctx_parent C) t') →
  heap g' (<[i := plug C t']> ts).
Proof.
  intros Hh Hi Hperm Hn1 Hn2 Hfr Hout Hhole Hrep.
  rewrite (perm_insert ts i _ (plug C t') Hi). rewrite (perm_delete ts i _ Hi) in Hh.
  eapply (heap_surgery g g' C t t' [] (delete i ts) [] new freed); try done.
  - intros s H1 _ H2. by apply Hout.
  - cbn. rewrite app_nil_r. intros Hnd. split; [by apply Hrep|constructor].
Qed.

(** Nodes of a plugged tree, seen from the heap. *)
Lemma plug_rep l ts i C t : trees (get l) ts → ts !! i = Some (plug C t) →
  crep (get l) C (root_of t) ∧ rep (get l) (ctx_parent C) t ∧
  NoDup (nodes t ++ ctx_nodes C) ∧ length C + length (nodes t) ≤ length (panes l).
Proof.
  intros Hh Hi. assert (plug C t ∈ ts) as Hin by by eapply list_elem_of_lookup_2.
  destruct (heap_tree l ts Hh _ Hin) as [Hr Hnd]. apply rep_plug in Hr as Hr'.
  destruct Hr' as [Hc Ht]. rewrite nodes_plug in Hnd.
  split; [done|]. split; [done|]. split; [done|]. by eapply plug_size.
Qed.

(** The slots of the children of a node are distinct and none is the node. *)
Lemma kids_nodup s ts : NoDup (nodes (TNode s ts)) → NoDup (roots ts) ∧ s ∉ roots ts.
Proof.
  cbn. intros [Hs Hnd]%NoDup_cons. split.
  - clear Hs. induction ts as [|t ts IH]; [constructor|]. rewrite bind_cons in Hnd.
    apply NoDup_app in Hnd as (H1 & Hd & H2). rewrite fmap_cons. constructor; [|by apply IH].
    intros (t' & Heq & Ht')%list_elem_of_fmap. apply (Hd (root_of t)); [apply nodes_root|].
    apply list_elem_of_bind. exists t'. split; [|done]. rewrite Heq. apply nodes_root.
  - intros (t' & -> & Ht')%list_elem_of_fmap. apply Hs, list_elem_of_bind.
    exists t'. split; [apply nodes_root|done].
Qed.

(** ** The active tree *)

Lemma shape_root l ts : skel l ts → ∃ T, ts !! active l = Some T ∧ root l = Done (root_of T).
Proof.
  intros [_ Hr _ Ha]. destruct (lookup_lt_is_Some_2 ts _ Ha) as [T HT]. exists T.
  split; [done|]. unfold root.
  assert ((ws_root <$> workspaces l) !! active l = Some (root_of T)) as H
    by (rewrite Hr, list_lookup_fmap, HT; done).
  rewrite list_lookup_fmap in H. destruct (workspaces l !! active l) as [w|]; [|done].
  cbn in *. congruence.
Qed.

Lemma in_active_spec l ts i C t : skel l ts → ts !! i = Some (plug C t) →
  in_active_root l (root_of t) = Done (bool_decide (i = active l)).
Proof.
  intros Hsh Hi. destruct (shape_root l ts Hsh) as (T & HT & Hroot).
  destruct (plug_rep l ts i C t (sk_trees _ _ Hsh) Hi) as (Hc & Ht & _ & Hsz).
  assert (rep (get l) None (plug C t)) as Hr by by apply rep_plug.
  pose proof (nodes_nonempty t). unfold in_active_root, tree_fuel. case_bool_decide as Hd.
  - subst i. rewrite HT in Hi. simplify_eq. eapply active_walk_true; [done|done|done|lia].
  - eapply active_walk_false; [done|done| |lia]. intros Hin. apply Hd.
    eapply trees_disjoint; [apply Hsh|done|done|exact Hin|apply nodes_root].
Qed.

Lemma first_leaf_spec l ts i C t : trees (get l) ts → ts !! i = Some (plug C t) →
  ∃ s, first_leaf l (root_of t) = Done (Some s) ∧ follows (get l) t s.
Proof.
  intros Hh Hi. destruct (plug_rep l ts i C t Hh Hi) as (_ & Ht & _ & Hsz).
  eapply first_leaf_walk; [done|]. unfold tree_fuel. lia.
Qed.

Lemma bg_spec l ts i C t : trees (get l) ts → ts !! i = Some (plug C t) →
  is_bg_subtree l (root_of t) = Done (forallb (bg_leaf l) (leaves t)).
Proof.
  intros Hh Hi. destruct (plug_rep l ts i C t Hh Hi) as (_ & Ht & _ & Hsz).
  eapply bg_walk; [done|]. unfold tree_fuel. lia.
Qed.

(** The children of a container of the tree, each at its own hole. *)
Lemma kids_at C s ls t rs : plug C (TNode s (ls ++ t :: rs)) = plug (mkFrame s ls rs :: C) t.
Proof. done. Qed.

Lemma divide_list_spec l ts i C s cs : trees (get l) ts → ts !! i = Some (plug C (TNode s cs)) →
  cs ≠ [] → ∃ ds, divide_list l (roots cs) = Done ds ∧ ds ≠ [] ∧ ∀ d, d ∈ ds → d ∈ roots cs.
Proof.
  intros Hh Hi Hne. unfold divide_list.
  assert (∃ b : nat → bool, ∀ c, c ∈ roots cs →
    (b0 ← is_bg_subtree l c; Done (negb b0)) = Done (b c)) as [b Hb].
  { exists (λ c, match is_bg_subtree l c with Done b0 => negb b0 | _ => false end).
    intros c (t & -> & Ht)%list_elem_of_fmap. apply list_elem_of_split in Ht as (ls & rs & ->).
    rewrite kids_at in Hi. by rewrite (bg_spec l ts i _ t Hh Hi). }
  rewrite (filterM_map _ b) by done. obind.
  eexists. split; [done|]. destruct (filter _ _) as [|d ds] eqn:Hf.
  - split; [by destruct cs|done].
  - split; [done|]. intros x. rewrite <-Hf. by intros [_ ?]%list_elem_of_filter.
Qed.

Lemma sibling_mean_spec l ts i C s p m a cs : trees (get l) ts →
  ts !! i = Some (plug C (TNode s cs)) → get l s = Some p → kind p = Container m (roots cs) a →
  cs ≠ [] → ∃ w, sibling_mean l s = Done w ∧ (1 ≤ w ≤ u_max 16)%Z.
Proof.
  intros Hh Hi Hg Hk Hne. unfold sibling_mean, kids_of. rewrite Hg.
  cbn [fmap option_fmap option_map]. rewrite Hk.
  destruct (divide_list_spec l ts i C s cs Hh Hi Hne) as (ds & Hds & Hdne & _).
  destruct (roots cs) as [|r rs] eqn:Hr; [by destruct cs|].
  cbn beta iota. rewrite Hds. obind.
  rewrite (proj2 (Z.eqb_neq _ _)) by (destruct ds; [done|cbn; lia]).
  eexists. split; [done|]. unfold u_max. lia.
Qed.

(** ** Faces *)

(** What a client knows of a leaf: its id and the surface it hosts. *)
Definition face (l : Layout) (s : nat) : option (Z * option nat) :=
  match get l s with
  | Some p => match kind p with Leaf sf => Some (pid p, sf) | Container _ _ _ => None end
  | None => None
  end.

Lemma face_upd l s f : (∀ p, get l s = Some p → pid (f p) = pid p ∧ kind (f p) = kind p) →
  ∀ s', face (upd l s f) s' = face l s'.
Proof.
  intros Hf s'. unfold face. rewrite get_upd. case_decide as Hd; [subst s'|done].
  destruct (get l s) as [p|] eqn:Hp; [|done]. cbn. by destruct (Hf p eq_refl) as [-> ->].
Qed.
Lemma face_get l l' s : get l' s = get l s → face l' s = face l s.
Proof. unfold face. by intros ->. Qed.
Lemma face_container l s p m cs a : get l s = Some p → kind p = Container m cs a → face l s = None.
Proof. unfold face. by intros -> ->. Qed.

End PaneInv.
