(* ===== verification/PaneSplit.v ===== *)
(** * Splitting and hosting keep the invariant

    A split refines an insertion in the abstract tree: a sibling after the target
    when its parent already has the mode, else a container of the target and the
    new leaf at the target's place.  Hosting fills the focused empty leaf or
    splits beside it. *)

From stdpp Require Import strings sorting.
From S2P Require Import Prelude Geometry GeometryProofs Carve PaneData PaneTree PaneRep PaneWalks.
From S2P Require Import PaneInv.
Import Geometry GeometryProofs PaneData PaneTree PaneRep PaneWalks PaneInv.
Open Scope nat_scope.

Module PaneSplit.

(** The insertion of a split of [t'], standing at [C'], with new slots [c] and [n]. *)
Definition mode_of (l : Layout) (s : nat) : option Mode :=
  match kind <$> get l s with Some (Container m _ _) => Some m | _ => None end.
Definition split_tree (l : Layout) (C : ctx) (t : ptree) (mode : Mode) (c n : nat) : ptree :=
  match C with
  | f :: C' =>
      if decide (mode_of l (fr_slot f) = Some mode)
      then plug C' (TNode (fr_slot f) (fr_left f ++ t :: TLeaf n :: fr_right f))
      else plug C (TNode c [t; TLeaf n])
  | [] => TNode c [t; TLeaf n]
  end.

(** ** Shared steps *)

Lemma vec_insert_mid {A} (xs ys : list A) y x :
  vec_insert (xs ++ y :: ys) (length xs + 1) x = Done (xs ++ y :: x :: ys).
Proof.
  unfold vec_insert. rewrite (proj2 (Nat.leb_le _ _)) by (rewrite length_app; cbn; lia).
  f_equal. replace (xs ++ y :: ys) with ((xs ++ [y]) ++ ys) by by rewrite <-app_assoc.
  rewrite take_app_length', drop_app_length' by (rewrite length_app; cbn; lia).
  by rewrite <-app_assoc.
Qed.
Lemma insert_mid {A} (xs ys : list A) y x : <[length xs := x]> (xs ++ y :: ys) = xs ++ x :: ys.
Proof. rewrite insert_app_r_alt, Nat.sub_diag by lia. done. Qed.

Lemma forall_rep_sim g g' par xs : (∀ s, s ∈ xs ≫= nodes → sim (g s) (g' s)) →
  Forall (rep g par) xs → Forall (rep g' par) xs.
Proof.
  intros Hs H. rewrite Forall_forall in *. intros t Ht. apply (rep_sim g); [|by apply H].
  intros s Hin. apply Hs, list_elem_of_bind. eauto.
Qed.

Lemma hole_same g g' C r : crep g C r → (∀ s, ctx_parent C = Some s → sim (g s) (g' s)) →
  hole_ok g g' C r.
Proof.
  destruct 1 as [|f C r p m a H1 H2 H3 H4 H5 H6]; [done|]. intros Hs. cbn. intros q Hq.
  specialize (Hs (fr_slot f) eq_refl). rewrite Hq in Hs.
  destruct (g' (fr_slot f)) as [p'|] eqn:Hg'; [|done]. destruct Hs as [Hp Hk].
  assert (q = p) as -> by congruence. rewrite H3 in Hk.
  destruct (kind p') as [|m' cs' a'] eqn:Hk'; [done|]. destruct Hk as [<- Hact].
  rewrite length_app, !length_fmap in Hact. cbn in Hact. rewrite length_fmap in Hact.
  exists p', m', a'. split; [done|]. split; [done|]. split; [done|]. by apply Hact.
Qed.

Lemma ctx_parent_in C s : ctx_parent C = Some s → s ∈ ctx_nodes C.
Proof. destruct C; [done|]. cbn. intros [= <-]. set_solver. Qed.

Lemma heap_inv_tree g us C t : heap g us → plug C t ∈ us →
  crep g C (root_of t) ∧ rep g (ctx_parent C) t ∧ NoDup (nodes t ++ ctx_nodes C).
Proof.
  intros [H1 H2 _] HT. rewrite Forall_forall in H1. specialize (H1 _ HT).
  apply rep_plug in H1 as [Hc Hr]. split; [done|]. split; [done|].
  apply list_elem_of_split in HT as (u1 & u2 & ->).
  rewrite bind_app, bind_cons in H2. apply NoDup_app in H2 as (_ & _ & H2).
  apply NoDup_app in H2 as [H2 _]. by rewrite nodes_plug in H2.
Qed.

(** A child of a node is not among its elder siblings. *)
Lemma kid_fresh s ls t rs ns : NoDup (nodes (TNode s (ls ++ t :: rs)) ++ ns) →
  root_of t ∉ roots ls.
Proof.
  intros [Hnd _]%NoDup_app. apply kids_nodup in Hnd as [Hnd _].
  rewrite fmap_app, fmap_cons in Hnd. apply NoDup_app in Hnd as (_ & Hd & _).
  intros Hin. apply (Hd _ Hin). set_solver.
Qed.

(** Facts about the node above a hole. *)
Lemma crep_head g f C r : crep g (f :: C) r → ∃ p m a, g (fr_slot f) = Some p ∧
  parent p = ctx_parent C ∧ kind p = Container m (roots (fr_left f) ++ r :: roots (fr_right f)) a ∧
  a < length (fr_left f) + S (length (fr_right f)).
Proof. inversion 1; subst; eauto 10. Qed.

Lemma shape_insert l l' ts i T T' : shape l ts → workspaces l' = workspaces l →
  active l' = active l → ts !! i = Some T → root_of T' = root_of T → wide T' →
  heap (get l') (<[i := T']> ts) → shape l' (<[i := T']> ts).
Proof.
  intros [H1 H2 H3 H4 H5] Hw Ha Hi Hr HT Hh. split.
  - done.
  - rewrite Hw, H2. symmetry. by eapply roots_insert.
  - by apply Forall_insert.
  - by rewrite Hw.
  - by rewrite Ha, length_insert.
Qed.

(** The trees unchanged, the panes changed within their places. *)
Lemma shape_sim l l' ts : shape l ts → workspaces l' = workspaces l → active l' = active l →
  (∀ s, sim (get l s) (get l' s)) → shape l' ts.
Proof.
  intros [H1 H2 H3 H4 H5] Hw Ha Hs. split; [by eapply heap_sim| |done| |]; by rewrite ?Hw, ?Ha.
Qed.

(** The workspace of a root. *)
Lemma ws_of_root l ts i T : skel l ts → ts !! i = Some T →
  workspace_of_root l (root_of T) = Some i.
Proof.
  intros Hsh Hi. destruct Hsh as [H1 H2 H4 H5]. unfold workspace_of_root.
  assert (∀ j w, workspaces l !! j = Some w → ∃ T', ts !! j = Some T' ∧ ws_root w = root_of T') as Hw.
  { intros j w Hj. assert ((ws_root <$> workspaces l) !! j = Some (ws_root w)) as H
      by by rewrite list_lookup_fmap, Hj. rewrite H2, list_lookup_fmap in H.
    destruct (ts !! j) as [T'|]; [|done]. exists T'. split; [done|]. cbn in H. congruence. }
  assert (is_Some (workspaces l !! i)) as [w Hwi].
  { apply lookup_lt_is_Some. apply lookup_lt_Some in Hi.
    apply (f_equal length) in H2. rewrite !length_fmap in H2. lia. }
  eapply position_first; [exact Hwi| |].
  - apply Nat.eqb_eq. destruct (Hw i w Hwi) as (T' & HT' & ->). congruence.
  - intros j w' Hj Hwj. apply Nat.eqb_neq. intros Heq.
    destruct (Hw j w' Hwj) as (T' & HT' & Hr).
    assert (i = j); [|lia]. eapply (trees_disjoint _ _ _ _ T T' (root_of T)); [done..|apply nodes_root|].
    rewrite <-Heq, Hr. apply nodes_root.
Qed.

Lemma ws_lookup l ts i T : skel l ts → ts !! i = Some T →
  ∃ w, workspaces l !! i = Some w ∧ ws_root w = root_of T.
Proof.
  intros [_ H2 _ _] Hi.
  assert ((ws_root <$> workspaces l) !! i = Some (root_of T)) as H
    by by rewrite H2, list_lookup_fmap, Hi.
  rewrite list_lookup_fmap in H. destruct (workspaces l !! i) as [w|]; [|done].
  exists w. split; [done|]. cbn in H. congruence.
Qed.

Lemma skel_agree l l' ts : skel l ts → workspaces l' = workspaces l → active l' = active l →
  (∀ s, s ∈ ts ≫= nodes → sim (get l s) (get l' s)) → skel l' ts.
Proof.
  intros [[R N] H2 H4 H5] Hw Ha Hs. split; rewrite ?Hw, ?Ha; try done.
  split; [|done]. by eapply forall_rep_sim.
Qed.

(** The workspaces after the child at the hole [C] of tree [i] became [r']. *)
Definition rewired (l : Layout) (i : nat) (C : ctx) (r' : nat) : list Workspace :=
  match C with
  | [] => alter (ws_set_root r') i (workspaces l)
  | _ => workspaces l
  end.

Lemma rewired_roots l l' ts i C t t' : skel l ts → ts !! i = Some (plug C t) →
  workspaces l' = rewired l i C (root_of t') →
  ws_root <$> workspaces l' = roots (<[i := plug C t']> ts) ∧ numbers_ok (workspaces l').
Proof.
  intros Hsk Hi Hw. destruct (ws_lookup l ts i _ Hsk Hi) as (w & Hwi & Hr).
  destruct Hsk as [H1 H2 H4 H5].
  assert (∀ f : Workspace → Workspace, alter f i (workspaces l) = <[i := f w]> (workspaces l)) as Halt.
  { intros f. apply list_eq. intros j. destruct (decide (i = j)) as [<-|].
    - rewrite list_lookup_alter_eq, Hwi, list_lookup_insert_eq; [done|]. by eapply lookup_lt_Some.
    - by rewrite list_lookup_alter_ne, list_lookup_insert_ne. }
  split.
  - rewrite Hw. unfold rewired. destruct C as [|f C].
    + rewrite Halt, !list_fmap_insert, H2. done.
    + rewrite H2. symmetry. eapply roots_insert; [exact Hi|]. by apply root_plug_ext.
  - rewrite Hw. unfold rewired. destruct C as [|f C]; [|done]. rewrite Halt. destruct H4 as [S1 S2]. split.
    + rewrite list_fmap_insert. rewrite list_insert_id; [done|]. by rewrite list_lookup_fmap, Hwi.
    + apply Forall_insert; [done|]. cbn. by eapply (Forall_lookup_1 _ _ _ _ S2) in Hwi.
Qed.
Lemma shape_rewired l l' ts i C t t' : skel l ts → Forall wide ts → ts !! i = Some (plug C t) →
  workspaces l' = rewired l i C (root_of t') → active l' = active l → wide (plug C t') →
  heap (get l') (<[i := plug C t']> ts) → shape l' (<[i := plug C t']> ts).
Proof.
  intros Hsk Hall Hi Hw Ha HT Hh. destruct (rewired_roots l l' ts i C t t' Hsk Hi Hw) as [Hr Hn].
  split; [done|done|by apply Forall_insert|done|]. rewrite Ha, length_insert. apply Hsk.
Qed.

(** The layout but for its arena and workspaces. *)
Definition rest (l : Layout) :=
  (active l, focused l, epoch l, zoomed_id l, metrics l, profile l, area l, id_seq l).

(** The child at the hole renamed to [r'], in its container or its workspace. *)
Definition rename_hole (l : Layout) (par : option nat) (r r' : nat) : outcome Layout :=
  match par with
  | Some pi =>
      with_kids l pi (λ _ cs a,
        Done (match position (Nat.eqb r) cs with
              | Some at_ => <[at_ := r']> cs
              | None => cs
              end, a))
  | None => reseat_root l r r'
  end.

Lemma rename_hole_ok l ts i C t r' : skel l ts → ts !! i = Some (plug C t) →
  ∃ l', rename_hole l (ctx_parent C) (root_of t) r' = Done l' ∧
    (∀ s, ctx_parent C ≠ Some s → get l' s = get l s) ∧ rest l' = rest l ∧
    workspaces l' = rewired l i C r' ∧ (local_ok l → local_ok l') ∧
    (∀ f C' p, C = f :: C' → get l (fr_slot f) = Some p →
       ∃ m a, kind p = Container m (roots (fr_left f) ++ root_of t :: roots (fr_right f)) a ∧
         a < length (fr_left f) + S (length (fr_right f)) ∧
         get l' (fr_slot f) =
           Some (set_kind (Container m (roots (fr_left f) ++ r' :: roots (fr_right f)) a) p)).
Proof.
  intros Hsk Hi. destruct (plug_rep l ts i C t (sk_trees _ _ Hsk) Hi) as (Hc & Ht & Hnd & _).
  destruct C as [|f C]; cbn [ctx_parent head fmap option_fmap option_map rename_hole].
  - unfold reseat_root. rewrite (ws_of_root l ts i _ Hsk Hi : workspace_of_root l (root_of t) = _).
    destruct (ws_lookup l ts i _ Hsk Hi) as (w & Hw & _). unfold upd_ws. rewrite Hw.
    eexists. split; [done|]. split; [done|]. split; [done|]. split; [|split; [|done]].
    + cbn. apply list_eq. intros j. destruct (decide (i = j)) as [<-|].
      * rewrite list_lookup_alter_eq, Hw, list_lookup_insert_eq; [done|]. by eapply lookup_lt_Some.
      * by rewrite list_lookup_alter_ne, list_lookup_insert_ne.
    + intros Hl. by eapply local_meta.
  - destruct (crep_head _ _ _ _ Hc) as (p & m & a & Hp & Hpar & Hk & Ha).
    assert (root_of t ∉ roots (fr_left f)) as Hnot.
    { apply (kid_fresh (fr_slot f) _ _ (fr_right f) (ctx_nodes C)).
      eapply NoDup_Permutation_proper; [|exact Hnd]. cbn. rewrite bind_app, bind_cons.
      solve_Permutation. }
    erewrite with_kids_ok; [|exact Hp|exact Hk|].
    2:{ rewrite position_mid by done. rewrite insert_mid. reflexivity. }
    eexists. split; [done|]. split; [|split; [|split; [|split]]].
    + intros s Hs. apply get_upd_ne. congruence.
    + unfold rest. destruct (panes_only_upd l (fr_slot f)
        (set_kind (Container m (roots (fr_left f) ++ r' :: roots (fr_right f)) a))) as [-> _]. done.
    + by apply panes_only_fields, panes_only_upd.
    + intros Hl. by apply local_upd_keep.
    + intros f' C' q [= <- <-] Hq. assert (q = p) as -> by congruence. exists m, a.
      split; [done|]. split; [done|]. by rewrite (get_upd_eq _ _ _ _ Hp).
Qed.

(** Focus in the tree [T'] that replaced the one at [i]. *)
Lemma focus_insert (ts : list ptree) i T T' a f : ts !! i = Some T →
  (∃ Ta, ts !! a = Some Ta ∧ (a = i → f ∈ leaves T') ∧ (a ≠ i → f ∈ leaves Ta)) →
  ∃ Ta, <[i := T']> ts !! a = Some Ta ∧ f ∈ leaves Ta.
Proof.
  intros Hi (Ta & Ha & H1 & H2). destruct (decide (a = i)) as [->|Hn].
  - exists T'. split; [|auto]. apply list_lookup_insert_eq. by eapply lookup_lt_Some.
  - exists Ta. rewrite list_lookup_insert_ne by done. auto.
Qed.

(** The end of a split: focus on the new leaf when it is in the active tree. *)
Definition split_end (l : Layout) (n : nat) : outcome (Layout * option nat) :=
  ina ← in_active_root l n;
  let l := if (ina : bool) then set_focused n l else l in
  l ← bump l;
  Done (l, Some n).

(** What a split leaves: the new leaf, focused iff in the active tree. *)
Definition split_post (l l' : Layout) (i n : nat) : Prop :=
  focused l' = (if decide (i = active l) then n else focused l) ∧
  active l' = active l ∧ profile l' = profile l ∧ metrics l' = metrics l ∧ area l' = area l ∧
  zoomed_id l' = zoomed_id l ∧ ∃ p, get l' n = Some p ∧ kind p = Leaf None.

Lemma split_post_meta l l3 l' i n : meta l3 = meta l → split_post l3 l' i n → split_post l l' i n.
Proof.
  unfold meta, split_post. intros [= Hw Ha Hf He Hz Hm Hp Har]. by rewrite Ha, Hf, Hz, Hm, Hp, Har.
Qed.

Lemma split_end_ok l ts i C n p : shape l ts → local_ok l → env_ok l → (0 ≤ epoch l < u_max 64)%Z →
  ts !! i = Some (plug C (TLeaf n)) → get l n = Some p → kind p = Leaf None →
  (i ≠ active l → ∃ Ta, ts !! active l = Some Ta ∧ focused l ∈ leaves Ta) →
  ∃ l', split_end l n = Done (l', Some n) ∧ later 1 l l' ∧ inv l' ts ∧ split_post l l' i n ∧
    workspaces l' = workspaces l ∧ ∀ s, get l' s = get l s.
Proof.
  intros Hsh Hloc Henv Hep Hi Hn Hk Hfoc. unfold split_end.
  rewrite (in_active_spec l ts i C (TLeaf n) (shape_skel _ _ Hsh) Hi : in_active_root l n = _).
  obind.
  set (l4 := if bool_decide _ then _ else _).
  assert (l4 = set_focused (if decide (i = active l) then n else focused l) l) as ->.
  { unfold l4. case_bool_decide; case_decide; try done. by destruct l. }
  rewrite bump_ok by (cbn; lia). obind.
  eexists. split; [done|]. split; [unfold later; cbn; lia|]. split; [|split; [|done]].
  - split; [by eapply shape_sim; [exact Hsh|done|done|intros; apply sim_refl]| | |cbn; lia|done].
    + by eapply local_meta.
    + cbn. case_decide as Hd; [|by apply Hfoc].
      subst i. exists (plug C (TLeaf n)). split; [done|]. apply leaves_in_plug. cbn. set_solver.
  - unfold split_post. cbn. repeat (split; [done|]). exists p. by split.
Qed.

(** ** The flatten *)

(** A leaf joins a container between the children [xs] and [ys]. *)
Lemma heap_join g g' ts i C pi xs ys n p m a q sf :
  heap g ts → ts !! i = Some (plug C (TNode pi (xs ++ ys))) → g n = None →
  g pi = Some p → kind q = Leaf sf → parent q = Some pi → g' n = Some q →
  g' pi = Some (set_kind (Container m (roots (xs ++ TLeaf n :: ys)) a) p) →
  a < length (xs ++ TLeaf n :: ys) → (∀ s, s ≠ pi → s ≠ n → g' s = g s) →
  heap g' (<[i := plug C (TNode pi (xs ++ TLeaf n :: ys))]> ts).
Proof.
  intros Hh Hi Hn Hp Hkq Hpq Hgn Hgp Ha Hg.
  assert (plug C (TNode pi (xs ++ ys)) ∈ ts) as Hin by by eapply list_elem_of_lookup_2.
  destruct (heap_inv_tree g ts C _ Hh Hin) as (Hc & Ht & Hnd).
  assert (∀ s, s ∈ ctx_nodes C → g' s = g s) as HC.
  { intros s Hs. apply Hg.
    - intros ->. apply NoDup_app in Hnd as (_ & Hd & _). apply (Hd pi); [cbn; set_solver|done].
    - intros ->. destruct (crep_live _ _ _ n Hc Hs). congruence. }
  inversion Ht as [|? ? q' m' a' ? G1 G2 G3 G4 G5]; subst.
  assert (q' = p) as -> by congruence.
  assert (∀ s, s ∈ (xs ++ ys) ≫= nodes → g' s = g s) as HK.
  { intros s Hs. apply Hg.
    - intros ->. apply NoDup_app in Hnd as [Hnd _]. by apply NoDup_cons in Hnd as [? _].
    - intros ->. apply list_elem_of_bind in Hs as (u & Hs & Hu). rewrite Forall_forall in G5.
      destruct (rep_live _ _ _ _ (G5 u Hu) Hs). congruence. }
  apply (surgery_at g g' ts i C _ (TNode pi (xs ++ TLeaf n :: ys)) [n] [] Hh Hi).
  - cbn. rewrite !bind_app, !bind_cons. cbn. solve_Permutation.
  - apply NoDup_singleton.
  - by intros s ->%list_elem_of_singleton.
  - by intros s ?%elem_of_nil.
  - intros s H1 H2 _. rewrite Hg; [apply sim_refl| |set_solver].
    intros ->. apply H1. cbn. set_solver.
  - apply hole_same; [exact Hc|]. intros s Hs. rewrite HC; [apply sim_refl|].
    by apply ctx_parent_in.
  - intros _. econstructor; [exact Hgp|done|reflexivity|done|].
    apply (forall_rep_sim g g') in G5; [|intros s Hs; rewrite HK by done; apply sim_refl].
    rewrite Forall_app, ?Forall_cons in *. split_and!; try tauto. by econstructor.
Qed.

(** A fresh container takes the place of [t], holding [t] and a leaf. *)
Lemma heap_wrap g g' ts i C t c n kids pc pn q q' sf m a :
  heap g ts → ts !! i = Some (plug C t) → g c = None → g n = None → c ≠ n →
  kids ≡ₚ [t; TLeaf n] →
  g' c = Some pc → kind pc = Container m (roots kids) a → a < 2 → parent pc = ctx_parent C →
  g' n = Some pn → kind pn = Leaf sf → parent pn = Some c →
  g (root_of t) = Some q → g' (root_of t) = Some q' → parent q' = Some c → kind q' = kind q →
  hole_ok g g' C c →
  (∀ s, s ≠ c → s ≠ n → s ≠ root_of t → ctx_parent C ≠ Some s → g' s = g s) →
  heap g' (<[i := plug C (TNode c kids)]> ts).
Proof.
  intros Hh Hi Hc Hn Hcn Hkids G1 G2 G3 G4 G5 G6 G7 G8 G9 G10 G11 Hhole Hg.
  assert (plug C t ∈ ts) as Hin by by eapply list_elem_of_lookup_2.
  destruct (heap_inv_tree g ts C _ Hh Hin) as (Hcr & Ht & Hnd).
  assert (∀ s, s ∈ nodes t → s ≠ c ∧ s ≠ n) as Hlive.
  { intros s Hs. destruct (rep_live _ _ _ _ Ht Hs) as [? ?]. split; congruence. }
  apply (surgery_at g g' ts i C t (TNode c kids) [c; n] [] Hh Hi).
  - cbn. rewrite Hkids. cbn. solve_Permutation.
  - apply NoDup_cons. split; [set_solver|apply NoDup_singleton].
  - intros s. set_solver.
  - by intros s ?%elem_of_nil.
  - intros s H1 H2 H3. rewrite Hg; [apply sim_refl|set_solver|set_solver| |done].
    intros ->. apply H1, nodes_root.
  - done.
  - intros _. econstructor; [exact G1|done|exact G2|by rewrite Hkids|].
    rewrite Hkids. repeat constructor; [|by econstructor].
    apply (rep_reparent g g' (ctx_parent C) (Some c) t q q'); try done.
    + by apply NoDup_app in Hnd as [? _].
    + rewrite G11. apply same_kind_refl.
    + intros s Hs Hne. destruct (Hlive s Hs). rewrite Hg; [apply sim_refl|done..|].
      intros Hp%ctx_parent_in. apply NoDup_app in Hnd as (_ & Hd & _). by apply (Hd s).
Qed.

Lemma split_flatten_ok l ts i f C t mode :
  inv l ts → headroom l → ts !! i = Some (plug (f :: C) t) →
  mode_of l (fr_slot f) = Some mode →
  ∃ l' o, split_flatten l (fr_slot f) (root_of t) = Done (l', o) ∧ later 1 l l' ∧
  match o with
  | None => l' = l
  | Some n => get l n = None ∧ inv l' (<[i := split_tree l (f :: C) t mode n n]> ts) ∧
      split_post l l' i n ∧ ∀ s, s ≠ n → face l' s = face l s
  end.
Proof.
  intros [Hsh Hloc Hfoc Hep Henv] Hroom Hi Hmode. destruct f as [pi ls rs]. cbn [fr_slot] in *.
  pose proof (sh_heap _ _ Hsh) as Hh.
  assert (ts !! i = Some (plug C (TNode pi (ls ++ t :: rs)))) as Hi' by done.
  destruct (plug_rep l ts i C _ (heap_trees _ _ Hh) Hi') as (Hc & Ht & Hnd & _).
  inversion Ht as [|? ? p m a ? Hp Hpar Hk Ha _]; subst.
  assert (m = mode) as ->. { unfold mode_of in Hmode. rewrite Hp in Hmode. cbn in Hmode. rewrite Hk in Hmode. congruence. }
  unfold split_flatten.
  destruct (sibling_mean_spec l ts i C pi p mode a (ls ++ t :: rs)) as (w & -> & Hw);
    [by apply heap_trees|done|done|done|by destruct ls|].
  obind.
  destruct (alloc l (Some pi) (Leaf None)) as [[l1 n]|] eqn:Hal.
  2:{ exists l, None. split; [done|]. split; [unfold later; lia|done]. }
  apply alloc_spec in Hal as [(Hn & Hm1 & Hid1 & Hg1) Hloc1]; [|done].
  assert (n ≠ pi) as Hnpi by (intros ->; congruence).
  rewrite fmap_app, fmap_cons in Hk.
  erewrite with_kids_ok; [|rewrite Hg1, decide_False by done; exact Hp|exact Hk|].
  2:{ rewrite position_mid by (eapply kid_fresh, Hnd). cbn [from_option id].
      rewrite vec_insert_mid. obind. reflexivity. }
  set (l2 := upd l1 pi _). obind.
  assert (get l2 n = Some (fresh_pane (id_seq l + 1) (Some pi) (Leaf None))) as Hg2n
    by (unfold l2; rewrite get_upd_ne, Hg1, decide_True by done; done).
  erewrite upd_unwrap_ok by exact Hg2n. obind.
  set (l3 := upd l2 n (set_weight w)).
  assert (meta l3 = meta l) as Hm3 by (unfold l3, l2; by rewrite !meta_upd).
  pose proof Hm3 as Hm3'. meta_inv Hm3'.
  assert (heap (get l3) (<[i := plug C (TNode pi (ls ++ t :: TLeaf n :: rs))]> ts)) as Hh3.
  { replace (ls ++ t :: TLeaf n :: rs) with ((ls ++ [t]) ++ TLeaf n :: rs) by by rewrite <-app_assoc.
    eapply (heap_join (get l) (get l3) ts i C pi (ls ++ [t]) rs n p mode (length (roots ls) + 1)
      (set_weight w (fresh_pane (id_seq l + 1) (Some pi) (Leaf None))) None).
    - done.
    - by rewrite <-app_assoc.
    - done.
    - done.
    - done.
    - done.
    - unfold l3. by rewrite (get_upd_eq _ _ _ _ Hg2n).
    - unfold l3, l2. rewrite get_upd_ne by done.
      erewrite get_upd_eq; [|rewrite Hg1, decide_False by done; exact Hp].
      do 3 f_equal. rewrite <-app_assoc. cbn. by rewrite fmap_app.
    - rewrite length_fmap, !length_app. cbn. lia.
    - intros s H1' H2'. unfold l3, l2. rewrite !get_upd_ne, Hg1, decide_False by done. done. }
  assert (shape l3 (<[i := plug C (TNode pi (ls ++ t :: TLeaf n :: rs))]> ts)) as Hsh3.
  { eapply shape_insert; [exact Hsh|done|done|exact Hi'|by apply root_plug_ext| |done].
    pose proof (Forall_lookup_1 _ _ _ _ (sh_wide _ _ Hsh) Hi') as Hwd.
    rewrite wide_plug, wide_node in *. rewrite Forall_app, !Forall_cons, ?length_app in *.
    cbn in *. intuition lia. }
  destruct (split_end_ok l3 (<[i := plug C (TNode pi (ls ++ t :: TLeaf n :: rs))]> ts) i
    (mkFrame pi (ls ++ [t]) rs :: C) n (set_weight w (fresh_pane (id_seq l + 1) (Some pi) (Leaf None))))
    as (l' & He & Hlat & Hinv & Hpost & _ & Hg'); try done.
  - apply local_upd_weight; [|done]. by apply local_upd_keep.
  - unfold env_ok. by repeat match goal with H : _ l3 = _ |- _ => rewrite H end.
  - unfold headroom in Hroom. lia.
  - rewrite list_lookup_insert_eq by by eapply lookup_lt_Some. cbn. unfold fill. cbn.
    by rewrite <-app_assoc.
  - unfold l3. by rewrite (get_upd_eq _ _ _ _ Hg2n).
  - intros Hne. destruct Hfoc as (Ta & HTa & Hf). exists Ta.
    rewrite list_lookup_insert_ne by congruence. split; congruence.
  - exists l', (Some n). split; [exact He|]. split; [unfold later in *; lia|]. split; [done|].
    cbn [split_tree fr_slot fr_left fr_right]. rewrite decide_True by done. split; [done|].
    split; [by eapply split_post_meta|]. intros s Hs. rewrite (face_get _ _ _ (Hg' s)). unfold l3.
    rewrite face_upd by done. destruct (decide (s = pi)) as [->|Hne].
    + erewrite (face_container l), (face_container l2); [done|..|exact Hp|exact Hk].
      * unfold l2. apply get_upd_eq. rewrite Hg1, decide_False by done. exact Hp.
      * done.
    + apply face_get. unfold l2. rewrite get_upd_ne by done. by rewrite Hg1, decide_False.
Qed.

(** ** The nesting *)

Lemma wide_wrap C t c n : wide (plug C t) → wide (plug C (TNode c [t; TLeaf n])).
Proof.
  rewrite !wide_plug, wide_node. intros [H1 H2]. split; [|done]. split; [cbn; lia|].
  by repeat constructor.
Qed.

Lemma allocs_skel l l' ts par k s : skel l ts → allocs l l' par k s → skel l' ts.
Proof.
  intros Hsk (Hn & Hm & _ & Hg). unfold meta in Hm. injection Hm as Hw Ha _ _ _ _ _ _.
  eapply skel_agree; [done|done|done|]. intros s' Hs'. rewrite Hg, decide_False; [apply sim_refl|].
  intros <-. destruct Hsk as [[R _] _ _ _]. apply list_elem_of_bind in Hs' as (T & Hs' & HT).
  rewrite Forall_forall in R. destruct (rep_live _ _ _ _ (R T HT) Hs'). congruence.
Qed.

(** A slot hoisted before a refusal leaves nothing behind. *)
Lemma inv_roll_back l l1 l2 ts par k c : inv l ts → allocs l l1 par k c → local_ok l1 →
  frees l1 l2 [c] → inv l2 ts ∧ meta l2 = meta l ∧ ∀ s, get l2 s = get l s.
Proof.
  intros [Hsh Hloc Hfoc Hep Henv] (Hn & Hm & Hid & Hg) Hloc1 Hfr.
  assert (∀ s, get l2 s = get l s) as Hget.
  { intros s. destruct Hfr as [_ Hfr]. rewrite Hfr, Hg.
    repeat case_decide; set_solver. }
  assert (meta l2 = meta l) as Hm2 by (rewrite <-Hm; apply panes_only_meta, Hfr).
  split; [|done]. unfold meta in Hm2. injection Hm2 as Hw Ha Hf He _ Hme _ Har. split.
  - eapply shape_sim; [done|done|done|]. intros s. rewrite Hget. apply sim_refl.
  - by eapply local_frees.
  - by rewrite Ha, Hf.
  - by rewrite He.
  - unfold env_ok. by rewrite Hme, Har.
Qed.

Lemma split_nest_ok l ts i C t p mode :
  inv l ts → headroom l → ts !! i = Some (plug C t) → get l (root_of t) = Some p →
  (∀ s, ctx_parent C = Some s → mode_of l s ≠ Some mode) →
  ∃ l' o, split_nest l (root_of t) p mode = Done (l', o) ∧ later 1 l l' ∧
  match o with
  | None => inv l' ts ∧ meta l' = meta l ∧ ∀ s, get l' s = get l s
  | Some n => ∃ c, get l n = None ∧ inv l' (<[i := split_tree l C t mode c n]> ts) ∧
      split_post l l' i n ∧ ∀ s, s ≠ n → face l' s = face l s
  end.
Proof.
  intros Hinv Hroom Hi Hp Hmode. pose proof Hinv as [Hsh Hloc Hfoc Hep Henv].
  pose proof (shape_skel _ _ Hsh) as Hsk.
  destruct (plug_rep l ts i C t (sk_trees _ _ Hsk) Hi) as (Hc & Ht & Hnd & _).
  assert (parent p = ctx_parent C) as Hpar by (apply rep_par in Ht as (? & ? & ?); congruence).
  unfold split_nest. rewrite Hpar.
  destruct (alloc l _ _) as [[l1 c]|] eqn:Hal1.
  2:{ exists l, None. split; [done|]. split; [unfold later; lia|done]. }
  apply alloc_spec in Hal1 as [Ha1 Hloc1]; [|done].
  destruct (alloc l1 _ _) as [[l2 n]|] eqn:Hal2.
  2:{ destruct (clear_slot_ok l1 c (fresh_pane (id_seq l + 1) (ctx_parent C) (Container mode [] 1)))
        as (l2 & -> & Hfr). { destruct Ha1 as (_ & _ & _ & ->). by rewrite decide_True. }
      destruct (inv_roll_back _ _ _ _ _ _ _ Hinv Ha1 Hloc1 Hfr) as (Hi2 & Hm2 & Hg2).
      exists l2, None. split; [done|]. split; [|done]. meta_inv Hm2. unfold later. lia. }
  apply alloc_spec in Hal2 as [Ha2 Hloc2]; [|done].
  pose proof (allocs_skel _ _ _ _ _ _ (allocs_skel _ _ _ _ _ _ Hsk Ha1) Ha2) as Hsk2.
  destruct Ha1 as (Hcn & Hm1 & Hid1 & Hg1), Ha2 as (Hnn & Hm2 & Hid2 & Hg2).
  rewrite Hm1 in Hm2. pose proof Hm2 as Hm2'. meta_inv Hm2'.
  destruct (rename_hole_ok l2 ts i C t c Hsk2 Hi) as (l3 & Hren & Hg3 & Hr3 & Hw3 & Hl3 & Hhole).
  unfold rename_hole in Hren. rewrite Hren. obind. specialize (Hl3 Hloc2).
  assert (c ≠ n) as Hcn'. { intros ->. rewrite Hg1, decide_True in Hnn; done. }
  assert (get l n = None) as Hnl. { by rewrite Hg1, decide_False in Hnn. }
  assert (∀ s, s ≠ c → s ≠ n → get l2 s = get l s) as Hg2'.
  { intros s H1' H2'. by rewrite Hg2, Hg1, !decide_False. }
  assert (∀ s, s ∈ nodes t ++ ctx_nodes C → s ≠ c ∧ s ≠ n) as Hlive.
  { intros s Hs. assert (is_Some (get l s)) as [? ?]; [|split; congruence].
    apply elem_of_app in Hs as [Hs|Hs]; [by eapply rep_live|by eapply crep_live]. }
  assert (∀ s, s = c ∨ s = n ∨ s = root_of t → ctx_parent C ≠ Some s) as Hnp.
  { intros s Hs Hpp%ctx_parent_in. destruct (Hlive s) as [? ?]; [set_solver|].
    destruct Hs as [->|[->| ->]]; [done|done|]. apply NoDup_app in Hnd as (_ & Hd & _).
    apply (Hd (root_of t)); [apply nodes_root|done]. }
  destruct (Hlive (root_of t)) as [Htc Htn]; [apply elem_of_app; left; apply nodes_root|].
  set (pc := fresh_pane (id_seq l + 1) (ctx_parent C) (Container mode [] 1)).
  set (pn := fresh_pane (id_seq l1 + 1) (Some c) (Leaf None)).
  assert (get l3 (root_of t) = Some p) as G3t by (rewrite Hg3, Hg2' by auto; done).
  assert (get l3 c = Some pc) as G3c.
  { rewrite Hg3 by auto. by rewrite Hg2, decide_False, Hg1, decide_True. }
  assert (get l3 n = Some pn) as G3n.
  { rewrite Hg3 by auto. by rewrite Hg2, decide_True. }
  erewrite upd_unwrap_ok by exact G3t. obind.
  erewrite upd_unwrap_ok by (by rewrite (get_upd_eq _ _ _ _ G3t)). obind.
  erewrite upd_unwrap_ok by (rewrite !get_upd_ne by done; exact G3c). obind.
  erewrite with_kids_ok; [|rewrite (get_upd_eq _ c _ pc) by (by rewrite !get_upd_ne by done); reflexivity
    |reflexivity|reflexivity].
  obind.
  set (l7 := upd (upd (upd (upd l3 _ _) _ _) _ _) _ _).
  assert (∀ s, s ≠ c → s ≠ root_of t → get l7 s = get l3 s) as G7.
  { intros s H1' H2'. unfold l7. by rewrite !get_upd_ne by done. }
  assert (get l7 (root_of t) = Some (set_weight DEFAULT_WEIGHT (set_parent (Some c) p))) as G7t.
  { unfold l7. rewrite !(get_upd_ne _ c) by done. by rewrite !get_upd, !decide_True, G3t. }
  assert (get l7 c = Some (set_kind (Container mode [root_of t; n] 1) (set_weight (weight p) pc))) as G7c.
  { unfold l7. rewrite !(get_upd _ c), !decide_True by done. rewrite !get_upd_ne by done.
    by rewrite G3c. }
  assert (rest l7 = rest l3 ∧ workspaces l7 = workspaces l3) as [Hr7 Hw7].
  { assert (meta l7 = meta l3 ∧ id_seq l7 = id_seq l3) as [Hm7 Hi7]
      by (unfold l7; by rewrite !meta_upd, !id_seq_upd).
    meta_inv Hm7. unfold rest. by repeat match goal with H : _ l7 = _ |- _ => rewrite H end. }
  assert (heap (get l7) (<[i := plug C (TNode c [t; TLeaf n])]> ts)) as Hh7.
  { eapply (heap_wrap (get l) (get l7) ts i C t c n [t; TLeaf n]); try exact G7c; try exact G7t; try done.
    - apply Hsh.
    - cbn. lia.
    - rewrite G7 by done. exact G3n.
    - done.
    - done.
    - destruct C as [|f C]; [done|]. intros q Hq.
      assert (fr_slot f ≠ c ∧ fr_slot f ≠ n) as [? ?] by (apply Hlive; cbn; set_solver).
      destruct (Hhole f C q eq_refl) as (m & a & Hk & Ha & Hg); [by rewrite Hg2'|].
      eexists _, m, a. split; [rewrite G7; [exact Hg|done|]|done].
      intros Heq. apply (Hnp (fr_slot f)); [auto|done].
    - intros s H1' H2' H3' H4'. rewrite G7, Hg3, Hg2' by done. done. }
  unfold rest in Hr3, Hr7. rewrite Hr3 in Hr7.
  injection Hr7 as Ra Rf Re Rz Rm Rp Rar Ri.
  assert (shape l7 (<[i := plug C (TNode c [t; TLeaf n])]> ts)) as Hsh7.
  { eapply (shape_rewired l2); [done|apply Hsh|done|by rewrite Hw7|done| |done].
    apply wide_wrap. apply (Forall_lookup_1 _ _ _ _ (sh_wide _ _ Hsh) Hi). }
  destruct (split_end_ok l7 (<[i := plug C (TNode c [t; TLeaf n])]> ts) i
    (mkFrame c [t] [] :: C) n pn) as (l' & He & Hlat & Hinv' & Hpost & _ & Hg'); try done.
  - unfold l7. apply local_upd_keep; [|done].
    apply local_upd_weight; [apply local_upd_weight; [by apply local_upd_keep|done]|by eapply (lo_weight l)].
  - unfold env_ok. rewrite Rm, Rar. by repeat match goal with H : _ l2 = _ |- _ => rewrite H end.
  - unfold headroom in Hroom. lia.
  - rewrite list_lookup_insert_eq by by eapply lookup_lt_Some. done.
  - rewrite G7 by done. done.
  - intros Hne. destruct Hfoc as (Ta & HTa & Hf). exists Ta.
    rewrite list_lookup_insert_ne by congruence. split; congruence.
  - exists l', (Some n). split; [exact He|]. split; [unfold later in *; lia|]. exists c. split; [done|].
    assert (split_tree l C t mode c n = plug C (TNode c [t; TLeaf n])) as ->.
    { destruct C as [|f C]; [done|]. cbn [split_tree]. rewrite decide_False; [done|]. by apply Hmode. }
    split; [done|]. split.
    { unfold split_post in *. rewrite Ra, Rf, Rz, Rm, Rp, Rar in Hpost.
      repeat match goal with H : _ l2 = _ l |- _ => rewrite H in Hpost end. exact Hpost. }
    intros s Hs. rewrite (face_get _ _ _ (Hg' s)). destruct (decide (s = c)) as [->|Hsc].
    { rewrite (face_container l7 _ _ _ _ _ G7c) by done. unfold face. by rewrite Hcn. }
    destruct (decide (s = root_of t)) as [->|Hst].
    { unfold face. by rewrite G7t, Hp. }
    destruct (decide (ctx_parent C = Some s)) as [Hcs|Hcs].
    + destruct C as [|f C]; [done|]. injection Hcs as <-.
      destruct (crep_head _ _ _ _ Hc) as (pf & m0 & a0 & Hpf & _ & Hkf & _).
      destruct (Hhole f C pf eq_refl) as (m & a & Hk & _ & Hg); [by rewrite Hg2'|].
      erewrite (face_container l7), (face_container l); [done|exact Hpf|exact Hkf| |].
      * rewrite G7 by done. exact Hg.
      * done.
    + apply face_get. rewrite G7, Hg3, Hg2' by done. done.
Qed.

(** ** Splits *)

Definition stack_like (m : Mode) : bool := match m with Stacked | Tabbed => true | _ => false end.

(** The target is the node itself or an ancestor, and under a stack only when
    the split joins the stack. *)
Lemma split_target_walk l C t mode fuel : rep (get l) None (plug C t) → length C < fuel →
  ∃ o, split_target_f fuel l (root_of t) mode = Done o ∧
  ∀ s', o = Some s' → ∃ C' t', plug C t = plug C' t' ∧ root_of t' = s' ∧
    ∀ pi m, ctx_parent C' = Some pi → mode_of l pi = Some m → stack_like m = true → m = mode.
Proof.
  revert t fuel. induction C as [|f C IH]; intros t [|fuel] H Hf; cbn in Hf; try lia;
    cbn [split_target_f].
  - apply rep_par in H as (p & Hp & Hpar). cbn in Hp. rewrite Hp. cbn [mbind option_bind].
    rewrite Hpar. eexists. split; [done|]. intros s' [= <-]. by exists [], t.
  - pose proof (proj1 (rep_plug _ _ _) H) as [Hc Hr].
    destruct (crep_head _ _ _ _ Hc) as (pf & mf & af & Hpf & _ & Hkf & _).
    apply rep_par in Hr as (p & Hp & Hpar).
    rewrite Hp. cbn [mbind option_bind]. rewrite Hpar.
    cbn [ctx_parent head fmap option_fmap option_map]. rewrite Hpf.
    cbn [fmap option_fmap option_map]. rewrite Hkf.
    assert (mode_of l (fr_slot f) = Some mf) as Hmo by (unfold mode_of; by rewrite Hpf; cbn; rewrite Hkf).
    destruct (IH (fill f t) fuel H ltac:(lia)) as (o & Ho & Hspec). cbn [root_of fill] in Ho.
    destruct mf; try (eexists; split; [done|]; intros s' [= <-]; exists (f :: C), t;
      split; [done|]; split; [done|]; cbn; intros ? ? [= <-] Hm Hst;
      rewrite Hmo in Hm; injection Hm as <-; done).
    + case_decide as Hd; [|destruct mode; [by exists o..|by exists None|by exists None]].
      eexists. split; [done|]. destruct (is_leaf l (root_of t)); [|done]. intros s' [= <-].
      exists (f :: C), t. split; [done|]. split; [done|]. cbn. intros ? ? [= <-] Hm _. congruence.
    + case_decide as Hd; [|destruct mode; [by exists o..|by exists None|by exists None]].
      eexists. split; [done|]. destruct (is_leaf l (root_of t)); [|done]. intros s' [= <-].
      exists (f :: C), t. split; [done|]. split; [done|]. cbn. intros ? ? [= <-] Hm _. congruence.
Qed.

Lemma split_target_ok l ts i C t mode : trees (get l) ts → ts !! i = Some (plug C t) →
  ∃ o, split_target l (root_of t) mode = Done o ∧
  ∀ s', o = Some s' → ∃ C' t', plug C t = plug C' t' ∧ root_of t' = s' ∧
    (profile l = Instrument → ∀ pi m, ctx_parent C' = Some pi → mode_of l pi = Some m →
       stack_like m = true → m = mode) ∧
    (profile l = Legacy → s' = root_of t).
Proof.
  intros Htr Hi. destruct (plug_rep l ts i C t Htr Hi) as (Hc & Ht & _ & Hsz).
  pose proof (nodes_nonempty t). unfold split_target. case_decide as Hprof.
  - destruct (split_target_walk l C t mode (tree_fuel l)) as (o & Ho & Hs).
    + by apply rep_plug.
    + unfold tree_fuel. lia.
    + exists o. split; [done|]. intros s' Hs'. destruct (Hs s' Hs') as (C' & t' & H1 & H2 & H3).
      exists C', t'. split; [done|]. split; [done|]. split; [by intros _|]. congruence.
  - exists (Some (root_of t)). split; [done|]. intros s' [= <-]. exists C, t. split; [done|].
    split; [done|]. split; congruence.
Qed.

Lemma split_at_ok l ts i C t q mode :
  inv l ts → headroom l → ts !! i = Some (plug C t) → get l (root_of t) = Some q →
  ∃ l' o,
    match parent q with
    | Some pi =>
        match get l pi with
        | None => Done (l, None)
        | Some p =>
            match kind p with
            | Container m _ _ =>
                if decide (m = mode) then split_flatten l pi (root_of t)
                else split_nest l (root_of t) q mode
            | Leaf _ => split_nest l (root_of t) q mode
            end
        end
    | None => split_nest l (root_of t) q mode
    end = Done (l', o) ∧ later 1 l l' ∧
  match o with
  | None => inv l' ts ∧ meta l' = meta l ∧ ∀ s, get l' s = get l s
  | Some n => ∃ c, get l n = None ∧ inv l' (<[i := split_tree l C t mode c n]> ts) ∧
      split_post l l' i n ∧ ∀ s, s ≠ n → face l' s = face l s
  end.
Proof.
  intros Hinv Hroom Hi Hq. pose proof (inv_shape _ _ Hinv) as Hsh.
  destruct (plug_rep l ts i C t (shape_trees _ _ Hsh) Hi) as (Hc & Ht & _ & _).
  apply rep_par in Ht as (q' & Hq' & Hpar). assert (q' = q) as -> by congruence. rewrite Hpar.
  destruct C as [|f C]; cbn [ctx_parent head fmap option_fmap option_map].
  { by apply (split_nest_ok l ts i []). }
  destruct (crep_head _ _ _ _ Hc) as (p & m & a & Hp & _ & Hk & _). rewrite Hp, Hk.
  assert (mode_of l (fr_slot f) = Some m) as Hmo by (unfold mode_of; rewrite Hp; cbn; by rewrite Hk).
  case_decide as Hd.
  - subst m. destruct (split_flatten_ok l ts i f C t mode Hinv Hroom Hi Hmo) as (l' & o & -> & Hlat & Ho).
    exists l', o. split; [done|]. split; [done|]. destruct o as [n|]; [|by subst].
    exists n. exact Ho.
  - apply split_nest_ok; try done. cbn. intros s [= <-]. congruence.
Qed.

(** What a split leaves behind. *)
Definition split_done (l l' : Layout) (ts : list ptree) (slot : nat) (mode : Mode) (o : option nat) : Prop :=
  match o with
  | None => inv l' ts ∧ meta l' = meta l ∧ ∀ s, get l' s = get l s
  | Some n => ∃ i C t c, ts !! i = Some (plug C t) ∧ slot ∈ nodes (plug C t) ∧
      split_target l slot mode = Done (Some (root_of t)) ∧ get l n = None ∧
      inv l' (<[i := split_tree l C t mode c n]> ts) ∧ split_post l l' i n ∧
      ∀ s, s ≠ n → face l' s = face l s
  end.

Lemma split_ok l ts slot mode : inv l ts → headroom l →
  ∃ l' o, split l slot mode = Done (l', o) ∧ later 1 l l' ∧ split_done l l' ts slot mode o.
Proof.
  intros Hinv Hroom. unfold split.
  assert (∃ l' o, Done (l, None) = Done (l', o) ∧ later 1 l l' ∧ split_done l l' ts slot mode o) as Hno.
  { exists l, None. split; [done|]. split; [unfold later; lia|done]. }
  destruct (is_leaf l slot) eqn:Hlf; [|done]. cbn [negb].
  pose proof (inv_shape _ _ Hinv) as Hsh.
  assert (∃ p, get l slot = Some p) as [p Hp].
  { unfold is_leaf in Hlf. destruct (get l slot); [eauto|done]. }
  destruct (heap_find l ts slot p (sh_heap _ _ Hsh) Hp) as (i & C & t & Hi & Hr).
  destruct (split_target_ok l ts i C t mode (shape_trees _ _ Hsh) Hi) as (o & Ho & Hspec).
  rewrite Hr in Ho. unfold split_done in *. rewrite Ho in *. obind.
  destruct o as [s'|]; [|done].
  destruct (Hspec s' eq_refl) as (C' & t' & HT & <- & _).
  assert (slot ∈ nodes (plug C' t')) as Hslot.
  { rewrite <-HT, nodes_plug, <-Hr. apply elem_of_app. left. apply nodes_root. }
  rewrite HT in Hi. destruct (plug_rep l ts i C' t' (shape_trees _ _ Hsh) Hi) as (_ & Ht & _ & _).
  apply rep_par in Ht as (q & Hq & _). rewrite Hq.
  destruct (split_at_ok l ts i C' t' q mode Hinv Hroom Hi Hq) as (l' & o & -> & Hlat & Hpost).
  exists l', o. split; [done|]. split; [done|]. destruct o as [n|]; [|done].
  destruct Hpost as (c & Hpost). by exists i, C', t', c.
Qed.

End PaneSplit.
