(* ===== verification/PaneHost.v ===== *)
(** * Changes in place, minima and hosting keep the invariant

    An operation that changes panes without moving them keeps the trees.  The
    minima are computed without a panic on every represented tree, so the test
    a split is held to under the Instrument profile always answers, and hosting
    a surface either fills the focused empty leaf or splits. *)

From stdpp Require Import strings sorting.
From S2P Require Import Prelude Geometry GeometryProofs Carve PaneData PaneTree PaneRep PaneWalks.
From S2P Require Import PaneInv PaneSplit.
Import Geometry GeometryProofs PaneData PaneTree PaneRep PaneWalks PaneInv PaneSplit.
Open Scope nat_scope.

Module PaneHost.

(** ** Changes in place *)

(** A change of a pane that keeps its place, its id and a valid weight. *)
Definition in_place (p p' : Pane) : Prop :=
  parent p = parent p' ∧ same_kind (kind p) (kind p') ∧ pid p' = pid p ∧
  (1 ≤ weight p' ≤ u_max 16)%Z ∧ rect_ok (rect p').

Lemma inv_in_place l l' ts : inv l ts → meta l' = meta l → id_seq l' = id_seq l →
  length (panes l') ≤ MAX_PANES →
  (∀ s, match get l s, get l' s with
        | Some p, Some p' => in_place p p'
        | None, None => True
        | _, _ => False
        end) → inv l' ts.
Proof.
  intros [Hsh Hloc Hfoc Hep Henv] Hm Hid Hlen Hg. unfold meta in Hm.
  injection Hm as Hw Ha Hf He Hz Hme Hp Har. split.
  - eapply shape_sim; [exact Hsh|done|done|]. intros s. specialize (Hg s). unfold in_place in Hg.
    destruct (get l s), (get l' s); cbn; tauto.
  - eapply local_ext; [exact Hloc|done|done|]. intros s p' Hp'. specialize (Hg s).
    rewrite Hp' in Hg. destruct (get l s) as [p|] eqn:Hgs; [|done]. exists p.
    unfold in_place in Hg. tauto.
  - by rewrite Ha, Hf.
  - by rewrite He.
  - unfold env_ok. by rewrite Hme, Har.
Qed.

Lemma inv_upd l ts s f : inv l ts →
  (∀ p, get l s = Some p → in_place p (f p)) → inv (upd l s f) ts.
Proof.
  intros Hinv Hf. pose proof (inv_local _ _ Hinv) as Hloc.
  eapply inv_in_place; [exact Hinv|apply meta_upd|apply id_seq_upd|rewrite length_upd; apply Hloc|].
  intros s'. rewrite get_upd. case_decide as Hd; [subst s'|].
  - destruct (get l s) as [p|] eqn:Hp; [|done]. by apply Hf.
  - destruct (get l s') as [p|] eqn:Hp; [|done]. split; [done|]. split; [apply same_kind_refl|].
    split; [done|]. split; [by eapply lo_weight|by eapply lo_rect].
Qed.

Lemma get_map l f s : get (map_panes l f) s = f <$> get l s.
Proof.
  unfold get, map_panes. cbn. change (map (option_map f)) with (fmap (M:=list) (option_map f)).
  rewrite list_lookup_fmap. by destruct (panes l !! s) as [[]|].
Qed.

Lemma inv_map l ts f : inv l ts → (∀ p, (1 ≤ weight p ≤ u_max 16)%Z → rect_ok (rect p) → in_place p (f p)) →
  inv (map_panes l f) ts.
Proof.
  intros Hinv Hf. pose proof (inv_local _ _ Hinv) as Hloc.
  eapply inv_in_place; [exact Hinv|done|done| |].
  - cbn. rewrite length_map. apply Hloc.
  - intros s. rewrite get_map.
    destruct (get l s) as [p|] eqn:Hp; [|done]. cbn. apply Hf; [by eapply lo_weight|by eapply lo_rect].
Qed.

(** The common case: the id, the weight and the rectangle stay. *)
Lemma in_place_keep l s p p' : local_ok l → get l s = Some p → parent p' = parent p →
  same_kind (kind p) (kind p') → pid p' = pid p → weight p' = weight p → rect p' = rect p →
  in_place p p'.
Proof.
  intros Hl Hp H1 H2 H3 H4 H5. unfold in_place. rewrite H4, H5. split; [done|]. split; [done|].
  split; [done|]. split; [by eapply lo_weight|by eapply lo_rect].
Qed.

Lemma inv_bump l ts : inv l ts → (epoch l < u_max 64)%Z →
  bump l = Done (set_epoch (epoch l + 1)%Z l) ∧ inv (set_epoch (epoch l + 1)%Z l) ts.
Proof.
  intros [Hsh Hloc Hfoc Hep Henv] He. split; [by apply bump_ok|]. split; [| |done| |done].
  - eapply shape_sim; [exact Hsh|done|done|]. intros. apply sim_refl.
  - by eapply local_meta.
  - cbn. lia.
Qed.

(** The zoom is free. *)
Lemma inv_zoom l ts z : inv l ts → inv (set_zoomed_id z l) ts.
Proof.
  intros [Hsh Hloc Hfoc Hep Henv]. split; [|by eapply local_meta|done|done|done].
  eapply shape_sim; [exact Hsh|done|done|]. intros. apply sim_refl.
Qed.

(** Focus moves to another leaf of the active tree. *)
Lemma inv_set_focus l ts T f : inv l ts → ts !! active l = Some T → f ∈ leaves T →
  inv (set_focused f l) ts.
Proof.
  intros [Hsh Hloc Hfoc Hep Henv] HT Hf. split; [|by eapply local_meta|by exists T|done|done].
  eapply shape_sim; [exact Hsh|done|done|]. intros. apply sim_refl.
Qed.

(** ** Minima *)

Lemma px_of_ok v : length_ok v → px_of v = v.
Proof. unfold length_ok, px_of. intros H. rewrite Z.max_l, as_u_small; unfold in_u; lia. Qed.

Lemma stack_min_h_total n header sep body_min f : length_ok f →
  ∃ h, Carve.stack_min_h n header sep body_min f = Done h.
Proof.
  unfold length_ok. intros Hf. unfold Carve.stack_min_h.
  rewrite umul_ok by (unfold u_max; lia). cbn. eauto.
Qed.

Lemma stack_min_h_1 header sep body_min f : length_ok header → length_ok body_min →
  length_ok f → ∃ h, Carve.stack_min_h 1 header sep body_min f = Done h ∧ (0 ≤ h ≤ 2 ^ 18)%Z.
Proof.
  unfold length_ok. intros Hh Hb Hf. unfold Carve.stack_min_h.
  rewrite umul_ok by (unfold u_max; lia). obind.
  eexists. split; [done|]. change (as_u 32 (Z.of_nat 1)) with 1%Z.
  unfold sat_add, sat_mul, u_max. cbn [Nat.ltb Nat.leb]. lia.
Qed.

Lemma nested_min_total m lm mode : metrics_ok m → (0 ≤ lm.1 ≤ 2 ^ 18)%Z → (0 ≤ lm.2 ≤ 2 ^ 18)%Z →
  ∃ r, nested_min m lm mode = Done r.
Proof.
  intros (_ & _ & _ & _ & _ & Ht & Hf & _) H1 H2. unfold nested_min.
  rewrite (px_of_ok (track m)), (px_of_ok (Geometry.frame m)) by done. destruct mode.
  - unfold length_ok in *. rewrite umul_ok by (unfold u_max; lia). obind.
    rewrite uadd_ok by (unfold u_max; lia). cbn. eauto.
  - unfold length_ok in *. rewrite umul_ok by (unfold u_max; lia). obind.
    rewrite uadd_ok by (unfold u_max; lia). cbn. eauto.
  - eauto.
  - destruct (stack_min_h_total 2 (px_of (header_h m)) (px_of (hairline m)) (px_of (min_body_h m))
      (Geometry.frame m) Hf) as [h ->]. cbn. eauto.
Qed.

(** The list a division goes over, for the children of a represented node. *)
Lemma divide_list_rep l s cs : Forall (rep (get l) (Some s)) cs →
  (∀ t, t ∈ cs → length (nodes t) ≤ tree_fuel l) →
  ∃ ds, divide_list l (roots cs) = Done ds ∧ (cs ≠ [] → ds ≠ []) ∧
    ∀ d, d ∈ ds → ∃ t, t ∈ cs ∧ d = root_of t.
Proof.
  intros Hcs Hsz. unfold divide_list. rewrite Forall_forall in Hcs.
  rewrite (filterM_map _ (λ c, match is_bg_subtree l c with Done b0 => negb b0 | _ => false end)).
  2:{ intros c (t & -> & Ht)%list_elem_of_fmap. unfold is_bg_subtree.
      by rewrite (bg_walk l t (Some s)) by auto. }
  obind. eexists. split; [done|]. destruct (filter _ _) as [|d ds] eqn:Hf.
  - split; [intros Hne; by destruct cs|]. intros d (t & -> & Ht)%list_elem_of_fmap. eauto.
  - split; [done|]. intros x. rewrite <-Hf. intros [_ (t & -> & Ht)%list_elem_of_fmap]%list_elem_of_filter.
    eauto.
Qed.

Definition hyp_cost (hyp : option (nat * Mode)) : nat := match hyp with Some _ => 1 | None => 0 end.

Lemma min_size_walk l t par fuel hyp : rep (get l) par t → metrics_ok (metrics l) →
  length (nodes t) + hyp_cost hyp ≤ fuel → length (nodes t) ≤ tree_fuel l →
  ∃ r, min_size_hyp_f l fuel (root_of t) hyp = Done r.
Proof.
  intros Hr Hm. revert par fuel hyp Hr.
  induction t as [s|s ts IH] using ptree_rect'; intros par fuel hyp Hr.
  - destruct fuel as [|fuel]; [cbn; lia|]. intros _ _. cbn [min_size_hyp_f root_of].
    pose proof Hm as (_ & Hsep & Hhdr & _ & _ & Htr & Hfr & Hpw & Hbh).
    unfold mhdr, msep, mbody_h, mf, mpane_w. rewrite !px_of_ok by done.
    destruct (stack_min_h_1 (header_h (metrics l)) (hairline (metrics l)) (min_body_h (metrics l))
      (Geometry.frame (metrics l))) as (h & -> & Hh); [done..|]. obind.
    inversion Hr as [? ? p sf Hg Hp Hk|]; subst. rewrite Hg. cbn [fmap option_fmap option_map].
    rewrite Hk. destruct hyp as [[s' mode]|]; [|eauto]. destruct (s' =? s); [|eauto].
    apply nested_min_total; [done| |done]. cbn. unfold length_ok in Hpw. lia.
  - revert hyp. induction fuel as [fuel IHf] using lt_wf_ind. intros hyp Hsz Htf.
    destruct fuel as [|fuel]; [cbn in Hsz; lia|]. cbn [min_size_hyp_f root_of].
    pose proof Hm as (_ & Hsep & Hhdr & _ & _ & Htr & Hfr & Hpw & Hbh).
    assert (mf l = Geometry.frame (metrics l)) as Hmf by by apply px_of_ok.
    destruct (stack_min_h_total 1 (mhdr l) (msep l) (mbody_h l) (mf l)) as (h & ->).
    { by rewrite Hmf. }
    obind.
    inversion Hr as [|? ? p m a ? Hg Hp Hk Ha Hts]; subst. rewrite Hg.
    cbn [fmap option_fmap option_map]. rewrite Hk.
    destruct (is_hyp hyp s) eqn:His.
    { destruct hyp as [[s' hm]|]; [|done]. cbn [hyp_cost] in Hsz.
      destruct (IHf fuel ltac:(lia) None) as (own & Hown); [cbn [hyp_cost]; lia|done|].
      cbn [root_of] in Hown. rewrite Hown. obind. destruct hm; eauto. }
    assert (∀ t, t ∈ ts → length (nodes t) < length (nodes (TNode s ts))) as Hlt.
    { intros t Ht. apply list_elem_of_split in Ht as (l1 & l2 & ->).
      cbn. rewrite bind_app, bind_cons, !length_app. lia. }
    destruct (divide_list_rep l s ts Hts) as (ds & -> & _ & Hds).
    { intros t Ht. specialize (Hlt t Ht). lia. }
    obind.
    assert (∀ d hyp', d ∈ ds → hyp' = hyp ∨ hyp' = None →
      ∃ r, min_size_hyp_f l fuel d hyp' = Done r) as Hrec.
    { intros d hyp' Hd Hh'. destruct (Hds d Hd) as (t & Ht & ->).
      rewrite Forall_forall in IH, Hts. specialize (Hlt t Ht).
      apply (IH t Ht (Some s)); [by apply Hts| |lia].
      destruct Hh' as [->| ->]; cbn [hyp_cost] in *; lia. }
    assert (∀ st md d, d ∈ ds → ∃ st', tile_step l (λ c, min_size_hyp_f l fuel c hyp) hyp md st d = Done st') as Htile.
    { intros [[n w] body] md d Hd. unfold tile_step.
      destruct (hyp_mode hyp d md); [eauto|]. destruct (_ && _); [eauto|].
      destruct (Hrec d hyp Hd) as ([cw ch] & ->); [auto|]. obind.
      rewrite umul_ok by (rewrite Hmf; unfold length_ok, u_max in *; lia). cbn. eauto. }
    assert (∀ md st, ∃ st', foldM (tile_step l (λ c, min_size_hyp_f l fuel c hyp) hyp md) st ds = Done st')
      as Htiles.
    { intros md st. destruct (foldM_inv (λ _, True)
        (tile_step l (λ c, min_size_hyp_f l fuel c hyp) hyp md) st ds) as (st' & -> & _); [done| |eauto].
      intros a' d Hd _. destruct (Htile a' md d Hd) as [st' ->]. eauto. }
    assert (∀ md lm, ∃ ps, foldM (split_part (λ c, min_size_hyp_f l fuel c None)
        (λ c, min_size_hyp_f l fuel c hyp) lm hyp md) [] ds = Done ps) as Hparts.
    { intros md lm. destruct (foldM_inv (λ _, True) (split_part (λ c, min_size_hyp_f l fuel c None)
        (λ c, min_size_hyp_f l fuel c hyp) lm hyp md) [] ds) as (st' & -> & _); [done| |eauto].
      intros a' d Hd _. unfold split_part. destruct (hyp_mode hyp d md).
      - destruct (Hrec d None Hd) as (r & ->); [auto|]. cbn. eauto.
      - destruct (Hrec d hyp Hd) as (r & ->); [auto|]. cbn. eauto. }
    destruct m.
    + destruct (Hparts SplitH (mpane_w l, h)) as (ps & ->). cbn. eauto.
    + destruct (Hparts SplitV (mpane_w l, h)) as (ps & ->). cbn. eauto.
    + destruct (Htiles Tabbed (length ds, mpane_w l, mbody_h l)) as ([[n w] body] & ->).
      obind.
      destruct (stack_min_h_total 1 (mhdr l) (msep l) body (mf l)) as (h' & ->); [by rewrite Hmf|].
      cbn. eauto.
    + destruct (Htiles Stacked (length ds, mpane_w l, mbody_h l)) as ([[n w] body] & ->).
      obind.
      destruct (stack_min_h_total n (mhdr l) (msep l) body (mf l)) as (h' & ->); [by rewrite Hmf|].
      cbn. eauto.
Qed.

Lemma inset_total r b : rect_ok r → length_ok b → ∃ r', inset r b = Done r' ∧ rect_ok r'.
Proof.
  intros Hr Hb. unfold inset, length_ok in *. rewrite umul_ok by (unfold u_max; lia).
  obind.
  destruct (Z.ltb_spec (2 * b) (rw r)), (Z.ltb_spec (2 * b) (rh r)); cbn [andb];
    try (eexists; split; [done|]; apply ZERO_ok).
  unfold rect_ok in *. rewrite !uadd_ok by lia. obind.
  eexists. split; [done|]. cbn. lia.
Qed.

Lemma min_size_total l ts i C t hyp : trees (get l) ts → metrics_ok (metrics l) →
  ts !! i = Some (plug C t) → ∃ r, min_size_hyp l (root_of t) hyp = Done r.
Proof.
  intros Htr Hm Hi. destruct (plug_rep l ts i C t Htr Hi) as (_ & Ht & _ & Hsz).
  eapply min_size_walk; [done|done| |]; unfold tree_fuel; [|lia].
  destruct hyp; cbn [hyp_cost]; lia.
Qed.

Lemma top_of_ok l ts i C t : trees (get l) ts → ts !! i = Some (plug C t) →
  top_of l (root_of t) = Done (root_of (plug C t)).
Proof.
  intros Htr Hi. destruct (plug_rep l ts i C t Htr Hi) as (Hc & Ht & _ & Hsz).
  pose proof (nodes_nonempty t). apply top_of_walk; [by apply rep_plug|]. unfold tree_fuel. lia.
Qed.

Lemma is_leaf_live l s : is_leaf l s = true → ∃ p sf, get l s = Some p ∧ kind p = Leaf sf.
Proof.
  unfold is_leaf. destruct (get l s) as [p|]; [|done]. cbn. destruct (kind p) eqn:Hk; [|done]. eauto.
Qed.

Lemma split_fits_total l ts slot mode : inv l ts → ∃ b, split_fits l slot mode = Done b.
Proof.
  intros [Hsh Hloc Hfoc Hep [Hm Har]]. unfold split_fits.
  destruct (is_leaf l slot) eqn:Hlf; [|rewrite orb_true_r; eauto].
  destruct (bool_decide _); [|eauto]. cbn [negb orb].
  destruct (is_leaf_live l slot Hlf) as (p & sf & Hp & _).
  destruct (heap_find l ts slot p (sh_heap _ _ Hsh) Hp) as (i & C & t & Hi & <-).
  pose proof (shape_trees _ _ Hsh) as Htr.
  destruct (split_target_ok l ts i C t mode Htr Hi) as (o & -> & Hspec). obind.
  destruct o as [s'|]; [|eauto]. destruct (Hspec s' eq_refl) as (C' & t' & HT & <- & _).
  rewrite HT in Hi.
  destruct (inset_total (area l) (px_of (outer_pad (metrics l)))) as (r & -> & _); [done| |].
  { rewrite px_of_ok; apply Hm. }
  obind. rewrite (top_of_ok l ts i C' t' Htr Hi). obind.
  destruct (min_size_total l ts i [] (plug C' t') (Some (root_of t', mode)) Htr Hm Hi) as ([w h] & ->).
  cbn. eauto.
Qed.

(** ** Hosting *)

Lemma hosted_in_place l s n p : local_ok l → get l s = Some p → is_empty_kind (kind p) = true →
  in_place p (hosted n p).
Proof.
  intros Hloc Hp Hk. apply (in_place_keep l s); try done. cbn. by destruct (kind p).
Qed.

Lemma host_into_ok l ts n slot : inv l ts → headroom l →
  ∃ l' o, host_into l n slot = Done (l', o) ∧ later 1 l l' ∧ inv l' ts ∧
    (o = None → l' = l) ∧
    (is_Some o → leaf_surface l' slot = Some n ∧ is_empty_leaf l slot = true ∧ ∀ s, s ≠ slot → get l' s = get l s).
Proof.
  intros Hinv Hroom. unfold host_into, is_empty_leaf.
  destruct (get l slot) as [p|] eqn:Hp; cbn [fmap option_fmap option_map from_option].
  2:{ exists l, None. split; [done|]. split; [unfold later; lia|]. split; [done|]. split; [done|].
      by intros []. }
  destruct (is_empty_kind (kind p)) eqn:Hk.
  2:{ exists l, None. split; [done|]. split; [unfold later; lia|]. split; [done|]. split; [done|].
      by intros []. }
  assert (inv (upd l slot (hosted n)) ts) as Hinv'.
  { apply inv_upd; [done|]. intros q Hq. assert (q = p) as -> by congruence.
    eapply hosted_in_place; [apply Hinv|done..]. }
  assert (epoch (upd l slot (hosted n)) = epoch l) as He.
  { by apply panes_only_fields, panes_only_upd. }
  destruct (inv_bump _ _ Hinv') as [-> Hb]; [unfold headroom in Hroom; rewrite He; lia|].
  obind. eexists _, (Some slot). split; [done|].
  split; [unfold later; cbn; rewrite He; lia|]. split; [done|]. split; [done|].
  intros _. split; [|split; [done|]].
  - unfold leaf_surface. change (get (set_epoch _ ?x) slot) with (get x slot).
    by rewrite (get_upd_eq _ _ _ _ Hp).
  - intros s Hs. by apply (get_upd_ne l).
Qed.

Lemma host_mode_total l ts f p : inv l ts → ∃ o, host_mode l f p = Done o.
Proof.
  intros Hinv. unfold host_mode. case_decide; [|eauto].
  destruct (stack_parent_mode l f) as [pm|].
  - destruct (split_fits_total l ts f pm Hinv) as [b ->]. cbn. eauto.
  - destruct (split_fits_total l ts f (if (rh (content p) <=? rw (content p))%Z then SplitH else SplitV) Hinv)
      as [b ->]. cbn. destruct b; [eauto|].
    destruct (split_fits_total l ts f Stacked Hinv) as [b ->]. cbn. eauto.
Qed.

Lemma split_epoch_room l l' k : headroom l → later k l l' → (k ≤ 100)%Z → (epoch l' < u_max 64)%Z.
Proof. unfold headroom, later. lia. Qed.

(** The surface [n] is in the leaf [f], focused and of the active tree, which
    hosted nothing; every other leaf keeps its face. *)
Definition hosted_at (l l' : Layout) (ts' : list ptree) (n f : nat) : Prop :=
  leaf_surface l' f = Some n ∧ leaf_surface l f = None ∧ focused l' = f ∧
  (∃ T, ts' !! active l' = Some T ∧ f ∈ leaves T) ∧ ∀ s, s ≠ f → face l' s = face l s.

Lemma host_for_ok l ts n conn peer : inv l ts → headroom l →
  ∃ l' o ts', host_for l n conn peer = Done (l', o) ∧ later 2 l l' ∧ inv l' ts' ∧
    match o with
    | None => ts' = ts ∧ ∀ s, get l' s = get l s
    | Some f => hosted_at l l' ts' n f
    end.
Proof.
  intros Hinv Hroom. unfold host_for. set (f := focused l).
  destruct (inv_focus _ _ Hinv) as (T & HT & Hf).
  destruct (negb _ && is_empty_leaf l f) eqn:Hcase.
  { apply andb_true_iff in Hcase as [_ Hemp]. unfold is_empty_leaf in Hemp.
    destruct (get l f) as [p|] eqn:Hp; [|done]. cbn in Hemp.
    assert (inv (upd l f (hosted n)) ts) as Hinv'.
    { apply inv_upd; [done|]. intros q Hq. assert (q = p) as -> by congruence.
      eapply hosted_in_place; [apply Hinv|done..]. }
    pose proof (panes_only_fields _ _ (panes_only_upd l f (hosted n))) as (_ & Ha & Hfo & _ & He & _).
    destruct (inv_bump _ _ Hinv') as [-> Hb]; [unfold headroom in Hroom; rewrite He; lia|].
    obind. eexists _, (Some f), ts. split; [done|].
    split; [unfold later; cbn; rewrite He; lia|]. split; [done|]. split; [|split; [|split; [|split]]].
    - unfold leaf_surface. change (get (set_epoch _ ?x) f) with (get x f).
      by rewrite (get_upd_eq _ _ _ _ Hp).
    - unfold leaf_surface. rewrite Hp. cbn. by destruct (kind p) as [[]|].
    - by cbn; rewrite Hfo.
    - cbn. rewrite Ha. by exists T.
    - intros s Hs. apply face_get. by apply (get_upd_ne l). }
  assert (∃ l' o ts', Done (l, None) = Done (l', o) ∧ later 2 l l' ∧ inv l' ts' ∧
    match o with
    | None => ts' = ts ∧ ∀ s, get l' s = get l s
    | Some f => hosted_at l l' ts' n f
    end) as Hno by (exists l, None, ts; split_and!; (done || unfold later; lia)).
  destruct (get l f) as [p|] eqn:Hp; [|done].
  destruct (host_mode_total l ts f p Hinv) as [[mode|] ->]; [|done]. obind.
  destruct (split_ok l ts f mode Hinv Hroom) as (l1 & o & -> & Hlat & Hdone). obind.
  destruct o as [leaf|].
  2:{ destruct Hdone as (Hi1 & _ & Hg1). exists l1, None, ts. split; [done|]. split; [unfold later in *; lia|done]. }
  destruct Hdone as (i & C & t & c & Hi & Hin & Htg & Hnew & Hinv1 & Hpost & Hface).
  destruct Hpost as (Hfo1 & Ha1 & _ & _ & _ & _ & q & Hq & Hkq).
  assert (i = active l) as ->.
  { eapply trees_disjoint; [apply shape_trees, Hinv|done|done|exact Hin|by apply leaves_nodes]. }
  rewrite decide_True in Hfo1 by done.
  assert (is_leaf l1 leaf = true) as -> by (unfold is_leaf; rewrite Hq; cbn; by rewrite Hkq).
  set (l2 := upd l1 leaf _).
  assert (inv l2 (<[active l := split_tree l C t mode c leaf]> ts)) as Hinv2.
  { apply inv_upd; [done|]. intros q' Hq'. assert (q' = q) as -> by congruence.
    apply (in_place_keep l1 leaf); try done; [apply Hinv1|]. cbn. by rewrite Hkq. }
  pose proof (panes_only_fields _ _ (panes_only_upd l1 leaf (set_kind (Leaf (Some n)))))
    as (_ & Ha2 & Hfo2 & _ & He2 & _). fold l2 in Ha2, Hfo2, He2.
  destruct (inv_bump _ _ Hinv2) as [-> Hb]; [rewrite He2; by eapply split_epoch_room|].
  obind. eexists _, (Some leaf), _. split; [done|].
  split; [unfold later in *; cbn; rewrite He2; lia|]. split; [exact Hb|]. split; [|split; [|split; [|split]]].
  - unfold leaf_surface. change (get (set_epoch _ ?x) leaf) with (get x leaf). unfold l2.
    by rewrite (get_upd_eq _ _ _ _ Hq).
  - unfold leaf_surface. by rewrite Hnew.
  - change (focused (set_epoch _ ?x)) with (focused x). by rewrite Hfo2, Hfo1.
  - change (active (set_epoch _ ?x)) with (active x). destruct (inv_focus _ _ Hb) as (T' & HT' & Hf'). cbn in HT', Hf'. exists T'.
    split; [done|]. by rewrite Hfo2, Hfo1 in Hf'.
  - intros s Hs. rewrite <-(Hface s Hs). apply face_get. by apply (get_upd_ne l1).
Qed.

End PaneHost.
