(* ===== verification/PaneFocus.v ===== *)
(** * Focus, modes, zoom and tabs keep the invariant

    Focusing a pane moves focus to the leaf along its active children and makes
    the path to it active in every ancestor, so that no tab or stack hides it. *)

From stdpp Require Import strings sorting.
From S2P Require Import Prelude Geometry GeometryProofs Carve PaneData PaneTree PaneRep PaneWalks.
From S2P Require Import PaneInv PaneSplit PaneHost.
Import Geometry GeometryProofs PaneData PaneTree PaneRep PaneWalks PaneInv PaneSplit PaneHost.
Open Scope nat_scope.

Module PaneFocus.

(** The layout but for its arena and its epoch. *)
Definition nav (l : Layout) :=
  (workspaces l, active l, focused l, zoomed_id l, metrics l, profile l, area l, id_seq l).

(** Every container of the context shows the child at the hole. *)
Definition revealed (g : nat → option Pane) (C : ctx) : Prop :=
  Forall (λ f, ∃ p m cs, g (fr_slot f) = Some p ∧ kind p = Container m cs (length (fr_left f))) C.

Lemma nav_upd l s f : nav (upd l s f) = nav l.
Proof. unfold nav. destruct (panes_only_upd l s f) as [-> _]. done. Qed.
Lemma epoch_upd l s f : epoch (upd l s f) = epoch l.
Proof. by apply panes_only_fields, panes_only_upd. Qed.
Lemma get_set_epoch e l s : get (set_epoch e l) s = get l s.
Proof. done. Qed.
Lemma get_set_focused f l s : get (set_focused f l) s = get l s.
Proof. done. Qed.

(** ** The reveal *)

Lemma reveal_ok l ts i C t fuel : inv l ts → ts !! i = Some (plug C t) → length C < fuel →
  (epoch l + Z.of_nat (length C) ≤ u_max 64)%Z →
  ∃ l', reveal_f fuel l (root_of t) = Done l' ∧ later (Z.of_nat (length C)) l l' ∧ inv l' ts ∧
    nav l' = nav l ∧ revealed (get l') C ∧ length (panes l') = length (panes l) ∧
    ∀ s, s ∉ fr_slot <$> C → get l' s = get l s.
Proof.
  revert l t fuel. induction C as [|f C IH]; intros l t [|fuel] Hinv Hi Hf Hroom; cbn in Hf; try lia;
    cbn [reveal_f];
    destruct (plug_rep l ts i _ t (shape_trees _ _ (inv_shape _ _ Hinv)) Hi) as (Hc & Ht & Hnd & _);
    apply rep_par in Ht as (p & Hp & Hpar); rewrite Hp; cbn [mbind option_bind]; rewrite Hpar.
  - exists l. split; [done|]. split; [unfold later; cbn; lia|]. split; [done|]. split; [done|].
    split; [constructor|done].
  - cbn [ctx_parent head fmap option_fmap option_map].
    destruct (crep_head _ _ _ _ Hc) as (q & m & a & Hq & Hqpar & Hk & Ha). rewrite Hq.
    cbn [fmap option_fmap option_map]. rewrite Hk.
    rewrite position_mid by (apply (kid_fresh (fr_slot f) _ _ (fr_right f) (ctx_nodes C));
      eapply NoDup_Permutation_proper; [|exact Hnd]; cbn; rewrite bind_app, bind_cons; solve_Permutation).
    rewrite length_fmap.
    assert (fr_slot f ∉ fr_slot <$> C) as Hfresh.
    { cbn in Hnd. apply NoDup_app in Hnd as (_ & _ & Hnd). apply NoDup_cons in Hnd as [Hni _].
      intros (f' & Heq & Hf')%list_elem_of_fmap. apply Hni. rewrite !elem_of_app. right. right.
      rewrite Heq. clear -Hf'. induction C as [|f0 C IH]; [by apply elem_of_nil in Hf'|]. cbn.
      apply elem_of_cons in Hf' as [->|Hf']; [left|]. right. rewrite !elem_of_app. auto. }
    assert (∃ l1, (if negb (a =? length (fr_left f)) then bump (upd l (fr_slot f)
        (set_kind (Container m (roots (fr_left f) ++ root_of t :: roots (fr_right f)) (length (fr_left f)))))
      else Done l) = Done l1 ∧ later 1 l l1 ∧ inv l1 ts ∧ nav l1 = nav l ∧
      length (panes l1) = length (panes l) ∧
      (∀ s, s ≠ fr_slot f → get l1 s = get l s) ∧
      ∃ q' m' cs', get l1 (fr_slot f) = Some q' ∧ kind q' = Container m' cs' (length (fr_left f)))
      as (l1 & -> & Hlat1 & Hinv1 & Hnav1 & Hlen1 & Hg1 & Hrev1).
    { destruct (Nat.eqb_spec a (length (fr_left f))) as [->|Hne]; cbn [negb].
      - exists l. split; [done|]. split; [unfold later; lia|]. split_and!; try done. eauto 6.
      - set (l0 := upd l (fr_slot f) _).
        assert (inv l0 ts) as Hinv0.
        { apply inv_upd; [done|]. intros q' Hq'. assert (q' = q) as -> by congruence.
          apply (in_place_keep l (fr_slot f)); try done; [apply Hinv|]. cbn. rewrite Hk. cbn.
          split; [done|]. rewrite length_app, !length_fmap. cbn. rewrite length_fmap. lia. }
        assert (epoch l0 = epoch l) as He0 by apply epoch_upd.
        destruct (inv_bump l0 ts Hinv0) as [-> Hb]; [rewrite He0; cbn in Hroom; lia|].
        eexists. split; [done|]. split; [unfold later; cbn; rewrite He0; lia|]. split; [done|].
        split; [apply (nav_upd l)|]. split; [apply length_upd|].
        split; [intros s Hs; rewrite get_set_epoch; by apply get_upd_ne|].
        rewrite get_set_epoch. unfold l0. rewrite (get_upd_eq _ _ _ _ Hq). eauto 6. }
    obind.
    destruct (IH l1 (fill f t) fuel Hinv1 Hi) as (l' & Hrv & Hlat & Hinv' & Hnav & Hrev & Hlen & Hg);
      [lia|unfold later in Hlat1; cbn in Hroom; lia|].
    cbn [root_of fill] in Hrv. exists l'. split; [exact Hrv|].
    split; [unfold later in *; cbn; lia|]. split; [done|]. split; [congruence|]. split; [|split; [congruence|]].
    + constructor; [|done]. by rewrite Hg.
    + intros s Hs. rewrite fmap_cons, not_elem_of_cons in Hs. rewrite Hg by tauto. apply Hg1. tauto.
Qed.

Lemma crep_container g C r f : crep g C r → f ∈ C →
  ∃ p m cs a, g (fr_slot f) = Some p ∧ kind p = Container m cs a.
Proof.
  induction 1 as [|f' C r p m a H1 H2 H3 H4 H5 H6 IH]; [by intros ?%elem_of_nil|].
  intros [->|Hf]%elem_of_cons; [eauto 6|by apply IH].
Qed.

(** ** Focus *)

Lemma in_active_dead l ts slot : shape l ts → get l slot = None →
  in_active_root l slot = Done false.
Proof.
  intros Hsh Hn. destruct (shape_root l ts (shape_skel _ _ Hsh)) as (T & HT & Hroot).
  unfold in_active_root, tree_fuel. cbn [in_active_root_f]. rewrite Hroot, Hn. cbn.
  rewrite (proj2 (Nat.eqb_neq _ _)); [done|]. intros ->.
  assert (rep (get l) None T) as Hr.
  { eapply (Forall_lookup_1 _ _ _ _ (heap_rep _ _ (sh_heap _ _ Hsh))), HT. }
  apply rep_par in Hr as (p & Hp & _). congruence.
Qed.

(** In an active tree or not, the test answers. *)
Lemma in_active_cases l ts slot : shape l ts →
  in_active_root l slot = Done false ∨
  ∃ C t, ts !! active l = Some (plug C t) ∧ root_of t = slot ∧ in_active_root l slot = Done true.
Proof.
  intros Hsh. destruct (get l slot) as [p|] eqn:Hp; [|left; by eapply in_active_dead].
  destruct (heap_find l ts slot p (sh_heap _ _ Hsh) Hp) as (i & C & t & Hi & <-).
  pose proof (in_active_spec l ts i C t (shape_skel _ _ Hsh) Hi) as Ha.
  case_bool_decide; [|by left]. right. subst i. by exists C, t.
Qed.

Lemma plug_follow C t s : s ∈ leaves t → ∃ C', plug C t = plug (C' ++ C) (TLeaf s) ∧ t = plug C' (TLeaf s).
Proof. intros (C' & ->)%find_leaf. exists C'. by rewrite plug_app. Qed.

(** What a focus that succeeds leaves: a revealed leaf of the active tree. *)
Definition focus_done (l' : Layout) (ts : list ptree) : Prop :=
  ∃ C, ts !! active l' = Some (plug C (TLeaf (focused l'))) ∧ revealed (get l') C.

Lemma depth_bound l ts i C t : local_ok l → trees (get l) ts → ts !! i = Some (plug C t) →
  length C < 32.
Proof.
  intros Hl Htr Hi. destruct (plug_rep l ts i C t Htr Hi) as (_ & _ & _ & Hsz).
  pose proof (nodes_nonempty t). pose proof (lo_len l Hl). unfold MAX_PANES in *. lia.
Qed.

Lemma focus_ok l ts slot : inv l ts → (epoch l + 40 ≤ u_max 64)%Z →
  ∃ l' b, focus l slot = Done (l', b) ∧ later 33 l l' ∧ inv l' ts ∧
    workspaces l' = workspaces l ∧ active l' = active l ∧ zoomed_id l' = zoomed_id l ∧
    profile l' = profile l ∧ (∀ s, is_leaf l s = true → get l' s = get l s) ∧
    (b = false → l' = l ∧ in_active_root l slot = Done false) ∧
    (b = true → focus_done l' ts ∧
      ∃ C t, ts !! active l = Some (plug C t) ∧ root_of t = slot ∧ focused l' ∈ leaves t).
Proof.
  intros Hinv Hroom. pose proof (inv_shape _ _ Hinv) as Hsh. unfold focus.
  destruct (in_active_cases l ts slot Hsh) as [-> | (C & t & HT & <- & ->)];
    cbn [mbind outcome_bind negb].
  { exists l, false. split; [done|]. split; [unfold later; lia|]. done. }
  destruct (first_leaf_spec l ts _ C t (shape_trees _ _ Hsh) HT) as (s & -> & Hs).
  obind. apply follows_in in Hs.
  destruct (plug_follow C t s Hs) as (C' & HC' & Ht').
  assert (∃ l1, (if negb (focused l =? s) then bump (set_focused s l) else Done l) = Done l1 ∧
    later 1 l l1 ∧ inv l1 ts ∧ focused l1 = s ∧ active l1 = active l ∧
    workspaces l1 = workspaces l ∧ zoomed_id l1 = zoomed_id l ∧ profile l1 = profile l ∧
    panes l1 = panes l)
    as (l1 & -> & Hlat1 & Hinv1 & Hf1 & Ha1 & Hw1 & Hz1 & Hp1 & Hpn1).
  { destruct (Nat.eqb_spec (focused l) s) as [<-|Hne]; cbn [negb].
    - exists l. split; [done|]. split; [unfold later; lia|done].
    - assert (inv (set_focused s l) ts) as Hinv0.
      { eapply inv_set_focus; [done|exact HT|]. by apply leaves_in_plug. }
      destruct (inv_bump _ ts Hinv0) as [-> Hb]; [cbn; lia|].
      eexists. split; [done|]. split; [unfold later; cbn; lia|done]. }
  obind. rewrite HC' in HT. rewrite <-Ha1 in HT.
  pose proof (depth_bound l1 ts _ _ _ (inv_local _ _ Hinv1) (shape_trees _ _ (inv_shape _ _ Hinv1)) HT).
  destruct (plug_rep l1 ts _ _ _ (shape_trees _ _ (inv_shape _ _ Hinv1)) HT) as (Hc1 & _ & Hnd1 & Hsz1).
  destruct (reveal_ok l1 ts _ _ (TLeaf s) (tree_fuel l1) Hinv1 HT)
    as (l' & Hrv & Hlat & Hinv' & Hnav & Hrev & Hlen & Hg);
    [unfold tree_fuel; lia|unfold later in Hlat1; lia|].
  cbn [root_of] in Hrv. rewrite Hrv. obind.
  unfold nav in Hnav. injection Hnav as Nw Na Nf Nz Nm Np Nar Ni.
  exists l', true. split; [done|]. split; [unfold later in *; lia|]. split; [done|].
  split; [congruence|]. split; [congruence|]. split; [congruence|]. split; [congruence|].
  split; [|split; [done|]].
  - intros s0 Hlf. rewrite Hg; [unfold get; by rewrite Hpn1|].
    intros (f & -> & Hf)%list_elem_of_fmap.
    destruct (crep_container _ _ _ f Hc1 Hf) as (p & m & cs & a & Hp & Hk).
    unfold get in Hp. rewrite Hpn1 in Hp. unfold is_leaf, get in Hlf. rewrite Hp in Hlf. cbn in Hlf.
    by rewrite Hk in Hlf.
  - intros _. split.
    + exists (C' ++ C). by rewrite Na, Nf, Hf1.
    + exists C, t. rewrite <-Ha1, HT, HC'. split; [done|]. split; [done|]. by rewrite Nf, Hf1.
Qed.

(** ** Modes and zoom *)

Lemma set_mode_ok l ts slot mode : inv l ts → headroom l →
  ∃ l' b, set_mode l slot mode = Done (l', b) ∧ later 1 l l' ∧ inv l' ts ∧ (b = false → l' = l) ∧
    (b = true → ∃ t, mode_target l slot = Some t ∧ mode_of l' t = Some mode).
Proof.
  intros Hinv Hroom. unfold set_mode.
  assert (∃ l' b, Done (l, false) = Done (l', b) ∧ later 1 l l' ∧ inv l' ts ∧ (b = false → l' = l) ∧
    (b = true → ∃ t, mode_target l slot = Some t ∧ mode_of l' t = Some mode)) as Hno.
  { exists l, false. split; [done|]. split; [unfold later; lia|]. done. }
  destruct (stacking_refused l slot mode); [done|].
  destruct (mode_target l slot) as [t|]; [|done].
  destruct (get l t) as [p|] eqn:Hp; [|done]. cbn [fmap option_fmap option_map].
  destruct (kind p) as [|m cs a] eqn:Hk; [done|]. case_decide as Hd.
  - set (l1 := upd l t _). assert (inv l1 ts) as Hinv1.
    { apply inv_upd; [done|]. intros q Hq. assert (q = p) as -> by congruence.
      apply (in_place_keep l t); try done; [apply Hinv|]. cbn. by rewrite Hk. }
    assert (epoch l1 = epoch l) as He by apply epoch_upd.
    destruct (inv_bump _ _ Hinv1) as [-> Hb]; [unfold headroom in Hroom; rewrite He; lia|].
    obind. eexists _, true. split; [done|].
    split; [unfold later; cbn; rewrite He; lia|]. split; [done|]. split; [done|]. intros _.
    exists t. split; [done|]. unfold mode_of. rewrite get_set_epoch. unfold l1.
    by rewrite (get_upd_eq _ _ _ _ Hp).
  - exists l, true. split; [done|]. split; [unfold later; lia|]. split; [done|]. split; [done|].
    intros _. exists t. split; [done|]. unfold mode_of. rewrite Hp. cbn. rewrite Hk.
    destruct (decide (m = mode)); congruence.
Qed.

Lemma zoom_toggle_ok l ts slot : inv l ts → headroom l →
  ∃ l' b, zoom_toggle l slot = Done (l', b) ∧ later 34 l l' ∧ inv l' ts ∧ (b = false → l' = l).
Proof.
  intros Hinv Hroom. unfold zoom_toggle. pose proof (inv_shape _ _ Hinv) as Hsh.
  assert (∃ l' b, Done (l, false) = Done (l', b) ∧ later 34 l l' ∧ inv l' ts ∧ (b = false → l' = l)) as Hno.
  { exists l, false. split; [done|]. split; [unfold later; lia|]. done. }
  destruct (is_leaf l slot) eqn:Hlf; [|done]. cbn [negb].
  destruct (in_active_cases l ts slot Hsh) as [-> | (C & t & HT & Hr & ->)];
    cbn [mbind outcome_bind negb]; [done|].
  destruct (is_leaf_live l slot Hlf) as (p & sf & Hp & _).
  unfold id_of. rewrite Hp. cbn [fmap option_fmap option_map].
  assert (∃ l1, (if decide (zoomed_id l = Some (pid p)) then Done (set_zoomed_id None l)
      else '(l0, _) ← focus (set_zoomed_id (Some (pid p)) l) slot; Done l0) = Done l1 ∧
      later 33 l l1 ∧ inv l1 ts) as (l1 & -> & Hlat & Hinv1).
  { case_decide.
    - eexists. split; [done|]. split; [unfold later; cbn; lia|]. by apply inv_zoom.
    - destruct (focus_ok (set_zoomed_id (Some (pid p)) l) ts slot) as (l1 & b & -> & Hlat & Hinv1 & _);
        [by apply inv_zoom|unfold headroom in Hroom; cbn; lia|].
      cbn. eexists. split; [done|]. split; [unfold later in *; cbn in Hlat; lia|done]. }
  obind.
  destruct (inv_bump _ _ Hinv1) as [-> Hb]; [unfold headroom, later in *; lia|].
  cbn. eexists _, true. split; [done|]. split; [unfold later in *; cbn; lia|]. done.
Qed.

Lemma unzoom_ok l ts : inv l ts → headroom l →
  ∃ l', unzoom l = Done l' ∧ later 1 l l' ∧ inv l' ts ∧ zoomed_id l' = None.
Proof.
  intros Hinv Hroom. unfold unzoom. destruct (zoomed_id l) as [z|] eqn:Hz.
  - pose proof (inv_zoom l ts None Hinv) as Hinv1.
    destruct (inv_bump _ _ Hinv1) as [-> Hb]; [unfold headroom in Hroom; cbn; lia|].
    eexists. split; [done|]. split; [unfold later; cbn; lia|]. done.
  - exists l. split; [done|]. split; [unfold later; lia|]. done.
Qed.

(** ** Tabs *)

Lemma cycle_next_lt k forward bg n next : 0 < n → next < n → cycle_next k forward bg n next < n.
Proof.
  intros Hn. revert next. induction k as [|k IH]; intros next Hx; cbn [cycle_next]; [done|].
  destruct (negb _).
  - destruct forward; apply Nat.mod_upper_bound; lia.
  - apply IH. destruct forward; apply Nat.mod_upper_bound; lia.
Qed.

Lemma tab_cycle_at_ok l ts i C s cs forward : inv l ts → headroom l →
  ts !! i = Some (plug C (TNode s cs)) →
  ∃ l' b, tab_cycle_at l s forward = Done (l', b) ∧ later 34 l l' ∧ inv l' ts.
Proof.
  intros Hinv Hroom Hi. pose proof (inv_shape _ _ Hinv) as Hsh.
  destruct (plug_rep l ts i C _ (shape_trees _ _ Hsh) Hi) as (_ & Ht & _ & Hsz).
  inversion Ht as [|? ? p m a ? Hp Hpar Hk Ha Hcs]; subst. unfold tab_cycle_at. rewrite Hp.
  cbn [fmap option_fmap option_map]. rewrite Hk.
  destruct (mapM_total (is_bg_subtree l) (roots cs)) as (bg & -> & _).
  { intros c (t & -> & Hin)%list_elem_of_fmap. apply list_elem_of_split in Hin as (ls & rs & ->).
    eexists. by apply (bg_spec l ts i (mkFrame s ls rs :: C) t (shape_trees _ _ Hsh)). }
  obind.
  assert (0 < length (roots cs)) as Hpos by (rewrite length_fmap; lia).
  destruct (roots cs) as [|r0 rs0] eqn:Hroots; [cbn in Hpos; lia|]. rewrite <-Hroots in *.
  pose proof (cycle_next_lt (length (roots cs)) forward bg (length (roots cs)) a Hpos) as Hnext.
  rewrite length_fmap in Hnext at 1. specialize (Hnext Ha).
  set (next := cycle_next _ _ _ _ _) in *.
  destruct (lookup_lt_is_Some_2 (roots cs) next Hnext) as [target ->]. cbn [unwrap mbind outcome_bind].
  set (l1 := upd l s _). assert (inv l1 ts) as Hinv1.
  { apply inv_upd; [done|]. intros q Hq. assert (q = p) as -> by congruence.
    apply (in_place_keep l s); try done; [apply Hinv|]. cbn. by rewrite Hk. }
  assert (epoch l1 = epoch l) as He by apply epoch_upd.
  destruct (inv_bump _ _ Hinv1) as [-> Hb]; [unfold headroom in Hroom; rewrite He; lia|].
  obind.
  destruct (focus_ok _ ts target Hb) as (l' & b & -> & Hlat & Hinv' & _).
  { unfold headroom in Hroom. cbn. rewrite He. lia. }
  exists l', b. split; [done|]. split; [|done]. unfold later in *. cbn in Hlat. rewrite He in Hlat. lia.
Qed.

Lemma tab_cycle_walk l ts i C t fuel forward : inv l ts → headroom l →
  ts !! i = Some (plug C t) → length C < fuel →
  ∃ l' b, tab_cycle_f fuel l (root_of t) forward = Done (l', b) ∧ later 34 l l' ∧ inv l' ts.
Proof.
  intros Hinv Hroom. pose proof (shape_trees _ _ (inv_shape _ _ Hinv)) as Htr. revert t fuel.
  induction C as [|f C IH]; intros t [|fuel] Hi Hf; cbn in Hf; try lia; cbn [tab_cycle_f];
    destruct (plug_rep l ts i _ t Htr Hi) as (Hc & Ht & _ & _);
    apply rep_par in Ht as (p & Hp & Hpar); rewrite Hp; cbn [mbind option_bind]; rewrite Hpar.
  - exists l, false. split; [done|]. split; [unfold later; lia|done].
  - cbn [ctx_parent head fmap option_fmap option_map]. destruct (is_tab l (fr_slot f)).
    + by apply (tab_cycle_at_ok l ts i C _ (fr_left f ++ t :: fr_right f)).
    + apply (IH (fill f t)); [done|lia].
Qed.

Lemma tab_cycle_ok l ts forward : inv l ts → headroom l →
  ∃ l' b, tab_cycle l forward = Done (l', b) ∧ later 34 l l' ∧ inv l' ts.
Proof.
  intros Hinv Hroom. destruct (inv_focus _ _ Hinv) as (T & HT & Hf).
  destruct (find_leaf T _ Hf) as [C ->]. unfold tab_cycle.
  apply (tab_cycle_walk l ts _ C (TLeaf (focused l)) _ forward Hinv Hroom HT).
  destruct (plug_rep l ts _ _ _ (shape_trees _ _ (inv_shape _ _ Hinv)) HT) as (_ & _ & _ & Hsz).
  unfold tree_fuel. cbn in Hsz. lia.
Qed.

(** ** Spatial focus *)

Lemma overlap_total a1 l1 a2 l2 : (a1 + l1 ≤ u_max 32)%Z → (a2 + l2 ≤ u_max 32)%Z →
  overlap a1 l1 a2 l2 = Done (sat_sub (Z.min (a1 + l1) (a2 + l2)) (Z.max a1 a2)).
Proof. intros H1 H2. unfold overlap. by rewrite !uadd_ok. Qed.

(** [r] lies wholly on the [dir] side of [fr]; the gap between them, and what
    they share of the other axis. *)
Definition ahead (dir : Dir) (fr r : Rect) : bool :=
  (match dir with
   | Left => rx r + rw r <=? rx fr | Right => rx fr + rw fr <=? rx r
   | Up => ry r + rh r <=? ry fr | Down => ry fr + rh fr <=? ry r
   end)%Z.
Definition dir_gap (dir : Dir) (fr r : Rect) : Z :=
  (match dir with
   | Left => rx fr - (rx r + rw r) | Right => rx r - (rx fr + rw fr)
   | Up => ry fr - (ry r + rh r) | Down => ry r - (ry fr + rh fr)
   end)%Z.
Definition dir_common (dir : Dir) (fr r : Rect) : Z :=
  (match dir with
   | Left | Right => Z.min (ry r + rh r) (ry fr + rh fr) - Z.max (ry r) (ry fr)
   | Up | Down => Z.min (rx r + rw r) (rx fr + rw fr) - Z.max (rx r) (rx fr)
   end)%Z.

Lemma candidate_spec dir fr r : rect_ok fr → rect_ok r →
  ∃ d, candidate dir fr r = Done (ahead dir fr r, d, Z.max (dir_common dir fr r) 0) ∧
    (ahead dir fr r = true → d = dir_gap dir fr r).
Proof.
  intros (_ & _ & _ & _ & F1 & F2) (_ & _ & _ & _ & R1 & R2).
  destruct dir; cbn [candidate ahead dir_gap dir_common]; rewrite uadd_ok by done; obind;
    rewrite overlap_total by done; obind;
    (eexists; split; [reflexivity|]; rewrite Z.leb_le; unfold sat_sub; lia).
Qed.

(** A leaf the focus may move to, and the order among them: nearer, then more
    of the edge shared. *)
Definition beside (l : Layout) (dir : Dir) (fr : Rect) (s : nat) (p : Pane) : Prop :=
  get l s = Some p ∧ s ≠ focused l ∧ is_leaf l s = true ∧ visible p = true ∧ focusable p = true ∧
  ahead dir fr (rect p) = true ∧ (0 < dir_common dir fr (rect p))%Z.
Definition no_farther (dir : Dir) (fr r r' : Rect) : Prop :=
  (dir_gap dir fr r < dir_gap dir fr r')%Z ∨
  (dir_gap dir fr r = dir_gap dir fr r' ∧ dir_common dir fr r' ≤ dir_common dir fr r)%Z.

(** The best of the leaves among the slots [ns]. *)
Definition best_of (l : Layout) (dir : Dir) (fr : Rect) (ns : list nat) (o : option (nat * Z * Z)) : Prop :=
  match o with
  | None => ∀ s p, s ∈ ns → ¬ beside l dir fr s p
  | Some (s, d, v) => ∃ p, beside l dir fr s p ∧ d = dir_gap dir fr (rect p) ∧ v = dir_common dir fr (rect p) ∧
      ∀ s' p', s' ∈ ns → beside l dir fr s' p' → no_farther dir fr (rect p) (rect p')
  end.

Section neighbor.
Context (l : Layout) (dir : Dir) (fr : Rect) (Hloc : local_ok l) (Hfr : rect_ok fr).

Lemma best_skip ns best s : best_of l dir fr ns best → (∀ p, ¬ beside l dir fr s p) → best_of l dir fr (s :: ns) best.
Proof using.
  destruct best as [[[s0 d] v]|]; cbn [best_of].
  - intros (p & Hb & Hd & Hv & Hbest) Hno. exists p. split; [done|]. split; [done|]. split; [done|].
    intros s' p' [->|Hs']%elem_of_cons Hb'; [by apply Hno in Hb'|by eapply Hbest].
  - intros H Hno s' p' [->|Hs']%elem_of_cons Hb'; [by apply Hno in Hb'|by eapply H].
Qed.

Lemma neighbor_step_ok ns best s id : best_of l dir fr ns best →
  ∃ best', neighbor_step l dir fr best (s, id) = Done best' ∧ best_of l dir fr (s :: ns) best'.
Proof using Hloc Hfr.
  intros Hbest. unfold neighbor_step. cbn [fst].
  assert ((∀ p, ¬ beside l dir fr s p) → ∃ best', Done best = Done best' ∧ best_of l dir fr (s :: ns) best') as Hskip.
  { intros Hno. exists best. split; [done|]. by apply best_skip. }
  destruct (Nat.eqb_spec s (focused l)) as [Hf|Hf]; [cbn [orb]; apply Hskip; by intros p (_ & ? & _)|].
  destruct (is_leaf l s) eqn:Hlf; cbn [negb orb]; [|apply Hskip; intros p (_ & _ & ? & _); congruence].
  destruct (is_leaf_live l s Hlf) as (q & sf & Hq & _). rewrite Hq. cbn [unwrap mbind outcome_bind].
  destruct (visible q) eqn:Hv; cbn [negb orb];
    [|apply Hskip; intros p (Hp & _ & _ & ? & _); congruence].
  destruct (focusable q) eqn:Hfo; cbn [negb];
    [|apply Hskip; intros p (Hp & _ & _ & _ & ? & _); congruence].
  destruct (candidate_spec dir fr (rect q) Hfr (lo_rect l Hloc s q Hq)) as (d & -> & Hd). obind.
  destruct (ahead dir fr (rect q)) eqn:Hah; cbn [negb orb];
    [|apply Hskip; intros p (Hp & _ & _ & _ & _ & ? & _); congruence].
  specialize (Hd eq_refl).
  destruct (Z.eqb_spec (Z.max (dir_common dir fr (rect q)) 0) 0) as [Hz|Hz].
  { apply Hskip. intros p (Hp & _ & _ & _ & _ & _ & Hc). assert (p = q) as -> by congruence. lia. }
  rewrite Z.max_l by lia. assert (beside l dir fr s q) as Hbs by (unfold beside; split_and!; (done || lia)).
  eexists. split; [done|]. destruct best as [[[s0 d0] v0]|]; cbn [best_of] in Hbest.
  - destruct Hbest as (p & Hb & -> & -> & Hall).
    assert (∀ s' p', s' ∈ s :: ns → beside l dir fr s' p' → p' = q ∨ s' ∈ ns) as Hcases.
    { intros s' p' [->|Hs']%elem_of_cons (Hp' & _); [left; congruence|by right]. }
    destruct (_ || _) eqn:Hbet; cbn [best_of].
    + apply orb_true_iff in Hbet. rewrite andb_true_iff, !Z.ltb_lt, Z.eqb_eq, Hd in Hbet.
      exists q. split; [done|]. split; [done|]. split; [done|]. intros s' p' Hs' Hb'.
      destruct (Hcases s' p' Hs' Hb') as [->|Hn]; [right; lia|].
      destruct (Hall s' p' Hn Hb') as [?|[? ?]]; unfold no_farther; lia.
    + apply orb_false_iff in Hbet. rewrite andb_false_iff, !Z.ltb_ge, Z.eqb_neq, Hd in Hbet.
      exists p. split; [done|]. split; [done|]. split; [done|]. intros s' p' Hs' Hb'.
      destruct (Hcases s' p' Hs' Hb') as [->|Hn]; [unfold no_farther; lia|by eapply Hall].
  - cbn [best_of]. exists q. split; [done|]. split; [done|]. split; [done|]. intros s' p' [->|Hs']%elem_of_cons Hb'.
    + destruct Hb' as [Hp' _]. assert (p' = q) as -> by congruence. right. lia.
    + by apply Hbest in Hb'.
Qed.

Lemma neighbor_fold xs ns best : best_of l dir fr ns best →
  ∃ best', foldM (neighbor_step l dir fr) best xs = Done best' ∧ best_of l dir fr (reverse (fst <$> xs) ++ ns) best'.
Proof using Hloc Hfr.
  revert ns best. induction xs as [|[s id] xs IH]; intros ns best Hb; [by exists best|]. cbn [foldM].
  destruct (neighbor_step_ok ns best s id Hb) as (b1 & -> & Hb1). obind.
  destruct (IH (s :: ns) b1 Hb1) as (b2 & -> & Hb2). exists b2. split; [done|].
  by rewrite fmap_cons, reverse_cons, <-app_assoc.
Qed.
End neighbor.

Lemma live_ids_slots l s p : get l s = Some p → s ∈ fst <$> live_ids l.
Proof.
  intros Hp. apply list_elem_of_fmap. exists (s, pid p). split; [done|]. unfold live_ids.
  apply list_elem_of_omap. exists (s, Some p). split; [|done]. apply elem_of_lookup_imap. exists s, (Some p).
  split; [done|]. unfold get in Hp. destruct (panes l !! s) as [o|]; [|done]. cbn in Hp. by subst.
Qed.

(** The neighbour of the focus in a direction. *)
Lemma neighbor_ok l ts dir p : inv l ts → get l (focused l) = Some p →
  ∃ o, neighbor_dir l dir = Done o ∧
  match o with
  | None => ∀ s q, ¬ beside l dir (rect p) s q
  | Some s => ∃ q, beside l dir (rect p) s q ∧
      ∀ s' q', beside l dir (rect p) s' q' → no_farther dir (rect p) (rect q) (rect q')
  end.
Proof.
  intros Hinv Hp. pose proof (inv_local _ _ Hinv) as Hloc. unfold neighbor_dir. rewrite Hp.
  destruct (neighbor_fold l dir (rect p) Hloc (lo_rect l Hloc _ _ Hp) (live_ids l) [] None)
    as (b & -> & Hb); [by intros s q ?%elem_of_nil|]. obind. eexists. split; [done|].
  rewrite app_nil_r in Hb.
  assert (∀ s q, beside l dir (rect p) s q → s ∈ reverse (fst <$> live_ids l)) as Hin.
  { intros s q [Hq _]. apply elem_of_reverse. by eapply live_ids_slots. }
  destruct b as [[[s d] v]|]; cbn in *.
  - destruct Hb as (q & Hq & _ & _ & Hall). eauto 6.
  - intros s q Hq. by eapply Hb; [eapply Hin|].
Qed.

Lemma neighbor_total l ts dir : inv l ts → ∃ o, neighbor_dir l dir = Done o.
Proof.
  intros Hinv. unfold neighbor_dir. destruct (get l (focused l)) as [p|] eqn:Hp; [|eauto].
  destruct (neighbor_ok l ts dir p Hinv Hp) as (o & Ho & _). unfold neighbor_dir in Ho. rewrite Hp in Ho. eauto.
Qed.

Lemma focus_dir_ok l ts dir : inv l ts → headroom l →
  ∃ l' b, focus_dir l dir = Done (l', b) ∧ later 33 l l' ∧ inv l' ts.
Proof.
  intros Hinv Hroom. unfold focus_dir. destruct (neighbor_total l ts dir Hinv) as [[s|] ->].
  - obind.
    destruct (focus_ok l ts s Hinv) as (l' & b & -> & Hlat & Hinv' & _);
      [unfold headroom in Hroom; lia|]. eauto 6.
  - exists l, false. split; [done|]. split; [unfold later; lia|done].
Qed.

End PaneFocus.
