(* ===== verification/PaneClose.v ===== *)
(** * Closing and detaching keep the invariant

    Closing a pane frees its subtree; a container left with one child dissolves
    into it.  Between the removal and the dissolution the layout is only [loose]:
    a container may have a single child, and a detached pane may be live without
    a place in any tree. *)

From stdpp Require Import strings sorting.
From S2P Require Import Prelude Geometry GeometryProofs Carve PaneData PaneTree PaneRep PaneWalks.
From S2P Require Import PaneInv PaneSplit PaneHost PaneFocus.
Import Geometry GeometryProofs PaneData PaneTree PaneRep PaneWalks PaneInv PaneSplit PaneHost PaneFocus.
Open Scope nat_scope.

Module PaneClose.

(** The invariant but for the widths, the focus and the slots [xs]. *)
Record loose (xs : list nat) (l : Layout) (ts : list ptree) : Prop := mkLoose {
  lq_heap : heap (masked xs (get l)) ts;
  lq_roots : ws_root <$> workspaces l = root_of <$> ts;
  lq_nums : numbers_ok (workspaces l);
  lq_active : active l < length ts;
  lq_local : local_ok l;
  lq_epoch : (0 ≤ epoch l)%Z;
  lq_env : env_ok l }.

Definition focus_in (l : Layout) (ts : list ptree) : Prop :=
  ∃ T, ts !! active l = Some T ∧ focused l ∈ leaves T.

(** A container with one child gives way to it. *)
Definition dissolved (par : nat) (cs : list ptree) : ptree :=
  match cs with [t] => t | _ => TNode par cs end.

(** ** The loose invariant *)

Lemma inv_loose l ts : inv l ts → loose [] l ts.
Proof.
  intros [[H1 H2 H3 H4 H5] Hloc Hfoc Hep Henv]. by split.
Qed.
Lemma loose_inv l ts : loose [] l ts → Forall wide ts → focus_in l ts → inv l ts.
Proof.
  intros [H1 H2 H4 H5 Hloc Hep Henv] Hw Hf. by split.
Qed.
Lemma loose_skel xs l ts : loose xs l ts → skel l ts.
Proof. intros [H1 H2 H4 H5 _ _ _]. split; try done. eapply trees_hide, heap_trees, H1. Qed.
Lemma loose_out xs l ts i C t s : loose xs l ts → ts !! i = Some (plug C t) →
  s ∈ nodes t ++ ctx_nodes C → s ∉ xs ∧ masked xs (get l) s = get l s.
Proof.
  intros Hl Hi Hs. assert (s ∉ xs) as Hx; [|by rewrite hide_out].
  apply (heap_hide_nodes xs (get l) ts); [apply Hl|]. apply list_elem_of_bind. exists (plug C t).
  split; [by rewrite nodes_plug|by eapply list_elem_of_lookup_2].
Qed.

Lemma wide_dissolved C par cs : wide_ctx C → Forall wide cs → cs ≠ [] → wide (plug C (dissolved par cs)).
Proof.
  intros HC Hcs Hne. apply wide_plug. split; [|done].
  destruct cs as [|t [|t' cs]]; [done|by apply Forall_cons in Hcs as [? _]|].
  cbn [dissolved]. apply wide_node. split; [cbn; lia|done].
Qed.

Lemma rewired_numbers l i C r : number <$> rewired l i C r = number <$> workspaces l.
Proof.
  destruct C as [|f C]; [|done]. cbn. apply list_eq. intros j. rewrite !list_lookup_fmap.
  destruct (decide (i = j)) as [<-|]; [|by rewrite list_lookup_alter_ne].
  rewrite list_lookup_alter_eq. by destruct (workspaces l !! i).
Qed.

(** ** Dissolving *)

(** A container of one child gives its place to the child. *)
Lemma heap_dissolve g g' ts i C par t q q' : heap g ts → ts !! i = Some (plug C (TNode par [t])) →
  g (root_of t) = Some q → g' (root_of t) = Some q' → parent q' = ctx_parent C → kind q' = kind q →
  g' par = None → hole_ok g g' C (root_of t) →
  (∀ s, s ≠ par → s ≠ root_of t → ctx_parent C ≠ Some s → g' s = g s) →
  heap g' (<[i := plug C t]> ts).
Proof.
  intros Hh Hi Hq Hq' Hpar Hk Hn Hhole Hg.
  assert (plug C (TNode par [t]) ∈ ts) as Hin by by eapply list_elem_of_lookup_2.
  destruct (heap_inv_tree g ts C _ Hh Hin) as (Hc & Ht & Hnd).
  inversion Ht as [|? ? p m a ? _ _ _ _ Hcs]; subst. apply Forall_cons in Hcs as [Hcs _].
  cbn in Hnd. rewrite app_nil_r in Hnd. apply NoDup_cons in Hnd as [Hni Hnd].
  apply (surgery_at g g' ts i C (TNode par [t]) t [] [par] Hh Hi).
  - cbn. rewrite app_nil_r. solve_Permutation.
  - constructor.
  - by intros s ?%elem_of_nil.
  - by intros s ->%list_elem_of_singleton.
  - intros s H1 _ H2. rewrite Hg; [apply sim_refl|intros ->..|done].
    + apply H1. cbn. by left.
    + apply H1. cbn. right. apply elem_of_app. left. apply nodes_root.
  - done.
  - intros _. apply (rep_reparent g g' (Some par) (ctx_parent C) t q q'); try done.
    + by apply NoDup_app in Hnd as [? _].
    + rewrite Hk. apply same_kind_refl.
    + intros s Hs Hne. rewrite Hg; [apply sim_refl|intros ->; set_solver|done|].
      intros Hpp%ctx_parent_in. apply NoDup_app in Hnd as (_ & Hd & _). by apply (Hd s).
Qed.

(** The root of a subtree is neither above it nor its only child. *)
Lemma only_child_apart par t C : NoDup (nodes (TNode par [t]) ++ ctx_nodes C) →
  root_of t ≠ par ∧ ctx_parent C ≠ Some par ∧ ctx_parent C ≠ Some (root_of t).
Proof.
  cbn. rewrite app_nil_r. intros [Hni Hnd]%NoDup_cons. pose proof (nodes_root t) as Hr.
  apply NoDup_app in Hnd as (_ & Hd & _). split; [intros <-; apply Hni, elem_of_app; by left|].
  split; intros HC%ctx_parent_in; [apply Hni, elem_of_app; by right|by apply (Hd _ Hr)].
Qed.

Lemma dissolve_run l ts i C par t p : skel l ts → local_ok l →
  ts !! i = Some (plug C (TNode par [t])) → get l par = Some p → focused l ≠ par →
  ∃ l' q, dissolve_if_single l par = Done l' ∧ get l (root_of t) = Some q ∧
    get l' (root_of t) = Some (set_parent (ctx_parent C) (set_weight (weight p) q)) ∧
    get l' par = None ∧ (∀ s, s ≠ par → s ≠ root_of t → ctx_parent C ≠ Some s → get l' s = get l s) ∧
    hole_ok (get l) (get l') C (root_of t) ∧ rest l' = rest l ∧
    workspaces l' = rewired l i C (root_of t) ∧ local_ok l'.
Proof.
  intros Hsk Hloc Hi Hp Hf.
  destruct (plug_rep l ts i C _ (sk_trees _ _ Hsk) Hi) as (Hc & Ht & Hnd & _).
  inversion Ht as [|? ? p' m a ? Hp' Hpar Hk Ha Hcs]; subst. assert (p' = p) as -> by congruence.
  unfold dissolve_if_single. rewrite Hp, Hk. cbn [fmap list_fmap].
  apply Forall_cons in Hcs as [Hcs _]. pose proof (rep_par _ _ _ Hcs) as (q & Hq & Hqpar).
  destruct (only_child_apart par t C Hnd) as (Htp & Hnp' & Hnp).
  erewrite upd_unwrap_ok by exact Hq. obind.
  set (l1 := upd l (root_of t) (set_weight (weight p))).
  assert (get l1 (root_of t) = Some (set_weight (weight p) q)) as G1t by (by apply get_upd_eq).
  assert (∀ s, s ≠ root_of t → get l1 s = get l s) as G1 by (intros; by apply get_upd_ne).
  assert (skel l1 ts) as Hsk1.
  { eapply skel_agree; [exact Hsk|by apply panes_only_fields, panes_only_upd..|].
    intros s _. destruct (decide (s = root_of t)) as [->|]; [|rewrite G1 by done; apply sim_refl].
    rewrite G1t, Hq. split; [done|apply same_kind_refl]. }
  assert (local_ok l1) as Hloc1 by (apply local_upd_weight; [done|by eapply (lo_weight l)]).
  destruct (rename_hole_ok l1 ts i C (TNode par [t]) (root_of t) Hsk1 Hi)
    as (l2 & Hren & Hg2 & Hr2 & Hw2 & Hl2 & Hhole). specialize (Hl2 Hloc1). cbn [root_of] in Hren.
  assert (get l2 (root_of t) = Some (set_weight (weight p) q)) as G2t by (by rewrite Hg2).
  set (l3 := upd l2 (root_of t) (set_parent (ctx_parent C))).
  match goal with |- context [match parent p with Some g => @?F g | None => ?G end] =>
    assert (match parent p with Some g => F g | None => G end = Done l3) as -> end.
  { rewrite Hpar. destruct (ctx_parent C) as [g|] eqn:HC; cbn [rename_hole] in Hren; cbn beta;
      rewrite Hren; obind; by erewrite upd_unwrap_ok by exact G2t. }
  obind.
  assert (∀ s, s ≠ root_of t → ctx_parent C ≠ Some s → get l3 s = get l s) as G3.
  { intros s H1 H2. unfold l3. rewrite get_upd_ne, Hg2, G1 by done. done. }
  destruct (clear_slot_ok l3 par p) as (l4 & -> & Hfr); [by rewrite G3|]. obind.
  assert (∀ s, s ≠ par → get l4 s = get l3 s) as G4
    by (intros; apply (frees_agree _ _ _ _ Hfr); set_solver).
  assert (rest l4 = rest l ∧ workspaces l4 = rewired l i C (root_of t)) as [Hr4 Hw4].
  { unfold rest, rewired in *. destruct Hfr as [[-> _] _]. cbn.
    destruct (panes_only_upd l2 (root_of t) (set_parent (ctx_parent C))) as [E3 _]. fold l3 in E3. rewrite E3. cbn.
    rewrite Hr2, Hw2. unfold l1. destruct (panes_only_upd l (root_of t) (set_weight (weight p))) as [-> _]. done. }
  assert (focused l4 = focused l) as Rf by (unfold rest in Hr4; congruence).
  rewrite Rf, (proj2 (Nat.eqb_neq _ _)) by done.
  exists l4, q. split; [done|]. split; [done|]. split; [rewrite G4 by done; by apply get_upd_eq|].
  split; [apply (frees_gone _ _ _ _ Hfr); set_solver|].
  split; [intros s H1 H2 H3; rewrite G4 by done; by apply G3|]. split; [|split; [done|split; [done|]]].
  - destruct C as [|f C]; [done|]. intros q0 Hq0.
    assert (fr_slot f ≠ root_of t ∧ fr_slot f ≠ par) as [Hft Hfp]
      by (split; intros Heq; [apply Hnp|apply Hnp']; cbn; by rewrite Heq).
    destruct (Hhole f C q0 eq_refl) as (m0 & a0 & Hk0 & Ha0 & Hg0); [by rewrite G1|].
    rewrite G4 by done. unfold l3. rewrite get_upd_ne by done. rewrite Hg0. eauto 10.
  - apply (local_frees l3 l4 [par]); [|done]. by apply local_upd_keep.
Qed.

Lemma dissolve_ok xs l ts i C par cs : loose xs l ts → ts !! i = Some (plug C (TNode par cs)) →
  cs ≠ [] → focused l ≠ par →
  ∃ l', dissolve_if_single l par = Done l' ∧ loose xs l' (<[i := plug C (dissolved par cs)]> ts) ∧
    rest l' = rest l ∧ (number <$> workspaces l' = number <$> workspaces l) ∧
    (∀ s, face l' s = face l s) ∧ (∀ s, s ∈ xs → get l' s = get l s).
Proof.
  intros Hl Hi Hne Hf. pose proof (loose_skel _ _ _ Hl) as Hsk.
  destruct (plug_rep l ts i C _ (sk_trees _ _ Hsk) Hi) as (Hc & Ht & Hnd & _).
  inversion Ht as [|? ? p m a ? Hp Hpar Hk Ha Hcs]; subst.
  assert ((∃ t, cs = [t]) ∨ ¬ ∃ t, cs = [t]) as [[t ->]|Hno]
    by (destruct cs as [|t [|]]; [done|left; by exists t|right; naive_solver]).
  2:{ exists l. unfold dissolve_if_single. rewrite Hp, Hk.
      replace (dissolved par cs) with (TNode par cs) by (destruct cs as [|t [|]]; naive_solver).
      rewrite list_insert_id by done. destruct cs as [|t [|]]; naive_solver. }
  destruct (dissolve_run l ts i C par t p Hsk (lq_local _ _ _ Hl) Hi Hp Hf)
    as (l' & q & -> & Hq & Gt & Gp & G & Hhole & Hr & Hw & Hloc).
  cbn [dissolved]. destruct (only_child_apart par t C Hnd) as (Htp & Hnp' & Hnp).
  assert (∀ s, s ∈ nodes (TNode par [t]) ++ ctx_nodes C → s ∉ xs ∧ masked xs (get l) s = get l s) as Hout
    by (intros s; by eapply loose_out).
  destruct (Hout par) as [Hxp _]; [cbn; set_solver|].
  destruct (Hout (root_of t)) as [Hxt Hht].
  { cbn. right. rewrite app_nil_r. apply elem_of_app. left. apply nodes_root. }
  pose proof Hr as Hr'. unfold rest in Hr'. injection Hr' as Ra Rf Re Rz Rm Rp Rar Ri.
  exists l'. split; [done|]. split; [split|split; [done|split; [|split]]].
  - apply (heap_dissolve (masked xs (get l)) _ ts i C par t q
      (set_parent (ctx_parent C) (set_weight (weight p) q))); rewrite ?hide_out by done; try done.
    + apply Hl.
    + destruct C as [|f C]; [done|]. destruct (Hout (fr_slot f)) as [Hx Hh]; [cbn; set_solver|].
      cbn. rewrite hide_out, hide_out by done. apply Hhole.
    + intros s H1 H2 H3. unfold masked. case_decide; [done|]. by apply G.
  - by eapply (rewired_roots l l' ts i C (TNode par [t]) t).
  - by eapply (rewired_roots l l' ts i C (TNode par [t]) t).
  - rewrite Ra, length_insert. apply Hl.
  - done.
  - rewrite Re. apply Hl.
  - unfold env_ok. rewrite Rm, Rar. apply Hl.
  - rewrite Hw. apply rewired_numbers.
  - intros s. destruct (decide (s = par)) as [->|Hsp].
    { rewrite (face_container l par p m _ a Hp Hk). unfold face. by rewrite Gp. }
    destruct (decide (s = root_of t)) as [->|Hst]; [unfold face; by rewrite Gt, Hq|].
    destruct (decide (ctx_parent C = Some s)) as [HC|HC]; [|by apply face_get, G].
    destruct C as [|f C]; [done|]. injection HC as <-.
    destruct (crep_head _ _ _ _ Hc) as (pf & mf & af & Hpf & _ & Hkf & _).
    rewrite (face_container l _ _ _ _ _ Hpf Hkf).
    destruct (Hhole pf Hpf) as (p' & m0 & a0 & Hp' & _ & Hk' & _). by eapply face_container.
  - intros s Hs. apply G; [by intros ->..|]. intros HC%ctx_parent_in.
    by apply (Hout s); [apply elem_of_app; right|].
Qed.

(** ** A child leaves its container *)

Lemma remove_child_ok ls s rs a : s ∉ ls → a < length (ls ++ s :: rs) → ls ++ rs ≠ [] →
  ∃ a', remove_child s (ls ++ s :: rs) a = (ls ++ rs, a') ∧ a' < length (ls ++ rs).
Proof.
  intros Hs Ha Hne. unfold remove_child. rewrite position_mid by done.
  rewrite delete_middle. eexists. split; [done|].
  assert (0 < length (ls ++ rs)) by (destruct (ls ++ rs); [done|cbn; lia]).
  rewrite length_app in *. cbn in Ha. destruct (Nat.ltb_spec (length ls) a); [lia|].
  rewrite bool_decide_eq_false_2 by done. destruct (Nat.leb_spec (length ls + length rs) a); cbn; lia.
Qed.

Lemma detach_child_ok ls s rs a : s ∉ ls → a < length (ls ++ s :: rs) → ls ++ rs ≠ [] →
  ∃ a', detach_child s (ls ++ s :: rs) a = (ls ++ rs, a') ∧ a' < length (ls ++ rs).
Proof.
  intros Hs Ha Hne. unfold detach_child. rewrite position_mid by done.
  rewrite delete_middle. eexists. split; [done|].
  assert (0 < length (ls ++ rs)) by (destruct (ls ++ rs); [done|cbn; lia]).
  rewrite length_app in *. cbn in Ha.
  rewrite bool_decide_eq_false_2 by done. destruct (Nat.leb_spec (length ls + length rs) a); cbn; lia.
Qed.

(** The subtree [t] gone from under [par], its nodes dead or out of sight. *)
Lemma heap_remove g g' ts i C par ls t rs p m a : heap g ts →
  ts !! i = Some (plug C (TNode par (ls ++ t :: rs))) → g par = Some p →
  (∀ s, s ∈ nodes t → g' s = None) →
  g' par = Some (set_kind (Container m (roots (ls ++ rs)) a) p) → a < length (ls ++ rs) →
  (∀ s, s ∉ nodes t → s ≠ par → g' s = g s) →
  heap g' (<[i := plug C (TNode par (ls ++ rs))]> ts).
Proof.
  intros Hh Hi Hp Hgone Hgp Ha Hg.
  assert (plug C (TNode par (ls ++ t :: rs)) ∈ ts) as Hin by by eapply list_elem_of_lookup_2.
  destruct (heap_inv_tree g ts C _ Hh Hin) as (Hc & Ht & Hnd).
  inversion Ht as [|? ? p' m' a' ? Hp' Hpar _ _ Hcs]; subst. assert (p' = p) as -> by congruence.
  assert (NoDup (nodes t ++ par :: ((ls ++ rs) ≫= nodes) ++ ctx_nodes C)) as Hnd'.
  { eapply NoDup_Permutation_proper; [|exact Hnd]. cbn. rewrite !bind_app, bind_cons. solve_Permutation. }
  apply NoDup_app in Hnd' as (_ & Hd & [Hpn _]%NoDup_cons).
  assert (∀ s, s ∈ ((ls ++ rs) ≫= nodes) ++ ctx_nodes C → g' s = g s) as Hsame.
  { intros s Hs. apply Hg; [intros Hn; by apply (Hd s Hn); right|intros ->; done]. }
  apply (surgery_at g g' ts i C _ (TNode par (ls ++ rs)) [] (nodes t) Hh Hi).
  - cbn. rewrite !bind_app, bind_cons. solve_Permutation.
  - constructor.
  - by intros s ?%elem_of_nil.
  - done.
  - intros s H1 _ _. cbn in H1. rewrite bind_app, bind_cons in H1. rewrite Hg; [apply sim_refl|set_solver..].
  - apply hole_same; [exact Hc|]. intros s Hs%ctx_parent_in. rewrite Hsame by set_solver. apply sim_refl.
  - intros _. econstructor; [exact Hgp|done|reflexivity|done|]. apply (forall_rep_sim g g').
    + intros s Hs. rewrite Hsame by set_solver. apply sim_refl.
    + rewrite Forall_app, Forall_cons in Hcs. rewrite Forall_app. tauto.
Qed.

Lemma leaf_kind g ts T f : trees g ts → T ∈ ts → f ∈ leaves T → ∃ p sf, g f = Some p ∧ kind p = Leaf sf.
Proof.
  intros [H _] HT (C & ->)%find_leaf. rewrite Forall_forall in H. apply H, rep_plug in HT as [_ Hr].
  inversion Hr; eauto.
Qed.
Lemma leaf_ne g ts i j C par cs T f : trees g ts → ts !! i = Some (plug C (TNode par cs)) →
  ts !! j = Some T → f ∈ leaves T → f ≠ par.
Proof.
  intros Htr Hi Hj Hf ->. destruct (leaf_kind g ts T par Htr) as (p & sf & Hp & Hk);
    [by eapply list_elem_of_lookup_2|done|].
  destruct Htr as [H _]. eapply Forall_lookup_1 in H; [|exact Hi]. apply rep_plug in H as [_ Hr].
  inversion Hr; congruence.
Qed.

Lemma leaves_dissolved C par cs : leaves (plug C (dissolved par cs)) ≡ₚ leaves (plug C (TNode par cs)).
Proof.
  destruct (leaves_plug C (TNode par cs)) as (r & -> & H). rewrite H.
  destruct cs as [|t [|]]; cbn; by rewrite ?app_nil_r.
Qed.

(** ** Closing *)

Lemma free_subtree_ok l ts i C t : trees (get l) ts → ts !! i = Some (plug C t) →
  ∃ l', free_subtree l (root_of t) = Done l' ∧ frees l l' (nodes t).
Proof.
  intros Htr Hi. destruct (plug_rep l ts i C t Htr Hi) as (_ & Ht & Hnd & Hsz).
  apply NoDup_app in Hnd as [Hnd _].
  eapply free_subtree_walk; [done|done|]. unfold tree_fuel. lia.
Qed.

(** The loose invariant with the arena's trees replaced at [i] under one root. *)
Lemma loose_insert ys xs l l' ts i T T' : loose ys l ts → ts !! i = Some T → root_of T' = root_of T →
  workspaces l' = workspaces l → active l' = active l → (0 ≤ epoch l')%Z → env_ok l' → local_ok l' →
  heap (masked xs (get l')) (<[i := T']> ts) → loose xs l' (<[i := T']> ts).
Proof.
  intros Hl Hi Hr Hw Ha He Hv Hloc Hh. split; [done| | | |done|done|done].
  - rewrite Hw, (lq_roots _ _ _ Hl). symmetry. by eapply roots_insert.
  - rewrite Hw. apply Hl.
  - rewrite Ha, length_insert. apply Hl.
Qed.

Lemma loose_focus xs l ts f : loose xs l ts → loose xs (set_focused f l) ts.
Proof. intros [H1 H2 H3 H4 H5 H6 H7]. split; try done. by eapply local_meta. Qed.

(** A child freed from under its container. *)
Lemma drop_child_ok l ts i C par ls t rs : inv l ts → ls ++ rs ≠ [] →
  ts !! i = Some (plug C (TNode par (ls ++ t :: rs))) →
  ∃ l1 l2, free_subtree l (root_of t) = Done l1 ∧
    with_kids l1 par (λ _ cs a, Done (remove_child (root_of t) cs a)) = Done l2 ∧
    meta l2 = meta l ∧ loose [] l2 (<[i := plug C (TNode par (ls ++ rs))]> ts) ∧
    (∀ s, s ∈ nodes t → get l2 s = None) ∧ (∀ s, s ∉ nodes t → s ≠ par → get l2 s = get l s) ∧
    (∀ s, face l2 s = if decide (s ∈ nodes t) then None else face l s).
Proof.
  intros Hinv Hne Hi. pose proof (shape_trees _ _ (inv_shape _ _ Hinv)) as Htr.
  destruct (plug_rep l ts i C _ Htr Hi) as (Hc & Ht & Hnd & _).
  inversion Ht as [|? ? p m a ? Hp Hpar Hk Ha Hcs]; subst.
  assert (par ∉ nodes t) as Hpn.
  { apply NoDup_app in Hnd as [Hnd _]. cbn in Hnd. apply NoDup_cons in Hnd as [Hni _].
    rewrite bind_app, bind_cons in Hni. set_solver. }
  destruct (free_subtree_ok l ts i (mkFrame par ls rs :: C) t Htr Hi) as (l1 & -> & Hfr).
  assert (root_of t ∉ roots ls) as Hrt by (eapply kid_fresh, Hnd).
  rewrite fmap_app, fmap_cons in Hk.
  destruct (remove_child_ok (roots ls) (root_of t) (roots rs) a Hrt) as (a' & Hrm & Ha').
  { rewrite length_app, !length_fmap in *. cbn in *. rewrite length_fmap. lia. }
  { rewrite <-fmap_app. by destruct (ls ++ rs). }
  rewrite <-fmap_app in Hrm, Ha'. rewrite length_fmap in Ha'.
  assert (get l1 par = Some p) as G1 by (by rewrite (frees_agree _ _ _ _ Hfr)).
  exists l1. eexists. split; [done|]. split; [eapply with_kids_ok; [exact G1|exact Hk|by rewrite Hrm]|].
  set (l2 := upd l1 par _).
  assert (∀ s, s ∈ nodes t → get l2 s = None) as G2n.
  { intros s Hs. unfold l2. rewrite get_upd_ne by (by intros ->). by apply (frees_gone _ _ _ _ Hfr). }
  assert (∀ s, s ∉ nodes t → s ≠ par → get l2 s = get l s) as G2.
  { intros s H1 H2. unfold l2. rewrite get_upd_ne by done. by apply (frees_agree _ _ _ _ Hfr). }
  assert (get l2 par = Some (set_kind (Container m (roots (ls ++ rs)) a') p)) as G2p by by apply get_upd_eq.
  assert (meta l2 = meta l) as Hm by (unfold l2; rewrite meta_upd; apply panes_only_meta, Hfr).
  split; [done|]. split; [|split; [done|split; [done|]]].
  - unfold meta in Hm. injection Hm as Hw Hac _ He _ Hme _ Har.
    eapply loose_insert; [by apply inv_loose|exact Hi|by apply root_plug_ext|done|done| | | |].
    + rewrite He. apply Hinv.
    + unfold env_ok. rewrite Hme, Har. apply Hinv.
    + apply local_upd_keep; [|done]. eapply local_frees; [apply Hinv|done].
    + apply heap_hide_nil. eapply (heap_remove (get l)); try done. apply (inv_shape _ _ Hinv).
  - intros s. case_decide as Hs; [unfold face; by rewrite G2n|].
    destruct (decide (s = par)) as [->|]; [|by apply face_get, G2].
    rewrite (face_container l par p _ _ _ Hp Hk). by eapply face_container.
Qed.

(** The focus after the removal: kept if it lives, else the container's leaf. *)
Definition refocus (l : Layout) (par : nat) : outcome Layout :=
  match get l (focused l) with
  | None => o ← first_leaf l par; r ← root l; Done (set_focused (default r o) l)
  | Some _ => Done l
  end.

Lemma refocus_ok l ts i C par cs : loose [] l ts → ts !! i = Some (plug C (TNode par cs)) →
  (is_Some (get l (focused l)) → focus_in l ts) → (get l (focused l) = None → i = active l) →
  ∃ f, refocus l par = Done (set_focused f l) ∧ focus_in (set_focused f l) ts ∧
    (is_Some (get l (focused l)) → f = focused l).
Proof.
  intros Hl Hi Hlive Hdead. pose proof (loose_skel _ _ _ Hl) as Hsk. unfold refocus.
  destruct (get l (focused l)) as [p|] eqn:Hp.
  - exists (focused l). replace (set_focused (focused l) l) with l by by destruct l.
    split; [done|]. split; [by apply Hlive|done].
  - destruct (first_leaf_spec l ts i C _ (sk_trees _ _ Hsk) Hi) as (s & Hs & Hf). cbn [root_of] in Hs.
    destruct (shape_root l ts Hsk) as (T & HT & Hr). rewrite Hs, Hr. cbn. exists s.
    split; [done|]. split; [|by intros [? [=]]]. exists (plug C (TNode par cs)). cbn.
    rewrite <-Hdead by done. split; [done|]. apply leaves_in_plug. by eapply follows_in.
Qed.

(** The tree a close leaves. *)
Definition close_tree (C : ctx) (t : ptree) : ptree :=
  match C with
  | [] => TLeaf (root_of t)
  | f :: C' => plug C' (dissolved (fr_slot f) (fr_left f ++ fr_right f))
  end.

(** The leaves a close leaves: those outside the subtree as they were, and of
    the subtree only a closed root, empty. *)
Definition close_faces (l l' : Layout) (C : ctx) (t : ptree) : Prop :=
  ∀ s, face l' s =
    if decide (s ∈ nodes t)
    then if decide (C = [] ∧ s = root_of t) then (λ i, (i, None)) <$> id_of l s else None
    else face l s.

Lemma focus_side l ts i C t : inv l ts → ts !! i = Some (plug C t) → focused l ∈ nodes t → i = active l.
Proof.
  intros Hinv Hi Hf. destruct (inv_focus _ _ Hinv) as (T & HT & HfT).
  eapply (trees_disjoint (get l)); [apply shape_trees, Hinv|done|done| |by apply leaves_nodes].
  rewrite nodes_plug. set_solver.
Qed.

Lemma close_child_ok l ts i f C t : inv l ts → ts !! i = Some (plug (f :: C) t) →
  ∃ l', close_child l (root_of t) (fr_slot f) = Done l' ∧ epoch l' = epoch l ∧ active l' = active l ∧
    inv l' (<[i := close_tree (f :: C) t]> ts) ∧ close_faces l l' (f :: C) t ∧
    (focused l ∉ nodes t → focused l' = focused l).
Proof.
  intros Hinv Hi. destruct f as [par ls rs]. cbn [fr_slot close_tree fr_left fr_right] in *.
  pose proof (Forall_lookup_1 _ _ _ _ (sh_wide _ _ (inv_shape _ _ Hinv)) Hi) as Hwide.
  apply wide_plug in Hwide as [Hwt [Hwf HwC]%Forall_cons]. cbn in Hwf. destruct Hwf as (Hlen & Hwl & Hwr).
  assert (ls ++ rs ≠ []) as Hne by (destruct ls, rs; [cbn in Hlen; lia|done..]).
  destruct (drop_child_ok l ts i C par ls t rs Hinv Hne Hi)
    as (l1 & l2 & Hfs & Hwk & Hm & Hl2 & Gn & G & Hfa).
  unfold close_child. rewrite Hfs. obind. rewrite Hwk. obind.
  unfold meta in Hm. injection Hm as Hw Hac Hfo He _ _ _ _.
  set (ts2 := <[i := _]> ts) in *.
  assert (ts2 !! i = Some (plug C (TNode par (ls ++ rs)))) as Hi2
    by (apply list_lookup_insert_eq; by eapply lookup_lt_Some).
  destruct (inv_focus _ _ Hinv) as (Ta & HTa & HfT).
  destruct (leaf_kind _ ts Ta (focused l) (shape_trees _ _ (inv_shape _ _ Hinv)))
    as (pf & sf & Hpf & Hkf); [by eapply list_elem_of_lookup_2|done|].
  assert (focused l ≠ par) as Hfp by (eapply (leaf_ne (get l) ts i _ C); [apply shape_trees, Hinv|exact Hi|done|done]).
  destruct (refocus_ok l2 ts2 i C par (ls ++ rs) Hl2 Hi2) as (g & Hrf & Hfoc & Hgf).
  { rewrite Hfo. intros [p Hp]. assert (focused l ∉ nodes t) as Hft by (intros H; rewrite Gn in Hp by done; done).
    unfold focus_in. rewrite Hac, Hfo. eapply focus_insert; [exact Hi|]. exists Ta. split; [done|].
    split; [|done]. intros Heq. rewrite Heq, Hi in HTa. injection HTa as <-.
    destruct (leaves_plug C (TNode par (ls ++ rs))) as (r & -> & Hr).
    rewrite (Hr (TNode par (ls ++ t :: rs)) : leaves (plug (mkFrame par ls rs :: C) t) ≡ₚ _) in HfT. cbn in *.
    assert (focused l ∉ leaves t) by (intros ?%leaves_nodes; done).
    rewrite !bind_app in *. rewrite bind_cons in HfT. set_solver. }
  { rewrite Hfo, Hac. intros Hn. eapply (focus_side l ts i (mkFrame par ls rs :: C) t); [done..|].
    destruct (decide (focused l ∈ nodes t)); [done|]. rewrite G in Hn by done. congruence. }
  unfold refocus in Hrf. rewrite Hrf. obind.
  destruct (dissolve_ok [] (set_focused g l2) ts2 i C par (ls ++ rs)) as (l4 & -> & Hl4 & Hr & Hnum & Hfa4 & _);
    [by apply loose_focus|done|done| |].
  { destruct Hfoc as (Tb & HTb & Hgb). cbn in *.
    eapply (leaf_ne (get l2) ts2 i _ C); [apply (loose_skel _ _ _ Hl2)|exact Hi2|done|done]. }
  unfold rest in Hr. injection Hr as Ra Rf Re _ _ _ _ _.
  exists l4. split; [done|]. split; [congruence|]. split; [congruence|]. split; [|split].
  - unfold ts2 in *. rewrite list_insert_insert_eq in Hl4. apply loose_inv; [done| |].
    + apply Forall_insert; [apply (inv_shape _ _ Hinv)|]. apply wide_dissolved; [done| |done].
      by apply Forall_app.
    + destruct Hfoc as (Tb & HTb & Hgb). cbn in HTb, Hgb. unfold focus_in. rewrite Ra, Rf. cbn. eapply focus_insert; [exact Hi|].
      rewrite Hac in *. destruct (decide (active l = i)) as [Heq|Hn].
      * rewrite Heq in *. rewrite Hi2 in HTb. injection HTb as <-. eexists. split; [exact Hi|].
        split; [|done]. intros _. by rewrite leaves_dissolved.
      * rewrite list_lookup_insert_ne in HTb by done. exists Tb. by split.
  - intros s. rewrite Hfa4. rewrite (face_get l2) by done. rewrite Hfa. case_decide; [|done].
    rewrite decide_False; [done|]. by intros [? _].
  - intros Hft. rewrite Rf. cbn. rewrite <-Hfo. apply Hgf. rewrite Hfo, G; eauto.
Qed.

(** What the shape needs of the workspaces. *)
Definition wpart (l : Layout) : list (nat * Z) := (λ w, (ws_root w, number w)) <$> workspaces l.

Lemma wpart_fields l l' : wpart l' = wpart l →
  ws_root <$> workspaces l' = ws_root <$> workspaces l ∧ (numbers_ok (workspaces l) → numbers_ok (workspaces l')).
Proof.
  unfold wpart. intros H. assert (number <$> workspaces l' = number <$> workspaces l) as Hn.
  { apply (f_equal (fmap snd)) in H. by rewrite <-!list_fmap_compose in H. }
  split; [apply (f_equal (fmap fst)) in H; by rewrite <-!list_fmap_compose in H|].
  intros [N1 N2]. split; [by rewrite Hn|]. apply Forall_forall. intros w Hw.
  apply (list_elem_of_fmap_2 number) in Hw. rewrite Hn in Hw.
  apply list_elem_of_fmap in Hw as (w' & -> & Hw'). rewrite Forall_forall in N2. by apply N2.
Qed.
Lemma wpart_insert (ws : list Workspace) i w f : ws !! i = Some w →
  (λ w, (ws_root w, number w)) <$> <[i := ws_set_focused f w]> ws = (λ w, (ws_root w, number w)) <$> ws.
Proof.
  intros Hw. rewrite list_fmap_insert. apply list_insert_id. by rewrite list_lookup_fmap, Hw.
Qed.

(** The end of a change to the tree at [i] that keeps its root. *)
Lemma inv_settle l l' ts i T T' : inv l ts → ts !! i = Some T → root_of T' = root_of T → wide T' →
  heap (get l') (<[i := T']> ts) → local_ok l' → active l' = active l → (0 ≤ epoch l')%Z → env_ok l' →
  wpart l' = wpart l → focus_in l' (<[i := T']> ts) → inv l' (<[i := T']> ts).
Proof.
  intros Hinv Hi Hr Hw Hh Hloc Ha He Hv [Hr' Hn]%wpart_fields Hf. pose proof (inv_shape _ _ Hinv) as Hsh.
  split; [|done..]. split; [done| | | |].
  - rewrite Hr', (sh_roots _ _ Hsh). symmetry. by eapply roots_insert.
  - by apply Forall_insert; [apply Hsh|].
  - apply Hn, Hsh.
  - rewrite Ha, length_insert. apply Hsh.
Qed.

(** A subtree emptied in place: its root a leaf, the rest freed. *)
Lemma empty_out l ts i C t p f : heap (get l) ts → ts !! i = Some (plug C t) →
  get l (root_of t) = Some p → parent (f p) = parent p → kind (f p) = Leaf None →
  ∃ l', foldM free_subtree (upd l (root_of t) f) (kids_of l (root_of t)) = Done l' ∧
    heap (get l') (<[i := plug C (TLeaf (root_of t))]> ts) ∧ panes_only l l' ∧
    get l' (root_of t) = Some (f p) ∧ (∀ s, s ∈ nodes t → s ≠ root_of t → get l' s = None) ∧
    (∀ s, s ∉ nodes t → get l' s = get l s).
Proof.
  intros Hh Hi Hp Hpar Hk. destruct (plug_rep l ts i C t (heap_trees _ _ Hh) Hi) as (Hc & Ht & Hnd & Hsz).
  set (cs := match t with TLeaf _ => [] | TNode _ cs => cs end).
  assert (nodes t = root_of t :: (cs ≫= nodes)) as Hns by by destruct t.
  assert (kids_of l (root_of t) = roots cs ∧ Forall (rep (get l) (Some (root_of t))) cs) as [Hkids Hcs].
  { unfold kids_of. inversion Ht as [? s q sf G1 G2 G3|? s q m a us G1 G2 G3 G4 G5]; subst; cbn [root_of] in *;
      rewrite G1; cbn [fmap option_fmap option_map]; rewrite G3; unfold cs; split; try done; constructor. }
  rewrite Hns in Hnd, Hsz. cbn [app] in Hnd. apply NoDup_cons in Hnd as [Hni Hnd].
  assert (root_of t ∉ cs ≫= nodes) as Hrn by set_solver. rewrite Hkids.
  destruct (free_all (upd l (root_of t) f) (Some (root_of t)) cs) as (l' & -> & Hfr).
  { eapply forall_rep_sim; [|exact Hcs]. intros s Hs. rewrite get_upd_ne by (by intros <-). apply sim_refl. }
  { by apply NoDup_app in Hnd as [? _]. }
  { rewrite length_upd. cbn in Hsz. lia. }
  assert (get l' (root_of t) = Some (f p)) as Gr.
  { rewrite (frees_agree _ _ _ _ Hfr) by done. by apply get_upd_eq. }
  assert (∀ s, s ∉ nodes t → get l' s = get l s) as G.
  { intros s Hs. rewrite Hns in Hs. rewrite (frees_agree _ _ _ _ Hfr), get_upd_ne by set_solver. done. }
  assert (∀ s, s ∈ nodes t → s ≠ root_of t → get l' s = None) as Gn.
  { intros s Hs Hne. rewrite Hns in Hs. apply (frees_gone _ _ _ _ Hfr). set_solver. }
  exists l'. split; [done|]. split; [|split; [|done]].
  - apply (surgery_at (get l) _ ts i C t (TLeaf (root_of t)) [] (cs ≫= nodes) Hh Hi).
    + rewrite Hns. cbn. solve_Permutation.
    + constructor.
    + by intros s ?%elem_of_nil.
    + intros s Hs. apply Gn; [rewrite Hns; by right|by intros ->].
    + intros s H1 _ _. rewrite G by done. apply sim_refl.
    + apply hole_same; [done|]. intros s Hs%ctx_parent_in. rewrite G; [apply sim_refl|].
      rewrite Hns. apply NoDup_app in Hnd as (_ & Hd & _). set_solver.
    + intros _. econstructor; [exact Gr| |exact Hk]. apply rep_par in Ht as (q & ? & ?). congruence.
  - eapply panes_only_trans; [apply panes_only_upd|apply Hfr].
Qed.

Lemma close_root_ok l ts i t : inv l ts → ts !! i = Some t →
  ∃ l', close_root l (root_of t) i = Done l' ∧ epoch l' = epoch l ∧ active l' = active l ∧
    inv l' (<[i := TLeaf (root_of t)]> ts) ∧ close_faces l l' [] t ∧
    (focused l ∉ nodes t → focused l' = focused l).
Proof.
  intros Hinv Hi. pose proof (inv_shape _ _ Hinv) as Hsh. pose proof (inv_local _ _ Hinv) as Hloc.
  destruct (plug_rep l ts i [] t (shape_trees _ _ Hsh) Hi) as (_ & Ht & _ & _).
  pose proof (rep_par _ _ _ Ht) as (p & Hp & Hpar).
  destruct (empty_out l ts i [] t p collapse (sh_heap _ _ Hsh) Hi Hp) as (l2 & Hrun & Hh & Hpo & Gr & Gn & G);
    [done|done|].
  unfold close_root. rewrite Hrun. obind.
  pose proof (panes_only_fields _ _ Hpo) as (Pw & Pa & Pf & Pi & Pe & Pz & Pm & Ppr & Par).
  assert (local_ok l2) as Hloc2.
  { eapply local_ext; [exact Hloc|done|destruct Hpo as [_ ->]; apply Hloc|].
    intros s p' Hs. destruct (decide (s ∈ nodes t)) as [Hin|].
    - destruct (decide (s = root_of t)) as [->|]; [|by rewrite Gn in Hs].
      rewrite Gr in Hs. injection Hs as <-. exists p. split; [done|]. split; [done|].
      split; [done|]. exact (lo_rect l Hloc _ p Hp).
    - rewrite G in Hs by done. exists p'. split; [done|]. split; [done|].
      split; [by eapply lo_weight|by eapply lo_rect]. }
  assert (∀ l3, panes l3 = panes l2 → rest (set_focused (focused l2) l3) = rest l2 →
    wpart l3 = wpart l2 → focus_in l3 (<[i := TLeaf (root_of t)]> ts) →
    inv l3 (<[i := TLeaf (root_of t)]> ts)) as Hfin.
  { intros l3 E1 E2 E3 Hfoc. unfold rest in E2. cbn in E2. injection E2 as F1 F2 F3 F4 F5 F6 F7.
    eapply (inv_settle l l3); try done.
    - eapply heap_sim; [|exact Hh]. intros s. unfold get. rewrite E1. apply sim_refl.
    - by eapply local_meta.
    - congruence.
    - rewrite F2, Pe. apply Hinv.
    - unfold env_ok. rewrite F4, F6, Pm, Par. apply Hinv.
    - rewrite E3. unfold wpart. by rewrite Pw. }
  assert (∀ l3, panes l3 = panes l2 → close_faces l l3 [] t) as Hface.
  { intros l3 E1 s. rewrite (face_get l2 l3) by (unfold get; by rewrite E1). repeat case_decide.
    - destruct H0 as [_ ->]. unfold face, id_of. rewrite Gr, Hp. done.
    - unfold face. rewrite Gn; [done|done|]. intros ->. naive_solver.
    - by apply face_get, G. }
  rewrite Pa. destruct (Nat.eqb_spec i (active l)) as [Heq|Hn].
  - exists (set_focused (root_of t) l2). split; [done|]. split; [done|]. split; [done|].
    split; [apply Hfin; try done|split; [by apply Hface|]].
    + exists (TLeaf (root_of t)). cbn. rewrite Pa, <-Heq. rewrite list_lookup_insert_eq by by eapply lookup_lt_Some.
      split; [done|]. by apply list_elem_of_singleton.
    + intros Hf. exfalso. apply Hf. destruct (inv_focus _ _ Hinv) as (Ta & HTa & HfT).
      rewrite <-Heq, Hi in HTa. injection HTa as <-. by apply leaves_nodes.
  - unfold id_of. rewrite Gr. cbn [fmap option_fmap option_map].
    destruct (ws_lookup l ts i t (shape_skel _ _ Hsh) Hi) as (w & Hw & _).
    unfold upd_ws. rewrite Pw, Hw. cbn [unwrap mbind outcome_bind].
    eexists. split; [done|]. split; [done|]. split; [done|].
    split; [apply Hfin; try done|split; [by apply Hface|done]].
    + unfold wpart. cbn. rewrite Pw. by apply (wpart_insert (workspaces l)).
    + destruct (inv_focus _ _ Hinv) as (Ta & HTa & HfT). unfold focus_in. cbn. rewrite Pa, Pf.
      exists Ta. by rewrite list_lookup_insert_ne.
Qed.

Lemma ws_of_root_inv l ts s i : skel l ts → workspace_of_root l s = Some i →
  ∃ T, ts !! i = Some T ∧ root_of T = s.
Proof.
  intros Hsk. unfold workspace_of_root. intros (w & Hw & Heq)%position_Some.
  apply Nat.eqb_eq in Heq. assert ((ws_root <$> workspaces l) !! i = Some s) as H
    by (rewrite list_lookup_fmap, Hw; cbn; congruence).
  rewrite (sk_roots _ _ Hsk), list_lookup_fmap in H. destruct (ts !! i) as [T|]; [|done].
  cbn in H. exists T. split; [done|congruence].
Qed.
Lemma ws_of_inner l ts i f C t : skel l ts → ts !! i = Some (plug (f :: C) t) →
  workspace_of_root l (root_of t) = None.
Proof.
  intros Hsk Hi. destruct (workspace_of_root l (root_of t)) as [j|] eqn:Hw; [|done]. exfalso.
  destruct (ws_of_root_inv l ts _ j Hsk Hw) as (T & HT & Hr).
  destruct (plug_rep l ts i (f :: C) t (sk_trees _ _ Hsk) Hi) as (_ & Ht & Hnd & _).
  assert (i = j) as <-.
  { eapply (trees_disjoint (get l) ts _ _ _ T (root_of t)); [apply Hsk|done|done| |rewrite <-Hr; apply nodes_root].
    rewrite nodes_plug. apply elem_of_app. left. apply nodes_root. }
  rewrite Hi in HT. injection HT as <-.
  assert (rep (get l) None (plug (f :: C) t)) as Hp.
  { eapply (Forall_lookup_1 _ _ _ _ (trees_rep _ _ (sk_trees _ _ Hsk))), Hi. }
  apply rep_par in Ht as (p & H1 & H2), Hp as (q & H3 & H4). rewrite (Hr : root_of (plug (f :: C) t) = root_of t) in H3.
  cbn in H2. congruence.
Qed.

(** What a close leaves: the surfaces of the subtree unhosted, every other leaf
    as it was. *)
Definition close_done (l l' : Layout) (ts ts' : list ptree) (slot : nat) (un : list nat) : Prop :=
  match get l slot with
  | None => un = [] ∧ ts' = ts ∧ (∀ s, get l' s = get l s) ∧ focused l' = focused l
  | Some _ => ∃ i C t, ts !! i = Some (plug C t) ∧ root_of t = slot ∧
      un = omap (leaf_surface l) (leaves t) ∧ ts' = <[i := close_tree C t]> ts ∧
      close_faces l l' C t ∧ (focused l ∉ nodes t → focused l' = focused l)
  end.

Lemma close_inner_ok l ts slot : inv l ts →
  ∃ l' un ts', close_inner l slot = Done (l', un) ∧ epoch l' = epoch l ∧ active l' = active l ∧
    inv l' ts' ∧ close_done l l' ts ts' slot un.
Proof.
  intros Hinv. pose proof (shape_skel _ _ (inv_shape _ _ Hinv)) as Hsk.
  unfold close_inner, close_done. destruct (get l slot) as [p|] eqn:Hp.
  - destruct (heap_find l ts slot p (sh_heap _ _ (inv_shape _ _ Hinv)) Hp) as (i & C & t & Hi & <-).
    destruct (plug_rep l ts i C t (sk_trees _ _ Hsk) Hi) as (_ & Ht & _ & Hsz).
    unfold subtree_surfaces. rewrite (collect_surfaces_walk l t _ (tree_fuel l) [] Ht)
      by (unfold tree_fuel; lia). cbn [mbind outcome_bind app].
    destruct C as [|f C].
    + rewrite (ws_of_root l ts i t Hsk Hi).
      destruct (close_root_ok l ts i t Hinv Hi) as (l' & -> & He & Ha & Hi' & Hf & Hk).
      cbn. eexists _, _, _. split; [done|]. split; [done|]. split; [done|]. split; [exact Hi'|].
      by exists i, [], t.
    + rewrite (ws_of_inner l ts i f C t Hsk Hi).
      apply rep_par in Ht as (q & Hq & Hpar). assert (q = p) as -> by congruence.
      cbn [mbind option_bind]. rewrite Hpar. cbn [ctx_parent head fmap option_fmap option_map].
      destruct (close_child_ok l ts i f C t Hinv Hi) as (l' & -> & He & Ha & Hi' & Hf & Hk).
      obind. eexists _, _, _. split; [done|]. split; [done|]. split; [done|]. split; [exact Hi'|].
      by exists i, (f :: C), t.
  - unfold subtree_surfaces, tree_fuel. cbn [collect_surfaces_f]. rewrite Hp. cbn [fmap option_fmap option_map mbind outcome_bind].
    destruct (workspace_of_root l slot) as [j|] eqn:Hw.
    { destruct (ws_of_root_inv l ts _ j Hsk Hw) as (T & HT & <-).
      pose proof (Forall_lookup_1 _ _ _ _ (trees_rep _ _ (sk_trees _ _ Hsk)) HT) as (q & Hq & _)%rep_par.
      congruence. }
    cbn [mbind option_bind]. exists l, [], ts. done.
Qed.

Lemma close_ok l ts slot : inv l ts → headroom l →
  ∃ l' un ts', close l slot = Done (l', un) ∧ later 1 l l' ∧ active l' = active l ∧
    inv l' ts' ∧ close_done l l' ts ts' slot un.
Proof.
  intros Hinv Hroom. destruct (close_inner_ok l ts slot Hinv) as (l1 & un & ts' & Hrun & He & Ha & Hinv1 & Hd).
  unfold close. rewrite Hrun. obind.
  destruct (inv_bump l1 ts' Hinv1) as [-> Hb]; [unfold headroom in Hroom; lia|].
  eexists _, un, ts'. split; [done|]. split; [unfold later; cbn; lia|]. done.
Qed.

End PaneClose.
