(* ===== verification/PaneStamp.v ===== *)
(** * Weights, claims, stamps and fresh leaves keep the invariant

    The operations that write fields of panes and leave the trees alone, and the
    emptying of a pane in place.  A claim token is one-shot: once consumed, or
    once its leaf hosts a surface, no leaf answers to it. *)

From stdpp Require Import strings sorting.
From S2P Require Import Prelude Geometry GeometryProofs Carve PaneData PaneTree PaneRep PaneWalks.
From S2P Require Import PaneInv PaneSplit PaneHost PaneFocus PaneClose.
Import Geometry GeometryProofs PaneData PaneTree PaneRep PaneWalks PaneInv PaneSplit PaneHost PaneFocus
  PaneClose.
Open Scope nat_scope.

Module PaneStamp.

(** An update of fields that neither place, name nor size a pane. *)
Definition cosmetic (f : Pane → Pane) : Prop :=
  ∀ p, parent (f p) = parent p ∧ kind (f p) = kind p ∧ pid (f p) = pid p ∧ weight (f p) = weight p ∧
    rect (f p) = rect p.

Lemma inv_cosmetic l ts s f : inv l ts → cosmetic f → inv (upd l s f) ts.
Proof.
  intros Hinv Hf. apply inv_upd; [done|]. intros p Hp. destruct (Hf p) as (H1 & H2 & H3 & H4 & H5).
  apply (in_place_keep l s); try done; [apply Hinv|]. rewrite H2. apply same_kind_refl.
Qed.
Lemma inv_map_cosmetic l ts f : inv l ts → cosmetic f → inv (map_panes l f) ts.
Proof.
  intros Hinv Hf. apply inv_map; [done|]. intros p Hw Hr. destruct (Hf p) as (H1 & H2 & H3 & H4 & H5).
  unfold in_place. rewrite H1, H2, H3, H4, H5. split; [done|]. split; [apply same_kind_refl|done].
Qed.
(** One cosmetic update or another, by a test on the pane. *)
Lemma cosmetic_if (b : Pane → bool) f : cosmetic f → cosmetic (λ p, if b p then f p else p).
Proof. intros Hf p. destruct (b p); [apply Hf|done]. Qed.

(** ** Weights *)

Lemma set_pane_weight_ok l ts slot w : inv l ts → headroom l → (0 ≤ w ≤ u_max 16)%Z →
  ∃ l' b, set_pane_weight l slot w = Done (l', b) ∧ later 1 l l' ∧ inv l' ts ∧
    (b = false → l' = l) ∧ (b = true → from_option weight 0%Z (get l' slot) = w).
Proof.
  intros Hinv Hroom Hw. unfold set_pane_weight.
  assert (∃ l' b, Done (l, false) = Done (l', b) ∧ later 1 l l' ∧ inv l' ts ∧
    (b = false → l' = l) ∧ (b = true → from_option weight 0%Z (get l' slot) = w)) as Hno.
  { exists l, false. split; [done|]. split; [unfold later; lia|done]. }
  destruct (Z.eqb_spec w 0) as [|Hnz]; [done|].
  destruct (get l slot) as [p|] eqn:Hp; [|done]. destruct (parent p); [|done].
  destruct (Z.eqb_spec (weight p) w) as [Heq|Hne]; cbn [negb].
  - exists l, true. split; [done|]. split; [unfold later; lia|]. split; [done|]. split; [done|].
    intros _. by rewrite Hp.
  - assert (inv (upd l slot (set_weight w)) ts) as Hinv1.
    { apply inv_upd; [done|]. intros q Hq. assert (q = p) as -> by congruence.
      split; [done|]. split; [apply same_kind_refl|]. split; [done|]. split; [cbn; lia|].
      exact (lo_rect l (inv_local _ _ Hinv) slot p Hp). }
    assert (epoch (upd l slot (set_weight w)) = epoch l) as He by apply epoch_upd.
    destruct (inv_bump _ _ Hinv1) as [-> Hb]; [unfold headroom in Hroom; rewrite He; lia|].
    cbn. eexists _, true. split; [done|]. split; [unfold later; cbn; rewrite He; lia|].
    split; [done|]. split; [done|]. intros _. rewrite get_set_epoch. by rewrite (get_upd_eq _ _ _ _ Hp).
Qed.

(** ** Claims *)

Lemma find_claim_spec l token s : find_claim l token = Some s ↔
  (∃ p, get l s = Some p ∧ kind p = Leaf None ∧ claim_token p = Some token) ∧
  ∀ s' p, s' < s → get l s' = Some p → kind p = Leaf None → claim_token p ≠ Some token.
Proof.
  unfold find_claim, get. split.
  - intros H. split.
    + apply position_Some in H as ([p|] & Hp & Ht); [|done]. apply andb_true_iff in Ht as [Hk Ht].
      apply bool_decide_eq_true in Ht. exists p. rewrite Hp. split; [done|].
      by destruct (kind p) as [[]|].
    + intros s' p Hlt Hp Hk Ht. revert s s' Hlt Hp H. induction (panes l) as [|o ps IH]; intros s s' Hlt Hp; [done|].
      cbn [position]. destruct s' as [|s']; cbn in Hp.
      * subst o. rewrite Hk, Ht. cbn. rewrite bool_decide_eq_true_2 by done. intros [= <-]. lia.
      * destruct (match o with Some _ => _ | None => _ end); [intros [= <-]; lia|].
        destruct (position _ ps) as [k|] eqn:Hk'; [|done]. intros [= <-]. eapply (IH k s'); [lia|done|done].
  - intros [(p & Hp & Hk & Ht) Hf]. destruct (panes l !! s) as [o|] eqn:Hs; [|done]. cbn in Hp. subst o.
    eapply position_first; [exact Hs| |].
    + cbn. rewrite Hk, Ht. cbn. by rewrite bool_decide_eq_true_2.
    + intros j [q|] Hj Hq; [|done]. destruct (kind q) as [[]|] eqn:Hkq; try done. cbn.
      apply bool_decide_eq_false. apply (Hf j q Hj); [by rewrite Hq|done].
Qed.

Lemma find_claim_none l token :
  (∀ s p, get l s = Some p → kind p = Leaf None → claim_token p ≠ Some token) → find_claim l token = None.
Proof.
  intros H. destruct (find_claim l token) as [s|] eqn:Hs; [|done].
  apply find_claim_spec in Hs as [(p & Hp & Hk & Ht) _]. by destruct (H s p).
Qed.

Lemma mint_ok l ts slot token : inv l ts → inv (fst (mint_claim l slot token)) ts.
Proof. intros Hinv. unfold mint_claim. destruct (is_empty_leaf l slot); [by apply inv_cosmetic|done]. Qed.
Lemma consume_ok l ts token : inv l ts → inv (fst (consume_claim l token)) ts.
Proof. intros Hinv. unfold consume_claim. destruct (find_claim l token); [by apply inv_cosmetic|done]. Qed.

(** Only one leaf holds the token, so its claim empties the arena of it. *)
Lemma mint_consume l slot token l1 : mint_claim l slot token = (l1, true) →
  (∀ s p, get l s = Some p → claim_token p ≠ Some token) →
  ∃ l2, consume_claim l1 token = (l2, Some slot) ∧ find_claim l2 token = None.
Proof.
  unfold mint_claim, is_empty_leaf. destruct (get l slot) as [p|] eqn:Hp; [|done]. cbn.
  destruct (kind p) as [[]|] eqn:Hk; [done| |done]. intros [= <-] Hnone.
  set (l1 := upd l slot _). assert (find_claim l1 token = Some slot) as Hf.
  { apply find_claim_spec. split.
    - exists (set_claim_token (Some token) p). unfold l1. by rewrite (get_upd_eq _ _ _ _ Hp).
    - intros s' q Hlt. unfold l1. rewrite get_upd_ne by lia. intros Hq _. by eapply Hnone. }
  unfold consume_claim. rewrite Hf. eexists. split; [done|]. apply find_claim_none.
  intros s q. rewrite get_upd. case_decide as Hd.
  - destruct (get l1 s); [|done]. by intros [= <-].
  - unfold l1. rewrite get_upd_ne by done. intros Hq _. by eapply Hnone.
Qed.

(** ** Stamps *)

Lemma set_owner_ok l ts slot o : inv l ts → inv (set_owner l slot o) ts.
Proof. intros Hinv. by apply inv_cosmetic. Qed.
Lemma set_creator_ok l ts slot conn peer : inv l ts → inv (set_creator l slot conn peer) ts.
Proof. intros Hinv. by apply inv_cosmetic. Qed.
Lemma restamp_ok l ts from to : inv l ts → inv (fst (restamp_empties l from to)) ts.
Proof. intros Hinv. by apply inv_map_cosmetic, cosmetic_if. Qed.
Lemma release_ok l ts conn : inv l ts → inv (fst (release_creator l conn)) ts.
Proof.
  intros Hinv. unfold release_creator. destruct (conn =? 0)%Z; [done|]. by apply inv_map_cosmetic, cosmetic_if.
Qed.

Lemma ask_fresh_ok l ts slot : inv l ts → headroom l →
  ∃ l' b, ask_fresh l slot = Done (l', b) ∧ later 1 l l' ∧ inv l' ts ∧ (b = false → l' = l).
Proof.
  intros Hinv Hroom. unfold ask_fresh.
  assert (∃ l' b, Done (l, false) = Done (l', b) ∧ later 1 l l' ∧ inv l' ts ∧ (b = false → l' = l)) as Hno.
  { exists l, false. split; [done|]. split; [unfold later; lia|done]. }
  destruct (get l slot) as [p|]; [|done]. destruct (fresh p && _); [|done].
  assert (inv (upd l slot (set_fresh false)) ts) as Hinv1 by by apply inv_cosmetic.
  assert (epoch (upd l slot (set_fresh false)) = epoch l) as He by apply epoch_upd.
  destruct (inv_bump _ _ Hinv1) as [-> Hb]; [unfold headroom in Hroom; rewrite He; lia|].
  cbn. eexists _, true. split; [done|]. split; [unfold later; cbn; rewrite He; lia|]. done.
Qed.

(** ** A pane emptied in place *)

Lemma local_renamed l l' r p p' : local_ok l → (id_seq l + 1 ≤ u_max 32)%Z →
  id_seq l' = (id_seq l + 1)%Z → length (panes l') ≤ MAX_PANES → get l r = Some p → get l' r = Some p' →
  pid p' = (id_seq l + 1)%Z → weight p' = weight p → rect p' = rect p →
  (∀ s q, s ≠ r → get l' s = Some q → get l s = Some q) → local_ok l'.
Proof.
  intros Hloc Hmax Hseq Hlen Hp Hp' Hid Hw Hr Hg. pose proof (lo_seq l Hloc) as Hs0.
  assert (∀ s q, get l' s = Some q → s = r ∧ q = p' ∨ s ≠ r ∧ get l s = Some q) as Hcase.
  { intros s q Hq. destruct (decide (s = r)) as [->|Hne]; [left; split; congruence|right; auto]. }
  split; [| | | |rewrite Hseq; lia|done].
  - intros s q [[-> ->]|[_ Hq%(lo_id l Hloc)]]%Hcase; rewrite Hseq; lia.
  - intros s q [[-> ->]|[_ Hq]]%Hcase; [rewrite Hw|]; by eapply (lo_weight l Hloc).
  - intros s q [[-> ->]|[_ Hq]]%Hcase; [rewrite Hr|]; by eapply (lo_rect l Hloc).
  - intros s s' q q' [[-> ->]|[Hn Hq]]%Hcase [[-> ->]|[Hn' Hq']]%Hcase Heq; [done| | |by eapply (lo_inj l Hloc)].
    + apply (lo_id l Hloc) in Hq'. lia.
    + apply (lo_id l Hloc) in Hq. lia.
Qed.

(** What keeping the place leaves. *)
Definition kept_done (l l' : Layout) (ts ts' : list ptree) (slot : nat) (o : option (list nat)) : Prop :=
  match o with
  | None => l' = l ∧ ts' = ts
  | Some un => ∃ i C t, ts !! i = Some (plug C t) ∧ root_of t = slot ∧
      un = omap (leaf_surface l) (leaves t) ∧ ts' = <[i := plug C (TLeaf slot)]> ts ∧
      face l' slot = Some ((id_seq l + 1)%Z, None) ∧ (∀ s, s ∉ nodes t → get l' s = get l s) ∧
      (i = active l → focused l' = slot)
  end.

(** The emptied leaf takes the focus of its workspace. *)
Lemma place_focus_ok l ts i C s id : skel l ts → ts !! i = Some (plug C (TLeaf s)) →
  (i ≠ active l → focus_in l ts) →
  ∃ l', match workspace_of_root l (root_of (plug C (TLeaf s))) with
        | Some wi => if wi =? active l then Done (set_focused s l) else upd_ws l wi (ws_set_focused id)
        | None => Done l
        end = Done l' ∧ panes l' = panes l ∧ wpart l' = wpart l ∧
    rest (set_focused (focused l) l') = rest l ∧ focus_in l' ts ∧ (i = active l → focused l' = s).
Proof.
  intros Hsk Hi Hfoc. rewrite (ws_of_root l ts i _ Hsk Hi). destruct (Nat.eqb_spec i (active l)) as [Heq|Hne].
  - eexists. split; [done|]. split; [done|]. split; [done|]. split; [done|]. split; [|done].
    exists (plug C (TLeaf s)). cbn. rewrite <-Heq. split; [done|]. apply leaves_in_plug.
    by apply list_elem_of_singleton.
  - destruct (ws_lookup l ts i _ Hsk Hi) as (w & Hw & _). unfold upd_ws. rewrite Hw. cbn [unwrap mbind outcome_bind].
    eexists. split; [done|]. split; [done|]. split; [by apply wpart_insert|]. split; [done|].
    split; [by apply Hfoc|done].
Qed.

Lemma keep_as_fresh_ok l ts slot owner : inv l ts → headroom l →
  ∃ l' o ts', keep_as_fresh l slot owner = Done (l', o) ∧ later 1 l l' ∧ active l' = active l ∧
    inv l' ts' ∧ kept_done l l' ts ts' slot o.
Proof.
  intros Hinv Hroom. unfold keep_as_fresh, id_of.
  assert (∃ l' o ts', Done (l, None) = Done (l', o) ∧ later 1 l l' ∧ active l' = active l ∧
    inv l' ts' ∧ kept_done l l' ts ts' slot o) as Hno.
  { exists l, None, ts. split; [done|]. split; [unfold later; lia|done]. }
  destruct (get l slot) as [p|] eqn:Hp; [|done]. cbn [fmap option_fmap option_map].
  unfold checked_add. destruct (Z.leb_spec (id_seq l + 1) (u_max 32)) as [Hid|]; [|done].
  set (l1 := set_id_seq (id_seq l + 1) l). pose proof (inv_shape _ _ Hinv) as Hsh.
  destruct (heap_find l ts slot p (sh_heap _ _ Hsh) Hp) as (i & C & t & Hi & <-).
  destruct (plug_rep l ts i C t (shape_trees _ _ Hsh) Hi) as (Hc & Ht & _ & Hsz).
  unfold subtree_surfaces. rewrite (collect_surfaces_walk l1 t (ctx_parent C) (tree_fuel l1) [] Ht)
    by (unfold tree_fuel; cbn; lia). cbn [mbind outcome_bind app].
  destruct (empty_out l1 ts i C t p (keep_fresh (id_seq l + 1) owner) (sh_heap _ _ Hsh) Hi Hp)
    as (l2 & -> & Hh & Hpo & Gr & Gn & G); [done|done|]. obind.
  pose proof (panes_only_fields _ _ Hpo) as (Pw & Pa & Pf & Pi & Pe & Pz & Pm & Ppr & Par). cbn in Pw, Pa, Pf, Pi, Pe, Pz, Pm, Ppr, Par.
  set (T' := plug C (TLeaf (root_of t))). set (ts' := <[i := T']> ts).
  set (l3 := if decide (zoomed_id l2 = Some (pid p)) then set_zoomed_id None l2 else l2).
  assert (panes l3 = panes l2 ∧ workspaces l3 = workspaces l2 ∧ active l3 = active l2 ∧ focused l3 = focused l2 ∧
    id_seq l3 = id_seq l2 ∧ epoch l3 = epoch l2 ∧ metrics l3 = metrics l2 ∧ area l3 = area l2)
    as (Q1 & Q2 & Q3 & Q4 & Q5 & Q6 & Q7 & Q8) by (unfold l3; by case_decide).
  assert (local_ok l2) as Hloc2.
  { eapply (local_renamed l l2 (root_of t)); [apply Hinv|done|done| |exact Hp|exact Gr|done|done|done|].
    - destruct Hpo as [_ ->]. apply Hinv.
    - intros s q Hne Hq. destruct (decide (s ∈ nodes t)); [by rewrite Gn in Hq|by rewrite G in Hq]. }
  assert (root_of T' = root_of (plug C t)) as HrT by (by apply root_plug_ext).
  assert (∀ s, get l3 s = get l2 s) as G3 by (intros; unfold get; by rewrite Q1).
  assert (skel l3 ts') as Hsk3.
  { split; [|unfold ts'; rewrite Q2, Pw, (sh_roots _ _ Hsh); symmetry; by eapply roots_insert
      |rewrite Q2, Pw; apply Hsh|rewrite Q3, Pa; unfold ts'; rewrite length_insert; apply Hsh].
    apply heap_trees. eapply heap_sim; [|exact Hh]. intros s. rewrite G3. apply sim_refl. }
  assert (ts' !! i = Some T') as Hi' by (apply list_lookup_insert_eq; by eapply lookup_lt_Some).
  rewrite (top_of_ok l3 ts' i C (TLeaf (root_of t)) (sk_trees _ _ Hsk3) Hi'
    : top_of l3 (root_of t) = Done (root_of (plug C (TLeaf (root_of t))))). obind.
  destruct (place_focus_ok l3 ts' i C (root_of t) (id_seq l + 1) Hsk3 Hi') as (l4 & -> & R1 & R2 & R3 & R4 & R5).
  { intros Hne. rewrite Q3, Pa in Hne. destruct (inv_focus _ _ Hinv) as (Ta & HTa & HfT). exists Ta.
    unfold ts'. by rewrite Q3, Q4, Pa, Pf, list_lookup_insert_ne. }
  unfold rest in R3. cbn in R3. injection R3 as S1 S2 S3 S4 S5 S6 S7.
  obind.
  assert (inv l4 ts') as Hinv4.
  { eapply (inv_settle l l4); try done.
    - pose proof (Forall_lookup_1 _ _ _ _ (sh_wide _ _ Hsh) Hi) as Hwd. unfold T'. rewrite wide_plug in *. by destruct Hwd.
    - eapply heap_sim; [|exact Hh]. intros s. unfold get. rewrite R1, Q1. apply sim_refl.
    - eapply local_meta; [exact Hloc2|congruence..].
    - congruence.
    - rewrite S2, Q6, Pe. apply Hinv.
    - unfold env_ok. rewrite S4, S6, Q7, Q8, Pm, Par. apply Hinv.
    - rewrite R2. unfold wpart. by rewrite Q2, Pw. }
  destruct (inv_bump l4 ts' Hinv4) as [-> Hb]; [unfold headroom in Hroom; lia|].
  cbn. eexists _, _, ts'. split; [done|]. split; [unfold later; cbn; lia|]. split; [cbn; congruence|]. split; [done|].
  exists i, C, t. split; [done|]. split; [done|]. split; [done|]. split; [done|].
  assert (∀ s, get (set_epoch (epoch l4 + 1) l4) s = get l2 s) as G4 by (intros; unfold get; cbn; by rewrite R1, Q1).
  split; [unfold face; rewrite G4, Gr; done|]. split; [intros s Hs; rewrite G4; by apply G|].
  cbn. intros ->. apply R5. congruence.
Qed.

(** ** The background *)

(** [l'] is [l] with the slots [ns] stamped. *)
Definition stamps (l l' : Layout) (ns : list nat) : Prop :=
  panes_only l l' ∧
  ∀ s, get l' s = if decide (s ∈ ns) then set_backgrounded true <$> get l s else get l s.

Lemma stamps_nil l : stamps l l [].
Proof. split; [apply panes_only_refl|]. intros s. rewrite decide_False; [done|by intros ?%elem_of_nil]. Qed.
Lemma stamps_upd l s : stamps l (upd l s (set_backgrounded true)) [s].
Proof.
  split; [apply panes_only_upd|]. intros s'. rewrite get_upd. repeat case_decide; try done; set_solver.
Qed.
Lemma stamps_trans l1 l2 l3 ns ms : stamps l1 l2 ns → stamps l2 l3 ms → stamps l1 l3 (ns ++ ms).
Proof.
  intros [P1 G1] [P2 G2]. split; [by eapply panes_only_trans|]. intros s. rewrite G2, G1.
  repeat case_decide; try done; try set_solver. by destruct (get l1 s).
Qed.
Lemma stamps_sim l l' ns s : stamps l l' ns → sim (get l s) (get l' s).
Proof.
  intros [_ ->]. case_decide; [|apply sim_refl]. destruct (get l s); [|done]. cbn.
  split; [done|apply same_kind_refl].
Qed.

(** Stamping several trees in turn. *)
Lemma stamp_all f l par ts :
  (∀ l0 t, t ∈ ts → length (panes l0) = length (panes l) → rep (get l0) par t →
     ∃ l', f l0 (root_of t) = Done l' ∧ stamps l0 l' (nodes t)) →
  Forall (rep (get l) par) ts →
  ∃ l', foldM f l (roots ts) = Done l' ∧ stamps l l' (ts ≫= nodes).
Proof.
  revert l. induction ts as [|t ts IH]; intros l Hf Hts.
  - exists l. split; [done|]. apply stamps_nil.
  - apply Forall_cons in Hts as [Ht Hts]. rewrite fmap_cons. cbn [foldM].
    destruct (Hf l t) as (l1 & -> & H1); [set_solver|done|done|]. obind.
    assert (length (panes l1) = length (panes l)) as Hlen by apply H1.
    destruct (IH l1) as (l2 & -> & H2).
    + intros l0 u Hu Hl0. apply Hf; [by right|congruence].
    + eapply forall_rep_sim; [|exact Hts]. intros s _. by eapply stamps_sim.
    + exists l2. split; [done|]. rewrite bind_cons. by eapply stamps_trans.
Qed.

Lemma stamp_walk l t par fuel : rep (get l) par t → length (nodes t) ≤ fuel →
  ∃ l', stamp_bg_subtree_f fuel l (root_of t) = Done l' ∧ stamps l l' (nodes t).
Proof.
  revert l par fuel. induction t as [s|s ts IH] using ptree_rect'; intros l par [|fuel] H Hf;
    try (cbn in Hf; lia); cbn [stamp_bg_subtree_f root_of]; unfold kids_of.
  - inversion H as [? ? p sf Hg Hp Hk|]; subst. rewrite Hg. cbn [fmap option_fmap option_map]. rewrite Hk.
    eexists. split; [done|]. apply stamps_upd.
  - inversion H as [|? ? p m a ? Hg Hp Hk Ha Hts]; subst. rewrite Hg. cbn [fmap option_fmap option_map].
    rewrite Hk. rewrite Forall_forall in IH.
    destruct (stamp_all (stamp_bg_subtree_f fuel) (upd l s (set_backgrounded true)) (Some s) ts)
      as (l' & -> & Hst).
    + intros l0 t Ht _ Hr. eapply IH; [done|exact Hr|by eapply child_size].
    + eapply forall_rep_sim; [|exact Hts]. intros s' _. eapply stamps_sim, stamps_upd.
    + exists l'. split; [done|]. exact (stamps_trans _ _ _ _ _ (stamps_upd l s) Hst).
Qed.

(** The trees of the workspaces not shown. *)
Definition others (a : nat) (ts : list ptree) : list ptree :=
  omap (λ x, if x.1 =? a then None else Some x.2) (imap pair ts).

Lemma others_in a ts T : T ∈ others a ts ↔ ∃ i, i ≠ a ∧ ts !! i = Some T.
Proof.
  unfold others. rewrite list_elem_of_omap. split.
  - intros ([i U] & (j & V & [= <- <-] & Hj)%elem_of_lookup_imap & Hx). cbn in Hx.
    destruct (Nat.eqb_spec i a); [done|]. injection Hx as <-. eauto.
  - intros (i & Hne & Hi). exists (i, T). cbn. rewrite (proj2 (Nat.eqb_neq _ _)) by done.
    split; [|done]. by apply elem_of_lookup_imap_2.
Qed.

Lemma inactive_roots_spec l ts : skel l ts → inactive_roots l = roots (others (active l) ts).
Proof.
  intros [_ Hr _ _]. unfold inactive_roots, others. revert Hr. generalize (active l) as a.
  generalize (workspaces l) as ws. intros ws a Hr.
  cut (∀ g : nat → nat, omap (λ x : nat * Workspace, if x.1 =? a then None else Some (ws_root x.2))
      (imap (λ i w, (g i, w)) ws) =
    roots (omap (λ x : nat * ptree, if x.1 =? a then None else Some x.2) (imap (λ i T, (g i, T)) ts))).
  { intros H. exact (H id). }
  revert ts Hr. induction ws as [|w ws IH]; intros [|T ts]; try done. rewrite !fmap_cons. intros [= H1 H2] g.
  cbn. destruct (g 0 =? a); cbn; [|f_equal; [done|]]; apply (IH ts H2 (λ i, g (S i))).
Qed.

Lemma apply_backgrounded_ok l ts bg : inv l ts →
  ∃ l', apply_backgrounded l bg = Done l' ∧ inv l' ts ∧ meta l' = meta l ∧
    ∀ s, get l' s = set_backgrounded (bool_decide (s ∈ bg ∨ s ∈ others (active l) ts ≫= nodes)) <$> get l s.
Proof.
  intros Hinv. pose proof (inv_shape _ _ Hinv) as Hsh. unfold apply_backgrounded.
  set (l0 := set_panes _ l).
  assert (∀ s, get l0 s = set_backgrounded (bool_decide (s ∈ bg)) <$> get l s) as G0.
  { intros s. unfold l0, get. cbn. rewrite list_lookup_imap. by destruct (panes l !! s) as [[]|]. }
  assert (∀ s, sim (get l s) (get l0 s)) as Hsim.
  { intros s. rewrite G0. destruct (get l s); [|done]. split; [done|apply same_kind_refl]. }
  assert (skel l0 ts) as Hsk0 by (eapply skel_agree; [by apply shape_skel|done|done|auto]).
  rewrite (inactive_roots_spec l0 ts Hsk0). change (active l0) with (active l).
  destruct (stamp_all (λ l r, stamp_bg_subtree_f (tree_fuel l) l r) l0 None (others (active l) ts))
    as (l' & -> & Hpo & G).
  - intros l1 T (i & _ & Hi)%others_in Hlen Hr. eapply stamp_walk; [exact Hr|].
    unfold tree_fuel. rewrite Hlen.
    pose proof (tree_size l0 ts (sk_trees _ _ Hsk0) T (list_elem_of_lookup_2 _ _ _ Hi)). lia.
  - apply Forall_forall. intros T (i & _ & Hi)%others_in.
    eapply (Forall_lookup_1 _ _ _ _ (trees_rep _ _ (sk_trees _ _ Hsk0))), Hi.
  - assert (∀ s, get l' s = set_backgrounded (bool_decide (s ∈ bg ∨ s ∈ others (active l) ts ≫= nodes))
      <$> get l s) as G'.
    { intros s. rewrite G, G0. case_decide as Hd.
      - rewrite (bool_decide_eq_true_2 (_ ∨ _)) by (by right). by destruct (get l s).
      - destruct (decide (s ∈ bg)).
        + rewrite !bool_decide_eq_true_2 by auto. done.
        + rewrite !bool_decide_eq_false_2; [done|by intros [|]|done]. }
    assert (length (panes l0) = length (panes l)) as Hlen by apply length_imap.
    exists l'. split; [done|]. split; [|split; [rewrite (panes_only_meta _ _ Hpo); done|done]].
    eapply (inv_in_place l l'); [exact Hinv|by rewrite (panes_only_meta _ _ Hpo)
      |by destruct Hpo as [-> _]|destruct Hpo as [_ ->]; rewrite Hlen; apply Hinv|].
    intros s. rewrite G'. destruct (get l s) as [p|] eqn:Hp; [|done]. cbn.
    apply (in_place_keep l s); try done; [apply Hinv|]. apply same_kind_refl.
Qed.

End PaneStamp.
