(* ===== verification/PaneWork.v ===== *)
(** * Workspaces

    A workspace is created by insertion in the order of the numbers, the active
    index following; switching saves and restores the focus of each; an inactive
    workspace with neither a surface nor a reservation is reaped. *)

From stdpp Require Import strings sorting.
From S2P Require Import Prelude Geometry GeometryProofs Carve PaneData PaneTree PaneRep PaneWalks.
From S2P Require Import PaneInv PaneSplit PaneHost PaneFocus PaneClose PaneStamp.
Import Geometry GeometryProofs PaneData PaneTree PaneRep PaneWalks PaneInv PaneSplit PaneHost PaneFocus
  PaneClose PaneStamp.
Open Scope nat_scope.

Module PaneWork.

(** The invariant with the slots [xs] live but out of every tree. *)
Record held (xs : list nat) (l : Layout) (ts : list ptree) : Prop := mkHeld {
  hd_loose : loose xs l ts;
  hd_wide : Forall wide ts;
  hd_focus : focus_in l ts;
  hd_live s : s ∈ xs → is_Some (get l s) }.

Definition insert_at {A} (k : nat) (x : A) (v : list A) : list A := take k v ++ x :: drop k v.

Lemma inv_held l ts : inv l ts → held [] l ts.
Proof.
  intros H. split; [by apply inv_loose|apply (inv_shape _ _ H)|apply H|by intros s ?%elem_of_nil].
Qed.
Lemma held_inv l ts : held [] l ts → inv l ts.
Proof. intros [H1 H2 H3 _]. by apply loose_inv. Qed.

(** ** Insertion at an index *)

Section insert_at.
Context {A : Type}.
Implicit Types (v : list A).

Lemma insert_at_lt k x v j : j < k → k ≤ length v → insert_at k x v !! j = v !! j.
Proof. intros Hj Hk. unfold insert_at. rewrite lookup_app_l, lookup_take by (rewrite ?length_take; lia). by rewrite decide_True. Qed.
Lemma insert_at_eq k x v : k ≤ length v → insert_at k x v !! k = Some x.
Proof. intros Hk. unfold insert_at. apply list_lookup_middle. rewrite length_take. lia. Qed.
Lemma insert_at_ge k x v j : k ≤ j → k ≤ length v → insert_at k x v !! S j = v !! j.
Proof.
  intros Hj Hk. unfold insert_at. rewrite lookup_app_r by (rewrite length_take; lia).
  rewrite length_take, Nat.min_l by lia. replace (S j - k) with (S (j - k)) by lia.
  transitivity (drop k v !! (j - k)); [done|]. rewrite lookup_drop. f_equal. lia.
Qed.
Lemma insert_at_perm k x v : insert_at k x v ≡ₚ x :: v.
Proof. unfold insert_at. rewrite <-Permutation_middle. by rewrite take_drop. Qed.
Lemma insert_at_length k x v : length (insert_at k x v) = S (length v).
Proof. by rewrite insert_at_perm. Qed.
Lemma insert_at_fmap {B} (f : A → B) k x v : f <$> insert_at k x v = insert_at k (f x) (f <$> v).
Proof. unfold insert_at. by rewrite fmap_app, fmap_cons, fmap_take, fmap_drop. Qed.
Lemma vec_insert_at v k x : k ≤ length v → vec_insert v k x = Done (insert_at k x v).
Proof. intros H. unfold vec_insert. by rewrite (proj2 (Nat.leb_le _ _)). Qed.
End insert_at.

(** The index a number belongs at, and the order kept. *)
Lemma number_slot (n : Z) (ws : list Workspace) : numbers_ok ws → (∀ w, w ∈ ws → number w ≠ n) →
  let k := default (length ws) (position (λ w, Z.ltb n (number w)) ws) in
  k ≤ length ws ∧ StronglySorted Z.lt (insert_at k n (number <$> ws)).
Proof.
  intros [Hs _]. induction ws as [|w ws IH]; intros Hne; [split; [done|]; repeat constructor|].
  cbn [position]. rewrite fmap_cons in Hs. apply StronglySorted_inv in Hs as [Hs Hw].
  destruct (Z.ltb_spec n (number w)) as [Hlt|Hge].
  - cbn. split; [lia|]. unfold insert_at. cbn. constructor; [by constructor|].
    constructor; [done|]. eapply Forall_impl; [exact Hw|]. intros x. cbn. lia.
  - assert (number w ≠ n) by (apply Hne; by left).
    destruct IH as [Hk IH]; [done|intros; apply Hne; by right|].
    set (k := default (length ws) (position (λ w, Z.ltb n (number w)) ws)) in *.
    replace (default (length (w :: ws)) (S <$> position (λ w0, Z.ltb n (number w0)) ws)) with (S k)
      by (unfold k; by destruct (position _ ws)).
    split; [cbn; lia|]. unfold insert_at in *. cbn. constructor; [done|].
    rewrite Forall_app, Forall_cons. split; [by apply Forall_take|]. split; [lia|by apply Forall_drop].
Qed.

(** A leaf of its own joins the heap. *)
Lemma heap_leaf g g' ts r p : heap g ts → g r = None → g' r = Some p → parent p = None → kind p = Leaf None →
  (∀ s, s ≠ r → g' s = g s) → heap g' (TLeaf r :: ts).
Proof.
  intros [H1 H2 H3] Hr Hr' Hpar Hk Hg.
  assert (r ∉ ts ≫= nodes) as Hn.
  { intros (T & Hs & HT)%list_elem_of_bind. rewrite Forall_forall in H1.
    destruct (rep_live _ _ _ _ (H1 T HT) Hs). congruence. }
  split.
  - constructor; [by econstructor|]. eapply forall_rep_sim; [|exact H1].
    intros s Hs. rewrite Hg; [apply sim_refl|by intros ->].
  - rewrite bind_cons. cbn. by constructor.
  - intros s Hs. rewrite bind_cons. destruct (decide (s = r)) as [->|Hne]; [set_solver|].
    rewrite Hg in Hs by done. apply elem_of_app. right. auto.
Qed.

(** ** Creating a workspace *)

(** What ensuring a workspace leaves: it, at the index returned, and everything
    else as it was; the active tree may have moved one index up. *)
Definition ensured (l l' : Layout) (ts ts' : list ptree) (n : Z) (k : nat) : Prop :=
  (number <$> workspaces l' !! k = Some n) ∧ ts' !! active l' = ts !! active l ∧
  workspaces l' !! active l' = workspaces l !! active l ∧
  (l' = l ∧ ts' = ts ∨
   ∃ r, get l r = None ∧ k ≤ length ts ∧ ts' = insert_at k (TLeaf r) ts ∧ k ≠ active l' ∧
     face l' r = Some ((id_seq l + 1)%Z, None) ∧ (∀ s, s ≠ r → get l' s = get l s) ∧
     (∀ w, w ∈ workspaces l → number w ≠ n) ∧ reserved_slot l' r = false ∧
     ∃ w0, workspaces l' = insert_at k w0 (workspaces l)).

(** Everything but the arena, the workspaces, the active index and the counter. *)
Definition bearing (l : Layout) := (focused l, epoch l, zoomed_id l, metrics l, profile l, area l).

Lemma numbers_insert ws k w n : numbers_ok ws → number w = n → (1 ≤ n ≤ 9)%Z →
  StronglySorted Z.lt (insert_at k n (number <$> ws)) → numbers_ok (insert_at k w ws).
Proof.
  intros [_ H2] Hw Hn Hs. split.
  - by rewrite insert_at_fmap, Hw.
  - rewrite insert_at_perm. constructor; [by rewrite Hw|done].
Qed.

Lemma loose_add xs l l' ts k r p w : loose xs l ts → (∀ s, s ∈ xs → is_Some (get l s)) → get l r = None →
  get l' r = Some p → parent p = None → kind p = Leaf None → (∀ s, s ≠ r → get l' s = get l s) →
  k ≤ length ts → workspaces l' = insert_at k w (workspaces l) → ws_root w = r →
  numbers_ok (workspaces l') → active l' = (if k <=? active l then S (active l) else active l) →
  local_ok l' → (0 ≤ epoch l')%Z → env_ok l' → loose xs l' (insert_at k (TLeaf r) ts).
Proof.
  intros Hl Hlive Hr Hp Hpar Hk Hg Hle Hw Hwr Hnum Ha Hloc Hep Henv.
  assert (r ∉ xs) as Hrx by (intros Hx; destruct (Hlive r Hx); congruence).
  split; [| |done| |done|done|done].
  - rewrite insert_at_perm. apply (heap_leaf (masked xs (get l)) _ _ r p); [apply Hl|by rewrite hide_out
      |by rewrite hide_out|done|done|].
    intros s Hs. unfold masked. case_decide; [done|]. by apply Hg.
  - by rewrite Hw, !insert_at_fmap, Hwr, (lq_roots _ _ _ Hl).
  - rewrite insert_at_length, Ha. pose proof (lq_active _ _ _ Hl). destruct (Nat.leb_spec k (active l)); lia.
Qed.

Lemma ensure_workspace_ok xs l ts n owner : held xs l ts → (0 ≤ n)%Z →
  ∃ l' o ts', ensure_workspace l n owner = Done (l', o) ∧ held xs l' ts' ∧ bearing l' = bearing l ∧
    match o with
    | None => l' = l ∧ ts' = ts ∧ ∀ w, w ∈ workspaces l → number w ≠ n
    | Some k => ensured l l' ts ts' n k
    end.
Proof.
  intros [Hl Hwd Hfoc Hlive] Hn0. unfold ensure_workspace.
  assert ((∀ w, w ∈ workspaces l → number w ≠ n) →
    ∃ l' o ts', Done (l, None) = Done (l', o) ∧ held xs l' ts' ∧ bearing l' = bearing l ∧
    match o with
    | None => l' = l ∧ ts' = ts ∧ ∀ w, w ∈ workspaces l → number w ≠ n
    | Some k => ensured l l' ts ts' n k
    end) as Hno by by exists l, None, ts.
  destruct (in_ws_range n) eqn:Hrange; cbn [negb].
  2:{ apply Hno. intros w Hw <-. destruct (lq_nums _ _ _ Hl) as [_ Hb]. rewrite Forall_forall in Hb.
      specialize (Hb w Hw). unfold in_ws_range, MAX_WORKSPACES in Hrange. cbn beta in Hb.
      destruct (Z.eqb_spec (number w) 0), (Nat.leb_spec (Z.to_nat (number w)) 9); try done; lia. }
  apply andb_true_iff in Hrange as [Hnz%negb_true_iff%Z.eqb_neq Hmax%Nat.leb_le].
  destruct (position _ (workspaces l)) as [i|] eqn:Hpos.
  { apply position_Some in Hpos as (w & Hw & Heq%Z.eqb_eq). exists l, (Some i), ts. split; [done|].
    split; [done|]. split; [done|]. split; [by rewrite Hw; cbn; rewrite Heq|]. split; [done|]. split; [done|by left]. }
  apply position_None in Hpos. rewrite Forall_forall in Hpos.
  specialize (Hno (λ w Hw, proj1 (Z.eqb_neq _ _) (Hpos w Hw))).
  destruct (MAX_WORKSPACES <=? length (workspaces l)); [done|].
  destruct (alloc l None (Leaf None)) as [[l1 r]|] eqn:Hal; [|done].
  apply alloc_spec in Hal as [(Hr & Hm1 & Hid1 & Hg1) Hloc1]; [|apply Hl].
  assert (get l1 r = Some (fresh_pane (id_seq l + 1) None (Leaf None))) as Gr by (by rewrite Hg1, decide_True).
  unfold id_of. rewrite Gr. cbn [fmap option_fmap option_map].
  set (l2 := upd (set_owner l1 r owner) r (set_fresh true)).
  assert (meta l2 = meta l) as Hm2 by (unfold l2, set_owner; by rewrite !meta_upd).
  unfold meta in Hm2. injection Hm2 as Mw Ma Mf Me Mz Mm Mp Mar. rewrite Mw.
  destruct (number_slot n (workspaces l) (lq_nums _ _ _ Hl)) as [Hk Hsort].
  { intros w Hw Heq. specialize (Hpos w Hw). by apply Z.eqb_neq in Hpos. }
  set (k := default _ _) in *. rewrite vec_insert_at by done. obind.
  set (w0 := mkWorkspace _ _ _).
  set (l3 := if k <=? _ then _ else _).
  assert (active l3 = if k <=? active l then S (active l) else active l) as Ha3.
  { unfold l3. cbn. rewrite Ma. destruct (k <=? active l); cbn; rewrite ?Ma; lia. }
  assert (panes l3 = panes l2 ∧ id_seq l3 = id_seq l2 ∧ workspaces l3 = insert_at k w0 (workspaces l) ∧
    bearing l3 = bearing l) as (Hp3 & Hi3 & Hw3 & Hb3).
  { unfold l3, bearing. destruct (k <=? _); cbn; by rewrite Mf, Me, Mz, Mm, Mp, Mar. }
  assert (length (workspaces l) = length ts) as Hlen.
  { pose proof (lq_roots _ _ _ Hl) as H. apply (f_equal length) in H. by rewrite !length_fmap in H. }
  assert (∀ s, get l3 s = get l2 s) as G3 by (intros; unfold get; by rewrite Hp3).
  assert (∀ s, s ≠ r → get l3 s = get l s) as Gs.
  { intros s Hs. rewrite G3. unfold l2, set_owner. by rewrite !get_upd_ne, Hg1, decide_False by done. }
  assert (get l3 r = Some (set_fresh true (set_owner_principal owner (fresh_pane (id_seq l + 1) None (Leaf None))))) as Gr3.
  { rewrite G3. unfold l2, set_owner. rewrite !get_upd, !decide_True by done. by rewrite Gr. }
  assert (ts !! active l = insert_at k (TLeaf r) ts !! active l3) as Hact.
  { rewrite Ha3. destruct (Nat.leb_spec k (active l)); [by rewrite insert_at_ge by lia|by rewrite insert_at_lt by lia]. }
  pose proof Hb3 as Hb3'. unfold bearing in Hb3'. injection Hb3' as Bf Be Bz Bm Bp Bar.
  exists l3, (Some k), (insert_at k (TLeaf r) ts). split; [done|]. split; [split|split; [done|split; [|split]]].
  - eapply (loose_add xs l l3 ts k r _ w0 Hl Hlive Hr Gr3); try done; [lia| | | |].
    + rewrite Hw3. eapply (numbers_insert _ _ w0 n); [apply Hl|done|unfold MAX_WORKSPACES in Hmax; lia|done].
    + eapply local_meta; [|exact Hp3|exact Hi3]. apply local_upd_keep; [by apply local_upd_keep|done].
    + rewrite Be. apply Hl.
    + unfold env_ok. rewrite Bm, Bar. apply Hl.
  - rewrite insert_at_perm. by constructor.
  - destruct Hfoc as (T & HT & Hf). exists T. rewrite <-Hact, Bf. done.
  - intros s Hs. destruct (decide (s = r)) as [->|]; [by rewrite Gr3|]. rewrite Gs by done. by apply Hlive.
  - rewrite Hw3, insert_at_eq by done. done.
  - done.
  - rewrite Hw3, Ha3. split; [|right; exists r].
    + destruct (Nat.leb_spec k (active l)); [by rewrite insert_at_ge by lia|by rewrite insert_at_lt by lia].
    + split; [done|]. split; [lia|]. split; [done|]. split.
      * destruct (Nat.leb_spec k (active l)); lia.
      * split; [unfold face; by rewrite Gr3|]. split; [done|]. split; [intros w Hw; apply Z.eqb_neq; auto|].
        split; [unfold reserved_slot; by rewrite Gr3|by exists w0].
Qed.

(** ** Switching *)

Lemma slot_of_id_live l s p : local_ok l → get l s = Some p → slot_of_id l (pid p) = Some s.
Proof.
  intros Hloc Hp. unfold slot_of_id. pose proof Hp as Hp'. unfold get in Hp.
  destruct (panes l !! s) as [o|] eqn:Ho; [|done]. cbn in Hp. subst o.
  eapply position_first; [exact Ho|cbn; by apply Z.eqb_refl|]. intros j [q|] Hj Hq; [|done]. cbn.
  apply Z.eqb_neq. intros Heq. assert (get l j = Some q) as Hgq by (unfold get; by rewrite Hq).
  rewrite (lo_inj l Hloc j s q p Hgq Hp' Heq) in Hj. lia.
Qed.

(** Activation of the workspace at [k], before its focus is restored. *)
Definition activated (l : Layout) (k : nat) (id : Z) : Layout :=
  set_active k (set_workspaces (alter (ws_set_focused id) (active l) (workspaces l)) l).

Lemma alter_insert {A} (f : A → A) i (v : list A) x : v !! i = Some x → alter f i v = <[i := f x]> v.
Proof.
  intros Hx. apply list_eq. intros j. destruct (decide (i = j)) as [<-|].
  - rewrite list_lookup_alter_eq, Hx, list_lookup_insert_eq; [done|]. by eapply lookup_lt_Some.
  - by rewrite list_lookup_alter_ne, list_lookup_insert_ne.
Qed.

Lemma activated_shape l ts k id : inv l ts → k < length ts →
  upd_ws l (active l) (ws_set_focused id) =
    Done (set_workspaces (alter (ws_set_focused id) (active l) (workspaces l)) l) ∧
  shape (activated l k id) ts.
Proof.
  intros Hinv Hk. pose proof (inv_shape _ _ Hinv) as Hsh. destruct (inv_focus _ _ Hinv) as (T & HT & _).
  destruct (ws_lookup l ts _ T (shape_skel _ _ Hsh) HT) as (w & Hw & _).
  split; [unfold upd_ws; rewrite Hw; cbn; by rewrite (alter_insert _ _ _ w)|].
  destruct (wpart_fields l (activated l k id)) as [Hr Hn].
  { unfold wpart. cbn. rewrite (alter_insert _ _ _ w) by done. by apply wpart_insert. }
  split; [apply Hsh| |apply Hsh|apply Hn, Hsh|done]. rewrite Hr. apply Hsh.
Qed.

(** The focus restored: the saved leaf if it still stands there, else a leaf. *)
Definition restored (l : Layout) (w : Workspace) (r : nat) : outcome nat :=
  keep ← match slot_of_id l (ws_focused w) with
         | Some s => if is_leaf l s then b ← in_active_root l s; Done (if (b : bool) then Some s else None)
                     else Done None
         | None => Done None
         end;
  match keep with Some s => Done s | None => o ← first_leaf l r; Done (default r o) end.

Lemma restored_ok l ts w T : shape l ts → local_ok l → ts !! active l = Some T →
  ∃ f, restored l w (root_of T) = Done f ∧ f ∈ leaves T ∧
    ∀ s p, s ∈ leaves T → get l s = Some p → ws_focused w = pid p → f = s.
Proof.
  intros Hsh Hloc HT. pose proof (shape_skel _ _ Hsh) as Hsk. unfold restored.
  assert (∃ keep, match slot_of_id l (ws_focused w) with
      | Some s => if is_leaf l s then b ← in_active_root l s; Done (if (b : bool) then Some s else None)
                  else Done None
      | None => Done None end = Done keep ∧ (∀ s, keep = Some s → s ∈ leaves T) ∧
      ∀ s p, s ∈ leaves T → get l s = Some p → ws_focused w = pid p → keep = Some s) as (keep & -> & Hin & Hkeep).
  { destruct (slot_of_id l (ws_focused w)) as [s|] eqn:Hs.
    2:{ exists None. split; [done|]. split; [done|]. intros s p _ Hp Hw.
        rewrite Hw, (slot_of_id_live l s p Hloc Hp) in Hs. done. }
    assert (∀ s' p, get l s' = Some p → ws_focused w = pid p → s' = s) as Huniq.
    { intros s' p Hp Hw. rewrite Hw, (slot_of_id_live l s' p Hloc Hp) in Hs. congruence. }
    destruct (is_leaf l s) eqn:Hlf.
    2:{ exists None. split; [done|]. split; [done|]. intros s' p Hl' Hp Hw. rewrite (Huniq s' p Hp Hw) in *.
        destruct (leaf_kind (get l) ts T s (sk_trees _ _ Hsk)) as (q & sf & Hq & Hk);
          [by eapply list_elem_of_lookup_2|done|].
        unfold is_leaf in Hlf. rewrite Hq in Hlf. cbn in Hlf. by rewrite Hk in Hlf. }
    destruct (is_leaf_live l s Hlf) as (q & sf & Hq & Hkq).
    destruct (heap_find l ts s q (sh_heap _ _ Hsh) Hq) as (i & C & t & Hi & Hr).
    pose proof (in_active_spec l ts i C t Hsk Hi) as Hact. rewrite Hr in Hact. rewrite Hact.
    destruct (plug_rep l ts i C t (sk_trees _ _ Hsk) Hi) as (_ & Ht & _ & _).
    assert (t = TLeaf s) as ->. { inversion Ht; subst; cbn in *; congruence. }
    obind. case_bool_decide as Hd.
    - exists (Some s). split; [done|]. split.
      + intros s' [= <-]. subst i. rewrite HT in Hi. injection Hi as ->. apply leaves_in_plug.
        by apply list_elem_of_singleton.
      + intros s' p _ Hp Hw. by rewrite (Huniq s' p Hp Hw).
    - exists None. split; [done|]. split; [done|]. intros s' p Hl' Hp Hw. exfalso. apply Hd.
      rewrite (Huniq s' p Hp Hw) in *. eapply (trees_disjoint (get l) ts _ _ _ T s); [apply Hsk|done|done| |by apply leaves_nodes].
      rewrite nodes_plug. cbn. by left. }
  obind. destruct keep as [s|].
  - exists s. split; [done|]. split; [by apply Hin|]. intros s' p H1 H2 H3. by injection (Hkeep s' p H1 H2 H3).
  - destruct (first_leaf_spec l ts (active l) [] T (sk_trees _ _ Hsk) HT) as (s & -> & Hf).
    exists s. split; [done|]. split; [by eapply follows_in|]. intros s' p H1 H2 H3. by specialize (Hkeep s' p H1 H2 H3).
Qed.

(** What a switch leaves: the workspace [n] active and unzoomed, the focus of the
    one left saved, that of the one entered restored if it still stands. *)
Definition switched (l l' : Layout) (ts ts' : list ptree) (n : Z) : Prop :=
  ∃ l1 k, inv l1 ts' ∧ bearing l1 = bearing l ∧ ensured l l1 ts ts' n k ∧ k ≠ active l1 ∧
    l' = set_epoch (epoch l + 1)%Z (set_zoomed_id None (set_focused (focused l')
           (activated l1 k (default 0%Z (id_of l1 (focused l)))))) ∧
    ∀ w T s p, workspaces l1 !! k = Some w → ts' !! k = Some T → s ∈ leaves T → get l1 s = Some p →
      ws_focused w = pid p → focused l' = s.

Lemma ws_length l ts : skel l ts → length (workspaces l) = length ts.
Proof. intros [_ H _ _]. apply (f_equal length) in H. by rewrite !length_fmap in H. Qed.

Lemma ensured_elsewhere l l1 ts ts' n k : active_is l n = false → ensured l l1 ts ts' n k → k ≠ active l1.
Proof.
  intros Hact (Hnum & _ & _ & [[-> ->]|(r & _ & _ & _ & Hne & _)]); [|done]. intros ->.
  unfold active_is in Hact. by apply bool_decide_eq_false in Hact.
Qed.

Lemma switch_ok l ts n owner : inv l ts → (epoch l < u_max 64)%Z → (0 ≤ n)%Z →
  ∃ l' b ts', switch_workspace l n owner = Done (l', b) ∧ later 1 l l' ∧ inv l' ts' ∧
    if b : bool then switched l l' ts ts' n
    else l' = l ∧ ts' = ts ∧ (active_is l n = true ∨ ∀ w, w ∈ workspaces l → number w ≠ n).
Proof.
  intros Hinv Hroom Hn. unfold switch_workspace.
  destruct (active_is l n) eqn:Hact.
  { exists l, false, ts. split; [done|]. split; [unfold later; lia|]. split; [done|]. split; [done|]. auto. }
  destruct (ensure_workspace_ok [] l ts n owner (inv_held _ _ Hinv) Hn) as (l1 & o & ts' & -> & Hh1%held_inv & Hb & Ho).
  obind. destruct o as [k|].
  2:{ destruct Ho as (-> & -> & Hn'). exists l, false, ts. split; [done|]. split; [unfold later; lia|]. auto. }
  pose proof (ensured_elsewhere _ _ _ _ _ _ Hact Ho) as Hka.
  pose proof Hb as Hb'. unfold bearing in Hb'. injection Hb' as Bf Be Bz Bm Bp Bar.
  pose proof (proj1 Ho) as Hnum. destruct (workspaces l1 !! k) as [w|] eqn:Hw; [|done].
  assert (k < length ts') as Hk.
  { rewrite <-(ws_length l1 ts' (shape_skel _ _ (inv_shape _ _ Hh1))). by eapply lookup_lt_Some. }
  destruct (activated_shape l1 ts' k (default 0%Z (id_of l1 (focused l1))) Hh1 Hk) as [-> Hsh].
  obind. fold (activated l1 k (default 0%Z (id_of l1 (focused l1)))).
  set (l2 := activated _ _ _) in *.
  assert (workspaces l2 !! k = Some w) as Hw2 by (unfold l2; cbn; by rewrite list_lookup_alter_ne).
  rewrite Hw2. cbn [unwrap mbind outcome_bind].
  destruct (shape_root l2 ts' (shape_skel _ _ Hsh)) as (T & HT & ->). obind.
  assert (local_ok l2) as Hloc2 by (eapply local_meta; [apply Hh1|done|done]).
  destruct (restored_ok l2 ts' w T Hsh Hloc2 HT) as (f & Hres & Hf & Hkeep).
  unfold restored in Hres. match type of Hres with mbind _ ?A = _ => destruct A as [keep| |]; [|done..] end.
  cbn [mbind outcome_bind] in Hres |- *. rewrite Hres. obind.
  set (l3 := set_zoomed_id None (set_focused f l2)).
  assert (inv l3 ts') as Hinv3.
  { split; [|by eapply local_meta|by exists T|apply Hh1|apply Hh1].
    eapply shape_sim; [exact Hsh|done|done|]. intros. apply sim_refl. }
  assert (epoch l3 = epoch l) as He3 by exact Be.
  destruct (inv_bump l3 ts' Hinv3) as [-> Hb4]; [lia|]. rewrite He3 in Hb4 |- *.
  eexists _, true, ts'. split; [done|]. split; [unfold later; cbn; lia|]. split; [done|].
  exists l1, k. split; [done|]. split; [done|]. split; [done|]. split; [done|].
  split; [unfold l3, l2; cbn [focused set_epoch set_zoomed_id set_focused]; by rewrite Bf|].
  intros w' T' s p Hw' HT' Hs Hp Hid. rewrite Hw in Hw'. injection Hw' as <-. cbn.
  change (active l2) with k in HT. eapply Hkeep; [|exact Hp|done]. congruence.
Qed.

Lemma numbers_inj ws i j w w' : numbers_ok ws → ws !! i = Some w → ws !! j = Some w' →
  number w = number w' → i = j.
Proof.
  intros [Hs _] Hi Hj Heq. assert (NoDup (number <$> ws)) as Hnd.
  { clear -Hs. induction (number <$> ws) as [|n ns IH]; [constructor|].
    apply StronglySorted_inv in Hs as [Hs Hf]. constructor; [|auto]. intros Hn.
    rewrite Forall_forall in Hf. specialize (Hf n Hn). lia. }
  eapply (NoDup_lookup (number <$> ws)); [done|by rewrite list_lookup_fmap, Hi|].
  rewrite list_lookup_fmap, Hj. cbn. by rewrite Heq.
Qed.

(** Away and back: the focus and the tree are those left. *)
Lemma switch_back l ts n m owner owner' l1 : inv l ts → (epoch l + 1 < u_max 64)%Z → (0 ≤ n)%Z →
  number <$> workspaces l !! active l = Some m → switch_workspace l n owner = Done (l1, true) →
  ∃ l2, switch_workspace l1 m owner' = Done (l2, true) ∧ focused l2 = focused l ∧ root l2 = root l.
Proof.
  intros Hinv Hroom Hn Hm Hsw.
  destruct (switch_ok l ts n owner Hinv) as (l1' & b & ts1 & Hsw' & _ & Hinv1 & Hpost); [lia|done|].
  rewrite Hsw in Hsw'. injection Hsw' as <- <-.
  destruct Hpost as (lE & k & HinvE & HbE & (Hnum & Htree & Hws & Hcase) & Hka & Hl1 & _).
  destruct (workspaces l !! active l) as [w|] eqn:Hw; [|done]. injection Hm as <-.
  pose proof (sh_nums _ _ (inv_shape _ _ HinvE)) as HnE.
  assert (0 ≤ number w)%Z as Hm0.
  { destruct HnE as [_ Hf]. eapply Forall_lookup_1 in Hf; [|exact Hws]. cbn in Hf. lia. }
  set (id := default 0%Z (id_of lE (focused l))) in *.
  assert (workspaces l1 = alter (ws_set_focused id) (active lE) (workspaces lE)) as Hw1 by by rewrite Hl1.
  assert (workspaces l1 !! active lE = Some (ws_set_focused id w)) as Hw1a
    by by rewrite Hw1, list_lookup_alter_eq, Hws.
  assert (active l1 = k) as Ha1 by by rewrite Hl1.
  pose proof (sh_nums _ _ (inv_shape _ _ Hinv1)) as Hn1.
  destruct (switch_ok l1 ts1 (number w) owner' Hinv1) as (l2 & b & ts2 & Hsw2 & _ & Hinv2 & Hpost); [|done|].
  { rewrite Hl1. cbn. unfold bearing in HbE. lia. }
  destruct b.
  2:{ exfalso. destruct Hpost as (_ & _ & [Hact|Hnone]).
      - unfold active_is in Hact. apply bool_decide_eq_true in Hact. rewrite Ha1 in Hact.
        destruct (workspaces l1 !! k) as [w'|] eqn:Hwk; [|done]. injection Hact as Hact.
        apply Hka. by eapply (numbers_inj (workspaces l1)).
      - by eapply (Hnone (ws_set_focused id w)); [eapply list_elem_of_lookup_2|]. }
  exists l2. split; [done|]. destruct Hpost as (lF & k2 & HinvF & HbF & HensF & _ & Hl2 & Hrest).
  destruct HensF as (Hnum2 & _ & _ & [[-> ->]|(r & _ & _ & _ & _ & _ & _ & Hno & _)]).
  2:{ exfalso. by eapply (Hno (ws_set_focused id w)); [eapply list_elem_of_lookup_2|]. }
  destruct (workspaces l1 !! k2) as [w2|] eqn:Hw2; [|done]. injection Hnum2 as Hnum2.
  assert (k2 = active lE) as -> by by eapply (numbers_inj (workspaces l1)).
  destruct (inv_focus _ _ Hinv) as (T & HT & Hf). rewrite HT in Htree.
  assert (∃ p, get lE (focused l) = Some p) as [p Hp].
  { destruct (leaf_kind (get lE) ts1 T (focused l)) as (p & _ & Hp & _);
      [apply shape_trees, HinvE|by eapply list_elem_of_lookup_2|done|eauto]. }
  split.
  - eapply (Hrest w2 T _ p); [done|done|done|by rewrite Hl1|].
    rewrite Hw1a in Hw2. injection Hw2 as <-. cbn. unfold id, id_of. by rewrite Hp.
  - destruct (shape_root l2 ts1 (shape_skel _ _ (inv_shape _ _ Hinv2))) as (T2 & HT2 & ->).
    destruct (shape_root l ts (shape_skel _ _ (inv_shape _ _ Hinv))) as (T0 & HT0 & ->).
    rewrite Hl2 in HT2. cbn in HT2. congruence.
Qed.

(** ** Reaping *)

(** A tree in use: a leaf hosts a surface, or a pane is claimed or reserved. *)
Definition in_use (l : Layout) (T : ptree) : bool :=
  existsb (λ s, bool_decide (is_Some (leaf_surface l s))) (leaves T) || existsb (reserved_slot l) (nodes T).

Lemma in_use_agree l l' T : (∀ s, s ∈ nodes T → get l' s = get l s) → in_use l' T = in_use l T.
Proof.
  intros Hg. unfold in_use, leaf_surface, reserved_slot. f_equal; apply eq_bool_prop_intro;
    rewrite !Is_true_true, !existsb_exists; split; intros (s & Hs & H); exists s; (split; [done|]);
    apply list_elem_of_In in Hs; try apply leaves_nodes in Hs; rewrite ?Hg in * by done; done.
Qed.

Lemma hosted_none l xs :
  omap (hosted_of l) xs = [] ↔ existsb (λ s, bool_decide (is_Some (leaf_surface l s))) xs = false.
Proof.
  induction xs as [|s xs IH]; [done|]. cbn. unfold hosted_of at 1. destruct (leaf_surface l s); cbn; [done|].
  by rewrite IH.
Qed.

Lemma in_use_spec l ts i T : trees (get l) ts → ts !! i = Some T →
  (hs ← subtree_hosted l (root_of T);
   match hs with [] => subtree_reserved l (root_of T) | _ => Done true end) = Done (in_use l T).
Proof.
  intros Htr Hi. destruct (plug_rep l ts i [] T Htr Hi) as (_ & Ht & _ & Hsz).
  unfold subtree_hosted, subtree_reserved, in_use.
  rewrite (collect_hosted_walk l T None (tree_fuel l) [] Ht) by (unfold tree_fuel; lia).
  cbn [mbind outcome_bind app]. destruct (omap (hosted_of l) (leaves T)) as [|h hs] eqn:Hh.
  - apply hosted_none in Hh. rewrite Hh. cbn [orb]. eapply reserved_walk; [done|]. unfold tree_fuel. lia.
  - assert (existsb (λ s, bool_decide (is_Some (leaf_surface l s))) (leaves T) = true) as ->; [|done].
    apply not_false_iff_true. intros H%hosted_none. congruence.
Qed.

Lemma heap_drop g g' ts i T : heap g ts → ts !! i = Some T → (∀ s, s ∈ nodes T → g' s = None) →
  (∀ s, s ∉ nodes T → g' s = g s) → heap g' (delete i ts).
Proof.
  intros Hh Hi Hgone Hg. rewrite (perm_delete ts i T Hi) in Hh. destruct Hh as [H1 H2 H3].
  apply Forall_cons in H1 as [_ H1]. rewrite bind_cons in H2, H3. apply NoDup_app in H2 as (_ & Hd & H2).
  split; [|done|].
  - eapply forall_rep_sim; [|exact H1]. intros s Hs. rewrite Hg; [apply sim_refl|]. intros Hn. by apply (Hd s).
  - intros s Hs. destruct (decide (s ∈ nodes T)) as [Hn|Hn].
    + rewrite Hgone in Hs by done. by destruct Hs.
    + rewrite Hg in Hs by done. specialize (H3 s Hs). set_solver.
Qed.

(** One workspace dropped. *)
Definition dropped_ws (l : Layout) (i : nat) : Layout :=
  let l := set_workspaces (delete i (workspaces l)) l in
  if i <? active l then set_active (active l - 1) l else l.

Lemma sorted_delete (ns : list Z) i : StronglySorted Z.lt ns → StronglySorted Z.lt (delete i ns).
Proof.
  revert i. induction ns as [|n ns IH]; intros [|i] Hs; [done..| |];
    apply StronglySorted_inv in Hs as [Hs Hf]; [done|].
  change (StronglySorted Z.lt (n :: delete i ns)). constructor; [by apply IH|].
  rewrite Forall_forall in *. intros x Hx. apply Hf.
  apply list_elem_of_lookup in Hx as (j & Hj). rewrite list_lookup_delete in Hj.
  case_decide; by eapply list_elem_of_lookup_2.
Qed.

Lemma drop_ws_ok l l1 ts i T : inv l ts → ts !! i = Some T → i ≠ active l → frees l l1 (nodes T) →
  inv (dropped_ws l1 i) (delete i ts) ∧ (delete i ts) !! active (dropped_ws l1 i) = ts !! active l ∧
  bearing (dropped_ws l1 i) = bearing l ∧
  active (dropped_ws l1 i) = (if i <? active l then active l - 1 else active l).
Proof.
  intros Hinv Hi Hne Hfr. pose proof (inv_shape _ _ Hinv) as Hsh.
  pose proof (panes_only_fields _ _ (proj1 Hfr)) as (Pw & Pa & Pf & Pi & Pe & Pz & Pm & Pp & Par).
  set (l2 := dropped_ws l1 i).
  assert (panes l2 = panes l1 ∧ workspaces l2 = delete i (workspaces l) ∧ id_seq l2 = id_seq l1 ∧
    bearing l2 = bearing l ∧ active l2 = (if i <? active l then active l - 1 else active l))
    as (Q1 & Q2 & Q3 & Q4 & Q5).
  { unfold l2, dropped_ws, bearing. change (active (set_workspaces _ l1)) with (active l1). rewrite Pa.
    destruct (i <? active l); cbn;
      rewrite ?Pw, ?Pf, ?Pe, ?Pz, ?Pm, ?Pp, ?Par, ?Pa; done. }
  assert (delete i ts !! active l2 = ts !! active l) as Hact.
  { rewrite Q5. destruct (Nat.ltb_spec i (active l)).
    - rewrite list_lookup_delete_ge by lia. f_equal. lia.
    - rewrite list_lookup_delete_lt by lia. done. }
  destruct (inv_focus _ _ Hinv) as (Ta & HTa & Hf).
  pose proof Q4 as Q4'. unfold bearing in Q4'. injection Q4' as Bf Be _ Bm _ Bar.
  split; [split|done].
  - split.
    + eapply heap_sim; [|eapply (heap_drop (get l) (get l1)); [apply Hsh|exact Hi| |]].
      * intros s. unfold get. rewrite Q1. apply sim_refl.
      * intros s. by apply (frees_gone _ _ _ _ Hfr).
      * intros s. by apply (frees_agree _ _ _ _ Hfr).
    + rewrite Q2, !list_fmap_delete, (sh_roots _ _ Hsh). done.
    + apply Forall_delete, Hsh.
    + rewrite Q2. destruct (sh_nums _ _ Hsh) as [N1 N2]. split; [|by apply Forall_delete].
      rewrite list_fmap_delete. by apply sorted_delete.
    + eapply lookup_lt_Some. by rewrite Hact.
  - eapply local_meta; [|exact Q1|exact Q3]. eapply local_frees; [apply Hinv|done].
  - exists Ta. rewrite Hact, Bf. done.
  - rewrite Be. apply Hinv.
  - unfold env_ok. rewrite Bm, Bar. apply Hinv.
Qed.

(** What reaping leaves: the active tree, every surface, and of the other trees
    exactly those in use. *)
Definition reaped (l l' : Layout) (ts ts' : list ptree) : Prop :=
  bearing l' = bearing l ∧ ts' !! active l' = ts !! active l ∧ ts' `sublist_of` ts ∧
  (∀ T, T ∈ others (active l) ts → in_use l T = true → T ∈ ts') ∧
  (∀ s, leaf_surface l' s = leaf_surface l s) ∧ (∀ s, s ∈ ts' ≫= nodes → get l' s = get l s).

Lemma reaped_refl l ts : reaped l l ts ts.
Proof.
  split; [done|]. split; [done|]. split; [done|]. split; [|done].
  intros T (i & _ & Hi)%others_in _. by eapply list_elem_of_lookup_2.
Qed.

Lemma dropped_get l l1 i T s : frees l l1 (nodes T) →
  get (dropped_ws l1 i) s = if decide (s ∈ nodes T) then None else get l s.
Proof.
  intros [_ Hg]. rewrite <-Hg. unfold dropped_ws. by destruct (i <? _).
Qed.

Lemma reaped_drop l l1 ts i T l' ts' : inv l ts → ts !! i = Some T → i ≠ active l → in_use l T = false →
  frees l l1 (nodes T) → reaped (dropped_ws l1 i) l' (delete i ts) ts' → reaped l l' ts ts'.
Proof.
  intros Hinv Hi Hne Huse Hfr (R1 & R2 & R3 & R4 & R5 & R6).
  pose proof (shape_trees _ _ (inv_shape _ _ Hinv)) as Htr.
  destruct (drop_ws_ok l l1 ts i T Hinv Hi Hne Hfr) as (Hinv2 & Hact & Hb & Ha).
  assert (∀ j U s, j ≠ i → ts !! j = Some U → s ∈ nodes U → s ∉ nodes T) as Hdis.
  { intros j U s Hj HU Hs HsT. apply Hj. by eapply (trees_disjoint (get l)). }
  split; [congruence|]. split; [congruence|]. split; [etrans; [exact R3|apply sublist_delete]|].
  split; [|split].
  - intros U (j & Hj & HU)%others_in HuU. destruct (decide (j = i)) as [->|Hji]; [congruence|].
    apply R4.
    + apply others_in. rewrite Ha. exists (if i <? j then j - 1 else j).
      destruct (Nat.ltb_spec i (active l)), (Nat.ltb_spec i j).
      * split; [lia|]. rewrite list_lookup_delete_ge by lia. by replace (S (j - 1)) with j by lia.
      * split; [lia|]. by rewrite list_lookup_delete_lt by lia.
      * split; [lia|]. rewrite list_lookup_delete_ge by lia. by replace (S (j - 1)) with j by lia.
      * split; [lia|]. by rewrite list_lookup_delete_lt by lia.
    + rewrite (in_use_agree l); [done|]. intros s Hs. rewrite (dropped_get l l1 i T s Hfr), decide_False; [done|].
      by eapply Hdis.
  - intros s. rewrite R5. unfold leaf_surface. rewrite (dropped_get l l1 i T s Hfr). case_decide as Hs; [|done].
    symmetry. apply orb_false_iff in Huse as [Huse _].
    destruct (get l s) as [p|] eqn:Hp; [|done]. cbn. destruct (kind p) as [[n|]|] eqn:Hk; try done. exfalso.
    assert (existsb (λ s, bool_decide (is_Some (leaf_surface l s))) (leaves T) = true); [|congruence].
    apply existsb_exists. exists s. split.
    + apply list_elem_of_In. destruct (find_ctx T s Hs) as (C & t & -> & Hr).
      destruct (plug_rep l ts i C t Htr Hi) as (_ & Ht & _ & _).
      apply leaves_in_plug. inversion Ht; subst; cbn in *; [by left|congruence].
    + apply bool_decide_eq_true. unfold leaf_surface. rewrite Hp. cbn. rewrite Hk. eauto.
  - intros s Hs. rewrite R6, (dropped_get l l1 i T s Hfr), decide_False; [done| |done].
    apply list_elem_of_bind in Hs as (U & Hs & HU). apply (elem_of_sublist _ _ _ HU) in R3 as HU'.
    apply list_elem_of_lookup in HU' as (j & Hj). rewrite list_lookup_delete in Hj. case_decide.
    + by eapply (Hdis j U); [lia|..].
    + by eapply (Hdis (S j) U); [lia|..].
Qed.

Lemma reap_loop i l ts dropped : inv l ts → i ≤ length ts →
  (∀ j T, i ≤ j → j ≠ active l → ts !! j = Some T → in_use l T = true) →
  ∃ l' d ts', reap_f i l dropped = Done (l', dropped + d) ∧ inv l' ts' ∧ reaped l l' ts ts' ∧
    length ts = length ts' + d ∧ ∀ T, T ∈ others (active l') ts' → in_use l' T = true.
Proof.
  revert l ts dropped. induction i as [|i IH]; intros l ts dropped Hinv Hlen Hdone; cbn [reap_f].
  - exists l, 0, ts. split; [by rewrite Nat.add_0_r|]. split; [done|]. split; [apply reaped_refl|].
    split; [lia|]. intros T (j & Hj & HT)%others_in. eapply Hdone; [|done|done]. lia.
  - pose proof (inv_shape _ _ Hinv) as Hsh.
    assert (∀ d, (∀ T, ts !! i = Some T → i ≠ active l → in_use l T = true) →
      ∃ l' d' ts', reap_f i l d = Done (l', d + d') ∧ inv l' ts' ∧ reaped l l' ts ts' ∧
      length ts = length ts' + d' ∧ ∀ T, T ∈ others (active l') ts' → in_use l' T = true) as Hskip.
    { intros d Hi. apply IH; [done|lia|]. intros j T Hj Hne HT. destruct (decide (j = i)) as [->|]; [by apply Hi|].
      eapply Hdone; [|done|done]. lia. }
    destruct (Nat.eqb_spec i (active l)) as [|Hne]; [by apply Hskip|].
    destruct (lookup_lt_is_Some_2 ts i) as [T HT]; [lia|].
    destruct (ws_lookup l ts i T (shape_skel _ _ Hsh) HT) as (w & -> & Hr). cbn [unwrap mbind outcome_bind].
    rewrite Hr. pose proof (in_use_spec l ts i T (shape_trees _ _ Hsh) HT) as Huse.
    destruct (subtree_hosted l (root_of T)) as [hs| |]; [|done..]. cbn [mbind outcome_bind] in Huse |- *.
    rewrite Huse. obind. destruct (in_use l T) eqn:HuT; [apply Hskip; congruence|].
    destruct (free_subtree_ok l ts i [] T (shape_trees _ _ Hsh) HT) as (l1 & -> & Hfr). obind.
    destruct (drop_ws_ok l l1 ts i T Hinv HT Hne Hfr) as (Hinv2 & Hact & Hb & Ha).
    fold (dropped_ws l1 i).
    assert (length ts = S (length (delete i ts))) as Hdl by (by rewrite (perm_delete ts i T HT) at 1).
    destruct (IH (dropped_ws l1 i) (delete i ts) (dropped + 1) Hinv2) as (l' & d & ts' & -> & Hi' & Hre & Hl' & Hu).
    + lia.
    + intros j U Hj Hja HU. rewrite list_lookup_delete_ge in HU by lia.
      rewrite (in_use_agree l); [apply (Hdone (S j) U); [lia| |done]|].
      * rewrite Ha in Hja. destruct (Nat.ltb_spec i (active l)); lia.
      * intros s Hs. rewrite (dropped_get l l1 i T s Hfr), decide_False; [done|]. intros HsT.
        assert (S j = i); [|lia]. eapply (trees_disjoint (get l) ts _ _ U T s); [by apply shape_trees|done..].
    + exists l', (S d), ts'. split; [f_equal; f_equal; lia|]. split; [done|]. split; [by eapply reaped_drop|].
      split; [lia|done].
Qed.

Lemma reap_ok l ts : inv l ts → (epoch l < u_max 64)%Z →
  ∃ l' d ts', reap_empty_workspaces l = Done (l', d) ∧ later 1 l l' ∧ inv l' ts' ∧
    ts' !! active l' = ts !! active l ∧ ts' `sublist_of` ts ∧ length ts = length ts' + d ∧
    (∀ T, T ∈ others (active l) ts → in_use l T = true → T ∈ ts') ∧
    (∀ T, T ∈ others (active l') ts' → in_use l' T = true) ∧
    (∀ s, leaf_surface l' s = leaf_surface l s) ∧ focused l' = focused l.
Proof.
  intros Hinv Hroom. unfold reap_empty_workspaces.
  destruct (reap_loop (length (workspaces l)) l ts 0 Hinv) as (l1 & d & ts' & -> & Hinv1 & Hre & Hlen & Hu).
  { by rewrite (ws_length l ts (shape_skel _ _ (inv_shape _ _ Hinv))). }
  { intros j T Hj _ HT%lookup_lt_Some. rewrite (ws_length l ts (shape_skel _ _ (inv_shape _ _ Hinv))) in Hj. lia. }
  obind. destruct Hre as (R1 & R2 & R3 & R4 & R5 & R6).
  unfold bearing in R1. injection R1 as Bf Be _ _ _ _.
  cbn [Nat.add]. destruct (0 <? d).
  - destruct (inv_bump l1 ts' Hinv1) as [-> Hb]; [lia|]. obind.
    eexists _, d, ts'. split; [done|]. split; [unfold later; cbn; lia|]. done.
  - exists l1, d, ts'. split; [done|]. split; [unfold later; lia|]. done.
Qed.

End PaneWork.
