(* ===== verification/PaneMove.v ===== *)
(** * Moving a pane keeps the invariant and permutes the leaves

    A directional move swaps the pane with a sibling, pulls it out of a nested
    container beside it, or wraps the whole tree; in each case the active tree
    has the same leaves after it, each with its id and its surface. *)

From stdpp Require Import strings sorting.
From S2P Require Import Prelude Geometry GeometryProofs Carve PaneData PaneTree PaneRep PaneWalks.
From S2P Require Import PaneInv PaneSplit PaneHost PaneFocus PaneClose PaneStamp PaneWork.
Import Geometry GeometryProofs PaneData PaneTree PaneRep PaneWalks PaneInv PaneSplit PaneHost PaneFocus
  PaneClose PaneStamp PaneWork.
Open Scope nat_scope.

Module PaneMove.

(** Run the goal along a chain of binds that [H] says is done. *)
Ltac follow H :=
  repeat match type of H with
  | mbind _ ?A = Done _ => destruct A as [?| |]; [|done..]; cbn [mbind outcome_bind] in H |- *
  end; rewrite H; obind.

(** ** Detaching *)

(** A leaf out of its place: live, and in no tree. *)
Lemma detach_leaf_ok xs l ts i C par ls s rs : loose xs l ts →
  ts !! i = Some (plug C (TNode par (ls ++ TLeaf s :: rs))) → ls ++ rs ≠ [] → focused l ≠ par →
  ∃ l', detach_leaf l s = Done l' ∧
    loose (s :: xs) l' (<[i := plug C (dissolved par (ls ++ rs))]> ts) ∧
    rest l' = rest l ∧ (number <$> workspaces l' = number <$> workspaces l) ∧
    (∀ s, face l' s = face l s) ∧ (∀ x, x ∈ xs → get l' x = get l x) ∧
    get l' s = set_parent None <$> get l s.
Proof.
  intros Hl Hi Hne Hfp. pose proof (loose_skel _ _ _ Hl) as Hsk. unfold detach_leaf.
  assert (ts !! i = Some (plug (mkFrame par ls rs :: C) (TLeaf s))) as Hi' by done.
  destruct (plug_rep l ts i _ _ (sk_trees _ _ Hsk) Hi') as (Hc & Ht & Hnd & _).
  inversion Ht as [? ? p sf Hp Hpar Hk|]; subst. cbn [root_of] in *. rewrite Hp. cbn [mbind option_bind].
  rewrite Hpar. cbn [ctx_parent head fmap option_fmap option_map fr_slot].
  destruct (crep_head _ _ _ _ Hc) as (q & m & a & Hq & Hqpar & Hkq & Haq). cbn [fr_slot fr_left fr_right] in *.
  assert (s ∉ roots ls ∧ s ≠ par) as [Hsl Hsp].
  { destruct (plug_rep l ts i C _ (sk_trees _ _ Hsk) Hi) as (_ & _ & Hnd' & _). split.
    - by apply (kid_fresh par ls (TLeaf s) rs (ctx_nodes C)).
    - intros ->. apply NoDup_app in Hnd' as [Hnd' _]. apply kids_nodup in Hnd' as [_ Hnd'].
      apply Hnd'. rewrite fmap_app, fmap_cons. set_solver. }
  destruct (detach_child_ok (roots ls) s (roots rs) a Hsl) as (a' & Hdc & Ha').
  { rewrite length_app, length_fmap. cbn. rewrite length_fmap. lia. }
  { rewrite <-fmap_app. by destruct (ls ++ rs). }
  rewrite <-fmap_app in Hdc, Ha'. rewrite length_fmap in Ha'.
  erewrite with_kids_ok; [|exact Hq|exact Hkq|by rewrite Hdc]. obind.
  set (l1 := upd l par _).
  assert (get l1 s = Some p) as G1s by (unfold l1; by rewrite get_upd_ne by done).
  erewrite upd_unwrap_ok by exact G1s. obind. set (l2 := upd l1 s _).
  assert (get l2 s = Some (set_parent None p)) as G2s by by apply get_upd_eq.
  assert (get l2 par = Some (set_kind (Container m (roots (ls ++ rs)) a') q)) as G2p.
  { unfold l2. rewrite get_upd_ne by done. by apply get_upd_eq. }
  assert (∀ x, x ≠ s → x ≠ par → get l2 x = get l x) as G2.
  { intros x H1 H2. unfold l2, l1. by rewrite !get_upd_ne. }
  assert (∀ x, x ∈ par :: s :: nil → x ∉ xs) as Hxs.
  { intros x Hx. apply (loose_out xs l ts i _ (TLeaf s) x Hl Hi'). cbn. set_solver. }
  assert (meta l2 = meta l ∧ id_seq l2 = id_seq l) as [Hm Hid]
    by (unfold l2, l1; by rewrite !meta_upd, !id_seq_upd).
  pose proof Hm as Hm'. unfold meta in Hm'. injection Hm' as Mw Ma Mf Me Mz Mm Mp Mar.
  set (ts2 := <[i := plug C (TNode par (ls ++ rs))]> ts).
  assert (loose (s :: xs) l2 ts2) as Hl2.
  { assert (loose xs l ts) as [K1 K2 K3 K4 K5 K6 K7] by done. split.
    - eapply (heap_remove (masked xs (get l)) _ ts i C par ls (TLeaf s) rs q m a'); try done.
      + rewrite hide_out; [done|]. apply Hxs. set_solver.
      + intros x ->%list_elem_of_singleton. apply hide_in. by left.
      + rewrite hide_out; [done|]. assert (par ∉ xs) by (apply Hxs; set_solver). set_solver.
      + intros x H1 H2. assert (x ≠ s) by (intros ->; apply H1; by left). unfold masked. repeat case_decide; try done; try set_solver.
    - rewrite Mw, K2. symmetry. eapply roots_insert; [exact Hi|by apply root_plug_ext].
    - by rewrite Mw.
    - rewrite Ma. unfold ts2. by rewrite length_insert.
    - by apply local_upd_keep; [apply local_upd_keep|].
    - by rewrite Me.
    - unfold env_ok. by rewrite Mm, Mar. }
  assert (ts2 !! i = Some (plug C (TNode par (ls ++ rs)))) as Hi2
    by (apply list_lookup_insert_eq; by eapply lookup_lt_Some).
  destruct (dissolve_ok (s :: xs) l2 ts2 i C par (ls ++ rs) Hl2 Hi2 Hne) as (l3 & -> & Hl3 & Hr & Hn & Hfa & Hg3);
    [by rewrite Mf|].
  exists l3. split; [done|]. unfold ts2 in Hl3. rewrite list_insert_insert_eq in Hl3. split; [done|].
  split; [rewrite Hr; unfold rest; congruence|]. split; [by rewrite Hn, Mw|]. split; [|split].
  - intros x. rewrite Hfa. unfold l2. rewrite face_upd by done. destruct (decide (x = par)) as [->|Hx].
    + rewrite (face_container l _ _ _ _ _ Hq Hkq). eapply face_container; [by apply get_upd_eq|done].
    + apply face_get. unfold l1. by apply get_upd_ne.
  - intros x Hx. rewrite Hg3 by (by right). apply G2; intros ->; eapply Hxs; try exact Hx; set_solver.
  - rewrite Hg3 by (by left). by rewrite G2s.
Qed.

(** ** The end of a move *)

(** The node of a tree at a leaf's slot is the leaf. *)
Lemma at_leaf l ts i C t s p sf : trees (get l) ts → ts !! i = Some (plug C t) → root_of t = s →
  get l s = Some p → kind p = Leaf sf → t = TLeaf s.
Proof.
  intros Htr Hi Hr Hp Hk. destruct (plug_rep l ts i C t Htr Hi) as (_ & Ht & _ & _).
  inversion Ht; subst; cbn in *; congruence.
Qed.

Lemma same_faces l l' ts : inv l ts → inv l' ts → (∀ s, is_leaf l s = true → get l' s = get l s) →
  ∀ s, face l' s = face l s.
Proof.
  intros Hinv Hinv' Hg s. destruct (is_leaf l s) eqn:Hlf; [by apply face_get, Hg|].
  assert (face l s = None) as ->.
  { unfold face. unfold is_leaf in Hlf. destruct (get l s) as [p|]; [|done]. cbn in Hlf. by destruct (kind p). }
  unfold face. destruct (get l' s) as [p|] eqn:Hp; [|done]. destruct (kind p) as [sf|] eqn:Hk; [|done].
  destruct (heap_find l' ts s p (sh_heap _ _ (inv_shape _ _ Hinv')) Hp) as (i & C & t & Hi & Hr).
  assert (t = TLeaf s) as -> by (eapply at_leaf; [apply shape_trees, Hinv'|done..]).
  destruct (plug_rep l ts i C _ (shape_trees _ _ (inv_shape _ _ Hinv)) Hi) as (_ & Ht & _ & _).
  inversion Ht as [? ? q sf' Hq _ Hkq|]; subst. unfold is_leaf in Hlf. rewrite Hq in Hlf. cbn in Hlf.
  by rewrite Hkq in Hlf.
Qed.

(** What a move leaves: the pane focused and shown, the leaves of the active tree
    the same, each with its id and surface. *)
Definition moved (l l' : Layout) (ts ts' : list ptree) (s : nat) : Prop :=
  active l' = active l ∧ focused l' = s ∧ focus_done l' ts' ∧ (∀ x, face l' x = face l x) ∧
  ∃ T T', ts !! active l = Some T ∧ ts' = <[active l := T']> ts ∧ leaves T' ≡ₚ leaves T.

Definition settle (l : Layout) (s : nat) : outcome (Layout * bool) :=
  l ← bump l; '(l, _) ← focus l s; Done (l, true).

Lemma settle_ok l ts C s : inv l ts → (epoch l + 41 ≤ u_max 64)%Z →
  ts !! active l = Some (plug C (TLeaf s)) →
  ∃ l', settle l s = Done (l', true) ∧ later 34 l l' ∧ inv l' ts ∧ active l' = active l ∧
    focused l' = s ∧ focus_done l' ts ∧ ∀ x, face l' x = face l x.
Proof.
  intros Hinv Hroom HT. unfold settle. destruct (inv_bump l ts Hinv) as [-> Hb]; [lia|]. obind.
  set (l1 := set_epoch _ l) in *.
  destruct (focus_ok l1 ts s Hb) as (l' & b & -> & Hlat & Hinv' & Hw & Ha & _ & _ & Hg & Hf & Ht); [cbn; lia|].
  obind. exists l'. split; [done|]. split; [unfold later in *; cbn in Hlat; lia|].
  split; [done|]. split; [done|]. destruct b.
  2:{ destruct (Hf eq_refl) as [_ Hn]. pose proof (in_active_spec l1 ts _ C (TLeaf s)
        (shape_skel _ _ (inv_shape _ _ Hb)) HT) as Hy. cbn [root_of] in Hy.
      rewrite Hn, bool_decide_eq_true_2 in Hy by done. done. }
  destruct (Ht eq_refl) as (Hd & C' & t & HC' & Hr & Hin).
  destruct (plug_rep l ts _ C _ (shape_trees _ _ (inv_shape _ _ Hinv)) HT) as (_ & Hs & _ & _).
  inversion Hs as [? ? p sf Hp _ Hk|]; subst.
  assert (t = TLeaf (root_of t)) as Htl by (eapply (at_leaf l); [apply shape_trees, Hinv|exact HC'|done|exact Hp|done]).
  split; [rewrite Htl in Hin; by apply list_elem_of_singleton in Hin|]. split; [done|].
  intros x. rewrite (same_faces l1 l' ts) by done. by apply face_get.
Qed.

(** The end of a move from [l] whose panes are in place in [l4]. *)
Lemma move_end l l4 ts T T' s : inv l4 (<[active l := T']> ts) → headroom l → ts !! active l = Some T →
  leaves T' ≡ₚ leaves T → s ∈ leaves T → active l4 = active l → epoch l4 = epoch l →
  (∀ x, face l4 x = face l x) →
  ∃ l', settle l4 s = Done (l', true) ∧ later 34 l l' ∧ inv l' (<[active l := T']> ts) ∧
    moved l l' ts (<[active l := T']> ts) s.
Proof.
  intros Hinv4 Hroom HT Hlv Hs Ha He Hfa. rewrite <-Hlv in Hs. destruct (find_leaf T' s Hs) as [C' HC'].
  destruct (settle_ok l4 _ C' s Hinv4) as (l' & Hset & Hlat & Hinv' & Hac & Hfo & Hd & Hfa').
  { unfold headroom in Hroom. lia. }
  { rewrite Ha, list_lookup_insert_eq by (by eapply lookup_lt_Some). congruence. }
  exists l'. split; [exact Hset|]. split; [unfold later in *; lia|]. split; [done|].
  split; [congruence|]. split; [done|]. split; [done|]. split; [intros x; by rewrite Hfa', Hfa|]. eauto.
Qed.

Lemma focus_perm l l' ts T T' : focus_in l ts → ts !! active l = Some T → active l' = active l →
  focused l' = focused l → leaves T' ≡ₚ leaves T → focus_in l' (<[active l := T']> ts).
Proof.
  intros (T0 & HT0 & Hf) HT Ha Hfo Hlv. exists T'. rewrite Ha, Hfo.
  rewrite list_lookup_insert_eq by (by eapply lookup_lt_Some). split; [done|]. rewrite Hlv. congruence.
Qed.

(** ** The swap *)

Lemma vec_swap_roots (ts : list ptree) i j : i < length ts → j < length ts →
  ∃ ts', vec_swap (roots ts) i j = Done (roots ts') ∧ ts' ≡ₚ ts.
Proof.
  intros Hi Hj. destruct (lookup_lt_is_Some_2 ts i Hi) as [a Ha], (lookup_lt_is_Some_2 ts j Hj) as [b Hb].
  unfold vec_swap. rewrite !list_lookup_fmap, Ha, Hb. cbn [fmap option_fmap option_map unwrap mbind outcome_bind].
  exists (<[j := a]> (<[i := b]> ts)). split; [by rewrite !list_fmap_insert|].
  by apply Permutation_insert_swap.
Qed.

(** A container's children in another order. *)
Lemma heap_reorder g g' ts i C s cs cs' p m a : heap g ts → ts !! i = Some (plug C (TNode s cs)) →
  cs' ≡ₚ cs → g s = Some p → g' s = Some (set_kind (Container m (roots cs') a) p) → a < length cs →
  (∀ x, x ≠ s → g' x = g x) → heap g' (<[i := plug C (TNode s cs')]> ts).
Proof.
  intros Hh Hi Hperm Hp Hp' Ha Hg.
  assert (plug C (TNode s cs) ∈ ts) as Hin by by eapply list_elem_of_lookup_2.
  destruct (heap_inv_tree g ts C _ Hh Hin) as (Hc & Ht & Hnd).
  inversion Ht as [|? ? p' m' a' ? Hp0 Hpar _ _ Hcs]; subst. assert (p' = p) as -> by congruence.
  cbn in Hnd. apply NoDup_cons in Hnd as [Hni _].
  apply (surgery_at g g' ts i C _ (TNode s cs') [] [] Hh Hi).
  - cbn. by rewrite !app_nil_r, Hperm.
  - constructor.
  - by intros x ?%elem_of_nil.
  - by intros x ?%elem_of_nil.
  - intros x H1 _ _. rewrite Hg; [apply sim_refl|]. intros ->. apply H1. cbn. by left.
  - apply hole_same; [exact Hc|]. intros x Hx%ctx_parent_in. rewrite Hg; [apply sim_refl|set_solver].
  - intros _. econstructor; [exact Hp'|done|reflexivity|by rewrite Hperm|]. rewrite Hperm.
    eapply forall_rep_sim; [|exact Hcs]. intros x Hx. rewrite Hg; [apply sim_refl|set_solver].
Qed.

Lemma leaves_reorder C s cs cs' : cs' ≡ₚ cs → leaves (plug C (TNode s cs')) ≡ₚ leaves (plug C (TNode s cs)).
Proof.
  intros H. destruct (leaves_plug C (TNode s cs)) as (r & -> & Hr). rewrite Hr. cbn. by rewrite H.
Qed.

Lemma move_swap_ok l ts f C s j : inv l ts → headroom l →
  ts !! active l = Some (plug (f :: C) (TLeaf s)) → j < length (fr_left f) + S (length (fr_right f)) →
  ∃ l' ts', move_swap l s (fr_slot f) (length (fr_left f)) j = Done (l', true) ∧ later 34 l l' ∧
    inv l' ts' ∧ moved l l' ts ts' s.
Proof.
  intros Hinv Hroom HT Hj. destruct f as [par ls rs]. cbn [fr_slot fr_left fr_right] in *.
  assert (ts !! active l = Some (plug C (TNode par (ls ++ TLeaf s :: rs)))) as HT' by done.
  pose proof (inv_shape _ _ Hinv) as Hsh.
  destruct (plug_rep l ts _ C _ (shape_trees _ _ Hsh) HT') as (_ & Ht & _ & _).
  inversion Ht as [|? ? p m a ? Hp Hpar Hk Ha Hcs]; subst. unfold move_swap.
  destruct (vec_swap_roots (ls ++ TLeaf s :: rs) (length ls) j) as (cs' & Hsw & Hperm);
    [rewrite length_app; cbn; lia..|].
  erewrite with_kids_ok; [|exact Hp|exact Hk|rewrite Hsw; reflexivity]. obind.
  set (l1 := upd l par _). set (T' := plug C (TNode par cs')).
  assert (meta l1 = meta l) as Hm by apply meta_upd. unfold meta in Hm. injection Hm as Mw Ma Mf Me Mz Mm Mp Mar.
  assert (∀ x, face l1 x = face l x) as Hfa.
  { intros x. destruct (decide (x = par)) as [->|]; [|apply face_get; unfold l1; by rewrite get_upd_ne].
    rewrite (face_container l par _ _ _ _ Hp Hk). eapply face_container; [by apply get_upd_eq|done]. }
  assert (leaves T' ≡ₚ leaves (plug C (TNode par (ls ++ TLeaf s :: rs)))) as Hlv by by apply leaves_reorder.
  assert (inv l1 (<[active l := T']> ts)) as Hinv1.
  { eapply (inv_settle l l1); [done|exact HT'|by apply root_plug_ext| | | |done| | | |].
    - pose proof (Forall_lookup_1 _ _ _ _ (sh_wide _ _ Hsh) HT') as Hw. unfold T'.
      rewrite wide_plug, wide_node in *. by rewrite Hperm.
    - eapply (heap_reorder (get l)); [apply Hsh|exact HT'|done|exact Hp|by apply get_upd_eq|done|].
      intros x Hx. by apply get_upd_ne.
    - apply local_upd_keep; [apply Hinv|done].
    - rewrite Me. apply Hinv.
    - unfold env_ok. rewrite Mm, Mar. apply Hinv.
    - unfold wpart. by rewrite Mw.
    - eapply focus_perm; [apply Hinv|done..]. }
  destruct (move_end l l1 ts (plug C (TNode par (ls ++ TLeaf s :: rs))) T' s) as (l' & Hset & Hrest); try done.
  - change (s ∈ leaves (plug (mkFrame par ls rs :: C) (TLeaf s))). apply leaves_in_plug. by left.
  - exists l', (<[active l := T']> ts). by split.
Qed.

(** ** Out of a nested container *)

Lemma leaves_detach C par ls s rs :
  leaves (plug C (TNode par (ls ++ TLeaf s :: rs))) ≡ₚ s :: leaves (plug C (dissolved par (ls ++ rs))).
Proof.
  rewrite leaves_dissolved. destruct (leaves_plug C (TNode par (ls ++ rs))) as (r & -> & ->). cbn.
  rewrite !bind_app, bind_cons. cbn. solve_Permutation.
Qed.
Lemma leaves_attach C anc k s cs :
  leaves (plug C (TNode anc (insert_at k (TLeaf s) cs))) ≡ₚ s :: leaves (plug C (TNode anc cs)).
Proof.
  destruct (leaves_plug C (TNode anc cs)) as (r & -> & ->). cbn. by rewrite insert_at_perm, bind_cons.
Qed.
Lemma wide_attach C anc k s cs : wide (plug C (TNode anc cs)) → wide (plug C (TNode anc (insert_at k (TLeaf s) cs))).
Proof.
  rewrite !wide_plug, !wide_node, insert_at_length, insert_at_perm, Forall_cons. cbn. intuition lia.
Qed.

(** A detached leaf joins the children of a container. *)
Lemma attach_ok l ts i C s anc cs k : loose [s] l ts → ts !! i = Some (plug C (TNode anc cs)) → cs ≠ [] →
  k ≤ length cs → is_leaf l s = true →
  ∃ l' w, sibling_mean l anc = Done w ∧
    (l1 ← with_kids l anc (λ _ cs a, cs ← vec_insert cs k s; Done (cs, a));
     l2 ← upd_unwrap l1 s (set_parent (Some anc)); upd_unwrap l2 s (set_weight w)) = Done l' ∧
    loose [] l' (<[i := plug C (TNode anc (insert_at k (TLeaf s) cs))]> ts) ∧ meta l' = meta l ∧
    ∀ x, face l' x = face l x.
Proof.
  intros Hl Hi Hne Hk (q & sf & Hq & Hkq)%is_leaf_live. pose proof (loose_skel _ _ _ Hl) as Hsk.
  destruct (plug_rep l ts i C _ (sk_trees _ _ Hsk) Hi) as (_ & Ht & _ & _).
  inversion Ht as [|? ? p m a ? Hp Hpar Hkp Ha Hcs]; subst.
  destruct (sibling_mean_spec l ts i C anc p m a cs (sk_trees _ _ Hsk) Hi Hp Hkp Hne) as (w & Hw & Hwr).
  assert (s ≠ anc) as Hsa by (intros ->; congruence).
  erewrite with_kids_ok; [|exact Hp|exact Hkp|rewrite vec_insert_at by (by rewrite length_fmap); reflexivity].
  obind. set (l1 := upd l anc _).
  assert (get l1 s = Some q) as G1 by (unfold l1; by rewrite get_upd_ne by done).
  erewrite upd_unwrap_ok by exact G1. obind.
  set (l2 := upd l1 s _). assert (get l2 s = Some (set_parent (Some anc) q)) as G2 by by apply get_upd_eq.
  set (l3 := upd l2 s (set_weight w)).
  assert (get l3 s = Some (set_weight w (set_parent (Some anc) q))) as G3 by by apply get_upd_eq.
  assert (∀ x, x ≠ s → x ≠ anc → get l3 x = get l x) as G.
  { intros x H1 H2. unfold l3, l2, l1. by rewrite !get_upd_ne. }
  assert (get l3 anc = Some (set_kind (Container m (roots (insert_at k (TLeaf s) cs)) a) p)) as G3a.
  { unfold l3, l2. rewrite !get_upd_ne by done. rewrite insert_at_fmap. by apply get_upd_eq. }
  assert (meta l3 = meta l) as Hm by (unfold l3, l2, l1; by rewrite !meta_upd).
  pose proof Hm as Hm'. unfold meta in Hm'. injection Hm' as Mw Ma Mf Me Mz Mm Mp Mar.
  exists l3, w. split; [done|]. split; [by eapply upd_unwrap_ok|]. split; [|split; [done|]].
  - eapply (loose_insert [s]); [exact Hl|exact Hi|by apply root_plug_ext|done|done| | | |].
    + rewrite Me. apply Hl.
    + unfold env_ok. rewrite Mm, Mar. apply Hl.
    + apply local_upd_weight; [|done]. apply local_upd_keep; [apply local_upd_keep; [apply Hl|done]|done].
    + apply heap_hide_nil. unfold insert_at.
      eapply (heap_join (masked [s] (get l)) (get l3) ts i C anc (take k cs) (drop k cs) s p m a
        (set_weight w (set_parent (Some anc) q)) sf); try done.
      * apply Hl.
      * by rewrite take_drop.
      * apply hide_in. by left.
      * rewrite hide_out; [done|set_solver].
      * change (a < length (insert_at k (TLeaf s) cs)). rewrite insert_at_length. lia.
      * intros x H1 H2. rewrite hide_out by set_solver. by apply G.
  - intros x. unfold l3, l2. rewrite !face_upd by done. destruct (decide (x = anc)) as [->|].
    + rewrite (face_container l anc _ _ _ _ Hp Hkp). eapply face_container; [by apply get_upd_eq|done].
    + apply face_get. unfold l1. by rewrite get_upd_ne.
Qed.

Lemma frame_wide (ts : list ptree) i par ls t rs C : Forall wide ts → ts !! i = Some (plug C (TNode par (ls ++ t :: rs))) →
  ls ++ rs ≠ [] ∧ wide (plug C (dissolved par (ls ++ rs))).
Proof.
  intros Hall Hi. pose proof (Forall_lookup_1 _ _ _ _ Hall Hi) as Hw.
  rewrite wide_plug, wide_node, Forall_app, Forall_cons, length_app in Hw. cbn in Hw.
  destruct Hw as ((Hlen & Hwl & _ & Hwr) & HC).
  assert (ls ++ rs ≠ []) as Hne by (destruct ls, rs; [cbn in Hlen; lia|done..]).
  split; [done|]. apply wide_dissolved; [done| |done]. by apply Forall_app.
Qed.

Lemma with_kids_ext l s f g : (∀ m a, f m (kids_of l s) a = g m (kids_of l s) a) →
  with_kids l s f = with_kids l s g.
Proof.
  unfold with_kids, kids_of. destruct (kind <$> get l s) as [[|m cs a]|]; intros H; [done| |done]. by rewrite H.
Qed.

(** The leaf at a hole, detached. *)
Lemma detach_active_ok l ts f C s : inv l ts → ts !! active l = Some (plug (f :: C) (TLeaf s)) →
  let t := plug C (dissolved (fr_slot f) (fr_left f ++ fr_right f)) in
  wide t ∧ leaves (plug (f :: C) (TLeaf s)) ≡ₚ s :: leaves t ∧
  ∀ xs l0, loose xs l0 ts → focused l0 = focused l → get l0 s = get l s →
  ∃ l', detach_leaf l0 s = Done l' ∧ loose (s :: xs) l' (<[active l := t]> ts) ∧ rest l' = rest l0 ∧
    (number <$> workspaces l' = number <$> workspaces l0) ∧ (∀ x, face l' x = face l0 x) ∧
    (∀ x, x ∈ xs → get l' x = get l0 x) ∧ get l' s = set_parent None <$> get l s ∧ is_leaf l' s = true.
Proof.
  intros Hinv HT. destruct f as [par ls rs]. cbn [fr_slot fr_left fr_right]. cbn zeta.
  assert (ts !! active l = Some (plug C (TNode par (ls ++ TLeaf s :: rs)))) as HT' by done.
  destruct (frame_wide ts _ par ls (TLeaf s) rs C (sh_wide _ _ (inv_shape _ _ Hinv)) HT') as [Hne Hw].
  split; [done|]. split; [apply leaves_detach|]. intros xs l0 Hl0 Hf0 Hs0.
  destruct (inv_focus _ _ Hinv) as (T0 & HT0 & Hf).
  destruct (detach_leaf_ok xs l0 ts (active l) C par ls s rs Hl0 HT' Hne) as (l' & -> & Hl' & Hr & Hn & Hfa & Hx & Hs).
  { rewrite Hf0. eapply (leaf_ne (get l) ts _ _ C); [apply shape_trees, Hinv|exact HT'|exact HT0|done]. }
  exists l'. rewrite Hs0 in Hs. split; [done|]. split; [done|]. split; [done|]. split; [done|]. split; [done|].
  split; [done|]. split; [done|].
  destruct (plug_rep l ts _ _ (TLeaf s) (shape_trees _ _ (inv_shape _ _ Hinv)) HT) as (_ & Ht & _ & _).
  inversion Ht as [? ? p sf Hp _ Hk|]; subst. unfold is_leaf. rewrite Hs, Hp. cbn. by rewrite Hk.
Qed.

Lemma move_out_ok l ts f C F D s at_ : inv l ts → headroom l →
  ts !! active l = Some (plug ((f :: C) ++ F :: D) (TLeaf s)) →
  ∃ l' ts', move_out l s (fr_slot F) at_ = Done (l', true) ∧ later 34 l l' ∧ inv l' ts' ∧ moved l l' ts ts' s.
Proof.
  intros Hinv Hroom HT. destruct (detach_active_ok l ts f (C ++ F :: D) s Hinv HT) as (Hwt & Hlv & Hdet).
  destruct (Hdet [] l (inv_loose _ _ Hinv) eq_refl eq_refl) as (l1 & Hd & Hl1 & Hr1 & Hn1 & Hfa1 & _ & Hs1 & Hlf1).
  clear Hdet. set (u := plug C (dissolved (fr_slot f) (fr_left f ++ fr_right f))).
  set (cs := fr_left F ++ u :: fr_right F).
  assert (plug (C ++ F :: D) (dissolved (fr_slot f) (fr_left f ++ fr_right f)) = plug D (TNode (fr_slot F) cs)) as HD
    by (rewrite plug_app; done).
  rewrite HD in *. set (ts1 := <[active l := plug D (TNode (fr_slot F) cs)]> ts) in *.
  unfold rest in Hr1. injection Hr1 as Ra Rf Re Rz Rm Rp Rar Ri.
  assert (ts1 !! active l = Some (plug D (TNode (fr_slot F) cs))) as Hi1
    by (apply list_lookup_insert_eq; by eapply lookup_lt_Some).
  assert (kids_of l1 (fr_slot F) = roots cs) as Hkids.
  { destruct (plug_rep l1 ts1 _ D _ (sk_trees _ _ (loose_skel _ _ _ Hl1)) Hi1) as (_ & Ht & _ & _).
    inversion Ht as [|? ? p m a ? Hp _ Hk _ _]; subst. unfold kids_of. rewrite Hp. cbn. by rewrite Hk. }
  unfold move_out. rewrite Hd. obind.
  destruct (attach_ok l1 ts1 (active l) D s (fr_slot F) cs (Nat.min at_ (length cs)) Hl1 Hi1)
    as (l2 & w & -> & Hatt & Hl2 & Hm2 & Hfa2); [unfold cs; by destruct (fr_left F)|lia|done|].
  obind.
  rewrite (with_kids_ext l1 (fr_slot F) _ (λ _ cs0 a, cs1 ← vec_insert cs0 (Nat.min at_ (length cs)) s; Done (cs1, a)))
    by (intros m a; by rewrite Hkids, length_fmap).
  follow Hatt. fold (settle l2 s).
  unfold ts1 in Hl2. rewrite list_insert_insert_eq in Hl2.
  set (T' := plug D (TNode (fr_slot F) (insert_at (Nat.min at_ (length cs)) (TLeaf s) cs))) in *.
  unfold meta in Hm2. injection Hm2 as Mw Ma Mf Me Mz Mm Mp Mar.
  assert (leaves T' ≡ₚ leaves (plug ((f :: C) ++ F :: D) (TLeaf s))) as Hlv'.
  { unfold T'. rewrite leaves_attach. symmetry. exact Hlv. }
  destruct (move_end l l2 ts (plug ((f :: C) ++ F :: D) (TLeaf s)) T' s) as (l' & Hset & Hrest); try done.
  - apply loose_inv; [done| |].
    + apply Forall_insert; [apply (inv_shape _ _ Hinv)|by apply wide_attach].
    + eapply focus_perm; [apply Hinv|exact HT|congruence..|done].
  - apply leaves_in_plug. by left.
  - congruence.
  - congruence.
  - intros x0. by rewrite Hfa2, Hfa1.
  - exists l'. eexists. by split.
Qed.

(** ** Around the whole tree *)

(** A hoisted pane, out of every tree. *)
Lemma loose_alloc xs l l1 ts par k c : loose xs l ts → allocs l l1 par k c → local_ok l1 →
  loose (c :: xs) l1 ts.
Proof.
  intros [K1 K2 K3 K4 K5 K6 K7] (Hc & Hm & Hid & Hg) Hloc1.
  unfold meta in Hm. injection Hm as Mw Ma Mf Me Mz Mm Mp Mar. split; try done.
  - eapply heap_sim; [|exact K1]. intros s. unfold masked. rewrite Hg.
    repeat case_decide; try apply sim_refl; try set_solver.
    assert (s = c) as -> by set_solver. by rewrite Hc.
  - by rewrite Mw.
  - by rewrite Mw.
  - by rewrite Ma.
  - by rewrite Me.
  - unfold env_ok. by rewrite Mm, Mar.
Qed.

(** The panes of a wrap: the container takes the tree and the leaf. *)
Definition wrap_panes (l : Layout) (c r s : nat) (before : bool) : outcome Layout :=
  l ← with_kids l c (λ _ cs a, Done (cs ++ (if before then [s; r] else [r; s]), a));
  l ← upd_unwrap l r (set_parent (Some c));
  l ← upd_unwrap l s (set_parent (Some c));
  l ← upd_unwrap l r (set_weight DEFAULT_WEIGHT);
  upd_unwrap l s (set_weight DEFAULT_WEIGHT).

Lemma wrap_panes_ok l c r s before pc pr ps m : get l c = Some pc → kind pc = Container m [] 0 →
  get l r = Some pr → get l s = Some ps → c ≠ r → c ≠ s → r ≠ s →
  ∃ l', wrap_panes l c r s before = Done l' ∧ meta l' = meta l ∧ (local_ok l → local_ok l') ∧
    get l' c = Some (set_kind (Container m (if before then [s; r] else [r; s]) 0) pc) ∧
    get l' r = Some (set_weight DEFAULT_WEIGHT (set_parent (Some c) pr)) ∧
    get l' s = Some (set_weight DEFAULT_WEIGHT (set_parent (Some c) ps)) ∧
    ∀ x, x ≠ c → x ≠ r → x ≠ s → get l' x = get l x.
Proof.
  intros Hc Hk Hr Hs Hcr Hcs Hrs. unfold wrap_panes.
  erewrite with_kids_ok; [|exact Hc|exact Hk|reflexivity]. cbn [app mbind outcome_bind].
  erewrite upd_unwrap_ok by (rewrite !get_upd_ne by done; exact Hr). obind.
  erewrite upd_unwrap_ok by (rewrite !get_upd_ne by done; exact Hs). obind.
  erewrite upd_unwrap_ok by (rewrite get_upd_ne by done; rewrite get_upd, decide_True by done;
    rewrite get_upd_ne by done; rewrite Hr; reflexivity). obind.
  erewrite upd_unwrap_ok by (rewrite get_upd_ne by done; rewrite get_upd, decide_True by done;
    rewrite !get_upd_ne by done; rewrite Hs; reflexivity).
  eexists. split; [done|]. split; [by rewrite !meta_upd|]. split; [|split; [|split; [|split]]].
  - intros Hloc. apply local_upd_weight; [|done]. apply local_upd_weight; [|done].
    apply local_upd_keep; [|done]. apply local_upd_keep; [|done]. by apply local_upd_keep.
  - rewrite !get_upd_ne by done. by apply get_upd_eq.
  - rewrite get_upd_ne, get_upd, decide_True, get_upd_ne, get_upd, decide_True, get_upd_ne by done. by rewrite Hr.
  - rewrite get_upd, decide_True, get_upd_ne, get_upd, decide_True, !get_upd_ne by done. by rewrite Hs.
  - intros x H1 H2 H3. by rewrite !get_upd_ne by done.
Qed.

Lemma move_wrap_ok l ts f C s horiz before : inv l ts → headroom l →
  ts !! active l = Some (plug (f :: C) (TLeaf s)) →
  ∃ l' b ts', move_wrap l s horiz before = Done (l', b) ∧ later 34 l l' ∧ inv l' ts' ∧
    if b : bool then moved l l' ts ts' s else l' = l ∧ ts' = ts.
Proof.
  intros Hinv Hroom HT. unfold move_wrap.
  destruct (alloc l None _) as [[l1 c]|] eqn:Hal.
  2:{ exists l, false, ts. split; [done|]. split; [unfold later; lia|done]. }
  apply alloc_spec in Hal as [Hal Hloc1]; [|apply Hinv].
  pose proof (loose_alloc [] l l1 ts None _ c (inv_loose _ _ Hinv) Hal Hloc1) as Hl1.
  destruct Hal as (Hc & Hm1 & Hid1 & Hg1). unfold meta in Hm1. injection Hm1 as Mw Ma Mf Me Mz Mm Mp Mar.
  destruct (plug_rep l ts _ _ (TLeaf s) (shape_trees _ _ (inv_shape _ _ Hinv)) HT) as (_ & Hs & _ & _).
  inversion Hs as [? ? ps sf Hps _ Hks|]; subst. clear Hs.
  assert (c ≠ s) as Hcs by (intros ->; congruence).
  destruct (detach_active_ok l ts f C s Hinv HT) as (Hwt & Hlv & Hdet).
  set (t := plug C _) in *.
  destruct (Hdet [c] l1 Hl1 Mf) as (l2 & -> & Hl2 & Hr2 & Hn2 & Hfa2 & Hx2 & Hs2 & Hlf2);
    [by rewrite Hg1, decide_False|]. clear Hdet. obind.
  unfold rest in Hr2. injection Hr2 as Ra Rf Re Rz Rm Rp Rar Ri.
  set (ts2 := <[active l := t]> ts) in *. pose proof (loose_skel _ _ _ Hl2) as Hsk2.
  assert (ts2 !! active l = Some t) as Hi2 by (apply list_lookup_insert_eq; by eapply lookup_lt_Some).
  destruct (shape_root l2 ts2 Hsk2) as (T & HT2 & ->). rewrite Ra, Ma, Hi2 in HT2. injection HT2 as <-.
  obind.
  destruct (plug_rep l2 ts2 _ [] t (sk_trees _ _ Hsk2) Hi2) as (_ & Ht & _ & _).
  apply rep_par in Ht as (pr & Hpr & Hprp).
  assert (root_of t ≠ s ∧ root_of t ≠ c) as [Hrs Hrc].
  { destruct (loose_out [s; c] l2 ts2 _ [] t (root_of t) Hl2 Hi2) as [Hrx _];
      [apply elem_of_app; left; apply nodes_root|]. apply not_elem_of_cons in Hrx as [? ?%not_elem_of_cons]. tauto. }
  assert (c ≠ root_of t) as Hcr by done.
  set (m := if horiz then SplitH else SplitV) in *.
  assert (get l2 c = Some (fresh_pane (id_seq l + 1) None (Container m [] 0))) as G2c.
  { rewrite Hx2 by (by left). by rewrite Hg1, decide_True. }
  assert (get l2 s = Some (set_parent None ps)) as G2s by (by rewrite Hs2, Hps).
  destruct (wrap_panes_ok l2 c (root_of t) s before _ pr _ m G2c eq_refl Hpr G2s Hcr Hcs Hrs)
    as (l3 & Hwrap & Hm3 & Hloc3 & Gc & Gr & Gs & G).
  unfold wrap_panes in Hwrap. follow Hwrap.
  unfold meta in Hm3. injection Hm3 as Nw Na Nf Ne Nz Nm Np Nar.
  assert (workspace_of_root l3 (root_of t) = Some (active l)) as Hws.
  { unfold workspace_of_root. rewrite Nw. exact (ws_of_root l2 ts2 _ t Hsk2 Hi2). }
  destruct (ws_lookup l2 ts2 _ t Hsk2 Hi2) as (w & Hw & _).
  unfold reseat_root. rewrite Hws. unfold upd_ws. rewrite Nw, Hw. cbn [unwrap mbind outcome_bind].
  set (l4 := set_workspaces _ l3). fold (settle l4 s).
  set (kids := if before then [TLeaf s; t] else [t; TLeaf s]).
  assert (kids ≡ₚ [t; TLeaf s]) as Hkids by (unfold kids; destruct before; [apply Permutation_swap|done]).
  assert (heap (get l4) (<[active l := TNode c kids]> ts2)) as Hh4.
  { eapply (heap_wrap (masked [s; c] (get l2)) (get l4) ts2 (active l) [] t c s kids _ _ _ _ sf m 0);
      [apply Hl2|exact Hi2|apply hide_in; set_solver|apply hide_in; set_solver|done|done|exact Gc
      |unfold kids; by destruct before|lia|done|exact Gs|exact Hks|done
      |rewrite hide_out by set_solver; exact Hpr|exact Gr|done|done|done|].
    intros x H1 H2 H3 _. rewrite hide_out by set_solver. by apply G. }
  assert (workspaces l4 = rewired l2 (active l) [] c) as Hw4 by (cbn; by rewrite (alter_insert _ _ _ w)).
  destruct (rewired_roots l2 l4 ts2 (active l) [] t (TNode c kids) Hsk2 Hi2 Hw4) as [Hr4 Hn4].
  unfold ts2 in Hh4, Hr4. cbn [plug] in Hr4. rewrite list_insert_insert_eq in Hh4, Hr4.
  assert (leaves (TNode c kids) ≡ₚ leaves (plug (f :: C) (TLeaf s))) as Hlv'.
  { rewrite Hlv. cbn. rewrite Hkids. cbn. solve_Permutation. }
  destruct (move_end l l4 ts (plug (f :: C) (TLeaf s)) (TNode c kids) s) as (l' & Hset & Hrest); [|done|done|done| | | | |].
  - apply loose_inv.
    + split; [exact Hh4|exact Hr4|exact Hn4| | | |].
      * cbn. rewrite Na, Ra, Ma, length_insert. apply (inv_shape _ _ Hinv).
      * eapply (local_meta l3); [|done|done]. apply Hloc3, Hl2.
      * cbn. rewrite Ne, Re, Me. apply Hinv.
      * unfold env_ok. cbn. rewrite Nm, Nar, Rm, Rar, Mm, Mar. apply Hinv.
    + apply Forall_insert; [apply (inv_shape _ _ Hinv)|]. apply wide_node. rewrite Hkids.
      split; [cbn; lia|]. by repeat constructor.
    + eapply focus_perm; [apply Hinv|exact HT|cbn; congruence..|done].
  - apply leaves_in_plug. by left.
  - cbn. congruence.
  - cbn. congruence.
  - intros x. change (face l4 x) with (face l3 x). destruct (decide (x = c)) as [->|Hxc].
    { rewrite (face_container l3 _ _ _ _ _ Gc eq_refl). unfold face. by rewrite Hc. }
    transitivity (face l1 x); [|apply face_get; by rewrite Hg1, decide_False]. rewrite <-Hfa2.
    destruct (decide (x = root_of t)) as [->|]; [unfold face; by rewrite Gr, Hpr|].
    destruct (decide (x = s)) as [->|]; [unfold face; by rewrite Gs, G2s|]. by apply face_get, G.
  - exists l', true. eexists. by split.
Qed.

(** ** Directional moves *)

Lemma seen_sibling_ok l ts i C par cs k before : trees (get l) ts → ts !! i = Some (plug C (TNode par cs)) →
  k < length cs →
  ∃ o, seen_sibling l (roots cs) k before = Done o ∧ ∀ j, o = Some j → j < length cs.
Proof.
  intros Htr Hi Hk. unfold seen_sibling.
  assert (∀ js, (∀ j, j ∈ js → j < length cs) →
    ∃ o, find_mapM (λ k, c ← unwrap (roots cs !! k); b ← is_bg_subtree l c;
                  Done (if (b : bool) then None else Some k)) js = Done o ∧ ∀ j, o = Some j → j < length cs) as Hgen.
  { induction js as [|j js IH]; intros Hjs; [by exists None|]. cbn [find_mapM].
    destruct (lookup_lt_is_Some_2 cs j) as [t Ht]; [apply Hjs; by left|].
    rewrite list_lookup_fmap, Ht. cbn [fmap option_fmap option_map unwrap mbind outcome_bind].
    apply list_elem_of_lookup_2, list_elem_of_split in Ht as (ls & rs & ->).
    rewrite (bg_spec l ts i (mkFrame par ls rs :: C) t Htr Hi). obind.
    destruct (forallb _ _).
    - apply IH. intros j' Hj'. apply Hjs. by right.
    - exists (Some j). split; [done|]. intros j' [= <-]. apply Hjs. by left. }
  apply Hgen. intros j Hj. rewrite length_fmap in Hj. destruct before.
  - apply list_elem_of_In, in_rev, list_elem_of_In, elem_of_seq in Hj. lia.
  - apply elem_of_seq in Hj. lia.
Qed.

Lemma plug_node f C t : ∃ r cs, plug (f :: C) t = TNode r cs.
Proof.
  revert f t. induction C as [|f' C IH]; intros f t; [by eexists _, _|]. exact (IH f' (fill f t)).
Qed.

Lemma move_walk l ts s C1 C2 fuel horiz before saw : inv l ts → headroom l →
  ts !! active l = Some (plug C2 (plug C1 (TLeaf s))) → length C2 < fuel →
  ∃ l' b ts', move_dir_f fuel l s horiz before (root_of (plug C1 (TLeaf s))) saw = Done (l', b) ∧
    later 34 l l' ∧ inv l' ts' ∧ if b : bool then moved l l' ts ts' s else l' = l ∧ ts' = ts.
Proof.
  intros Hinv Hroom. pose proof (shape_trees _ _ (inv_shape _ _ Hinv)) as Htr.
  assert (∃ l' b ts', Done (l, false) = Done (l', b) ∧
    later 34 l l' ∧ inv l' ts' ∧ if b : bool then moved l l' ts ts' s else l' = l ∧ ts' = ts) as Hno.
  { exists l, false, ts. split; [done|]. split; [unfold later; lia|done]. }
  revert C1 fuel saw. induction C2 as [|F C2 IH]; intros C1 [|fuel] saw HT Hf; cbn in Hf; try lia; cbn [move_dir_f];
    destruct (plug_rep l ts _ _ _ Htr HT) as (Hc & Ht & Hnd & _);
    pose proof (rep_par _ _ _ Ht) as (p & Hp & Hpar); rewrite Hp; cbn [mbind option_bind]; rewrite Hpar.
  - cbn [ctx_parent head fmap option_fmap option_map].
    destruct C1 as [|f C1]; [cbn [plug root_of]; by rewrite Nat.eqb_refl|].
    destruct (_ || _); [done|]. by apply (move_wrap_ok l ts f C1).
  - cbn [ctx_parent head fmap option_fmap option_map].
    destruct (crep_head _ _ _ _ Hc) as (q & m & a & Hq & _ & Hk & _). rewrite Hq.
    cbn [fmap option_fmap option_map]. rewrite Hk.
    assert (∀ saw', ∃ l' b ts', move_dir_f fuel l s horiz before (fr_slot F) saw' = Done (l', b) ∧
      later 34 l l' ∧ inv l' ts' ∧ if b : bool then moved l l' ts ts' s else l' = l ∧ ts' = ts) as Hup.
    { intros saw'. pose proof (IH (C1 ++ [F]) fuel saw') as H. rewrite plug_app in H. apply H; [exact HT|lia]. }
    destruct (axis_match horiz m); cbn [negb]; [|apply Hup].
    rewrite position_mid by (apply (kid_fresh (fr_slot F) _ _ (fr_right F) (ctx_nodes C2));
      eapply NoDup_Permutation_proper; [|exact Hnd]; cbn; rewrite bind_app, bind_cons; solve_Permutation).
    rewrite length_fmap. destruct C1 as [|f C1]; cbn [plug root_of] in *.
    + rewrite Nat.eqb_refl.
      destruct (seen_sibling_ok l ts (active l) C2 (fr_slot F) (fr_left F ++ TLeaf s :: fr_right F) (length (fr_left F)) before Htr HT)
        as (o & Ho & Hj); [rewrite length_app; cbn; lia|].
      rewrite fmap_app, fmap_cons in Ho. cbn [root_of] in Ho. rewrite Ho. obind. destruct o as [j|]; [|apply Hup].
      destruct (move_swap_ok l ts F C2 s j Hinv Hroom HT) as (l' & ts' & -> & Hrest).
      { specialize (Hj j eq_refl). rewrite length_app in Hj. cbn in Hj. lia. }
      exists l', true, ts'. by split.
    + assert (root_of (plug C1 (fill f (TLeaf s))) ≠ s) as Hne.
      { destruct (plug_rep l ts (active l) ((f :: C1) ++ F :: C2) (TLeaf s) Htr) as (_ & Hs & _ & _); [by rewrite plug_app|].
        inversion Hs as [? ? ps sf Hps _ Hks|]; subst. intros Heq.
        destruct (plug_node f C1 (TLeaf s)) as (r & cs & Hrc). cbn [plug] in Hrc. rewrite Hrc in Ht, Heq.
        cbn in Heq. subst r. inversion Ht; congruence. }
      rewrite (proj2 (Nat.eqb_neq _ _)) by done.
      destruct (move_out_ok l ts f C1 F C2 s (if before then length (fr_left F) else length (fr_left F) + 1) Hinv Hroom)
        as (l' & ts' & -> & Hrest); [by rewrite plug_app|].
      exists l', true, ts'. by split.
Qed.

Lemma move_dir_ok l ts slot dir : inv l ts → headroom l →
  ∃ l' b ts', move_dir l slot dir = Done (l', b) ∧ later 34 l l' ∧ inv l' ts' ∧
    if b : bool then moved l l' ts ts' slot else l' = l ∧ ts' = ts.
Proof.
  intros Hinv Hroom. unfold move_dir. pose proof (inv_shape _ _ Hinv) as Hsh.
  assert (∃ l' b ts', Done (l, false) = Done (l', b) ∧
    later 34 l l' ∧ inv l' ts' ∧ if b : bool then moved l l' ts ts' slot else l' = l ∧ ts' = ts) as Hno.
  { exists l, false, ts. split; [done|]. split; [unfold later; lia|done]. }
  destruct (is_leaf l slot) eqn:Hlf; [|done]. cbn [negb].
  destruct (in_active_cases l ts slot Hsh) as [-> | (C & t & HT & Hr & ->)]; cbn [mbind outcome_bind negb]; [done|].
  destruct (is_leaf_live l slot Hlf) as (p & sf & Hp & Hk).
  assert (t = TLeaf slot) as -> by (eapply at_leaf; [by apply shape_trees|exact HT|done|exact Hp|done]).
  eapply (move_walk l ts slot [] C); [done|done|exact HT|].
  destruct (plug_rep l ts _ C _ (shape_trees _ _ Hsh) HT) as (_ & _ & _ & Hsz). unfold tree_fuel. cbn in Hsz. lia.
Qed.

End PaneMove.
