(* ===== verification/PaneSend.v ===== *)
(** * Sending a pane to another workspace keeps the invariant

    The panes the move needs are made first; between its place and its new one the
    leaf is live in no tree, as is the leaf that takes its place and the container
    that receives it. *)

From stdpp Require Import strings sorting.
From S2P Require Import Prelude Geometry GeometryProofs Carve PaneData PaneTree PaneRep PaneWalks.
From S2P Require Import PaneInv PaneSplit PaneHost PaneFocus PaneClose PaneStamp PaneWork PaneMove.
Import Geometry GeometryProofs PaneData PaneTree PaneRep PaneWalks PaneInv PaneSplit PaneHost PaneFocus
  PaneClose PaneStamp PaneWork PaneMove.
Open Scope nat_scope.

Module PaneSend.

(** ** Hoisted panes *)

(** A hoisted pane in hand joins the loose ones; given back, it is gone. *)
Lemma held_alloc xs l l1 ts k c : held xs l ts → alloc l None k = Some (l1, c) →
  held (c :: xs) l1 ts ∧ allocs l l1 None k c.
Proof.
  intros [Hl Hw Hf Hx] Hal. apply alloc_spec in Hal as [Hal Hloc]; [|apply Hl]. split; [|done].
  pose proof (loose_alloc xs l l1 ts None k c Hl Hal Hloc) as Hl1. destruct Hal as (Hc & Hm & Hid & Hg).
  unfold meta in Hm. injection Hm as Mw Ma Mf Me Mz Mm Mp Mar. split; [done|done| |].
  - destruct Hf as (T & HT & Hft). exists T. by rewrite Ma, Mf.
  - intros s [->|Hs]%elem_of_cons; [rewrite Hg, decide_True by done; eauto|].
    rewrite Hg. case_decide; [eauto|]. by apply Hx.
Qed.

Lemma held_upd xs l ts s f : held xs l ts → s ∈ xs → (∀ p, pid (f p) = pid p ∧ weight (f p) = weight p ∧ rect (f p) = rect p) →
  held xs (upd l s f) ts.
Proof.
  intros [[K1 K2 K3 K4 K5 K6 K7] Hw Hf Hx] Hs Hkeep. pose proof (meta_upd l s f) as Hm. unfold meta in Hm.
  injection Hm as Mw Ma Mf Me Mz Mm Mp Mar. split; [|done| |].
  - split; [|by rewrite Mw|by rewrite Mw|by rewrite Ma|by apply local_upd_keep|by rewrite Me|unfold env_ok; by rewrite Mm, Mar].
    eapply heap_sim; [|exact K1]. intros x. unfold masked. case_decide; [done|].
    rewrite get_upd_ne by (by intros ->). apply sim_refl.
  - destruct Hf as (T & HT & Hft). exists T. by rewrite Ma, Mf.
  - intros x H%Hx. rewrite get_upd. case_decide; [|done]. subst. destruct H as [p ->]. by eexists.
Qed.

Lemma held_free xs l ts s : held (s :: xs) l ts → s ∉ xs → ∃ l', clear_slot l s = Done l' ∧ held xs l' ts ∧ frees l l' [s].
Proof.
  intros [[K1 K2 K3 K4 K5 K6 K7] Hw Hf Hx] Hn. destruct (Hx s) as [p Hp]; [by left|].
  destruct (clear_slot_ok l s p Hp) as (l' & -> & Hfr). exists l'. split; [done|]. split; [|done].
  pose proof (panes_only_fields _ _ (proj1 Hfr)) as (Pw & Pa & Pf & Pi & Pe & Pz & Pm & Pp & Par). split; [|done| |].
  - split; [|by rewrite Pw|by rewrite Pw|by rewrite Pa|by eapply local_frees|by rewrite Pe|unfold env_ok; by rewrite Pm, Par].
    eapply heap_sim; [|exact K1]. intros x. unfold masked. destruct (decide (x = s)) as [->|Hne].
    + rewrite decide_True by (by left). case_decide; [done|]. by rewrite (frees_gone _ _ _ _ Hfr) by (by left).
    + rewrite (frees_agree _ _ _ _ Hfr) by set_solver. repeat case_decide; set_solver || apply sim_refl.
  - destruct Hf as (T & HT & Hft). exists T. by rewrite Pa, Pf.
  - intros x H. rewrite (frees_agree _ _ _ _ Hfr); [apply Hx; by right|]. intros ->%list_elem_of_singleton. done.
Qed.

(** ** Preparing *)

Definition opt (o : option nat) : list nat := match o with Some s => [s] | None => [] end.

(** The panes in hand before the leaf is touched. *)
Record prepared (l l' : Layout) (ts ts' : list ptree) (n : Z) (pf : option nat) (k : nat) (pc : option nat) : Prop := mkPrep {
  pp_held : held (opt pc ++ opt pf) l' ts';
  pp_bear : bearing l' = bearing l;
  pp_tree : ts' !! active l' = ts !! active l;
  pp_num : number <$> workspaces l' !! active l' = number <$> workspaces l !! active l;
  pp_k : k ≠ active l' ∧ number <$> workspaces l' !! k = Some n;
  pp_old s : is_Some (get l s) → get l' s = get l s;
  pp_rest i T w : ts !! i = Some T → workspaces l !! i = Some w → ∃ i', ts' !! i' = Some T ∧ workspaces l' !! i' = Some w;
  pp_fresh f : pf = Some f → ∃ p, get l' f = Some p ∧ parent p = None ∧ kind p = Leaf None ∧ get l f = None;
  pp_cont c : pc = Some c → ∃ p, get l' c = Some p ∧ parent p = None ∧ kind p = Container SplitH [] 0 ∧ get l c = None;
  pp_empty : pc = None → ∃ tr, ts' !! k = Some (TLeaf tr) ∧ leaf_surface l' tr = None }.

Lemma bearing_meta l l' : meta l' = meta l → bearing l' = bearing l.
Proof. unfold meta, bearing. by intros [= _ _ -> -> -> -> -> ->]. Qed.

(** The leaf left behind, when one is. *)
Definition hoist (l : Layout) (par : option nat) (owner : Z) (keep_place : bool) : option (Layout * option nat) :=
  if bool_decide (is_Some par) && negb keep_place then Some (l, None)
  else '(l, f) ← alloc l None (Leaf None);
       Some (upd (set_owner l f owner) f (set_fresh true), Some f).

Lemma hoist_ok l ts par owner keep_place l1 pf : inv l ts → hoist l par owner keep_place = Some (l1, pf) →
  held (opt pf) l1 ts ∧ meta l1 = meta l ∧ (∀ s, s ∉ opt pf → get l1 s = get l s) ∧
  (pf = None ↔ is_Some par ∧ keep_place = false) ∧
  ∀ f, pf = Some f → ∃ p, get l1 f = Some p ∧ parent p = None ∧ kind p = Leaf None ∧ get l f = None.
Proof.
  intros Hinv. unfold hoist. destruct (bool_decide (is_Some par) && negb keep_place) eqn:Hb.
  { intros [= <- <-]. apply andb_true_iff in Hb as [Hb Hkp]. apply bool_decide_eq_true in Hb.
    split; [by apply inv_held|]. split; [done|]. split; [done|]. by destruct keep_place. }
  destruct (alloc l None (Leaf None)) as [[l0 f]|] eqn:Hal; [|done]. intros [= <- <-].
  destruct (held_alloc [] l l0 ts _ f (inv_held _ _ Hinv) Hal) as [Hh (Hf & Hm & Hid & Hg)].
  unfold set_owner. split; [|split; [by rewrite !meta_upd|split; [|split; [|]]]].
  - apply held_upd; [|by left|done]. apply held_upd; [done|by left|done].
  - intros s Hs. assert (s ≠ f) by (intros ->; apply Hs; by left). rewrite !get_upd_ne, Hg, decide_False by done. done.
  - split; [done|]. intros [Hp ->]. by rewrite bool_decide_eq_true_2 in Hb.
  - intros f' [= <-]. rewrite !get_upd, !decide_True by done. rewrite Hg, decide_True by done.
    eexists. split; [done|]. done.
Qed.

Lemma insert_at_in {A} k (x : A) v i y : k ≤ length v → v !! i = Some y →
  insert_at k x v !! (if i <? k then i else S i) = Some y.
Proof. intros Hk Hi. destruct (Nat.ltb_spec i k); [by rewrite insert_at_lt by lia|by rewrite insert_at_ge by lia]. Qed.

(** The target workspace, existing or new, is not the active one. *)
Lemma ensured_rest l l' ts ts' n k xs : ensured l l' ts ts' n k → held xs l ts →
  (∀ s, is_Some (get l s) → get l' s = get l s) ∧
  ∀ i T w, ts !! i = Some T → workspaces l !! i = Some w → ∃ i', ts' !! i' = Some T ∧ workspaces l' !! i' = Some w.
Proof.
  intros (_ & _ & _ & [[-> ->]|(r & Hr & Hk & -> & _ & _ & Hg & _ & _ & w0 & Hw)]) Hh; [by eauto|]. split.
  - intros s [p Hs]. apply Hg. intros ->. congruence.
  - intros i T w HT Hwi. exists (if i <? k then i else S i). rewrite Hw. split; [by apply insert_at_in|]. apply insert_at_in; [|done].
    by rewrite (ws_length l ts (loose_skel _ _ _ (hd_loose _ _ _ Hh))).
Qed.

Lemma roll_back_ok l ts pf : held (opt pf) l ts → ∃ l', roll_back l pf = Done l' ∧ inv l' ts ∧ meta l' = meta l ∧
  ∀ s, get l' s = masked (opt pf) (get l) s.
Proof.
  intros Hh. destruct pf as [f|]; cbn [opt roll_back] in *.
  2:{ exists l. split; [done|]. split; [by apply held_inv|]. done. }
  destruct (held_free [] l ts f Hh) as (l' & -> & Hh' & Hfr); [by apply not_elem_of_nil|]. exists l'. split; [done|].
  split; [by apply held_inv|]. split; [by apply panes_only_meta, Hfr|].
  intros s. unfold masked. case_decide; [by apply (frees_gone _ _ _ _ Hfr)|by apply (frees_agree _ _ _ _ Hfr)].
Qed.

(** Nothing of a layout is different but the id counter. *)
Definition untouched (l l' : Layout) : Prop :=
  bearing l' = bearing l ∧ workspaces l' = workspaces l ∧ active l' = active l ∧ ∀ s, get l' s = get l s.

Lemma untouched_back l l1 l' pf : meta l1 = meta l → meta l' = meta l1 → (∀ s, s ∉ opt pf → get l1 s = get l s) →
  (∀ f, pf = Some f → get l f = None) → (∀ s, get l' s = masked (opt pf) (get l1) s) → untouched l l'.
Proof.
  intros Hm1 Hm Hg1 Hf Hg. split; [by apply bearing_meta; congruence|]. rewrite Hm1 in Hm. unfold meta in Hm.
  injection Hm as Mw Ma _ _ _ _ _ _. split; [done|]. split; [done|]. intros s. rewrite Hg. unfold masked.
  case_decide as Hs; [|by apply Hg1]. destruct pf as [f|]; [|by apply elem_of_nil in Hs].
  apply list_elem_of_singleton in Hs as ->. by rewrite Hf.
Qed.

(** A target that was made is a placeholder. *)
Lemma placeholder_ok xs l ts k T : held xs l ts → ts !! k = Some T →
  ∃ b w, workspaces l !! k = Some w ∧
    (if is_leaf l (ws_root w) && negb (bool_decide (is_Some (leaf_surface l (ws_root w))))
     then r ← subtree_reserved l (ws_root w); Done (negb r) else Done false) = Done b ∧
    (b = true → ∃ tr, T = TLeaf tr ∧ leaf_surface l tr = None) ∧
    (∀ r i, T = TLeaf r → face l r = Some (i, None) → reserved_slot l r = false → b = true).
Proof.
  intros Hh HT. pose proof (loose_skel _ _ _ (hd_loose _ _ _ Hh)) as Hsk.
  destruct (ws_lookup l ts k T Hsk HT) as (w & Hw & Hr).
  destruct (plug_rep l ts k [] T (sk_trees _ _ Hsk) HT) as (_ & Ht & _ & Hsz).
  assert (subtree_reserved l (root_of T) = Done (existsb (reserved_slot l) (nodes T))) as Hres
    by (eapply reserved_walk; [exact Ht|unfold tree_fuel; cbn in Hsz; lia]).
  exists (is_leaf l (root_of T) && negb (bool_decide (is_Some (leaf_surface l (root_of T)))) &&
          negb (existsb (reserved_slot l) (nodes T))), w.
  split; [done|]. rewrite Hr, Hres. obind. split; [by destruct (is_leaf _ _ && _)|].
  inversion Ht as [? s p sf Hp _ Hk|? s p m a cs Hp _ Hk _ _]; subst; cbn [root_of].
  - unfold is_leaf, leaf_surface. rewrite Hp. cbn. rewrite Hk. cbn. split.
    + destruct sf; [done|]. intros _. exists s. rewrite Hp. cbn. by rewrite Hk.
    + intros r i [= <-]. unfold face. rewrite Hp, Hk. intros [= _ ->] ->. done.
  - unfold is_leaf. rewrite Hp. cbn. rewrite Hk. split; [done|]. by intros r i [=].
Qed.

Lemma mk_prepared l l1 l2 l3 ts ts2 n pf k pc : held (opt pf) l1 ts → meta l1 = meta l →
  (∀ s, s ∉ opt pf → get l1 s = get l s) →
  (∀ f, pf = Some f → ∃ p, get l1 f = Some p ∧ parent p = None ∧ kind p = Leaf None ∧ get l f = None) →
  ensured l1 l2 ts ts2 n k → bearing l2 = bearing l1 → k ≠ active l2 →
  held (opt pc ++ opt pf) l3 ts2 → meta l3 = meta l2 → (∀ s, is_Some (get l2 s) → get l3 s = get l2 s) →
  (∀ c, pc = Some c → ∃ p, get l3 c = Some p ∧ parent p = None ∧ kind p = Container SplitH [] 0 ∧ get l2 c = None) →
  (pc = None → ∃ tr, ts2 !! k = Some (TLeaf tr) ∧ leaf_surface l3 tr = None) →
  prepared l l3 ts ts2 n pf k pc.
Proof.
  intros Hh1 Hm1 Hg1 Hf1 Hok Hb2 Hka Hh3 Hm3 Hg3 Hc He.
  destruct (ensured_rest l1 l2 ts ts2 n k _ Hok Hh1) as [Hold Hrest]. destruct Hok as (Hnum & HT2 & Hw2 & _).
  assert (∀ s, is_Some (get l s) → get l2 s = get l s ∧ get l3 s = get l s) as Hall.
  { intros s Hs. assert (get l1 s = get l s) as E1.
    { apply Hg1. destruct pf as [f|]; [|apply not_elem_of_nil]. intros ->%list_elem_of_singleton.
      destruct (Hf1 f eq_refl) as (? & _ & _ & _ & E). rewrite E in Hs. by destruct Hs. }
    rewrite <-E1 in Hs |- *. split; [by apply Hold|]. rewrite <-(Hold s Hs) in Hs |- *. by apply Hg3. }
  pose proof (bearing_meta _ _ Hm1) as Hbm1. pose proof (bearing_meta _ _ Hm3) as Hbm3.
  unfold meta in Hm1, Hm3. injection Hm1 as Mw Ma _ _ _ _ _ _. injection Hm3 as Nw Na _ _ _ _ _ _.
  split; rewrite ?Nw, ?Na; try done.
  - congruence.
  - by rewrite <-Ma.
  - by rewrite Hw2, Mw, Ma.
  - intros s Hs. by apply Hall.
  - rewrite <-Mw. apply Hrest.
  - intros f Hf. destruct (Hf1 f Hf) as (p & Hp & ? & ? & ?). exists p. split; [|done].
    assert (get l2 f = Some p) as E2 by (rewrite Hold; [done|by eexists]). rewrite Hg3; [done|by eexists].
  - intros c Hcc. destruct (Hc c Hcc) as (p & Hp & ? & ? & Hn). exists p. split; [done|]. split; [done|]. split; [done|].
    destruct (get l c) as [q|] eqn:Hq; [|done].
    destruct (Hall c) as [E _]; [by eexists|]. congruence.
Qed.

Lemma prepare_ok l ts leaf par n owner keep_place : inv l ts → (0 ≤ n)%Z → active_is l n = false →
  ∃ l' o, move_prepare l leaf par n owner keep_place = Done (l', o) ∧
    match o with
    | None => untouched l l' ∧ inv l' ts
    | Some (pf, k, pc) => (∃ ts', prepared l l' ts ts' n pf k pc) ∧ (pf = None ↔ is_Some par ∧ keep_place = false)
    end.
Proof.
  intros Hinv Hn Hact. unfold move_prepare. fold (hoist l par owner keep_place).
  destruct (hoist l par owner keep_place) as [[l1 pf]|] eqn:Hho; [|by exists l, None].
  destruct (hoist_ok l ts par owner keep_place l1 pf Hinv Hho) as (Hh1 & Hm1 & Hg1 & Hpf & Hf1).
  assert (∀ f, pf = Some f → get l f = None) as HfN by (intros f Hf; by destruct (Hf1 f Hf) as (? & _ & _ & _ & ?)).
  destruct (ensure_workspace_ok (opt pf) l1 ts n owner Hh1 Hn) as (l2 & ok & ts2 & -> & Hh2 & Hb2 & Hok). obind.
  destruct ok as [k|].
  2:{ destruct Hok as (-> & -> & _). destruct (roll_back_ok l1 ts pf Hh1) as (l3 & -> & Hi3 & Hb3 & Hg3). obind.
      exists l3, None. split; [done|]. split; [|done]. by eapply (untouched_back l l1 l3). }
  assert (k ≠ active l2) as Hka.
  { eapply ensured_elsewhere; [|exact Hok]. unfold meta in Hm1. injection Hm1 as Mw Ma _ _ _ _ _ _.
    unfold active_is in *. by rewrite Mw, Ma. }
  pose proof (proj1 Hok) as Hnum.
  assert (∃ T, ts2 !! k = Some T) as [T HT].
  { apply lookup_lt_is_Some_2. rewrite <-(ws_length l2 ts2) by apply (loose_skel _ _ _ (hd_loose _ _ _ Hh2)).
    apply lookup_lt_is_Some_1. by destruct (workspaces l2 !! k). }
  destruct (placeholder_ok _ l2 ts2 k T Hh2 HT) as (b & w & Hwk & Hpl & Hb & Hmade). rewrite Hwk. cbn [unwrap mbind outcome_bind].
  rewrite Hpl. obind.
  destruct b.
  { exists l2, (Some (pf, k, None)). split; [done|]. split; [|done]. exists ts2.
    apply (mk_prepared l l1 l2 l2 ts ts2 n pf k None); try done. intros _. destruct (Hb eq_refl) as (tr & -> & Hs). eauto. }
  destruct (alloc l2 None (Container SplitH [] 0)) as [[l3 c]|] eqn:Hal.
  - destruct (held_alloc _ l2 l3 ts2 _ c Hh2 Hal) as [Hh3 (Hc & Hm3 & _ & Hg3)].
    exists l3, (Some (pf, k, Some c)). split; [done|]. split; [|done]. exists ts2.
    apply (mk_prepared l l1 l2 l3 ts ts2 n pf k (Some c)); try done.
    + intros s [q Hq]. rewrite Hg3, decide_False; [done|]. intros ->. congruence.
    + intros c' [= <-]. rewrite Hg3, decide_True by done. eauto.
  - destruct Hok as (_ & _ & _ & [[-> ->]|(r & _ & Hk & -> & _ & Hf & _ & _ & Hr & _)]).
    2:{ rewrite insert_at_eq in HT by done. injection HT as <-. by specialize (Hmade r _ eq_refl Hf Hr). }
    destruct (roll_back_ok l1 ts pf Hh1) as (l3 & -> & Hi3 & Hb3 & Hg3). obind.
    exists l3, None. split; [done|]. split; [|done]. by eapply (untouched_back l l1 l3).
Qed.

(** ** Leaving *)

(** A leaf of a tree gives its place to another. *)
Lemma heap_swap_leaf g g' ts i C s f p sf : heap g ts → ts !! i = Some (plug C (TLeaf s)) → g f = None →
  g' s = None → g' f = Some p → parent p = ctx_parent C → kind p = Leaf sf → hole_ok g g' C f →
  (∀ x, x ≠ s → x ≠ f → ctx_parent C ≠ Some x → sim (g x) (g' x)) →
  heap g' (<[i := plug C (TLeaf f)]> ts).
Proof.
  intros Hh Hi Hf Hs Hp Hpar Hk Hhole Hg. apply (surgery_at g g' ts i C (TLeaf s) (TLeaf f) [f] [s] Hh Hi).
  - cbn. apply Permutation_swap.
  - apply NoDup_singleton.
  - by intros x ->%list_elem_of_singleton.
  - by intros x ->%list_elem_of_singleton.
  - intros x H1 H2 H3. apply Hg; [set_solver..|done].
  - done.
  - intros _. by econstructor.
Qed.

(** What leaving does: the leaf is out of every tree, nothing else has moved. *)
Definition left_place (l l' : Layout) (ts : list ptree) (xs : list nat) (leaf : nat) (pf : option nat) (T' : ptree) : Prop :=
  loose (leaf :: xs) l' (<[active l := T']> ts) ∧ wide T' ∧ rest l' = rest l ∧
  (number <$> workspaces l' = number <$> workspaces l) ∧ (∀ s, face l' s = face l s) ∧
  (∀ x, x ∈ xs → get l' x = get l x) ∧ get l' leaf = set_parent None <$> get l leaf ∧
  ∀ f, pf = Some f → ∃ C, ts !! active l = Some (plug C (TLeaf leaf)) ∧ T' = plug C (TLeaf f).

Lemma leave_detach_ok l ts xs C par ls leaf rs : loose xs l ts → Forall wide ts → focus_in l ts →
  ts !! active l = Some (plug C (TNode par (ls ++ TLeaf leaf :: rs))) →
  ∃ l' T', detach_leaf l leaf = Done l' ∧ left_place l l' ts xs leaf None T'.
Proof.
  intros Hl Hwd (T & HT & Hf) HT0. destruct (frame_wide ts _ par ls (TLeaf leaf) rs C Hwd HT0) as [Hne Hw].
  destruct (detach_leaf_ok xs l ts (active l) C par ls leaf rs Hl HT0 Hne) as (l' & -> & Hl' & Hr & Hn & Hfa & Hx & Hs).
  { eapply (leaf_ne (get l) ts _ _ C); [apply (loose_skel _ _ _ Hl)|exact HT0|exact HT|done]. }
  eexists l', _. split; [done|]. by do 7 (split; [done|]).
Qed.

Lemma leave_fresh_run l l1 ts C leaf f p pf : skel l ts → ts !! active l = Some (plug C (TLeaf leaf)) →
  rename_hole l (ctx_parent C) leaf f = Done l1 → leaf ≠ f → get l1 f = Some pf → get l1 leaf = Some p →
  parent p = ctx_parent C → parent pf = None → local_ok l1 → get l leaf = Some p → (1 ≤ weight p ≤ u_max 16)%Z →
  ∃ l2 q, leave_place l leaf (Some f) (ctx_parent C) = Done l2 ∧ local_ok l2 ∧ meta l2 = meta l1 ∧ id_seq l2 = id_seq l1 ∧
    get l2 f = Some q ∧ parent q = ctx_parent C ∧ kind q = kind pf ∧ pid q = pid pf ∧
    get l2 leaf = Some (set_parent None p) ∧ ∀ x, x ≠ leaf → x ≠ f → get l2 x = get l1 x.
Proof.
  intros Hsk HT Hren Hlf Hf Hp Hpar Hfp Hloc Hpl Hw. unfold leave_place.
  destruct (ctx_parent C) as [pi|] eqn:HC; cbn [rename_hole] in Hren.
  - rewrite Hren. obind. unfold weight_of. rewrite Hpl. cbn [from_option fmap option_fmap option_map].
    eexists _, _. split; [done|]. split; [|split; [by rewrite !meta_upd|split; [by rewrite !id_seq_upd|]]].
    + apply local_upd_keep; [|done]. apply local_upd; [done|]. intros q Hq. split; [done|]. split; [done|].
      exact (lo_rect l1 Hloc f q Hq).
    + split; [rewrite get_upd_ne by done; by apply get_upd_eq|]. split; [done|]. split; [done|]. split; [done|].
      split; [rewrite get_upd, decide_True, get_upd_ne, Hp by done; done|]. intros x H1 H2. by rewrite !get_upd_ne.
  - destruct C as [|fr C]; [|done]. unfold reseat_root in Hren.
    rewrite (ws_of_root l ts _ (TLeaf leaf) Hsk HT : workspace_of_root l leaf = _) in Hren. rewrite Hren.
    exists l1, pf. split; [done|]. split; [done|]. split; [done|]. split; [done|]. split; [done|]. split; [done|].
    split; [done|]. split; [done|]. split; [|done]. rewrite Hp. by destruct p; cbn in *; subst.
Qed.

(** In place: the fresh leaf takes the leaf's index, nothing dissolves. *)
Lemma leave_fresh_ok l ts xs C leaf f pf : loose (xs ++ [f]) l ts → Forall wide ts → leaf ∉ xs → f ∉ xs →
  ts !! active l = Some (plug C (TLeaf leaf)) → get l f = Some pf → parent pf = None → kind pf = Leaf None →
  ∃ l', leave_place l leaf (Some f) (ctx_parent C) = Done l' ∧ left_place l l' ts xs leaf (Some f) (plug C (TLeaf f)).
Proof.
  intros Hl Hwd Hlx Hfx HT Hpf Hpp Hpk. pose proof (loose_skel _ _ _ Hl) as Hsk.
  destruct (plug_rep l ts _ C _ (sk_trees _ _ Hsk) HT) as (Hc & Ht & Hnd & _).
  inversion Ht as [? ? p sf Hp Hpar Hk|]; subst.
  destruct (rename_hole_ok l ts (active l) C (TLeaf leaf) f Hsk HT) as (l1 & Hren & Hg1 & Hr1 & Hw1 & Hloc1 & Hhole).
  specialize (Hloc1 (lq_local _ _ _ Hl)). cbn [root_of] in *.
  assert (∀ x, x ∈ leaf :: ctx_nodes C → x ∉ xs ++ [f]) as Hout.
  { intros x Hx. apply (loose_out _ l ts _ C (TLeaf leaf) x Hl HT). exact Hx. }
  assert (leaf ≠ f) as Hlf by (intros ->; apply (Hout f); set_solver).
  assert (ctx_parent C ≠ Some f) as Hcf by (intros H%ctx_parent_in; apply (Hout f); set_solver).
  assert (ctx_parent C ≠ Some leaf) as Hcl.
  { intros H%ctx_parent_in. cbn in Hnd. apply NoDup_cons in Hnd as [Hnd _]. done. }
  assert (get l1 f = Some pf ∧ get l1 leaf = Some p) as [G1f G1l] by (by rewrite !Hg1).
  destruct (leave_fresh_run l l1 ts C leaf f p pf Hsk HT Hren Hlf G1f G1l Hpar Hpp Hloc1)
    as (l2 & q & -> & Hloc2 & Hm2 & Hid2 & Gf & Hqp & Hqk & Hqi & Gl & G2).
  { rewrite <-Hg1 by done. by rewrite G1l. }
  { by eapply (lo_weight l (lq_local _ _ _ Hl)). }
  unfold rest in Hr1. injection Hr1 as Ra Rf Re Rz Rm Rp Rar Ri.
  unfold meta in Hm2. injection Hm2 as Mw Ma Mf Me Mz Mm Mp Mar.
  destruct (rewired_roots l l2 ts (active l) C (TLeaf leaf) (TLeaf f) Hsk HT) as [Hr2 Hn2]; [by rewrite Mw|].
  assert (∀ x, x ≠ leaf → x ≠ f → ctx_parent C ≠ Some x → get l2 x = get l x) as G.
  { intros x H1 H2 H3. by rewrite G2, Hg1. }
  exists l2. split; [done|]. split; [|split; [|split; [|split; [|split; [|split; [|split]]]]]].
  - split; [|done|done| |done| |].
    + eapply (heap_swap_leaf (masked (xs ++ [f]) (get l)) _ ts _ C leaf f q None); [apply Hl|exact HT| | | |done|by rewrite Hqk| |].
      * apply hide_in. set_solver.
      * apply hide_in. by left.
      * rewrite hide_out by set_solver. done.
      * destruct C as [|fr C]; [done|]. intros p0. assert (fr_slot fr ≠ leaf ∧ fr_slot fr ≠ f) as [N1 N2].
        { split; intros E; [apply Hcl|apply Hcf]; cbn; by rewrite E. }
        assert (fr_slot fr ∉ xs ++ [f]) as No by (apply Hout; cbn; set_solver).
        rewrite !hide_out by set_solver. intros Hp0.
        destruct (Hhole fr C p0 eq_refl Hp0) as (m & a & _ & Ha & Hg). rewrite G2, Hg by done. eauto 10.
      * intros x H1 H2 H3. assert (x ∈ leaf :: xs ↔ x ∈ xs ++ [f]) as Hiff by set_solver.
        unfold masked. rewrite (G x H1 H2 H3). repeat case_decide; first [apply sim_refl|exfalso; tauto].
    + rewrite Ma, Ra, length_insert. apply Hl.
    + rewrite Me, Re. apply Hl.
    + unfold env_ok. rewrite Mm, Mar, Rm, Rar. apply Hl.
  - pose proof (Forall_lookup_1 _ _ _ _ Hwd HT) as Hw. rewrite wide_plug in *. by destruct Hw.
  - unfold rest. congruence.
  - by rewrite Mw, Hw1, rewired_numbers.
  - intros x. destruct (decide (x = leaf)) as [->|N1]; [by unfold face; rewrite Gl, Hp|].
    destruct (decide (x = f)) as [->|N2]; [unfold face; by rewrite Gf, Hpf, Hqk, Hqi|].
    destruct (decide (ctx_parent C = Some x)) as [E|N3]; [|by apply face_get, G].
    destruct C as [|fr C]; [done|]. injection E as <-.
    destruct (crep_head _ _ _ _ Hc) as (p0 & m & a & Hp0 & _ & Hk0 & _).
    destruct (Hhole fr C p0 eq_refl Hp0) as (m' & a' & _ & _ & Hg).
    rewrite (face_container l _ _ _ _ _ Hp0 Hk0). eapply face_container; [by rewrite G2, Hg|done].
  - intros x Hx. apply G.
    + by intros ->.
    + by intros ->.
    + intros E%ctx_parent_in. apply (Hout x); set_solver.
  - by rewrite Gl, Hp.
  - intros f' [= <-]. by exists C.
Qed.

(** The leaf leaves its place by whichever way. *)
Lemma leave_place_ok l ts xs C leaf pf : loose (xs ++ opt pf) l ts → Forall wide ts → focus_in l ts →
  (∀ f, pf = Some f → f ∉ xs ∧ ∃ p, get l f = Some p ∧ parent p = None ∧ kind p = Leaf None) →
  (pf = None → is_Some (ctx_parent C)) → ts !! active l = Some (plug C (TLeaf leaf)) →
  ∃ l' T', leave_place l leaf pf (ctx_parent C) = Done l' ∧ left_place l l' ts xs leaf pf T'.
Proof.
  intros Hl Hwd Hf Hpf Hpar HT. destruct pf as [f|]; cbn [opt] in Hl.
  - destruct (Hpf f eq_refl) as (Hfx & p & Hp & Hpp & Hpk).
    destruct (leave_fresh_ok l ts xs C leaf f p Hl Hwd) as (l' & Hrun & Hdone); try done; [|eauto].
    intros Hx. destruct (loose_out _ l ts _ C (TLeaf leaf) leaf Hl HT) as [Hn _]; [by left|]. set_solver.
  - rewrite app_nil_r in Hl. destruct C as [|fr C]; [by destruct (Hpar eq_refl)|].
    exact (leave_detach_ok l ts xs C (fr_slot fr) (fr_left fr) leaf (fr_right fr) Hl Hwd Hf HT).
Qed.

(** ** Arriving *)

(** What arriving does to the target's tree, whose panes [gone] are freed. *)
Definition arrived (l l' : Layout) (ts : list ptree) (leaf k : nat) (T' : ptree) (gone : list nat) : Prop :=
  loose [] l' (<[k := T']> ts) ∧ wide T' ∧ leaf ∈ leaves T' ∧ rest l' = rest l ∧
  (number <$> workspaces l' = number <$> workspaces l) ∧ ∀ s, s ∉ gone → face l' s = face l s.

Lemma loose_reroot xs l l' ts k T T' : loose xs l ts → ts !! k = Some T →
  workspaces l' = alter (ws_set_root (root_of T')) k (workspaces l) → rest l' = rest l → local_ok l' →
  heap (get l') (<[k := T']> ts) → loose [] l' (<[k := T']> ts) ∧ number <$> workspaces l' = number <$> workspaces l.
Proof.
  intros Hl HT Hw Hr Hloc Hh. split; [|rewrite Hw; by apply (rewired_numbers l k [])].
  destruct (rewired_roots l l' ts k [] T T' (loose_skel _ _ _ Hl) HT Hw) as [Hr' Hn'].
  unfold rest in Hr. injection Hr as Ra Rf Re Rz Rm Rp Rar Ri.
  split; [by apply heap_hide_nil|done|done| |done| |].
  - rewrite Ra, length_insert. apply Hl.
  - rewrite Re. apply Hl.
  - unfold env_ok. rewrite Rm, Rar. apply Hl.
Qed.

(** A placeholder gives way to the leaf. *)
Lemma arrive_root_ok l ts leaf k tr p sf : loose [leaf] l ts → ts !! k = Some (TLeaf tr) →
  get l leaf = Some p → kind p = Leaf sf → ∃ l', arrive l leaf k None = Done l' ∧ arrived l l' ts leaf k (TLeaf leaf) [tr].
Proof.
  intros Hl HT Hp Hk. pose proof (loose_skel _ _ _ Hl) as Hsk.
  destruct (ws_lookup l ts k _ Hsk HT) as (w & Hw & Hr). cbn [root_of] in Hr.
  destruct (plug_rep l ts k [] _ (sk_trees _ _ Hsk) HT) as (_ & Ht & _ & Hsz).
  destruct (loose_out [leaf] l ts k [] (TLeaf tr) tr Hl HT) as [Hne%not_elem_of_cons _]; [cbn; set_solver|].
  destruct Hne as [Hne _].
  unfold arrive. rewrite Hw. cbn [unwrap mbind outcome_bind]. rewrite Hr. unfold upd_ws. rewrite Hw.
  cbn [unwrap mbind outcome_bind]. set (l1 := set_workspaces _ l).
  assert (get l1 leaf = Some p) as G1 by done. rewrite (upd_unwrap_ok _ _ _ _ G1). obind. set (l2 := upd l1 leaf _).
  assert (∀ x, x ≠ leaf → get l2 x = get l x) as G2 by (intros x Hx; unfold l2; by rewrite get_upd_ne).
  destruct (free_subtree_walk (tree_fuel l2) l2 (TLeaf tr) None) as (l3 & Hfr & Hf).
  { eapply rep_sim; [|exact Ht]. intros x ->%list_elem_of_singleton. rewrite G2 by done. apply sim_refl. }
  { apply NoDup_singleton. }
  { unfold tree_fuel, l2. rewrite length_upd. cbn in Hsz |- *. lia. }
  unfold free_subtree. cbn [root_of] in Hfr. rewrite Hfr. exists l3. split; [done|].
  assert (get l3 leaf = Some (set_parent None p)) as G3l.
  { rewrite (frees_agree _ _ _ _ Hf) by set_solver. by apply get_upd_eq. }
  assert (∀ x, x ≠ leaf → x ≠ tr → get l3 x = get l x) as G3.
  { intros x H1 H2. rewrite (frees_agree _ _ _ _ Hf) by set_solver. by apply G2. }
  pose proof (panes_only_fields _ _ (panes_only_trans _ _ _ (panes_only_upd l1 leaf (set_parent None)) (proj1 Hf)))
    as (Pw & Pa & Pf & Pi & Pe & Pz & Pm & Pp & Par).
  destruct (loose_reroot [leaf] l l3 ts k (TLeaf tr) (TLeaf leaf) Hl HT) as [Hl3 Hn3].
  - rewrite Pw. cbn. by rewrite (alter_insert _ _ _ w).
  - unfold rest. by rewrite Pa, Pf, Pi, Pe, Pz, Pm, Pp, Par.
  - eapply local_frees; [|exact Hf]. apply local_upd_keep; [|done]. by eapply (local_meta l); [apply Hl|..].
  - apply (heap_swap_leaf (masked [leaf] (get l)) _ ts k [] tr leaf (set_parent None p) sf); try done.
    + apply Hl.
    + apply hide_in. by left.
    + apply (frees_gone _ _ _ _ Hf). by left.
    + intros x H1 H2 _. rewrite hide_out, G3 by set_solver. apply sim_refl.
  - split; [done|]. split; [done|]. split; [by left|]. split.
    { unfold rest. by rewrite Pa, Pf, Pi, Pe, Pz, Pm, Pp, Par. }
    split; [done|]. intros x Hx. destruct (decide (x = leaf)) as [->|]; [|apply face_get, G3; set_solver].
    unfold face. by rewrite G3l, Hp.
Qed.

Lemma local_upd_share l s par : local_ok l →
  local_ok (upd l s (λ p, set_weight DEFAULT_WEIGHT (set_parent par p))).
Proof.
  intros H. apply local_upd; [done|]. intros p Hp. split; [done|]. split; [by vm_compute|]. exact (lo_rect l H s p Hp).
Qed.

(** The leaf beside the target's tree, in a container. *)
Lemma arrive_beside_ok l ts leaf c k T p sf pc : loose [leaf; c] l ts → ts !! k = Some T → wide T → leaf ≠ c →
  get l leaf = Some p → kind p = Leaf sf → get l c = Some pc → parent pc = None → kind pc = Container SplitH [] 0 →
  ∃ l', arrive l leaf k (Some c) = Done l' ∧ arrived l l' ts leaf k (TNode c [T; TLeaf leaf]) [].
Proof.
  intros Hl HT HwT Hlc Hp Hk Hpc Hcp Hck. pose proof (loose_skel _ _ _ Hl) as Hsk.
  destruct (ws_lookup l ts k _ Hsk HT) as (w & Hw & Hr).
  destruct (plug_rep l ts k [] _ (sk_trees _ _ Hsk) HT) as (_ & Ht & _ & _). cbn [plug ctx_parent] in Ht.
  apply rep_par in Ht as (pr & Hpr & Hprp).
  destruct (loose_out [leaf; c] l ts k [] T (root_of T) Hl HT) as [Hne _]; [cbn; apply elem_of_app; left; apply nodes_root|].
  apply not_elem_of_cons in Hne as [Hrl [Hrc _]%not_elem_of_cons].
  unfold arrive. rewrite Hw. cbn [unwrap mbind outcome_bind]. rewrite Hr.
  erewrite with_kids_ok; [|exact Hpc|exact Hck|reflexivity]. obind. cbn [app]. set (l1 := upd l c _).
  erewrite upd_unwrap_ok by (unfold l1; rewrite get_upd_ne by done; exact Hpr). obind. set (l2 := upd l1 (root_of T) _).
  erewrite upd_unwrap_ok by (unfold l2, l1; rewrite !get_upd_ne by done; exact Hp). obind. set (l3 := upd l2 leaf _).
  assert (meta l3 = meta l ∧ id_seq l3 = id_seq l) as [Hm Hid] by (unfold l3, l2, l1; by rewrite !meta_upd, !id_seq_upd).
  unfold meta in Hm. injection Hm as Mw Ma Mf Me Mz Mm Mp Mar.
  unfold upd_ws. rewrite Mw, Hw. cbn [unwrap mbind outcome_bind]. set (l4 := set_workspaces _ l3). exists l4. split; [done|].
  assert (get l4 c = Some (set_kind (Container SplitH [root_of T; leaf] 0) pc)) as Gc.
  { change (get l3 c = Some (set_kind (Container SplitH [root_of T; leaf] 0) pc)). unfold l3, l2.
    rewrite !get_upd_ne by done. by apply get_upd_eq. }
  assert (get l4 (root_of T) = Some (set_weight DEFAULT_WEIGHT (set_parent (Some c) pr))) as Gr.
  { change (get l3 (root_of T) = Some (set_weight DEFAULT_WEIGHT (set_parent (Some c) pr))). unfold l3, l2.
    rewrite get_upd_ne, get_upd, decide_True by done. unfold l1. by rewrite get_upd_ne, Hpr. }
  assert (get l4 leaf = Some (set_weight DEFAULT_WEIGHT (set_parent (Some c) p))) as Gl.
  { change (get l3 leaf = Some (set_weight DEFAULT_WEIGHT (set_parent (Some c) p))). unfold l3, l2, l1.
    rewrite get_upd, decide_True, !get_upd_ne, Hp by done. done. }
  assert (∀ x, x ≠ c → x ≠ leaf → x ≠ root_of T → get l4 x = get l x) as G.
  { intros x H1 H2 H3. change (get l3 x = get l x). unfold l3, l2, l1. by rewrite !get_upd_ne. }
  assert (rest l4 = rest l) as Hrest by (unfold rest; cbn; congruence).
  destruct (loose_reroot [leaf; c] l l4 ts k T (TNode c [T; TLeaf leaf]) Hl HT) as [Hl4 Hn4]; [|done| | |].
  - cbn. by rewrite (alter_insert _ _ _ w).
  - eapply (local_meta l3); [|done|done]. unfold l3, l2, l1. repeat apply local_upd_share. apply local_upd_keep; [apply Hl|done].
  - eapply (heap_wrap (masked [leaf; c] (get l)) (get l4) ts k [] T c leaf [T; TLeaf leaf] _ _ _ _ sf SplitH 0);
      [apply Hl|exact HT|apply hide_in; set_solver|apply hide_in; set_solver|done|done|exact Gc|done|lia|done
      |exact Gl|exact Hk|done|rewrite hide_out by set_solver; exact Hpr|exact Gr|done|done|done|].
    intros x H1 H2 H3 _. rewrite hide_out by set_solver. by apply G.
  - split; [done|]. split; [apply wide_node; split; [cbn; lia|by repeat constructor]|].
    split; [cbn; set_solver|]. split; [done|]. split; [done|]. intros x _.
    destruct (decide (x = c)) as [->|]; [by rewrite (face_container _ _ _ _ _ _ Hpc Hck), (face_container _ _ _ _ _ _ Gc eq_refl)|].
    destruct (decide (x = leaf)) as [->|]; [unfold face; by rewrite Gl, Hp|].
    destruct (decide (x = root_of T)) as [->|]; [unfold face; by rewrite Gr, Hpr|by apply face_get, G].
Qed.

Lemma arrive_ok l ts leaf k T pc : loose (leaf :: opt pc) l ts → ts !! k = Some T → wide T → is_leaf l leaf = true →
  (∀ c, pc = Some c → ∃ p, get l c = Some p ∧ parent p = None ∧ kind p = Container SplitH [] 0) →
  (pc = None → ∃ tr, T = TLeaf tr ∧ leaf_surface l tr = None) →
  ∃ l' T' gone, arrive l leaf k pc = Done l' ∧ arrived l l' ts leaf k T' gone ∧ Forall (λ s, leaf_surface l s = None) gone.
Proof.
  intros Hl HT Hw (p & sf & Hp & Hk)%is_leaf_live Hc He. destruct pc as [c|].
  - destruct (Hc c eq_refl) as (q & Hq & Hqp & Hqk).
    assert (leaf ≠ c) as Hne by (intros ->; congruence).
    destruct (arrive_beside_ok l ts leaf c k T p sf q Hl HT Hw Hne Hp Hk Hq Hqp Hqk) as (l' & Hrun & Hdone).
    eexists l', _, []. split; [done|]. by split.
  - destruct (He eq_refl) as (tr & -> & Hs). destruct (arrive_root_ok l ts leaf k tr p sf Hl HT Hp Hk) as (l' & Hrun & Hdone).
    eexists l', _, [tr]. split; [done|]. split; [done|]. by constructor.
Qed.

(** ** The whole move *)

(** What a move to workspace [n] leaves: the pane in that workspace's tree and
    focused there, the active workspace still the active one, every hosted surface
    in its pane, no other workspace's tree touched, and the tree left with a fresh
    leaf in the pane's place where that was asked for. *)
Record sent (l l' : Layout) (ts ts' : list ptree) (n : Z) (keep_place : bool) : Prop := mkSent {
  st_here : number <$> workspaces l' !! active l' = number <$> workspaces l !! active l;
  st_there : ∃ k T w, k ≠ active l' ∧ ts' !! k = Some T ∧ focused l ∈ leaves T ∧ workspaces l' !! k = Some w ∧
    number w = n ∧ id_of l (focused l) = Some (ws_focused w);
  st_zoom : zoomed_id l' = None;
  st_faces s id sf : face l s = Some (id, Some sf) → face l' s = Some (id, Some sf);
  st_rest i T w : ts !! i = Some T → workspaces l !! i = Some w → i ≠ active l → number w ≠ n →
    ∃ i', ts' !! i' = Some T ∧ number <$> workspaces l' !! i' = Some (number w);
  st_keep : keep_place = true → ∃ C, ts !! active l = Some (plug C (TLeaf (focused l))) ∧
    ts' !! active l' = Some (plug C (TLeaf (focused l'))) }.

(** Focus, after the leaf has gone. *)
Definition focus_left (l : Layout) (pf : option nat) (r : nat) : outcome nat :=
  match pf with
  | Some f => Done f
  | None =>
      o ← first_unbackgrounded_leaf l r;
      match o with
      | Some f => Done f
      | None => o ← first_leaf l r; Done (default r o)
      end
  end.

Lemma focus_left_ok l ts T pf : skel l ts → ts !! active l = Some T → (∀ f, pf = Some f → f ∈ leaves T) →
  ∃ f, focus_left l pf (root_of T) = Done f ∧ f ∈ leaves T ∧ (is_Some pf → pf = Some f).
Proof.
  intros Hsk HT Hf. destruct pf as [f|]; cbn [focus_left]; [by eauto|].
  destruct (plug_rep l ts _ [] T (sk_trees _ _ Hsk) HT) as (_ & Ht & _ & Hsz).
  unfold first_unbackgrounded_leaf. rewrite (unbg_walk l T None) by (done || (unfold tree_fuel; cbn in Hsz; lia)). obind.
  destruct (head _) as [f|] eqn:Hh.
  - exists f. split; [done|]. split; [|intros [? [=]]].
    apply (list_elem_of_filter (λ s, bg_leaf l s = false)). destruct (filter _ _); [done|]. injection Hh as ->. by left.
  - destruct (first_leaf_spec l ts _ [] T (sk_trees _ _ Hsk) HT) as (s & -> & Hs). obind. exists s.
    split; [done|]. split; [by eapply follows_in|intros [? [=]]].
Qed.

Lemma upd_focused_ok xs l ts k T id : loose xs l ts → ts !! k = Some T →
  ∃ l' w, upd_ws l k (ws_set_focused id) = Done l' ∧ workspaces l !! k = Some w ∧ loose xs l' ts ∧
    workspaces l' = <[k := ws_set_focused id w]> (workspaces l) ∧ rest l' = rest l ∧ panes l' = panes l.
Proof.
  intros Hl HT. destruct (ws_lookup l ts k T (loose_skel _ _ _ Hl) HT) as (w & Hw & _).
  unfold upd_ws. rewrite Hw. cbn [unwrap mbind outcome_bind]. eexists _, w. split; [done|]. split; [done|].
  split; [|done]. destruct (wpart_fields l (set_workspaces (<[k := ws_set_focused id w]> (workspaces l)) l)) as [Hr Hn];
    [by apply wpart_insert|]. destruct Hl as [K1 K2 K3 K4 K5 K6 K7].
  split; [done|by rewrite Hr|by apply Hn|done|by eapply (local_meta l)|done|done].
Qed.

Lemma surface_face l s : leaf_surface l s = face l s ≫= snd.
Proof. unfold leaf_surface, face. destruct (get l s) as [p|]; [|done]. cbn. by destruct (kind p). Qed.

(** The state of a move once the leaf has arrived, from the panes in hand. *)
Lemma transit_ok l l1 ts ts1 n pf k pc C : prepared l l1 ts ts1 n pf k pc →
  (pf = None → is_Some (ctx_parent C)) → ts !! active l = Some (plug C (TLeaf (focused l))) →
  is_leaf l (focused l) = true →
  ∃ l2 T2 l3 T3 gone, leave_place l1 (focused l) pf (ctx_parent C) = Done l2 ∧ left_place l1 l2 ts1 (opt pc) (focused l) pf T2 ∧
    arrive l2 (focused l) k pc = Done l3 ∧ arrived l2 l3 (<[active l1 := T2]> ts1) (focused l) k T3 gone ∧
    Forall (λ s, leaf_surface l2 s = None) gone.
Proof.
  intros [P1 P2 P3 P4 [P5 P5'] P6 P7 P8 P9 P10] Hpf HT (p & sf & Hp & Hk)%is_leaf_live. destruct P1 as [Hl Hwd Hfoc Hlive].
  destruct (leave_place_ok l1 ts1 (opt pc) C (focused l) pf Hl Hwd Hfoc) as (l2 & T2 & Hrun & Hleft); [|done|by rewrite P3|].
  { intros f Hf. destruct (P8 f Hf) as (q & Hq & Hqp & Hqk & _). split; [|by eauto].
    destruct pc as [c|]; [|apply not_elem_of_nil]. intros ->%list_elem_of_singleton.
    destruct (P9 c eq_refl) as (q' & Hq' & _ & Hk' & _). congruence. }
  exists l2, T2. pose proof Hleft as (Hl2 & _ & _ & _ & Hfa2 & Hx2 & Hs2 & _).
  assert (∃ T, ts1 !! k = Some T) as [T HTk].
  { apply lookup_lt_is_Some_2. rewrite <-(ws_length l1 ts1) by apply (loose_skel _ _ _ Hl).
    apply lookup_lt_is_Some_1. by destruct (workspaces l1 !! k). }
  destruct (arrive_ok l2 (<[active l1 := T2]> ts1) (focused l) k T pc Hl2) as (l3 & T3 & gone & Hrun3 & Harr & Hgone).
  - by rewrite list_lookup_insert_ne.
  - exact (Forall_lookup_1 _ _ _ _ Hwd HTk).
  - unfold is_leaf. rewrite Hs2, P6, Hp by by eexists. cbn. by rewrite Hk.
  - intros c Hc. destruct (P9 c Hc) as (q & Hq & Hqp & Hqk & _). exists q. rewrite Hx2; [done|]. subst. by left.
  - intros Hn. destruct (P10 Hn) as (tr & Htr & Hs). exists tr. split; [congruence|].
    by rewrite surface_face, Hfa2, <-surface_face.
  - exists l3, T3, gone. by repeat (split; [done|]).
Qed.

(** The leaf recorded as the target's focus, and the focus left behind. *)
Definition land (l : Layout) (leaf k : nat) (pf : option nat) : outcome (Layout * bool) :=
  l ← upd_ws l k (ws_set_focused (default 0%Z (id_of l leaf)));
  r ← root l;
  f ← focus_left l pf r;
  l ← bump (set_zoomed_id None (set_focused f l));
  Done (l, true).

Lemma land_ok l ts leaf k Tk T pf : loose [] l ts → Forall wide ts → (epoch l < u_max 64)%Z → ts !! k = Some Tk →
  ts !! active l = Some T → (∀ f, pf = Some f → f ∈ leaves T) →
  ∃ l' w, land l leaf k pf = Done (l', true) ∧ inv l' ts ∧ epoch l' = (epoch l + 1)%Z ∧ active l' = active l ∧
    zoomed_id l' = None ∧ (∀ s, get l' s = get l s) ∧ workspaces l !! k = Some w ∧
    workspaces l' = <[k := ws_set_focused (default 0%Z (id_of l leaf)) w]> (workspaces l) ∧ (is_Some pf → pf = Some (focused l')).
Proof.
  intros Hl Hwd Hep HTk HT Hpf. unfold land.
  destruct (upd_focused_ok [] l ts k Tk (default 0%Z (id_of l leaf)) Hl HTk) as (l1 & w & -> & Hw & Hl1 & Hw1 & Hr1 & Hp1). obind.
  unfold rest in Hr1. injection Hr1 as Ra Rf Re Rz Rm Rp Rar Ri. pose proof (loose_skel _ _ _ Hl1) as Hsk1.
  destruct (shape_root l1 ts Hsk1) as (T' & HT' & ->). rewrite Ra, HT in HT'. injection HT' as <-. obind.
  destruct (focus_left_ok l1 ts T pf Hsk1) as (f & -> & Hf & Hpf'); [by rewrite Ra|done|]. obind.
  set (l2 := set_zoomed_id None (set_focused f l1)).
  assert (inv l2 ts) as Hinv2.
  { apply loose_inv; [|done|exists T; split; [by cbn; rewrite Ra|done]].
    destruct Hl1 as [K1 K2 K3 K4 K5 K6 K7]. split; try done. by eapply (local_meta l1). }
  destruct (inv_bump l2 ts Hinv2) as [-> Hb]; [cbn; lia|]. obind. eexists _, w. split; [done|]. split; [done|].
  split; [cbn; by rewrite Re|]. split; [done|]. split; [done|]. split; [intros s; unfold get; cbn; by rewrite Hp1|].
  split; [done|]. split; [done|]. intros H. by apply Hpf'.
Qed.

Lemma hosted_stays l l1 l2 l3 gone : (∀ s, is_Some (get l s) → get l1 s = get l s) → (∀ s, face l2 s = face l1 s) →
  (∀ s, s ∉ gone → face l3 s = face l2 s) → Forall (λ s, leaf_surface l2 s = None) gone →
  ∀ s id sf, face l s = Some (id, Some sf) → face l3 s = Some (id, Some sf).
Proof.
  intros H1 H2 H3 Hg s id sf Hf. assert (face l2 s = Some (id, Some sf)) as E.
  { rewrite H2, <-Hf. apply face_get, H1. unfold face in Hf. by destruct (get l s). }
  rewrite H3; [done|]. intros Hs. rewrite Forall_forall in Hg. specialize (Hg s Hs). by rewrite surface_face, E in Hg.
Qed.

Lemma id_face l s id sf : face l s = Some (id, sf) → id_of l s = Some id.
Proof. unfold face, id_of. destruct (get l s) as [p|]; [|done]. cbn. destruct (kind p); [|done]. by intros [= <- _]. Qed.

Lemma landed_ok l l1 l2 l3 ts ts1 n keep_place pf k pc T2 T3 gone : inv l ts → headroom l →
  prepared l l1 ts ts1 n pf k pc → left_place l1 l2 ts1 (opt pc) (focused l) pf T2 →
  arrived l2 l3 (<[active l1 := T2]> ts1) (focused l) k T3 gone → Forall (λ s, leaf_surface l2 s = None) gone →
  (∃ id sf, face l (focused l) = Some (id, Some sf)) → (pf = None → keep_place = false) →
  let ts' := <[k := T3]> (<[active l1 := T2]> ts1) in
  ∃ l', land l3 (focused l) k pf = Done (l', true) ∧ later 34 l l' ∧ inv l' ts' ∧ sent l l' ts ts' n keep_place.
Proof.
  intros Hinv Hroom [P1 P2 P3 P4 [P5 P5'] P6 P7 P8 P9 P10] (Hl2 & Hw2 & Hr2 & Hn2 & Hfa2 & Hx2 & Hs2 & Hkeep)
    (Hl3 & Hw3 & Hin3 & Hr3 & Hn3 & Hfa3) Hgone (id & sf & Hid) Hkp ts'.
  pose proof (hosted_stays l l1 l2 l3 gone P6 Hfa2 Hfa3 Hgone) as Hst.
  assert (active l1 < length ts1 ∧ k < length ts1) as [Ha1 Hk1].
  { pose proof (loose_skel _ _ _ (hd_loose _ _ _ P1)) as Hsk. split; [apply Hsk|]. rewrite <-(ws_length l1 ts1) by done.
    apply lookup_lt_is_Some_1. by destruct (workspaces l1 !! k). }
  rewrite Hr2 in Hr3. unfold rest in Hr3. injection Hr3 as Ra Rf Re Rz Rm Rp Rar Ri.
  unfold bearing in P2. injection P2 as Bf Be Bz Bm Bp Bar.
  assert (ts' !! active l1 = Some T2) as HT2 by (unfold ts'; by rewrite list_lookup_insert_ne, list_lookup_insert_eq).
  assert (ts' !! k = Some T3) as HT3 by (unfold ts'; by rewrite list_lookup_insert_eq by (by rewrite length_insert)).
  destruct (land_ok l3 ts' (focused l) k T3 T2 pf) as (l' & w & Hland & Hi & He & Ha & Hz & Hg & Hw & Hws & Hfo); try done.
  { apply Forall_insert; [|done]. apply Forall_insert; [apply P1|done]. }
  { unfold headroom in Hroom. lia. }
  { by rewrite Ra. }
  { intros f Hf. destruct (Hkeep f Hf) as (C & _ & ->). apply leaves_in_plug. by left. }
  assert (∀ i, number <$> workspaces l' !! i = number <$> workspaces l1 !! i) as Hnum.
  { intros i. rewrite <-!list_lookup_fmap, <-Hn2, <-Hn3, Hws, list_fmap_insert. f_equal. apply list_insert_id.
    by rewrite list_lookup_fmap, Hw. }
  exists l'. split; [done|]. split; [unfold later; lia|]. split; [done|]. split; [| |done| | |].
  - by rewrite Hnum, Ha, Ra, P4.
  - exists k, T3. eexists. split; [congruence|]. split; [done|]. split; [done|].
    split; [rewrite Hws; apply list_lookup_insert_eq; by eapply lookup_lt_Some|].
    split; [specialize (Hnum k); rewrite Hws, list_lookup_insert_eq, P5' in Hnum by (by eapply lookup_lt_Some); by injection Hnum|].
    rewrite (id_face _ _ _ _ Hid), (id_face _ _ _ _ (Hst _ _ _ Hid)). done.
  - intros s id' sf' Hs. rewrite (face_get l3 l') by done. by apply Hst.
  - intros i T wi HT Hwi Hne Hnn. destruct (P7 i T wi HT Hwi) as (i' & HT' & Hwi'). exists i'.
    rewrite Hnum, Hwi'. split; [|done]. unfold ts'. rewrite !list_lookup_insert_ne; [done| |].
    + intros <-. rewrite Hwi' in P4. destruct (workspaces l !! active l) as [wa|] eqn:Hwa; [|done]. injection P4 as P4.
      by apply Hne, (numbers_inj (workspaces l) i (active l) wi wa (sh_nums _ _ (inv_shape _ _ Hinv))).
    + intros <-. rewrite Hwi' in P5'. injection P5'. done.
  - intros E. destruct pf as [f|]; [|by specialize (Hkp eq_refl); congruence].
    destruct (Hkeep f eq_refl) as (C & HC & ->). exists C. rewrite Ha, Ra, HT2, <-P3.
    specialize (Hfo (ex_intro _ f eq_refl)). injection Hfo as <-. done.
Qed.

Lemma send_ok l ts n owner keep_place : inv l ts → headroom l → (0 ≤ n)%Z →
  ∃ l' b ts', move_focused_to_workspace l n owner keep_place = Done (l', b) ∧ later 34 l l' ∧ inv l' ts' ∧
    if b : bool then sent l l' ts ts' n keep_place else untouched l l' ∧ ts' = ts.
Proof.
  intros Hinv Hroom Hn. unfold move_focused_to_workspace.
  assert (∃ l' b ts', Done (l, false) = Done (l', b) ∧ later 34 l l' ∧ inv l' ts' ∧
    if b : bool then sent l l' ts ts' n keep_place else untouched l l' ∧ ts' = ts) as Hno.
  { exists l, false, ts. split; [done|]. split; [unfold later; lia|done]. }
  destruct (active_is l n) eqn:Hact; [done|].
  destruct (negb (is_leaf l (focused l)) || _ || _) eqn:Hguard; [done|].
  apply orb_false_iff in Hguard as [[Hlf%negb_false_iff Hsf%negb_false_iff]%orb_false_iff _].
  destruct (in_ws_range n); cbn [negb]; [|done].
  destruct (inv_focus _ _ Hinv) as (T & HT & Hf). destruct (find_leaf T _ Hf) as [C ->].
  destruct (is_leaf_live l _ Hlf) as (p & sf & Hp & Hk). rewrite Hp. cbn [mbind option_bind].
  destruct (plug_rep l ts _ C _ (shape_trees _ _ (inv_shape _ _ Hinv)) HT) as (_ & Ht & _ & _).
  inversion Ht as [? ? p' sf' Hp' Hpar _|]; subst. assert (p' = p) as -> by congruence. rewrite Hpar.
  destruct (prepare_ok l ts (focused l) (ctx_parent C) n owner keep_place Hinv Hn Hact) as (l1 & o & -> & Ho). obind.
  destruct o as [[[pf k] pc]|].
  2:{ destruct Ho as [Hun Hi1]. exists l1, false, ts. split; [done|]. split; [|done].
      destruct Hun as (Hb & _). unfold bearing in Hb. injection Hb as _ Be _ _ _ _. unfold later. lia. }
  destruct Ho as ((ts1 & Hprep) & Hpf).
  destruct (transit_ok l l1 ts ts1 n pf k pc C Hprep) as (l2 & T2 & l3 & T3 & gone & -> & Hleft & Harr & Hd & Hgone); try done.
  { intros E. by apply Hpf in E as [? _]. }
  obind. rewrite Harr. obind.
  destruct (landed_ok l l1 l2 l3 ts ts1 n keep_place pf k pc T2 T3 gone Hinv Hroom Hprep Hleft Hd Hgone)
    as (l' & Hland & Hlat & Hi & Hsent); [|by intros [_ ?]%Hpf|].
  { apply bool_decide_eq_true in Hsf as [sf0 Hsf]. rewrite surface_face in Hsf.
    destruct (face l (focused l)) as [[id sfo]|]; [|done]. cbn in Hsf. subst. eauto. }
  exists l', true. eexists. split; [exact Hland|]. by split.
Qed.

End PaneSend.
