(* ===== verification/PaneGrant.v ===== *)
(** * What is granted

    The pane table is the only resource the structural verbs compete for: with
    room in it a split whose target exists, a hosting and a send are granted.
    The lemmas follow a run that is known to return to the value it returns. *)

From stdpp Require Import strings sorting.
From S2P Require Import Prelude Geometry GeometryProofs Carve PaneData PaneTree PaneRep PaneWalks.
From S2P Require Import PaneInv PaneSplit PaneHost PaneFocus PaneClose PaneStamp PaneWork PaneMove PaneSend.
Import Geometry GeometryProofs PaneData PaneTree PaneRep PaneWalks PaneInv PaneSplit PaneHost PaneFocus
  PaneClose PaneStamp PaneWork PaneMove PaneSend.
Open Scope nat_scope.

Module PaneGrant.

(** [k] panes can be made. *)
Definition room (l : Layout) (k : nat) : Prop :=
  live_count l + k ≤ MAX_PANES ∧ (id_seq l + Z.of_nat k ≤ u_max 32)%Z.

(** Read off the value of a chain of binds known to be done. *)
Ltac returned H :=
  repeat match type of H with
  | mbind _ ?A = Done _ => destruct A as [?| |]; [|done..]; cbn [mbind outcome_bind] in H
  | (let '(_, _) := ?x in _) = Done _ => destruct x as [? ?]
  | match ?x with (_, _) => _ end = Done _ => destruct x as [? ?]
  end.

Lemma live_set (ps : list (option Pane)) i p : ps !! i = Some None →
  length (filter is_Some (<[i := Some p]> ps)) = S (length (filter is_Some ps)).
Proof.
  revert i. induction ps as [|o ps IH]; intros [|i] Hi; try done.
  - injection Hi as ->. cbn [insert list_insert].
    rewrite filter_cons_True, filter_cons_False by (done || by intros [? [=]]). done.
  - change (<[S i := Some p]> (o :: ps)) with (o :: <[i := Some p]> ps). rewrite !filter_cons.
    case_decide; cbn [length]; by rewrite IH.
Qed.

Lemma alloc_grants l par k n : room l (S n) → ∃ l' s, alloc l par k = Some (l', s) ∧ room l' n.
Proof.
  intros [Hl Hi]. unfold alloc. rewrite (proj2 (Nat.leb_gt _ _)) by lia.
  unfold checked_add. rewrite (proj2 (Z.leb_le _ _)) by lia. cbn [mbind option_bind].
  change (panes (set_id_seq _ l)) with (panes l). unfold room, live_count in *.
  destruct (position _ (panes l)) as [i|] eqn:Hpos; eexists _, _; (split; [reflexivity|]); cbn [panes set_panes id_seq set_id_seq].
  - apply position_Some in Hpos as (o & Ho & ->%bool_decide_eq_true). rewrite (live_set _ _ _ Ho). lia.
  - rewrite filter_app, length_app, filter_cons_True by done. cbn. lia.
Qed.

(** ** Splitting and hosting *)

(** A refused split uses up at most one id: a nest that has room for its container and
    not for its leaf. *)
Lemma alloc_seq l par k l' s : alloc l par k = Some (l', s) → id_seq l' = (id_seq l + 1)%Z.
Proof.
  unfold alloc, checked_add. destruct (_ <=? _); [done|]. destruct (_ <=? _)%Z; [|done]. cbn [mbind option_bind]. intros [= H].
  by destruct (position _ _); injection H as <- _.
Qed.
Lemma clear_slot_seq l s l' : clear_slot l s = Done l' → id_seq l' = id_seq l.
Proof. unfold clear_slot. repeat case_match; try done. by intros [= <-]. Qed.
Lemma nest_refused l slot p mode l' : split_nest l slot p mode = Done (l', None) → (id_seq l ≤ id_seq l' ≤ id_seq l + 1)%Z.
Proof.
  unfold split_nest. intros H. destruct (alloc l _ _) as [[l1 c]|] eqn:E1; [|injection H as <-; lia]. apply alloc_seq in E1.
  destruct (alloc l1 _ _) as [[l2 n]|] eqn:E2; [by returned H|].
  destruct (clear_slot l1 c) as [l2| |] eqn:E3; [|done..]. apply clear_slot_seq in E3. cbn [mbind outcome_bind] in H. injection H as <-. lia.
Qed.
Lemma split_refused l slot mode l' : split l slot mode = Done (l', None) → (id_seq l ≤ id_seq l' ≤ id_seq l + 1)%Z.
Proof.
  unfold split. intros H. destruct (negb _); [injection H as <-; lia|]. destruct (split_target _ _ _) as [o| |]; [|done..]. cbn [mbind outcome_bind] in H.
  destruct o as [s|]; [|injection H as <-; lia]. destruct (get l s) as [p|]; [|injection H as <-; lia].
  destruct (parent p) as [pi|]; [|by eapply nest_refused]. destruct (get l pi) as [q|]; [|injection H as <-; lia].
  destruct (kind q); [by eapply nest_refused|]. case_decide; [|by eapply nest_refused].
  unfold split_flatten in H. destruct (sibling_mean _ _) as [w| |]; [|done..]. cbn [mbind outcome_bind] in H.
  destruct (alloc _ _ _) as [[l1 c]|]; [by returned H|]. injection H as <-. lia.
Qed.
(** A leaf whose split has a target is split. *)
Lemma split_grants l ts slot mode s' l' o : inv l ts → is_leaf l slot = true → split_target l slot mode = Done (Some s') →
  room l 2 → split l slot mode = Done (l', o) → is_Some o.
Proof.
  intros Hinv Hlf Ht Hr He. unfold split in He. rewrite Hlf, Ht in He. cbn [negb mbind outcome_bind] in He.
  destruct (is_leaf_live l slot Hlf) as (p & sf & Hp & _).
  destruct (heap_find l ts slot p (sh_heap _ _ (inv_shape _ _ Hinv)) Hp) as (i & C & t & Hi & <-).
  pose proof (shape_trees _ _ (inv_shape _ _ Hinv)) as Htr.
  destruct (split_target_ok l ts i C t mode Htr Hi) as (o' & Ho' & Hs). rewrite Ht in Ho'. injection Ho' as <-.
  destruct (Hs s' eq_refl) as (C' & t' & HT & <- & _). rewrite HT in Hi.
  destruct (plug_rep l ts i C' t' Htr Hi) as (Hc & Hrep & _ & _). apply rep_par in Hrep as (q & Hq & Hpar).
  rewrite Hq, Hpar in He.
  assert (∀ p0, split_nest l (root_of t') p0 mode = Done (l', o) → is_Some o) as Hnest.
  { intros p0 Hn. unfold split_nest in Hn.
    destruct (alloc_grants l (parent p0) (Container mode [] 1) 1 Hr) as (l1 & c & E1 & Hr1). rewrite E1 in Hn.
    destruct (alloc_grants l1 (Some c) (Leaf None) 0 Hr1) as (l2 & s & E2 & _). rewrite E2 in Hn.
    returned Hn. injection Hn as _ <-. by eexists. }
  destruct C' as [|f C']; cbn [ctx_parent head fmap option_fmap option_map] in He; [by eapply Hnest|].
  destruct (crep_head _ _ _ _ Hc) as (qf & m & a & Hqf & _ & Hkf & _). rewrite Hqf, Hkf in He.
  destruct (decide (m = mode)); [|by eapply Hnest]. unfold split_flatten in He.
  destruct (sibling_mean l (fr_slot f)) as [w| |]; [|done..]. cbn [mbind outcome_bind] in He.
  assert (room l 1) as Hr1 by (unfold room in *; lia).
  destruct (alloc_grants l (Some (fr_slot f)) (Leaf None) 0 Hr1) as (l1 & s & E1 & _). rewrite E1 in He.
  returned He. injection He as _ <-. by eexists.
Qed.

(** Under the plain profile a surface always finds a pane; an empty focused pane
    nobody reserved takes it under either. *)
Lemma host_grants l ts n conn peer l' o : inv l ts → host_for l n conn peer = Done (l', o) →
  (conn = 0%Z → is_empty_leaf l (focused l) = true → o = Some (focused l)) ∧
  (profile l = Legacy → room l 2 → is_Some o).
Proof.
  intros Hinv He. unfold host_for in He. split.
  - intros -> Hem. cbn [Z.eqb negb andb] in He. rewrite Hem in He. returned He. by injection He.
  - intros Hprof Hr. destruct (negb _ && _); [returned He; injection He as _ <-; by eexists|].
    destruct (inv_focus _ _ Hinv) as (T & HT & Hf).
    destruct (leaf_kind (get l) ts T (focused l) (shape_trees _ _ (inv_shape _ _ Hinv))) as (p & sf & Hp & Hk);
      [by eapply list_elem_of_lookup_2|done|].
    rewrite Hp in He. unfold host_mode in He. rewrite decide_False in He by congruence. cbn [mbind outcome_bind] in He.
    set (mode := if (_ <=? _)%Z then SplitH else SplitV) in He.
    destruct (split l (focused l) mode) as [[l1 o1]| |] eqn:Hs; [|done..]. cbn [mbind outcome_bind] in He.
    destruct (split_grants l ts (focused l) mode (focused l) l1 o1 Hinv) as [leaf ->]; [| |done|done|].
    + unfold is_leaf. rewrite Hp. cbn. by rewrite Hk.
    + unfold split_target. by rewrite decide_False by congruence.
    + returned He. injection He as _ <-. by eexists.
Qed.

(** ** Sending *)

(** Workspace numbers are too few to fill the list without [n]. *)
Lemma numbers_free (ws : list Workspace) (n : Z) : numbers_ok ws → (1 ≤ n ≤ 9)%Z → (∀ w, w ∈ ws → number w ≠ n) →
  length ws < MAX_WORKSPACES.
Proof.
  intros [Hs Hb] Hn Hne. assert (NoDup (n :: (number <$> ws))) as Hnd.
  { constructor; [intros (w & Hw & Hin)%list_elem_of_fmap; by apply (Hne w)|].
    clear -Hs. induction (number <$> ws) as [|m ns IH]; [constructor|].
    apply StronglySorted_inv in Hs as [Hs Hf]. constructor; [|auto]. intros Hm.
    rewrite Forall_forall in Hf. specialize (Hf m Hm). lia. }
  assert (length (n :: (number <$> ws)) ≤ length (seqZ 1 9)) as Hlen.
  { apply submseteq_length, NoDup_submseteq; [done|]. intros x [->|(w & -> & Hw)%list_elem_of_fmap]%elem_of_cons;
      apply elem_of_seqZ; [lia|]. rewrite Forall_forall in Hb. specialize (Hb w Hw). cbn in Hb. lia. }
  cbn [length] in Hlen. rewrite length_fmap, length_seqZ in Hlen. unfold MAX_WORKSPACES. lia.
Qed.

Definition sendable (l : Layout) (n : Z) : Prop :=
  (1 ≤ n ≤ 9)%Z ∧ active_is l n = false ∧ is_Some (leaf_surface l (focused l)) ∧ is_bg_leaf l (focused l) = false.

Lemma live_reset (ps : list (option Pane)) i p q : ps !! i = Some (Some p) →
  length (filter is_Some (<[i := Some q]> ps)) = length (filter is_Some ps).
Proof.
  revert i. induction ps as [|o ps IH]; intros [|i] Hi; try done.
  - injection Hi as ->. cbn [insert list_insert]. by rewrite !filter_cons_True.
  - change (<[S i := Some q]> (o :: ps)) with (o :: <[i := Some q]> ps). rewrite !filter_cons.
    case_decide; cbn [length]; by rewrite IH.
Qed.
Lemma room_upd l s f k : room l k → room (upd l s f) k.
Proof.
  intros [Hl Hi]. split; [|by rewrite id_seq_upd]. unfold live_count, upd in *. destruct (get l s) as [p|] eqn:Hp; [|done].
  cbn [panes set_panes]. rewrite (live_reset _ _ p); [done|]. unfold get in Hp. by destruct (panes l !! s) as [[]|]; simplify_eq/=.
Qed.

Lemma in_range n : (1 ≤ n ≤ 9)%Z → in_ws_range n = true.
Proof.
  intros Hn. unfold in_ws_range, MAX_WORKSPACES. apply andb_true_iff.
  split; [apply negb_true_iff, Z.eqb_neq; lia|apply Nat.leb_le; lia].
Qed.

Lemma ensure_grants l n owner k l' o : local_ok l → numbers_ok (workspaces l) → (1 ≤ n ≤ 9)%Z → room l (S k) →
  ensure_workspace l n owner = Done (l', o) → is_Some o ∧ room l' k.
Proof.
  intros Hloc Hnum Hn Hr He. unfold ensure_workspace in He.
  pose proof (in_range n Hn) as Hin.
  rewrite Hin in He. cbn [negb] in He. destruct (position _ (workspaces l)) as [i|] eqn:Hpos.
  { injection He as <- <-. split; [by eexists|]. unfold room in *. lia. }
  apply position_None in Hpos. rewrite Forall_forall in Hpos.
  rewrite (proj2 (Nat.leb_gt _ _)) in He by (eapply (numbers_free _ n); [done..|intros w Hw; apply Z.eqb_neq; auto]).
  destruct (alloc_grants l None (Leaf None) k Hr) as (l1 & r & E1 & Hr1). rewrite E1 in He.
  destruct (alloc_spec l None (Leaf None) l1 r Hloc E1) as [(_ & _ & _ & Hg) _].
  unfold id_of in He. rewrite Hg, decide_True in He by done. cbn [fmap option_fmap option_map] in He.
  returned He. injection He as <- <-. split; [by eexists|].
  assert (room (upd (set_owner l1 r owner) r (set_fresh true)) k) as Hr2 by by apply room_upd, room_upd.
  by destruct (_ <=? _).
Qed.

Lemma prepare_grants l ts leaf par n owner keep_place l' o : inv l ts → (1 ≤ n ≤ 9)%Z → room l 3 →
  move_prepare l leaf par n owner keep_place = Done (l', o) → is_Some o.
Proof.
  intros Hinv Hn Hr He. unfold move_prepare in He. fold (hoist l par owner keep_place) in He.
  assert (∃ l1 pf, hoist l par owner keep_place = Some (l1, pf) ∧ room l1 2) as (l1 & pf & Hho & Hr1).
  { unfold hoist. destruct (_ && _); [exists l, None; split; [done|unfold room in *; lia]|].
    destruct (alloc_grants l None (Leaf None) 2 Hr) as (l1 & f & -> & Hr1). eexists _, _. split; [reflexivity|].
    by apply room_upd, room_upd. }
  destruct (hoist_ok l ts par owner keep_place l1 pf Hinv Hho) as (Hh1 & _). rewrite Hho in He.
  destruct (ensure_workspace l1 n owner) as [[l2 ok]| |] eqn:Hen; [|done..]. cbn [mbind outcome_bind] in He.
  destruct (ensure_grants l1 n owner 1 l2 ok) as [[k ->] Hr2]; [apply Hh1|apply Hh1|done|done|done|].
  destruct (unwrap (workspaces l2 !! k)) as [w| |]; [|done..]. cbn [mbind outcome_bind] in He.
  match type of He with mbind _ ?A = _ => destruct A as [[]| |] end; [| |done..]; cbn [mbind outcome_bind] in He.
  - injection He as _ <-. by eexists.
  - destruct (alloc_grants l2 None (Container SplitH [] 0) 0 Hr2) as (l3 & c & E3 & _). rewrite E3 in He.
    injection He as _ <-. by eexists.
Qed.

Lemma send_grants l ts n owner keep_place l' b : inv l ts → sendable l n → room l 3 →
  move_focused_to_workspace l n owner keep_place = Done (l', b) → b = true.
Proof.
  intros Hinv (Hn & Hact & Hsf & Hbg) Hr He. unfold move_focused_to_workspace in He.
  assert (is_leaf l (focused l) = true) as Hlf.
  { destruct (inv_focus _ _ Hinv) as (T & HT & Hf). unfold leaf_surface in Hsf. unfold is_leaf.
    by destruct (kind <$> get l (focused l)) as [[]|]; destruct Hsf. }
  pose proof (in_range n Hn) as Hin.
  rewrite Hact, Hlf, Hbg, Hin, bool_decide_eq_true_2 in He by done. cbn [negb orb] in He.
  destruct (move_prepare l _ _ n owner keep_place) as [[l1 o]| |] eqn:Hp; [|done..]. cbn [mbind outcome_bind] in He.
  destruct (prepare_grants l ts _ _ n owner keep_place l1 o Hinv Hn Hr Hp) as [[[pf k] pc] ->].
  returned He. by injection He.
Qed.

End PaneGrant.
