(* ===== verification/PaneGeom.v ===== *)
(** * The carve: every pane inside its rectangle, no two visible leaves overlapping

    Both layouts of the tree, the legacy equal division and the Instrument
    carve, return for every layout with the invariant over a display-sized area,
    change only the geometry of panes, keep every rectangle they write inside
    the one they divide, and give distinct visible leaves disjoint rectangles. *)

From stdpp Require Import strings sorting.
From S2P Require Import Prelude Geometry GeometryProofs Carve CarveProofs PaneData PaneTree PaneCarve.
From S2P Require Import PaneRep PaneWalks PaneInv PaneSplit PaneHost PaneFocus PaneClose PaneStamp.
From S2P Require Import PaneWork.
Import Geometry GeometryProofs PaneData PaneTree PaneCarve PaneRep PaneWalks PaneInv PaneSplit PaneHost PaneFocus
  PaneClose PaneStamp PaneWork.
Open Scope nat_scope.

Module PaneGeom.

(** ** Areas *)

(** A rectangle of a display: its far corner within 2^20. *)
Definition small (r : Rect) : Prop :=
  rect_ok r ∧ (rx r + rw r ≤ 2 ^ 20)%Z ∧ (ry r + rh r ≤ 2 ^ 20)%Z.

(** A region of points, and the rectangles inside it. *)
Notation region := (Z → Z → Prop).
Definition inside (P : region) (r : Rect) : Prop := ∀ x y, in_rect r x y → P x y.

(** ** The children a division goes over *)

Definition in_front (l : Layout) (t : ptree) : bool := negb (forallb (bg_leaf l) (leaves t)).

Lemma filterM_roots (f : nat → outcome bool) (b : ptree → bool) ts :
  (∀ t, t ∈ ts → f (root_of t) = Done (b t)) →
  filterM f (roots ts) = Done (roots (filter (λ t, b t = true) ts)).
Proof.
  induction ts as [|t ts IH]; intros H; [done|]. rewrite fmap_cons, filter_cons. cbn [filterM].
  rewrite H by set_solver. obind. rewrite IH by set_solver. obind.
  destruct (b t); [rewrite decide_True by done|rewrite decide_False by done]; done.
Qed.

Section front.
Context (l : Layout) (par : option nat) (ts : list ptree).
Context (Hts : Forall (rep (get l) par) ts) (Hsz : ∀ t, t ∈ ts → length (nodes t) ≤ tree_fuel l).

Lemma bg_kid t : t ∈ ts → is_bg_subtree l (root_of t) = Done (negb (in_front l t)).
Proof using Hts Hsz.
  intros Ht. rewrite Forall_forall in Hts. unfold is_bg_subtree, in_front.
  rewrite (bg_walk l t par) by auto. by rewrite negb_involutive.
Qed.
Lemma effective_roots : effective l (roots ts) = Done (roots (filter (λ t, in_front l t = true) ts)).
Proof using Hts Hsz.
  apply filterM_roots. intros t Ht. rewrite bg_kid by done. cbn. by rewrite negb_involutive.
Qed.
Lemma divide_roots : ∃ us, divide_list l (roots ts) = Done (roots us) ∧ us `sublist_of` ts ∧ (ts ≠ [] → us ≠ []).
Proof using Hts Hsz.
  unfold divide_list. pose proof effective_roots as He. unfold effective in He. rewrite He. obind.
  destruct (filter _ ts) as [|t us] eqn:Hf.
  - exists ts. done.
  - exists (t :: us). rewrite <-Hf. split; [by rewrite Hf|]. split; [apply sublist_filter|by rewrite Hf].
Qed.
Lemma shown_root act : act < length ts →
  ∃ o, shown_child l (roots ts) (roots (filter (λ t, in_front l t = true) ts)) act = Done (root_of <$> o) ∧
    ∀ t, o = Some t → t ∈ ts.
Proof using Hts Hsz.
  intros Ha. destruct (lookup_lt_is_Some_2 ts act Ha) as [t Ht]. unfold shown_child.
  rewrite !list_lookup_fmap, Ht. cbn [fmap option_fmap option_map].
  rewrite bg_kid by (by eapply list_elem_of_lookup_2). obind.
  destruct (in_front l t); cbn [negb].
  - exists (Some t). split; [done|]. intros u [= <-]. by eapply list_elem_of_lookup_2.
  - exists (filter (λ t, in_front l t = true) ts !! 0). split; [done|]. intros u Hu.
    apply list_elem_of_lookup_2, list_elem_of_filter in Hu. tauto.
Qed.
End front.

(** ** The minima are bounded *)

Definition bounded (n : nat) (v : Z) : Prop := (0 ≤ v ≤ 2 ^ 21 * Z.of_nat n - 2 ^ 20)%Z.
Definition bounded2 (t : ptree) (p : Z * Z) : Prop :=
  bounded (length (nodes t)) p.1 ∧ bounded (length (nodes t)) p.2.

Lemma nodes_bind_sublist (us ts : list ptree) : us `sublist_of` ts →
  length (us ≫= nodes) ≤ length (ts ≫= nodes).
Proof. induction 1; rewrite ?bind_cons, ?length_app; cbn; lia. Qed.
Lemma length_le_nodes (us : list ptree) : length us ≤ length (us ≫= nodes).
Proof.
  induction us as [|t us IH]; [done|]. rewrite bind_cons, length_app. pose proof (nodes_nonempty t). cbn. lia.
Qed.

Lemma axis_sums horiz ps us ax : Forall2 bounded2 us ps → (0 ≤ ax.1)%Z → (0 ≤ ax.2)%Z →
  let s := fold_left (λ ax p, let q := on_axis horiz p in (sat_add 32 ax.1 q.1, Z.max ax.2 q.2)) ps ax in
  (0 ≤ s.1 ≤ ax.1 + 2 ^ 21 * Z.of_nat (length (us ≫= nodes)) - 2 ^ 20 * Z.of_nat (length us))%Z ∧
  (0 ≤ s.2 ≤ Z.max ax.2 (2 ^ 21 * Z.of_nat (length (us ≫= nodes)) - 2 ^ 20))%Z.
Proof.
  intros HF. revert ax. induction HF as [|t p us ps [H1 H2] HF IH]; intros ax Ha Hb; cbn [fold_left].
  { cbn. lia. }
  assert (∃ q, on_axis horiz p = q ∧ bounded (length (nodes t)) q.1 ∧ bounded (length (nodes t)) q.2)
    as (q & -> & Hq1 & Hq2) by (destruct p, horiz; eauto).
  unfold bounded in *. destruct (IH (sat_add 32 ax.1 q.1, Z.max ax.2 q.2)) as [I1 I2]; cbn [fst snd] in *.
  { unfold sat_add, u_max. lia. }
  { lia. }
  rewrite bind_cons, length_app. cbn [length].
  assert (sat_add 32 ax.1 q.1 ≤ ax.1 + q.1)%Z by (unfold sat_add; lia). lia.
Qed.

Section minima.
Context (l : Layout) (Hm : metrics_ok (metrics l)) (fuel : nat).
Let rec c := min_size_hyp_f l fuel c None.

Lemma parts_bounded us mode lm acc : (∀ t, t ∈ us → ∃ p, rec (root_of t) = Done p ∧ bounded2 t p) →
  ∃ ps, foldM (split_part rec rec lm None mode) acc (roots us) = Done (acc ++ ps) ∧ Forall2 bounded2 us ps.
Proof.
  revert acc. induction us as [|t us IH]; intros acc Hus.
  - exists []. rewrite app_nil_r. by split; [|constructor].
  - rewrite fmap_cons. cbn [foldM]. unfold split_part at 2. cbn [hyp_mode].
    destruct (Hus t) as (p & -> & Hp); [by left|]. obind.
    destruct (IH (acc ++ [p])) as (ps & -> & Hps); [intros; apply Hus; by right|].
    exists (p :: ps). rewrite <-app_assoc. split; [done|]. by constructor.
Qed.

Lemma tiles_bounded us mode n w b : (∀ t, t ∈ us → ∃ p, rec (root_of t) = Done p ∧ bounded2 t p) →
  (0 ≤ w)%Z → (0 ≤ b)%Z →
  ∃ w' b', foldM (tile_step l rec None mode) (n, w, b) (roots us) = Done (n, w', b') ∧
    (0 ≤ w' ≤ Z.max w (2 ^ 21 * Z.of_nat (length (us ≫= nodes)) - 2 ^ 20 + 2 ^ 16))%Z ∧
    (0 ≤ b' ≤ Z.max b (2 ^ 21 * Z.of_nat (length (us ≫= nodes)) - 2 ^ 20))%Z.
Proof using Hm.
  revert w b. induction us as [|t us IH]; intros w b Hus Hw Hb.
  { exists w, b. split; [done|]. cbn. lia. }
  rewrite fmap_cons. cbn [foldM]. unfold tile_step at 2. cbn [hyp_mode is_hyp negb].
  rewrite andb_true_r, bind_cons, length_app.
  destruct (is_leaf l (root_of t)); obind.
  - destruct (IH w b) as (w' & b' & -> & H1 & H2); [intros; apply Hus; by right|done|done|].
    exists w', b'. split; [done|]. lia.
  - destruct (Hus t) as ([cw ch] & -> & [Hp1 Hp2]); [by left|]. obind.
    unfold bounded in *. cbn [fst snd] in *.
    assert (mf l = Geometry.frame (metrics l)) as -> by (apply px_of_ok, Hm).
    assert (length_ok (Geometry.frame (metrics l))) as Hf by apply Hm. unfold length_ok in Hf.
    rewrite umul_ok by (unfold u_max; lia). obind.
    destruct (IH (Z.max w (sat_add 32 cw (2 * Geometry.frame (metrics l)))) (Z.max b ch)) as (w' & b' & -> & H1 & H2);
      [intros; apply Hus; by right|unfold sat_add, u_max; lia..|].
    exists w', b'. split; [done|]. unfold sat_add in H1. lia.
Qed.
End minima.

Lemma stack_min_h_bound n header sep body f : length_ok header → length_ok sep → length_ok f →
  n ≤ 32 → (0 ≤ body)%Z →
  ∃ h, Carve.stack_min_h n header sep body f = Done h ∧ (0 ≤ h ≤ 2 ^ 17 + Z.of_nat n * 2 ^ 15 + body)%Z.
Proof.
  unfold length_ok. intros H1 H2 H3 Hn Hb. unfold Carve.stack_min_h.
  rewrite umul_ok by (unfold u_max; lia). obind. eexists. split; [done|].
  rewrite as_u_small by (unfold in_u; lia).
  assert (0 ≤ Z.of_nat n * header ≤ Z.of_nat n * 2 ^ 15)%Z by nia.
  unfold sat_add, sat_mul, u_max. destruct (1 <? n); lia.
Qed.

Lemma min_bound l t par fuel : rep (get l) par t → metrics_ok (metrics l) →
  length (nodes t) ≤ fuel → length (nodes t) ≤ tree_fuel l → length (nodes t) ≤ 32 →
  ∃ p, min_size_hyp_f l fuel (root_of t) None = Done p ∧ bounded2 t p.
Proof.
  intros Hr Hm. revert par fuel Hr. pose proof Hm as (_ & Hsep & Hhdr & _ & _ & Htr & Hfr & Hpw & Hbh).
  induction t as [s|s ts IH] using ptree_rect'; intros par [|fuel] Hr Hsz Htf H32; try (cbn in Hsz; lia);
    cbn [min_size_hyp_f root_of]; unfold mhdr, msep, mbody_h, mf, mpane_w, mt; rewrite !px_of_ok by done;
    (destruct (stack_min_h_bound 1 (header_h (metrics l)) (hairline (metrics l)) (min_body_h (metrics l))
      (Geometry.frame (metrics l))) as (h & -> & Hh); [done|done|done|lia|apply Hbh|]); obind;
    unfold length_ok in *.
  - inversion Hr as [? ? p sf Hg Hp Hk|]; subst. rewrite Hg. cbn [fmap option_fmap option_map]. rewrite Hk.
    eexists. split; [done|]. unfold bounded2, bounded. cbn. lia.
  - inversion Hr as [|? ? p m a ? Hg Hp Hk Ha Hts]; subst. rewrite Hg. cbn [fmap option_fmap option_map].
    rewrite Hk. cbn [is_hyp].
    assert (∀ t, t ∈ ts → length (nodes t) < length (nodes (TNode s ts))) as Hlt.
    { intros t Ht. apply list_elem_of_split in Ht as (l1 & l2 & ->).
      cbn. rewrite bind_app, bind_cons, !length_app. lia. }
    destruct (divide_roots l (Some s) ts Hts) as (us & -> & Hsub & Hne).
    { intros t Ht. specialize (Hlt t Ht). lia. }
    obind.
    assert (∀ t, t ∈ us → ∃ p, min_size_hyp_f l fuel (root_of t) None = Done p ∧ bounded2 t p) as Hrec.
    { intros t Ht. apply (elem_of_sublist _ _ _ Ht) in Hsub as Ht'. rewrite Forall_forall in IH, Hts.
      specialize (Hlt t Ht'). apply (IH t Ht' (Some s)); [by apply Hts|lia..]. }
    pose proof (nodes_bind_sublist us ts Hsub) as HN. pose proof (length_le_nodes us) as HU.
    cbn in H32. unfold bounded2, bounded. cbn [nodes length].
    assert (1 ≤ length us) as H1.
    { destruct us; [|cbn; lia]. exfalso. apply Hne; [|done]. by intros ->; cbn in Ha; lia. }
    assert (∀ md, md = SplitH ∨ md = SplitV → ∃ q, (parts ← foldM (split_part (λ c, min_size_hyp_f l fuel c None)
          (λ c, min_size_hyp_f l fuel c None) (min_pane_w (metrics l), h) None md) [] (roots us);
        let n := as_u 32 (zlen parts) in
        let s := fold_left (λ ax p, let q := on_axis (bool_decide (md = SplitH)) p in
                   (sat_add 32 ax.1 q.1, Z.max ax.2 q.2)) parts (0, 0)%Z in
        let along := sat_add 32 s.1 (sat_mul 32 (sat_sub n 1) (track (metrics l))) in
        Done (if bool_decide (md = SplitH) then (along, s.2) else (s.2, along))) = Done q ∧
        (0 ≤ q.1 ≤ 2 ^ 21 * Z.of_nat (S (length (ts ≫= nodes))) - 2 ^ 20)%Z ∧
        (0 ≤ q.2 ≤ 2 ^ 21 * Z.of_nat (S (length (ts ≫= nodes))) - 2 ^ 20)%Z) as Hsplit.
    { intros md _. destruct (parts_bounded l fuel us md (min_pane_w (metrics l), h) [] Hrec) as (ps & -> & Hps).
      cbn [mbind outcome_bind app]. pose proof (Forall2_length _ _ _ Hps) as Hlen.
      destruct (axis_sums (bool_decide (md = SplitH)) ps us (0, 0)%Z Hps) as [S1 S2]; [done|done|].
      set (sm := fold_left _ _ _) in *. cbn [fst snd] in S1, S2. rewrite as_u_small by (unfold in_u; lia).
      assert (0 ≤ sat_sub (zlen ps) 1 * track (metrics l) ≤ 2 ^ 20)%Z by (unfold sat_sub; nia).
      eexists. split; [done|]. unfold sat_add, sat_mul, u_max. destruct (bool_decide (md = SplitH)); cbn; lia. }
    destruct m; [by apply Hsplit; auto..| |].
    + destruct (tiles_bounded l Hm fuel us Tabbed (length (roots us)) (min_pane_w (metrics l))
        (min_body_h (metrics l)) Hrec) as (w' & b' & -> & W & B); [lia..|]. obind.
      destruct (stack_min_h_bound 1 (header_h (metrics l)) (hairline (metrics l)) b'
        (Geometry.frame (metrics l))) as (h' & -> & Hh'); [done|done|done|lia|lia|]. cbn.
      eexists. split; [done|]. cbn. lia.
    + destruct (tiles_bounded l Hm fuel us Stacked (length (roots us)) (min_pane_w (metrics l))
        (min_body_h (metrics l)) Hrec) as (w' & b' & -> & W & B); [lia..|]. obind.
      destruct (stack_min_h_bound (length (roots us)) (header_h (metrics l)) (hairline (metrics l)) b'
        (Geometry.frame (metrics l))) as (h' & -> & Hh'); [done|done|done|rewrite length_fmap; lia|lia|].
      rewrite length_fmap in Hh'. cbn. eexists. split; [done|]. cbn. lia.
Qed.

(** ** The spans of a division follow one another *)

Fixpoint chain (lo hi : Z) (spans : list Carve.Span) : Prop :=
  match spans with
  | [] => True
  | sp :: spans =>
      (lo ≤ Carve.start sp ≤ Carve.span_end sp)%Z ∧ (Carve.span_end sp ≤ hi)%Z ∧
      chain (Carve.span_end sp) hi spans
  end.

Lemma chain_lo lo lo' hi spans : (lo ≤ lo')%Z → chain lo' hi spans → chain lo hi spans.
Proof. destruct spans; cbn; [done|]. intros H (? & ? & ?). split; [lia|done]. Qed.

Lemma chain_boundaries den t num exts hi : (0 < den)%Z → (0 ≤ t)%Z → Forall (λ e, 0 ≤ e)%Z exts → (0 ≤ num)%Z →
  (Carve.snap den (num + CarveProofs.total_ext den t exts) ≤ hi)%Z → (hi ≤ u_max 32)%Z →
  chain (Carve.snap den num) hi (Carve.spans_of t (Carve.boundaries den t num exts)).
Proof.
  intros Hd Ht HF Hnum Hhi Hmax. revert num Hnum Hhi.
  induction HF as [|e exts He HF IH]; intros num Hnum Hhi; [done|]. cbn [Carve.boundaries].
  assert (0 ≤ t * den)%Z by nia.
  set (num' := (num + (e + t * den))%Z).
  assert (num + CarveProofs.total_ext den t (e :: exts) = num' + CarveProofs.total_ext den t exts)%Z as Htot.
  { unfold num', CarveProofs.total_ext. rewrite fmap_cons, CarveProofs.zsum_cons. lia. }
  rewrite Htot in Hhi. specialize (IH num' ltac:(unfold num'; lia) Hhi).
  destruct (CarveProofs.boundaries_head den t num' exts) as [r Hr]. rewrite Hr in IH |- *.
  rewrite CarveProofs.spans_of_cons.
  assert (Carve.snap den num + t ≤ Carve.snap den num')%Z as Hstep.
  { unfold num'. rewrite Z.add_assoc, CarveProofs.snap_add by done.
    pose proof (CarveProofs.snap_mono den num (num + e) Hd). lia. }
  pose proof (CarveProofs.snap_nonneg den num Hd Hnum).
  assert (Carve.snap den num' ≤ Carve.snap den (num' + CarveProofs.total_ext den t exts))%Z.
  { apply CarveProofs.snap_mono; [done|]. rewrite CarveProofs.total_ext_eq.
    assert (0 ≤ Carve.zsum exts)%Z by (by apply CarveProofs.zsum_nonneg). nia. }
  cbn [chain Carve.start Carve.span_end]. unfold sat_sub. rewrite !CarveProofs.clamp_u32_id by lia.
  split; [lia|]. split; [lia|]. eapply chain_lo; [|exact IH]. lia.
Qed.

Lemma chain_minima b t cs hi : (0 ≤ t)%Z → Forall (λ c, 0 ≤ Carve.mn c)%Z cs →
  (b + Carve.zsum (Carve.mn <$> cs) + zlen cs * t ≤ hi)%Z → (hi ≤ u_max 32)%Z →
  chain b hi (Carve.minima_spans b t cs).
Proof.
  intros Ht HF. revert b. induction HF as [|c cs Hc HF IH]; intros b Hhi Hmax; [done|].
  rewrite fmap_cons, CarveProofs.zsum_cons in Hhi. cbn [length] in Hhi.
  assert (0 ≤ Carve.zsum (Carve.mn <$> cs))%Z by (by apply CarveProofs.zsum_nonneg, Forall_fmap).
  cbn [Carve.minima_spans chain Carve.start Carve.span_end]. rewrite !CarveProofs.clamp_u32_id by nia.
  split; [lia|]. split; [nia|]. eapply chain_lo; [|apply IH; [lia|done]]. lia.
Qed.

Lemma spans_chain origin extent t weights minima hi : weights ≠ [] → Forall (λ m, 0 ≤ m)%Z minima →
  (0 ≤ origin)%Z → (0 ≤ extent)%Z → (0 ≤ t)%Z →
  (origin + extent + zlen weights * t + Carve.zsum (Carve.mn <$> Carve.children_of weights minima) ≤ hi)%Z →
  (hi ≤ u_max 32)%Z →
  ∃ spans, Carve.split_spans origin extent t weights minima = Done spans ∧ length spans = length weights ∧
    chain origin hi spans.
Proof.
  intros Hne Hm Ho He Ht Hhi Hmax. pose proof (CarveProofs.length_children_of weights minima) as Hlen.
  pose proof (CarveProofs.children_of_ok weights minima Hm) as Hok.
  destruct (Z.lt_ge_cases (sat_sub extent ((zlen weights - 1) * t))
    (Carve.zsum (Carve.mn <$> Carve.children_of weights minima))) as [Hlt|Hge].
  - unfold Carve.split_spans. rewrite (proj2 (Z.eqb_neq _ _)) by (destruct weights; [done|]; simpl; lia).
    rewrite (proj2 (Z.ltb_lt _ _)) by done. eexists. split; [done|].
    split; [by rewrite CarveProofs.length_minima_spans|]. apply chain_minima; [done| | |done].
    + eapply Forall_impl; [exact Hok|]. cbn. lia.
    + rewrite Hlen. lia.
  - destruct (CarveProofs.split_spans_fit origin extent t weights minima Hne Hm Hge)
      as (fr & s & r & -> & Hfr & Hs & _ & HF & Hsum).
    set (exts := zip_with _ _ _) in *. assert (length exts = length weights) as Hlx.
    { unfold exts. rewrite length_zip_with. lia. }
    eexists. split; [done|]. split.
    { rewrite CarveProofs.length_spans_of, CarveProofs.length_boundaries. lia. }
    rewrite <-(CarveProofs.snap_mul s origin) at 1 by done. apply chain_boundaries; [done|done| |nia| |done].
    + apply Forall_forall. intros e (i & Hi)%list_elem_of_lookup.
      destruct (Forall2_lookup_r _ _ _ _ _ HF Hi) as (c & Hc & Hce).
      eapply Forall_lookup_1 in Hok; [|exact Hc]. cbn in Hok. nia.
    + rewrite CarveProofs.total_ext_eq, Hsum, Hlx.
      replace (origin * s + (sat_sub extent ((zlen weights - 1) * t) * s + zlen weights * (t * s)))%Z
        with ((origin + sat_sub extent ((zlen weights - 1) * t) + zlen weights * t) * s)%Z by lia.
      rewrite CarveProofs.snap_mul by done.
      assert (0 ≤ Carve.zsum (Carve.mn <$> Carve.children_of weights minima))%Z.
      { apply CarveProofs.zsum_nonneg, Forall_fmap. eapply Forall_impl; [exact Hok|]. cbn. lia. }
      assert (sat_sub extent ((zlen weights - 1) * t) ≤ extent)%Z.
      { unfold sat_sub. assert (1 ≤ zlen weights)%Z by (destruct weights; [done|cbn; lia]). nia. }
      lia.
Qed.

(** ** Carved trees *)

(** Only the geometry differs: the panes are one once hidden. *)
Definition same_pane (p p' : Pane) : Prop := PaneCarve.hide p' = PaneCarve.hide p.
(** No geometry. *)
Definition blank (p : Pane) : Prop :=
  visible p = false ∧ rect p = ZERO ∧ content p = ZERO ∧ tagbar p = ZERO ∧ dividers p = [] ∧ separator p = ZERO.
(** All geometry within the region. *)
Definition boxed (P : region) (p : Pane) : Prop :=
  rect_ok (rect p) ∧ inside P (rect p) ∧ inside P (content p) ∧ inside P (tagbar p) ∧ inside P (separator p) ∧
  Forall (inside P) (dividers p).

Definition blank_at (l : Layout) (ns : list nat) : Prop := ∀ s p, s ∈ ns → get l s = Some p → blank p.
Definition dark (l : Layout) (us : list ptree) : Prop :=
  ∀ s p, s ∈ us ≫= leaves → get l s = Some p → visible p = false.

(** [l'] is [l] with the trees [us] laid out within [P]. *)
Record carved (l l' : Layout) (us : list ptree) (P : region) : Prop := mkCarved {
  cv_only : panes_only l l';
  cv_out s : s ∉ us ≫= nodes → get l' s = get l s;
  cv_in s : s ∈ us ≫= nodes →
    ∃ p p', get l s = Some p ∧ get l' s = Some p' ∧ same_pane p p' ∧ boxed P p';
  cv_apart s s' p p' : s ∈ us ≫= leaves → s' ∈ us ≫= leaves → s ≠ s' → get l' s = Some p →
    get l' s' = Some p' → visible p = true → visible p' = true → disjoint_rects (rect p) (rect p') }.

(** A tree a layout may lay out. *)
Record ready (l : Layout) (t : ptree) : Prop := mkReady {
  rd_rep : ∃ par, rep (get l) par t;
  rd_blank : blank_at l (nodes t);
  rd_metrics : metrics_ok (metrics l);
  rd_fuel : length (nodes t) ≤ tree_fuel l;
  rd_size : length (nodes t) ≤ 32;
  rd_nodup : NoDup (nodes t) }.

Lemma inside_zero P : inside P ZERO.
Proof. intros x y. unfold in_rect. cbn. lia. Qed.
Lemma inside_mono (P Q : region) r : (∀ x y, P x y → Q x y) → inside P r → inside Q r.
Proof. unfold inside. auto. Qed.
Lemma same_pane_refl p : same_pane p p.
Proof. done. Qed.
Lemma same_pane_trans p1 p2 p3 : same_pane p1 p2 → same_pane p2 p3 → same_pane p1 p3.
Proof. unfold same_pane. congruence. Qed.
Lemma same_pane_fields p p' : same_pane p p' →
  parent p' = parent p ∧ kind p' = kind p ∧ pid p' = pid p ∧ weight p' = weight p.
Proof. unfold same_pane, PaneCarve.hide. destruct p, p'. cbn. intros [=]. by subst. Qed.
Lemma same_pane_sim p p' : same_pane p p' → sim (Some p) (Some p').
Proof. intros (H1 & H2 & _)%same_pane_fields. split; [done|]. rewrite H2. apply same_kind_refl. Qed.
Lemma blank_boxed P p : blank p → boxed P p.
Proof.
  intros (_ & H1 & H2 & H3 & H4 & H5). unfold boxed. rewrite H1, H2, H3, H4, H5.
  pose proof (inside_zero P). split; [apply ZERO_ok|]. by split_and!.
Qed.
Lemma boxed_mono (P Q : region) p : (∀ x y, P x y → Q x y) → boxed P p → boxed Q p.
Proof.
  intros H (H1 & H2 & H3 & H4 & H5 & H6). pose proof (inside_mono P Q) as HM.
  split; [done|]. split_and!; eauto. eapply Forall_impl; [exact H6|]. eauto.
Qed.
Lemma leaves_bind_nodes (us : list ptree) s : s ∈ us ≫= leaves → s ∈ us ≫= nodes.
Proof. intros (t & Hs & Ht)%list_elem_of_bind. apply list_elem_of_bind. eauto using leaves_nodes. Qed.

Lemma ready_live l us s : Forall (ready l) us → s ∈ us ≫= nodes → ∃ p, get l s = Some p ∧ blank p.
Proof.
  intros Hr (t & Hs & Ht)%list_elem_of_bind. rewrite Forall_forall in Hr.
  destruct (Hr t Ht) as [[par Hrep] Hb _ _ _ _]. destruct (rep_live _ _ _ _ Hrep Hs) as [p Hp].
  exists p. split; [done|]. by eapply Hb.
Qed.

Lemma carved_id l us P : Forall (ready l) us → carved l l us P.
Proof.
  intros H. split; [apply panes_only_refl|done| |].
  - intros s Hs. destruct (ready_live l us s H Hs) as (p & Hp & Hb). exists p, p. eauto using same_pane_refl, blank_boxed.
  - intros s s' p p' Hs%leaves_bind_nodes _ _ Hp _ Hv.
    destruct (ready_live l us s H Hs) as (q & Hq & Hb & _). congruence.
Qed.
Lemma carved_mono l l' us (P Q : region) : (∀ x y, P x y → Q x y) → carved l l' us P → carved l l' us Q.
Proof.
  intros HPQ [H1 H2 H3 H4]. split; [done|done| |done]. intros s Hs.
  destruct (H3 s Hs) as (p & p' & Hp & Hp' & Hsame & Hbox). exists p, p'. eauto using boxed_mono.
Qed.

(** A laid-out tree is still the tree. *)
Lemma carved_sim l l' us P s : carved l l' us P → sim (get l s) (get l' s).
Proof.
  intros Hc. destruct (decide (s ∈ us ≫= nodes)) as [Hs|Hs].
  - destruct (cv_in _ _ _ _ Hc s Hs) as (p & p' & -> & -> & Hsame & _). by apply same_pane_sim.
  - rewrite (cv_out _ _ _ _ Hc s Hs). apply sim_refl.
Qed.
Lemma carved_ready l l' us P t : carved l l' us P → (∀ s, s ∈ nodes t → s ∉ us ≫= nodes) →
  ready l t → ready l' t.
Proof.
  intros Hc Hdis [[par H1] H2 H3 H4 H5 H6]. destruct (cv_only _ _ _ _ Hc) as [E L].
  split; [exists par| | | |done|done].
  - eapply rep_sim; [|exact H1]. intros s _. by eapply carved_sim.
  - intros s p Hs. rewrite (cv_out _ _ _ _ Hc) by auto. by apply H2.
  - by rewrite E.
  - unfold tree_fuel in *. by rewrite L.
Qed.

(** Two layings, one after the other, of disjoint forests. *)
Lemma carved_app l l1 l2 us vs P1 P2 Q : carved l l1 us P1 → carved l1 l2 vs P2 →
  (∀ s, s ∈ us ≫= nodes → s ∉ vs ≫= nodes) →
  (dark l2 us ∨ dark l2 vs ∨ ∀ x y, P1 x y → P2 x y → False) →
  (∀ x y, P1 x y → Q x y) → (∀ x y, P2 x y → Q x y) → carved l l2 (us ++ vs) Q.
Proof.
  intros [A1 A2 A3 A4] [B1 B2 B3 B4] Hdis Hapart HQ1 HQ2.
  assert (∀ s, s ∈ us ≫= nodes → get l2 s = get l1 s) as E1 by (intros s Hs; apply B2; auto).
  assert (∀ s, s ∈ vs ≫= nodes → get l1 s = get l s) as E2.
  { intros s Hs. apply A2. intros Hu. by apply (Hdis s). }
  split; [by eapply panes_only_trans| | |].
  - intros s. rewrite bind_app, not_elem_of_app. intros [Hu Hv]. by rewrite B2, A2.
  - intros s. rewrite bind_app, elem_of_app. intros [Hs|Hs].
    + destruct (A3 s Hs) as (p & p' & Hp & Hp' & ? & ?). exists p, p'. rewrite E1 by done. eauto using boxed_mono.
    + destruct (B3 s Hs) as (p & p' & Hp & Hp' & ? & ?). exists p, p'. rewrite E2 in Hp by done. eauto using boxed_mono.
  - assert (∀ s s' p p', s ∈ us ≫= leaves → s' ∈ vs ≫= leaves → get l2 s = Some p → get l2 s' = Some p' →
      visible p = true → visible p' = true → disjoint_rects (rect p) (rect p')) as Hcross.
    { intros s s' p p' Hs Hs' Hp Hp' Hv Hv'. destruct Hapart as [Hd|[Hd|Hno]].
      - specialize (Hd s p Hs Hp). congruence.
      - specialize (Hd s' p' Hs' Hp'). congruence.
      - apply leaves_bind_nodes in Hs, Hs'. rewrite E1 in Hp by done.
        destruct (A3 s Hs) as (? & q & _ & Hq & _ & _ & Hin & _), (B3 s' Hs') as (? & q' & _ & Hq' & _ & _ & Hin' & _).
        assert (q = p) as -> by congruence. assert (q' = p') as -> by congruence.
        intros a b [Hx Hy]. by eapply Hno; [apply Hin|apply Hin']. }
    intros s s' p p'. rewrite !bind_app, !elem_of_app. intros [Hs|Hs] [Hs'|Hs'] Hne Hp Hp' Hv Hv'.
    + rewrite E1 in Hp, Hp' by (by apply leaves_bind_nodes). by apply (A4 s s' p p').
    + by apply (Hcross s s' p p').
    + intros a b [Hx Hy]. by eapply (Hcross s' s p' p Hs' Hs Hp' Hp Hv' Hv a b).
    + by apply (B4 s s' p p').
Qed.

(** The dark stays dark where nothing was laid. *)
Lemma dark_out l l' us vs P : carved l l' us P → (∀ s, s ∈ us ≫= nodes → s ∉ vs ≫= nodes) → dark l vs → dark l' vs.
Proof.
  intros Hc Hdis Hd s p Hs. rewrite (cv_out _ _ _ _ Hc); [by apply Hd|].
  intros Hu. by apply (Hdis s Hu), leaves_bind_nodes.
Qed.
Lemma ready_dark l us : Forall (ready l) us → dark l us.
Proof.
  intros H s p Hs%leaves_bind_nodes Hp. destruct (ready_live l us s H Hs) as (q & Hq & Hb & _). congruence.
Qed.

(** A last touch to one node's geometry. *)
Lemma carved_upd l l' us P s f : carved l l' us P → s ∈ us ≫= nodes →
  (∀ p, get l' s = Some p → boxed P p → same_pane p (f p) ∧ boxed P (f p)) →
  (s ∉ us ≫= leaves ∨ ∀ p, get l' s = Some p → visible (f p) = visible p ∧ rect (f p) = rect p) →
  carved l (upd l' s f) us P.
Proof.
  intros [A1 A2 A3 A4] Hs Hf Hleaf. split.
  - eapply panes_only_trans; [done|apply panes_only_upd].
  - intros s' Hs'. rewrite get_upd_ne by (by intros <-). auto.
  - intros s' Hs'. destruct (A3 s' Hs') as (p & p' & Hp & Hp' & Hsame & Hbox). rewrite get_upd. case_decide as Hd.
    + subst s'. rewrite Hp'. destruct (Hf p' Hp' Hbox) as [H1 H2]. exists p, (f p').
      split; [done|]. split; [done|]. split; [by eapply same_pane_trans|done].
    + exists p, p'. done.
  - assert (∀ s' p, s' ∈ us ≫= leaves → get (upd l' s f) s' = Some p →
      ∃ q, get l' s' = Some q ∧ visible p = visible q ∧ rect p = rect q) as Hback.
    { intros s' p Hs' Hp. rewrite get_upd in Hp. case_decide as Hd; [|eauto]. subst s'.
      destruct Hleaf as [|Hl]; [done|]. destruct (get l' s) as [q|] eqn:Hq; [|done]. injection Hp as <-.
      exists q. split; [done|]. by apply Hl. }
    intros s1 s2 p1 p2 H1 H2 Hne G1 G2 V1 V2.
    destruct (Hback s1 p1 H1 G1) as (q1 & Q1 & W1 & R1), (Hback s2 p2 H2 G2) as (q2 & Q2 & W2 & R2).
    rewrite R1, R2. eapply (A4 s1 s2); [done..| |]; congruence.
Qed.

(** ** Frames and tiles *)

(** What the carve of a container promises its frame. *)
Definition good (carve : Layout → nat → Rect → outcome Layout) (t : ptree) : Prop :=
  ∀ l r, ready l t → small r →
    ∃ l', carve l (root_of t) r = Done l' ∧ carved l l' [t] (in_rect r).

Lemma carved_leaf l s f P : ready l (TLeaf s) →
  (∀ p, get l s = Some p → blank p → same_pane p (f p) ∧ boxed P (f p)) →
  carved l (upd l s f) [TLeaf s] P.
Proof.
  intros Hr Hf. destruct (ready_live l [TLeaf s] s) as (p & Hp & Hb); [by apply Forall_singleton|cbn; by left|].
  destruct (Hf p Hp Hb) as [Hsame Hbox]. split.
  - apply panes_only_upd.
  - intros s' Hs'. apply get_upd_ne. intros <-. apply Hs'. cbn. by left.
  - intros s' Hs'. cbn in Hs'. apply list_elem_of_singleton in Hs' as ->. exists p, (f p).
    split; [done|]. split; [by apply get_upd_eq|done].
  - intros s1 s2 p1 p2 H1 H2 Hne. cbn in H1, H2.
    apply list_elem_of_singleton in H1 as ->. by apply list_elem_of_singleton in H2 as ->.
Qed.

Lemma ready_leaf l t : ready l t → is_leaf l (root_of t) = true → t = TLeaf (root_of t).
Proof.
  intros [[par Hr] _ _ _ _ _]. unfold is_leaf. destruct Hr as [? s p sf Hp _ Hk|? s p m a ts Hp _ Hk _ _]; [done|].
  cbn. rewrite Hp. cbn. by rewrite Hk.
Qed.
Lemma ready_node l t : ready l t → is_leaf l (root_of t) = false → root_of t ∉ leaves t.
Proof.
  intros [[par Hr] _ _ _ _ Hnd]. unfold is_leaf. destruct Hr as [? s p sf Hp _ Hk|? s p m a ts Hp _ Hk _ _].
  - cbn. rewrite Hp. cbn. by rewrite Hk.
  - intros _ Hin. cbn in Hnd. apply NoDup_cons in Hnd as [Hni _]. apply Hni. cbn in *.
    by apply leaves_bind_nodes.
Qed.

Lemma span_rect inner hs : rect_ok inner →
  (0 ≤ Carve.start hs ≤ Carve.span_end hs)%Z → (Carve.span_end hs ≤ u_max 32)%Z →
  rect_ok (mkRect (rx inner) (Carve.start hs) (rw inner) (Carve.span_len hs)).
Proof. unfold rect_ok, Carve.span_len, sat_sub. cbn. lia. Qed.

Section tile.
Context (carve : Layout → nat → Rect → outcome Layout) (inner r body sep : Rect)
  (headers : list Carve.Span) (open : nat).
Context (Hinner : rect_ok inner) (Hin : inside (in_rect r) inner) (Hr : rect_ok r)
  (Hbody : small body) (Hbin : inside (in_rect r) body) (Hsep : inside (in_rect r) sep).
Context (Hhead : ∀ i hs, headers !! i = Some hs →
  (0 ≤ Carve.start hs ≤ Carve.span_end hs)%Z ∧ (Carve.span_end hs ≤ u_max 32)%Z).

Lemma place_tile_ok i l t : ready l t → (is_leaf l (root_of t) = false → good carve t) → i < length headers →
  ∃ l', place_tile carve inner r body sep headers open i l (root_of t) = Done l' ∧
    carved l l' [t] (in_rect r) ∧ (i ≠ open → dark l' [t]).
Proof using Hinner Hin Hr Hbody Hbin Hsep Hhead.
  intros Hrd Hgood Hi. destruct (lookup_lt_is_Some_2 headers i Hi) as [hs Hhs].
  destruct (Hhead i hs Hhs) as [Hs1 Hs2]. unfold place_tile. rewrite Hhs. cbn [unwrap mbind outcome_bind].
  destruct (intersect_spec _ inner (span_rect inner hs Hinner Hs1 Hs2) Hinner) as (hd & -> & Hhd & Hhin & _).
  obind.
  assert (inside (in_rect r) hd) as Hhr by (intros x y Hxy; apply Hin, Hhin, Hxy).
  pose proof (inside_zero (in_rect r)) as Hz.
  assert (∀ b : bool, inside (in_rect r) (if b then sep else ZERO)) as Hsz by by intros [].
  assert (∀ b : bool, inside (in_rect r) (if b then body else ZERO)) as Hbz by by intros [].
  destruct (ready_live l [t] (root_of t)) as (p & Hp & Hb).
  { by apply Forall_singleton. } { cbn. rewrite app_nil_r. apply nodes_root. }
  destruct (is_leaf l (root_of t)) eqn:Hlf.
  - pose proof (ready_leaf l t Hrd Hlf) as Ht. rewrite Ht in Hrd |- *. cbn [root_of].
    erewrite upd_unwrap_ok by exact Hp. eexists. split; [done|]. split.
    + apply carved_leaf; [done|]. intros q Hq (B1 & B2 & B3 & B4 & B5 & B6).
      split; [done|]. unfold boxed. cbn. rewrite B5. split; [done|]. split; [by intros x y|].
      split; [done|]. split; [done|]. split; [done|constructor].
    + intros Hne s q Hs. cbn in Hs. apply list_elem_of_singleton in Hs as ->.
      rewrite (get_upd_eq _ _ _ _ Hp). intros [= <-]. cbn. by rewrite (proj2 (Nat.eqb_neq _ _)).
  - assert (∃ l1, (if i =? open then carve l (root_of t) body else Done l) = Done l1 ∧
      carved l l1 [t] (in_rect r) ∧ (i ≠ open → dark l1 [t])) as (l1 & -> & Hc & Hd).
    { destruct (Nat.eqb_spec i open) as [Heq|Hne].
      - destruct (Hgood eq_refl l body Hrd Hbody) as (l1 & -> & Hc). exists l1. split; [done|].
        split; [|done]. eapply carved_mono; [|exact Hc]. exact Hbin.
      - exists l. split; [done|]. split; [by apply carved_id, Forall_singleton|].
        intros _. by apply ready_dark, Forall_singleton. }
    obind.
    assert (root_of t ∈ [t] ≫= nodes) as Hrn by (cbn; rewrite app_nil_r; apply nodes_root).
    destruct (cv_in _ _ _ _ Hc (root_of t) Hrn) as (q & p1 & _ & Hp1 & _ & _).
    erewrite upd_unwrap_ok by exact Hp1. eexists. split; [done|].
    assert (root_of t ∉ [t] ≫= leaves) as Hnl by (cbn; rewrite app_nil_r; by eapply ready_node).
    split.
    + apply carved_upd; [done|done| |by left]. intros p2 _ (B1 & B2 & B3 & B4 & B5 & B6).
      destruct (i =? open); (split; [done|]); unfold boxed; cbn; split_and!; try done; by intros x y.
    + intros Hne s p2 Hs. rewrite get_upd_ne by (by intros <-). by apply Hd.
Qed.

Lemma place_tiles_ok i l us : Forall (ready l) us → (∀ t, t ∈ us → is_leaf l (root_of t) = false → good carve t) →
  NoDup (us ≫= nodes) → i + length us ≤ length headers →
  ∃ l', place_tiles (place_tile carve inner r body sep headers open) i l (roots us) = Done l' ∧
    carved l l' us (in_rect r) ∧ (open < i → dark l' us).
Proof using Hinner Hin Hr Hbody Hbin Hsep Hhead.
  revert i l. induction us as [|t us IH]; intros i l Hrd Hgood Hnd Hi.
  { exists l. split; [done|]. split; [apply carved_id; constructor|]. intros _ s p Hs. by apply elem_of_nil in Hs. }
  apply Forall_cons in Hrd as [Hrt Hrus]. rewrite fmap_cons. cbn [place_tiles]. cbn in Hi.
  rewrite bind_cons in Hnd. apply NoDup_app in Hnd as (_ & Hdis & Hnd).
  destruct (place_tile_ok i l t Hrt) as (l1 & -> & Hc1 & Hd1); [apply Hgood; by left|lia|]. obind.
  assert (∀ s, s ∈ [t] ≫= nodes → s ∉ us ≫= nodes) as Hdis' by (intros s; cbn; rewrite app_nil_r; apply Hdis).
  destruct (IH (S i) l1) as (l2 & -> & Hc2 & Hd2).
  - rewrite Forall_forall in *. intros u Hu. eapply carved_ready; [exact Hc1| |by apply Hrus].
    intros s Hs Hs'. apply (Hdis' s Hs'), list_elem_of_bind. eauto.
  - intros u Hu Hlf. apply Hgood; [by right|]. unfold is_leaf in *.
    assert (get l1 (root_of u) = get l (root_of u)) as <-; [|done].
    apply (cv_out _ _ _ _ Hc1). intros Hs. apply (Hdis' _ Hs), list_elem_of_bind. exists u. split; [apply nodes_root|done].
  - done.
  - lia.
  - assert (∀ s, s ∈ us ≫= nodes → s ∉ [t] ≫= nodes) as Hdis'' by (intros s Hs Hs'; by apply (Hdis' s)).
    assert (i ≠ open → dark l2 [t]) as Hd1' by (intros Hne; eapply dark_out; [exact Hc2|done|by apply Hd1]).
    exists l2. split; [done|]. split.
    + change (t :: us) with ([t] ++ us). eapply carved_app; [exact Hc1|exact Hc2|done| |done|done].
      destruct (decide (i = open)) as [->|Hne]; [right; left; apply Hd2; lia|left; by apply Hd1'].
    + intros Ho s p Hs. rewrite bind_cons in Hs. apply elem_of_app in Hs as [Hs|Hs].
      * apply Hd1'; [lia|]. cbn. by rewrite app_nil_r.
      * apply Hd2; [lia|done].
Qed.
End tile.

Lemma intersect_small a r : rect_ok a → small r →
  ∃ r', intersect a r = Done r' ∧ small r' ∧ ∀ x y, in_rect r' x y ↔ in_rect a x y ∧ in_rect r x y.
Proof.
  intros Ha (Hr & H1 & H2). destruct (intersect_spec a r Ha Hr) as (r' & He & Hok & Hin & _).
  exists r'. split; [done|]. split; [|done]. split; [done|]. unfold intersect in He.
  unfold rect_ok in *. rewrite !uadd_ok in He by lia. obind in He.
  destruct (_ || _) eqn:Hor; injection He as <-; [cbn; lia|]. cbn.
  apply orb_false_iff in Hor as [O1%Z.leb_gt O2%Z.leb_gt]. lia.
Qed.

Lemma inset_small r b : small r → length_ok b → ∃ r', inset r b = Done r' ∧ small r' ∧ inside (in_rect r) r'.
Proof.
  intros (Hr & H1 & H2) Hb. unfold inset, length_ok in *. rewrite umul_ok by (unfold u_max; lia).
  obind. assert (∃ r', Done ZERO = Done r' ∧ small r' ∧ inside (in_rect r) r') as Hz.
  { exists ZERO. split; [done|]. split; [split; [apply ZERO_ok|cbn; lia]|apply inside_zero]. }
  destruct (Z.ltb_spec (2 * b) (rw r)), (Z.ltb_spec (2 * b) (rh r)); cbn [andb]; try exact Hz.
  unfold rect_ok in *. rewrite !uadd_ok by lia. obind.
  eexists. split; [done|]. split; [unfold small, rect_ok; cbn; lia|].
  intros x y. unfold in_rect. cbn. lia.
Qed.

Lemma alloc_spans y h n open header sep : (0 ≤ y)%Z → (0 ≤ h)%Z → (y + h ≤ 2 ^ 20)%Z → length_ok header →
  length_ok sep → open < n → n ≤ 32 →
  ∃ headers body, Carve.stack_alloc y h n open header sep = Done (headers, body) ∧ length headers = n ∧
    (∀ i hs, headers !! i = Some hs →
       (0 ≤ Carve.start hs ≤ Carve.span_end hs)%Z ∧ (Carve.span_end hs ≤ 2 ^ 22)%Z) ∧
    (0 ≤ Carve.start body ≤ Carve.span_end body)%Z ∧ (Carve.span_end body ≤ 2 ^ 22)%Z.
Proof.
  unfold length_ok. intros Hy Hh Hyh Hhd Hsep Ho Hn. unfold Carve.stack_alloc.
  destruct n as [|n']; [lia|]. rewrite Nat.min_l by lia.
  set (headers := _ <$> seq 0 (S n')).
  assert (∀ i hs, headers !! i = Some hs →
       (0 ≤ Carve.start hs ≤ Carve.span_end hs)%Z ∧ (Carve.span_end hs ≤ 2 ^ 22)%Z) as Hspans.
  { intros i hs. unfold headers. rewrite list_lookup_fmap.
    destruct (seq 0 (S n') !! i) as [j|] eqn:Hj; [|done]. apply lookup_seq in Hj as [-> Hj]. cbn [Nat.add].
    intros [= <-]. unfold Carve.header_span. cbn [Carve.start Carve.span_end].
    assert (0 ≤ Z.of_nat i * header ≤ 32 * 2 ^ 15)%Z by nia.
    destruct (Z.leb_spec (Z.of_nat i) (Z.of_nat open)); rewrite as_u_small by (unfold in_u; lia);
      unfold sat_add, sat_sub, sat_mul, u_max; [lia|].
    assert (0 ≤ (Z.of_nat (S n') - Z.of_nat i) * header)%Z by nia. lia. }
  assert (length headers = S n') as Hlen by (unfold headers; by rewrite length_fmap, length_seq).
  destruct (lookup_lt_is_Some_2 headers open) as [hs Hhs]; [lia|]. rewrite Hhs. cbn [unwrap mbind outcome_bind].
  eexists _, _. split; [done|]. split; [done|]. split; [done|]. cbn [Carve.start Carve.span_end].
  destruct (Hspans open hs Hhs) as [S1 S2].
  rewrite as_u_small by (unfold in_u; lia).
  assert (0 ≤ Z.of_nat (S n' - 1 - open) * header)%Z by nia.
  unfold sat_sub, sat_add, sat_mul, u_max. destruct (open + 1 <? S n'); lia.
Qed.

Lemma place_frame_ok carve l r us open members : Forall (ready l) us →
  (∀ t, t ∈ us → is_leaf l (root_of t) = false → good carve t) →
  NoDup (us ≫= nodes) → small r → open < length us → length us ≤ 32 →
  ∃ l', place_frame carve l r (roots us) open members = Done l' ∧ carved l l' us (in_rect r).
Proof.
  intros Hrd Hgood Hnd Hr Ho H32. unfold place_frame.
  assert (metrics_ok (metrics l)) as Hm.
  { destruct us as [|t us]; [cbn in Ho; lia|]. by apply Forall_cons in Hrd as [[] _]. }
  pose proof Hm as (_ & Hsp & Hhd & _ & _ & _ & Hfr & _ & _).
  unfold mf, mhdr, msep. rewrite !px_of_ok by done.
  destruct (inset_small r (Geometry.frame (metrics l)) Hr Hfr) as (inner & -> & Hin & Hir). obind.
  pose proof Hin as (Hiok & Hi1 & Hi2). pose proof Hiok as (I1 & I2 & I3 & I4 & I5 & I6). rewrite length_fmap.
  destruct (alloc_spans (ry inner) (rh inner) (length us) open (header_h (metrics l)) (hairline (metrics l)))
    as (headers & body & -> & Hlen & Hspans & Hb1 & Hb2); [done..|]. obind.
  destruct (intersect_small (mkRect (rx inner) (Carve.start body) (rw inner) (Carve.span_len body)) inner)
    as (br & -> & Hbr & Hbin); [apply span_rect; [done|done|unfold u_max; lia]|done|]. obind.
  assert (inside (in_rect r) br) as Hbr' by (intros x y Hxy; apply Hir, Hbin, Hxy).
  assert (∀ i hs, headers !! i = Some hs →
    (0 ≤ Carve.start hs ≤ Carve.span_end hs)%Z ∧ (Carve.span_end hs ≤ u_max 32)%Z) as Hhead.
  { intros i hs Hhs. destruct (Hspans i hs Hhs). unfold u_max. split; [done|lia]. }
  assert (∀ sep, inside (in_rect r) sep →
    ∃ l', place_tiles (place_tile carve inner r br sep headers open) 0 l (roots us) = Done l' ∧
      carved l l' us (in_rect r)) as Htiles.
  { intros sep Hsep. destruct (place_tiles_ok carve inner r br sep headers open Hiok Hir (proj1 Hr) Hbr Hbr' Hsep Hhead
      0 l us Hrd Hgood Hnd) as (l' & He & Hc & _); [lia|eauto]. }
  assert (∃ l', (sep ← (if open + 1 <? length us
        then intersect (mkRect (rx inner) (Carve.span_end body) (rw inner) (hairline (metrics l))) inner
        else Done ZERO);
      place_tiles (place_tile carve inner r br sep headers open) 0 l (roots us)) = Done l' ∧
      carved l l' us (in_rect r)) as Hmany.
  { destruct (open + 1 <? length us); [|apply Htiles, inside_zero].
    destruct (intersect_small (mkRect (rx inner) (Carve.span_end body) (rw inner) (hairline (metrics l))) inner)
      as (sr & -> & _ & Hsin); [unfold rect_ok, length_ok, u_max in *; cbn; lia|done|].
    apply Htiles. intros x y Hxy. apply Hir, Hsin, Hxy. }
  destruct us as [|t [|t' us]]; [cbn in Ho; lia| |exact Hmany]. cbn [fmap list_fmap].
  destruct ((members =? 1) && is_empty_leaf l (root_of t)) eqn:He; [|apply (Htiles ZERO), inside_zero].
  apply andb_true_iff in He as [_ He]. apply Forall_cons in Hrd as [Hrd _].
  assert (is_leaf l (root_of t) = true) as Hlf.
  { unfold is_empty_leaf in He. unfold is_leaf. destruct (get l (root_of t)) as [p|]; [|done]. cbn in *.
    by destruct (kind p). }
  destruct (is_leaf_live l _ Hlf) as (p & sf & Hp & _). erewrite upd_unwrap_ok by exact Hp.
  eexists. split; [done|]. rewrite (ready_leaf l t Hrd Hlf) in Hrd |- *. cbn [root_of] in *.
  apply carved_leaf; [done|]. intros q Hq (B1 & B2 & B3 & B4 & B5 & B6).
  split; [done|]. unfold boxed. cbn. rewrite B5, B6. split; [apply Hr|]. split; [by intros x y|].
  split; [apply inside_zero|]. split; [done|]. split; [apply inside_zero|constructor].
Qed.

(** ** Splits *)

Definition on_axis_of (horiz : bool) (x y : Z) : Z := if horiz then x else y.
(** The part of [r] from [lo] on along the axis. *)
Definition beyond (horiz : bool) (r : Rect) (lo : Z) : region :=
  λ x y, in_rect r x y ∧ (lo ≤ on_axis_of horiz x y)%Z.

Lemma along_ok horiz r pos ext : rect_ok r → (0 ≤ pos)%Z → (0 ≤ ext)%Z → (pos + ext ≤ u_max 32)%Z →
  rect_ok (along horiz r pos ext) ∧
  ∀ x y, in_rect (along horiz r pos ext) x y → (pos ≤ on_axis_of horiz x y < pos + ext)%Z.
Proof.
  unfold along, rect_ok, in_rect, on_axis_of. intros Hr H1 H2 H3. destruct horiz; cbn; (split; [lia|]);
    intros x y H; lia.
Qed.

Lemma place_split_ok carve horiz r tk spans hi : small r → length_ok tk → (hi ≤ 2 ^ 31)%Z →
  ∀ us i n ds l lo, Forall (ready l) us → (∀ t, t ∈ us → good carve t) → NoDup (us ≫= nodes) →
    i + length us = length spans → chain lo hi (drop i spans) → (0 ≤ lo)%Z → Forall (inside (in_rect r)) ds →
  ∃ l' ds', place_split carve horiz r tk spans i n ds l (roots us) = Done (l', ds') ∧
    carved l l' us (beyond horiz r lo) ∧ Forall (inside (in_rect r)) ds'.
Proof.
  unfold length_ok. intros Hr Htk Hhi. induction us as [|t us IH]; intros i n ds l lo Hrd Hgood Hnd Hi Hch Hlo Hds.
  { exists l, ds. split; [done|]. split; [apply carved_id; constructor|done]. }
  apply Forall_cons in Hrd as [Hrt Hrus]. rewrite fmap_cons. cbn [place_split]. cbn in Hi.
  rewrite bind_cons in Hnd. apply NoDup_app in Hnd as (_ & Hdis & Hnd).
  destruct (lookup_lt_is_Some_2 spans i) as [sp Hsp]; [lia|]. rewrite Hsp. cbn [unwrap mbind outcome_bind].
  rewrite (drop_S _ _ _ Hsp) in Hch. cbn [chain] in Hch. destruct Hch as (H1 & H2 & Hch).
  destruct (along_ok horiz r (Carve.start sp) (Carve.span_len sp) (proj1 Hr)) as [Ha1 Ha2];
    [unfold Carve.span_len, sat_sub, u_max; lia..|].
  destruct (intersect_small _ r Ha1 Hr) as (child & -> & Hcs & Hcin). obind.
  destruct (Hgood t ltac:(by left) l child Hrt Hcs) as (l1 & -> & Hc1). obind.
  assert (∃ ds', (if i + 1 <? n then track ← intersect (along horiz r (Carve.span_end sp) tk) r; Done (ds ++ [track])
      else Done ds) = Done ds' ∧ Forall (inside (in_rect r)) ds') as (ds' & -> & Hds').
  { destruct (i + 1 <? n); [|eauto].
    destruct (along_ok horiz r (Carve.span_end sp) tk (proj1 Hr)) as [Hb1 _]; [unfold u_max; lia..|].
    destruct (intersect_small _ r Hb1 Hr) as (tr & -> & _ & Htr). cbn. eexists. split; [done|].
    apply Forall_app. split; [done|]. apply Forall_singleton. intros x y Hxy. by apply Htr. }
  obind.
  assert (∀ s, s ∈ [t] ≫= nodes → s ∉ us ≫= nodes) as Hdis' by (intros s; cbn; rewrite app_nil_r; apply Hdis).
  destruct (IH (S i) n ds' l1 (Carve.span_end sp)) as (l2 & ds2 & -> & Hc2 & Hds2).
  - rewrite Forall_forall in *. intros u Hu. eapply carved_ready; [exact Hc1| |by apply Hrus].
    intros s Hs Hs'. apply (Hdis' s Hs'), list_elem_of_bind. eauto.
  - intros u Hu. apply Hgood. by right.
  - done.
  - lia.
  - done.
  - lia.
  - done.
  - exists l2, ds2. split; [done|]. split; [|done]. change (t :: us) with ([t] ++ us).
    assert (∀ x y, in_rect child x y → in_rect r x y ∧
      (Carve.start sp ≤ on_axis_of horiz x y < Carve.span_end sp)%Z) as Hchild.
    { intros x y [Hx Hy]%Hcin. split; [done|]. apply Ha2 in Hx. unfold Carve.span_len, sat_sub in Hx. lia. }
    eapply (carved_app l l1 l2 [t] us); [exact Hc1|exact Hc2|done| | |].
    + right. right. intros x y Hx%Hchild [_ Hy]. lia.
    + intros x y [Hx Hy]%Hchild. split; [done|lia].
    + intros x y [Hx Hy]. split; [done|lia].
Qed.

(** The children in the background, laid at nothing. *)
Lemma carve_bg_ok carve (us vs : list ptree) l : Forall (ready l) vs → (∀ t, t ∈ vs → good carve t) →
  NoDup (vs ≫= nodes) →
  ∃ l', foldM (λ l c, if decide (c ∈ roots us) then Done l else carve l c ZERO) l (roots vs) = Done l' ∧
    carved l l' (filter (λ t, root_of t ∉ roots us) vs) (λ _ _, False).
Proof.
  revert l. induction vs as [|t vs IH]; intros l Hrd Hgood Hnd.
  { exists l. split; [done|]. apply carved_id. constructor. }
  apply Forall_cons in Hrd as [Hrt Hrvs]. rewrite fmap_cons. cbn [foldM].
  rewrite bind_cons in Hnd. apply NoDup_app in Hnd as (_ & Hdis & Hnd). rewrite filter_cons.
  destruct (decide (root_of t ∈ roots us)) as [Hin|Hout].
  - obind. rewrite decide_False by (intros H; done).
    apply IH; [done|intros; apply Hgood; by right|done].
  - assert (small ZERO) as Hz by (split; [apply ZERO_ok|cbn; lia]).
    destruct (Hgood t ltac:(by left) l ZERO Hrt Hz) as (l1 & -> & Hc1). obind.
    rewrite decide_True by done.
    assert (∀ s, s ∈ [t] ≫= nodes → s ∉ vs ≫= nodes) as Hdis' by (intros s; cbn; rewrite app_nil_r; apply Hdis).
    destruct (IH l1) as (l2 & -> & Hc2).
    + rewrite Forall_forall in *. intros u Hu. eapply carved_ready; [exact Hc1| |by apply Hrvs].
      intros s Hs Hs'. apply (Hdis' s Hs'), list_elem_of_bind. eauto.
    + intros u Hu. apply Hgood. by right.
    + done.
    + exists l2. split; [done|]. change (t :: filter _ vs) with ([t] ++ filter (λ t, root_of t ∉ roots us) vs).
      eapply (carved_app l l1 l2); [exact Hc1|exact Hc2| | | |done].
      * intros s Hs Hs'. apply (Hdis' s Hs). apply list_elem_of_bind in Hs' as (u & Hu & [_ Hu']%list_elem_of_filter).
        apply list_elem_of_bind. eauto.
      * right. right. by intros x y.
      * intros x y. unfold in_rect. cbn. lia.
Qed.

(** ** Nodes *)

(** A leaf of the forest inside one of some of its trees is a leaf of that tree. *)
Lemma leaf_among (ts us : list ptree) x : NoDup (ts ≫= nodes) → us ⊆ ts → x ∈ ts ≫= leaves → x ∈ us ≫= nodes →
  x ∈ us ≫= leaves.
Proof.
  intros Hnd Hsub (t & Hx & Ht)%list_elem_of_bind (u & Hu & Hu')%list_elem_of_bind.
  apply list_elem_of_bind. exists u. split; [|done].
  apply list_elem_of_split in Ht as (l1 & l2 & ->). rewrite bind_app, bind_cons in Hnd.
  assert (u = t ∨ u ∈ l1 ++ l2) as [->|Hu2] by (specialize (Hsub u Hu'); set_solver); [done|]. exfalso.
  apply leaves_nodes in Hx.
  assert (x ∈ (l1 ≫= nodes) ++ (l2 ≫= nodes)) as Hx2 by (rewrite <-bind_app; apply list_elem_of_bind; eauto).
  apply NoDup_app in Hnd as (_ & Hd1 & Hnd). apply NoDup_app in Hnd as (_ & Hd2 & _).
  apply elem_of_app in Hx2 as [Hx2|Hx2]; [apply (Hd1 x Hx2), elem_of_app; by left|by apply (Hd2 x Hx)].
Qed.

(** The node around some of its children: shown first, finished last. *)
Lemma carved_wrap l l1 s ts us P f g : ready l (TNode s ts) → us ⊆ ts →
  (∀ p, get l s = Some p → blank p → same_pane p (f p) ∧ boxed P (f p)) →
  (∀ p, boxed P p → same_pane p (g p) ∧ boxed P (g p)) →
  carved (upd l s f) l1 us P → carved l (upd l1 s g) [TNode s ts] P.
Proof.
  intros Hrd Hsub Hf Hg Hc. pose proof (rd_nodup _ _ Hrd) as Hnd. cbn in Hnd. apply NoDup_cons in Hnd as [Hni Hnd].
  assert (∀ x, x ∈ us ≫= nodes → x ∈ ts ≫= nodes) as Hus.
  { intros x (u & Hx & Hu)%list_elem_of_bind. apply list_elem_of_bind. eauto. }
  destruct (ready_live l [TNode s ts] s) as (p & Hp & Hb); [by apply Forall_singleton|cbn; by left|].
  destruct (Hf p Hp Hb) as [Hsame Hbox].
  assert (get l1 s = Some (f p)) as G1 by (rewrite (cv_out _ _ _ _ Hc) by auto; by apply get_upd_eq).
  destruct (Hg (f p) Hbox) as [Hsame2 Hbox2].
  assert (∀ x, x ∈ ts ≫= nodes → x ∉ us ≫= nodes → ∃ q, get l x = Some q ∧ get (upd l1 s g) x = Some q ∧ blank q) as Hrest.
  { intros x Hx Hx'. assert (x ≠ s) by (by intros ->).
    destruct (ready_live l [TNode s ts] x) as (q & Hq & Hbq); [by apply Forall_singleton|cbn; rewrite app_nil_r; by right|].
    exists q. split; [done|]. split; [|done]. rewrite get_upd_ne, (cv_out _ _ _ _ Hc), get_upd_ne by done. done. }
  split.
  - eapply panes_only_trans; [|apply panes_only_upd]. eapply panes_only_trans; [apply panes_only_upd|apply Hc].
  - intros x. cbn. rewrite app_nil_r, not_elem_of_cons. intros [Hxs Hxt].
    rewrite get_upd_ne, (cv_out _ _ _ _ Hc), get_upd_ne by auto. done.
  - intros x. cbn. rewrite app_nil_r, elem_of_cons. intros [->|Hx].
    + exists p, (g (f p)). split; [done|]. split; [by apply get_upd_eq|]. split; [by eapply same_pane_trans|done].
    + assert (x ≠ s) by (by intros ->). destruct (decide (x ∈ us ≫= nodes)) as [Hu|Hu].
      * destruct (cv_in _ _ _ _ Hc x Hu) as (q & q' & Hq & Hq' & ? & ?). exists q, q'.
        rewrite get_upd_ne in Hq by done. rewrite get_upd_ne by done. done.
      * destruct (Hrest x Hx Hu) as (q & Hq & Hq' & Hbq). exists q, q. eauto using same_pane_refl, blank_boxed.
  - assert (∀ x q, x ∈ [TNode s ts] ≫= leaves → get (upd l1 s g) x = Some q → visible q = true →
      x ∈ us ≫= leaves ∧ get l1 x = Some q) as Hvis.
    { intros x q Hx Hq Hv. cbn in Hx. rewrite app_nil_r in Hx.
      assert (x ≠ s) by (intros ->; by apply Hni, leaves_bind_nodes).
      destruct (decide (x ∈ us ≫= nodes)) as [Hu|Hu].
      - split; [by apply (leaf_among ts)|]. by rewrite get_upd_ne in Hq.
      - destruct (Hrest x) as (q' & _ & Hq' & Hbq & _); [by apply leaves_bind_nodes|done|]. congruence. }
    intros x x' q q' Hx Hx' Hne Hq Hq' Hv Hv'.
    destruct (Hvis x q Hx Hq Hv) as [K1 K2], (Hvis x' q' Hx' Hq' Hv') as [K1' K2'].
    by apply (cv_apart _ _ _ _ Hc x x').
Qed.

(** ** The Instrument carve *)

(** The children of a node just shown are as ready as the node was. *)
Lemma ready_kids l s ts f : ready l (TNode s ts) → (∀ p, get l s = Some p → blank p → same_pane p (f p)) →
  Forall (ready (upd l s f)) ts ∧ Forall (rep (get (upd l s f)) (Some s)) ts ∧ NoDup (ts ≫= nodes) ∧
  (∀ t, t ∈ ts → length (nodes t) ≤ tree_fuel (upd l s f)) ∧ length (ts ≫= nodes) ≤ 31 ∧
  ∃ p m a, get l s = Some p ∧ kind p = Container m (roots ts) a ∧ a < length ts.
Proof.
  intros Hrd Hf. pose proof Hrd as [[par Hrep] Hb Hm Hfu Hsz Hnd].
  inversion Hrep as [|? ? p m a ? Hp Hpar Hk Ha Hts]; subst. cbn in Hnd, Hsz, Hfu. apply NoDup_cons in Hnd as [Hni Hnd].
  assert (∀ x, sim (get l x) (get (upd l s f) x)) as Hsim.
  { intros x. rewrite get_upd. case_decide as Hd; [subst x|apply sim_refl]. rewrite Hp.
    apply same_pane_sim, Hf; [done|]. apply (Hb s p); [cbn; by left|done]. }
  assert (tree_fuel (upd l s f) = tree_fuel l) as Htf by (unfold tree_fuel; by rewrite length_upd).
  assert (∀ t, t ∈ ts → length (nodes t) ≤ length (ts ≫= nodes)) as Hle.
  { intros t Ht. apply list_elem_of_split in Ht as (l1 & l2 & ->). rewrite bind_app, bind_cons, !length_app. lia. }
  assert (Forall (rep (get (upd l s f)) (Some s)) ts) as Hts' by (by eapply forall_rep_sim).
  split; [|split; [done|split; [done|split; [|split; [lia|eauto 7]]]]].
  - apply Forall_forall. intros t Ht. specialize (Hle t Ht). split.
    + exists (Some s). by eapply Forall_forall in Hts'.
    + intros x q Hx. rewrite get_upd_ne.
      * apply Hb. cbn. right. apply list_elem_of_bind. eauto.
      * intros <-. apply Hni, list_elem_of_bind. eauto.
    + destruct (panes_only_upd l s f) as [-> _]. done.
    + rewrite Htf. lia.
    + lia.
    + apply list_elem_of_split in Ht as (l1 & l2 & ->). rewrite bind_app, bind_cons in Hnd.
      apply NoDup_app in Hnd as (_ & _ & Hnd). by apply NoDup_app in Hnd as [? _].
  - intros t Ht. specialize (Hle t Ht). rewrite Htf. lia.
Qed.

Lemma NoDup_sublist_nodes (us ts : list ptree) : us `sublist_of` ts → NoDup (ts ≫= nodes) → NoDup (us ≫= nodes).
Proof.
  induction 1 as [|t us ts Hs IH|t us ts Hs IH]; rewrite ?bind_cons; [done| |].
  - intros (H1 & Hd & H2)%NoDup_app. apply NoDup_app. split; [done|]. split; [|by apply IH].
    intros x Hx Hx'. apply (Hd x Hx). apply list_elem_of_bind in Hx' as (u & Hu & Hu').
    apply list_elem_of_bind. exists u. split; [done|]. by eapply elem_of_sublist.
  - intros (_ & _ & H2)%NoDup_app. by apply IH.
Qed.

Lemma sublist_ready l us ts : us `sublist_of` ts → Forall (ready l) ts → Forall (ready l) us.
Proof. intros Hs H. rewrite Forall_forall in *. intros t Ht. apply H. by eapply elem_of_sublist. Qed.

Lemma minima_ok l horiz us : Forall (ready l) us →
  ∃ mins, mapM_o (min_along l horiz) (roots us) = Done mins ∧ length mins = length us ∧
    Forall (λ v, 0 ≤ v ≤ 2 ^ 26)%Z mins.
Proof.
  induction 1 as [|u us Hu Hus IH]; [by exists []|]. destruct IH as (mins & Hmins & Hl & Hb).
  destruct Hu as [[par Hrep] _ Hm Hfu Hsz _].
  destruct (min_bound l u par (S (tree_fuel l)) Hrep Hm) as ([w h] & Hmin & Hb1 & Hb2); [lia..|].
  assert (min_along l horiz (root_of u) = Done (if horiz then w else h)) as Hal.
  { unfold min_along, min_size_hyp. by rewrite Hmin. }
  rewrite fmap_cons. cbn [mapM_o]. rewrite Hal, Hmins. cbn. eexists. split; [done|]. split; [cbn; lia|].
  constructor; [|done]. unfold bounded in *. cbn in *. destruct horiz; lia.
Qed.

Lemma children_sum ws mins K : (0 ≤ K)%Z → Forall (λ v, v ≤ K)%Z mins →
  (Carve.zsum (Carve.mn <$> Carve.children_of ws mins) ≤ zlen ws * K)%Z.
Proof.
  intros HK Hm. assert (Forall (λ v, v ≤ K)%Z (Carve.mn <$> Carve.children_of ws mins)) as HF.
  { apply Forall_fmap, Forall_forall. intros c (i & Hi)%list_elem_of_lookup. unfold Carve.children_of in Hi.
    rewrite list_lookup_imap in Hi. destruct (ws !! i) as [w|]; [|done]. injection Hi as <-. cbn.
    destruct (mins !! i) as [v|] eqn:Hv; [|done]. by eapply Forall_lookup_1 in Hm. }
  assert (length (Carve.mn <$> Carve.children_of ws mins) = length ws) as Hl
    by (by rewrite length_fmap, CarveProofs.length_children_of).
  revert HF Hl. generalize (Carve.mn <$> Carve.children_of ws mins) as vs. intros vs HF <-.
  induction HF as [|v vs Hv HF IH]; [cbn; lia|]. rewrite CarveProofs.zsum_cons. cbn [length]. lia.
Qed.

(** The background children share no node with those laid. *)
Lemma apart_bgs (us ts : list ptree) : us `sublist_of` ts → NoDup (ts ≫= nodes) →
  ∀ x, x ∈ filter (λ t, root_of t ∉ roots us) ts ≫= nodes → x ∉ us ≫= nodes.
Proof.
  intros Hsub Hnd x (t & Hx & [Hnr Ht]%list_elem_of_filter)%list_elem_of_bind (u & Hx' & Hu)%list_elem_of_bind.
  apply Hnr, list_elem_of_fmap. exists u. split; [|done]. f_equal.
  assert (u ∈ ts) as Hu' by (by eapply elem_of_sublist).
  apply list_elem_of_split in Ht as (k1 & k2 & ->).
  assert (u = t ∨ u ∈ k1 ++ k2) as [->|Hu2] by set_solver; [done|]. exfalso. rewrite bind_app, bind_cons in Hnd.
  assert (x ∈ (k1 ≫= nodes) ++ (k2 ≫= nodes)) as Hx2 by (rewrite <-bind_app; apply list_elem_of_bind; eauto).
  apply NoDup_app in Hnd as (_ & Hd1 & Hnd). apply NoDup_app in Hnd as (_ & Hd2 & _).
  apply elem_of_app in Hx2 as [Hx2|Hx2]; [apply (Hd1 x Hx2), elem_of_app; by left|by apply (Hd2 x Hx)].
Qed.

(** A container shown. *)
Lemma shown_boxed r p : rect_ok r → blank p →
  same_pane p (set_content r (place r p)) ∧ boxed (in_rect r) (set_content r (place r p)).
Proof.
  intros Hr (B1 & B2 & B3 & B4 & B5 & B6). split; [done|]. unfold boxed. cbn. rewrite B4, B5, B6.
  split; [done|]. split; [by intros x y|]. split; [by intros x y|]. split; [apply inside_zero|].
  split; [apply inside_zero|constructor].
Qed.
Lemma upd_id l s : upd l s (λ p, p) = l.
Proof.
  unfold upd. destruct (get l s) as [p|] eqn:Hp; [|done].
  rewrite list_insert_id; [by destruct l|]. unfold get in Hp. destruct (panes l !! s); cbn in Hp; congruence.
Qed.
Lemma carved_wrap_shown l l1 s ts us r : small r → ready l (TNode s ts) → us ⊆ ts →
  carved (show_container l s r) l1 us (in_rect r) → carved l l1 [TNode s ts] (in_rect r).
Proof.
  intros Hr Hrd Hsub Hc. rewrite <-(upd_id l1 s). eapply carved_wrap; [done|exact Hsub| |done|exact Hc].
  intros p _. apply shown_boxed, Hr.
Qed.

(** A split's children laid: those in the background at nothing, the others along
    the axis. *)
Lemma carve_split_ok carve l l0 r s ts m a horiz : small r → l0 = show_container l s r →
  ready l (TNode s ts) → (∀ t, t ∈ ts → good carve t) → kind <$> get l s = Some (Container m (roots ts) a) →
  ∃ l', (divide ← divide_list l0 (roots ts);
    l ← foldM (λ l c, if decide (c ∈ divide) then Done l else carve l c ZERO) l0 (roots ts);
    minima ← mapM_o (min_along l horiz) divide;
    spans ← Carve.split_spans (if horiz then rx r else ry r) (if horiz then rw r else rh r) (mt l)
              (weight_of l <$> divide) minima;
    '(l, dividers) ← place_split carve horiz r (mt l) spans 0 (length divide) [] l divide;
    upd_unwrap l s (set_dividers dividers)) = Done l' ∧ carved l l' [TNode s ts] (in_rect r).
Proof.
  intros Hr -> Hrd Hgood Hk. unfold show_container. set (f := λ p, set_content r (place r p)).
  assert (∀ p, get l s = Some p → blank p → same_pane p (f p) ∧ boxed (in_rect r) (f p)) as Hf
    by (intros p _; apply shown_boxed, Hr).
  destruct (ready_kids l s ts f Hrd (λ p H1 H2, proj1 (Hf p H1 H2))) as (Hkids & Hreps & Hnd & Hsz & H31 & p & m' & a' & Hp & Hkp & Ha).
  set (l0 := upd l s f) in *.
  destruct (divide_roots l0 (Some s) ts Hreps Hsz) as (us & -> & Hsub & Hne). obind.
  destruct (carve_bg_ok carve us ts l0 Hkids Hgood Hnd) as (l1 & -> & Hc1). obind.
  set (bgs := filter (λ t, root_of t ∉ roots us) ts) in *.
  assert (us ≠ []) as Hus by (apply Hne; intros ->; cbn in Ha; lia).
  pose proof (apart_bgs us ts Hsub Hnd) as Hdis. fold bgs in Hdis.
  assert (Forall (ready l1) us) as Hrus.
  { pose proof (sublist_ready l0 us ts Hsub Hkids) as H. rewrite Forall_forall in *. intros u Hu.
    eapply carved_ready; [exact Hc1| |by apply H]. intros x Hx Hx'. apply (Hdis x Hx'), list_elem_of_bind. eauto. }
  assert (metrics_ok (metrics l1)) as Hm1 by (destruct us as [|u us']; [done|]; by apply Forall_cons in Hrus as [[] _]).
  destruct (minima_ok l1 horiz us Hrus) as (mins & -> & Hml & Hmb). obind.
  assert (mt l1 = track (metrics l1)) as Hmt by (apply px_of_ok, Hm1).
  assert (length_ok (mt l1)) as Htk by (rewrite Hmt; apply Hm1).
  pose proof (nodes_bind_sublist us ts Hsub) as HN. pose proof (length_le_nodes us) as HU.
  destruct Hr as (Hrok & Hr1 & Hr2). pose proof Hrok as (R1 & R2 & R3 & R4 & R5 & R6).
  set (ws := weight_of l1 <$> roots us).
  assert (length ws = length us) as Hwl by (unfold ws; by rewrite !length_fmap).
  destruct (spans_chain (if horiz then rx r else ry r) (if horiz then rw r else rh r) (mt l1) ws mins (2 ^ 31))
    as (spans & -> & Hsl & Hch).
  { unfold ws. by destruct us. }
  { eapply Forall_impl; [exact Hmb|]. cbn. lia. }
  { by destruct horiz. }
  { by destruct horiz. }
  { apply Htk. }
  { assert (Carve.zsum (Carve.mn <$> Carve.children_of ws mins) ≤ zlen ws * 2 ^ 26)%Z.
    { apply children_sum; [lia|]. eapply Forall_impl; [exact Hmb|]. cbn. lia. }
    assert (0 ≤ zlen ws * mt l1 ≤ 32 * 2 ^ 15)%Z by (unfold length_ok in Htk; nia).
    destruct horiz; lia. }
  { unfold u_max. lia. }
  obind. rewrite length_fmap.
  destruct (place_split_ok carve horiz r (mt l1) spans (2 ^ 31) (conj Hrok (conj Hr1 Hr2)) Htk ltac:(lia) us 0 (length us) [] l1
    (if horiz then rx r else ry r)) as (l2 & ds & -> & Hc2 & Hds).
  { done. }
  { intros t Ht. apply Hgood. by eapply elem_of_sublist. }
  { by eapply NoDup_sublist_nodes. }
  { cbn. lia. }
  { exact Hch. }
  { by destruct horiz. }
  { constructor. }
  obind.
  assert (carved l0 l2 (bgs ++ us) (in_rect r)) as Hc.
  { eapply (carved_app l0 l1 l2 bgs us); [exact Hc1|exact Hc2|done| |done|by intros x y [? _]].
    right. right. by intros x y. }
  assert (s ∉ (bgs ++ us) ≫= nodes) as Hsn.
  { intros (t & Hs & Ht)%list_elem_of_bind. pose proof (rd_nodup _ _ Hrd) as Hn. cbn in Hn. apply NoDup_cons in Hn as [Hni _].
    apply Hni, list_elem_of_bind. exists t. split; [done|]. apply elem_of_app in Ht as [Ht|Ht].
    - by apply list_elem_of_filter in Ht as [_ ?].
    - by eapply elem_of_sublist. }
  assert (get l2 s = Some (f p)) as G2 by (rewrite (cv_out _ _ _ _ Hc) by done; by apply get_upd_eq).
  erewrite upd_unwrap_ok by exact G2. eexists. split; [done|].
  eapply (carved_wrap l l2 s ts (bgs ++ us) (in_rect r) f); [done| |done| |exact Hc].
  - intros t [Ht|Ht]%elem_of_app; [by apply list_elem_of_filter in Ht as [_ ?]|by eapply elem_of_sublist].
  - intros q (B1 & B2 & B3 & B4 & B5 & B6). split; [done|]. by split_and!.
Qed.

(** A container shown with nothing, or one frame of some of its children. *)
Lemma carve_frame_ok carve l r s ts us open members : small r → ready l (TNode s ts) →
  us `sublist_of` ts → (∀ t, t ∈ ts → good carve t) → open < length us →
  ∃ l', place_frame carve (show_container l s r) r (roots us) open members = Done l' ∧
    carved l l' [TNode s ts] (in_rect r).
Proof.
  intros Hr Hrd Hsub Hgood Ho. unfold show_container. set (f := λ p, set_content r (place r p)).
  assert (∀ p, get l s = Some p → blank p → same_pane p (f p) ∧ boxed (in_rect r) (f p)) as Hf
    by (intros p _; apply shown_boxed, Hr).
  destruct (ready_kids l s ts f Hrd (λ p H1 H2, proj1 (Hf p H1 H2))) as (Hkids & Hreps & Hnd & Hsz & H31 & _).
  pose proof (nodes_bind_sublist us ts Hsub) as HN. pose proof (length_le_nodes us) as HU.
  destruct (place_frame_ok carve (upd l s f) r us open members) as (l1 & He & Hc).
  - by eapply sublist_ready.
  - intros t Ht _. apply Hgood. by eapply elem_of_sublist.
  - by eapply NoDup_sublist_nodes.
  - done.
  - done.
  - lia.
  - exists l1. split; [exact He|]. eapply carved_wrap_shown; [done|done| |exact Hc].
    intros t Ht. by eapply elem_of_sublist.
Qed.

Lemma carve_good t fuel : length (nodes t) ≤ fuel → good (carve_f fuel) t.
Proof.
  revert fuel. induction t as [s|s ts IH] using ptree_rect'; intros [|fuel] Hf l r Hrd Hr; try (cbn in Hf; lia);
    pose proof Hrd as [[par Hrep] _ _ _ _ _]; cbn [carve_f root_of].
  - inversion Hrep as [? ? p sf Hp _ Hk|]; subst. rewrite Hp. cbn [fmap option_fmap option_map]. rewrite Hk.
    apply (place_frame_ok (carve_f fuel) l r [TLeaf s] 0 1); [by apply Forall_singleton| |cbn; apply NoDup_singleton|done|cbn; lia..].
    intros t ->%list_elem_of_singleton. unfold is_leaf. cbn. rewrite Hp. cbn. by rewrite Hk.
  - inversion Hrep as [|? ? p m a ? Hp _ Hk Ha _]; subst. rewrite Hp. cbn [fmap option_fmap option_map]. rewrite Hk.
    assert (∀ t, t ∈ ts → good (carve_f fuel) t) as Hgood.
    { intros t Ht. rewrite Forall_forall in IH. apply IH; [done|]. by eapply child_size. }
    assert (kind <$> get l s = Some (Container m (roots ts) a)) as Hks by (rewrite Hp; cbn; by rewrite Hk).
    destruct (ready_kids l s ts (λ p, set_content r (place r p)) Hrd) as (Hkids & Hreps & Hnd & Hsz & H31 & _); [done|].
    change (upd l s (λ p, set_content r (place r p))) with (show_container l s r) in *.
    assert (∃ l', Done (show_container l s r) = Done l' ∧ carved l l' [TNode s ts] (in_rect r)) as Hnone.
    { eexists. split; [done|]. eapply (carved_wrap_shown l _ s ts []); [done|done|set_solver|].
      apply carved_id. constructor. }
    destruct ts as [|t0 ts0] eqn:Hts; [cbn in Ha; lia|]. rewrite <-Hts in *.
    destruct m.
    + destruct (roots ts) as [|r0 rs0] eqn:Hrt; [by rewrite Hts in Hrt|]. rewrite <-Hrt in *.
      exact (carve_split_ok (carve_f fuel) l _ r s ts SplitH a true Hr eq_refl Hrd Hgood Hks).
    + destruct (roots ts) as [|r0 rs0] eqn:Hrt; [by rewrite Hts in Hrt|]. rewrite <-Hrt in *.
      exact (carve_split_ok (carve_f fuel) l _ r s ts SplitV a false Hr eq_refl Hrd Hgood Hks).
    + rewrite (effective_roots _ (Some s) ts Hreps Hsz). obind.
      destruct (shown_root _ (Some s) ts Hreps Hsz a Ha) as (o & -> & Ho). obind.
      destruct o as [u|]; [|exact Hnone]. cbn [fmap option_fmap option_map].
      apply (carve_frame_ok (carve_f fuel) l r s ts [u] 0); [done|done| |done|cbn; lia].
      apply singleton_sublist_l, Ho. done.
    + rewrite (effective_roots _ (Some s) ts Hreps Hsz). obind.
      destruct (filter _ ts) as [|u us] eqn:Hfil; [exact Hnone|]. rewrite <-Hfil.
      assert (filter (λ t, in_front (show_container l s r) t = true) ts `sublist_of` ts) as Hsub by apply sublist_filter.
      set (eff := filter _ ts) in *.
      assert (default 0 (a0 ← roots ts !! a; position (Nat.eqb a0) (roots eff)) < length eff) as Hopen.
      { destruct (roots ts !! a) as [c|]; cbn; [|rewrite Hfil; cbn; lia].
        destruct (position (Nat.eqb c) (roots eff)) as [k|] eqn:Hpos; cbn; [|rewrite Hfil; cbn; lia].
        apply position_Some in Hpos as (x & Hx%lookup_lt_Some & _). by rewrite length_fmap in Hx. }
      destruct (roots eff) as [|r0 rs0] eqn:Hrt; [by rewrite Hfil in Hrt|]. rewrite <-Hrt in *.
      by apply carve_frame_ok.
Qed.

(** ** The legacy layout *)

Lemma placed_boxed r p : rect_ok r → blank p → same_pane p (place r p) ∧ boxed (in_rect r) (place r p).
Proof.
  intros Hr (B1 & B2 & B3 & B4 & B5 & B6). split; [done|]. unfold boxed. cbn. rewrite B3, B4, B5, B6.
  pose proof (inside_zero (in_rect r)). split; [done|]. split; [by intros x y|]. by split_and!.
Qed.
Lemma carved_wrap_placed l l1 s ts us r : small r → ready l (TNode s ts) → us ⊆ ts →
  carved (upd l s (place r)) l1 us (in_rect r) → carved l l1 [TNode s ts] (in_rect r).
Proof.
  intros Hr Hrd Hsub Hc. rewrite <-(upd_id l1 s). eapply carved_wrap; [done|exact Hsub| |done|exact Hc].
  intros p _. apply placed_boxed, Hr.
Qed.

Lemma strip_h_ok mode n r u : small r → length_ok u → (0 ≤ n ≤ 32)%Z →
  ∃ s, strip_h mode n r u = Done s ∧ (0 ≤ s ≤ rh r)%Z.
Proof.
  intros (Hr & H1 & H2) Hu Hn. unfold strip_h, length_ok, rect_ok in *.
  assert (∃ t, match mode with Tabbed => Done u | Stacked => umul 32 u (Z.max n 1) | _ => Done 0%Z end = Done t ∧
    (0 ≤ t ≤ 2 ^ 20)%Z) as (t & -> & Ht).
  { destruct mode; try (eexists; split; [done|]; lia). rewrite umul_ok by (unfold u_max; nia).
    eexists. split; [done|]. nia. }
  obind. destruct (t =? 0)%Z; [exists 0%Z; split; [done|lia]|].
  rewrite uadd_ok by (unfold u_max; lia). obind. eexists. split; [done|].
  destruct (Z.ltb_spec (rh r) (t + 8)), (Z.ltb_spec (rw r) 8); cbn; lia.
Qed.

Lemma divide_legacy_ok rec (horiz : bool) r (each n e : Z) : small r → (0 ≤ each)%Z →
  e = (if horiz then rx r + rw r else ry r + rh r)%Z →
  ∀ (us : list ptree) (i : Z) (l : Layout) (pos : Z), Forall (ready l) us → (∀ t, t ∈ us → good rec t) → NoDup (us ≫= nodes) →
    (i + zlen us = n)%Z → (0 ≤ pos)%Z → (pos + zlen us * each ≤ e)%Z →
    (if horiz then rx r ≤ pos else ry r ≤ pos)%Z →
  ∃ l', divide_legacy rec horiz r each n i pos l (roots us) = Done l' ∧ carved l l' us (beyond horiz r pos).
Proof.
  intros Hr Heach He. pose proof Hr as (Hrok & Hr1 & Hr2). pose proof Hrok as (R1 & R2 & R3 & R4 & R5 & R6).
  assert ((if horiz then uadd 32 (rx r) (rw r) else uadd 32 (ry r) (rh r)) = Done e) as Hend.
  { rewrite He. destruct horiz; by rewrite uadd_ok. }
  assert (e ≤ 2 ^ 20)%Z by (rewrite He; destruct horiz; lia).
  induction us as [|t us IH]; intros i l pos Hrd Hgood Hnd Hi Hpos Hfit Hlo.
  { exists l. split; [done|]. apply carved_id. constructor. }
  apply Forall_cons in Hrd as [Hrt Hrus]. rewrite fmap_cons. cbn [divide_legacy].
  rewrite bind_cons in Hnd. apply NoDup_app in Hnd as (_ & Hdis & Hnd). cbn [length] in Hi, Hfit.
  assert (∃ w, (if (i =? n - 1)%Z then e ← (if horiz then uadd 32 (rx r) (rw r) else uadd 32 (ry r) (rh r)); usub e pos
      else Done each) = Done w ∧ (0 ≤ w)%Z ∧ (pos + w + zlen us * each ≤ e)%Z) as (w & -> & Hw0 & Hw).
  { destruct (Z.eqb_spec i (n - 1)) as [Heq|Hne].
    - rewrite Hend. obind. unfold usub. rewrite (proj2 (Z.leb_le _ _)) by nia.
      exists (e - pos)%Z. split; [done|]. assert (zlen us = 0)%Z as -> by lia. nia.
    - exists each. split; [done|]. nia. }
  obind.
  assert (0 ≤ zlen us * each)%Z by nia.
  assert (small (along horiz r pos w)) as Hsm.
  { unfold along, small, rect_ok, u_max in *. destruct horiz; cbn; lia. }
  destruct (along_ok horiz r pos w Hrok Hpos Hw0) as [_ Hax]; [unfold u_max; lia|].
  assert (∀ x y, in_rect (along horiz r pos w) x y → in_rect r x y) as Hain.
  { unfold along, in_rect. intros x y. destruct horiz; cbn; lia. }
  destruct (Hgood t ltac:(by left) l _ Hrt Hsm) as (l1 & -> & Hc1). obind.
  rewrite uadd_ok by (unfold u_max; lia). obind.
  assert (∀ s, s ∈ [t] ≫= nodes → s ∉ us ≫= nodes) as Hdis' by (intros s; cbn; rewrite app_nil_r; apply Hdis).
  destruct (IH (i + 1)%Z l1 (pos + w)%Z) as (l2 & -> & Hc2).
  - rewrite Forall_forall in *. intros u Hu. eapply carved_ready; [exact Hc1| |by apply Hrus].
    intros s Hs Hs'. apply (Hdis' s Hs'), list_elem_of_bind. eauto.
  - intros u Hu. apply Hgood. by right.
  - done.
  - lia.
  - lia.
  - lia.
  - destruct horiz; lia.
  - exists l2. split; [done|]. change (t :: us) with ([t] ++ us).
    eapply (carved_app l l1 l2 [t] us); [exact Hc1|exact Hc2|done| | |].
    + right. right. intros x y Hx%Hax [_ Hy]. lia.
    + intros x y Hx. split; [by apply Hain|]. apply Hax in Hx. lia.
    + intros x y [Hx Hy]. split; [done|lia].
Qed.

Lemma legacy_good t fuel : length (nodes t) ≤ fuel → good (layout_pane_f fuel) t.
Proof.
  revert fuel. induction t as [s|s ts IH] using ptree_rect'; intros [|fuel] Hf l r Hrd Hr; try (cbn in Hf; lia);
    pose proof Hrd as [[par Hrep] _ Hm _ _ _]; cbn [layout_pane_f root_of].
  - inversion Hrep as [? ? p sf Hp _ Hk|]; subst. rewrite Hp, Hk. eexists. split; [done|].
    apply carved_leaf; [done|]. intros q _. apply placed_boxed, Hr.
  - inversion Hrep as [|? ? p m a ? Hp _ Hk Ha _]; subst. rewrite Hp, Hk.
    assert (∀ t, t ∈ ts → good (layout_pane_f fuel) t) as Hgood.
    { intros t Ht. rewrite Forall_forall in IH. apply IH; [done|]. by eapply child_size. }
    destruct (ready_kids l s ts (place r) Hrd) as (Hkids & Hreps & Hnd & Hsz & H31 & _); [done|].
    set (l0 := upd l s (place r)) in *.
    assert (∃ l', Done l0 = Done l' ∧ carved l l' [TNode s ts] (in_rect r)) as Hnone.
    { eexists. split; [done|]. eapply (carved_wrap_placed l _ s ts []); [done|done|set_solver|].
      apply carved_id. constructor. }
    assert (metrics l0 = metrics l) as Hml by (by apply panes_only_fields, panes_only_upd).
    assert (length_ok (tab_strip_h (metrics l))) as Hts by apply Hm.
    assert (∀ mode, ∃ l', (eff ← effective l0 (roots ts);
        strip ← strip_h mode (as_u 32 (zlen eff)) r (as_u 32 (tab_strip_h (metrics l0)));
        shown ← shown_child l0 (roots ts) eff a;
        match shown with
        | Some a => y ← uadd 32 (ry r) strip; h ← usub (rh r) strip; layout_pane_f fuel l0 a (mkRect (rx r) y (rw r) h)
        | None => Done l0
        end) = Done l' ∧ carved l l' [TNode s ts] (in_rect r)) as Htab.
    { intros mode. rewrite (effective_roots l0 (Some s) ts Hreps Hsz). obind.
      set (eff := filter _ ts). assert (length eff ≤ 31) as Hel.
      { pose proof (length_le_nodes eff). pose proof (nodes_bind_sublist eff ts (sublist_filter _ ts)). lia. }
      rewrite Hml. unfold length_ok in Hts. rewrite !as_u_small by (unfold in_u; rewrite ?length_fmap; lia).
      destruct (strip_h_ok mode (zlen (roots eff)) r (tab_strip_h (metrics l)) Hr) as (st & -> & Hst);
        [done|rewrite length_fmap; lia|]. obind.
      destruct (shown_root l0 (Some s) ts Hreps Hsz a Ha) as (o & Hsh & Ho). fold eff in Hsh. rewrite Hsh.
      obind.
      destruct o as [u|]; [|exact Hnone]. cbn [fmap option_fmap option_map].
      pose proof Hr as ((R1 & R2 & R3 & R4 & R5 & R6) & Hr1 & Hr2).
      rewrite uadd_ok by lia. obind. unfold usub. rewrite (proj2 (Z.leb_le _ _)) by lia.
      obind.
      assert (ready l0 u) as Hru by (by eapply Forall_forall in Hkids; [|apply Ho]).
      destruct (Hgood u (Ho u eq_refl) l0 (mkRect (rx r) (ry r + st) (rw r) (rh r - st)) Hru) as (l1 & -> & Hc).
      { unfold small, rect_ok. cbn. lia. }
      eexists. split; [done|]. eapply (carved_wrap_placed l l1 s ts [u]); [done|done| |].
      - intros t ->%list_elem_of_singleton. by apply Ho.
      - eapply carved_mono; [|exact Hc]. unfold in_rect. cbn. intros x y. lia. }
    assert (∀ horiz, ∃ l', (divide ← divide_list l0 (roots ts);
        l1 ← foldM (λ l c, if decide (c ∈ divide) then Done l else layout_pane_f fuel l c ZERO) l0 (roots ts);
        if (as_u 32 (zlen divide) =? 0)%Z then Panic else
        divide_legacy (layout_pane_f fuel) horiz r ((if horiz then rw r else rh r) / as_u 32 (zlen divide))
          (as_u 32 (zlen divide)) 0 (if horiz then rx r else ry r) l1 divide) = Done l' ∧
        carved l l' [TNode s ts] (in_rect r)) as Hsplit.
    { intros horiz. destruct (divide_roots l0 (Some s) ts Hreps Hsz) as (us & -> & Hsub & Hne). obind.
      assert (1 ≤ length us) as Hus.
      { destruct us; [|cbn; lia]. exfalso. apply Hne; [|done]. by intros ->; cbn in Ha; lia. }
      pose proof (nodes_bind_sublist us ts Hsub) as HN. pose proof (length_le_nodes us) as HU.
      destruct (carve_bg_ok (layout_pane_f fuel) us ts l0 Hkids Hgood Hnd) as (l1 & -> & Hc1). obind.
      rewrite as_u_small by (unfold in_u; rewrite length_fmap; lia). rewrite length_fmap.
      rewrite (proj2 (Z.eqb_neq _ _)) by lia.
      set (bgs := filter (λ t, root_of t ∉ roots us) ts) in *.
      pose proof (apart_bgs us ts Hsub Hnd) as Hdis. fold bgs in Hdis.
      pose proof Hr as ((R1 & R2 & R3 & R4 & R5 & R6) & Hr1 & Hr2).
      destruct (divide_legacy_ok (layout_pane_f fuel) horiz r ((if horiz then rw r else rh r) / zlen us) (zlen us)
        (if horiz then rx r + rw r else ry r + rh r)%Z Hr) with (us := us) (i := 0%Z) (l := l1)
        (pos := if horiz then rx r else ry r) as (l2 & -> & Hc2).
      - apply Z.div_pos; [by destruct horiz|lia].
      - done.
      - pose proof (sublist_ready l0 us ts Hsub Hkids) as H. rewrite Forall_forall in *. intros u Hu.
        eapply carved_ready; [exact Hc1| |by apply H]. intros x Hx Hx'. apply (Hdis x Hx'), list_elem_of_bind. eauto.
      - intros t Ht. apply Hgood. by eapply elem_of_sublist.
      - by eapply NoDup_sublist_nodes.
      - lia.
      - by destruct horiz.
      - pose proof (Z.mul_div_le (if horiz then rw r else rh r) (zlen us) ltac:(lia)). destruct horiz; lia.
      - by destruct horiz.
      - eexists. split; [done|]. eapply (carved_wrap_placed l l2 s ts (bgs ++ us)); [done|done| |].
        + intros t [Ht|Ht]%elem_of_app; [by apply list_elem_of_filter in Ht as [_ ?]|by eapply elem_of_sublist].
        + eapply (carved_app l0 l1 l2 bgs us); [exact Hc1|exact Hc2|done| |done|by intros x y [? _]].
          right. right. by intros x y. }
    destruct m; [| |apply (Htab Tabbed)|apply (Htab Stacked)];
      (destruct (roots ts) as [|r0 rs0] eqn:Hrt; [destruct ts; [cbn in Ha; lia|done]|]; rewrite <-Hrt in *);
      [exact (Hsplit true)|exact (Hsplit false)].
Qed.

(** ** The whole display *)

(** A laid-out layout: all geometry inside [R], distinct visible leaves apart,
    and nothing of another workspace visible. *)
Record tiled (l : Layout) (ts : list ptree) (R : Rect) : Prop := mkTiled {
  td_boxed s p : get l s = Some p → boxed (in_rect R) p;
  td_apart s s' p p' : s ≠ s' → get l s = Some p → get l s' = Some p' → is_leaf l s = true →
    is_leaf l s' = true → visible p = true → visible p' = true → disjoint_rects (rect p) (rect p');
  td_active s p T : get l s = Some p → visible p = true → ts !! active l = Some T → s ∈ nodes T }.

(** [l'] differs from [l] in the geometry of panes, the zoom and the display. *)
Definition redrawn (l l' : Layout) : Prop :=
  (∀ s, PaneCarve.hide <$> get l' s = PaneCarve.hide <$> get l s) ∧ workspaces l' = workspaces l ∧
  active l' = active l ∧ focused l' = focused l ∧ epoch l' = epoch l ∧ id_seq l' = id_seq l.

Lemma inv_redrawn l l' ts : inv l ts → redrawn l l' → length (panes l') ≤ MAX_PANES → env_ok l' →
  (∀ s p, get l' s = Some p → rect_ok (rect p)) → inv l' ts.
Proof.
  intros [Hsh Hloc Hfoc Hep Henv] (Hg & Hw & Ha & Hf & He & Hs) Hlen Henv' Hr.
  assert (∀ s p', get l' s = Some p' → ∃ p, get l s = Some p ∧ same_pane p p') as Hback.
  { intros s p' Hp'. specialize (Hg s). rewrite Hp' in Hg. destruct (get l s) as [p|]; [|done].
    exists p. split; [done|]. exact (Some_inj _ _ Hg). }
  split.
  - eapply shape_sim; [exact Hsh|done|done|]. intros s. specialize (Hg s).
    destruct (get l s) as [p|], (get l' s) as [p'|]; try done. apply same_pane_sim. exact (Some_inj _ _ Hg).
  - eapply local_ext; [exact Hloc|done|done|]. intros s p' Hp'. destruct (Hback s p' Hp') as (p & Hp & Hsame).
    apply same_pane_fields in Hsame as (_ & _ & -> & ->). exists p. split; [done|]. split; [done|].
    split; [by eapply lo_weight|by eapply Hr].
  - by rewrite Ha, Hf.
  - by rewrite He.
  - done.
Qed.
Lemma redrawn_trans l1 l2 l3 : redrawn l1 l2 → redrawn l2 l3 → redrawn l1 l3.
Proof.
  intros (A1 & A2 & A3 & A4 & A5 & A6) (B1 & B2 & B3 & B4 & B5 & B6).
  split; [intros s; by rewrite B1, A1|]. split_and!; congruence.
Qed.
Lemma redrawn_zoom l z : redrawn l (set_zoomed_id z l).
Proof. done. Qed.

Definition dark_all (l : Layout) : Prop := ∀ s p, get l s = Some p → blank p.

(** The display set and everything hidden. *)
Lemma hidden_ok l ts area m prof : inv l ts → metrics_ok m → rect_ok area →
  let l0 := map_panes (set_area area (set_profile prof (set_metrics m l))) PaneCarve.hide in
  inv l0 ts ∧ redrawn l l0 ∧ dark_all l0.
Proof.
  intros Hinv Hm Har l0.
  assert (dark_all l0) as Hd.
  { intros s p. unfold l0. rewrite get_map. destruct (get _ s); [|done]. by intros [= <-]. }
  assert (redrawn l l0) as Hre.
  { split; [|done]. intros s. unfold l0. rewrite get_map. unfold get at 1. cbn [panes set_area set_profile set_metrics].
    fold (get l s). by destruct (get l s). }
  split; [|done]. eapply inv_redrawn; [exact Hinv|exact Hre| |done|].
  - unfold l0. cbn. rewrite length_map. apply Hinv.
  - intros s p Hp. destruct (Hd s p Hp) as (_ & -> & _). apply ZERO_ok.
Qed.

Lemma inv_ready l ts T : inv l ts → dark_all l → T ∈ ts → ready l T.
Proof.
  intros Hinv Hd HT. pose proof (shape_trees _ _ (inv_shape _ _ Hinv)) as Htr.
  destruct (heap_tree l ts Htr T HT) as [Hr Hnd].
  apply list_elem_of_lookup in HT as [i Hi].
  destruct (plug_rep l ts i [] T Htr Hi) as (_ & _ & _ & Hsz). cbn in Hsz.
  pose proof (lo_len _ (inv_local _ _ Hinv)) as Hlen. unfold MAX_PANES in Hlen.
  split; [by exists None|intros s p _; apply Hd|apply Hinv|unfold tree_fuel; lia|lia|done].
Qed.

Lemma leaf_of_rep g par t s p sf : rep g par t → s ∈ nodes t → g s = Some p → kind p = Leaf sf → s ∈ leaves t.
Proof.
  intros Hr (C & u & -> & <-)%find_ctx Hp Hk. apply leaves_in_plug.
  assert (∃ par', rep g par' u) as [par' Hu].
  { clear Hp Hk. revert par u Hr. induction C as [|f C IH]; intros par u Hr; [by exists par|].
    destruct (IH par (fill f u) Hr) as [par' Hf]. unfold fill in Hf. inversion Hf as [|? ? ? ? ? ? ? ? ? ? Hts]; subst.
    exists (Some (fr_slot f)). rewrite Forall_app, Forall_cons in Hts. tauto. }
  inversion Hu; subst; cbn in *; [by left|congruence].
Qed.

(** Some trees of the active one laid out on a dark layout. *)
Lemma carved_tiled l0 l ts T us R : inv l0 ts → dark_all l0 → ts !! active l0 = Some T → Forall (ready l0) us →
  (∀ s, s ∈ us ≫= nodes → s ∈ nodes T) → carved l0 l us (in_rect R) →
  inv l ts ∧ redrawn l0 l ∧ tiled l ts R.
Proof.
  intros Hinv Hd HT Hus Hsub Hc. pose proof (cv_only _ _ _ _ Hc) as [Hpo Hlen].
  assert (∀ s p, get l s = Some p → boxed (in_rect R) p) as Hbox.
  { intros s p Hp. destruct (decide (s ∈ us ≫= nodes)) as [Hs|Hs].
    - destruct (cv_in _ _ _ _ Hc s Hs) as (q & q' & _ & Hq' & _ & Hb). congruence.
    - rewrite (cv_out _ _ _ _ Hc s Hs) in Hp. by apply blank_boxed, (Hd s). }
  assert (∀ s p, get l s = Some p → visible p = true → s ∈ us ≫= nodes) as Hvis.
  { intros s p Hp Hv. destruct (decide (s ∈ us ≫= nodes)) as [|Hs]; [done|].
    rewrite (cv_out _ _ _ _ Hc s Hs) in Hp. destruct (Hd s p Hp). congruence. }
  assert (redrawn l0 l) as Hre.
  { split; [|by rewrite Hpo]. intros s. destruct (decide (s ∈ us ≫= nodes)) as [Hs|Hs].
    - destruct (cv_in _ _ _ _ Hc s Hs) as (q & q' & -> & -> & Hsame & _). cbn. by f_equal.
    - by rewrite (cv_out _ _ _ _ Hc s Hs). }
  assert (∀ s p, get l s = Some p → is_leaf l s = true → visible p = true → s ∈ us ≫= leaves) as Hleaf.
  { intros s p Hp Hlf Hv. apply (Hvis s p Hp), list_elem_of_bind in Hv as (t & Hs & Ht).
    apply list_elem_of_bind. exists t. split; [|done].
    rewrite Forall_forall in Hus. destruct (Hus t Ht) as [[par Hrep] _ _ _ _ _].
    destruct (is_leaf_live l s Hlf) as (p' & sf & Hp' & Hk).
    eapply (leaf_of_rep (get l) par); [|done|exact Hp'|exact Hk].
    eapply rep_sim; [|exact Hrep]. intros x _. by eapply carved_sim. }
  split; [|split; [done|]].
  - eapply inv_redrawn; [exact Hinv|done|rewrite Hlen; apply Hinv| |].
    + rewrite Hpo. apply Hinv.
    + intros s p Hp. apply (Hbox s p Hp).
  - split; [done| |].
    + intros s s' p p' Hne Hp Hp' Hl Hl' Hv Hv'.
      eapply (cv_apart _ _ _ _ Hc s s'); [by eapply Hleaf|by eapply Hleaf|done..].
    + intros s p T' Hp Hv HT'.
      replace (active l) with (active l0) in HT' by (by rewrite Hpo). rewrite HT in HT'. injection HT' as <-.
      by eapply Hsub, Hvis.
Qed.

Lemma zoom_target_ok l ts T : inv l ts → ts !! active l = Some T →
  ∃ z o, zoom_target l = Done (set_zoomed_id z l, o) ∧ ∀ s, o = Some s → s ∈ leaves T ∧ zoomed_id l = id_of l s.
Proof.
  intros Hinv HT. pose proof (inv_shape _ _ Hinv) as Hsh. unfold zoom_target.
  assert (set_zoomed_id (zoomed_id l) l = l) as Hid by by destruct l.
  assert (∀ z, ∃ z' o, Done (set_zoomed_id z l, None) = Done (set_zoomed_id z' l, o) ∧
    ∀ s, o = Some s → s ∈ leaves T ∧ zoomed_id l = id_of l s) as Hno by (intros z; by exists z, None).
  destruct (zoomed_id l) as [zid|] eqn:Hz; [|exists None, None; by rewrite Hid].
  destruct (slot_of_id l zid) as [z|] eqn:Hs; [|apply Hno]. destruct (is_leaf l z) eqn:Hlf; [|apply Hno].
  destruct (in_active_cases l ts z Hsh) as [-> | (C & t & HT' & Hr & ->)]; obind; [apply Hno|].
  exists (Some zid), (Some z). split; [by rewrite Hid|]. intros s [= <-].
  destruct (is_leaf_live l z Hlf) as (p & sf & Hp & Hk). split.
  - rewrite HT in HT'. injection HT' as ->. destruct (heap_tree l ts (shape_trees _ _ Hsh) (plug C t)) as [Hrep _];
      [by eapply list_elem_of_lookup_2|].
    eapply leaf_of_rep; [exact Hrep| |exact Hp|exact Hk]. subst z. rewrite nodes_plug. apply elem_of_app. left. apply nodes_root.
  - unfold slot_of_id in Hs. apply position_Some in Hs as (o & Ho & Hzid). unfold id_of, get in *. rewrite Ho in Hp |- *.
    cbn in Hp. subst o. cbn in *. apply Z.eqb_eq in Hzid. by rewrite Hzid.
Qed.

(** A zoomed leaf fills the display alone. *)
Lemma zoomed_carved l ts T s R : inv l ts → dark_all l → ts !! active l = Some T → s ∈ leaves T → rect_ok R →
  ∃ l', upd_unwrap l s (λ p, set_content R (place R p)) = Done l' ∧ inv l' ts ∧ redrawn l l' ∧ tiled l' ts R ∧
    ∀ s' p, get l' s' = Some p → visible p = bool_decide (s' = s) ∧ (s' = s → rect p = R ∧ content p = R).
Proof.
  intros Hinv Hd HT Hs HR. pose proof (shape_trees _ _ (inv_shape _ _ Hinv)) as Htr.
  assert (T ∈ ts) as HTin by by eapply list_elem_of_lookup_2.
  destruct (inv_ready l ts T Hinv Hd HTin) as [[par Hr] H2 H3 H4 H5 H6].
  pose proof (nodes_nonempty T) as Hne.
  assert (ready l (TLeaf s)) as Hrd.
  { destruct (find_leaf T s Hs) as [C ->]. destruct (heap_tree l ts Htr _ HTin) as [[_ Hl]%rep_plug _].
    split; [by eexists|intros x p _; apply Hd|done|cbn; lia|cbn; lia|cbn; apply NoDup_singleton]. }
  destruct (ready_live l [TLeaf s] s) as (p & Hp & Hb); [by apply Forall_singleton|by left|].
  erewrite upd_unwrap_ok by exact Hp. eexists. split; [done|].
  pose proof (carved_leaf l s (λ p, set_content R (place R p)) (in_rect R) Hrd
    (λ q _ Hq, shown_boxed R q HR Hq)) as Hc.
  destruct (λ H1 H2, carved_tiled l _ ts T [TLeaf s] R Hinv Hd HT H1 H2 Hc) as (I1 & I2 & I3);
    [by apply Forall_singleton| |].
  { intros x Hx. cbn in Hx. apply list_elem_of_singleton in Hx as ->. by apply leaves_nodes. }
  split; [done|]. split; [done|]. split; [done|]. intros s' q. rewrite get_upd. case_decide as Hds.
  - subst s'. rewrite Hp. intros [= <-]. by rewrite bool_decide_eq_true_2.
  - intros Hq. destruct (Hd s' q Hq) as [-> _]. by rewrite bool_decide_eq_false_2 by congruence.
Qed.

Lemma instrument_ok l ts area : inv l ts → dark_all l → small area →
  ∃ l', recompute_instrument l area = Done l' ∧ inv l' ts ∧ redrawn l l' ∧ tiled l' ts area.
Proof.
  intros Hinv Hd Har. destruct (shape_root l ts (shape_skel _ _ (inv_shape _ _ Hinv))) as (T & HT & Hroot).
  assert (T ∈ ts) as HTin by by eapply list_elem_of_lookup_2.
  unfold recompute_instrument. destruct (zoom_target_ok l ts T Hinv HT) as (z & o & -> & Ho). obind.
  pose proof (inv_zoom l ts z Hinv) as Hinv1. set (l1 := set_zoomed_id z l) in *.
  assert (dark_all l1) as Hd1 by exact Hd. destruct o as [s|].
  - destruct (zoomed_carved l1 ts T s area Hinv1 Hd1 HT) as (l' & -> & H1 & H2 & H3 & _); [by apply Ho|apply Har|].
    exists l'. split; [done|]. by split.
  - change (root l1) with (root l). rewrite Hroot. obind.
    pose proof (inv_env _ _ Hinv1) as [Hm _].
    assert (length_ok (outer_pad (metrics l1))) as Hpad by apply Hm. rewrite px_of_ok by done.
    destruct (inset_small area (outer_pad (metrics l1)) Har Hpad) as (a & -> & Ha & Hin). obind.
    pose proof (inv_ready l1 ts T Hinv1 Hd1 HTin) as Hrd.
    destruct (carve_good T (tree_fuel l1) (rd_fuel _ _ Hrd) l1 a Hrd Ha) as (l' & He & Hc).
    exists l'. split; [exact He|].
    apply (carved_tiled l1 l' ts T [T] area); [done|done|done|by apply Forall_singleton| |].
    + intros s. cbn. by rewrite app_nil_r.
    + eapply carved_mono; [exact Hin|exact Hc].
Qed.

(** ** The ring of the legacy layout *)

Lemma mapM_Forall2 {A B} (f : A → outcome B) (Q : A → B → Prop) xs : (∀ x, x ∈ xs → ∃ y, f x = Done y ∧ Q x y) →
  ∃ ys, mapM_o f xs = Done ys ∧ Forall2 Q xs ys.
Proof.
  induction xs as [|x xs IH]; intros H; [by exists []|]. cbn [mapM_o].
  destruct (H x) as (y & -> & Hy); [by left|]. destruct IH as (ys & -> & Hys); [intros; apply H; by right|].
  obind. eexists. split; [done|]. by constructor.
Qed.
Lemma map_panesM_ok l f (Q : Pane → Pane → Prop) : (∀ s p, get l s = Some p → ∃ p', f p = Done p' ∧ Q p p') →
  ∃ l', map_panesM l f = Done l' ∧ panes_only l l' ∧
    ∀ s, match get l s, get l' s with Some p, Some p' => Q p p' | None, None => True | _, _ => False end.
Proof.
  intros H. unfold map_panesM.
  destruct (mapM_Forall2 (λ o, match o with Some p => p ← f p; Done (Some p) | None => Done None end)
    (λ o o', match o, o' with Some p, Some p' => Q p p' | None, None => True | _, _ => False end) (panes l))
    as (ps & -> & HF).
  { intros [p|] Hp; [|by exists None]. apply list_elem_of_lookup in Hp as [s Hs].
    destruct (H s p) as (p' & -> & HQ); [unfold get; by rewrite Hs|]. by exists (Some p'). }
  obind. eexists. split; [done|]. split.
  - split; [done|]. cbn. symmetry. by eapply Forall2_length.
  - intros s. unfold get. cbn.
    destruct (panes l !! s) as [o|] eqn:Ho.
    + destruct (Forall2_lookup_l _ _ _ _ _ HF Ho) as (o' & -> & Hq). by destruct o, o'.
    + apply Forall2_length in HF. apply lookup_ge_None in Ho.
      destruct (ps !! s) eqn:Hps; [apply lookup_lt_Some in Hps; lia|done].
Qed.

Lemma inset_pane_ok P ring tag_h p : (0 ≤ ring ≤ 2 ^ 17)%Z → length_ok tag_h → boxed P p →
  ∃ p', inset_pane ring tag_h p = Done p' ∧ same_pane p p' ∧ boxed P p' ∧ visible p' = visible p ∧ rect p' = rect p ∧
    (visible p = true → inside (in_rect (rect p)) (content p')).
Proof.
  intros Hring Htag Hb. pose proof Hb as (Hok & Hin & Hc & Ht & Hs & Hdv). unfold inset_pane.
  destruct (visible p) eqn:Hv; cbn [negb]; [|by exists p].
  assert (∀ c : Rect, inside (in_rect (rect p)) c → inside P c) as Hsub by (intros c H x y Hxy; by apply Hin, H).
  assert (inside (in_rect (rect p)) (rect p)) as Hself by by intros x y.
  assert (∃ p', Done (set_content (rect p) p) = Done p' ∧ same_pane p p' ∧ boxed P p' ∧ visible p' = true ∧
    rect p' = rect p ∧ (true = true → inside (in_rect (rect p)) (content p'))) as Hfull.
  { eexists. split; [done|]. split_and!; [done| |done..]. unfold boxed. by split_and!. }
  destruct ((0 <? ring)%Z && is_leaf_kind (kind p)); cbn [negb]; [|exact Hfull].
  unfold length_ok in Htag. rewrite umul_ok by (unfold u_max; lia). obind.
  destruct (_ && _) eqn:Hfit; cbn [negb]; [|exact Hfull].
  apply andb_true_iff in Hfit as [Hw%Z.ltb_lt Hh%Z.ltb_lt]. pose proof Hok as (R1 & R2 & R3 & R4 & R5 & R6).
  rewrite !uadd_ok by (unfold u_max in *; lia). cbn [mbind outcome_bind rx ry rw rh].
  assert (∀ x y w h, (rx (rect p) ≤ x)%Z → (ry (rect p) ≤ y)%Z → (x + w ≤ rx (rect p) + rw (rect p))%Z →
    (y + h ≤ ry (rect p) + rh (rect p))%Z → inside (in_rect (rect p)) (mkRect x y w h)) as Hbox.
  { intros x y w h ? ? ? ? a b. unfold in_rect. cbn. lia. }
  destruct (Z.ltb_spec (tag_h + tag_h) (rh (rect p) - 2 * ring)).
  - rewrite uadd_ok by lia. obind. eexists. split; [done|].
    split; [done|]. split; [|split; [done|split; [done|intros _; apply Hbox; cbn; lia]]].
    split; [done|]. cbn. split_and!; try done; apply Hsub, Hbox; lia.
  - eexists. split; [done|].
    split; [done|]. split; [|split; [done|split; [done|intros _; apply Hbox; cbn; lia]]].
    split; [done|]. cbn. split_and!; try done; apply Hsub, Hbox; lia.
Qed.

Lemma legacy_ok l ts w h gaps : inv l ts → dark_all l → small (mkRect 0 0 w h) → length_ok gaps →
  ∃ l', recompute_legacy l w h gaps = Done l' ∧ inv l' ts ∧ redrawn l l' ∧ tiled l' ts (mkRect 0 0 w h).
Proof.
  intros Hinv Hd Har Hgaps. destruct (shape_root l ts (shape_skel _ _ (inv_shape _ _ Hinv))) as (T & HT & Hroot).
  assert (T ∈ ts) as HTin by by eapply list_elem_of_lookup_2.
  unfold recompute_legacy. destruct (zoom_target_ok l ts T Hinv HT) as (z & o & -> & Ho). obind.
  pose proof (inv_zoom l ts z Hinv) as Hinv1. set (l1 := set_zoomed_id z l) in *. set (full := mkRect 0 0 w h) in *.
  assert (dark_all l1) as Hd1 by exact Hd. destruct o as [s|].
  { destruct (zoomed_carved l1 ts T s full Hinv1 Hd1 HT) as (l' & -> & H1 & H2 & H3 & _); [by apply Ho|apply Har|].
    exists l'. split; [done|]. by split. }
  change (root l1) with (root l). rewrite Hroot. obind.
  pose proof (inv_ready l1 ts T Hinv1 Hd1 HTin) as Hrd.
  destruct (legacy_good T (tree_fuel l1) (rd_fuel _ _ Hrd) l1 full Hrd Har) as (l2 & He & Hc).
  unfold layout_pane. rewrite He. obind.
  destruct (λ H1 H2, carved_tiled l1 l2 ts T [T] full Hinv1 Hd1 HT H1 H2 Hc) as (Hinv2 & Hre & [Hbx Hap Hac]);
    [by apply Forall_singleton|intros s; cbn; by rewrite app_nil_r|].
  pose proof (inv_env _ _ Hinv2) as [Hm _]. pose proof Hm as (Hbv & Hhl & Hhd & _). unfold length_ok in Hbv, Hhl, Hhd, Hgaps.
  unfold ichk. rewrite (proj2 (andb_true_iff _ _)) by (rewrite Z.leb_le, Z.ltb_lt; cbn; lia). obind.
  rewrite !as_u_small by (unfold in_u; lia).
  assert (∃ ring, (if 1 <? foreground_leaf_count l2 then uadd 32 gaps (bevel (metrics l2) + hairline (metrics l2))
    else Done 0%Z) = Done ring ∧ (0 ≤ ring ≤ 2 ^ 17)%Z) as (ring & -> & Hring).
  { destruct (1 <? _); [rewrite uadd_ok by (unfold u_max; lia)|]; eexists; (split; [done|lia]). }
  obind.
  destruct (map_panesM_ok l2 (inset_pane ring (header_h (metrics l2))) (λ p p', same_pane p p' ∧
    boxed (in_rect full) p' ∧ visible p' = visible p ∧ rect p' = rect p)) as (l3 & -> & Hpo & Hg).
  { intros s p Hp. destruct (inset_pane_ok (in_rect full) ring (header_h (metrics l2)) p Hring Hhd (Hbx s p Hp))
      as (p' & -> & A1 & A2 & A3 & A4 & _). eauto 10. }
  assert (∀ s p', get l3 s = Some p' → ∃ p, get l2 s = Some p ∧ same_pane p p' ∧ boxed (in_rect full) p' ∧
    visible p' = visible p ∧ rect p' = rect p) as Hback.
  { intros s p' Hp'. specialize (Hg s). rewrite Hp' in Hg. destruct (get l2 s) as [p|]; [|done]. eauto. }
  assert (redrawn l2 l3) as Hre2.
  { destruct Hpo as [Hpo _]. split; [|by rewrite Hpo]. intros s. specialize (Hg s).
    destruct (get l2 s) as [p|], (get l3 s) as [p'|]; try done. cbn. f_equal. apply Hg. }
  exists l3. split; [done|]. split; [|split; [by eapply redrawn_trans|]].
  - eapply inv_redrawn; [exact Hinv2|done| | |].
    + destruct Hpo as [_ ->]. apply Hinv2.
    + destruct Hpo as [Hpo _]. rewrite Hpo. apply Hinv2.
    + intros s p' Hp'. by destruct (Hback s p' Hp') as (p & _ & _ & [] & _).
  - assert (∀ s, is_leaf l3 s = is_leaf l2 s) as Hlf.
    { intros s. specialize (Hg s). unfold is_leaf. destruct (get l2 s), (get l3 s); try done.
      destruct Hg as [(_ & Hk & _)%same_pane_fields _]. cbn. by rewrite Hk. }
    split.
    + intros s p' Hp'. by destruct (Hback s p' Hp') as (p & _ & _ & ? & _).
    + intros s s' p p' Hne Hp Hp'. rewrite !Hlf. intros L L' V V'.
      destruct (Hback s p Hp) as (q & Q & _ & _ & QV & ->), (Hback s' p' Hp') as (q' & Q' & _ & _ & QV' & ->).
      eapply (Hap s s'); [done..| |]; congruence.
    + intros s p T' Hp Hv. destruct (Hback s p Hp) as (q & Q & _ & _ & QV & _).
      replace (active l3) with (active l2) by (symmetry; apply Hre2). eapply Hac; [exact Q|congruence].
Qed.

(** ** Recompute *)

(** The rectangle a recompute lays the tree out in. *)
Definition canvas (prof : Profile) (area : Rect) : Rect :=
  match prof with Legacy => mkRect 0 0 (rw area) (rh area) | Instrument => area end.

Lemma recompute_ok l ts area gaps m prof : inv l ts → metrics_ok m → small area → length_ok gaps →
  ∃ l', recompute l area gaps m prof = Done l' ∧ inv l' ts ∧ redrawn l l' ∧ tiled l' ts (canvas prof area).
Proof.
  intros Hinv Hm Har Hgaps. unfold recompute.
  destruct (hidden_ok l ts area m prof Hinv Hm (proj1 Har)) as (Hinv0 & Hre0 & Hd0). cbv zeta in Hinv0, Hre0, Hd0.
  set (l0 := map_panes _ _) in *. destruct prof; cbn [canvas].
  - destruct (legacy_ok l0 ts (rw area) (rh area) gaps Hinv0 Hd0) as (l' & -> & H1 & H2 & H3); [|done|].
    { destruct Har as ((R1 & R2 & R3 & R4 & R5 & R6) & A1 & A2). unfold small, rect_ok. cbn. lia. }
    exists l'. split; [done|]. split; [done|]. split; [by eapply redrawn_trans|done].
  - destruct (instrument_ok l0 ts area Hinv0 Hd0 Har) as (l' & -> & H1 & H2 & H3).
    exists l'. split; [done|]. split; [done|]. split; [by eapply redrawn_trans|done].
Qed.

(** A zoomed leaf of the active tree is the target. *)
Lemma zoom_target_hit l ts T s p : inv l ts → ts !! active l = Some T → s ∈ leaves T → get l s = Some p →
  zoomed_id l = Some (pid p) → zoom_target l = Done (l, Some s).
Proof.
  intros Hinv HT Hs Hp Hz. pose proof (inv_shape _ _ Hinv) as Hsh. unfold zoom_target.
  rewrite Hz, (slot_of_id_live l s p (inv_local _ _ Hinv) Hp).
  destruct (leaf_kind (get l) ts T s (shape_trees _ _ Hsh)) as (q & sf & Hq & Hk);
    [by eapply list_elem_of_lookup_2|done|].
  assert (is_leaf l s = true) as -> by (unfold is_leaf; rewrite Hq; cbn; by rewrite Hk).
  destruct (find_leaf T s Hs) as [C ->].
  rewrite (in_active_spec l ts (active l) C (TLeaf s) (shape_skel _ _ Hsh) HT : in_active_root l s = _).
  by rewrite bool_decide_eq_true_2.
Qed.

Lemma zoomed_recompute l ts area gaps m prof T s p : inv l ts → metrics_ok m → small area → length_ok gaps →
  ts !! active l = Some T → s ∈ leaves T → get l s = Some p → zoomed_id l = Some (pid p) →
  ∃ l', recompute l area gaps m prof = Done l' ∧ redrawn l l' ∧
    ∀ s' q, get l' s' = Some q → visible q = bool_decide (s' = s) ∧
      (s' = s → rect q = canvas prof area ∧ content q = canvas prof area).
Proof.
  intros Hinv Hm Har Hgaps HT Hs Hp Hz. unfold recompute.
  destruct (hidden_ok l ts area m prof Hinv Hm (proj1 Har)) as (Hinv0 & Hre0 & Hd0). cbv zeta in Hinv0, Hre0, Hd0.
  set (l0 := map_panes _ _) in *.
  assert (get l0 s = Some (PaneCarve.hide p)) as Hp0.
  { unfold l0. rewrite get_map. unfold get in *. cbn. by rewrite Hp. }
  pose proof (zoom_target_hit l0 ts T s _ Hinv0 HT Hs Hp0 Hz) as Hzt.
  assert (rect_ok (canvas prof area)) as Hc.
  { destruct Har as ((R1 & R2 & R3 & R4 & R5 & R6) & A1 & A2). destruct prof; [|done]. unfold rect_ok. cbn. lia. }
  destruct (zoomed_carved l0 ts T s (canvas prof area) Hinv0 Hd0 HT Hs Hc) as (l' & He & _ & Hre & _ & Hv).
  exists l'. split; [|split; [by eapply redrawn_trans|done]].
  destruct prof; [unfold recompute_legacy|unfold recompute_instrument]; rewrite Hzt; exact He.
Qed.

End PaneGeom.
