(* ===== verification/PaneSpec.v ===== *)
(** * What the pane tree promises

    The verbs a client or the keyboard drives the layout with, the layouts they
    reach from a new one, and the properties of the whole: no verb panics or
    loops, every one keeps the invariant, and the structural ones do to the tree
    what they are named for. *)

From stdpp Require Import strings sorting.
From S2P Require Import Prelude Geometry GeometryProofs Carve PaneData PaneTree PaneCarve PaneRep.
From S2P Require Import PaneWalks PaneInv PaneSplit PaneHost PaneFocus PaneClose PaneStamp PaneWork.
From S2P Require Import PaneMove PaneSend PaneGeom.
Import Geometry GeometryProofs PaneData PaneTree PaneCarve PaneRep PaneWalks PaneInv PaneSplit PaneHost PaneFocus
  PaneClose PaneStamp PaneWork PaneMove PaneSend PaneGeom.
Open Scope nat_scope.

Module PaneSpec.

(** ** Verbs *)

Inductive verb :=
  | VSplit (slot : nat) (mode : Mode)
  | VHost (n : nat) (conn peer : Z)
  | VHostInto (n slot : nat)
  | VClose (slot : nat)
  | VKeep (slot : nat) (owner : Z)
  | VAsk (slot : nat)
  | VFocus (slot : nat)
  | VFocusDir (dir : Dir)
  | VSetMode (slot : nat) (mode : Mode)
  | VZoom (slot : nat)
  | VUnzoom
  | VTab (forward : bool)
  | VWeight (slot : nat) (w : Z)
  | VMove (slot : nat) (dir : Dir)
  | VSwitch (n owner : Z)
  | VSend (n owner : Z) (keep_place : bool)
  | VReap
  | VMint (slot : nat) (token : Z)
  | VConsume (token : Z)
  | VOwner (slot : nat) (owner : Z)
  | VCreator (slot : nat) (conn peer : Z)
  | VRestamp (from to : Z)
  | VRelease (conn : Z)
  | VBackground (bg : list nat)
  | VRecompute (disp : Rect) (gaps : Z) (m : Metrics) (prof : Profile).

Definition exec (v : verb) (l : Layout) : outcome Layout :=
  match v with
  | VSplit slot mode => '(l, _) ← split l slot mode; Done l
  | VHost n conn peer => '(l, _) ← host_for l n conn peer; Done l
  | VHostInto n slot => '(l, _) ← host_into l n slot; Done l
  | VClose slot => '(l, _) ← close l slot; Done l
  | VKeep slot owner => '(l, _) ← keep_as_fresh l slot owner; Done l
  | VAsk slot => '(l, _) ← ask_fresh l slot; Done l
  | VFocus slot => '(l, _) ← focus l slot; Done l
  | VFocusDir dir => '(l, _) ← focus_dir l dir; Done l
  | VSetMode slot mode => '(l, _) ← set_mode l slot mode; Done l
  | VZoom slot => '(l, _) ← zoom_toggle l slot; Done l
  | VUnzoom => unzoom l
  | VTab forward => '(l, _) ← tab_cycle l forward; Done l
  | VWeight slot w => '(l, _) ← set_pane_weight l slot w; Done l
  | VMove slot dir => '(l, _) ← move_dir l slot dir; Done l
  | VSwitch n owner => '(l, _) ← switch_workspace l n owner; Done l
  | VSend n owner keep_place => '(l, _) ← move_focused_to_workspace l n owner keep_place; Done l
  | VReap => '(l, _) ← reap_empty_workspaces l; Done l
  | VMint slot token => Done (fst (mint_claim l slot token))
  | VConsume token => Done (fst (consume_claim l token))
  | VOwner slot owner => Done (set_owner l slot owner)
  | VCreator slot conn peer => Done (set_creator l slot conn peer)
  | VRestamp from to => Done (fst (restamp_empties l from to))
  | VRelease conn => Done (fst (release_creator l conn))
  | VBackground bg => apply_backgrounded l bg
  | VRecompute disp gaps m prof => recompute l disp gaps m prof
  end.

(** The arguments the code's types admit; a recompute is for a display of at most
    2^20 pixels a side with lengths below 2^15. *)
Definition verb_ok (v : verb) : Prop :=
  match v with
  | VWeight _ w => (0 ≤ w ≤ u_max 16)%Z
  | VSwitch n _ | VSend n _ _ => (0 ≤ n)%Z
  | VRecompute disp gaps m _ => metrics_ok m ∧ small disp ∧ length_ok gaps
  | _ => True
  end.

(** The layouts verbs reach, while the epoch has room. *)
Inductive reachable : Layout → Prop :=
  | reach_new l : new = Done l → reachable l
  | reach_step v l l' : reachable l → verb_ok v → headroom l → exec v l = Done l' → reachable l'.

(** ** The invariant as a test *)

Fixpoint rep_b (l : Layout) (par : option nat) (t : ptree) : bool :=
  match t with
  | TLeaf s =>
      match get l s with
      | Some p => bool_decide (parent p = par) && match kind p with Leaf _ => true | _ => false end
      | None => false
      end
  | TNode s ts =>
      match get l s with
      | Some p =>
          bool_decide (parent p = par) &&
          match kind p with
          | Container _ cs a => bool_decide (cs = roots ts) && (a <? length ts)
          | _ => false
          end && forallb (rep_b l (Some s)) ts
      | None => false
      end
  end.
Fixpoint wide_b (t : ptree) : bool :=
  match t with TLeaf _ => true | TNode _ ts => (2 <=? length ts) && forallb wide_b ts end.
Fixpoint sorted_b (ns : list Z) : bool :=
  match ns with [] => true | n :: ns => forallb (Z.ltb n) ns && sorted_b ns end.

Definition rect_b (r : Rect) : bool :=
  ((0 <=? rx r) && (0 <=? ry r) && (0 <=? rw r) && (0 <=? rh r) &&
   (rx r + rw r <=? u_max 32) && (ry r + rh r <=? u_max 32))%Z.
Definition pane_b (l : Layout) (s : nat) (p : Pane) : bool :=
  ((0 <? pid p) && (pid p <=? id_seq l) && (1 <=? weight p) && (weight p <=? u_max 16))%Z &&
  rect_b (rect p) &&
  forallb (λ s', match get l s' with Some p' => negb (pid p =? pid p')%Z || (s =? s') | None => true end)
    (seq 0 (length (panes l))).
Definition length_b (v : Z) : bool := ((0 <=? v) && (v <? 2 ^ 15))%Z.
Definition metrics_b (m : Metrics) : bool :=
  forallb length_b [bevel m; hairline m; header_h m; tab_strip_h m; outer_pad m; track m; Geometry.frame m;
                    min_pane_w m; min_body_h m].

Definition inv_b (l : Layout) (ts : list ptree) : bool :=
  let slots := seq 0 (length (panes l)) in
  let ns := ts ≫= nodes in
  forallb (rep_b l None) ts && bool_decide (NoDup ns) &&
  forallb (λ s, negb (bool_decide (is_Some (get l s))) || bool_decide (s ∈ ns)) slots &&
  bool_decide (ws_root <$> workspaces l = roots ts) && forallb wide_b ts &&
  sorted_b (number <$> workspaces l) && forallb (λ w, (1 <=? number w) && (number w <=? 9))%Z (workspaces l) &&
  (active l <? length ts) &&
  forallb (λ s, from_option (pane_b l s) true (get l s)) slots &&
  ((0 <=? id_seq l) && (id_seq l <=? u_max 32))%Z && (length (panes l) <=? MAX_PANES) &&
  from_option (λ T, bool_decide (focused l ∈ leaves T)) false (ts !! active l) && (0 <=? epoch l)%Z &&
  metrics_b (metrics l) && rect_b (area l).

Lemma rep_b_sound l par t : rep_b l par t = true → rep (get l) par t.
Proof.
  revert par. induction t as [s|s ts IH] using ptree_rect'; intros par; cbn [rep_b];
    destruct (get l s) as [p|] eqn:Hp; try done; rewrite ?andb_true_iff.
  - intros [Hpar Hk]. apply bool_decide_eq_true in Hpar. destruct (kind p) eqn:Hkp; [|done]. by econstructor.
  - intros [[Hpar Hk] Hts]. apply bool_decide_eq_true in Hpar. destruct (kind p) as [|m cs a] eqn:Hkp; [done|].
    apply andb_true_iff in Hk as [->%bool_decide_eq_true Ha%Nat.ltb_lt].
    econstructor; [done|done|done|done|]. apply forallb_Forall in Hts. rewrite Forall_forall in *. auto.
Qed.
Lemma wide_b_sound t : wide_b t = true → wide t.
Proof.
  induction t as [s|s ts IH] using ptree_rect'; [done|]. cbn [wide_b]. rewrite wide_node, andb_true_iff.
  intros [Hl%Nat.leb_le Hts]. split; [done|]. apply forallb_Forall in Hts. rewrite Forall_forall in *. auto.
Qed.
Lemma sorted_b_sound ns : sorted_b ns = true → StronglySorted Z.lt ns.
Proof.
  induction ns as [|n ns IH]; [constructor|]. cbn. rewrite andb_true_iff. intros [Hf Hs]. constructor; [auto|].
  apply forallb_Forall in Hf. eapply Forall_impl; [exact Hf|]. intros x. cbn. apply Z.ltb_lt.
Qed.
Lemma rect_b_sound r : rect_b r = true → rect_ok r.
Proof. unfold rect_b, rect_ok. rewrite !andb_true_iff, !Z.leb_le. tauto. Qed.
Lemma metrics_b_sound m : metrics_b m = true → metrics_ok m.
Proof.
  unfold metrics_b, metrics_ok, length_b, length_ok. cbn. rewrite !andb_true_iff, !Z.leb_le, !Z.ltb_lt. tauto.
Qed.
Lemma slots_live l (P : nat → bool) s p : forallb P (seq 0 (length (panes l))) = true → get l s = Some p → P s = true.
Proof.
  intros H Hp%get_lt. apply forallb_Forall in H. rewrite Forall_forall in H. apply H, elem_of_seq. lia.
Qed.

(** The test decides: a layout that passes has the invariant. *)
Lemma inv_b_sound l ts : inv_b l ts = true → inv l ts.
Proof.
  unfold inv_b. rewrite !andb_true_iff.
  intros [[[[[[[[[[[[[[H1 H2] H3] H4] H5] H6] H7] H8] H9] [H10 H10']] H11] H12] H13] H14] H15].
  assert (∀ s p, get l s = Some p → pane_b l s p = true) as Hpane.
  { intros s p Hp. pose proof (slots_live l _ s p H9 Hp) as H. cbn in H. by rewrite Hp in H. }
  unfold pane_b in Hpane.
  split.
  - split.
    + split.
      * apply forallb_Forall in H1. eapply Forall_impl; [exact H1|]. intros t. apply rep_b_sound.
      * by apply bool_decide_eq_true in H2.
      * intros s [p Hp]. pose proof (slots_live l _ s p H3 Hp) as H. cbn in H. rewrite Hp in H.
        rewrite bool_decide_eq_true_2 in H by eauto. by apply bool_decide_eq_true in H.
    + by apply bool_decide_eq_true in H4.
    + apply forallb_Forall in H5. eapply Forall_impl; [exact H5|]. intros t. apply wide_b_sound.
    + split; [by apply sorted_b_sound|]. apply forallb_Forall in H7. eapply Forall_impl; [exact H7|].
      intros w. cbn. rewrite andb_true_iff, !Z.leb_le. tauto.
    + by apply Nat.ltb_lt.
  - split.
    + intros s p Hp. specialize (Hpane s p Hp). rewrite !andb_true_iff, !Z.leb_le, !Z.ltb_lt in Hpane. tauto.
    + intros s p Hp. specialize (Hpane s p Hp). rewrite !andb_true_iff, !Z.leb_le, !Z.ltb_lt in Hpane. tauto.
    + intros s p Hp. specialize (Hpane s p Hp). rewrite !andb_true_iff in Hpane. apply rect_b_sound. tauto.
    + intros s s' p p' Hp Hp' Heq. specialize (Hpane s p Hp). rewrite !andb_true_iff in Hpane.
      destruct Hpane as [_ Hj]. pose proof (slots_live l _ s' p' Hj Hp') as H. cbn in H. rewrite Hp' in H.
      rewrite Heq, Z.eqb_refl in H. by apply Nat.eqb_eq in H.
    + rewrite !Z.leb_le in *. lia.
    + by apply Nat.leb_le.
  - destruct (ts !! active l) as [T|]; [|done]. exists T. split; [done|]. by apply bool_decide_eq_true in H12.
  - by apply Z.leb_le.
  - split; [by apply metrics_b_sound|by apply rect_b_sound].
Qed.

Lemma new_ok : ∃ l, new = Done l ∧ inv l [TLeaf 0].
Proof. eexists. split; [vm_compute; reflexivity|]. by apply inv_b_sound. Qed.

(** ** Every verb *)

Lemma later_le k k' l l' : later k l l' → (k ≤ k')%Z → later k' l l'.
Proof. unfold later. lia. Qed.
Lemma later_same l l' : epoch l' = epoch l → later 34 l l'.
Proof. unfold later. lia. Qed.
Lemma meta_epoch l l' : meta l' = meta l → epoch l' = epoch l.
Proof. unfold meta. congruence. Qed.

(** Close a verb's case from its lemma's facts. *)
Ltac verb_done :=
  obind;
  match goal with
  | H : inv ?l' ?ts', K : later _ _ ?l' |- ∃ l'' ts'', Done ?l' = Done l'' ∧ _ =>
      exists l', ts'; split; [reflexivity|]; split; [exact H|];
      first [exact K|eapply later_le; [exact K|lia]]
  end.

Lemma exec_ok v l ts : verb_ok v → inv l ts → headroom l →
  ∃ l' ts', exec v l = Done l' ∧ inv l' ts' ∧ later 34 l l'.
Proof.
  intros Hv Hinv Hroom. assert (epoch l + 40 ≤ u_max 64)%Z as Hr by (unfold headroom in Hroom; lia).
  destruct v; cbn [exec verb_ok] in *.
  - destruct (split_ok l ts slot mode Hinv Hroom) as (l' & [n|] & -> & Hlat & Hd); [|destruct Hd; verb_done].
    destruct Hd as (i & C & t & c & _ & _ & _ & _ & Hi & _). verb_done.
  - destruct (host_for_ok l ts n conn peer Hinv Hroom) as (l' & o & ts' & -> & Hlat & Hi & _). verb_done.
  - destruct (host_into_ok l ts n slot Hinv Hroom) as (l' & o & -> & Hlat & Hi & _). verb_done.
  - destruct (close_ok l ts slot Hinv Hroom) as (l' & un & ts' & -> & Hlat & _ & Hi & _). verb_done.
  - destruct (keep_as_fresh_ok l ts slot owner Hinv Hroom) as (l' & o & ts' & -> & Hlat & _ & Hi & _). verb_done.
  - destruct (ask_fresh_ok l ts slot Hinv Hroom) as (l' & b & -> & Hlat & Hi & _). verb_done.
  - destruct (focus_ok l ts slot Hinv Hr) as (l' & b & -> & Hlat & Hi & _). verb_done.
  - destruct (focus_dir_ok l ts dir Hinv Hroom) as (l' & b & -> & Hlat & Hi). verb_done.
  - destruct (set_mode_ok l ts slot mode Hinv Hroom) as (l' & b & -> & Hlat & Hi & _). verb_done.
  - destruct (zoom_toggle_ok l ts slot Hinv Hroom) as (l' & b & -> & Hlat & Hi & _). verb_done.
  - destruct (unzoom_ok l ts Hinv Hroom) as (l' & -> & Hlat & Hi & _). verb_done.
  - destruct (tab_cycle_ok l ts forward Hinv Hroom) as (l' & b & -> & Hlat & Hi). verb_done.
  - destruct (set_pane_weight_ok l ts slot w Hinv Hroom Hv) as (l' & b & -> & Hlat & Hi & _). verb_done.
  - destruct (move_dir_ok l ts slot dir Hinv Hroom) as (l' & b & ts' & -> & Hlat & Hi & _). verb_done.
  - destruct (switch_ok l ts n owner Hinv) as (l' & b & ts' & -> & Hlat & Hi & _); [lia|done|]. verb_done.
  - destruct (send_ok l ts n owner keep_place Hinv Hroom Hv) as (l' & b & ts' & -> & Hlat & Hi & _). verb_done.
  - destruct (reap_ok l ts Hinv) as (l' & d & ts' & -> & Hlat & Hi & _); [lia|]. verb_done.
  - eexists _, ts. split; [done|]. split; [by apply mint_ok|]. apply later_same.
    unfold mint_claim. destruct (is_empty_leaf l slot); [apply epoch_upd|done].
  - eexists _, ts. split; [done|]. split; [by apply consume_ok|]. apply later_same.
    unfold consume_claim. destruct (find_claim l token); [apply epoch_upd|done].
  - eexists _, ts. split; [done|]. split; [by apply set_owner_ok|]. apply later_same, epoch_upd.
  - eexists _, ts. split; [done|]. split; [by apply set_creator_ok|]. apply later_same, epoch_upd.
  - eexists _, ts. split; [done|]. split; [by apply restamp_ok|]. by apply later_same.
  - eexists _, ts. split; [done|]. split; [by apply release_ok|]. apply later_same.
    unfold release_creator. by destruct (conn =? 0)%Z.
  - destruct (apply_backgrounded_ok l ts bg Hinv) as (l' & -> & Hi & Hm & _).
    eexists _, ts. split; [done|]. split; [done|]. by apply later_same, meta_epoch.
  - destruct Hv as (Hm & Har & Hg).
    destruct (recompute_ok l ts disp gaps m prof Hinv Hm Har Hg) as (l' & -> & Hi & Hre & _).
    eexists _, ts. split; [done|]. split; [done|]. apply later_same, Hre.
Qed.

(** Every layout verbs reach has the invariant. *)
Lemma reach_inv l : reachable l → ∃ ts, inv l ts.
Proof.
  induction 1 as [l Hn|v l l' _ [ts IH] Hv Hr He].
  - destruct new_ok as (l' & Hn' & Hi). exists [TLeaf 0]. congruence.
  - destruct (exec_ok v l ts Hv IH Hr) as (l1 & ts1 & He1 & Hi & _). exists ts1. congruence.
Qed.

End PaneSpec.
