(* ===== verification/PaneClaims.v ===== *)
(** * The theorems of the pane tree

    The properties of [Layout]'s operations as their callers rely on them, each
    from the lemmas of the component files, and for each a concrete layout where
    it applies: the one of a few verbs run on a new layout. *)

From stdpp Require Import strings sorting.
From S2P Require Import Prelude Geometry GeometryProofs Carve PaneData PaneTree PaneCarve PaneRep.
From S2P Require Import PaneWalks PaneInv PaneSplit PaneHost PaneFocus PaneClose PaneStamp PaneWork.
From S2P Require Import PaneMove PaneSend PaneGrant PaneGeom PaneSpec.
Import Geometry GeometryProofs PaneData PaneTree PaneCarve PaneRep PaneWalks PaneInv PaneSplit PaneHost PaneFocus
  PaneClose PaneStamp PaneWork PaneMove PaneSend PaneGrant PaneGeom PaneSpec.
Open Scope nat_scope.

Module PaneClaims.

(** ** Layouts to try the theorems on *)

Definition run (vs : list verb) : outcome Layout := l ← new; foldM (λ l v, exec v l) l vs.

(** Three clients: one on the left, two stacked vertically on the right, laid out
    on a 1280x800 display; then the same with a second workspace, left again. *)
Definition three : list verb :=
  [VHost 7 1 1; VHost 8 1 1; VSplit 2 SplitV; VHost 9 1 1;
   VRecompute (mkRect 0 0 1280 800) 4 METRICS_BASE Instrument].
Definition demo : Layout :=
  Eval vm_compute in match run three with Done l => l | _ => mkLayout [] [] 0 0 0 0 None METRICS_BASE Legacy ZERO end.
Definition demo_ts : list ptree := [TNode 1 [TLeaf 0; TNode 3 [TLeaf 2; TLeaf 4]]].
Definition away : Layout :=
  Eval vm_compute in
    match run (three ++ [VSwitch 3 5; VSwitch 1 5]) with
    | Done l => l | _ => mkLayout [] [] 0 0 0 0 None METRICS_BASE Legacy ZERO end.
Definition away_ts : list ptree := demo_ts ++ [TLeaf 5].

Lemma demo_inv : inv demo demo_ts.
Proof. by apply inv_b_sound. Qed.
Lemma away_inv : inv away away_ts.
Proof. by apply inv_b_sound. Qed.
Lemma verbs_reach vs l l' : Forall verb_ok vs → reachable l → (epoch l + 128 + 34 * zlen vs ≤ u_max 64)%Z →
  foldM (λ l v, exec v l) l vs = Done l' → reachable l'.
Proof.
  revert l. induction vs as [|v vs IH]; intros l Hvs Hl Hr; cbn [foldM]; [by intros [= <-]|].
  apply Forall_cons in Hvs as [Hv Hvs]. cbn [length] in Hr.
  assert (headroom l) as Hhr by (unfold headroom; lia).
  destruct (reach_inv l Hl) as [ts Hts].
  destruct (exec_ok v l ts Hv Hts Hhr) as (l1 & ts1 & He & _ & Hlat). rewrite He. obind.
  apply IH; [done|by eapply reach_step|]. unfold later in Hlat. lia.
Qed.
Lemma run_reach vs l : Forall verb_ok vs → (129 + 34 * zlen vs ≤ u_max 64)%Z → run vs = Done l → reachable l.
Proof.
  intros Hvs Hr. unfold run. destruct new_ok as (l0 & Hn & _). rewrite Hn. obind.
  apply verbs_reach; [done|by constructor|].
  assert (epoch <$> new = Done 1%Z) as He by by vm_compute. rewrite Hn in He. injection He as ->. lia.
Qed.
Lemma demo_reached : reachable demo.
Proof.
  apply (run_reach three).
  - do 4 (apply Forall_cons_2; [exact I|]). apply Forall_singleton. split; [by apply metrics_b_sound|].
    unfold small, rect_ok, length_ok, u_max. cbn [rx ry rw rh]. lia.
  - by vm_compute.
  - by vm_compute.
Qed.

Lemma demo_tiled : tiled demo demo_ts (mkRect 0 0 1280 800).
Proof.
  assert (∃ l, run (take 4 three) = Done l ∧ inv_b l demo_ts = true ∧
    recompute l (mkRect 0 0 1280 800) 4 METRICS_BASE Instrument = Done demo) as (l & _ & Hi & Hre).
  { eexists. split; [vm_compute; reflexivity|]. split; by vm_compute. }
  destruct (recompute_ok l demo_ts (mkRect 0 0 1280 800) 4 METRICS_BASE Instrument)
    as (l' & He & _ & _ & Ht); [by apply inv_b_sound|by apply metrics_b_sound| |unfold length_ok; lia|].
  - unfold small, rect_ok, u_max. cbn [rx ry rw rh]. lia.
  - rewrite Hre in He. injection He as <-. exact Ht.
Qed.

(** Taking a child out by a close keeps the open child open; by a detach the index
    stays, so that taking out a child before the open one opens the next. *)
Example detach_opens_next :
  remove_child 10 [10; 11; 12] 1 = ([11; 12], 0) ∧ detach_child 10 [10; 11; 12] 1 = ([11; 12], 1).
Proof. done. Qed.

(** ** The whole *)

(** C1: from every layout that verbs reach from a new one, every verb with
    arguments of the code's types returns (no unwrap, index or overflow panic, no
    walk that does not end) and reaches another such layout. *)
Theorem verbs_return v l : reachable l → verb_ok v → headroom l → ∃ l', exec v l = Done l' ∧ reachable l'.
Proof.
  intros Hl Hv Hr. destruct (reach_inv l Hl) as [ts Hts].
  destruct (exec_ok v l ts Hv Hts Hr) as (l' & ts' & He & _). exists l'. split; [done|]. by eapply reach_step.
Qed.
Lemma verbs_return_witness : ∃ l', exec (VClose 2) demo = Done l' ∧ reachable l'.
Proof. apply (verbs_return (VClose 2) demo); [apply demo_reached|exact I|by vm_compute]. Defined.

(** The links of the arena: a container has two or more distinct children, each
    naming it as its parent, and an active one; a pane with a parent is among
    that container's children; a pane with none is the root of a workspace. *)
Definition linked (l : Layout) : Prop :=
  ∀ s p, get l s = Some p →
    match kind p with
    | Leaf _ => True
    | Container _ cs a => 2 ≤ length cs ∧ a < length cs ∧ NoDup cs ∧
        ∀ c, c ∈ cs → ∃ q, get l c = Some q ∧ parent q = Some s
    end ∧
    match parent p with
    | Some q => s ∈ kids_of l q
    | None => s ∈ ws_root <$> workspaces l
    end.

Lemma inv_linked l ts : inv l ts → linked l.
Proof.
  intros Hinv s p Hp. pose proof (inv_shape _ _ Hinv) as Hsh.
  destruct (heap_find l ts s p (sh_heap _ _ Hsh) Hp) as (i & C & t & Hi & <-).
  destruct (plug_rep l ts i C t (shape_trees _ _ Hsh) Hi) as (Hc & Ht & Hnd & _). split.
  - inversion Ht as [? ? q sf Hq _ Hk|? ? q m a ts' Hq Hpar Hk Ha Hts]; subst; cbn in Hp;
      assert (p = q) as -> by congruence; rewrite Hk; [done|].
    + rewrite !length_fmap. apply NoDup_app in Hnd as [Hnd _]. destruct (kids_nodup _ _ Hnd) as [Hk1 _].
      pose proof (Forall_lookup_1 _ _ _ _ (sh_wide _ _ Hsh) Hi) as [[Hw _]%wide_node _]%wide_plug.
      split; [done|]. split; [done|]. split; [done|]. intros c (u & -> & Hu)%list_elem_of_fmap.
      rewrite Forall_forall in Hts. destruct (rep_par _ _ _ (Hts u Hu)) as (r & Hr & Hrp). eauto.
  - destruct (rep_par _ _ _ Ht) as (q & Hq & Hpar). assert (q = p) as -> by congruence. rewrite Hpar.
    destruct C as [|f C]; cbn [ctx_parent head fmap option_fmap option_map].
    + rewrite (sh_roots _ _ Hsh). apply list_elem_of_fmap. exists t. split; [done|]. by eapply list_elem_of_lookup_2.
    + destruct (crep_head _ _ _ _ Hc) as (pf & m & a & Hpf & _ & Hkf & _). unfold kids_of. rewrite Hpf. cbn.
      rewrite Hkf. set_solver.
Qed.

(** C2: every layout that verbs reach is well formed: parent and child links
    agree both ways, containers have two or more children and an active one,
    roots are workspaces, ids are distinct, workspace numbers ascend within 1..9,
    and the focus is on a leaf of the active workspace. *)
Theorem reachable_formed l : reachable l →
  linked l ∧ (∀ s s' p p', get l s = Some p → get l s' = Some p' → pid p = pid p' → s = s') ∧
  StronglySorted Z.lt (number <$> workspaces l) ∧ Forall (λ w, 1 ≤ number w ≤ 9)%Z (workspaces l) ∧
  is_leaf l (focused l) = true ∧ in_active_root l (focused l) = Done true.
Proof.
  intros Hl. destruct (reach_inv l Hl) as [ts Hinv]. pose proof (inv_shape _ _ Hinv) as Hsh.
  split; [by eapply inv_linked|]. split; [apply Hinv|]. destruct (sh_nums _ _ Hsh) as [Hs Hb].
  split; [done|]. split; [done|]. destruct (inv_focus _ _ Hinv) as (T & HT & Hf).
  destruct (leaf_kind (get l) ts T (focused l) (shape_trees _ _ Hsh)) as (p & sf & Hp & Hk);
    [by eapply list_elem_of_lookup_2|done|].
  split; [unfold is_leaf; rewrite Hp; cbn; by rewrite Hk|]. destruct (find_leaf T _ Hf) as [C ->].
  rewrite (in_active_spec l ts _ C (TLeaf (focused l)) (shape_skel _ _ Hsh) HT : in_active_root l (focused l) = _).
  by rewrite bool_decide_eq_true_2.
Qed.
Lemma reachable_formed_witness : linked demo ∧ is_leaf demo (focused demo) = true.
Proof. destruct (reachable_formed demo) as (H1 & _ & _ & _ & H2 & _); [apply demo_reached|]. by split. Defined.

(** ** The structure *)

(** C5: a split returns; when it is granted, one new empty leaf stands after the
    target in its container of the same direction, or beside it in a new
    container of two in its place; focus is on the new leaf iff it is in the
    active workspace; every other leaf keeps its id and surface.  When it is
    refused every pane, the workspaces, the focus, the epoch and all else are as they
    were, but that the next id may be one further on: a new container for which there
    was room is given back when there is none for the new leaf, its id is not.  A
    leaf with a target is not refused while two panes can be made. *)
Theorem split_grows l ts slot mode : inv l ts → headroom l →
  ∃ l' o, split l slot mode = Done (l', o) ∧
    (∀ s', is_leaf l slot = true → split_target l slot mode = Done (Some s') → room l 2 → is_Some o) ∧
    match o with
    | None => meta l' = meta l ∧ (∀ s, get l' s = get l s) ∧ (id_seq l ≤ id_seq l' ≤ id_seq l + 1)%Z
    | Some n => ∃ i C t c, ts !! i = Some (plug C t) ∧ split_target l slot mode = Done (Some (root_of t)) ∧
        get l n = None ∧ inv l' (<[i := split_tree l C t mode c n]> ts) ∧ leaf_surface l' n = None ∧
        focused l' = (if decide (i = active l) then n else focused l) ∧ ∀ s, s ≠ n → face l' s = face l s
    end.
Proof.
  intros Hinv Hroom. destruct (split_ok l ts slot mode Hinv Hroom) as (l' & o & He & _ & Hd).
  exists l', o. split; [done|]. split; [intros s' Hlf Ht Hr; by eapply split_grants|].
  destruct o as [n|]; [|destruct Hd as (_ & Hm & Hg); by split; [|split; [|eapply split_refused]]].
  destruct Hd as (i & C & t & c & Hi & _ & Ht & Hn & Hinv' & (Hf & _ & _ & _ & _ & _ & p & Hp & Hk) & Hface).
  exists i, C, t, c. split_and!; try done. unfold leaf_surface. rewrite Hp. cbn. by rewrite Hk.
Qed.
Lemma split_grows_witness : ∃ l' n i C t c, split demo 0 SplitV = Done (l', Some n) ∧
  demo_ts !! i = Some (plug C t) ∧ inv l' (<[i := split_tree demo C t SplitV c n]> demo_ts).
Proof.
  destruct (split_grows demo demo_ts 0 SplitV) as (l' & [n|] & He & _ & Hd);
    [apply demo_inv|by vm_compute| |by vm_compute in He].
  destruct Hd as (i & C & t & c & H1 & _ & _ & H2 & _). exists l', n, i, C, t, c. by split.
Defined.

(** The stack rule of the Instrument profile: a split in a workspace tree acts
    on the pane asked for or on an ancestor, and what it acts on stands in a tab
    or stack container only when the split is of that container's own mode, so
    a stack never gains a nested division in place of a tile. *)
Theorem split_respects_stacks l ts i C t mode s' : inv l ts → profile l = Instrument →
  ts !! i = Some (plug C t) → split_target l (root_of t) mode = Done (Some s') →
  ∃ C' t', plug C t = plug C' t' ∧ root_of t' = s' ∧
    ∀ pi m, ctx_parent C' = Some pi → mode_of l pi = Some m → stack_like m = true → m = mode.
Proof.
  intros Hinv Hprof Hi Ht. destruct (split_target_ok l ts i C t mode (shape_trees _ _ (inv_shape _ _ Hinv)) Hi)
    as (o & Ho & Hs). rewrite Ht in Ho. injection Ho as <-.
  destruct (Hs s' eq_refl) as (C' & t' & H1 & H2 & H3 & _). exists C', t'.
  split; [done|]. split; [done|]. by apply H3.
Qed.
Lemma split_respects_stacks_witness : ∃ C' t',
  TNode 1 [TLeaf 0; TNode 3 [TLeaf 2; TLeaf 4]] = plug C' t' ∧ root_of t' = 2.
Proof.
  destruct (split_respects_stacks demo demo_ts 0 [mkFrame 3 [] [TLeaf 4]; mkFrame 1 [TLeaf 0] []] (TLeaf 2) SplitH 2)
    as (C' & t' & H1 & H2 & _); [apply demo_inv|reflexivity|reflexivity|by vm_compute|].
  exists C', t'. by split.
Defined.

(** Hosting returns; a hosted surface is in a leaf that hosted nothing, which
    is focused and of the active workspace, and every other leaf keeps its id and
    surface; a refusal changes no pane, and the plain profile does not refuse while
    two panes can be made. *)
Theorem host_places l ts n conn peer : inv l ts → headroom l →
  ∃ l' o ts', host_for l n conn peer = Done (l', o) ∧ inv l' ts' ∧
    (profile l = Legacy → room l 2 → is_Some o) ∧
    match o with
    | None => ∀ s, get l' s = get l s
    | Some f => hosted_at l l' ts' n f
    end.
Proof.
  intros Hinv Hroom. destruct (host_for_ok l ts n conn peer Hinv Hroom) as (l' & o & ts' & He & _ & Hi & Ho).
  exists l', o, ts'. split; [done|]. split; [done|]. split; [by eapply host_grants|]. destruct o; [done|apply Ho].
Qed.
Lemma host_places_witness : ∃ l' f ts', host_for demo 33 1 1 = Done (l', Some f) ∧ hosted_at demo l' ts' 33 f.
Proof.
  destruct (host_places demo demo_ts 33 1 1) as (l' & [f|] & ts' & He & _ & _ & Ho);
    [apply demo_inv|by vm_compute| |by vm_compute in He]. by exists l', f, ts'.
Defined.

(** C4: closing a live pane returns the surfaces of exactly the leaves of its
    subtree, in order; a subtree with a parent leaves the tree, a container left
    with one child giving way to it; a workspace root becomes an empty leaf;
    every other leaf keeps its id and surface, and the focus stays unless it was
    inside. *)
Theorem close_removes l ts slot p : inv l ts → headroom l → get l slot = Some p →
  ∃ l' i C t, ts !! i = Some (plug C t) ∧ root_of t = slot ∧
    close l slot = Done (l', omap (leaf_surface l) (leaves t)) ∧ inv l' (<[i := close_tree C t]> ts) ∧
    close_faces l l' C t ∧ (focused l ∉ nodes t → focused l' = focused l).
Proof.
  intros Hinv Hroom Hp. destruct (close_ok l ts slot Hinv Hroom) as (l' & un & ts' & He & _ & _ & Hi & Hd).
  unfold close_done in Hd. rewrite Hp in Hd. destruct Hd as (i & C & t & H1 & H2 & -> & -> & H3 & H4).
  exists l', i, C, t. by split_and!.
Qed.
Lemma close_removes_witness : ∃ l' un, close demo 3 = Done (l', un) ∧ un = [8; 9] ∧ face l' 0 = Some (1%Z, Some 7).
Proof.
  destruct (get demo 3) as [p|] eqn:Hp; [|by vm_compute in Hp].
  destruct (close_removes demo demo_ts 3 p) as (l' & i & C & t & _ & _ & He & _);
    [apply demo_inv|by vm_compute|exact Hp|].
  assert (match close demo 3 with Done (l, un) => un = [8; 9] ∧ face l 0 = Some (1%Z, Some 7) | _ => False end) as Hv
    by (vm_compute; split; reflexivity).
  rewrite He in Hv. by eexists _, _.
Defined.

(** Emptying a live pane in place, while ids last, returns the surfaces of its
    subtree and leaves one empty leaf in its slot under an id never used before;
    no slot outside the subtree changes, and in the active workspace the focus is
    on it. *)
Theorem keep_empties l ts slot owner p : inv l ts → headroom l → get l slot = Some p → (id_seq l < u_max 32)%Z →
  ∃ l' i C t, ts !! i = Some (plug C t) ∧ root_of t = slot ∧
    keep_as_fresh l slot owner = Done (l', Some (omap (leaf_surface l) (leaves t))) ∧
    inv l' (<[i := plug C (TLeaf slot)]> ts) ∧ face l' slot = Some ((id_seq l + 1)%Z, None) ∧
    (∀ s, s ∉ nodes t → get l' s = get l s) ∧ (i = active l → focused l' = slot).
Proof.
  intros Hinv Hroom Hp Hid.
  destruct (keep_as_fresh_ok l ts slot owner Hinv Hroom) as (l' & o & ts' & He & _ & _ & Hi & Hd).
  destruct o as [un|]; cbn [kept_done] in Hd.
  - destruct Hd as (i & C & t & H1 & H2 & -> & -> & H3 & H4 & H5). exists l', i, C, t. by split_and!.
  - exfalso. unfold keep_as_fresh, id_of, checked_add in He. rewrite Hp in He.
    cbn [fmap option_fmap option_map] in He. rewrite (proj2 (Z.leb_le _ _)) in He by lia.
    unfold mbind, outcome_bind in He. repeat (case_match; try done).
Qed.
Lemma keep_empties_witness : ∃ l', keep_as_fresh demo 3 5 = Done (l', Some [8; 9]) ∧ face l' 3 = Some (6%Z, None).
Proof.
  destruct (get demo 3) as [p|] eqn:Hp; [|by vm_compute in Hp].
  destruct (keep_empties demo demo_ts 3 5 p) as (l' & i & C & t & _ & _ & He & _ & Hf & _);
    [apply demo_inv|by vm_compute|exact Hp|by vm_compute|].
  assert (match keep_as_fresh demo 3 5 with Done (_, un) => un = Some [8; 9] | _ => False end) as Hv
    by (vm_compute; reflexivity).
  exists l'. split; [|exact Hf]. rewrite He in Hv |- *. by rewrite Hv.
Defined.

(** ** Focus and movement *)

(** Focus on a pane of the active workspace is granted and lands on a leaf of
    its subtree, with every container above that leaf turned to show it; on any
    other slot it is refused and the layout is the same; no leaf changes. *)
Theorem focus_reveals l ts slot : inv l ts → headroom l →
  ∃ l' b, focus l slot = Done (l', b) ∧ inv l' ts ∧ (∀ s, is_leaf l s = true → get l' s = get l s) ∧
    if b : bool then focus_done l' ts ∧
      ∃ C t, ts !! active l = Some (plug C t) ∧ root_of t = slot ∧ focused l' ∈ leaves t
    else l' = l ∧ in_active_root l slot = Done false.
Proof.
  intros Hinv Hroom.
  destruct (focus_ok l ts slot Hinv) as (l' & b & He & _ & Hi & _ & _ & _ & _ & Hl & Hf & Ht);
    [unfold headroom in Hroom; lia|].
  exists l', b. split; [done|]. split; [done|]. split; [done|]. destruct b; auto.
Qed.
Lemma focus_reveals_witness : ∃ l' C t, focus demo 0 = Done (l', true) ∧
  demo_ts !! 0 = Some (plug C t) ∧ root_of t = 0 ∧ focused l' ∈ leaves t.
Proof.
  destruct (focus_reveals demo demo_ts 0) as (l' & [] & He & _ & _ & Hb);
    [apply demo_inv|by vm_compute| |by destruct Hb as [_ Hb]; vm_compute in Hb].
  destruct Hb as (_ & C & t & Hb). by exists l', C, t.
Defined.

(** Directional focus on a laid-out display moves to the nearest visible
    focusable leaf that lies wholly on that side and shares part of the facing
    edge (the longest shared part among equally near ones), and reveals it; when
    there is none the layout is the same. *)
Theorem focus_dir_nearest l ts dir R p : inv l ts → headroom l → tiled l ts R → get l (focused l) = Some p →
  ∃ l' b, focus_dir l dir = Done (l', b) ∧ inv l' ts ∧
    if b : bool then focus_done l' ts ∧ ∃ q, beside l dir (rect p) (focused l') q ∧
      ∀ s' q', beside l dir (rect p) s' q' → no_farther dir (rect p) (rect q) (rect q')
    else l' = l ∧ ∀ s q, ¬ beside l dir (rect p) s q.
Proof.
  intros Hinv Hroom Htl Hp. pose proof (inv_shape _ _ Hinv) as Hsh. unfold focus_dir.
  destruct (neighbor_ok l ts dir p Hinv Hp) as ([s|] & -> & Hs); obind; [|by exists l, false].
  destruct Hs as (q & Hb & Hmin). pose proof Hb as (Hq & _ & Hlf & Hv & _).
  destruct (focus_ok l ts s Hinv) as (l' & b & -> & _ & Hi & _ & _ & _ & _ & _ & Hf & Ht);
    [unfold headroom in Hroom; lia|].
  destruct (shape_root l ts (shape_skel _ _ Hsh)) as (T & HT & _).
  destruct b.
  - destruct (Ht eq_refl) as (Hfd & C & t & HT' & Hr & Hin). exists l', true. split; [done|]. split; [done|].
    split; [done|]. destruct (is_leaf_live l s Hlf) as (q' & sf & Hq' & Hk).
    rewrite (at_leaf l ts _ C t s q' sf (shape_trees _ _ Hsh) HT' Hr Hq' Hk) in Hin.
    apply list_elem_of_singleton in Hin as ->. by exists q.
  - destruct (Hf eq_refl) as [_ Hno]. exfalso.
    destruct (find_ctx T s (td_active _ _ _ Htl s q T Hq Hv HT)) as (C & t & -> & <-).
    rewrite (in_active_spec l ts _ C t (shape_skel _ _ Hsh) HT), bool_decide_eq_true_2 in Hno by done. done.
Qed.
Lemma focus_dir_nearest_witness : ∃ l', focus_dir demo Left = Done (l', true) ∧ inv l' demo_ts.
Proof.
  destruct (get demo (focused demo)) as [p|] eqn:Hp; [|by vm_compute in Hp].
  destruct (focus_dir_nearest demo demo_ts Left (mkRect 0 0 1280 800) p) as (l' & b & He & Hi & _);
    [apply demo_inv|by vm_compute|apply demo_tiled|exact Hp|].
  assert (match focus_dir demo Left with Done (_, b) => b | _ => false end = true) as Hb by (vm_compute; reflexivity).
  rewrite He in Hb. cbn in Hb. subst b. by exists l'.
Defined.

(** C6: moving a leaf in a direction rearranges only the active workspace's tree:
    its leaves are the same up to order, every leaf of the layout keeps its id and
    surface, and the moved leaf is focused and revealed; a refusal changes
    nothing. *)
Theorem move_rearranges l ts slot dir : inv l ts → headroom l →
  ∃ l' b ts', move_dir l slot dir = Done (l', b) ∧ inv l' ts' ∧
    if b : bool then moved l l' ts ts' slot else l' = l ∧ ts' = ts.
Proof.
  intros Hinv Hroom. destruct (move_dir_ok l ts slot dir Hinv Hroom) as (l' & b & ts' & He & _ & H). eauto 7.
Qed.
Lemma move_rearranges_witness : ∃ l' ts', move_dir demo 4 Left = Done (l', true) ∧ moved demo l' demo_ts ts' 4.
Proof.
  destruct (move_rearranges demo demo_ts 4 Left) as (l' & b & ts' & He & _ & Hm); [apply demo_inv|by vm_compute|].
  assert (match move_dir demo 4 Left with Done (_, b) => b | _ => false end = true) as Hb by (vm_compute; reflexivity).
  rewrite He in Hb. cbn in Hb. subst b. by exists l', ts'.
Defined.

(** ** Workspaces *)

(** Switching to another workspace and back to the one left restores its root
    and its focus, whether or not the other existed. *)
Theorem switch_returns l ts n m owner owner' l1 : inv l ts → headroom l → (0 ≤ n)%Z →
  number <$> workspaces l !! active l = Some m → switch_workspace l n owner = Done (l1, true) →
  ∃ l2, switch_workspace l1 m owner' = Done (l2, true) ∧ focused l2 = focused l ∧ root l2 = root l.
Proof.
  intros Hinv Hroom. eapply switch_back; [done|]. unfold headroom in Hroom. lia.
Qed.
Lemma switch_returns_witness : ∃ l1 l2, switch_workspace demo 3 5 = Done (l1, true) ∧
  switch_workspace l1 1 6 = Done (l2, true) ∧ focused l2 = 4 ∧ root l2 = Done 1.
Proof.
  assert (match switch_workspace demo 3 5 with Done (_, b) => b | _ => false end = true) as Hb
    by (vm_compute; reflexivity).
  destruct (switch_workspace demo 3 5) as [[l1 b]| |] eqn:He; [|done..]. cbn in Hb. subst b. exists l1.
  destruct (switch_returns demo demo_ts 3 1 5 6 l1) as (l2 & H2 & Hf & Hr);
    [apply demo_inv|by vm_compute|lia|reflexivity|exact He|].
  exists l2. by split_and!.
Defined.

(** Sending the focused pane to another workspace either refuses, and then
    every pane, workspace and focus is as it was, or delivers: the pane is in the
    tree of workspace [n] (made if it did not exist) and is that workspace's focus;
    the active workspace stays the active one; every hosted surface is still hosted
    in its pane under its id; no third workspace's tree changes; and with
    [keep_place] a fresh leaf stands, focused, exactly where the pane stood.  A
    hosted foreground pane is sent to any other workspace 1..9 while three panes
    can be made. *)
Theorem send_delivers l ts n owner keep_place : inv l ts → headroom l → (0 ≤ n)%Z →
  ∃ l' b ts', move_focused_to_workspace l n owner keep_place = Done (l', b) ∧ inv l' ts' ∧
    (sendable l n → room l 3 → b = true) ∧
    if b : bool then sent l l' ts ts' n keep_place else untouched l l' ∧ ts' = ts.
Proof.
  intros Hinv Hr Hn. destruct (send_ok l ts n owner keep_place Hinv Hr Hn) as (l' & b & ts' & He & _ & Hi & H).
  exists l', b, ts'. split; [done|]. split; [done|]. split; [|done]. intros Hs Hroom.
  exact (send_grants l ts n owner keep_place l' b Hinv Hs Hroom He).
Qed.
Lemma send_delivers_witness : ∃ l' ts', move_focused_to_workspace demo 3 5 true = Done (l', true) ∧ inv l' ts' ∧
  sent demo l' demo_ts ts' 3 true.
Proof.
  destruct (send_delivers demo demo_ts 3 5 true) as (l' & b & ts' & He & Hi & _ & H); [apply demo_inv|by vm_compute|lia|].
  exists l', ts'. assert (match move_focused_to_workspace demo 3 5 true with Done (_, b) => b | _ => false end = true) as Hb
    by by vm_compute.
  rewrite He in Hb. subst b. by repeat (split; [done|]).
Defined.

(** Reaping drops exactly the inactive workspaces with neither a surface nor a
    reservation: the rest keep their trees and order, the active one its focus,
    and no surface is lost. *)
Theorem reap_exact l ts : inv l ts → headroom l →
  ∃ l' d ts', reap_empty_workspaces l = Done (l', d) ∧ inv l' ts' ∧
    ts' !! active l' = ts !! active l ∧ ts' `sublist_of` ts ∧ length ts = length ts' + d ∧
    (∀ T, T ∈ others (active l) ts → in_use l T = true → T ∈ ts') ∧
    (∀ T, T ∈ others (active l') ts' → in_use l' T = true) ∧
    (∀ s, leaf_surface l' s = leaf_surface l s) ∧ focused l' = focused l.
Proof.
  intros Hinv Hroom. destruct (reap_ok l ts Hinv) as (l' & d & ts' & He & _ & H); [unfold headroom in Hroom; lia|].
  exists l', d, ts'. by split.
Qed.
Lemma reap_exact_witness : ∃ l' ts', reap_empty_workspaces away = Done (l', 1) ∧ inv l' ts' ∧ length ts' = 1.
Proof.
  destruct (reap_exact away away_ts) as (l' & d & ts' & He & Hi & _ & _ & Hd & _); [apply away_inv|by vm_compute|].
  assert (match reap_empty_workspaces away with Done (_, d) => d | _ => 0 end = 1) as Hd1 by (vm_compute; reflexivity).
  rewrite He in Hd1. cbn in Hd1. subst d. exists l', ts'. split; [exact He|]. split; [exact Hi|].
  cbn in Hd. lia.
Defined.

(** The background pass marks exactly the panes the caller lists and the panes
    of every inactive workspace, clears the mark on all others, and changes
    nothing else. *)
Theorem background_marks l ts bg : inv l ts →
  ∃ l', apply_backgrounded l bg = Done l' ∧ inv l' ts ∧ meta l' = meta l ∧
    ∀ s, get l' s = set_backgrounded (bool_decide (s ∈ bg ∨ s ∈ others (active l) ts ≫= nodes)) <$> get l s.
Proof. apply apply_backgrounded_ok. Qed.
Lemma background_marks_witness : ∃ l', apply_backgrounded away [0] = Done l' ∧ inv l' away_ts.
Proof. destruct (background_marks away away_ts [0]) as (l' & H & Hi & _); [apply away_inv|]. by exists l'. Defined.

(** ** Claims *)

(** A claim token minted for an empty leaf, and borne by no other pane, is
    redeemed once, for that leaf; a second redemption is refused. *)
Theorem claim_once l slot token l1 : mint_claim l slot token = (l1, true) →
  (∀ s p, get l s = Some p → claim_token p ≠ Some token) →
  ∃ l2, consume_claim l1 token = (l2, Some slot) ∧ consume_claim l2 token = (l2, None).
Proof.
  intros H1 H2. destruct (mint_consume l slot token l1 H1 H2) as (l2 & Hc & Hn). exists l2. split; [done|].
  unfold consume_claim at 1. by rewrite Hn.
Qed.
Lemma claim_once_witness : ∃ l1 l2, mint_claim away 5 42 = (l1, true) ∧ consume_claim l1 42 = (l2, Some 5) ∧
  consume_claim l2 42 = (l2, None).
Proof.
  assert (snd (mint_claim away 5 42) = true) as Hm by (vm_compute; reflexivity).
  destruct (mint_claim away 5 42) as [l1 b] eqn:He. cbn in Hm. subst b. exists l1.
  destruct (claim_once away 5 42 l1 He) as (l2 & H); [|by exists l2].
  intros s p Hp. do 6 (destruct s as [|s]; [injection Hp as <-; discriminate|]). discriminate Hp.
Defined.

(** ** The display *)

(** C3: a recompute for a display of at most 2^20 pixels a side returns in either
    profile, changes only the geometry of panes, writes every rectangle inside the
    canvas, gives distinct visible leaves disjoint rectangles, and shows nothing
    of an inactive workspace. *)
Theorem recompute_tiles l ts disp gaps m prof : inv l ts → metrics_ok m → small disp → length_ok gaps →
  ∃ l', recompute l disp gaps m prof = Done l' ∧ inv l' ts ∧ redrawn l l' ∧ tiled l' ts (canvas prof disp).
Proof. apply recompute_ok. Qed.
Lemma recompute_tiles_witness : ∃ l', recompute demo (mkRect 0 0 1920 1080) 4 METRICS_BASE Legacy = Done l' ∧
  tiled l' demo_ts (mkRect 0 0 1920 1080).
Proof.
  destruct (recompute_tiles demo demo_ts (mkRect 0 0 1920 1080) 4 METRICS_BASE Legacy) as (l' & He & _ & _ & Ht);
    [apply demo_inv|by apply metrics_b_sound|unfold small, rect_ok, u_max; cbn [rx ry rw rh]; lia
    |unfold length_ok; lia|]. by exists l'.
Defined.

(** When the zoom names a leaf of the active workspace, a recompute shows that
    leaf alone, over the whole canvas. *)
Theorem zoom_fills l ts disp gaps m prof T s p : inv l ts → metrics_ok m → small disp → length_ok gaps →
  ts !! active l = Some T → s ∈ leaves T → get l s = Some p → zoomed_id l = Some (pid p) →
  ∃ l', recompute l disp gaps m prof = Done l' ∧ redrawn l l' ∧
    ∀ s' q, get l' s' = Some q → visible q = bool_decide (s' = s) ∧
      (s' = s → rect q = canvas prof disp ∧ content q = canvas prof disp).
Proof. apply zoomed_recompute. Qed.
Lemma zoom_fills_witness : ∃ l', recompute (set_zoomed_id (Some 3%Z) demo) (mkRect 0 0 1920 1080) 4 METRICS_BASE Legacy
    = Done l' ∧ ∀ s q, get l' s = Some q → visible q = bool_decide (s = 2).
Proof.
  destruct (get demo 2) as [p|] eqn:Hp; [|by vm_compute in Hp].
  destruct (zoom_fills (set_zoomed_id (Some 3%Z) demo) demo_ts (mkRect 0 0 1920 1080) 4 METRICS_BASE Legacy
    (TNode 1 [TLeaf 0; TNode 3 [TLeaf 2; TLeaf 4]]) 2 p) as (l' & He & _ & Hv);
    [apply inv_zoom, demo_inv|by apply metrics_b_sound|unfold small, rect_ok, u_max; cbn [rx ry rw rh]; lia
    |unfold length_ok; lia|reflexivity|cbn; set_solver|exact Hp|by injection Hp as <-|].
  exists l'. split; [exact He|]. intros s q Hq. apply (Hv s q Hq).
Defined.

End PaneClaims.
