(* ===== verification/Glob.v ===== *)
(** * The shell's glob matcher (usr/utopia/libutopia/src/eval/glob.rs)

    A pattern and an input are byte strings, as the matcher has them.  The main
    loop keeps two indices and the place to resume the last [*] from; it is a
    Fixpoint on fuel, every indexing of the code a lookup that panics out of
    range.  The loops over characters ([unescape], [escape_backslashes],
    [pattern_segments]) run over bytes here: every byte they compare with is
    ASCII and no byte of a longer UTF-8 sequence is. *)

From S2P Require Import Prelude.
Open Scope Z_scope.

Module Glob.

Definition STAR : Z := 42.
Definition QUERY : Z := 63.
Definition OPEN : Z := 91.
Definition CLOSE : Z := 93.
Definition BANG : Z := 33.
Definition DASH : Z := 45.
Definition DOT : Z := 46.
Definition SLASH : Z := 47.
Definition BACKSLASH : Z := 92.

(** [v[i]] *)
Definition at_ (v : list Z) (i : nat) : outcome Z := unwrap (v !! i).
(** [&v[a..b]] *)
Definition slice (v : list Z) (a b : nat) : outcome (list Z) :=
  if ((a <=? b) && (b <=? length v))%nat then Done (take (b - a) (drop a v)) else Panic.

(** ** Classes *)

Definition class_member (class : list Z) (i : nat) : outcome (Z * nat) :=
  c ← at_ class i;
  if (c =? BACKSLASH) && (i + 1 <? length class)%nat
  then x ← at_ class (i + 1); Done (x, (i + 2)%nat)
  else Done (c, (i + 1)%nat).

Fixpoint char_class_f (fuel : nat) (class : list Z) (c : Z) (i : nat) : outcome bool :=
  match fuel with
  | O => OutOfFuel
  | S fuel =>
      if (i <? length class)%nat then
        '(lo, next) ← class_member class i;
        dash ← (if (next + 1 <? length class)%nat then x ← at_ class next; Done (x =? DASH) else Done false);
        if (dash : bool) then
          '(hi, after) ← class_member class (next + 1);
          if (Z.min lo hi <=? c) && (c <=? Z.max lo hi) then Done true
          else char_class_f fuel class c after
        else if lo =? c then Done true
        else char_class_f fuel class c next
      else Done false
  end.
Definition char_class_match (class : list Z) (c : Z) : outcome bool :=
  char_class_f (S (length class)) class c 0.

Fixpoint class_end_f (fuel : nat) (pat : list Z) (i : nat) : outcome (option nat) :=
  match fuel with
  | O => OutOfFuel
  | S fuel =>
      if (i <? length pat)%nat then
        x ← at_ pat i;
        if x =? CLOSE then Done (Some i)
        else if x =? BACKSLASH then class_end_f fuel pat (i + 2)
        else class_end_f fuel pat (i + 1)
      else Done None
  end.
Definition find_class_end (pat : list Z) (start : nat) : outcome (option nat) :=
  let skip i b := if bool_decide (pat !! i = Some b) then (i + 1)%nat else i in
  let i := skip (start + 1)%nat BANG in
  let i := skip i CLOSE in
  class_end_f (S (length pat)) pat i.

(** ** The matcher *)

(** A retry from the last star, in the branches of [?] and of a class: [Some] the
    place to go on from. *)
Definition retry_wild (inp : list Z) (star_pat : option nat) (star_inp : nat) : outcome (option (nat * nat)) :=
  match star_pat with
  | Some retry =>
      let star_inp := (star_inp + 1)%nat in
      slash ← (if (star_inp <? length inp)%nat then x ← at_ inp star_inp; Done (x =? SLASH) else Done false);
      Done (if (slash : bool) then None else Some (retry, star_inp))
  | None => Done None
  end.
(** The retry of a literal and of an exhausted pattern. *)
Definition retry_lit (inp : list Z) (star_pat : option nat) (star_inp : nat) : outcome (option (nat * nat)) :=
  match star_pat with
  | Some retry =>
      x ← at_ inp star_inp;
      Done (if x =? SLASH then None else Some (retry, (star_inp + 1)%nat))
  | None => Done None
  end.

(** One turn of the loop: leave with [false], or go on from a state. *)
Definition mstate : Type := nat * nat * option nat * nat.
Definition resume (star_pat : option nat) (r : option (nat * nat)) : option mstate :=
  match r with Some (pi, star_inp) => Some (pi, star_inp, star_pat, star_inp) | None => None end.

Definition match_step (pat inp : list Z) (st : mstate) : outcome (option mstate) :=
  let '(pi, ii, star_pat, star_inp) := st in
  match pat !! pi with
  | Some c =>
      if c =? STAR then Done (Some ((pi + 1)%nat, ii, Some (pi + 1)%nat, ii))
      else if c =? QUERY then
        x ← at_ inp ii;
        if x =? SLASH then r ← retry_wild inp star_pat star_inp; Done (resume star_pat r)
        else Done (Some ((pi + 1)%nat, (ii + 1)%nat, star_pat, star_inp))
      else if c =? OPEN then
        e ← find_class_end pat pi;
        match e with
        | None =>
            x ← at_ inp ii;
            if x =? OPEN then Done (Some ((pi + 1)%nat, (ii + 1)%nat, star_pat, star_inp)) else Done None
        | Some class_end =>
            class_body ← slice pat (pi + 1) class_end;
            let '(negate, body) :=
              match class_body with
              | b :: rest => if b =? BANG then (true, rest) else (false, class_body)
              | [] => (false, class_body)
              end in
            x ← at_ inp ii;
            hit ← char_class_match body x;
            if xorb hit negate then Done (Some ((class_end + 1)%nat, (ii + 1)%nat, star_pat, star_inp))
            else r ← retry_wild inp star_pat star_inp; Done (resume star_pat r)
        end
      else
        '(c, width) ← (if (c =? BACKSLASH) && (pi + 1 <? length pat)%nat
                       then x ← at_ pat (pi + 1); Done (x, 2%nat) else Done (c, 1%nat));
        x ← at_ inp ii;
        if c =? x then Done (Some ((pi + width)%nat, (ii + 1)%nat, star_pat, star_inp))
        else r ← retry_lit inp star_pat star_inp; Done (resume star_pat r)
  | None => r ← retry_lit inp star_pat star_inp; Done (resume star_pat r)
  end.

Fixpoint match_loop (fuel : nat) (pat inp : list Z) (st : mstate) : outcome bool :=
  match fuel with
  | O => OutOfFuel
  | S fuel =>
      let '(pi, ii, _, _) := st in
      if (ii <? length inp)%nat then
        o ← match_step pat inp st;
        match o with
        | Some st => match_loop fuel pat inp st
        | None => Done false
        end
      else Done (forallb (Z.eqb STAR) (drop pi pat))
  end.

(** Every turn takes a pattern element or moves the star's start by one. *)
Definition match_fuel (pat inp : list Z) : nat := S (length inp * S (length pat) + length pat).
Definition match_bytes (pat inp : list Z) : outcome bool :=
  match_loop (match_fuel pat inp) pat inp (0%nat, 0%nat, None, 0%nat).
Definition matches (pattern input : list Z) : outcome bool := match_bytes pattern input.

Definition match_any (pattern : list Z) (candidates : list (list Z)) : outcome (list nat) :=
  ms ← mapM_o (λ x : nat * list Z, b ← matches pattern x.2; Done (if (b : bool) then Some x.1 else None))
         (imap pair candidates);
  Done (omap (M:=list) (λ o, o) ms).

(** ** Escapes *)

Definition is_meta (b : Z) : bool := (b =? STAR) || (b =? QUERY) || (b =? OPEN).
Definition has_meta (s : list Z) : bool := existsb is_meta s.

Fixpoint has_unescaped_meta (p : list Z) : bool :=
  match p with
  | [] => false
  | b :: p' =>
      if b =? BACKSLASH then match p' with [] => false | _ :: p'' => has_unescaped_meta p'' end
      else if is_meta b then true else has_unescaped_meta p'
  end.

Fixpoint escape_backslashes (value : list Z) : list Z :=
  match value with
  | [] => []
  | c :: value => (if c =? BACKSLASH then [BACKSLASH] else []) ++ c :: escape_backslashes value
  end.

Fixpoint unescape (word : list Z) : list Z :=
  match word with
  | [] => []
  | c :: word' =>
      if c =? BACKSLASH then match word' with [] => [BACKSLASH] | x :: word'' => x :: unescape word'' end
      else c :: unescape word'
  end.

(** ** Path patterns *)

Definition take_segment (cur : list Z) (segs : list (list Z)) : list (list Z) :=
  match cur with [] => segs | _ => segs ++ [cur] end.

Fixpoint segments_go (p cur : list Z) (segs : list (list Z)) : list (list Z) :=
  match p with
  | [] => take_segment cur segs
  | c :: p' =>
      if c =? BACKSLASH then
        match p' with
        | [] => take_segment (cur ++ [BACKSLASH]) segs
        | n :: p'' =>
            if n =? SLASH then segments_go p'' [] (take_segment cur segs)
            else segments_go p'' (cur ++ [BACKSLASH; n]) segs
        end
      else if c =? SLASH then segments_go p' [] (take_segment cur segs)
      else segments_go p' (cur ++ [c]) segs
  end.
Definition pattern_segments (p : list Z) : list (list Z) := segments_go p [] [].

Definition leading_dot (segment : list Z) : bool :=
  match segment with
  | a :: b :: _ => (a =? DOT) || ((a =? BACKSLASH) && (b =? DOT))
  | [a] => a =? DOT
  | [] => false
  end.

Record PathPattern := mkPathPattern { absolute : bool; start : list Z; walk : list (list Z) }.

Fixpoint join_slash (xs : list (list Z)) : list Z :=
  match xs with
  | [] => []
  | [x] => x
  | x :: xs => x ++ SLASH :: join_slash xs
  end.

Definition path_pattern (pattern : list Z) : option PathPattern :=
  let absolute :=
    match pattern with
    | a :: b :: _ => (a =? SLASH) || ((a =? BACKSLASH) && (b =? SLASH))
    | [a] => a =? SLASH
    | [] => false
    end in
  let segs := pattern_segments pattern in
  at_ ← position has_unescaped_meta segs;
  Some (mkPathPattern absolute
    ((if absolute then [SLASH] else []) ++ join_slash (unescape <$> take at_ segs)) (drop at_ segs)).

End Glob.
