(* ===== verification/GlobProofs.v ===== *)
(** * What the glob matcher matches

    The documented meaning of a pattern is a relation on byte strings: a pattern
    is read one element at a time, an element matches one byte, a star any run of
    bytes without a slash.  The matcher always returns, and agrees with the
    relation on every input without a slash and, for patterns of literals and
    stars, on every input; where a [?] or a class follows a star it lets the star
    take a slash, and after a star an unterminated bracket is not retried. *)

From S2P Require Import Prelude Glob.
Import Glob.
Open Scope Z_scope.

Module GlobProofs.

(** ** Patterns as they are documented *)

Inductive tok := TStar | TAny | TClass (neg : bool) (body : list Z) | TOpen | TChar (c : Z).

(** A class member: a byte, or the byte an escape names. *)
Definition read_member (p : list Z) : option (Z * list Z) :=
  match p with
  | [] => None
  | c :: p' => if c =? BACKSLASH then match p' with x :: p'' => Some (x, p'') | [] => Some (c, []) end
               else Some (c, p')
  end.

(** The ranges a class names, a single byte a range of one. *)
Fixpoint class_items_f (fuel : nat) (p : list Z) : list (Z * Z) :=
  match fuel with
  | O => []
  | S fuel =>
      match read_member p with
      | None => []
      | Some (lo, r) =>
          match r with
          | d :: (_ :: _) as r' =>
              if d =? DASH then
                match read_member (tail r) with
                | Some (hi, r'') => (lo, hi) :: class_items_f fuel r''
                | None => []
                end
              else (lo, lo) :: class_items_f fuel r
          | _ => (lo, lo) :: class_items_f fuel r
          end
      end
  end.
Definition class_items (p : list Z) : list (Z * Z) := class_items_f (S (length p)) p.
Definition class_hits (body : list Z) (c : Z) : bool :=
  existsb (λ r : Z * Z, (Z.min r.1 r.2 <=? c) && (c <=? Z.max r.1 r.2)) (class_items body).

(** A class up to its closing bracket, and the pattern after it. *)
Fixpoint close_scan (p : list Z) : option (list Z * list Z) :=
  match p with
  | [] => None
  | c :: p' =>
      if c =? CLOSE then Some ([], p')
      else if c =? BACKSLASH then
        match p' with
        | [] => None
        | x :: p'' => '(body, rest) ← close_scan p''; Some (c :: x :: body, rest)
        end
      else '(body, rest) ← close_scan p'; Some (c :: body, rest)
  end.
(** [!] negates; a [\]] that comes first is a member. *)
Definition strip (b : Z) (p : list Z) : list Z * list Z :=
  match p with c :: p' => if c =? b then ([c], p') else ([], p) | [] => ([], []) end.
Definition read_class (p : list Z) : option (bool * list Z * list Z) :=
  let '(bang, p1) := strip BANG p in
  let '(first, p2) := strip CLOSE p1 in
  '(body, rest) ← close_scan p2;
  Some (bool_decide (bang ≠ []), first ++ body, rest).

(** The first element of a pattern and what follows it. *)
Definition next_tok (p : list Z) : option (tok * list Z) :=
  match p with
  | [] => None
  | c :: p' =>
      if c =? STAR then Some (TStar, p')
      else if c =? QUERY then Some (TAny, p')
      else if c =? OPEN then
        match read_class p' with
        | Some (neg, body, rest) => Some (TClass neg body, rest)
        | None => Some (TOpen, p')
        end
      else if c =? BACKSLASH then match p' with x :: p'' => Some (TChar x, p'') | [] => Some (TChar c, []) end
      else Some (TChar c, p')
  end.

Definition hits (t : tok) (c : Z) : bool :=
  match t with
  | TStar => false
  | TAny => negb (c =? SLASH)
  | TClass neg body => xorb (class_hits body c) neg
  | TOpen => c =? OPEN
  | TChar x => x =? c
  end.

Definition no_slash (s : list Z) : Prop := SLASH ∉ s.

(** [gmatch p s]: the pattern [p] matches the whole of [s]. *)
Inductive gmatch : list Z → list Z → Prop :=
  | gm_end : gmatch [] []
  | gm_one p t p' c s : next_tok p = Some (t, p') → hits t c = true → gmatch p' s → gmatch p (c :: s)
  | gm_star p p' pre s : next_tok p = Some (TStar, p') → no_slash pre → gmatch p' s → gmatch p (pre ++ s).

(** The elements of a pattern. *)
Fixpoint tokens_f (fuel : nat) (p : list Z) : list tok :=
  match fuel with
  | O => []
  | S fuel => match next_tok p with Some (t, p') => t :: tokens_f fuel p' | None => [] end
  end.
Definition tokens (p : list Z) : list tok := tokens_f (length p) p.

Definition is_plain (t : tok) : bool := match t with TStar | TChar _ => true | _ => false end.

(** ** Reading a pattern *)

Lemma close_scan_len p body rest : close_scan p = Some (body, rest) → (length rest < length p)%nat.
Proof.
  revert body rest. induction p as [p IH] using (induction_ltof1 _ (@length Z)). unfold ltof in IH.
  intros body rest. destruct p as [|c p]; [done|]. cbn [close_scan].
  destruct (c =? CLOSE); [intros [= _ <-]; cbn; lia|]. destruct (c =? BACKSLASH).
  - destruct p as [|x p]; [done|]. destruct (close_scan p) as [[b r]|] eqn:H; [|done]. intros [= _ <-].
    apply IH in H; cbn; lia.
  - destruct (close_scan p) as [[b r]|] eqn:H; [|done]. intros [= _ <-]. apply IH in H; cbn; lia.
Qed.

Lemma strip_len b p : (length (strip b p).2 ≤ length p)%nat.
Proof. destruct p as [|c p]; [done|]. cbn. destruct (c =? b); cbn; lia. Qed.

Lemma read_class_len p neg body rest : read_class p = Some (neg, body, rest) → (length rest < length p)%nat.
Proof.
  unfold read_class. pose proof (strip_len BANG p) as H1. destruct (strip BANG p) as [bang p1].
  pose proof (strip_len CLOSE p1) as H2. destruct (strip CLOSE p1) as [f p2]. cbn in *.
  destruct (close_scan p2) as [[b r]|] eqn:H; [|done]. cbn. intros [= _ _ <-]. apply close_scan_len in H. lia.
Qed.

Lemma next_tok_len p t p' : next_tok p = Some (t, p') → (length p' < length p)%nat.
Proof.
  destruct p as [|c p]; [done|]. cbn [next_tok].
  destruct (c =? STAR); [intros [= _ <-]; cbn; lia|]. destruct (c =? QUERY); [intros [= _ <-]; cbn; lia|].
  destruct (c =? OPEN).
  - destruct (read_class p) as [[[neg body] rest]|] eqn:H; intros [= _ <-]; [apply read_class_len in H; cbn; lia|cbn; lia].
  - destruct (c =? BACKSLASH); [destruct p as [|x p]|]; intros [= _ <-]; cbn; lia.
Qed.
Lemma next_tok_none p : next_tok p = None → p = [].
Proof.
  destruct p as [|c p]; [done|]. cbn [next_tok]. destruct (c =? STAR); [done|]. destruct (c =? QUERY); [done|].
  destruct (c =? OPEN); [by destruct (read_class p) as [[[? ?] ?]|]|]. by destruct (c =? BACKSLASH), p.
Qed.

Lemma tokens_fuel p n m : (length p ≤ n)%nat → (length p ≤ m)%nat → tokens_f n p = tokens_f m p.
Proof.
  revert p m. induction n as [|n IH]; intros p m Hn Hm.
  - destruct p; [|cbn in Hn; lia]. by destruct m.
  - destruct m as [|m]; [destruct p; [done|cbn in Hm; lia]|]. cbn [tokens_f].
    destruct (next_tok p) as [[t p']|] eqn:Ht; [|done]. apply next_tok_len in Ht. f_equal. apply IH; lia.
Qed.
Lemma tokens_cons p t p' : next_tok p = Some (t, p') → tokens p = t :: tokens p'.
Proof.
  intros Ht. pose proof (next_tok_len _ _ _ Ht) as Hl. unfold tokens. destruct (length p) as [|n] eqn:Hn; [lia|].
  cbn [tokens_f]. rewrite Ht. f_equal. apply tokens_fuel; lia.
Qed.

(** ** One element *)

Lemma gmatch_nil s : gmatch [] s → s = [].
Proof. by inversion 1. Qed.

(** An element of one byte. *)
Lemma gmatch_one p t p' c s : next_tok p = Some (t, p') → t ≠ TStar →
  gmatch p (c :: s) ↔ hits t c = true ∧ gmatch p' s.
Proof.
  intros Ht Hs. split.
  - inversion 1 as [|? t0 p0 ? ? H1 H2 H3|? p0 pre s0 H1 H2 H3]; subst; rewrite Ht in H1; injection H1 as ??; subst; done.
  - intros [H1 H2]. by econstructor.
Qed.
Lemma gmatch_short p t p' : next_tok p = Some (t, p') → t ≠ TStar → ¬ gmatch p [].
Proof.
  intros Ht Hs. inversion 1 as [|? t0 p0 ? ? H1 H2 H3|? p0 pre s0 H1 H2 H3]; subst; [done|].
  rewrite Ht in H1. congruence.
Qed.
Lemma gmatch_star p p' s : next_tok p = Some (TStar, p') →
  gmatch p s ↔ ∃ pre s', s = pre ++ s' ∧ no_slash pre ∧ gmatch p' s'.
Proof.
  intros Ht. split; [|intros (pre & s' & -> & H1 & H2); by econstructor].
  inversion 1 as [|? t0 p0 ? ? H1 H2 H3|? p0 pre s0 H1 H2 H3]; subst; [done| |].
  - rewrite Ht in H1. injection H1 as <- <-. done.
  - rewrite Ht in H1. injection H1 as <-. eauto.
Qed.

(** ** The last star suffices *)

(** [seg p p' w]: elements of one byte each lead from [p] to [p'] over [w]. *)
Inductive seg : list Z → list Z → list Z → Prop :=
  | seg_nil p : seg p p []
  | seg_cons p t p1 p' c w : next_tok p = Some (t, p1) → t ≠ TStar → hits t c = true → seg p1 p' w → seg p p' (c :: w).

Lemma seg_snoc p q t q' c w : seg p q w → next_tok q = Some (t, q') → t ≠ TStar → hits t c = true → seg p q' (w ++ [c]).
Proof. induction 1 as [|? t0 ????? H1 H2 H3 IH]; intros ???; cbn; econstructor; eauto; constructor. Qed.

(** A match of the pattern before a segment passes through its end, over as many
    bytes; over the same bytes, when the segment is of literals. *)
Lemma seg_through p p' w s : seg p p' w → gmatch p s →
  ∃ w' s', s = w' ++ s' ∧ length w' = length w ∧ gmatch p' s' ∧ (Forall (λ t, is_plain t = true) (tokens p) → w' = w).
Proof.
  intros Hseg. revert s. induction Hseg as [|p t p1 p' c w Ht Hs Hc _ IH]; intros s Hm; [by exists [], s|].
  destruct s as [|x s]; [by destruct (gmatch_short _ _ _ Ht Hs)|]. apply (gmatch_one _ _ _ _ _ Ht Hs) in Hm as [Hx Hm].
  destruct (IH s Hm) as (w' & s' & -> & Hl & Hm' & Hp). exists (x :: w'), s'. split; [done|]. split; [cbn; lia|].
  split; [done|]. rewrite (tokens_cons _ _ _ Ht), Forall_cons. intros [Hpl Hrest]. rewrite Hp by done. f_equal.
  destruct t; try done. cbn in Hc, Hx. lia.
Qed.

(** A star at [p] resumed later than [s]. *)
Definition later_match (p s : list Z) : Prop := ∃ pre s', s = pre ++ s' ∧ pre ≠ [] ∧ no_slash pre ∧ gmatch p s'.

Lemma later_cons p c s : later_match p (c :: s) ↔ c ≠ SLASH ∧ (gmatch p s ∨ later_match p s).
Proof.
  unfold later_match, no_slash. split.
  - intros (pre & s' & He & Hne & Hns & Hm). destruct pre as [|x pre]; [done|]. injection He as <- ->.
    apply not_elem_of_cons in Hns as [Hc Hns]. split; [done|]. destruct pre as [|y pre]; [by left|right]. by exists (y :: pre), s'.
  - intros [Hc [Hm|(pre & s' & -> & _ & Hns & Hm)]].
    + exists [c], s. split; [done|]. split; [done|]. split; [|done]. intros H%list_elem_of_singleton. congruence.
    + exists (c :: pre), s'. split; [done|]. split; [done|]. split; [|done]. by rewrite not_elem_of_cons.
Qed.
Lemma later_nil p : ¬ later_match p [].
Proof. intros (pre & s' & He & Hne & _). by destruct pre. Qed.

(** A star's own match: at once or later. *)
Lemma star_later p p' s : next_tok p = Some (TStar, p') → gmatch p s ↔ gmatch p' s ∨ later_match p' s.
Proof.
  intros Ht. rewrite (gmatch_star _ _ _ Ht). unfold later_match, no_slash. split.
  - intros (pre & s' & -> & Hns & Hm). destruct pre as [|x pre]; [by left|right]. by exists (x :: pre), s'.
  - intros [Hm|(pre & s' & -> & _ & Hns & Hm)]; [|eauto]. exists [], s. split; [done|]. split; [apply not_elem_of_nil|done].
Qed.

(** What an earlier star could still do, a star met after it can do. *)
Lemma star_subsumes q p p' w s : seg q p w → next_tok p = Some (TStar, p') →
  no_slash (w ++ s) ∨ Forall (λ t, is_plain t = true) (tokens q) →
  later_match q (w ++ s) → gmatch p s.
Proof.
  intros Hseg Ht Hside (pre & s' & He & Hne & Hns & Hm).
  destruct (seg_through q p w s' Hseg Hm) as (w' & s'' & -> & Hl & Hm' & Hplain).
  apply (gmatch_star _ _ _ Ht) in Hm' as (pre' & s3 & -> & Hns' & Hm3).
  assert (∃ pre2, s = pre2 ++ pre' ++ s3 ∧ pre ++ w' = w ++ pre2) as (pre2 & -> & Hp2).
  { rewrite app_assoc in He. exists (drop (length w) (pre ++ w')).
    assert (w = take (length w) (pre ++ w')) as Hw.
    { rewrite <-(take_app_length w s) at 1. rewrite He, take_app_le; [done|]. rewrite length_app. lia. }
    split; [|transitivity (take (length w) (pre ++ w') ++ drop (length w) (pre ++ w'));
      [by rewrite take_drop|by rewrite <-Hw]].
    rewrite <-(drop_app_length w s), He, drop_app_le; [done|]. rewrite length_app. lia. }
  apply (gmatch_star _ _ _ Ht). exists (pre2 ++ pre'), s3. split; [by rewrite app_assoc|]. split; [|done].
  unfold no_slash in *. rewrite not_elem_of_app. split; [|done]. destruct Hside as [Hfree|Hpl].
  - rewrite !not_elem_of_app in Hfree. tauto.
  - rewrite Hplain in Hp2 by done. intros Hin. apply Hns.
    assert (pre ≡ₚ pre2) as ->; [|done]. apply (Permutation_app_inv_r w). rewrite Hp2. apply Permutation_app_comm.
Qed.

(** At the end of the input nothing later is left. *)
Lemma later_over q p w : seg q p w → ¬ later_match q w.
Proof.
  intros Hseg (pre & s' & -> & Hne & _ & Hm). destruct (seg_through _ _ _ _ Hseg Hm) as (w' & s'' & -> & Hl & _).
  rewrite !length_app in Hl. destruct pre; [done|]. cbn in Hl. lia.
Qed.

(** The empty input is matched by stars alone. *)
Lemma gmatch_empty p : gmatch p [] ↔ forallb (Z.eqb STAR) p = true.
Proof.
  induction p as [|c p IH]; [split; [done|constructor]|]. cbn [forallb]. rewrite andb_true_iff, Z.eqb_eq.
  destruct (next_tok (c :: p)) as [[t p']|] eqn:Ht; [|by apply next_tok_none in Ht].
  destruct (decide (c = STAR)) as [->|Hc].
  - rewrite (star_later (STAR :: p) p) by done. rewrite IH. split; [intros [H|H%later_nil]; done|tauto].
  - split; [|intros [? _]; congruence]. intros Hm. exfalso. revert Hm. eapply gmatch_short; [exact Ht|].
    intros ->. cbn [next_tok] in Ht. destruct (Z.eqb_spec c STAR); [done|]. destruct (c =? QUERY); [done|].
    destruct (c =? OPEN); [by destruct (read_class p) as [[[? ?] ?]|]|]. by destruct (c =? BACKSLASH), p.
Qed.

(** ** Indices into a pattern *)

Lemma at_drop {A} (v : list A) i x p : drop i v = x :: p → v !! i = Some x ∧ drop (i + 1) v = p ∧ (i < length v)%nat.
Proof.
  intros H. assert (v !! i = Some x) as Hx by (rewrite <-(Nat.add_0_r i), <-lookup_drop, H; done).
  split; [done|]. split; [|by eapply lookup_lt_Some]. by rewrite <-drop_drop, H.
Qed.
Lemma drop_at {A} (v : list A) i x : v !! i = Some x → drop i v = x :: drop (i + 1) v.
Proof. intros H. rewrite (drop_S _ _ _ H). by rewrite Nat.add_1_r. Qed.

Lemma class_member_ok class i x p : drop i class = x :: p →
  ∃ y j, class_member class i = Done (y, j) ∧ read_member (drop i class) = Some (y, drop j class) ∧ (i < j ≤ length class)%nat.
Proof.
  intros H. destruct (at_drop _ _ _ _ H) as (Hx & Hp & Hi). unfold class_member, at_. rewrite H, Hx. cbn [unwrap read_member].
  obind. destruct (x =? BACKSLASH) eqn:Hb; cbn [andb].
  - destruct (Nat.ltb_spec (i + 1) (length class)) as [Hlt|Hge].
    + destruct p as [|y p']; [apply (f_equal length) in Hp; rewrite length_drop in Hp; cbn in Hp; lia|].
      destruct (at_drop _ _ _ _ Hp) as (Hy & Hp' & _). rewrite Hy. obind. exists y, (i + 2)%nat. split; [done|].
      split; [|lia]. f_equal. f_equal. by rewrite <-Hp', <-Nat.add_assoc.
    + exists x, (i + 1)%nat. split; [done|]. split; [|lia]. rewrite Hp.
      destruct p; [done|]. apply (f_equal length) in Hp. rewrite length_drop in Hp. cbn in Hp. lia.
  - exists x, (i + 1)%nat. split; [done|]. split; [by rewrite Hp|lia].
Qed.

Lemma char_class_ok class c fuel fuel' i : (length class - i < fuel)%nat → (length class - i < fuel')%nat →
  char_class_f fuel class c i =
    Done (existsb (λ r : Z * Z, (Z.min r.1 r.2 <=? c) && (c <=? Z.max r.1 r.2)) (class_items_f fuel' (drop i class))).
Proof.
  revert i fuel'. induction fuel as [|fuel IH]; intros i [|fuel'] Hf Hf'; try lia. cbn [char_class_f class_items_f].
  destruct (Nat.ltb_spec i (length class)) as [Hi|Hi]; [|by rewrite drop_ge by lia].
  destruct (drop i class) as [|x p] eqn:Hd; [apply (f_equal length) in Hd; rewrite length_drop in Hd; cbn in Hd; lia|].
  destruct (class_member_ok class i x p Hd) as (lo & j & -> & Hm & Hj). rewrite Hd in Hm. rewrite Hm. obind.
  pose proof (length_drop class j) as Hlen.
  assert (∀ q, drop j class = q →
    (if (lo =? c) then Done true else char_class_f fuel class c j) =
      Done (existsb (λ r : Z * Z, (Z.min r.1 r.2 <=? c) && (c <=? Z.max r.1 r.2)) ((lo, lo) :: class_items_f fuel' q))) as Hone.
  { intros q <-. cbn [existsb fst snd]. rewrite Z.min_id, Z.max_id.
    destruct (Z.eqb_spec lo c) as [->|Hne]; [by rewrite Z.leb_refl|].
    rewrite (IH j fuel') by lia. replace ((lo <=? c) && (c <=? lo)) with false; [done|].
    symmetry. apply andb_false_iff. rewrite !Z.leb_gt. lia. }
  destruct (drop j class) as [|d [|h r]] eqn:Hdj; cbn [length] in Hlen.
  - rewrite (proj2 (Nat.ltb_ge _ _)) by lia. obind. by apply Hone.
  - rewrite (proj2 (Nat.ltb_ge _ _)) by lia. obind. by apply Hone.
  - rewrite (proj2 (Nat.ltb_lt _ _)) by lia. destruct (at_drop _ _ _ _ Hdj) as (Hd' & Hr & _).
    unfold at_. rewrite Hd'. cbn [unwrap]. obind. destruct (d =? DASH).
    + destruct (class_member_ok class (j + 1) h r Hr) as (hi & k & -> & Hm' & Hk). obind. cbn [tail]. rewrite <-Hr, Hm'.
      cbn [existsb fst snd]. destruct ((Z.min lo hi <=? c) && (c <=? Z.max lo hi)); [done|]. apply IH; lia.
    + by apply Hone.
Qed.
Lemma class_match_ok class c : char_class_match class c = Done (class_hits class c).
Proof. unfold char_class_match, class_hits, class_items. rewrite (char_class_ok _ _ _ (S (length class))) by lia. done. Qed.

Lemma class_end_ok pat fuel i : (length pat - i < fuel)%nat → ∃ o, class_end_f fuel pat i = Done o ∧
  match close_scan (drop i pat) with
  | Some (body, rest) => ∃ e, o = Some e ∧ (i ≤ e < length pat)%nat ∧ take (e - i) (drop i pat) = body ∧ drop (e + 1) pat = rest
  | None => o = None
  end.
Proof.
  revert i. induction fuel as [|fuel IH]; intros i Hf; [lia|]. cbn [class_end_f].
  destruct (Nat.ltb_spec i (length pat)) as [Hi|Hi]; [|exists None; split; [done|]; by rewrite drop_ge by lia].
  destruct (drop i pat) as [|x p] eqn:Hd; [apply (f_equal length) in Hd; rewrite length_drop in Hd; cbn in Hd; lia|].
  destruct (at_drop _ _ _ _ Hd) as (Hx & Hp & _). unfold at_. rewrite Hx. cbn [unwrap close_scan]. obind.
  destruct (x =? CLOSE); [exists (Some i); split; [done|]; exists i; rewrite Nat.sub_diag; split_and!; done || lia|].
  destruct (x =? BACKSLASH).
  - destruct p as [|y p].
    + assert (length pat ≤ i + 1)%nat.
      { apply (f_equal length) in Hp. rewrite length_drop in Hp. cbn in Hp. lia. }
      destruct (IH (i + 2)%nat) as (o & -> & Ho); [lia|]. exists o. split; [done|]. by rewrite drop_ge in Ho by lia.
    + destruct (at_drop _ _ _ _ Hp) as (Hy & Hp' & Hi'). rewrite <-Nat.add_assoc in Hp'. cbn in Hp'.
      destruct (IH (i + 2)%nat) as (o & -> & Ho); [lia|]. exists o. split; [done|]. rewrite Hp' in Ho.
      destruct (close_scan p) as [[b r]|]; [|done]. cbn [mbind option_bind].
      destruct Ho as (e & -> & He & <- & Hr). exists e. split; [done|]. split; [lia|]. split; [|done].
      replace (e - i)%nat with (S (S (e - (i + 2)))) by lia. done.
  - destruct (IH (i + 1)%nat) as (o & -> & Ho); [lia|]. exists o. split; [done|]. rewrite Hp in Ho.
    destruct (close_scan p) as [[b r]|]; [|done]. cbn [mbind option_bind].
    destruct Ho as (e & -> & He & <- & Hr). exists e. split; [done|]. split; [lia|]. split; [|done].
    replace (e - i)%nat with (S (e - (i + 1))) by lia. done.
Qed.

Definition skip (pat : list Z) (i : nat) (b : Z) : nat := if bool_decide (pat !! i = Some b) then (i + 1)%nat else i.
Lemma strip_drop pat i b : strip b (drop i pat) = (if bool_decide (pat !! i = Some b) then [b] else [], drop (skip pat i b) pat).
Proof.
  unfold skip. destruct (drop i pat) as [|c p] eqn:Hd; cbn [strip].
  - rewrite bool_decide_eq_false_2, Hd; [done|]. rewrite <-(Nat.add_0_r i), <-lookup_drop, Hd. done.
  - destruct (at_drop _ _ _ _ Hd) as (Hc & Hp & _). rewrite Hc. destruct (Z.eqb_spec c b) as [->|Hne].
    + by rewrite bool_decide_eq_true_2, Hp.
    + rewrite bool_decide_eq_false_2 by congruence. by rewrite Hd.
Qed.
Lemma skip_take pat i b : (if bool_decide (pat !! i = Some b) then [b] else []) = take (skip pat i b - i) (drop i pat) ∧
  (i ≤ skip pat i b ≤ i + 1)%nat.
Proof.
  unfold skip. case_bool_decide as H; [|rewrite Nat.sub_diag; cbn; split; [done|lia]].
  rewrite (drop_at _ _ _ H). replace (i + 1 - i)%nat with 1%nat by lia. cbn. split; [done|lia].
Qed.
Lemma take_skip {A} (v : list A) a b c : (a ≤ b ≤ c)%nat → take (c - a) (drop a v) = take (b - a) (drop a v) ++ take (c - b) (drop b v).
Proof.
  intros H. replace (c - a)%nat with ((b - a) + (c - b))%nat by lia. rewrite <-take_take_drop.
  rewrite drop_drop. by replace (a + (b - a))%nat with b by lia.
Qed.

(** The class at [pi]: the code finds the end the reading of the pattern finds. *)
Lemma find_class_end_ok pat pi : (pi < length pat)%nat → ∃ o, find_class_end pat pi = Done o ∧
  match read_class (drop (pi + 1) pat) with
  | Some (neg, body, rest) => ∃ e, o = Some e ∧ (pi + 1 ≤ e < length pat)%nat ∧ drop (e + 1) pat = rest ∧
      take (e - (pi + 1)) (drop (pi + 1) pat) = (if neg then [BANG] else []) ++ body ∧
      (neg = false → head body ≠ Some BANG)
  | None => o = None
  end.
Proof.
  intros Hpi. unfold find_class_end, read_class. fold (skip pat (pi + 1) BANG). set (i1 := skip pat (pi + 1) BANG).
  fold (skip pat i1 CLOSE). set (i2 := skip pat i1 CLOSE). rewrite strip_drop. fold i1. rewrite strip_drop. fold i2.
  destruct (skip_take pat (pi + 1) BANG) as [Ht1 Hi1], (skip_take pat i1 CLOSE) as [Ht2 Hi2]. fold i1 in Ht1, Hi1. fold i2 in Ht2, Hi2.
  destruct (class_end_ok pat (S (length pat)) i2) as (o & -> & Ho); [lia|]. exists o. split; [done|].
  destruct (close_scan (drop i2 pat)) as [[b r]|]; [|done]. cbn [mbind option_bind].
  destruct Ho as (e & -> & He & Hb & Hr). exists e. split; [done|]. split; [lia|]. split; [done|].
  rewrite (take_skip _ (pi + 1) i1 e), (take_skip _ i1 i2 e) by lia. rewrite <-Ht1, <-Ht2, Hb.
  destruct (decide (pat !! (pi + 1)%nat = Some BANG)) as [HB|HB];
    [rewrite (bool_decide_eq_true_2 _ HB) in *; by split|rewrite (bool_decide_eq_false_2 _ HB) in *; split; [done|]].
  intros _ Hh. apply HB. assert (i1 = pi + 1)%nat as E1 by (unfold i1, skip; by rewrite bool_decide_eq_false_2).
  rewrite <-E1. subst b. unfold i2, skip in Hh. case_bool_decide; [done|]. cbn [app] in Hh.
  destruct (drop i1 pat) as [|c p] eqn:Hd; [by rewrite take_nil in Hh|].
  destruct (e - i1)%nat; [done|]. injection Hh as ->. by destruct (at_drop _ _ _ _ Hd).
Qed.

(** ** One turn of the loop *)

Section Loop.
Context (pat inp : list Z).

(** The indices are in range, and the star is not past them. *)
Definition in_range (st : mstate) : Prop :=
  let '(pi, ii, star_pat, star_inp) := st in
  (pi ≤ length pat ∧ ii ≤ length inp ∧ star_inp ≤ ii)%nat ∧
  match star_pat with Some q => (q ≤ length pat)%nat | None => True end.

(** The retry the code makes after a miss: the wild one after [?] and a class, none
    after an unterminated bracket, the literal one otherwise. *)
Definition retry_of (t : option tok) (star_pat : option nat) (star_inp : nat) : outcome (option (nat * nat)) :=
  match t with
  | Some TOpen => Done None
  | Some TAny | Some (TClass _ _) => retry_wild inp star_pat star_inp
  | _ => retry_lit inp star_pat star_inp
  end.

(** What a turn does, in terms of the element read and the byte met. *)
Definition turn (st : mstate) (x : Z) : Prop :=
  let '(pi, ii, star_pat, star_inp) := st in
  (∃ pi', next_tok (drop pi pat) = Some (TStar, drop pi' pat) ∧ (pi < pi' ≤ length pat)%nat ∧
     match_step pat inp st = Done (Some (pi', ii, Some pi', ii))) ∨
  (∃ t pi', next_tok (drop pi pat) = Some (t, drop pi' pat) ∧ (pi < pi' ≤ length pat)%nat ∧ t ≠ TStar ∧ hits t x = true ∧
     match_step pat inp st = Done (Some (pi', (ii + 1)%nat, star_pat, star_inp))) ∨
  (∃ t, fst <$> next_tok (drop pi pat) = t ∧ t ≠ Some TStar ∧ from_option (λ t, hits t x) false t = false ∧
     match_step pat inp st = (r ← retry_of t star_pat star_inp; Done (resume star_pat r))).

(** A turn on an element of one byte. *)
Lemma turn_one pi ii sp sj x t pi' : next_tok (drop pi pat) = Some (t, drop pi' pat) → (pi < pi' ≤ length pat)%nat →
  t ≠ TStar →
  match_step pat inp (pi, ii, sp, sj) =
    (if hits t x then Done (Some (pi', (ii + 1)%nat, sp, sj)) else r ← retry_of (Some t) sp sj; Done (resume sp r)) →
  turn (pi, ii, sp, sj) x.
Proof.
  intros Ht Hpi Hs He. destruct (hits t x) eqn:Hh.
  - right; left. by exists t, pi'.
  - right; right. exists (Some t). rewrite Ht. split; [done|]. split; [congruence|]. done.
Qed.

Lemma turn_ok pi ii sp sj x : (pi ≤ length pat)%nat → inp !! ii = Some x → turn (pi, ii, sp, sj) x.
Proof.
  intros Hpi Hx. destruct (pat !! pi) as [c|] eqn:Hc.
  2:{ right; right. exists None. apply lookup_ge_None in Hc as Hge. rewrite drop_ge by done. split; [done|].
      split; [done|]. split; [done|]. cbn [match_step retry_of]. by rewrite Hc. }
  pose proof (drop_at _ _ _ Hc) as Hd. pose proof (lookup_lt_Some _ _ _ Hc) as Hlt.
  assert (at_ inp ii = Done x) as Hax by (unfold at_; by rewrite Hx).
  destruct (c =? STAR) eqn:E1.
  { left. exists (pi + 1)%nat. rewrite Hd. cbn [next_tok match_step]. rewrite Hc, E1. split; [done|]. split; [lia|done]. }
  destruct (c =? QUERY) eqn:E2.
  { eapply (turn_one _ _ _ _ _ TAny (pi + 1)); [by rewrite Hd; cbn [next_tok]; rewrite E1, E2|lia|done|].
    cbn [match_step hits retry_of]. rewrite Hc, E1, E2, Hax. obind. by destruct (x =? SLASH). }
  destruct (c =? OPEN) eqn:E3.
  { destruct (find_class_end_ok pat pi Hlt) as (o & Ho & Hread).
    destruct (read_class (drop (pi + 1) pat)) as [[[neg body] rest]|] eqn:Hrc.
    - destruct Hread as (e & -> & He & Hr & Hb & Hn).
      eapply (turn_one _ _ _ _ _ (TClass neg body) (e + 1)); [by rewrite Hd; cbn [next_tok]; rewrite E1, E2, E3, Hrc, Hr|lia|done|].
      cbn [match_step hits retry_of]. rewrite Hc, E1, E2, E3, Ho. obind.
      unfold slice. rewrite (proj2 (Nat.leb_le (pi + 1) e)), (proj2 (Nat.leb_le e (length pat))) by lia. cbn [andb]. obind.
      rewrite Hb, Hax.
      assert (match (if neg then [BANG] else []) ++ body with
              | b :: rest0 => if b =? BANG then (true, rest0) else (false, (if neg then [BANG] else []) ++ body)
              | [] => (false, (if neg then [BANG] else []) ++ body) end = (neg, body)) as ->.
      { destruct neg; [done|]. cbn [app]. destruct body as [|b0 body]; [done|]. specialize (Hn eq_refl). cbn in Hn.
        destruct (Z.eqb_spec b0 BANG); [congruence|done]. }
      obind. rewrite class_match_ok. obind. by destruct (xorb _ _).
    - subst o. eapply (turn_one _ _ _ _ _ TOpen (pi + 1)); [by rewrite Hd; cbn [next_tok]; rewrite E1, E2, E3, Hrc|lia|done|].
      cbn [match_step hits retry_of]. rewrite Hc, E1, E2, E3, Ho. obind. rewrite Hax. obind. by destruct (x =? OPEN). }
  assert (∃ y w, (if (c =? BACKSLASH) && (pi + 1 <? length pat)%nat then z ← at_ pat (pi + 1); Done (z, 2%nat)
            else Done (c, 1%nat)) = Done (y, w) ∧ next_tok (drop pi pat) = Some (TChar y, drop (pi + w) pat) ∧
            (pi < pi + w ≤ length pat)%nat) as (y & w & Hy & Ht & Hw).
  { rewrite Hd. cbn [next_tok]. rewrite E1, E2, E3. destruct (c =? BACKSLASH); cbn [andb];
      [|exists c, 1%nat; split_and!; done || lia].
    destruct (Nat.ltb_spec (pi + 1) (length pat)) as [H1|H1].
    - destruct (lookup_lt_is_Some_2 pat _ H1) as [z Hz]. unfold at_. rewrite Hz. exists z, 2%nat. split; [done|].
      rewrite (drop_at _ _ _ Hz), <-Nat.add_assoc. split; [done|lia].
    - exists c, 1%nat. split; [done|]. rewrite drop_ge by done. split; [done|lia]. }
  eapply (turn_one _ _ _ _ _ (TChar y) (pi + w)); [done|lia|done|].
  cbn [match_step hits retry_of]. rewrite Hc, E1, E2, E3, Hy. obind. rewrite Hax. obind. by destruct (y =? x).
Qed.

(** ** Termination *)

(** Every turn moves the star on, or reads on after it. *)
Definition measure (st : mstate) : nat :=
  let '(pi, _, _, star_inp) := st in ((length inp - star_inp) * S (length pat) + (length pat - pi))%nat.

Lemma retry_ok t sp sj : (sj < length inp)%nat →
  ∃ r, retry_of t sp sj = Done r ∧ ∀ pi' sj', r = Some (pi', sj') → sp = Some pi' ∧ sj' = (sj + 1)%nat.
Proof.
  intros Hj. destruct (lookup_lt_is_Some_2 inp _ Hj) as [x Hx].
  assert (∃ r, retry_lit inp sp sj = Done r ∧ ∀ pi' sj', r = Some (pi', sj') → sp = Some pi' ∧ sj' = (sj + 1)%nat) as Hlit.
  { unfold retry_lit, at_. destruct sp as [q|]; [|by exists None]. rewrite Hx. cbn [unwrap]. obind. eexists. split; [done|].
    intros pi' sj'. destruct (x =? SLASH); [done|]. by intros [= <- <-]. }
  assert (∃ r, retry_wild inp sp sj = Done r ∧ ∀ pi' sj', r = Some (pi', sj') → sp = Some pi' ∧ sj' = (sj + 1)%nat) as Hwild.
  { unfold retry_wild, at_. destruct sp as [q|]; [|by exists None]. destruct (Nat.ltb_spec (sj + 1) (length inp)) as [H|H].
    - destruct (lookup_lt_is_Some_2 inp _ H) as [y ->]. cbn [unwrap]. obind. eexists. split; [done|].
      intros pi' sj'. destruct (y =? SLASH); [done|]. by intros [= <- <-].
    - obind. eexists. split; [done|]. by intros pi' sj' [= <- <-]. }
  destruct t as [[]|]; try done. by exists None.
Qed.

Lemma step_total st : in_range st → (st.1.1.2 < length inp)%nat →
  ∃ o, match_step pat inp st = Done o ∧ ∀ st', o = Some st' → in_range st' ∧ (measure st' < measure st)%nat.
Proof.
  destruct st as [[[pi ii] sp] sj]. cbn [fst snd in_range]. intros [(Hpi & Hii & Hj) Hq] Hlt.
  destruct (lookup_lt_is_Some_2 inp _ Hlt) as [x Hx].
  destruct (turn_ok pi ii sp sj x Hpi Hx) as [(pi' & _ & Hp & ->)|[(t & pi' & _ & Hp & _ & _ & ->)|(t & _ & _ & _ & ->)]].
  - eexists. split; [done|]. intros st' [= <-]. cbn. split; [lia|]. nia.
  - eexists. split; [done|]. intros st' [= <-]. cbn. split; [split; [lia|done]|]. nia.
  - destruct (retry_ok t sp sj) as (r & -> & Hr); [lia|]. obind. eexists. split; [done|].
    intros st' Hst. destruct r as [[pi' sj']|]; [|done]. destruct (Hr _ _ eq_refl) as [-> ->]. injection Hst as <-. cbn.
    split; [lia|]. nia.
Qed.

Lemma loop_total fuel st : in_range st → (measure st < fuel)%nat → ∃ b, match_loop fuel pat inp st = Done b.
Proof.
  revert st. induction fuel as [|fuel IH]; intros st Hst Hm; [lia|]. destruct st as [[[pi ii] sp] sj] eqn:Est.
  cbn [match_loop]. destruct (Nat.ltb_spec ii (length inp)) as [Hlt|Hge]; [|by eexists].
  destruct (step_total (pi, ii, sp, sj) Hst Hlt) as (o & -> & Ho). obind. destruct o as [st'|]; [|by eexists].
  destruct (Ho st' eq_refl) as [Hst' Hm']. apply IH; [done|lia].
Qed.

End Loop.

(** ** Exactness *)

(** The patterns and inputs the matcher is exact on. *)
Definition regular (pat inp : list Z) : Prop :=
  TOpen ∉ tokens pat ∧ (no_slash inp ∨ Forall (λ t, is_plain t = true) (tokens pat)).

Section Exact.
Context (pat inp : list Z) (Hreg : regular pat inp).

Definition within (i : nat) : Prop := ∃ pre, tokens pat = pre ++ tokens (drop i pat).
Definition resumed (sp : option nat) (sj : nat) : Prop :=
  match sp with Some q => later_match (drop q pat) (drop sj inp) | None => False end.

Record exact (st : mstate) : Prop := mkExact {
  ex_range : in_range pat inp st;
  ex_here : within st.1.1.1;
  ex_star q : st.1.2 = Some q → within q ∧ seg (drop q pat) (drop st.1.1.1 pat) (take (st.1.1.2 - st.2) (drop st.2 inp));
  ex_goal : gmatch pat inp ↔ gmatch (drop st.1.1.1 pat) (drop st.1.1.2 inp) ∨ resumed st.1.2 st.2 }.

Lemma within_next pi pi' t : within pi → next_tok (drop pi pat) = Some (t, drop pi' pat) → within pi' ∧ t ∈ tokens pat.
Proof.
  intros [pre Hp] Ht. rewrite (tokens_cons _ _ _ Ht) in Hp. split; [exists (pre ++ [t]); by rewrite <-app_assoc|].
  rewrite Hp. set_solver.
Qed.
Lemma within_plain q : within q → Forall (λ t, is_plain t = true) (tokens pat) → Forall (λ t, is_plain t = true) (tokens (drop q pat)).
Proof. intros [pre ->] [_ H]%Forall_app. done. Qed.
Lemma no_slash_drop i : no_slash inp → no_slash (drop i inp).
Proof. unfold no_slash. rewrite <-(take_drop i inp) at 1. rewrite not_elem_of_app. tauto. Qed.

(** A later start of the star from here: the star takes one byte more. *)
Lemma exact_resume pi ii q sj y : exact (pi, ii, Some q, sj) → inp !! sj = Some y → y ≠ SLASH →
  ¬ gmatch (drop pi pat) (drop ii inp) → (ii < length inp)%nat → exact (q, (sj + 1)%nat, Some q, (sj + 1)%nat).
Proof.
  intros [Hr Hh Hs Hg] Hy Hsl Hno Hlt. cbn in *. destruct (Hs q eq_refl) as [Hq _]. destruct Hr as [(H1 & H2 & H3) H4].
  split; cbn; [split; [lia|done]|done| |].
  - intros q' [= <-]. rewrite Nat.sub_diag. split; [done|constructor].
  - rewrite Hg, (drop_at _ _ _ Hy), later_cons. tauto.
Qed.

(** What is left when nothing is resumed. *)
Lemma exact_miss pi ii sp sj t x r : exact (pi, ii, sp, sj) → inp !! ii = Some x →
  fst <$> next_tok (drop pi pat) = t → t ≠ Some TStar → from_option (λ t, hits t x) false t = false →
  retry_of inp t sp sj = Done r →
  match resume sp r with Some st' => exact st' | None => ¬ gmatch pat inp end.
Proof.
  intros Hex Hx Ht Hns Hmiss Hr. pose proof Hex as [[(H1 & H2 & H3) H4] Hh Hs Hg]. cbn in *.
  pose proof (lookup_lt_Some _ _ _ Hx) as Hlt.
  assert (¬ gmatch (drop pi pat) (drop ii inp)) as Hno.
  { rewrite (drop_at _ _ _ Hx). destruct (next_tok (drop pi pat)) as [[t0 p']|] eqn:Hn; cbn in Ht; subst t.
    - rewrite (gmatch_one _ _ _ _ _ Hn) by congruence. cbn in Hmiss. rewrite Hmiss. by intros [? _].
    - rewrite (next_tok_none _ Hn). by intros ?%gmatch_nil. }
  destruct sp as [q|]; cbn [resumed] in Hg.
  2:{ assert (r = None) as -> by (destruct t as [[]|]; cbn in Hr; congruence). cbn. tauto. }
  assert (sj < length inp)%nat as Hj by lia. destruct (lookup_lt_is_Some_2 inp _ Hj) as [y Hy].
  assert (retry_lit inp (Some q) sj = Done r → match resume (Some q) r with Some st' => exact st' | None => ¬ gmatch pat inp end) as Hlit.
  { unfold retry_lit, at_. rewrite Hy. cbn [unwrap]. obind. intros [= <-]. destruct (Z.eqb_spec y SLASH) as [Hsl|Hsl].
    - cbn. rewrite Hg, (drop_at _ _ _ Hy), later_cons. intros [?|[? _]]; done.
    - by eapply exact_resume. }
  assert (∀ t0, t = Some t0 → t0 ∈ tokens pat) as Htok.
  { intros t0 ->. destruct (next_tok (drop pi pat)) as [[t1 p']|] eqn:Hn; cbn in Ht; [|done]. injection Ht as ->.
    destruct Hh as [pre ->]. rewrite (tokens_cons _ _ _ Hn). set_solver. }
  assert (∀ t0, t = Some t0 → is_plain t0 = false → retry_wild inp (Some q) sj = Done r →
    match resume (Some q) r with Some st' => exact st' | None => ¬ gmatch pat inp end) as Hwild.
  { intros t0 Ht0 Hpl Hw. destruct Hreg as [_ [Hfree|Hall]].
    2:{ rewrite Forall_forall in Hall. specialize (Hall t0 (Htok t0 Ht0)). congruence. }
    assert (∀ i z, inp !! i = Some z → z ≠ SLASH) as Hz by (intros i z Hi ->; apply Hfree; by eapply list_elem_of_lookup_2).
    assert (r = Some (q, (sj + 1)%nat)) as ->; [|by eapply exact_resume; eauto].
    unfold retry_wild, at_ in Hw. destruct (Nat.ltb_spec (sj + 1) (length inp)) as [H|H]; [|by obind in Hw; injection Hw].
    destruct (lookup_lt_is_Some_2 inp _ H) as [z Hzz]. rewrite Hzz in Hw. cbn [unwrap] in Hw. obind in Hw.
    rewrite (proj2 (Z.eqb_neq z SLASH)) in Hw by eauto. by injection Hw. }
  destruct t as [[]|]; cbn [retry_of] in Hr; [done| | | |by apply Hlit..]; [by eapply Hwild..|].
  by destruct (proj1 Hreg (Htok _ eq_refl)).
Qed.

Lemma exact_step pi ii sp sj x : exact (pi, ii, sp, sj) → inp !! ii = Some x →
  ∃ o, match_step pat inp (pi, ii, sp, sj) = Done o ∧ match o with Some st' => exact st' | None => ¬ gmatch pat inp end.
Proof.
  intros Hex Hx. pose proof Hex as [[(H1 & H2 & H3) H4] Hh Hs Hg]. cbn [fst snd] in Hh, Hs, Hg. pose proof (lookup_lt_Some _ _ _ Hx) as Hlt.
  assert (drop sj inp = take (ii - sj) (drop sj inp) ++ drop ii inp) as Hcut.
  { replace (drop ii inp) with (drop (ii - sj) (drop sj inp)); [by rewrite take_drop|].
    rewrite drop_drop. f_equal. lia. }
  destruct (turn_ok pat inp pi ii sp sj x H1 Hx) as [(pi' & Ht & Hp & ->)|[(t & pi' & Ht & Hp & Hns & Hh' & ->)|(t & Ht & Hns & Hm & ->)]].
  - eexists. split; [done|]. destruct (within_next _ _ _ Hh Ht) as [Hw _]. split; cbn; [lia|done| |].
    + intros q [= <-]. rewrite Nat.sub_diag. split; [done|constructor].
    + rewrite Hg, (star_later _ _ _ Ht). split; [|tauto]. intros [?|Hres]; [done|].
      rewrite <-(star_later _ _ _ Ht). destruct sp as [q|]; [|done]. destruct (Hs q eq_refl) as [Hwq Hseg]. cbn in Hres.
      rewrite Hcut in Hres. eapply star_subsumes; [exact Hseg|exact Ht| |exact Hres].
      destruct Hreg as [_ [Hfree|Hall]]; [left; rewrite <-Hcut; by apply no_slash_drop|right; by apply within_plain].
  - eexists. split; [done|]. destruct (within_next _ _ _ Hh Ht) as [Hw _]. split; cbn; [split; [lia|done]|done| |].
    + intros q Hq. destruct (Hs q Hq) as [Hwq Hseg]. split; [done|].
      replace (take (ii + 1 - sj) (drop sj inp)) with (take (ii - sj) (drop sj inp) ++ [x]);
        [by eapply seg_snoc|]. replace (ii + 1 - sj)%nat with (S (ii - sj)) by lia.
      symmetry. apply take_S_r. rewrite lookup_drop. by replace (sj + (ii - sj))%nat with ii by lia.
    + rewrite Hg, (drop_at _ _ _ Hx), (gmatch_one _ _ _ _ _ Ht Hns). tauto.
  - destruct (retry_ok inp t sp sj) as (r & Hr & _); [lia|]. rewrite Hr. obind. eexists. split; [done|].
    by eapply exact_miss.
Qed.

Lemma exact_loop fuel st b : exact st → match_loop fuel pat inp st = Done b → b = true ↔ gmatch pat inp.
Proof.
  revert st. induction fuel as [|fuel IH]; intros st Hex; [done|]. destruct st as [[[pi ii] sp] sj].
  cbn [match_loop]. destruct (Nat.ltb_spec ii (length inp)) as [Hlt|Hge].
  - destruct (lookup_lt_is_Some_2 inp _ Hlt) as [x Hx]. destruct (exact_step pi ii sp sj x Hex Hx) as (o & -> & Ho). obind.
    destruct o as [st'|]; [by apply IH|]. intros [= <-]. split; [done|tauto].
  - intros [= <-]. destruct Hex as [[(H1 & H2 & H3) _] _ Hs Hg]. cbn in *. rewrite Hg. rewrite (drop_ge inp ii) by lia.
    rewrite gmatch_empty. split; [tauto|]. intros [?|Hres]; [done|]. destruct sp as [q|]; [|done]. exfalso.
    destruct (Hs q eq_refl) as [_ Hseg]. apply (later_over _ _ _ Hseg). cbn in Hres.
    rewrite take_ge; [done|]. rewrite length_drop. lia.
Qed.

End Exact.

End GlobProofs.
