(* ===== verification/GlobClaims.v ===== *)
(** * The theorems of the glob matcher *)

From S2P Require Import Prelude Glob GlobProofs.
Import Glob GlobProofs.
Open Scope Z_scope.

Module GlobClaims.

(** ** The matcher *)

Lemma start_exact pat inp : exact pat inp (0%nat, 0%nat, None, 0%nat).
Proof.
  split; cbn [fst snd].
  - cbn. split; [lia|done].
  - exists []. by rewrite drop_0.
  - done.
  - rewrite !drop_0. cbn. tauto.
Qed.

Lemma match_total pat inp : ∃ b, matches pat inp = Done b.
Proof. apply loop_total; [cbn; split; [lia|done]|]. unfold measure, match_fuel. lia. Qed.
Lemma match_exact pat inp : regular pat inp → ∃ b, matches pat inp = Done b ∧ (b = true ↔ gmatch pat inp).
Proof.
  intros Hreg. destruct (match_total pat inp) as [b Hb]. exists b. split; [done|].
  by eapply exact_loop; [|apply start_exact|exact Hb].
Qed.

(** The matcher returns on every pattern and every input: no index is out of
    range, and every turn of its loop takes a pattern element or moves the last
    star on, so that at most [|input| * (|pattern| + 1) + |pattern|] turns are made. *)
Theorem glob_returns pat inp : ∃ b, matches pat inp = Done b.
Proof. apply match_total. Qed.

(** C10: the matcher, which resumes only its last star, is exact: it accepts exactly
    the inputs the documented reading of the pattern accepts, on every input
    without a slash (a scrutinee, a file name) for every pattern without an
    unterminated bracket, and for a pattern of literals, escapes and stars on
    every input, slashes included. *)
Theorem glob_exact pat inp : regular pat inp → ∃ b, matches pat inp = Done b ∧ (b = true ↔ gmatch pat inp).
Proof. apply match_exact. Qed.
(** [*.[ch]] accepts [a.h]. *)
Lemma glob_exact_witness : gmatch [42; 46; 91; 99; 104; 93] [97; 46; 104].
Proof.
  destruct (glob_exact [42; 46; 91; 99; 104; 93] [97; 46; 104]) as (b & Hb & Hm).
  - split; [|left; unfold no_slash, SLASH; intros H; repeat (apply elem_of_cons in H as [H|H]; [done|]); by apply elem_of_nil in H].
    vm_compute. intros H. repeat (apply elem_of_cons in H as [H|H]; [done|]). by apply elem_of_nil in H.
  - apply Hm. assert (matches [42; 46; 91; 99; 104; 93] [97; 46; 104] = Done true) as E by by vm_compute. congruence.
Defined.

(** Where a [?] or a class follows a star the matcher lets the star take a
    slash: [*?] and [*[b]] accept [/b], which the documented reading refuses; and
    an unterminated bracket after a star is not retried: [*[] refuses [a[], which
    that reading accepts. *)
Theorem glob_diverges :
  (matches [42; 63] [47; 98] = Done true ∧ ¬ gmatch [42; 63] [47; 98]) ∧
  (matches [42; 91; 98; 93] [47; 98] = Done true ∧ ¬ gmatch [42; 91; 98; 93] [47; 98]) ∧
  (matches [42; 91] [97; 91] = Done false ∧ gmatch [42; 91] [97; 91]).
Proof.
  assert (∀ p t p' s, next_tok p = Some (t, p') → t ≠ TStar → hits t SLASH = false → ¬ gmatch (STAR :: p) (SLASH :: s)) as Hno.
  { intros p t p' s Ht Hs Hh. rewrite (star_later (STAR :: p) p) by done. rewrite (gmatch_one _ _ _ _ _ Ht Hs), later_cons, Hh.
    intros [[? _]|[? _]]; done. }
  split; [split; [done|by eapply (Hno [63])]|]. split; [split; [done|by eapply (Hno [91; 98; 93])]|]. split; [done|].
  apply (gm_star _ [91] [97]); [done| |by apply (gm_one _ TOpen [] 91); [..|constructor]].
  by intros H%list_elem_of_singleton.
Qed.

(** ** Escapes *)

Lemma literal_tokens p : has_unescaped_meta p = false → tokens p = TChar <$> unescape p.
Proof.
  induction p as [p IH] using (induction_ltof1 _ (@length Z)). unfold ltof in IH. intros Hp.
  destruct p as [|c p]; [done|]. cbn [has_unescaped_meta unescape] in *. unfold is_meta in Hp.
  destruct (c =? BACKSLASH) eqn:Eb.
  - assert (∀ b, b ≠ BACKSLASH → c =? b = false) as Hne by lia.
    destruct p as [|x p].
    + rewrite (tokens_cons _ (TChar c) []); [cbn; f_equal; f_equal; lia|]. cbn [next_tok]. by rewrite !Hne, Eb by done.
    + rewrite (tokens_cons _ (TChar x) p); [cbn [fmap list_fmap]; f_equal; apply IH; [cbn; lia|done]|].
      cbn [next_tok]. by rewrite !Hne, Eb by done.
  - destruct ((c =? STAR) || (c =? QUERY) || (c =? OPEN)) eqn:Hm; [done|].
    apply orb_false_iff in Hm as [[H1 H2]%orb_false_iff H3].
    rewrite (tokens_cons _ (TChar c) p); [cbn [fmap list_fmap]; f_equal; apply IH; [cbn; lia|done]|].
    cbn [next_tok]. by rewrite H1, H2, H3, Eb.
Qed.
Lemma gmatch_chars p s v : tokens p = TChar <$> v → gmatch p s ↔ s = v.
Proof.
  revert p s. induction v as [|c v IH]; intros p s Hv.
  - destruct (next_tok p) as [[t p']|] eqn:Ht; [by rewrite (tokens_cons _ _ _ Ht) in Hv|].
    rewrite (next_tok_none _ Ht). split; [apply gmatch_nil|intros ->; constructor].
  - destruct (next_tok p) as [[t p']|] eqn:Ht; [|by rewrite (next_tok_none _ Ht) in Hv].
    rewrite (tokens_cons _ _ _ Ht) in Hv. injection Hv as -> Hv.
    destruct s as [|x s]; [split; [intros H; by destruct (gmatch_short _ _ _ Ht ltac:(done))|done]|].
    rewrite (gmatch_one _ _ _ _ _ Ht) by done. rewrite (IH _ _ Hv). cbn. rewrite Z.eqb_eq. split; [intros [-> ->]|intros [= -> ->]]; done.
Qed.

Lemma match_literal p s : has_unescaped_meta p = false → matches p s = Done (bool_decide (s = unescape p)).
Proof.
  intros Hp. pose proof (literal_tokens p Hp) as Ht.
  assert (regular p s) as Hreg.
  { split; rewrite Ht; [intros (c & Hc & _)%list_elem_of_fmap; done|]. right. apply Forall_fmap, Forall_true. done. }
  destruct (match_exact p s Hreg) as (b & Hb & He). rewrite (gmatch_chars p s _ Ht) in He. rewrite Hb. f_equal.
  case_bool_decide as H; [tauto|]. destruct b; tauto.
Qed.

(** A pattern whose every meta character is escaped matches exactly one input,
    its own text with the escapes removed: [\*] names a star and never globs. *)
Theorem glob_literal p s : has_unescaped_meta p = false → matches p s = Done (bool_decide (s = unescape p)).
Proof. apply match_literal. Qed.
Lemma glob_literal_witness : matches [92; 42] [42] = Done (bool_decide ([42] = unescape [92; 42])).
Proof. apply (glob_literal [92; 42] [42]). reflexivity. Defined.

(** A value entered through [escape_backslashes] keeps its text and its metas:
    removing the escapes gives it back, and it globs exactly when it has a meta
    character of its own; one without matches itself alone. *)
Theorem escape_round_trip v s : unescape (escape_backslashes v) = v ∧
  has_unescaped_meta (escape_backslashes v) = has_meta v ∧
  (has_meta v = false → matches (escape_backslashes v) s = Done (bool_decide (s = v))).
Proof.
  assert (unescape (escape_backslashes v) = v ∧ has_unescaped_meta (escape_backslashes v) = has_meta v) as [H1 H2].
  { induction v as [|c v [IH1 IH2]]; [done|]. unfold has_meta in *. cbn [escape_backslashes existsb].
    destruct (Z.eqb_spec c BACKSLASH) as [->|Hne]; cbn [app unescape has_unescaped_meta]; [by cbn; rewrite IH1, IH2|].
    rewrite (proj2 (Z.eqb_neq _ _) Hne), IH1, IH2. by destruct (is_meta c). }
  split; [done|]. split; [done|]. intros Hv. rewrite match_literal by congruence. by rewrite H1.
Qed.

(** ** Path patterns *)

Lemma take_segment_ok cur segs : Forall (λ s, s ≠ [] ∧ SLASH ∉ s) segs → SLASH ∉ cur →
  Forall (λ s, s ≠ [] ∧ SLASH ∉ s) (take_segment cur segs).
Proof. intros Hs Hc. destruct cur as [|c cur]; [done|]. cbn [take_segment]. apply Forall_app. by repeat constructor. Qed.

Lemma segments_go_ok p cur segs : Forall (λ s, s ≠ [] ∧ SLASH ∉ s) segs → SLASH ∉ cur →
  Forall (λ s, s ≠ [] ∧ SLASH ∉ s) (segments_go p cur segs).
Proof.
  revert cur segs. induction p as [p IH] using (induction_ltof1 _ (@length Z)). unfold ltof in IH. intros cur segs Hs Hc.
  destruct p as [|c p]; cbn [segments_go]; [by apply take_segment_ok|].
  assert (∀ x, x ≠ SLASH → SLASH ∉ cur ++ [x]) as Hx 
    by (intros x Hx; rewrite not_elem_of_app; split; [done|]; intros H%list_elem_of_singleton; congruence).
  destruct (Z.eqb_spec c BACKSLASH) as [->|Hb].
  - destruct p as [|n p]; [by apply take_segment_ok; [|apply Hx]|]. destruct (Z.eqb_spec n SLASH) as [->|Hn].
    + apply IH; [cbn; lia|by apply take_segment_ok|apply not_elem_of_nil].
    + apply IH; [cbn; lia|done|]. change [BACKSLASH; n] with ([BACKSLASH] ++ [n]). rewrite app_assoc, not_elem_of_app.
      split; [by apply Hx|]. intros H%list_elem_of_singleton. congruence.
  - destruct (Z.eqb_spec c SLASH) as [->|Hn]; apply IH; try done; try (cbn; lia).
    + by apply take_segment_ok.
    + apply not_elem_of_nil.
    + by apply Hx.
Qed.

(** A path pattern read for the walk is its segments, none empty and none
    holding a slash: the ones before the first live meta, their escapes removed,
    name the start; the walk begins at the segment with that meta.  No reading is
    given exactly when no segment has one.  Against a file name, which has no
    slash, a segment of the walk without an unterminated bracket is matched
    exactly. *)
Theorem path_pattern_reads p :
  match path_pattern p with
  | None => Forall (λ s, has_unescaped_meta s = false) (pattern_segments p)
  | Some pp => ∃ prefix s rest, pattern_segments p = prefix ++ walk pp ∧ walk pp = s :: rest ∧
      has_unescaped_meta s = true ∧ Forall (λ s, has_unescaped_meta s = false) prefix ∧
      start pp = (if absolute pp then [SLASH] else []) ++ join_slash (unescape <$> prefix) ∧
      ∀ s name, s ∈ pattern_segments p → s ≠ [] ∧ SLASH ∉ s ∧
        (SLASH ∉ name → TOpen ∉ tokens s → ∃ b, matches s name = Done b ∧ (b = true ↔ gmatch s name))
  end.
Proof.
  unfold path_pattern.
  destruct (position has_unescaped_meta (pattern_segments p)) as [i|] eqn:Hpos; cbn [mbind option_bind].
  2:{ by apply position_None in Hpos. }
  apply position_split in Hpos as (prefix & s & rest & Hs & <- & Hm & Hpre). cbn [walk absolute start].
  rewrite Hs, take_app_length, drop_app_length. exists prefix, s, rest. do 5 (split; [done|]). rewrite <-Hs.
  intros s0 name Hin. pose proof (segments_go_ok p [] [] (Forall_nil_2 _) (not_elem_of_nil _)) as Hall.
  rewrite Forall_forall in Hall. destruct (Hall s0 Hin) as [Hne Hsl]. split; [done|]. split; [done|].
  intros Hname Hopen. apply match_exact. split; [done|by left].
Qed.

End GlobClaims.
