(* ===== verification/Digits.v ===== *)
(** * Decimal text

    What [format!("{}", n)] of an integer writes and what its reading back gives:
    shared by the framing and the JSON codec. *)

From S2P Require Import Prelude.
Open Scope Z_scope.

Module Digits.

Definition is_ascii_digit (b : Z) : bool := (48 <=? b) && (b <=? 57).

(** [format!("{}", n)] of an unsigned number. *)
Fixpoint digits_f (fuel : nat) (n : Z) (acc : list Z) : list Z :=
  match fuel with
  | O => acc
  | S fuel => let acc := (48 + n mod 10) :: acc in if n <? 10 then acc else digits_f fuel (n / 10) acc
  end.
Definition digits (n : Z) : list Z := digits_f (S (Z.to_nat (Z.log2 n))) n [].

(** The number a run of digits names, after [n]. *)
Definition value (n : Z) (ds : list Z) : Z := fold_left (λ a b, a * 10 + (b - 48)) ds n.

Notation all_digits := (Forall (λ b, is_ascii_digit b = true)).

Lemma digit_range b : is_ascii_digit b = true ↔ 48 ≤ b ≤ 57.
Proof. unfold is_ascii_digit. rewrite andb_true_iff, !Z.leb_le. done. Qed.

Lemma digits_f_ok fuel n acc : 0 ≤ n < 10 ^ Z.of_nat fuel → (0 < fuel)%nat →
  ∃ ds, digits_f fuel n acc = ds ++ acc ∧ all_digits ds ∧ ds ≠ [] ∧ value 0 ds = n ∧ (length ds ≤ fuel)%nat ∧
    (n ≠ 0 → head ds ≠ Some 48) ∧ (n = 0 → ds = [48]).
Proof.
  revert n acc. induction fuel as [|fuel IH]; intros n acc Hn Hf; [lia|]. cbn [digits_f].
  assert (is_ascii_digit (48 + n mod 10) = true) as Hd by (apply digit_range; pose proof (Z.mod_pos_bound n 10); lia).
  destruct (Z.ltb_spec n 10) as [Hlt|Hge].
  - exists [48 + n mod 10]. rewrite Z.mod_small in * by lia. split; [done|]. split; [by repeat constructor|].
    split; [done|]. split; [cbn; lia|]. split; [cbn; lia|]. cbn. split; [|by intros ->]. intros H [= E]. lia.
  - destruct fuel as [|fuel]; [cbn in Hn; lia|].
    destruct (IH (n / 10) ((48 + n mod 10) :: acc)) as (ds & -> & Hds & Hne & Hv & Hl & Hz & _); [|lia|].
    { split; [apply Z.div_pos; lia|]. apply Z.div_lt_upper_bound; [lia|].
      rewrite (Nat2Z.inj_succ (S fuel)), Z.pow_succ_r in Hn; lia. }
    exists (ds ++ [48 + n mod 10]). split; [by rewrite <-app_assoc|]. split; [apply Forall_app; by repeat constructor|].
    split; [by destruct ds|]. split; [|split; [rewrite length_app; cbn; lia|split; [|lia]]].
    + unfold value in *. rewrite fold_left_app, Hv. cbn. pose proof (Z.div_mod n 10). lia.
    + intros _. destruct ds as [|d ds]; [done|]. cbn. apply Hz.
      pose proof (Z.div_le_lower_bound n 10 1). lia.
Qed.

(** The digits of a number: digits, at least one, no leading zero but zero's. *)
Lemma digits_ok n : 0 ≤ n → all_digits (digits n) ∧ digits n ≠ [] ∧ value 0 (digits n) = n ∧
  (length (digits n) ≤ S (Z.to_nat (Z.log2 n)))%nat ∧ (n ≠ 0 → head (digits n) ≠ Some 48) ∧ (n = 0 → digits n = [48]).
Proof.
  intros Hn. unfold digits. destruct (digits_f_ok (S (Z.to_nat (Z.log2 n))) n []) as (ds & -> & H); [|lia|by rewrite app_nil_r].
  split; [done|]. pose proof (Z.log2_nonneg n) as Hl. rewrite Nat2Z.inj_succ, Z2Nat.id by done.
  destruct (Z.eq_dec n 0) as [->|]; [cbn; lia|]. pose proof (Z.log2_spec n ltac:(lia)) as [_ H].
  eapply Z.lt_le_trans; [exact H|]. apply Z.pow_le_mono_l. lia.
Qed.

Lemma value_grows ds n : all_digits ds → 0 ≤ n → n ≤ value n ds.
Proof.
  revert n. induction ds as [|b ds IH]; intros n Hd Hn; [done|]. apply Forall_cons in Hd as [Hb%digit_range Hd].
  cbn. etransitivity; [|apply IH; [done|lia]]. lia.
Qed.

End Digits.
