(* ===== verification/Utf8.v ===== *)
(** * UTF-8 (what the codecs use of [core::str] and [char])

    Which byte strings [core::str::from_utf8] accepts, [char::from_u32], and the
    bytes of a character. *)

From S2P Require Import Prelude.
Open Scope Z_scope.

Module Utf8.

Definition cont (b : Z) : bool := (128 <=? b) && (b <=? 191).
Definition within (lo hi b : Z) : bool := (lo <=? b) && (b <=? hi).

(** [core::str::from_utf8] succeeds: the well-formed sequences of the standard. *)
Fixpoint valid_utf8 (s : list Z) : bool :=
  match s with
  | [] => true
  | a :: s1 =>
      if within 0 127 a then valid_utf8 s1 else
      match s1 with
      | [] => false
      | b :: s2 =>
          if within 194 223 a then cont b && valid_utf8 s2 else
          match s2 with
          | [] => false
          | c :: s3 =>
              if a =? 224 then within 160 191 b && cont c && valid_utf8 s3
              else if a =? 237 then within 128 159 b && cont c && valid_utf8 s3
              else if within 225 239 a then cont b && cont c && valid_utf8 s3 else
              match s3 with
              | [] => false
              | d :: s4 =>
                  if a =? 240 then within 144 191 b && cont c && cont d && valid_utf8 s4
                  else if within 241 243 a then cont b && cont c && cont d && valid_utf8 s4
                  else if a =? 244 then within 128 143 b && cont c && cont d && valid_utf8 s4
                  else false
              end
          end
      end
  end.

(** [char::from_u32], and [String::push] of a [char]. *)
Definition from_u32 (c : Z) : option Z :=
  if within 0 55295 c || within 57344 1114111 c then Some c else None.
Definition utf8_encode (c : Z) : list Z :=
  if c <? 128 then [c]
  else if c <? 2048 then [192 + c / 64; 128 + c mod 64]
  else if c <? 65536 then [224 + c / 4096; 128 + c / 64 mod 64; 128 + c mod 64]
  else [240 + c / 262144; 128 + c / 4096 mod 64; 128 + c / 64 mod 64; 128 + c mod 64].

Lemma valid_app s t : valid_utf8 s = true → valid_utf8 (s ++ t) = valid_utf8 t.
Proof.
  remember (length s) as n eqn:Hn. revert s Hn. induction n as [n IH] using lt_wf_ind. intros s -> .
  destruct s as [|a s1]; [done|]. cbn [valid_utf8 app].
  destruct (within 0 127 a); [intros Hs; apply (IH (length s1)); [cbn; lia|done..]|].
  destruct s1 as [|b s2]; [done|]. cbn [app].
  destruct (within 194 223 a); [rewrite andb_true_iff; intros [-> Hs]; apply (IH (length s2)); [cbn; lia|done..]|].
  destruct s2 as [|c s3]; [done|]. cbn [app].
  assert (∀ x, x && valid_utf8 s3 = true → x && valid_utf8 (s3 ++ t) = valid_utf8 t) as H3.
  { intros x [-> Hs]%andb_true_iff. apply (IH (length s3)); [cbn; lia|done..]. }
  destruct (a =? 224); [apply H3|]. destruct (a =? 237); [apply H3|]. destruct (within 225 239 a); [apply H3|].
  destruct s3 as [|d s4]; [done|]. cbn [app].
  assert (∀ x, x && valid_utf8 s4 = true → x && valid_utf8 (s4 ++ t) = valid_utf8 t) as H4.
  { intros x [-> Hs]%andb_true_iff. apply (IH (length s4)); [cbn; lia|done..]. }
  destruct (a =? 240); [apply H4|]. destruct (within 241 243 a); [apply H4|]. destruct (a =? 244); [apply H4|done].
Qed.

Lemma within_iff lo hi x : within lo hi x = true ↔ lo ≤ x ≤ hi.
Proof. unfold within. rewrite andb_true_iff, !Z.leb_le. done. Qed.
Lemma within_not lo hi x : (x < lo ∨ hi < x) → within lo hi x = false.
Proof. intros H. unfold within. destruct (Z.leb_spec lo x), (Z.leb_spec x hi); cbn; lia. Qed.
Lemma cont_iff x : cont x = true ↔ 128 ≤ x ≤ 191.
Proof. apply within_iff. Qed.

(** The bytes of a scalar value are well-formed UTF-8. *)
Lemma encode_valid c ch : from_u32 c = Some ch → valid_utf8 (utf8_encode ch) = true.
Proof.
  unfold from_u32. destruct (within 0 55295 c || within 57344 1114111 c) eqn:E; [|done]. intros [= <-].
  assert (0 ≤ c ≤ 55295 ∨ 57344 ≤ c ≤ 1114111) as Hc by (rewrite orb_true_iff, !within_iff in E; done). clear E.
  assert (∀ x, cont (128 + x mod 64) = true) as Hcont
    by (intros x; apply cont_iff; pose proof (Z.mod_pos_bound x 64); lia).
  unfold utf8_encode.
  destruct (Z.ltb_spec c 128); [cbn [valid_utf8]; rewrite (proj2 (within_iff _ _ _)) by lia; done|].
  assert (c = 64 * (c / 64) + c mod 64 ∧ 0 ≤ c mod 64 < 64) as [E1 B1] by
    (split; [apply Z.div_mod; lia|apply Z.mod_pos_bound; lia]).
  destruct (Z.ltb_spec c 2048).
  { cbn [valid_utf8]. rewrite (within_not 0 127) by lia. rewrite (proj2 (within_iff 194 223 _)) by lia.
    by rewrite Hcont. }
  assert (c = 4096 * (c / 4096) + 64 * (c / 64 mod 64) + c mod 64 ∧ 0 ≤ c / 64 mod 64 < 64) as [E2 B2].
  { pose proof (Z.div_mod (c / 64) 64 ltac:(lia)) as E. rewrite Z.div_div in E by lia.
    change (64 * 64) with 4096 in E. pose proof (Z.mod_pos_bound (c / 64) 64). lia. }
  destruct (Z.ltb_spec c 65536).
  - cbn [valid_utf8]. rewrite (within_not 0 127), (within_not 194 223) by lia. rewrite !Hcont.
    destruct (Z.eqb_spec (224 + c / 4096) 224); [rewrite (proj2 (within_iff 160 191 _)) by lia; done|].
    destruct (Z.eqb_spec (224 + c / 4096) 237); [rewrite (proj2 (within_iff 128 159 _)) by lia; done|].
    rewrite (proj2 (within_iff 225 239 _)) by lia. done.
  - assert (c = 262144 * (c / 262144) + 4096 * (c / 4096 mod 64) + 64 * (c / 64 mod 64) + c mod 64
      ∧ 0 ≤ c / 4096 mod 64 < 64) as [E3 B3].
    { pose proof (Z.div_mod (c / 4096) 64 ltac:(lia)) as E. rewrite Z.div_div in E by lia.
      change (4096 * 64) with 262144 in E. pose proof (Z.mod_pos_bound (c / 4096) 64). lia. }
    cbn [valid_utf8]. rewrite (within_not 0 127), (within_not 194 223), (within_not 225 239) by lia. rewrite !Hcont.
    rewrite (proj2 (Z.eqb_neq (240 + c / 262144) 224)), (proj2 (Z.eqb_neq (240 + c / 262144) 237)) by lia.
    destruct (Z.eqb_spec (240 + c / 262144) 240); [rewrite (proj2 (within_iff 144 191 _)) by lia; done|].
    destruct (within 241 243 (240 + c / 262144)) eqn:E; [done|].
    assert (240 + c / 262144 = 244) as E4.
    { destruct (Z.eq_dec (240 + c / 262144) 244); [done|].
      assert (within 241 243 (240 + c / 262144) = true) by (apply within_iff; lia). congruence. }
    rewrite E4. cbn [Z.eqb Pos.eqb]. rewrite (proj2 (within_iff 128 143 _)) by lia. done.
Qed.

(** ASCII text is UTF-8. *)
Lemma ascii_valid s : Forall (λ c, 0 ≤ c ≤ 127) s → valid_utf8 s = true.
Proof. induction 1 as [|c s Hc _ IH]; [done|]. cbn [valid_utf8]. by rewrite (proj2 (within_iff 0 127 c)). Qed.

End Utf8.
