(* ===== verification/Json.v ===== *)
(** * JSON values (usr/lib/parley/src/json.rs)

    The value model, the recursive-descent parser with its nesting cap and the
    compact serializer of the LSP and DAP codec.  A [String] is the list of its
    UTF-8 bytes; a position is an offset of the input slice; a slice or an index
    out of range is a panic.  The numbers of [core]'s [f64] are an interface. *)

From S2P Require Import Prelude Digits Utf8.
From stdpp Require Import strings.
Import Digits Utf8.
Open Scope Z_scope.

Module Json.

(** The operations of [f64] the codec calls: [str::parse], [Display], [is_finite],
    the casts from and to [i64], and [==]. *)
Class Float64 := {
  f64 : Type;
  f64_parse : list Z → option f64;
  f64_show : f64 → list Z;
  is_finite : f64 → bool;
  f64_to_i64 : f64 → Z;
  f64_of_i64 : Z → f64;
  f64_eqb : f64 → f64 → bool
}.

Definition MAX_DEPTH : Z := 128.

(** The bytes of a byte-string literal. *)
Definition lit (s : string) : list Z := (λ a, Z.of_N (Ascii.N_of_ascii a)) <$> String.list_ascii_of_string s.

(** ** [core]'s integer reader *)

Definition i64_range (n : Z) : bool := (- 2 ^ 63 <=? n) && (n <? 2 ^ 63).
(** [str::parse::<i64>]: a sign and digits whose number is in range. *)
Definition read_i64 (neg : bool) (ds : list Z) : option Z :=
  if bool_decide (ds = []) || negb (forallb is_ascii_digit ds) then None else
  let n := if neg then - value 0 ds else value 0 ds in
  if i64_range n then Some n else None.
Definition parse_i64 (s : list Z) : option Z :=
  match s with
  | c :: ds => if c =? 45 then read_i64 true ds else if c =? 43 then read_i64 false ds else read_i64 false s
  | [] => None
  end.

(** Length in bytes of the UTF-8 sequence whose lead byte is [b]. *)
Definition utf8_len (b : Z) : nat :=
  if b <? 128 then 1
  else if Z.shiftr b 5 =? 6 then 2
  else if Z.shiftr b 4 =? 14 then 3
  else if Z.shiftr b 3 =? 30 then 4
  else 1.

Section Codec.
Context `{Float64}.

Inductive Value :=
  | Null
  | Bool (x : bool)
  | Int (n : Z)
  | Float (x : f64)
  | Str (s : list Z)
  | Array (a : list Value)
  | Object (o : list (list Z * Value)).

(** ** Accessors and conversions *)

Definition get (v : Value) (key : list Z) : option Value :=
  match v with
  | Object kvs => snd <$> List.find (λ kv, bool_decide (kv.1 = key)) kvs
  | _ => None
  end.
Definition as_str (v : Value) : option (list Z) := match v with Str s => Some s | _ => None end.
Definition as_i64 (v : Value) : option Z :=
  match v with
  | Int n => Some n
  | Float x => let n := f64_to_i64 x in if f64_eqb (f64_of_i64 n) x then Some n else None
  | _ => None
  end.
Definition as_f64 (v : Value) : option f64 :=
  match v with Int n => Some (f64_of_i64 n) | Float x => Some x | _ => None end.
Definition as_bool (v : Value) : option bool := match v with Bool x => Some x | _ => None end.
Definition as_array (v : Value) : option (list Value) := match v with Array a => Some a | _ => None end.
Definition as_object (v : Value) : option (list (list Z * Value)) := match v with Object o => Some o | _ => None end.
Definition is_null (v : Value) : bool := match v with Null => true | _ => false end.

(** ** The parser *)

Record Error := mkError { pos : nat; msg : string }.
Record Parser := mkParser { b : list Z; i : nat; depth : Z }.

(** A fallible step of the parser: an error abandons it. *)
Notation "'step' A" := (outcome (result Error (A * Parser))) (at level 10).
Definition err {A} (p : Parser) (m : string) : step A := Done (Err (mkError (i p) m)).
Definition ok {A} (a : A) (p : Parser) : step A := Done (Ok (a, p)).

(** [self.i += n]: it never passes the slice's length. *)
Definition adv (n : nat) (p : Parser) : Parser := mkParser (b p) (i p + n) (depth p).
Definition rest (p : Parser) : list Z := drop (i p) (b p).
Definition peek (p : Parser) : option Z := b p !! i p.
Definition peek_is (c : Z) (p : Parser) : bool := bool_decide (peek p = Some c).

(** [while matches!(self.peek(), Some(c) if f(c)) { self.i += 1 }]. *)
Fixpoint run (f : Z → bool) (l : list Z) : nat :=
  match l with c :: l => if f c then S (run f l) else 0 | [] => 0 end.
Definition skip_while (f : Z → bool) (p : Parser) : Parser := adv (run f (rest p)) p.

Definition is_ws (c : Z) : bool := (c =? 32) || (c =? 9) || (c =? 10) || (c =? 13).
Definition skip_ws : Parser → Parser := skip_while is_ws.

Definition expect_lit (l : list Z) (v : Value) (p : Parser) : step Value :=
  s ← slice (b p) (Z.of_nat (i p)) (zlen (b p));
  if bool_decide (take (length l) s = l) then ok v (adv (length l) p) else err p "invalid literal".
Definition parse_null : Parser → step Value := expect_lit (lit "null") Null.
Definition parse_bool (p : Parser) : step Value :=
  if peek_is 116 p then expect_lit (lit "true") (Bool true) p else expect_lit (lit "false") (Bool false) p.

Definition peek_digit (p : Parser) : bool := match peek p with Some c => is_ascii_digit c | None => false end.

(** The integer part, the fraction and the exponent of a number. *)
Definition int_part (p : Parser) : step unit :=
  match peek p with
  | Some c =>
      if c =? 48 then ok tt (adv 1 p)
      else if is_ascii_digit c then ok tt (skip_while is_ascii_digit p)
      else err p "invalid number"
  | None => err p "invalid number"
  end.
Definition fraction (p : Parser) : step bool :=
  if peek_is 46 p then
    let p := adv 1 p in
    if peek_digit p then ok true (skip_while is_ascii_digit p)
    else err p "digit expected after decimal point"
  else ok false p.
Definition exponent (p : Parser) : step bool :=
  if peek_is 101 p || peek_is 69 p then
    let p := adv 1 p in
    let p := if peek_is 43 p || peek_is 45 p then adv 1 p else p in
    if peek_digit p then ok true (skip_while is_ascii_digit p)
    else err p "digit expected in exponent"
  else ok false p.

Definition read_f64 (s : list Z) (p : Parser) : step Value :=
  match f64_parse s with Some x => ok (Float x) p | None => err p "number out of range" end.
Definition parse_number (p : Parser) : step Value :=
  let start := i p in
  let p := if peek_is 45 p then adv 1 p else p in
  '(_, p) ←? int_part p;
  '(frac, p) ←? fraction p;
  '(expo, p) ←? exponent p;
  s ← slice (b p) (Z.of_nat start) (Z.of_nat (i p));
  if negb (valid_utf8 s) then err p "bad number"
  else if frac || expo then read_f64 s p
  else match parse_i64 s with Some n => ok (Int n) p | None => read_f64 s p end.

(** ** Strings *)

Definition hex_value (d : Z) : option Z :=
  if within 48 57 d then Some (d - 48)
  else if within 97 102 d then Some (d - 97 + 10)
  else if within 65 70 d then Some (d - 65 + 10)
  else None.
Fixpoint hex_loop (n : nat) (v : Z) (p : Parser) : step Z :=
  match n with
  | O => ok v p
  | S n =>
      d ← idx (b p) (Z.of_nat (i p));
      match hex_value d with
      | Some x => hex_loop n (Z.lor (ushl 32 v 4) x) (adv 1 p)
      | None => err p "invalid hex digit in \u escape"
      end
  end.
Definition parse_hex4 (p : Parser) : step Z :=
  if (length (b p) <? i p + 4)%nat then err p "truncated \u escape" else hex_loop 4 0 p.

Definition push_char (c : Z) (m : string) (p : Parser) : step (list Z) :=
  match from_u32 c with Some ch => ok (utf8_encode ch) p | None => err p m end.

(** The [\u] escape: a code point, or a pair of surrogates. *)
Definition unicode_escape (p : Parser) : step (list Z) :=
  '(cp, p) ←? parse_hex4 p;
  if within 55296 56319 cp then
    if negb (peek_is 92 p) then err p "lone high surrogate" else
    let p := adv 1 p in
    if negb (peek_is 117 p) then err p "lone high surrogate" else
    '(lo, p) ←? parse_hex4 (adv 1 p);
    if negb (within 56320 57343 lo) then err p "invalid low surrogate" else
    push_char (65536 + Z.shiftl (cp - 55296) 10 + (lo - 56320)) "invalid surrogate pair" p
  else if within 56320 57343 cp then err p "lone low surrogate"
  else push_char cp "invalid unicode escape" p.

(** What the escape letter [e] pushes; the cursor is past it. *)
Definition escape (e : Z) (p : Parser) : step (list Z) :=
  if e =? 34 then ok [34] p
  else if e =? 92 then ok [92] p
  else if e =? 47 then ok [47] p
  else if e =? 98 then ok [8] p
  else if e =? 102 then ok [12] p
  else if e =? 110 then ok [10] p
  else if e =? 114 then ok [13] p
  else if e =? 116 then ok [9] p
  else if e =? 117 then unicode_escape p
  else err p "invalid escape".

(** One character that is neither a quote, an escape nor a control character. *)
Definition raw_char (c : Z) (p : Parser) : step (list Z) :=
  let end_ := (i p + utf8_len c)%nat in
  if (length (b p) <? end_)%nat then err p "truncated utf-8" else
  s ← slice (b p) (Z.of_nat (i p)) (Z.of_nat end_);
  if valid_utf8 s then ok s (adv (utf8_len c) p) else err p "invalid utf-8".

Fixpoint string_loop (fuel : nat) (out : list Z) (p : Parser) : step (list Z) :=
  match fuel with
  | O => OutOfFuel
  | S fuel =>
      match peek p with
      | None => err p "unterminated string"
      | Some c =>
          if c =? 34 then ok out (adv 1 p)
          else if c =? 92 then
            let p := adv 1 p in
            match peek p with
            | None => err p "unterminated escape"
            | Some e => '(s, p) ←? escape e (adv 1 p); string_loop fuel (out ++ s) p
            end
          else if c <=? 31 then err p "unescaped control character"
          else '(s, p) ←? raw_char c p; string_loop fuel (out ++ s) p
      end
  end.
(** Each turn takes a byte, so the bytes left bound the turns. *)
Definition parse_string (p : Parser) : step (list Z) :=
  string_loop (S (length (b p))) [] (adv 1 p).

(** ** Arrays and objects *)

Definition enter (p : Parser) : step unit :=
  d ← uadd 64 (depth p) 1;
  let p := mkParser (b p) (i p) d in
  if MAX_DEPTH <? d then err p "maximum nesting depth exceeded" else ok tt p.
(** [self.i += 1; self.depth -= 1; return Ok(v)] *)
Definition close (v : Value) (p : Parser) : step Value :=
  d ← usub (depth p) 1;
  ok v (mkParser (b p) (i p + 1) d).

Section Nested.
Context (parse_value : Parser → step Value).

Fixpoint array_loop (fuel : nat) (arr : list Value) (p : Parser) : step Value :=
  match fuel with
  | O => OutOfFuel
  | S fuel =>
      '(v, p) ←? parse_value (skip_ws p);
      let arr := arr ++ [v] in
      let p := skip_ws p in
      if peek_is 44 p then array_loop fuel arr (adv 1 p)
      else if peek_is 93 p then close (Array arr) p
      else err p "expected ',' or ']' in array"
  end.
Definition parse_array (p : Parser) : step Value :=
  '(_, p) ←? enter p;
  let p := skip_ws (adv 1 p) in
  if peek_is 93 p then close (Array []) p else array_loop (S (length (b p))) [] p.

Fixpoint object_loop (fuel : nat) (obj : list (list Z * Value)) (p : Parser) : step Value :=
  match fuel with
  | O => OutOfFuel
  | S fuel =>
      let p := skip_ws p in
      if negb (peek_is 34 p) then err p "expected string key in object" else
      '(key, p) ←? parse_string p;
      let p := skip_ws p in
      if negb (peek_is 58 p) then err p "expected ':' after key" else
      '(v, p) ←? parse_value (skip_ws (adv 1 p));
      let obj := obj ++ [(key, v)] in
      let p := skip_ws p in
      if peek_is 44 p then object_loop fuel obj (adv 1 p)
      else if peek_is 125 p then close (Object obj) p
      else err p "expected ',' or '}' in object"
  end.
Definition parse_object (p : Parser) : step Value :=
  '(_, p) ←? enter p;
  let p := skip_ws (adv 1 p) in
  if peek_is 125 p then close (Object []) p else object_loop (S (length (b p))) [] p.
End Nested.

(** The fuel is the nesting the parser may still enter. *)
Fixpoint parse_value (fuel : nat) (p : Parser) : step Value :=
  match fuel with
  | O => OutOfFuel
  | S fuel =>
      match peek p with
      | None => err p "unexpected end of input"
      | Some c =>
          if c =? 123 then parse_object (parse_value fuel) p
          else if c =? 91 then parse_array (parse_value fuel) p
          else if c =? 34 then '(s, p) ←? parse_string p; ok (Str s) p
          else if (c =? 116) || (c =? 102) then parse_bool p
          else if c =? 110 then parse_null p
          else if (c =? 45) || is_ascii_digit c then parse_number p
          else err p "unexpected character"
      end
  end.

Definition parse (input : list Z) : outcome (result Error Value) :=
  let p := skip_ws (mkParser input 0 0) in
  '(v, p) ←? parse_value (S (Z.to_nat MAX_DEPTH)) p;
  let p := skip_ws p in
  if (i p =? length (b p))%nat then Done (Ok v)
  else Done (Err (mkError (i p) "trailing bytes after value")).

(** ** Serialization *)

Definition hex_digit (n : Z) : Z := if n <? 10 then 48 + n else 87 + n.
(** [{:04x}] of a number below [2 ^ 16]. *)
Definition hex4 (n : Z) : list Z :=
  [hex_digit (n / 4096 mod 16); hex_digit (n / 256 mod 16); hex_digit (n / 16 mod 16); hex_digit (n mod 16)].

(** A character of one byte; the bytes of a longer one are written as they are. *)
Definition write_byte (c : Z) : list Z :=
  if c =? 34 then [92; 34]
  else if c =? 92 then [92; 92]
  else if c =? 10 then [92; 110]
  else if c =? 13 then [92; 114]
  else if c =? 9 then [92; 116]
  else if c =? 8 then [92; 98]
  else if c =? 12 then [92; 102]
  else if c <? 32 then 92 :: 117 :: hex4 c
  else [c].
Definition write_json_string (s : list Z) : list Z := [34] ++ (s ≫= write_byte) ++ [34].

(** [write!(f, "{}", i)] of an [i64]. *)
Definition show_int (n : Z) : list Z := if n <? 0 then 45 :: digits (- n) else digits n.

(** The items of a loop that writes a comma before each but the first. *)
Definition commas (ss : list (list Z)) : list Z :=
  match ss with [] => [] | s :: ss => s ++ (ss ≫= λ s, 44 :: s) end.

Fixpoint show (v : Value) : list Z :=
  match v with
  | Null => lit "null"
  | Bool true => lit "true"
  | Bool false => lit "false"
  | Int n => show_int n
  | Float x => if is_finite x then f64_show x else lit "null"
  | Str s => write_json_string s
  | Array a => [91] ++ commas (show <$> a) ++ [93]
  | Object o => [123] ++ commas ((λ kv, write_json_string kv.1 ++ [58] ++ show kv.2) <$> o) ++ [125]
  end.

(** [Display for Error]. *)
Definition show_error (e : Error) : list Z :=
  lit "json parse error at byte " ++ digits (Z.of_nat (pos e)) ++ lit ": " ++ lit (msg e).

End Codec.
End Json.
