(* ===== verification/JsonProofs.v ===== *)
(** * Properties of the JSON codec

    The parser returns on every input, with a well-formed value nested no deeper
    than its cap or with an error inside the input. *)

From stdpp Require Import strings.
From S2P Require Import Prelude Digits Utf8 Json.
Import Digits Utf8 Json.
Open Scope Z_scope.

Module JsonProofs.

(** ** Well-formed values *)

Section Wf.
Context `{Float64}.

(** What the Rust types promise: an [i64] in range, a [String] that is UTF-8. *)
Fixpoint well_formed (v : Value) : bool :=
  match v with
  | Null | Bool _ | Float _ => true
  | Int n => i64_range n
  | Str s => valid_utf8 s
  | Array a => forallb well_formed a
  | Object o => forallb (λ kv, valid_utf8 kv.1 && well_formed kv.2) o
  end.

(** How deep arrays and objects nest. *)
Fixpoint height (v : Value) : nat :=
  match v with
  | Array a => S (foldr (λ v h, Nat.max (height v) h) 0%nat a)
  | Object o => S (foldr (λ kv h, Nat.max (height kv.2) h) 0%nat o)
  | _ => 0%nat
  end.

Definition Value_nested_ind (P : Value → Prop) (Pnull : P Null) (Pbool : ∀ x, P (Bool x)) (Pint : ∀ n, P (Int n))
    (Pfloat : ∀ x, P (Float x)) (Pstr : ∀ s, P (Str s)) (Parr : ∀ a, Forall P a → P (Array a))
    (Pobj : ∀ o, Forall (λ kv : list Z * Value, P kv.2) o → P (Object o)) : ∀ v, P v :=
  fix go v := match v with
  | Null => Pnull
  | Bool x => Pbool x
  | Int n => Pint n
  | Float x => Pfloat x
  | Str s => Pstr s
  | Array a => Parr a ((fix all l : Forall P l :=
      match l with [] => Forall_nil_2 _ | v :: l => Forall_cons_2 _ _ _ (go v) (all l) end) a)
  | Object o => Pobj o ((fix all l : Forall (λ kv, P kv.2) l :=
      match l with [] => Forall_nil_2 _ | kv :: l => Forall_cons_2 _ _ _ (go kv.2) (all l) end) o)
  end.
End Wf.

(** ** The parser's steps

    [yields m P p r]: the step [r] taken at [p] returned, with a value of [P] at
    least [m] bytes further on and nothing else of the parser changed, or with an
    error inside the input. *)

Section Total.
Context `{Float64}.

Definition yields {A} (m : nat) (P : A → Prop) (p : Parser) (r : outcome (result Error (A * Parser))) : Prop :=
  match r with
  | Done (Ok (a, q)) => P a ∧ ∃ n, (m ≤ n)%nat ∧ q = adv n p ∧ (i p + n ≤ length (b p))%nat
  | Done (Err e) => (pos e ≤ length (b p))%nat
  | _ => False
  end.

Lemma adv_adv m n p : adv m (adv n p) = adv (n + m) p.
Proof. unfold adv. cbn. f_equal. lia. Qed.
Lemma adv_0 p : adv 0 p = p.
Proof. destruct p. unfold adv. cbn. f_equal. lia. Qed.

Lemma yields_weaken {A} m m' (P Q : A → Prop) p r : (m' ≤ m)%nat → (∀ a, P a → Q a) → yields m P p r → yields m' Q p r.
Proof.
  intros Hm HPQ. destruct r as [[[a q]|e]| |]; cbn; try done. intros (Ha & n & Hn & -> & Hl).
  split; [auto|]. exists n. split; [lia|done].
Qed.
Lemma yields_adv {A} n m (P : A → Prop) p r : yields m P (adv n p) r → yields (n + m) P p r.
Proof.
  destruct r as [[[a q]|e]| |]; cbn; try done. intros (Ha & k & Hk & -> & Hl). split; [done|].
  exists (n + k)%nat. rewrite adv_adv. cbn in Hl. split; [lia|]. split; [done|lia].
Qed.
Lemma yields_skip {A} n m (P : A → Prop) p r : yields m P (adv n p) r → yields m P p r.
Proof. intros Hy. eapply yields_weaken, yields_adv; [|done|exact Hy]. lia. Qed.
Lemma yields_bind {A B} m m' (P : A → Prop) (Q : B → Prop) p r k : yields m P p r →
  (∀ a n, P a → (m ≤ n)%nat → (i p + n ≤ length (b p))%nat → yields m' Q (adv n p) (k (a, adv n p))) →
  yields (m + m') Q p (try_bind r k).
Proof.
  destruct r as [[[a q]|e]| |]; cbn [yields try_bind]; try done. intros (Ha & n & Hn & -> & Hl) Hk.
  eapply yields_weaken, yields_adv, Hk; [lia|done..].
Qed.
Lemma yields_err {A} m (P : A → Prop) p q s : b q = b p → (i q ≤ length (b p))%nat → yields m P p (err q s).
Proof. done. Qed.
Lemma yields_ok {A} m (P : A → Prop) a p : P a → (i p + m ≤ length (b p))%nat → yields m P p (ok a (adv m p)).
Proof. intros Ha Hl. split; [done|]. by exists m. Qed.
Lemma yields_ok_le {A} m n (P : A → Prop) a p : P a → (m ≤ n)%nat → (i p + n ≤ length (b p))%nat →
  yields m P p (ok a (adv n p)).
Proof. intros Ha Hm Hl. split; [done|]. by exists n. Qed.
Lemma yields_here {A} (P : A → Prop) a p : P a → (i p ≤ length (b p))%nat → yields 0 P p (ok a p).
Proof. intros Ha Hl. split; [done|]. exists 0%nat. rewrite adv_0. split; [lia|]. split; [done|lia]. Qed.

Lemma peek_lt p c : peek p = Some c → (i p < length (b p))%nat.
Proof. apply lookup_lt_Some. Qed.
Lemma peek_is_spec c p : reflect (peek p = Some c) (peek_is c p).
Proof. unfold peek_is. apply bool_decide_reflect. Qed.
Lemma run_le f l : (run f l ≤ length l)%nat.
Proof. induction l as [|c l IH]; cbn; [done|]. destruct (f c); lia. Qed.
Lemma skip_while_adv f p : (i p ≤ length (b p))%nat → ∃ n, skip_while f p = adv n p ∧ (i p + n ≤ length (b p))%nat.
Proof.
  intros Hl. exists (run f (rest p)). split; [done|]. pose proof (run_le f (rest p)) as Hr.
  unfold rest in Hr at 2. rewrite length_drop in Hr. lia.
Qed.
Lemma skip_ws_adv p : (i p ≤ length (b p))%nat → ∃ n, skip_ws p = adv n p ∧ (i p + n ≤ length (b p))%nat.
Proof. apply skip_while_adv. Qed.
Lemma skip_digits_pos p : peek_digit p = true →
  ∃ n, skip_while is_ascii_digit p = adv n p ∧ (1 ≤ n)%nat ∧ (i p + n ≤ length (b p))%nat.
Proof.
  unfold peek_digit. destruct (peek p) as [c|] eqn:Hp; [|done]. intros Hc. pose proof (peek_lt _ _ Hp) as Hl.
  destruct (skip_while_adv is_ascii_digit p) as (n & E & Hn); [lia|]. exists n. split; [done|]. split; [|done].
  unfold skip_while, rest in E. rewrite (drop_S _ _ _ Hp) in E. cbn [run] in E. rewrite Hc in E.
  apply (f_equal i) in E. cbn in E. lia.
Qed.

(** A slice of what is left. *)
Lemma slice_rest p n : (i p + n ≤ length (b p))%nat →
  slice (b p) (Z.of_nat (i p)) (Z.of_nat (i p + n)) = Done (take n (rest p)).
Proof.
  intros Hl. unfold slice. rewrite !(proj2 (Z.leb_le _ _)) by lia. cbn [andb]. rewrite Nat2Z.id.
  by replace (Z.to_nat _) with n by lia.
Qed.
Lemma slice_tail p : (i p ≤ length (b p))%nat → slice (b p) (Z.of_nat (i p)) (zlen (b p)) = Done (rest p).
Proof.
  intros Hl. replace (zlen (b p)) with (Z.of_nat (i p + (length (b p) - i p))) by lia. rewrite slice_rest by lia.
  f_equal. apply take_ge. unfold rest. rewrite length_drop. lia.
Qed.

Lemma expect_lit_yields l v p (P : Value → Prop) : l ≠ [] → P v → (i p ≤ length (b p))%nat → yields 1 P p (expect_lit l v p).
Proof.
  intros Hne Hv Hl. unfold expect_lit. rewrite slice_tail by done. obind. case_bool_decide as E; [|by apply yields_err].
  assert (length l ≤ length (rest p))%nat as Hlen by (apply (f_equal length) in E; rewrite length_take in E; lia).
  unfold rest in Hlen. rewrite length_drop in Hlen. destruct l; [done|].
  apply yields_ok_le; [done|cbn in *; lia..].
Qed.

(** ** Numbers *)

Lemma int_part_yields p : (i p ≤ length (b p))%nat → yields 1 (λ _, True) p (int_part p).
Proof.
  intros Hl. unfold int_part. destruct (peek p) as [c|] eqn:Hp; [|by apply yields_err]. pose proof (peek_lt _ _ Hp).
  destruct (c =? 48); [apply yields_ok; [done|lia]|]. destruct (is_ascii_digit c) eqn:Hc; [|by apply yields_err].
  destruct (skip_digits_pos p) as (n & -> & Hn & Hb); [unfold peek_digit; by rewrite Hp|].
  by apply yields_ok_le.
Qed.
Lemma digits_yields p s : (i p ≤ length (b p))%nat →
  yields 0 (λ _, True) p (if peek_digit p then ok true (skip_while is_ascii_digit p) else err p s).
Proof.
  intros Hl. destruct (peek_digit p) eqn:Hd; [|by apply yields_err].
  destruct (skip_digits_pos p Hd) as (n & -> & Hn & Hb). apply yields_ok_le; [done|lia..].
Qed.
Lemma fraction_yields p : (i p ≤ length (b p))%nat → yields 0 (λ _, True) p (fraction p).
Proof.
  intros Hl. unfold fraction. destruct (peek_is_spec 46 p) as [Hp|]; [|by apply yields_here].
  apply peek_lt in Hp. apply (yields_skip 1), digits_yields. cbn. lia.
Qed.
Lemma exponent_yields p : (i p ≤ length (b p))%nat → yields 0 (λ _, True) p (exponent p).
Proof.
  intros Hl. unfold exponent. destruct (peek_is 101 p || peek_is 69 p) eqn:E; [|by apply yields_here].
  assert (i p < length (b p))%nat as Hp.
  { apply orb_true_iff in E as [E|E]; [destruct (peek_is_spec 101 p) as [Hp|]|destruct (peek_is_spec 69 p) as [Hp|]];
      try done; by eapply peek_lt. }
  apply (yields_skip 1). destruct (peek_is 43 (adv 1 p) || peek_is 45 (adv 1 p)) eqn:Es; [|apply digits_yields; cbn; lia].
  assert (i (adv 1 p) < length (b (adv 1 p)))%nat as Hp1.
  { apply orb_true_iff in Es as [Es|Es];
      [destruct (peek_is_spec 43 (adv 1 p)) as [Hq|]|destruct (peek_is_spec 45 (adv 1 p)) as [Hq|]];
      try done; by eapply peek_lt. }
  apply (yields_skip 1), digits_yields. cbn in *. lia.
Qed.

Lemma parse_i64_range s n : parse_i64 s = Some n → i64_range n = true.
Proof.
  assert (∀ neg ds, read_i64 neg ds = Some n → i64_range n = true) as Hr.
  { intros neg ds. unfold read_i64. destruct (_ || _); [done|].
    destruct (i64_range _) eqn:E; [|done]. by intros [= <-]. }
  destruct s as [|c ds]; [done|]. cbn [parse_i64]. destruct (c =? 45); [apply Hr|]. destruct (c =? 43); apply Hr.
Qed.

Definition flat (v : Value) : Prop := well_formed v = true ∧ height v = 0%nat.
Lemma read_f64_yields s p : (i p ≤ length (b p))%nat → yields 0 flat p (read_f64 s p).
Proof. intros Hl. unfold read_f64. destruct (f64_parse s); [by apply yields_here|by apply yields_err]. Qed.
Lemma number_tail start p (f : bool) : (start ≤ i p ≤ length (b p))%nat →
  yields 0 flat p (s ← slice (b p) (Z.of_nat start) (Z.of_nat (i p));
    if negb (valid_utf8 s) then err p "bad number" else if f then read_f64 s p
    else match parse_i64 s with Some n => ok (Int n) p | None => read_f64 s p end).
Proof.
  intros Hl. unfold slice. rewrite !(proj2 (Z.leb_le _ _)) by lia. cbn [andb]. obind.
  set (s := take _ _). destruct (negb _); [apply yields_err; [done|lia]|]. destruct f; [apply read_f64_yields; lia|].
  destruct (parse_i64 s) as [n|] eqn:E; [|apply read_f64_yields; lia]. apply yields_here; [|lia].
  split; [exact (parse_i64_range s n E)|done].
Qed.
Lemma parse_number_yields p : (i p ≤ length (b p))%nat → yields 1 flat p (parse_number p).
Proof.
  intros Hl. unfold parse_number.
  assert (∃ n, (if peek_is 45 p then adv 1 p else p) = adv n p ∧ (i p + n ≤ length (b p))%nat) as (n & -> & Hn).
  { destruct (peek_is_spec 45 p) as [Hp%peek_lt|]; [by exists 1%nat; split; [|lia]|].
    exists 0%nat. rewrite adv_0. split; [done|lia]. }
  apply (yields_skip n).
  apply (yields_bind 1 0 (λ _, True)); [apply int_part_yields; done|]. intros _ n1 _ Hn1 Hb1. cbn in Hb1. cbn beta iota.
  apply (yields_bind 0 0 (λ _, True)); [apply fraction_yields; cbn; lia|]. intros frac n2 _ _ Hb2. cbn in Hb2. cbn beta iota.
  apply (yields_bind 0 0 (λ _, True)); [apply exponent_yields; cbn; lia|]. intros expo n3 _ _ Hb3. cbn in Hb3. cbn beta iota.
  apply number_tail. cbn. lia.
Qed.

(** ** Strings *)

Notation utf8 := (λ s : list Z, valid_utf8 s = true).

Lemma hex_loop_yields n v p : (i p + n ≤ length (b p))%nat → yields n (λ _, True) p (hex_loop n v p).
Proof.
  revert v p. induction n as [|n IH]; intros v p Hl; [apply yields_here; [done|lia]|]. cbn [hex_loop].
  rewrite idx_lookup, Nat2Z.id by lia. destruct (lookup_lt_is_Some_2 (b p) (i p)) as [d Hd]; [lia|]. rewrite Hd.
  cbn [unwrap mbind outcome_bind]. destruct (hex_value d) as [x|]; [|apply yields_err; [done|lia]].
  apply (yields_adv 1), IH. cbn. lia.
Qed.
Lemma parse_hex4_yields p : (i p ≤ length (b p))%nat → yields 0 (λ _, True) p (parse_hex4 p).
Proof.
  intros Hl. unfold parse_hex4. destruct (Nat.ltb_spec (length (b p)) (i p + 4)); [by apply yields_err|].
  eapply yields_weaken, hex_loop_yields; [lia|done|lia].
Qed.
Lemma push_char_yields c s p : (i p ≤ length (b p))%nat → yields 0 utf8 p (push_char c s p).
Proof.
  intros Hl. unfold push_char. destruct (from_u32 c) as [ch|] eqn:E; [|by apply yields_err].
  apply yields_here; [by eapply encode_valid|done].
Qed.
Lemma unicode_escape_yields p : (i p ≤ length (b p))%nat → yields 0 utf8 p (unicode_escape p).
Proof.
  intros Hl. unfold unicode_escape. apply (yields_bind 0 0 (λ _, True)); [by apply parse_hex4_yields|].
  intros cp n _ _ Hn. cbn beta iota. destruct (within 55296 56319 cp).
  - destruct (peek_is_spec 92 (adv n p)) as [H1%peek_lt|]; [|by apply yields_err]. cbn [negb].
    apply (yields_skip 1). destruct (peek_is_spec 117 (adv 1 (adv n p))) as [H2%peek_lt|]; [|apply yields_err; [done|cbn in *; lia]].
    cbn [negb]. apply (yields_skip 1), (yields_bind 0 0 (λ _, True)); [apply parse_hex4_yields; cbn in *; lia|].
    intros lo m _ _ Hm. cbn beta iota. destruct (negb _); [by apply yields_err|by apply push_char_yields].
  - destruct (within 56320 57343 cp); [by apply yields_err|by apply push_char_yields].
Qed.
Lemma escape_yields e p : (i p ≤ length (b p))%nat → yields 0 utf8 p (escape e p).
Proof.
  intros Hl. unfold escape. repeat (case_match; [by apply yields_here|]).
  case_match; [by apply unicode_escape_yields|by apply yields_err].
Qed.
Lemma utf8_len_pos c : (1 ≤ utf8_len c)%nat.
Proof. unfold utf8_len. repeat case_match; lia. Qed.
Lemma raw_char_yields c p : (i p ≤ length (b p))%nat → yields 1 utf8 p (raw_char c p).
Proof.
  intros Hl. unfold raw_char. destruct (Nat.ltb_spec (length (b p)) (i p + utf8_len c)); [by apply yields_err|].
  rewrite slice_rest by done. obind. pose proof (utf8_len_pos c).
  destruct (valid_utf8 _) eqn:Hv; [by apply yields_ok_le|by apply yields_err].
Qed.

Lemma string_loop_yields fuel out p : valid_utf8 out = true → (i p ≤ length (b p))%nat →
  (length (b p) < i p + fuel)%nat → yields 1 utf8 p (string_loop fuel out p).
Proof.
  revert out p. induction fuel as [|fuel IH]; intros out p Ho Hl Hf; [lia|]. cbn [string_loop].
  destruct (peek p) as [c|] eqn:Hp; [|by apply yields_err]. apply peek_lt in Hp.
  assert (∀ m q r, yields m utf8 q r → b q = b p → (i p < i q + m)%nat →
    yields (m + 1) utf8 q ('(s, p) ←? r; string_loop fuel (out ++ s) p)) as Hnext.
  { intros m q r Hr Hb Hi. eapply yields_bind; [exact Hr|]. intros s n Hs Hn Hbn. cbn beta iota.
    rewrite Hb in Hbn. apply IH; cbn; rewrite ?Hb; [by rewrite valid_app|lia..]. }
  destruct (c =? 34); [apply yields_ok; [done|lia]|]. destruct (c =? 92).
  - destruct (peek (adv 1 p)) as [e|] eqn:He; [|apply yields_err; [done|cbn; lia]]. apply peek_lt in He. cbn in He.
    apply (yields_skip 1), (yields_skip 1), (Hnext 0%nat); [apply escape_yields; cbn; lia|done|cbn; lia].
  - destruct (c <=? 31); [by apply yields_err|]. eapply yields_weaken, (Hnext 1%nat); [lia|done|by apply raw_char_yields|done|lia].
Qed.
Lemma parse_string_yields p : (i p < length (b p))%nat → yields 2 utf8 p (parse_string p).
Proof. intros Hl. unfold parse_string. apply (yields_adv 1), string_loop_yields; [done|cbn; lia..]. Qed.

(** ** Arrays and objects *)

Definition deeper (p : Parser) : Parser := mkParser (b p) (i p) (depth p + 1).
Lemma enter_deeper p : 0 ≤ depth p < 128 → enter p = ok tt (deeper p).
Proof.
  intros Hd. unfold enter. rewrite uadd_ok by (unfold u_max; lia). obind.
  by rewrite (proj2 (Z.ltb_ge MAX_DEPTH (depth p + 1))) by (unfold MAX_DEPTH; lia).
Qed.
Lemma enter_refused p : depth p = 128 → enter p = Done (Err (mkError (i p) "maximum nesting depth exceeded")).
Proof. intros E. unfold enter. rewrite E. done. Qed.
Lemma close_up v n p : 0 ≤ depth p → close v (adv n (deeper p)) = ok v (adv (n + 1) p).
Proof.
  intros Hd. unfold close. cbn [adv deeper depth b i]. rewrite usub_ok by lia. obind.
  unfold adv. do 2 f_equal. all: lia.
Qed.
Lemma close_yields m (P : Value → Prop) v n p : 0 ≤ depth p → P v → (m ≤ n + 1)%nat →
  (i (adv n (deeper p)) < length (b p))%nat → yields m P p (close v (adv n (deeper p))).
Proof. intros Hd Hv Hm Hl. rewrite close_up by done. apply yields_ok_le; [done|done|cbn in Hl; lia]. Qed.

(** The end of an item: a comma and the next one, the bracket, or an error. *)
Lemma item_end_yields (P : Value → Prop) p n (c : Z) v s next : 0 ≤ depth p → P v → (i p + n ≤ length (b p))%nat →
  (∀ n', (n ≤ n')%nat → (i p + n' < length (b p))%nat → yields 1 P p (next (adv (S n') (deeper p)))) →
  yields 1 P p (let q := skip_ws (adv n (deeper p)) in
    if peek_is 44 q then next (adv 1 q) else if peek_is c q then close v q else err q s).
Proof.
  intros Hd Hv Hl Hnext. destruct (skip_ws_adv (adv n (deeper p))) as (m & E & Hm); [done|].
  rewrite E. cbn in Hm. cbn zeta. rewrite adv_adv.
  destruct (peek_is_spec 44 (adv (n + m) (deeper p))) as [H1%peek_lt|_].
  { cbn in H1. rewrite adv_adv, Nat.add_1_r. apply Hnext; lia. }
  destruct (peek_is_spec c (adv (n + m) (deeper p))) as [H2%peek_lt|_]; [apply close_yields; [done|done|lia|done]|].
  apply yields_err; [done|cbn; lia].
Qed.

Section Items.
Context (f : Parser → outcome (result Error (Value * Parser))) (p : Parser) (P Q : Value → Prop).
Context (Hdepth : 0 ≤ depth p)
  (Hf : ∀ n, (i p + n ≤ length (b p))%nat → yields 1 Q (adv n (deeper p)) (f (adv n (deeper p)))).

Lemma array_loop_yields fuel arr n : (∀ a, Forall Q a → P (Array a)) → Forall Q arr → (i p + n ≤ length (b p))%nat →
  (length (b p) < i p + n + fuel)%nat → yields 1 P p (array_loop f fuel arr (adv n (deeper p))).
Proof.
  intros HP. revert arr n. induction fuel as [|fuel IH]; intros arr n Ha Hl Hfu; [lia|]. cbn [array_loop].
  destruct (skip_ws_adv (adv n (deeper p))) as (m & E & Hm); [done|]. rewrite E. cbn in Hm.
  rewrite adv_adv. specialize (Hf (n + m) ltac:(lia)).
  destruct (f (adv (n + m) (deeper p))) as [[[v q]|e]| |]; cbn [yields try_bind] in *; [|done..].
  destruct Hf as (Hv & k & Hk & -> & Hb). cbn in Hb. rewrite adv_adv.
  assert (Forall Q (arr ++ [v])) as Ha' by (apply Forall_app; auto).
  apply (item_end_yields P p _ 93 (Array (arr ++ [v])) _ (array_loop f fuel (arr ++ [v]))); [done|auto|lia|].
  intros n' Hn' Hn''. apply IH; [done|lia..].
Qed.

Lemma object_loop_yields fuel obj n :
  (∀ o, Forall (λ kv : list Z * Value, valid_utf8 kv.1 = true ∧ Q kv.2) o → P (Object o)) →
  Forall (λ kv : list Z * Value, valid_utf8 kv.1 = true ∧ Q kv.2) obj → (i p + n ≤ length (b p))%nat →
  (length (b p) < i p + n + fuel)%nat → yields 1 P p (object_loop f fuel obj (adv n (deeper p))).
Proof.
  intros HP. revert obj n. induction fuel as [|fuel IH]; intros obj n Ho Hl Hfu; [lia|]. cbn [object_loop].
  destruct (skip_ws_adv (adv n (deeper p))) as (m & E & Hm); [done|]. rewrite E. cbn in Hm.
  rewrite adv_adv. destruct (peek_is_spec 34 (adv (n + m) (deeper p))) as [H1%peek_lt|_]; [|apply yields_err; [done|cbn; lia]].
  cbn [negb]. pose proof (parse_string_yields _ H1) as Hk.
  destruct (parse_string _) as [[[key q]|e]| |]; cbn [yields try_bind] in *; [|done..].
  destruct Hk as (Hkey & k & Hk & -> & Hb). cbn in Hb. rewrite adv_adv.
  destruct (skip_ws_adv (adv (n + m + k) (deeper p))) as (m2 & E2 & Hm2); [cbn; lia|].
  rewrite E2. cbn in Hm2. rewrite adv_adv.
  destruct (peek_is_spec 58 (adv (n + m + k + m2) (deeper p))) as [H2%peek_lt|_]; [|apply yields_err; [done|cbn; lia]].
  cbn [negb]. cbn in H2. rewrite adv_adv.
  destruct (skip_ws_adv (adv (n + m + k + m2 + 1) (deeper p))) as (m3 & E3 & Hm3); [cbn; lia|].
  rewrite E3. cbn in Hm3. rewrite adv_adv.
  specialize (Hf (n + m + k + m2 + 1 + m3) ltac:(lia)).
  destruct (f _) as [[[v q]|e]| |]; cbn [yields try_bind] in *; [|done..].
  destruct Hf as (Hv & k2 & Hk2 & -> & Hb2). cbn in Hb2. rewrite adv_adv.
  assert (Forall (λ kv : list Z * Value, valid_utf8 kv.1 = true ∧ Q kv.2) (obj ++ [(key, v)])) as Ho'
    by (apply Forall_app; auto).
  apply (item_end_yields P p _ 125 (Object (obj ++ [(key, v)])) _ (object_loop f fuel (obj ++ [(key, v)]))); [done|auto|lia|].
  intros n' Hn' Hn''. apply IH; [done|lia..].
Qed.
End Items.

(** ** Values *)

(** A value of the Rust type that nests at most [h] deep. *)
Definition fits (h : Z) (v : Value) : Prop := well_formed v = true ∧ Z.of_nat (height v) ≤ h.

Lemma fits_array h a : 0 ≤ h → Forall (fits h) a → fits (h + 1) (Array a).
Proof.
  intros Hh Ha. split.
  - cbn [well_formed]. apply forallb_Forall. eapply Forall_impl; [exact Ha|]. by intros v [? _].
  - cbn [height]. enough (Z.of_nat (foldr (λ v h, Nat.max (height v) h) 0%nat a) ≤ h) by lia.
    induction Ha as [|v a [_ Hv] _ IH]; cbn [foldr]; lia.
Qed.
Lemma fits_object h o : 0 ≤ h → Forall (λ kv : list Z * Value, valid_utf8 kv.1 = true ∧ fits h kv.2) o →
  fits (h + 1) (Object o).
Proof.
  intros Hh Ho. split.
  - cbn [well_formed]. apply forallb_Forall. eapply Forall_impl; [exact Ho|]. intros kv (Hk & Hv & _).
    by rewrite Hk, Hv.
  - cbn [height]. enough (Z.of_nat (foldr (λ kv h, Nat.max (height kv.2) h) 0%nat o) ≤ h) by lia.
    induction Ho as [|kv o (_ & _ & Hv) _ IH]; cbn [foldr]; lia.
Qed.

Lemma parse_array_yields f p : (i p < length (b p))%nat → 0 ≤ depth p ≤ 128 →
  (depth p < 128 → ∀ n, (i p + n ≤ length (b p))%nat → yields 1 (fits (127 - depth p)) (adv n (deeper p)) (f (adv n (deeper p)))) →
  yields 1 (fits (128 - depth p)) p (parse_array f p).
Proof.
  intros Hl Hd Hf. unfold parse_array. destruct (Z.eq_dec (depth p) 128) as [E|E].
  { rewrite enter_refused by done. cbn. lia. }
  rewrite enter_deeper by lia. cbn [ok try_bind].
  destruct (skip_ws_adv (adv 1 (deeper p))) as (n & E1 & Hn); [cbn; lia|]. cbn in Hn. rewrite E1, adv_adv.
  assert (∀ a, Forall (fits (127 - depth p)) a → fits (128 - depth p) (Array a)) as Ha.
  { intros a Ha. replace (128 - depth p) with (127 - depth p + 1) by lia. apply fits_array; [lia|done]. }
  destruct (peek_is_spec 93 (adv (1 + n) (deeper p))) as [H1%peek_lt|_]; [apply close_yields; auto with lia|].
  eapply array_loop_yields; [lia|apply Hf; lia|exact Ha|constructor|cbn; lia..].
Qed.
Lemma parse_object_yields f p : (i p < length (b p))%nat → 0 ≤ depth p ≤ 128 →
  (depth p < 128 → ∀ n, (i p + n ≤ length (b p))%nat → yields 1 (fits (127 - depth p)) (adv n (deeper p)) (f (adv n (deeper p)))) →
  yields 1 (fits (128 - depth p)) p (parse_object f p).
Proof.
  intros Hl Hd Hf. unfold parse_object. destruct (Z.eq_dec (depth p) 128) as [E|E].
  { rewrite enter_refused by done. cbn. lia. }
  rewrite enter_deeper by lia. cbn [ok try_bind].
  destruct (skip_ws_adv (adv 1 (deeper p))) as (n & E1 & Hn); [cbn; lia|]. cbn in Hn. rewrite E1, adv_adv.
  assert (∀ o, Forall (λ kv : list Z * Value, valid_utf8 kv.1 = true ∧ fits (127 - depth p) kv.2) o →
    fits (128 - depth p) (Object o)) as Ho.
  { intros o Ho. replace (128 - depth p) with (127 - depth p + 1) by lia. apply fits_object; [lia|done]. }
  destruct (peek_is_spec 125 (adv (1 + n) (deeper p))) as [H1%peek_lt|_]; [apply close_yields; auto with lia|].
  eapply object_loop_yields; [lia|apply Hf; lia|exact Ho|constructor|cbn; lia..].
Qed.

Lemma parse_value_yields fuel p : (i p ≤ length (b p))%nat → 0 ≤ depth p ≤ 128 → 128 - depth p < Z.of_nat fuel →
  yields 1 (fits (128 - depth p)) p (parse_value fuel p).
Proof.
  revert p. induction fuel as [|fuel IH]; intros p Hl Hd Hfu; [lia|]. cbn [parse_value].
  destruct (peek p) as [c|] eqn:Hp; [|by apply yields_err]. apply peek_lt in Hp.
  assert (∀ v, flat v → fits (128 - depth p) v) as Hflat by (intros v [? E]; split; [done|rewrite E; lia]).
  assert (depth p < 128 → ∀ n, (i p + n ≤ length (b p))%nat →
    yields 1 (fits (127 - depth p)) (adv n (deeper p)) (parse_value fuel (adv n (deeper p)))) as Hrec.
  { intros Hlt n Hn. replace (127 - depth p) with (128 - depth (adv n (deeper p))) by (cbn; lia).
    apply IH; cbn; lia. }
  destruct (c =? 123); [by apply parse_object_yields|]. destruct (c =? 91); [by apply parse_array_yields|].
  destruct (c =? 34).
  { eapply (yields_weaken 2); [lia|intros v Hv; exact Hv|].
    apply (yields_bind 2 0 (λ s, valid_utf8 s = true)); [by apply parse_string_yields|].
    intros s n Hs _ Hn. apply yields_here; [by apply Hflat|done]. }
  destruct ((c =? 116) || (c =? 102)).
  { unfold parse_bool. destruct (peek_is 116 p); (apply expect_lit_yields; [done|by apply Hflat|done]). }
  destruct (c =? 110); [apply expect_lit_yields; [done|by apply Hflat|done]|].
  destruct ((c =? 45) || is_ascii_digit c); [|by apply yields_err].
  eapply yields_weaken, parse_number_yields; [done|exact Hflat|done].
Qed.

(** C13: whatever bytes a peer sends, [Value::parse] returns: it never indexes out
    of range, underflows its nesting counter or runs on, and what it returns is a
    value of the promised type - every [Int] an [i64], every string and key UTF-8,
    nothing nested deeper than [MAX_DEPTH] - or an error whose offset lies inside
    the input. *)
Theorem parse_typed (input : list Z) : ∃ r, parse input = Done r ∧
  match r with
  | Ok v => well_formed v = true ∧ Z.of_nat (height v) ≤ MAX_DEPTH
  | Err e => (pos e ≤ length input)%nat
  end.
Proof.
  unfold parse. destruct (skip_ws_adv (mkParser input 0 0)) as (n & -> & Hn); [cbn; lia|]. cbn in Hn.
  pose proof (parse_value_yields (S (Z.to_nat MAX_DEPTH)) (adv n (mkParser input 0 0)) ltac:(cbn; lia) ltac:(cbn; lia)
    ltac:(unfold MAX_DEPTH; cbn; lia)) as Hy.
  destruct (parse_value _ _) as [[[v q]|e]| |]; cbn [yields try_bind] in *; [|by eexists|done..].
  destruct Hy as ([Hw Hh] & m & _ & -> & Hm). cbn in Hm. rewrite adv_adv.
  destruct (skip_ws_adv (adv (n + m) (mkParser input 0 0))) as (k & -> & Hk); [cbn; lia|]. cbn in Hk.
  destruct (_ =? _)%nat; eexists; (split; [done|]); cbn; [split; [done|unfold MAX_DEPTH in *; cbn in Hh; lia]|lia].
Qed.
End Total.

End JsonProofs.
