(* ===== verification/JsonRound.v ===== *)
(** * The JSON round trip

    How the parser reads a known text: numbers, strings, the items of arrays and
    objects; from it, that it reads back what the serializer writes, and that it
    refuses what nests past the cap. *)

From stdpp Require Import strings.
From S2P Require Import Prelude Digits Utf8 Json JsonProofs.
Import Digits Utf8 Json JsonProofs.
Open Scope Z_scope.

Module JsonRound.

(** ** Reading a known text

    [unread p s]: the parser's unread input is [s]. *)

Section Reads.
Context `{Float64}.

Definition unread (p : Parser) (s : list Z) : Prop := rest p = s ∧ (i p ≤ length (b p))%nat.

Lemma left_adv p s k : unread p (s ++ k) → unread (adv (length s) p) k.
Proof.
  intros [E Hl]. assert (length (rest p) = length (s ++ k)) as HL by by rewrite E.
  unfold rest in *. rewrite length_drop, length_app in HL. split; [|cbn; lia].
  unfold rest. cbn. by rewrite <-drop_drop, E, drop_app_length.
Qed.
Lemma left_cons p c k : unread p (c :: k) → unread (adv 1 p) k.
Proof. apply (left_adv p [c]). Qed.
Lemma left_bound p s k : unread p (s ++ k) → (i p + length s ≤ length (b p))%nat.
Proof. intros [_ Hl]%left_adv. exact Hl. Qed.
Lemma left_deeper p s : unread p s → unread (deeper p) s.
Proof. done. Qed.
Lemma left_peek p s : unread p s → peek p = head s.
Proof.
  intros [E _]. unfold peek. rewrite <-E. unfold rest. by rewrite <-(Nat.add_0_r (i p)), <-lookup_drop, head_lookup, Nat.add_0_r.
Qed.
Lemma peek_is_left c p x k : unread p (x :: k) → peek_is c p = (x =? c).
Proof.
  intros Hp. unfold peek_is. rewrite (left_peek _ _ Hp). cbn. destruct (Z.eqb_spec x c) as [->|].
  - by rewrite bool_decide_true.
  - rewrite bool_decide_false; congruence.
Qed.
Lemma peek_is_end c p k : unread p k → head k ≠ Some c → peek_is c p = false.
Proof. intros Hp Hk. unfold peek_is. rewrite (left_peek _ _ Hp). by apply bool_decide_false. Qed.
Lemma slice_left p s k : unread p (s ++ k) → slice (b p) (Z.of_nat (i p)) (Z.of_nat (i p + length s)) = Done s.
Proof.
  intros Hp. rewrite slice_rest by by eapply left_bound. destruct Hp as [-> _]. by rewrite take_app_length.
Qed.

Lemma run_app f s k : Forall (λ c, f c = true) s → (∀ c, head k = Some c → f c = false) → run f (s ++ k) = length s.
Proof.
  intros Hs Hk. induction Hs as [|c s Hc _ IH]; cbn [app run length]; [|by rewrite Hc, IH].
  destruct k as [|c k]; [done|]. cbn [run]. by rewrite (Hk c).
Qed.
Lemma skip_while_left f p s k : unread p (s ++ k) → Forall (λ c, f c = true) s → (∀ c, head k = Some c → f c = false) →
  skip_while f p = adv (length s) p.
Proof. intros [E _] Hs Hk. unfold skip_while. rewrite E. by rewrite run_app. Qed.
Lemma skip_ws_left p s : unread p s → (∀ c, head s = Some c → is_ws c = false) → skip_ws p = p.
Proof. intros Hp Hs. unfold skip_ws. rewrite (skip_while_left _ _ [] s Hp); [apply adv_0|constructor|done]. Qed.

Lemma expect_lit_left l v p k : unread p (l ++ k) → expect_lit l v p = ok v (adv (length l) p).
Proof.
  intros Hp. unfold expect_lit. rewrite slice_tail by apply Hp. obind. rewrite (proj1 Hp), take_app_length.
  by rewrite bool_decide_true.
Qed.

(** What may follow a value: the end, a comma or a closing bracket. *)
Definition delim (k : list Z) : Prop := ∀ c, head k = Some c → c = 44 ∨ c = 93 ∨ c = 125.
Lemma delim_digit k c : delim k → head k = Some c → is_ascii_digit c = false.
Proof. intros Hk Hc. destruct (Hk c Hc) as [->|[->| ->]]; done. Qed.
Lemma delim_peek c p k : unread p k → delim k → c ≠ 44 → c ≠ 93 → c ≠ 125 → peek_is c p = false.
Proof. intros Hp Hk H1 H2 H3. eapply peek_is_end; [exact Hp|]. intros Hc. destruct (Hk c Hc) as [?|[?|?]]; lia. Qed.

(** *** Numbers *)

Definition decimal (s : list Z) : Prop :=
  Forall (λ c, is_ascii_digit c = true) s ∧ s ≠ [] ∧ (head s = Some 48 → s = [48]).
Definition fractional (s : list Z) : Prop :=
  s = [] ∨ ∃ ds, s = 46 :: ds ∧ Forall (λ c, is_ascii_digit c = true) ds ∧ ds ≠ [].

Lemma peek_digit_left p ds k : unread p (ds ++ k) → Forall (λ c, is_ascii_digit c = true) ds → ds ≠ [] → peek_digit p = true.
Proof.
  intros Hp Hd Hne. unfold peek_digit. rewrite (left_peek _ _ Hp). destruct ds as [|d ds]; [done|]. cbn.
  by apply Forall_cons in Hd as [? _].
Qed.
Lemma int_part_left p s k : unread p (s ++ k) → decimal s → (∀ c, head k = Some c → is_ascii_digit c = false) →
  int_part p = ok tt (adv (length s) p).
Proof.
  intros Hp (Hd & Hne & Hz) Hk. unfold int_part. rewrite (left_peek _ _ Hp).
  destruct s as [|c s]; [done|]. cbn [app head]. destruct (Z.eqb_spec c 48) as [E|E].
  - rewrite E in Hz. by specialize (Hz eq_refl) as [= ->].
  - assert (is_ascii_digit c = true) as -> by by apply Forall_cons in Hd as [? _].
    by rewrite (skip_while_left _ _ (c :: s) k).
Qed.
Lemma fraction_left p s k : unread p (s ++ k) → fractional s → delim k →
  fraction p = ok (bool_decide (s ≠ [])) (adv (length s) p).
Proof.
  intros Hp [->|(ds & -> & Hd & Hne)] Hk; unfold fraction.
  - rewrite (delim_peek 46 p k) by (done || lia). by rewrite bool_decide_false, adv_0 by (intros []; done).
  - cbn [app] in Hp. rewrite (peek_is_left 46 _ _ _ Hp). cbn [Z.eqb Pos.eqb]. rewrite bool_decide_true by done.
    apply left_cons in Hp. rewrite (peek_digit_left _ ds k) by done.
    rewrite (skip_while_left _ _ ds k) by (done || by intros c; apply delim_digit). by rewrite adv_adv.
Qed.
Lemma exponent_left p k : unread p k → delim k → exponent p = ok false p.
Proof. intros Hp Hk. unfold exponent. by rewrite (delim_peek 101 p k), (delim_peek 69 p k) by (done || lia). Qed.

Lemma fractional_digit fp k c : fractional fp → delim k → head (fp ++ k) = Some c → is_ascii_digit c = false.
Proof. intros [->|(ds & -> & _)] Hk; cbn; [by apply delim_digit|by intros [= <-]]. Qed.
Lemma number_ascii (sg ip fp : list Z) : sg = [] ∨ sg = [45] → decimal ip → fractional fp →
  valid_utf8 (sg ++ ip ++ fp) = true.
Proof.
  assert (∀ ds, Forall (λ c, is_ascii_digit c = true) ds → Forall (λ c, 0 ≤ c ≤ 127) ds) as Hd.
  { intros ds Hds. eapply Forall_impl; [exact Hds|]. cbn beta. intros c Hc%digit_range. lia. }
  intros Hs (Hip & _) Hfp. apply ascii_valid. apply Forall_app. split; [destruct Hs as [->| ->]; repeat constructor; lia|].
  apply Forall_app. split; [auto|]. destruct Hfp as [->|(ds & -> & Hds & _)]; [constructor|]. constructor; [lia|auto].
Qed.
Lemma number_left p sg ip fp k : sg = [] ∨ sg = [45] → decimal ip → fractional fp → delim k →
  unread p ((sg ++ ip ++ fp) ++ k) →
  parse_number p = (let s := sg ++ ip ++ fp in let q := adv (length s) p in
    if bool_decide (fp ≠ []) then read_f64 s q
    else match parse_i64 s with Some n => ok (Int n) q | None => read_f64 s q end).
Proof.
  intros Hsg Hip Hfp Hk Hp. unfold parse_number.
  assert ((if peek_is 45 p then adv 1 p else p) = adv (length sg) p) as ->.
  { destruct Hsg as [->| ->]; [|by rewrite (peek_is_left 45 p 45 ((ip ++ fp) ++ k))].
    rewrite adv_0. destruct Hip as (Hd & Hne & _). destruct ip as [|c ip]; [done|].
    apply Forall_cons in Hd as [Hc%digit_range _]. rewrite (peek_is_left 45 p c ((ip ++ fp) ++ k)) by done.
    by rewrite (proj2 (Z.eqb_neq c 45)) by lia. }
  pose proof Hp as Hp1. rewrite <-!app_assoc in Hp1. apply left_adv in Hp1.
  rewrite (int_part_left _ ip (fp ++ k)); [|done|done|by intros c; apply fractional_digit].
  cbn [ok try_bind]. apply left_adv in Hp1. rewrite (fraction_left _ fp k) by done. cbn [ok try_bind].
  apply left_adv in Hp1. rewrite (exponent_left _ k) by done. cbn [ok try_bind]. rewrite !adv_adv.
  set (s := sg ++ ip ++ fp) in *. assert (length sg + (length ip + length fp) = length s)%nat as El by (subst s; rewrite !length_app; lia).
  rewrite El. cbn [adv b i]. rewrite (slice_left p s k) by done. obind.
  subst s. rewrite number_ascii by done. cbn [negb]. by rewrite orb_false_r.
Qed.

Lemma digits_decimal n : 0 ≤ n → decimal (digits n).
Proof.
  intros Hn. destruct (digits_ok n Hn) as (Hd & Hne & _ & _ & Hz & H0). split; [done|]. split; [done|].
  intros Hh. apply H0. destruct (Z.eq_dec n 0); [done|]. by apply Hz in Hh.
Qed.
Lemma show_int_shape n : ∃ sg ip, show_int n = sg ++ ip ∧ (sg = [] ∨ sg = [45]) ∧ decimal ip.
Proof.
  unfold show_int. destruct (Z.ltb_spec n 0).
  - exists [45], (digits (- n)). split; [done|]. split; [auto|]. apply digits_decimal. lia.
  - exists [], (digits n). split; [done|]. split; [auto|]. by apply digits_decimal.
Qed.
Lemma read_i64_digits neg m : 0 ≤ m → i64_range (if neg : bool then - m else m) = true →
  read_i64 neg (digits m) = Some (if neg then - m else m).
Proof.
  intros Hm Hr. destruct (digits_ok m Hm) as (Hd & Hne & Hv & _). unfold read_i64.
  rewrite bool_decide_false by done. rewrite (proj2 (forallb_Forall _ _) Hd). cbn [orb negb]. rewrite Hv. by rewrite Hr.
Qed.
Lemma parse_show_int n : i64_range n = true → parse_i64 (show_int n) = Some n.
Proof.
  intros Hr. unfold show_int. destruct (Z.ltb_spec n 0) as [Hn|Hn].
  - cbn [parse_i64]. rewrite Z.eqb_refl. rewrite (read_i64_digits true); [f_equal; lia|lia|].
    by rewrite Z.opp_involutive.
  - pose proof (digits_ok n Hn) as (Hd & Hne & _). destruct (digits n) as [|c ds] eqn:E; [done|]. cbn [parse_i64].
    apply Forall_cons in Hd as [Hc%digit_range _].
    rewrite (proj2 (Z.eqb_neq c 45)), (proj2 (Z.eqb_neq c 43)) by lia. rewrite <-E. by apply (read_i64_digits false).
Qed.

(** *** Strings *)

Fixpoint hex_fold (ds : list Z) (v : Z) : option Z :=
  match ds with [] => Some v | d :: ds => x ← hex_value d; hex_fold ds (Z.lor (ushl 32 v 4) x) end.
Lemma hex_loop_left ds v w p k : unread p (ds ++ k) → hex_fold ds v = Some w →
  hex_loop (length ds) v p = ok w (adv (length ds) p).
Proof.
  revert v p. induction ds as [|d ds IH]; intros v p Hp Hw; cbn [length hex_loop hex_fold] in *.
  { injection Hw as ->. by rewrite adv_0. }
  rewrite idx_lookup, Nat2Z.id by lia. pose proof (left_peek _ _ Hp) as Hd. cbn in Hd. unfold peek in Hd. rewrite Hd.
  cbn [unwrap mbind outcome_bind]. destruct (hex_value d) as [x|]; [|done]. cbn in Hw.
  rewrite (IH _ (adv 1 p)); [by rewrite adv_adv|by eapply left_cons|done].
Qed.
Lemma hex4_fold c : 0 ≤ c < 32 → hex_fold (hex4 c) 0 = Some c.
Proof.
  intros Hc. assert (Forall (λ c, hex_fold (hex4 c) 0 = Some c) (seqZ 0 32)) as Hall.
  { repeat (constructor; [reflexivity|]). constructor. }
  rewrite Forall_forall in Hall. apply Hall, elem_of_seqZ. lia.
Qed.
Lemma unicode_escape_left c p k : 0 ≤ c < 32 → unread p (hex4 c ++ k) → unicode_escape p = ok [c] (adv 4 p).
Proof.
  intros Hc Hp. unfold unicode_escape, parse_hex4. pose proof (left_bound _ _ _ Hp) as Hb. change (length (hex4 c)) with 4%nat in Hb.
  rewrite (proj2 (Nat.ltb_ge _ _)) by lia. pose proof (hex_loop_left (hex4 c) 0 c p k Hp (hex4_fold c Hc)) as E.
  change (length (hex4 c)) with 4%nat in E. rewrite E.
  cbn [ok try_bind]. rewrite (within_not 55296), (within_not 56320) by lia. unfold push_char, from_u32.
  rewrite (proj2 (within_iff 0 55295 c)) by lia. cbn [orb]. unfold utf8_encode. by rewrite (proj2 (Z.ltb_lt c 128)) by lia.
Qed.

(** An escape written is read as the byte it stands for. *)
Lemma escape_left c p e : write_byte c = [92; e] → escape e p = ok [c] p.
Proof.
  unfold write_byte.
  repeat (match goal with |- context [if ?x =? ?y then _ else _] => destruct (Z.eqb_spec x y) as [->|] end;
    [by intros [= <-]|]).
  by case_match.
Qed.
Lemma string_loop_escape fuel out c e p k : write_byte c = [92; e] → unread p (92 :: e :: k) →
  string_loop (S fuel) out p = string_loop fuel (out ++ [c]) (adv 2 p).
Proof.
  intros Hw Hp. cbn [string_loop]. rewrite (left_peek _ _ Hp). cbn [head Z.eqb Pos.eqb]. apply left_cons in Hp.
  rewrite (left_peek _ _ Hp). cbn [head]. rewrite (escape_left c) by done. cbn [ok try_bind].
  by rewrite adv_adv.
Qed.
Lemma string_loop_hex fuel out c p k : 0 ≤ c < 32 → unread p (92 :: 117 :: hex4 c ++ k) →
  string_loop (S fuel) out p = string_loop fuel (out ++ [c]) (adv 6 p).
Proof.
  intros Hc Hp. cbn [string_loop]. rewrite (left_peek _ _ Hp). cbn [head Z.eqb Pos.eqb]. apply left_cons in Hp.
  rewrite (left_peek _ _ Hp). cbn [head]. apply left_cons in Hp. change (escape 117) with unicode_escape.
  rewrite (unicode_escape_left c _ k) by done. cbn [ok try_bind]. by rewrite !adv_adv.
Qed.
Lemma string_loop_raw fuel out c ch p k : 32 ≤ c → c ≠ 34 → c ≠ 92 → utf8_len c = S (length ch) →
  valid_utf8 (c :: ch) = true → unread p ((c :: ch) ++ k) →
  string_loop (S fuel) out p = string_loop fuel (out ++ c :: ch) (adv (S (length ch)) p).
Proof.
  intros H1 H2 H3 Hlen Hv Hp. cbn [string_loop]. rewrite (left_peek _ _ Hp). cbn [head app].
  rewrite (proj2 (Z.eqb_neq c 34)), (proj2 (Z.eqb_neq c 92)), (proj2 (Z.leb_gt c 31)) by lia.
  unfold raw_char. rewrite Hlen. pose proof (left_bound _ _ _ Hp) as Hb. cbn [length] in Hb.
  rewrite (proj2 (Nat.ltb_ge _ _)) by lia. change (S (length ch)) with (length (c :: ch)).
  rewrite (slice_left p (c :: ch) k) by done. obind. by rewrite Hv.
Qed.

Lemma string_loop_ascii fuel out c p k : 0 ≤ c ≤ 127 → unread p (write_byte c ++ k) →
  string_loop (S fuel) out p = string_loop fuel (out ++ [c]) (adv (length (write_byte c)) p).
Proof.
  intros Hc Hp. assert (write_byte c = [92; default 0 (write_byte c !! 1%nat)] ∨
    (0 ≤ c < 32 ∧ write_byte c = 92 :: 117 :: hex4 c) ∨ (32 ≤ c ∧ c ≠ 34 ∧ c ≠ 92 ∧ write_byte c = [c])) as Hw.
  { unfold write_byte. do 7 (case_match; [by left|]). destruct (Z.ltb_spec c 32); [right; left; split; [lia|done]|].
    right; right. rewrite !Z.eqb_neq in *. done. }
  destruct Hw as [Hw|[[Hr Hw]|(H1 & H2 & H3 & Hw)]]; rewrite Hw in Hp |- *.
  - exact (string_loop_escape fuel out c _ p k Hw Hp).
  - exact (string_loop_hex fuel out c p k Hr Hp).
  - apply (string_loop_raw fuel out c [] p k); [done|done|done| | |done].
    + unfold utf8_len. by rewrite (proj2 (Z.ltb_lt c 128)) by lia.
    + cbn [valid_utf8]. by rewrite (proj2 (within_iff 0 127 c)).
Qed.

(** A string's first character: one ASCII byte, or a sequence of bytes above them
    whose lead byte tells its length. *)
Lemma utf8_len_lead a (n : nat) : (194 ≤ a ≤ 223 ∧ n = 2%nat) ∨ (224 ≤ a ≤ 239 ∧ n = 3%nat) ∨ (240 ≤ a ≤ 244 ∧ n = 4%nat) →
  utf8_len a = n.
Proof.
  intros Ha. unfold utf8_len. rewrite !Z.shiftr_div_pow2 by lia. rewrite (proj2 (Z.ltb_ge a 128)) by lia.
  change (2 ^ 5) with 32. change (2 ^ 4) with 16. change (2 ^ 3) with 8.
  destruct Ha as [[Ha ->]|[[Ha ->]|[Ha ->]]].
  - by replace (a / 32) with 6 by (apply (Z.div_unique a 32 6 (a - 192)); lia).
  - replace (a / 32) with 7 by (apply (Z.div_unique a 32 7 (a - 224)); lia).
    by replace (a / 16) with 14 by (apply (Z.div_unique a 16 14 (a - 224)); lia).
  - replace (a / 32) with 7 by (apply (Z.div_unique a 32 7 (a - 224)); lia).
    replace (a / 16) with 15 by (apply (Z.div_unique a 16 15 (a - 240)); lia).
    by replace (a / 8) with 30 by (apply (Z.div_unique a 8 30 (a - 240)); lia).
Qed.
Definition wide (ch : list Z) : Prop :=
  ∃ a r, ch = a :: r ∧ utf8_len a = length ch ∧ Forall (λ c, 128 ≤ c) ch ∧ valid_utf8 ch = true.
Lemma utf8_uncons s : valid_utf8 s = true → s ≠ [] → ∃ ch s', s = ch ++ s' ∧ valid_utf8 s' = true ∧
  ((∃ c, ch = [c] ∧ 0 ≤ c ≤ 127) ∨ wide ch).
Proof.
  intros Hv Hne. destruct s as [|a s1]; [done|]. pose proof Hv as Hv'. cbn [valid_utf8] in Hv.
  destruct (within 0 127 a) eqn:E1; [apply within_iff in E1; exists [a], s1; eauto 6|].
  assert (∀ ch s', a :: s1 = (a :: ch) ++ s' → Forall (λ c, 128 ≤ c) (a :: ch) → utf8_len a = length (a :: ch) →
    valid_utf8 s' = true → valid_utf8 (a :: ch) = true → ∃ ch s', a :: s1 = ch ++ s' ∧ valid_utf8 s' = true ∧
    ((∃ c, ch = [c] ∧ 0 ≤ c ≤ 127) ∨ wide ch)) as Hwide.
  { intros ch s' E HF Hlen Hs Hch. exists (a :: ch), s'. split; [done|]. split; [done|]. right. by exists a, ch. }
  assert (∀ x y, x && y = true → x = true ∧ y = true) as Hand by (intros x y; apply andb_true_iff).
  destruct s1 as [|c1 s2]; [done|]. destruct (within 194 223 a) eqn:E2.
  { apply Hand in Hv as [C1 Hv]. pose proof (proj1 (within_iff _ _ _) E2). pose proof (proj1 (cont_iff _) C1).
    apply (Hwide [c1] s2); [done|repeat constructor; lia|apply utf8_len_lead; auto|done|cbn [valid_utf8]; by rewrite E1, E2, C1]. }
  destruct s2 as [|c2 s3]; [done|].
  assert (∀ (x : bool), (x = true → 128 ≤ c1) → 224 ≤ a ≤ 239 → x && cont c2 && valid_utf8 s3 = true →
    valid_utf8 [a; c1; c2] = x && cont c2 && true → ∃ ch s', a :: c1 :: c2 :: s3 = ch ++ s' ∧ valid_utf8 s' = true ∧
    ((∃ c, ch = [c] ∧ 0 ≤ c ≤ 127) ∨ wide ch)) as H3.
  { intros x Hx Ha [[Hx1 C2]%andb_true_iff Hs]%andb_true_iff Hch. pose proof (proj1 (cont_iff _) C2). specialize (Hx Hx1).
    apply (Hwide [c1; c2] s3); [done|repeat constructor; lia|apply utf8_len_lead; auto|done|by rewrite Hch, Hx1, C2]. }
  destruct (a =? 224) eqn:E3.
  { apply (H3 (within 160 191 c1)); [intros ?%within_iff; lia|apply Z.eqb_eq in E3; lia|done|cbn [valid_utf8]; by rewrite E1, E2, E3]. }
  destruct (a =? 237) eqn:E4.
  { apply (H3 (within 128 159 c1)); [intros ?%within_iff; lia|apply Z.eqb_eq in E4; lia|done|cbn [valid_utf8]; by rewrite E1, E2, E3, E4]. }
  destruct (within 225 239 a) eqn:E5.
  { apply (H3 (cont c1)); [intros ?%cont_iff; lia|apply within_iff in E5; lia|done|cbn [valid_utf8]; by rewrite E1, E2, E3, E4, E5]. }
  destruct s3 as [|c3 s4]; [done|].
  assert (∀ (x : bool), (x = true → 128 ≤ c1) → 240 ≤ a ≤ 244 → x && cont c2 && cont c3 && valid_utf8 s4 = true →
    valid_utf8 [a; c1; c2; c3] = x && cont c2 && cont c3 && true → ∃ ch s', a :: c1 :: c2 :: c3 :: s4 = ch ++ s' ∧ valid_utf8 s' = true ∧
    ((∃ c, ch = [c] ∧ 0 ≤ c ≤ 127) ∨ wide ch)) as H4.
  { intros x Hx Ha [[[Hx1 C2]%andb_true_iff C3]%andb_true_iff Hs]%andb_true_iff Hch. specialize (Hx Hx1).
    pose proof (proj1 (cont_iff _) C2). pose proof (proj1 (cont_iff _) C3).
    apply (Hwide [c1; c2; c3] s4); [done|repeat constructor; lia|apply utf8_len_lead; auto|done|by rewrite Hch, Hx1, C2, C3]. }
  destruct (a =? 240) eqn:E6.
  { apply (H4 (within 144 191 c1)); [intros ?%within_iff; lia|apply Z.eqb_eq in E6; lia|done|cbn [valid_utf8]; by rewrite E1, E2, E3, E4, E5, E6]. }
  destruct (within 241 243 a) eqn:E7.
  { apply (H4 (cont c1)); [intros ?%cont_iff; lia|apply within_iff in E7; lia|done|cbn [valid_utf8]; by rewrite E1, E2, E3, E4, E5, E6, E7]. }
  destruct (a =? 244) eqn:E8; [|done].
  apply (H4 (within 128 143 c1)); [intros ?%within_iff; lia|apply Z.eqb_eq in E8; lia|done|cbn [valid_utf8]; by rewrite E1, E2, E3, E4, E5, E6, E7, E8].
Qed.

Lemma write_wide ch : Forall (λ c, 128 ≤ c) ch → ch ≫= write_byte = ch.
Proof.
  induction 1 as [|c ch Hc _ IH]; [done|]. cbn [mbind list_bind]. rewrite IH.
  enough (write_byte c = [c]) as -> by done. unfold write_byte.
  repeat (rewrite (proj2 (Z.eqb_neq c _)) by lia). by rewrite (proj2 (Z.ltb_ge c 32)) by lia.
Qed.
Lemma string_loop_left fuel s out p k : valid_utf8 s = true → (length s < fuel)%nat →
  unread p ((s ≫= write_byte) ++ 34 :: k) →
  string_loop fuel out p = ok (out ++ s) (adv (S (length (s ≫= write_byte))) p).
Proof.
  remember (length s) as n eqn:Hn. revert fuel s out p Hn. induction n as [n IH] using lt_wf_ind.
  intros fuel s out p -> Hv Hf Hp. destruct fuel as [|fuel]; [lia|]. destruct (decide (s = [])) as [->|Hne].
  { cbn [string_loop]. rewrite (left_peek _ _ Hp). cbn. by rewrite app_nil_r. }
  destruct (utf8_uncons s Hv Hne) as (ch & s' & -> & Hs' & Hch). rewrite bind_app in Hp |- *. rewrite <-app_assoc in Hp.
  rewrite length_app in Hf.
  assert (∀ n, string_loop (S fuel) out p = string_loop fuel (out ++ ch) (adv n p) → n = length (ch ≫= write_byte) →
    (0 < length ch)%nat → string_loop (S fuel) out p = ok (out ++ ch ++ s') (adv (S (length ((ch ≫= write_byte) ++ (s' ≫= write_byte)))) p)) as Hgo.
  { intros n E -> Hpos. assert (length s' < length (ch ++ s'))%nat as Hlt by (rewrite length_app; lia).
    rewrite E, (IH _ Hlt fuel s'); [|done|done|lia|by eapply left_adv].
    by rewrite app_assoc, adv_adv, length_app, Nat.add_succ_r. }
  destruct Hch as [(c & -> & Hc)|(a & r & -> & Hlen & Hw & Hcv)].
  - cbn [mbind list_bind] in Hp, Hgo |- *. rewrite app_nil_r in *.
    eapply Hgo; [by eapply string_loop_ascii|done|cbn; lia].
  - rewrite write_wide in Hp, Hgo |- * by done. pose proof (proj1 (Forall_cons _ _ _) Hw) as [Ha _].
    eapply Hgo; [by eapply (string_loop_raw fuel out a r); [lia..| |done|]|done|cbn; lia].
Qed.
Lemma parse_string_left s p k : valid_utf8 s = true → unread p (write_json_string s ++ k) →
  parse_string p = ok s (adv (length (write_json_string s)) p).
Proof.
  intros Hv Hp. unfold parse_string, write_json_string in *. cbn [app] in Hp. rewrite <-app_assoc in Hp.
  assert (∀ c, 1 ≤ length (write_byte c))%nat as Hw by (intros c; unfold write_byte; repeat case_match; cbn; lia).
  assert (length s ≤ length (s ≫= write_byte))%nat as Hs.
  { clear -Hw. induction s as [|c s IH]; [done|]. cbn [mbind list_bind]. rewrite length_app. specialize (Hw c). cbn. lia. }
  pose proof (left_bound p [34] _ Hp) as Hb. apply left_cons in Hp. pose proof (left_bound _ _ _ Hp) as Hb2. cbn in Hb2.
  rewrite (string_loop_left _ s [] _ k) by (done || lia). rewrite adv_adv. cbn [app length].
  rewrite length_app. cbn [length]. do 2 f_equal. lia.
Qed.

(** *** Items between commas *)

(** A reader reads [s] as [v], whatever follows it that may follow a value. *)
Definition reads (f : Parser → outcome (result Error (Value * Parser))) (d : Z) (s : list Z) (v : Value) : Prop :=
  ∀ p k, depth p = d → unread p (s ++ k) → delim k → f p = ok v (adv (length s) p).
Definition starts (s : list Z) : Prop := ∃ c k, s = c :: k ∧ is_ws c = false.

Lemma starts_ws p s k : starts s → unread p (s ++ k) → skip_ws p = p.
Proof. intros (c & r & -> & Hc) Hp. eapply skip_ws_left; [exact Hp|]. by intros ? [= <-]. Qed.
Lemma commas_cons s ss : ss ≠ [] → commas (s :: ss) = s ++ 44 :: commas ss.
Proof. destruct ss as [|s2 ss]; [done|]. done. Qed.
Lemma delim_cons c k : c = 44 ∨ c = 93 ∨ c = 125 → delim (c :: k).
Proof. by intros Hc ? [= <-]. Qed.

Lemma array_loop_left f p (xs : list (list Z * Value)) arr fuel n k : 0 ≤ depth p → xs ≠ [] → (length xs ≤ fuel)%nat →
  Forall (λ x, starts x.1 ∧ reads f (depth p + 1) x.1 x.2) xs →
  unread (adv n (deeper p)) (commas xs.*1 ++ 93 :: k) →
  array_loop f fuel arr (adv n (deeper p)) =
    ok (Array (arr ++ xs.*2)) (adv (n + length (commas xs.*1) + 1) p).
Proof.
  intros Hd Hne. revert arr fuel n Hne. induction xs as [|[s v] xs IH]; intros arr fuel n Hne Hfu Hxs Hp; [done|].
  destruct fuel as [|fuel]; [cbn in Hfu; lia|]. apply Forall_cons in Hxs as [[Hs Hr] Hxs]. cbn [fst snd] in *.
  cbn [array_loop fmap list_fmap fst snd] in *. fold (@fmap list _ _ _ fst xs) in *. fold (@fmap list _ _ _ snd xs) in *.
  destruct (decide (xs = [])) as [->|Hxne].
  - cbn [fmap list_fmap commas mbind list_bind] in *. rewrite app_nil_r in *.
    rewrite (starts_ws _ s (93 :: k)) by done. rewrite (Hr (adv n (deeper p)) (93 :: k)) by (done || apply delim_cons; auto).
    cbn [ok try_bind]. apply left_adv in Hp. rewrite (skip_ws_left _ _ Hp) by by intros ? [= <-].
    rewrite !(peek_is_left _ _ _ _ Hp). cbn [Z.eqb Pos.eqb]. rewrite adv_adv. by apply close_up.
  - rewrite commas_cons in * by by destruct xs. rewrite <-app_assoc in Hp. cbn [app] in Hp.
    rewrite (starts_ws _ s (44 :: (commas xs.*1 ++ 93 :: k))) by done.
    rewrite (Hr (adv n (deeper p)) (44 :: (commas xs.*1 ++ 93 :: k))) by (done || apply delim_cons; auto).
    cbn [ok try_bind]. apply left_adv in Hp. rewrite (skip_ws_left _ _ Hp) by by intros ? [= <-].
    rewrite !(peek_is_left _ _ _ _ Hp). cbn [Z.eqb Pos.eqb]. apply left_cons in Hp. rewrite !adv_adv in *.
    rewrite IH by (done || cbn in Hfu; lia). rewrite <-app_assoc, length_app. cbn [length app]. do 3 f_equal. lia.
Qed.

(** A member of an object: its key, its value's text and its value. *)
Definition member (x : list Z * list Z * Value) : list Z := write_json_string x.1.1 ++ [58] ++ x.1.2.
Definition entry (x : list Z * list Z * Value) : list Z * Value := (x.1.1, x.2).

Lemma quote_starts s k : starts (write_json_string s ++ k).
Proof. unfold write_json_string. by exists 34, (((s ≫= write_byte) ++ [34]) ++ k). Qed.
(** One turn up to the end of the value. *)
Lemma member_left f p x n k : 0 ≤ depth p → valid_utf8 x.1.1 = true → starts x.1.2 →
  reads f (depth p + 1) x.1.2 x.2 → delim k → unread (adv n (deeper p)) (member x ++ k) →
  ∀ g, (let p := skip_ws (adv n (deeper p)) in
    if negb (peek_is 34 p) then err p "expected string key in object" else
    '(key, p) ←? parse_string p;
    let p := skip_ws p in
    if negb (peek_is 58 p) then err p "expected ':' after key" else
    '(v, p) ←? f (skip_ws (adv 1 p)); g (key, v) p) = (g (entry x) (adv (n + length (member x)) (deeper p)) : outcome (result Error (Value * Parser))).
Proof.
  intros Hd Hv Hs Hr Hk Hp g. destruct x as [[key s] v]. unfold member, entry in *. cbn [fst snd] in *.
  rewrite <-!app_assoc in Hp. rewrite (skip_ws_left _ _ Hp) by (unfold write_json_string; by intros ? [= <-]).
  assert (peek_is 34 (adv n (deeper p)) = true) as -> by exact (peek_is_left 34 _ 34 _ Hp). cbn [negb].
  rewrite (parse_string_left key _ _ Hv Hp). cbn [ok try_bind]. apply left_adv in Hp. cbn [app] in Hp.
  rewrite (skip_ws_left _ _ Hp) by by intros ? [= <-]. rewrite (peek_is_left _ _ _ _ Hp). cbn [Z.eqb Pos.eqb negb].
  apply left_cons in Hp. rewrite (starts_ws _ s k) by done. rewrite (Hr _ k) by done. cbn [ok try_bind]. rewrite !adv_adv.
  rewrite !length_app. cbn [length]. do 2 f_equal.
Qed.
Lemma object_loop_left f p xs obj fuel n k : 0 ≤ depth p → xs ≠ [] → (length xs ≤ fuel)%nat →
  Forall (λ x, valid_utf8 x.1.1 = true ∧ starts x.1.2 ∧ reads f (depth p + 1) x.1.2 x.2) xs →
  unread (adv n (deeper p)) (commas (member <$> xs) ++ 125 :: k) →
  object_loop f fuel obj (adv n (deeper p)) =
    ok (Object (obj ++ (entry <$> xs))) (adv (n + length (commas (member <$> xs)) + 1) p).
Proof.
  intros Hd Hne. revert obj fuel n Hne. induction xs as [|x xs IH]; intros obj fuel n Hne Hfu Hxs Hp; [done|].
  destruct fuel as [|fuel]; [cbn in Hfu; lia|]. apply Forall_cons in Hxs as [(Hv & Hs & Hr) Hxs].
  cbn [object_loop]. change (member <$> x :: xs) with (member x :: (member <$> xs)) in *.
  change (entry <$> x :: xs) with (entry x :: (entry <$> xs)).
  set (g := λ (kv : list Z * Value) q, let obj := obj ++ [kv] in let q := skip_ws q in
    if peek_is 44 q then object_loop f fuel obj (adv 1 q)
    else if peek_is 125 q then close (Object obj) q else err q "expected ',' or '}' in object").
  destruct (decide (xs = [])) as [->|Hxne].
  - cbn [fmap list_fmap commas mbind list_bind] in *. rewrite app_nil_r in *.
    etransitivity; [exact (member_left f p x n (125 :: k) Hd Hv Hs Hr (delim_cons 125 k ltac:(auto)) Hp g)|]. subst g. cbn zeta beta.
    apply left_adv in Hp. rewrite adv_adv in Hp. rewrite (skip_ws_left _ _ Hp) by by intros ? [= <-].
    rewrite !(peek_is_left _ _ _ _ Hp). cbn [Z.eqb Pos.eqb]. by apply close_up.
  - rewrite commas_cons in * by by destruct xs. rewrite <-app_assoc in Hp. cbn [app] in Hp.
    etransitivity; [exact (member_left f p x n (44 :: _) Hd Hv Hs Hr (delim_cons 44 _ ltac:(auto)) Hp g)|]. subst g. cbn zeta beta.
    apply left_adv in Hp. rewrite adv_adv in Hp. rewrite (skip_ws_left _ _ Hp) by by intros ? [= <-].
    rewrite !(peek_is_left _ _ _ _ Hp). cbn [Z.eqb Pos.eqb]. apply left_cons in Hp. rewrite !adv_adv in *.
    rewrite IH by (done || cbn in Hfu; lia). rewrite <-app_assoc, length_app. cbn [length app]. do 3 f_equal. lia.
Qed.
End Reads.

(** ** The round trip *)

(** What the documentation of [f64] promises of a finite number: its [Display] is
    plain decimal with no exponent, and parsing that gives the number back. *)
Class Float64Laws `{Float64} := {
  show_shape x : is_finite x = true →
    ∃ sg ip fp, f64_show x = sg ++ ip ++ fp ∧ (sg = [] ∨ sg = [45]) ∧ decimal ip ∧ fractional fp;
  parse_show x : is_finite x = true → f64_parse (f64_show x) = Some x
}.

Section RoundTrip.
Context `{Float64Laws}.

(** What a value reads back as: itself, but for a float whose text has no
    fraction, which the parser prefers to take as an integer, and for one that is
    not finite, which is written as [null]. *)
Fixpoint reread (v : Value) : Value :=
  match v with
  | Float x =>
      if is_finite x then
        if existsb (Z.eqb 46) (f64_show x) then Float x
        else match parse_i64 (f64_show x) with Some n => Int n | None => Float x end
      else Null
  | Array a => Array (reread <$> a)
  | Object o => Object ((λ kv, (kv.1, reread kv.2)) <$> o)
  | _ => v
  end.

Lemma number_starts sg ip fp : sg = [] ∨ sg = [45] → decimal ip → ∃ c k, sg ++ ip ++ fp = c :: k ∧ (c = 45 ∨ is_ascii_digit c = true).
Proof.
  intros [->| ->] (Hd & Hne & _); [|eexists _, _; split; [done|by left]]. destruct ip as [|c ip]; [done|].
  apply Forall_cons in Hd as [Hc _]. eexists _, _. split; [done|by right].
Qed.
Lemma show_head v : ∃ c k, show v = c :: k ∧ is_ws c = false ∧ c ≠ 93.
Proof.
  assert (∀ sg ip fp, sg = [] ∨ sg = [45] → decimal ip → ∃ c k, sg ++ ip ++ fp = c :: k ∧ is_ws c = false ∧ c ≠ 93) as Hn.
  { intros sg ip fp Hsg Hip. destruct (number_starts sg ip fp Hsg Hip) as (c & k & E & Hc). exists c, k. split; [done|].
    assert (c = 45 ∨ 48 ≤ c ≤ 57) as Hr by (rewrite <-digit_range; done). unfold is_ws.
    rewrite !(proj2 (Z.eqb_neq c _)) by lia. split; [done|lia]. }
  destruct v as [|[]|n|x|s|a|o]; try (eexists _, _; split; [reflexivity|done]); cbn [show].
  - destruct (show_int_shape n) as (sg & ip & -> & Hsg & Hip). rewrite <-(app_nil_r ip). by apply Hn.
  - destruct (is_finite x) eqn:Hx; [|by eexists _, _].
    destruct (show_shape x Hx) as (sg & ip & fp & -> & Hsg & Hip & _). by apply Hn.
Qed.
Lemma show_starts v : starts (show v).
Proof. destruct (show_head v) as (c & k & -> & Hc & _). by exists c, k. Qed.

Lemma fraction_dot sg ip fp : sg = [] ∨ sg = [45] → decimal ip → fractional fp →
  existsb (Z.eqb 46) (sg ++ ip ++ fp) = bool_decide (fp ≠ []).
Proof.
  intros Hsg (Hd & _) Hfp. rewrite !existsb_app.
  assert (existsb (Z.eqb 46) sg = false) as -> by by destruct Hsg as [->| ->].
  assert (existsb (Z.eqb 46) ip = false) as ->.
  { clear -Hd. induction Hd as [|c ip Hc%digit_range _ IH]; [done|]. cbn [existsb]. rewrite IH.
    by rewrite (proj2 (Z.eqb_neq 46 c)) by lia. }
  by destruct Hfp as [->|(ds & -> & _)].
Qed.

(** A number's text is dispatched to [parse_number]. *)
Lemma parse_value_number fuel p c k : unread p (c :: k) → c = 45 ∨ is_ascii_digit c = true →
  parse_value (S fuel) p = parse_number p.
Proof.
  intros Hp Hc. cbn [parse_value]. rewrite (left_peek _ _ Hp). cbn [head].
  assert ((c =? 45) || is_ascii_digit c = true) as -> by (destruct Hc as [->| ->]; [done|by rewrite orb_true_r]).
  assert (c = 45 ∨ 48 ≤ c ≤ 57) as Hr by (rewrite <-digit_range; done).
  by rewrite !(proj2 (Z.eqb_neq c _)) by lia.
Qed.
Lemma int_reads n fuel d : i64_range n = true → reads (parse_value (S fuel)) d (show_int n) (Int n).
Proof.
  intros Hn p k _ Hp Hk. destruct (show_int_shape n) as (sg & ip & E & Hsg & Hip).
  destruct (number_starts sg ip [] Hsg Hip) as (c & r & Er & Hc). rewrite app_nil_r in Er.
  pose proof Hp as Hp'. rewrite E, Er in Hp'. rewrite (parse_value_number _ _ c (r ++ k)) by done.
  rewrite E in Hp. rewrite <-(app_nil_r ip) in Hp. rewrite (number_left p sg ip [] k) by (done || by left).
  cbn zeta. rewrite app_nil_r, <-E. rewrite bool_decide_false by (intros []; done). by rewrite parse_show_int.
Qed.
Lemma float_reads x fuel d : is_finite x = true → reads (parse_value (S fuel)) d (f64_show x) (reread (Float x)).
Proof.
  intros Hx p k _ Hp Hk. destruct (show_shape x Hx) as (sg & ip & fp & E & Hsg & Hip & Hfp).
  destruct (number_starts sg ip fp Hsg Hip) as (c & r & Er & Hc).
  pose proof Hp as Hp'. rewrite E, Er in Hp'. rewrite (parse_value_number _ _ c (r ++ k)) by done.
  rewrite E in Hp. rewrite (number_left p sg ip fp k) by done. cbn zeta.
  rewrite <-(fraction_dot sg ip fp) by done. rewrite <-E. cbn [reread]. rewrite Hx.
  unfold read_f64. rewrite parse_show by done. destruct (existsb _ _); [done|]. by destruct (parse_i64 _).
Qed.
Lemma null_reads fuel d : reads (parse_value (S fuel)) d (lit "null") Null.
Proof. intros p k _ Hp _. cbn [parse_value]. rewrite (left_peek _ _ Hp). exact (expect_lit_left (lit "null") Null p k Hp). Qed.
Lemma bool_reads x fuel d : reads (parse_value (S fuel)) d (show (Bool x)) (Bool x).
Proof.
  intros p k _ Hp _. pose proof (left_peek _ _ Hp) as Hc. destruct x.
  - change (peek p = Some 116) in Hc. transitivity (parse_bool p); [cbn [parse_value]; by rewrite Hc|].
    unfold parse_bool, peek_is. rewrite Hc. exact (expect_lit_left (lit "true") (Bool true) p k Hp).
  - change (peek p = Some 102) in Hc. transitivity (parse_bool p); [cbn [parse_value]; by rewrite Hc|].
    unfold parse_bool, peek_is. rewrite Hc. exact (expect_lit_left (lit "false") (Bool false) p k Hp).
Qed.

Lemma commas_length ss : Forall (λ s : list Z, s ≠ []) ss → (length ss ≤ length (commas ss))%nat.
Proof.
  intros Hs. destruct Hs as [|s ss Hs Hss]; [done|]. cbn [commas length]. rewrite length_app.
  assert (length ss ≤ length (ss ≫= λ s : list Z, 44%Z :: s))%nat as Hl.
  { clear -ss. induction ss as [|s ss IH]; [done|]. cbn [mbind list_bind]. rewrite length_app. cbn. lia. }
  destruct s; [done|]. cbn. lia.
Qed.

Lemma array_reads f a d : 0 ≤ d < 128 → Forall (λ v, reads f (d + 1) (show v) (reread v)) a →
  reads (parse_array f) d (show (Array a)) (reread (Array a)).
Proof.
  intros Hd Ha p k Edep Hp Hk. cbn [show reread] in *. unfold parse_array. rewrite enter_deeper by lia. cbn [ok try_bind].
  rewrite <-!app_assoc in Hp. cbn [app] in Hp. apply left_cons in Hp. apply left_deeper in Hp. change (deeper (adv 1 p)) with (adv 1 (deeper p)) in Hp.
  destruct a as [|v a].
  { rewrite (skip_ws_left _ _ Hp) by by intros ? [= <-]. rewrite (peek_is_left _ _ _ _ Hp). by apply close_up; lia. }
  destruct (show_head v) as (c & r & Ev & Hws & Hc).
  assert (∃ t, commas (show <$> v :: a) = c :: t) as [t Et] by (cbn; rewrite Ev; by eexists).
  rewrite (skip_ws_left _ _ Hp) by (rewrite Et; by intros ? [= <-]).
  assert (peek_is 93 (adv 1 (deeper p)) = false) as -> by (rewrite Et in Hp; rewrite (peek_is_left _ _ _ _ Hp); by apply Z.eqb_neq).
  set (xs := (λ v, (show v, reread v)) <$> v :: a).
  assert (xs.*1 = show <$> v :: a) as E1 by (subst xs; by rewrite <-list_fmap_compose).
  assert (xs.*2 = reread <$> v :: a) as E2 by (subst xs; by rewrite <-list_fmap_compose).
  rewrite <-E1 in Hp |- *. rewrite <-E2. pose proof (left_bound _ _ _ Hp) as Hb. cbn in Hb.
  rewrite (array_loop_left f p xs [] _ 1 k); [| lia | done | | | done].
  - rewrite !length_app. cbn [app length]. do 3 f_equal.
  - pose proof (commas_length xs.*1) as Hl. rewrite length_fmap in Hl. etransitivity; [apply Hl|cbn; lia].
    rewrite E1. apply Forall_fmap, Forall_true. intros w. cbn. by destruct (show_head w) as (? & ? & -> & _).
  - subst xs. apply Forall_fmap. rewrite Edep. eapply Forall_impl; [exact Ha|]. intros w Hw. split; [apply show_starts|done].
Qed.
Lemma object_reads f o d : 0 ≤ d < 128 →
  Forall (λ kv : list Z * Value, valid_utf8 kv.1 = true ∧ reads f (d + 1) (show kv.2) (reread kv.2)) o →
  reads (parse_object f) d (show (Object o)) (reread (Object o)).
Proof.
  intros Hd Ho p k Edep Hp Hk. cbn [show reread] in *. unfold parse_object. rewrite enter_deeper by lia. cbn [ok try_bind].
  rewrite <-!app_assoc in Hp. cbn [app] in Hp. apply left_cons in Hp. apply left_deeper in Hp. change (deeper (adv 1 p)) with (adv 1 (deeper p)) in Hp.
  destruct o as [|kv o].
  { rewrite (skip_ws_left _ _ Hp) by by intros ? [= <-]. rewrite (peek_is_left _ _ _ _ Hp). by apply close_up; lia. }
  set (xs := (λ kv : list Z * Value, (kv.1, show kv.2, reread kv.2)) <$> kv :: o).
  assert (member <$> xs = (λ kv, write_json_string kv.1 ++ [58] ++ show kv.2) <$> kv :: o) as E1
    by (subst xs; by rewrite <-list_fmap_compose).
  assert (entry <$> xs = (λ kv, (kv.1, reread kv.2)) <$> kv :: o) as E2 by (subst xs; by rewrite <-list_fmap_compose).
  assert (unread (adv 1 (deeper p)) (commas (member <$> xs) ++ 125 :: k)) as Hp' by (rewrite E1; exact Hp). clear Hp; rename Hp' into Hp.
  rewrite <-E1, <-E2.
  assert (∃ t, commas (member <$> xs) = 34 :: t) as [t Et] by by eexists.
  rewrite (skip_ws_left _ _ Hp) by (rewrite Et; by intros ? [= <-]).
  assert (peek_is 125 (adv 1 (deeper p)) = false) as -> by (rewrite Et in Hp; by rewrite (peek_is_left _ _ _ _ Hp)).
  pose proof (left_bound _ _ _ Hp) as Hb. cbn in Hb.
  rewrite (object_loop_left f p xs [] _ 1 k); [| lia | done | | | done].
  - rewrite !length_app. cbn [app length]. do 3 f_equal.
  - pose proof (commas_length (member <$> xs)) as Hl. rewrite length_fmap in Hl. etransitivity; [apply Hl|cbn; lia].
    apply Forall_fmap, Forall_true. intros w. done.
  - subst xs. apply Forall_fmap. rewrite Edep. eapply Forall_impl; [exact Ho|]. intros w [Hw1 Hw2].
    split; [done|]. split; [apply show_starts|done].
Qed.

Lemma height_array h a : (foldr (λ v h, Nat.max (height v) h) 0 a ≤ h)%nat → Forall (λ v, (height v ≤ h)%nat) a.
Proof. induction a as [|v a IH]; cbn [foldr]; intros Hh; constructor; [lia|apply IH; lia]. Qed.
Lemma height_object h (o : list (list Z * Value)) : (foldr (λ kv h, Nat.max (height kv.2) h) 0 o ≤ h)%nat →
  Forall (λ kv, (height kv.2 ≤ h)%nat) o.
Proof. induction o as [|v o IH]; cbn [foldr]; intros Hh; constructor; [lia|apply IH; lia]. Qed.

Lemma value_reads v fuel d : well_formed v = true → (height v < fuel)%nat → 0 ≤ d → d + Z.of_nat (height v) ≤ 128 →
  reads (parse_value fuel) d (show v) (reread v).
Proof.
  revert fuel d. induction v as [|x|n|x|s|a IH|o IH] using Value_nested_ind; intros fuel d Hw Hf Hd Hh;
    (destruct fuel as [|fuel]; [lia|]).
  - apply null_reads.
  - apply bool_reads.
  - by apply int_reads.
  - cbn [show]. destruct (is_finite x) eqn:Hx; [by apply float_reads|]. cbn [reread]. rewrite Hx. apply null_reads.
  - intros p k _ Hp _. transitivity ('(s, p) ←? parse_string p; ok (Str s) p).
    { cbn [parse_value]. by rewrite (left_peek _ _ Hp). }
    by rewrite (parse_string_left s p k).
  - cbn [height] in *. intros p k Edep Hp Hk. transitivity (parse_array (parse_value fuel) p).
    { cbn [parse_value]. by rewrite (left_peek _ _ Hp). }
    revert p k Edep Hp Hk. apply (array_reads (parse_value fuel) a d); [lia|]. cbn [well_formed] in Hw. apply forallb_Forall in Hw.
    pose proof (height_array (foldr (λ v h, Nat.max (height v) h) 0%nat a) a ltac:(lia)) as Hhs.
    apply Forall_forall. intros v Hv. rewrite Forall_forall in IH, Hw, Hhs. specialize (Hhs v Hv). apply IH; [done|auto|lia..].
  - cbn [height] in *. intros p k Edep Hp Hk. transitivity (parse_object (parse_value fuel) p).
    { cbn [parse_value]. by rewrite (left_peek _ _ Hp). }
    revert p k Edep Hp Hk. apply (object_reads (parse_value fuel) o d); [lia|]. cbn [well_formed] in Hw. apply forallb_Forall in Hw.
    pose proof (height_object (foldr (λ kv h, Nat.max (height kv.2) h) 0%nat o) o ltac:(lia)) as Hhs.
    apply Forall_forall. intros v Hv. rewrite Forall_forall in IH, Hw, Hhs. specialize (Hhs v Hv).
    specialize (Hw v Hv). apply andb_true_iff in Hw as [Hk1 Hw]. split; [done|]. apply IH; [done..|lia|lia|lia].
Qed.

(** C12: what the serializer writes the parser reads back: any well-formed value
    nested no deeper than the cap comes back as itself, strings with quotes,
    controls and non-ASCII text, keys in order and integers exactly included; only
    a float whose text is an integer within [i64] comes back as that integer and one
    that is not finite as [null]. *)
Theorem json_round_trip (v : Value) : well_formed v = true → Z.of_nat (height v) ≤ MAX_DEPTH →
  parse (show v) = Done (Ok (reread v)).
Proof.
  intros Hw Hh. unfold parse. unfold MAX_DEPTH in *. set (p := mkParser (show v) 0 0).
  assert (unread p (show v ++ [])) as Hp by (rewrite app_nil_r; split; [done|cbn; lia]).
  rewrite (starts_ws p (show v) []) by (done || apply show_starts).
  rewrite (value_reads v (S (Z.to_nat 128)) 0 Hw ltac:(lia) ltac:(lia) Hh p [] eq_refl Hp) by by intros ?.
  cbn [ok try_bind]. apply left_adv in Hp. rewrite (skip_ws_left _ _ Hp) by done. subst p. cbn [adv i b].
  by rewrite Nat.eqb_refl.
Qed.
End RoundTrip.

(** ** The nesting cap *)

Section Deep.
Context `{Float64}.

Lemma nested_refused m fuel p k : unread p (replicate (S m) 91 ++ k) → depth p = 128 - Z.of_nat m → 0 ≤ depth p → (m < fuel)%nat →
  parse_value fuel p = Done (Err (mkError (i p + m) "maximum nesting depth exceeded")).
Proof.
  revert fuel p. induction m as [|m IH]; intros fuel p Hp Hd Hpos Hf; (destruct fuel as [|fuel]; [lia|]);
    (transitivity (parse_array (parse_value fuel) p); [cbn [parse_value]; by rewrite (left_peek _ _ Hp)|]); unfold parse_array.
  - rewrite enter_refused by lia. by rewrite Nat.add_0_r.
  - rewrite enter_deeper by lia. cbn [ok try_bind]. change (replicate (S (S m)) 91) with (91 :: replicate (S m) 91) in Hp.
    cbn [app] in Hp. apply left_cons, left_deeper in Hp. change (deeper (adv 1 p)) with (adv 1 (deeper p)) in Hp.
    rewrite (skip_ws_left _ _ Hp) by by intros ? [= <-].
    assert (peek_is 93 (adv 1 (deeper p)) = false) as -> by exact (peek_is_left 93 _ 91 _ Hp).
    cbn [array_loop]. rewrite (skip_ws_left _ _ Hp) by by intros ? [= <-]. rewrite (IH fuel); [|done|cbn; lia|cbn; lia|lia].
    cbn. do 3 f_equal. lia.
Qed.

(** A stream that opens more arrays than the cap is refused where it passes
    the cap, before anything behind it is looked at. *)
Theorem deep_refused (k : list Z) :
  parse (replicate (S (Z.to_nat MAX_DEPTH)) 91 ++ k) =
    Done (Err (mkError (Z.to_nat MAX_DEPTH) "maximum nesting depth exceeded")).
Proof.
  unfold parse. set (p := mkParser _ 0 0).
  assert (unread p (replicate (S (Z.to_nat MAX_DEPTH)) 91 ++ k)) as Hp by (split; [done|cbn; lia]).
  rewrite (skip_ws_left _ _ Hp) by by intros ? [= <-].
  by rewrite (nested_refused _ _ p k Hp) by (done || lia).
Qed.
End Deep.

(** ** Numbers with one binary place

    A concrete instance of the interface: [n] stands for [n / 2]. *)

Definition half_show (n : Z) : list Z :=
  (if n <? 0 then [45] else []) ++ digits (Z.abs n / 2) ++ (if Z.odd n then [46; 53] else []).
Definition half_parse (s : list Z) : option Z :=
  let '(neg, t) := match s with c :: t => if c =? 45 then (true, t) else (false, s) | [] => (false, s) end in
  let m := value 0 (take (run is_ascii_digit t) t) in
  let sign n := if neg : bool then - n else n in
  match drop (run is_ascii_digit t) t with
  | [] => Some (sign (2 * m))
  | f => if bool_decide (f = [46; 53]) then Some (sign (2 * m + 1)) else None
  end.
#[local] Instance halves : Float64 := {|
  f64 := Z; f64_parse := half_parse; f64_show := half_show; is_finite _ := true;
  f64_to_i64 n := Z.quot n 2; f64_of_i64 n := 2 * n; f64_eqb := Z.eqb |}.

Lemma half_parse_show n : half_parse (half_show n) = Some n.
Proof.
  unfold half_parse, half_show. destruct (digits_ok (Z.abs n / 2)) as (Hd & Hne & Hv & _); [apply Z.div_pos; lia|].
  set (ds := digits _) in *. set (fp := if Z.odd n then _ else _).
  assert (run is_ascii_digit (ds ++ fp) = length ds) as Hr
    by (apply run_app; [done|]; intros c; subst fp; destruct (Z.odd n); cbn; [by intros [= <-]|done]).
  assert (Z.abs n = 2 * (Z.abs n / 2) + Z.b2z (Z.odd n)) as Hn.
  { assert (Z.odd (Z.abs n) = Z.odd n) as <- by by destruct n. rewrite <-Z.bit0_odd, Z.bit0_mod. apply Z.div_mod. lia. }
  assert ((match (if n <? 0 then [45] else []) ++ ds ++ fp with
    | c :: t => if c =? 45 then (true, t) else (false, (if n <? 0 then [45] else []) ++ ds ++ fp)
    | [] => (false, (if n <? 0 then [45] else []) ++ ds ++ fp) end) = (n <? 0, ds ++ fp)) as ->.
  { destruct (n <? 0); [done|]. destruct ds as [|c ds']; [done|]. apply Forall_cons in Hd as [Hc%digit_range _].
    cbn [app]. by rewrite (proj2 (Z.eqb_neq c 45)) by lia. }
  rewrite Hr, take_app_length, drop_app_length, Hv. subst fp. destruct (Z.odd n); cbn [Z.b2z] in Hn.
  - cbn. f_equal. destruct (Z.ltb_spec n 0); lia.
  - f_equal. destruct (Z.ltb_spec n 0); lia.
Qed.
#[local] Instance halves_laws : Float64Laws.
Proof.
  split.
  - intros n _. eexists _, (digits (Z.abs n / 2)), _. split; [reflexivity|]. split; [destruct (n <? 0); auto|].
    split; [apply digits_decimal, Z.div_pos; lia|]. destruct (Z.odd n); [|by left]. right. exists [53].
    split; [done|]. split; [by repeat constructor|done].
  - intros n _. apply half_parse_show.
Qed.

(** A request with every kind of value: a negative id, a quote, a control
    character, a two-byte and a four-byte character, a fraction and nesting. *)
Definition sample : Value :=
  Object [(lit "id", Int (-7)); (lit "ok", Bool true);
    (lit "p", Array [Float 3; Null; Str [34; 10; 1; 195; 169; 240; 159; 166; 152]; Array []; Object []])].
Lemma json_round_trip_witness :
  well_formed sample = true ∧ Z.of_nat (height sample) ≤ MAX_DEPTH ∧ parse (show sample) = Done (Ok (reread sample)) ∧
  reread sample = sample.
Proof.
  split; [reflexivity|]. split; [vm_compute; discriminate|]. split; [|reflexivity].
  apply json_round_trip; [reflexivity|vm_compute; discriminate].
Defined.

End JsonRound.
