(* ===== verification/VtBase.v ===== *)
(** * The terminal emulator: colours, cells, the pen and the paint hold (usr/lib/vt/src/lib.rs)

    The parts of the VT interpreter that stand alone: palettes and their text
    form, display widths, cells and boundary events, the SGR pen, and the hold on
    a synchronized frame's paint.  Code points and colours are [Z]. *)

From stdpp Require Import strings.
From S2P Require Import Prelude Digits Utf8.
Import Digits Utf8.
Open Scope Z_scope.

Module VtBase.

(** ** Palettes *)

Record Palette := mkPalette { p_bg : Z; p_fg : Z; p_ansi : list Z }.
#[global] Instance Palette_eq_dec : EqDecision Palette.
Proof. solve_decision. Defined.

Definition BG : Z := 4279110668.
Definition FG : Z := 4293189080.
Definition ANSI : list Z :=
  [4280950556; 4290797648; 4285176426; 4291340418; 4287273672; 4289239240; 4287281320; 4291345848;
   4284108360; 4292900928; 4290302104; 4292919440; 4288721120; 4290818272; 4288729280; 4293189080].
Definition BONFIRE : Palette := mkPalette BG FG ANSI.
Definition PARCHMENT : Palette := mkPalette 4294044384 4281017120
  [4282004270; 4288428584; 4282346303; 4287259936; 4282011270; 4285156998; 4281298530; 4285226840;
   4288318594; 4290004782; 4283334726; 4288706600; 4283065000; 4286471840; 4282025336; 4281017120].
Definition SPINIFEX : Palette := mkPalette 4278849290 4288665754
  [4280166942; 4291323984; 4284459103; 4290293872; 4286554280; 4288321720; 4286101664; 4287610762;
   4283062856; 4292900944; 4287156352; 4291872888; 4288200904; 4290293976; 4288207040; 4288665754].
(** The palettes of [THEMES]; their names are the configuration's. *)
Definition THEMES : list Palette := [BONFIRE; PARCHMENT; SPINIFEX].

(** The first entry of [old] that [c] is, taken from [new]. *)
Fixpoint remap_ansi (old new : list Z) (c : Z) : Z :=
  match old, new with
  | o :: old, n :: new => if c =? o then n else remap_ansi old new c
  | _, _ => c
  end.
Definition remap_color (old new : Palette) (c : Z) : Z :=
  if c =? p_fg old then p_fg new
  else if c =? p_bg old then p_bg new
  else remap_ansi (p_ansi old) (p_ansi new) c.

(** ** A palette as text *)

Definition from_digit (n : Z) : Z := if n <? 10 then 48 + n else 87 + n.
Definition to_digit (ch : Z) : option Z :=
  if within 48 57 ch then Some (ch - 48)
  else if within 97 102 ch then Some (ch - 87)
  else if within 65 70 ch then Some (ch - 55)
  else None.

(** The six digits of a colour; its alpha byte is dropped. *)
Definition put_color (c : Z) : list Z :=
  [16; 8; 0] ≫= λ shift,
    let byte := as_u 8 (Z.shiftr c shift) in [from_digit (Z.shiftr byte 4); from_digit (Z.land byte 15)].
Definition palette_to_spec (p : Palette) : list Z :=
  foldl (λ s c, (if bool_decide (s = []) then s else s ++ [44]) ++ put_color c) [] (p_bg p :: p_fg p :: p_ansi p).

(** [s.split(',')] of ASCII text. *)
Fixpoint split_comma (s : list Z) : list (list Z) :=
  match s with
  | [] => [[]]
  | c :: s =>
      if c =? 44 then [] :: split_comma s
      else match split_comma s with f :: fs => (c :: f) :: fs | [] => [[c]] end
  end.
Fixpoint read_hex (v : Z) (field : list Z) : option Z :=
  match field with
  | [] => Some v
  | ch :: field => d ← to_digit ch; read_hex (Z.lor (ushl 32 v 4) d) field
  end.
Fixpoint read_fields (vals : list Z) (fields : list (list Z)) : option (list Z) :=
  match fields with
  | [] => Some vals
  | field :: fields =>
      if (zlen vals =? 18) || negb (zlen field =? 6) then None else
      v ← read_hex 0 field; read_fields (vals ++ [Z.lor 4278190080 v]) fields
  end.
Definition palette_from_spec (s : list Z) : option Palette :=
  vals ← read_fields [] (split_comma s);
  match vals with
  | bg :: fg :: ansi => if zlen vals =? 18 then Some (mkPalette bg fg ansi) else None
  | _ => None
  end.

(** ** Display width *)

(** The search of a sorted table, its window halved at each turn. *)
Fixpoint search (fuel : nat) (cp : Z) (table : list (Z * Z)) (lo hi : Z) : outcome bool :=
  match fuel with
  | O => OutOfFuel
  | S fuel =>
      if lo <? hi then
        let mid := (lo + hi) / 2 in
        '(a, b) ← idx table mid;
        if cp <? a then search fuel cp table lo mid
        else if b <? cp then search fuel cp table (mid + 1) hi
        else Done true
      else Done false
  end.
Definition in_ranges (cp : Z) (table : list (Z * Z)) : outcome bool :=
  search (S (length table)) cp table 0 (zlen table).

Definition is_wide (cp : Z) : bool :=
  (4352 <=? cp) &&
  ((cp <=? 4447) || (cp =? 9001) || (cp =? 9002) || (within 11904 42191 cp && negb (cp =? 12351)) ||
   within 44032 55203 cp || within 63744 64255 cp || within 65040 65049 cp || within 65072 65135 cp ||
   within 65280 65376 cp || within 65504 65510 cp || within 127744 129791 cp || within 131072 262141 cp).

Definition COMBINING : list (Z * Z) :=
  [(768, 879); (1155, 1161); (1425, 1469); (1471, 1471); (1473, 1474); (1476, 1477); (1479, 1479); (1552,
   1562); (1611, 1631); (1648, 1648); (1750, 1756); (1759, 1764); (1767, 1768); (1770, 1773); (1809, 1809);
   (1840, 1866); (1958, 1968); (2027, 2035); (2070, 2073); (2075, 2083); (2085, 2087); (2089, 2093); (2137,
   2139); (2275, 2306); (2362, 2362); (2364, 2364); (2369, 2376); (2381, 2381); (2385, 2391); (2402, 2403);
   (2433, 2433); (2492, 2492); (2497, 2500); (2509, 2509); (2530, 2531); (2561, 2562); (2620, 2620); (2625,
   2626); (2631, 2632); (2635, 2637); (2672, 2673); (2677, 2677); (2689, 2690); (2748, 2748); (2753, 2757);
   (2759, 2760); (2765, 2765); (2786, 2787); (2817, 2817); (2876, 2876); (2879, 2879); (2881, 2884); (2893,
   2893); (2902, 2902); (2914, 2915); (2946, 2946); (3008, 3008); (3021, 3021); (3072, 3072); (3134, 3136);
   (3142, 3144); (3146, 3149); (3157, 3158); (3170, 3171); (3201, 3201); (3260, 3260); (3263, 3263); (3270,
   3270); (3276, 3277); (3298, 3299); (3329, 3329); (3393, 3396); (3405, 3405); (3426, 3427); (3530, 3530);
   (3538, 3540); (3542, 3542); (3633, 3633); (3636, 3642); (3655, 3662); (3761, 3761); (3764, 3769); (3771,
   3772); (3784, 3789); (3864, 3865); (3893, 3893); (3895, 3895); (3897, 3897); (3953, 3966); (3968, 3972);
   (3974, 3975); (3981, 3991); (3993, 4028); (4038, 4038); (4141, 4144); (4146, 4151); (4153, 4154); (4157,
   4158); (4184, 4185); (4190, 4192); (4209, 4212); (4226, 4226); (4229, 4230); (4237, 4237); (4253, 4253);
   (4957, 4959); (5906, 5908); (5938, 5940); (5970, 5971); (6002, 6003); (6068, 6069); (6071, 6077); (6086,
   6086); (6089, 6099); (6109, 6109); (6155, 6157); (6277, 6278); (6313, 6313); (6432, 6434); (6439, 6440);
   (6450, 6450); (6457, 6459); (6679, 6680); (6683, 6683); (6742, 6742); (6744, 6750); (6752, 6752); (6754,
   6754); (6757, 6764); (6771, 6780); (6783, 6783); (6832, 6846); (6912, 6915); (6964, 6964); (6966, 6970);
   (6972, 6972); (6978, 6978); (7019, 7027); (7040, 7041); (7074, 7077); (7080, 7081); (7083, 7085); (7142,
   7142); (7144, 7145); (7149, 7149); (7151, 7153); (7212, 7219); (7222, 7223); (7376, 7378); (7380, 7392);
   (7394, 7400); (7405, 7405); (7412, 7412); (7416, 7417); (7616, 7679); (8400, 8432); (11503, 11505);
   (11647, 11647); (11744, 11775); (12330, 12333); (12441, 12442); (42607, 42610); (42612, 42621); (42654,
   42655); (42736, 42737); (43010, 43010); (43014, 43014); (43019, 43019); (43045, 43046); (43204, 43205);
   (43232, 43249); (43302, 43309); (43335, 43345); (43392, 43394); (43443, 43443); (43446, 43449); (43452,
   43452); (43561, 43566); (43569, 43570); (43573, 43574); (43587, 43587); (43596, 43596); (43696, 43696);
   (43698, 43700); (43703, 43704); (43710, 43711); (43713, 43713); (43756, 43757); (43766, 43766); (44005,
   44005); (44008, 44008); (44013, 44013); (64286, 64286); (65024, 65039); (65056, 65071); (66045, 66045);
   (66272, 66272); (66422, 66426); (68097, 68099); (68101, 68102); (68108, 68111); (68152, 68154); (68159,
   68159); (68325, 68326); (69633, 69633); (69688, 69702); (69759, 69761); (69811, 69814); (69817, 69818);
   (69888, 69890); (69927, 69931); (69933, 69940); (70003, 70003); (70016, 70017); (70070, 70078); (71339,
   71339); (71341, 71341); (71344, 71349); (71351, 71351); (92912, 92916); (92976, 92982); (94095, 94098);
   (119143, 119145); (119163, 119170); (119173, 119179); (119210, 119213); (119362, 119364); (121344,
   121398); (121403, 121452); (121461, 121461); (121476, 121476); (121499, 121503); (121505, 121519);
   (917760, 917999)].

Definition char_width (c : Z) : outcome Z :=
  if c =? 0 then Done 0 else
  comb ← in_ranges c COMBINING;
  Done (if comb : bool then 0 else if is_wide c then 2 else 1).

(** ** Attributes, cells and boundaries *)

Definition ATTR_REVERSE : Z := 1.
Definition ATTR_UNDERLINE : Z := 2.
Definition ATTR_BOLD : Z := 4.
Definition ATTR_ITALIC : Z := 8.
Definition ATTR_DIM : Z := 16.
Definition ATTR_BLINK : Z := 32.
Definition ATTR_STRIKE : Z := 64.
Definition ATTR_WIDE : Z := 128.
(** [attrs & a != 0], [attrs |= a] and [attrs &= !a] of a [u8]. *)
Definition has (attrs a : Z) : bool := negb (Z.land attrs a =? 0).
Definition clear (attrs a : Z) : Z := Z.land attrs (255 - a).

Record Cell := mkCell { c_ch : Z; c_fg : Z; c_bg : Z; c_attrs : Z; c_span : Z }.
Definition blank (fg bg : Z) : Cell := mkCell 32 fg bg 0 0.

Inductive Boundary :=
  | Scroll (row : list Cell) (soft : bool)
  | Bell
  | ScreenErased
  | TopRestart
  | Sync (on : bool)
  | Osc (serial : Z) (body : list Z)
  | AltEnter (main : list Cell) (cursor : Z * Z)
  | AltLeave (main : list Cell) (soft : list bool) (cursor : Z * Z) (top : bool).

(** ** The SGR pen *)

Record SgrPen := mkPen { pen_fg : Z; pen_bg : Z; pen_attrs : Z }.
Definition pen_new (pal : Palette) : SgrPen := mkPen (p_fg pal) (p_bg pal) 0.

Definition rgb (r g b : Z) : Z :=
  Z.lor (Z.lor (Z.lor 4278190080 (ushl 32 r 16)) (ushl 32 g 8)) b.
Definition STEPS : list Z := [0; 95; 135; 175; 215; 255].
Definition xterm256 (pal : Palette) (n : Z) : outcome Z :=
  if within 0 15 n then idx (p_ansi pal) n
  else if within 16 231 n then
    let v := n - 16 in
    r ← idx STEPS (v / 36); g ← idx STEPS (v / 6 mod 6); b ← idx STEPS (v mod 6);
    Done (rgb r g b)
  else let g := 8 + 10 * (n - 232) in Done (rgb g g g).

Definition extended_color (pal : Palette) (params : list Z) (i : Z) : outcome (option Z * Z) :=
  if zlen params <=? i + 1 then Done (None, 0) else
  kind ← idx params (i + 1);
  if kind =? 2 then
    if i + 4 <? zlen params then
      r ← idx params (i + 2); g ← idx params (i + 3); b ← idx params (i + 4);
      Done (Some (rgb (Z.min r 255) (Z.min g 255) (Z.min b 255)), 4)
    else Done (None, zlen params - i - 1)
  else if kind =? 5 then
    if i + 2 <? zlen params then
      n ← idx params (i + 2); c ← xterm256 pal (as_u 8 n); Done (Some c, 2)
    else Done (None, 1)
  else Done (None, 1).

Definition pen_or (a : Z) (pen : SgrPen) : SgrPen := mkPen (pen_fg pen) (pen_bg pen) (Z.lor (pen_attrs pen) a).
Definition pen_clear (a : Z) (pen : SgrPen) : SgrPen := mkPen (pen_fg pen) (pen_bg pen) (clear (pen_attrs pen) a).
Definition with_fg (c : Z) (pen : SgrPen) : SgrPen := mkPen c (pen_bg pen) (pen_attrs pen).
Definition with_bg (c : Z) (pen : SgrPen) : SgrPen := mkPen (pen_fg pen) c (pen_attrs pen).
Definition ansi_fg (pal : Palette) (pen : SgrPen) (i : Z) : outcome Z :=
  if has (pen_attrs pen) ATTR_BOLD then idx (p_ansi pal) (i + 8) else idx (p_ansi pal) i.

(** One parameter of a list, at [i]: the pen and how many further ones it used. *)
Definition apply_one (pal : Palette) (params : list Z) (i : Z) (pen : SgrPen) : outcome (SgrPen * Z) :=
  v ← idx params i;
  let keep pen := Done (pen, 0) in
  if v =? 0 then keep (pen_new pal)
  else if v =? 1 then keep (pen_or ATTR_BOLD pen)
  else if v =? 2 then keep (pen_or ATTR_DIM pen)
  else if v =? 3 then keep (pen_or ATTR_ITALIC pen)
  else if v =? 4 then keep (pen_or ATTR_UNDERLINE pen)
  else if (v =? 5) || (v =? 6) then keep (pen_or ATTR_BLINK pen)
  else if v =? 7 then keep (pen_or ATTR_REVERSE pen)
  else if v =? 9 then keep (pen_or ATTR_STRIKE pen)
  else if v =? 22 then keep (pen_clear (Z.lor ATTR_BOLD ATTR_DIM) pen)
  else if v =? 23 then keep (pen_clear ATTR_ITALIC pen)
  else if v =? 24 then keep (pen_clear ATTR_UNDERLINE pen)
  else if v =? 25 then keep (pen_clear ATTR_BLINK pen)
  else if v =? 27 then keep (pen_clear ATTR_REVERSE pen)
  else if v =? 29 then keep (pen_clear ATTR_STRIKE pen)
  else if within 30 37 v then c ← ansi_fg pal pen (v - 30); keep (with_fg c pen)
  else if v =? 39 then keep (with_fg (p_fg pal) pen)
  else if within 40 47 v then c ← idx (p_ansi pal) (v - 40); keep (with_bg c pen)
  else if v =? 49 then keep (with_bg (p_bg pal) pen)
  else if within 90 97 v then c ← idx (p_ansi pal) (v - 90 + 8); keep (with_fg c pen)
  else if within 100 107 v then c ← idx (p_ansi pal) (v - 100 + 8); keep (with_bg c pen)
  else if (v =? 38) || (v =? 48) then
    '(color, used) ← extended_color pal params i;
    Done (match color with
          | Some c => if v =? 38 then with_fg c pen else with_bg c pen
          | None => pen
          end, used)
  else keep pen.
Fixpoint apply_loop (fuel : nat) (pal : Palette) (params : list Z) (i : Z) (pen : SgrPen) : outcome SgrPen :=
  match fuel with
  | O => OutOfFuel
  | S fuel =>
      if i <? zlen params then
        '(pen, used) ← apply_one pal params i pen;
        apply_loop fuel pal params (i + used + 1) pen
      else Done pen
  end.
Definition apply (pal : Palette) (params : list Z) (pen : SgrPen) : outcome SgrPen :=
  match params with
  | [] => Done (pen_new pal)
  | _ => apply_loop (S (length params)) pal params 0 pen
  end.

(** ** Decimal replies *)

Definition push_dec (out : list Z) (n : Z) : list Z := out ++ digits (Z.max n 1).
Definition push_u32 (out : list Z) (n : Z) : list Z := out ++ digits n.

(** ** The hold on a synchronized frame's paint *)

Definition SYNC_HOLD_NS : Z := 150000000.
Record FrameHold := mkHold { h_open : bool; since : Z; held : Z; expired : bool; h_cut : bool }.
Definition hold_new : FrameHold := mkHold false 0 0 false false.
Inductive Held :=
  | No | UntilClose (n : Z) | Cut (n : Z) | UntilTimeout (n : Z).

Definition open (h : FrameHold) : FrameHold := mkHold true (since h) (held h) (expired h) (h_cut h).
Definition close (h : FrameHold) : FrameHold := mkHold false (since h) (held h) (expired h) (h_cut h).
Definition cut (h : FrameHold) : FrameHold := mkHold false (since h) (held h) (expired h) (h_cut h || h_open h).

Definition holds (now : Z) (h : FrameHold) : outcome (bool * FrameHold) :=
  if negb (h_open h) || (now =? 0) then Done (false, h) else
  let s := if since h =? 0 then now else since h in
  let released := mkHold false s (held h) true (h_cut h) in
  if now <? s then Done (false, released) else
  waited ← usub now s;
  if SYNC_HOLD_NS <=? waited then Done (false, released)
  else Done (true, mkHold true s (sat_add 32 (held h) 1) (expired h) (h_cut h)).

Definition waiting (h : FrameHold) : bool := h_open h && negb (since h =? 0).
Definition painted (h : FrameHold) : Held * FrameHold :=
  (if held h =? 0 then No
   else if expired h then UntilTimeout (held h)
   else if h_cut h || h_open h then Cut (held h)
   else UntilClose (held h),
   mkHold (h_open h) 0 0 false false).
Definition div_ceil (a b : Z) : Z := (a + b - 1) / b.
Definition due_ms (now : Z) (h : FrameHold) : option Z :=
  if negb (waiting h) then None
  else if (now =? 0) || (now <? since h) then Some 0
  else Some (as_i 32 (div_ceil (sat_sub (sat_add 64 (since h) SYNC_HOLD_NS) now) 1000000)).

End VtBase.
