(* ===== verification/Vt.v ===== *)
(** * The terminal emulator: the byte machine (usr/lib/vt/src/lib.rs, [impl Vt])

    The state of a screen and every operation a byte of the stream runs on it.
    Positions and sizes are [usize]s kept as [Z]: a subtraction that would go
    below zero, an index and a slice out of range are panics; a sum or product of
    them is always one of an index or is bounded by the screen, so one past 64
    bits is already out of range. *)

From stdpp Require Import strings.
From S2P Require Import Prelude Digits Utf8 VtBase.
Import Digits Utf8 VtBase.
Open Scope Z_scope.

Module Vt.

(** ** Buffers *)

(** [for c in l[a..b].iter_mut() { *c = x; }] *)
Definition fill {A} (l : list A) (a b : Z) (x : A) : outcome (list A) :=
  s ← slice l a b; copy_from_slice l a b (replicate (length s) x).
(** [l.copy_within(a..b, d)] *)
Definition copy_within {A} (l : list A) (a b d : Z) : outcome (list A) :=
  s ← slice l a b; copy_from_slice l d (d + zlen s) s.
(** [for r in a..b { ... }], and [for _ in 0..n { ... }]. *)
Definition for_range {S} (a b : Z) (f : Z → S → outcome S) (s : S) : outcome S :=
  foldM (λ s r, f r s) s (seqZ a (b - a)).
Definition repeat {S} (n : Z) (f : S → outcome S) (s : S) : outcome S := for_range 0 n (λ _, f) s.

(** ** State *)

Inductive State := Ground | Esc | EscCharset | Csi | InOsc | OscEsc.
Definition MAX_PARAMS : Z := 16.
Definition OSC_MAX : Z := 256.
Definition OSC_BEACON_MAX : Z := 2048.

Record Vt := mkVt {
  cols : Z; rows : Z; pal : Palette; cells : list Cell; alt_cells : list Cell; on_alt : bool; cx : Z; cy : Z;
  cursor_visible : bool; fg : Z; bg : Z; attrs : Z; span : Z; span_serial : Z; state : State; params : list Z;
  nparams : Z; cur_param : Z; param_seen : bool; csi_marker : Z; csi_inter : Z; csi_bad : bool; saved : (Z *
  Z); scroll_top : Z; scroll_bot : Z; origin : bool; wrap : bool; saved_wrap : bool; reply : list Z;
  settings_req : list (list Z); osc_buf : list Z; osc_over : bool; utf_acc : Z; utf_rem : Z; dirty : list
  bool; wrapped : list bool; alt_wrapped : list bool; top_continues : bool; capture_events : bool; pending :
  list Boundary; app_cursor : bool; sync : bool; sync_frames : Z
}.

(** A field written. *)
Definition set_cols (x : Z) (v : Vt) : Vt :=
  mkVt x (rows v) (pal v) (cells v) (alt_cells v) (on_alt v) (cx v) (cy v) (cursor_visible v) (fg v) (bg v)
    (attrs v) (span v) (span_serial v) (state v) (params v) (nparams v) (cur_param v) (param_seen v) (csi_marker
    v) (csi_inter v) (csi_bad v) (saved v) (scroll_top v) (scroll_bot v) (origin v) (wrap v) (saved_wrap v)
    (reply v) (settings_req v) (osc_buf v) (osc_over v) (utf_acc v) (utf_rem v) (dirty v) (wrapped v)
    (alt_wrapped v) (top_continues v) (capture_events v) (pending v) (app_cursor v) (sync v) (sync_frames v).
Definition set_rows (x : Z) (v : Vt) : Vt :=
  mkVt (cols v) x (pal v) (cells v) (alt_cells v) (on_alt v) (cx v) (cy v) (cursor_visible v) (fg v) (bg v)
    (attrs v) (span v) (span_serial v) (state v) (params v) (nparams v) (cur_param v) (param_seen v) (csi_marker
    v) (csi_inter v) (csi_bad v) (saved v) (scroll_top v) (scroll_bot v) (origin v) (wrap v) (saved_wrap v)
    (reply v) (settings_req v) (osc_buf v) (osc_over v) (utf_acc v) (utf_rem v) (dirty v) (wrapped v)
    (alt_wrapped v) (top_continues v) (capture_events v) (pending v) (app_cursor v) (sync v) (sync_frames v).
Definition set_pal (x : Palette) (v : Vt) : Vt :=
  mkVt (cols v) (rows v) x (cells v) (alt_cells v) (on_alt v) (cx v) (cy v) (cursor_visible v) (fg v) (bg v)
    (attrs v) (span v) (span_serial v) (state v) (params v) (nparams v) (cur_param v) (param_seen v) (csi_marker
    v) (csi_inter v) (csi_bad v) (saved v) (scroll_top v) (scroll_bot v) (origin v) (wrap v) (saved_wrap v)
    (reply v) (settings_req v) (osc_buf v) (osc_over v) (utf_acc v) (utf_rem v) (dirty v) (wrapped v)
    (alt_wrapped v) (top_continues v) (capture_events v) (pending v) (app_cursor v) (sync v) (sync_frames v).
Definition set_cells (x : list Cell) (v : Vt) : Vt :=
  mkVt (cols v) (rows v) (pal v) x (alt_cells v) (on_alt v) (cx v) (cy v) (cursor_visible v) (fg v) (bg v)
    (attrs v) (span v) (span_serial v) (state v) (params v) (nparams v) (cur_param v) (param_seen v) (csi_marker
    v) (csi_inter v) (csi_bad v) (saved v) (scroll_top v) (scroll_bot v) (origin v) (wrap v) (saved_wrap v)
    (reply v) (settings_req v) (osc_buf v) (osc_over v) (utf_acc v) (utf_rem v) (dirty v) (wrapped v)
    (alt_wrapped v) (top_continues v) (capture_events v) (pending v) (app_cursor v) (sync v) (sync_frames v).
Definition set_alt_cells (x : list Cell) (v : Vt) : Vt :=
  mkVt (cols v) (rows v) (pal v) (cells v) x (on_alt v) (cx v) (cy v) (cursor_visible v) (fg v) (bg v) (attrs v)
    (span v) (span_serial v) (state v) (params v) (nparams v) (cur_param v) (param_seen v) (csi_marker v)
    (csi_inter v) (csi_bad v) (saved v) (scroll_top v) (scroll_bot v) (origin v) (wrap v) (saved_wrap v) (reply
    v) (settings_req v) (osc_buf v) (osc_over v) (utf_acc v) (utf_rem v) (dirty v) (wrapped v) (alt_wrapped v)
    (top_continues v) (capture_events v) (pending v) (app_cursor v) (sync v) (sync_frames v).
Definition set_on_alt (x : bool) (v : Vt) : Vt :=
  mkVt (cols v) (rows v) (pal v) (cells v) (alt_cells v) x (cx v) (cy v) (cursor_visible v) (fg v) (bg v) (attrs
    v) (span v) (span_serial v) (state v) (params v) (nparams v) (cur_param v) (param_seen v) (csi_marker v)
    (csi_inter v) (csi_bad v) (saved v) (scroll_top v) (scroll_bot v) (origin v) (wrap v) (saved_wrap v) (reply
    v) (settings_req v) (osc_buf v) (osc_over v) (utf_acc v) (utf_rem v) (dirty v) (wrapped v) (alt_wrapped v)
    (top_continues v) (capture_events v) (pending v) (app_cursor v) (sync v) (sync_frames v).
Definition set_cx (x : Z) (v : Vt) : Vt :=
  mkVt (cols v) (rows v) (pal v) (cells v) (alt_cells v) (on_alt v) x (cy v) (cursor_visible v) (fg v) (bg v)
    (attrs v) (span v) (span_serial v) (state v) (params v) (nparams v) (cur_param v) (param_seen v) (csi_marker
    v) (csi_inter v) (csi_bad v) (saved v) (scroll_top v) (scroll_bot v) (origin v) (wrap v) (saved_wrap v)
    (reply v) (settings_req v) (osc_buf v) (osc_over v) (utf_acc v) (utf_rem v) (dirty v) (wrapped v)
    (alt_wrapped v) (top_continues v) (capture_events v) (pending v) (app_cursor v) (sync v) (sync_frames v).
Definition set_cy (x : Z) (v : Vt) : Vt :=
  mkVt (cols v) (rows v) (pal v) (cells v) (alt_cells v) (on_alt v) (cx v) x (cursor_visible v) (fg v) (bg v)
    (attrs v) (span v) (span_serial v) (state v) (params v) (nparams v) (cur_param v) (param_seen v) (csi_marker
    v) (csi_inter v) (csi_bad v) (saved v) (scroll_top v) (scroll_bot v) (origin v) (wrap v) (saved_wrap v)
    (reply v) (settings_req v) (osc_buf v) (osc_over v) (utf_acc v) (utf_rem v) (dirty v) (wrapped v)
    (alt_wrapped v) (top_continues v) (capture_events v) (pending v) (app_cursor v) (sync v) (sync_frames v).
Definition set_cursor_visible (x : bool) (v : Vt) : Vt :=
  mkVt (cols v) (rows v) (pal v) (cells v) (alt_cells v) (on_alt v) (cx v) (cy v) x (fg v) (bg v) (attrs v)
    (span v) (span_serial v) (state v) (params v) (nparams v) (cur_param v) (param_seen v) (csi_marker v)
    (csi_inter v) (csi_bad v) (saved v) (scroll_top v) (scroll_bot v) (origin v) (wrap v) (saved_wrap v) (reply
    v) (settings_req v) (osc_buf v) (osc_over v) (utf_acc v) (utf_rem v) (dirty v) (wrapped v) (alt_wrapped v)
    (top_continues v) (capture_events v) (pending v) (app_cursor v) (sync v) (sync_frames v).
Definition set_fg (x : Z) (v : Vt) : Vt :=
  mkVt (cols v) (rows v) (pal v) (cells v) (alt_cells v) (on_alt v) (cx v) (cy v) (cursor_visible v) x (bg v)
    (attrs v) (span v) (span_serial v) (state v) (params v) (nparams v) (cur_param v) (param_seen v) (csi_marker
    v) (csi_inter v) (csi_bad v) (saved v) (scroll_top v) (scroll_bot v) (origin v) (wrap v) (saved_wrap v)
    (reply v) (settings_req v) (osc_buf v) (osc_over v) (utf_acc v) (utf_rem v) (dirty v) (wrapped v)
    (alt_wrapped v) (top_continues v) (capture_events v) (pending v) (app_cursor v) (sync v) (sync_frames v).
Definition set_bg (x : Z) (v : Vt) : Vt :=
  mkVt (cols v) (rows v) (pal v) (cells v) (alt_cells v) (on_alt v) (cx v) (cy v) (cursor_visible v) (fg v) x
    (attrs v) (span v) (span_serial v) (state v) (params v) (nparams v) (cur_param v) (param_seen v) (csi_marker
    v) (csi_inter v) (csi_bad v) (saved v) (scroll_top v) (scroll_bot v) (origin v) (wrap v) (saved_wrap v)
    (reply v) (settings_req v) (osc_buf v) (osc_over v) (utf_acc v) (utf_rem v) (dirty v) (wrapped v)
    (alt_wrapped v) (top_continues v) (capture_events v) (pending v) (app_cursor v) (sync v) (sync_frames v).
Definition set_attrs (x : Z) (v : Vt) : Vt :=
  mkVt (cols v) (rows v) (pal v) (cells v) (alt_cells v) (on_alt v) (cx v) (cy v) (cursor_visible v) (fg v) (bg
    v) x (span v) (span_serial v) (state v) (params v) (nparams v) (cur_param v) (param_seen v) (csi_marker v)
    (csi_inter v) (csi_bad v) (saved v) (scroll_top v) (scroll_bot v) (origin v) (wrap v) (saved_wrap v) (reply
    v) (settings_req v) (osc_buf v) (osc_over v) (utf_acc v) (utf_rem v) (dirty v) (wrapped v) (alt_wrapped v)
    (top_continues v) (capture_events v) (pending v) (app_cursor v) (sync v) (sync_frames v).
Definition set_span (x : Z) (v : Vt) : Vt :=
  mkVt (cols v) (rows v) (pal v) (cells v) (alt_cells v) (on_alt v) (cx v) (cy v) (cursor_visible v) (fg v) (bg
    v) (attrs v) x (span_serial v) (state v) (params v) (nparams v) (cur_param v) (param_seen v) (csi_marker v)
    (csi_inter v) (csi_bad v) (saved v) (scroll_top v) (scroll_bot v) (origin v) (wrap v) (saved_wrap v) (reply
    v) (settings_req v) (osc_buf v) (osc_over v) (utf_acc v) (utf_rem v) (dirty v) (wrapped v) (alt_wrapped v)
    (top_continues v) (capture_events v) (pending v) (app_cursor v) (sync v) (sync_frames v).
Definition set_span_serial (x : Z) (v : Vt) : Vt :=
  mkVt (cols v) (rows v) (pal v) (cells v) (alt_cells v) (on_alt v) (cx v) (cy v) (cursor_visible v) (fg v) (bg
    v) (attrs v) (span v) x (state v) (params v) (nparams v) (cur_param v) (param_seen v) (csi_marker v)
    (csi_inter v) (csi_bad v) (saved v) (scroll_top v) (scroll_bot v) (origin v) (wrap v) (saved_wrap v) (reply
    v) (settings_req v) (osc_buf v) (osc_over v) (utf_acc v) (utf_rem v) (dirty v) (wrapped v) (alt_wrapped v)
    (top_continues v) (capture_events v) (pending v) (app_cursor v) (sync v) (sync_frames v).
Definition set_state (x : State) (v : Vt) : Vt :=
  mkVt (cols v) (rows v) (pal v) (cells v) (alt_cells v) (on_alt v) (cx v) (cy v) (cursor_visible v) (fg v) (bg
    v) (attrs v) (span v) (span_serial v) x (params v) (nparams v) (cur_param v) (param_seen v) (csi_marker v)
    (csi_inter v) (csi_bad v) (saved v) (scroll_top v) (scroll_bot v) (origin v) (wrap v) (saved_wrap v) (reply
    v) (settings_req v) (osc_buf v) (osc_over v) (utf_acc v) (utf_rem v) (dirty v) (wrapped v) (alt_wrapped v)
    (top_continues v) (capture_events v) (pending v) (app_cursor v) (sync v) (sync_frames v).
Definition set_params (x : list Z) (v : Vt) : Vt :=
  mkVt (cols v) (rows v) (pal v) (cells v) (alt_cells v) (on_alt v) (cx v) (cy v) (cursor_visible v) (fg v) (bg
    v) (attrs v) (span v) (span_serial v) (state v) x (nparams v) (cur_param v) (param_seen v) (csi_marker v)
    (csi_inter v) (csi_bad v) (saved v) (scroll_top v) (scroll_bot v) (origin v) (wrap v) (saved_wrap v) (reply
    v) (settings_req v) (osc_buf v) (osc_over v) (utf_acc v) (utf_rem v) (dirty v) (wrapped v) (alt_wrapped v)
    (top_continues v) (capture_events v) (pending v) (app_cursor v) (sync v) (sync_frames v).
Definition set_nparams (x : Z) (v : Vt) : Vt :=
  mkVt (cols v) (rows v) (pal v) (cells v) (alt_cells v) (on_alt v) (cx v) (cy v) (cursor_visible v) (fg v) (bg
    v) (attrs v) (span v) (span_serial v) (state v) (params v) x (cur_param v) (param_seen v) (csi_marker v)
    (csi_inter v) (csi_bad v) (saved v) (scroll_top v) (scroll_bot v) (origin v) (wrap v) (saved_wrap v) (reply
    v) (settings_req v) (osc_buf v) (osc_over v) (utf_acc v) (utf_rem v) (dirty v) (wrapped v) (alt_wrapped v)
    (top_continues v) (capture_events v) (pending v) (app_cursor v) (sync v) (sync_frames v).
Definition set_cur_param (x : Z) (v : Vt) : Vt :=
  mkVt (cols v) (rows v) (pal v) (cells v) (alt_cells v) (on_alt v) (cx v) (cy v) (cursor_visible v) (fg v) (bg
    v) (attrs v) (span v) (span_serial v) (state v) (params v) (nparams v) x (param_seen v) (csi_marker v)
    (csi_inter v) (csi_bad v) (saved v) (scroll_top v) (scroll_bot v) (origin v) (wrap v) (saved_wrap v) (reply
    v) (settings_req v) (osc_buf v) (osc_over v) (utf_acc v) (utf_rem v) (dirty v) (wrapped v) (alt_wrapped v)
    (top_continues v) (capture_events v) (pending v) (app_cursor v) (sync v) (sync_frames v).
Definition set_param_seen (x : bool) (v : Vt) : Vt :=
  mkVt (cols v) (rows v) (pal v) (cells v) (alt_cells v) (on_alt v) (cx v) (cy v) (cursor_visible v) (fg v) (bg
    v) (attrs v) (span v) (span_serial v) (state v) (params v) (nparams v) (cur_param v) x (csi_marker v)
    (csi_inter v) (csi_bad v) (saved v) (scroll_top v) (scroll_bot v) (origin v) (wrap v) (saved_wrap v) (reply
    v) (settings_req v) (osc_buf v) (osc_over v) (utf_acc v) (utf_rem v) (dirty v) (wrapped v) (alt_wrapped v)
    (top_continues v) (capture_events v) (pending v) (app_cursor v) (sync v) (sync_frames v).
Definition set_csi_marker (x : Z) (v : Vt) : Vt :=
  mkVt (cols v) (rows v) (pal v) (cells v) (alt_cells v) (on_alt v) (cx v) (cy v) (cursor_visible v) (fg v) (bg
    v) (attrs v) (span v) (span_serial v) (state v) (params v) (nparams v) (cur_param v) (param_seen v) x
    (csi_inter v) (csi_bad v) (saved v) (scroll_top v) (scroll_bot v) (origin v) (wrap v) (saved_wrap v) (reply
    v) (settings_req v) (osc_buf v) (osc_over v) (utf_acc v) (utf_rem v) (dirty v) (wrapped v) (alt_wrapped v)
    (top_continues v) (capture_events v) (pending v) (app_cursor v) (sync v) (sync_frames v).
Definition set_csi_inter (x : Z) (v : Vt) : Vt :=
  mkVt (cols v) (rows v) (pal v) (cells v) (alt_cells v) (on_alt v) (cx v) (cy v) (cursor_visible v) (fg v) (bg
    v) (attrs v) (span v) (span_serial v) (state v) (params v) (nparams v) (cur_param v) (param_seen v)
    (csi_marker v) x (csi_bad v) (saved v) (scroll_top v) (scroll_bot v) (origin v) (wrap v) (saved_wrap v)
    (reply v) (settings_req v) (osc_buf v) (osc_over v) (utf_acc v) (utf_rem v) (dirty v) (wrapped v)
    (alt_wrapped v) (top_continues v) (capture_events v) (pending v) (app_cursor v) (sync v) (sync_frames v).
Definition set_csi_bad (x : bool) (v : Vt) : Vt :=
  mkVt (cols v) (rows v) (pal v) (cells v) (alt_cells v) (on_alt v) (cx v) (cy v) (cursor_visible v) (fg v) (bg
    v) (attrs v) (span v) (span_serial v) (state v) (params v) (nparams v) (cur_param v) (param_seen v)
    (csi_marker v) (csi_inter v) x (saved v) (scroll_top v) (scroll_bot v) (origin v) (wrap v) (saved_wrap v)
    (reply v) (settings_req v) (osc_buf v) (osc_over v) (utf_acc v) (utf_rem v) (dirty v) (wrapped v)
    (alt_wrapped v) (top_continues v) (capture_events v) (pending v) (app_cursor v) (sync v) (sync_frames v).
Definition set_saved (x : (Z * Z)) (v : Vt) : Vt :=
  mkVt (cols v) (rows v) (pal v) (cells v) (alt_cells v) (on_alt v) (cx v) (cy v) (cursor_visible v) (fg v) (bg
    v) (attrs v) (span v) (span_serial v) (state v) (params v) (nparams v) (cur_param v) (param_seen v)
    (csi_marker v) (csi_inter v) (csi_bad v) x (scroll_top v) (scroll_bot v) (origin v) (wrap v) (saved_wrap v)
    (reply v) (settings_req v) (osc_buf v) (osc_over v) (utf_acc v) (utf_rem v) (dirty v) (wrapped v)
    (alt_wrapped v) (top_continues v) (capture_events v) (pending v) (app_cursor v) (sync v) (sync_frames v).
Definition set_scroll_top (x : Z) (v : Vt) : Vt :=
  mkVt (cols v) (rows v) (pal v) (cells v) (alt_cells v) (on_alt v) (cx v) (cy v) (cursor_visible v) (fg v) (bg
    v) (attrs v) (span v) (span_serial v) (state v) (params v) (nparams v) (cur_param v) (param_seen v)
    (csi_marker v) (csi_inter v) (csi_bad v) (saved v) x (scroll_bot v) (origin v) (wrap v) (saved_wrap v)
    (reply v) (settings_req v) (osc_buf v) (osc_over v) (utf_acc v) (utf_rem v) (dirty v) (wrapped v)
    (alt_wrapped v) (top_continues v) (capture_events v) (pending v) (app_cursor v) (sync v) (sync_frames v).
Definition set_scroll_bot (x : Z) (v : Vt) : Vt :=
  mkVt (cols v) (rows v) (pal v) (cells v) (alt_cells v) (on_alt v) (cx v) (cy v) (cursor_visible v) (fg v) (bg
    v) (attrs v) (span v) (span_serial v) (state v) (params v) (nparams v) (cur_param v) (param_seen v)
    (csi_marker v) (csi_inter v) (csi_bad v) (saved v) (scroll_top v) x (origin v) (wrap v) (saved_wrap v)
    (reply v) (settings_req v) (osc_buf v) (osc_over v) (utf_acc v) (utf_rem v) (dirty v) (wrapped v)
    (alt_wrapped v) (top_continues v) (capture_events v) (pending v) (app_cursor v) (sync v) (sync_frames v).
Definition set_origin (x : bool) (v : Vt) : Vt :=
  mkVt (cols v) (rows v) (pal v) (cells v) (alt_cells v) (on_alt v) (cx v) (cy v) (cursor_visible v) (fg v) (bg
    v) (attrs v) (span v) (span_serial v) (state v) (params v) (nparams v) (cur_param v) (param_seen v)
    (csi_marker v) (csi_inter v) (csi_bad v) (saved v) (scroll_top v) (scroll_bot v) x (wrap v) (saved_wrap v)
    (reply v) (settings_req v) (osc_buf v) (osc_over v) (utf_acc v) (utf_rem v) (dirty v) (wrapped v)
    (alt_wrapped v) (top_continues v) (capture_events v) (pending v) (app_cursor v) (sync v) (sync_frames v).
Definition set_wrap (x : bool) (v : Vt) : Vt :=
  mkVt (cols v) (rows v) (pal v) (cells v) (alt_cells v) (on_alt v) (cx v) (cy v) (cursor_visible v) (fg v) (bg
    v) (attrs v) (span v) (span_serial v) (state v) (params v) (nparams v) (cur_param v) (param_seen v)
    (csi_marker v) (csi_inter v) (csi_bad v) (saved v) (scroll_top v) (scroll_bot v) (origin v) x (saved_wrap v)
    (reply v) (settings_req v) (osc_buf v) (osc_over v) (utf_acc v) (utf_rem v) (dirty v) (wrapped v)
    (alt_wrapped v) (top_continues v) (capture_events v) (pending v) (app_cursor v) (sync v) (sync_frames v).
Definition set_saved_wrap (x : bool) (v : Vt) : Vt :=
  mkVt (cols v) (rows v) (pal v) (cells v) (alt_cells v) (on_alt v) (cx v) (cy v) (cursor_visible v) (fg v) (bg
    v) (attrs v) (span v) (span_serial v) (state v) (params v) (nparams v) (cur_param v) (param_seen v)
    (csi_marker v) (csi_inter v) (csi_bad v) (saved v) (scroll_top v) (scroll_bot v) (origin v) (wrap v) x
    (reply v) (settings_req v) (osc_buf v) (osc_over v) (utf_acc v) (utf_rem v) (dirty v) (wrapped v)
    (alt_wrapped v) (top_continues v) (capture_events v) (pending v) (app_cursor v) (sync v) (sync_frames v).
Definition set_reply (x : list Z) (v : Vt) : Vt :=
  mkVt (cols v) (rows v) (pal v) (cells v) (alt_cells v) (on_alt v) (cx v) (cy v) (cursor_visible v) (fg v) (bg
    v) (attrs v) (span v) (span_serial v) (state v) (params v) (nparams v) (cur_param v) (param_seen v)
    (csi_marker v) (csi_inter v) (csi_bad v) (saved v) (scroll_top v) (scroll_bot v) (origin v) (wrap v)
    (saved_wrap v) x (settings_req v) (osc_buf v) (osc_over v) (utf_acc v) (utf_rem v) (dirty v) (wrapped v)
    (alt_wrapped v) (top_continues v) (capture_events v) (pending v) (app_cursor v) (sync v) (sync_frames v).
Definition set_settings_req (x : list (list Z)) (v : Vt) : Vt :=
  mkVt (cols v) (rows v) (pal v) (cells v) (alt_cells v) (on_alt v) (cx v) (cy v) (cursor_visible v) (fg v) (bg
    v) (attrs v) (span v) (span_serial v) (state v) (params v) (nparams v) (cur_param v) (param_seen v)
    (csi_marker v) (csi_inter v) (csi_bad v) (saved v) (scroll_top v) (scroll_bot v) (origin v) (wrap v)
    (saved_wrap v) (reply v) x (osc_buf v) (osc_over v) (utf_acc v) (utf_rem v) (dirty v) (wrapped v)
    (alt_wrapped v) (top_continues v) (capture_events v) (pending v) (app_cursor v) (sync v) (sync_frames v).
Definition set_osc_buf (x : list Z) (v : Vt) : Vt :=
  mkVt (cols v) (rows v) (pal v) (cells v) (alt_cells v) (on_alt v) (cx v) (cy v) (cursor_visible v) (fg v) (bg
    v) (attrs v) (span v) (span_serial v) (state v) (params v) (nparams v) (cur_param v) (param_seen v)
    (csi_marker v) (csi_inter v) (csi_bad v) (saved v) (scroll_top v) (scroll_bot v) (origin v) (wrap v)
    (saved_wrap v) (reply v) (settings_req v) x (osc_over v) (utf_acc v) (utf_rem v) (dirty v) (wrapped v)
    (alt_wrapped v) (top_continues v) (capture_events v) (pending v) (app_cursor v) (sync v) (sync_frames v).
Definition set_osc_over (x : bool) (v : Vt) : Vt :=
  mkVt (cols v) (rows v) (pal v) (cells v) (alt_cells v) (on_alt v) (cx v) (cy v) (cursor_visible v) (fg v) (bg
    v) (attrs v) (span v) (span_serial v) (state v) (params v) (nparams v) (cur_param v) (param_seen v)
    (csi_marker v) (csi_inter v) (csi_bad v) (saved v) (scroll_top v) (scroll_bot v) (origin v) (wrap v)
    (saved_wrap v) (reply v) (settings_req v) (osc_buf v) x (utf_acc v) (utf_rem v) (dirty v) (wrapped v)
    (alt_wrapped v) (top_continues v) (capture_events v) (pending v) (app_cursor v) (sync v) (sync_frames v).
Definition set_utf_acc (x : Z) (v : Vt) : Vt :=
  mkVt (cols v) (rows v) (pal v) (cells v) (alt_cells v) (on_alt v) (cx v) (cy v) (cursor_visible v) (fg v) (bg
    v) (attrs v) (span v) (span_serial v) (state v) (params v) (nparams v) (cur_param v) (param_seen v)
    (csi_marker v) (csi_inter v) (csi_bad v) (saved v) (scroll_top v) (scroll_bot v) (origin v) (wrap v)
    (saved_wrap v) (reply v) (settings_req v) (osc_buf v) (osc_over v) x (utf_rem v) (dirty v) (wrapped v)
    (alt_wrapped v) (top_continues v) (capture_events v) (pending v) (app_cursor v) (sync v) (sync_frames v).
Definition set_utf_rem (x : Z) (v : Vt) : Vt :=
  mkVt (cols v) (rows v) (pal v) (cells v) (alt_cells v) (on_alt v) (cx v) (cy v) (cursor_visible v) (fg v) (bg
    v) (attrs v) (span v) (span_serial v) (state v) (params v) (nparams v) (cur_param v) (param_seen v)
    (csi_marker v) (csi_inter v) (csi_bad v) (saved v) (scroll_top v) (scroll_bot v) (origin v) (wrap v)
    (saved_wrap v) (reply v) (settings_req v) (osc_buf v) (osc_over v) (utf_acc v) x (dirty v) (wrapped v)
    (alt_wrapped v) (top_continues v) (capture_events v) (pending v) (app_cursor v) (sync v) (sync_frames v).
Definition set_dirty (x : list bool) (v : Vt) : Vt :=
  mkVt (cols v) (rows v) (pal v) (cells v) (alt_cells v) (on_alt v) (cx v) (cy v) (cursor_visible v) (fg v) (bg
    v) (attrs v) (span v) (span_serial v) (state v) (params v) (nparams v) (cur_param v) (param_seen v)
    (csi_marker v) (csi_inter v) (csi_bad v) (saved v) (scroll_top v) (scroll_bot v) (origin v) (wrap v)
    (saved_wrap v) (reply v) (settings_req v) (osc_buf v) (osc_over v) (utf_acc v) (utf_rem v) x (wrapped v)
    (alt_wrapped v) (top_continues v) (capture_events v) (pending v) (app_cursor v) (sync v) (sync_frames v).
Definition set_wrapped (x : list bool) (v : Vt) : Vt :=
  mkVt (cols v) (rows v) (pal v) (cells v) (alt_cells v) (on_alt v) (cx v) (cy v) (cursor_visible v) (fg v) (bg
    v) (attrs v) (span v) (span_serial v) (state v) (params v) (nparams v) (cur_param v) (param_seen v)
    (csi_marker v) (csi_inter v) (csi_bad v) (saved v) (scroll_top v) (scroll_bot v) (origin v) (wrap v)
    (saved_wrap v) (reply v) (settings_req v) (osc_buf v) (osc_over v) (utf_acc v) (utf_rem v) (dirty v) x
    (alt_wrapped v) (top_continues v) (capture_events v) (pending v) (app_cursor v) (sync v) (sync_frames v).
Definition set_alt_wrapped (x : list bool) (v : Vt) : Vt :=
  mkVt (cols v) (rows v) (pal v) (cells v) (alt_cells v) (on_alt v) (cx v) (cy v) (cursor_visible v) (fg v) (bg
    v) (attrs v) (span v) (span_serial v) (state v) (params v) (nparams v) (cur_param v) (param_seen v)
    (csi_marker v) (csi_inter v) (csi_bad v) (saved v) (scroll_top v) (scroll_bot v) (origin v) (wrap v)
    (saved_wrap v) (reply v) (settings_req v) (osc_buf v) (osc_over v) (utf_acc v) (utf_rem v) (dirty v)
    (wrapped v) x (top_continues v) (capture_events v) (pending v) (app_cursor v) (sync v) (sync_frames v).
Definition set_top_continues (x : bool) (v : Vt) : Vt :=
  mkVt (cols v) (rows v) (pal v) (cells v) (alt_cells v) (on_alt v) (cx v) (cy v) (cursor_visible v) (fg v) (bg
    v) (attrs v) (span v) (span_serial v) (state v) (params v) (nparams v) (cur_param v) (param_seen v)
    (csi_marker v) (csi_inter v) (csi_bad v) (saved v) (scroll_top v) (scroll_bot v) (origin v) (wrap v)
    (saved_wrap v) (reply v) (settings_req v) (osc_buf v) (osc_over v) (utf_acc v) (utf_rem v) (dirty v)
    (wrapped v) (alt_wrapped v) x (capture_events v) (pending v) (app_cursor v) (sync v) (sync_frames v).
Definition set_capture_events (x : bool) (v : Vt) : Vt :=
  mkVt (cols v) (rows v) (pal v) (cells v) (alt_cells v) (on_alt v) (cx v) (cy v) (cursor_visible v) (fg v) (bg
    v) (attrs v) (span v) (span_serial v) (state v) (params v) (nparams v) (cur_param v) (param_seen v)
    (csi_marker v) (csi_inter v) (csi_bad v) (saved v) (scroll_top v) (scroll_bot v) (origin v) (wrap v)
    (saved_wrap v) (reply v) (settings_req v) (osc_buf v) (osc_over v) (utf_acc v) (utf_rem v) (dirty v)
    (wrapped v) (alt_wrapped v) (top_continues v) x (pending v) (app_cursor v) (sync v) (sync_frames v).
Definition set_pending (x : list Boundary) (v : Vt) : Vt :=
  mkVt (cols v) (rows v) (pal v) (cells v) (alt_cells v) (on_alt v) (cx v) (cy v) (cursor_visible v) (fg v) (bg
    v) (attrs v) (span v) (span_serial v) (state v) (params v) (nparams v) (cur_param v) (param_seen v)
    (csi_marker v) (csi_inter v) (csi_bad v) (saved v) (scroll_top v) (scroll_bot v) (origin v) (wrap v)
    (saved_wrap v) (reply v) (settings_req v) (osc_buf v) (osc_over v) (utf_acc v) (utf_rem v) (dirty v)
    (wrapped v) (alt_wrapped v) (top_continues v) (capture_events v) x (app_cursor v) (sync v) (sync_frames v).
Definition set_app_cursor (x : bool) (v : Vt) : Vt :=
  mkVt (cols v) (rows v) (pal v) (cells v) (alt_cells v) (on_alt v) (cx v) (cy v) (cursor_visible v) (fg v) (bg
    v) (attrs v) (span v) (span_serial v) (state v) (params v) (nparams v) (cur_param v) (param_seen v)
    (csi_marker v) (csi_inter v) (csi_bad v) (saved v) (scroll_top v) (scroll_bot v) (origin v) (wrap v)
    (saved_wrap v) (reply v) (settings_req v) (osc_buf v) (osc_over v) (utf_acc v) (utf_rem v) (dirty v)
    (wrapped v) (alt_wrapped v) (top_continues v) (capture_events v) (pending v) x (sync v) (sync_frames v).
Definition set_sync (x : bool) (v : Vt) : Vt :=
  mkVt (cols v) (rows v) (pal v) (cells v) (alt_cells v) (on_alt v) (cx v) (cy v) (cursor_visible v) (fg v) (bg
    v) (attrs v) (span v) (span_serial v) (state v) (params v) (nparams v) (cur_param v) (param_seen v)
    (csi_marker v) (csi_inter v) (csi_bad v) (saved v) (scroll_top v) (scroll_bot v) (origin v) (wrap v)
    (saved_wrap v) (reply v) (settings_req v) (osc_buf v) (osc_over v) (utf_acc v) (utf_rem v) (dirty v)
    (wrapped v) (alt_wrapped v) (top_continues v) (capture_events v) (pending v) (app_cursor v) x (sync_frames
    v).
Definition set_sync_frames (x : Z) (v : Vt) : Vt :=
  mkVt (cols v) (rows v) (pal v) (cells v) (alt_cells v) (on_alt v) (cx v) (cy v) (cursor_visible v) (fg v) (bg
    v) (attrs v) (span v) (span_serial v) (state v) (params v) (nparams v) (cur_param v) (param_seen v)
    (csi_marker v) (csi_inter v) (csi_bad v) (saved v) (scroll_top v) (scroll_bot v) (origin v) (wrap v)
    (saved_wrap v) (reply v) (settings_req v) (osc_buf v) (osc_over v) (utf_acc v) (utf_rem v) (dirty v)
    (wrapped v) (alt_wrapped v) (top_continues v) (capture_events v) (pending v) (app_cursor v) (sync v) x.

Definition push_event (e : Boundary) (v : Vt) : Vt := set_pending (pending v ++ [e]) v.
(** [if self.capture_events { self.pending.push(e) }] *)
Definition note (e : Boundary) (v : Vt) : Vt := if capture_events v then push_event e v else v.

Definition with_palette (cols rows : Z) (pal : Palette) : outcome Vt :=
  let cols := Z.max cols 1 in
  let rows := Z.max rows 1 in
  n ← umul 64 cols rows;
  bot ← usub rows 1;
  let grid := replicate (Z.to_nat n) (blank (p_fg pal) (p_bg pal)) in
  let flags := replicate (Z.to_nat rows) false in
  Done (mkVt cols rows pal grid grid false 0 0 true (p_fg pal) (p_bg pal) 0 0 0 Ground
    (replicate (Z.to_nat MAX_PARAMS) 0) 0 0 false 0 0 false (0, 0) 0 bot false true true [] [] [] false 0 0
    (replicate (Z.to_nat rows) true) flags flags false false [] false false 0).
Definition new (cols rows : Z) : outcome Vt := with_palette cols rows BONFIRE.

(** The accessors a renderer reads. *)
Definition top_continues_now (v : Vt) : bool := negb (on_alt v) && top_continues v.
Definition main_wrapped (v : Vt) : list bool := if on_alt v then alt_wrapped v else wrapped v.
Definition set_capture (on : bool) (v : Vt) : Vt := set_pending [] (set_capture_events on v).

(** ** Damage and rows *)

Definition mark (row : Z) (v : Vt) : outcome Vt :=
  if row <? rows v then d ← set_idx (dirty v) row true; Done (set_dirty d v) else Done v.
Definition mark_all (v : Vt) : Vt := set_dirty (replicate (length (dirty v)) true) v.
Definition set_soft (row : Z) (soft : bool) (v : Vt) : outcome Vt :=
  w ← set_idx (wrapped v) row soft; Done (set_wrapped w v).
(** The blank an erase leaves: the default ink on the pen's ground. *)
Definition erased (v : Vt) : Cell := blank (p_fg (pal v)) (bg v).
(** Blanks [cells[a..b]]. *)
Definition erase (a b : Z) (v : Vt) : outcome Vt :=
  c ← fill (cells v) a b (erased v); Done (set_cells c v).
Definition erase_all (v : Vt) : Vt :=
  set_wrapped (replicate (length (wrapped v)) false) (set_cells (replicate (length (cells v)) (erased v)) v).
Definition move_cells (a b d : Z) (v : Vt) : outcome Vt :=
  c ← copy_within (cells v) a b d; Done (set_cells c v).
Definition move_soft (a b d : Z) (v : Vt) : outcome Vt :=
  w ← copy_within (wrapped v) a b d; Done (set_wrapped w v).

Definition restart_top (v : Vt) : Vt :=
  if on_alt v then v else
  set_top_continues false (if top_continues v && capture_events v then push_event TopRestart v else v).

Definition scroll_up (v : Vt) : outcome Vt :=
  let cols := cols v in
  let top := scroll_top v in
  let bot := scroll_bot v in
  v ← (if capture_events v && negb (on_alt v) && (top =? 0) then
         row ← slice (cells v) 0 cols; w ← idx (wrapped v) 0; Done (push_event (Scroll row w) v)
       else Done v);
  v ← (if negb (on_alt v) && (top =? 0) then w ← idx (wrapped v) 0; Done (set_top_continues w v) else Done v);
  v ← move_cells ((top + 1) * cols) ((bot + 1) * cols) (top * cols) v;
  v ← move_soft (top + 1) (bot + 1) top v;
  v ← set_soft bot false v;
  v ← erase (bot * cols) ((bot + 1) * cols) v;
  Done (mark_all v).
Definition scroll_down (v : Vt) : outcome Vt :=
  let cols := cols v in
  let top := scroll_top v in
  let bot := scroll_bot v in
  let v := if top =? 0 then restart_top v else v in
  v ← move_cells (top * cols) (bot * cols) ((top + 1) * cols) v;
  v ← move_soft top bot (top + 1) v;
  v ← set_soft top false v;
  v ← erase (top * cols) ((top + 1) * cols) v;
  Done (mark_all v).
Definition scroll_region_up (n : Z) (v : Vt) : outcome Vt :=
  h ← usub (scroll_bot v) (scroll_top v);
  repeat (Z.min n (h + 1)) scroll_up v.
Definition scroll_region_down (n : Z) (v : Vt) : outcome Vt :=
  h ← usub (scroll_bot v) (scroll_top v);
  repeat (Z.min n (h + 1)) scroll_down v.

Definition line_feed (v : Vt) : outcome Vt :=
  if cy v =? scroll_bot v then scroll_up v
  else if cy v + 1 <? rows v then Done (set_cy (cy v + 1) v)
  else Done v.

(** ** Glyphs *)

Definition write_cell (cx cy ch a : Z) (v : Vt) : outcome Vt :=
  let ink := if has a ATTR_BOLD && (fg v =? p_fg (pal v)) then p_fg (pal v) else fg v in
  c ← set_idx (cells v) (cy * cols v + cx) (mkCell ch ink (bg v) a (span v));
  mark cy (set_cells c v).

(** The row filled: it ends softly and the cursor goes to the next. *)
Definition autowrap (v : Vt) : outcome Vt :=
  v ← set_soft (cy v) true v;
  line_feed (set_cx 0 v).

(** The glyph of width [w] where the cursor is, which has room for it. *)
Definition place (ch w : Z) (autowrapped : bool) (v : Vt) : outcome Vt :=
  let x := cx v in
  let y := cy v in
  v ← (if x =? 0 then
         v ← set_soft y false v;
         Done (if (y =? 0) && negb autowrapped then restart_top v else v)
       else Done v);
  v ← write_cell x y ch (if w =? 2 then Z.lor (attrs v) ATTR_WIDE else attrs v) v;
  v ← (if w =? 2 then write_cell (x + 1) y 32 (attrs v) v else Done v);
  Done (set_cx (cx v + w) v).

Definition put_char (ch : Z) (v : Vt) : outcome Vt :=
  w ← char_width ch;
  if w =? 0 then Done v else
  let w := if (w =? 2) && (cols v <? 2) then 1 else w in
  last ← usub (cols v) 1;
  '(v, autowrapped) ←
    (if cols v <=? cx v then
       if wrap v then v ← autowrap v; Done (v, true) else Done (set_cx last v, false)
     else Done (v, false));
  if (w =? 2) && (cols v <=? cx v + 1) then
    if wrap v then v ← autowrap v; place ch w true v
    else v ← write_cell last (cy v) ch (attrs v) v; Done (set_cx last v)
  else place ch w autowrapped v.

(** ** Erasing and editing *)

Definition last_text_row (v : Vt) : outcome (option Z) :=
  find_mapM (λ r,
    row ← slice (cells v) (r * cols v) ((r + 1) * cols v);
    Done (if existsb (λ c, negb (c_ch c =? 32)) row then Some r else None)) (rev (seqZ 0 (rows v))).
Definition screen_to_history (v : Vt) : outcome Vt :=
  if negb (capture_events v) || on_alt v then Done v else
  last ← last_text_row v;
  match last with
  | None => Done v
  | Some last =>
      for_range 0 (last + 1) (λ r v,
        w ← (if r <? last then idx (wrapped v) r else Done false);
        row ← slice (cells v) (r * cols v) ((r + 1) * cols v);
        Done (push_event (Scroll row w) v)) v
  end.
Definition note_screen_erased (v : Vt) : Vt :=
  if capture_events v && negb (on_alt v) then push_event ScreenErased v else v.

Definition erase_display (mode : Z) (v : Vt) : outcome Vt :=
  if 3 <? mode then Done v else
  last ← usub (cols v) 1;
  let cur := cy v * cols v + Z.min (cx v) last in
  let whole := 2 <=? mode in
  v ← (if whole then screen_to_history v else Done v);
  let v := if negb (mode =? 0) || (cur =? 0) then restart_top v else v in
  v ← (if mode =? 0 then
         v ← erase cur (zlen (cells v)) v;
         for_range (cy v) (rows v) (λ r v, v ← mark r v; set_soft r false v) v
       else if mode =? 1 then
         v ← erase 0 (cur + 1) v;
         v ← for_range 0 (cy v + 1) mark v;
         for_range 0 (cy v) (λ r, set_soft r false) v
       else Done (mark_all (erase_all v)));
  Done (if whole then note_screen_erased v else v).

Definition erase_line (mode : Z) (v : Vt) : outcome Vt :=
  last ← usub (cols v) 1;
  let row := cy v * cols v in
  let x := Z.min (cx v) last in
  let '(a, b) := if mode =? 0 then (x, cols v) else if mode =? 1 then (0, x + 1) else (0, cols v) in
  let v := if (cy v =? 0) && (a =? 0) then restart_top v else v in
  v ← erase (row + a) (row + b) v;
  v ← (if b =? cols v then set_soft (cy v) false v else Done v);
  mark (cy v) v.

Definition insert_lines (n : Z) (v : Vt) : outcome Vt :=
  let y := cy v in
  let bot := scroll_bot v in
  if (y <? scroll_top v) || (bot <? y) then Done v else
  h ← usub (bot + 1) y;
  let n := Z.min n h in
  if n =? 0 then Done v else
  let v := if y =? 0 then restart_top v else v in
  let cols := cols v in
  let start := y * cols in
  let stop := (bot + 1) * cols in
  from ← usub stop (n * cols);
  end_ ← usub (bot + 1) n;
  v ← move_cells start from (start + n * cols) v;
  v ← move_soft y end_ (y + n) v;
  v ← for_range y (y + n) (λ r, set_soft r false) v;
  v ← erase start (start + n * cols) v;
  for_range y (bot + 1) mark v.
Definition delete_lines (n : Z) (v : Vt) : outcome Vt :=
  let y := cy v in
  let bot := scroll_bot v in
  if (y <? scroll_top v) || (bot <? y) then Done v else
  h ← usub (bot + 1) y;
  let n := Z.min n h in
  if n =? 0 then Done v else
  let v := if y =? 0 then restart_top v else v in
  let cols := cols v in
  let start := y * cols in
  let stop := (bot + 1) * cols in
  from ← usub stop (n * cols);
  end_ ← usub (bot + 1) n;
  v ← move_cells (start + n * cols) stop start v;
  v ← move_soft (y + n) (bot + 1) y v;
  v ← for_range end_ (bot + 1) (λ r, set_soft r false) v;
  v ← erase from stop v;
  for_range y (bot + 1) mark v.

Definition insert_chars (n : Z) (v : Vt) : outcome Vt :=
  room ← usub (cols v) (cx v);
  let n := Z.min n room in
  if n =? 0 then Done v else
  let row := cy v * cols v in
  let a := row + cx v in
  from ← usub (row + cols v) n;
  v ← move_cells a from (a + n) v;
  v ← erase a (a + n) v;
  mark (cy v) v.
Definition delete_chars (n : Z) (v : Vt) : outcome Vt :=
  room ← usub (cols v) (cx v);
  let n := Z.min n room in
  if n =? 0 then Done v else
  let row := cy v * cols v in
  let a := row + cx v in
  let b := row + cols v in
  v ← move_cells (a + n) b a v;
  from ← usub b n;
  v ← erase from b v;
  mark (cy v) v.
Definition erase_chars (n : Z) (v : Vt) : outcome Vt :=
  room ← usub (cols v) (cx v);
  let n := Z.min n room in
  let row := cy v * cols v in
  v ← erase (row + cx v) (row + cx v + n) v;
  mark (cy v) v.

(** ** Modes and reports *)

Definition set_sync_mode (on : bool) (v : Vt) : Vt :=
  if eqb (sync v) on then v else
  let v := set_sync on v in
  let v := if on then set_sync_frames (as_u 32 (sync_frames v + 1)) v else v in
  note (Sync on) v.

(** The saved cursor, within the screen. *)
Definition restore_cursor (v : Vt) : outcome Vt :=
  right ← usub (cols v) 1;
  bottom ← usub (rows v) 1;
  Done (set_cy (Z.min (saved v).2 bottom) (set_cx (Z.min (saved v).1 right) v)).

Definition swap_screens (v : Vt) : Vt :=
  set_alt_wrapped (wrapped v) (set_wrapped (alt_wrapped v) (set_alt_cells (cells v) (set_cells (alt_cells v) v))).
Definition alt_screen (enter : bool) (v : Vt) : outcome Vt :=
  if eqb enter (on_alt v) then Done v else
  let v := set_on_alt enter (swap_screens v) in
  v ← (if enter then
         let v := erase_all v in
         Done (set_cy 0 (set_cx 0 (set_saved_wrap (wrap v) (set_saved (cx v, cy v) v))))
       else
         v ← restore_cursor v; Done (set_wrap (saved_wrap v) v));
  let v := note (if enter then AltEnter (alt_cells v) (saved v)
                 else AltLeave (cells v) (wrapped v) (cx v, cy v) (top_continues v)) v in
  Done (mark_all v).

Definition one_mode (set : bool) (m : Z) (v : Vt) : outcome Vt :=
  if m =? 1 then Done (set_app_cursor set v)
  else if m =? 6 then
    let v := set_cx 0 (set_origin set v) in
    Done (set_cy (if set then scroll_top v else 0) v)
  else if m =? 7 then Done (set_wrap set v)
  else if m =? 25 then Done (set_cursor_visible set v)
  else if (m =? 47) || (m =? 1047) || (m =? 1049) then alt_screen set v
  else if m =? 2026 then Done (set_sync_mode set v)
  else Done v.
Definition mode_set (set : bool) (v : Vt) : outcome Vt :=
  for_range 0 (nparams v) (λ i v, m ← idx (params v) i; one_mode set m v) v.

(** [self.p(i, default)] of an [i] within the array. *)
Definition param (i : nat) (default : Z) (v : Vt) : Z :=
  let x := nth i (params v) 0 in
  if (Z.of_nat i <? nparams v) && negb (x =? 0) then x else default.

Definition device_status (v : Vt) : outcome Vt :=
  if negb (param 0 0 v =? 6) then Done v else
  last ← usub (cols v) 1;
  let out := push_dec (reply v ++ [27; 91]) (cy v + 1) in
  Done (set_reply (push_dec (out ++ [59]) (Z.min (cx v) last + 1) ++ [82]) v).

Definition flag (on : bool) : Z := if on then 1 else 2.
Definition report_mode (dec : bool) (v : Vt) : Vt :=
  let mode := param 0 0 v in
  let pm :=
    if negb dec then 0
    else if mode =? 1 then flag (app_cursor v)
    else if mode =? 6 then flag (origin v)
    else if mode =? 7 then flag (wrap v)
    else if mode =? 25 then flag (cursor_visible v)
    else if (mode =? 47) || (mode =? 1047) || (mode =? 1049) then flag (on_alt v)
    else if mode =? 2026 then flag (sync v)
    else 0 in
  let out := reply v ++ [27; 91] ++ (if dec then [63] else []) in
  set_reply (push_u32 out mode ++ [59; 48 + pm; 36; 121]) v.

Definition sgr (v : Vt) : outcome Vt :=
  ps ← slice (params v) 0 (nparams v);
  pen ← apply (pal v) ps (mkPen (fg v) (bg v) (attrs v));
  Done (set_attrs (pen_attrs pen) (set_bg (pen_bg pen) (set_fg (pen_fg pen) v))).

Definition origin_row (row : Z) (v : Vt) : outcome Z :=
  if origin v then Done (Z.min (scroll_top v + row) (scroll_bot v))
  else bottom ← usub (rows v) 1; Done (Z.min row bottom).

(** ** Control sequences *)

Definition set_region (v : Vt) : outcome Vt :=
  top ← usub (Z.max (param 0 1 v) 1) 1;
  bot ← usub (param 1 (as_u 32 (rows v)) v) 1;
  bottom ← usub (rows v) 1;
  let v := if (top <? bot) && (bot <? rows v) then set_scroll_bot bot (set_scroll_top top v)
           else set_scroll_bot bottom (set_scroll_top 0 v) in
  let v := set_cx 0 v in
  Done (set_cy (if origin v then scroll_top v else 0) v).

Definition column (i : nat) (v : Vt) : outcome Vt :=
  x ← usub (param i 1 v) 1; last ← usub (cols v) 1; Done (set_cx (Z.min x last) v).
Definition goto_row (v : Vt) : outcome Vt :=
  r ← usub (param 0 1 v) 1; y ← origin_row r v; Done (set_cy y v).

Definition dispatch_plain (fin : Z) (v : Vt) : outcome Vt :=
  let n := param 0 1 v in
  if fin =? 65 then Done (set_cy (sat_sub (cy v) n) v)
  else if fin =? 66 then bottom ← usub (rows v) 1; Done (set_cy (Z.min (cy v + n) bottom) v)
  else if fin =? 67 then last ← usub (cols v) 1; Done (set_cx (Z.min (cx v + n) last) v)
  else if fin =? 68 then Done (set_cx (sat_sub (cx v) n) v)
  else if fin =? 71 then column 0 v
  else if fin =? 100 then goto_row v
  else if (fin =? 72) || (fin =? 102) then v ← goto_row v; column 1 v
  else if fin =? 74 then erase_display (param 0 0 v) v
  else if fin =? 75 then erase_line (param 0 0 v) v
  else if fin =? 76 then insert_lines n v
  else if fin =? 77 then delete_lines n v
  else if fin =? 64 then insert_chars n v
  else if fin =? 80 then delete_chars n v
  else if fin =? 88 then erase_chars n v
  else if fin =? 83 then scroll_region_up n v
  else if (fin =? 84) && (nparams v <=? 1) then scroll_region_down n v
  else if fin =? 109 then sgr v
  else if fin =? 115 then Done (set_saved (cx v, cy v) v)
  else if fin =? 117 then restore_cursor v
  else if fin =? 114 then set_region v
  else if fin =? 110 then device_status v
  else Done v.
Definition dispatch_dec (fin : Z) (v : Vt) : outcome Vt :=
  if (fin =? 104) || (fin =? 108) then mode_set (fin =? 104) v
  else if fin =? 74 then erase_display (param 0 0 v) v
  else if fin =? 75 then erase_line (param 0 0 v) v
  else if fin =? 110 then device_status v
  else Done v.
Definition dispatch_csi (fin : Z) (v : Vt) : outcome Vt :=
  if csi_bad v then Done v
  else if (csi_marker v =? 0) && (csi_inter v =? 0) then dispatch_plain fin v
  else if (csi_marker v =? 63) && (csi_inter v =? 0) then dispatch_dec fin v
  else if ((csi_marker v =? 0) || (csi_marker v =? 63)) && (csi_inter v =? 36) && (fin =? 112)
  then Done (report_mode (csi_marker v =? 63) v)
  else Done v.

Definition push_param (v : Vt) : outcome Vt :=
  v ← (if nparams v <? MAX_PARAMS then
         ps ← set_idx (params v) (nparams v) (if param_seen v then cur_param v else 0);
         Done (set_nparams (nparams v + 1) (set_params ps v))
       else Done v);
  Done (set_param_seen false (set_cur_param 0 v)).

(** A C0 control or DEL. *)
Definition execute (b : Z) (v : Vt) : outcome Vt :=
  if b =? 10 then line_feed v
  else if b =? 13 then Done (set_cx 0 v)
  else if b =? 8 then Done (if 0 <? cx v then set_cx (cx v - 1) v else v)
  else if b =? 9 then
    last ← usub (cols v) 1; Done (set_cx (Z.min ((cx v / 8 + 1) * 8) last) v)
  else if b =? 7 then Done (note Bell v)
  else Done v.

Definition csi (b : Z) (v : Vt) : outcome Vt :=
  let digit := within 48 57 b in
  if (digit || (b =? 59) || (b =? 58)) && negb (csi_inter v =? 0) then Done (set_csi_bad true v)
  else if digit then
    Done (set_param_seen true (set_cur_param (sat_add 32 (sat_mul 32 (cur_param v) 10) (b - 48)) v))
  else if (b =? 59) || (b =? 58) then push_param v
  else if within 60 63 b then
    Done (if (csi_marker v =? 0) && (nparams v =? 0) && negb (param_seen v) && (csi_inter v =? 0)
          then set_csi_marker b v else set_csi_bad true v)
  else if within 32 47 b then Done (set_csi_inter (if csi_inter v =? 0 then b else 255) v)
  else if within 64 126 b then
    v ← push_param v;
    v ← dispatch_csi b v;
    Done (set_state Ground v)
  else if b =? 27 then Done (set_state Esc v)
  else if (b =? 24) || (b =? 26) then Done (set_state Ground v)
  else if within 0 31 b || (b =? 127) then execute b v
  else Done (set_state Ground v).

(** RIS: the main screen, the power-on pen, cursor and modes, and an erase. *)
Definition power_on (bottom : Z) (v : Vt) : Vt :=
  let v := set_attrs 0 (set_bg (p_bg (pal v)) (set_fg (p_fg (pal v)) v)) in
  let v := set_scroll_bot bottom (set_scroll_top 0 (set_cy 0 (set_cx 0 v))) in
  let v := set_app_cursor false (set_cursor_visible true (set_origin false v)) in
  set_saved_wrap true (set_saved (0, 0) (set_wrap true v)).
Definition full_reset (v : Vt) : outcome Vt :=
  v ← alt_screen false v;
  bottom ← usub (rows v) 1;
  v ← screen_to_history (power_on bottom v);
  let v := mark_all (restart_top (erase_all v)) in
  Done (set_sync_mode false (note_screen_erased v)).

Definition esc (b : Z) (v : Vt) : outcome Vt :=
  let v := set_state Ground v in
  if b =? 91 then
    let v := set_param_seen false (set_cur_param 0 (set_nparams 0 v)) in
    Done (set_state Csi (set_csi_bad false (set_csi_inter 0 (set_csi_marker 0 v))))
  else if b =? 93 then Done (set_state InOsc (set_osc_over false (set_osc_buf [] v)))
  else if (b =? 40) || (b =? 41) then Done (set_state EscCharset v)
  else if b =? 55 then Done (set_saved_wrap (wrap v) (set_saved (cx v, cy v) v))
  else if b =? 56 then v ← restore_cursor v; Done (set_wrap (saved_wrap v) v)
  else if b =? 68 then line_feed v
  else if b =? 77 then
    if cy v =? scroll_top v then scroll_down v
    else Done (if 0 <? cy v then set_cy (cy v - 1) v else v)
  else if b =? 99 then full_reset v
  else Done v.

(** ** Operating system commands *)

(** The bytes of a literal. *)
Definition lit (s : string) : list Z := (λ a, Z.of_N (Ascii.N_of_ascii a)) <$> String.list_ascii_of_string s.
Definition strip_prefix (pre s : list Z) : option (list Z) :=
  if bool_decide (take (length pre) s = pre) then Some (drop (length pre) s) else None.
Definition split_once (c : Z) (s : list Z) : option (list Z * list Z) :=
  match position (Z.eqb c) s with Some i => Some (take i s, drop (S i) s) | None => None end.
Definition is_beacon (buf : list Z) : bool := bool_decide (take 5 buf = lit "1936;").
Definition osc_body_cap (buf : list Z) : Z := if is_beacon buf then OSC_BEACON_MAX else OSC_MAX.

Definition control (b : Z) : bool := b <? 32.
(** A settings line, if the payload is one: [Some None] is a malformed one. *)
Definition settings_line (buf : list Z) : option (option (list Z)) :=
  if negb (valid_utf8 buf) then None else
  rest ← strip_prefix (lit "7770;aurora;") buf;
  Some (
    '(k, val) ← split_once 59 rest;
    if negb (bool_decide (k = [])) && negb (existsb (λ b, control b || (b =? 59)) k) &&
       negb (existsb (Z.eqb 59) val) && negb (existsb control val)
    then Some (k ++ [32] ++ val) else None).

Definition osc_end (v : Vt) : Vt :=
  let over := osc_over v in
  let v := set_osc_over false v in
  if over then set_osc_buf [] v else
  let line := settings_line (osc_buf v) in
  let v := match line with
           | Some (Some l) =>
               if zlen (settings_req v) <? 16 then set_settings_req (settings_req v ++ [l]) v else v
           | _ => v
           end in
  let v :=
    if capture_events v && bool_decide (line = None) then
      if is_beacon (osc_buf v) then
        let s := as_u 32 (span_serial v + 1) in
        let s := if s =? 0 then 1 else s in
        let v := set_span s (set_span_serial s v) in
        push_event (Osc s (osc_buf v)) v
      else push_event (Osc 0 (osc_buf v)) v
    else v in
  set_osc_buf [] v.

(** ** The byte machine *)

Definition ground (b : Z) (v : Vt) : outcome Vt :=
  if (0 <? utf_rem v) && (Z.land b 192 =? 128) then
    let v := set_utf_acc (Z.lor (ushl 32 (utf_acc v) 6) (Z.land b 63)) v in
    let v := set_utf_rem (utf_rem v - 1) v in
    if utf_rem v =? 0 then put_char (default 65533 (from_u32 (utf_acc v))) v else Done v
  else
  let v := if 0 <? utf_rem v then set_utf_rem 0 v else v in
  if b =? 27 then Done (set_state Esc v)
  else if within 0 31 b || (b =? 127) then execute b v
  else if within 32 126 b then put_char b v
  else if within 192 223 b then Done (set_utf_rem 1 (set_utf_acc (Z.land b 31) v))
  else if within 224 239 b then Done (set_utf_rem 2 (set_utf_acc (Z.land b 15) v))
  else if within 240 247 b then Done (set_utf_rem 3 (set_utf_acc (Z.land b 7) v))
  else Done v.

Definition byte (b : Z) (v : Vt) : outcome Vt :=
  match state v with
  | Ground => ground b v
  | Esc => esc b v
  | EscCharset => Done (set_state Ground v)
  | Csi => csi b v
  | InOsc =>
      Done (if b =? 7 then set_state Ground (osc_end v)
            else if b =? 27 then set_state OscEsc v
            else if zlen (osc_buf v) <? osc_body_cap (osc_buf v) then set_osc_buf (osc_buf v ++ [b]) v
            else set_osc_over true v)
  | OscEsc => Done (if b =? 92 then set_state Ground (osc_end v) else set_state InOsc v)
  end.

Fixpoint bytes (bs : list Z) (v : Vt) : outcome Vt :=
  match bs with [] => Done v | b :: bs => v ← byte b v; bytes bs v end.
Definition feed (bs : list Z) (v : Vt) : outcome Vt := v ← bytes bs v; Done (set_pending [] v).

(** [feed_until] over what is left of the slice: the boundary it returns at, and
    what is then left. *)
Fixpoint feed_loop (bs : list Z) (v : Vt) : outcome (Vt * list Z * option Boundary) :=
  match bs with
  | [] => Done (v, [], None)
  | b :: bs =>
      v ← byte b v;
      match pending v with
      | e :: es => Done (set_pending es v, bs, Some e)
      | [] => feed_loop bs v
      end
  end.
Definition feed_until (bs : list Z) (v : Vt) : outcome (Vt * list Z * option Boundary) :=
  match pending v with
  | e :: es => Done (set_pending es v, bs, Some e)
  | [] => feed_loop bs v
  end.

(** ** Themes *)

Definition remap_cell (old new : Palette) (c : Cell) : Cell :=
  mkCell (c_ch c) (remap_color old new (c_fg c)) (remap_color old new (c_bg c)) (c_attrs c) (c_span c).
Definition set_palette (new : Palette) (v : Vt) : Vt :=
  let old := pal v in
  if bool_decide (new = old) then v else
  let v := set_alt_cells (remap_cell old new <$> alt_cells v) (set_cells (remap_cell old new <$> cells v) v) in
  let v := set_bg (remap_color old new (bg v)) (set_fg (remap_color old new (fg v)) v) in
  mark_all (set_pal new v).
Definition set_theme (i : nat) (v : Vt) : outcome Vt :=
  p ← unwrap (THEMES !! (i mod length THEMES)%nat); Done (set_palette p v).

End Vt.
