(* ===== verification/VtResize.v ===== *)
(** * The terminal emulator: resizing (usr/lib/vt/src/lib.rs, [reflow], [crop] and [Vt::resize])

    The main screen re-cut at a new geometry line by line, the alternate one
    cropped, and the resize that runs both. *)

From S2P Require Import Prelude VtBase Vt.
Import VtBase Vt.
Open Scope Z_scope.

Module VtResize.

Record Reflowed := mkReflowed {
  r_cells : list Cell; r_wrapped : list bool; r_cursor : Z * Z;
  r_scrolled : list (list Cell * bool); r_top : bool
}.

Definition is_pad (bl c : Cell) : bool :=
  (c_ch c =? 32) && (c_attrs c =? 0) && (c_span c =? 0) && (c_fg c =? c_fg bl).
Definition is_cont (c : Cell) : bool := (c_ch c =? 32) && negb (has (c_attrs c) ATTR_WIDE).
Definition is_wide_cell (c : Cell) : bool := has (c_attrs c) ATTR_WIDE.

(** [wrapped.get(i).copied().unwrap_or(false)] *)
Definition soft_at (wrapped : list bool) (r : Z) : bool := default false (wrapped !! Z.to_nat r).

(** The last row of the logical line that row [r_end] belongs to. *)
Fixpoint line_end (fuel : nat) (wrapped : list bool) (rows r_end : Z) : Z :=
  match fuel with
  | O => r_end
  | S fuel => if (r_end + 1 <? rows) && soft_at wrapped r_end then line_end fuel wrapped rows (r_end + 1) else r_end
  end.

(** The content of rows [r ..= r_end]. *)
Definition gather (cells : list Cell) (cols r r_end : Z) : outcome (list Cell) :=
  for_range r (r_end + 1) (λ rr content,
    row ← slice cells (rr * cols) ((rr + 1) * cols); Done (content ++ row)) [].

(** [while len > low && is_pad(&content[len - 1]) { len -= 1; }] over the reversed
    content. *)
Fixpoint trim_pad (bl : Cell) (low : Z) (rcontent : list Cell) : list Cell :=
  match rcontent with
  | c :: rest => if (low <? zlen rcontent) && is_pad bl c then trim_pad bl low rest else rcontent
  | [] => []
  end.
Definition truncate (bl : Cell) (low : Z) (content : list Cell) : list Cell := rev (trim_pad bl low (rev content)).

(** What a re-cut builds: finished rows, their flags, the open row, and where
    each cell of the line went. *)
Record Recut := mkRecut { out : list Cell; out_wrapped : list bool; row : list Cell; pos : list (Z * Z) }.

Definition pad_row (ncols : Z) (bl : Cell) (row : list Cell) : list Cell :=
  row ++ replicate (Z.to_nat (ncols - zlen row)) bl.
(** The open row is full for a cell of width [w]: it ends softly. *)
Definition make_room (ncols : Z) (bl : Cell) (w : Z) (s : Recut) : Recut :=
  if ncols <? zlen (row s) + w
  then mkRecut (out s ++ pad_row ncols bl (row s)) (out_wrapped s ++ [true]) [] (pos s) else s.
Definition push_cell (c : Cell) (s : Recut) : Recut :=
  mkRecut (out s) (out_wrapped s) (row s ++ [c]) (pos s ++ [(zlen (out_wrapped s), zlen (row s))]).
(** The half that a one-column grid does not keep. *)
Definition drop_half (s : Recut) : outcome Recut :=
  x ← usub (zlen (row s)) 1;
  Done (mkRecut (out s) (out_wrapped s) (row s) (pos s ++ [(zlen (out_wrapped s), x)])).

Fixpoint recut (ncols : Z) (bl : Cell) (content : list Cell) (s : Recut) : outcome Recut :=
  match content with
  | [] => Done s
  | c :: rest =>
      match rest with
      | d :: rest' =>
          if is_wide_cell c && is_cont d then
            let s := push_cell c (make_room ncols bl (if 2 <=? ncols then 2 else 1) s) in
            s ← (if 2 <=? ncols then Done (push_cell d s) else drop_half s);
            recut ncols bl rest' s
          else recut ncols bl rest (push_cell c (make_room ncols bl 1 s))
      | [] => Done (push_cell c (make_room ncols bl 1 s))
      end
  end.

(** One logical line from row [r]: the rows out so far, their flags and the
    cursor if it was on the line, with the next row. *)
Definition reflow_line (cells : list Cell) (wrapped : list bool) (cols rows : Z) (cursor : Z * Z) (ncols : Z)
    (bl : Cell) (r : Z) (o : list Cell) (ow : list bool) (cur : option (Z * Z)) :
    outcome (list Cell * list bool * option (Z * Z) * Z) :=
  let '(cx, cy) := cursor in
  let r_end := line_end (Z.to_nat rows) wrapped rows r in
  content ← gather cells cols r r_end;
  let content := truncate bl ((r_end - r) * cols) content in
  let len := zlen content in
  s ← recut ncols bl content (mkRecut o ow [] []);
  let last := zlen (out_wrapped s) in
  cur ← (if (r <=? cy) && (cy <=? r_end) then
           let at_ := (cy - r) * cols + cx in
           if at_ <? len then p ← idx (pos s) at_; Done (Some p)
           else if at_ =? len then Done (Some (last, zlen (row s)))
           else right ← usub ncols 1; Done (Some (last, Z.min (zlen (row s) + (at_ - len)) right))
         else Done cur);
  Done (out s ++ pad_row ncols bl (row s), out_wrapped s ++ [false], cur, r_end + 1).

Fixpoint reflow_loop (fuel : nat) (cells : list Cell) (wrapped : list bool) (cols rows : Z) (cursor : Z * Z)
    (ncols : Z) (bl : Cell) (r : Z) (o : list Cell) (ow : list bool) (cur : option (Z * Z)) :
    outcome (list Cell * list bool * option (Z * Z)) :=
  match fuel with
  | O => OutOfFuel
  | S fuel =>
      if r <? rows then
        '(o, ow, cur, r) ← reflow_line cells wrapped cols rows cursor ncols bl r o ow cur;
        reflow_loop fuel cells wrapped cols rows cursor ncols bl r o ow cur
      else Done (o, ow, cur)
  end.

Definition reflow (cells : list Cell) (wrapped : list bool) (cols rows : Z) (cursor : Z * Z) (top : bool)
    (ncols nrows : Z) (bl : Cell) : outcome Reflowed :=
  '(o, ow, cur) ← reflow_loop (S (Z.to_nat rows)) cells wrapped cols rows cursor ncols bl 0 [] [] None;
  let '(cr, cc) := default (0, 0) cur in
  shift ← (if nrows <=? cr then usub (cr + 1) nrows else Done 0);
  scrolled ← mapM_o (λ k, row ← slice o (k * ncols) ((k + 1) * ncols); w ← idx ow k; Done (row, w)) (seqZ 0 shift);
  top ← (if 0 <? shift then idx ow (shift - 1) else Done top);
  '(cells_out, wrapped_out) ← for_range shift (shift + nrows) (λ k '(co, wo),
    if k <? zlen ow then
      row ← slice o (k * ncols) ((k + 1) * ncols); w ← idx ow k; Done (co ++ row, wo ++ [w])
    else Done (co ++ replicate (Z.to_nat ncols) bl, wo ++ [false])) ([], []);
  y ← usub cr shift;
  Done (mkReflowed cells_out wrapped_out (cc, y) scrolled top).

(** The rows of a crop: the loop stops at the old screen's last row. *)
Fixpoint crop_rows (ks : list Z) (cells : list Cell) (wrapped : list bool) (cols rows shift ncols ccols : Z)
    (o : list Cell) (ow : list bool) : outcome (list Cell * list bool) :=
  match ks with
  | [] => Done (o, ow)
  | r :: ks =>
      let from := r + shift in
      if rows <=? from then Done (o, ow) else
      ow ← set_idx ow r (soft_at wrapped from);
      src ← slice cells (from * cols) (from * cols + ccols);
      o ← copy_from_slice o (r * ncols) (r * ncols + ccols) src;
      crop_rows ks cells wrapped cols rows shift ncols ccols o ow
  end.
Definition crop (cells : list Cell) (wrapped : list bool) (cols rows shift ncols nrows : Z) (bl : Cell) :
    outcome (list Cell * list bool) :=
  n ← umul 64 ncols nrows;
  crop_rows (seqZ 0 nrows) cells wrapped cols rows shift ncols (Z.min cols ncols)
    (replicate (Z.to_nat n) bl) (replicate (Z.to_nat nrows) false).

(** The new buffers and cursors, by which screen is shown. *)
Definition place_alt (rf : Reflowed) (alt : list Cell) (alt_w : list bool) (shift ncols right bottom : Z) (v : Vt) : Vt :=
  let v := set_alt_wrapped (r_wrapped rf) (set_alt_cells (r_cells rf) (set_wrapped alt_w (set_cells alt v))) in
  let v := set_cy (Z.min (sat_sub (cy v) shift) bottom) (set_saved (r_cursor rf) v) in
  if ncols <=? cx v then set_cx right v else v.
Definition place_main (rf : Reflowed) (alt : list Cell) (alt_w : list bool) (right bottom : Z) (v : Vt) : Vt :=
  let v := set_alt_wrapped alt_w (set_alt_cells alt (set_wrapped (r_wrapped rf) (set_cells (r_cells rf) v))) in
  let v := set_cy (r_cursor rf).2 (set_cx (r_cursor rf).1 v) in
  set_saved (Z.min (saved v).1 right, Z.min (saved v).2 bottom) v.
Definition regeometry (ncols nrows bottom : Z) (top : bool) (v : Vt) : Vt :=
  let v := set_rows nrows (set_cols ncols (set_top_continues top v)) in
  set_dirty (replicate (Z.to_nat nrows) true) (set_scroll_bot bottom (set_scroll_top 0 v)).
(** The rows the window slid past leave as scrolls. *)
Definition push_scrolled (rows : list (list Cell * bool)) (v : Vt) : Vt :=
  if capture_events v then set_pending (pending v ++ ((λ rw, Scroll rw.1 rw.2) <$> rows)) v else v.

Definition regrid (ncols nrows right bottom : Z) (bl : Cell) (v : Vt) : outcome Vt :=
  rf ← (if on_alt v
        then reflow (alt_cells v) (alt_wrapped v) (cols v) (rows v) (saved v) (top_continues v) ncols nrows bl
        else reflow (cells v) (wrapped v) (cols v) (rows v) (cx v, cy v) (top_continues v) ncols nrows bl);
  shift ← (if on_alt v && (nrows <=? cy v) then usub (cy v + 1) nrows else Done 0);
  '(alt, alt_w) ← (if on_alt v then crop (cells v) (wrapped v) (cols v) (rows v) shift ncols nrows bl
                   else crop (alt_cells v) (alt_wrapped v) (cols v) (rows v) shift ncols nrows bl);
  let w := push_scrolled (r_scrolled rf) v in
  let w := if on_alt v then place_alt rf alt alt_w shift ncols right bottom w
           else place_main rf alt alt_w right bottom w in
  Done (regeometry ncols nrows bottom (r_top rf) w).
Definition resize (ncols nrows : Z) (v : Vt) : outcome Vt :=
  if ((ncols =? cols v) && (nrows =? rows v)) || (ncols =? 0) || (nrows =? 0) then Done v else
  right ← usub ncols 1;
  bottom ← usub nrows 1;
  regrid ncols nrows right bottom (blank (p_fg (pal v)) (p_bg (pal v))) v.

End VtResize.
