(* ===== verification/VtInv.v ===== *)
(** * The terminal emulator: the screen's invariant

    What holds of a screen between bytes, what an operation that only draws may
    change, and that every drawing operation returns. *)

From S2P Require Import Prelude Digits Utf8 VtBase Vt.
Import Digits Utf8 VtBase Vt.
Open Scope Z_scope.

Module VtInv.

(** ** Buffers *)

Section Buffers.
Context {A : Type}.
Implicit Types l s : list A.

Lemma slice_ok l a b : 0 ≤ a ≤ b → b ≤ zlen l → slice l a b = Done (take (Z.to_nat (b - a)) (drop (Z.to_nat a) l)).
Proof. intros Ha Hb. unfold slice. by rewrite !(proj2 (Z.leb_le _ _)) by lia. Qed.
Lemma slice_len l a b : 0 ≤ a ≤ b → b ≤ zlen l → ∃ s, slice l a b = Done s ∧ zlen s = b - a.
Proof. intros Ha Hb. eexists. split; [by apply slice_ok|]. rewrite length_take, length_drop. lia. Qed.
Lemma copy_ok l a b s : 0 ≤ a ≤ b → b ≤ zlen l → zlen s = b - a →
  copy_from_slice l a b s = Done (take (Z.to_nat a) l ++ s ++ drop (Z.to_nat b) l).
Proof.
  intros Ha Hb Hs. unfold copy_from_slice.
  by rewrite !(proj2 (Z.leb_le _ _)), (proj2 (Z.eqb_eq _ _)) by lia.
Qed.
Lemma fill_ok l a b x : 0 ≤ a ≤ b → b ≤ zlen l →
  fill l a b x = Done (take (Z.to_nat a) l ++ replicate (Z.to_nat (b - a)) x ++ drop (Z.to_nat b) l).
Proof.
  intros Ha Hb. unfold fill. destruct (slice_len l a b Ha Hb) as (s & -> & Hs). obind.
  replace (length s) with (Z.to_nat (b - a)) by lia. apply copy_ok; [done|done|rewrite length_replicate; lia].
Qed.
Lemma copy_within_ok l a b d : 0 ≤ a ≤ b → b ≤ zlen l → 0 ≤ d → d + (b - a) ≤ zlen l →
  copy_within l a b d = Done (take (Z.to_nat d) l ++ take (Z.to_nat (b - a)) (drop (Z.to_nat a) l) ++
    drop (Z.to_nat (d + (b - a))) l).
Proof.
  intros Ha Hb Hd Hdb. unfold copy_within. rewrite slice_ok by done. obind.
  assert (zlen (take (Z.to_nat (b - a)) (drop (Z.to_nat a) l)) = b - a) as Hs
    by (rewrite length_take, length_drop; lia).
  rewrite Hs. apply copy_ok; [lia|lia|rewrite Hs; lia].
Qed.
Lemma splice_len l a b s : 0 ≤ a ≤ b → b ≤ zlen l → zlen s = b - a →
  zlen (take (Z.to_nat a) l ++ s ++ drop (Z.to_nat b) l) = zlen l.
Proof. intros Ha Hb Hs. rewrite !length_app, length_take, length_drop. lia. Qed.
Lemma fill_len l a b x : 0 ≤ a ≤ b → b ≤ zlen l → ∃ l', fill l a b x = Done l' ∧ zlen l' = zlen l.
Proof.
  intros Ha Hb. eexists. split; [by apply fill_ok|]. apply splice_len; [done|done|rewrite length_replicate; lia].
Qed.
Lemma copy_within_len l a b d : 0 ≤ a ≤ b → b ≤ zlen l → 0 ≤ d → d + (b - a) ≤ zlen l →
  ∃ l', copy_within l a b d = Done l' ∧ zlen l' = zlen l.
Proof.
  intros Ha Hb Hd Hdb. eexists. split; [by apply copy_within_ok|]. apply splice_len; [lia|lia|].
  rewrite length_take, length_drop. lia.
Qed.
Lemma set_idx_len l i x : 0 ≤ i < zlen l → ∃ l', set_idx l i x = Done l' ∧ zlen l' = zlen l.
Proof.
  intros Hi. unfold set_idx. rewrite (proj2 (Z.leb_le _ _)), (proj2 (Z.ltb_lt _ _)) by lia. cbn [andb].
  eexists. split; [done|]. by rewrite length_insert.
Qed.
Lemma idx_ok l i : 0 ≤ i < zlen l → ∃ x, idx l i = Done x ∧ l !! Z.to_nat i = Some x.
Proof.
  intros Hi. unfold idx. rewrite (proj2 (Z.leb_le _ _)) by lia.
  destruct (lookup_lt_is_Some_2 l (Z.to_nat i)) as [x Hx]; [lia|]. rewrite Hx. by exists x.
Qed.
End Buffers.

(** A loop keeps what each turn keeps. *)
Lemma for_range_inv {S} (P : S → Prop) a b f (s : S) : P s →
  (∀ r s, a ≤ r < b → P s → ∃ s', f r s = Done s' ∧ P s') → ∃ s', for_range a b f s = Done s' ∧ P s'.
Proof.
  intros Hs Hf. unfold for_range. apply foldM_inv; [done|]. intros s1 r Hr%elem_of_seqZ Hs1. apply Hf; [lia|done].
Qed.

(** ** The invariant *)

Definition side (n : Z) : Prop := 1 ≤ n < 2 ^ 31.

Record inv (v : Vt) : Prop := mkInv {
  i_cols : side (cols v);
  i_rows : side (rows v);
  i_cells : zlen (cells v) = cols v * rows v;
  i_alt_cells : zlen (alt_cells v) = cols v * rows v;
  i_wrapped : zlen (wrapped v) = rows v;
  i_alt_wrapped : zlen (alt_wrapped v) = rows v;
  i_dirty : zlen (dirty v) = rows v;
  i_cx : 0 ≤ cx v ≤ cols v;
  i_cy : 0 ≤ cy v < rows v;
  i_saved : 0 ≤ (saved v).1 ≤ cols v ∧ 0 ≤ (saved v).2 < rows v;
  i_region : 0 ≤ scroll_top v ≤ scroll_bot v ∧ scroll_bot v < rows v;
  i_params : zlen (params v) = MAX_PARAMS ∧ Forall (in_u 32) (params v);
  i_nparams : 0 ≤ nparams v ≤ MAX_PARAMS;
  i_cur : in_u 32 (cur_param v);
  i_pal : zlen (p_ansi (pal v)) = 16;
  i_osc : zlen (osc_buf v) ≤ OSC_BEACON_MAX
}.

(** What drawing may change: the live cells and flags, the damage, the queued
    events and the top flag, of the screen shown. *)
Record draws (v w : Vt) : Prop := mkDraws {
  d_rest : ∃ c wr d ps t,
    w = set_top_continues t (set_pending ps (set_dirty d (set_wrapped wr (set_cells c v)))) ∧
    zlen c = zlen (cells v) ∧ zlen wr = zlen (wrapped v) ∧ zlen d = zlen (dirty v) ∧
    (on_alt v = true → t = top_continues v)
}.

Lemma draws_eq v c wr d ps t : zlen c = zlen (cells v) → zlen wr = zlen (wrapped v) → zlen d = zlen (dirty v) →
  (on_alt v = true → t = top_continues v) →
  draws v (set_top_continues t (set_pending ps (set_dirty d (set_wrapped wr (set_cells c v))))).
Proof. intros. constructor. by exists c, wr, d, ps, t. Qed.
Lemma draws_refl v : draws v v.
Proof.
  replace v with (set_top_continues (top_continues v) (set_pending (pending v) (set_dirty (dirty v)
    (set_wrapped (wrapped v) (set_cells (cells v) v))))) at 2 by by destruct v.
  by apply draws_eq.
Qed.
Lemma draws_trans v w x : draws v w → draws w x → draws v x.
Proof.
  intros [(c & wr & d & ps & t & -> & H1 & H2 & H3 & H4)] [(c' & wr' & d' & ps' & t' & -> & H1' & H2' & H3' & H4')].
  cbn in *. replace (set_top_continues t' _) with (set_top_continues t' (set_pending ps' (set_dirty d' (set_wrapped wr' (set_cells c' v)))))
    by done. apply draws_eq; [congruence..|]. intros E. by rewrite H4', H4.
Qed.
#[global] Instance draws_po : PreOrder draws.
Proof. split; [exact draws_refl|exact draws_trans]. Qed.

(** Drawing keeps the invariant and everything it is not about. *)
Lemma draws_inv v w : draws v w → inv v → inv w.
Proof. intros [(c & wr & d & ps & t & -> & H1 & H2 & H3 & H4)] []. by split; cbn; try congruence. Qed.
Lemma draws_cols v w : draws v w → cols w = cols v.
Proof. by intros [(c & wr & d & ps & t & -> & _)]. Qed.
Lemma draws_rows v w : draws v w → rows w = rows v.
Proof. by intros [(c & wr & d & ps & t & -> & _)]. Qed.
Lemma draws_cx v w : draws v w → cx w = cx v.
Proof. by intros [(c & wr & d & ps & t & -> & _)]. Qed.
Lemma draws_cy v w : draws v w → cy w = cy v.
Proof. by intros [(c & wr & d & ps & t & -> & _)]. Qed.
Lemma draws_scroll_bot v w : draws v w → scroll_bot w = scroll_bot v.
Proof. by intros [(c & wr & d & ps & t & -> & _)]. Qed.
Lemma draws_scroll_top v w : draws v w → scroll_top w = scroll_top v.
Proof. by intros [(c & wr & d & ps & t & -> & _)]. Qed.
Lemma draws_on_alt v w : draws v w → on_alt w = on_alt v.
Proof. by intros [(c & wr & d & ps & t & -> & _)]. Qed.

(** Setting a field that drawing does not read. *)
Lemma draws_cells v c : zlen c = zlen (cells v) → draws v (set_cells c v).
Proof. intros E. replace (set_cells c v) with (set_top_continues (top_continues v) (set_pending (pending v)
  (set_dirty (dirty v) (set_wrapped (wrapped v) (set_cells c v))))) by done. by apply draws_eq. Qed.
Lemma draws_wrapped v c : zlen c = zlen (wrapped v) → draws v (set_wrapped c v).
Proof. intros E. replace (set_wrapped c v) with (set_top_continues (top_continues v) (set_pending (pending v)
  (set_dirty (dirty v) (set_wrapped c (set_cells (cells v) v))))) by done. by apply draws_eq. Qed.
Lemma draws_dirty v c : zlen c = zlen (dirty v) → draws v (set_dirty c v).
Proof. intros E. replace (set_dirty c v) with (set_top_continues (top_continues v) (set_pending (pending v)
  (set_dirty c (set_wrapped (wrapped v) (set_cells (cells v) v))))) by done. by apply draws_eq. Qed.
Lemma draws_pending v c : draws v (set_pending c v).
Proof. replace (set_pending c v) with (set_top_continues (top_continues v) (set_pending c
  (set_dirty (dirty v) (set_wrapped (wrapped v) (set_cells (cells v) v))))) by done. by apply draws_eq. Qed.
Lemma draws_top v t : on_alt v = false → draws v (set_top_continues t v).
Proof. intros E. replace (set_top_continues t v) with (set_top_continues t (set_pending (pending v)
  (set_dirty (dirty v) (set_wrapped (wrapped v) (set_cells (cells v) v))))) by done. apply draws_eq; [done..|congruence]. Qed.

(** ** Drawing operations return

    [paints v r]: the operation [r] run on [v] returned, having only drawn. *)

Definition paints (v : Vt) (r : outcome Vt) : Prop := ∃ w, r = Done w ∧ draws v w ∧ inv w.

(** The sizes a drawn screen shares with the one it started as. *)
Ltac based D := rewrite ?(draws_cols _ _ D), ?(draws_rows _ _ D), ?(draws_cx _ _ D), ?(draws_cy _ _ D),
  ?(draws_scroll_bot _ _ D), ?(draws_scroll_top _ _ D).

Lemma paints_done v w : inv v → draws v w → paints v (Done w).
Proof. intros Hv Hd. exists w. split; [done|]. split; [done|]. by eapply draws_inv. Qed.
Lemma paints_bind v r k : paints v r → (∀ w, draws v w → inv w → paints v (k w)) → paints v (r ≫= k).
Proof. intros (w & -> & Hd & Hw) Hk. obind. by apply Hk. Qed.
Lemma paints_from v w r : draws v w → paints w r → paints v r.
Proof. intros Hd (x & -> & Hx & Hi). exists x. split; [done|]. split; [by etransitivity|done]. Qed.
Lemma paints_range v w a b f : draws v w → inv w → (∀ r w, a ≤ r < b → draws v w → inv w → paints v (f r w)) →
  paints v (for_range a b f w).
Proof.
  intros Hd Hw Hf. destruct (for_range_inv (λ w, draws v w ∧ inv w) a b f w) as (x & -> & Hx & Hi); [done| |by exists x].
  intros r y Hr [Dy Hy]. destruct (Hf r y Hr Dy Hy) as (x & -> & Hx & Hi). by exists x.
Qed.

Section Primitives.
Context (v w : Vt) (D : draws v w) (Hw : inv w).

Lemma move_cells_paints a b d : 0 ≤ a ≤ b → b ≤ cols v * rows v → 0 ≤ d → d + (b - a) ≤ cols v * rows v →
  paints v (move_cells a b d w).
Proof.
  intros Ha Hb Hd Hdb. pose proof (i_cells w Hw) as E. rewrite (draws_cols _ _ D), (draws_rows _ _ D) in E. unfold move_cells.
  destruct (copy_within_len (cells w) a b d) as (l & -> & Hl); [lia..|].
  apply (paints_from v w); [done|]. by apply paints_done; [|apply draws_cells].
Qed.
Lemma move_soft_paints a b d : 0 ≤ a ≤ b → b ≤ rows v → 0 ≤ d → d + (b - a) ≤ rows v → paints v (move_soft a b d w).
Proof.
  intros Ha Hb Hd Hdb. pose proof (i_wrapped w Hw) as E. rewrite (draws_rows _ _ D) in E. unfold move_soft.
  destruct (copy_within_len (wrapped w) a b d) as (l & -> & Hl); [lia..|].
  apply (paints_from v w); [done|]. by apply paints_done; [|apply draws_wrapped].
Qed.
Lemma erase_paints a b : 0 ≤ a ≤ b → b ≤ cols v * rows v → paints v (erase a b w).
Proof.
  intros Ha Hb. pose proof (i_cells w Hw) as E. rewrite (draws_cols _ _ D), (draws_rows _ _ D) in E. unfold erase.
  destruct (fill_len (cells w) a b (erased w)) as (l & -> & Hl); [lia..|].
  apply (paints_from v w); [done|]. by apply paints_done; [|apply draws_cells].
Qed.
Lemma set_soft_paints r x : 0 ≤ r < rows v → paints v (set_soft r x w).
Proof.
  intros Hr. pose proof (i_wrapped w Hw) as E. rewrite (draws_rows _ _ D) in E. unfold set_soft.
  destruct (set_idx_len (wrapped w) r x) as (l & -> & Hl); [lia|].
  apply (paints_from v w); [done|]. by apply paints_done; [|apply draws_wrapped].
Qed.
Lemma mark_paints r : 0 ≤ r → paints v (mark r w).
Proof.
  intros Hr. pose proof (i_dirty w Hw) as E. unfold mark. apply (paints_from v w); [done|].
  destruct (Z.ltb_spec r (rows w)); [|by apply paints_done].
  destruct (set_idx_len (dirty w) r true) as (l & -> & Hl); [lia|]. by apply paints_done; [|apply draws_dirty].
Qed.
Lemma cell_paints i c : 0 ≤ i < cols v * rows v → paints v (cs ← set_idx (cells w) i c; Done (set_cells cs w)).
Proof.
  intros Hi. pose proof (i_cells w Hw) as E. rewrite (draws_cols _ _ D), (draws_rows _ _ D) in E.
  destruct (set_idx_len (cells w) i c) as (l & -> & Hl); [lia|].
  apply (paints_from v w); [done|]. by apply paints_done; [|apply draws_cells].
Qed.
Lemma draws_paints x : draws w x → paints v (Done x).
Proof. intros Hx. apply (paints_from v w); [done|]. by apply paints_done. Qed.
End Primitives.

Lemma mark_all_draws v : draws v (mark_all v).
Proof. apply draws_dirty. by rewrite length_replicate. Qed.
Lemma erase_all_draws v : draws v (erase_all v).
Proof.
  etransitivity; [apply (draws_cells v (replicate (length (cells v)) (erased v))); by rewrite length_replicate|].
  apply (draws_wrapped (set_cells _ v)). by rewrite length_replicate.
Qed.
Lemma push_event_draws e v : draws v (push_event e v).
Proof. apply draws_pending. Qed.
Lemma note_draws e v : draws v (note e v).
Proof. unfold note. destruct (capture_events v); [apply push_event_draws|done]. Qed.
Lemma restart_top_draws v : draws v (restart_top v).
Proof.
  unfold restart_top. destruct (on_alt v) eqn:E; [done|]. destruct (_ && _); [|by apply draws_top].
  etransitivity; [apply push_event_draws|by apply draws_top].
Qed.
Lemma note_screen_erased_draws v : draws v (note_screen_erased v).
Proof. unfold note_screen_erased. destruct (_ && _); [apply push_event_draws|done]. Qed.

(** Facts on rows the bounds need. *)
Lemma row_bounds v r : inv v → 0 ≤ r ≤ rows v → 0 ≤ r * cols v ≤ cols v * rows v.
Proof. intros Hv Hr. pose proof (i_cols v Hv) as [? _]. nia. Qed.
Lemma row_mono v r s : inv v → r ≤ s → r * cols v ≤ s * cols v.
Proof. intros Hv Hr. pose proof (i_cols v Hv) as [? _]. nia. Qed.

(** The state's sizes, for arithmetic. *)
Ltac sizes v Hv :=
  pose proof (i_cols v Hv); pose proof (i_rows v Hv); pose proof (i_cells v Hv); pose proof (i_wrapped v Hv);
  pose proof (i_cx v Hv); pose proof (i_cy v Hv); pose proof (i_region v Hv); unfold side in *.
(** The next statement of a drawing operation: its step, then what follows. *)
Ltac next D H := apply paints_bind; [|intros ? D H; based D].

Lemma scroll_up_paints v : inv v → paints v (scroll_up v).
Proof.
  intros Hv. sizes v Hv. pose proof (row_bounds v (scroll_top v) Hv ltac:(lia)).
  pose proof (row_bounds v (scroll_bot v + 1) Hv ltac:(lia)). pose proof (row_mono v (scroll_top v) (scroll_bot v) Hv ltac:(lia)).
  unfold scroll_up. cbn zeta. next D1 I1.
  { destruct (_ && _); [|by apply paints_done]. destruct (slice_len (cells v) 0 (cols v)) as (row & -> & _); [lia|nia|].
    obind. destruct (idx_ok (wrapped v) 0) as (x & -> & _); [lia|]. apply paints_done; [done|apply push_event_draws]. }
  next D2 I2.
  { destruct (negb (on_alt w) && _) eqn:Ea; [|by eapply draws_paints]. apply andb_true_iff in Ea as [Ea%negb_true_iff _].
    pose proof (i_wrapped w I1). rewrite (draws_rows _ _ D1) in *. destruct (idx_ok (wrapped w) 0) as (x & -> & _); [lia|].
    obind. eapply draws_paints; [done|done|by apply draws_top]. }
  next D3 I3; [apply move_cells_paints; [done|done|lia..]|].
  next D4 I4; [apply move_soft_paints; [done|done|lia..]|].
  next D5 I5; [apply set_soft_paints; [done|done|lia]|].
  next D6 I6; [apply erase_paints; [done|done|lia..]|].
  eapply draws_paints; [done|done|apply mark_all_draws].
Qed.
Lemma scroll_down_paints v : inv v → paints v (scroll_down v).
Proof.
  intros Hv. sizes v Hv. pose proof (row_bounds v (scroll_top v) Hv ltac:(lia)).
  pose proof (row_bounds v (scroll_bot v + 1) Hv ltac:(lia)). pose proof (row_mono v (scroll_top v) (scroll_bot v) Hv ltac:(lia)).
  unfold scroll_down. cbn zeta.
  assert (∃ w, (if scroll_top v =? 0 then restart_top v else v) = w ∧ draws v w) as (w & -> & D).
  { eexists. split; [done|]. destruct (_ =? _); [apply restart_top_draws|done]. }
  pose proof (draws_inv _ _ D Hv) as Hw.
  next D3 I3; [apply move_cells_paints; [done|done|lia..]|].
  next D4 I4; [apply move_soft_paints; [done|done|lia..]|].
  next D5 I5; [apply set_soft_paints; [done|done|lia]|].
  next D6 I6; [apply erase_paints; [done|done|lia..]|].
  eapply draws_paints; [done|done|apply mark_all_draws].
Qed.
Lemma repeat_paints f v n : inv v → (∀ w, inv w → paints w (f w)) → paints v (repeat n f v).
Proof.
  intros Hv Hf. apply paints_range; [done|done|]. intros r w _ D Hw. apply (paints_from v w); [done|by apply Hf].
Qed.
Lemma scroll_region_up_paints n v : inv v → paints v (scroll_region_up n v).
Proof.
  intros Hv. sizes v Hv. unfold scroll_region_up. rewrite usub_ok by lia. obind.
  by apply repeat_paints; [|apply scroll_up_paints].
Qed.
Lemma scroll_region_down_paints n v : inv v → paints v (scroll_region_down n v).
Proof.
  intros Hv. sizes v Hv. unfold scroll_region_down. rewrite usub_ok by lia. obind.
  by apply repeat_paints; [|apply scroll_down_paints].
Qed.

Lemma write_cell_paints x y ch a v w : draws v w → inv w → 0 ≤ y < rows v → 0 ≤ x < cols v →
  paints v (write_cell x y ch a w).
Proof.
  intros D Hw Hy Hx. unfold write_cell. cbn zeta. based D.
  pose proof (cell_paints v w D Hw (y * cols v + x)
    (mkCell ch (if has a ATTR_BOLD && (fg w =? p_fg (pal w)) then p_fg (pal w) else fg w) (bg w) a (span w)) ltac:(nia))
    as (x1 & E & D1 & I1).
  destruct (set_idx _ _ _) as [cs| |]; [|done..]. cbn in E |- *. injection E as E. rewrite E. by apply mark_paints; [..|lia].
Qed.

(** *** Erasing and editing *)

Lemma last_text_row_ok v w : draws v w → inv w →
  ∃ o, last_text_row w = Done o ∧ match o with Some r => 0 ≤ r < rows v | None => True end.
Proof.
  intros D Hw. unfold last_text_row. based D. pose proof (i_cells w Hw) as E. rewrite (draws_cols _ _ D), (draws_rows _ _ D) in E.
  assert (Forall (λ r, 0 ≤ r < rows v) (rev (seqZ 0 (rows v)))) as Hall.
  { apply Forall_forall. intros r Hr. apply list_elem_of_In, in_rev, list_elem_of_In, elem_of_seqZ in Hr. lia. }
  induction Hall as [|r l Hr _ IH]; [by exists None|]. cbn [find_mapM].
  pose proof (i_cols w Hw) as [Hc _]. rewrite (draws_cols _ _ D) in Hc.
  destruct (slice_len (cells w) (r * cols v) ((r + 1) * cols v)) as (row & -> & _); [nia|nia|]. obind.
  destruct (existsb _ row); [by exists (Some r)|exact IH].
Qed.
Lemma screen_to_history_paints v : inv v → paints v (screen_to_history v).
Proof.
  intros Hv. unfold screen_to_history. destruct (_ || _); [by apply paints_done|].
  destruct (last_text_row_ok v v) as (o & -> & Ho); [done|done|]. obind. destruct o as [last|]; [|by apply paints_done].
  apply paints_range; [done|done|]. intros r w Hr D Hw. sizes w Hw. rewrite (draws_cols _ _ D), (draws_rows _ _ D) in *.
  assert (∃ x, (if r <? last then idx (wrapped w) r else Done false) = Done x) as (x & ->).
  { destruct (r <? last); [|by eexists]. destruct (idx_ok (wrapped w) r) as (x & -> & _); [lia|by eexists]. }
  obind. destruct (slice_len (cells w) (r * cols v) ((r + 1) * cols v)) as (row & -> & _); [nia|nia|].
  obind. eapply draws_paints; [done|done|apply push_event_draws].
Qed.

Lemma erase_display_paints mode v : inv v → paints v (erase_display mode v).
Proof.
  intros Hv. unfold erase_display. destruct (3 <? mode); [by apply paints_done|]. sizes v Hv.
  rewrite usub_ok by lia. obind. set (x := Z.min (cx v) (cols v - 1)). assert (0 ≤ x < cols v) as Hx by (subst x; lia).
  assert (0 ≤ cy v * cols v + x < cols v * rows v) as Hcur by nia. next D1 I1.
  { destruct (2 <=? mode); [by apply screen_to_history_paints|by apply paints_done]. }
  rename w into w1.
  assert (∃ w, (if negb (mode =? 0) || (cy v * cols v + x =? 0) then restart_top w1 else w1) = w ∧ draws v w) as (w & -> & D).
  { eexists. split; [done|]. destruct (_ || _); [|done]. etransitivity; [done|apply restart_top_draws]. }
  pose proof (draws_inv _ _ D Hv) as Hw. based D. pose proof (i_cells w Hw) as Ec.
  rewrite (draws_cols _ _ D), (draws_rows _ _ D) in Ec. next D2 I2.
  - destruct (mode =? 0); [|destruct (mode =? 1)].
    + next D3 I3; [apply erase_paints; [done|done|lia..]|]. apply paints_range; [done|done|]. intros r y Hr Dy Hy.
      next D4 I4; [apply mark_paints; [done|done|lia]|]. apply set_soft_paints; [done|done|lia].
    + next D3 I3; [apply erase_paints; [done|done|lia..]|]. next D4 I4.
      { apply paints_range; [done|done|]. intros r y Hr Dy Hy. apply mark_paints; [done|done|lia]. }
      apply paints_range; [done|done|]. intros r y Hr Dy Hy. apply set_soft_paints; [done|done|lia].
    + eapply draws_paints; [done|done|]. etransitivity; [apply erase_all_draws|apply mark_all_draws].
  - eapply draws_paints; [done|done|]. destruct (2 <=? mode); [apply note_screen_erased_draws|done].
Qed.
Lemma erase_line_paints mode v : inv v → paints v (erase_line mode v).
Proof.
  intros Hv. unfold erase_line. sizes v Hv. rewrite usub_ok by lia. obind. set (x := Z.min (cx v) (cols v - 1)).
  assert (0 ≤ x < cols v) as Hx by (subst x; lia). pose proof (row_bounds v (cy v + 1) Hv ltac:(lia)) as Hr.
  pose proof (row_bounds v (cy v) Hv ltac:(lia)) as Hr'.
  assert (∃ a b, (if mode =? 0 then (x, cols v) else if mode =? 1 then (0, x + 1) else (0, cols v)) = (a, b) ∧
    0 ≤ a ≤ b ∧ b ≤ cols v) as (a & b & -> & Hab).
  { destruct (mode =? 0); [by exists x, (cols v); split; [|lia]|]. destruct (mode =? 1); eexists _, _; (split; [done|lia]). }
  assert (∃ w, (if (cy v =? 0) && (a =? 0) then restart_top v else v) = w ∧ draws v w) as (w & -> & D).
  { eexists. split; [done|]. destruct (_ && _); [apply restart_top_draws|done]. }
  pose proof (draws_inv _ _ D Hv) as Hw. based D. next D2 I2; [apply erase_paints; [done|done|lia..]|].
  next D3 I3; [|apply mark_paints; [done|done|lia]].
  destruct (b =? cols v); [apply set_soft_paints; [done|done|lia]|by eapply draws_paints].
Qed.

(** What IL and DL have once they run: their bounds. *)
Lemma lines_setup v n : inv v → scroll_top v ≤ cy v ≤ scroll_bot v → 0 ≤ n ≤ scroll_bot v + 1 - cy v →
  0 ≤ cy v * cols v ∧ 0 ≤ n * cols v ∧ cy v * cols v + n * cols v ≤ (scroll_bot v + 1) * cols v ≤ cols v * rows v.
Proof. intros Hv Hc Hn. sizes v Hv. repeat split; nia. Qed.
Lemma insert_lines_paints n v : inv v → 0 ≤ n → paints v (insert_lines n v).
Proof.
  intros Hv Hn. unfold insert_lines. destruct (Z.ltb_spec (cy v) (scroll_top v)); [by apply paints_done|].
  destruct (Z.ltb_spec (scroll_bot v) (cy v)); [by apply paints_done|]. cbn [orb]. sizes v Hv. rewrite usub_ok by lia. obind.
  set (m := Z.min n (scroll_bot v + 1 - cy v)). assert (0 ≤ m ≤ scroll_bot v + 1 - cy v) as Hm by (subst m; lia).
  destruct (m =? 0); [by apply paints_done|]. pose proof (lines_setup v m Hv ltac:(lia) Hm) as (B1 & B2 & B3).
  assert (∃ w, (if cy v =? 0 then restart_top v else v) = w ∧ draws v w) as (w & -> & D).
  { eexists. split; [done|]. destruct (_ =? _); [apply restart_top_draws|done]. }
  pose proof (draws_inv _ _ D Hv) as Hw. based D. rewrite usub_ok by lia. obind. rewrite usub_ok by lia. obind.
  next D1 I1; [apply move_cells_paints; [done|done|lia..]|].
  next D2 I2; [apply move_soft_paints; [done|done|lia..]|]. next D3 I3.
  { apply paints_range; [done|done|]. intros r y Hr Dy Hy. apply set_soft_paints; [done|done|lia]. }
  next D4 I4; [apply erase_paints; [done|done|lia..]|].
  apply paints_range; [done|done|]. intros r y Hr Dy Hy. apply mark_paints; [done|done|lia].
Qed.
Lemma delete_lines_paints n v : inv v → 0 ≤ n → paints v (delete_lines n v).
Proof.
  intros Hv Hn. unfold delete_lines. destruct (Z.ltb_spec (cy v) (scroll_top v)); [by apply paints_done|].
  destruct (Z.ltb_spec (scroll_bot v) (cy v)); [by apply paints_done|]. cbn [orb]. sizes v Hv. rewrite usub_ok by lia. obind.
  set (m := Z.min n (scroll_bot v + 1 - cy v)). assert (0 ≤ m ≤ scroll_bot v + 1 - cy v) as Hm by (subst m; lia).
  destruct (m =? 0); [by apply paints_done|]. pose proof (lines_setup v m Hv ltac:(lia) Hm) as (B1 & B2 & B3).
  assert (∃ w, (if cy v =? 0 then restart_top v else v) = w ∧ draws v w) as (w & -> & D).
  { eexists. split; [done|]. destruct (_ =? _); [apply restart_top_draws|done]. }
  pose proof (draws_inv _ _ D Hv) as Hw. based D. rewrite usub_ok by lia. obind. rewrite usub_ok by lia. obind.
  next D1 I1; [apply move_cells_paints; [done|done|lia..]|].
  next D2 I2; [apply move_soft_paints; [done|done|lia..]|]. next D3 I3.
  { apply paints_range; [done|done|]. intros r y Hr Dy Hy. apply set_soft_paints; [done|done|lia]. }
  next D4 I4; [apply erase_paints; [done|done|lia..]|].
  apply paints_range; [done|done|]. intros r y Hr Dy Hy. apply mark_paints; [done|done|lia].
Qed.

(** ICH, DCH and ECH stay within the cursor's row. *)
Lemma chars_setup v n : inv v → 0 ≤ n ≤ cols v - cx v →
  0 ≤ cy v * cols v + cx v ∧ cy v * cols v + cx v + n ≤ cy v * cols v + cols v ≤ cols v * rows v.
Proof. intros Hv Hn. sizes v Hv. nia. Qed.
Lemma insert_chars_paints n v : inv v → 0 ≤ n → paints v (insert_chars n v).
Proof.
  intros Hv Hn. unfold insert_chars. sizes v Hv. rewrite usub_ok by lia. obind.
  set (m := Z.min n (cols v - cx v)). assert (0 ≤ m ≤ cols v - cx v) as Hm by (subst m; lia).
  destruct (m =? 0); [by apply paints_done|]. pose proof (chars_setup v m Hv Hm) as [B1 B2]. rewrite usub_ok by lia. obind.
  next D1 I1; [apply move_cells_paints; [done|done|lia..]|]. next D2 I2; [apply erase_paints; [done|done|lia..]|].
  apply mark_paints; [done|done|lia].
Qed.
Lemma delete_chars_paints n v : inv v → 0 ≤ n → paints v (delete_chars n v).
Proof.
  intros Hv Hn. unfold delete_chars. sizes v Hv. rewrite usub_ok by lia. obind.
  set (m := Z.min n (cols v - cx v)). assert (0 ≤ m ≤ cols v - cx v) as Hm by (subst m; lia).
  destruct (m =? 0); [by apply paints_done|]. pose proof (chars_setup v m Hv Hm) as [B1 B2].
  next D1 I1; [apply move_cells_paints; [done|done|lia..]|]. rewrite usub_ok by lia. obind.
  next D2 I2; [apply erase_paints; [done|done|lia..]|]. apply mark_paints; [done|done|lia].
Qed.
Lemma erase_chars_paints n v : inv v → 0 ≤ n → paints v (erase_chars n v).
Proof.
  intros Hv Hn. unfold erase_chars. sizes v Hv. rewrite usub_ok by lia. obind.
  set (m := Z.min n (cols v - cx v)). assert (0 ≤ m ≤ cols v - cx v) as Hm by (subst m; lia).
  pose proof (chars_setup v m Hv Hm) as [B1 B2]. next D2 I2; [apply erase_paints; [done|done|lia..]|].
  apply mark_paints; [done|done|lia].
Qed.

End VtInv.
