(* ===== verification/VtWidth.v ===== *)
(** * The terminal emulator: widths, the pen and the palette's text

    The binary search over the combining table, that the pen is total on any
    parameter list, the text form of a palette and the paint hold. *)

From S2P Require Import Prelude Digits Utf8 VtBase Vt VtInv.
Import Digits Utf8 VtBase Vt VtInv.
Open Scope Z_scope.

Module VtWidth.

(** ** The table search *)

Definition covers (cp : Z) (r : Z * Z) : bool := (r.1 <=? cp) && (cp <=? r.2).

(** Ranges in order, each a range, none touching the next. *)
Fixpoint sorted_from (low : Z) (table : list (Z * Z)) : bool :=
  match table with
  | [] => true
  | (a, b) :: t => (low <? a) && (a <=? b) && sorted_from b t
  end.
Definition sorted_table (table : list (Z * Z)) : bool := sorted_from (-1) table.

Lemma sorted_from_lookup low table i a b : sorted_from low table = true → table !! i = Some (a, b) → low < a ≤ b.
Proof.
  revert low i. induction table as [|[a' b'] t IH]; intros low i Hs Hi; [done|]. cbn [sorted_from] in Hs.
  apply andb_true_iff in Hs as [[H1%Z.ltb_lt H2%Z.leb_le]%andb_true_iff Hs].
  destruct i as [|i]; [injection Hi as -> ->; lia|]. specialize (IH _ _ Hs Hi). lia.
Qed.
Lemma sorted_lookup low table i j a b c d : sorted_from low table = true → (i < j)%nat →
  table !! i = Some (a, b) → table !! j = Some (c, d) → b < c.
Proof.
  revert low i j. induction table as [|[a' b'] t IH]; intros low i j Hs Hij Hi Hj; [done|]. cbn [sorted_from] in Hs.
  apply andb_true_iff in Hs as [_ Hs]. destruct j as [|j]; [lia|]. destruct i as [|i].
  - injection Hi as -> ->. by apply (sorted_from_lookup _ _ _ _ _ Hs) in Hj as [? _].
  - exact (IH _ i j Hs ltac:(lia) Hi Hj).
Qed.

(** The search finds the code point exactly when an entry of its window has it. *)
Definition found (cp : Z) (table : list (Z * Z)) (lo hi : Z) : Prop :=
  ∃ i r, lo ≤ Z.of_nat i < hi ∧ table !! i = Some r ∧ covers cp r = true.
Lemma search_spec fuel cp table lo hi low : sorted_from low table = true → 0 ≤ lo ≤ hi → hi ≤ zlen table →
  hi - lo < Z.of_nat fuel → ∃ r, search fuel cp table lo hi = Done r ∧ (r = true ↔ found cp table lo hi).
Proof.
  intros Hs. revert lo hi. induction fuel as [|fuel IH]; intros lo hi Hlo Hhi Hf; [lia|]. cbn [search].
  destruct (Z.ltb_spec lo hi) as [Hlt|]; [|exists false; split; [done|]; split; [done|]; intros (i & r & Hi & _); lia].
  assert (lo ≤ (lo + hi) / 2 < hi) as Hmid by (split; [apply Z.div_le_lower_bound; lia|apply Z.div_lt_upper_bound; lia]).
  set (mid := (lo + hi) / 2) in *. destruct (idx_ok table mid) as ([a b] & -> & Hm); [lia|]. obind.
  pose proof (sorted_from_lookup _ _ _ _ _ Hs Hm) as Hab. destruct (Z.ltb_spec cp a) as [H1|H1].
  { destruct (IH lo mid) as (r & -> & Hr); [lia..|]. exists r. split; [done|]. rewrite Hr. split.
    - intros (i & x & Hi & Hx). exists i, x. split; [lia|done].
    - intros (i & [c d] & Hi & Hl & Hc). exists i, (c, d). split; [|done]. unfold covers in Hc. cbn in Hc.
      apply andb_true_iff in Hc as [Hc%Z.leb_le _]. destruct (Z.lt_ge_cases (Z.of_nat i) mid); [lia|]. exfalso.
      destruct (Z.eq_dec (Z.of_nat i) mid) as [E|E].
      + rewrite <-E, Nat2Z.id in Hm. rewrite Hm in Hl. injection Hl as -> ->. lia.
      + pose proof (sorted_lookup low table (Z.to_nat mid) i a b c d Hs ltac:(lia) Hm Hl). lia. }
  destruct (Z.ltb_spec b cp) as [H2|H2].
  { destruct (IH (mid + 1) hi) as (r & -> & Hr); [lia..|]. exists r. split; [done|]. rewrite Hr. split.
    - intros (i & x & Hi & Hx). exists i, x. split; [lia|done].
    - intros (i & [c d] & Hi & Hl & Hc). exists i, (c, d). split; [|done]. unfold covers in Hc. cbn in Hc.
      apply andb_true_iff in Hc as [_ Hc%Z.leb_le]. destruct (Z.lt_ge_cases mid (Z.of_nat i)); [lia|]. exfalso.
      destruct (Z.eq_dec (Z.of_nat i) mid) as [E|E].
      + rewrite <-E, Nat2Z.id in Hm. rewrite Hm in Hl. injection Hl as -> ->. lia.
      + pose proof (sorted_lookup low table i (Z.to_nat mid) c d a b Hs ltac:(lia) Hl Hm). lia. }
  exists true. split; [done|]. split; [intros _|done]. exists (Z.to_nat mid), (a, b). split; [lia|]. split; [done|].
  unfold covers. cbn. by rewrite (proj2 (Z.leb_le _ _) H1), (proj2 (Z.leb_le _ _) H2).
Qed.
Lemma in_ranges_exact cp table : sorted_table table = true → in_ranges cp table = Done (existsb (covers cp) table).
Proof.
  intros Hs. unfold in_ranges. destruct (search_spec (S (length table)) cp table 0 (zlen table) (-1) Hs) as (r & -> & Hr); [lia..|].
  f_equal. apply eq_true_iff_eq. rewrite Hr, existsb_exists. split.
  - intros (i & x & _ & Hi & Hx). exists x. split; [|done]. apply list_elem_of_In. by eapply list_elem_of_lookup_2.
  - intros (x & Hx%list_elem_of_In & Hc). apply list_elem_of_lookup_1 in Hx as [i Hi]. exists i, x.
    split; [|done]. apply lookup_lt_Some in Hi. lia.
Qed.
Lemma combining_sorted : sorted_table COMBINING = true.
Proof. vm_compute. reflexivity. Qed.

(** The reference width: a linear look at the same table. *)
Definition width_of (c : Z) : Z :=
  if c =? 0 then 0 else if existsb (covers c) COMBINING then 0 else if is_wide c then 2 else 1.
Lemma char_width_ok c : char_width c = Done (width_of c).
Proof.
  unfold char_width, width_of. destruct (c =? 0); [done|]. rewrite in_ranges_exact by apply combining_sorted. done.
Qed.
Lemma width_range c : 0 ≤ width_of c ≤ 2.
Proof. unfold width_of. repeat case_match; lia. Qed.

(** ** The pen *)

Lemma xterm256_ok pal n : zlen (p_ansi pal) = 16 → in_u 8 n → ∃ c, xterm256 pal n = Done c.
Proof.
  intros Hp Hn. unfold xterm256. unfold in_u in Hn. destruct (within 0 15 n) eqn:E1.
  { apply within_iff in E1. destruct (idx_ok (p_ansi pal) n) as (c & -> & _); [lia|by eexists]. }
  destruct (within 16 231 n) eqn:E2; [|by eexists]. apply within_iff in E2. cbn zeta.
  destruct (idx_ok STEPS ((n - 16) / 36)) as (r & -> & _).
  { change (zlen STEPS) with 6. split; [apply Z.div_pos; lia|apply Z.div_lt_upper_bound; lia]. } obind.
  destruct (idx_ok STEPS ((n - 16) / 6 mod 6)) as (g & -> & _); [change (zlen STEPS) with 6; apply Z.mod_pos_bound; lia|]. obind.
  destruct (idx_ok STEPS ((n - 16) mod 6)) as (b & -> & _); [change (zlen STEPS) with 6; apply Z.mod_pos_bound; lia|]. by eexists.
Qed.
Lemma extended_color_ok pal params i : zlen (p_ansi pal) = 16 → 0 ≤ i < zlen params →
  ∃ c used, extended_color pal params i = Done (c, used) ∧ 0 ≤ used.
Proof.
  intros Hp Hi. unfold extended_color. destruct (Z.leb_spec (zlen params) (i + 1)); [by eexists _, _|].
  destruct (idx_ok params (i + 1)) as (k & -> & _); [lia|]. obind. destruct (k =? 2).
  { destruct (Z.ltb_spec (i + 4) (zlen params)); [|eexists _, _; split; [done|lia]].
    destruct (idx_ok params (i + 2)) as (r & -> & _); [lia|]. destruct (idx_ok params (i + 3)) as (g & -> & _); [lia|].
    destruct (idx_ok params (i + 4)) as (b & -> & _); [lia|]. by eexists _, _. }
  destruct (k =? 5); [|by eexists _, _]. destruct (Z.ltb_spec (i + 2) (zlen params)); [|by eexists _, _].
  destruct (idx_ok params (i + 2)) as (n & -> & _); [lia|]. obind.
  destruct (xterm256_ok pal (as_u 8 n) Hp) as [c ->]; [apply as_u_in; lia|]. by eexists _, _.
Qed.
Lemma apply_one_ok pal params i pen : zlen (p_ansi pal) = 16 → 0 ≤ i < zlen params →
  ∃ pen' used, apply_one pal params i pen = Done (pen', used) ∧ 0 ≤ used.
Proof.
  intros Hp Hi. unfold apply_one. destruct (idx_ok params i) as (v & -> & _); [done|]. obind. cbn zeta.
  assert (∀ k f, 0 ≤ k < 16 → ∃ pen' used, (c ← idx (p_ansi pal) k; Done (f c, 0)) = Done (pen' : SgrPen, used) ∧ 0 ≤ used) as Hidx.
  { intros k f Hk. destruct (idx_ok (p_ansi pal) k) as (c & -> & _); [lia|]. by eexists _, _. }
  do 14 (match goal with |- context [if ?x then _ else _] => destruct x end; [by eexists _, _|]).
  destruct (within 30 37 v) eqn:E; [apply within_iff in E; unfold ansi_fg; destruct (has _ _); apply Hidx; lia|]. clear E.
  destruct (v =? 39); [by eexists _, _|].
  destruct (within 40 47 v) eqn:E; [apply within_iff in E; apply Hidx; lia|]. clear E.
  destruct (v =? 49); [by eexists _, _|].
  destruct (within 90 97 v) eqn:E; [apply within_iff in E; apply Hidx; lia|]. clear E.
  destruct (within 100 107 v) eqn:E; [apply within_iff in E; apply Hidx; lia|]. clear E.
  destruct (_ || _); [|by eexists _, _]. destruct (extended_color_ok pal params i Hp Hi) as (c & used & -> & Hu).
  by eexists _, _.
Qed.
Lemma apply_ok pal params pen : zlen (p_ansi pal) = 16 → ∃ pen', apply pal params pen = Done pen'.
Proof.
  intros Hp. unfold apply. destruct params as [|x params]; [by eexists|]. set (ps := x :: params).
  assert (∀ fuel i pen, 0 ≤ i → Z.max (zlen ps - i) 0 < Z.of_nat fuel → ∃ pen', apply_loop fuel pal ps i pen = Done pen') as Hl.
  { induction fuel as [|fuel IH]; intros i q Hi Hf; cbn [apply_loop].
    - lia.
    - destruct (Z.ltb_spec i (zlen ps)); [|by eexists]. destruct (apply_one_ok pal ps i q Hp) as (q' & u & -> & Hu); [lia|].
      obind. apply IH; lia. }
  apply Hl; [done|]. lia.
Qed.

End VtWidth.
