(* ===== verification/VtTotal.v ===== *)
(** * The terminal emulator: every byte is handled

    Each operation returns on a screen that satisfies the invariant, keeps it, and
    leaves the main screen alone while the alternate one is shown. *)

From S2P Require Import Prelude Digits Utf8 VtBase Vt VtInv VtWidth.
Import Digits Utf8 VtBase Vt VtInv VtWidth.
Open Scope Z_scope.

Module VtTotal.

(** The main screen, whichever is shown: its cells, its flags and the flag of the
    row above it. *)
Definition main (v : Vt) : list Cell * list bool * bool :=
  if on_alt v then (alt_cells v, alt_wrapped v, top_continues v) else (cells v, wrapped v, top_continues v).

(** [moves v r]: the operation returned on the same screen, the invariant holds,
    and the main screen is as it was if it is not the one shown. *)
Definition moves (v : Vt) (r : outcome Vt) : Prop :=
  ∃ w, r = Done w ∧ inv w ∧ on_alt w = on_alt v ∧ (on_alt v = true → main w = main v).

Lemma moves_done v w : inv w → on_alt w = on_alt v → (on_alt v = true → main w = main v) → moves v (Done w).
Proof. intros. by exists w. Qed.
Lemma moves_here v : inv v → moves v (Done v).
Proof. intros Hv. by apply moves_done. Qed.
Lemma moves_bind v r k : moves v r → (∀ w, inv w → moves w (k w)) → moves v (r ≫= k).
Proof.
  intros (w & -> & Hw & Ha & Hm) Hk. obind. destruct (Hk w Hw) as (x & -> & Hx & Ha' & Hm'). exists x.
  split; [done|]. split; [done|]. split; [congruence|]. intros E. rewrite Hm', Hm by congruence. done.
Qed.
Lemma draws_main v w : draws v w → on_alt v = true → main w = main v.
Proof. intros [(c & wr & d & ps & t & -> & _ & _ & _ & Ht)] E. unfold main. cbn. by rewrite E, Ht. Qed.
Lemma moves_paints v r : paints v r → moves v r.
Proof.
  intros (w & -> & D & Hw). apply moves_done; [done|by apply draws_on_alt|]. by apply draws_main.
Qed.
Lemma moves_from v w r : inv w → on_alt w = on_alt v → (on_alt v = true → main w = main v) → moves w r → moves v r.
Proof.
  intros Hw Ha Hm (x & -> & Hx & Ha' & Hm'). exists x. split; [done|]. split; [done|]. split; [congruence|].
  intros E. rewrite Hm', Hm by congruence. done.
Qed.

(** A state whose fields were set, each within its range. *)
Ltac inv_set Hv := destruct Hv; split; cbn [cols rows pal cells alt_cells on_alt cx cy saved scroll_top scroll_bot params
  nparams cur_param osc_buf wrapped alt_wrapped dirty fst snd set_cx set_cy set_saved set_saved_wrap set_wrap set_state
  set_attrs set_bg set_fg set_scroll_top set_scroll_bot set_origin set_cursor_visible set_app_cursor set_sync set_sync_frames
  set_pending set_nparams set_params set_cur_param set_param_seen set_csi_marker set_csi_inter set_csi_bad set_osc_buf
  set_osc_over set_reply set_settings_req set_utf_acc set_utf_rem set_span set_span_serial set_dirty]; try assumption.
Ltac set_done Hv := apply moves_done; [inv_set Hv; try lia|done|done].

(** ** Lines and glyphs *)

Lemma line_feed_moves v : inv v → moves v (line_feed v).
Proof.
  intros Hv. unfold line_feed. destruct (_ =? _); [by apply moves_paints, scroll_up_paints|].
  pose proof (i_cy v Hv). destruct (Z.ltb_spec (cy v + 1) (rows v)); [|by apply moves_here]. set_done Hv.
Qed.
(** A wrap leaves the cursor at the start of a row. *)
Lemma autowrap_moves v : inv v → ∃ w, autowrap v = Done w ∧ inv w ∧ on_alt w = on_alt v ∧
  (on_alt v = true → main w = main v) ∧ cx w = 0 ∧ cols w = cols v ∧ wrap w = wrap v.
Proof.
  intros Hv. unfold autowrap. pose proof (i_cy v Hv) as Hc.
  destruct (set_soft_paints v v (draws_refl v) Hv (cy v) true Hc) as (w1 & -> & D1 & I1). obind.
  assert (inv (set_cx 0 w1)) as I2 by (pose proof (i_cols _ I1); unfold side in *; inv_set I1; lia).
  assert (cols w1 = cols v) as Ec by by apply draws_cols. assert (on_alt w1 = on_alt v) as Ea by by apply draws_on_alt.
  assert (wrap w1 = wrap v) as Ew by by destruct D1 as [(c & wr & d & ps & t & -> & _)].
  pose proof (draws_main _ _ D1) as Hm1. unfold line_feed. destruct (_ =? _).
  - destruct (scroll_up_paints _ I2) as (w & -> & D & I). exists w. split; [done|]. split; [done|].
    rewrite (draws_on_alt _ _ D), (draws_cx _ _ D), (draws_cols _ _ D). split; [done|].
    split; [intros E; rewrite (draws_main _ _ D); [exact (Hm1 E)|cbn; congruence]|]. split; [done|]. split; [done|].
    destruct D as [(c & wr & d & ps & t & -> & _)]. done.
  - pose proof (i_cy _ I1). change (cy (set_cx 0 w1)) with (cy w1). change (rows (set_cx 0 w1)) with (rows w1).
    destruct (Z.ltb_spec (cy w1 + 1) (rows w1)); eexists; (split; [done|]).
    + split; [inv_set I2; lia|]. done.
    + done.
Qed.
Lemma place_moves ch w b v : inv v → 1 ≤ w ≤ 2 → cx v + w ≤ cols v → moves v (place ch w b v).
Proof.
  intros Hv Hw Hx. pose proof (i_cx v Hv). pose proof (i_cy v Hv). unfold place.
  assert (paints v (if cx v =? 0 then x ← set_soft (cy v) false v; Done (if (cy v =? 0) && negb b then restart_top x else x) else Done v)) as P1.
  { destruct (_ =? _); [|by apply paints_done]. apply paints_bind; [by apply set_soft_paints|]. intros w1 D1 I1.
    eapply draws_paints; [done|done|]. destruct (_ && _); [apply restart_top_draws|done]. }
  destruct P1 as (w1 & -> & D1 & I1). obind.
  destruct (write_cell_paints (cx v) (cy v) ch (if w =? 2 then Z.lor (attrs w1) ATTR_WIDE else attrs w1) v w1 D1 I1) as (w2 & -> & D2 & I2);
    [lia..|]. obind.
  assert (paints v (if w =? 2 then write_cell (cx v + 1) (cy v) 32 (attrs w2) w2 else Done w2)) as (w3 & -> & D3 & I3).
  { destruct (Z.eqb_spec w 2); [|by eapply draws_paints]. apply write_cell_paints; [done|done|lia..]. }
  obind. apply moves_done; [|cbn; by apply draws_on_alt|intros E; exact (draws_main _ _ D3 E)].
  pose proof (draws_cx _ _ D3). pose proof (draws_cols _ _ D3). inv_set I3. lia.
Qed.
Lemma put_char_moves ch v : inv v → moves v (put_char ch v).
Proof.
  intros Hv. unfold put_char. rewrite char_width_ok. obind. pose proof (width_range ch) as Hw0.
  destruct (Z.eqb_spec (width_of ch) 0); [by apply moves_here|]. cbn zeta.
  set (w := if (width_of ch =? 2) && (cols v <? 2) then 1 else width_of ch).
  assert (1 ≤ w ≤ 2 ∧ (w = 2 → 2 ≤ cols v)) as [Hw Hw2].
  { subst w. destruct (Z.eqb_spec (width_of ch) 2), (Z.ltb_spec (cols v) 2); cbn; lia. }
  clearbody w. pose proof (i_cols v Hv) as Hc. unfold side in Hc. rewrite usub_ok by lia. obind.
  (* the deferred wrap *)
  assert (∃ v1 b, (if cols v <=? cx v then if wrap v then x ← autowrap v; Done (x, true) else Done (set_cx (cols v - 1) v, false)
      else Done (v, false)) = Done (v1, b) ∧ inv v1 ∧ on_alt v1 = on_alt v ∧ (on_alt v = true → main v1 = main v) ∧
      cx v1 < cols v ∧ cols v1 = cols v) as (v1 & b & -> & I1 & A1 & M1 & X1 & C1).
  { pose proof (i_cx v Hv). destruct (Z.leb_spec (cols v) (cx v)); [|by exists v, false; split_and!].
    destruct (wrap v).
    - destruct (autowrap_moves v Hv) as (w1 & -> & ? & ? & ? & E & ? & _). exists w1, true. obind. split_and!; (done || lia).
    - eexists _, _. split; [done|]. split; [inv_set Hv; lia|]. cbn. split_and!; (done || lia). }
  obind. rewrite C1. apply (moves_from v v1); [done..|]. pose proof (i_cx v1 I1). pose proof (i_cy v1 I1).
  destruct (Z.eqb_spec w 2), (Z.leb_spec (cols v) (cx v1 + 1)); cbn [andb]; try (apply place_moves; [done|lia..]).
  destruct (wrap v1).
  - destruct (autowrap_moves v1 I1) as (w1 & -> & I2 & A2 & M2 & E & C2 & _). obind.
    apply (moves_from v1 w1); [done..|]. apply place_moves; [done|lia|]. rewrite E, C2. lia.
  - destruct (write_cell_paints (cols v - 1) (cy v1) ch (attrs v1) v1 v1 (draws_refl _) I1) as (w2 & -> & D & I2); [lia..|].
    obind. pose proof (draws_cols _ _ D). apply moves_done; [inv_set I2; lia|cbn; by apply draws_on_alt|].
    intros E. exact (draws_main _ _ D E).
Qed.

(** ** Cursor, modes and reports *)

Lemma param_range i d v : inv v → in_u 32 d → in_u 32 (param i d v).
Proof.
  intros Hv Hd. unfold param. destruct (_ && _); [|done]. destruct (i_params v Hv) as [Hl Hp].
  destruct (nth_in_or_default i (params v) 0) as [Hin| ->]; [|unfold in_u; lia].
  rewrite Forall_forall in Hp. by apply Hp, list_elem_of_In.
Qed.
Lemma param_pos i d v : inv v → 1 ≤ d → 1 ≤ param i d v.
Proof.
  intros Hv Hd. unfold param. destruct (_ && _) eqn:E; [|done]. apply andb_true_iff in E as [_ E%negb_true_iff%Z.eqb_neq].
  destruct (i_params v Hv) as [Hl Hp]. destruct (nth_in_or_default i (params v) 0) as [Hin|]; [|lia].
  rewrite Forall_forall in Hp. apply list_elem_of_In, Hp in Hin as [Hin _]. lia.
Qed.

Lemma restore_cursor_moves v : inv v → moves v (restore_cursor v).
Proof.
  intros Hv. unfold restore_cursor. pose proof (i_cols v Hv). pose proof (i_rows v Hv). pose proof (i_saved v Hv). unfold side in *.
  rewrite usub_ok by lia. obind. rewrite usub_ok by lia. obind. set_done Hv.
Qed.
Lemma origin_row_ok r v : inv v → 0 ≤ r → ∃ y, origin_row r v = Done y ∧ 0 ≤ y < rows v.
Proof.
  intros Hv Hr. unfold origin_row. pose proof (i_region v Hv). pose proof (i_rows v Hv). unfold side in *.
  destruct (origin v); [eexists; split; [done|lia]|]. rewrite usub_ok by lia. eexists. split; [done|lia].
Qed.
Lemma column_moves i v : inv v → moves v (column i v).
Proof.
  intros Hv. unfold column. pose proof (param_pos i 1 v Hv ltac:(lia)). pose proof (i_cols v Hv). unfold side in *.
  rewrite usub_ok by lia. obind. rewrite usub_ok by lia. obind. set_done Hv.
Qed.
Lemma goto_row_moves v : inv v → moves v (goto_row v).
Proof.
  intros Hv. unfold goto_row. pose proof (param_pos 0 1 v Hv ltac:(lia)). rewrite usub_ok by lia. obind.
  destruct (origin_row_ok (param 0 1 v - 1) v Hv ltac:(lia)) as (y & -> & Hy). obind. set_done Hv.
Qed.
Lemma set_region_moves v : inv v → moves v (set_region v).
Proof.
  intros Hv. unfold set_region. pose proof (i_rows v Hv) as Hr. unfold side in Hr. rewrite usub_ok by lia. obind.
  pose proof (param_pos 1 (as_u 32 (rows v)) v Hv) as Hp. rewrite as_u_small in * by (unfold in_u; lia).
  rewrite usub_ok by lia. obind. rewrite usub_ok by lia. obind. cbn zeta. pose proof (i_cols v Hv) as Hc. unfold side in Hc.
  destruct (Z.ltb_spec (Z.max (param 0 1 v) 1 - 1) (param 1 (rows v) v - 1)),
    (Z.ltb_spec (param 1 (rows v) v - 1) (rows v)); cbn [andb]; (apply moves_done; [|done|done]);
    inv_set Hv; cbn; destruct (origin v); lia.
Qed.
Lemma device_status_moves v : inv v → moves v (device_status v).
Proof.
  intros Hv. unfold device_status. destruct (negb _); [by apply moves_here|]. pose proof (i_cols v Hv). unfold side in *.
  rewrite usub_ok by lia. obind. set_done Hv.
Qed.
Lemma sgr_moves v : inv v → moves v (sgr v).
Proof.
  intros Hv. unfold sgr. pose proof (i_nparams v Hv). destruct (i_params v Hv) as [Hl _].
  destruct (slice_len (params v) 0 (nparams v)) as (ps & -> & _); [lia|lia|]. obind.
  destruct (apply_ok (pal v) ps (mkPen (fg v) (bg v) (attrs v))) as [pen ->]; [apply Hv|]. obind. set_done Hv.
Qed.
Lemma set_sync_moves on v : inv v → inv (set_sync_mode on v) ∧ on_alt (set_sync_mode on v) = on_alt v ∧
  main (set_sync_mode on v) = main v.
Proof.
  intros Hv. unfold set_sync_mode, note, push_event. destruct (eqb _ _); [done|].
  destruct on, (capture_events v) eqn:E; cbn; rewrite ?E; (split; [inv_set Hv|done]).
Qed.

(** *** The alternate screen *)

(** The two halves of a switch, once the buffers are swapped. *)
Definition pars (v : Vt) : list Z * Z := (params v, nparams v).
Lemma draws_pars v w : draws v w → pars w = pars v.
Proof. by intros [(c & wr & d & ps & t & -> & _)]. Qed.
Definition entered (v : Vt) : Vt := set_cy 0 (set_cx 0 (set_saved_wrap (wrap v) (set_saved (cx v, cy v) v))).
Lemma entered_ok v : inv v → inv (entered v) ∧ on_alt (entered v) = on_alt v ∧ main (entered v) = main v ∧ pars (entered v) = pars v.
Proof.
  intros Hv. pose proof (i_cx _ Hv). pose proof (i_cy _ Hv). pose proof (i_cols _ Hv). unfold side in *.
  split; [|done]. unfold entered. inv_set Hv; lia.
Qed.
Lemma cursor_left_ok v : inv v → ∃ w, (x ← restore_cursor v; Done (set_wrap (saved_wrap x) x)) = Done w ∧ inv w ∧
  on_alt w = on_alt v ∧ main w = main v ∧ pars w = pars v.
Proof.
  intros Hv. unfold restore_cursor. pose proof (i_cols _ Hv). pose proof (i_rows _ Hv). pose proof (i_saved _ Hv). unfold side in *.
  rewrite usub_ok by lia. obind. rewrite usub_ok by lia. obind. eexists. split; [done|]. split; [inv_set Hv; lia|done].
Qed.
Lemma swapped_ok enter v : inv v → on_alt v = negb enter →
  inv (set_on_alt enter (swap_screens v)) ∧ main (set_on_alt enter (swap_screens v)) = main v.
Proof.
  intros Hv E. split; [destruct Hv; by split|]. unfold main. cbn. rewrite E. by destruct enter.
Qed.
Lemma noted_ok e v : inv v → inv (mark_all (note e v)) ∧ on_alt (mark_all (note e v)) = on_alt v ∧
  main (mark_all (note e v)) = main v ∧ pars (mark_all (note e v)) = pars v.
Proof.
  intros Hv. assert (draws v (mark_all (note e v))) as D by (etransitivity; [apply note_draws|apply mark_all_draws]).
  split; [by eapply draws_inv|]. split; [by apply draws_on_alt|].
  split; [|by apply draws_pars]. unfold note. by destruct (capture_events v).
Qed.
(** Switching screens keeps the main one, drawn or not. *)
Lemma alt_screen_ok enter v : inv v → ∃ w, alt_screen enter v = Done w ∧ inv w ∧ on_alt w = enter ∧ main w = main v ∧
  pars w = pars v.
Proof.
  intros Hv. unfold alt_screen. destruct (eqb enter (on_alt v)) eqn:E.
  { apply eqb_prop in E. by exists v. }
  assert (on_alt v = negb enter) as Ea by (destruct enter, (on_alt v); done).
  destruct (swapped_ok enter v Hv Ea) as [I1 M1]. assert (on_alt (set_on_alt enter (swap_screens v)) = enter) as A1 by done.
  assert (pars (set_on_alt enter (swap_screens v)) = pars v) as P1 by done.
  revert I1 M1 A1 P1. generalize (set_on_alt enter (swap_screens v)). intros v1 I1 M1 A1 P1. cbn zeta.
  assert (∃ v2, (if enter then Done (entered (erase_all v1)) else x ← restore_cursor v1; Done (set_wrap (saved_wrap x) x)) = Done v2 ∧
    inv v2 ∧ on_alt v2 = enter ∧ main v2 = main v ∧ pars v2 = pars v) as (v2 & E2 & I2 & A2 & M2 & P2).
  { destruct enter.
    - pose proof (draws_inv _ _ (erase_all_draws v1) I1) as Ie. destruct (entered_ok _ Ie) as (I & A & M & P).
      eexists. split; [done|]. split; [done|]. rewrite A, M, P, (draws_on_alt _ _ (erase_all_draws v1)).
      rewrite (draws_pars _ _ (erase_all_draws v1)), (draws_main _ _ (erase_all_draws v1)); done.
    - destruct (cursor_left_ok v1 I1) as (w & Ew & I & A & M & P). exists w. rewrite A, M, P. done. }
  unfold entered in E2. rewrite E2. obind. eexists. split; [done|].
  set (e := if enter then _ else _). destruct (noted_ok e v2 I2) as (I & A & M & P). rewrite A, M, P. done.
Qed.
Lemma set_sync_pars on v : pars (set_sync_mode on v) = pars v.
Proof. unfold set_sync_mode, note. destruct (eqb _ _); [done|]. destruct on; by case_match. Qed.
Lemma one_mode_ok set m v : inv v → ∃ w, one_mode set m v = Done w ∧ inv w ∧ main w = main v ∧ pars w = pars v.
Proof.
  intros Hv. unfold one_mode. pose proof (i_cols v Hv). pose proof (i_region v Hv). pose proof (i_rows v Hv). unfold side in *.
  destruct (m =? 1); [eexists; split; [done|]; split; [inv_set Hv|done]|].
  destruct (m =? 6); [eexists; split; [done|]; split; [inv_set Hv; cbn; destruct set; lia|done]|].
  destruct (m =? 7); [eexists; split; [done|]; split; [inv_set Hv|done]|].
  destruct (m =? 25); [eexists; split; [done|]; split; [inv_set Hv|done]|].
  destruct (_ || _).
  { destruct (alt_screen_ok set v Hv) as (w & E & Hw & _ & M & P). by exists w. }
  destruct (m =? 2026); [|by eexists]. destruct (set_sync_moves set v Hv) as (I & _ & M). eexists. split; [done|].
  split; [done|]. split; [done|]. apply set_sync_pars.
Qed.
Lemma mode_set_ok set v : inv v → ∃ w, mode_set set v = Done w ∧ inv w ∧ main w = main v.
Proof.
  intros Hv. unfold mode_set. destruct (for_range_inv (λ w, inv w ∧ main w = main v ∧ pars w = pars v) 0 (nparams v)
    (λ i v, m ← idx (params v) i; one_mode set m v) v) as (w & -> & Hw & M & _); [done| |by exists w].
  intros i w Hi (Hw & M & P). pose proof (i_nparams v Hv). destruct (i_params w Hw) as [Hl _].
  destruct (idx_ok (params w) i) as (m & -> & _); [lia|]. obind.
  destruct (one_mode_ok set m w Hw) as (x & -> & Hx & M' & P'). exists x. split; [done|]. split; [done|]. split; congruence.
Qed.

(** ** Control sequences *)

(** [steps v r]: the byte returned, the invariant holds, and the main screen is
    as it was if it was not shown and still is not. *)
Definition steps (v : Vt) (r : outcome Vt) : Prop :=
  ∃ w, r = Done w ∧ inv w ∧ (on_alt v = true → on_alt w = true → main w = main v).
Lemma steps_moves v r : moves v r → steps v r.
Proof. intros (w & -> & Hw & _ & Hm). exists w. auto. Qed.

Lemma dispatch_plain_moves fin v : inv v → moves v (dispatch_plain fin v).
Proof.
  intros Hv. unfold dispatch_plain. cbn zeta. pose proof (param_pos 0 1 v Hv ltac:(lia)) as Hn.
  pose proof (i_cols v Hv). pose proof (i_rows v Hv). pose proof (i_cx v Hv). pose proof (i_cy v Hv). unfold side in *.
  destruct (fin =? 65); [apply moves_done; [inv_set Hv; unfold sat_sub; lia|done|done]|].
  destruct (fin =? 66); [rewrite usub_ok by lia; obind; set_done Hv|].
  destruct (fin =? 67); [rewrite usub_ok by lia; obind; set_done Hv|].
  destruct (fin =? 68); [apply moves_done; [inv_set Hv; unfold sat_sub; lia|done|done]|].
  destruct (fin =? 71); [by apply column_moves|]. destruct (fin =? 100); [by apply goto_row_moves|].
  destruct (_ || _); [apply moves_bind; [by apply goto_row_moves|]; intros; by apply column_moves|].
  destruct (fin =? 74); [by apply moves_paints, erase_display_paints|].
  destruct (fin =? 75); [by apply moves_paints, erase_line_paints|].
  destruct (fin =? 76); [apply moves_paints, insert_lines_paints; [done|lia]|].
  destruct (fin =? 77); [apply moves_paints, delete_lines_paints; [done|lia]|].
  destruct (fin =? 64); [apply moves_paints, insert_chars_paints; [done|lia]|].
  destruct (fin =? 80); [apply moves_paints, delete_chars_paints; [done|lia]|].
  destruct (fin =? 88); [apply moves_paints, erase_chars_paints; [done|lia]|].
  destruct (fin =? 83); [by apply moves_paints, scroll_region_up_paints|].
  destruct (_ && _); [by apply moves_paints, scroll_region_down_paints|].
  destruct (fin =? 109); [by apply sgr_moves|]. destruct (fin =? 115); [set_done Hv; cbn; lia|].
  destruct (fin =? 117); [by apply restore_cursor_moves|]. destruct (fin =? 114); [by apply set_region_moves|].
  destruct (fin =? 110); [by apply device_status_moves|by apply moves_here].
Qed.
Lemma dispatch_dec_steps fin v : inv v → steps v (dispatch_dec fin v).
Proof.
  intros Hv. unfold dispatch_dec. destruct (_ || _).
  { destruct (mode_set_ok (fin =? 104) v Hv) as (w & -> & Hw & M). by exists w. }
  apply steps_moves. destruct (fin =? 74); [by apply moves_paints, erase_display_paints|].
  destruct (fin =? 75); [by apply moves_paints, erase_line_paints|].
  destruct (fin =? 110); [by apply device_status_moves|by apply moves_here].
Qed.
Lemma dispatch_csi_steps fin v : inv v → steps v (dispatch_csi fin v).
Proof.
  intros Hv. unfold dispatch_csi. destruct (csi_bad v); [by apply steps_moves, moves_here|].
  destruct (_ && _); [by apply steps_moves, dispatch_plain_moves|].
  destruct (_ && _); [by apply dispatch_dec_steps|]. apply steps_moves. destruct (_ && _); [|by apply moves_here].
  unfold report_mode. set_done Hv.
Qed.
Lemma push_param_moves v : inv v → moves v (push_param v).
Proof.
  intros Hv. unfold push_param. pose proof (i_nparams v Hv) as Hn. destruct (i_params v Hv) as [Hl Hp]. pose proof (i_cur v Hv) as Hc.
  destruct (Z.ltb_spec (nparams v) MAX_PARAMS).
  - set (x := if param_seen v then cur_param v else 0). assert (in_u 32 x) as Hx by (subst x; destruct (param_seen v); [done|unfold in_u; lia]).
    unfold set_idx. rewrite (proj2 (Z.leb_le _ _)), (proj2 (Z.ltb_lt _ _)) by lia. cbn [andb]. obind.
    apply moves_done; [|done|done]. inv_set Hv; [|lia|unfold in_u; lia].
    split; [by rewrite length_insert|]. by apply Forall_insert.
  - obind. apply moves_done; [|done|done]. inv_set Hv. unfold in_u; lia.
Qed.
Lemma execute_moves b v : inv v → moves v (execute b v).
Proof.
  intros Hv. unfold execute. pose proof (i_cols v Hv). pose proof (i_cx v Hv) as Hx. unfold side in *.
  destruct (b =? 10); [by apply line_feed_moves|]. destruct (b =? 13); [set_done Hv|].
  destruct (b =? 8); [destruct (Z.ltb_spec 0 (cx v)); [set_done Hv|by apply moves_here]|].
  destruct (b =? 9).
  { rewrite usub_ok by lia. obind. pose proof (Z.div_pos (cx v) 8 ltac:(lia) ltac:(lia)). set_done Hv. }
  destruct (b =? 7); [|by apply moves_here]. apply moves_paints, paints_done; [done|apply note_draws].
Qed.
Lemma csi_steps b v : inv v → steps v (csi b v).
Proof.
  intros Hv. unfold csi. cbn zeta. destruct (_ && _); [apply steps_moves; set_done Hv|].
  destruct (within 48 57 b) eqn:Eb.
  { apply within_iff in Eb. apply steps_moves. pose proof (i_cur v Hv) as [Hc _]. apply moves_done; [|done|done]. inv_set Hv.
    unfold in_u, sat_add, sat_mul, u_max in *. lia. }
  destruct (_ || _); [by apply steps_moves, push_param_moves|].
  destruct (within 60 63 b); [apply steps_moves; destruct (_ && _); set_done Hv|].
  destruct (within 32 47 b); [apply steps_moves; set_done Hv|]. destruct (within 64 126 b).
  { destruct (push_param_moves v Hv) as (w & -> & Hw & A & M). obind.
    destruct (dispatch_csi_steps b w Hw) as (x & -> & Hx & M'). obind. eexists. split; [done|]. split; [inv_set Hx|].
    cbn. intros E1 E2. rewrite <-M by done. by apply M'; [congruence|]. }
  destruct (b =? 27); [apply steps_moves; set_done Hv|]. destruct (_ || _); [apply steps_moves; set_done Hv|].
  destruct (_ || _); [by apply steps_moves, execute_moves|]. apply steps_moves; set_done Hv.
Qed.

(** ** Escapes and operating system commands *)

Lemma power_on_inv v : inv v → inv (power_on (rows v - 1) v).
Proof.
  intros Hv. pose proof (i_cols v Hv). pose proof (i_rows v Hv). unfold side in *. unfold power_on. inv_set Hv; lia.
Qed.
Lemma power_on_alt n v : on_alt (power_on n v) = on_alt v.
Proof. done. Qed.
Lemma reset_draws v : draws v (note_screen_erased (mark_all (restart_top (erase_all v)))).
Proof.
  etransitivity; [apply erase_all_draws|]. etransitivity; [apply restart_top_draws|].
  etransitivity; [apply mark_all_draws|apply note_screen_erased_draws].
Qed.
(** A reset ends on the main screen. *)
Lemma full_reset_steps v : inv v → ∃ w, full_reset v = Done w ∧ inv w ∧ on_alt w = false.
Proof.
  intros Hv. unfold full_reset. destruct (alt_screen_ok false v Hv) as (w & -> & Hw & A & _). rewrite bind_done.
  pose proof (i_rows w Hw). unfold side in *. rewrite usub_ok by lia. rewrite bind_done.
  pose proof (power_on_inv w Hw) as Hp. pose proof (power_on_alt (rows w - 1) w) as Ap. rewrite A in Ap.
  revert Hp Ap. generalize (power_on (rows w - 1) w). intros w1 Hp Ap.
  destruct (screen_to_history_paints w1 Hp) as (x & -> & D & Hx). rewrite bind_done. eexists. split; [reflexivity|].
  destruct (set_sync_moves false _ (draws_inv _ _ (reset_draws x) Hx)) as (I & As & _). split; [exact I|].
  by rewrite As, (draws_on_alt _ _ (reset_draws x)), (draws_on_alt _ _ D).
Qed.

Lemma set_state_inv s v : inv v → inv (set_state s v).
Proof. intros Hv. inv_set Hv. Qed.
Lemma esc_steps b v : inv v → steps v (esc b v).
Proof.
  intros Hv. unfold esc. cbn zeta. pose proof (set_state_inv Ground v Hv) as Hg.
  pose proof (i_cx v Hv). pose proof (i_cy v Hv). pose proof (i_region v Hv).
  destruct (b =? 91); [apply steps_moves; set_done Hv; unfold in_u, MAX_PARAMS; lia|].
  destruct (b =? 93); [apply steps_moves; set_done Hv; done|].
  destruct (_ || _); [apply steps_moves; set_done Hv|].
  destruct (b =? 55); [apply steps_moves; set_done Hv; cbn; lia|].
  destruct (b =? 56).
  { destruct (cursor_left_ok _ Hg) as (w & -> & Hw & A & M & _). apply steps_moves, moves_done; [done|done|]. intros _. by rewrite M. }
  destruct (b =? 68); [apply steps_moves, (moves_from v _ _ Hg); [done|done|by apply line_feed_moves]|].
  destruct (b =? 77).
  { apply steps_moves, (moves_from v _ _ Hg); [done|done|]. destruct (_ =? _); [by apply moves_paints, scroll_down_paints|].
    cbn [cy set_state]. destruct (Z.ltb_spec 0 (cy v)); [|by apply moves_here]. set_done Hg. }
  destruct (b =? 99); [|apply steps_moves; set_done Hv].
  destruct (full_reset_steps _ Hg) as (w & -> & Hw & A). exists w. split; [done|]. split; [done|]. congruence.
Qed.

Lemma osc_end_ok v : inv v → inv (osc_end v) ∧ on_alt (osc_end v) = on_alt v ∧ main (osc_end v) = main v.
Proof.
  intros Hv. unfold osc_end, push_event. destruct (osc_over v); [split; [inv_set Hv; done|done]|].
  cbn zeta. generalize (settings_line (osc_buf (set_osc_over false v))). intros line.
  set (v1 := match line with Some (Some l) => _ | _ => _ end).
  assert (inv v1 ∧ on_alt v1 = on_alt v ∧ main v1 = main v) as (I1 & A1 & M1).
  { subst v1. destruct line as [[l|]|]; [destruct (_ <? _)|..]; (split; [inv_set Hv|done]). }
  clearbody v1. destruct (_ && _); [destruct (is_beacon _)|]; (split; [inv_set I1; done|]); by rewrite <-A1, <-M1.
Qed.

(** ** Bytes *)

Lemma ground_moves b v : inv v → moves v (ground b v).
Proof.
  intros Hv. unfold ground. destruct (_ && _).
  { cbn zeta. set (v1 := set_utf_rem _ _). assert (inv v1) as I1 by (subst v1; inv_set Hv).
    assert (on_alt v1 = on_alt v ∧ main v1 = main v) as [A1 M1] by done. clearbody v1.
    apply (moves_from v v1); [done..|]. destruct (_ =? _); [by apply put_char_moves|by apply moves_here]. }
  cbn zeta. set (v1 := if 0 <? utf_rem v then _ else _).
  assert (inv v1 ∧ on_alt v1 = on_alt v ∧ main v1 = main v) as (I1 & A1 & M1).
  { subst v1. destruct (_ <? _); [split; [inv_set Hv|done]|done]. }
  clearbody v1. apply (moves_from v v1); [done..|]. destruct (b =? 27); [set_done I1|].
  destruct (_ || _); [by apply execute_moves|]. destruct (within 32 126 b); [by apply put_char_moves|].
  destruct (within 192 223 b); [set_done I1|]. destruct (within 224 239 b); [set_done I1|].
  destruct (within 240 247 b); [set_done I1|by apply moves_here].
Qed.
Lemma osc_cap_bound buf : osc_body_cap buf ≤ OSC_BEACON_MAX.
Proof. unfold osc_body_cap, OSC_BEACON_MAX, OSC_MAX. case_match; lia. Qed.
Lemma byte_steps b v : inv v → steps v (byte b v).
Proof.
  intros Hv. unfold byte. destruct (state v).
  - by apply steps_moves, ground_moves.
  - by apply esc_steps.
  - apply steps_moves; set_done Hv.
  - by apply csi_steps.
  - apply steps_moves. destruct (osc_end_ok v Hv) as (I & A & M). destruct (b =? 7).
    { apply moves_done; [by apply set_state_inv|exact A|intros _; exact M]. }
    destruct (b =? 27); [set_done Hv|]. pose proof (osc_cap_bound (osc_buf v)).
    destruct (Z.ltb_spec (zlen (osc_buf v)) (osc_body_cap (osc_buf v))); set_done Hv. rewrite length_app. cbn. lia.
  - apply steps_moves. destruct (osc_end_ok v Hv) as (I & A & M).
    destruct (b =? 92); [apply moves_done; [by apply set_state_inv|exact A|intros _; exact M]|set_done Hv].
Qed.

Lemma bytes_ok bs v : inv v → ∃ w, bytes bs v = Done w ∧ inv w.
Proof.
  revert v. induction bs as [|b bs IH]; intros v Hv; [by exists v|]. cbn [bytes].
  destruct (byte_steps b v Hv) as (w & -> & Hw & _). obind. by apply IH.
Qed.
Lemma set_pending_inv ps v : inv v → inv (set_pending ps v).
Proof. intros Hv. inv_set Hv. Qed.
Lemma feed_ok bs v : inv v → ∃ w, feed bs v = Done w ∧ inv w.
Proof.
  intros Hv. unfold feed. destruct (bytes_ok bs v Hv) as (w & -> & Hw). eexists. split; [done|]. by apply set_pending_inv.
Qed.
Lemma feed_loop_ok bs v : inv v → ∃ w rest e, feed_loop bs v = Done (w, rest, e) ∧ inv w ∧ suffix rest bs.
Proof.
  revert v. induction bs as [|b bs IH]; intros v Hv; cbn [feed_loop]; [by exists v, [], None|].
  destruct (byte_steps b v Hv) as (w & -> & Hw & _). obind. destruct (pending w).
  - destruct (IH w Hw) as (x & rest & e & -> & Hx & Hs). exists x, rest, e. split; [done|]. split; [done|]. by apply suffix_cons_r.
  - eexists _, _, _. split; [done|]. split; [by apply set_pending_inv|by apply suffix_cons_r].
Qed.
Lemma feed_until_ok bs v : inv v → ∃ w rest e, feed_until bs v = Done (w, rest, e) ∧ inv w ∧ suffix rest bs.
Proof.
  intros Hv. unfold feed_until. destruct (pending v); [by apply feed_loop_ok|].
  eexists _, _, _. split; [done|]. split; [by apply set_pending_inv|done].
Qed.

(** ** Birth and themes *)

Lemma with_palette_ok c r p : c < 2 ^ 31 → r < 2 ^ 31 → zlen (p_ansi p) = 16 → ∃ v, with_palette c r p = Done v ∧ inv v.
Proof.
  intros Hc Hr Hp. unfold with_palette. cbn zeta. rewrite umul_ok by (unfold u_max; nia). obind. rewrite usub_ok by lia. obind.
  eexists. split; [done|]. split; cbn; unfold side; rewrite ?length_replicate; try lia.
  - split; [done|]. repeat (constructor; [unfold in_u; lia|]). constructor.
  - done.
  - unfold in_u; lia.
  - done.
Qed.
Lemma set_palette_inv p v : zlen (p_ansi p) = 16 → inv v → inv (set_palette p v).
Proof.
  intros Hp Hv. unfold set_palette. case_bool_decide; [done|]. unfold mark_all. destruct Hv.
  split; cbn; rewrite ?length_fmap, ?length_replicate; done.
Qed.

End VtTotal.
