(* ===== verification/VtReflow.v ===== *)
(** * The terminal emulator: a resize returns

    The re-cut of the main screen and the crop of the alternate one produce whole
    grids of the new geometry with the cursor on them. *)

From S2P Require Import Prelude VtBase Vt VtResize VtInv VtTotal.
Import VtBase Vt VtResize VtInv VtTotal.
Open Scope Z_scope.

Module VtReflow.

(** ** The re-cut of one line *)

Section Recut.
Context (ncols : Z) (bl : Cell) (Hn : 1 ≤ ncols).

(** Finished rows are whole, the open one fits, and every position is on them. *)
Definition on_rows (n : Z) (p : Z * Z) : Prop := 0 ≤ p.1 ≤ n ∧ 0 ≤ p.2 < ncols.
Definition cut_ok (s : Recut) : Prop :=
  zlen (out s) = ncols * zlen (out_wrapped s) ∧ zlen (row s) ≤ ncols ∧ Forall (on_rows (zlen (out_wrapped s))) (pos s).

Lemma on_rows_mono n m p : n ≤ m → on_rows n p → on_rows m p.
Proof. unfold on_rows. lia. Qed.
Lemma pad_row_len r : zlen r ≤ ncols → zlen (pad_row ncols bl r) = ncols.
Proof. intros H. unfold pad_row. rewrite length_app, length_replicate. lia. Qed.
Lemma make_room_ok w s : cut_ok s → 1 ≤ w ≤ ncols → cut_ok (make_room ncols bl w s) ∧
  zlen (row (make_room ncols bl w s)) + w ≤ ncols ∧ pos (make_room ncols bl w s) = pos s ∧
  zlen (out_wrapped s) ≤ zlen (out_wrapped (make_room ncols bl w s)).
Proof.
  intros (H1 & H2 & H3) Hw. unfold make_room. destruct (Z.ltb_spec ncols (zlen (row s) + w)); [|done]. cbn.
  split; [|split; [cbn; lia|split; [done|rewrite length_app; cbn; lia]]]. split; [|split; [cbn; lia|]].
  - cbn. rewrite !length_app. pose proof (pad_row_len (row s) H2). cbn. lia.
  - cbn. eapply Forall_impl; [exact H3|]. intros p. apply on_rows_mono. rewrite length_app. lia.
Qed.
Lemma push_cell_ok c s : cut_ok s → zlen (row s) + 1 ≤ ncols → cut_ok (push_cell c s) ∧
  zlen (pos (push_cell c s)) = zlen (pos s) + 1 ∧ out_wrapped (push_cell c s) = out_wrapped s ∧
  zlen (row (push_cell c s)) = zlen (row s) + 1.
Proof.
  intros (H1 & H2 & H3) Hr. unfold push_cell, cut_ok. cbn. rewrite !length_app. cbn. split; [|split; [lia|split; [done|lia]]].
  split; [done|]. split; [lia|]. apply Forall_app. split; [done|]. constructor; [|constructor]. unfold on_rows. cbn. lia.
Qed.

Lemma recut_cons2 c d rest s : recut ncols bl (c :: d :: rest) s =
  if is_wide_cell c && is_cont d then
    s ← (if 2 <=? ncols then Done (push_cell d (push_cell c (make_room ncols bl (if 2 <=? ncols then 2 else 1) s)))
         else drop_half (push_cell c (make_room ncols bl (if 2 <=? ncols then 2 else 1) s)));
    recut ncols bl rest s
  else recut ncols bl (d :: rest) (push_cell c (make_room ncols bl 1 s)).
Proof. done. Qed.
Lemma recut_ok content s : cut_ok s → ∃ s', recut ncols bl content s = Done s' ∧ cut_ok s' ∧
  zlen (pos s') = zlen (pos s) + zlen content ∧ zlen (out_wrapped s) ≤ zlen (out_wrapped s').
Proof.
  remember (length content) as n eqn:En. revert content s En. induction n as [n IH] using lt_wf_ind. intros content s -> Hs.
  destruct content as [|c [|d rest]]; [cbn [recut]..|rewrite recut_cons2].
  - exists s. split; [done|]. split; [done|]. cbn. lia.
  - destruct (make_room_ok 1 s Hs ltac:(lia)) as (O1 & R1 & P1 & W1).
    destruct (push_cell_ok c _ O1 R1) as (O2 & P2 & W2 & R2). eexists. split; [done|]. split; [done|]. rewrite P2, P1, W2. cbn. lia.
  - destruct (is_wide_cell c && is_cont d).
    + set (w := if 2 <=? ncols then 2 else 1). assert (1 ≤ w ≤ ncols) as Hw by (subst w; destruct (Z.leb_spec 2 ncols); lia).
      destruct (make_room_ok w s Hs Hw) as (O1 & R1 & P1 & W1).
      destruct (push_cell_ok c _ O1 ltac:(lia)) as (O2 & P2 & W2 & R2).
      assert (∃ s2, (if 2 <=? ncols then Done (push_cell d (push_cell c (make_room ncols bl w s)))
        else drop_half (push_cell c (make_room ncols bl w s))) = Done s2 ∧ cut_ok s2 ∧ zlen (pos s2) = zlen (pos s) + 2 ∧
        zlen (out_wrapped s) ≤ zlen (out_wrapped s2)) as (s2 & -> & O3 & P3 & W3).
      { subst w. destruct (Z.leb_spec 2 ncols).
        - destruct (push_cell_ok d _ O2 ltac:(lia)) as (O3 & P3 & W3 & R3). eexists. split; [done|]. split; [done|].
          rewrite P3, P2, P1, W3, W2. lia.
        - unfold drop_half. rewrite usub_ok by lia. eexists. split; [done|]. split; [|cbn [pos out_wrapped]; rewrite length_app, W2; cbn [length]; rewrite P1 in P2; lia].
          destruct O2 as (Q1 & Q2 & Q3). split; [done|]. split; [done|]. apply Forall_app. split; [done|].
          constructor; [|constructor]. unfold on_rows. cbn [out_wrapped fst snd row]. lia. }
      obind. destruct (IH (length rest) ltac:(cbn; lia) rest s2 eq_refl O3) as (s' & -> & O' & P' & W').
      exists s'. split; [done|]. split; [done|]. cbn. lia.
    + destruct (make_room_ok 1 s Hs ltac:(lia)) as (O1 & R1 & P1 & W1).
      destruct (push_cell_ok c _ O1 R1) as (O2 & P2 & W2 & R2).
      destruct (IH (length (d :: rest)) ltac:(cbn; lia) (d :: rest) _ eq_refl O2) as (s' & -> & O' & P' & W').
      exists s'. split; [done|]. split; [done|]. rewrite P2, P1, W2 in *. cbn in *. lia.
Qed.
End Recut.

(** ** Lines *)

Lemma line_end_bounds fuel wrapped rows r : r < rows → r ≤ line_end fuel wrapped rows r < rows.
Proof.
  revert r. induction fuel as [|fuel IH]; intros r Hr; cbn [line_end]; [lia|].
  destruct (Z.ltb_spec (r + 1) rows); cbn [andb]; [|lia]. destruct (soft_at wrapped r); [|lia]. specialize (IH (r + 1)). lia.
Qed.
Lemma gather_ok cells cols rows r e : 1 ≤ cols → 0 ≤ r ≤ e + 1 → e < rows → zlen cells = cols * rows →
  ∃ c, gather cells cols r e = Done c ∧ zlen c = (e + 1 - r) * cols.
Proof.
  intros Hc Hr He Hl. unfold gather, for_range. replace (e + 1 - r) with (Z.of_nat (Z.to_nat (e + 1 - r))) by lia.
  assert (∀ n r acc, 0 ≤ r → r + Z.of_nat n ≤ rows →
    ∃ c, foldM (λ s rr, row ← slice cells (rr * cols) ((rr + 1) * cols); Done (s ++ row)) acc (seqZ r (Z.of_nat n)) = Done c ∧
      zlen c = zlen acc + Z.of_nat n * cols) as H.
  { induction n as [|n IH]; intros q acc Hq Hn; [exists acc; split; [done|lia]|]. rewrite Nat2Z.inj_succ, seqZ_cons by lia. cbn [foldM].
    destruct (slice_len cells (q * cols) ((q + 1) * cols)) as (row & -> & Hrow); [nia|nia|]. obind. rewrite Z.pred_succ.
    destruct (IH (Z.succ q) (acc ++ row)) as (c & -> & E); [lia|lia|]. exists c. split; [done|]. rewrite E, length_app. lia. }
  destruct (H (Z.to_nat (e + 1 - r)) r [] ltac:(lia) ltac:(lia)) as (c & Ec & E). exists c. split; [done|]. cbn in E. lia.
Qed.
Lemma trim_pad_len bl low l : 0 ≤ low ≤ zlen l → low ≤ zlen (trim_pad bl low l) ≤ zlen l.
Proof.
  induction l as [|c l IH]; intros Hl; cbn [trim_pad]; [cbn in *; lia|].
  destruct (Z.ltb_spec low (zlen (c :: l))); cbn [andb]; [|lia]. destruct (is_pad bl c); [|lia]. cbn [length] in *. lia.
Qed.
Lemma truncate_len bl low l : 0 ≤ low ≤ zlen l → low ≤ zlen (truncate bl low l) ≤ zlen l.
Proof. intros Hl. unfold truncate. pose proof (trim_pad_len bl low (rev l)) as H. rewrite !length_rev in *. by apply H. Qed.

(** Whole rows so far, and the cursor on one of them once its line is done. *)
Definition lines_ok (ncols : Z) (o : list Cell) (ow : list bool) (cur : option (Z * Z)) : Prop :=
  zlen o = ncols * zlen ow ∧ match cur with Some p => 0 ≤ p.1 < zlen ow ∧ 0 ≤ p.2 ≤ ncols | None => True end.

Section Lines.
Context (cells : list Cell) (wrapped : list bool) (cols rows ncols : Z) (cursor : Z * Z) (bl : Cell).
Context (Hc : 1 ≤ cols) (Hn : 1 ≤ ncols) (Hl : zlen cells = cols * rows) (Hcx : 0 ≤ cursor.1 ≤ cols).

Lemma reflow_line_ok r o ow cur : 0 ≤ r < rows → lines_ok ncols o ow cur →
  ∃ o' ow' cur' r', reflow_line cells wrapped cols rows cursor ncols bl r o ow cur = Done (o', ow', cur', r') ∧
    lines_ok ncols o' ow' cur' ∧ r < r' ≤ rows ∧ 1 ≤ zlen ow'.
Proof.
  intros Hr [Ho Hcur]. unfold reflow_line. destruct cursor as [x y]. cbn [fst] in Hcx.
  pose proof (line_end_bounds (Z.to_nat rows) wrapped rows r ltac:(lia)) as He. set (e := line_end _ _ _ _) in *. cbn zeta.
  destruct (gather_ok cells cols rows r e Hc ltac:(lia) ltac:(lia) Hl) as (c & -> & Ec). obind.
  pose proof (truncate_len bl ((e - r) * cols) c ltac:(nia)) as Ht. set (t := truncate _ _ _) in *.
  destruct (recut_ok ncols bl Hn t (mkRecut o ow [] [])) as (s & -> & (S1 & S2 & S3) & P & W).
  { split; [done|]. split; [cbn; lia|constructor]. }
  obind. cbn in P, W.
  assert (∃ cur', (if (r <=? y) && (y <=? e) then
      if (y - r) * cols + x <? zlen t then p ← idx (pos s) ((y - r) * cols + x); Done (Some p)
      else if (y - r) * cols + x =? zlen t then Done (Some (zlen (out_wrapped s), zlen (row s)))
      else right ← usub ncols 1; Done (Some (zlen (out_wrapped s), Z.min (zlen (row s) + ((y - r) * cols + x - zlen t)) right))
    else Done cur) = Done cur' ∧ match cur' with Some p => 0 ≤ p.1 < zlen (out_wrapped s) + 1 ∧ 0 ≤ p.2 ≤ ncols | None => True end)
    as (cur' & -> & Hcur').
  { destruct (Z.leb_spec r y), (Z.leb_spec y e); cbn [andb]; try (eexists; split; [done|]; destruct cur; [lia|done]).
    destruct (Z.ltb_spec ((y - r) * cols + x) (zlen t)).
    { destruct (idx_ok (pos s) ((y - r) * cols + x)) as (p & -> & Hp); [nia|]. eexists. split; [done|].
      apply (list_elem_of_lookup_2) in Hp. rewrite Forall_forall in S3. apply S3 in Hp as [? ?]. lia. }
    destruct (_ =? _); [eexists; split; [done|]; cbn; lia|]. rewrite usub_ok by lia. eexists. split; [done|]. cbn. lia. }
  obind. eexists _, _, _, _. split; [done|]. pose proof (pad_row_len ncols bl (row s) S2) as Hpad.
  split; [|split; [lia|rewrite length_app; cbn; lia]]. split; [rewrite !length_app; cbn; lia|]. rewrite length_app.
  destruct cur'; [cbn; lia|done].
Qed.
Lemma reflow_loop_ok fuel r o ow cur : 0 ≤ r ≤ rows → rows - r < Z.of_nat fuel → lines_ok ncols o ow cur → (r = rows → 1 ≤ zlen ow) →
  ∃ o' ow' cur', reflow_loop fuel cells wrapped cols rows cursor ncols bl r o ow cur = Done (o', ow', cur') ∧
    lines_ok ncols o' ow' cur' ∧ 1 ≤ zlen ow'.
Proof.
  revert r o ow cur. induction fuel as [|fuel IH]; intros r o ow cur Hr Hf Hok H1; [lia|]. cbn [reflow_loop].
  destruct (Z.ltb_spec r rows); [|exists o, ow, cur; split; [done|]; split; [done|]; apply H1; lia].
  destruct (reflow_line_ok r o ow cur ltac:(lia) Hok) as (o' & ow' & cur' & r' & -> & Hok' & Hr' & H1'). obind.
  apply IH; [lia|lia|done|done].
Qed.
End Lines.

(** ** The screen *)

Definition grid_ok (ncols nrows : Z) (rf : Reflowed) : Prop :=
  zlen (r_cells rf) = ncols * nrows ∧ zlen (r_wrapped rf) = nrows ∧
  0 ≤ (r_cursor rf).1 ≤ ncols ∧ 0 ≤ (r_cursor rf).2 < nrows.

Lemma take_row_ok ncols (o : list Cell) (ow : list bool) k : 1 ≤ ncols → zlen o = ncols * zlen ow → 0 ≤ k < zlen ow →
  ∃ row w, slice o (k * ncols) ((k + 1) * ncols) = Done row ∧ idx ow k = Done w ∧ zlen row = ncols.
Proof.
  intros Hn Ho Hk. destruct (slice_len o (k * ncols) ((k + 1) * ncols)) as (row & -> & Hr); [nia|nia|].
  destruct (idx_ok ow k Hk) as (w & -> & _). exists row, w. split; [done|]. split; [done|]. lia.
Qed.
Lemma window_ok ncols nrows bl (o : list Cell) (ow : list bool) shift : 1 ≤ ncols → 0 ≤ nrows → 0 ≤ shift → zlen o = ncols * zlen ow →
  ∃ c w, for_range shift (shift + nrows) (λ k '(co, wo),
    if k <? zlen ow then
      row ← slice o (k * ncols) ((k + 1) * ncols); w ← idx ow k; Done (co ++ row, wo ++ [w])
    else Done (co ++ replicate (Z.to_nat ncols) bl, wo ++ [false])) ([], []) = Done (c, w) ∧
    zlen c = ncols * nrows ∧ zlen w = nrows.
Proof.
  intros Hn Hr Hs Ho. unfold for_range. replace (shift + nrows - shift) with nrows by lia.
  assert (∀ n k co wo, 0 ≤ k → ∃ c w, foldM (λ (s : list Cell * list bool) k, let '(co, wo) := s in
    if k <? zlen ow then
      row ← slice o (k * ncols) ((k + 1) * ncols); w ← idx ow k; Done (co ++ row, wo ++ [w])
    else Done (co ++ replicate (Z.to_nat ncols) bl, wo ++ [false])) (co, wo) (seqZ k (Z.of_nat n)) = Done (c, w) ∧
    zlen c = zlen co + ncols * Z.of_nat n ∧ zlen w = zlen wo + Z.of_nat n) as H.
  { induction n as [|n IH]; intros k co wo Hk; [exists co, wo; split; [done|lia]|].
    rewrite Nat2Z.inj_succ, seqZ_cons by lia. cbn [foldM]. rewrite Z.pred_succ. destruct (Z.ltb_spec k (zlen ow)).
    - destruct (take_row_ok ncols o ow k Hn Ho ltac:(lia)) as (row & w & -> & -> & Hrow). obind.
      destruct (IH (Z.succ k) (co ++ row) (wo ++ [w]) ltac:(lia)) as (c & w' & -> & E1 & E2). exists c, w'.
      rewrite !length_app in *. cbn in E2. split; [done|lia].
    - obind. destruct (IH (Z.succ k) (co ++ replicate (Z.to_nat ncols) bl) (wo ++ [false]) ltac:(lia)) as (c & w' & -> & E1 & E2).
      exists c, w'. rewrite !length_app, ?length_replicate in *. cbn in E2. split; [done|lia]. }
  destruct (H (Z.to_nat nrows) shift [] [] Hs) as (c & w & E & E1 & E2). rewrite Z2Nat.id in * by done. exists c, w.
  split; [exact E|cbn in *; lia].
Qed.
Lemma reflow_ok cells wrapped cols rows cursor top ncols nrows bl : 1 ≤ cols → 1 ≤ rows → 1 ≤ ncols → 1 ≤ nrows →
  zlen cells = cols * rows → 0 ≤ cursor.1 ≤ cols →
  ∃ rf, reflow cells wrapped cols rows cursor top ncols nrows bl = Done rf ∧ grid_ok ncols nrows rf.
Proof.
  intros Hc Hr Hn Hnr Hl Hx. unfold reflow.
  destruct (reflow_loop_ok cells wrapped cols rows ncols cursor bl Hc Hn Hl Hx (S (Z.to_nat rows)) 0 [] [] None)
    as (o & ow & cur & -> & [Ho Hcur] & H1); [lia|lia|split; [cbn; lia|done]|lia|]. obind.
  assert (∃ cr cc, default (0, 0) cur = (cr, cc) ∧ 0 ≤ cr < zlen ow ∧ 0 ≤ cc ≤ ncols) as (cr & cc & -> & Hcr & Hcc).
  { destruct cur as [[cr cc]|]; cbn in *; [by exists cr, cc|]. exists 0, 0. split; [done|]. lia. }
  assert (∃ shift, (if nrows <=? cr then usub (cr + 1) nrows else Done 0) = Done shift ∧ 0 ≤ shift < zlen ow ∧
    0 ≤ cr - shift < nrows) as (shift & -> & Hsh & Hy).
  { destruct (Z.leb_spec nrows cr); [rewrite usub_ok by lia|]; eexists; (split; [done|lia]). }
  obind. destruct (mapM_total (λ k, row ← slice o (k * ncols) ((k + 1) * ncols); w ← idx ow k; Done (row, w)) (seqZ 0 shift))
    as (sc & -> & _).
  { intros k Hk%elem_of_seqZ. destruct (take_row_ok ncols o ow k Hn Ho ltac:(lia)) as (row & w & -> & -> & _). by eexists. }
  obind. assert (∃ t, (if 0 <? shift then idx ow (shift - 1) else Done top) = Done t) as [t ->].
  { destruct (Z.ltb_spec 0 shift); [|by eexists]. destruct (idx_ok ow (shift - 1)) as (t & -> & _); [lia|by eexists]. }
  obind. destruct (window_ok ncols nrows bl o ow shift Hn ltac:(lia) ltac:(lia) Ho) as (c & w & -> & E1 & E2). obind.
  rewrite usub_ok by lia. eexists. split; [done|]. split; cbn; [done|]. split; [done|]. lia.
Qed.

Lemma crop_ok cells wrapped cols rows shift ncols nrows bl : side cols → side ncols → side nrows → 0 ≤ shift →
  zlen cells = cols * rows →
  ∃ c w, crop cells wrapped cols rows shift ncols nrows bl = Done (c, w) ∧ zlen c = ncols * nrows ∧ zlen w = nrows.
Proof.
  unfold side. intros Hc Hn Hr Hs Hl. unfold crop. rewrite umul_ok by (unfold u_max; nia). obind.
  assert (∀ n k o ow, 0 ≤ k → k + Z.of_nat n = nrows → zlen o = ncols * nrows → zlen ow = nrows →
    ∃ c w, crop_rows (seqZ k (Z.of_nat n)) cells wrapped cols rows shift ncols (Z.min cols ncols) o ow = Done (c, w) ∧
      zlen c = ncols * nrows ∧ zlen w = nrows) as H.
  { induction n as [|n IH]; intros k o ow Hk Hkn Ho How; [by exists o, ow|].
    rewrite Nat2Z.inj_succ, seqZ_cons, Z.pred_succ by lia. cbn [crop_rows]. destruct (Z.leb_spec rows (k + shift)); [by exists o, ow|].
    destruct (set_idx_len ow k (soft_at wrapped (k + shift))) as (ow' & -> & E1); [lia|]. obind.
    destruct (slice_len cells ((k + shift) * cols) ((k + shift) * cols + Z.min cols ncols)) as (src & -> & E2); [nia|nia|].
    obind. rewrite copy_ok by (nia || lia). obind. apply IH; [lia|lia| |lia].
    rewrite splice_len by (nia || lia). done. }
  destruct (H (Z.to_nat nrows) 0 (replicate (Z.to_nat (ncols * nrows)) bl) (replicate (Z.to_nat nrows) false))
    as (c & w & E & E1 & E2); [lia|lia|rewrite length_replicate; nia|rewrite length_replicate; lia|].
  rewrite Z2Nat.id in E by lia. exists c, w. by split.
Qed.

(** ** Resizing *)

(** The new geometry with whole buffers and the cursors on it. *)
Lemma regeometry_inv ncols nrows t v w : inv v → side ncols → side nrows →
  zlen (cells w) = ncols * nrows → zlen (alt_cells w) = ncols * nrows → zlen (wrapped w) = nrows → zlen (alt_wrapped w) = nrows →
  0 ≤ cx w ≤ ncols → 0 ≤ cy w < nrows → 0 ≤ (saved w).1 ≤ ncols → 0 ≤ (saved w).2 < nrows →
  (pars w, cur_param w, pal w, osc_buf w) = (pars v, cur_param v, pal v, osc_buf v) →
  inv (regeometry ncols nrows (nrows - 1) t w).
Proof.
  intros Hv Hn Hr ? ? ? ? ? ? ? ? E. unfold pars in E. injection E as E1 E2 E3 E4 E5. unfold side in *. destruct Hv.
  split; cbn; unfold side; rewrite ?length_replicate, ?E1, ?E2, ?E3, ?E4, ?E5; try done; try lia.
Qed.
Lemma push_scrolled_draws rs v : draws v (push_scrolled rs v).
Proof. unfold push_scrolled. destruct (capture_events v); [apply draws_pending|done]. Qed.
Lemma push_scrolled_kept rs v : cx (push_scrolled rs v) = cx v ∧ cy (push_scrolled rs v) = cy v ∧ saved (push_scrolled rs v) = saved v ∧
  (pars (push_scrolled rs v), cur_param (push_scrolled rs v), pal (push_scrolled rs v), osc_buf (push_scrolled rs v)) =
  (pars v, cur_param v, pal v, osc_buf v).
Proof. unfold push_scrolled. by destruct (capture_events v). Qed.
Lemma place_alt_kept rf alt alt_w shift ncols right bottom v :
  (pars (place_alt rf alt alt_w shift ncols right bottom v), cur_param (place_alt rf alt alt_w shift ncols right bottom v),
   pal (place_alt rf alt alt_w shift ncols right bottom v), osc_buf (place_alt rf alt alt_w shift ncols right bottom v)) =
  (pars v, cur_param v, pal v, osc_buf v).
Proof. unfold place_alt. by case_match. Qed.
Lemma place_alt_grid rf alt alt_w shift ncols nrows v : 1 ≤ ncols → 1 ≤ nrows → 0 ≤ cx v → 0 ≤ cy v →
  let w := place_alt rf alt alt_w shift ncols (ncols - 1) (nrows - 1) v in
  (cells w, wrapped w, alt_cells w, alt_wrapped w, saved w) = (alt, alt_w, r_cells rf, r_wrapped rf, r_cursor rf) ∧
  0 ≤ cx w ≤ ncols ∧ 0 ≤ cy w < nrows.
Proof.
  intros Hn Hr Hx Hy. unfold place_alt. cbn [cx cy set_cy set_saved set_alt_wrapped set_alt_cells set_wrapped set_cells].
  unfold sat_sub. destruct (Z.leb_spec ncols (cx v)); cbn; (split; [done|lia]).
Qed.

Lemma regrid_ok ncols nrows bl v : inv v → side ncols → side nrows →
  ∃ w, regrid ncols nrows (ncols - 1) (nrows - 1) bl v = Done w ∧ inv w.
Proof.
  intros Hv Hn Hr. unfold regrid. pose proof (i_cols v Hv) as Hc. pose proof (i_rows v Hv) as Hr0. pose proof (i_cx v Hv) as Hx.
  pose proof (i_cy v Hv) as Hy. destruct (i_saved v Hv) as [Hs1 Hs2]. unfold side in *. destruct (on_alt v) eqn:Ea.
  - destruct (reflow_ok (alt_cells v) (alt_wrapped v) (cols v) (rows v) (saved v) (top_continues v) ncols nrows bl)
      as (rf & -> & R1 & R2 & R3 & R4); [lia..|apply Hv|lia|]. rewrite bind_done. cbn [andb].
    assert (∃ shift, (if nrows <=? cy v then usub (cy v + 1) nrows else Done 0) = Done shift ∧ 0 ≤ shift) as (shift & -> & Hsh).
    { destruct (Z.leb_spec nrows (cy v)); [rewrite usub_ok by lia|]; eexists; (split; [done|lia]). }
    rewrite bind_done. destruct (crop_ok (cells v) (wrapped v) (cols v) (rows v) shift ncols nrows bl)
      as (c & w & -> & K1 & K2); [done..|apply Hv|]. rewrite bind_done. cbn zeta. eexists. split; [reflexivity|].
    destruct (push_scrolled_kept (r_scrolled rf) v) as (X & Y & _ & K). set (v1 := push_scrolled _ v) in *. clearbody v1.
    pose proof (place_alt_kept rf c w shift ncols (ncols - 1) (nrows - 1) v1) as P. rewrite K in P.
    destruct (place_alt_grid rf c w shift ncols nrows v1) as (G & Gx & Gy); [lia..|].
    set (v2 := place_alt _ _ _ _ _ _ _ _) in *. clearbody v2. injection G as E1 E2 E3 E4 E5.
    by apply (regeometry_inv ncols nrows _ v v2); rewrite ?E1, ?E2, ?E3, ?E4, ?E5.
  - destruct (reflow_ok (cells v) (wrapped v) (cols v) (rows v) (cx v, cy v) (top_continues v) ncols nrows bl)
      as (rf & -> & R1 & R2 & R3 & R4); [lia..|apply Hv|done|]. rewrite bind_done. cbn [andb]. rewrite bind_done.
    destruct (crop_ok (alt_cells v) (alt_wrapped v) (cols v) (rows v) 0 ncols nrows bl)
      as (c & w & -> & K1 & K2); [done..|apply Hv|]. rewrite bind_done. cbn zeta. eexists. split; [reflexivity|].
    destruct (push_scrolled_kept (r_scrolled rf) v) as (_ & _ & S & K). set (v1 := push_scrolled _ v) in *. clearbody v1.
    apply (regeometry_inv ncols nrows _ v); [done..| | | |]; unfold place_main; cbn; rewrite ?S; try lia. exact K.
Qed.
Lemma resize_ok ncols nrows v : inv v → 0 ≤ ncols < 2 ^ 31 → 0 ≤ nrows < 2 ^ 31 → ∃ w, resize ncols nrows v = Done w ∧ inv w.
Proof.
  intros Hv Hn Hr. unfold resize. destruct (_ || _) eqn:E; [by exists v|].
  apply orb_false_iff in E as [[_ E1%Z.eqb_neq]%orb_false_iff E2%Z.eqb_neq].
  rewrite (usub_ok ncols 1), (usub_ok nrows 1) by lia. rewrite !bind_done.
  apply regrid_ok; [done|unfold side; lia..].
Qed.

End VtReflow.
