(* ===== verification/VtRows.v ===== *)
(** * The terminal emulator: the grid as rows

    The flat cell buffer read as a list of rows, and the line operations as
    surgery on that list: the soft-wrap flags travel with their rows. *)

From S2P Require Import Prelude VtBase Vt VtInv VtTotal.
Import VtBase Vt VtInv VtTotal.
Open Scope Z_scope.

Module VtRows.

(** ** Rows of a flat buffer *)

Fixpoint chunk {A} (n k : nat) (l : list A) : list (list A) :=
  match k with O => [] | S k => take n l :: chunk n k (drop n l) end.

Section Chunk.
Context {A : Type} (n : nat).
Implicit Types (l : list A) (rs : list (list A)).
Notation whole := (Forall (λ r : list A, length r = n)).

Lemma chunk_ok k l : length l = (n * k)%nat → mjoin (chunk n k l) = l ∧ whole (chunk n k l) ∧ length (chunk n k l) = k.
Proof.
  revert l. induction k as [|k IH]; intros l Hl; cbn [chunk].
  { destruct l; [done|]. cbn in Hl. lia. }
  destruct (IH (drop n l)) as (E & Hw & Hk); [rewrite length_drop; lia|]. split; [|split].
  - change (mjoin (take n l :: chunk n k (drop n l))) with (take n l ++ mjoin (chunk n k (drop n l))).
    by rewrite E, take_drop.
  - constructor; [rewrite length_take; lia|done].
  - cbn. by rewrite Hk.
Qed.
Lemma length_whole rs : whole rs → length (mjoin rs) = (n * length rs)%nat.
Proof.
  induction 1 as [|r rs Hr _ IH]; [cbn; lia|]. change (mjoin (r :: rs)) with (r ++ mjoin rs).
  rewrite length_app, IH, Hr. cbn. lia.
Qed.
Lemma join_app rs rs' : mjoin (rs ++ rs') = mjoin rs ++ mjoin rs'.
Proof. induction rs as [|r rs IH]; [done|]. change (r ++ mjoin (rs ++ rs') = (r ++ mjoin rs) ++ mjoin rs'). by rewrite IH, app_assoc. Qed.
Lemma chunk_join rs : whole rs → chunk n (length rs) (mjoin rs) = rs.
Proof.
  induction 1 as [|r rs Hr _ IH]; [done|]. cbn [length chunk]. change (mjoin (r :: rs)) with (r ++ mjoin rs).
  by rewrite <-Hr, take_app_length, drop_app_length, Hr, IH.
Qed.
Lemma take_join k rs : whole rs → (k ≤ length rs)%nat → take (k * n) (mjoin rs) = mjoin (take k rs).
Proof.
  intros Hw Hk. rewrite <-(take_drop k rs) at 1. rewrite join_app.
  apply take_app_length'. rewrite length_whole, length_take, Nat.min_l by (done || by apply Forall_take). lia.
Qed.
Lemma drop_join k rs : whole rs → (k ≤ length rs)%nat → drop (k * n) (mjoin rs) = mjoin (drop k rs).
Proof.
  intros Hw Hk. rewrite <-(take_drop k rs) at 1. rewrite join_app.
  apply drop_app_length'. rewrite length_whole, length_take, Nat.min_l by (done || by apply Forall_take). lia.
Qed.
Lemma whole_replicate k x : whole (replicate k (replicate n x)).
Proof. apply Forall_replicate. by rewrite length_replicate. Qed.
Lemma join_replicate k (x : A) : mjoin (replicate k (replicate n x)) = replicate (k * n) x.
Proof.
  induction k as [|k IH]; [done|]. cbn [replicate]. change (replicate n x ++ mjoin (replicate k (replicate n x)) = replicate (n + k * n) x).
  by rewrite IH, replicate_add.
Qed.

(** A buffer operation on whole rows is the same one on the list of rows. *)
Lemma copy_within_rows rs (a b d : Z) : whole rs → 0 ≤ a ≤ b → b ≤ zlen rs → 0 ≤ d → d + (b - a) ≤ zlen rs →
  ∃ rs', copy_within rs a b d = Done rs' ∧ whole rs' ∧
    copy_within (mjoin rs) (a * Z.of_nat n) (b * Z.of_nat n) (d * Z.of_nat n) = Done (mjoin rs').
Proof.
  intros Hw Ha Hb Hd Hdb. pose proof (length_whole rs Hw) as Hl. eexists. split; [by apply copy_within_ok|].
  split; [apply Forall_app; split; [by apply Forall_take|]; apply Forall_app; split; [by apply Forall_take, Forall_drop|by apply Forall_drop]|].
  rewrite copy_within_ok by nia. f_equal. rewrite !join_app.
  replace (Z.to_nat (d * Z.of_nat n)) with (Z.to_nat d * n)%nat by nia.
  replace (Z.to_nat (a * Z.of_nat n)) with (Z.to_nat a * n)%nat by nia.
  replace (Z.to_nat (b * Z.of_nat n - a * Z.of_nat n)) with (Z.to_nat (b - a) * n)%nat by nia.
  replace (Z.to_nat (d * Z.of_nat n + _)) with (Z.to_nat (d + (b - a)) * n)%nat by nia.
  rewrite take_join, drop_join, take_join, drop_join; (done || lia || (by apply Forall_drop) || (rewrite length_drop; lia)).
Qed.
Lemma fill_rows rs (a b : Z) (x : A) : whole rs → 0 ≤ a ≤ b → b ≤ zlen rs →
  ∃ rs', fill rs a b (replicate n x) = Done rs' ∧ whole rs' ∧
    fill (mjoin rs) (a * Z.of_nat n) (b * Z.of_nat n) x = Done (mjoin rs').
Proof.
  intros Hw Ha Hb. pose proof (length_whole rs Hw) as Hl. eexists. split; [by apply fill_ok|].
  split; [apply Forall_app; split; [by apply Forall_take|]; apply Forall_app; split; [apply whole_replicate|by apply Forall_drop]|].
  rewrite fill_ok by nia. f_equal. rewrite !join_app, join_replicate.
  replace (Z.to_nat (a * Z.of_nat n)) with (Z.to_nat a * n)%nat by nia.
  replace (Z.to_nat (b * Z.of_nat n - a * Z.of_nat n)) with (Z.to_nat (b - a) * n)%nat by nia.
  replace (Z.to_nat (b * Z.of_nat n)) with (Z.to_nat b * n)%nat by nia.
  rewrite take_join, drop_join; (done || lia).
Qed.
End Chunk.

(** ** Surgery on lists

    [n] items [x] enter at [at_], and as many leave before [stop]; or [n] leave
    at [at_] and as many [x] enter before [stop]. *)

Section Surgery.
Context {A : Type}.
Definition open_gap (at_ stop n : nat) (x : A) (l : list A) : list A :=
  take at_ l ++ replicate n x ++ take (stop - n - at_) (drop at_ l) ++ drop stop l.
Definition close_gap (at_ stop n : nat) (x : A) (l : list A) : list A :=
  take at_ l ++ take (stop - n - at_) (drop (at_ + n) l) ++ replicate n x ++ drop stop l.

Lemma open_gap_ok (l : list A) (at_ stop n : Z) x : 0 ≤ at_ → 0 ≤ n → at_ + n ≤ stop → stop ≤ zlen l →
  ∃ m, copy_within l at_ (stop - n) (at_ + n) = Done m ∧ zlen m = zlen l ∧
    fill m at_ (at_ + n) x = Done (open_gap (Z.to_nat at_) (Z.to_nat stop) (Z.to_nat n) x l).
Proof.
  intros H1 H2 H3 H4. eexists. split; [apply copy_within_ok; lia|].
  assert (zlen (take (Z.to_nat (at_ + n)) l ++ take (Z.to_nat (stop - n - at_)) (drop (Z.to_nat at_) l) ++
    drop (Z.to_nat (at_ + n + (stop - n - at_))) l) = zlen l) as E.
  { apply splice_len; [lia|lia|rewrite length_take, length_drop; lia]. }
  split; [exact E|]. rewrite fill_ok by (rewrite ?E; lia). f_equal. unfold open_gap.
  replace (at_ + n - at_) with n by lia. replace (at_ + n + (stop - n - at_)) with stop by lia.
  replace (Z.to_nat (at_ + n)) with (Z.to_nat at_ + Z.to_nat n)%nat by lia.
  replace (Z.to_nat (stop - n - at_)) with (Z.to_nat stop - Z.to_nat n - Z.to_nat at_)%nat by lia.
  rewrite take_app_le by (rewrite length_take; lia). rewrite take_take, Nat.min_l by lia.
  rewrite drop_app_length' by (rewrite length_take; lia). done.
Qed.
Lemma close_gap_ok (l : list A) (at_ stop n : Z) x : 0 ≤ at_ → 0 ≤ n → at_ + n ≤ stop → stop ≤ zlen l →
  ∃ m, copy_within l (at_ + n) stop at_ = Done m ∧ zlen m = zlen l ∧
    fill m (stop - n) stop x = Done (close_gap (Z.to_nat at_) (Z.to_nat stop) (Z.to_nat n) x l).
Proof.
  intros H1 H2 H3 H4. eexists. split; [apply copy_within_ok; lia|].
  assert (zlen (take (Z.to_nat at_) l ++ take (Z.to_nat (stop - (at_ + n))) (drop (Z.to_nat (at_ + n)) l) ++
    drop (Z.to_nat (at_ + (stop - (at_ + n)))) l) = zlen l) as E.
  { apply splice_len; [lia|lia|rewrite length_take, length_drop; lia]. }
  split; [exact E|]. rewrite fill_ok by (rewrite ?E; lia). f_equal. unfold close_gap.
  replace (stop - (stop - n)) with n by lia. replace (at_ + (stop - (at_ + n))) with (stop - n) by lia.
  replace (Z.to_nat (at_ + n)) with (Z.to_nat at_ + Z.to_nat n)%nat by lia.
  replace (Z.to_nat (stop - (at_ + n))) with (Z.to_nat stop - Z.to_nat n - Z.to_nat at_)%nat by lia.
  set (a := take (Z.to_nat at_) l). set (b := take _ (drop _ l)).
  assert (length a = Z.to_nat at_) as La by (subst a; rewrite length_take; lia).
  assert (length b = (Z.to_nat stop - Z.to_nat n - Z.to_nat at_)%nat) as Lb by (subst b; rewrite length_take, length_drop; lia).
  assert (length (a ++ b) = Z.to_nat (stop - n)) as Lab by (rewrite length_app; lia).
  rewrite !(app_assoc a b). rewrite take_app_length' by done. rewrite drop_app_ge by lia. rewrite drop_drop.
  by replace (Z.to_nat (stop - n) + (Z.to_nat stop - length (a ++ b)))%nat with (Z.to_nat stop) by lia.
Qed.
End Surgery.

Lemma zip_replicate {A B} k (a : A) (b : B) : zip (replicate k a) (replicate k b) = replicate k (a, b).
Proof. induction k as [|k IH]; [done|]. cbn. by rewrite IH. Qed.
Lemma zip_app {A B} (a1 a2 : list A) (b1 b2 : list B) : length a1 = length b1 → zip (a1 ++ a2) (b1 ++ b2) = zip a1 b1 ++ zip a2 b2.
Proof. intros E. by apply zip_with_app. Qed.
Lemma zip_take {A B} k (a : list A) (b : list B) : zip (take k a) (take k b) = take k (zip a b).
Proof. revert a b. induction k as [|k IH]; intros [|x a] [|y b]; try done. cbn [take zip zip_with]. by rewrite IH. Qed.
Lemma zip_drop {A B} k (a : list A) (b : list B) : zip (drop k a) (drop k b) = drop k (zip a b).
Proof. revert a b. induction k as [|k IH]; intros [|x a] [|y b]; try done; cbn [drop zip zip_with]; [by destruct (drop k a)|apply IH]. Qed.
Lemma zip_open {A B} at_ stop n (x : A) (y : B) l m : (stop ≤ length l)%nat → length l = length m →
  (at_ ≤ length l)%nat → zip (open_gap at_ stop n x l) (open_gap at_ stop n y m) = open_gap at_ stop n (x, y) (zip l m).
Proof.
  intros Hs Hl Ha. unfold open_gap. rewrite zip_app, zip_app, zip_app by (rewrite ?length_take, ?length_drop, ?length_replicate; lia).
  by rewrite zip_replicate, !zip_take, !zip_drop.
Qed.
Lemma zip_close {A B} at_ stop n (x : A) (y : B) l m : (stop ≤ length l)%nat → length l = length m →
  zip (close_gap at_ stop n x l) (close_gap at_ stop n y m) = close_gap at_ stop n (x, y) (zip l m).
Proof.
  intros Hs Hl. unfold close_gap. rewrite zip_app, zip_app, zip_app by (rewrite ?length_take, ?length_drop, ?length_replicate; lia).
  by rewrite zip_replicate, !zip_take, !zip_drop.
Qed.

(** ** The screen as lines *)

Definition grid (v : Vt) : list (list Cell) := chunk (Z.to_nat (cols v)) (Z.to_nat (rows v)) (cells v).
(** Rows with their soft-wrap flags. *)
Definition lines (v : Vt) : list (list Cell * bool) := zip (grid v) (wrapped v).
Definition blank_line (v : Vt) : list Cell * bool := (replicate (Z.to_nat (cols v)) (erased v), false).

Lemma grid_ok v : inv v → cells v = mjoin (grid v) ∧ Forall (λ r, length r = Z.to_nat (cols v)) (grid v) ∧
  length (grid v) = Z.to_nat (rows v).
Proof.
  intros Hv. destruct (chunk_ok (Z.to_nat (cols v)) (Z.to_nat (rows v)) (cells v)) as (E & H1 & H2); [|done].
  pose proof (i_cells v Hv). pose proof (i_cols v Hv). pose proof (i_rows v Hv). unfold side in *. nia.
Qed.

(** Operations that leave cells and flags alone. *)
Definition same_buf (v w : Vt) : Prop := draws v w ∧ cells w = cells v ∧ wrapped w = wrapped v ∧ erased w = erased v.
Lemma same_refl v : same_buf v v.
Proof. done. Qed.
Lemma same_trans v w x : same_buf v w → same_buf w x → same_buf v x.
Proof.
  intros (D & C & W & E) (D' & C' & W' & E'). split; [by etransitivity|]. split; [congruence|]. split; congruence.
Qed.
Lemma restart_top_same v : same_buf v (restart_top v).
Proof.
  split; [apply restart_top_draws|]. unfold restart_top. destruct (on_alt v); [done|]. by destruct (_ && _).
Qed.
Lemma mark_all_same v : same_buf v (mark_all v).
Proof. by split; [apply mark_all_draws|]. Qed.
Lemma marks_same v a b w : 0 ≤ a → inv v → for_range a b mark v = Done w → same_buf v w.
Proof.
  intros Ha Hv E. destruct (for_range_inv (λ w, same_buf v w ∧ inv w) a b mark v) as (x & E' & Hx & _); [done| |congruence].
  intros r x Hr [Hs Hi]. unfold mark. pose proof (i_dirty x Hi). destruct (Z.ltb_spec r (rows x)); [|by exists x].
  destruct (set_idx_len (dirty x) r true) as (d & -> & Hd); [lia|]. eexists. split; [done|].
  assert (draws x (set_dirty d x)) as D by by apply draws_dirty. split; [|by eapply draws_inv].
  eapply same_trans; [exact Hs|]. by split.
Qed.

Lemma set_idx_one {A} (l : list A) i x : 0 ≤ i < zlen l → set_idx l i x = fill l i (i + 1) x.
Proof.
  intros Hi. rewrite fill_ok by lia. unfold set_idx. rewrite (proj2 (Z.leb_le _ _)), (proj2 (Z.ltb_lt _ _)) by lia. cbn [andb].
  f_equal. replace (Z.to_nat (i + 1)) with (S (Z.to_nat i)) by lia. replace (Z.to_nat (i + 1 - i)) with 1%nat by lia.
  rewrite insert_take_drop by lia. done.
Qed.
Lemma set_soft_fill r x v : 0 ≤ r < zlen (wrapped v) → set_soft r x v = (w ← fill (wrapped v) r (r + 1) x; Done (set_wrapped w v)).
Proof. intros Hr. unfold set_soft. by rewrite set_idx_one. Qed.
Lemma fill_step {A} (l m : list A) a b x : 0 ≤ a < b → b ≤ zlen l → fill l a (a + 1) x = Done m → fill m (a + 1) b x = fill l a b x.
Proof.
  intros Ha Hb E. rewrite fill_ok in E by lia. injection E as <-.
  assert (zlen (take (Z.to_nat a) l ++ replicate (Z.to_nat (a + 1 - a)) x ++ drop (Z.to_nat (a + 1)) l) = zlen l) as Hl
    by (apply splice_len; [lia|lia|rewrite length_replicate; lia]).
  rewrite !fill_ok by (rewrite ?Hl; lia). f_equal. replace (Z.to_nat (a + 1 - a)) with 1%nat by lia. cbn [replicate].
  rewrite (app_assoc (take (Z.to_nat a) l) [x]).
  set (h := take (Z.to_nat a) l ++ [x]). assert (length h = Z.to_nat (a + 1)) as Lh by (subst h; rewrite length_app, length_take; cbn; lia).
  rewrite take_app_length' by done. rewrite drop_app_ge by lia. rewrite drop_drop.
  replace (Z.to_nat (a + 1) + (Z.to_nat b - length h))%nat with (Z.to_nat b) by lia.
  replace (Z.to_nat (b - a)) with (S (Z.to_nat (b - (a + 1)))) by lia. subst h. rewrite <-app_assoc. done.
Qed.
Lemma soft_range a b x v : 0 ≤ a ≤ b → b ≤ zlen (wrapped v) →
  for_range a b (λ r, set_soft r x) v = (w ← fill (wrapped v) a b x; Done (set_wrapped w v)).
Proof.
  intros Ha Hb. unfold for_range. remember (Z.to_nat (b - a)) as n eqn:En. revert a v Ha Hb En.
  induction n as [|n IH]; intros a v Ha Hb En.
  - replace (b - a) with 0 by lia. cbn [seqZ foldM Z.to_nat seq fmap list_fmap]. replace b with a by lia. rewrite fill_ok by lia.
    obind. rewrite Z.sub_diag. change (replicate (Z.to_nat 0) x) with (@nil bool). rewrite app_nil_l, take_drop. by destruct v.
  - rewrite seqZ_cons by lia. cbn [foldM]. rewrite set_soft_fill by lia.
    destruct (fill_len (wrapped v) a (a + 1) x) as (m & Em & Hm); [lia|lia|]. rewrite Em. obind.
    replace (Z.pred (b - a)) with (b - Z.succ a) by lia. rewrite IH; [|lia|cbn; lia|lia]. cbn [wrapped set_wrapped].
    replace (Z.succ a) with (a + 1) by lia. rewrite (fill_step (wrapped v) m a b x) by (done || lia). done.
Qed.

(** *** The two moves *)

Section Moves.
Context (v : Vt) (Hv : inv v) (at_ stop n : Z) (Hat : 0 ≤ at_) (Hn : 0 ≤ n) (Hstop : at_ + n ≤ stop) (Hs : stop ≤ rows v).

Lemma open_moves : ∃ w, same_buf (set_wrapped (open_gap (Z.to_nat at_) (Z.to_nat stop) (Z.to_nat n) false (wrapped v))
    (set_cells (mjoin (open_gap (Z.to_nat at_) (Z.to_nat stop) (Z.to_nat n) (replicate (Z.to_nat (cols v)) (erased v)) (grid v))) v)) w ∧
  (x ← move_cells (at_ * cols v) ((stop - n) * cols v) ((at_ + n) * cols v) v;
   x ← move_soft at_ (stop - n) (at_ + n) x;
   x ← for_range at_ (at_ + n) (λ r, set_soft r false) x;
   erase (at_ * cols v) ((at_ + n) * cols v) x) = Done w.
Proof.
  destruct (grid_ok v Hv) as (Ec & Hw & Hl). pose proof (i_wrapped v Hv) as Hwr. pose proof (i_cols v Hv) as Hc. unfold side in Hc.
  set (C := Z.to_nat (cols v)) in *. assert (cols v = Z.of_nat C) as EC by (subst C; lia). eexists. split; [apply same_refl|].
  destruct (open_gap_ok (grid v) at_ stop n (replicate C (erased v))) as (m & Em & Hm & Ef); [lia..|].
  destruct (copy_within_rows C (grid v) at_ (stop - n) (at_ + n) Hw) as (m' & Em' & Hmw & Ecw); [lia..|].
  assert (m' = m) as -> by congruence.
  destruct (fill_rows C m at_ (at_ + n) (erased v) Hmw) as (f & Ef' & _ & Efw); [lia..|]. rewrite Ef in Ef'; injection Ef' as <-.
  destruct (open_gap_ok (wrapped v) at_ stop n false) as (ws & Ews & Hws & Efs); [lia..|].
  unfold move_cells. rewrite Ec, EC, Ecw. obind. unfold move_soft. cbn [wrapped set_cells]. rewrite Ews. obind.
  rewrite soft_range by (cbn; lia). cbn [wrapped set_wrapped]. rewrite Efs. obind.
  unfold erase. change (erased (set_wrapped _ _)) with (erased v). cbn [cells set_wrapped set_cells]. rewrite Efw. done.
Qed.
Lemma close_moves : ∃ w, same_buf (set_wrapped (close_gap (Z.to_nat at_) (Z.to_nat stop) (Z.to_nat n) false (wrapped v))
    (set_cells (mjoin (close_gap (Z.to_nat at_) (Z.to_nat stop) (Z.to_nat n) (replicate (Z.to_nat (cols v)) (erased v)) (grid v))) v)) w ∧
  (x ← move_cells ((at_ + n) * cols v) (stop * cols v) (at_ * cols v) v;
   x ← move_soft (at_ + n) stop at_ x;
   x ← for_range (stop - n) stop (λ r, set_soft r false) x;
   erase ((stop - n) * cols v) (stop * cols v) x) = Done w.
Proof.
  destruct (grid_ok v Hv) as (Ec & Hw & Hl). pose proof (i_wrapped v Hv) as Hwr. pose proof (i_cols v Hv) as Hc. unfold side in Hc.
  set (C := Z.to_nat (cols v)) in *. assert (cols v = Z.of_nat C) as EC by (subst C; lia). eexists. split; [apply same_refl|].
  destruct (close_gap_ok (grid v) at_ stop n (replicate C (erased v))) as (m & Em & Hm & Ef); [lia..|].
  destruct (copy_within_rows C (grid v) (at_ + n) stop at_ Hw) as (m' & Em' & Hmw & Ecw); [lia..|].
  assert (m' = m) as -> by congruence.
  destruct (fill_rows C m (stop - n) stop (erased v) Hmw) as (f & Ef' & _ & Efw); [lia..|]. rewrite Ef in Ef'; injection Ef' as <-.
  destruct (close_gap_ok (wrapped v) at_ stop n false) as (ws & Ews & Hws & Efs); [lia..|].
  unfold move_cells. rewrite Ec, EC, Ecw. obind. unfold move_soft. cbn [wrapped set_cells]. rewrite Ews. obind.
  rewrite soft_range by (cbn; lia). cbn [wrapped set_wrapped]. rewrite Efs. obind.
  unfold erase. change (erased (set_wrapped _ _)) with (erased v). cbn [cells set_wrapped set_cells]. rewrite Efw. done.
Qed.

End Moves.

Lemma gap_whole {A} (P : A → Prop) at_ stop n x l : P x → Forall P l → Forall P (open_gap at_ stop n x l) ∧ Forall P (close_gap at_ stop n x l).
Proof.
  intros Hx Hl. unfold open_gap, close_gap. rewrite !Forall_app.
  assert (Forall P (replicate n x)) by by apply Forall_replicate. auto 10 using Forall_take, Forall_drop.
Qed.
Lemma gap_length {A} at_ stop n (x : A) l : (at_ + n ≤ stop)%nat → (stop ≤ length l)%nat →
  length (open_gap at_ stop n x l) = length l ∧ length (close_gap at_ stop n x l) = length l.
Proof. intros H1 H2. unfold open_gap, close_gap. rewrite !length_app, !length_take, !length_drop, !length_replicate. lia. Qed.
Lemma lines_moved v W G w : same_buf (set_wrapped W (set_cells (mjoin G) v)) w →
  Forall (λ r, length r = Z.to_nat (cols v)) G → length G = Z.to_nat (rows v) → lines w = zip G W.
Proof.
  intros (D & C & Wr & _) HG HL. unfold lines, grid. rewrite C, Wr, (draws_cols _ _ D), (draws_rows _ _ D).
  change (cols (set_wrapped _ _)) with (cols v). change (rows (set_wrapped _ _)) with (rows v).
  change (cells (set_wrapped _ _)) with (mjoin G). change (wrapped (set_wrapped _ _)) with W.
  by rewrite <-HL, chunk_join.
Qed.
Lemma same_lines v w : same_buf v w → lines w = lines v ∧ blank_line w = blank_line v.
Proof.
  intros (D & C & W & E). unfold lines, grid, blank_line. by rewrite C, W, E, (draws_cols _ _ D), (draws_rows _ _ D).
Qed.

(** A move of rows, on the lines. *)
Lemma opened_lines v w at_ stop n : inv v → 0 ≤ at_ → 0 ≤ n → at_ + n ≤ stop → stop ≤ rows v →
  same_buf (set_wrapped (open_gap (Z.to_nat at_) (Z.to_nat stop) (Z.to_nat n) false (wrapped v))
    (set_cells (mjoin (open_gap (Z.to_nat at_) (Z.to_nat stop) (Z.to_nat n) (replicate (Z.to_nat (cols v)) (erased v)) (grid v))) v)) w →
  lines w = open_gap (Z.to_nat at_) (Z.to_nat stop) (Z.to_nat n) (blank_line v) (lines v).
Proof.
  intros Hv Ha Hn Hs Hr S. destruct (grid_ok v Hv) as (_ & Hw & Hl). pose proof (i_wrapped v Hv) as Hwr.
  rewrite (lines_moved _ _ _ _ S).
  - apply zip_open; lia.
  - apply gap_whole; [by rewrite length_replicate|done].
  - destruct (gap_length (Z.to_nat at_) (Z.to_nat stop) (Z.to_nat n) (replicate (Z.to_nat (cols v)) (erased v)) (grid v)) as [-> _]; lia.
Qed.
Lemma closed_lines v w at_ stop n : inv v → 0 ≤ at_ → 0 ≤ n → at_ + n ≤ stop → stop ≤ rows v →
  same_buf (set_wrapped (close_gap (Z.to_nat at_) (Z.to_nat stop) (Z.to_nat n) false (wrapped v))
    (set_cells (mjoin (close_gap (Z.to_nat at_) (Z.to_nat stop) (Z.to_nat n) (replicate (Z.to_nat (cols v)) (erased v)) (grid v))) v)) w →
  lines w = close_gap (Z.to_nat at_) (Z.to_nat stop) (Z.to_nat n) (blank_line v) (lines v).
Proof.
  intros Hv Ha Hn Hs Hr S. destruct (grid_ok v Hv) as (_ & Hw & Hl). pose proof (i_wrapped v Hv) as Hwr.
  rewrite (lines_moved _ _ _ _ S).
  - apply zip_close; lia.
  - apply gap_whole; [by rewrite length_replicate|done].
  - destruct (gap_length (Z.to_nat at_) (Z.to_nat stop) (Z.to_nat n) (replicate (Z.to_nat (cols v)) (erased v)) (grid v)) as [_ ->]; lia.
Qed.

Lemma range_one {S} a (f : Z → S → outcome S) s : for_range a (a + 1) f s = f a s.
Proof.
  unfold for_range. replace (a + 1 - a) with 1 by lia. rewrite seqZ_cons by lia. cbn [foldM].
  by destruct (f a s).
Qed.

(** A gap of nothing. *)
Lemma open_gap_0 {A} at_ stop (x : A) l : (at_ ≤ stop)%nat → open_gap at_ stop 0 x l = l.
Proof.
  intros H. unfold open_gap. cbn [replicate app]. replace (stop - 0 - at_)%nat with (stop - at_)%nat by lia.
  replace stop with (at_ + (stop - at_))%nat at 2 by lia. by rewrite <-drop_drop, take_drop, take_drop.
Qed.
Lemma close_gap_0 {A} at_ stop (x : A) l : (at_ ≤ stop)%nat → close_gap at_ stop 0 x l = l.
Proof.
  intros H. unfold close_gap. cbn [replicate app]. rewrite Nat.add_0_r. replace (stop - 0 - at_)%nat with (stop - at_)%nat by lia.
  replace stop with (at_ + (stop - at_))%nat at 2 by lia. by rewrite <-drop_drop, take_drop, take_drop.
Qed.

Lemma bind4 {A} (m : outcome A) (f1 f2 f3 g : A → outcome A) w :
  (x ← m; x ← f1 x; x ← f2 x; f3 x) = Done w → (x ← m; x ← f1 x; x ← f2 x; x ← f3 x; g x) = g w.
Proof.
  destruct m as [x1| |]; [|done..]. cbn. destruct (f1 x1) as [x2| |]; [|done..]. cbn. destruct (f2 x2) as [x3| |]; [|done..]. cbn.
  by intros ->.
Qed.

Section LineOps.
Context (v : Vt) (Hv : inv v).

(** The state a line operation starts from, its row 0 restarted or not. *)
Lemma restarted (b : bool) : ∃ v0, (if b then restart_top v else v) = v0 ∧ inv v0 ∧ cols v0 = cols v ∧ rows v0 = rows v ∧
  lines v0 = lines v ∧ blank_line v0 = blank_line v.
Proof.
  assert (same_buf v (if b then restart_top v else v)) as S by (destruct b; [apply restart_top_same|apply same_refl]).
  eexists. split; [done|]. pose proof S as (D & _). split; [by eapply draws_inv|]. rewrite (draws_cols _ _ D), (draws_rows _ _ D).
  destruct (same_lines _ _ S) as [-> ->]. done.
Qed.
Lemma marked_lines w a b : inv w → 0 ≤ a → ∃ x, for_range a b mark w = Done x ∧ lines x = lines w.
Proof.
  intros Hw Ha. destruct (paints_range w w a b mark) as (x & E & _); [done|done| |].
  { intros r y Hr D Hy. apply mark_paints; [done|done|lia]. }
  exists x. split; [done|]. by destruct (same_lines w x (marks_same w a b x Ha Hw E)) as [-> _].
Qed.
Lemma moved_inv v0 W G w : inv v0 → zlen W = rows v0 → zlen (mjoin G) = cols v0 * rows v0 →
  same_buf (set_wrapped W (set_cells (mjoin G) v0)) w → inv w.
Proof.
  intros H0 HW HG (D & _). apply (draws_inv _ _ D), (draws_inv v0); [|done].
  etransitivity; [apply (draws_cells v0 (mjoin G)); rewrite HG; symmetry; apply H0|].
  apply (draws_wrapped (set_cells (mjoin G) v0)). cbn. rewrite HW. symmetry. apply H0.
Qed.
Lemma gap_sizes v0 at_ stop n : inv v0 → (at_ + n ≤ stop)%nat → (stop ≤ Z.to_nat (rows v0))%nat →
  let x := replicate (Z.to_nat (cols v0)) (erased v0) in
  zlen (open_gap at_ stop n false (wrapped v0)) = rows v0 ∧ zlen (close_gap at_ stop n false (wrapped v0)) = rows v0 ∧
  zlen (mjoin (open_gap at_ stop n x (grid v0))) = cols v0 * rows v0 ∧
  zlen (mjoin (close_gap at_ stop n x (grid v0))) = cols v0 * rows v0.
Proof.
  intros H0 H1 H2 x. destruct (grid_ok v0 H0) as (_ & Hw & Hl). pose proof (i_wrapped v0 H0) as Hwr.
  pose proof (i_cols v0 H0). pose proof (i_rows v0 H0). unfold side in *.
  destruct (gap_length at_ stop n false (wrapped v0)) as [-> ->]; [lia..|].
  destruct (gap_length at_ stop n x (grid v0)) as [E1 E2]; [lia..|].
  destruct (gap_whole (λ r, length r = Z.to_nat (cols v0)) at_ stop n x (grid v0)) as [W1 W2];
    [by subst x; rewrite length_replicate|done|].
  rewrite (length_whole (Z.to_nat (cols v0)) _ W1), (length_whole (Z.to_nat (cols v0)) _ W2), E1, E2, Hl. nia.
Qed.

Lemma insert_lines_lines n : 0 ≤ n → scroll_top v ≤ cy v ≤ scroll_bot v → ∃ w, insert_lines n v = Done w ∧
  lines w = open_gap (Z.to_nat (cy v)) (Z.to_nat (scroll_bot v + 1)) (Z.to_nat (Z.min n (scroll_bot v + 1 - cy v))) (blank_line v) (lines v).
Proof.
  intros Hn Hc. pose proof (i_region v Hv) as Hreg. pose proof (i_cy v Hv) as Hy. pose proof (i_cols v Hv) as Hcols. unfold side in Hcols.
  unfold insert_lines. cbn zeta. rewrite (proj2 (Z.ltb_ge (cy v) _)), (proj2 (Z.ltb_ge (scroll_bot v) _)) by lia. cbn [orb].
  rewrite usub_ok, bind_done by lia. set (k := Z.min n _) in *. destruct (Z.eqb_spec k 0) as [->|Ek].
  { exists v. split; [done|]. symmetry. apply open_gap_0. lia. }
  destruct (restarted (cy v =? 0)) as (v0 & -> & H0 & C0 & R0 & <- & <-). rewrite C0.
  rewrite (usub_ok ((scroll_bot v + 1) * cols v)), bind_done by nia. rewrite usub_ok, bind_done by lia.
  destruct (open_moves v0 H0 (cy v) (scroll_bot v + 1) k) as (w & Sw & Ew); [lia..|]. rewrite C0 in *.
  replace ((scroll_bot v + 1) * cols v - k * cols v) with ((scroll_bot v + 1 - k) * cols v) by lia.
  replace (cy v * cols v + k * cols v) with ((cy v + k) * cols v) by lia.
  destruct (gap_sizes v0 (Z.to_nat (cy v)) (Z.to_nat (scroll_bot v + 1)) (Z.to_nat k) H0 ltac:(lia) ltac:(lia)) as (G1 & _ & G2 & _).
  rewrite C0 in G2. assert (inv w) as Hw by (eapply moved_inv; [exact H0|exact G1| |exact Sw]; by rewrite C0).
  rewrite <-(opened_lines v0 w (cy v) (scroll_bot v + 1) k H0) by (rewrite ?C0; done || lia).
  destruct (marked_lines w (cy v) (scroll_bot v + 1) Hw ltac:(lia)) as (x & Ex & Lx). exists x. split; [|done]. rewrite <-Ex.
  revert Ew. generalize (for_range (cy v) (scroll_bot v + 1) mark). intros g Ew.
  by apply (bind4 _ _ _ _ _ w Ew).
Qed.
Lemma delete_lines_lines n : 0 ≤ n → scroll_top v ≤ cy v ≤ scroll_bot v → ∃ w, delete_lines n v = Done w ∧
  lines w = close_gap (Z.to_nat (cy v)) (Z.to_nat (scroll_bot v + 1)) (Z.to_nat (Z.min n (scroll_bot v + 1 - cy v))) (blank_line v) (lines v).
Proof.
  intros Hn Hc. pose proof (i_region v Hv) as Hreg. pose proof (i_cy v Hv) as Hy. pose proof (i_cols v Hv) as Hcols. unfold side in Hcols.
  unfold delete_lines. cbn zeta. rewrite (proj2 (Z.ltb_ge (cy v) _)), (proj2 (Z.ltb_ge (scroll_bot v) _)) by lia. cbn [orb].
  rewrite usub_ok, bind_done by lia. set (k := Z.min n _) in *. destruct (Z.eqb_spec k 0) as [->|Ek].
  { exists v. split; [done|]. symmetry. apply close_gap_0. lia. }
  destruct (restarted (cy v =? 0)) as (v0 & -> & H0 & C0 & R0 & <- & <-). rewrite C0.
  rewrite (usub_ok ((scroll_bot v + 1) * cols v)), bind_done by nia. rewrite usub_ok, bind_done by lia.
  destruct (close_moves v0 H0 (cy v) (scroll_bot v + 1) k) as (w & Sw & Ew); [lia..|]. rewrite C0 in *.
  replace ((scroll_bot v + 1) * cols v - k * cols v) with ((scroll_bot v + 1 - k) * cols v) by lia.
  replace (cy v * cols v + k * cols v) with ((cy v + k) * cols v) by lia.
  destruct (gap_sizes v0 (Z.to_nat (cy v)) (Z.to_nat (scroll_bot v + 1)) (Z.to_nat k) H0 ltac:(lia) ltac:(lia)) as (_ & G1 & _ & G2).
  rewrite C0 in G2. assert (inv w) as Hw by (eapply moved_inv; [exact H0|exact G1| |exact Sw]; by rewrite C0).
  rewrite <-(closed_lines v0 w (cy v) (scroll_bot v + 1) k H0) by (rewrite ?C0; done || lia).
  destruct (marked_lines w (cy v) (scroll_bot v + 1) Hw ltac:(lia)) as (x & Ex & Lx). exists x. split; [|done]. rewrite <-Ex.
  revert Ew. generalize (for_range (cy v) (scroll_bot v + 1) mark). intros g Ew.
  by apply (bind4 _ _ _ _ _ w Ew).
Qed.

(** What a scroll up notes first: the leaving row, if there is a history. *)
Definition leaving : Vt :=
  let v1 := if capture_events v && negb (on_alt v) && (scroll_top v =? 0)
            then push_event (Scroll (nth 0 (grid v) []) (nth 0 (wrapped v) false)) v else v in
  if negb (on_alt v) && (scroll_top v =? 0) then set_top_continues (nth 0 (wrapped v) false) v1 else v1.
Lemma leaving_same : same_buf v leaving.
Proof.
  unfold leaving. apply (same_trans _ (if capture_events v && negb (on_alt v) && (scroll_top v =? 0)
    then push_event (Scroll (nth 0 (grid v) []) (nth 0 (wrapped v) false)) v else v)).
  { destruct (_ && _ && _); [by split; [apply push_event_draws|]|apply same_refl]. }
  set (v1 := if _ && _ && _ then _ else _). assert (on_alt v1 = on_alt v) as Ea by (subst v1; by destruct (_ && _ && _)).
  destruct (on_alt v) eqn:E; cbn [negb andb]; [apply same_refl|]. destruct (_ =? _); [|apply same_refl].
  split; [by apply draws_top|done].
Qed.
Lemma first_row : slice (cells v) 0 (cols v) = Done (nth 0 (grid v) []) ∧ idx (wrapped v) 0 = Done (nth 0 (wrapped v) false).
Proof.
  pose proof (i_cols v Hv). pose proof (i_rows v Hv). pose proof (i_cells v Hv). pose proof (i_wrapped v Hv). unfold side in *. split.
  - rewrite slice_ok by nia. rewrite Z.sub_0_r. unfold grid. destruct (Z.to_nat (rows v)) eqn:E; [lia|]. done.
  - destruct (wrapped v) as [|x l]; [cbn in *; lia|done].
Qed.
Lemma scroll_up_lines : ∃ w, scroll_up v = Done w ∧
  lines w = close_gap (Z.to_nat (scroll_top v)) (Z.to_nat (scroll_bot v + 1)) 1 (blank_line v) (lines v).
Proof.
  pose proof (i_region v Hv) as Hreg. destruct first_row as [F1 F2]. unfold scroll_up. cbn zeta.
  pose proof leaving_same as S. pose proof S as (D & C & W & _). destruct (same_lines _ _ S) as [<- <-].
  pose proof (draws_inv _ _ D Hv) as H0.
  assert (∀ k, (x ← (if capture_events v && negb (on_alt v) && (scroll_top v =? 0)
       then row ← slice (cells v) 0 (cols v); w ← idx (wrapped v) 0; Done (push_event (Scroll row w) v) else Done v);
     x ← (if negb (on_alt x) && (scroll_top v =? 0) then w ← idx (wrapped x) 0; Done (set_top_continues w x) else Done x); k x)
    = (k leaving : outcome Vt)) as ->.
  { intros k. rewrite F1, bind_done, F2, bind_done. unfold leaving. destruct (capture_events v && _ && _) eqn:E.
    - apply andb_true_iff in E as [E1 E2]. apply andb_true_iff in E1 as [_ E1]. rewrite bind_done. cbn [on_alt wrapped push_event set_pending].
      rewrite E1, E2. cbn [andb]. by rewrite F2, !bind_done.
    - rewrite bind_done. destruct (negb (on_alt v) && _); [by rewrite F2, !bind_done|by rewrite bind_done]. }
  rewrite <-(draws_cols _ _ D), <-(draws_scroll_top _ _ D), <-(draws_scroll_bot _ _ D) in *.
  revert H0 Hreg. rewrite <-(draws_rows _ _ D). generalize leaving. clear. intros v Hv Hreg.
  destruct (close_moves v Hv (scroll_top v) (scroll_bot v + 1) 1) as (w & Sw & Ew); [lia..|].
  replace (scroll_bot v + 1 - 1) with (scroll_bot v) in Ew by lia.
  exists (mark_all w). change 1%nat with (Z.to_nat 1). rewrite <-(closed_lines v w (scroll_top v) (scroll_bot v + 1) 1 Hv) by (done || lia).
  split; [|by destruct (same_lines _ _ (mark_all_same w)) as [-> _]].
  pose proof (bind4 _ _ _ _ (λ x, Done (mark_all x)) w Ew) as E. cbn beta in E. rewrite <-E.
  destruct (move_cells _ _ _ _) as [x1| |]; [|done..]. rewrite !bind_done.
  destruct (move_soft _ _ _ _) as [x2| |]; [|done..]. rewrite !bind_done. by rewrite range_one.
Qed.
Lemma scroll_down_lines : ∃ w, scroll_down v = Done w ∧
  lines w = open_gap (Z.to_nat (scroll_top v)) (Z.to_nat (scroll_bot v + 1)) 1 (blank_line v) (lines v).
Proof.
  pose proof (i_region v Hv) as Hreg. unfold scroll_down. cbn zeta.
  destruct (restarted (scroll_top v =? 0)) as (v0 & -> & H0 & C0 & R0 & <- & <-). rewrite <-C0.
  destruct (open_moves v0 H0 (scroll_top v) (scroll_bot v + 1) 1) as (w & Sw & Ew); [lia..|].
  replace (scroll_bot v + 1 - 1) with (scroll_bot v) in Ew by lia. exists (mark_all w).
  change 1%nat with (Z.to_nat 1). rewrite <-(opened_lines v0 w (scroll_top v) (scroll_bot v + 1) 1 H0) by (done || lia).
  split; [|by destruct (same_lines _ _ (mark_all_same w)) as [-> _]].
  pose proof (bind4 _ _ _ _ (λ x, Done (mark_all x)) w Ew) as E. cbn beta in E. rewrite <-E.
  destruct (move_cells _ _ _ _) as [x1| |]; [|done..]. rewrite !bind_done.
  destruct (move_soft _ _ _ _) as [x2| |]; [|done..]. rewrite !bind_done. by rewrite range_one.
Qed.
End LineOps.

End VtRows.
