(* ===== verification/VtLines.v ===== *)
(** * The terminal emulator: a re-cut keeps the text

    Logical lines are rows joined over their soft-wrap flags.  Re-cut at any width
    a screen of single-width cells has the same logical lines. *)

From S2P Require Import Prelude VtBase Vt VtResize VtInv VtTotal VtReflow VtRows.
Import VtBase Vt VtResize VtInv VtTotal VtReflow VtRows.
Open Scope Z_scope.

Module VtLines.

(** A line without its trailing never-written cells. *)
Definition strip (bl : Cell) (l : list Cell) : list Cell := truncate bl 0 l.

Fixpoint logical (bl : Cell) (acc : list Cell) (rs : list (list Cell * bool)) : list (list Cell) :=
  match rs with
  | [] => match acc with [] => [] | _ => [strip bl acc] end
  | (row, soft) :: rs =>
      if soft : bool then logical bl (acc ++ row) rs else strip bl (acc ++ row) :: logical bl [] rs
  end.

(** ** Stripping *)

Lemma trim_0_cons bl c l : trim_pad bl 0 (c :: l) = if is_pad bl c then trim_pad bl 0 l else c :: l.
Proof. done. Qed.
Lemma strip_app_pad bl l p : Forall (λ c, is_pad bl c = true) p → strip bl (l ++ p) = strip bl l.
Proof.
  intros Hp. unfold strip, truncate. rewrite rev_app_distr. f_equal.
  assert (Forall (λ c, is_pad bl c = true) (rev p)) as Hr by by apply Forall_rev.
  induction Hr as [|c q Hc _ IH]; [done|]. cbn [app]. by rewrite trim_0_cons, Hc.
Qed.
Lemma strip_truncate bl low l : strip bl (truncate bl low l) = strip bl l.
Proof.
  unfold strip, truncate. rewrite rev_involutive. f_equal. generalize (rev l). clear l. intros l.
  induction l as [|c l IH]; [done|].
  change (trim_pad bl low (c :: l)) with (if (low <? zlen (c :: l)) && is_pad bl c then trim_pad bl low l else c :: l).
  destruct (low <? zlen (c :: l)); cbn [andb]; [|done]. destruct (is_pad bl c) eqn:E; [|done]. by rewrite trim_0_cons, E.
Qed.
Lemma pad_row_strip bl ncols acc r : is_pad bl bl = true → strip bl (acc ++ pad_row ncols bl r) = strip bl (acc ++ r).
Proof. intros Hb. unfold pad_row. rewrite app_assoc. apply strip_app_pad. by apply Forall_replicate. Qed.

(** ** Joining *)

Lemma logical_closed bl acc rs r rest :
  logical bl acc ((rs ++ [(r, false)]) ++ rest) = logical bl acc (rs ++ [(r, false)]) ++ logical bl [] rest.
Proof.
  revert acc. induction rs as [|[q soft] rs IH]; intros acc; [done|]. cbn [app logical]. destruct soft; [apply IH|].
  cbn [app]. f_equal. apply IH.
Qed.
Lemma logical_soft bl acc rs r : logical bl acc (zip rs (replicate (length rs) true) ++ [(r, false)]) = [strip bl (acc ++ mjoin rs ++ r)].
Proof.
  revert acc. induction rs as [|q rs IH]; intros acc; cbn [length replicate zip zip_with app logical]; [done|].
  rewrite IH. change (mjoin (q :: rs)) with (q ++ mjoin rs). by rewrite <-!app_assoc.
Qed.
(** The rows out so far end with a line's last one. *)
Definition closed (rs : list (list Cell * bool)) : Prop := rs = [] ∨ ∃ rs' r, rs = rs' ++ [(r, false)].
Lemma logical_app bl rs rest : closed rs → logical bl [] (rs ++ rest) = logical bl [] rs ++ logical bl [] rest.
Proof. intros [->|(rs' & r & ->)]; [done|]. apply logical_closed. Qed.

(** ** The re-cut of single-width cells *)

Notation narrow := (Forall (λ c, is_wide_cell c = false)).

Lemma make_room_flat ncols bl s : zlen (row s) ≤ ncols →
  ∃ k, out (make_room ncols bl 1 s) ++ row (make_room ncols bl 1 s) = out s ++ row s ∧
    out_wrapped (make_room ncols bl 1 s) = out_wrapped s ++ replicate k true.
Proof.
  intros Hr. unfold make_room. destruct (Z.ltb_spec ncols (zlen (row s) + 1)); cbn.
  - exists 1%nat. split; [|done]. rewrite app_nil_r. unfold pad_row. replace (ncols - zlen (row s)) with 0 by lia.
    cbn. by rewrite app_nil_r.
  - exists 0%nat. cbn. by rewrite app_nil_r.
Qed.
Lemma recut_flat ncols bl content s s' : 1 ≤ ncols → cut_ok ncols s → narrow content → recut ncols bl content s = Done s' →
  ∃ k, out s' ++ row s' = out s ++ row s ++ content ∧ out_wrapped s' = out_wrapped s ++ replicate k true.
Proof.
  intros Hn. revert s. induction content as [|c content IH]; intros s Hs Hc E.
  { cbn in E. injection E as <-. exists 0%nat. cbn. by rewrite !app_nil_r. }
  apply Forall_cons in Hc as [Hc Hcs].
  assert (recut ncols bl (c :: content) s = recut ncols bl content (push_cell c (make_room ncols bl 1 s))) as Ee.
  { destruct content as [|d rest]; [done|]. rewrite recut_cons2. by rewrite Hc. }
  rewrite Ee in E. clear Ee. destruct (make_room_ok ncols bl Hn 1 s Hs ltac:(lia)) as (O1 & R1 & _).
  destruct (push_cell_ok ncols c _ O1 R1) as (O2 & _). destruct (IH _ O2 Hcs E) as (k & E1 & E2).
  destruct (make_room_flat ncols bl s) as (j & F1 & F2); [apply Hs|]. exists (j + k)%nat. cbn in E1, E2.
  rewrite E1, E2, F2. split; [|by rewrite replicate_add, app_assoc].
  rewrite <-!app_assoc. rewrite (app_assoc (out (make_room _ _ _ _))), F1. by rewrite <-!app_assoc.
Qed.

Lemma chunk_app {A} n j k (a c : list A) : length a = (n * j)%nat → chunk n (j + k) (a ++ c) = chunk n j a ++ chunk n k c.
Proof.
  revert a. induction j as [|j IH]; intros a Ha; cbn [chunk Nat.add app].
  { by destruct a; [|cbn in Ha; lia]. }
  rewrite take_app_le, drop_app_le by lia. rewrite IH by (rewrite length_drop; lia). done.
Qed.
Lemma prefix_split {A} (a c x y : list A) : a ++ c = x ++ y → (length x ≤ length a)%nat → ∃ z, a = x ++ z ∧ z ++ c = y.
Proof.
  intros E Hl. exists (drop (length x) a). assert (take (length x) a = x) as Ex.
  { apply (f_equal (take (length x))) in E. rewrite take_app_le, take_app_length in E by lia. done. }
  assert (a = x ++ drop (length x) a) as Ea by by rewrite <-Ex at 1; rewrite take_drop. split; [done|].
  rewrite Ea in E. rewrite <-app_assoc in E. by apply app_inv_head in E.
Qed.

(** ** One line of the screen *)

Section Screen.
Context (cells : list Cell) (wrapped : list bool) (cols rows ncols : Z) (cursor : Z * Z) (bl : Cell).
Context (Hc : 1 ≤ cols) (Hn : 1 ≤ ncols) (Hr : 0 ≤ rows) (Hl : zlen cells = cols * rows) (Hw : zlen wrapped = rows)
  (Hcx : 0 ≤ cursor.1 ≤ cols) (Hpad : is_pad bl bl = true) (Hnarrow : narrow cells).

Notation rws := (chunk (Z.to_nat cols) (Z.to_nat rows) cells).
Notation old := (zip rws wrapped).

Lemma rws_ok : mjoin rws = cells ∧ Forall (λ r, length r = Z.to_nat cols) rws ∧ length rws = Z.to_nat rows.
Proof. apply chunk_ok. nia. Qed.
Lemma row_slice r : 0 ≤ r < rows → ∃ q, rws !! Z.to_nat r = Some q ∧ slice cells (r * cols) ((r + 1) * cols) = Done q.
Proof.
  intros Hrr. destruct rws_ok as (E & W & L). destruct (lookup_lt_is_Some_2 rws (Z.to_nat r)) as [q Hq]; [lia|]. exists q. split; [done|].
  rewrite slice_ok by nia. f_equal. rewrite <-E at 1. replace (Z.to_nat (r * cols)) with (Z.to_nat r * Z.to_nat cols)%nat by nia.
  rewrite drop_join by (done || lia). rewrite (drop_S _ _ _ Hq).
  change (mjoin (q :: drop (S (Z.to_nat r)) rws)) with (q ++ mjoin (drop (S (Z.to_nat r)) rws)).
  apply take_app_length'. rewrite Forall_forall in W. rewrite (W q) by by eapply list_elem_of_lookup_2. lia.
Qed.
Lemma old_row r : 0 ≤ r < rows → ∃ q, rws !! Z.to_nat r = Some q ∧
  drop (Z.to_nat r) old = (q, soft_at wrapped r) :: drop (S (Z.to_nat r)) old.
Proof.
  intros Hrr. destruct (row_slice r Hrr) as (q & Hq & _). exists q. split; [done|].
  destruct (lookup_lt_is_Some_2 wrapped (Z.to_nat r)) as [x Hx]; [lia|].
  apply drop_S. unfold soft_at. rewrite Hx. cbn [default]. apply lookup_zip_with_Some. by exists q, x.
Qed.

(** The rows [r ..= e] joined; [gather] collects them. *)
Definition between (r e : Z) : list Cell := mjoin (take (Z.to_nat (e + 1 - r)) (drop (Z.to_nat r) rws)).
Lemma between_cons r e q : 0 ≤ r ≤ e → rws !! Z.to_nat r = Some q → between r e = q ++ between (r + 1) e.
Proof.
  intros He Hq. unfold between. rewrite (drop_S _ _ _ Hq). replace (Z.to_nat (e + 1 - r)) with (S (Z.to_nat (e + 1 - (r + 1)))) by lia.
  replace (Z.to_nat (r + 1)) with (S (Z.to_nat r)) by lia. done.
Qed.
Lemma between_nil r : between (r + 1) r = [].
Proof. unfold between. by replace (r + 1 - (r + 1)) with 0 by lia. Qed.
Lemma gather_between r e : 0 ≤ r ≤ e → e < rows → gather cells cols r e = Done (between r e).
Proof.
  intros He Her. unfold gather, for_range. enough (∀ n r acc, 0 ≤ r → r + Z.of_nat n = e + 1 →
    foldM (λ s rr, row ← slice cells (rr * cols) ((rr + 1) * cols); Done (s ++ row)) acc (seqZ r (Z.of_nat n)) = Done (acc ++ between r e)) as H.
  { specialize (H (Z.to_nat (e + 1 - r)) r []). rewrite Z2Nat.id in H by lia. apply H; lia. }
  induction n as [|n IH]; intros q acc Hq Hqn.
  { replace q with (e + 1) by lia. by rewrite between_nil, app_nil_r. }
  rewrite Nat2Z.inj_succ, seqZ_cons, Z.pred_succ by lia. cbn [foldM]. destruct (row_slice q) as (x & Hx & ->); [lia|]. obind.
  rewrite IH by lia. rewrite (between_cons q e x) by (done || lia). by rewrite <-app_assoc, <-Z.add_1_r.
Qed.

(** The logical line at row [r] is the rows up to its end. *)
Lemma line_end_logical fuel r acc : 0 ≤ r < rows → rows - r ≤ Z.of_nat fuel →
  let e := line_end fuel wrapped rows r in
  logical bl acc (drop (Z.to_nat r) old) = strip bl (acc ++ between r e) :: logical bl [] (drop (Z.to_nat (e + 1)) old).
Proof.
  revert r acc. induction fuel as [|fuel IH]; intros r acc Hrr Hf; [lia|]. cbn [line_end].
  destruct (old_row r Hrr) as (q & Hq & ->). cbn [logical].
  assert (length q ≠ 0%nat) as Hq0.
  { destruct rws_ok as (_ & W & _). rewrite Forall_forall in W. rewrite (W q) by by eapply list_elem_of_lookup_2. lia. }
  replace (S (Z.to_nat r)) with (Z.to_nat (r + 1)) by lia.
  destruct (Z.ltb_spec (r + 1) rows); cbn [andb].
  - destruct (soft_at wrapped r).
    + rewrite IH by lia. pose proof (line_end_bounds fuel wrapped rows (r + 1) ltac:(lia)).
      rewrite (between_cons r _ q) by (done || lia). by rewrite <-app_assoc.
    + rewrite (between_cons r r q) by (done || lia). by rewrite between_nil, app_nil_r.
  - rewrite (between_cons r r q) by (done || lia). rewrite between_nil, app_nil_r.
    assert (drop (Z.to_nat (r + 1)) old = []) as ->.
    { apply drop_ge. rewrite length_zip_with. lia. }
    destruct (soft_at wrapped r); [|done]. cbn [logical]. destruct (acc ++ q) eqn:Eq; [|done].
    destruct q; [done|]. by apply app_nil in Eq as [_ Eq].
Qed.

(** *** The rows written *)

Definition rows_out (o : list Cell) (ow : list bool) : list (list Cell * bool) := zip (chunk (Z.to_nat ncols) (length ow) o) ow.

Lemma line_rows o ow content s : zlen o = ncols * zlen ow → closed (rows_out o ow) → narrow content →
  recut ncols bl content (mkRecut o ow [] []) = Done s → let o' := out s ++ pad_row ncols bl (row s) in let ow' := out_wrapped s ++ [false] in
  closed (rows_out o' ow') ∧ logical bl [] (rows_out o' ow') = logical bl [] (rows_out o ow) ++ [strip bl content].
Proof.
  intros Ho Hcl Hnar E o' ow'. assert (cut_ok ncols (mkRecut o ow [] [])) as Hs0 by (split; [done|]; split; [cbn; lia|constructor]).
  destruct (recut_ok ncols bl Hn content _ Hs0) as (s2 & E2 & (S1 & S2 & _) & _). rewrite E in E2. injection E2 as <-.
  destruct (recut_flat ncols bl content _ s Hn Hs0 Hnar E) as (k & F1 & F2). cbn in F1, F2. rewrite F2 in S1.
  rewrite length_app, length_replicate in S1. destruct (prefix_split _ _ _ _ F1) as (x & Ex & Ec); [nia|].
  assert (length x = (Z.to_nat ncols * k)%nat) as Lx by (apply (f_equal length) in Ex; rewrite length_app in Ex; nia).
  assert (rows_out o' ow' = rows_out o ow ++ zip (chunk (Z.to_nat ncols) k x) (replicate k true) ++ [(pad_row ncols bl (row s), false)]) as Er.
  { unfold rows_out. subst o' ow'. rewrite F2, !length_app, length_replicate. cbn [length]. rewrite Ex, <-!app_assoc.
    rewrite <-Nat.add_assoc, chunk_app by nia. rewrite chunk_app by done.
    destruct (chunk_ok (Z.to_nat ncols) k x Lx) as (_ & _ & Lk).
    destruct (chunk_ok (Z.to_nat ncols) (length ow) o) as (_ & _ & Lo); [nia|].
    rewrite zip_app by done. rewrite zip_app by by rewrite Lk, length_replicate. do 2 f_equal. cbn [chunk zip zip_with].
    pose proof (pad_row_len ncols bl (row s) S2). rewrite take_ge by lia. done. }
  rewrite Er. split.
  { right. exists (rows_out o ow ++ zip (chunk (Z.to_nat ncols) k x) (replicate k true)), (pad_row ncols bl (row s)). by rewrite <-app_assoc. }
  rewrite logical_app by done. f_equal. destruct (chunk_ok (Z.to_nat ncols) k x Lx) as (Ej & _ & Lk).
  pose proof (logical_soft bl [] (chunk (Z.to_nat ncols) k x) (pad_row ncols bl (row s))) as Ls. rewrite Lk, Ej in Ls. rewrite Ls. cbn [app].
  by rewrite pad_row_strip, Ec.
Qed.

Lemma truncate_narrow low l : narrow l → narrow (truncate bl low l).
Proof.
  intros Hnl. unfold truncate. apply Forall_rev. apply Forall_rev in Hnl. revert Hnl. generalize (rev l). clear l. intros l Hnl.
  induction Hnl as [|c l Hc' Hl' IH]; [constructor|].
  change (trim_pad bl low (c :: l)) with (if (low <? zlen (c :: l)) && is_pad bl c then trim_pad bl low l else c :: l).
  destruct (_ && _); [done|by constructor].
Qed.
Lemma between_narrow r e : narrow (between r e).
Proof.
  unfold between. destruct rws_ok as (E & W & L). rewrite <-E in Hnarrow. revert Hnarrow. generalize rws. clear. intros rs Hnar.
  assert (∀ rs : list (list Cell), narrow (mjoin rs) ↔ Forall narrow rs) as Hj.
  { clear. induction rs as [|q rs IH]; [by split; constructor|]. change (mjoin (q :: rs)) with (q ++ mjoin rs).
    by rewrite Forall_app, Forall_cons, IH. }
  rewrite Hj in *. by apply Forall_take, Forall_drop.
Qed.

Lemma reflow_loop_lines fuel r o ow cur o' ow' cur' : 0 ≤ r ≤ rows → zlen o = ncols * zlen ow → closed (rows_out o ow) →
  lines_ok ncols o ow cur →
  reflow_loop fuel cells wrapped cols rows cursor ncols bl r o ow cur = Done (o', ow', cur') →
  logical bl [] (rows_out o' ow') = logical bl [] (rows_out o ow) ++ logical bl [] (drop (Z.to_nat r) old).
Proof.
  revert r o ow cur. induction fuel as [|fuel IH]; intros r o ow cur Hrr Ho Hcl Hok E; cbn [reflow_loop] in E; [done|].
  destruct (Z.ltb_spec r rows).
  2: { injection E as <- <- <-. rewrite drop_ge; [by rewrite app_nil_r|]. destruct rws_ok as (_ & _ & L). rewrite length_zip_with. lia. }
  destruct (reflow_line_ok cells wrapped cols rows ncols cursor bl Hc Hn Hl Hcx r o ow cur ltac:(lia) Hok)
    as (o1 & ow1 & cur1 & r1 & E1 & Hok1 & Hr1 & _). rewrite E1 in E. rewrite bind_done in E.
  assert (closed (rows_out o1 ow1) ∧ logical bl [] (rows_out o1 ow1) = logical bl [] (rows_out o ow) ++
    [strip bl (between r (line_end (Z.to_nat rows) wrapped rows r))] ∧ r1 = line_end (Z.to_nat rows) wrapped rows r + 1) as (Hcl1 & L1 & ->).
  { unfold reflow_line in E1. rewrite (surjective_pairing cursor) in E1. cbv iota beta in E1. pose proof (line_end_bounds (Z.to_nat rows) wrapped rows r ltac:(lia)) as He.
    set (e := line_end _ _ _ _) in *. cbn zeta in E1. rewrite (gather_between r e), bind_done in E1 by lia.
    pose proof (truncate_narrow ((e - r) * cols) _ (between_narrow r e)) as Hnt.
    destruct (recut _ _ _ _) as [s| |] eqn:Es; [|done..]. rewrite bind_done in E1.
    destruct (line_rows o ow _ s Ho Hcl Hnt Es) as [C L]. rewrite strip_truncate in L.
    destruct (if _ && _ then _ else _) as [c1| |]; [|done..]. rewrite bind_done in E1. injection E1 as <- <- <- <-. done. }
  rewrite (IH (line_end (Z.to_nat rows) wrapped rows r + 1) o1 ow1 cur1) by (done || lia || apply Hok1). rewrite L1, <-app_assoc. f_equal. cbn [app].
  by rewrite (line_end_logical (Z.to_nat rows) r []) by lia.
Qed.

(** *** The window *)

Notation empty := (replicate (Z.to_nat ncols) bl, false).

Lemma rows_out_row o ow k : zlen o = ncols * zlen ow → 0 ≤ k < zlen ow → ∃ r w,
  slice o (k * ncols) ((k + 1) * ncols) = Done r ∧ idx ow k = Done w ∧ zlen r = ncols ∧
  rows_out o ow !! Z.to_nat k = Some (r, w) ∧ drop (Z.to_nat k) (rows_out o ow) = (r, w) :: drop (S (Z.to_nat k)) (rows_out o ow).
Proof.
  intros Ho Hk. destruct (chunk_ok (Z.to_nat ncols) (length ow) o) as (E & W & L); [nia|].
  destruct (idx_ok ow k Hk) as (w & Ew & Hw'). destruct (lookup_lt_is_Some_2 (chunk (Z.to_nat ncols) (length ow) o) (Z.to_nat k)) as [r Er]; [lia|].
  assert (length r = Z.to_nat ncols) as Lr. { rewrite Forall_forall in W. apply W. by eapply list_elem_of_lookup_2. }
  assert (rows_out o ow !! Z.to_nat k = Some (r, w)) as El by (apply lookup_zip_with_Some; by exists r, w).
  exists r, w. split; [|split; [done|split; [lia|split; [done|by apply drop_S]]]].
  rewrite slice_ok by nia. f_equal. rewrite <-E at 1.
  replace (Z.to_nat (k * ncols)) with (Z.to_nat k * Z.to_nat ncols)%nat by nia. rewrite drop_join by (done || lia).
  rewrite (drop_S _ _ _ Er). set (rest := drop _ _). change (mjoin (r :: rest)) with (r ++ mjoin rest). apply take_app_length'. lia.
Qed.
Lemma rows_out_snoc o ow r w : zlen o = ncols * zlen ow → zlen r = ncols → rows_out (o ++ r) (ow ++ [w]) = rows_out o ow ++ [(r, w)].
Proof.
  intros Ho Hr'. unfold rows_out. rewrite length_app. cbn [length]. rewrite chunk_app by nia.
  destruct (chunk_ok (Z.to_nat ncols) (length ow) o) as (_ & _ & Lo); [nia|]. rewrite zip_app by done. cbn [chunk zip zip_with].
  by rewrite take_ge by lia.
Qed.
Lemma rows_out_length o ow : zlen o = ncols * zlen ow → length (rows_out o ow) = length ow.
Proof. intros Ho. destruct (chunk_ok (Z.to_nat ncols) (length ow) o) as (_ & _ & Lo); [nia|]. unfold rows_out. rewrite length_zip_with. lia. Qed.

Lemma scrolled_rows o ow shift sc : zlen o = ncols * zlen ow → 0 ≤ shift ≤ zlen ow →
  mapM_o (λ k, row ← slice o (k * ncols) ((k + 1) * ncols); w ← idx ow k; Done (row, w)) (seqZ 0 shift) = Done sc →
  sc = take (Z.to_nat shift) (rows_out o ow).
Proof.
  intros Ho Hs. enough (∀ n k sc, 0 ≤ k → k + Z.of_nat n = shift →
    mapM_o (λ k, row ← slice o (k * ncols) ((k + 1) * ncols); w ← idx ow k; Done (row, w)) (seqZ k (Z.of_nat n)) = Done sc →
    sc = take n (drop (Z.to_nat k) (rows_out o ow))) as H.
  { intros E. specialize (H (Z.to_nat shift) 0 sc). rewrite Z2Nat.id in H by lia. apply H; [lia..|done]. }
  induction n as [|n IH]; intros k sc' Hk Hkn E; [by injection E as <-|].
  rewrite Nat2Z.inj_succ, seqZ_cons, Z.pred_succ in E by lia. cbn [mapM_o] in E.
  destruct (rows_out_row o ow k Ho ltac:(lia)) as (r & w & E1 & E2 & _ & _ & Ed). rewrite E1, bind_done, E2, !bind_done in E.
  destruct (mapM_o _ _) as [rest| |] eqn:Er; [|done..]. rewrite bind_done in E. injection E as <-.
  rewrite Ed. cbn [take]. f_equal. replace (S (Z.to_nat k)) with (Z.to_nat (Z.succ k)) by lia. apply IH; [lia|lia|done].
Qed.
Lemma window_rows o ow shift n co wo : zlen o = ncols * zlen ow → 0 ≤ shift → 0 ≤ n →
  for_range shift (shift + n) (λ k '(co, wo),
    if k <? zlen ow then
      row ← slice o (k * ncols) ((k + 1) * ncols); w ← idx ow k; Done (co ++ row, wo ++ [w])
    else Done (co ++ replicate (Z.to_nat ncols) bl, wo ++ [false])) ([], []) = Done (co, wo) →
  zlen wo = n ∧ let rest := drop (Z.to_nat shift) (rows_out o ow) in
  rows_out co wo = take (Z.to_nat n) rest ++ replicate (Z.to_nat n - length rest) empty.
Proof.
  intros Ho Hs Hn0. unfold for_range. replace (shift + n - shift) with (Z.of_nat (Z.to_nat n)) by lia.
  set (f := λ s k, _). enough (∀ m k c0 w0, 0 ≤ k → zlen c0 = ncols * zlen w0 →
    foldM f (c0, w0) (seqZ k (Z.of_nat m)) = Done (co, wo) →
    length wo = (length w0 + m)%nat ∧ rows_out co wo = rows_out c0 w0 ++ take m (drop (Z.to_nat k) (rows_out o ow)) ++
      replicate (m - length (drop (Z.to_nat k) (rows_out o ow))) empty) as H.
  { intros E. destruct (H (Z.to_nat n) shift [] [] Hs) as [H1 H2]; [cbn; lia|done|]. cbn in H1. split; [lia|done]. }
  induction m as [|m IH]; intros k c0 w0 Hk H0 E.
  { injection E as <- <-. split; [lia|]. by rewrite app_nil_r. }
  rewrite Nat2Z.inj_succ, seqZ_cons, Z.pred_succ in E by lia. cbn [foldM] in E. subst f. cbn beta iota in E.
  destruct (Z.ltb_spec k (zlen ow)).
  - destruct (rows_out_row o ow k Ho ltac:(lia)) as (r & w & E1 & E2 & Lr & _ & Ed). rewrite E1, bind_done, E2, !bind_done in E.
    destruct (IH (Z.succ k) (c0 ++ r) (w0 ++ [w])) as [H1 H2]; [lia|rewrite !length_app; cbn; nia|done|].
    rewrite length_app in H1. cbn in H1. split; [lia|]. rewrite H2, rows_out_snoc, Ed, <-app_assoc by done.
    replace (Z.to_nat (Z.succ k)) with (S (Z.to_nat k)) by lia. done.
  - rewrite bind_done in E. destruct (IH (Z.succ k) (c0 ++ replicate (Z.to_nat ncols) bl) (w0 ++ [false])) as [H1 H2];
      [lia|rewrite !length_app, length_replicate; cbn; nia|done|].
    rewrite length_app in H1. cbn in H1. split; [lia|]. pose proof (rows_out_length o ow Ho).
    rewrite H2, rows_out_snoc, <-app_assoc by (done || rewrite length_replicate; lia).
    rewrite !drop_ge by lia. rewrite !take_nil. cbn. by rewrite Nat.sub_0_r.
Qed.

(** The history rows and the new grid hold the re-cut lines, but for rows below
    a full window. *)
Lemma reflow_lines top nrows rf : 1 ≤ nrows → 1 ≤ rows → reflow cells wrapped cols rows cursor top ncols nrows bl = Done rf →
  ∃ kept dropped, r_scrolled rf ++ zip (chunk (Z.to_nat ncols) (Z.to_nat nrows) (r_cells rf)) (r_wrapped rf) =
      kept ++ replicate (length (r_scrolled rf) + Z.to_nat nrows - length kept) empty ∧
    (dropped = [] ∨ length kept = (length (r_scrolled rf) + Z.to_nat nrows)%nat) ∧
    logical bl [] (kept ++ dropped) = logical bl [] old.
Proof.
  intros Hnr Hr1 E. unfold reflow in E.
  destruct (reflow_loop_ok cells wrapped cols rows ncols cursor bl Hc Hn Hl Hcx (S (Z.to_nat rows)) 0 [] [] None)
    as (o & ow & cur & El & [Ho Hcur] & H1); [lia|lia|split; [cbn; lia|done]|lia|].
  assert (logical bl [] (rows_out o ow) = logical bl [] old) as Hlog.
  { apply (reflow_loop_lines (S (Z.to_nat rows)) 0 [] [] None o ow cur); [lia|cbn; lia|by left|split; [cbn; lia|done]|done]. }
  rewrite El, bind_done in E. cbv beta iota in E.
  assert (∃ cr cc, default (0, 0) cur = (cr, cc) ∧ 0 ≤ cr < zlen ow) as (cr & cc & Ed & Hcr).
  { destruct cur as [[cr cc]|]; cbn in *; [exists cr, cc; split; [done|lia]|]. exists 0, 0. split; [done|]. lia. }
  rewrite Ed in E. assert (∃ shift, (if nrows <=? cr then usub (cr + 1) nrows else Done 0) = Done shift ∧ 0 ≤ shift ≤ zlen ow) as (shift & Es & Hsh).
  { destruct (Z.leb_spec nrows cr); [rewrite usub_ok by lia|]; eexists; (split; [done|lia]). }
  rewrite Es, bind_done in E. destruct (mapM_o _ _) as [sc| |] eqn:Esc; [|done..]. rewrite bind_done in E.
  apply (scrolled_rows o ow shift sc Ho) in Esc; [|lia].
  destruct (if 0 <? shift then _ else _) as [t| |]; [|done..]. rewrite bind_done in E.
  destruct (for_range _ _ _ _) as [[co wo]| |] eqn:Ew; [|done..]. rewrite bind_done in E. cbv beta iota in E.
  apply (window_rows o ow shift nrows co wo Ho) in Ew as [Lw Ew]; [|lia..].
  destruct (usub cr shift) as [y| |]; [|done..]. rewrite bind_done in E. injection E as <-. cbn [r_scrolled r_cells r_wrapped].
  cbn zeta in Ew. unfold rows_out in Ew at 1. replace (length wo) with (Z.to_nat nrows) in Ew by lia.
  pose proof (rows_out_length o ow Ho) as Lo. set (R := rows_out o ow) in *. rewrite Ew, Esc.
  exists (take (Z.to_nat shift + Z.to_nat nrows) R), (drop (Z.to_nat shift + Z.to_nat nrows) R). split; [|split].
  - rewrite app_assoc, take_take_drop, !length_take, length_drop. do 2 f_equal. lia.
  - destruct (decide (Z.to_nat shift + Z.to_nat nrows ≤ length R)%nat); [right; rewrite !length_take; lia|left; apply drop_ge; lia].
  - by rewrite take_drop.
Qed.
End Screen.

End VtLines.
