(* ===== verification/VtClaims.v ===== *)
(** * The terminal emulator: its properties

    Totality over any use of the terminal, the isolation of the alternate screen,
    the line operations, resizing, widths and the hold on synchronized frames. *)

From S2P Require Import Prelude VtBase Vt VtResize VtInv VtWidth VtTotal VtReflow VtRows VtLines.
Import VtBase Vt VtResize VtInv VtWidth VtTotal VtReflow VtRows VtLines.
Open Scope Z_scope.

Module VtClaims.

(** ** What a user of the terminal may call *)

Inductive Op :=
  | Feed (bs : list Z) | FeedUntil (bs : list Z) | Resize (ncols nrows : Z)
  | SetPalette (p : Palette) | SetTheme (i : nat) | SetCapture (on : bool).
Definition run_op (v : Vt) (o : Op) : outcome Vt :=
  match o with
  | Feed bs => feed bs v
  | FeedUntil bs => '(v, _, _) ← feed_until bs v; Done v
  | Resize c r => resize c r v
  | SetPalette p => Done (set_palette p v)
  | SetTheme i => set_theme i v
  | SetCapture on => Done (set_capture on v)
  end.
Definition op_ok (o : Op) : bool :=
  match o with
  | Resize c r => (0 <=? c) && (c <? 2 ^ 31) && (0 <=? r) && (r <? 2 ^ 31)
  | SetPalette p => zlen (p_ansi p) =? 16
  | _ => true
  end.

Lemma run_op_ok v o : inv v → op_ok o = true → ∃ w, run_op v o = Done w ∧ inv w.
Proof.
  intros Hv Ho. destruct o as [bs|bs|c r|p|i|on]; cbn [run_op op_ok] in *.
  - by apply feed_ok.
  - destruct (feed_until_ok bs v Hv) as (w & rest & e & -> & Hw & _). by exists w.
  - apply resize_ok; [done|lia..].
  - eexists. split; [done|]. apply set_palette_inv; [lia|done].
  - unfold set_theme. assert (i `mod` length THEMES < length THEMES)%nat as Hi by (apply Nat.mod_upper_bound; done).
    apply lookup_lt_is_Some_2 in Hi as [p Hp]. rewrite Hp. cbn [unwrap]. rewrite bind_done. eexists. split; [done|].
    apply set_palette_inv; [|done]. revert Hp. generalize (i `mod` length THEMES)%nat. intros k Hp.
    assert (forallb (λ q, zlen (p_ansi q) =? 16) THEMES = true) as Ht by (vm_compute; reflexivity).
    rewrite forallb_forall in Ht. apply Z.eqb_eq, Ht, list_elem_of_In. by eapply list_elem_of_lookup_2.
  - eexists. split; [done|]. unfold set_capture. destruct Hv. by split.
Qed.
Lemma run_ops_ok ops v : inv v → forallb op_ok ops = true → ∃ w, foldM run_op v ops = Done w ∧ inv w.
Proof.
  revert v. induction ops as [|o ops IH]; intros v Hv Ho; [by exists v|]. cbn [forallb] in Ho. apply andb_true_iff in Ho as [H1 H2].
  cbn [foldM]. destruct (run_op_ok v o Hv H1) as (w & -> & Hw). rewrite bind_done. by apply IH.
Qed.

(** C14: A terminal of any geometry below 2^31 a side, with a palette of 16 colours,
    returns from every sequence of byte feeds (arbitrary bytes, to the end or to
    the next boundary), resizes, palette and theme changes and capture switches,
    with no panic, and the result is well formed: both screens are whole grids of
    the geometry with a flag per row, the cursor, the saved cursor and the scroll
    region are on it, and the parameter and command buffers are within bounds. *)
Theorem vt_total c r p ops : c < 2 ^ 31 → r < 2 ^ 31 → zlen (p_ansi p) = 16 → forallb op_ok ops = true →
  ∃ v w, with_palette c r p = Done v ∧ foldM run_op v ops = Done w ∧ inv w.
Proof.
  intros Hc Hr Hp Ho. destruct (with_palette_ok c r p Hc Hr Hp) as (v & -> & Hv).
  destruct (run_ops_ok ops v Hv Ho) as (w & Ew & Hw). by exists v, w.
Qed.
Lemma vt_total_witness :
  ∃ v w, with_palette 3 2 BONFIRE = Done v ∧
    foldM run_op v [Feed [27; 91; 63; 49; 48; 52; 57; 104; 228; 184; 173; 120]; Resize 1 1; FeedUntil [10]; SetTheme 4] = Done w ∧ inv w.
Proof. apply vt_total; reflexivity. Defined.

(** ** The alternate screen *)

(** The terminal is on the alternate screen before every byte and after the last. *)
Fixpoint stays_alt (bs : list Z) (v : Vt) : bool :=
  on_alt v && match bs with
              | [] => true
              | b :: bs => match byte b v with Done w => stays_alt bs w | _ => false end
              end.
Lemma stays_alt_main bs v : inv v → stays_alt bs v = true →
  ∃ w, bytes bs v = Done w ∧ inv w ∧ on_alt w = true ∧ main w = main v.
Proof.
  revert v. induction bs as [|b bs IH]; intros v Hv Hs; cbn [stays_alt bytes] in *; apply andb_true_iff in Hs as [Ha Hs]; [by exists v|].
  destruct (byte_steps b v Hv) as (w & E & Hw & Hm). rewrite E in Hs. rewrite E, bind_done.
  assert (on_alt w = true) as Aw by (destruct bs; cbn [stays_alt] in Hs; by apply andb_true_iff in Hs as [? _]).
  destruct (IH w Hw Hs) as (x & Ex & Hx & Ax & Mx). exists x. split; [done|]. split; [done|]. split; [done|]. rewrite Mx. by apply Hm.
Qed.

(** Entering the alternate screen, feeding any bytes that stay on it, and
    leaving it gives the main screen back exactly: every cell, every row's
    soft-wrap flag and the flag of the row above its top, whatever was drawn,
    scrolled, erased or reset in between. *)
Theorem alt_isolated v a bs : inv v → on_alt v = false → alt_screen true v = Done a → stays_alt bs a = true →
  ∃ b w, bytes bs a = Done b ∧ alt_screen false b = Done w ∧ on_alt w = false ∧
    (cells w, wrapped w, top_continues w) = (cells v, wrapped v, top_continues v).
Proof.
  intros Hv Ha Ea Hs. destruct (alt_screen_ok true v Hv) as (a' & Ea' & Hia & Aa & Ma & _). rewrite Ea in Ea'. injection Ea' as <-.
  destruct (stays_alt_main bs a Hia Hs) as (b & Eb & Hb & Ab & Mb).
  destruct (alt_screen_ok false b Hb) as (w & Ew & _ & Aw & Mw & _). exists b, w. split; [done|]. split; [done|]. split; [done|].
  unfold main in *. rewrite Aw, Ab in *. rewrite Aa, Ha in *. congruence.
Qed.

(** A 3x3 terminal after [abcde], a line feed and [f]: [abc] continues on row 1. *)
Definition shown : outcome Vt := v ← with_palette 3 3 BONFIRE; bytes [97; 98; 99; 100; 101; 13; 10; 102] (set_capture true v).
Definition shown_vt : Vt := ltac:(let r := eval vm_compute in shown in match r with Done ?v => exact v end).
Lemma shown_inv : inv shown_vt.
Proof.
  destruct (run_ops_ok [SetCapture true; FeedUntil [97; 98; 99; 100; 101; 13; 10; 102]] (match with_palette 3 3 BONFIRE with Done v => v | _ => shown_vt end))
    as (w & E & Hw); [destruct (with_palette_ok 3 3 BONFIRE) as (v & E & Hv); [done..|]; by rewrite E|done|].
  vm_compute in E. injection E as <-. exact Hw.
Qed.
(** The same terminal on its alternate screen. *)
Definition alt_vt : Vt := ltac:(let r := eval vm_compute in (alt_screen true shown_vt) in match r with Done ?v => exact v end).

(** On it: an erase, a line of text, a scroll and a line deletion. *)
Lemma alt_isolated_witness : ∃ b w,
  bytes [27; 91; 50; 74; 120; 121; 122; 10; 10; 10; 27; 91; 77] alt_vt = Done b ∧ alt_screen false b = Done w ∧ on_alt w = false ∧
    (cells w, wrapped w, top_continues w) = (cells shown_vt, wrapped shown_vt, top_continues shown_vt).
Proof. apply alt_isolated; [exact shown_inv|reflexivity|vm_compute; reflexivity|vm_compute; reflexivity]. Defined.

(** ** Line operations *)

Inductive LineOp := ScrollUp | ScrollDown | InsertLines (n : Z) | DeleteLines (n : Z).
Definition line_op (o : LineOp) (v : Vt) : outcome Vt :=
  match o with
  | ScrollUp => scroll_up v
  | ScrollDown => scroll_down v
  | InsertLines n => insert_lines n v
  | DeleteLines n => delete_lines n v
  end.
(** What they mean on the list of rows with their flags: blank lines enter at one
    end of the region and as many leave at the other; outside it nothing moves. *)
Definition line_spec (o : LineOp) (v : Vt) : list (list Cell * bool) :=
  let top := Z.to_nat (scroll_top v) in
  let y := Z.to_nat (cy v) in
  let stop := Z.to_nat (scroll_bot v + 1) in
  let room n := Z.to_nat (Z.min n (scroll_bot v + 1 - cy v)) in
  let inside := (scroll_top v <=? cy v) && (cy v <=? scroll_bot v) in
  match o with
  | ScrollUp => close_gap top stop 1 (blank_line v) (lines v)
  | ScrollDown => open_gap top stop 1 (blank_line v) (lines v)
  | InsertLines n => if inside then open_gap y stop (room n) (blank_line v) (lines v) else lines v
  | DeleteLines n => if inside then close_gap y stop (room n) (blank_line v) (lines v) else lines v
  end.
Definition line_arg (o : LineOp) : Z := match o with InsertLines n | DeleteLines n => n | _ => 0 end.

(** C15: Each of the four operations on lines, done in the code by overlapping
    copies of two flat buffers and fills, is on the list of rows (each with its
    soft-wrap flag) the opening or closing of a gap in the scroll region: the rows
    outside it keep their places, those pushed past its edge are the only ones
    lost, and the entering rows are blank in the current background. *)
Theorem line_ops_refine o v : inv v → 0 ≤ line_arg o → ∃ w, line_op o v = Done w ∧ lines w = line_spec o v.
Proof.
  intros Hv Hn. destruct o as [| |n|n]; cbn [line_op line_spec line_arg] in *.
  - by apply scroll_up_lines.
  - by apply scroll_down_lines.
  - destruct (_ && _) eqn:E; [apply insert_lines_lines; [done|done|lia]|]. exists v. split; [|done].
    unfold insert_lines. cbn zeta. by rewrite (proj2 (orb_true_iff _ _)) by lia.
  - destruct (_ && _) eqn:E; [apply delete_lines_lines; [done|done|lia]|]. exists v. split; [|done].
    unfold delete_lines. cbn zeta. by rewrite (proj2 (orb_true_iff _ _)) by lia.
Qed.
Lemma line_ops_refine_witness : ∃ w, line_op (DeleteLines 7) shown_vt = Done w ∧ lines w = line_spec (DeleteLines 7) shown_vt.
Proof. apply line_ops_refine; [exact shown_inv|cbn; lia]. Defined.

(** ** Resizing *)

(** C16: Resized to another width with no wide character on it, the main screen keeps
    its text: the rows that slide off the top followed by the new screen's rows are
    the old logical lines (rows joined over soft wraps, without trailing
    never-written cells) re-cut at the new width, then blank rows; only rows below a
    full new screen are cut off.  The rows that slide off are queued for the history,
    in order, where the terminal captures events, as a tile with a scrollback has it
    do; where it does not, they are lost too. *)
Theorem resize_keeps_text ncols nrows v : inv v → on_alt v = false →
  Forall (λ c, is_wide_cell c = false) (cells v) → 1 ≤ ncols < 2 ^ 31 → 1 ≤ nrows < 2 ^ 31 → cols v ≠ ncols →
  let bl := blank (p_fg (pal v)) (p_bg (pal v)) in
  ∃ w gone kept dropped, resize ncols nrows v = Done w ∧ pending w = pending v ++ (if capture_events v then (λ rw, Scroll rw.1 rw.2) <$> gone else []) ∧
    gone ++ lines w = kept ++ replicate (length gone + Z.to_nat nrows - length kept) (replicate (Z.to_nat ncols) bl, false) ∧
    (dropped = [] ∨ length kept = (length gone + Z.to_nat nrows)%nat) ∧
    logical bl [] (kept ++ dropped) = logical bl [] (lines v).
Proof.
  intros Hv Ha Hnar Hn Hr Hne bl. unfold resize. rewrite (proj2 (Z.eqb_neq ncols (cols v))) by done.
  rewrite (proj2 (Z.eqb_neq ncols 0)), (proj2 (Z.eqb_neq nrows 0)) by lia. cbn [andb orb].
  rewrite (usub_ok ncols 1), (usub_ok nrows 1) by lia. rewrite !bind_done. fold bl. unfold regrid. rewrite Ha. cbn [andb].
  pose proof (i_cols v Hv) as Hc. pose proof (i_rows v Hv) as Hr0. pose proof (i_cx v Hv) as Hx. unfold side in *.
  destruct (reflow_ok (cells v) (wrapped v) (cols v) (rows v) (cx v, cy v) (top_continues v) ncols nrows bl)
    as (rf & Erf & _); [lia..|apply Hv|done|].
  destruct (reflow_lines (cells v) (wrapped v) (cols v) (rows v) ncols (cx v, cy v) bl) with (top := top_continues v) (nrows := nrows) (rf := rf)
    as (kept & dropped & E1 & E2 & E3); [lia..|apply Hv|apply Hv|done|by cbn; rewrite Z.eqb_refl|done|lia|lia|done|].
  rewrite Erf, !bind_done.
  destruct (crop_ok (alt_cells v) (alt_wrapped v) (cols v) (rows v) 0 ncols nrows bl) as (c & wr & -> & _ & _); [done..|apply Hv|].
  rewrite bind_done. cbn zeta. eexists _, (r_scrolled rf), kept, dropped. split; [reflexivity|].
  split; [|split; [|split; [exact E2|exact E3]]].
  - unfold push_scrolled. destruct (capture_events v); [done|]. by rewrite app_nil_r.
  - exact E1.
Qed.
Lemma resize_keeps_text_witness : let bl := blank (p_fg (pal shown_vt)) (p_bg (pal shown_vt)) in
  ∃ w gone kept dropped, resize 2 2 shown_vt = Done w ∧ pending w = pending shown_vt ++ (if capture_events shown_vt then (λ rw, Scroll rw.1 rw.2) <$> gone else []) ∧
    gone ++ lines w = kept ++ replicate (length gone + Z.to_nat 2 - length kept) (replicate (Z.to_nat 2) bl, false) ∧
    (dropped = [] ∨ length kept = (length gone + Z.to_nat 2)%nat) ∧
    logical bl [] (kept ++ dropped) = logical bl [] (lines shown_vt).
Proof.
  apply (resize_keeps_text 2 2 shown_vt); [exact shown_inv|reflexivity| |lia|lia|done].
  repeat (constructor; [vm_compute; reflexivity|]). constructor.
Defined.

(** The rows below a full new screen are lost: with the cursor home over two rows of
    text, a resize to one row keeps the first and hands none to the history. *)
Definition texts (rs : list (list Cell * bool)) : list (list Z) := map (λ r, map c_ch r.1) rs.
Example resize_drops_below :
  (v ← with_palette 2 2 BONFIRE; v ← bytes [97; 13; 10; 98; 27; 91; 72] (set_capture true v); w ← resize 2 1 v;
   Done (texts (lines v), pending w, texts (lines w))) = Done ([[97; 32]; [98; 32]], [], [[97; 32]]).
Proof. vm_compute. reflexivity. Qed.

(** ** Widths *)

(** The width of a character, found by a binary search of the combining
    table, is the one a linear look at that table gives, on every code point: the
    search never indexes out of range, ends, and misses no range. *)
Theorem char_width_exact c : char_width c = Done (width_of c).
Proof. apply char_width_ok. Qed.

(** ** The hold on a synchronized frame *)

(** What happens to a hold between two paints. *)
Inductive HoldEv := Opened | Closed | CutShort | Asked (now : Z).
Definition hold_ev (h : FrameHold) (e : HoldEv) : outcome FrameHold :=
  match e with
  | Opened => Done (open h)
  | Closed => Done (close h)
  | CutShort => Done (cut h)
  | Asked now => '(_, h) ← holds now h; Done h
  end.

Lemma holds_total now h : ∃ b h', holds now h = Done (b, h').
Proof.
  unfold holds. destruct (_ || _); [by eexists _, _|]. cbn zeta. destruct (Z.ltb_spec now (if since h =? 0 then now else since h)); [by eexists _, _|].
  rewrite usub_ok by lia. rewrite bind_done. destruct (_ <=? _); by eexists _, _.
Qed.
(** A hold that is granted has started, and not longer ago than the limit. *)
Lemma holds_granted now h h' : holds now h = Done (true, h') →
  now ≠ 0 ∧ 0 ≤ now - since h' < SYNC_HOLD_NS ∧ since h' ≠ 0 ∧ (since h = 0 ∨ since h = since h') ∧ h_open h' = true.
Proof.
  unfold holds. destruct (_ || _) eqn:E; [done|]. apply orb_false_iff in E as [_ E%Z.eqb_neq]. cbn zeta.
  set (s := if since h =? 0 then now else since h). assert (s ≠ 0 ∧ (since h = 0 ∨ since h = s)) as Hs.
  { subst s. destruct (Z.eqb_spec (since h) 0); (split; [done|]); [by left|by right]. }
  destruct (Z.ltb_spec now s); [done|]. rewrite usub_ok by lia. rewrite bind_done. destruct (Z.leb_spec SYNC_HOLD_NS (now - s)); [done|].
  intros [= <-]. cbn. repeat split; (lia || tauto).
Qed.
(** The delay ends at the limit, rounded up to the millisecond. *)
Lemma due_left now h : 0 < now < 2 ^ 63 → h_open h = true → since h ≠ 0 → 0 ≤ now - since h < SYNC_HOLD_NS →
  ∃ d, due_ms now h = Some d ∧ 0 < d ≤ 150 ∧ SYNC_HOLD_NS ≤ now + d * 1000000 - since h.
Proof.
  intros Hn Ho Hs Hw. unfold due_ms, waiting. rewrite Ho, (proj2 (Z.eqb_neq (since h) 0)) by done. cbn [andb negb].
  rewrite (proj2 (Z.eqb_neq now 0)), (proj2 (Z.ltb_ge now (since h))) by lia. cbn [orb].
  eexists. split; [reflexivity|]. unfold sat_add, sat_sub, u_max, SYNC_HOLD_NS, div_ceil, as_i in *.
  rewrite Z.min_l, Z.max_l by lia. set (x := since h + 150000000 - now). assert (0 < x ≤ 150000000) by (subst x; lia).
  assert (0 < (x + 1000000 - 1) / 1000000 ≤ 150 ∧ x ≤ (x + 1000000 - 1) / 1000000 * 1000000) as [Hq Hx] by (split; Z.to_euclidean_division_equations; lia).
  rewrite Z.mod_small by lia. split; [lia|]. subst x. lia.
Qed.
(** Its start stays until a paint. *)
Lemma hold_ev_since h e h' : since h ≠ 0 → hold_ev h e = Done h' → since h' = since h.
Proof.
  intros Hs. destruct e as [| | |now]; cbn [hold_ev]; try by intros [= <-].
  unfold holds. destruct (_ || _); [by intros [= <-]|]. rewrite (proj2 (Z.eqb_neq (since h) 0)) by done. cbn zeta.
  destruct (Z.ltb_spec now (since h)); [by intros [= <-]|]. rewrite usub_ok, bind_done by lia. destruct (_ <=? _); by intros [= <-].
Qed.
Lemma hold_evs_since evs h h' : since h ≠ 0 → foldM hold_ev h evs = Done h' → since h' = since h.
Proof.
  revert h. induction evs as [|e evs IH]; intros h Hs; cbn [foldM]; [by intros [= <-]|].
  destruct (hold_ev h e) as [h1| |] eqn:E; [|done..]. rewrite bind_done. pose proof (hold_ev_since _ _ _ Hs E) as E1. intros E2.
  rewrite (IH h1), E1 by (done || congruence). done.
Qed.

(** A paint is not put off for longer than the limit: from a question answered
    "hold", whatever updates open, close or are cut and however often the renderer
    asks again before the paint, every later answer "hold" is less than
    [SYNC_HOLD_NS] after it; and when the delay [due_ms] gives is over (at most
    150 ms), the answer is "paint". *)
Theorem hold_bounded h t1 h1 evs h2 : 0 ≤ t1 < 2 ^ 63 → holds t1 h = Done (true, h1) → foldM hold_ev h1 evs = Done h2 →
  (∀ t2 h3, holds t2 h2 = Done (true, h3) → t2 - t1 < SYNC_HOLD_NS) ∧
  ∃ d, due_ms t1 h1 = Some d ∧ 0 < d ≤ 150 ∧ ∃ h4, holds (t1 + d * 1000000) h2 = Done (false, h4).
Proof.
  intros Ht (G0 & G1 & G2 & _ & G4)%holds_granted E2. pose proof (hold_evs_since _ _ _ G2 E2) as Es.
  assert (∀ t2 h3, holds t2 h2 = Done (true, h3) → t2 - since h1 < SYNC_HOLD_NS) as Hlate.
  { intros t2 h3 (_ & K1 & _ & [K|K] & _)%holds_granted; [congruence|]. rewrite <-K, Es in K1. lia. }
  split; [intros t2 h3 E; specialize (Hlate _ _ E); lia|].
  pose proof (eq_refl : SYNC_HOLD_NS = 150000000) as Es0. destruct (due_left t1 h1) as (d & Ed & Hd1 & Hd2); [lia|done|done|lia|].
  exists d. split; [done|]. split; [lia|]. destruct (holds_total (t1 + d * 1000000) h2) as ([] & h4 & E4); [|by exists h4].
  specialize (Hlate _ _ E4). lia.
Qed.
Lemma hold_bounded_witness : let h1 := mkHold true 5 1 false false in
  (∀ t2 h3, holds t2 h1 = Done (true, h3) → t2 - 5 < SYNC_HOLD_NS) ∧
  ∃ d, due_ms 5 h1 = Some d ∧ 0 < d ≤ 150 ∧ ∃ h4, holds (5 + d * 1000000) h1 = Done (false, h4).
Proof. apply (hold_bounded (open hold_new) 5 (mkHold true 5 1 false false) [Closed; Opened]); [lia|reflexivity|reflexivity]. Defined.

End VtClaims.
