(* ===== verification/VtSeq.v ===== *)
(** * The terminal emulator: what a control sequence does

    A sequence [ESC \[ p1 ; ... ; pn f] fed to a terminal that is between sequences
    runs the handler of [f] with those parameters and leaves the terminal between
    sequences: the lemmas a writer of sequences needs. *)

From S2P Require Import Prelude Digits Utf8 VtBase Vt VtInv VtTotal.
Import Digits Utf8 VtBase Vt VtInv VtTotal.
Open Scope Z_scope.

Module VtSeq.

Lemma feed_app a b v : bytes (a ++ b) v = (w ← bytes a v; bytes b w).
Proof.
  revert v. induction a as [|x a IH]; intros v; [done|]. cbn [app bytes]. destruct (byte x v) as [w| |]; [|done..].
  rewrite !bind_done. apply IH.
Qed.

(** ** The parser's fields *)

Definition in_csi (st : State) (ps : list Z) (np cp : Z) (seen : bool) (m i : Z) (bad : bool) (v : Vt) : Vt :=
  set_state st (set_params ps (set_nparams np (set_cur_param cp (set_param_seen seen
    (set_csi_marker m (set_csi_inter i (set_csi_bad bad v))))))).

Lemma csi_start v : state v = Ground → utf_rem v = 0 → bytes [27; 91] v = Done (in_csi Csi (params v) 0 0 false 0 0 false v).
Proof.
  intros Es Eu. assert (byte 27 v = Done (set_state Esc v)) as E by (unfold byte; rewrite Es; unfold ground; by rewrite Eu).
  cbn [bytes]. rewrite E. reflexivity.
Qed.

Section Params.
Context (v : Vt) (m : Z) (bad : bool).
Notation at_ ps np cp seen := (in_csi Csi ps np cp seen m 0 bad v).

Lemma csi_digit ps np cp seen d : is_ascii_digit d = true →
  byte d (at_ ps np cp seen) = Done (at_ ps np (sat_add 32 (sat_mul 32 cp 10) (d - 48)) true).
Proof.
  intros Hd. unfold byte. change (state (at_ ps np cp seen)) with Csi. unfold csi. cbv beta iota zeta.
  assert (within 48 57 d = true) as -> by (apply within_iff; by apply digit_range).
  change (csi_inter (at_ ps np cp seen)) with 0. reflexivity.
Qed.
Lemma csi_digits ds : all_digits ds → ∀ ps np cp seen, 0 ≤ cp → value cp ds < 2 ^ 32 → (ds = [] → seen = true) →
  bytes ds (at_ ps np cp seen) = Done (at_ ps np (value cp ds) true).
Proof.
  induction 1 as [|d ds Hd Hds IH]; intros ps np cp seen Hc Hv Hs; [by rewrite Hs|]. cbn [bytes].
  rewrite csi_digit, bind_done by done. apply digit_range in Hd. cbn [value fold_left] in *. fold (value (cp * 10 + (d - 48)) ds) in *.
  pose proof (value_grows ds (cp * 10 + (d - 48)) Hds ltac:(lia)).
  assert (sat_add 32 (sat_mul 32 cp 10) (d - 48) = cp * 10 + (d - 48)) as -> by (unfold sat_add, sat_mul, u_max; lia).
  apply IH; [lia|done|done].
Qed.
Lemma csi_push ps np cp seen : 0 ≤ np < MAX_PARAMS → zlen ps = MAX_PARAMS →
  push_param (at_ ps np cp seen) = Done (at_ (<[Z.to_nat np := if seen then cp else 0]> ps) (np + 1) 0 false).
Proof.
  intros Hn Hl. unfold push_param. change (nparams (at_ ps np cp seen)) with np. rewrite (proj2 (Z.ltb_lt np MAX_PARAMS)) by lia.
  change (params (at_ ps np cp seen)) with ps. unfold set_idx. rewrite (proj2 (Z.leb_le 0 np)), (proj2 (Z.ltb_lt np (zlen ps))) by lia.
  reflexivity.
Qed.
Lemma csi_semi ps np cp seen : 0 ≤ np < MAX_PARAMS → zlen ps = MAX_PARAMS →
  byte 59 (at_ ps np cp seen) = Done (at_ (<[Z.to_nat np := if seen then cp else 0]> ps) (np + 1) 0 false).
Proof.
  intros Hn Hl. rewrite <-csi_push by done. unfold byte. change (state (at_ ps np cp seen)) with Csi. unfold csi. cbv beta iota zeta.
  change (csi_inter (at_ ps np cp seen)) with 0. change (within 48 57 59) with false. cbn [orb andb negb Z.eqb Pos.eqb]. done.
Qed.
Lemma csi_final ps np cp seen f : 0 ≤ np < MAX_PARAMS → zlen ps = MAX_PARAMS → 64 ≤ f ≤ 126 →
  byte f (at_ ps np cp seen) =
    (w ← dispatch_csi f (at_ (<[Z.to_nat np := if seen then cp else 0]> ps) (np + 1) 0 false); Done (set_state Ground w)).
Proof.
  intros Hn Hl Hf. unfold byte. change (state (at_ ps np cp seen)) with Csi. unfold csi. cbv beta iota zeta.
  rewrite (within_not 48 57), (within_not 60 63), (within_not 32 47), (proj2 (within_iff 64 126 f)) by lia.
  rewrite (proj2 (Z.eqb_neq f 59)), (proj2 (Z.eqb_neq f 58)) by lia. cbn [orb andb]. rewrite csi_push, bind_done by done. reflexivity.
Qed.

(** Parameters in decimal, with a [;] between two. *)
Fixpoint fields (qs : list Z) : list Z :=
  match qs with
  | [] => []
  | [q] => digits q
  | q :: qs => digits q ++ 59 :: fields qs
  end.
Lemma field_read ps np q : in_u 32 q → bytes (digits q) (at_ ps np 0 false) = Done (at_ ps np q true).
Proof.
  intros [Hq1 Hq2]. unfold u_max in Hq2. destruct (digits_ok q) as (Hd & Hn & Hv & _); [lia|]. rewrite <-Hv at 2.
  apply csi_digits; [done|lia|rewrite Hv; lia|done].
Qed.
Lemma fields_run qs f : qs ≠ [] → Forall (in_u 32) qs → 64 ≤ f ≤ 126 → ∀ ps np, 0 ≤ np → zlen ps = MAX_PARAMS →
  np + zlen qs ≤ MAX_PARAMS → ∃ ps', zlen ps' = MAX_PARAMS ∧ take (Z.to_nat np + length qs) ps' = take (Z.to_nat np) ps ++ qs ∧
    bytes (fields qs ++ [f]) (at_ ps np 0 false) =
      (w ← dispatch_csi f (at_ ps' (np + zlen qs) 0 false); Done (set_state Ground w)).
Proof.
  intros Hne Hq Hf. induction qs as [|q qs IH]; [done|]. apply Forall_cons in Hq as [Hq Hqs]. intros ps np Hn Hl Hc. cbn [length] in Hc.
  assert (take (S (Z.to_nat np)) (<[Z.to_nat np := q]> ps) = take (Z.to_nat np) ps ++ [q]) as Et.
  { rewrite (take_S_r _ _ q) by (apply list_lookup_insert_eq; lia). by rewrite take_insert_ge. }
  destruct qs as [|q2 qs].
  - exists (<[Z.to_nat np := q]> ps). rewrite length_insert. split; [done|]. cbn [length fields]. rewrite Nat.add_1_r. split; [done|].
    rewrite feed_app, field_read, bind_done by done. cbn [bytes]. rewrite csi_final by (done || lia). cbn [Z.of_nat].
    by destruct (dispatch_csi _ _).
  - destruct (IH ltac:(done) Hqs (<[Z.to_nat np := q]> ps) (np + 1)) as (ps' & L' & T' & E'); [lia|by rewrite length_insert|cbn in *; lia|].
    exists ps'. split; [done|]. replace (Z.to_nat (np + 1)) with (S (Z.to_nat np)) in T' by lia. rewrite Et in T'.
    split; [cbn [length] in *; rewrite <-app_assoc in T'; cbn [app] in T'; rewrite <-T'; f_equal; lia|].
    change (fields (q :: q2 :: qs)) with (digits q ++ 59 :: fields (q2 :: qs)). rewrite <-app_assoc. cbn [app].
    rewrite feed_app, field_read, bind_done by done. cbn [bytes]. rewrite csi_semi, bind_done by (done || lia). rewrite E'.
    cbn [length] in *. by replace (np + 1 + Z.of_nat (S (length qs))) with (np + Z.of_nat (S (S (length qs)))) by lia.
Qed.
End Params.

Lemma dispatch_is_plain f w : csi_bad w = false → csi_marker w = 0 → csi_inter w = 0 → dispatch_csi f w = dispatch_plain f w.
Proof. intros E1 E2 E3. unfold dispatch_csi. by rewrite E1, E2, E3. Qed.
Lemma dispatch_is_dec f w : csi_bad w = false → csi_marker w = 63 → csi_inter w = 0 → dispatch_csi f w = dispatch_dec f w.
Proof. intros E1 E2 E3. unfold dispatch_csi. by rewrite E1, E2, E3. Qed.

(** A whole sequence: the handler runs on the parameters. *)
Lemma sequence_run v qs f : inv v → state v = Ground → utf_rem v = 0 → qs ≠ [] → Forall (in_u 32) qs → zlen qs ≤ MAX_PARAMS →
  64 ≤ f ≤ 126 → ∃ ps, zlen ps = MAX_PARAMS ∧ take (length qs) ps = qs ∧
    bytes ([27; 91] ++ fields qs ++ [f]) v = (w ← dispatch_plain f (in_csi Csi ps (zlen qs) 0 false 0 0 false v); Done (set_state Ground w)).
Proof.
  intros Hv Es Eu Hne Hq Hl Hf. rewrite feed_app, csi_start, bind_done by done.
  destruct (fields_run v 0 false qs f Hne Hq Hf (params v) 0) as (ps & L & T & E); [lia|apply Hv|lia|]. exists ps. cbn in T.
  split; [done|]. split; [done|]. rewrite E, dispatch_is_plain by done. rewrite Z.add_0_l. reflexivity.
Qed.
(** The same with the marker [?]. *)
Lemma private_run v qs f : inv v → state v = Ground → utf_rem v = 0 → qs ≠ [] → Forall (in_u 32) qs → zlen qs ≤ MAX_PARAMS →
  64 ≤ f ≤ 126 → ∃ ps, zlen ps = MAX_PARAMS ∧ take (length qs) ps = qs ∧
    bytes ([27; 91; 63] ++ fields qs ++ [f]) v = (w ← dispatch_dec f (in_csi Csi ps (zlen qs) 0 false 63 0 false v); Done (set_state Ground w)).
Proof.
  intros Hv Es Eu Hne Hq Hl Hf. change [27; 91; 63] with ([27; 91] ++ [63]). rewrite <-app_assoc, feed_app, csi_start, bind_done by done.
  rewrite feed_app. assert (bytes [63] (in_csi Csi (params v) 0 0 false 0 0 false v) = Done (in_csi Csi (params v) 0 0 false 63 0 false v)) as -> by reflexivity.
  rewrite bind_done. destruct (fields_run v 63 false qs f Hne Hq Hf (params v) 0) as (ps & L & T & E); [lia|apply Hv|lia|]. exists ps. cbn in T.
  split; [done|]. split; [done|]. rewrite E, dispatch_is_dec by done. rewrite Z.add_0_l. reflexivity.
Qed.

End VtSeq.
