(* ===== verification/Kaua.v ===== *)
(** * The terminal toolkit: drawing (usr/lib/kaua/src, rect.rs, style.rs, buffer.rs, encode.rs, term.rs, layout.rs)

    A program draws cells into a buffer; the terminal emits what differs from the
    buffer on the screen as escape sequences, one batch per frame. *)

From stdpp Require Import strings.
From S2P Require Import Prelude Digits Utf8 Vt.
Import Digits Utf8.
Open Scope Z_scope.

Module Kaua.

(** ** Rectangles *)

Record Rect := mkRect { r_x : Z; r_y : Z; r_width : Z; r_height : Z }.
#[global] Instance Rect_eq_dec : EqDecision Rect.
Proof. solve_decision. Defined.

(** Two [u16] multiply within a [u32]. *)
Definition area (r : Rect) : Z := r_width r * r_height r.
Definition right (r : Rect) : Z := sat_add 16 (r_x r) (r_width r).
Definition bottom (r : Rect) : Z := sat_add 16 (r_y r) (r_height r).
Definition contains (r : Rect) (x y : Z) : bool :=
  (r_x r <=? x) && (x <? right r) && (r_y r <=? y) && (y <? bottom r).
Definition inner (margin : Z) (r : Rect) : outcome Rect :=
  let dx := Z.min margin (r_width r / 2) in
  let dy := Z.min margin (r_height r / 2) in
  x ← uadd 16 (r_x r) dx;
  y ← uadd 16 (r_y r) dy;
  w ← usub (r_width r) (2 * dx);
  h ← usub (r_height r) (2 * dy);
  Done (mkRect x y w h).

(** ** Styles *)

Inductive Color := Reset_ | Rgb (r g b : Z).
#[global] Instance Color_eq_dec : EqDecision Color.
Proof. solve_decision. Defined.
Definition NONE : Z := 0.
Definition BOLD : Z := 1.
Definition DIM : Z := 2.
Definition ITALIC : Z := 4.
Definition UNDERLINE : Z := 8.
Definition REVERSE : Z := 16.
Definition attr_contains (a other : Z) : bool := Z.land a other =? other.
Record Style := mkStyle { s_fg : Color; s_bg : Color; s_attr : Z }.
#[global] Instance Style_eq_dec : EqDecision Style.
Proof. solve_decision. Defined.
Definition style_new : Style := mkStyle Reset_ Reset_ NONE.

(** ** The cell grid *)

Record KCell := mkKCell { symbol : Z; k_style : Style }.
#[global] Instance KCell_eq_dec : EqDecision KCell.
Proof. solve_decision. Defined.
Definition cell_default : KCell := mkKCell 32 style_new.

Record Buffer := mkBuffer { b_area : Rect; content : list KCell }.
Definition filled (a : Rect) (c : KCell) : Buffer := mkBuffer a (replicate (Z.to_nat (area a)) c).
Definition empty_buffer (a : Rect) : Buffer := filled a cell_default.

Definition index_of (b : Buffer) (x y : Z) : option Z :=
  if contains (b_area b) x y
  then Some ((y - r_y (b_area b)) * r_width (b_area b) + (x - r_x (b_area b))) else None.
Definition get (b : Buffer) (x y : Z) : outcome (option KCell) :=
  match index_of b x y with
  | Some i => c ← idx (content b) i; Done (Some c)
  | None => Done None
  end.
Definition set_cell (b : Buffer) (x y : Z) (c : KCell) : outcome Buffer :=
  match index_of b x y with
  | Some i => cs ← set_idx (content b) i c; Done (mkBuffer (b_area b) cs)
  | None => Done b
  end.
Fixpoint set_chars (b : Buffer) (cx y : Z) (s : list Z) (st : Style) : outcome (Buffer * Z) :=
  match s with
  | [] => Done (b, cx)
  | ch :: s =>
      if right (b_area b) <=? cx then Done (b, cx) else
      b ← set_cell b cx y (mkKCell ch st);
      set_chars b (sat_add 16 cx 1) y s st
  end.
Definition set_str (b : Buffer) (x y : Z) (s : list Z) (st : Style) : outcome (Buffer * Z) := set_chars b x y s st.
Definition reset (b : Buffer) : Buffer := mkBuffer (b_area b) ((λ _, cell_default) <$> content b).
Definition buffer_resize (a : Rect) (b : Buffer) : Buffer := mkBuffer a (replicate (Z.to_nat (area a)) cell_default).

(** Where cell [i] of an area is: [area.x + (i % w) as u16]. *)
Definition place_of (a : Rect) (w i : Z) : outcome (Z * Z) :=
  if w =? 0 then Panic else
  x ← uadd 16 (r_x a) (as_u 16 (i mod w));
  y ← uadd 16 (r_y a) (as_u 16 (i / w));
  Done (x, y).
Fixpoint diff_from (a : Rect) (i : Z) (cur old : list KCell) : outcome (list (Z * Z * KCell)) :=
  match cur, old with
  | c :: cur, o :: old =>
      if bool_decide (c = o) then diff_from a (i + 1) cur old else
      p ← place_of a (r_width a) i;
      rest ← diff_from a (i + 1) cur old;
      Done ((p, c) :: rest)
  | _, _ => Done []
  end.
Definition diff (b prev : Buffer) : outcome (list (Z * Z * KCell)) :=
  if negb (bool_decide (b_area b = b_area prev)) then Done []
  else diff_from (b_area b) 0 (content b) (content prev).

(** ** Escape sequences *)

Definition esc (s : string) : list Z := 27 :: Vt.lit s.
Definition ENTER_ALT_SCREEN : list Z := esc "[?1049h".
Definition LEAVE_ALT_SCREEN : list Z := esc "[?1049l".
Definition HIDE_CURSOR : list Z := esc "[?25l".
Definition SHOW_CURSOR : list Z := esc "[?25h".
Definition DISABLE_AUTOWRAP : list Z := esc "[?7l".
Definition ENABLE_AUTOWRAP : list Z := esc "[?7h".
Definition CLEAR_SCREEN : list Z := esc "[2J".
Definition RESET_SGR : list Z := esc "[0m".
Definition restore_screen (out : list Z) : list Z := out ++ RESET_SGR ++ ENABLE_AUTOWRAP ++ SHOW_CURSOR ++ LEAVE_ALT_SCREEN.
Definition SAVE_CURSOR : list Z := esc "[s".
Definition RESTORE_CURSOR : list Z := esc "[u".
Definition PARK_CURSOR_FAR : list Z := esc "[9999;9999H".
Definition REQUEST_CURSOR_POS : list Z := esc "[6n".

(** The scratch of [push_num], lowest digit first; a [u16] has at most its five. *)
Fixpoint num_scratch (room : nat) (n : Z) : list Z :=
  match room with
  | S room => if 0 <? n then (48 + n mod 10) :: num_scratch room (n / 10) else []
  | O => []
  end.
Definition push_num (out : list Z) (n : Z) : list Z := if n =? 0 then out ++ [48] else out ++ rev (num_scratch 5 n).
Definition push_move_to (out : list Z) (x y : Z) : list Z :=
  let out := push_num (out ++ [27; 91]) (sat_add 16 y 1) in
  push_num (out ++ [59]) (sat_add 16 x 1) ++ [72].
Definition push_rgb (out prefix : list Z) (r g b : Z) : list Z :=
  let out := push_num (out ++ prefix) r in
  let out := push_num (out ++ [59]) g in
  push_num (out ++ [59]) b.
Definition push_attr (a bit : Z) (code out : list Z) : list Z := if attr_contains a bit then out ++ code else out.
Definition push_sgr (out : list Z) (st : Style) : list Z :=
  let out := out ++ [27; 91; 48] in
  let a := s_attr st in
  let out := push_attr a BOLD [59; 49] out in
  let out := push_attr a DIM [59; 50] out in
  let out := push_attr a ITALIC [59; 51] out in
  let out := push_attr a UNDERLINE [59; 52] out in
  let out := push_attr a REVERSE [59; 55] out in
  let out := match s_fg st with
             | Reset_ => out ++ [59; 51; 57]
             | Rgb r g b => push_rgb out [59; 51; 56; 59; 50; 59] r g b
             end in
  let out := match s_bg st with
             | Reset_ => out ++ [59; 52; 57]
             | Rgb r g b => push_rgb out [59; 52; 56; 59; 50; 59] r g b
             end in
  out ++ [109].
Definition push_char (out : list Z) (c : Z) : list Z := out ++ utf8_encode c.

(** The virtual pen: where the cursor is and the style in force, if known. *)
Definition Pen : Type := option (Z * Z) * option Style.
Fixpoint render_cells (out : list Z) (cells : list (Z * Z * KCell)) (pen : Pen) : list Z * Pen :=
  match cells with
  | [] => (out, pen)
  | (x, y, c) :: cells =>
      let out := if bool_decide (pen.1 = Some (x, y)) then out else push_move_to out x y in
      let out := if bool_decide (pen.2 = Some (k_style c)) then out else push_sgr out (k_style c) in
      render_cells (push_char out (symbol c)) cells (Some (sat_add 16 x 1, y), Some (k_style c))
  end.

(** ** The screen *)

Record Terminal := mkTerm { front : Buffer; back : Buffer; cursor : option (Z * Z); repaint : bool; entered : bool }.

(** [enter]: what it writes, and the terminal if the write succeeds. *)
Definition enter_bytes : list Z := ENTER_ALT_SCREEN ++ HIDE_CURSOR ++ DISABLE_AUTOWRAP ++ CLEAR_SCREEN.
Definition enter (a : Rect) (written : bool) : option Terminal :=
  if written then Some (mkTerm (empty_buffer a) (empty_buffer a) None false true) else None.
Definition set_cursor (p : option (Z * Z)) (t : Terminal) : Terminal :=
  mkTerm (front t) (back t) p (repaint t) (entered t).
Definition clear (t : Terminal) : Terminal := mkTerm (front t) (reset (back t)) (cursor t) true (entered t).
Definition term_resize (a : Rect) (t : Terminal) : Terminal :=
  mkTerm (buffer_resize a (front t)) (buffer_resize a (back t)) (cursor t) true (entered t).

Fixpoint all_from (a : Rect) (i : Z) (cells : list KCell) : outcome (list (Z * Z * KCell)) :=
  match cells with
  | [] => Done []
  | c :: cells =>
      p ← place_of a (Z.max (r_width a) 1) i;
      rest ← all_from a (i + 1) cells;
      Done ((p, c) :: rest)
  end.
Definition updates (t : Terminal) : outcome (list (Z * Z * KCell)) :=
  if repaint t then all_from (b_area (back t)) 0 (content (back t)) else diff (back t) (front t).
(** The batch of one frame. *)
Definition frame (t : Terminal) : outcome (list Z) :=
  us ← updates t;
  let out := (render_cells [] us (None, None)).1 in
  Done (match cursor t with
        | Some (x, y) => push_move_to out x y ++ SHOW_CURSOR
        | None => out ++ HIDE_CURSOR
        end).
(** [flush]: the bytes given to the write, and the terminal by its result. *)
Definition flush (written : bool) (t : Terminal) : outcome (list Z * Terminal) :=
  out ← frame t;
  Done (out, if written then mkTerm (back t) (back t) (cursor t) false (entered t) else t).
Definition draw (f : Buffer → Buffer) (written : bool) (t : Terminal) : outcome (list Z * Terminal) :=
  flush written (mkTerm (front t) (f (reset (back t))) (cursor t) (repaint t) (entered t)).
Definition leave (t : Terminal) : list Z * Terminal :=
  if negb (entered t) then ([], t)
  else (restore_screen [], mkTerm (front t) (back t) (cursor t) (repaint t) false).

(** ** Layout *)

Inductive Constraint := Length (n : Z) | Min (n : Z) | Pct (p : Z) | Fill.
Inductive Direction := Vertical | Horizontal.
Record Layout := mkLayout { direction : Direction; constraints : list Constraint; margin : Z }.

Definition base_size (e : Z) (c : Constraint) : Z :=
  match c with
  | Length n | Min n => n
  | Pct p => as_u 16 (Z.min p 100 * e / 100)
  | Fill => 0
  end.
Definition flexes (c : Constraint) : bool := match c with Min _ | Fill => true | _ => false end.
(** The remainder over the flexible slots: [k] of them come before. *)
Fixpoint share_out (share extra k : Z) (cs : list Constraint) (sizes : list Z) : list Z :=
  match cs, sizes with
  | c :: cs, s :: sizes =>
      if flexes c
      then sat_add 16 s (as_u 16 (share + (if k <? extra then 1 else 0))) :: share_out share extra (k + 1) cs sizes
      else s :: share_out share extra k cs sizes
  | _, _ => sizes
  end.
Definition solve (cs : list Constraint) (e : Z) : outcome (list Z) :=
  let sizes := base_size e <$> cs in
  consumed ← foldM (uadd 32) 0 sizes;
  let remainder := sat_sub e consumed in
  let flex := zlen (filter (λ c, flexes c = true) cs) in
  Done (if (0 <? flex) && (0 <? remainder)
        then share_out (remainder / flex) (remainder mod flex) 0 cs sizes else sizes).
Fixpoint split_from (d : Direction) (r : Rect) (extent off : Z) (sizes : list Z) : outcome (list Rect) :=
  match sizes with
  | [] => Done []
  | s :: sizes =>
      let start := Z.min off extent in
      room ← usub extent start;
      let len := Z.min s room in
      q ← match d with
          | Vertical => y ← uadd 16 (r_y r) start; Done (mkRect (r_x r) y (r_width r) len)
          | Horizontal => x ← uadd 16 (r_x r) start; Done (mkRect x (r_y r) len (r_height r))
          end;
      rest ← split_from d r extent (sat_add 16 start len) sizes;
      Done (q :: rest)
  end.
Definition split (l : Layout) (a : Rect) : outcome (list Rect) :=
  r ← inner (margin l) a;
  let extent := match direction l with Vertical => r_height r | Horizontal => r_width r end in
  sizes ← solve (constraints l) extent;
  split_from (direction l) r extent 0 sizes.

End Kaua.
