(* ===== verification/KauaVt.v ===== *)
(** * The terminal toolkit on the terminal emulator

    What the toolkit writes, the emulator reads: a move places the cursor, an SGR
    establishes the style, a glyph fills one cell, so a frame puts the drawn buffer
    on the screen. *)

From S2P Require Import Prelude Digits Utf8 VtBase Vt VtInv VtWidth VtTotal VtRows VtSeq Kaua.
Import Digits Utf8 VtBase Vt VtInv VtWidth VtTotal VtRows VtSeq.
Open Scope Z_scope.

Module KauaVt.

(** A terminal between sequences, as the toolkit sets it up: no autowrap, no origin
    mode. *)
Record ready (v : Vt) : Prop := mkReady {
  rd_inv : inv v;
  rd_state : state v = Ground;
  rd_utf : utf_rem v = 0;
  rd_wrap : wrap v = false;
  rd_origin : origin v = false
}.
(** What no part of a frame changes: the geometry, the screen shown, and what is
    kept aside of the other. *)
Definition geo (v : Vt) : Z * Z * Palette * bool := (cols v, rows v, pal v, on_alt v).
Definition aside (v : Vt) : list Cell * list bool * (Z * Z) * bool * bool :=
  (alt_cells v, alt_wrapped v, saved v, saved_wrap v, on_alt v && top_continues v).
Definition setting (v : Vt) : (Z * Z * Palette * bool) * (list Cell * list bool * (Z * Z) * bool * bool) := (geo v, aside v).
Definition pen_now (v : Vt) : Z * Z * Z := (fg v, bg v, attrs v).

Lemma draws_fields v w : draws v w → setting w = setting v ∧ pen_now w = pen_now v ∧ state w = state v ∧ utf_rem w = utf_rem v ∧
  wrap w = wrap v ∧ origin w = origin v ∧ cx w = cx v ∧ cy w = cy v ∧ span w = span v ∧ cursor_visible w = cursor_visible v.
Proof.
  intros [(c & wr & d & ps & t & -> & _ & _ & _ & Ht)]. split; [|done]. unfold setting, geo, aside. cbn. do 2 f_equal.
  destruct (on_alt v); [by rewrite Ht|done].
Qed.

Lemma bytes_inv bs v w : inv v → bytes bs v = Done w → inv w.
Proof. intros Hv E. destruct (bytes_ok bs v Hv) as (x & E' & Hx). congruence. Qed.

(** ** Moves *)

Lemma param_at w qs i d q : take (length qs) (params w) = qs → nparams w = zlen qs → qs !! i = Some q → q ≠ 0 → param i d w = q.
Proof.
  intros Ht Hn Hq H0. pose proof (lookup_lt_Some _ _ _ Hq) as Hi. unfold param.
  assert (nth i (params w) 0 = q) as ->.
  { rewrite <-Ht in Hq. rewrite lookup_take_lt in Hq by lia. by apply nth_lookup_Some. }
  rewrite Hn, (proj2 (Z.ltb_lt _ _)), (proj2 (Z.eqb_neq q 0)) by lia. done.
Qed.
Lemma dispatch_cup w : dispatch_plain 72 w = (w ← goto_row w; column 1 w).
Proof. reflexivity. Qed.
Lemma dispatch_sgr w : dispatch_plain 109 w = sgr w.
Proof. reflexivity. Qed.

Lemma cup_ok w x y : origin w = false → 0 ≤ x < cols w → 0 ≤ y < rows w → param 0 1 w = y + 1 → param 1 1 w = x + 1 →
  dispatch_plain 72 w = Done (set_cx x (set_cy y w)).
Proof.
  intros Ho Hx Hy P0 P1. rewrite dispatch_cup. unfold goto_row. rewrite P0, usub_ok, bind_done by lia. unfold origin_row. rewrite Ho.
  rewrite (usub_ok (rows w)), !bind_done by lia. replace (Z.min (y + 1 - 1) (rows w - 1)) with y by lia. unfold column.
  change (param 1 1 (set_cy y w)) with (param 1 1 w). change (cols (set_cy y w)) with (cols w).
  rewrite P1, (usub_ok (x + 1)), bind_done by lia. rewrite (usub_ok (cols w)), bind_done by lia. by replace (Z.min (x + 1 - 1) (cols w - 1)) with x by lia.
Qed.

Lemma scratch_digits k : ∀ fuel n acc, 0 < n < 10 ^ Z.of_nat k → n < 10 ^ Z.of_nat fuel → rev (Kaua.num_scratch k n) ++ acc = digits_f fuel n acc.
Proof.
  induction k as [|k IH]; intros fuel n acc Hn Hf; [cbn in Hn; lia|]. destruct fuel as [|fuel]; [cbn in Hf; lia|]. cbn [Kaua.num_scratch digits_f].
  rewrite (proj2 (Z.ltb_lt 0 n)) by lia. cbn [rev]. rewrite <-app_assoc. cbn [app]. destruct (Z.ltb_spec n 10) as [Hlt|Hge].
  - rewrite Z.div_small by lia. by destruct k.
  - rewrite Nat2Z.inj_succ, Z.pow_succ_r in Hn, Hf by lia. apply IH; [split|]; [apply Z.div_str_pos; lia|apply Z.div_lt_upper_bound; lia..].
Qed.
Lemma push_num_app out n : 0 ≤ n ≤ 65535 → Kaua.push_num out n = out ++ digits n.
Proof.
  intros Hn. unfold Kaua.push_num. destruct (Z.eqb_spec n 0) as [->|Hz]; [done|]. f_equal. rewrite <-(app_nil_r (rev _)). apply scratch_digits; [cbn; lia|].
  rewrite Nat2Z.inj_succ, Z2Nat.id by apply Z.log2_nonneg. pose proof (Z.log2_spec n ltac:(lia)) as [_ H]. eapply Z.lt_le_trans; [exact H|].
  apply Z.pow_le_mono_l. lia.
Qed.
Lemma push_move_app out x y : 0 ≤ x < 65535 → 0 ≤ y < 65535 →
  Kaua.push_move_to out x y = out ++ [27; 91] ++ fields [y + 1; x + 1] ++ [72].
Proof.
  intros Hx Hy. unfold Kaua.push_move_to, sat_add, u_max. cbn [fields]. rewrite !Z.min_l, !push_num_app by lia. by rewrite <-!app_assoc.
Qed.

(** A cursor move: nothing else of the screen changes. *)
Lemma move_ok v x y : ready v → 0 ≤ x < cols v → 0 ≤ y < rows v → x < 65535 → y < 65535 →
  ∃ w, bytes ([27; 91] ++ fields [y + 1; x + 1] ++ [72]) v = Done w ∧ ready w ∧ setting w = setting v ∧ pen_now w = pen_now v ∧
    cells w = cells v ∧ cx w = x ∧ cy w = y ∧ cursor_visible w = cursor_visible v.
Proof.
  intros [Hv Es Eu Ew Eo] Hx Hy Bx By.
  destruct (sequence_run v [y + 1; x + 1] 72) as (ps & L & T & E); try done.
  { repeat (constructor; [unfold in_u, u_max; lia|]). constructor. }
  set (w0 := in_csi Csi ps _ _ _ _ _ _ v) in *.
  rewrite (cup_ok w0 x y) in E; [|done|done|done|apply (param_at w0 [y + 1; x + 1]); done || lia|apply (param_at w0 [y + 1; x + 1]); done || lia].
  rewrite bind_done in E. pose proof (bytes_inv _ _ _ Hv E) as Hw. eexists. split; [exact E|]. split; [by split|]. done.
Qed.

(** ** Styles *)

(** What a style is on a terminal with palette [p]. *)
Definition color_on (d : Z) (c : Kaua.Color) : Z := match c with Kaua.Reset_ => d | Kaua.Rgb r g b => rgb r g b end.
Definition bit_on (a bit flag : Z) : Z := if Kaua.attr_contains a bit then flag else 0.
Definition attrs_on (a : Z) : Z :=
  Z.lor (Z.lor (Z.lor (Z.lor (bit_on a Kaua.BOLD ATTR_BOLD) (bit_on a Kaua.DIM ATTR_DIM)) (bit_on a Kaua.ITALIC ATTR_ITALIC))
    (bit_on a Kaua.UNDERLINE ATTR_UNDERLINE)) (bit_on a Kaua.REVERSE ATTR_REVERSE).
Definition pen_on (p : Palette) (st : Kaua.Style) : Z * Z * Z :=
  (color_on (p_fg p) (Kaua.s_fg st), color_on (p_bg p) (Kaua.s_bg st), attrs_on (Kaua.s_attr st)).
Definition color_ok (c : Kaua.Color) : Prop :=
  match c with Kaua.Reset_ => True | Kaua.Rgb r g b => 0 ≤ r ≤ 255 ∧ 0 ≤ g ≤ 255 ∧ 0 ≤ b ≤ 255 end.
Definition style_ok (st : Kaua.Style) : Prop := color_ok (Kaua.s_fg st) ∧ color_ok (Kaua.s_bg st).

(** The parameters of a style's SGR: at most sixteen. *)
Definition if_bit (a bit code : Z) : list Z := if Kaua.attr_contains a bit then [code] else [].
Definition color_params (base : Z) (c : Kaua.Color) : list Z :=
  match c with Kaua.Reset_ => [base + 9] | Kaua.Rgb r g b => [base + 8; 2; r; g; b] end.
Definition sgr_params (st : Kaua.Style) : list Z :=
  let a := Kaua.s_attr st in
  0 :: if_bit a Kaua.BOLD 1 ++ if_bit a Kaua.DIM 2 ++ if_bit a Kaua.ITALIC 3 ++ if_bit a Kaua.UNDERLINE 4 ++
    if_bit a Kaua.REVERSE 7 ++ color_params 30 (Kaua.s_fg st) ++ color_params 40 (Kaua.s_bg st).

Lemma fields_tail q qs : fields (q :: qs) = digits q ++ (qs ≫= λ q, 59 :: digits q).
Proof.
  revert q. induction qs as [|q2 qs IH]; intros q; [by rewrite app_nil_r|].
  change (fields (q :: q2 :: qs)) with (digits q ++ 59 :: fields (q2 :: qs)). by rewrite IH.
Qed.
Lemma push_attr_app a bit code cs out : cs = 59 :: digits code → Kaua.push_attr a bit cs out = out ++ (if_bit a bit code ≫= λ q, 59 :: digits q).
Proof. intros ->. unfold Kaua.push_attr, if_bit. destruct (Kaua.attr_contains a bit); cbn; by rewrite ?app_nil_r. Qed.
Lemma push_rgb_app out prefix r g b : color_ok (Kaua.Rgb r g b) → Kaua.push_rgb out prefix r g b = out ++ prefix ++ digits r ++ (59 :: digits g) ++ (59 :: digits b).
Proof. intros (? & ? & ?). unfold Kaua.push_rgb. rewrite !push_num_app by lia. by rewrite <-!app_assoc. Qed.
Lemma push_sgr_app out st : style_ok st → Kaua.push_sgr out st = out ++ [27; 91] ++ fields (sgr_params st) ++ [109].
Proof.
  intros [H1 H2]. unfold sgr_params. rewrite fields_tail, !bind_app. unfold Kaua.push_sgr. cbv zeta.
  rewrite (push_attr_app _ Kaua.BOLD 1), (push_attr_app _ Kaua.DIM 2), (push_attr_app _ Kaua.ITALIC 3) by reflexivity.
  rewrite (push_attr_app _ Kaua.UNDERLINE 4), (push_attr_app _ Kaua.REVERSE 7) by reflexivity.
  set (b1 := if_bit _ Kaua.BOLD _ ≫= _). set (b2 := if_bit _ Kaua.DIM _ ≫= _). set (b3 := if_bit _ Kaua.ITALIC _ ≫= _).
  set (b4 := if_bit _ Kaua.UNDERLINE _ ≫= _). set (b5 := if_bit _ Kaua.REVERSE _ ≫= _). change (digits 0) with [48].
  destruct (Kaua.s_fg st), (Kaua.s_bg st); rewrite ?push_rgb_app by done; cbn [color_params mbind list_bind Z.add Pos.add Pos.succ];
    rewrite ?app_nil_r, <-!app_assoc; reflexivity.
Qed.

Lemma sgr_params_ok st : style_ok st → Forall (in_u 32) (sgr_params st) ∧ zlen (sgr_params st) ≤ MAX_PARAMS ∧ sgr_params st ≠ [].
Proof.
  intros [H1 H2]. unfold sgr_params, if_bit. split; [|split; [|done]].
  - assert (∀ b x, 0 ≤ x ≤ 255 → Forall (in_u 32) (if b : bool then [x] else [])) as Hb.
    { intros [] x Hx; [|constructor]. constructor; [unfold in_u, u_max; lia|constructor]. }
    assert (∀ base c, 30 ≤ base ≤ 40 → color_ok c → Forall (in_u 32) (color_params base c)) as Hc.
    { intros base [|r g b] Hbs Hco; cbn in *; repeat (constructor; [unfold in_u, u_max; lia|]); constructor. }
    constructor; [unfold in_u, u_max; lia|]. rewrite !Forall_app. repeat split; first [apply Hb; lia|apply Hc; [lia|done]].
  - destruct (Kaua.s_fg st), (Kaua.s_bg st); cbn [color_params]; repeat case_match; cbn; unfold MAX_PARAMS; lia.
Qed.
Definition clamped (d : Z) (c : Kaua.Color) : Z :=
  match c with Kaua.Reset_ => d | Kaua.Rgb r g b => rgb (Z.min r 255) (Z.min g 255) (Z.min b 255) end.
Lemma clamped_on d c : color_ok c → clamped d c = color_on d c.
Proof. destruct c as [|r g b]; [done|]. intros (? & ? & ?). cbn [clamped color_on]. by rewrite !Z.min_l by lia. Qed.
Lemma apply_style p st pen : style_ok st → apply p (sgr_params st) pen = Done (mkPen (pen_on p st).1.1 (pen_on p st).1.2 (pen_on p st).2).
Proof.
  intros [H1 H2]. unfold pen_on. cbn [fst snd]. rewrite <-!clamped_on by done. clear H1 H2. destruct st as [f b a]. cbn [Kaua.s_fg Kaua.s_bg].
  unfold sgr_params, if_bit, attrs_on, bit_on. cbn [Kaua.s_attr Kaua.s_fg Kaua.s_bg].
  destruct (Kaua.attr_contains a Kaua.BOLD), (Kaua.attr_contains a Kaua.DIM), (Kaua.attr_contains a Kaua.ITALIC),
    (Kaua.attr_contains a Kaua.UNDERLINE), (Kaua.attr_contains a Kaua.REVERSE), f, b; reflexivity.
Qed.

(** A style's sequence establishes it. *)
Lemma style_run v st : ready v → style_ok st →
  ∃ w, bytes ([27; 91] ++ fields (sgr_params st) ++ [109]) v = Done w ∧ ready w ∧ setting w = setting v ∧
    pen_now w = pen_on (pal v) st ∧ cells w = cells v ∧ cx w = cx v ∧ cy w = cy v ∧ cursor_visible w = cursor_visible v.
Proof.
  intros [Hv Es Eu Ew Eo] Hst. destruct (sgr_params_ok st Hst) as (F & L16 & Hne).
  destruct (sequence_run v (sgr_params st) 109) as (ps & L & T & E); try done.
  set (w0 := in_csi Csi ps _ _ _ _ _ _ v) in *. rewrite dispatch_sgr in E. unfold sgr in E.
  assert (slice (params w0) 0 (nparams w0) = Done (sgr_params st)) as Esl.
  { change (params w0) with ps. change (nparams w0) with (zlen (sgr_params st)). rewrite slice_ok by lia.
    rewrite Z.sub_0_r, Nat2Z.id. change (Z.to_nat 0) with 0%nat. by rewrite drop_0, T. }
  rewrite Esl, bind_done, apply_style, bind_done in E by done. rewrite bind_done in E.
  pose proof (bytes_inv _ _ _ Hv E) as Hw. eexists. split; [exact E|]. split; [by split|]. done.
Qed.

(** ** Glyphs *)

(** A fact of every byte of a range, by looking at each. *)
Lemma byte_fact (P : Z → bool) lo n b : forallb P (seqZ lo n) = true → lo ≤ b < lo + n → P b = true.
Proof. rewrite forallb_forall. intros H Hb. apply H, list_elem_of_In, elem_of_seqZ. lia. Qed.

(** A character the toolkit counts as one column, and that is not a control. *)
Definition glyph_ok (c : Z) : Prop := from_u32 c = Some c ∧ width_of c = 1 ∧ 32 ≤ c ∧ c ≠ 127.

Definition utf_at (acc rem : Z) (v : Vt) : Vt := set_utf_rem rem (set_utf_acc acc v).
Lemma lead_2 v b : state v = Ground → utf_rem v = 0 → 192 ≤ b < 224 → byte b v = Done (utf_at (Z.land b 31) 1 v).
Proof.
  intros Es Eu Hb. unfold byte. rewrite Es. unfold ground. rewrite Eu. cbn [Z.ltb Z.compare andb].
  rewrite (proj2 (Z.eqb_neq b 27)), (proj2 (Z.eqb_neq b 127)), (within_not 0 31), (within_not 32 126) by lia. cbn [orb].
  by rewrite (proj2 (within_iff 192 223 b)) by lia.
Qed.
Lemma lead_3 v b : state v = Ground → utf_rem v = 0 → 224 ≤ b < 240 → byte b v = Done (utf_at (Z.land b 15) 2 v).
Proof.
  intros Es Eu Hb. unfold byte. rewrite Es. unfold ground. rewrite Eu. cbn [Z.ltb Z.compare andb].
  rewrite (proj2 (Z.eqb_neq b 27)), (proj2 (Z.eqb_neq b 127)), (within_not 0 31), (within_not 32 126) by lia. cbn [orb].
  by rewrite (within_not 192 223), (proj2 (within_iff 224 239 b)) by lia.
Qed.
Lemma lead_4 v b : state v = Ground → utf_rem v = 0 → 240 ≤ b < 248 → byte b v = Done (utf_at (Z.land b 7) 3 v).
Proof.
  intros Es Eu Hb. unfold byte. rewrite Es. unfold ground. rewrite Eu. cbn [Z.ltb Z.compare andb].
  rewrite (proj2 (Z.eqb_neq b 27)), (proj2 (Z.eqb_neq b 127)), (within_not 0 31), (within_not 32 126) by lia. cbn [orb].
  by rewrite (within_not 192 223), (within_not 224 239), (proj2 (within_iff 240 247 b)) by lia.
Qed.
Lemma cont_byte acc rem v m : state v = Ground → 1 ≤ rem → 0 ≤ acc < 2 ^ 24 → 0 ≤ m < 64 →
  byte (128 + m) (utf_at acc rem v) =
    if rem - 1 =? 0 then put_char (default 65533 (from_u32 (acc * 64 + m))) (utf_at (acc * 64 + m) 0 v)
    else Done (utf_at (acc * 64 + m) (rem - 1) v).
Proof.
  intros Es Hr Ha Hm. unfold byte. change (state (utf_at acc rem v)) with (state v). rewrite Es. unfold ground.
  change (utf_rem (utf_at acc rem v)) with rem. change (utf_acc (utf_at acc rem v)) with acc.
  assert ((Z.land (128 + m) 192 =? 128) && (Z.land (128 + m) 63 =? m) = true) as [-> E2%Z.eqb_eq]%andb_true_iff.
  { apply (byte_fact (λ m, (Z.land (128 + m) 192 =? 128) && (Z.land (128 + m) 63 =? m)) 0 64); [vm_compute; reflexivity|lia]. }
  rewrite (proj2 (Z.ltb_lt 0 rem)) by lia. cbn [andb]. rewrite E2. cbv zeta.
  assert (Z.lor (ushl 32 acc 6) m = acc * 64 + m) as ->.
  { unfold ushl. rewrite as_u_small by (unfold in_u, u_max; rewrite Z.shiftl_mul_pow2 by lia; lia).
    rewrite Z.lor_comm, lor_shiftl_add by (lia || unfold in_u; lia). lia. }
  set (v1 := set_utf_acc _ (utf_at acc rem v)). change (utf_rem v1) with rem. change (set_utf_rem (rem - 1) v1) with (utf_at (acc * 64 + m) (rem - 1) v).
  change (utf_rem (utf_at (acc * 64 + m) (rem - 1) v)) with (rem - 1). destruct (Z.eqb_spec (rem - 1) 0) as [->|]; done.
Qed.
Lemma utf_idle v : utf_rem v = 0 → utf_at (utf_acc v) 0 v = v.
Proof. intros E. destruct v. cbn in E. by subst. Qed.
Lemma last_cont acc v m c : state v = Ground → 0 ≤ acc < 2 ^ 24 → 0 ≤ m < 64 → c = acc * 64 + m → from_u32 c = Some c →
  bytes [128 + m] (utf_at acc 1 v) = put_char c (utf_at c 0 v).
Proof.
  intros Es Ha Hm -> Hc. cbn [bytes]. rewrite cont_byte by (done || lia). cbn [Z.sub Z.eqb Z.add Z.opp Z.pos_sub]. rewrite Hc. cbn [default].
  by destruct (put_char _ _).
Qed.
Lemma next_cont acc rem v m bs : state v = Ground → 2 ≤ rem → 0 ≤ acc < 2 ^ 24 → 0 ≤ m < 64 →
  bytes ((128 + m) :: bs) (utf_at acc rem v) = bytes bs (utf_at (acc * 64 + m) (rem - 1) v).
Proof. intros Es Hr Ha Hm. cbn [bytes]. rewrite cont_byte by (done || lia). by rewrite (proj2 (Z.eqb_neq (rem - 1) 0)), bind_done by lia. Qed.

Lemma bytes_step b bs v : bytes (b :: bs) v = (w ← byte b v; bytes bs w).
Proof. done. Qed.
(** The bytes of a character put that character. *)
Lemma glyph_bytes c v : state v = Ground → utf_rem v = 0 → from_u32 c = Some c → 32 ≤ c → c ≠ 127 →
  ∃ a, bytes (utf8_encode c) v = put_char c (utf_at a 0 v).
Proof.
  intros Es Eu Hc H32 H127. assert (0 ≤ c ≤ 1114111) as Hr.
  { unfold from_u32 in Hc. destruct (_ || _) eqn:E; [|done]. rewrite orb_true_iff, !within_iff in E. lia. }
  pose proof (Z.mod_pos_bound c 64 ltac:(lia)) as M0. pose proof (Z.mod_pos_bound (c / 64) 64 ltac:(lia)) as M1.
  pose proof (Z.mod_pos_bound (c / 4096) 64 ltac:(lia)) as M2. pose proof (Z.div_mod c 64 ltac:(lia)) as D0.
  pose proof (Z.div_mod (c / 64) 64 ltac:(lia)) as D1. rewrite Z.div_div in D1 by lia. change (64 * 64) with 4096 in D1.
  pose proof (Z.div_mod (c / 4096) 64 ltac:(lia)) as D2. rewrite Z.div_div in D2 by lia. change (4096 * 64) with 262144 in D2.
  unfold utf8_encode. destruct (Z.ltb_spec c 128); [|destruct (Z.ltb_spec c 2048); [|destruct (Z.ltb_spec c 65536)]].
  - exists (utf_acc v). rewrite utf_idle by done. cbn [bytes]. unfold byte. rewrite Es. unfold ground. rewrite Eu. cbn [Z.ltb Z.compare andb].
    rewrite (proj2 (Z.eqb_neq c 27)), (proj2 (Z.eqb_neq c 127)), (within_not 0 31), (proj2 (within_iff 32 126 c)) by lia. cbn [orb].
    by destruct (put_char c v).
  - exists c. rewrite bytes_step, lead_2, bind_done by (done || lia).
    assert (Z.land (192 + c / 64) 31 = c / 64) as ->.
    { apply Z.eqb_eq. apply (byte_fact (λ q, Z.land (192 + q) 31 =? q) 0 32); [vm_compute; reflexivity|lia]. }
    apply (last_cont (c / 64)); (done || lia).
  - exists c. rewrite bytes_step, lead_3, bind_done by (done || lia).
    assert (Z.land (224 + c / 4096) 15 = c / 4096) as ->.
    { apply Z.eqb_eq. apply (byte_fact (λ q, Z.land (224 + q) 15 =? q) 0 16); [vm_compute; reflexivity|lia]. }
    rewrite (next_cont (c / 4096) 2 v (c / 64 mod 64) [128 + c mod 64]) by (done || lia).
    apply (last_cont (c / 4096 * 64 + c / 64 mod 64)); (done || lia).
  - exists c. rewrite bytes_step, lead_4, bind_done by (done || lia).
    assert (Z.land (240 + c / 262144) 7 = c / 262144) as ->.
    { apply Z.eqb_eq. apply (byte_fact (λ q, Z.land (240 + q) 7 =? q) 0 8); [vm_compute; reflexivity|lia]. }
    rewrite (next_cont (c / 262144) 3 v (c / 4096 mod 64) [128 + c / 64 mod 64; 128 + c mod 64]) by (done || lia).
    change (3 - 1) with 2. rewrite (next_cont (c / 262144 * 64 + c / 4096 mod 64) 2 v (c / 64 mod 64) [128 + c mod 64]) by (done || lia).
    apply (last_cont ((c / 262144 * 64 + c / 4096 mod 64) * 64 + c / 64 mod 64)); (done || lia).
Qed.
(** One glyph at a column that is on the row: its cell, and one column on. *)
Lemma place_one c v : inv v → cx v < cols v → ∃ w, place c 1 false v = Done (set_cx (cx v + 1) w) ∧ draws v w ∧
  cells w = <[Z.to_nat (cy v * cols v + cx v) := mkCell c (fg v) (bg v) (attrs v) (span v)]> (cells v).
Proof.
  intros Hv Hx. pose proof (i_cx v Hv). pose proof (i_cy v Hv). pose proof (i_cells v Hv) as Hc. unfold place. cbv zeta.
  assert (∃ w, (if cx v =? 0 then w ← set_soft (cy v) false v; Done (if (cy v =? 0) && negb false then restart_top w else w) else Done v) = Done w ∧
    draws v w ∧ cells w = cells v) as (w & -> & D & C).
  { destruct (cx v =? 0); [|by exists v]. unfold set_soft. destruct (set_idx_len (wrapped v) (cy v) false) as (l & -> & Hl); [rewrite (i_wrapped v Hv); lia|].
    rewrite !bind_done. assert (draws v (set_wrapped l v)) as D by (apply draws_wrapped; lia).
    destruct (_ && _); [|by exists (set_wrapped l v)]. exists (restart_top (set_wrapped l v)). split; [done|].
    destruct (restart_top_same (set_wrapped l v)) as (D' & C' & _). split; [by etransitivity|by rewrite C']. }
  rewrite bind_done. pose proof (draws_inv _ _ D Hv) as Hw. destruct (draws_fields _ _ D) as (Es & Ep & _ & _ & _ & _ & Ex & Ey & Esp & _).
  unfold setting, geo, pen_now in Es, Ep. apply (f_equal fst) in Es. injection Es as E1 E2 E3 E4. injection Ep as E5 E6 E7. cbn [Z.eqb Pos.eqb]. unfold write_cell. cbv zeta.
  rewrite E1, E3, E5, E6, E7, Esp, C.
  assert ((if has (attrs v) ATTR_BOLD && (fg v =? p_fg (pal v)) then p_fg (pal v) else fg v) = fg v) as ->.
  { destruct (has _ _); [|done]. cbn [andb]. by destruct (Z.eqb_spec (fg v) (p_fg (pal v))). }
  set (c0 := mkCell _ _ _ _ _). assert (set_idx (cells v) (cy v * cols v + cx v) c0 = Done (<[Z.to_nat (cy v * cols v + cx v) := c0]> (cells v))) as ->.
  { unfold set_idx. pose proof (i_cols v Hv). unfold side in *. rewrite (proj2 (Z.leb_le 0 _)), (proj2 (Z.ltb_lt _ (zlen (cells v)))) by nia. done. }
  rewrite bind_done. set (l := <[_ := c0]> _). assert (draws v (set_cells l w)) as D2.
  { etransitivity; [exact D|]. apply draws_cells. subst l. by rewrite length_insert, C. }
  pose proof (draws_inv _ _ D2 Hv) as Hw2. destruct (mark_paints (set_cells l w) (set_cells l w) (draws_refl _) Hw2 (cy v)) as (x & Ex' & D3 & _); [lia|].
  rewrite Ex', !bind_done. destruct (draws_fields _ _ D3) as (_ & _ & _ & _ & _ & _ & Ecx & _). change (cx (set_cells l w)) with (cx w) in Ecx.
  rewrite Ecx, Ex. exists x. split; [done|]. split; [by etransitivity|].
  unfold mark in Ex'. destruct (_ <? _); [|by injection Ex' as <-]. destruct (set_idx _ _ _); [|done..]. by injection Ex' as <-.
Qed.

(** The bytes of a glyph. *)
Lemma glyph_run c v : ready v → glyph_ok c → cx v < cols v → ∃ w, bytes (utf8_encode c) v = Done w ∧ ready w ∧ setting w = setting v ∧
  pen_now w = pen_now v ∧ cx w = cx v + 1 ∧ cy w = cy v ∧ cursor_visible w = cursor_visible v ∧
  ∃ s, cells w = <[Z.to_nat (cy v * cols v + cx v) := mkCell c (fg v) (bg v) (attrs v) s]> (cells v).
Proof.
  intros [Hv Es Eu Ew Eo] (Hc & Hw & H1 & H2) Hx. destruct (glyph_bytes c v Es Eu Hc H1 H2) as [a E].
  set (v0 := utf_at a 0 v) in *. assert (inv v0) as H0 by (destruct Hv; by split).
  assert (put_char c v0 = place c 1 false v0) as Ep.
  { unfold put_char. rewrite char_width_ok, bind_done, Hw. cbn [Z.eqb Pos.eqb andb]. cbv zeta. pose proof (i_cols v Hv). unfold side in *.
    change (cols v0) with (cols v). change (cx v0) with (cx v). rewrite usub_ok, bind_done by lia.
    rewrite (proj2 (Z.leb_gt (cols v) (cx v))), bind_done by lia. reflexivity. }
  rewrite Ep in E. destruct (place_one c v0 H0) as (w & Ew' & D & C); [done|]. rewrite Ew' in E.
  destruct (draws_fields _ _ D) as (F1 & F2 & F3 & F4 & F5 & F6 & F7 & F8 & F9 & F10). pose proof (bytes_inv _ _ _ Hv E) as Hwi.
  exists (set_cx (cx v0 + 1) w). split; [done|]. split; [by split; cbn; rewrite ?F3, ?F4, ?F5, ?F6|]. split; [exact F1|]. split; [exact F2|].
  split; [done|]. split; [exact F8|]. split; [exact F10|]. exists (span v). exact C.
Qed.
End KauaVt.
