(* ===== verification/KauaFrame.v ===== *)
(** * The terminal toolkit on the terminal emulator: frames and sessions

    A frame makes the emulator show the drawn buffer, whatever it showed of the
    buffer before; entering and leaving give the main screen back. *)

From stdpp Require Import strings.
From S2P Require Import Prelude Digits Utf8 VtBase Vt VtInv VtWidth VtTotal VtRows VtSeq Kaua KauaVt.
Import Digits Utf8 VtBase Vt VtInv VtWidth VtTotal VtRows VtSeq KauaVt.
Open Scope Z_scope.

Module KauaFrame.

(** ** Private modes *)

Lemma mode_run v m (on : bool) : inv v → state v = Ground → utf_rem v = 0 → in_u 32 m →
  ∃ ps, bytes ([27; 91; 63] ++ fields [m] ++ [if on then 104 else 108]) v =
    (w ← one_mode on m (in_csi Csi ps 1 0 false 63 0 false v); Done (set_state Ground w)).
Proof.
  intros Hv Es Eu Hm. destruct (private_run v [m] (if on then 104 else 108) Hv Es Eu) as (ps & L & T & E);
    [done|by constructor|done|destruct on; lia|].
  exists ps. rewrite E. change (zlen [m]) with 1. set (w0 := in_csi Csi ps 1 0 false 63 0 false v).
  assert (dispatch_dec (if on then 104 else 108) w0 = mode_set on w0) as -> by by destruct on.
  unfold mode_set. change (nparams w0) with (0 + 1). rewrite range_one. change (params w0) with ps.
  assert (idx ps 0 = Done m) as -> by (destruct ps; [done|]; cbn in T; by injection T as ->). rewrite bind_done. reflexivity.
Qed.
Lemma show_run v (on : bool) : ready v → ∃ w, bytes ([27; 91; 63] ++ fields [25] ++ [if on then 104 else 108]) v = Done w ∧ ready w ∧
  setting w = setting v ∧ pen_now w = pen_now v ∧ cells w = cells v ∧ cx w = cx v ∧ cy w = cy v ∧ cursor_visible w = on.
Proof.
  intros [Hv Es Eu Ew Eo]. destruct (mode_run v 25 on Hv Es Eu) as [ps E]; [done|]. set (w0 := in_csi _ _ _ _ _ _ _ _ v) in *.
  change (one_mode on 25 w0) with (Done (set_cursor_visible on w0)) in E. rewrite bind_done in E.
  pose proof (bytes_inv _ _ _ Hv E) as Hw. eexists. split; [exact E|]. split; [by split|]. done.
Qed.

(** ** Cells *)

Definition looks (p : Palette) (k : Kaua.KCell) (c : Cell) : Prop :=
  c_ch c = Kaua.symbol k ∧ (c_fg c, c_bg c, c_attrs c) = pen_on p (Kaua.k_style k).
Definition kcell_ok (k : Kaua.KCell) : Prop := glyph_ok (Kaua.symbol k) ∧ style_ok (Kaua.k_style k).
Definition on_screen (v : Vt) (u : Z * Z * Kaua.KCell) : Prop :=
  0 ≤ u.1.1 < cols v ∧ 0 ≤ u.1.2 < rows v ∧ kcell_ok u.2.
Definition index (v : Vt) (u : Z * Z * Kaua.KCell) : nat := Z.to_nat (u.1.2 * cols v + u.1.1).

(** The virtual pen is right about the terminal. *)
Definition tracks (pen : Kaua.Pen) (v : Vt) : Prop :=
  match pen.1 with Some (x, y) => x < cols v → cx v = x ∧ cy v = y | None => True end ∧
  match pen.2 with Some st => pen_now v = pen_on (pal v) st | None => True end.

(** One update, from wherever the pen is. *)
Lemma update_run v pen x y k : ready v → cols v ≤ 65535 → rows v ≤ 65535 → tracks pen v → on_screen v (x, y, k) →
  let mv := if bool_decide (pen.1 = Some (x, y)) then [] else [27; 91] ++ fields [y + 1; x + 1] ++ [72] in
  let sg := if bool_decide (pen.2 = Some (Kaua.k_style k)) then [] else [27; 91] ++ fields (sgr_params (Kaua.k_style k)) ++ [109] in
  ∃ w c, bytes (mv ++ sg ++ utf8_encode (Kaua.symbol k)) v = Done w ∧ ready w ∧ setting w = setting v ∧
    cursor_visible w = cursor_visible v ∧
    tracks (Some (x + 1, y), Some (Kaua.k_style k)) w ∧ looks (pal v) k c ∧ cells w = <[index v (x, y, k) := c]> (cells v).
Proof.
  intros Hv Bc Br [T1 T2] (Hx & Hy & Hg & Hs) mv sg. cbn [fst snd] in *.
  assert (∃ w, bytes mv v = Done w ∧ ready w ∧ setting w = setting v ∧ pen_now w = pen_now v ∧ cells w = cells v ∧ cx w = x ∧ cy w = y ∧
    cursor_visible w = cursor_visible v) as (w1 & E1 & R1 & S1 & P1 & C1 & X1 & Y1 & V1).
  { subst mv. case_bool_decide as Ep; [|by apply move_ok; (done || lia)]. rewrite Ep in T1. exists v. destruct (T1 ltac:(lia)). done. }
  assert (geo w1 = geo v) as G1 by (by apply (f_equal fst) in S1). unfold geo in G1. injection G1 as Gc1 Gr1 Gp1 Ga1.
  assert (∃ w, bytes sg w1 = Done w ∧ ready w ∧ setting w = setting w1 ∧ pen_now w = pen_on (pal v) (Kaua.k_style k) ∧ cells w = cells w1 ∧
    cx w = cx w1 ∧ cy w = cy w1 ∧ cursor_visible w = cursor_visible w1) as (w2 & E2 & R2 & S2 & P2 & C2 & X2 & Y2 & V2).
  { subst sg. case_bool_decide as Ep; [|rewrite <-Gp1; by apply style_run]. rewrite Ep in T2. exists w1. by rewrite P1. }
  assert (geo w2 = geo w1) as G2 by (by apply (f_equal fst) in S2). unfold geo in G2. injection G2 as Gc2 Gr2 Gp2 Ga2.
  destruct (glyph_run (Kaua.symbol k) w2 R2 Hg) as (w3 & E3 & R3 & S3 & P3 & X3 & Y3 & V3 & s & C3); [rewrite Gc2, Gc1, X2, X1; lia|].
  assert (geo w3 = geo w2) as G3 by (by apply (f_equal fst) in S3). unfold geo in G3. injection G3 as Gc3 Gr3 Gp3 Ga3.
  exists w3, (mkCell (Kaua.symbol k) (fg w2) (bg w2) (attrs w2) s). rewrite (feed_app mv), E1, bind_done, (feed_app sg), E2, bind_done.
  split; [done|]. split; [done|]. split; [congruence|]. split; [congruence|]. split; [|split].
  - split; cbn; [rewrite X3, Y3, X2, Y2, X1, Y1; done|]. rewrite P3, P2. congruence.
  - by split; [|cbn; rewrite <-P2].
  - rewrite C3, C2, C1. unfold index. cbn. by rewrite Gc2, Gc1, X2, Y2, X1, Y1.
Qed.

(** A list of updates.  [Q] is what each cell of the screen is to be. *)
Lemma render_app us pen out : Forall (λ u, (0 ≤ u.1.1 < 65535 ∧ 0 ≤ u.1.2 < 65535) ∧ style_ok (Kaua.k_style u.2)) us →
  (Kaua.render_cells out us pen).1 = out ++ (Kaua.render_cells [] us pen).1.
Proof.
  revert pen out. induction us as [|[[x y] k] us IH]; intros pen out Hu; cbn [Kaua.render_cells fst]; [by rewrite app_nil_r|].
  apply Forall_cons in Hu as [[[Hx Hy] Hst] Hu]. cbn in Hx, Hy, Hst. unfold Kaua.push_char. rewrite (IH _ (_ ++ utf8_encode _)) by done.
  rewrite (IH _ (_ ++ utf8_encode _)) by done. rewrite !app_assoc. do 2 f_equal.
  rewrite !push_sgr_app, !push_move_app by done. repeat case_bool_decide; by rewrite ?app_nil_r, <-?app_assoc.
Qed.
Lemma render_run us : ∀ pen v (Q : nat → Cell → Prop), ready v → cols v ≤ 65535 → rows v ≤ 65535 → tracks pen v → Forall (on_screen v) us →
  (∀ u c, u ∈ us → looks (pal v) u.2 c → Q (index v u) c) →
  (∀ i c, cells v !! i = Some c → Q i c ∨ ∃ u, u ∈ us ∧ index v u = i) →
  ∃ w, bytes (Kaua.render_cells [] us pen).1 v = Done w ∧ ready w ∧ setting w = setting v ∧ cursor_visible w = cursor_visible v ∧
    ∀ i c, cells w !! i = Some c → Q i c.
Proof.
  induction us as [|[[x y] k] us IH]; intros pen v Q Hv Bc Br Ht Hu Hq H0.
  { exists v. split; [done|]. split; [done|]. split; [done|]. split; [done|]. intros i c Hi. destruct (H0 i c Hi) as [|(u & Hin & _)]; [done|].
    by apply elem_of_nil in Hin. }
  apply Forall_cons in Hu as [Hu Hus]. pose proof Hu as (Hx & Hy & _). cbn in Hx, Hy.
  destruct (update_run v pen x y k Hv Bc Br Ht Hu) as (w & c & E & Rw & Sw & Vw & Tw & Lc & Cw).
  assert (geo w = geo v) as Gw by (by apply (f_equal fst) in Sw). unfold geo in Gw. injection Gw as Gc Gr Gp Ga.
  assert (∀ u, on_screen w u ↔ on_screen v u) as Hon by (intros u; unfold on_screen; by rewrite Gc, Gr).
  assert (∀ u, index w u = index v u) as Hix by (intros u; unfold index; by rewrite Gc).
  destruct (IH (Some (x + 1, y), Some (Kaua.k_style k)) w Q) as (z & Ez & Rz & Sz & Vz & Qz); try done; try lia.
  { eapply Forall_impl; [exact Hus|]. intros u. by rewrite Hon. }
  { intros u d Hin Hl. rewrite Hix. apply Hq; [by apply elem_of_cons; right|]. by rewrite <-Gp. }
  { intros i d Hi. rewrite Cw in Hi. destruct (decide (i = index v (x, y, k))) as [->|Hne].
    - left. rewrite list_lookup_insert_eq in Hi by (by apply lookup_lt_Some in Hi; rewrite length_insert in Hi). injection Hi as <-.
      apply (Hq (x, y, k)); [by left|done].
    - rewrite list_lookup_insert_ne in Hi by done. destruct (H0 i d Hi) as [|(u & [->|Hin]%elem_of_cons & Hi')]; [by left|done|].
      right. exists u. by rewrite Hix. }
  exists z. split; [|split; [done|split; [congruence|split; [congruence|done]]]].
  cbn [Kaua.render_cells]. unfold Kaua.push_char. rewrite render_app.
  2: { eapply Forall_impl; [exact Hus|]. intros [[a b] d] (Ha & Hb & _ & Hst). cbn in *. split; [lia|done]. }
  rewrite feed_app. assert (sat_add 16 x 1 = x + 1) as -> by (unfold sat_add, u_max; lia).
  match goal with |- (_ ← bytes ?bs v; _) = _ => replace bs with
    ((if bool_decide (pen.1 = Some (x, y)) then [] else [27; 91] ++ fields [y + 1; x + 1] ++ [72]) ++
     (if bool_decide (pen.2 = Some (Kaua.k_style k)) then [] else [27; 91] ++ fields (sgr_params (Kaua.k_style k)) ++ [109]) ++
     utf8_encode (Kaua.symbol k)) end.
  { rewrite E, bind_done. exact Ez. }
  rewrite push_sgr_app by (apply Hu). rewrite push_move_app by lia. repeat case_bool_decide; by rewrite <-?app_assoc.
Qed.

(** ** Which cells a frame updates *)

Section Updates.
Context (a : Kaua.Rect) (w h : Z) (Ha : Kaua.r_x a = 0 ∧ Kaua.r_y a = 0) (Hw : 1 ≤ w ≤ 65535) (Hh : 1 ≤ h ≤ 65535).

Notation spot i := (Z.of_nat i mod w, Z.of_nat i / w).
Lemma place_of_ok i : Z.of_nat i < w * h → Kaua.place_of a w (Z.of_nat i) = Done (spot i).
Proof.
  intros Hi. destruct Ha as [E1 E2]. unfold Kaua.place_of. rewrite E1, E2. rewrite (proj2 (Z.eqb_neq w 0)) by lia.
  pose proof (Z.mod_pos_bound (Z.of_nat i) w ltac:(lia)). pose proof (Z.div_lt_upper_bound (Z.of_nat i) w h ltac:(lia) ltac:(lia)).
  pose proof (Z.div_pos (Z.of_nat i) w ltac:(lia) ltac:(lia)). rewrite !as_u_small by (unfold in_u; lia).
  rewrite !uadd_ok, !bind_done by (unfold u_max; lia). done.
Qed.

(** The updates [us] of the cells [cur] from place [i0] on, where [same] need none. *)
Definition updates_of (i0 : nat) (cur : list Kaua.KCell) (same : nat → Prop) (us : list (Z * Z * Kaua.KCell)) : Prop :=
  (∀ u, u ∈ us → ∃ i, cur !! i = Some u.2 ∧ u.1 = spot (i0 + i)) ∧
  (∀ i k, cur !! i = Some k → same i ∨ ∃ u, u ∈ us ∧ u.1 = spot (i0 + i)).
Lemma updates_skip i0 k cur (same : nat → Prop) us : same 0%nat → updates_of (S i0) cur (λ i, same (S i)) us → updates_of i0 (k :: cur) same us.
Proof.
  intros H0 [H1 H2]. split.
  - intros u Hu. destruct (H1 u Hu) as (i & Hi & E). exists (S i). split; [done|]. by rewrite E, <-Nat.add_succ_comm.
  - intros [|i] q Hq; [by left|]. destruct (H2 i q Hq) as [|(u & Hu & E)]; [by left|]. right. exists u. split; [done|]. by rewrite E, <-Nat.add_succ_comm.
Qed.
Lemma updates_cons i0 k cur (same : nat → Prop) us : updates_of (S i0) cur (λ i, same (S i)) us → updates_of i0 (k :: cur) same ((spot i0, k) :: us).
Proof.
  intros [H1 H2]. split.
  - intros u [->|Hu]%elem_of_cons; [exists 0%nat; by rewrite Nat.add_0_r|]. destruct (H1 u Hu) as (i & Hi & E). exists (S i). split; [done|]. by rewrite E, <-Nat.add_succ_comm.
  - intros [|i] q Hq; [right; eexists; split; [by left|by rewrite Nat.add_0_r]|]. destruct (H2 i q Hq) as [|(u & Hu & E)]; [by left|].
    right. exists u. split; [by right|]. by rewrite E, <-Nat.add_succ_comm.
Qed.

Lemma all_from_ok cells : ∀ i0, Z.of_nat i0 + zlen cells ≤ w * h → Z.max (Kaua.r_width a) 1 = w →
  ∃ us, Kaua.all_from a (Z.of_nat i0) cells = Done us ∧ updates_of i0 cells (λ _, False) us.
Proof.
  induction cells as [|k cells IH]; intros i0 Hl Hm; cbn [Kaua.all_from].
  { exists []. split; [done|]. split; [intros u Hu; by apply elem_of_nil in Hu|done]. }
  cbn [length] in Hl. rewrite Hm, place_of_ok, bind_done by lia. destruct (IH (S i0)) as (us & E & Hus); [lia|done|].
  replace (Z.of_nat i0 + 1) with (Z.of_nat (S i0)) by lia. rewrite E, bind_done. eexists. split; [done|]. by apply updates_cons.
Qed.
Lemma diff_from_ok cur : ∀ old i0, length old = length cur → Z.of_nat i0 + zlen cur ≤ w * h → Kaua.r_width a = w →
  ∃ us, Kaua.diff_from a (Z.of_nat i0) cur old = Done us ∧ updates_of i0 cur (λ i, cur !! i = old !! i) us.
Proof.
  induction cur as [|k cur IH]; intros old i0 Hlen Hl Hm; cbn [Kaua.diff_from].
  { exists []. split; [done|]. split; [intros u Hu; by apply elem_of_nil in Hu|done]. }
  destruct old as [|o old]; [done|]. cbn [length] in *. destruct (IH old (S i0)) as (us & E & Hus); [lia|lia|done|].
  replace (Z.of_nat i0 + 1) with (Z.of_nat (S i0)) by lia. rewrite E. case_bool_decide as Hk.
  - exists us. split; [done|]. apply updates_skip; [by rewrite Hk|done].
  - rewrite Hm, place_of_ok, !bind_done by lia. eexists. split; [done|]. by apply updates_cons.
Qed.
End Updates.

(** ** Frames *)

(** The buffer covers the screen, and the screen shows it. *)
Definition covers_screen (a : Kaua.Rect) (v : Vt) : Prop :=
  Kaua.r_x a = 0 ∧ Kaua.r_y a = 0 ∧ Kaua.r_width a = cols v ∧ Kaua.r_height a = rows v.
Definition shows (b : Kaua.Buffer) (v : Vt) : Prop :=
  covers_screen (Kaua.b_area b) v ∧ Forall2 (looks (pal v)) (Kaua.content b) (cells v).
(** A buffer a program may have drawn. *)
Definition drawn (b : Kaua.Buffer) : Prop :=
  zlen (Kaua.content b) = Kaua.area (Kaua.b_area b) ∧ Forall kcell_ok (Kaua.content b).
(** A terminal whose screen is the emulator's, with its cursor on it. *)
Record attached (t : Kaua.Terminal) (v : Vt) : Prop := mkAttached {
  at_ready : ready v;
  at_sides : cols v ≤ 65535 ∧ rows v ≤ 65535;
  at_area : covers_screen (Kaua.b_area (Kaua.back t)) v;
  at_front : Kaua.repaint t = false → Kaua.b_area (Kaua.front t) = Kaua.b_area (Kaua.back t) ∧ shows (Kaua.front t) v;
  at_back : drawn (Kaua.back t);
  at_cursor : match Kaua.cursor t with Some (x, y) => 0 ≤ x < cols v ∧ 0 ≤ y < rows v | None => True end
}.

Lemma updates_ok t v : attached t v → ∃ us, Kaua.updates t = Done us ∧
  updates_of (cols v) 0 (Kaua.content (Kaua.back t)) (λ i, Kaua.repaint t = false ∧ Kaua.content (Kaua.front t) !! i = Kaua.content (Kaua.back t) !! i) us.
Proof.
  intros [[Hv _ _ _ _] [B1 B2] (A1 & A2 & A3 & A4) Hf [Hl _] _]. pose proof (i_cols v Hv). pose proof (i_rows v Hv). unfold side in *.
  unfold Kaua.area in Hl. rewrite A3, A4 in Hl. unfold Kaua.updates. destruct (Kaua.repaint t).
  - destruct (all_from_ok (Kaua.b_area (Kaua.back t)) (cols v) (rows v) (conj A1 A2) ltac:(lia) ltac:(lia) (Kaua.content (Kaua.back t)) 0) as (us & E & U1 & U2);
      [lia|lia|]. exists us. split; [exact E|]. split; [done|]. intros i k Hk. destruct (U2 i k Hk) as [[]|]. by right.
  - destruct (Hf eq_refl) as [Ea [_ F]]. unfold Kaua.diff. rewrite Ea, bool_decide_eq_true_2 by done. cbn [negb].
    apply Forall2_length in F. pose proof (i_cells v Hv).
    destruct (diff_from_ok (Kaua.b_area (Kaua.back t)) (cols v) (rows v) (conj A1 A2) ltac:(lia) ltac:(lia) (Kaua.content (Kaua.back t))
      (Kaua.content (Kaua.front t)) 0) as (us & E & U1 & U2); [lia|lia|done|].
    exists us. split; [exact E|]. split; [done|]. intros i k Hk. destruct (U2 i k Hk) as [Es|]; [left; done|by right].
Qed.

(** The updates of a frame, rendered. *)
Lemma cells_run t v : attached t v → ∃ us w, Kaua.updates t = Done us ∧ Forall (λ u, 0 ≤ u.1.1 < 65535 ∧ 0 ≤ u.1.2 < 65535) us ∧
  bytes (Kaua.render_cells [] us (None, None)).1 v = Done w ∧ ready w ∧ setting w = setting v ∧ cursor_visible w = cursor_visible v ∧
  shows (Kaua.back t) w.
Proof.
  intros At. destruct (updates_ok t v At) as (us & E & U1 & U2). destruct At as [Hrd [B1 B2] Ha Hf [Hl Hk] _].
  pose proof (rd_inv v Hrd) as Hv. pose proof (i_cols v Hv). pose proof (i_rows v Hv). pose proof (i_cells v Hv) as Hc. unfold side in *.
  pose proof Ha as (A1 & A2 & A3 & A4). unfold Kaua.area in Hl. rewrite A3, A4 in Hl.
  assert (∀ i k, Kaua.content (Kaua.back t) !! i = Some k → 0 ≤ Z.of_nat i mod cols v < cols v ∧ 0 ≤ Z.of_nat i / cols v < rows v ∧
    Z.to_nat (Z.of_nat i / cols v * cols v + Z.of_nat i mod cols v) = i) as Hspot.
  { intros i k Hi%lookup_lt_Some. pose proof (Z.mod_pos_bound (Z.of_nat i) (cols v) ltac:(lia)).
    pose proof (Z.div_lt_upper_bound (Z.of_nat i) (cols v) (rows v) ltac:(lia) ltac:(lia)). pose proof (Z.div_pos (Z.of_nat i) (cols v) ltac:(lia) ltac:(lia)).
    pose proof (Z.div_mod (Z.of_nat i) (cols v) ltac:(lia)). lia. }
  assert (Forall (on_screen v) us) as Hon.
  { apply Forall_forall. intros u Hu. destruct (U1 u Hu) as (i & Hi & Eu). destruct (Hspot i _ Hi) as (S1 & S2 & _). unfold on_screen. rewrite Eu. cbn [fst snd Nat.add].
    split; [done|]. split; [done|]. rewrite Forall_forall in Hk. apply Hk. by eapply list_elem_of_lookup_2. }
  destruct (render_run us (None, None) v (λ i c, ∃ k, Kaua.content (Kaua.back t) !! i = Some k ∧ looks (pal v) k c) Hrd B1 B2 ltac:(done) Hon)
    as (w & Ew & Rw & Sw & Vw & Qw).
  { intros u c Hu Hlk. destruct (U1 u Hu) as (i & Hi & Eu). destruct (Hspot i _ Hi) as (_ & _ & S3). exists u.2. split; [|done].
    unfold index. rewrite Eu. cbn [fst snd Nat.add]. by rewrite S3. }
  { intros i c Hi. destruct (lookup_lt_is_Some_2 (Kaua.content (Kaua.back t)) i) as [k Hki]; [apply lookup_lt_Some in Hi; lia|].
    destruct (U2 i k Hki) as [[Hrp Es]|(u & Hu & Eu)].
    - left. exists k. split; [done|]. destruct (Hf Hrp) as (_ & _ & F). eapply Forall2_lookup_lr in F; [exact F| |exact Hi]. congruence.
    - right. exists u. split; [done|]. destruct (Hspot i _ Hki) as (_ & _ & S3). unfold index. rewrite Eu. cbn [fst snd Nat.add]. exact S3. }
  assert (geo w = geo v) as Gw by (by apply (f_equal fst) in Sw). unfold geo in Gw. injection Gw as Gc Gr Gp Ga.
  exists us, w. split; [done|]. split; [eapply Forall_impl; [exact Hon|]; intros u (? & ? & _); lia|]. split; [done|]. split; [done|]. split; [done|]. split; [done|].
  split; [unfold covers_screen; by rewrite Gc, Gr|]. pose proof (i_cells w (rd_inv w Rw)) as Hcw. rewrite Gc, Gr in Hcw.
  apply Forall2_same_length_lookup. split; [lia|]. intros i k c Hki Hci. destruct (Qw i c Hci) as (k' & Hk' & Hlk). rewrite Gp. congruence.
Qed.

Lemma shows_moves b v w : setting w = setting v → cells w = cells v → shows b v → shows b w.
Proof.
  intros S C [Ha F]. apply (f_equal fst) in S. cbn in S. unfold geo in S. injection S as Gc Gr Gp Ga. unfold shows, covers_screen in *.
  by rewrite Gc, Gr, Gp, C.
Qed.

(** A frame: the emulator then shows the back buffer. *)
Lemma frame_run t v : attached t v → ∃ out w, Kaua.frame t = Done out ∧ bytes out v = Done w ∧ ready w ∧ setting w = setting v ∧
  shows (Kaua.back t) w ∧ cursor_visible w = bool_decide (is_Some (Kaua.cursor t)) ∧
  match Kaua.cursor t with Some (x, y) => cx w = x ∧ cy w = y | None => True end.
Proof.
  intros At. destruct (cells_run t v At) as (us & w & Eu & Hu & Ew & Rw & Sw & Vw & Sh). destruct At as [_ [B1 B2] _ _ _ Hcur].
  unfold Kaua.frame. rewrite Eu, bind_done. set (o := (Kaua.render_cells [] us (None, None)).1) in *.
  pose proof (f_equal fst Sw) as Gw. cbn in Gw. unfold geo in Gw. injection Gw as Gc Gr Gp Ga. destruct (Kaua.cursor t) as [[x y]|].
  - eexists. rewrite push_move_app by lia. destruct (move_ok w x y Rw) as (w1 & E1 & R1 & S1 & P1 & C1 & X1 & Y1 & V1); [lia..|].
    destruct (show_run w1 true R1) as (w2 & E2 & R2 & S2 & P2 & C2 & X2 & Y2 & V2). exists w2. split; [done|].
    split; [rewrite <-!app_assoc, feed_app, Ew, bind_done; rewrite !app_assoc, feed_app, <-!app_assoc, E1, bind_done; exact E2|].
    split; [done|]. split; [congruence|]. split; [by eapply shows_moves; [exact S2|exact C2|]; eapply shows_moves|]. split; [done|]. by rewrite X2, Y2.
  - eexists. destruct (show_run w false Rw) as (w2 & E2 & R2 & S2 & P2 & C2 & X2 & Y2 & V2). exists w2. split; [done|].
    split; [rewrite feed_app, Ew, bind_done; exact E2|]. split; [done|]. split; [congruence|]. split; [by eapply shows_moves|]. by split.
Qed.
(** The terminal is attached again, now without a pending repaint. *)
Lemma flush_run t v : attached t v → ∃ out w, Kaua.flush true t = Done (out, Kaua.mkTerm (Kaua.back t) (Kaua.back t) (Kaua.cursor t) false (Kaua.entered t)) ∧
  bytes out v = Done w ∧ ready w ∧ setting w = setting v ∧ shows (Kaua.back t) w ∧ cursor_visible w = bool_decide (is_Some (Kaua.cursor t)) ∧
  match Kaua.cursor t with Some (x, y) => cx w = x ∧ cy w = y | None => True end.
Proof.
  intros At. destruct (frame_run t v At) as (out & w & E & H). exists out, w. split; [|done]. unfold Kaua.flush. by rewrite E.
Qed.

(** ** Runs of frames *)

(** What a program draws, and where it wants the cursor. *)
Definition Frame : Type := Kaua.Buffer * option (Z * Z).
Definition frame_fits (v : Vt) (f : Frame) : Prop :=
  drawn f.1 ∧ covers_screen (Kaua.b_area f.1) v ∧ match f.2 with Some (x, y) => 0 ≤ x < cols v ∧ 0 ≤ y < rows v | None => True end.
Fixpoint play (fs : list Frame) (t : Kaua.Terminal) (v : Vt) : outcome (Kaua.Terminal * Vt) :=
  match fs with
  | [] => Done (t, v)
  | (b, c) :: fs =>
      '(out, t) ← Kaua.draw (λ _, b) true (Kaua.set_cursor c t);
      v ← bytes out v;
      play fs t v
  end.
(** The screen is the terminal's, or will be repainted. *)
Definition synced (t : Kaua.Terminal) (v : Vt) : Prop :=
  ready v ∧ (cols v ≤ 65535 ∧ rows v ≤ 65535) ∧ (Kaua.repaint t = false → shows (Kaua.front t) v).
Lemma rect_eq a b v : covers_screen a v → covers_screen b v → a = b.
Proof. intros (? & ? & ? & ?) (? & ? & ? & ?). destruct a, b. cbn in *. congruence. Qed.
Lemma play_ok fs : ∀ t v, synced t v → Forall (frame_fits v) fs → ∃ t' w, play fs t v = Done (t', w) ∧ synced t' w ∧ setting w = setting v ∧
  Kaua.entered t' = Kaua.entered t ∧ match last fs with
  | Some (b, c) => Kaua.front t' = b ∧ shows b w ∧ cursor_visible w = bool_decide (is_Some c) ∧ match c with Some (x, y) => cx w = x ∧ cy w = y | None => True end
  | None => t' = t ∧ w = v end.
Proof.
  induction fs as [|[b c] fs IH]; intros t v Hs Hf; [by exists t, v|]. apply Forall_cons in Hf as [(Hd & Hc & Hcur) Hfs]. cbn [fst snd] in *.
  destruct Hs as (Hr & Hb & Hsh). set (t0 := Kaua.mkTerm (Kaua.front t) b c (Kaua.repaint t) (Kaua.entered t)).
  assert (attached t0 v) as At.
  { split; try done. intros Hp. specialize (Hsh Hp). split; [|done]. by eapply rect_eq; [apply Hsh|]. }
  destruct (flush_run t0 v At) as (out & w & Ef & Eb & Rw & Sw & Shw & Vw & Xw).
  cbn [play]. unfold Kaua.draw. change (Kaua.mkTerm _ _ _ _ _) with t0. rewrite Ef, bind_done. cbv beta iota. rewrite Eb, bind_done.
  pose proof (f_equal fst Sw) as Gw. cbn in Gw. unfold geo in Gw. injection Gw as Gc Gr Gp Ga.
  set (t1 := Kaua.mkTerm _ _ _ _ _). destruct (IH t1 w) as (t' & x & Ex & Sx & Stx & En & Lx).
  { split; [done|]. split; [by rewrite Gc, Gr|done]. }
  { eapply Forall_impl; [exact Hfs|]. intros f. unfold frame_fits, covers_screen. by rewrite Gc, Gr. }
  exists t', x. split; [done|]. split; [done|]. split; [congruence|]. split; [done|]. rewrite last_cons. destruct (last fs) as [[b' c']|]; [done|].
  destruct Lx as [-> ->]. done.
Qed.
End KauaFrame.
