(* ===== verification/KauaSession.v ===== *)
(** * The terminal toolkit on the terminal emulator: entering and leaving

    A program enters the alternate screen, draws frames and leaves: the shell's
    screen is what it was.  The size handshake learns the emulator's geometry. *)

From stdpp Require Import strings.
From S2P Require Import Prelude Digits Utf8 VtBase Vt VtInv VtWidth VtTotal VtRows VtSeq Kaua KauaVt KauaFrame.
Import Digits Utf8 VtBase Vt VtInv VtWidth VtTotal VtRows VtSeq KauaVt KauaFrame.
Open Scope Z_scope.

Module KauaSession.

Lemma note_same e v : same_buf v (note e v).
Proof. unfold note. destruct (capture_events v); [by split; [apply push_event_draws|]|apply same_refl]. Qed.

(** What entering leaves of a terminal on its main screen. *)
Lemma alt_enter v : on_alt v = false → ∃ w, alt_screen true v = Done w ∧
  geo w = (cols v, rows v, pal v, true) ∧ aside w = (cells v, wrapped v, (cx v, cy v), wrap v, top_continues v) ∧
  pen_now w = pen_now v ∧ state w = state v ∧ utf_rem w = utf_rem v ∧ origin w = origin v.
Proof.
  intros Ea. unfold alt_screen. rewrite Ea. cbn [eqb]. rewrite bind_done. cbv zeta. eexists. split; [reflexivity|].
  set (E := set_cy 0 _). set (nt := note _ E). assert (draws E (mark_all nt)) as D by (etransitivity; [apply note_same|apply mark_all_same]).
  destruct (draws_fields _ _ D) as (S & P & F1 & F2 & F3 & F4 & _). pose proof (f_equal fst S) as G. pose proof (f_equal snd S) as A. cbn in G, A.
  rewrite G, A, P, F1, F2, F4. by rewrite andb_true_l in * || done.
Qed.
(** The implicit restore of the cursor and autowrap. *)
Definition kept (v : Vt) : (Z * Z * Palette * bool) * (list Cell * list bool * bool) * (Z * Z * Z) * (bool * State * Z * bool) :=
  (geo v, (cells v, wrapped v, top_continues v), pen_now v, (cursor_visible v, state v, utf_rem v, origin v)).
Lemma restored v : 1 ≤ cols v → 1 ≤ rows v → ∃ w, (x ← restore_cursor v; Done (set_wrap (saved_wrap x) x)) = Done w ∧ kept w = kept v ∧
  wrap w = saved_wrap v ∧ cx w = Z.min (saved v).1 (cols v - 1) ∧ cy w = Z.min (saved v).2 (rows v - 1).
Proof.
  intros Hc Hr. unfold restore_cursor. rewrite (usub_ok (cols v)), bind_done, (usub_ok (rows v)), !bind_done by lia. eexists. split; [reflexivity|]. done.
Qed.
Lemma announced e v : kept (mark_all (note e v)) = kept v ∧ wrap (mark_all (note e v)) = wrap v ∧ cx (mark_all (note e v)) = cx v ∧
  cy (mark_all (note e v)) = cy v.
Proof. unfold note. by destruct (capture_events v). Qed.
Lemma swapped v : kept (set_on_alt false (swap_screens v)) = ((cols v, rows v, pal v, false), (alt_cells v, alt_wrapped v, top_continues v),
    pen_now v, (cursor_visible v, state v, utf_rem v, origin v)) ∧
  saved (set_on_alt false (swap_screens v)) = saved v ∧ saved_wrap (set_on_alt false (swap_screens v)) = saved_wrap v.
Proof. done. Qed.
(** What leaving gives back. *)
Lemma alt_leave v : 1 ≤ cols v → 1 ≤ rows v → on_alt v = true → ∃ w, alt_screen false v = Done w ∧
  kept w = ((cols v, rows v, pal v, false), (alt_cells v, alt_wrapped v, top_continues v), pen_now v, (cursor_visible v, state v, utf_rem v, origin v)) ∧
  wrap w = saved_wrap v ∧ cx w = Z.min (saved v).1 (cols v - 1) ∧ cy w = Z.min (saved v).2 (rows v - 1).
Proof.
  intros Hc Hr Ea. unfold alt_screen. rewrite Ea. cbn [eqb].
  destruct (swapped v) as (K & S & SW). rewrite <-S, <-SW, <-K. assert (cols (set_on_alt false (swap_screens v)) = cols v) as Ec by done.
  assert (rows (set_on_alt false (swap_screens v)) = rows v) as Er by done. revert Ec Er. generalize (set_on_alt false (swap_screens v)).
  intros v1 Ec Er. cbv zeta. destruct (restored v1) as (w & Ew & Kw & Ww & Xw & Yw); [lia|lia|]. rewrite Ew, bind_done.
  eexists. split; [reflexivity|]. set (e := AltLeave _ _ _ _). destruct (announced e w) as (-> & -> & -> & ->). rewrite Kw, Ww, Xw, Yw, Ec, Er. done.
Qed.
(** An erase of the whole alternate screen. *)
Lemma clear_alt w : on_alt w = true → 1 ≤ cols w → erase_display 2 w = Done (mark_all (erase_all w)).
Proof.
  intros Ea Hc. unfold erase_display. cbn [Z.ltb Z.compare Pos.compare Pos.compare_cont]. rewrite usub_ok, bind_done by lia. cbv zeta.
  assert (screen_to_history w = Done w) as Eh by (unfold screen_to_history; by rewrite Ea, orb_true_r).
  change (2 <=? 2) with true. cbv iota. rewrite Eh, bind_done. cbn [Z.eqb negb orb]. unfold restart_top. rewrite Ea. cbn [Pos.eqb].
  rewrite bind_done. unfold note_screen_erased. change (on_alt (mark_all (erase_all w))) with (on_alt w). by rewrite Ea, andb_false_r.
Qed.
Lemma cleared w : kept (mark_all (erase_all w)) = (geo w, (replicate (length (cells w)) (erased w), replicate (length (wrapped w)) false, top_continues w),
    pen_now w, (cursor_visible w, state w, utf_rem w, origin w)) ∧ aside (mark_all (erase_all w)) = aside w ∧ wrap (mark_all (erase_all w)) = wrap w.
Proof. done. Qed.

(** A terminal a program may start on: between sequences, no origin mode, on the
    main screen, its background the palette's. *)
Record at_rest (v : Vt) : Prop := mkRest {
  rs_inv : inv v; rs_state : state v = Ground; rs_utf : utf_rem v = 0; rs_origin : origin v = false;
  rs_main : on_alt v = false; rs_bg : bg v = p_bg (pal v)
}.

(** Between sequences. *)
Definition idle (v : Vt) : Prop := inv v ∧ state v = Ground ∧ utf_rem v = 0.
Definition rest (v : Vt) : (list Cell * list bool * bool) * (Z * Z * Z) * (Z * Z) * bool := ((cells v, wrapped v, top_continues v), pen_now v, (cx v, cy v), origin v).

(** The modes a program sets, each on its own. *)
Lemma visible_step v (on : bool) : idle v → ∃ w, bytes ([27; 91; 63] ++ fields [25] ++ [if on then 104 else 108]) v = Done w ∧ idle w ∧
  setting w = setting v ∧ rest w = rest v ∧ wrap w = wrap v ∧ cursor_visible w = on.
Proof.
  intros (Hv & Es & Eu). destruct (mode_run v 25 on Hv Es Eu) as [ps E]; [done|]. set (w0 := in_csi _ _ _ _ _ _ _ _ v) in *.
  change (one_mode on 25 w0) with (Done (set_cursor_visible on w0)) in E. rewrite bind_done in E.
  pose proof (bytes_inv _ _ _ Hv E) as Hw. eexists. split; [exact E|]. split; [by split|]. done.
Qed.
Lemma wrap_step v (on : bool) : idle v → ∃ w, bytes ([27; 91; 63] ++ fields [7] ++ [if on then 104 else 108]) v = Done w ∧ idle w ∧
  setting w = setting v ∧ rest w = rest v ∧ wrap w = on ∧ cursor_visible w = cursor_visible v.
Proof.
  intros (Hv & Es & Eu). destruct (mode_run v 7 on Hv Es Eu) as [ps E]; [done|]. set (w0 := in_csi _ _ _ _ _ _ _ _ v) in *.
  change (one_mode on 7 w0) with (Done (set_wrap on w0)) in E. rewrite bind_done in E.
  pose proof (bytes_inv _ _ _ Hv E) as Hw. eexists. split; [exact E|]. split; [by split|]. done.
Qed.
Lemma grounded w : state (set_state Ground w) = Ground ∧ geo (set_state Ground w) = geo w ∧ aside (set_state Ground w) = aside w ∧
  pen_now (set_state Ground w) = pen_now w ∧ utf_rem (set_state Ground w) = utf_rem w ∧ origin (set_state Ground w) = origin w ∧
  (cells (set_state Ground w), wrapped (set_state Ground w), top_continues (set_state Ground w)) = (cells w, wrapped w, top_continues w) ∧
  wrap (set_state Ground w) = wrap w ∧ cx (set_state Ground w) = cx w ∧ cy (set_state Ground w) = cy w ∧
  cursor_visible (set_state Ground w) = cursor_visible w.
Proof. done. Qed.
Lemma mode_alt on w : one_mode on 1049 w = alt_screen on w.
Proof. reflexivity. Qed.
(** The parser's fields are its own. *)
Lemma csi_kept st ps np cp seen m i bad v : let w := in_csi st ps np cp seen m i bad v in
  cols w = cols v ∧ rows w = rows v ∧ pal w = pal v ∧ cells w = cells v ∧ wrapped w = wrapped v ∧ cx w = cx v ∧ cy w = cy v ∧ wrap w = wrap v ∧
  top_continues w = top_continues v ∧ pen_now w = pen_now v ∧ origin w = origin v ∧ utf_rem w = utf_rem v ∧ on_alt w = on_alt v.
Proof. done. Qed.
Lemma enter_step v : idle v → on_alt v = false → ∃ w, bytes ([27; 91; 63] ++ fields [1049] ++ [104]) v = Done w ∧ idle w ∧
  geo w = (cols v, rows v, pal v, true) ∧ aside w = (cells v, wrapped v, (cx v, cy v), wrap v, top_continues v) ∧ pen_now w = pen_now v ∧ origin w = origin v.
Proof.
  intros (Hv & Es & Eu) Em. destruct (mode_run v 1049 true Hv Es Eu) as [ps E]; [done|].
  rewrite mode_alt in E. destruct (csi_kept Csi ps 1 0 false 63 0 false v) as (K1 & K2 & K3 & K4 & K5 & K6 & K7 & K8 & K9 & K10 & K11 & K12 & K13).
  revert E K1 K2 K3 K4 K5 K6 K7 K8 K9 K10 K11 K12 K13. generalize (in_csi Csi ps 1 0 false 63 0 false v). intros w0 E K1 K2 K3 K4 K5 K6 K7 K8 K9 K10 K11 K12 K13.
  destruct (alt_enter w0) as (w1 & E1 & G1 & A1 & P1 & _ & U1 & O1); [by rewrite K13|].
  rewrite E1, bind_done in E. pose proof (bytes_inv _ _ _ Hv E) as I1. exists (set_state Ground w1). split; [exact E|].
  destruct (grounded w1) as (Q1 & Q2 & Q3 & Q4 & Q5 & Q6 & _). split; [split; [done|]; split; [done|]; rewrite Q5, U1, K12; exact Eu|].
  rewrite Q2, Q3, Q4, Q6. rewrite G1, A1, P1, O1. by rewrite K1, K2, K3, K4, K5, K6, K7, K8, K9.
Qed.
Lemma csi_aside st ps np cp seen m i bad v : let w := in_csi st ps np cp seen m i bad v in
  alt_cells w = alt_cells v ∧ alt_wrapped w = alt_wrapped v ∧ saved w = saved v ∧ saved_wrap w = saved_wrap v ∧ cursor_visible w = cursor_visible v.
Proof. done. Qed.
Lemma leave_step v : idle v → on_alt v = true → ∃ w, bytes ([27; 91; 63] ++ fields [1049] ++ [108]) v = Done w ∧ idle w ∧
  geo w = (cols v, rows v, pal v, false) ∧ (cells w, wrapped w, top_continues w) = (alt_cells v, alt_wrapped v, top_continues v) ∧
  pen_now w = pen_now v ∧ cursor_visible w = cursor_visible v ∧
  wrap w = saved_wrap v ∧ cx w = Z.min (saved v).1 (cols v - 1) ∧ cy w = Z.min (saved v).2 (rows v - 1).
Proof.
  intros (Hv & Es & Eu) Ea. destruct (mode_run v 1049 false Hv Es Eu) as [ps E]; [done|]. rewrite mode_alt in E.
  pose proof (i_cols v Hv) as [Hc _]. pose proof (i_rows v Hv) as [Hr _].
  destruct (csi_kept Csi ps 1 0 false 63 0 false v) as (K1 & K2 & K3 & _ & _ & _ & _ & _ & K9 & K10 & K11 & K12 & K13).
  destruct (csi_aside Csi ps 1 0 false 63 0 false v) as (J1 & J2 & J3 & J4 & J5).
  revert E K1 K2 K3 K9 K10 K11 K12 K13 J1 J2 J3 J4 J5. generalize (in_csi Csi ps 1 0 false 63 0 false v).
  intros w0 E K1 K2 K3 K9 K10 K11 K12 K13 J1 J2 J3 J4 J5.
  destruct (alt_leave w0) as (w1 & E1 & K & W & X & Y); [by rewrite K1|by rewrite K2|by rewrite K13|].
  rewrite E1, bind_done in E. pose proof (bytes_inv _ _ _ Hv E) as I1. exists (set_state Ground w1). split; [exact E|].
  destruct (grounded w1) as (Q1 & Q2 & Q3 & Q4 & Q5 & Q6 & Q7 & Q8 & Q9 & Q10 & Q11). rewrite Q2, Q4, Q7, Q8, Q9, Q10, Q11.
  pose proof (f_equal (λ k, k.1.1.1) K) as Kg. pose proof (f_equal (λ k, k.1.1.2) K) as Kc. pose proof (f_equal (λ k, k.1.2) K) as Kp.
  pose proof (f_equal (λ k, k.2.1.1.1) K) as Kv. pose proof (f_equal (λ k, k.2.1.2) K) as Ku. cbn [kept fst snd] in Kg, Kc, Kp, Kv, Ku.
  split; [split; [done|]; split; [done|]; rewrite Q5, Ku, K12; exact Eu|].
  rewrite Kg, Kc, Kp, Kv, W, X, Y, K1, K2, K3, K9, K10, J1, J2, J3, J4, J5. done.
Qed.

(** The erase and the reset of the pen. *)
Lemma dispatch_ed w : dispatch_plain 74 w = erase_display (param 0 0 w) w.
Proof. reflexivity. Qed.
Lemma clear_step v : idle v → on_alt v = true → ∃ w, bytes ([27; 91] ++ fields [2] ++ [74]) v = Done w ∧ idle w ∧ setting w = setting v ∧
  cells w = replicate (length (cells v)) (erased v) ∧ origin w = origin v ∧ wrap w = wrap v ∧ pen_now w = pen_now v ∧ cursor_visible w = cursor_visible v.
Proof.
  intros (Hv & Es & Eu) Ea. pose proof (i_cols v Hv) as [Hc _].
  destruct (sequence_run v [2] 74 Hv Es Eu) as (ps & L & T & E); [done|by constructor|done|lia|].
  rewrite dispatch_ed, (param_at _ [2] 0 0 2) in E by done.
  destruct (csi_kept Csi ps (zlen [2]) 0 false 0 0 false v) as (K1 & K2 & K3 & K4 & _ & _ & _ & K8 & K9 & K10 & K11 & K12 & K13).
  destruct (csi_aside Csi ps (zlen [2]) 0 false 0 0 false v) as (J1 & J2 & J3 & J4 & J5).
  revert E K1 K2 K3 K4 K8 K9 K10 K11 K12 K13 J1 J2 J3 J4 J5. generalize (in_csi Csi ps (zlen [2]) 0 false 0 0 false v).
  intros w0 E K1 K2 K3 K4 K8 K9 K10 K11 K12 K13 J1 J2 J3 J4 J5.
  rewrite clear_alt, bind_done in E by (congruence || lia). pose proof (bytes_inv _ _ _ Hv E) as I1. exists (set_state Ground (mark_all (erase_all w0))).
  split; [exact E|]. destruct (cleared w0) as (C & A & W). destruct (grounded (mark_all (erase_all w0))) as (Q1 & Q2 & Q3 & Q4 & Q5 & Q6 & Q7 & Q8 & _ & _ & Q11).
  unfold setting. rewrite Q2, Q3, Q4, Q6, Q8, Q11, A, W. pose proof (f_equal fst (f_equal fst Q7)) as Q7c. cbn [fst] in Q7c. rewrite Q7c.
  pose proof (f_equal (λ k, k.1.1.1) C) as Kg. pose proof (f_equal (λ k, k.1.1.2.1.1) C) as Kc. pose proof (f_equal (λ k, k.1.2) C) as Kp.
  pose proof (f_equal (λ k, k.2.1.1.1) C) as Kv. pose proof (f_equal (λ k, k.2.1.2) C) as Ku. pose proof (f_equal (λ k, k.2.2) C) as Ko.
  cbn [kept fst snd] in Kg, Kc, Kp, Kv, Ku, Ko. rewrite Kg, Kc, Kp, Kv, Ko. split; [split; [done|]; split; [done|]; rewrite Q5, Ku, K12; exact Eu|].
  pose proof (f_equal (λ k, k.1.2) K10) as Kb. cbn [pen_now fst snd] in Kb.
  unfold geo, aside, erased. rewrite Kb, K1, K2, K3, K4, K8, K9, K10, K11, K13, J1, J2, J3, J4, J5. done.
Qed.
Lemma reset_step v : idle v → ∃ w, bytes ([27; 91] ++ fields [0] ++ [109]) v = Done w ∧ idle w ∧ setting w = setting v ∧
  pen_now w = (p_fg (pal v), p_bg (pal v), 0) ∧ top_continues w = top_continues v ∧ cursor_visible w = cursor_visible v.
Proof.
  intros (Hv & Es & Eu). destruct (sequence_run v [0] 109 Hv Es Eu) as (ps & L & T & E); [done|by constructor|done|lia|].
  set (w0 := in_csi _ _ _ _ _ _ _ _ v) in *. rewrite dispatch_sgr in E. unfold sgr in E.
  assert (slice (params w0) 0 (nparams w0) = Done [0]) as Esl.
  { change (params w0) with ps. change (nparams w0) with 1. rewrite slice_ok by (unfold MAX_PARAMS in L; lia). rewrite <-T. reflexivity. }
  rewrite Esl, bind_done in E. change (apply (pal w0) [0] _) with (Done (pen_new (pal w0))) in E. rewrite !bind_done in E.
  pose proof (bytes_inv _ _ _ Hv E) as I1. eexists. split; [exact E|]. split; [by split|]. done.
Qed.

(** ** Entering and leaving *)

Lemma empty_shows a w : covers_screen a w → erased w = blank (p_fg (pal w)) (p_bg (pal w)) →
  inv w → cells w = replicate (length (cells w)) (erased w) → shows (Kaua.empty_buffer a) w.
Proof.
  intros Ha He Hv Hc. split; [done|]. pose proof (i_cells w Hv) as Hl. destruct Ha as (_ & _ & A3 & A4). rewrite Hc.
  unfold Kaua.empty_buffer, Kaua.filled, Kaua.area. cbn [Kaua.content]. rewrite A3, A4, <-Hl, Nat2Z.id.
  apply Forall2_replicate. by rewrite He.
Qed.
Lemma enter_run v a : at_rest v → covers_screen a v → cols v ≤ 65535 → rows v ≤ 65535 →
  ∃ t w, Kaua.enter a true = Some t ∧ bytes Kaua.enter_bytes v = Done w ∧ synced t w ∧ Kaua.entered t = true ∧
    shows (Kaua.front t) w ∧ geo w = (cols v, rows v, pal v, true) ∧ aside w = (cells v, wrapped v, (cx v, cy v), wrap v, top_continues v) ∧
    cursor_visible w = false.
Proof.
  intros [Hv Es Eu Eo Em Eb] Ha Bc Br. eexists. unfold Kaua.enter_bytes.
  change Kaua.ENTER_ALT_SCREEN with ([27; 91; 63] ++ fields [1049] ++ [104]). change Kaua.HIDE_CURSOR with ([27; 91; 63] ++ fields [25] ++ [108]).
  change Kaua.DISABLE_AUTOWRAP with ([27; 91; 63] ++ fields [7] ++ [108]). change Kaua.CLEAR_SCREEN with ([27; 91] ++ fields [2] ++ [74]).
  destruct (enter_step v (conj Hv (conj Es Eu)) Em) as (w1 & E1 & I1 & G1 & A1 & P1 & O1).
  destruct (visible_step w1 false I1) as (w2 & E2 & I2 & S2 & R2 & W2 & V2).
  destruct (wrap_step w2 false I2) as (w3 & E3 & I3 & S3 & R3 & W3 & V3).
  assert (geo w3 = geo w1) as G3 by (apply (f_equal fst) in S2, S3; cbn in S2, S3; congruence).
  assert (on_alt w3 = true) as A3 by (rewrite G1 in G3; apply (f_equal snd) in G3; done).
  destruct (clear_step w3 I3 A3) as (w4 & E4 & I4 & S4 & C4 & O4 & W4 & P4 & V4). exists w4. split; [reflexivity|].
  split; [rewrite (feed_app (_ ++ _ ++ [104])), E1, bind_done, (feed_app (_ ++ _ ++ [108])), E2, bind_done, (feed_app (_ ++ _ ++ [108])), E3, bind_done; exact E4|].
  assert (setting w4 = setting w1) as S41 by congruence. assert (geo w4 = (cols v, rows v, pal v, true)) as G4 by (apply (f_equal fst) in S41; cbn in S41; congruence).
  assert (aside w4 = aside w1) as A4 by (apply (f_equal snd) in S41; done).
  assert (pen_now w4 = pen_now v ∧ origin w4 = false) as [P4' O4'].
  { assert (rest w3 = rest w1) as R by congruence. pose proof (f_equal (λ r, r.1.1.2) R) as Rp. pose proof (f_equal snd R) as Ro. cbn [rest fst snd] in Rp, Ro.
    split; [congruence|]. rewrite O4, Ro, O1. exact Eo. }
  pose proof G4 as G4'. unfold geo in G4'. injection G4' as Gc Gr Gp Ga. destruct I4 as (I4 & St4 & U4).
  assert (erased w3 = erased w4) as Ee. { unfold erased. f_equal; [|by injection P4]. apply (f_equal fst) in S4. cbn in S4. unfold geo in S4. by injection S4 as _ _ <- _. }
  assert (shows (Kaua.empty_buffer a) w4) as Sh.
  { apply empty_shows; [unfold covers_screen in *; by rewrite Gc, Gr| |done|rewrite C4, length_replicate; by rewrite Ee].
    unfold erased. f_equal. unfold pen_now in P4'. injection P4' as _ -> _. by rewrite Gp. }
  split; [|split; [done|split; [done|split; [done|split; [congruence|congruence]]]]].
  split; [split; congruence|]. split; [rewrite Gc, Gr; done|]. done.
Qed.

(** The bytes of [leave], on the alternate screen. *)
Lemma leave_run v : ready v → on_alt v = true → ∃ w, bytes (Kaua.restore_screen []) v = Done w ∧ idle w ∧
  geo w = (cols v, rows v, pal v, false) ∧ (cells w, wrapped w, top_continues w) = (alt_cells v, alt_wrapped v, top_continues v) ∧
  pen_now w = (p_fg (pal v), p_bg (pal v), 0) ∧ cursor_visible w = true ∧
  wrap w = saved_wrap v ∧ cx w = Z.min (saved v).1 (cols v - 1) ∧ cy w = Z.min (saved v).2 (rows v - 1).
Proof.
  intros [Hv Es Eu _ _] Ea. unfold Kaua.restore_screen. rewrite app_nil_l.
  change Kaua.RESET_SGR with ([27; 91] ++ fields [0] ++ [109]). change Kaua.ENABLE_AUTOWRAP with ([27; 91; 63] ++ fields [7] ++ [104]).
  change Kaua.SHOW_CURSOR with ([27; 91; 63] ++ fields [25] ++ [104]). change Kaua.LEAVE_ALT_SCREEN with ([27; 91; 63] ++ fields [1049] ++ [108]).
  destruct (reset_step v (conj Hv (conj Es Eu))) as (w1 & E1 & I1 & S1 & P1 & T1 & V1).
  destruct (wrap_step w1 true I1) as (w2 & E2 & I2 & S2 & R2 & W2 & V2).
  destruct (visible_step w2 true I2) as (w3 & E3 & I3 & S3 & R3 & W3 & V3).
  assert (setting w3 = setting v) as S31 by congruence. pose proof S31 as S31'. unfold setting, geo, aside in S31'.
  injection S31' as Gc Gr Gp Ga Ac Aw As1 Asw _.
  destruct (leave_step w3 I3) as (w4 & E4 & I4 & G4 & C4 & P4 & V4 & W4 & X4 & Y4); [congruence|]. exists w4.
  split; [rewrite (feed_app (_ ++ _ ++ [109])), E1, bind_done, (feed_app (_ ++ _ ++ [104])), E2, bind_done, (feed_app (_ ++ _ ++ [104])), E3, bind_done; exact E4|].
  assert (rest w3 = rest w1) as R by congruence. pose proof (f_equal (λ r, r.1.1.2) R) as Rp. pose proof (f_equal (λ r, r.1.1.1.2) R) as Rt. cbn [rest fst snd] in Rp, Rt.
  split; [done|]. split; [congruence|]. split; [rewrite C4; congruence|]. split; [congruence|]. split; [congruence|]. split; [congruence|].
  rewrite X4, Y4, Gc, Gr. split; congruence.
Qed.
End KauaSession.
