(* ===== verification/KauaIn.v ===== *)
(** * The terminal toolkit: input (usr/lib/kaua/src, event.rs, input.rs, query.rs, intake.rs)

    Bytes of the terminal to key events: the parser, the size report, and the
    intake that reads one byte at a time. *)

From S2P Require Import Prelude Digits Utf8 Kaua.
Import Digits Utf8.
Open Scope Z_scope.

Module KauaIn.

(** ** Events *)

Inductive KeyCode :=
  | Char (c : Z) | Enter | KEsc | Backspace | Tab | BackTab | Left | Right | Up | Down | Home | End_
  | PageUp | PageDown | Delete | Insert | F (n : Z).
#[global] Instance KeyCode_eq_dec : EqDecision KeyCode.
Proof. solve_decision. Defined.
Definition NO_MODS : Z := 0.
Definition SHIFT : Z := 1.
Definition ALT : Z := 2.
Definition CTRL : Z := 4.
Record KeyEvent := mkKey { code : KeyCode; mods : Z }.
#[global] Instance KeyEvent_eq_dec : EqDecision KeyEvent.
Proof. solve_decision. Defined.
Definition key (c : KeyCode) : KeyEvent := mkKey c NO_MODS.
Definition key_char (c : Z) : KeyEvent := key (Char c).
Definition is_ctrl (e : KeyEvent) (c : Z) : bool := bool_decide (code e = Char c) && (mods e =? CTRL).
Inductive Event := Key (k : KeyEvent) | Resize (cols rows : Z) | Tick.
#[global] Instance Event_eq_dec : EqDecision Event.
Proof. solve_decision. Defined.

(** ** The parser *)

Definition PARAM_CAP : Z := 24.
Inductive State := Ground | Esc | Csi | Ss3 | Utf8_.
#[global] Instance State_eq_dec : EqDecision State.
Proof. solve_decision. Defined.

(** The buffers are their used parts: [csi\[..csi_len\]] and [utf8\[..utf8_have\]]. *)
Record Parser := mkParser {
  p_state : State; csi : list Z; csi_overflow : bool; utf8 : list Z; utf8_need : Z; p_resize : option (Z * Z)
}.
Definition parser_new : Parser := mkParser Ground [] false [] 0 None.
Definition set_p_state (s : State) (p : Parser) : Parser :=
  mkParser s (csi p) (csi_overflow p) (utf8 p) (utf8_need p) (p_resize p).
Definition set_resize (r : option (Z * Z)) (p : Parser) : Parser :=
  mkParser (p_state p) (csi p) (csi_overflow p) (utf8 p) (utf8_need p) r.
Definition take_resize (p : Parser) : option (Z * Z) * Parser := (p_resize p, set_resize None p).
Definition pending_escape (p : Parser) : bool := bool_decide (p_state p = Esc).
Definition reset_ground (p : Parser) : Parser := mkParser Ground [] false [] 0 (p_resize p).

(** Decimal parameters, saturated at [u16::MAX]; other bytes of a field are skipped. *)
Definition u16_digit (acc : Z) (c : Z) : Z :=
  let n := sat_add 32 (sat_mul 32 acc 10) (c - 48) in if 65535 <? n then 65535 else n.
Fixpoint u16_loop (acc : Z) (saw : bool) (field : list Z) : option Z :=
  match field with
  | [] => if saw then Some acc else None
  | c :: field => if is_ascii_digit c then u16_loop (u16_digit acc c) true field else u16_loop acc saw field
  end.
Definition parse_u16 (field : list Z) : option Z := u16_loop 0 false field.
(** [params.split(|&c| c == b';')] *)
Fixpoint split_semi (s : list Z) : list (list Z) :=
  match s with
  | [] => [[]]
  | c :: s =>
      if c =? 59 then [] :: split_semi s
      else match split_semi s with f :: fs => (c :: f) :: fs | [] => [[c]] end
  end.
Definition parse_two (params : list Z) : option Z * option Z :=
  let fs := split_semi params in
  (fs !! 0%nat ≫= parse_u16, fs !! 1%nat ≫= parse_u16).
Definition decode_mods (n : option Z) : outcome Z :=
  match n with
  | Some v =>
      if 2 <=? v then
        v ← usub v 1;
        let bit k m := if Z.land v k =? 0 then 0 else m in
        Done (Z.lor (Z.lor (bit 1 SHIFT) (bit 2 ALT)) (bit 4 CTRL))
      else Done NO_MODS
  | None => Done NO_MODS
  end.
Definition letter_code (b : Z) : option KeyCode :=
  if b =? 65 then Some Up else if b =? 66 then Some Down else if b =? 67 then Some Right
  else if b =? 68 then Some Left else if b =? 72 then Some Home else if b =? 70 then Some End_ else None.
Definition tilde_code (n : option Z) : option KeyCode :=
  match n with
  | Some n =>
      if (n =? 1) || (n =? 7) then Some Home else if n =? 2 then Some Insert else if n =? 3 then Some Delete
      else if (n =? 4) || (n =? 8) then Some End_ else if n =? 5 then Some PageUp else if n =? 6 then Some PageDown
      else if within 11 15 n then Some (F (n - 10))
      else if within 17 21 n then Some (F (n - 11))
      else if within 23 24 n then Some (F (n - 12))
      else None
  | None => None
  end.
Definition dispatch_csi (params : list Z) (final_byte : Z) : outcome (option KeyEvent) :=
  let '(n1, n2) := parse_two params in
  if final_byte =? 90 then Done (Some (mkKey BackTab SHIFT)) else
  match letter_code final_byte with
  | Some c => m ← decode_mods n2; Done (Some (mkKey c m))
  | None =>
      if final_byte =? 126 then
        match tilde_code n1 with
        | Some c => m ← decode_mods n2; Done (Some (mkKey c m))
        | None => Done None
        end
      else Done None
  end.

Definition ascii_key (b : Z) : option KeyEvent :=
  if (b =? 13) || (b =? 10) then Some (key Enter)
  else if b =? 9 then Some (key Tab)
  else if (b =? 127) || (b =? 8) then Some (key Backspace)
  else if b =? 0 then None
  else if within 1 26 b then Some (mkKey (Char (b - 1 + 97)) CTRL)
  else if (b =? 27) || within 28 31 b then None
  else Some (key_char b).

(** The first character of well-formed UTF-8. *)
Definition first_char (s : list Z) : option Z :=
  match s with
  | [a] => Some a
  | [a; b] => Some ((a - 192) * 64 + (b - 128))
  | [a; b; c] => Some ((a - 224) * 4096 + (b - 128) * 64 + (c - 128))
  | [a; b; c; d] => Some ((a - 240) * 262144 + (b - 128) * 4096 + (c - 128) * 64 + (d - 128))
  | _ => None
  end.

Definition feed_ground (b : Z) (p : Parser) : option KeyEvent * Parser :=
  if b =? 27 then (None, set_p_state Esc p)
  else if b <? 128 then (ascii_key b, p)
  else
    let lead need := (None, mkParser Utf8_ (csi p) (csi_overflow p) [b] need (p_resize p)) in
    if within 192 223 b then lead 2
    else if within 224 239 b then lead 3
    else if within 240 247 b then lead 4
    else (None, p).
Definition feed_esc (b : Z) (p : Parser) : option KeyEvent * Parser :=
  if b =? 91 then (None, mkParser Csi [] false (utf8 p) (utf8_need p) (p_resize p))
  else if b =? 79 then (None, set_p_state Ss3 p)
  else if b =? 27 then (Some (key KEsc), p)
  else if within 32 126 b then (Some (mkKey (Char b) ALT), set_p_state Ground p)
  else (Some (key KEsc), set_p_state Ground p).
Definition feed_csi (b : Z) (p : Parser) : outcome (option KeyEvent * Parser) :=
  if within 32 63 b then
    Done (None, if zlen (csi p) <? PARAM_CAP
                then mkParser (p_state p) (csi p ++ [b]) (csi_overflow p) (utf8 p) (utf8_need p) (p_resize p)
                else mkParser (p_state p) (csi p) true (utf8 p) (utf8_need p) (p_resize p))
  else if within 64 126 b then
    '(ev, p) ← (if csi_overflow p then Done (None, p)
                else if b =? 82 then
                  Done (None, match parse_two (csi p) with
                              | (Some rows, Some cols) => if (0 <? rows) && (0 <? cols) then set_resize (Some (cols, rows)) p else p
                              | _ => p
                              end)
                else ev ← dispatch_csi (csi p) b; Done (ev, p));
    Done (ev, reset_ground p)
  else if b =? 27 then Done (None, set_p_state Esc (reset_ground p))
  else Done (None, reset_ground p).
Definition ss3_code (b : Z) : option KeyCode :=
  if b =? 65 then Some Up else if b =? 66 then Some Down else if b =? 67 then Some Right
  else if b =? 68 then Some Left else if b =? 72 then Some Home else if b =? 70 then Some End_
  else if within 80 83 b then Some (F (b - 79)) else None.
Definition feed_ss3 (b : Z) (p : Parser) : option KeyEvent * Parser := (key <$> ss3_code b, reset_ground p).
Definition feed_utf8 (b : Z) (p : Parser) : option KeyEvent * Parser :=
  if within 128 191 b then
    let s := utf8 p ++ [b] in
    if zlen s =? utf8_need p
    then ((if valid_utf8 s then key_char <$> first_char s else None), reset_ground p)
    else (None, mkParser (p_state p) (csi p) (csi_overflow p) s (utf8_need p) (p_resize p))
  else feed_ground b (reset_ground p).
(** [utf8_have < utf8_need <= 4] in the state [Utf8]; a write past the scratch would
    panic. *)
Definition parser_feed (b : Z) (p : Parser) : outcome (option KeyEvent * Parser) :=
  match p_state p with
  | Ground => Done (feed_ground b p)
  | Esc => Done (feed_esc b p)
  | Csi => feed_csi b p
  | Ss3 => Done (feed_ss3 b p)
  | Utf8_ => if within 128 191 b && (4 <=? zlen (utf8 p)) then Panic else Done (feed_utf8 b p)
  end.
Definition parser_flush (p : Parser) : option KeyEvent * Parser :=
  match p_state p with
  | Esc => (Some (key KEsc), reset_ground p)
  | _ => (None, p)
  end.

(** ** The size report *)

(** A run of digits at the start: its value, saturated, and what follows. *)
Fixpoint num_loop (n : Z) (seen : bool) (s : list Z) : option (Z * list Z) :=
  match s with
  | c :: s' => if is_ascii_digit c then num_loop (u16_digit n c) true s' else if seen then Some (n, s) else None
  | [] => if seen then Some (n, []) else None
  end.
Definition parse_num (s : list Z) : option (Z * list Z) := num_loop 0 false s.
Definition parse_cpr_body (s : list Z) : option (Z * Z) :=
  '(rows, s) ← parse_num s;
  match s with
  | 59 :: s =>
      '(cols, s) ← parse_num s;
      match s with
      | 82 :: _ => if (rows =? 0) || (cols =? 0) then None else Some (cols, rows)
      | _ => None
      end
  | _ => None
  end.
Fixpoint cpr_from (i : Z) (buf : list Z) : option (Z * Z * Z) :=
  match buf with
  | [] => None
  | a :: rest =>
      match rest with
      | [] => None
      | b :: body =>
          match (if (a =? 27) && (b =? 91) then parse_cpr_body body else None) with
          | Some (cols, rows) => Some (cols, rows, i)
          | None => cpr_from (i + 1) rest
          end
      end
  end.
Definition parse_cpr_at (buf : list Z) : option (Z * Z * Z) := cpr_from 0 buf.
Definition parse_cpr (buf : list Z) : option (Z * Z) := '(cols, rows, _) ← parse_cpr_at buf; Some (cols, rows).

Definition CPR_BUF_CAP : Z := 32.
(** [read_cpr] over the bytes that become readable within its budget: the size and
    what was typed before it, with the bytes left unread. *)
Fixpoint read_cpr_loop (buf input : list Z) : option (Z * Z) * list Z * list Z :=
  match input with
  | [] => (None, buf, [])
  | b :: input =>
      if CPR_BUF_CAP <=? zlen buf then (None, buf, b :: input) else
      let buf := buf ++ [b] in
      match (if b =? 82 then parse_cpr_at buf else None) with
      | Some (cols, rows, esc) => (Some (cols, rows), take (Z.to_nat esc) buf, input)
      | None => read_cpr_loop buf input
      end
  end.
Definition read_cpr (input : list Z) : option (Z * Z) * list Z * list Z := read_cpr_loop [] input.
(** What [terminal_size] writes before it reads, and after; [request_resize_probe]
    writes both. *)
Definition probe_bytes : list Z := Kaua.SAVE_CURSOR ++ Kaua.PARK_CURSOR_FAR ++ Kaua.REQUEST_CURSOR_POS.
Definition resize_probe_bytes : list Z := probe_bytes ++ Kaua.RESTORE_CURSOR.

(** ** The intake *)

Inductive Wait := Caller | Zero | Holdoff.
Definition BURST_MAX : Z := 1024.
Definition QUIET_BYTES_MAX : Z := 4096.
Record Readiness := mkReadiness { readable : bool; hup : bool }.
(** The terminal side: a readiness wait and a one-byte read, of state [T]. *)
Class Fd0 (T E : Type) := {
  fd_ready : Wait → T → T * result E Readiness;
  fd_read_byte : T → T * result E (option Z)
}.
Record Intake := mkIntake { parser : Parser; pending : list Z; eof : bool }.
Definition intake_new (pending : list Z) : Intake := mkIntake parser_new pending false.

Definition intake_feed (b : Z) (k : Intake) : outcome (option Event * Intake) :=
  '(ev, p) ← parser_feed b (parser k);
  let '(r, p) := take_resize p in
  Done (match r with Some (c, r) => Some (Resize c r) | None => Key <$> ev end, mkIntake p (pending k) (eof k)).
Definition intake_flush (k : Intake) : option Event * Intake :=
  let '(ev, p) := parser_flush (parser k) in (Key <$> ev, mkIntake p (pending k) (eof k)).
Definition set_eof (k : Intake) : Intake := mkIntake (parser k) (pending k) true.

(** The type-ahead first. *)
Fixpoint replay (bs : list Z) (k : Intake) : outcome (option Event * Intake) :=
  match bs with
  | [] => Done (None, mkIntake (parser k) [] (eof k))
  | b :: bs =>
      '(e, k) ← intake_feed b (mkIntake (parser k) bs (eof k));
      match e with Some e => Done (Some e, k) | None => replay bs k end
  end.
Section Intake.
Context {T E : Type} `{!Fd0 T E}.

(** The loop; [quiet] bytes may still complete nothing. *)
Fixpoint intake_loop (quiet : nat) (wait : Wait) (fd : T) (k : Intake) : outcome (T * result E (option Event) * Intake) :=
  let '(fd, r) := fd_ready (if pending_escape (parser k) then Holdoff else wait) fd in
  match r with
  | Err e => Done (fd, Err e, k)
  | Ok r =>
      if negb (readable r) then
        let '(e, k) := intake_flush (if hup r then set_eof k else k) in Done (fd, Ok e, k)
      else
      let '(fd, r) := fd_read_byte fd in
      match r with
      | Err e => Done (fd, Err e, k)
      | Ok None => let '(e, k) := intake_flush (set_eof k) in Done (fd, Ok e, k)
      | Ok (Some b) =>
          '(e, k) ← intake_feed b k;
          match e, quiet with
          | Some e, _ => Done (fd, Ok (Some e), k)
          | None, O => Done (fd, Ok None, k)
          | None, S quiet => intake_loop quiet wait fd k
          end
      end
  end.
Definition intake_next (wait : Wait) (fd : T) (k : Intake) : outcome (T * result E (option Event) * Intake) :=
  '(e, k) ← replay (pending k) k;
  match e with
  | Some e => Done (fd, Ok (Some e), k)
  | None => intake_loop (Z.to_nat (QUIET_BYTES_MAX - 1)) wait fd k
  end.

Record Burst := mkBurst { b_intake : Intake; b_fd : T; taken : Z; b_done : bool }.
Definition burst_next (b : Burst) : outcome (result E (option Event) * Burst) :=
  if b_done b || (BURST_MAX <=? taken b) then Done (Ok None, b) else
  '(fd, r, k) ← intake_next (if taken b =? 0 then Caller else Zero) (b_fd b) (b_intake b);
  Done (r, match r with
           | Err _ => mkBurst k fd (taken b) (b_done b)
           | Ok (Some _) => mkBurst k fd (taken b + 1) (b_done b)
           | Ok None => mkBurst k fd (taken b) true
           end).
End Intake.

End KauaIn.
