(* ===== verification/KauaSize.v ===== *)
(** * The terminal toolkit: the size handshake

    The toolkit parks the cursor in the far corner and asks where it is; the
    emulator answers; the toolkit reads its geometry off the answer. *)

From stdpp Require Import strings.
From S2P Require Import Prelude Digits Utf8 VtBase Vt VtInv VtWidth VtTotal VtRows VtSeq Kaua KauaVt KauaFrame KauaSession KauaIn.
Import Digits Utf8 VtBase Vt VtInv VtWidth VtTotal VtRows VtSeq KauaVt KauaFrame KauaSession.
Open Scope Z_scope.

Module KauaSize.

(** ** The emulator's side *)

Definition picture (v : Vt) : (list Cell * list bool * bool) * (Z * Z * Z) := ((cells v, wrapped v, top_continues v), pen_now v).
(** What the steps keep of a terminal without origin mode. *)
Definition still (v w : Vt) : Prop := geo w = geo v ∧ picture w = picture v ∧ origin w = origin v.
Lemma still_trans v w x : still v w → still w x → still v x.
Proof. intros (? & ? & ?) (? & ? & ?). split; [congruence|]. split; congruence. Qed.

Lemma bare_run v f : idle v → 64 ≤ f ≤ 126 → ∃ ps,
  bytes ([27; 91] ++ [f]) v = (w ← dispatch_plain f (in_csi Csi ps 1 0 false 0 0 false v); Done (set_state Ground w)).
Proof.
  intros (Hv & Es & Eu) Hf. rewrite feed_app, csi_start, bind_done by done. cbn [bytes].
  rewrite csi_final by (done || apply Hv || (unfold MAX_PARAMS; lia)). exists (<[Z.to_nat 0 := 0]> (params v)).
  rewrite dispatch_is_plain by done. change (0 + 1) with 1. by destruct (dispatch_plain _ _).
Qed.
Lemma dispatch_save w : dispatch_plain 115 w = Done (set_saved (cx w, cy w) w).
Proof. reflexivity. Qed.
Lemma dispatch_restore w : dispatch_plain 117 w = restore_cursor w.
Proof. reflexivity. Qed.
Lemma dispatch_status w : dispatch_plain 110 w = device_status w.
Proof. reflexivity. Qed.

(** The parser's fields and the final state change nothing of it. *)
Lemma csi_still ps np m v : let w := in_csi Csi ps np 0 false m 0 false v in
  still v w ∧ saved w = saved v ∧ reply w = reply v ∧ cx w = cx v ∧ cy w = cy v ∧ utf_rem w = utf_rem v ∧ cols w = cols v ∧ rows w = rows v ∧ origin w = origin v.
Proof. done. Qed.
Lemma ground_still w : let x := set_state Ground w in
  still w x ∧ saved x = saved w ∧ reply x = reply w ∧ cx x = cx w ∧ cy x = cy w ∧ utf_rem x = utf_rem w ∧ state x = Ground.
Proof. done. Qed.
Lemma moved_still x y v : let w := set_cx x (set_cy y v) in
  still v w ∧ saved w = saved v ∧ reply w = reply v ∧ cx w = x ∧ cy w = y ∧ utf_rem w = utf_rem v.
Proof. done. Qed.
Lemma moved_still' x y v : let w := set_cy y (set_cx x v) in
  still v w ∧ saved w = saved v ∧ reply w = reply v ∧ cx w = x ∧ cy w = y ∧ utf_rem w = utf_rem v.
Proof. done. Qed.
Lemma saved_still s v : let w := set_saved s v in
  still v w ∧ saved w = s ∧ reply w = reply v ∧ cx w = cx v ∧ cy w = cy v ∧ utf_rem w = utf_rem v.
Proof. done. Qed.
Lemma replied_still r v : let w := set_reply r v in
  still v w ∧ saved w = saved v ∧ reply w = r ∧ cx w = cx v ∧ cy w = cy v ∧ utf_rem w = utf_rem v.
Proof. done. Qed.

(** A handler that returned [w], from the parser's state to the terminal's. *)
Lemma finish bs v ps np m w : idle v → let w0 := in_csi Csi ps np 0 false m 0 false v in
  bytes bs v = Done (set_state Ground w) → still w0 w → utf_rem w = utf_rem w0 →
  ∃ x, bytes bs v = Done x ∧ idle x ∧ still v x ∧ saved x = saved w ∧ reply x = reply w ∧ cx x = cx w ∧ cy x = cy w.
Proof.
  intros (Hv & Es & Eu) w0 E Hs Hu. destruct (csi_still ps np m v) as (S0 & _ & _ & _ & _ & U0 & _). fold w0 in S0, U0. revert Hs Hu S0 U0.
  generalize w0. clear w0. intros w0 Hs Hu S0 U0. destruct (ground_still w) as (S1 & V1 & R1 & X1 & Y1 & U1 & St1).
  exists (set_state Ground w). split; [exact E|]. split; [split; [by eapply bytes_inv|]; split; [done|]; congruence|].
  split; [|done]. eapply still_trans; [exact S0|]. eapply still_trans; [exact Hs|exact S1].
Qed.

Lemma save_step v : idle v → ∃ w, bytes ([27; 91] ++ [115]) v = Done w ∧ idle w ∧ still v w ∧ saved w = (cx v, cy v) ∧ reply w = reply v.
Proof.
  intros Hi. destruct (bare_run v 115 Hi) as [ps E]; [lia|]. rewrite dispatch_save, bind_done in E.
  destruct (csi_still ps 1 0 v) as (_ & _ & R0 & X0 & Y0 & _). set (w0 := in_csi Csi ps 1 0 false 0 0 false v) in *.
  destruct (saved_still (cx w0, cy w0) w0) as (S & V & R & X & Y & U).
  destruct (finish _ v ps 1 0 _ Hi E S U) as (x & Ex & Ix & Sx & Vx & Rx & _). exists x. split; [done|]. split; [done|]. split; [done|].
  rewrite Vx, V, Rx, R, X0, Y0. done.
Qed.
Lemma restore_facts v : 1 ≤ cols v → 1 ≤ rows v → ∃ w, restore_cursor v = Done w ∧ still v w ∧ saved w = saved v ∧ reply w = reply v ∧
  cx w = Z.min (saved v).1 (cols v - 1) ∧ cy w = Z.min (saved v).2 (rows v - 1) ∧ utf_rem w = utf_rem v.
Proof.
  intros Hc Hr. unfold restore_cursor. rewrite (usub_ok (cols v)), bind_done, (usub_ok (rows v)), bind_done by lia. eexists. split; [reflexivity|]. apply moved_still'.
Qed.
Lemma restore_step v : idle v → ∃ w, bytes ([27; 91] ++ [117]) v = Done w ∧ idle w ∧ still v w ∧ reply w = reply v ∧
  cx w = Z.min (saved v).1 (cols v - 1) ∧ cy w = Z.min (saved v).2 (rows v - 1).
Proof.
  intros Hi. pose proof Hi as (Hv & _). pose proof (i_cols v Hv) as [Hc _]. pose proof (i_rows v Hv) as [Hr _].
  destruct (bare_run v 117 Hi) as [ps E]; [lia|]. rewrite dispatch_restore in E. destruct (csi_still ps 1 0 v) as (_ & V0 & R0 & _ & _ & _ & C0 & W0 & _).
  destruct (restore_facts (in_csi Csi ps 1 0 false 0 0 false v)) as (w & Ew & S & V & R & X & Y & U); [by rewrite C0|by rewrite W0|].
  rewrite Ew, bind_done in E.
  destruct (finish _ v ps 1 0 w Hi E S U) as (x & Ex & Ix & Sx & Vx & Rx & Xx & Yx). exists x. split; [done|]. split; [done|]. split; [done|].
  rewrite Rx, R, Xx, X, Yx, Y, V0, C0, W0. done.
Qed.
Lemma cup_clamped w a b : origin w = false → 1 ≤ cols w → 1 ≤ rows w → 0 ≤ a → 0 ≤ b → param 0 1 w = a + 1 → param 1 1 w = b + 1 →
  dispatch_plain 72 w = Done (set_cx (Z.min b (cols w - 1)) (set_cy (Z.min a (rows w - 1)) w)).
Proof.
  intros Ho Hc Hr Ha Hb P0 P1. rewrite dispatch_cup. unfold goto_row. rewrite P0, usub_ok, bind_done by lia. unfold origin_row. rewrite Ho.
  rewrite (usub_ok (rows w)), !bind_done by lia. rewrite Z.add_simpl_r. unfold column. set (y := Z.min a _).
  change (param 1 1 (set_cy y w)) with (param 1 1 w). change (cols (set_cy y w)) with (cols w).
  rewrite P1, (usub_ok (b + 1)), bind_done by lia. rewrite (usub_ok (cols w)), bind_done by lia. by rewrite Z.add_simpl_r.
Qed.
Lemma park_step v : idle v → origin v = false → cols v ≤ 9999 → rows v ≤ 9999 →
  ∃ w, bytes ([27; 91] ++ fields [9999; 9999] ++ [72]) v = Done w ∧ idle w ∧ still v w ∧ reply w = reply v ∧ saved w = saved v ∧
    cx w = cols v - 1 ∧ cy w = rows v - 1.
Proof.
  intros Hi Eo Bc Br. pose proof Hi as (Hv & Es & Eu). pose proof (i_cols v Hv) as [Hc _]. pose proof (i_rows v Hv) as [Hr _].
  destruct (sequence_run v [9999; 9999] 72 Hv Es Eu) as (ps & L & T & E); [done|by repeat constructor|done|lia|]. change (zlen [9999; 9999]) with 2 in E.
  destruct (csi_still ps 2 0 v) as (_ & V0 & R0 & _ & _ & _ & C0 & W0 & O0).
  rewrite (cup_clamped _ 9998 9998), bind_done in E; [|by rewrite O0|by rewrite C0|by rewrite W0|lia|lia|by apply (param_at _ [9999; 9999])|by apply (param_at _ [9999; 9999])].
  destruct (moved_still (Z.min 9998 (cols v - 1)) (Z.min 9998 (rows v - 1)) (in_csi Csi ps 2 0 false 0 0 false v)) as (S & V & R & X & Y & U).
  rewrite C0, W0 in E. destruct (finish _ v ps 2 0 _ Hi E S U) as (x & Ex & Ix & Sx & Vx & Rx & Xx & Yx). exists x.
  split; [done|]. split; [done|]. split; [done|]. rewrite Rx, R, Vx, V, Xx, X, Yx, Y. split; [done|]. split; [done|]. lia.
Qed.
(** The answer. *)
Definition report (rows cols : Z) : list Z := [27; 91] ++ digits rows ++ [59] ++ digits cols ++ [82].
Lemma status_facts w : 1 ≤ cols w → 0 ≤ cx w → 0 ≤ cy w → param 0 0 w = 6 →
  device_status w = Done (set_reply (reply w ++ report (cy w + 1) (Z.min (cx w) (cols w - 1) + 1)) w).
Proof.
  intros Hc Hx Hy P. unfold device_status. rewrite P. cbn [Z.eqb Pos.eqb negb]. rewrite (usub_ok (cols w)), bind_done by lia.
  unfold push_dec, report. rewrite !Z.max_l by lia. by rewrite <-!app_assoc.
Qed.
Lemma status_step v : idle v → ∃ w, bytes ([27; 91] ++ fields [6] ++ [110]) v = Done w ∧ idle w ∧ still v w ∧ saved w = saved v ∧
  reply w = reply v ++ report (cy v + 1) (Z.min (cx v) (cols v - 1) + 1).
Proof.
  intros Hi. pose proof Hi as (Hv & Es & Eu). pose proof (i_cols v Hv) as [Hc _]. pose proof (i_cy v Hv). pose proof (i_cx v Hv).
  destruct (sequence_run v [6] 110 Hv Es Eu) as (ps & L & T & E); [done|by repeat constructor|done|lia|]. change (zlen [6]) with 1 in E.
  destruct (csi_still ps 1 0 v) as (_ & V0 & R0 & X0 & Y0 & _ & C0 & _).
  rewrite dispatch_status, status_facts, bind_done in E; [|by rewrite C0|rewrite X0; lia|rewrite Y0; lia|by apply (param_at _ [6])].
  rewrite C0, Y0, X0, R0 in E.
  destruct (replied_still (reply v ++ report (cy v + 1) (Z.min (cx v) (cols v - 1) + 1)) (in_csi Csi ps 1 0 false 0 0 false v)) as (S & V & R & _ & _ & U).
  destruct (finish _ v ps 1 0 _ Hi E S U) as (x & Ex & Ix & Sx & Vx & Rx & _). exists x.
  split; [done|]. split; [done|]. split; [done|]. rewrite Vx, V, Rx, R, V0. done.
Qed.

Lemma probe_run v : idle v → origin v = false → cols v ≤ 9999 → rows v ≤ 9999 →
  ∃ w, bytes KauaIn.resize_probe_bytes v = Done w ∧ idle w ∧ still v w ∧ reply w = reply v ++ report (rows v) (cols v) ∧
    cx w = Z.min (cx v) (cols v - 1) ∧ cy w = cy v.
Proof.
  intros Hi Eo Bc Br. pose proof Hi as (Hv & _). pose proof (i_cy v Hv). pose proof (i_cols v Hv) as [Hc _].
  unfold KauaIn.resize_probe_bytes, KauaIn.probe_bytes. change Kaua.SAVE_CURSOR with ([27; 91] ++ [115]).
  change Kaua.PARK_CURSOR_FAR with ([27; 91] ++ fields [9999; 9999] ++ [72]). change Kaua.REQUEST_CURSOR_POS with ([27; 91] ++ fields [6] ++ [110]).
  change Kaua.RESTORE_CURSOR with ([27; 91] ++ [117]).
  destruct (save_step v Hi) as (w1 & E1 & I1 & S1 & V1 & R1). pose proof S1 as (G1 & _ & O1). unfold geo in G1. injection G1 as Gc Gr _ _.
  destruct (park_step w1 I1) as (w2 & E2 & I2 & S2 & R2 & V2 & X2 & Y2); [congruence|lia|lia|]. pose proof S2 as (G2 & _ & _). unfold geo in G2. injection G2 as Gc2 Gr2 _ _.
  destruct (status_step w2 I2) as (w3 & E3 & I3 & S3 & V3 & R3). pose proof S3 as (G3 & _ & _). unfold geo in G3. injection G3 as Gc3 Gr3 _ _.
  destruct (restore_step w3 I3) as (w4 & E4 & I4 & S4 & R4 & X4 & Y4). exists w4.
  split.
  { rewrite <-app_assoc, (feed_app ([27; 91] ++ [115])), E1, bind_done, <-app_assoc, (feed_app (_ ++ _ ++ [72])), E2, bind_done.
    rewrite (feed_app (_ ++ _ ++ [110])), E3, bind_done. exact E4. }
  split; [done|]. split; [by eapply still_trans; [exact S1|eapply still_trans; [exact S2|eapply still_trans]]|].
  rewrite R4, R3, R2, R1, Y2, X2, X4, Y4, V3, V2, V1, Gc3, Gr3, Gc2, Gr2, Gc, Gr. cbn [fst snd].
  split; [|split; lia]. do 2 f_equal; [lia|]. rewrite Z.min_id. lia.
Qed.
End KauaSize.
