(* ===== verification/KauaInProofs.v ===== *)
(** * The terminal toolkit: what its input decodes to

    The parser returns on every byte within fixed buffers; the intake hands out the
    events of the stream, one at a time, and reads not a byte past each; a size
    report is read back as the size. *)

From S2P Require Import Prelude Digits Utf8 Kaua KauaIn KauaSize.
Import Digits Utf8 KauaSize KauaIn.
Open Scope Z_scope.

Module KauaInProofs.

(** ** The parser returns *)

(** Its buffers are within their bounds. *)
Record bounded (p : Parser) : Prop := mkBounded {
  bd_csi : zlen (csi p) ≤ PARAM_CAP;
  bd_utf8 : p_state p = Utf8_ → 1 ≤ zlen (utf8 p) < utf8_need p ∧ utf8_need p ≤ 4
}.
Lemma bounded_new : bounded parser_new.
Proof. by split. Qed.
Lemma bounded_ground p : bounded (reset_ground p).
Proof. by split. Qed.
Lemma ground_bounded b p : bounded p → p_state p ≠ Utf8_ → bounded (feed_ground b p).2.
Proof.
  intros [H1 H2] Hs. unfold feed_ground. repeat case_match; cbn; split; cbn; (done || lia).
Qed.
Lemma esc_bounded b p : bounded p → p_state p ≠ Utf8_ → bounded (feed_esc b p).2.
Proof. intros [H1 H2] Hs. unfold feed_esc. repeat case_match; cbn; split; cbn; (done || lia). Qed.
Lemma decode_mods_ok n : ∃ m, decode_mods n = Done m.
Proof.
  unfold decode_mods. destruct n as [n|]; [|by eexists]. destruct (Z.leb_spec 2 n); [|by eexists]. rewrite usub_ok by lia. by eexists.
Qed.
Lemma dispatch_ok params b : ∃ ev, dispatch_csi params b = Done ev.
Proof.
  unfold dispatch_csi. destruct (parse_two params) as [n1 n2]. destruct (decode_mods_ok n2) as [m ->]. repeat case_match; by eexists.
Qed.
Lemma csi_bounded b p : bounded p → p_state p = Csi → ∃ ev q, feed_csi b p = Done (ev, q) ∧ bounded q.
Proof.
  intros [H1 H2] Hs. unfold feed_csi. destruct (within 32 63 b).
  { eexists _, _. split; [done|]. destruct (Z.ltb_spec (zlen (csi p)) PARAM_CAP); split; cbn; rewrite ?length_app, ?Hs; cbn; (done || lia). }
  destruct (within 64 126 b).
  { destruct (dispatch_ok (csi p) b) as [ev ->]. destruct (csi_overflow p); [by eexists _, _|]. destruct (b =? 82); by eexists _, _. }
  destruct (b =? 27); by eexists _, _.
Qed.
Lemma utf8_bounded b p : bounded p → p_state p = Utf8_ → bounded (feed_utf8 b p).2.
Proof.
  intros [H1 H2] Hs. specialize (H2 Hs). unfold feed_utf8. destruct (within 128 191 b); [|by apply ground_bounded; [apply bounded_ground|]].
  destruct (Z.eqb_spec (zlen (utf8 p ++ [b])) (utf8_need p)) as [|Hne]; [apply bounded_ground|]. split; cbn; [done|]. rewrite length_app in *. cbn in *. lia.
Qed.
Lemma key_feed_ok b p : bounded p → ∃ ev q, parser_feed b p = Done (ev, q) ∧ bounded q.
Proof.
  intros Hp. unfold parser_feed. destruct (p_state p) eqn:Es.
  - pose proof (ground_bounded b p Hp ltac:(congruence)). destruct (feed_ground b p) as [ev q]. by eexists _, _.
  - pose proof (esc_bounded b p Hp ltac:(congruence)). destruct (feed_esc b p) as [ev q]. by eexists _, _.
  - by apply csi_bounded.
  - eexists _, _. split; [done|]. apply bounded_ground.
  - pose proof (bd_utf8 p Hp Es). rewrite (proj2 (Z.leb_gt 4 (zlen (utf8 p)))), andb_false_r by lia.
    pose proof (utf8_bounded b p Hp Es). destruct (feed_utf8 b p) as [ev q]. by eexists _, _.
Qed.

(** ** Events of a stream *)

(** A byte: the event it completes, if any. *)
Definition event_at (b : Z) (p : Parser) : outcome (option Event * Parser) :=
  '(ev, p) ← parser_feed b p;
  let '(r, p) := take_resize p in
  Done (match r with Some (c, r) => Some (Resize c r) | None => Key <$> ev end, p).
Fixpoint decode (bs : list Z) (p : Parser) : outcome (list Event * Parser) :=
  match bs with
  | [] => Done ([], p)
  | b :: bs =>
      '(e, p) ← event_at b p;
      '(es, p) ← decode bs p;
      Done (match e with Some e => e :: es | None => es end, p)
  end.
Lemma intake_feed_eq b k : intake_feed b k = ('(e, p) ← event_at b (parser k); Done (e, mkIntake p (pending k) (eof k))).
Proof. unfold intake_feed, event_at. destruct (parser_feed b (parser k)) as [[ev p]| |]; done. Qed.
Lemma event_ok b p : bounded p → ∃ e q, event_at b p = Done (e, q) ∧ bounded q.
Proof.
  intros Hp. unfold event_at. destruct (key_feed_ok b p Hp) as (ev & q & -> & [H1 H2]). eexists _, _. split; [done|]. by split.
Qed.
Lemma decode_ok bs : ∀ p, bounded p → ∃ es q, decode bs p = Done (es, q) ∧ bounded q.
Proof.
  induction bs as [|b bs IH]; intros p Hp; cbn [decode]; [by exists [], p|]. destruct (event_ok b p Hp) as (e & q & -> & Hq). rewrite bind_done.
  destruct (IH q Hq) as (es & r & -> & Hr). by eexists _, _.
Qed.
Lemma decode_app a b p : decode (a ++ b) p = ('(es, q) ← decode a p; '(es', r) ← decode b q; Done (es ++ es', r)).
Proof.
  revert p. induction a as [|x a IH]; intros p; cbn [app decode].
  { rewrite bind_done. cbv beta iota. destruct (decode b p) as [[es q]| |]; done. }
  destruct (event_at x p) as [[e q]| |]; [|done..]. rewrite !bind_done. cbv beta iota. rewrite IH. destruct (decode a q) as [[es r]| |]; [|done..].
  rewrite !bind_done. cbv beta iota. destruct (decode b r) as [[es' s]| |]; [|done..]. rewrite !bind_done. by destruct e.
Qed.

(** Bytes that complete nothing. *)
Definition quiet (bs : list Z) (p q : Parser) : Prop := decode bs p = Done ([], q).
Lemma quiet_nil p : quiet [] p p.
Proof. done. Qed.
Lemma quiet_cons b bs p q r : event_at b p = Done (None, q) → quiet bs q r → quiet (b :: bs) p r.
Proof. unfold quiet. intros E H. cbn [decode]. by rewrite E, bind_done, H. Qed.
Lemma quiet_app a b p q r : quiet a p q → quiet b q r → quiet (a ++ b) p r.
Proof. unfold quiet. intros Ha Hb. rewrite decode_app, Ha, bind_done. cbv beta iota. by rewrite Hb. Qed.

(** ** The intake *)

(** What a parser that gets no more bytes resolves to: a lone escape byte is the Escape
    key; anything half collected stays. *)
Definition resolved (p : Parser) : option Event * Parser :=
  match p_state p with Esc => (Some (Key (key KEsc)), reset_ground p) | _ => (None, p) end.
Lemma flush_resolved k : intake_flush k = ((resolved (parser k)).1, mkIntake (resolved (parser k)).2 (pending k) (eof k)).
Proof. unfold intake_flush, parser_flush, resolved. by destruct (p_state (parser k)). Qed.
Lemma resolved_bounded p : bounded p → bounded (resolved p).2.
Proof. unfold resolved. intros Hp. destruct (p_state p); (done || apply bounded_ground). Qed.

Lemma replay_took bs : ∀ k, bounded (parser k) → ∃ e k' used, replay bs k = Done (e, k') ∧ bounded (parser k') ∧ bs = used ++ pending k' ∧ eof k' = eof k ∧
  match e with
  | Some e => ∃ bs b q, used = bs ++ [b] ∧ quiet bs (parser k) q ∧ event_at b q = Done (Some e, parser k')
  | None => quiet used (parser k) (parser k') ∧ pending k' = []
  end.
Proof.
  induction bs as [|b bs IH]; intros k Hk; cbn [replay]; [by eexists _, _, []|].
  rewrite intake_feed_eq. cbn [parser pending eof]. destruct (event_ok b (parser k) Hk) as (e & q & E & Hq). rewrite E, !bind_done. cbv beta iota.
  rewrite ?bind_done. cbv beta iota. destruct e as [e|].
  - eexists _, _, [b]. do 4 (split; [done|]). by exists [], b, (parser k).
  - destruct (IH (mkIntake q bs (eof k)) Hq) as (e & k' & used & -> & Hk' & -> & Hf & Ht). exists e, k', (b :: used). do 4 (split; [done|]).
    destruct e as [e|]; [|by destruct Ht; split; [eapply quiet_cons|]].
    destruct Ht as (bs & b' & q' & -> & Hq' & He). exists (b :: bs), b', q'. split; [done|]. split; [by eapply quiet_cons|done].
Qed.

(** ** The terminal's side of a call

    Nothing is assumed of the terminal: what a call did is told by the waits and the
    reads it made, of which each may fail, find nothing, or find the end of the file. *)
Section Calls.
Context {T E : Type} `{!Fd0 T E} (wait : Wait).

(** The wait a parser is due: the hold-off while it holds a lone escape byte. *)
Definition due (p : Parser) : Wait := match p_state p with Esc => Holdoff | _ => wait end.
(** The bytes read, one by one, each by one wait that found the terminal readable and one
    read; [p] is the parser before the first. *)
Inductive pulled : T → Parser → list Z → T → Prop :=
  | pulled_nil t p : pulled t p [] t
  | pulled_cons t p r t1 b t2 e q bs t3 : fd_ready (E := E) (due p) t = (t1, Ok r) → readable r = true → fd_read_byte (E := E) t1 = (t2, Ok (Some b)) →
      event_at b p = Done (e, q) → pulled t2 q bs t3 → pulled t p (b :: bs) t3.
(** The calls that end the reading without a byte. *)
Inductive Ending := Nothing (hung_up : bool) | EndOfFile | Failed (e : E).
Inductive ends (p : Parser) (t : T) : Ending → T → Prop :=
  | ends_nothing r t' : fd_ready (E := E) (due p) t = (t', Ok r) → readable r = false → ends p t (Nothing (hup r)) t'
  | ends_file r t1 t' : fd_ready (E := E) (due p) t = (t1, Ok r) → readable r = true → fd_read_byte (E := E) t1 = (t', Ok None) → ends p t EndOfFile t'
  | ends_wait e t' : fd_ready (E := E) (due p) t = (t', Err e) → ends p t (Failed e) t'
  | ends_read r t1 e t' : fd_ready (E := E) (due p) t = (t1, Ok r) → readable r = true → fd_read_byte (E := E) t1 = (t', Err e) → ends p t (Failed e) t'.
(** How a call ended that fed [used] to the parser [p], the last [n] bytes of it from the
    terminal at [t], by then at [t1]: with the event its last byte completes; with
    nothing, [limit] bytes of the terminal having completed nothing; or with the reading
    ended, an escape byte held resolved and the end of the file recorded, or the error
    handed on with the parser as the bytes left it. *)
Inductive concluded (limit : Z) (p : Parser) (was_eof : bool) (used : list Z) (n : Z) (t1 : T) : T → result E (option Event) → Parser → bool → Prop :=
  | by_event bs b q e p' : used = bs ++ [b] → quiet bs p q → event_at b q = Done (Some e, p') → n ≤ limit → concluded limit p was_eof used n t1 t1 (Ok (Some e)) p' was_eof
  | by_limit p' : quiet used p p' → n = limit → concluded limit p was_eof used n t1 t1 (Ok None) p' was_eof
  | by_ending q how t' : quiet used p q → n < limit → ends q t1 how t' →
      concluded limit p was_eof used n t1 t' (match how with Failed e => Err e | _ => Ok (resolved q).1 end)
        (match how with Failed _ => q | _ => (resolved q).2 end)
        (match how with Nothing h => h || was_eof | EndOfFile => true | Failed _ => was_eof end).

Lemma due_eq p : (if pending_escape p then Holdoff else wait) = due p.
Proof. unfold pending_escape, due. by destruct (p_state p). Qed.
Lemma concluded_after limit p q fl a bs n m t1 t' r p' fl' : quiet a p q → 0 ≤ m →
  concluded (limit - m) q fl bs n t1 t' r p' fl' → concluded limit p fl (a ++ bs) (m + n) t1 t' r p' fl'.
Proof.
  intros Ha Hm [bs' b' q' e' p'' -> Hq He Hl|p'' Hq Hl|q' how t'' Hq Hl He].
  - apply (by_event _ _ _ _ _ _ (a ++ bs') b' q'); [by rewrite app_assoc|by eapply quiet_app|done|lia].
  - apply by_limit; [by eapply quiet_app|lia].
  - apply by_ending; [by eapply quiet_app|lia|done].
Qed.
Lemma loop_concludes n : ∀ fd k, bounded (parser k) → ∃ fd1 fd' r k' read, intake_loop (E := E) n wait fd k = Done (fd', r, k') ∧ bounded (parser k') ∧
  pending k' = pending k ∧ pulled fd (parser k) read fd1 ∧ concluded (Z.of_nat n + 1) (parser k) (eof k) read (zlen read) fd1 fd' r (parser k') (eof k').
Proof.
  induction n as [|n IH]; intros fd k Hk; cbn [intake_loop]; rewrite due_eq; destruct (fd_ready (due (parser k)) fd) as [fd1 [r|er]] eqn:Er.
  2, 4: exists fd, fd1, (Err er), k, []; do 3 (split; [done|]); (split; [constructor|]); apply (by_ending _ _ _ _ _ _ _ (Failed er)); [apply quiet_nil|cbn; lia|by constructor].
  all: destruct (readable r) eqn:Ern; cbn [negb].
  2, 4: rewrite flush_resolved; set (k1 := if hup r then set_eof k else k); assert (parser k1 = parser k ∧ pending k1 = pending k ∧ eof k1 = hup r || eof k) as (P1 & Q1 & F1) by (subst k1; by destruct (hup r));
    rewrite P1, Q1, F1; eexists fd, fd1, _, _, []; (split; [done|]); (split; [by apply resolved_bounded|]); (split; [done|]); (split; [constructor|]);
    apply (by_ending _ _ _ _ _ _ _ (Nothing (hup r))); [apply quiet_nil|cbn; lia|by constructor].
  all: destruct (fd_read_byte fd1) as [fd2 [[b|]|er]] eqn:Eb.
  2, 5: rewrite flush_resolved; eexists fd, fd2, _, _, []; (split; [done|]); (split; [by apply resolved_bounded|]); (split; [done|]); (split; [constructor|]);
    apply (by_ending _ _ _ _ _ _ _ EndOfFile); [apply quiet_nil|cbn; lia|by econstructor].
  2, 4: exists fd, fd2, (Err er), k, []; do 3 (split; [done|]); (split; [constructor|]); apply (by_ending _ _ _ _ _ _ _ (Failed er)); [apply quiet_nil|cbn; lia|by eapply ends_read].
  all: rewrite intake_feed_eq; destruct (event_ok b (parser k) Hk) as (e & q & Ee & Hq); rewrite Ee, !bind_done; cbv beta iota; rewrite ?bind_done; cbv beta iota; destruct e as [e|].
  1, 3: eexists fd2, _, _, _, [b]; do 3 (split; [done|]); (split; [by econstructor; [..|constructor]|]); apply (by_event _ _ _ [b] _ _ [] b (parser k)); [done|apply quiet_nil|done|cbn; lia].
  - eexists fd2, _, _, _, [b]. do 3 (split; [done|]). split; [by econstructor; [..|constructor]|]. by apply by_limit; [eapply quiet_cons|].
  - destruct (IH fd2 (mkIntake q (pending k) (eof k)) Hq) as (fd3 & fd' & r' & k' & read & -> & Hk' & Hp & Hl & Ht). exists fd3, fd', r', k', (b :: read).
    do 3 (split; [done|]). split; [by econstructor|]. replace (zlen (b :: read)) with (1 + zlen read) by (cbn [length]; lia).
    apply (concluded_after _ _ q _ [b]); [by eapply quiet_cons|lia|]. by replace (Z.of_nat (S n) + 1 - 1) with (Z.of_nat n + 1) by lia.
Qed.
Lemma next_concludes fd k : bounded (parser k) → ∃ typed p1 read fd1 fd' r k', intake_next (E := E) wait fd k = Done (fd', r, k') ∧ bounded (parser k') ∧
  pending k = typed ++ pending k' ∧ (∃ es, decode typed (parser k) = Done (es, p1)) ∧ pulled fd p1 read fd1 ∧
  concluded QUIET_BYTES_MAX (parser k) (eof k) (typed ++ read) (zlen read) fd1 fd' r (parser k') (eof k') ∧
  (pending k' ≠ [] → read = [] ∧ fd' = fd ∧ ∃ e, decode typed (parser k) = Done ([e], parser k') ∧ r = Ok (Some e)).
Proof.
  intros Hk. unfold intake_next. destruct (replay_took (pending k) k Hk) as (e & k1 & u1 & -> & Hk1 & Hu & Hf & Ht). rewrite bind_done. cbv beta iota. destruct e as [e|].
  - destruct Ht as (bs & b & q & Eu & Hq & He). assert (decode u1 (parser k) = Done ([e], parser k1)) as Hd.
    { rewrite Eu, decode_app, Hq, bind_done. cbv beta iota. cbn [decode]. by rewrite He. }
    exists u1, (parser k1), [], fd, fd, (Ok (Some e)), k1. do 3 (split; [done|]). split; [by exists [e]|]. split; [constructor|]. rewrite Hf, app_nil_r.
    split; [|by eauto 6]. by apply (by_event _ _ _ u1 _ _ bs b q).
  - destruct Ht as [Hq Hn]. rewrite Hn, app_nil_r in Hu.
    destruct (loop_concludes (Z.to_nat (QUIET_BYTES_MAX - 1)) fd k1 Hk1) as (fd1 & fd' & r & k' & read & -> & Hk' & Hp & Hl & Ht2).
    exists u1, (parser k1), read, fd1, fd', r, k'. do 2 (split; [done|]). rewrite Hp, Hn, app_nil_r. split; [done|]. split; [by exists []|]. split; [done|]. split; [|done].
    rewrite Z2Nat.id, Hf in Ht2 by (unfold QUIET_BYTES_MAX; lia). apply (concluded_after _ _ (parser k1) _ _ _ _ 0); [exact Hq|done|exact Ht2].
Qed.
End Calls.

(** ** Reading numbers back *)

Lemma value_scaled ds : ∀ n, all_digits ds → 0 ≤ n → n * 10 ^ zlen ds ≤ value n ds.
Proof.
  induction ds as [|d ds IH]; intros n Hd Hn; [cbn; lia|]. apply Forall_cons in Hd as [Hb%digit_range Hd]. change (value n (d :: ds)) with (value (n * 10 + (d - 48)) ds).
  pose proof (IH (n * 10 + (d - 48)) Hd ltac:(lia)). cbn [length]. rewrite Nat2Z.inj_succ, Z.pow_succ_r by lia.
  pose proof (Z.pow_nonneg 10 (zlen ds) ltac:(lia)). nia.
Qed.
(** As many digits as the number has. *)
Lemma digits_short n k : 0 ≤ n < 10 ^ k → 1 ≤ k → zlen (digits n) ≤ k.
Proof.
  intros Hn Hk. destruct (digits_ok n) as (Hd & Hne & Hv & _ & Hz & H0); [lia|]. destruct (Z.eq_dec n 0) as [->|Hn0]; [rewrite H0 by done; cbn; lia|].
  specialize (Hz Hn0). destruct (digits n) as [|d ds]; [done|]. apply Forall_cons in Hd as [Hb%digit_range Hd]. cbn [head] in Hz.
  assert (d ≠ 48) by congruence. unfold value in Hv. cbn [fold_left] in Hv. fold (value (0 * 10 + (d - 48)) ds) in Hv.
  pose proof (value_scaled ds (0 * 10 + (d - 48)) Hd ltac:(lia)). pose proof (Z.pow_pos_nonneg 10 (zlen ds) ltac:(lia) ltac:(lia)).
  assert (10 ^ zlen ds < 10 ^ k) as Hp by nia. apply Z.pow_lt_mono_r_iff in Hp; [|lia..]. cbn [length]. lia.
Qed.

Lemma u16_digit_fits acc c : 48 ≤ c ≤ 57 → 0 ≤ acc → acc * 10 + (c - 48) ≤ 65535 → u16_digit acc c = acc * 10 + (c - 48).
Proof.
  intros Hc Ha Hs. unfold u16_digit, sat_add, sat_mul. change (u_max 32) with 4294967295. rewrite !Z.min_l by lia. by rewrite (proj2 (Z.ltb_ge _ _)) by lia.
Qed.
Lemma u16_loop_value ds : ∀ acc saw, all_digits ds → 0 ≤ acc → value acc ds ≤ 65535 → ds ≠ [] ∨ saw = true → u16_loop acc saw ds = Some (value acc ds).
Proof.
  induction ds as [|d ds IH]; intros acc saw Hd Ha Hv Hs; cbn [u16_loop]; [by destruct Hs as [? | ->]|].
  apply Forall_cons in Hd as [Hb Hd]. rewrite Hb. apply digit_range in Hb. change (value acc (d :: ds)) with (value (acc * 10 + (d - 48)) ds) in *.
  pose proof (value_grows ds (acc * 10 + (d - 48)) Hd ltac:(lia)). rewrite u16_digit_fits by lia. apply IH; [done|lia|done|by right].
Qed.
Lemma num_loop_value ds r : ∀ acc saw, all_digits ds → 0 ≤ acc → value acc ds ≤ 65535 → ds ≠ [] ∨ saw = true →
  match r with [] => True | c :: _ => is_ascii_digit c = false end → num_loop acc saw (ds ++ r) = Some (value acc ds, r).
Proof.
  induction ds as [|d ds IH]; intros acc saw Hd Ha Hv Hs Hr; cbn [num_loop app].
  { destruct Hs as [? | ->]; [done|]. destruct r as [|c r]; cbn [num_loop]; [done|]. by rewrite Hr. }
  apply Forall_cons in Hd as [Hb Hd]. rewrite Hb. apply digit_range in Hb. change (value acc (d :: ds)) with (value (acc * 10 + (d - 48)) ds) in *.
  pose proof (value_grows ds (acc * 10 + (d - 48)) Hd ltac:(lia)). rewrite u16_digit_fits by lia. apply IH; [done|lia|done|by right|done].
Qed.
Lemma parse_u16_digits n : 0 ≤ n ≤ 65535 → parse_u16 (digits n) = Some n.
Proof.
  intros Hn. destruct (digits_ok n) as (Hd & Hne & Hv & _); [lia|]. unfold parse_u16. rewrite u16_loop_value; [by rewrite Hv|done|lia|lia|by left].
Qed.
Lemma parse_num_digits n c r : 0 ≤ n ≤ 65535 → is_ascii_digit c = false → parse_num (digits n ++ c :: r) = Some (n, c :: r).
Proof.
  intros Hn Hc. destruct (digits_ok n) as (Hd & Hne & Hv & _); [lia|]. unfold parse_num. rewrite num_loop_value; [by rewrite Hv|done|lia|lia|by left|done].
Qed.
Lemma split_semi_plain s : Forall (λ c, c ≠ 59) s → split_semi s = [s].
Proof. induction 1 as [|c s Hc _ IH]; [done|]. cbn [split_semi]. by rewrite (proj2 (Z.eqb_neq _ _) Hc), IH. Qed.
Lemma split_semi_two a b : Forall (λ c, c ≠ 59) a → Forall (λ c, c ≠ 59) b → split_semi (a ++ 59 :: b) = [a; b].
Proof.
  intros Ha Hb. induction Ha as [|c a Hc _ IH]; cbn [app split_semi]; [by rewrite split_semi_plain|]. by rewrite (proj2 (Z.eqb_neq _ _) Hc), IH.
Qed.
Lemma digits_no_semi n : 0 ≤ n → Forall (λ c, c ≠ 59) (digits n).
Proof. intros Hn. destruct (digits_ok n Hn) as (Hd & _). eapply Forall_impl; [exact Hd|]. intros c Hc%digit_range. lia. Qed.
Lemma parse_two_digits a b : 0 ≤ a ≤ 65535 → 0 ≤ b ≤ 65535 → parse_two (digits a ++ 59 :: digits b) = (Some a, Some b).
Proof.
  intros Ha Hb. unfold parse_two. rewrite split_semi_two by (apply digits_no_semi; lia). cbn [lookup list_lookup mbind option_bind]. by rewrite !parse_u16_digits by lia.
Qed.

(** ** The report, to the parser *)

Definition in_params (cs : list Z) (p : Parser) : Parser := mkParser Csi cs false (utf8 p) (utf8_need p) None.
Lemma params_quiet ds : ∀ cs p, Forall (λ c, within 32 63 c = true) ds → zlen cs + zlen ds ≤ PARAM_CAP → quiet ds (in_params cs p) (in_params (cs ++ ds) p).
Proof.
  induction ds as [|d ds IH]; intros cs p Hd Hl; [rewrite app_nil_r; apply quiet_nil|]. apply Forall_cons in Hd as [Hb Hd]. cbn [length] in Hl.
  eapply (quiet_cons d ds _ (in_params (cs ++ [d]) p)).
  - unfold event_at, parser_feed. cbn [p_state in_params]. unfold feed_csi. rewrite Hb. cbn [csi in_params].
    by rewrite (proj2 (Z.ltb_lt _ _)) by lia.
  - replace (cs ++ d :: ds) with ((cs ++ [d]) ++ ds) by by rewrite <-app_assoc. apply IH; [done|]. rewrite length_app. cbn [length]. lia.
Qed.
Lemma digits_params n : 0 ≤ n → Forall (λ c, within 32 63 c = true) (digits n).
Proof.
  intros Hn. destruct (digits_ok n Hn) as (Hd & _). eapply Forall_impl; [exact Hd|]. intros c Hc%digit_range. unfold within.
  by rewrite !(proj2 (Z.leb_le _ _)) by lia.
Qed.
Lemma report_decoded rows cols p : p_state p = Ground → p_resize p = None → 1 ≤ rows ≤ 65535 → 1 ≤ cols ≤ 65535 →
  decode (report rows cols) p = Done ([Resize cols rows], reset_ground p).
Proof.
  destruct p as [st cs ov u8 un rz]. cbn [p_state p_resize]. intros -> -> Hr Hc. unfold report. set (p := mkParser Ground cs ov u8 un None).
  assert (quiet [27; 91] p (in_params [] p)) as Q1.
  { by apply (quiet_cons _ _ _ (set_p_state Esc p)); [|eapply quiet_cons; [|apply quiet_nil]]. }
  pose proof (digits_short rows 5 ltac:(lia) ltac:(lia)). pose proof (digits_short cols 5 ltac:(lia) ltac:(lia)).
  pose proof (params_quiet (digits rows ++ [59] ++ digits cols) [] p) as Q2.
  rewrite (app_assoc (digits rows)), (app_assoc _ (digits cols)), decode_app, Q1, bind_done. cbv beta iota. rewrite decode_app, <-(app_assoc _ [59]), Q2, bind_done.
  2: { apply Forall_app; split; [apply digits_params; lia|]. apply Forall_cons; split; [done|apply digits_params; lia]. }
  2: { unfold PARAM_CAP. rewrite !length_app. cbn [length]. lia. }
  cbv beta iota. cbn [app decode]. unfold event_at, parser_feed. cbn [p_state in_params]. unfold feed_csi. cbn [csi in_params csi_overflow within Z.leb Z.compare Pos.compare Pos.compare_cont andb Z.eqb Pos.eqb].
  rewrite parse_two_digits by lia. rewrite !(proj2 (Z.ltb_lt _ _)) by lia. done.
Qed.
(** ** The report, to the startup probe *)

Lemma cpr_body_report rows cols r : 1 ≤ rows ≤ 65535 → 1 ≤ cols ≤ 65535 →
  parse_cpr_body (digits rows ++ 59 :: digits cols ++ 82 :: r) = Some (cols, rows).
Proof.
  intros Hr Hc. unfold parse_cpr_body. rewrite parse_num_digits by (done || lia). cbn [mbind option_bind]. rewrite parse_num_digits by (done || lia).
  cbn [mbind option_bind]. by rewrite !(proj2 (Z.eqb_neq _ _)) by lia.
Qed.
Lemma cpr_from_none bs : ∀ i, Forall (λ b, b ≠ 27) bs → cpr_from i bs = None.
Proof.
  induction bs as [|a bs IH]; intros i H; [done|]. apply Forall_cons in H as [Ha H]. specialize (IH (i + 1) H). cbn [cpr_from].
  destruct bs; [done|]. by rewrite (proj2 (Z.eqb_neq _ _) Ha).
Qed.
Lemma cpr_from_at typed bs : bs ≠ [] → Forall (λ b, b ≠ 27) typed → ∀ i, cpr_from i (typed ++ bs) = cpr_from (i + zlen typed) bs.
Proof.
  intros Hbs. induction 1 as [|a typed Ha _ IH]; intros i; [cbn; by rewrite Z.add_0_r|]. cbn [app cpr_from]. specialize (IH (i + 1)).
  destruct (typed ++ bs) as [|b l] eqn:E; [by destruct (app_nil typed bs) as [[-> ->] _]|]. rewrite (proj2 (Z.eqb_neq _ _) Ha). cbn [andb].
  rewrite IH. f_equal. cbn [length]. lia.
Qed.
Lemma cpr_at_report typed rows cols : Forall (λ b, b ≠ 27) typed → 1 ≤ rows ≤ 65535 → 1 ≤ cols ≤ 65535 →
  parse_cpr_at (typed ++ report rows cols) = Some (cols, rows, zlen typed).
Proof.
  intros Ht Hr Hc. unfold parse_cpr_at. rewrite cpr_from_at by done. unfold report. cbn [app]. cbn [cpr_from Z.eqb Pos.eqb andb].
  by rewrite cpr_body_report.
Qed.
(** Bytes that end no report are kept. *)
Lemma read_skips bs : ∀ buf rest, zlen buf + zlen bs ≤ CPR_BUF_CAP → Forall (λ b, b ≠ 82) bs ∨ Forall (λ b, b ≠ 27) (buf ++ bs) →
  read_cpr_loop buf (bs ++ rest) = read_cpr_loop (buf ++ bs) rest.
Proof.
  induction bs as [|b bs IH]; intros buf rest Hl Hb; [by rewrite app_nil_r|]. cbn [app read_cpr_loop length] in *.
  rewrite (proj2 (Z.leb_gt _ _)) by lia. replace (buf ++ b :: bs) with ((buf ++ [b]) ++ bs) in * by by rewrite <-app_assoc.
  assert ((if b =? 82 then parse_cpr_at (buf ++ [b]) else None) = None) as ->.
  { destruct (Z.eqb_spec b 82) as [->|]; [|done]. destruct Hb as [Hb|Hb]; [by apply Forall_cons in Hb as [? _]|]. apply cpr_from_none.
    by apply Forall_app in Hb as [? _]. }
  apply IH; [rewrite length_app; cbn [length]; lia|]. destruct Hb as [Hb|Hb]; [left; by apply Forall_cons in Hb as [_ ?]|by right].
Qed.
Lemma report_read typed rest rows cols : Forall (λ b, b ≠ 27) typed → 1 ≤ rows ≤ 65535 → 1 ≤ cols ≤ 65535 → zlen typed ≤ 18 →
  read_cpr (typed ++ report rows cols ++ rest) = (Some (cols, rows), typed, rest).
Proof.
  intros Ht Hr Hc Hl. pose proof (digits_short rows 5 ltac:(lia) ltac:(lia)). pose proof (digits_short cols 5 ltac:(lia) ltac:(lia)).
  set (body := [27; 91] ++ digits rows ++ [59] ++ digits cols). assert (report rows cols = body ++ [82]) as Er by (unfold report, body; by rewrite <-!app_assoc).
  assert (zlen body ≤ 13) as Hb by (subst body; rewrite !length_app; cbn [length]; lia).
  unfold read_cpr. rewrite read_skips; [|unfold CPR_BUF_CAP; cbn; lia|by right]. cbn [app].
  rewrite Er, <-app_assoc, read_skips; [|unfold CPR_BUF_CAP; lia|left].
  2: { subst body. apply Forall_app; split; [by repeat constructor|]. assert (∀ n, 0 ≤ n → Forall (λ b, b ≠ 82) (digits n)) as Hd.
       { intros n Hn. destruct (digits_ok n Hn) as (Hd & _). eapply Forall_impl; [exact Hd|]. intros c Hc'%digit_range. lia. }
       apply Forall_app; split; [apply Hd; lia|]. apply Forall_cons; split; [done|apply Hd; lia]. }
  cbn [app read_cpr_loop]. rewrite (proj2 (Z.leb_gt _ _)) by (unfold CPR_BUF_CAP; rewrite length_app; lia). cbn [Z.eqb Pos.eqb].
  rewrite <-app_assoc, <-Er, cpr_at_report by done. by rewrite Nat2Z.id, take_app_length.
Qed.

End KauaInProofs.
