(* ===== verification/KauaLayout.v ===== *)
(** * The terminal toolkit: layouts tile

    The rectangles of a layout lie in its area, side by side in the order of their
    constraints; where the fixed sizes fit, each constraint has its size and the
    flexible ones share the rest evenly, to the last cell. *)

From S2P Require Import Prelude Kaua.
Import Kaua.
Open Scope Z_scope.

Module KauaLayout.

Definition total (l : list Z) : Z := foldr Z.add 0 l.
Notation nonneg := (Forall (λ s, 0 ≤ s)).
Lemma total_nonneg l : nonneg l → 0 ≤ total l.
Proof. unfold total. induction 1; cbn in *; lia. Qed.

(** ** Sizes *)

Definition flex_count (cs : list Constraint) : Z := zlen (filter (λ c, flexes c = true) cs).
Lemma flex_cons c cs : flex_count (c :: cs) = (if flexes c then 1 else 0) + flex_count cs.
Proof. unfold flex_count. rewrite filter_cons. destruct (flexes c); cbn [bool_decide decide]; case_decide; cbn [length]; (done || lia). Qed.
Lemma flex_nonneg cs : 0 ≤ flex_count cs.
Proof. unfold flex_count. lia. Qed.

(** The size [s'] a constraint gets from its base size [s]. *)
Definition sized (share : Z) (c : Constraint) (s s' : Z) : Prop := if flexes c then s + share ≤ s' ≤ s + share + 1 else s' = s.
Inductive sized_all (share : Z) : list Constraint → list Z → list Z → Prop :=
  | sized_nil : sized_all share [] [] []
  | sized_cons c cs s ss s' ss' : sized share c s s' → sized_all share cs ss ss' → sized_all share (c :: cs) (s :: ss) (s' :: ss').

Lemma base_fits e c : in_u 16 e → match c with Length n | Min n => in_u 16 n | Pct p => in_u 16 p | Fill => True end → 0 ≤ base_size e c ≤ 65535.
Proof.
  unfold in_u. intros He Hc. destruct c; cbn [base_size]; try lia. unfold as_u.
  pose proof (Z.mod_pos_bound (Z.min p 100 * e / 100) (2 ^ 16) ltac:(lia)). lia.
Qed.
Lemma consumed_ok sizes : ∀ a, 0 ≤ a → nonneg sizes → a + total sizes ≤ 4294967295 → foldM (uadd 32) a sizes = Done (a + total sizes).
Proof.
  induction sizes as [|s sizes IH]; intros a Ha Hs Hb; cbn [foldM total foldr] in *; [by rewrite Z.add_0_r|]. apply Forall_cons in Hs as [H1 Hs].
  pose proof (total_nonneg sizes Hs). unfold total in *. rewrite uadd_ok by (change (u_max 32) with 4294967295; lia).
  rewrite bind_done, IH by (done || lia). f_equal. lia.
Qed.
Lemma bases_bound e cs : Forall (λ c, 0 ≤ base_size e c ≤ 65535) cs → 0 ≤ total (base_size e <$> cs) ≤ 65535 * zlen cs.
Proof. unfold total. induction 1; cbn [fmap list_fmap foldr length] in *; lia. Qed.

Lemma share_out_ok share extra cs : ∀ k sizes, length sizes = length cs → nonneg sizes → 0 ≤ share → 0 ≤ k →
  total sizes + share * flex_count cs + (Z.min extra (k + flex_count cs) - Z.min extra k) ≤ 65535 → 0 ≤ extra →
  sized_all share cs sizes (share_out share extra k cs sizes) ∧
  total (share_out share extra k cs sizes) = total sizes + share * flex_count cs + (Z.min extra (k + flex_count cs) - Z.min extra k).
Proof.
  induction cs as [|c cs IH]; intros k [|s sizes] Hl Hs Hsh Hk Hb He; cbn [length] in Hl; try lia; cbn [share_out].
  { split; [constructor|]. change (flex_count []) with 0. change (total []) with 0. lia. }
  apply Forall_cons in Hs as [H1 Hs]. rewrite flex_cons in *. cbn [total foldr] in *. fold (total sizes) in *. pose proof (total_nonneg sizes Hs). pose proof (flex_nonneg cs).
  destruct (flexes c) eqn:Ec.
  - set (add := share + (if k <? extra then 1 else 0)).
    assert (share ≤ add ≤ share + 1 ∧ add = share + (Z.min extra (k + 1) - Z.min extra k)) as [Hadd Ha0] by (subst add; destruct (Z.ltb_spec k extra); lia).
    assert (s + add ≤ 65535) as Hfit by nia.
    destruct (IH (k + 1) sizes) as [IH1 IH2]; [lia|done|done|lia|rewrite <-Z.add_assoc; lia|done|].
    assert (sat_add 16 s (as_u 16 add) = s + add) as Es.
    { unfold sat_add, as_u. change (u_max 16) with 65535. change (2 ^ 16) with 65536. rewrite Z.mod_small by lia. lia. }
    rewrite Es. split; [constructor; [unfold sized; rewrite Ec; lia|done]|]. cbn [total foldr]. unfold total in *. rewrite IH2, Ha0, <-Z.add_assoc. lia.
  - destruct (IH k sizes) as [IH1 IH2]; [lia|done|done|done|lia|done|]. split; [constructor; [unfold sized; by rewrite Ec|done]|].
    cbn [total foldr]. unfold total in *. rewrite IH2. lia.
Qed.

(** The base sizes; a constraint's number is a [u16]. *)
Definition bases (cs : list Constraint) (e : Z) : list Z := base_size e <$> cs.
Definition typed (c : Constraint) : Prop := match c with Length n | Min n => in_u 16 n | Pct p => in_u 16 p | Fill => True end.
Lemma sized_refl share cs : ∀ sizes, length sizes = length cs → flex_count cs = 0 → sized_all share cs sizes sizes.
Proof.
  induction cs as [|c cs IH]; intros [|s sizes] Hl Hf; cbn [length] in Hl; try lia; constructor; rewrite flex_cons in Hf; pose proof (flex_nonneg cs).
  - unfold sized. destruct (flexes c); [lia|done].
  - apply IH; [lia|]. destruct (flexes c); lia.
Qed.
Lemma sized_zero cs : ∀ sizes, length sizes = length cs → sized_all 0 cs sizes sizes.
Proof.
  induction cs as [|c cs IH]; intros [|s sizes] Hl; cbn [length] in Hl; try lia; constructor; [|apply IH; lia]. unfold sized. destruct (flexes c); lia.
Qed.
Lemma sized_nonneg share cs ss ss' : sized_all share cs ss ss' → 0 ≤ share → nonneg ss → length ss' = length cs ∧ nonneg ss'.
Proof.
  intros H Hsh. induction H as [|c cs s ss s' ss' H _ IH]; intros Hn; [done|]. apply Forall_cons in Hn as [Hs Hn]. destruct (IH Hn) as [L N].
  split; [cbn; by rewrite L|]. constructor; [|done]. unfold sized in H. destruct (flexes c); lia.
Qed.
Lemma sized_fixed share cs ss ss' : sized_all share cs ss ss' → 0 = flex_count cs → ss = ss'.
Proof.
  induction 1 as [|c cs s ss s' ss' H _ IH]; [done|]. rewrite flex_cons. pose proof (flex_nonneg cs). unfold sized in H. destruct (flexes c); [lia|].
  rewrite Z.add_0_l. intros Hf. by rewrite H, (IH Hf).
Qed.
Lemma solve_ok cs e : in_u 16 e → Forall typed cs → zlen cs ≤ 65535 → ∃ sizes, solve cs e = Done sizes ∧ length sizes = length cs ∧ nonneg sizes ∧
  (total (bases cs e) ≤ e → ∃ share, 0 ≤ share ∧ sized_all share cs (bases cs e) sizes ∧ (0 < flex_count cs → total sizes = e)) ∧
  (e ≤ total (bases cs e) → sizes = bases cs e).
Proof.
  intros He Hc Hl. assert (Forall (λ c, 0 ≤ base_size e c ≤ 65535) cs) as Hb by (eapply Forall_impl; [exact Hc|]; intros c; by apply base_fits).
  pose proof (bases_bound e cs Hb) as [T1 T2]. fold (bases cs e) in T1, T2.
  assert (nonneg (bases cs e)) as Hn by (unfold bases; apply Forall_fmap; eapply Forall_impl; [exact Hb|]; intros c; cbn; lia).
  assert (length (bases cs e) = length cs) as Hlb by (unfold bases; by rewrite length_fmap).
  unfold solve. fold (bases cs e). rewrite consumed_ok, bind_done by (done || lia). rewrite Z.add_0_l. fold (flex_count cs). unfold sat_sub. unfold in_u in He.
  set (r := Z.max (e - total (bases cs e)) 0). pose proof (flex_nonneg cs).
  destruct (Z.ltb_spec 0 (flex_count cs)) as [Hf|Hf]; cbn [andb].
  2: { eexists. split; [done|]. split; [done|]. split; [done|]. split; [|done]. intros _. exists 0. split; [done|]. split; [|lia]. apply sized_refl; lia. }
  destruct (Z.ltb_spec 0 r) as [Hr|Hr].
  2: { eexists. split; [done|]. split; [done|]. split; [done|]. split; [|done]. intros Hle. exists 0. split; [done|]. split; [by apply sized_zero|lia]. }
  pose proof (Z.div_mod r (flex_count cs) ltac:(lia)). pose proof (Z.mod_pos_bound r (flex_count cs) Hf). pose proof (Z.div_pos r (flex_count cs) ltac:(lia) Hf).
  destruct (share_out_ok (r / flex_count cs) (r mod flex_count cs) cs 0 (bases cs e)) as [S1 S2]; [done|done|lia|lia|lia|lia|].
  eexists. split; [done|]. revert S1 S2. generalize (share_out (r / flex_count cs) (r mod flex_count cs) 0 cs (bases cs e)). intros sizes S1 S2.
  destruct (sized_nonneg _ _ _ _ S1) as [L N]; [lia|done|].
  split; [done|]. split; [done|]. split; [|lia]. intros Hle. exists (r / flex_count cs). split; [done|]. split; [done|]. intros _. rewrite S2. lia.
Qed.

(** ** Rectangles *)

(** The part of [r] from [off], [len] long, along the axis; the parts side by side
    from [off] on. *)
Definition part (d : Direction) (r : Rect) (off len : Z) : Rect :=
  match d with Vertical => mkRect (r_x r) (r_y r + off) (r_width r) len | Horizontal => mkRect (r_x r + off) (r_y r) len (r_height r) end.
Fixpoint parts (d : Direction) (r : Rect) (off : Z) (lens : list Z) : list Rect :=
  match lens with [] => [] | len :: lens => part d r off len :: parts d r (off + len) lens end.
(** Sizes clipped to what remains of [room]. *)
Fixpoint clipped (room : Z) (sizes : list Z) : list Z :=
  match sizes with [] => [] | s :: sizes => Z.min s room :: clipped (room - Z.min s room) sizes end.
Definition extent_of (d : Direction) (r : Rect) : Z := match d with Vertical => r_height r | Horizontal => r_width r end.
(** A rectangle of the [u16] plane. *)
Definition on_plane (r : Rect) : Prop :=
  0 ≤ r_x r ∧ 0 ≤ r_y r ∧ 0 ≤ r_width r ∧ 0 ≤ r_height r ∧ r_x r + r_width r ≤ 65535 ∧ r_y r + r_height r ≤ 65535.

Lemma clipped_ok sizes : ∀ room, 0 ≤ room → nonneg sizes → nonneg (clipped room sizes) ∧ total (clipped room sizes) = Z.min (total sizes) room.
Proof.
  unfold total. induction sizes as [|s sizes IH]; intros room Hr Hs; cbn [clipped foldr]; [split; [constructor|lia]|]. apply Forall_cons in Hs as [H1 Hs].
  destruct (IH (room - Z.min s room)) as [N T]; [lia|done|]. pose proof (total_nonneg sizes Hs). unfold total in *. split; [constructor; [lia|done]|]. lia.
Qed.
Lemma clipped_length sizes : ∀ room, length (clipped room sizes) = length sizes.
Proof. induction sizes as [|s sizes IH]; intros room; cbn; [done|]. by rewrite IH. Qed.
Lemma clipped_id sizes : ∀ room, nonneg sizes → total sizes ≤ room → clipped room sizes = sizes.
Proof.
  induction sizes as [|s sizes IH]; intros room Hs Ht; [done|]. apply Forall_cons in Hs as [H1 Hs]. pose proof (total_nonneg sizes Hs).
  unfold total in *. cbn [foldr clipped] in *. rewrite Z.min_l by lia. by rewrite IH by (done || lia).
Qed.
Lemma split_from_ok d r sizes : ∀ off, on_plane r → 0 ≤ off ≤ extent_of d r → nonneg sizes →
  split_from d r (extent_of d r) off sizes = Done (parts d r off (clipped (extent_of d r - off) sizes)).
Proof.
  induction sizes as [|s sizes IH]; intros off Hr Ho Hs; [done|]. apply Forall_cons in Hs as [H1 Hs]. pose proof Hr as (? & ? & ? & ? & ? & ?).
  cbn [split_from clipped parts]. rewrite (Z.min_l off) by lia. rewrite usub_ok, bind_done by lia. set (len := Z.min s (extent_of d r - off)).
  assert (sat_add 16 off len = off + len) as ->.
  { unfold sat_add. change (u_max 16) with 65535. destruct d; cbn [extent_of] in *; lia. }
  assert ((match d with Vertical => y ← uadd 16 (r_y r) off; Done (mkRect (r_x r) y (r_width r) len)
           | Horizontal => x ← uadd 16 (r_x r) off; Done (mkRect x (r_y r) len (r_height r)) end) = Done (part d r off len)) as ->.
  { destruct d; cbn [extent_of] in *; rewrite uadd_ok by (change (u_max 16) with 65535; lia); done. }
  rewrite bind_done, IH, bind_done by (done || lia). by replace (extent_of d r - off - len) with (extent_of d r - (off + len)) by lia.
Qed.
Lemma inner_ok m a : 0 ≤ m → on_plane a → ∃ r, inner m a = Done r ∧ on_plane r ∧ r_x a ≤ r_x r ∧ r_y a ≤ r_y r ∧
  r_x r + r_width r ≤ r_x a + r_width a ∧ r_y r + r_height r ≤ r_y a + r_height a.
Proof.
  intros Hm (? & ? & ? & ? & ? & ?). unfold inner. pose proof (Z.div_pos (r_width a) 2). pose proof (Z.div_pos (r_height a) 2).
  pose proof (Z.mul_div_le (r_width a) 2). pose proof (Z.mul_div_le (r_height a) 2).
  set (dx := Z.min m (r_width a / 2)) in *. set (dy := Z.min m (r_height a / 2)) in *. change (u_max 16) with 65535 in *.
  rewrite (uadd_ok 16 (r_x a)), bind_done by (change (u_max 16) with 65535; lia). rewrite (uadd_ok 16 (r_y a)), bind_done by (change (u_max 16) with 65535; lia).
  rewrite (usub_ok (r_width a)), bind_done by lia. rewrite (usub_ok (r_height a)), bind_done by lia. eexists. split; [done|]. unfold on_plane. cbn. lia.
Qed.

End KauaLayout.
