(* ===== verification/KauaClaims.v ===== *)
(** * The terminal toolkit: what its programs may rely on

    On the terminal emulator of the same system: frames appear as drawn, a session
    leaves the screen as it found it, the size is read back; input is taken a key
    at a time; layouts tile. *)

From S2P Require Import Prelude Digits Utf8 VtBase Vt VtInv VtWidth VtTotal VtRows VtClaims VtSeq Kaua KauaVt KauaFrame KauaSession KauaIn KauaSize KauaInProofs KauaLayout.
Import Digits Utf8 VtBase Vt VtInv VtWidth VtTotal VtRows VtSeq KauaVt KauaFrame KauaSession KauaSize KauaInProofs KauaLayout.
Open Scope Z_scope.

Module KauaClaims.

(** ** Frames *)

(** C26: On a terminal that shows the toolkit's last frame, or anything when a repaint
    is due, each frame a program draws (the cells that differ from the last frame, or
    all of them after a resize or a clear) leaves
    the emulator showing exactly the drawn buffer, every cell with its character,
    colours and attributes, and the cursor where asked or hidden; the other screen
    and the geometry are untouched.  The frames are of the screen's size, with the
    cursor on it and a printable character of width one in every cell
    ([frame_fits]); the toolkit assumes the width (buffer.rs) and sends whatever
    character a cell holds, so that a frame of wider or of control characters shows
    otherwise ([raw_cells]).  The terminal is between sequences with autowrap and
    origin mode off, as a session sets it, and of at most 65535 cells a side
    ([synced]). *)
Theorem frames_shown fs t v b c : synced t v → Forall (frame_fits v) (fs ++ [(b, c)]) →
  ∃ t' w, play (fs ++ [(b, c)]) t v = Done (t', w) ∧ Kaua.front t' = b ∧ shows b w ∧ setting w = setting v ∧
    cursor_visible w = bool_decide (is_Some c) ∧ match c with Some (x, y) => cx w = x ∧ cy w = y | None => True end.
Proof.
  intros Hs Hf. destruct (play_ok _ t v Hs Hf) as (t' & w & E & _ & Sw & _ & L). rewrite last_snoc in L.
  exists t', w. split; [done|]. destruct L as (F & Sh & V & P). done.
Qed.

(** A 3x2 terminal as a program finds it, with a line of text on it; and two frames. *)
Definition found_vt : Vt := ltac:(let r := eval vm_compute in (v ← with_palette 3 2 BONFIRE; bytes [108; 115; 10; 36] v) in match r with Done ?v => exact v end).
Lemma found_inv : inv found_vt.
Proof.
  destruct (with_palette_ok 3 2 BONFIRE) as (v & E & Hv); [done..|]. eapply (bytes_inv [108; 115; 10; 36] v); [done|].
  replace (bytes [108; 115; 10; 36] v) with (v ← with_palette 3 2 BONFIRE; bytes [108; 115; 10; 36] v) by by rewrite E. vm_compute. reflexivity.
Qed.
Definition screen3 : Kaua.Rect := Kaua.mkRect 0 0 3 2.
Definition menu : Frame := (Kaua.mkBuffer screen3 [Kaua.mkKCell 65 (Kaua.mkStyle (Kaua.Rgb 250 0 9) Kaua.Reset_ 5); Kaua.cell_default; Kaua.mkKCell 8364 Kaua.style_new;
  Kaua.cell_default; Kaua.cell_default; Kaua.mkKCell 98 (Kaua.mkStyle Kaua.Reset_ (Kaua.Rgb 1 2 3) 16)], Some (2, 1)).
Definition empty_frame : Frame := (Kaua.empty_buffer screen3, None).
Lemma menu_fits v : cols v = 3 → rows v = 2 → Forall (frame_fits v) [menu; empty_frame].
Proof.
  intros Hc Hr. repeat constructor; cbn; rewrite ?Hc, ?Hr; try (done || lia).
Qed.
(** The terminal after [enter], and the toolkit's side of it. *)
Definition entered_vt : Vt := ltac:(let r := eval vm_compute in (bytes Kaua.enter_bytes found_vt) in match r with Done ?v => exact v end).
Definition entered_term : Kaua.Terminal := Kaua.mkTerm (Kaua.empty_buffer screen3) (Kaua.empty_buffer screen3) None false true.
Lemma entered_inv : inv entered_vt.
Proof. eapply (bytes_inv Kaua.enter_bytes); [exact found_inv|vm_compute; reflexivity]. Qed.
Lemma entered_synced : synced entered_term entered_vt.
Proof.
  split; [split; [exact entered_inv|done..]|]. split; [done|]. intros _. split; [done|].
  change (Kaua.content _) with (replicate 6 Kaua.cell_default). unfold entered_vt. cbn [cells replicate].
  repeat (constructor; [split; vm_compute; reflexivity|]). constructor.
Qed.
Lemma frames_shown_witness : ∃ t' w, play ([menu] ++ [empty_frame]) (Kaua.term_resize screen3 entered_term) entered_vt = Done (t', w) ∧
  Kaua.front t' = empty_frame.1 ∧ shows empty_frame.1 w ∧ setting w = setting entered_vt ∧ cursor_visible w = false ∧ True.
Proof.
  apply (frames_shown [menu] (Kaua.term_resize screen3 entered_term) entered_vt empty_frame.1 None); [|by apply menu_fits].
  destruct entered_synced as (R & B & _). by split.
Defined.

(** Cells that hold [ESC], [7] and [A]: the escape byte is sent as it is, and the [A]
    is shown in the first column. *)
Definition raw : Frame := (Kaua.mkBuffer screen3 ([Kaua.mkKCell 27 Kaua.style_new; Kaua.mkKCell 55 Kaua.style_new; Kaua.mkKCell 65 Kaua.style_new] ++ replicate 3 Kaua.cell_default), None).
Example raw_cells : match play [raw] entered_term entered_vt with Done (_, w) => take 3 (c_ch <$> cells w) | _ => [] end = [65; 32; 32].
Proof. vm_compute. reflexivity. Qed.

(** ** Sessions *)

(** C27: A program's session on a terminal that is at rest on its main screen
    ([at_rest]: between sequences, no origin mode, the palette's background), of at
    most 65535 cells a side: from entering the alternate screen, over any frames of
    the screen's size with a printable character of width one in every cell
    ([frame_fits]), to leaving it, it gives the main screen back as it was: its
    cells, soft wraps, the autowrap mode and the cursor (visible again, off the
    pending-wrap column), with the pen at its default; meanwhile the alternate screen
    starts blank as the toolkit assumes.  Frames with control characters are not
    covered: the toolkit sends them as they are. *)
Theorem session_restores fs v a : at_rest v → covers_screen a v → cols v ≤ 65535 → rows v ≤ 65535 → Forall (frame_fits v) fs →
  ∃ t w t' x y, Kaua.enter a true = Some t ∧ bytes Kaua.enter_bytes v = Done w ∧ shows (Kaua.front t) w ∧
    play fs t w = Done (t', x) ∧ on_alt x = true ∧ bytes (Kaua.leave t').1 x = Done y ∧ Kaua.entered (Kaua.leave t').2 = false ∧ idle y ∧ geo y = geo v ∧
    (cells y, wrapped y, top_continues y) = (cells v, wrapped v, top_continues v) ∧ pen_now y = (p_fg (pal v), p_bg (pal v), 0) ∧
    wrap y = wrap v ∧ cursor_visible y = true ∧ cx y = Z.min (cx v) (cols v - 1) ∧ cy y = cy v.
Proof.
  intros Hr Ha Bc Br Hf. destruct (enter_run v a Hr Ha Bc Br) as (t & w & Et & Ew & Sw & En & Shw & Gw & Aw & Vw). pose proof Gw as Gw'. unfold geo in Gw'. injection Gw' as Gc Gr Gp Ga.
  destruct (play_ok fs t w Sw) as (t' & x & Ex & Sx & Stx & En' & _).
  { eapply Forall_impl; [exact Hf|]. intros f. unfold frame_fits, covers_screen. by rewrite Gc, Gr. }
  pose proof Stx as Stx'. unfold setting, geo, aside in Stx'. unfold aside in Aw. injection Stx' as Xc Xr Xp Xa Xcells Xw Xs Xsw Xt. injection Aw as Acells Aww As Asw At.
  assert (on_alt x = true) as Hax by congruence. destruct Sx as (Rx & _). destruct (leave_run x Rx Hax) as (y & Ey & Iy & Gy & Cy & Py & Vy & Wy & Xy & Yy).
  exists t, w, t', x, y. split; [done|]. split; [done|]. split; [done|]. split; [done|]. split; [done|].
  unfold Kaua.leave. rewrite En', En. cbn [negb fst snd Kaua.entered]. split; [done|]. split; [done|]. split; [done|].
  rewrite Gy, Xc, Xr, Xp, Gc, Gr, Gp. split; [unfold geo; by rewrite (rs_main v Hr)|].
  rewrite Hax, Ga in Xt. rewrite Ga in At. cbn [andb] in Xt, At. rewrite Cy, Xcells, Xw, Xt, At, Acells, Aww. split; [done|].
  rewrite Py, Xp, Gp, Wy, Xsw, Asw, Vy, Xy, Yy, Xs, As, Xc, Xr, Gc, Gr. cbn [fst snd]. pose proof (i_cy v (rs_inv v Hr)).
  split; [done|]. split; [done|]. split; [done|]. split; [done|]. lia.
Qed.
Lemma session_restores_witness : ∃ t w t' x y, Kaua.enter screen3 true = Some t ∧ bytes Kaua.enter_bytes found_vt = Done w ∧ shows (Kaua.front t) w ∧
  play [menu; empty_frame] t w = Done (t', x) ∧ on_alt x = true ∧ bytes (Kaua.leave t').1 x = Done y ∧ Kaua.entered (Kaua.leave t').2 = false ∧ idle y ∧ geo y = geo found_vt ∧
  (cells y, wrapped y, top_continues y) = (cells found_vt, wrapped found_vt, top_continues found_vt) ∧ pen_now y = (p_fg (pal found_vt), p_bg (pal found_vt), 0) ∧
  wrap y = wrap found_vt ∧ cursor_visible y = true ∧ cx y = Z.min (cx found_vt) (cols found_vt - 1) ∧ cy y = cy found_vt.
Proof. apply session_restores; [split; [exact found_inv|reflexivity..]|done|done|done|by apply menu_fits]. Defined.

(** ** The size *)

(** C28: The size probe is answered and read back: a terminal of at most 9999 cells a
    side, between sequences and with origin mode off, appends its report to the
    replies and keeps its screen and its cursor, and the toolkit reads the terminal's
    own columns and rows off it.  At startup, where at most 18 bytes without an escape
    byte were typed before the report (the 32-byte buffer then has room for the
    report), they are kept as type-ahead and what follows is left unread; in the event
    stream, to a parser between sequences, the report is one resize event. *)
Theorem size_handshake v typed rest p : idle v → origin v = false → cols v ≤ 9999 → rows v ≤ 9999 →
  Forall (λ b, b ≠ 27) typed → zlen typed ≤ 18 → KauaIn.p_state p = KauaIn.Ground → KauaIn.p_resize p = None →
  ∃ w said, bytes KauaIn.resize_probe_bytes v = Done w ∧ idle w ∧ still v w ∧ reply w = reply v ++ said ∧
    cx w = Z.min (cx v) (cols v - 1) ∧ cy w = cy v ∧
    KauaIn.read_cpr (typed ++ said ++ rest) = (Some (cols v, rows v), typed, rest) ∧
    decode said p = Done ([KauaIn.Resize (cols v) (rows v)], KauaIn.reset_ground p).
Proof.
  intros Hi Ho Bc Br Ht Hl Hp Hz. destruct (probe_run v Hi Ho Bc Br) as (w & Ew & Iw & Sw & Rw & Xw & Yw). pose proof Hi as (Hv & _).
  pose proof (i_cols v Hv) as [? _]. pose proof (i_rows v Hv) as [? _]. exists w, (report (rows v) (cols v)). do 6 (split; [done|]).
  split; [apply report_read; (done || lia)|apply report_decoded; (done || lia)].
Qed.
Lemma size_handshake_witness : ∃ w said, bytes KauaIn.resize_probe_bytes found_vt = Done w ∧ idle w ∧ still found_vt w ∧ reply w = reply found_vt ++ said ∧
  cx w = Z.min (cx found_vt) (cols found_vt - 1) ∧ cy w = cy found_vt ∧
  KauaIn.read_cpr ([82; 49; 82] ++ said ++ [120]) = (Some (cols found_vt, rows found_vt), [82; 49; 82], [120]) ∧
  decode said KauaIn.parser_new = Done ([KauaIn.Resize (cols found_vt) (rows found_vt)], KauaIn.reset_ground KauaIn.parser_new).
Proof. apply size_handshake; [split; [exact found_inv|done]|done|done|done|by repeat constructor|done|done|done]. Defined.

(** ** Input *)

(** C29: The intake hands out input an event at a time, on any terminal whatsoever,
    one whose waits and reads fail included: a call feeds the parser type-ahead bytes,
    then bytes of the terminal, each got by one wait that found it readable and one
    read, and reads none past the byte that completes the event it returns; only type-ahead is
    left over by a call that ends in the type-ahead.  Otherwise it returns nothing with
    exactly 4096 bytes of the terminal having completed nothing; or the reading ended
    before that: on a wait that found nothing or at the end of the file, which makes a
    lone escape byte the Escape key, whose wait was the hold-off, keeps anything else half
    collected, and records the end of the file or the hang-up and nothing else as such; or
    on an error, which is handed on with the parser as the bytes left it. *)
Theorem intake_exact {T E : Type} `{!KauaIn.Fd0 T E} wait (fd : T) k : bounded (KauaIn.parser k) →
  ∃ typed p1 read fd1 fd' r k', KauaIn.intake_next (E := E) wait fd k = Done (fd', r, k') ∧ bounded (KauaIn.parser k') ∧
    KauaIn.pending k = typed ++ KauaIn.pending k' ∧ (∃ es, decode typed (KauaIn.parser k) = Done (es, p1)) ∧ pulled (E := E) wait fd p1 read fd1 ∧
    concluded wait KauaIn.QUIET_BYTES_MAX (KauaIn.parser k) (KauaIn.eof k) (typed ++ read) (zlen read) fd1 fd' r (KauaIn.parser k') (KauaIn.eof k') ∧
    (KauaIn.pending k' ≠ [] → read = [] ∧ fd' = fd ∧ ∃ e, decode typed (KauaIn.parser k) = Done ([e], KauaIn.parser k') ∧ r = Ok (Some e)).
Proof. apply next_concludes. Qed.

(** A terminal that follows a script: a byte is there, nothing is, the end of the file is,
    or the call fails. *)
Inductive Cue := Byte (b : Z) | Pause | Shut | Trouble.
#[local] Instance script : KauaIn.Fd0 (list Cue) unit := {|
  KauaIn.fd_ready _ t :=
    match t with
    | Pause :: t => (t, Ok (KauaIn.mkReadiness false false))
    | Trouble :: t => (t, Err ())
    | [] => ([], Ok (KauaIn.mkReadiness false true))
    | t => (t, Ok (KauaIn.mkReadiness true false))
    end;
  KauaIn.fd_read_byte t := match t with Byte b :: t => (t, Ok (Some b)) | _ => (t, Ok None) end
|}.
Definition at_prompt : list Cue := [Byte 49; Byte 59; Byte 53; Byte 65; Byte 120].
(** The type-ahead [ESC \[] and the terminal's [1;5A x]: control-up, then [x] unread. *)
Lemma intake_exact_witness :
  (∃ typed p1 read fd1 fd' r k', KauaIn.intake_next (E := unit) KauaIn.Caller at_prompt (KauaIn.intake_new [27; 91]) = Done (fd', r, k') ∧ bounded (KauaIn.parser k') ∧
    KauaIn.pending (KauaIn.intake_new [27; 91]) = typed ++ KauaIn.pending k' ∧ (∃ es, decode typed (KauaIn.parser (KauaIn.intake_new [27; 91])) = Done (es, p1)) ∧
    pulled (E := unit) KauaIn.Caller at_prompt p1 read fd1 ∧
    concluded KauaIn.Caller KauaIn.QUIET_BYTES_MAX (KauaIn.parser (KauaIn.intake_new [27; 91])) false (typed ++ read) (zlen read) fd1 fd' r (KauaIn.parser k') (KauaIn.eof k') ∧
    (KauaIn.pending k' ≠ [] → read = [] ∧ fd' = at_prompt ∧ ∃ e, decode typed (KauaIn.parser (KauaIn.intake_new [27; 91])) = Done ([e], KauaIn.parser k') ∧ r = Ok (Some e))) ∧
  KauaIn.intake_next (E := unit) KauaIn.Caller at_prompt (KauaIn.intake_new [27; 91]) =
    Done ([Byte 120], Ok (Some (KauaIn.Key (KauaIn.mkKey KauaIn.Up KauaIn.CTRL))), KauaIn.intake_new []).
Proof. split; [apply (intake_exact KauaIn.Caller at_prompt (KauaIn.intake_new [27; 91])), bounded_new|vm_compute; reflexivity]. Defined.
(** Readable at the end of the file, with an escape byte held: the Escape key, and the end
    recorded; and a failing wait, the escape byte kept for the next call. *)
Example escape_at_end : KauaIn.intake_next (E := unit) KauaIn.Caller [Byte 27; Shut] (KauaIn.intake_new []) =
  Done ([Shut], Ok (Some (KauaIn.Key (KauaIn.key KauaIn.KEsc))), KauaIn.set_eof (KauaIn.intake_new [])).
Proof. vm_compute. reflexivity. Qed.
Example escape_over_error : let k := KauaIn.mkIntake (KauaIn.mkParser KauaIn.Esc [] false [] 0 None) [] false in
  KauaIn.intake_next (E := unit) KauaIn.Caller [Byte 27; Trouble; Byte 120] (KauaIn.intake_new []) = Done ([Byte 120], Err (), k) ∧
  KauaIn.intake_next (E := unit) KauaIn.Caller [Byte 120] k = Done ([], Ok (Some (KauaIn.Key (KauaIn.mkKey (KauaIn.Char 120) KauaIn.ALT))), KauaIn.intake_new []).
Proof. split; vm_compute; reflexivity. Qed.

(** ** Layouts *)

(** C30: A layout of an area of the [u16] plane returns one rectangle per constraint,
    side by side in order within the margin-shrunk area; where the base sizes fit,
    fixed constraints have exactly theirs, flexible ones theirs plus an equal share
    give or take one cell, and a flexible one leaves no cell unassigned; where they
    do not, sizes are clipped to what remains. *)
Theorem layout_tiles l a : on_plane a → 0 ≤ Kaua.margin l → Forall typed (Kaua.constraints l) → zlen (Kaua.constraints l) ≤ 65535 →
  ∃ r lens, Kaua.inner (Kaua.margin l) a = Done r ∧ Kaua.split l a = Done (parts (Kaua.direction l) r 0 lens) ∧
    length lens = length (Kaua.constraints l) ∧ Forall (λ s, 0 ≤ s) lens ∧ total lens ≤ extent_of (Kaua.direction l) r ∧
    let e := extent_of (Kaua.direction l) r in
    (total (bases (Kaua.constraints l) e) ≤ e → ∃ share, 0 ≤ share ∧ sized_all share (Kaua.constraints l) (bases (Kaua.constraints l) e) lens ∧
       (0 < flex_count (Kaua.constraints l) → total lens = e)) ∧
    (e ≤ total (bases (Kaua.constraints l) e) → lens = clipped e (bases (Kaua.constraints l) e)).
Proof.
  intros Ha Hm Hc Hl. destruct (inner_ok _ a Hm Ha) as (r & Er & Hr & _). pose proof Hr as (? & ? & ? & ? & ? & ?). set (e := extent_of (Kaua.direction l) r).
  assert (0 ≤ e ∧ in_u 16 e) as [He0 He] by (unfold e, in_u; destruct (Kaua.direction l); cbn [extent_of]; lia).
  destruct (solve_ok (Kaua.constraints l) e He Hc Hl) as (sizes & Es & Ln & Hn & Hfit & Hover). destruct (clipped_ok sizes e He0 Hn) as [Cn Ct].
  exists r, (clipped e sizes). split; [done|]. split.
  { unfold Kaua.split. rewrite Er, bind_done. change (match Kaua.direction l with Kaua.Vertical => _ | _ => _ end) with e. rewrite Es, bind_done.
    unfold e. rewrite split_from_ok by (done || lia). by rewrite Z.sub_0_r. }
  split; [by rewrite clipped_length|]. split; [done|]. split; [rewrite Ct; lia|]. split; [|intros Ho; by rewrite Hover].
  intros Hf. destruct (Hfit Hf) as (share & Hsh & Hsz & Htot). exists share. split; [done|].
  assert (clipped e sizes = sizes) as ->; [|done]. apply clipped_id; [done|].
  destruct (Z.lt_trichotomy 0 (flex_count (Kaua.constraints l))) as [Hp|[Hz|Hz]]; [rewrite Htot by done; lia| |pose proof (flex_nonneg (Kaua.constraints l)); lia].
  by rewrite <-(sized_fixed _ _ _ _ Hsz).
Qed.
Lemma layout_tiles_witness : ∃ r lens, Kaua.inner 1 (Kaua.mkRect 2 3 20 12) = Done r ∧
  Kaua.split (Kaua.mkLayout Kaua.Vertical [Kaua.Length 3; Kaua.Fill; Kaua.Min 1; Kaua.Pct 20] 1) (Kaua.mkRect 2 3 20 12) = Done (parts Kaua.Vertical r 0 lens) ∧
  length lens = 4%nat ∧ Forall (λ s, 0 ≤ s) lens ∧ total lens ≤ extent_of Kaua.Vertical r ∧
  let cs := [Kaua.Length 3; Kaua.Fill; Kaua.Min 1; Kaua.Pct 20] in let e := extent_of Kaua.Vertical r in
  (total (bases cs e) ≤ e → ∃ share, 0 ≤ share ∧ sized_all share cs (bases cs e) lens ∧ (0 < flex_count cs → total lens = e)) ∧
  (e ≤ total (bases cs e) → lens = clipped e (bases cs e)).
Proof.
  apply (layout_tiles (Kaua.mkLayout Kaua.Vertical [Kaua.Length 3; Kaua.Fill; Kaua.Min 1; Kaua.Pct 20] 1) (Kaua.mkRect 2 3 20 12)); [unfold on_plane; cbn; lia|cbn; lia| |cbn; lia].
  repeat constructor; done.
Defined.

End KauaClaims.
