(* ===== verification/Chords.v ===== *)
(** * The compositor's keyboard: keymap, chord table and routing

    The keymap and the modifiers (usr/lictor/src/keymap.rs, which usr/tapestryd
    re-exports), the table of chord bindings with its grammar
    (usr/tapestryd/src/chords.rs), and the way of a key from the device to a surface:
    the Super plane and the owner of each pressed key (usr/tapestryd/src/server.rs,
    chord_key and key_event; main.rs, the keyboard drain).  A key code is a [Z] below
    2^16, a surface slot a [nat], a string the list of its characters. *)

From stdpp Require Import strings.
From S2P Require Import Prelude Digits PaneData Vt.
Import PaneData.
Open Scope Z_scope.

Module Chords.

Notation lit := Vt.lit.

(** ** The keymap *)

Definition MOD_SHIFT : Z := 1.
Definition MOD_CTRL : Z := 2.
Definition MOD_ALT : Z := 4.
Definition MOD_SUPER : Z := 8.
Record Mods := mkMods { shift_l : bool; shift_r : bool; ctrl_l : bool; ctrl_r : bool; alt_l : bool; alt_r : bool; super_l : bool; super_r : bool }.
Definition mods_default : Mods := mkMods false false false false false false false false.
(** The state after a key, if it is a modifier. *)
Definition mods_update (code : Z) (p : bool) (m : Mods) : option Mods :=
  let 'mkMods sl sr cl cr al ar ul ur := m in
  if code =? 42 then Some (mkMods p sr cl cr al ar ul ur)
  else if code =? 54 then Some (mkMods sl p cl cr al ar ul ur)
  else if code =? 29 then Some (mkMods sl sr p cr al ar ul ur)
  else if code =? 97 then Some (mkMods sl sr cl p al ar ul ur)
  else if code =? 56 then Some (mkMods sl sr cl cr p ar ul ur)
  else if code =? 100 then Some (mkMods sl sr cl cr al p ul ur)
  else if code =? 125 then Some (mkMods sl sr cl cr al ar p ur)
  else if code =? 126 then Some (mkMods sl sr cl cr al ar ul p)
  else None.
Definition mask (m : Mods) : Z :=
  let bit (b : bool) k v := if b then Z.lor v k else v in
  bit (super_l m || super_r m) MOD_SUPER (bit (alt_l m || alt_r m) MOD_ALT (bit (ctrl_l m || ctrl_r m) MOD_CTRL (bit (shift_l m || shift_r m) MOD_SHIFT 0))).
Fixpoint assoc {A} (k : Z) (l : list (Z * A)) : option A :=
  match l with [] => None | (k', v) :: l => if k =? k' then Some v else assoc k l end.
(** The characters of a key, plain and shifted. *)
Definition QWERTY : list (Z * (Z * Z)) :=
  [(41, (96, 126)); (2, (49, 33)); (3, (50, 64)); (4, (51, 35)); (5, (52, 36)); (6, (53, 37)); (7, (54, 94)); (8, (55, 38)); (9, (56, 42));
   (10, (57, 40)); (11, (48, 41)); (12, (45, 95)); (13, (61, 43)); (16, (113, 81)); (17, (119, 87)); (18, (101, 69)); (19, (114, 82));
   (20, (116, 84)); (21, (121, 89)); (22, (117, 85)); (23, (105, 73)); (24, (111, 79)); (25, (112, 80)); (26, (91, 123)); (27, (93, 125));
   (43, (92, 124)); (30, (97, 65)); (31, (115, 83)); (32, (100, 68)); (33, (102, 70)); (34, (103, 71)); (35, (104, 72)); (36, (106, 74));
   (37, (107, 75)); (38, (108, 76)); (39, (59, 58)); (40, (39, 34)); (44, (122, 90)); (45, (120, 88)); (46, (99, 67)); (47, (118, 86));
   (48, (98, 66)); (49, (110, 78)); (50, (109, 77)); (51, (44, 60)); (52, (46, 62)); (53, (47, 63));
   (57, (32, 32)); (28, (13, 13)); (15, (9, 9)); (14, (8, 8)); (1, (27, 27))].
Definition resolve (code mods : Z) : Z :=
  let shift := negb (Z.land mods MOD_SHIFT =? 0) in
  let base := match assoc code QWERTY with Some (plain, shifted) => if shift then shifted else plain | None => 0 end in
  if base =? 0 then 0
  else if negb (Z.land mods MOD_CTRL =? 0) then
    let lower := if (65 <=? base) && (base <=? 90) then base + 32 else base in
    if (97 <=? lower) && (lower <=? 122) then lower - 97 + 1 else base
  else base.

(** ** The chord table *)

Inductive ChordAction :=
  | FocusDir (d : Dir) | MoveDir (d : Dir) | Split (m : Mode) | SetMode (m : Mode) | Zoom | Picker | Help | SplitToggle | TabCycle (forward : bool)
  | Close | History | ScaleStep (s : Z) | ScaleReset | Workspace (n : Z) | MoveToWorkspace (n : Z) | NewTile.
Record Bind := mkBind { b_key : Z; b_shift : bool; b_action : ChordAction }.
Definition GAPS_MAX : Z := 32.
Record Chords := mkChords { binds : list Bind; gaps : Z }.

Definition KEY_1 : Z := 2.
Definition KEY_2 : Z := 3.
Definition KEY_3 : Z := 4.
Definition KEY_4 : Z := 5.
Definition KEY_5 : Z := 6.
Definition KEY_6 : Z := 7.
Definition KEY_7 : Z := 8.
Definition KEY_8 : Z := 9.
Definition KEY_9 : Z := 10.
Definition KEY_0 : Z := 11.
Definition KEY_MINUS : Z := 12.
Definition KEY_EQUAL : Z := 13.
Definition KEY_TAB : Z := 15.
Definition KEY_Q : Z := 16.
Definition KEY_E : Z := 18.
Definition KEY_T : Z := 20.
Definition KEY_SLASH : Z := 53.
Definition KEY_S : Z := 31.
Definition KEY_F : Z := 33.
Definition KEY_H : Z := 35.
Definition KEY_N : Z := 49.
Definition KEY_K : Z := 37.
Definition KEY_V : Z := 47.
Definition KEY_UP : Z := 103.
Definition KEY_LEFT : Z := 105.
Definition KEY_RIGHT : Z := 106.
Definition KEY_DOWN : Z := 108.

Definition CODES : list (list Z * Z) :=
  (λ nc, (lit nc.1, nc.2)) <$>
  [("a", 30); ("b", 48); ("c", 46); ("d", 32); ("e", 18); ("f", 33); ("g", 34); ("h", 35); ("i", 23); ("j", 36); ("k", 37); ("l", 38); ("m", 50);
   ("n", 49); ("o", 24); ("p", 25); ("q", 16); ("r", 19); ("s", 31); ("t", 20); ("u", 22); ("v", 47); ("w", 17); ("x", 45); ("y", 21); ("z", 44);
   ("tab", KEY_TAB); ("up", KEY_UP); ("left", KEY_LEFT); ("right", KEY_RIGHT); ("down", KEY_DOWN); ("1", KEY_1); ("2", KEY_2); ("3", KEY_3);
   ("4", KEY_4); ("5", KEY_5); ("6", KEY_6); ("7", KEY_7); ("8", KEY_8); ("9", KEY_9); ("0", KEY_0); ("minus", KEY_MINUS); ("equal", KEY_EQUAL);
   ("slash", KEY_SLASH)].
Definition key_code (name : list Z) : option Z := snd <$> List.find (λ nc, bool_decide (nc.1 = name)) CODES.
Definition NAMES : list (Z * list Z) :=
  (λ cn, (cn.1, lit cn.2)) <$>
  [(30, "a"); (48, "b"); (46, "c"); (32, "d"); (18, "e"); (33, "f"); (34, "g"); (35, "h"); (23, "i"); (36, "j"); (37, "k"); (38, "l"); (50, "m");
   (49, "n"); (24, "o"); (25, "p"); (16, "q"); (19, "r"); (31, "s"); (20, "t"); (22, "u"); (47, "v"); (17, "w"); (45, "x"); (21, "y"); (44, "z");
   (KEY_TAB, "tab"); (KEY_UP, "up"); (KEY_LEFT, "left"); (KEY_RIGHT, "right"); (KEY_DOWN, "down"); (KEY_1, "1"); (KEY_2, "2"); (KEY_3, "3");
   (KEY_4, "4"); (KEY_5, "5"); (KEY_6, "6"); (KEY_7, "7"); (KEY_8, "8"); (KEY_9, "9"); (KEY_0, "0"); (KEY_MINUS, "minus"); (KEY_EQUAL, "equal");
   (KEY_SLASH, "slash")].
Definition key_name (code : Z) : option (list Z) := assoc code NAMES.
Definition WORKSPACE_NAMES : list (list Z) := lit <$> ["workspace-1"; "workspace-2"; "workspace-3"; "workspace-4"; "workspace-5"; "workspace-6"; "workspace-7"; "workspace-8"; "workspace-9"].
Definition MOVE_TO_NAMES : list (list Z) := lit <$> ["move-to-1"; "move-to-2"; "move-to-3"; "move-to-4"; "move-to-5"; "move-to-6"; "move-to-7"; "move-to-8"; "move-to-9"].
(** [names\[(n.clamp(1, 9) - 1) as usize\]], which is in range. *)
Definition ninth (names : list (list Z)) (n : Z) : list Z := default [] (names !! Z.to_nat (Z.max 1 (Z.min n 9) - 1)).
Definition action_name (a : ChordAction) : list Z :=
  match a with
  | FocusDir Left => lit "focus-left" | FocusDir Right => lit "focus-right" | FocusDir Up => lit "focus-up" | FocusDir Down => lit "focus-down"
  | MoveDir Left => lit "move-left" | MoveDir Right => lit "move-right" | MoveDir Up => lit "move-up" | MoveDir Down => lit "move-down"
  | Split SplitH => lit "split-h" | Split SplitV => lit "split-v" | Split _ => lit "split-h"
  | SplitToggle => lit "split-toggle" | Zoom => lit "zoom" | Picker => lit "picker" | Help => lit "help"
  | SetMode Tabbed => lit "tab" | SetMode _ => lit "stack"
  | TabCycle true => lit "cycle" | TabCycle false => lit "cycle-back"
  | Close => lit "close" | History => lit "history"
  | ScaleStep s => if 0 <? s then lit "scale-up" else lit "scale-down"
  | ScaleReset => lit "scale-reset" | NewTile => lit "new-tile"
  | Workspace n => ninth WORKSPACE_NAMES n
  | MoveToWorkspace n => ninth MOVE_TO_NAMES n
  end.
(** [str::parse::<u8>]: a plus sign is allowed, and more digits than it needs. *)
Definition parse_u8 (s : list Z) : option Z :=
  let ds := match s with 43 :: r => r | _ => s end in
  match ds with
  | [] => None
  | _ => if forallb Digits.is_ascii_digit ds && (Digits.value 0 ds <=? 255) then Some (Digits.value 0 ds) else None
  end.
Definition ACTIONS : list (list Z * ChordAction) :=
  (λ na, (lit na.1, na.2)) <$>
  [("focus-left", FocusDir Left); ("focus-right", FocusDir Right); ("focus-up", FocusDir Up); ("focus-down", FocusDir Down);
   ("move-left", MoveDir Left); ("move-right", MoveDir Right); ("move-up", MoveDir Up); ("move-down", MoveDir Down); ("split-h", Split SplitH);
   ("split-v", Split SplitV); ("split-toggle", SplitToggle); ("zoom", Zoom); ("picker", Picker); ("help", Help); ("tab", SetMode Tabbed);
   ("stack", SetMode Stacked); ("cycle", TabCycle true); ("cycle-back", TabCycle false); ("close", Close); ("history", History);
   ("scale-up", ScaleStep 1); ("scale-down", ScaleStep (-1)); ("scale-reset", ScaleReset); ("new-tile", NewTile)].
(** [Some None] is the unbind token. *)
Definition action_of (name : list Z) : option (option ChordAction) :=
  match List.find (λ na, bool_decide (na.1 = name)) ACTIONS with
  | Some (_, a) => Some (Some a)
  | None =>
      if bool_decide (name = lit "none") then Some None else
      let numbered (mk : Z → ChordAction) rest :=
        match parse_u8 rest with Some n => if (1 <=? n) && (n <=? 9) then Some (Some (mk n)) else None | None => None end in
      match Vt.strip_prefix (lit "workspace-") name with
      | Some rest => numbered Workspace rest
      | None =>
          match Vt.strip_prefix (lit "move-to-") name with
          | Some rest => numbered MoveToWorkspace rest
          | None => None
          end
      end
  end.

Definition chords_new : Chords :=
  mkChords [mkBind KEY_LEFT false (FocusDir Left); mkBind KEY_RIGHT false (FocusDir Right); mkBind KEY_UP false (FocusDir Up);
             mkBind KEY_DOWN false (FocusDir Down); mkBind KEY_LEFT true (MoveDir Left); mkBind KEY_RIGHT true (MoveDir Right);
             mkBind KEY_UP true (MoveDir Up); mkBind KEY_DOWN true (MoveDir Down); mkBind KEY_H false (Split SplitH);
             mkBind KEY_V false (Split SplitV); mkBind KEY_F false (Zoom); mkBind KEY_T false (Picker); mkBind KEY_T true (SetMode Tabbed);
             mkBind KEY_S false (SetMode Stacked); mkBind KEY_N false (NewTile); mkBind KEY_SLASH false (Help); mkBind KEY_E false (SplitToggle);
             mkBind KEY_TAB false (TabCycle true); mkBind KEY_TAB true (TabCycle false); mkBind KEY_Q true (Close); mkBind KEY_K false (History);
             mkBind KEY_EQUAL false (ScaleStep 1); mkBind KEY_MINUS false (ScaleStep (-1)); mkBind KEY_0 false (ScaleReset);
             mkBind KEY_1 false (Workspace 1); mkBind KEY_2 false (Workspace 2); mkBind KEY_3 false (Workspace 3); mkBind KEY_4 false (Workspace 4);
             mkBind KEY_5 false (Workspace 5); mkBind KEY_6 false (Workspace 6); mkBind KEY_7 false (Workspace 7); mkBind KEY_8 false (Workspace 8);
             mkBind KEY_9 false (Workspace 9); mkBind KEY_1 true (MoveToWorkspace 1); mkBind KEY_2 true (MoveToWorkspace 2);
             mkBind KEY_3 true (MoveToWorkspace 3); mkBind KEY_4 true (MoveToWorkspace 4); mkBind KEY_5 true (MoveToWorkspace 5);
             mkBind KEY_6 true (MoveToWorkspace 6); mkBind KEY_7 true (MoveToWorkspace 7); mkBind KEY_8 true (MoveToWorkspace 8);
             mkBind KEY_9 true (MoveToWorkspace 9)] 1.
Definition reset (c : Chords) : Chords := mkChords (binds chords_new) (gaps c).
Definition is_bind (key : Z) (shift : bool) (b : Bind) : bool := (b_key b =? key) && Bool.eqb (b_shift b) shift.
Definition lookup (key : Z) (shift : bool) (c : Chords) : option ChordAction := b_action <$> List.find (is_bind key shift) (binds c).

(** [split(sep)]. *)
Fixpoint split_on (sep : Z) (s : list Z) : list (list Z) :=
  match s with
  | [] => [[]]
  | c :: s => if c =? sep then [] :: split_on sep s else match split_on sep s with w :: ws => (c :: w) :: ws | [] => [[c]] end
  end.
(** The tokens in turn: Super seen, Shift seen, the key. *)
Fixpoint combo_loop (toks : list (list Z)) (super shift : bool) (key : option Z) : option (bool * bool * option Z) :=
  match toks with
  | [] => Some (super, shift, key)
  | tok :: toks =>
      match tok, key with
      | [], _ | _, Some _ => None
      | _, None =>
          if bool_decide (tok = lit "super") then combo_loop toks true shift key
          else if bool_decide (tok = lit "shift") then combo_loop toks super true key
          else match key_code tok with Some k => combo_loop toks super shift (Some k) | None => None end
      end
  end.
Definition parse_combo (combo : list Z) : option (Z * bool) :=
  match combo_loop (split_on 43 combo) false false None with
  | Some (true, shift, Some k) => Some (k, shift)
  | _ => None
  end.
(** [None] is [Err]. *)
Definition bind (combo action : list Z) (c : Chords) : option Chords :=
  match parse_combo combo, action_of action with
  | Some (key, shift), Some act =>
      let rest := List.filter (λ b, negb (is_bind key shift b)) (binds c) in
      Some (mkChords (match act with Some a => rest ++ [mkBind key shift a] | None => rest end) (gaps c))
  | _, _ => None
  end.
Definition render_bind (b : Bind) : list Z :=
  match key_name (b_key b) with
  | Some key => lit "super+" ++ (if b_shift b then lit "shift+" else []) ++ key ++ [32] ++ action_name (b_action b) ++ [10]
  | None => []
  end.
Definition render (c : Chords) : list Z := concat (render_bind <$> binds c).
Definition set_gaps (px : Z) (c : Chords) : option Chords := if GAPS_MAX <? px then None else Some (mkChords (binds c) px).
(** The [chord] verb of the control file: what follows it, in words. *)
Definition ascii_ws (c : Z) : bool := existsb (Z.eqb c) [9; 10; 12; 13; 32].
Fixpoint words (s : list Z) : list (list Z) :=
  match s with
  | [] => []
  | c :: s => if ascii_ws c then words s else
      match s with
      | [] => [[c]]
      | d :: _ => if ascii_ws d then [c] :: words s else match words s with w :: ws => (c :: w) :: ws | [] => [[c]] end
      end
  end.
Definition chord_verb (s : list Z) (c : Chords) : option Chords :=
  match words s with [combo; action] => bind combo action c | _ => None end.

(** ** The way of a key *)

Definition KEY_ESC : Z := 1.
Definition KEYCODE_SPAN : nat := 1024.
Definition OWNER_SWALLOWED : Z := 0xffff.
Definition OWNER_DRAG : Z := 0xfffe.
Definition key_idx (code : Z) : nat := Z.to_nat (Z.land code (Z.of_nat KEYCODE_SPAN - 1)).
Definition owner_pack (n : nat) (gen : Z) : Z := Z.lor (Z.shiftl gen 16) (Z.of_nat n + 1).
Definition owner_unpack (v : Z) : option (nat * Z) :=
  let slot := Z.land v 0xffff in
  if (slot =? 0) || (slot =? OWNER_SWALLOWED) || (slot =? OWNER_DRAG) then None
  else Some (Z.to_nat (slot - 1), Z.shiftr v 16).

Record Keys := mkKeys { mods : Mods; chord_down : list Z; key_owner : list Z; chords : Chords }.
Definition keys_new : Keys := mkKeys mods_default (replicate (KEYCODE_SPAN / 64) 0) (replicate KEYCODE_SPAN 0) chords_new.
(** What routing reads of the compositor at a key: the placed menu's surface, whether
    a divider is dragged, the focused surface, and the generation of each slot. *)
Record Routing := mkRouting { menu : option nat; drag : bool; focused : option nat; gen_of : nat → option Z }.
(** A key event queued for a surface. *)
Record Sent := mkSent { to : nat; s_code : Z; s_value : Z }.

Definition with_down (d : list Z) (k : Keys) : Keys := mkKeys (mods k) d (key_owner k) (chords k).
Definition with_owner (o : list Z) (k : Keys) : Keys := mkKeys (mods k) (chord_down k) o (chords k).
Definition with_mods (m : Mods) (k : Keys) : Keys := mkKeys m (chord_down k) (key_owner k) (chords k).
Definition with_chords (c : Chords) (k : Keys) : Keys := mkKeys (mods k) (chord_down k) (key_owner k) c.

Definition bit_of (i : nat) : Z := Z.shiftl 1 (Z.of_nat (i mod 64)).
Definition chord_bit (code : Z) (k : Keys) : outcome bool :=
  let i := key_idx code in
  w ← unwrap (chord_down k !! (i / 64)%nat);
  Done (negb (Z.land w (bit_of i) =? 0)).
Definition chord_bit_set (code : Z) (on : bool) (k : Keys) : outcome Keys :=
  let i := key_idx code in
  w ← unwrap (chord_down k !! (i / 64)%nat);
  let w := if on then Z.lor w (bit_of i) else Z.land w (Z.lxor (u_max 64) (bit_of i)) in
  Done (with_down (<[(i / 64)%nat := w]> (chord_down k)) k).
(** Whether the key is consumed, the action it is bound to if it acts, and the state. *)
Definition chord_key (code value mods : Z) (k : Keys) : outcome (bool * option ChordAction * Keys) :=
  down ← chord_bit code k;
  if value =? 0 then
    if (down : bool) then k ← chord_bit_set code false k; Done (true, None, k) else Done (false, None, k)
  else
    let super_held := negb (Z.land mods MOD_SUPER =? 0) in
    if value =? 2 then Done (down || super_held, None, k)
    else if negb super_held then Done (false, None, k)
    else
      k ← chord_bit_set code true k;
      Done (true, lookup code (negb (Z.land mods MOD_SHIFT =? 0)) (chords k), k).
Definition push_key (n : nat) (code value : Z) : list Sent := [mkSent n code value].
(** The events queued (none or one), and the state. *)
Definition key_event (r : Routing) (code value rune : Z) (k : Keys) : outcome (list Sent * Keys) :=
  let ki := key_idx code in
  v ← unwrap (key_owner k !! ki);
  let k := if value =? 0 then with_owner (<[ki := 0]> (key_owner k)) k else k in
  let esc := (1 <=? value) && ((code =? KEY_ESC) || (rune =? 27)) in
  let live :=
    let deliver n :=
      Done (push_key n code value,
            if value =? 1 then with_owner (<[ki := owner_pack n (default 0 (gen_of r n))]> (key_owner k)) k else k) in
    match menu r with
    | Some n => if esc then k ← chord_bit_set code true k; Done ([], k) else deliver n
    | None =>
        if drag r && esc then k ← chord_bit_set code true k; Done ([], k)
        else match focused r with Some n => deliver n | None => Done ([], k) end
    end in
  if value =? 1 then live else
  match owner_unpack v with
  | Some (n, gen) => Done (if bool_decide (gen_of r n = Some gen) then push_key n code value else [], k)
  | None => live
  end.
(** One key of the keyboard's drain. *)
Definition on_key (r : Routing) (code value : Z) (k : Keys) : outcome (list Sent * option ChordAction * Keys) :=
  let pressed := negb (value =? 0) in
  let '(was_mod, m) := match mods_update code pressed (mods k) with Some m => (true, m) | None => (false, mods k) end in
  let k := with_mods m k in
  '(consumed, act, k) ← (if (was_mod : bool) then Done (false, None, k) else chord_key code value (mask m) k);
  if (consumed : bool) then Done ([], act, k) else
  let rune := if pressed then resolve code (mask m) else 0 in
  '(sent, k) ← key_event r code value rune k;
  Done (sent, None, k).
(** The keys' share of [seat_resumed], with the modifiers reset. *)
Definition seat_resumed (r : Routing) (k : Keys) : outcome (list Sent * Keys) :=
  '(sent, k) ← foldM (λ sk code,
      v ← unwrap (key_owner sk.2 !! code);
      if v =? 0 then Done sk else
      '(s, k) ← key_event r (Z.of_nat code) 0 0 sk.2; Done (sk.1 ++ s, k)) ([], with_mods mods_default k) (seq 0 KEYCODE_SPAN);
  Done (sent, with_down (replicate (KEYCODE_SPAN / 64) 0) (with_owner (replicate KEYCODE_SPAN 0) k)).

End Chords.
