(* ===== verification/ChordsClaims.v ===== *)
(** * The compositor's keyboard: what it promises

    The chord table as a map of the keys it can name, which its own text rebuilds; and
    the way of a key as a fate per key, which the bits and the packed owners refine. *)

From stdpp Require Import strings functions.
From S2P Require Import Prelude Digits PaneData Vt Chords.
Import PaneData Chords.
Open Scope Z_scope.

Module ChordsClaims.

(** ** The grammar *)

(** The actions the grammar names. *)
Definition vocabulary : list ChordAction := (snd <$> ACTIONS) ++ (Workspace <$> seqZ 1 9) ++ (MoveToWorkspace <$> seqZ 1 9).
Definition spaceless (s : list Z) : Prop := s ≠ [] ∧ forallb (λ c, negb (ascii_ws c)) s = true.

#[global] Instance Dir_eq_dec : EqDecision Dir.
Proof. solve_decision. Defined.
#[global] Instance ChordAction_eq_dec : EqDecision ChordAction.
Proof. solve_decision. Defined.
#[global] Instance spaceless_dec s : Decision (spaceless s).
Proof. unfold spaceless. apply _. Defined.

Lemma vocabulary_reads : Forall (λ a, action_of (action_name a) = Some (Some a) ∧ spaceless (action_name a)) vocabulary.
Proof. apply (bool_decide_unpack _). vm_compute. done. Qed.
Lemma numbered_range n : (1 <=? n) && (n <=? 9) = true → n ∈ seqZ 1 9.
Proof. intros [H1%Z.leb_le H2%Z.leb_le]%andb_true_iff. apply elem_of_seqZ. lia. Qed.
Lemma action_of_vocabulary s a : action_of s = Some (Some a) → a ∈ vocabulary.
Proof.
  unfold action_of, vocabulary. destruct (List.find _ ACTIONS) as [[n a']|] eqn:Ef.
  - intros [= ->]. apply List.find_some in Ef as [Hin _]. apply elem_of_app. left. apply list_elem_of_fmap. exists (n, a). split; [done|by apply list_elem_of_In].
  - case_bool_decide; [done|]. cbv zeta.
    destruct (Vt.strip_prefix _ s) as [r|]; [|destruct (Vt.strip_prefix _ s) as [r|]; [|done]]; (destruct (parse_u8 r) as [n|]; [|done]); (destruct (_ && _) eqn:En; [|done]); intros [= <-];
    apply elem_of_app; right; apply elem_of_app; [left|right]; apply list_elem_of_fmap; eexists; (split; [reflexivity|by apply numbered_range]).
Qed.
(** A combination, as the table prints it. *)
Definition combo_of (shift : bool) (name : list Z) : list Z := lit "super+" ++ (if shift then lit "shift+" else []) ++ name.
Lemma names_read : Forall (λ cn, key_name cn.1 = Some cn.2 ∧ Forall (λ shift, parse_combo (combo_of shift cn.2) = Some (cn.1, shift) ∧ spaceless (combo_of shift cn.2)) [true; false]) NAMES.
Proof. apply (bool_decide_unpack _). vm_compute. done. Qed.
Lemma codes_named : Forall (λ nc, Exists (λ cn, cn.1 = nc.2) NAMES) CODES.
Proof. apply (bool_decide_unpack _). vm_compute. done. Qed.
Lemma code_named k : Exists (λ cn, cn.1 = k) NAMES → ∃ n, (k, n) ∈ NAMES.
Proof. intros ([c n] & Hin & E)%Exists_exists. cbn in E. subst c. by exists n. Qed.
Lemma key_code_named tok k : key_code tok = Some k → ∃ n, (k, n) ∈ NAMES.
Proof.
  unfold key_code. destruct (List.find _ CODES) as [[m c]|] eqn:Ef; [|done]. intros [= <-]. apply List.find_some in Ef as [Hin%list_elem_of_In _].
  pose proof codes_named as Hn. rewrite Forall_forall in Hn. apply code_named, (Hn _ Hin).
Qed.
Lemma combo_named toks : ∀ super shift key s sh k, combo_loop toks super shift key = Some (s, sh, Some k) → (∃ k', key = Some k' ∧ k' = k) ∨ ∃ n, (k, n) ∈ NAMES.
Proof.
  induction toks as [|tok toks IH]; intros super shift key s sh k; cbn [combo_loop]; [intros [= -> -> ->]; eauto|].
  destruct tok as [|c tok]; [done|]. destruct key as [k'|]; [done|]. case_bool_decide; [intros [(? & ? & _)|?]%IH; [done|auto]|]. case_bool_decide; [intros [(? & ? & _)|?]%IH; [done|auto]|].
  destruct (key_code _) as [k'|] eqn:Ek; [|done]. intros [(k2 & [= <-] & <-)|?]%IH; [|auto]. right. by eapply key_code_named.
Qed.
Lemma parse_combo_named combo k sh : parse_combo combo = Some (k, sh) → ∃ n, (k, n) ∈ NAMES.
Proof.
  unfold parse_combo. destruct (combo_loop _ _ _ _) as [[[[] sh'] [k'|]]|] eqn:E; try done. intros [= -> ->]. apply combo_named in E as [(? & ? & _)|?]; done.
Qed.

(** ** Words and lines *)

Lemma words_one w : spaceless w → words w = [w].
Proof.
  intros [Hne Hs]. induction w as [|c w IH]; [done|]. cbn [forallb] in Hs. apply andb_true_iff in Hs as [Hc%negb_true_iff Hs]. cbn [words]. rewrite Hc. destruct w as [|d w]; [done|].
  rewrite (IH ltac:(done) Hs). cbn [forallb] in Hs. apply andb_true_iff in Hs as [Hd%negb_true_iff _]. by rewrite Hd.
Qed.
Lemma words_sep w c r : spaceless w → ascii_ws c = true → words (w ++ c :: r) = w :: words r.
Proof.
  intros [Hne Hs] Hc. induction w as [|d w IH]; [done|]. cbn [forallb] in Hs. apply andb_true_iff in Hs as [Hd%negb_true_iff Hs]. cbn [words app]. rewrite Hd. destruct w as [|d' w].
  - cbn [app]. rewrite Hc. cbn [words]. by rewrite Hc.
  - rewrite (IH ltac:(done) Hs). cbn [app]. cbn [forallb] in Hs. apply andb_true_iff in Hs as [Hd'%negb_true_iff _]. by rewrite Hd'.
Qed.
Lemma split_line sep l s : sep ∉ l → split_on sep (l ++ sep :: s) = l :: split_on sep s.
Proof.
  induction l as [|c l IH]; intros Hn; cbn [app split_on]; [by rewrite Z.eqb_refl|]. rewrite elem_of_cons in Hn. rewrite (proj2 (Z.eqb_neq c sep)) by naive_solver. rewrite IH by tauto. done.
Qed.
(** The lines of a text, each with its end. *)
Definition text_lines (s : list Z) : list (list Z) := let ls := split_on 10 s in take (length ls - 1) ls.
Lemma text_lines_concat ls : Forall (λ l, (10%Z : Z) ∉ l) ls → text_lines (concat ((λ l, l ++ [10]) <$> ls)) = ls.
Proof.
  intros H. unfold text_lines. assert (split_on 10 (concat ((λ l, l ++ [10]) <$> ls)) = ls ++ [[]]) as ->.
  { induction H as [|l ls Hl _ IH]; [done|]. cbn [fmap list_fmap concat]. rewrite <-app_assoc. cbn [app]. rewrite split_line by done. by rewrite IH. }
  cbv zeta. rewrite length_app, Nat.add_sub. apply take_app_length.
Qed.
Lemma spaceless_line s : spaceless s → (10%Z : Z) ∉ s.
Proof. intros [_ H] Hin. rewrite forallb_forall in H. apply list_elem_of_In in Hin. apply H in Hin. done. Qed.

(** ** The table *)

Definition key_of (b : Bind) : Z * bool := (b_key b, b_shift b).
Definition bind_ok (b : Bind) : Prop := (∃ n, (b_key b, n) ∈ NAMES) ∧ b_action b ∈ vocabulary.
(** One binding per key, of keys and actions the grammar names, and a gap within the
    bound. *)
Record table_ok (c : Chords) : Prop := mkTable { t_keys : NoDup (key_of <$> binds c); t_binds : Forall bind_ok (binds c); t_gaps : 0 ≤ gaps c ≤ GAPS_MAX }.

Lemma is_bind_key k s b : is_bind k s b = true ↔ key_of b = (k, s).
Proof. unfold is_bind, key_of. rewrite andb_true_iff, Z.eqb_eq, Bool.eqb_true_iff. naive_solver. Qed.
Lemma chords_new_ok : table_ok chords_new.
Proof.
  split; [apply (bool_decide_unpack _); vm_compute; done| |done].
  assert (Forall (λ b, Exists (λ cn, cn.1 = b_key b) NAMES ∧ action_of (action_name (b_action b)) = Some (Some (b_action b))) (binds chords_new)) as H by (apply (bool_decide_unpack _); vm_compute; done).
  eapply Forall_impl; [exact H|]. intros b [Hk Ha]. split; [by apply code_named|by eapply action_of_vocabulary].
Qed.
Lemma filter_keys k s l : key_of <$> List.filter (λ b, negb (is_bind k s b)) l = List.filter (λ ks, negb (bool_decide (ks = (k, s)))) (key_of <$> l).
Proof.
  induction l as [|b l IH]; [done|]. cbn [List.filter fmap list_fmap]. assert (is_bind k s b = bool_decide (key_of b = (k, s))) as ->.
  { apply Bool.eq_iff_eq_true. by rewrite is_bind_key, bool_decide_eq_true. }
  case_bool_decide; cbn [negb]; [done|]. cbn [fmap list_fmap]. by rewrite IH.
Qed.
Lemma in_filter {A} (f : A → bool) x l : x ∈ List.filter f l ↔ x ∈ l ∧ f x = true.
Proof. by rewrite !list_elem_of_In, List.filter_In. Qed.
Lemma bind_keeps combo action c c' : table_ok c → bind combo action c = Some c' → table_ok c'.
Proof.
  intros [Hn Hb Hg]. unfold bind. destruct (parse_combo combo) as [[k s]|] eqn:Ec; [|done]. destruct (action_of action) as [act|] eqn:Ea; [|done]. cbv zeta. intros [= <-].
  assert (NoDup (key_of <$> List.filter (λ b, negb (is_bind k s b)) (binds c))) as Hn'. { rewrite filter_keys. apply NoDup_ListNoDup, List.NoDup_filter, NoDup_ListNoDup, Hn. }
  assert (Forall bind_ok (List.filter (λ b, negb (is_bind k s b)) (binds c))) as Hb'. { apply Forall_forall. intros b [Hin _]%in_filter. rewrite Forall_forall in Hb. auto. }
  destruct act as [a|]; [|by split]. split; cbn [binds gaps]; [| |done].
  - rewrite fmap_app. apply NoDup_app. split; [done|]. split; [|apply NoDup_singleton]. intros x Hx%list_elem_of_fmap Hx'. apply list_elem_of_singleton in Hx'. cbn in Hx'. subst x.
    destruct Hx as (b & E & [_ Hf]%in_filter). apply negb_true_iff in Hf. assert (is_bind k s b = true) by (by apply is_bind_key). congruence.
  - apply Forall_app. split; [done|]. constructor; [|done]. split; [by eapply parse_combo_named|by eapply action_of_vocabulary].
Qed.
(** What a binding changes. *)
Lemma find_other k s k' s' l : (k', s') ≠ (k, s) → List.find (is_bind k' s') (List.filter (λ b, negb (is_bind k s b)) l) = List.find (is_bind k' s') l.
Proof.
  intros Hne. induction l as [|b l IH]; [done|]. cbn [List.filter List.find]. destruct (is_bind k s b) eqn:E; cbn [negb].
  - rewrite IH. destruct (is_bind k' s' b) eqn:E'; [|done]. apply is_bind_key in E, E'. congruence.
  - cbn [List.find]. by rewrite IH.
Qed.
Lemma find_gone k s l : List.find (is_bind k s) (List.filter (λ b, negb (is_bind k s b)) l) = None.
Proof. induction l as [|b l IH]; [done|]. cbn [List.filter]. destruct (is_bind k s b) eqn:E; cbn [negb List.find]; [done|]. by rewrite E. Qed.
Lemma find_app_gen {A} (f : A → bool) l l' : List.find f (l ++ l') = match List.find f l with Some x => Some x | None => List.find f l' end.
Proof. induction l as [|x l IH]; [done|]. cbn. by destruct (f x). Qed.
Lemma bind_lookup combo action c c' : bind combo action c = Some c' → ∃ k s act, parse_combo combo = Some (k, s) ∧ action_of action = Some act ∧ lookup k s c' = act ∧
  ∀ k' s', (k', s') ≠ (k, s) → lookup k' s' c' = lookup k' s' c.
Proof.
  unfold bind. destruct (parse_combo combo) as [[k s]|]; [|done]. destruct (action_of action) as [act|]; [|done]. cbv zeta. intros [= <-]. exists k, s, act. split; [done|]. split; [done|]. unfold lookup. cbn [binds].
  assert (is_bind k s = λ b, is_bind k s b) as _ by done. split.
  - destruct act as [a|]; [rewrite find_app_gen, find_gone; cbn; unfold is_bind; cbn; by rewrite Z.eqb_refl, Bool.eqb_reflx|by rewrite find_gone].
  - intros k' s' Hne. destruct act as [a|]; [rewrite find_app_gen|]; rewrite find_other by done; [|done]. destruct (List.find _ (binds c)); [done|]. cbn. destruct (is_bind k' s' _) eqn:E; [|done].
    apply is_bind_key in E. change ((k, s) = (k', s')) in E. congruence.
Qed.
(** The table's text, read again. *)
Definition line_of (b : Bind) : list Z := combo_of (b_shift b) (default [] (key_name (b_key b))) ++ [32] ++ action_name (b_action b).
Lemma line_reads b : bind_ok b → render_bind b = line_of b ++ [10] ∧ (10%Z : Z) ∉ line_of b ∧
  words (line_of b) = [combo_of (b_shift b) (default [] (key_name (b_key b))); action_name (b_action b)] ∧
  parse_combo (combo_of (b_shift b) (default [] (key_name (b_key b)))) = Some (key_of b) ∧ action_of (action_name (b_action b)) = Some (Some (b_action b)).
Proof.
  intros [[n Hn] Ha]. pose proof names_read as Hr. rewrite Forall_forall in Hr. destruct (Hr _ Hn) as [E Hc]. cbn [fst snd] in E, Hc. assert (b_shift b ∈ [true; false]) as Hb by (destruct (b_shift b); [left|right; left]). rewrite Forall_forall in Hc. destruct (Hc _ Hb) as [Hp Hs].
  pose proof vocabulary_reads as Hv. rewrite Forall_forall in Hv. destruct (Hv _ Ha) as [Ea Hsa]. unfold line_of, render_bind. rewrite E. cbn [default]. split; [unfold combo_of; by rewrite <-!app_assoc|]. split.
  - rewrite elem_of_app. cbn [app]. rewrite elem_of_cons. intros [H|[H|H]]; [by apply spaceless_line in Hs|done|by apply spaceless_line in Hsa].
  - split; [cbn [app]; rewrite words_sep by done; by rewrite words_one|]. by split.
Qed.
Definition reread (c0 : option Chords) (ls : list (list Z)) : option Chords := foldl (λ c l, c ← c; chord_verb l c) c0 ls.
Lemma reread_binds bs : ∀ done_ g, NoDup (key_of <$> (done_ ++ bs)) → Forall bind_ok bs → reread (Some (mkChords done_ g)) (line_of <$> bs) = Some (mkChords (done_ ++ bs) g).
Proof.
  induction bs as [|b bs IH]; intros done_ g Hn Hb; [by rewrite app_nil_r|]. apply Forall_cons in Hb as [Hb Hbs]. destruct (line_reads b Hb) as (_ & _ & Hw & Hp & Ha).
  unfold reread. cbn [fmap list_fmap foldl]. cbn [mbind option_bind]. unfold chord_verb at 2. rewrite Hw. unfold bind. rewrite Hp, Ha. cbv zeta. unfold key_of at 1. cbn [binds gaps].
  assert (List.filter (λ b0, negb (is_bind (b_key b) (b_shift b) b0)) done_ = done_) as ->.
  { rewrite fmap_app in Hn. apply NoDup_app in Hn as (_ & Hd & _). clear -Hd. induction done_ as [|b0 l IH]; [done|]. cbn [List.filter].
    destruct (is_bind (b_key b) (b_shift b) b0) eqn:E; cbn [negb]; [|f_equal; apply IH; intros x Hx; apply Hd; by right]. apply is_bind_key in E. exfalso. apply (Hd (key_of b0)); [left|]. cbn [fmap list_fmap]. rewrite E. left. }
  replace (mkBind (b_key b) (b_shift b) (b_action b)) with b by by destruct b. fold (reread (Some (mkChords (done_ ++ [b]) g)) (line_of <$> bs)). rewrite IH; [by rewrite <-app_assoc|by rewrite <-app_assoc|done].
Qed.

(** Commands to the table; a refused one changes nothing. *)
Inductive Command := Rebind (combo action : list Z) | Defaults | Gaps (px : N).
Definition command (c : Chords) (cmd : Command) : Chords :=
  match cmd with
  | Rebind combo action => default c (bind combo action c)
  | Defaults => reset c
  | Gaps px => default c (set_gaps (Z.of_N px) c)
  end.
Lemma command_ok c cmd : table_ok c → table_ok (command c cmd).
Proof.
  intros Hc. destruct cmd as [combo action| |px]; cbn [command].
  - destruct (bind combo action c) eqn:E; [by eapply bind_keeps|done].
  - destruct chords_new_ok. by split; [| |apply Hc].
  - unfold set_gaps. destruct (Z.ltb_spec GAPS_MAX (Z.of_N px)); [done|]. destruct Hc. split; [done|done|]. cbn. lia.
Qed.
Lemma commands_ok cmds : ∀ c, table_ok c → table_ok (foldl command c cmds).
Proof. induction cmds as [|cmd cmds IH]; intros c Hc; [done|]. cbn [foldl]. by apply IH, command_ok. Qed.

(** C8: The chord table, after any commands (rebinds and unbinds in any words, resets,
    gaps): its text, read line by line into an empty table by the [chord] verb,
    rebuilds it exactly, in order; a rebind is refused exactly when its combination or
    its action is no word of the grammar, and otherwise changes what that key is bound
    to, and nothing else; and the gap stays within its bound. *)
Theorem chords_hold cmds : let c := foldl command chords_new cmds in
  reread (Some (mkChords [] (gaps c))) (text_lines (render c)) = Some c ∧ gaps c ≤ GAPS_MAX ∧
  ∀ combo action,
    match bind combo action c with
    | None => parse_combo combo = None ∨ action_of action = None
    | Some c' => ∃ k s act, parse_combo combo = Some (k, s) ∧ action_of action = Some act ∧ lookup k s c' = act ∧
                   (∀ k' s', (k', s') ≠ (k, s) → lookup k' s' c' = lookup k' s' c) ∧ gaps c' = gaps c
    end.
Proof.
  cbv zeta. pose proof (commands_ok cmds chords_new chords_new_ok) as [Hn Hb Hg]. set (c := foldl command chords_new cmds) in *. split; [|split; [lia|]].
  - assert (render c = concat ((λ l, l ++ [10]) <$> (line_of <$> binds c))) as ->.
    { unfold render. f_equal. rewrite <-list_fmap_compose. apply list_fmap_ext. intros i b Hi. apply (line_reads b). rewrite Forall_lookup in Hb. eauto. }
    rewrite text_lines_concat; [|apply Forall_fmap; eapply Forall_impl; [exact Hb|]; intros b Hbb; apply (line_reads b Hbb)]. rewrite reread_binds by done. by destruct c.
  - intros combo action. destruct (bind combo action c) as [c'|] eqn:E.
    + destruct (bind_lookup _ _ _ _ E) as (k & s & act & H1 & H2 & H3 & H4). exists k, s, act. split_and!; try done. unfold bind in E. rewrite H1, H2 in E. by injection E as <-.
    + unfold bind in E. destruct (parse_combo combo) as [[k s]|]; [|by left]. destruct (action_of action); [done|by right].
Qed.

(** ** The way of a key *)

(** Where the press of a key went: it is up, the compositor took it, nobody had it, or
    a surface had it. *)
Inductive Fate := FUp | Swallowed | Dropped | To (n : nat) (gen : Z).
#[global] Instance Fate_eq_dec : EqDecision Fate.
Proof. solve_decision. Defined.
(** Where a press goes now: to a surface, to nobody, or to the compositor (Escape over
    a menu or a drag). *)
Inductive Target := Surface (n : nat) | Nobody | Dismiss.
Definition target (r : Routing) (esc : bool) : Target :=
  match menu r with
  | Some n => if esc then Dismiss else Surface n
  | None => if drag r && esc then Dismiss else match focused r with Some n => Surface n | None => Nobody end
  end.
(** The fate of a key after a press, a repeat or a release of it, and the surface that
    gets the event.  [super]: the key is not a modifier and Super is held.  The release
    or repeat of a key no surface had goes where a press would go now. *)
Definition follow (r : Routing) (super esc : bool) (value : Z) (f : Fate) : option nat * Fate :=
  let first n := match target r esc with Surface n' => n n' | Nobody => (None, if value =? 1 then Dropped else f) | Dismiss => (None, Swallowed) end in
  if value =? 0 then
    match f with
    | Swallowed => (None, FUp)
    | To n g => (if bool_decide (gen_of r n = Some g) then Some n else None, FUp)
    | _ => (match target r false with Surface n => Some n | _ => None end, FUp)
    end
  else if value =? 1 then
    if super then (None, Swallowed) else first (λ n, (Some n, To n (default 0 (gen_of r n))))
  else
    match f with
    | Swallowed => (None, f)
    | To n g => (if negb super && bool_decide (gen_of r n = Some g) then Some n else None, f)
    | _ => if super then (None, f) else first (λ n, (Some n, f))
    end.
(** The modifier keys: the left and right Shift, Ctrl, Alt and Super. *)
Definition MODIFIERS : list Z := [42; 54; 29; 97; 56; 100; 125; 126].
(** The keyboard as the keys that are down and the fates of their presses. *)
Record State := mkState { down : nat → bool; fates : nat → Fate; table : Chords }.
Definition super_down (d : nat → bool) : bool := d 125%nat || d 126%nat.
Definition shift_down (d : nat → bool) : bool := d 42%nat || d 54%nat.
Definition is_esc (code value : Z) : bool := (1 <=? value) && (code =? 1).
Definition send (dest : option nat) (code value : Z) : list Sent := match dest with Some n => [mkSent n code value] | None => [] end.
Definition spec_key (r : Routing) (code value : Z) (s : State) : list Sent * option ChordAction * State :=
  let i := Z.to_nat code in
  let d := <[i := negb (value =? 0)]> (down s) in
  let super := bool_decide (code ∉ MODIFIERS) && super_down d in
  let '(dest, f) := follow r super (is_esc code value) value (fates s i) in
  (send dest code value,
   if super && (value =? 1) then lookup code (shift_down d) (table s) else None,
   mkState d (<[i := f]> (fates s)) (table s)).
(** Every surface that holds a key gets its release, and all keys are up. *)
Definition spec_resume (r : Routing) (s : State) : list Sent * State :=
  (concat ((λ i, match fates s i with To n g => if bool_decide (gen_of r n = Some g) then [mkSent n (Z.of_nat i) 0] else [] | _ => [] end) <$> seq 0 KEYCODE_SPAN),
   mkState (λ _, false) (λ _, FUp) (table s)).

Inductive Step := SKey (r : Routing) (code value : Z) | SResume (r : Routing) | SCommand (cmd : Command).
Definition Out : Type := list Sent * option ChordAction.
Definition step (k : Keys) (st : Step) : outcome (Out * Keys) :=
  match st with
  | SKey r code value => '(sent, act, k) ← on_key r code value k; Done ((sent, act), k)
  | SResume r => '(sent, k) ← seat_resumed r k; Done ((sent, None), k)
  | SCommand cmd => Done (([], None), with_chords (command (chords k) cmd) k)
  end.
Definition spec_step (s : State) (st : Step) : Out * State :=
  match st with
  | SKey r code value => let '(sent, act, s) := spec_key r code value s in ((sent, act), s)
  | SResume r => let '(sent, s) := spec_resume r s in ((sent, None), s)
  | SCommand cmd => (([], None), mkState (down s) (fates s) (command (table s) cmd))
  end.
Fixpoint run (ss : list Step) (k : Keys) : outcome (list Out) :=
  match ss with [] => Done [] | st :: ss => '(o, k) ← step k st; os ← run ss k; Done (o :: os) end.
Fixpoint spec_run (ss : list Step) (s : State) : list Out :=
  match ss with [] => [] | st :: ss => let '(o, s) := spec_step s st in o :: spec_run ss s end.
(** Surface slots are few, and generations are 32-bit. *)
Definition slots_ok (r : Routing) : Prop := ∀ n, menu r = Some n ∨ focused r = Some n → Z.of_nat n < 65533 ∧ 0 ≤ default 0 (gen_of r n) < 2 ^ 32.
(** A keyboard: its codes, presses and repeats and releases, and a press only of a key
    that is not down. *)
Fixpoint device (ss : list Step) (held : nat → bool) : Prop :=
  match ss with
  | [] => True
  | SKey r code value :: ss => 0 ≤ code < 1024 ∧ 0 ≤ value ≤ 2 ∧ (value = 1 → held (Z.to_nat code) = false) ∧ slots_ok r ∧ device ss (<[Z.to_nat code := negb (value =? 0)]> held)
  | SResume r :: ss => device ss (λ _, false)
  | SCommand _ :: ss => device ss held
  end.

(** ** Bits and owners *)

Lemma idx_small code : 0 ≤ code < 1024 → key_idx code = Z.to_nat code.
Proof. intros H. unfold key_idx, KEYCODE_SPAN. change (Z.of_nat 1024 - 1) with (Z.ones 10). rewrite Z.land_ones by lia. by rewrite Z.mod_small. Qed.
Lemma bit_pow i : bit_of i = 2 ^ Z.of_nat (i mod 64).
Proof. unfold bit_of. by rewrite Z.shiftl_1_l. Qed.
Lemma land_pow2 w k : 0 ≤ k → Z.land w (2 ^ k) = if Z.testbit w k then 2 ^ k else 0.
Proof.
  intros Hk. apply Z.bits_inj'. intros j Hj. rewrite Z.land_spec, Z.pow2_bits_eqb by done. destruct (Z.eqb_spec k j) as [->|Hne]; [rewrite andb_true_r|rewrite andb_false_r].
  - destruct (Z.testbit w j) eqn:E; [by rewrite Z.pow2_bits_true|by rewrite Z.bits_0].
  - destruct (Z.testbit w k); [by rewrite Z.pow2_bits_false|by rewrite Z.bits_0].
Qed.
Definition bits (d : list Z) (i : nat) : bool := match d !! (i / 64)%nat with Some w => Z.testbit w (Z.of_nat (i mod 64)) | None => false end.
Lemma word_at (d : list Z) (i : nat) : length d = 16%nat → (i < 1024)%nat → ∃ w, d !! (i / 64)%nat = Some w.
Proof. intros Hl Hi. apply lookup_lt_is_Some_2. rewrite Hl. apply Nat.Div0.div_lt_upper_bound. lia. Qed.
Lemma chord_bit_is code k : length (chord_down k) = 16%nat → (key_idx code < 1024)%nat → chord_bit code k = Done (bits (chord_down k) (key_idx code)).
Proof.
  intros Hl Hi. destruct (word_at _ _ Hl Hi) as [w Hw]. unfold chord_bit, bits. rewrite Hw. cbn [unwrap]. rewrite bind_done. f_equal. rewrite bit_pow, land_pow2 by lia. destruct (Z.testbit w _); [|done].
  rewrite (proj2 (Z.eqb_neq _ _)); [done|]. pose proof (Z.pow_pos_nonneg 2 (Z.of_nat (key_idx code mod 64))). lia.
Qed.
Lemma set_word (w : Z) (on : bool) (a b : nat) : (a < 64)%nat → (b < 64)%nat →
  Z.testbit (if on then Z.lor w (2 ^ Z.of_nat a) else Z.land w (Z.lxor (u_max 64) (2 ^ Z.of_nat a))) (Z.of_nat b) = if (a =? b)%nat then on else Z.testbit w (Z.of_nat b).
Proof.
  intros Ha Hb. assert ((Z.of_nat a =? Z.of_nat b) = (a =? b)%nat) as E by (apply Bool.eq_iff_eq_true; rewrite Z.eqb_eq, Nat.eqb_eq; lia).
  destruct on; [rewrite Z.lor_spec|rewrite Z.land_spec, Z.lxor_spec; change (u_max 64) with (Z.ones 64); rewrite Z.ones_spec_low by lia]; rewrite Z.pow2_bits_eqb, E by lia; destruct (a =? b)%nat; by rewrite ?orb_true_r, ?orb_false_r, ?andb_false_r, ?andb_true_r.
Qed.
Lemma chord_bit_set_is code (on : bool) k : length (chord_down k) = 16%nat → (key_idx code < 1024)%nat → ∃ d, chord_bit_set code on k = Done (with_down d k) ∧ length d = 16%nat ∧
  ∀ j, bits d j = if (key_idx code =? j)%nat then on else bits (chord_down k) j.
Proof.
  intros Hl Hi. destruct (word_at _ _ Hl Hi) as [w Hw]. unfold chord_bit_set. rewrite Hw. cbn [unwrap]. rewrite bind_done. eexists. split; [reflexivity|]. rewrite length_insert. split; [done|]. intros j. rewrite !bit_pow.
  pose proof (Nat.mod_upper_bound (key_idx code) 64 ltac:(lia)) as Ha. pose proof (Nat.mod_upper_bound j 64 ltac:(lia)) as Hb. unfold bits.
  destruct (decide (key_idx code / 64 = j / 64)%nat) as [E|E].
  - rewrite <-E, list_lookup_insert_eq by (by eapply lookup_lt_Some). rewrite Hw, set_word by done. pose proof (Nat.div_mod_eq (key_idx code) 64). pose proof (Nat.div_mod_eq j 64).
    destruct (Nat.eqb_spec (key_idx code mod 64) (j mod 64)), (Nat.eqb_spec (key_idx code) j); try done; [lia|congruence].
  - rewrite list_lookup_insert_ne by done. destruct (Nat.eqb_spec (key_idx code) j); [congruence|done].
Qed.
Lemma unpack_pack n g : Z.of_nat n < 65533 → 0 ≤ g < 2 ^ 32 → owner_unpack (owner_pack n g) = Some (n, g).
Proof.
  intros Hn Hg. unfold owner_unpack, owner_pack. assert (Z.land (Z.lor (Z.shiftl g 16) (Z.of_nat n + 1)) 0xffff = Z.of_nat n + 1) as ->.
  { change 0xffff with (Z.ones 16). rewrite Z.land_lor_distr_l, !Z.land_ones by lia. rewrite Z.shiftl_mul_pow2 by lia. rewrite Z.mod_mul by done. rewrite Z.lor_0_l. apply Z.mod_small. change (2 ^ 16) with 65536. lia. }
  rewrite (proj2 (Z.eqb_neq _ _)) by lia. unfold OWNER_SWALLOWED, OWNER_DRAG. rewrite (proj2 (Z.eqb_neq _ _)) by lia. rewrite (proj2 (Z.eqb_neq _ _)) by lia. cbn [orb].
  rewrite Z.shiftr_lor, Z.shiftr_shiftl_l by lia. replace (16 - 16) with 0 by lia. rewrite Z.shiftl_0_r. rewrite (Z.shiftr_div_pow2 (Z.of_nat n + 1)) by lia. rewrite Z.div_small by (change (2 ^ 16) with 65536; lia). rewrite Z.lor_0_r. do 2 f_equal. lia.
Qed.

(** ** The refinement *)

Definition packed (f : Fate) : Z := match f with To n g => owner_pack n g | _ => 0 end.
Record refines (k : Keys) (φ : nat → Fate) : Prop := mkRefines {
  r_down : length (chord_down k) = 16%nat;
  r_owner : length (key_owner k) = 1024%nat;
  r_bits : ∀ i, (i < 1024)%nat → bits (chord_down k) i = bool_decide (φ i = Swallowed);
  r_own : ∀ i, (i < 1024)%nat → key_owner k !! i = Some (packed (φ i));
  r_slots : ∀ i n g, φ i = To n g → Z.of_nat n < 65533 ∧ 0 ≤ g < 2 ^ 32
}.
Lemma refines_put k k' φ i f : (i < 1024)%nat → refines k φ → length (chord_down k') = 16%nat →
  (∀ j, (j < 1024)%nat → bits (chord_down k') j = if (i =? j)%nat then bool_decide (f = Swallowed) else bits (chord_down k) j) →
  key_owner k' = <[i := packed f]> (key_owner k) → (∀ n g, f = To n g → Z.of_nat n < 65533 ∧ 0 ≤ g < 2 ^ 32) → refines k' (<[i := f]> φ).
Proof.
  intros Hi [R1 R2 R3 R4 R5] Hd Hb Ho Hf. split; [done|by rewrite Ho, length_insert| | |].
  - intros j Hj. rewrite Hb by done. destruct (Nat.eqb_spec i j) as [->|Hne]; [by rewrite fn_lookup_insert|]. rewrite fn_lookup_insert_ne by done. by apply R3.
  - intros j Hj. rewrite Ho. destruct (decide (i = j)) as [->|Hne]; [rewrite fn_lookup_insert; apply list_lookup_insert_eq; lia|]. rewrite fn_lookup_insert_ne, list_lookup_insert_ne by done. by apply R4.
  - intros j n g. destruct (decide (i = j)) as [->|Hne]; [rewrite fn_lookup_insert|rewrite fn_lookup_insert_ne by done]; eauto.
Qed.
Lemma insert_at {A} (l : list A) i x : l !! i = Some x → <[i := x]> l = l.
Proof. apply list_insert_id. Qed.
Lemma put_equiv k φ i f : (i < 1024)%nat → refines k φ → packed f = packed (φ i) → (f = Swallowed ↔ φ i = Swallowed) → (∀ n g, f = To n g → f = φ i) → refines k (<[i := f]> φ).
Proof.
  intros Hi R Hp Hs Hf. apply (refines_put k); [done|done|apply R| | |].
  - intros j Hj. destruct (Nat.eqb_spec i j) as [<-|]; [|done]. rewrite (r_bits _ _ R) by done. by apply bool_decide_ext.
  - rewrite Hp. symmetry. apply insert_at. by apply R.
  - intros n g E. rewrite (Hf n g E) in E. by apply (r_slots _ _ R i n g).
Qed.
Lemma put_owner k φ i f : (i < 1024)%nat → refines k φ → φ i ≠ Swallowed → f ≠ Swallowed → (∀ n g, f = To n g → Z.of_nat n < 65533 ∧ 0 ≤ g < 2 ^ 32) →
  refines (with_owner (<[i := packed f]> (key_owner k)) k) (<[i := f]> φ).
Proof.
  intros Hi R Hn Hf Hs. apply (refines_put k); [done|done|apply R| |done|done]. intros j Hj. cbn [chord_down with_owner]. destruct (Nat.eqb_spec i j) as [<-|]; [|done].
  rewrite (r_bits _ _ R) by done. rewrite !bool_decide_false by done. done.
Qed.
Lemma put_bit code (on : bool) k φ f : 0 ≤ code < 1024 → refines k φ → packed (φ (Z.to_nat code)) = 0 → f = (if on then Swallowed else FUp) →
  ∃ d, chord_bit_set code on k = Done (with_down d k) ∧ refines (with_down d k) (<[Z.to_nat code := f]> φ).
Proof.
  intros Hc R Hp ->. pose proof (idx_small code Hc) as Ei. destruct (chord_bit_set_is code on k (r_down _ _ R)) as (d & E & Hl & Hb); [rewrite Ei; lia|]. exists d. split; [done|]. rewrite Ei in Hb.
  apply (refines_put k); [lia|done|done| | |by destruct on].
  - intros j Hj. cbn [chord_down with_down]. rewrite Hb. by destruct (_ =? j)%nat, on.
  - cbn [key_owner with_down]. symmetry. apply insert_at. rewrite (r_own _ _ R) by lia. rewrite Hp. by destruct on.
Qed.
Lemma unpack_packed k φ i : refines k φ → owner_unpack (packed (φ i)) = match φ i with To n g => Some (n, g) | _ => None end.
Proof. intros R. destruct (φ i) as [| | |n g] eqn:E; try done. destruct (r_slots _ _ R i n g E). by apply unpack_pack. Qed.

(** A key that reaches the routing. *)
Definition reaches (r : Routing) (esc : bool) (code value : Z) (k : Keys) (φ : nat → Fate) (m : outcome (list Sent * Keys)) : Prop :=
  let '(dest, f) := follow r false esc value (φ (Z.to_nat code)) in
  ∃ k', m = Done (send dest code value, k') ∧ refines k' (<[Z.to_nat code := f]> φ) ∧ mods k' = mods k ∧ chords k' = chords k.
Lemma key_event_ok r code value rune k φ : 0 ≤ code < 1024 → 0 ≤ value ≤ 2 → refines k φ → φ (Z.to_nat code) ≠ Swallowed → (value = 1 → φ (Z.to_nat code) = FUp) → slots_ok r →
  reaches r ((1 <=? value) && ((code =? KEY_ESC) || (rune =? 27))) code value k φ (key_event r code value rune k).
Proof.
  intros Hc Hv R Hn H1 Hs. unfold key_event. rewrite (idx_small code Hc). set (i := Z.to_nat code) in *. assert (i < 1024)%nat as Hi by lia. rewrite (r_own _ _ R i Hi). cbn [unwrap]. rewrite bind_done. cbv zeta.
  rewrite (unpack_packed k φ i R). set (esc := (1 <=? value) && _). unfold reaches. fold i.
  assert (value = 0 ∨ value = 1 ∨ value = 2) as [->|[->| ->]] by lia; unfold follow; cbn [Z.eqb Pos.eqb]; cbv iota.
  - pose proof (put_owner k φ i FUp Hi R Hn ltac:(done) ltac:(done)) as R0. cbn [packed] in R0. subst esc. cbn [Z.leb Z.compare andb]. unfold target. rewrite andb_false_r.
    destruct (φ i) as [| | |n g] eqn:Ef; [|done| |case_bool_decide; eexists; (split; [reflexivity|by split])]; (destruct (menu r) as [n|]; [|destruct (focused r) as [n|]]); eexists; (split; [reflexivity|by split]).
  - pose proof (H1 eq_refl) as Ef. unfold target.
    assert (∀ n, menu r = Some n ∨ focused r = Some n → ∃ k', Done (push_key n code 1, with_owner (<[i := owner_pack n (default 0 (gen_of r n))]> (key_owner k)) k) = Done (send (Some n) code 1, k') ∧
      refines k' (<[i := To n (default 0 (gen_of r n))]> φ) ∧ mods k' = mods k ∧ chords k' = chords k) as Hd.
    { intros n Hm. eexists. split; [reflexivity|]. split; [|done]. apply (put_owner k φ i (To n (default 0 (gen_of r n)))); [done|done|congruence|done|]. intros n' g [= <- <-]. by apply Hs. }
    assert (∃ k', (k0 ← chord_bit_set code true k; Done ([], k0)) = Done (send None code 1, k') ∧ refines k' (<[i := Swallowed]> φ) ∧ mods k' = mods k ∧ chords k' = chords k) as Hb.
    { destruct (put_bit code true k φ Swallowed Hc R) as (d & E & Rd); [by fold i; rewrite Ef|done|]. rewrite E, bind_done. eexists. split; [reflexivity|by split]. }
    destruct (menu r) as [n|]; [destruct esc; [exact Hb|apply Hd; by left]|]. destruct (drag r && esc); [exact Hb|]. destruct (focused r) as [n|]; [apply Hd; by right|].
    eexists. split; [reflexivity|]. split; [|done]. apply put_equiv; [done|done|by rewrite Ef|by rewrite Ef|done].
  - cbn [negb andb]. unfold target.
    assert (∀ f, f = φ i → refines k (<[i := f]> φ)) as Hk by (intros f ->; by apply put_equiv).
    destruct (φ i) as [| | |n g] eqn:Ef; [|done| |case_bool_decide; eexists; (split; [reflexivity|split; [by apply Hk|done]])];
    (assert (∃ k', (k0 ← chord_bit_set code true k; Done ([], k0)) = Done (send None code 2, k') ∧ refines k' (<[i := Swallowed]> φ) ∧ mods k' = mods k ∧ chords k' = chords k) as Hb;
     [destruct (put_bit code true k φ Swallowed Hc R) as (d & E & Rd); [by fold i; rewrite Ef|done|]; rewrite E, bind_done; eexists; split; [reflexivity|by split]|]);
    (destruct (menu r) as [n|]; [destruct esc; [exact Hb|]|destruct (drag r && esc); [exact Hb|destruct (focused r) as [n|]]]); eexists; (split; [reflexivity|split; [by apply Hk|done]]).
Qed.
(** ** Modifiers *)

(** The modifiers the code keeps, of the keys that are down. *)
Definition mods_of (d : nat → bool) : Mods := mkMods (d 42%nat) (d 54%nat) (d 29%nat) (d 97%nat) (d 56%nat) (d 100%nat) (d 125%nat) (d 126%nat).
Lemma mods_update_is code p d : 0 ≤ code → match mods_update code p (mods_of d) with Some m => (true, m) | None => (false, mods_of d) end =
  (bool_decide (code ∈ MODIFIERS), mods_of (<[Z.to_nat code := p]> d)).
Proof.
  intros Hc. unfold mods_update, mods_of at 1.
  repeat (match goal with |- context [code =? ?c] => destruct (Z.eqb_spec code c) as [->|]; [reflexivity|] end).
  rewrite bool_decide_false by (unfold MODIFIERS; rewrite !elem_of_cons, elem_of_nil; tauto). unfold mods_of. rewrite !fn_lookup_insert_ne by lia. done.
Qed.
Lemma mask_super d : negb (Z.land (mask (mods_of d)) MOD_SUPER =? 0) = super_down d.
Proof. unfold mask, super_down, mods_of. cbn [super_l super_r alt_l alt_r ctrl_l ctrl_r shift_l shift_r]. by destruct (d 125%nat || d 126%nat), (d 56%nat || d 100%nat), (d 29%nat || d 97%nat), (d 42%nat || d 54%nat). Qed.
Lemma mask_shift d : negb (Z.land (mask (mods_of d)) MOD_SHIFT =? 0) = shift_down d.
Proof. unfold mask, shift_down, mods_of. cbn [super_l super_r alt_l alt_r ctrl_l ctrl_r shift_l shift_r]. by destruct (d 125%nat || d 126%nat), (d 56%nat || d 100%nat), (d 29%nat || d 97%nat), (d 42%nat || d 54%nat). Qed.
(** No key but Escape has its character, whatever is held with it. *)
Lemma runes_not_esc : Forall (λ kv, kv.1 = 1 ∨ (kv.2.1 ≠ 27 ∧ kv.2.2 ≠ 27)) QWERTY.
Proof. apply (bool_decide_unpack _). vm_compute. done. Qed.
Lemma assoc_in {A} k (l : list (Z * A)) v : assoc k l = Some v → (k, v) ∈ l.
Proof. induction l as [|[k' v'] l IH]; [done|]. cbn [assoc]. destruct (Z.eqb_spec k k') as [->|]; [intros [= ->]; left|right; by apply IH]. Qed.
Lemma resolve_esc code ms : resolve code ms = 27 → code = 1.
Proof.
  unfold resolve. destruct (assoc code QWERTY) as [[a b]|] eqn:E; [|done]. apply assoc_in in E. pose proof runes_not_esc as H. rewrite Forall_forall in H. apply H in E as [?|[Ha Hb]]; [done|]. cbn [fst snd] in Ha, Hb.
  set (base := if negb _ then b else a). assert (base ≠ 27) as Hbase by (subst base; by case_match). cbv zeta. destruct (base =? 0); [done|]. clearbody base. destruct (negb _); [|by intros ?].
  set (lower := if _ && _ then base + 32 else base). clearbody lower. destruct ((97 <=? lower) && _) eqn:El; [|by intros ?]. apply andb_true_iff in El as [?%Z.leb_le ?%Z.leb_le]. lia.
Qed.
Lemma rune_esc code value ms : (1 <=? value) && ((code =? KEY_ESC) || ((if negb (value =? 0) then resolve code ms else 0) =? 27)) = is_esc code value.
Proof.
  unfold is_esc. f_equal. destruct (Z.eqb_spec code 1) as [->|Hne]; [done|]. cbn. rewrite (proj2 (Z.eqb_neq code KEY_ESC)) by done. cbn [orb]. apply Z.eqb_neq. case_match; [|done]. by intros ?%resolve_esc.
Qed.
(** Modifiers are never taken. *)
Lemma modifier_quiet code value : code ∈ MODIFIERS → is_esc code value = false ∧ 0 ≤ code < 1024.
Proof. unfold MODIFIERS, is_esc. rewrite !elem_of_cons, elem_of_nil. intros [->|[->|[->|[->|[->|[->|[->|[->|[]]]]]]]]]; (split; [apply andb_false_r|done]). Qed.
Definition free (φ : nat → Fate) : Prop := ∀ code, code ∈ MODIFIERS → φ (Z.to_nat code) ≠ Swallowed.
Lemma follow_quiet r value f : f ≠ Swallowed → (follow r false false value f).2 ≠ Swallowed.
Proof. intros Hf. unfold follow, target. rewrite andb_false_r. destruct (value =? 0); [by destruct f|]. destruct (value =? 1); [destruct (menu r), (focused r); done|]. destruct f; try done; destruct (menu r), (focused r); done. Qed.
Lemma refines_fields k k' φ : chord_down k' = chord_down k → key_owner k' = key_owner k → refines k φ → refines k' φ.
Proof. intros E1 E2 []. split; rewrite ?E1, ?E2; done. Qed.
(** The state and the fates go together. *)
Record agrees (k : Keys) (s : State) : Prop := mkAgrees { a_fates : refines k (fates s); a_mods : mods k = mods_of (down s); a_table : chords k = table s; a_free : free (fates s) }.

Lemma on_key_ok r code value k s : 0 ≤ code < 1024 → 0 ≤ value ≤ 2 → agrees k s → (value = 1 → fates s (Z.to_nat code) = FUp) → slots_ok r →
  ∃ k', on_key r code value k = Done ((spec_key r code value s).1, k') ∧ agrees k' (spec_key r code value s).2.
Proof.
  intros Hc Hv [R Hm Ht Hf] H1 Hs. unfold on_key, spec_key. rewrite Hm, mods_update_is by lia. set (i := Z.to_nat code) in *. set (d := <[i := negb (value =? 0)]> (down s)). set (m := mods_of d).
  assert (∀ f, f ≠ Swallowed ∨ code ∉ MODIFIERS → free (<[i := f]> (fates s))) as Hfree.
  { intros f Hnf c Hin. destruct (decide (i = Z.to_nat c)) as [E|Hne]; [|rewrite fn_lookup_insert_ne by done; by apply Hf]. rewrite E, fn_lookup_insert. destruct (modifier_quiet c 0 Hin) as (_ & ?). unfold i in E.
    destruct Hnf as [?|Hnf]; [done|]. destruct Hnf. by replace code with c by lia. }
  pose proof (refines_fields k (with_mods m k) (fates s) eq_refl eq_refl R) as Rm.
  assert (fates s i ≠ Swallowed → reaches r (is_esc code value) code value (with_mods m k) (fates s) (key_event r code value (if negb (value =? 0) then resolve code (mask m) else 0) (with_mods m k))) as Hrun.
  { intros Hsw. rewrite <-(rune_esc code value (mask m)). by apply key_event_ok. }
  destruct (decide (code ∈ MODIFIERS)) as [Hin|Hin]; [rewrite (bool_decide_true (code ∈ MODIFIERS)), (bool_decide_false (code ∉ MODIFIERS)) by tauto|rewrite (bool_decide_false (code ∈ MODIFIERS)), (bool_decide_true (code ∉ MODIFIERS)) by done].
  - destruct (modifier_quiet code value Hin) as (He & _). rewrite He in Hrun |- *. cbn [andb]. rewrite bind_done. specialize (Hrun (Hf _ Hin)). pose proof (follow_quiet r value (fates s i) (Hf _ Hin)) as Hfq.
    unfold reaches in Hrun. fold i in Hrun. destruct (follow r false false value (fates s i)) as [dest f]. destruct Hrun as (k' & E & R' & Hm' & Ht'). rewrite E, bind_done. exists k'. split; [done|]. split; [done|done|by rewrite Ht'|]. apply Hfree. by left.
  - unfold chord_key. rewrite (chord_bit_is code (with_mods m k) (r_down _ _ Rm)) by (rewrite (idx_small code Hc); lia).
    rewrite (idx_small code Hc), bind_done. fold i. rewrite (r_bits _ _ Rm) by (unfold i; lia). pose proof (mask_super d) as Hsu. pose proof (mask_shift d) as Hsh. fold m in Hsu, Hsh. rewrite Hsu, Hsh. cbn [andb]. set (super := super_down d).
    assert (fates s i ≠ Swallowed → follow r super (is_esc code value) value (fates s i) = follow r false (is_esc code value) value (fates s i) → super && (value =? 1) = false →
      ∃ k', ('(sent, k0) ← key_event r code value (if negb (value =? 0) then resolve code (mask m) else 0) (with_mods m k); Done (sent, None, k0)) =
        Done ((let '(dest, f) := follow r super (is_esc code value) value (fates s i) in (send dest code value, if super && (value =? 1) then lookup code (shift_down d) (table s) else None, mkState d (<[i := f]> (fates s)) (table s))).1, k') ∧
        agrees k' (let '(dest, f) := follow r super (is_esc code value) value (fates s i) in (send dest code value, if super && (value =? 1) then lookup code (shift_down d) (table s) else None, mkState d (<[i := f]> (fates s)) (table s))).2) as Hev.
    { intros Hsw -> ->. specialize (Hrun Hsw). unfold reaches in Hrun. fold i in Hrun.
      destruct (follow r false _ value (fates s i)) as [dest f]. destruct Hrun as (k' & E & R' & Hm' & Ht'). rewrite E, bind_done. exists k'. split; [done|]. split; [done|done|by rewrite Ht'|]. apply Hfree. by right. }
    assert (value = 0 ∨ value = 1 ∨ value = 2) as [->|[->| ->]] by lia; cbn [Z.eqb Pos.eqb negb] in *; cbv iota in *.
    + case_bool_decide as Hsw; [|rewrite bind_done; apply Hev; [done|done|apply andb_false_r]]. destruct (put_bit code false (with_mods m k) (fates s) FUp Hc Rm) as (d' & E & Rd); [by fold i; rewrite Hsw|done|].
      rewrite E, !bind_done. unfold follow. cbn [Z.eqb]. rewrite Hsw, andb_false_r. eexists. split; [reflexivity|]. split; [done|done|by rewrite <-Ht|]. apply Hfree. by right.
    + destruct super eqn:Es; cbn [negb andb] in *; cbv iota; [|rewrite bind_done; apply Hev; [by rewrite (H1 eq_refl)|done|done]].
      destruct (put_bit code true (with_mods m k) (fates s) Swallowed Hc Rm) as (d' & E & Rd); [by fold i; rewrite (H1 eq_refl)|done|]. rewrite E, !bind_done. unfold follow. cbn [Z.eqb Pos.eqb]. cbv iota.
      eexists. split; [cbn; by rewrite Ht|]. split; [done|done|by rewrite <-Ht|]. apply Hfree. by right.
    + rewrite bind_done. destruct (bool_decide (fates s i = Swallowed) || super) eqn:Eb.
      * assert (follow r super (is_esc code 2) 2 (fates s i) = (None, fates s i)) as ->.
        { unfold follow. cbn [Z.eqb Pos.eqb]. cbv iota. apply orb_true_iff in Eb as [->%bool_decide_eq_true| ->]; [done|]. by destruct (fates s i). }
        rewrite andb_false_r. eexists. split; [reflexivity|]. split; [|done|by rewrite <-Ht|apply Hfree; by right]. apply put_equiv; [unfold i; lia|done|done|done|done].
      * apply orb_false_iff in Eb as [Hsw%bool_decide_eq_false Es]. apply Hev; [done|by rewrite Es|apply andb_false_r].
Qed.
Lemma follow_up r super esc f : (follow r super esc 0 f).2 = FUp.
Proof. unfold follow. cbn [Z.eqb]. by destruct f. Qed.
Lemma spec_key_fates r code value s : ∃ f, fates (spec_key r code value s).2 = <[Z.to_nat code := f]> (fates s) ∧ (value = 0 → f = FUp).
Proof.
  unfold spec_key. set (super := _ && _). pose proof (follow_up r super (is_esc code value) (fates s (Z.to_nat code))) as Hu. destruct (follow r super _ value _) as [dest f] eqn:E. exists f. split; [done|]. intros ->. by rewrite E in Hu.
Qed.
(** The releases of a resume. *)
Definition let_go (r : Routing) (i : nat) (f : Fate) : list Sent := match f with To n g => if bool_decide (gen_of r n = Some g) then [mkSent n (Z.of_nat i) 0] else [] | _ => [] end.
Lemma release_is r i k φ n g : (i < 1024)%nat → refines k φ → φ i = To n g → key_event r (Z.of_nat i) 0 0 k = Done (let_go r i (To n g), with_owner (<[i := 0]> (key_owner k)) k).
Proof.
  intros Hi R Ef. pose proof (unpack_packed k φ i R) as Hu. unfold key_event. rewrite (idx_small (Z.of_nat i)) by lia. rewrite Nat2Z.id, (r_own _ _ R i) by lia. cbn [unwrap]. rewrite bind_done. cbv zeta. rewrite Hu, Ef. done.
Qed.
Lemma releases_ok r n : ∀ i k φ acc, (i + n ≤ 1024)%nat → refines k φ →
  ∃ k', foldM (λ sk code, v ← unwrap (key_owner sk.2 !! code);
      if v =? 0 then Done sk else '(s, k) ← key_event r (Z.of_nat code) 0 0 sk.2; Done (sk.1 ++ s, k)) (acc, k) (seq i n) = Done (acc ++ concat ((λ j, let_go r j (φ j)) <$> seq i n), k') ∧ mods k' = mods k ∧ chords k' = chords k.
Proof.
  induction n as [|n IH]; intros i k φ acc Hn R; cbn [seq foldM fmap list_fmap concat]; [exists k; by rewrite app_nil_r|]. cbn [fst snd]. rewrite (r_own _ _ R i) by lia. cbn [unwrap]. rewrite bind_done.
  pose proof (unpack_packed k φ i R) as Hu.
  destruct (φ i) as [| | |m g] eqn:Ef; cbn [packed] in *; [rewrite Z.eqb_refl, bind_done; cbn [let_go app]; by apply IH; [lia|]..|].
  rewrite (proj2 (Z.eqb_neq _ _)) by (intros E; by rewrite E in Hu). rewrite (release_is r i k φ m g) by (done || lia). rewrite !bind_done.
  pose proof (put_owner k φ i FUp ltac:(lia) R ltac:(congruence) ltac:(done) ltac:(done)) as R'. cbn [packed] in R'.
  destruct (IH (S i) _ _ (acc ++ let_go r i (φ i)) ltac:(lia) R') as (k' & E & Hm & Ht). exists k'. split; [|by split].
  assert ((λ j, let_go r j ((<[i := FUp]> φ) j)) <$> seq (S i) n = (λ j, let_go r j (φ j)) <$> seq (S i) n) as Hx.
  { apply list_fmap_ext. intros j x [-> Hj]%lookup_seq. rewrite fn_lookup_insert_ne by lia. done. }
  rewrite Ef, Hx in E. by rewrite E, <-app_assoc.
Qed.
Lemma all_up : refines (mkKeys mods_default (replicate 16 0) (replicate 1024 0) chords_new) (λ _, FUp).
Proof.
  split; [done|done| | |done].
  - intros i Hi. unfold bits. cbn [chord_down]. rewrite lookup_replicate_2; [by rewrite Z.bits_0|]. apply Nat.Div0.div_lt_upper_bound. lia.
  - intros i Hi. cbn [key_owner packed]. by apply lookup_replicate_2.
Qed.
Lemma resume_ok r k s : agrees k s → ∃ k', seat_resumed r k = Done ((spec_resume r s).1, k') ∧ agrees k' (spec_resume r s).2.
Proof.
  intros [R Hm Ht Hf]. unfold seat_resumed. destruct (releases_ok r KEYCODE_SPAN 0 (with_mods mods_default k) (fates s) [] ltac:(done) (refines_fields k (with_mods mods_default k) (fates s) eq_refl eq_refl R)) as (k' & E & Hm' & Ht'). rewrite E, bind_done.
  eexists. split; [reflexivity|]. split; [|done|cbn; by rewrite Ht'|done]. eapply refines_fields; [..|exact all_up]; done.
Qed.

Lemma run_ok ss : ∀ held k s, agrees k s → (∀ i, fates s i ≠ FUp → held i = true) → device ss held → run ss k = Done (spec_run ss s).
Proof.
  induction ss as [|st ss IH]; intros held k s A Hh Hd; [done|]. cbn [run spec_run device] in *. destruct st as [r code value|r|cmd]; cbn [step spec_step].
  - destruct Hd as (Hc & Hv & Hp & Hs & Hd). destruct (on_key_ok r code value k s Hc Hv A) as (k' & E & A'); [|done|].
    { intros ->. destruct (decide (fates s (Z.to_nat code) = FUp)) as [?|Hne]; [done|]. apply Hh in Hne. by rewrite (Hp eq_refl) in Hne. }
    destruct (spec_key_fates r code value s) as (f & Ef & Hup). destruct (spec_key r code value s) as [[sent act] s']. cbn [fst snd] in *. rewrite E, !bind_done.
    rewrite (IH (<[Z.to_nat code := negb (value =? 0)]> held) k' s' A'); [done| |done]. intros j. rewrite Ef. destruct (decide (Z.to_nat code = j)) as [<-|Hne]; [rewrite !fn_lookup_insert|rewrite !fn_lookup_insert_ne by done; apply Hh].
    intros Hf. destruct (Z.eqb_spec value 0) as [E0|]; [by apply Hup in E0|done].
  - destruct (resume_ok r k s A) as (k' & E & A'). destruct (spec_resume r s) as [sent s'] eqn:Es. cbn [fst snd] in *. rewrite E, !bind_done. rewrite (IH (λ _, false) k' s' A'); [done| |done]. injection Es as _ <-. done.
  - rewrite bind_done. destruct A as [R Hm Ht Hf]. rewrite (IH held _ (mkState (down s) (fates s) (command (table s) cmd))); [done| |done|done]. split; [eapply refines_fields; [..|exact R]; done|done|cbn; by rewrite Ht|done].
Qed.

(** C7: The way of a key: whatever a keyboard sends (codes below 1024, and a press only of
    a key that is not down), whatever menu, drag, focus and surfaces there are at each
    key, whatever commands rebind the chord table in between and however often the seat
    resumes, the keyboard path runs without a panic and sends exactly what the keys that
    are down and the fates of their presses prescribe.  A key other than a modifier
    pressed with a Super key down is the compositor's: its action in the table (with
    Shift, if a Shift key is down) is done, and neither the press nor a repeat nor the
    release reaches a surface, whatever is rebound or let go in between.  Any other press
    goes to the menu, or else to the focused surface, if there is one; Escape over a menu
    or a drag is the compositor's.  The release and the repeats of a key that a surface
    had go to that surface, or nowhere if it is gone or, for a repeat, with Super down;
    those of a key that no one had go where a press would go at that moment
    ([dropped_release]).  A resume releases every key a surface has, to that surface. *)
Theorem keys_follow ss : device ss (λ _, false) → run ss keys_new = Done (spec_run ss (mkState (λ _, false) (λ _, FUp) chords_new)).
Proof. intros Hd. apply (run_ok ss (λ _, false)); [|done|done]. split; [exact all_up|done|done|done]. Qed.

(** A key held while the focus moves, Super and a bound key, unbound and released after
    Super. *)
Definition focus_on (n : nat) : Routing := mkRouting None false (Some n) (λ _, Some 7).
Definition typing : list Step :=
  [SKey (focus_on 3) 30 1; SKey (focus_on 4) 30 2; SKey (focus_on 4) 30 0; SKey (focus_on 4) 125 1; SKey (focus_on 4) 33 1;
   SCommand (Rebind (lit "super+f") (lit "none")); SKey (focus_on 4) 125 0; SKey (focus_on 4) 33 0; SKey (focus_on 4) 33 1].
Lemma keys_follow_witness : run typing keys_new = Done (spec_run typing (mkState (λ _, false) (λ _, FUp) chords_new)).
Proof.
  apply (keys_follow typing). unfold typing. cbn [device].
  assert (∀ n, Z.of_nat n < 65533 → slots_ok (focus_on n)) as Hs by (intros n Hn n' [?|[= <-]]; [done|by split]).
  repeat (split; [lia|]; split; [lia|]; split; [vm_compute; done|]; split; [apply Hs; lia|]). done.
Defined.
Example typing_sent : run typing keys_new =
  Done [([mkSent 3 30 1], None); ([mkSent 3 30 2], None); ([mkSent 3 30 0], None); ([mkSent 4 125 1], None); ([], Some Zoom); ([], None); ([mkSent 4 125 0], None); ([], None); ([mkSent 4 33 1], None)].
Proof. vm_compute. reflexivity. Qed.

(** A key pressed while nothing has the focus: its release goes to the surface focused
    by then, which did not see the press. *)
Example dropped_release : run [SKey (mkRouting None false None (λ _, Some 7)) 30 1; SKey (focus_on 4) 30 0] keys_new = Done [([], None); ([mkSent 4 30 0], None)].
Proof. vm_compute. reflexivity. Qed.

End ChordsClaims.
