(* ===== verification/NoraText.v ===== *)
(** * The editor's text buffer (usr/nora/src/text.rs, wrap.rs)

    A document as a vector of lines with a cursor in characters, over strings that
    are addressed in bytes.  A [String] is the list of its characters; the byte
    offsets the code computes are kept, and an operation at an offset inside a
    character panics, as [str] does.  A position is a pair of [usize]; a [Vec] and a
    [String] hold at most [isize::MAX] elements, so that one past a position is a
    [usize] too. *)

From S2P Require Import Prelude.

Module NoraText.

(** ** Strings *)

Definition len_utf8 (c : Z) : nat :=
  if (c <? 128)%Z then 1 else if (c <? 2048)%Z then 2 else if (c <? 65536)%Z then 3 else 4.
Fixpoint str_len (s : list Z) : nat := match s with [] => 0 | c :: s => len_utf8 c + str_len s end.
(** The characters before byte [b], which is on a boundary, or a panic. *)
Fixpoint boundary (s : list Z) (b : nat) : outcome nat :=
  if b =? 0 then Done 0 else
  match s with
  | [] => Panic
  | c :: s => if b <? len_utf8 c then Panic else n ← boundary s (b - len_utf8 c); Done (S n)
  end.
Definition str_insert (s : list Z) (b : nat) (ch : Z) : outcome (list Z) :=
  n ← boundary s b; Done (take n s ++ ch :: drop n s).
Definition str_remove (s : list Z) (b : nat) : outcome (list Z) :=
  n ← boundary s b;
  match drop n s with [] => Panic | _ :: r => Done (take n s ++ r) end.
Definition split_off (s : list Z) (b : nat) : outcome (list Z * list Z) :=
  n ← boundary s b; Done (take n s, drop n s).
Definition str_slice (s : list Z) (a b : nat) : outcome (list Z) :=
  if b <? a then Panic else
  n ← boundary s a; m ← boundary s b; Done (take (m - n) (drop n s)).
Fixpoint char_indices_from (off : nat) (s : list Z) : list (nat * Z) :=
  match s with [] => [] | c :: s => (off, c) :: char_indices_from (off + len_utf8 c) s end.
Definition char_indices (s : list Z) : list (nat * Z) := char_indices_from 0 s.

(** [str::split('\n')] and [join]. *)
Fixpoint split_nl (s : list Z) : list (list Z) :=
  match s with
  | [] => [[]]
  | c :: s =>
      if (c =? 10)%Z then [] :: split_nl s
      else match split_nl s with l :: ls => (c :: l) :: ls | [] => [[c]] end
  end.
Fixpoint join_nl (ls : list (list Z)) : list Z :=
  match ls with
  | [] => []
  | [l] => l
  | l :: ls => l ++ 10%Z :: join_nl ls
  end.

(** [str::find] and [str::match_indices] of a string, by character. *)
Fixpoint starts_with (pat s : list Z) : bool :=
  match pat, s with
  | [], _ => true
  | p :: pat, c :: s => (p =? c)%Z && starts_with pat s
  | _ :: _, [] => false
  end.
Fixpoint find_sub (pat s : list Z) : option nat :=
  if starts_with pat s then Some 0 else
  match s with [] => None | _ :: s => S <$> find_sub pat s end.
(** The byte offsets of the successive matches in [s], which starts at byte [off]. *)
Fixpoint match_indices (fuel off : nat) (pat s : list Z) : outcome (list nat) :=
  match find_sub pat s with
  | None => Done []
  | Some i =>
      match fuel with
      | O => OutOfFuel
      | S fuel =>
          let at_ := off + str_len (take i s) in
          rest ← match_indices fuel (at_ + str_len pat) pat (drop (i + length pat) s);
          Done (at_ :: rest)
      end
  end.

(** [char::is_whitespace] is the property White_Space; the alphanumeric characters
    are core's tables. *)
Definition is_whitespace (c : Z) : bool :=
  ((9 <=? c) && (c <=? 13) || (c =? 32) || (c =? 133) || (c =? 160) || (c =? 5760) ||
   (8192 <=? c) && (c <=? 8202) || (c =? 8232) || (c =? 8233) || (c =? 8239) || (c =? 8287) || (c =? 12288))%Z.
Class Unicode := { is_alphanumeric : Z → bool }.

(** ** Positions and classes *)

Definition Pos : Type := nat * nat.
Definition UNDO_CAP : nat := 64.
Fixpoint byte_to_char_loop (n : nat) (cs : list (nat * Z)) (byte : nat) : nat :=
  match cs with
  | [] => n
  | (off, ch) :: cs => if byte <? off + len_utf8 ch then n else byte_to_char_loop (S n) cs byte
  end.
Definition byte_to_char_col (line : list Z) (byte : nat) : nat := byte_to_char_loop 0 (char_indices line) byte.
Definition char_col_to_byte (line : list Z) (col : nat) : nat :=
  match char_indices line !! col with Some (off, _) => off | None => str_len line end.

Inductive Class_ := Word | Punct | Space | End_.
#[global] Instance Class_eq_dec : EqDecision Class_.
Proof. solve_decision. Defined.
Definition in_run (cur start : Class_) (big : bool) : bool :=
  match cur with
  | Space | End_ => false
  | _ => big || bool_decide (cur = start)
  end.
Definition byte_of (s : list Z) (col : nat) : nat :=
  match char_indices s !! col with Some (i, _) => i | None => str_len s end.
Definition char_col_of (s : list Z) (b : nat) : outcome nat := boundary s (b `min` str_len s).
Definition char_slice (s : list Z) (start end_ : nat) : outcome (list Z) :=
  let a := byte_of s start in
  let b := byte_of s end_ in
  str_slice s a (b `max` a).
Definition pos_leb (a b : Pos) : bool := (a.1 <? b.1) || (a.1 =? b.1) && (a.2 <=? b.2).
Definition order (a b : Pos) : Pos * Pos := if pos_leb a b then (a, b) else (b, a).

(** ** The buffer *)

Record Snapshot := mkSnap { s_lines : list (list Z); s_row : nat; s_col : nat }.
Record TextBuffer := mkText { lines : list (list Z); row : nat; col : nat; undo : list Snapshot; rev : Z }.

Definition lines_of (content : list Z) : list (list Z) :=
  match split_nl content with [] => [[]] | ls => ls end.
Definition new (content : list Z) : TextBuffer := mkText (lines_of content) 0 0 [] 0.
Definition content (t : TextBuffer) : list Z := join_nl (lines t).
Definition line_count (t : TextBuffer) : nat := length (lines t).
Definition line (r : nat) (t : TextBuffer) : list Z := default [] (lines t !! r).
Definition cursor (t : TextBuffer) : Pos := (row t, col t).
Definition char_len (r : nat) (t : TextBuffer) : nat := match lines t !! r with Some s => length s | None => 0 end.
Definition char_at (r c : nat) (t : TextBuffer) : option Z := l ← lines t !! r; l !! c.

Definition set_pos (p : Pos) (t : TextBuffer) : TextBuffer := mkText (lines t) p.1 p.2 (undo t) (rev t).
Definition set_lines (ls : list (list Z)) (t : TextBuffer) : TextBuffer := mkText ls (row t) (col t) (undo t) (rev t).
Definition set_undo (u : list Snapshot) (t : TextBuffer) : TextBuffer := mkText (lines t) (row t) (col t) u (rev t).
Definition bump (t : TextBuffer) : outcome TextBuffer :=
  r ← uadd 64 (rev t) 1; Done (mkText (lines t) (row t) (col t) (undo t) r).

Definition set_cursor (r c : nat) (t : TextBuffer) : TextBuffer :=
  let r := r `min` (line_count t - 1) in set_pos (r, c `min` char_len r t) t.

(** ** Navigation *)

Definition move_left (t : TextBuffer) : TextBuffer :=
  if 0 <? col t then set_pos (row t, col t - 1) t
  else if 0 <? row t then set_pos (row t - 1, char_len (row t - 1) t) t
  else t.
Definition move_right (t : TextBuffer) : TextBuffer :=
  if col t <? char_len (row t) t then set_pos (row t, col t + 1) t
  else if row t + 1 <? line_count t then set_pos (row t + 1, 0) t
  else t.
Definition move_up (t : TextBuffer) : TextBuffer :=
  if 0 <? row t then set_pos (row t - 1, col t `min` char_len (row t - 1) t) t else t.
Definition move_down (t : TextBuffer) : TextBuffer :=
  if row t + 1 <? line_count t then set_pos (row t + 1, col t `min` char_len (row t + 1) t) t else t.
Definition move_home (t : TextBuffer) : TextBuffer := set_pos (row t, 0) t.
Definition move_end (t : TextBuffer) : TextBuffer := set_pos (row t, char_len (row t) t) t.
Definition move_top (t : TextBuffer) : TextBuffer := set_pos (0, col t `min` char_len 0 t) t.
Definition move_bottom (t : TextBuffer) : TextBuffer :=
  set_pos (line_count t - 1, col t `min` char_len (line_count t - 1) t) t.

Definition next_pos (t : TextBuffer) (p : Pos) : option Pos :=
  if p.2 <? char_len p.1 t then Some (p.1, p.2 + 1)
  else if p.1 + 1 <? line_count t then Some (p.1 + 1, 0)
  else None.
Definition prev_pos (t : TextBuffer) (p : Pos) : option Pos :=
  if 0 <? p.2 then Some (p.1, p.2 - 1)
  else if 0 <? p.1 then Some (p.1 - 1, char_len (p.1 - 1) t)
  else None.
Definition pos_after (t : TextBuffer) (p : Pos) : option Pos := next_pos t p.
Definition pos_before (t : TextBuffer) (p : Pos) : option Pos := prev_pos t p.

Section Words.
Context `{!Unicode}.

Definition is_word_char (c : Z) : bool := is_alphanumeric c || (c =? 95)%Z.
Definition class (t : TextBuffer) (p : Pos) : Class_ :=
  if p.2 <? char_len p.1 t then
    match char_at p.1 p.2 t with
    | Some ch => if is_whitespace ch then Space else if is_word_char ch then Word else Punct
    | None => Space
    end
  else if p.1 + 1 <? line_count t then Space
  else End_.

(** [while p(class(r, c)) { step, or stop }]: where it ends, and whether it stopped
    for want of a next position. *)
Fixpoint walk (step : Pos → option Pos) (p : Pos → bool) (fuel : nat) (q : Pos) : outcome (Pos * bool) :=
  match fuel with
  | O => OutOfFuel
  | S fuel =>
      if p q then match step q with Some q => walk step p fuel q | None => Done (q, true) end
      else Done (q, false)
  end.
(** [while let Some(p) = step(r, c) { take it if it is in the run }]. *)
Fixpoint extend (step : Pos → option Pos) (p : Pos → bool) (fuel : nat) (q : Pos) : outcome Pos :=
  match fuel with
  | O => OutOfFuel
  | S fuel =>
      match step q with
      | Some q' => if p q' then extend step p fuel q' else Done q
      | None => Done q
      end
  end.
(** As many positions as a document has. *)
Definition places (t : TextBuffer) : nat := S (length (content t)).
Definition is_space (t : TextBuffer) (p : Pos) : bool := bool_decide (class t p = Space).

Definition word_forward (big : bool) (t : TextBuffer) : outcome TextBuffer :=
  let q := cursor t in
  let start := class t q in
  '(q, _) ← (if bool_decide (start = Word) || bool_decide (start = Punct)
             then walk (next_pos t) (λ p, in_run (class t p) start big) (S (places t)) q
             else Done (q, false));
  '(q, _) ← walk (next_pos t) (is_space t) (S (places t)) q;
  Done (set_cursor q.1 q.2 t).
Definition move_word_forward (t : TextBuffer) : outcome TextBuffer := word_forward false t.
Definition move_long_word_forward (t : TextBuffer) : outcome TextBuffer := word_forward true t.
(** The scan [e] and [b] share, in their directions. *)
Definition scan_word (step : Pos → option Pos) (t : TextBuffer) : outcome TextBuffer :=
  match step (cursor t) with
  | None => Done t
  | Some q =>
      '(q, stuck) ← walk step (is_space t) (S (places t)) q;
      if (stuck : bool) then Done (set_cursor q.1 q.2 t) else
      let run := class t q in
      q ← extend step (λ p, in_run (class t p) run false) (S (places t)) q;
      Done (set_cursor q.1 q.2 t)
  end.
Definition move_word_end (t : TextBuffer) : outcome TextBuffer := scan_word (next_pos t) t.
Definition move_word_back (t : TextBuffer) : outcome TextBuffer := scan_word (prev_pos t) t.

(** The run of one class under a position, on its line. *)
Fixpoint run_lo (t : TextBuffer) (r : nat) (target : Class_) (lo : nat) : nat :=
  match lo with
  | O => O
  | S lo' => if bool_decide (class t (r, lo') = target) then run_lo t r target lo' else lo
  end.
Fixpoint run_hi (fuel : nat) (t : TextBuffer) (r len : nat) (target : Class_) (hi : nat) : outcome nat :=
  match fuel with
  | O => OutOfFuel
  | S fuel =>
      if (hi + 1 <? len) && bool_decide (class t (r, hi + 1) = target) then run_hi fuel t r len target (hi + 1)
      else Done hi
  end.
Definition word_span_at (p : Pos) (t : TextBuffer) : outcome (option (Pos * Pos)) :=
  let r := p.1 in
  let len := char_len r t in
  if len =? 0 then Done None else
  let c := p.2 `min` (len - 1) in
  let target := class t (r, c) in
  hi ← run_hi (S len) t r len target c;
  Done (Some ((r, run_lo t r target c), (r, hi))).
End Words.

(** ** Editing *)

(** [self.lines\[row\]] changed in place. *)
Definition edit_line (f : list Z → outcome (list Z)) (t : TextBuffer) : outcome TextBuffer :=
  l ← unwrap (lines t !! row t);
  l ← f l;
  Done (set_lines (<[row t := l]> (lines t)) t).

Definition insert_newline (t : TextBuffer) : outcome TextBuffer :=
  t ← bump t;
  l ← unwrap (lines t !! row t);
  '(l, tail) ← split_off l (byte_of l (col t));
  ls ← vec_insert (<[row t := l]> (lines t)) (row t + 1) tail;
  Done (set_pos (row t + 1, 0) (set_lines ls t)).
Definition insert_char (ch : Z) (t : TextBuffer) : outcome TextBuffer :=
  t ← bump t;
  if (ch =? 10)%Z then insert_newline t else
  t ← edit_line (λ l, str_insert l (byte_of l (col t)) ch) t;
  Done (set_pos (row t, col t + 1) t).
Definition insert_str (s : list Z) (t : TextBuffer) : outcome TextBuffer :=
  t ← bump t; foldM (λ t ch, insert_char ch t) t s.
Definition backspace (t : TextBuffer) : outcome TextBuffer :=
  t ← bump t;
  if 0 <? col t then
    t ← edit_line (λ l, str_remove l (byte_of l (col t - 1))) t;
    Done (set_pos (row t, col t - 1) t)
  else if 0 <? row t then
    cur ← unwrap (lines t !! row t);
    ls ← vec_remove (lines t) (row t);
    let t := set_lines ls t in
    let t := set_pos (row t - 1, char_len (row t - 1) t) t in
    edit_line (λ l, Done (l ++ cur)) t
  else Done t.
Definition delete_char (t : TextBuffer) : outcome TextBuffer :=
  t ← bump t;
  if col t <? char_len (row t) t then edit_line (λ l, str_remove l (byte_of l (col t))) t
  else if row t + 1 <? line_count t then
    next ← unwrap (lines t !! (row t + 1));
    ls ← vec_remove (lines t) (row t + 1);
    edit_line (λ l, Done (l ++ next)) (set_lines ls t)
  else Done t.
Definition delete_line (t : TextBuffer) : outcome TextBuffer :=
  t ← bump t;
  if line_count t =? 1 then Done (set_pos (row t, 0) (set_lines (<[0 := []]> (lines t)) t)) else
  ls ← vec_remove (lines t) (row t);
  let t := set_lines ls t in
  let r := if line_count t <=? row t then line_count t - 1 else row t in
  Done (set_pos (r, col t `min` char_len r t) t).

(** The lines of a range, first and last cut, with their breaks. *)
Definition range_text (a b : Pos) (t : TextBuffer) : outcome (list Z) :=
  let '(lo, hi) := order a b in
  if lo.1 =? hi.1 then char_slice (line lo.1 t) lo.2 (hi.2 + 1) else
  first ← char_slice (line lo.1 t) lo.2 (char_len lo.1 t);
  let mid := concat ((λ r, line r t ++ [10%Z]) <$> seq (lo.1 + 1) (hi.1 - (lo.1 + 1))) in
  last ← char_slice (line hi.1 t) 0 (hi.2 + 1);
  Done (first ++ [10%Z] ++ mid ++ last).
(** [Vec::splice(a..=b, once(x))]: panics unless [a <= b + 1 <= len]. *)
Definition splice_one (v : list (list Z)) (a b : nat) (x : list Z) : outcome (list (list Z)) :=
  if (a <=? b + 1) && (b + 1 <=? length v) then Done (take a v ++ x :: drop (b + 1) v) else Panic.
Definition delete_range (a b : Pos) (t : TextBuffer) : outcome TextBuffer :=
  t ← bump t;
  let '(lo, hi) := order a b in
  prefix ← char_slice (line lo.1 t) 0 lo.2;
  suffix ← char_slice (line hi.1 t) (hi.2 + 1) (char_len hi.1 t);
  ls ← splice_one (lines t) lo.1 hi.1 (prefix ++ suffix);
  let t := set_lines ls t in
  Done (set_pos (lo.1, lo.2 `min` char_len lo.1 t) t).

(** ** Search *)

Definition find_line_matches (pat : list Z) (rl : nat * list Z) : outcome (list (Pos * Pos)) :=
  let '(r, l) := rl in
  bs ← match_indices (S (length l)) 0 pat l;
  mapM_o (λ b, start ← char_col_of l b; Done ((r, start), (r, start + length pat - 1))) bs.
Definition find_all (pat : list Z) (t : TextBuffer) : outcome (list (Pos * Pos)) :=
  match pat with
  | [] => Done []
  | _ => ms ← mapM_o (find_line_matches pat) (imap (λ r l, (r, l)) (lines t)); Done (concat ms)
  end.
(** [line\[from..\].find(pat)]: the byte of the first match, from the line's start. *)
Definition find_from (pat l : list Z) (from : nat) : outcome (option nat) :=
  n ← boundary l from;
  Done (match find_sub pat (drop n l) with
        | Some i => Some (from + str_len (take i (drop n l)))
        | None => None
        end).
Definition probe (pat : list Z) (t : TextBuffer) (off : nat) : outcome (option Pos) :=
  let n := line_count t in
  if n =? 0 then Panic else
  let r := (row t + off) mod n in
  l ← unwrap (lines t !! r);
  let from := if off =? 0 then byte_of l (col t + 1) else 0 in
  hit ← (if from <=? str_len l then find_from pat l from else Done None);
  match hit with
  | Some b => c ← char_col_of l b; Done (Some (r, c))
  | None =>
      if off =? n then
        l ← unwrap (lines t !! row t);
        hit ← find_from pat l 0;
        match hit with
        | Some b => c ← char_col_of l b; Done (Some (row t, c))
        | None => Done None
        end
      else Done None
  end.
Definition find (pat : list Z) (t : TextBuffer) : outcome (option Pos) :=
  match pat with
  | [] => Done None
  | _ => find_mapM (probe pat t) (seq 0 (line_count t + 1))
  end.

(** ** Undo *)

Definition checkpoint (t : TextBuffer) : TextBuffer :=
  let u := if length (undo t) =? UNDO_CAP then drop 1 (undo t) else undo t in
  set_undo (u ++ [mkSnap (lines t) (row t) (col t)]) t.
Definition undo_ (t : TextBuffer) : outcome (bool * TextBuffer) :=
  match last (undo t) with
  | Some s =>
      let t := set_undo (take (length (undo t) - 1) (undo t)) t in
      t ← bump (set_cursor (s_row s) (s_col s) (set_lines (s_lines s) t));
      Done (true, t)
  | None => Done (false, t)
  end.
Definition replace_content (content : list Z) (t : TextBuffer) : outcome TextBuffer :=
  t ← bump t;
  let t := checkpoint t in
  Done (set_cursor (row t) (col t) (set_lines (lines_of content) t)).

(** ** Soft wrap (wrap.rs): visual rows *)

Definition line_rows (chars tw : nat) : nat :=
  let tw := tw `max` 1 in if chars =? 0 then 1 else (chars + tw - 1) / tw.
Definition row_rows (t : TextBuffer) (r tw : nat) : nat := line_rows (char_len r t) tw.
Definition cursor_visual (t : TextBuffer) (tw : nat) : Pos :=
  (row t, (col t / (tw `max` 1)) `min` (row_rows t (row t) tw - 1)).
Definition forward (t : TextBuffer) (tw : nat) (p : Pos) : option Pos :=
  if p.2 + 1 <? row_rows t p.1 tw then Some (p.1, p.2 + 1)
  else if p.1 + 1 <? line_count t then Some (p.1 + 1, 0)
  else None.
Definition backward (t : TextBuffer) (tw : nat) (p : Pos) : option Pos :=
  if 0 <? p.2 then Some (p.1, p.2 - 1)
  else if 0 <? p.1 then Some (p.1 - 1, row_rows t (p.1 - 1) tw - 1)
  else None.
Fixpoint back_n (t : TextBuffer) (tw : nat) (p : Pos) (n : nat) : Pos :=
  match n with
  | O => p
  | S n => match backward t tw p with Some q => back_n t tw q n | None => p end
  end.

End NoraText.
