(* ===== verification/NoraSpec.v ===== *)
(** * The editor's text buffer: what its operations are

    NoraFlat: a position cuts the document in two; the text before it, that after it
    and the character at it say what the line operations do to the document as one
    string.  NoraSpec: the buffer as one text with a caret in it and a history of such
    texts; every operation of the buffer is an operation of that. *)

From S2P Require Import Prelude NoraText.
Import NoraText.

Module NoraFlat.

Notation NL := 10%Z.

(** ** Bytes and characters *)

Lemma len_pos c : 1 ≤ len_utf8 c.
Proof. unfold len_utf8. repeat case_match; lia. Qed.
Lemma str_len_app s t : str_len (s ++ t) = str_len s + str_len t.
Proof. induction s as [|c s IH]; cbn; [done|]. rewrite IH. lia. Qed.
Lemma indices_lookup s off n : char_indices_from off s !! n = (λ c, (off + str_len (take n s), c)) <$> s !! n.
Proof.
  revert off n. induction s as [|c s IH]; intros off [|n]; cbn; [done..|by rewrite Nat.add_0_r|]. rewrite IH. destruct (s !! n); [|done]. cbn. do 2 f_equal. lia.
Qed.
Lemma byte_of_eq s n : byte_of s n = str_len (take n s).
Proof.
  unfold byte_of, char_indices. rewrite indices_lookup. destruct (s !! n) as [c|] eqn:E; cbn; [done|]. apply lookup_ge_None in E. by rewrite take_ge.
Qed.
Lemma boundary_take s n : boundary s (str_len (take n s)) = Done (n `min` length s).
Proof.
  revert n. induction s as [|c s IH]; intros [|n]; [done..|]. cbn [take str_len boundary length]. pose proof (len_pos c). destruct (Nat.eqb_spec (len_utf8 c + str_len (take n s)) 0); [lia|].
  rewrite (proj2 (Nat.ltb_ge _ _)) by lia. replace (_ - len_utf8 c) with (str_len (take n s)) by lia. by rewrite IH.
Qed.
Lemma boundary_byte_of s n : boundary s (byte_of s n) = Done (n `min` length s).
Proof. rewrite byte_of_eq. apply boundary_take. Qed.
Lemma byte_of_mid l1 l2 : boundary (l1 ++ l2) (byte_of (l1 ++ l2) (length l1)) = Done (length l1).
Proof. rewrite boundary_byte_of, length_app. f_equal. lia. Qed.
Lemma str_insert_mid l1 l2 ch : str_insert (l1 ++ l2) (byte_of (l1 ++ l2) (length l1)) ch = Done (l1 ++ ch :: l2).
Proof. unfold str_insert. rewrite byte_of_mid, bind_done, take_app_length, drop_app_length. done. Qed.
Lemma str_remove_mid l1 c l2 : str_remove (l1 ++ c :: l2) (byte_of (l1 ++ c :: l2) (length l1)) = Done (l1 ++ l2).
Proof. unfold str_remove. rewrite byte_of_mid, bind_done, take_app_length, drop_app_length. done. Qed.
Lemma split_off_mid l1 l2 : split_off (l1 ++ l2) (byte_of (l1 ++ l2) (length l1)) = Done (l1, l2).
Proof. unfold split_off. rewrite byte_of_mid, bind_done, take_app_length, drop_app_length. done. Qed.
Lemma byte_of_mono s a b : a ≤ b → byte_of s a ≤ byte_of s b.
Proof. intros H. rewrite !byte_of_eq. replace (take a s) with (take a (take b s)) by (rewrite take_take; f_equal; lia). rewrite <-(take_drop a (take b s)) at 2. rewrite str_len_app. lia. Qed.
(** A slice by character positions, clipped to the string. *)
Lemma char_slice_eq s a b : char_slice s a b = Done (take (b - a) (drop a s)).
Proof.
  unfold char_slice, str_slice. rewrite (proj2 (Nat.ltb_ge _ _)) by lia. rewrite boundary_byte_of, bind_done. destruct (Nat.le_ge_cases a b) as [H|H].
  - rewrite Nat.max_l by (by apply byte_of_mono). rewrite boundary_byte_of, bind_done. destruct (Nat.le_ge_cases (length s) a) as [H1|H1].
    + rewrite !Nat.min_r by lia. rewrite Nat.sub_diag. cbn [take]. by rewrite (drop_ge s a), take_nil by lia.
    + rewrite (Nat.min_l a) by lia. destruct (Nat.le_ge_cases (length s) b) as [H2|H2]; [|by rewrite (Nat.min_l b) by lia].
      rewrite (Nat.min_r b) by lia. rewrite !take_ge by (rewrite length_drop; lia). done.
  - rewrite Nat.max_r by (by apply byte_of_mono). rewrite boundary_byte_of, bind_done, !Nat.sub_diag. by replace (b - a) with 0 by lia.
Qed.

(** ** Lines and text *)

Definition lead (ls : list (list Z)) : list Z := concat ((λ l, l ++ [NL]) <$> ls).
Definition trail (ls : list (list Z)) : list Z := concat ((λ l, NL :: l) <$> ls).
Notation plain := (Forall (λ c, c ≠ NL)).

Lemma lead_app a b : lead (a ++ b) = lead a ++ lead b.
Proof. unfold lead. by rewrite fmap_app, concat_app. Qed.
Lemma lead_snoc_len a l : length (lead (a ++ [l])) = length (lead a) + length l + 1.
Proof. rewrite lead_app. unfold lead. cbn. rewrite app_nil_r, !length_app. cbn. lia. Qed.
Lemma trail_app a b : trail (a ++ b) = trail a ++ trail b.
Proof. unfold trail. by rewrite fmap_app, concat_app. Qed.
Lemma join_cons l ls : join_nl (l :: ls) = l ++ trail ls.
Proof.
  revert l. induction ls as [|l' ls IH]; intros l; [by rewrite app_nil_r|]. change (join_nl (l :: l' :: ls)) with (l ++ NL :: join_nl (l' :: ls)). by rewrite IH.
Qed.
Lemma lead_trail above l : NL :: lead above ++ l = trail (above ++ [l]).
Proof.
  induction above as [|a above IH]; [by cbn; rewrite app_nil_r|]. change (lead (a :: above)) with ((a ++ [NL]) ++ lead above). cbn [app].
  change (trail (a :: above ++ [l])) with (NL :: a ++ trail (above ++ [l])). rewrite <-IH. by rewrite <-!app_assoc.
Qed.
Lemma join_at above l below : join_nl (above ++ l :: below) = lead above ++ l ++ trail below.
Proof.
  destruct above as [|a above]; [apply join_cons|]. cbn [app]. rewrite join_cons. change (l :: below) with ([l] ++ below). rewrite app_assoc, trail_app, <-lead_trail.
  change (lead (a :: above)) with ((a ++ [NL]) ++ lead above). cbn [app]. by rewrite <-!app_assoc.
Qed.
Lemma split_plain l : plain l → split_nl l = [l].
Proof. induction 1 as [|c l Hc _ IH]; [done|]. cbn. by rewrite (proj2 (Z.eqb_neq _ _) Hc), IH. Qed.
Lemma split_trail l ls : plain l → Forall plain ls → split_nl (l ++ trail ls) = l :: ls.
Proof.
  intros Hl Hls. revert l Hl. induction Hls as [|l' ls Hl' _ IH]; intros l Hl; [rewrite app_nil_r; by apply split_plain|].
  change (trail (l' :: ls)) with (NL :: l' ++ trail ls). induction Hl as [|c l Hc _ IHl]; [cbn; by rewrite IH|]. cbn [app split_nl]. by rewrite (proj2 (Z.eqb_neq _ _) Hc), IHl.
Qed.
(** Lines without breaks are read back from their text, and the text from its lines. *)
Lemma split_join ls : ls ≠ [] → Forall plain ls → split_nl (join_nl ls) = ls.
Proof. intros Hne H. destruct ls as [|l ls]; [done|]. apply Forall_cons in H as [Hl Hls]. rewrite join_cons. by apply split_trail. Qed.
Lemma split_nl_ok s : split_nl s ≠ [] ∧ Forall plain (split_nl s) ∧ join_nl (split_nl s) = s.
Proof.
  induction s as [|c s (Hne & Hp & Hj)]; [split; [done|]; split; [by repeat constructor|done]|]. cbn [split_nl]. destruct (Z.eqb_spec c NL) as [->|Hc].
  - split; [done|]. split; [by constructor|]. destruct (split_nl s); [done|]. cbn [join_nl app]. by f_equal.
  - destruct (split_nl s) as [|l ls]; [done|]. apply Forall_cons in Hp as [Hl Hls]. split; [done|]. split; [by repeat constructor|].
    rewrite join_cons in *. cbn. by f_equal.
Qed.
(** ** Positions *)

(** The document cut at [p]: lines above, the line's two parts, lines below. *)
Record cut (ls : list (list Z)) (p : Pos) (above : list (list Z)) (l1 l2 : list Z) (below : list (list Z)) : Prop := mkCut {
  cut_lines : ls = above ++ (l1 ++ l2) :: below;
  cut_pos : p = (length above, length l1)
}.
Definition valid (ls : list (list Z)) (p : Pos) : Prop := ∃ l, ls !! p.1 = Some l ∧ p.2 ≤ length l.
Lemma valid_cut ls p : valid ls p ↔ ∃ above l1 l2 below, cut ls p above l1 l2 below.
Proof.
  split.
  - intros (l & Hl & Hc). exists (take p.1 ls), (take p.2 l), (drop p.2 l), (drop (S p.1) ls). pose proof (lookup_lt_Some _ _ _ Hl). split.
    + rewrite take_drop. by apply take_drop_middle in Hl.
    + rewrite !length_take_le by lia. by destruct p.
  - intros (above & l1 & l2 & below & [-> ->]). exists (l1 ++ l2). cbn. rewrite list_lookup_middle by done. split; [done|]. rewrite length_app. lia.
Qed.

(** Its offset in the text. *)
Definition offset (ls : list (list Z)) (p : Pos) : nat := length (lead (take p.1 ls)) + p.2.

Section Cut.
Context {ls : list (list Z)} {p : Pos} {above : list (list Z)} {l1 l2 : list Z} {below : list (list Z)} (C : cut ls p above l1 l2 below).
Lemma cut_offset : offset ls p = length (lead above ++ l1).
Proof. destruct C as [-> ->]. unfold offset. cbn. by rewrite take_app_length, length_app. Qed.
Lemma cut_join : join_nl ls = (lead above ++ l1) ++ l2 ++ trail below.
Proof. destruct C as [-> ->]. rewrite join_at. by rewrite <-!app_assoc. Qed.
Lemma cut_take : take (offset ls p) (join_nl ls) = lead above ++ l1.
Proof. rewrite cut_offset, cut_join. apply take_app_length. Qed.
Lemma cut_drop : drop (offset ls p) (join_nl ls) = l2 ++ trail below.
Proof. rewrite cut_offset, cut_join. apply drop_app_length. Qed.
Lemma cut_line : ls !! p.1 = Some (l1 ++ l2).
Proof. destruct C as [-> ->]. by apply list_lookup_middle. Qed.
Lemma cut_count : length ls = length above + 1 + length below.
Proof. destruct C as [-> _]. rewrite length_app. cbn. lia. Qed.
End Cut.

Lemma drop_past {A} (l : list A) x r : drop (S (length l)) (l ++ x :: r) = r.
Proof. induction l; [done|by cbn]. Qed.
Lemma valid_offset ls p : valid ls p → offset ls p ≤ length (join_nl ls).
Proof. intros (above & l1 & l2 & below & C)%valid_cut. rewrite (cut_offset C), (cut_join C), (length_app (_ ++ _)). lia. Qed.

End NoraFlat.

Import NoraFlat.

Module NoraSpec.

(** ** The abstract document *)

(** The text before the caret and the text after it. *)
Definition Text : Type := list Z * list Z.
Definition halves (ls : list (list Z)) (p : Pos) : Text :=
  (take (offset ls p) (join_nl ls), drop (offset ls p) (join_nl ls)).
Record Doc := mkDoc { here : Text; history : list Text }.

Definition advance (n : nat) (x : Text) : Text := (x.1 ++ take n x.2, drop n x.2).
Definition retreat (n : nat) (x : Text) : Text :=
  (take (length x.1 - n) x.1, drop (length x.1 - n) x.1 ++ x.2).
(** How long [p] holds. *)
Fixpoint run (p : Z → bool) (s : list Z) : nat :=
  match s with [] => 0 | c :: s => if p c then S (run p s) else 0 end.
Notation back s := (reverse s).

(** The caret's row and column, and the caret put at a row and a column, clamped. *)
Definition row_of (x : Text) : nat := length (split_nl x.1) - 1.
Definition col_of (x : Text) : nat := length (default [] (last (split_nl x.1))).
Definition clamp (ls : list (list Z)) (r c : nat) : Pos :=
  let r := r `min` (length ls - 1) in (r, c `min` length (default [] (ls !! r))).
Definition place (r c : nat) (x : Text) : Text :=
  let ls := split_nl (x.1 ++ x.2) in halves ls (clamp ls r c).

(** Without the line the caret is on. *)
Definition without_line (x : Text) : Text :=
  let ls := split_nl (x.1 ++ x.2) in
  if length ls =? 1 then ([], []) else
  let ls := delete (row_of x) ls in halves ls (clamp ls (row_of x) (col_of x)).
(** The text of an inclusive range of positions: a range that ends at a line's end
    stops before its break. *)
Definition range_of (a b : Pos) (text : list Z) : nat * nat :=
  let ls := split_nl text in
  let '(lo, hi) := order a b in
  (offset ls lo, offset ls hi + (1 `min` (length (default [] (ls !! hi.1)) - hi.2))).
Definition segment (i j : nat) (text : list Z) : list Z := take (j - i) (drop i text).
Definition without_range (a b : Pos) (x : Text) : Text :=
  let text := x.1 ++ x.2 in
  let '(i, j) := range_of a b text in (take i text, drop (i `max` j) text).

(** Word motions: by the class of a character, a break being a space. *)
Section Words.
Context `{!Unicode}.
Definition char_class (c : Z) : Class_ := if is_whitespace c then Space else if is_word_char c then Word else Punct.
Definition spaceb (c : Z) : bool := bool_decide (char_class c = Space).
Definition next_word (big : bool) (x : Text) : Text :=
  match x.2 with
  | [] => x
  | c :: _ =>
      let n := run (λ d, in_run (char_class d) (char_class c) big) x.2 in
      advance (n + run spaceb (drop n x.2)) x
  end.
Definition end_of_word (x : Text) : Text :=
  match x.2 with
  | [] => x
  | _ :: s =>
      let n := run spaceb s in
      match drop n s with
      | [] => advance (1 + n) x
      | c :: s => advance (1 + n + run (λ d, in_run (char_class d) (char_class c) false) s) x
      end
  end.
Definition start_of_word (x : Text) : Text :=
  let s := back x.1 in
  let n := run spaceb s in
  match drop n s with
  | [] => retreat n x
  | c :: s => retreat (n + 1 + run (λ d, in_run (char_class d) (char_class c) false) s) x
  end.
End Words.

(** ** Operations *)

Inductive Op :=
  | InsertChar (c : Z) | InsertNewline | InsertStr (s : list Z) | Backspace | DeleteChar | DeleteLine
  | DeleteRange (a b : Pos) | ReplaceContent (s : list Z) | Checkpoint | Undo
  | SetCursor (r c : nat) | Left | Right | Up | Down | Home | End | Top | Bottom
  | WordForward (big : bool) | WordEnd | WordBack.

Section Ops.
Context `{!Unicode}.
Definition run_op (o : Op) (t : TextBuffer) : outcome TextBuffer :=
  match o with
  | InsertChar c => insert_char c t
  | InsertNewline => insert_newline t
  | InsertStr s => insert_str s t
  | Backspace => backspace t
  | DeleteChar => delete_char t
  | DeleteLine => delete_line t
  | DeleteRange a b => delete_range a b t
  | ReplaceContent s => replace_content s t
  | Checkpoint => Done (checkpoint t)
  | Undo => '(_, t) ← undo_ t; Done t
  | SetCursor r c => Done (set_cursor r c t)
  | Left => Done (move_left t)
  | Right => Done (move_right t)
  | Up => Done (move_up t)
  | Down => Done (move_down t)
  | Home => Done (move_home t)
  | End => Done (move_end t)
  | Top => Done (move_top t)
  | Bottom => Done (move_bottom t)
  | WordForward big => word_forward big t
  | WordEnd => move_word_end t
  | WordBack => move_word_back t
  end.

Definition text_op (o : Op) (x : Text) : Text :=
  match o with
  | InsertChar c => (x.1 ++ [c], x.2)
  | InsertNewline => (x.1 ++ [NL], x.2)
  | InsertStr s => (x.1 ++ s, x.2)
  | Backspace => (take (length x.1 - 1) x.1, x.2)
  | DeleteChar => (x.1, drop 1 x.2)
  | DeleteLine => without_line x
  | DeleteRange a b => without_range a b x
  | ReplaceContent s => place (row_of x) (col_of x) (s, [])
  | SetCursor r c => place r c x
  | Left => retreat 1 x
  | Right => advance 1 x
  | Up => if 0 <? row_of x then place (row_of x - 1) (col_of x) x else x
  | Down => if row_of x + 1 <? length (split_nl (x.1 ++ x.2)) then place (row_of x + 1) (col_of x) x else x
  | Home => retreat (run (λ c, negb (c =? NL)%Z) (back x.1)) x
  | End => advance (run (λ c, negb (c =? NL)%Z) x.2) x
  | Top => place 0 (col_of x) x
  | Bottom => place (length (split_nl (x.1 ++ x.2)) - 1) (col_of x) x
  | WordForward big => next_word big x
  | WordEnd => end_of_word x
  | WordBack => start_of_word x
  | Checkpoint | Undo => x
  end.
Definition push (x : Text) (h : list Text) : list Text := (if length h =? UNDO_CAP then drop 1 h else h) ++ [x].
Definition spec_op (o : Op) (d : Doc) : Doc :=
  match o with
  | Checkpoint => mkDoc (here d) (push (here d) (history d))
  | ReplaceContent _ => mkDoc (text_op o (here d)) (push (here d) (history d))
  | Undo => match last (history d) with
            | Some x => mkDoc x (take (length (history d) - 1) (history d))
            | None => d
            end
  | _ => mkDoc (text_op o (here d)) (history d)
  end.
(** A range is of positions of the document. *)
Definition allowed (o : Op) (t : TextBuffer) : Prop :=
  match o with DeleteRange a b => valid (lines t) a ∧ valid (lines t) b | _ => True end.
(** At most how far an operation moves the revision. *)
Definition cost (o : Op) : Z := match o with InsertStr s => 1 + 2 * zlen s | InsertNewline => 1 | _ => 2 end.
End Ops.

(** ** The buffer as a document *)

Definition snap_doc (s : Snapshot) : Text := halves (s_lines s) (s_row s, s_col s).
Definition doc (t : TextBuffer) : Doc := mkDoc (halves (lines t) (cursor t)) (snap_doc <$> undo t).
Definition snap_ok (s : Snapshot) : Prop := Forall plain (s_lines s) ∧ valid (s_lines s) (s_row s, s_col s).
Record wf (t : TextBuffer) : Prop := mkWf {
  wf_plain : Forall plain (lines t);
  wf_cursor : valid (lines t) (cursor t);
  wf_undo : length (undo t) ≤ UNDO_CAP ∧ Forall snap_ok (undo t)
}.

Lemma cut_halves {ls p above l1 l2 below} (C : cut ls p above l1 l2 below) : halves ls p = (lead above ++ l1, l2 ++ trail below).
Proof. unfold halves. by rewrite (cut_take C), (cut_drop C). Qed.
Lemma halves_app ls p : (halves ls p).1 ++ (halves ls p).2 = join_nl ls.
Proof. apply take_drop. Qed.
(** The caret's row and column are read off the text before it. *)
Lemma split_before above l1 : Forall plain above → plain l1 → split_nl (lead above ++ l1) = above ++ [l1].
Proof.
  intros Ha Hl. rewrite <-(app_nil_r l1) at 1. change (l1 ++ []) with (l1 ++ trail []). rewrite <-join_at. apply split_join; [by destruct above|].
  apply Forall_app; split; [done|by repeat constructor].
Qed.
Lemma split_lines ls p : Forall plain ls → valid ls p → split_nl ((halves ls p).1 ++ (halves ls p).2) = ls.
Proof. intros Hp (l & Hl & _). rewrite halves_app. apply split_join; [|done]. by intros ->. Qed.
Lemma pos_of ls p : Forall plain ls → valid ls p → row_of (halves ls p) = p.1 ∧ col_of (halves ls p) = p.2.
Proof.
  intros Hp (above & l1 & l2 & below & C)%valid_cut. unfold row_of, col_of. rewrite (cut_halves C). destruct C as [-> ->]. cbn [fst snd].
  apply Forall_app in Hp as [Ha [[Hl _]%Forall_app _]%Forall_cons]. rewrite split_before by done. rewrite length_app, last_snoc. cbn. lia.
Qed.
End NoraSpec.
