(* ===== verification/NoraOps.v ===== *)
(** * The editor's text buffer: every operation is its specification's

    NoraRefine: moves by the offset of the position they reach, edits by the cut at
    the cursor.  NoraOps: the operations, one by one.  NoraFind: ranges and search. *)

From S2P Require Import Prelude NoraText NoraSpec.
Import NoraText NoraFlat NoraSpec.

Module NoraRefine.

(** ** Offsets *)

Definition at_ (k : nat) (text : list Z) : Text := (take k text, drop k text).
Lemma advance_at n k text : advance n (at_ k text) = at_ (k + n) text.
Proof. unfold advance, at_. cbn. by rewrite take_take_drop, drop_drop. Qed.
Lemma retreat_at n k text : k ≤ length text → retreat n (at_ k text) = at_ (k - n) text.
Proof.
  intros Hk. unfold retreat, at_. cbn. rewrite length_take_le by done. rewrite take_take, Nat.min_l by lia. f_equal.
  rewrite <-(take_drop k text) at 3. rewrite drop_app_le by (rewrite length_take_le; lia). done.
Qed.
Lemma at_all k text : length text ≤ k → at_ k text = at_ (length text) text.
Proof. intros H. unfold at_. by rewrite !take_ge, !drop_ge by lia. Qed.

Section Steps.
Context (t : TextBuffer).
Notation text := (content t).
Notation ok := (valid (lines t)).
Notation off := (offset (lines t)).

Lemma len_at p : char_len p t = length (default [] (lines t !! p)).
Proof. unfold char_len. by destruct (lines t !! p). Qed.

Lemma next_spec p : ok p → match next_pos t p with Some q => ok q ∧ off q = S (off p) | None => off p = length text end.
Proof.
  intros Hv. pose proof Hv as (above & l1 & l2 & below & C)%valid_cut. unfold next_pos, char_len. rewrite (cut_line C). pose proof (cut_count C) as Hn. destruct C as [El Ep].
  rewrite Ep in *. cbn [fst snd]. rewrite length_app. destruct l2 as [|ch l2].
  - cbn [length]. rewrite (proj2 (Nat.ltb_ge _ _)) by lia. unfold line_count. rewrite Hn. destruct below as [|l below]; cbn [length].
    + rewrite (proj2 (Nat.ltb_ge _ _)) by lia. unfold offset, content. cbn [fst snd]. rewrite El, take_app_length, join_at, app_nil_r. cbn. rewrite app_nil_r, length_app. done.
    + rewrite (proj2 (Nat.ltb_lt _ _)) by lia. assert (cut (lines t) (length above + 1, 0) (above ++ [l1]) [] l below) as C2.
      { split; [by rewrite El, app_nil_r, <-app_assoc|]. rewrite length_app. done. }
      split; [apply valid_cut; by eexists _, _, _, _|]. rewrite (cut_offset C2), app_nil_r, lead_snoc_len. unfold offset. cbn [fst snd]. rewrite El, take_app_length. lia.
  - cbn [length]. rewrite (proj2 (Nat.ltb_lt _ _)) by lia. split; [|unfold offset; cbn; lia].
    exists (l1 ++ ch :: l2). cbn. rewrite El, list_lookup_middle by done. split; [done|]. rewrite length_app. cbn. lia.
Qed.
Lemma prev_spec p : ok p → match prev_pos t p with Some q => ok q ∧ off p = S (off q) | None => off p = 0 end.
Proof.
  intros Hv. pose proof Hv as (above & l1 & l2 & below & C)%valid_cut. unfold prev_pos. destruct (Nat.ltb_spec 0 p.2) as [Hc|Hc].
  { split; [|unfold offset; cbn [fst snd]; lia]. destruct Hv as (l & Hl & Hle). exists l. cbn [fst snd]. split; [done|lia]. }
  destruct C as [El Ep]. rewrite Ep in *. cbn [fst snd] in *. destruct l1; [|cbn in Hc; lia]. destruct above as [|a above _] using rev_ind.
  - cbn. done.
  - rewrite length_app in *. cbn [length]. rewrite (proj2 (Nat.ltb_lt _ _)) by lia. replace (length above + 1 - 1) with (length above) by lia.
    assert (cut (lines t) (length above, length a) above a [] (([] ++ l2) :: below)) as C2 by (split; [by rewrite El, app_nil_r, <-app_assoc|done]).
    assert (char_len (length above) t = length a) as -> by (pose proof (cut_line C2) as E; cbn [fst] in E; unfold char_len; by rewrite E, app_nil_r).
    split; [apply valid_cut; by eexists _, _, _, _|]. rewrite (cut_offset C2). unfold offset. cbn [fst snd length].
    rewrite El, take_app_length' by (rewrite length_app; done). rewrite lead_snoc_len, length_app. lia.
Qed.

Context `{!Unicode}.
(** The class at an offset, the end of the text being its own. *)
Definition cls (s : list Z) (k : nat) : Class_ := match s !! k with Some c => char_class c | None => End_ end.
Lemma class_at p : ok p → class t p = cls text (off p).
Proof.
  intros Hv. pose proof Hv as (above & l1 & l2 & below & C)%valid_cut. unfold class, char_len, char_at, cls. rewrite (cut_line C). cbn [mbind option_bind]. pose proof (cut_count C) as Hn.
  unfold content. rewrite (cut_offset C), (cut_join C), (lookup_app_r (lead above ++ l1)), Nat.sub_diag by lia. destruct C as [El Ep].
  rewrite Ep. cbn [fst snd]. rewrite length_app. destruct l2 as [|ch l2]; cbn [length].
  - rewrite (proj2 (Nat.ltb_ge _ _)) by lia. unfold line_count. rewrite Hn. destruct below as [|l below]; cbn [length].
    + by rewrite (proj2 (Nat.ltb_ge _ _)) by lia.
    + by rewrite (proj2 (Nat.ltb_lt _ _)) by lia.
  - rewrite (proj2 (Nat.ltb_lt _ _)), list_lookup_middle by (done || lia). done.
Qed.
Lemma space_at p : ok p → is_space t p = bool_decide (cls text (off p) = Space).
Proof. intros Hv. unfold is_space. by rewrite class_at. Qed.

(** ** Scans *)

Section Scan.
Context (p : Pos → bool) (fp : Class_ → bool) (Hp : ∀ q, ok q → p q = fp (cls text (off q))) (Hend : fp End_ = false).
Notation fc := (λ c, fp (char_class c)).
Lemma run_drop s k : run fc (drop k s) = match s !! k with Some c => if fp (char_class c) then S (run fc (drop (S k) s)) else 0 | None => 0 end.
Proof. destruct (s !! k) as [c|] eqn:E; [by rewrite (drop_S _ _ _ E)|]. apply lookup_ge_None in E. by rewrite drop_ge. Qed.
Lemma walk_next fuel : ∀ q, ok q → length text - off q < fuel →
  ∃ q', walk (next_pos t) p fuel q = Done (q', false) ∧ ok q' ∧ off q' = off q + run fc (drop (off q) text).
Proof.
  induction fuel as [|fuel IH]; intros q Hq Hf; [lia|]. cbn [walk]. rewrite Hp by done. rewrite run_drop. unfold cls.
  pose proof (next_spec q Hq) as Hn. pose proof (valid_offset _ _ Hq) as Ho. fold (content t) in Ho. destruct (text !! off q) as [c|] eqn:E.
  - apply lookup_lt_Some in E. destruct (fp (char_class c)); [|exists q; split; [done|]; split; [done|lia]]. destruct (next_pos t q) as [q1|]; [|lia].
    destruct Hn as [Hq1 Ho1]. destruct (IH q1 Hq1) as (q' & -> & Hq' & Ho'); [lia|]. exists q'. split; [done|]. split; [done|]. rewrite Ho', Ho1. lia.
  - rewrite Hend. exists q. split; [done|]. split; [done|lia].
Qed.
Lemma extend_next fuel : ∀ q, ok q → length text - off q < fuel →
  ∃ q', extend (next_pos t) p fuel q = Done q' ∧ ok q' ∧ off q' = off q + run fc (drop (S (off q)) text).
Proof.
  induction fuel as [|fuel IH]; intros q Hq Hf; [lia|]. cbn [extend]. pose proof (next_spec q Hq) as Hn. pose proof (valid_offset _ _ Hq) as Ho. fold (content t) in Ho.
  destruct (next_pos t q) as [q1|]; [|exists q; split; [done|]; split; [done|]; rewrite drop_ge by lia; cbn; lia]. destruct Hn as [Hq1 Ho1].
  rewrite Hp by done. rewrite run_drop. unfold cls. rewrite Ho1. destruct (text !! S (off q)) as [c|] eqn:E.
  - destruct (fp (char_class c)); [|exists q; split; [done|]; split; [done|lia]]. destruct (IH q1 Hq1) as (q' & -> & Hq' & Ho').
    { pose proof (valid_offset _ _ Hq1) as Hx. fold (content t) in Hx. lia. }
    exists q'. split; [done|]. split; [done|]. rewrite Ho', Ho1. lia.
  - rewrite Hend. exists q. split; [done|]. split; [done|lia].
Qed.
Lemma run_back s k c : s !! k = Some c → run fc (back (take (S k) s)) = if fp (char_class c) then S (run fc (back (take k s))) else 0.
Proof. intros E. rewrite (take_S_r _ _ _ E), reverse_snoc. done. Qed.
(** Backwards, from a position before the end. *)
Lemma walk_prev fuel : ∀ q, ok q → off q < length text → off q < fuel → let n := run fc (back (take (S (off q)) text)) in
  ∃ q', walk (prev_pos t) p fuel q = Done (q', bool_decide (n = S (off q))) ∧ ok q' ∧ off q' = off q - n.
Proof.
  induction fuel as [|fuel IH]; intros q Hq Hl Hf n; [lia|]. destruct (lookup_lt_is_Some_2 text (off q)) as [c E]; [lia|].
  subst n. rewrite (run_back _ _ _ E). cbn [walk]. rewrite Hp by done. unfold cls at 1. rewrite E. destruct (fp (char_class c)).
  - pose proof (prev_spec q Hq) as Hn. destruct (prev_pos t q) as [q1|].
    + destruct Hn as [Hq1 Ho1]. destruct (IH q1 Hq1) as (q' & -> & Hq' & Ho'); [lia|lia|]. exists q'. split; [do 2 f_equal; apply bool_decide_ext; rewrite Ho1; lia|].
      split; [done|]. rewrite Ho', Ho1. lia.
    + exists q. rewrite Hn. split; [done|]. split; [done|lia].
  - exists q. split; [done|]. split; [done|lia].
Qed.
Lemma extend_prev fuel : ∀ q, ok q → off q < fuel →
  ∃ q', extend (prev_pos t) p fuel q = Done q' ∧ ok q' ∧ off q' = off q - run fc (back (take (off q) text)).
Proof.
  induction fuel as [|fuel IH]; intros q Hq Hf; [lia|]. cbn [extend]. pose proof (prev_spec q Hq) as Hn. pose proof (valid_offset _ _ Hq) as Ho. fold (content t) in Ho.
  destruct (prev_pos t q) as [q1|]; [|exists q; split; [done|]; split; [done|]; rewrite Hn; cbn; lia]. destruct Hn as [Hq1 Ho1].
  destruct (lookup_lt_is_Some_2 text (off q1)) as [c E]; [lia|]. rewrite Ho1, (run_back _ _ _ E), Hp by done. unfold cls. rewrite E.
  destruct (fp (char_class c)); [|exists q; split; [done|]; split; [done|lia]]. destruct (IH q1 Hq1) as (q' & -> & Hq' & Ho'); [lia|].
  exists q'. split; [done|]. split; [done|lia].
Qed.
End Scan.
End Steps.
End NoraRefine.

Import NoraRefine.

Module NoraOps.

Section Ops.
Context `{!Unicode}.

(** What an operation does: its specification's document, a revision that moves
    within its cost, and moves when the text changes. *)
Definition steps (o : Op) (t t' : TextBuffer) : Prop :=
  wf t' ∧ doc t' = spec_op o (doc t) ∧ (rev t ≤ rev t' ≤ rev t + cost o)%Z ∧ (rev t' = rev t → content t' = content t).
Definition does (o : Op) (t : TextBuffer) : Prop := ∃ t', run_op o t = Done t' ∧ steps o t t'.

(** ** Moves *)

Lemma cost_pos o : (0 ≤ cost o)%Z.
Proof. destruct o; cbn; lia. Qed.
(** A move to a position of the document. *)
Lemma moves o t p : wf t → valid (lines t) p → run_op o t = Done (set_pos p t) → spec_op o (doc t) = mkDoc (text_op o (here (doc t))) (history (doc t)) →
  text_op o (here (doc t)) = at_ (offset (lines t) p) (content t) → does o t.
Proof.
  intros [W1 W2 W3] Hv E Es Et. exists (set_pos p t). split; [done|]. pose proof (cost_pos o). split; [by split; destruct p|].
  split; [|split; [cbn; lia|done]]. by rewrite Es, Et; destruct p.
Qed.
Lemma stays o t : wf t → run_op o t = Done t → spec_op o (doc t) = mkDoc (text_op o (here (doc t))) (history (doc t)) →
  text_op o (here (doc t)) = here (doc t) → does o t.
Proof.
  intros W E Es Et. exists t. split; [done|]. pose proof (cost_pos o). split; [done|]. split; [rewrite Es, Et; by destruct (doc t)|]. split; [lia|done].
Qed.
Lemma here_at t : here (doc t) = at_ (offset (lines t) (cursor t)) (content t).
Proof. done. Qed.

Lemma clamp_valid ls r c : ls ≠ [] → valid ls (clamp ls r c).
Proof.
  intros Hne. unfold clamp, valid. cbn [fst snd]. destruct (lookup_lt_is_Some_2 ls (r `min` (length ls - 1))) as [l Hl]; [destruct ls; [done|cbn; lia]|].
  exists l. rewrite Hl. cbn. split; [done|lia].
Qed.
Lemma wf_some t : wf t → lines t ≠ [].
Proof. intros [_ (l & Hl & _) _] E. by rewrite E in Hl. Qed.
Lemma set_cursor_clamp r c t : set_cursor r c t = set_pos (clamp (lines t) r c) t.
Proof. unfold set_cursor, clamp, line_count. by rewrite len_at. Qed.
Lemma place_doc r c t : wf t → place r c (here (doc t)) = at_ (offset (lines t) (clamp (lines t) r c)) (content t).
Proof. intros [W1 W2 _]. unfold place. cbn [here doc]. rewrite split_lines by done. done. Qed.
Lemma doc_pos t : wf t → row_of (here (doc t)) = row t ∧ col_of (here (doc t)) = col t.
Proof. intros [W1 W2 _]. by apply pos_of. Qed.
Lemma doc_lines t : wf t → split_nl ((here (doc t)).1 ++ (here (doc t)).2) = lines t.
Proof. intros [W1 W2 _]. by apply split_lines. Qed.
Lemma wf_row t : wf t → row t < line_count t ∧ col t ≤ char_len (row t) t.
Proof. intros [_ (l & Hl & Hc) _]. cbn in *. split; [by eapply lookup_lt_Some|]. unfold char_len. by rewrite Hl. Qed.

(** A move to a clamped row and column. *)
Lemma places_at o t r c : wf t → run_op o t = Done (set_pos (clamp (lines t) r c) t) → spec_op o (doc t) = mkDoc (text_op o (here (doc t))) (history (doc t)) →
  text_op o (here (doc t)) = place r c (here (doc t)) → does o t.
Proof. intros W E Es Et. eapply (moves o t (clamp (lines t) r c)); [done|by apply clamp_valid, wf_some|done|done|]. by rewrite Et, place_doc. Qed.
Lemma set_cursor_does r c t : wf t → does (SetCursor r c) t.
Proof. intros W. apply (places_at _ t r c); [done| |done|done]. cbn. by rewrite set_cursor_clamp. Qed.
Lemma clamp_row t r c : r < line_count t → clamp (lines t) r c = (r, c `min` char_len r t).
Proof. intros H1. unfold clamp, line_count in *. rewrite len_at, Nat.min_l by lia. done. Qed.
Lemma up_does t : wf t → does Up t.
Proof.
  intros W. destruct (doc_pos t W) as [Er Ec]. destruct (wf_row t W). destruct (Nat.ltb_spec 0 (row t)) as [Hlt|Hlt].
  - apply (places_at _ t (row t - 1) (col t)); [done| |done|].
    + cbn. unfold move_up. rewrite (proj2 (Nat.ltb_lt _ _)), clamp_row by lia. done.
    + cbn [text_op]. by rewrite Er, Ec, (proj2 (Nat.ltb_lt _ _)).
  - apply stays; [done| |done|].
    + cbn. unfold move_up. by rewrite (proj2 (Nat.ltb_ge _ _)).
    + cbn [text_op]. by rewrite Er, (proj2 (Nat.ltb_ge _ _)).
Qed.
Lemma down_does t : wf t → does Down t.
Proof.
  intros W. destruct (doc_pos t W) as [Er Ec]. pose proof (doc_lines t W) as El. destruct (wf_row t W). destruct (Nat.ltb_spec (row t + 1) (line_count t)) as [Hlt|Hlt].
  - apply (places_at _ t (row t + 1) (col t)); [done| |done|].
    + cbn. unfold move_down. rewrite (proj2 (Nat.ltb_lt _ _)), clamp_row by lia. done.
    + cbn [text_op]. by rewrite Er, Ec, El, (proj2 (Nat.ltb_lt _ _)).
  - apply stays; [done| |done|].
    + cbn. unfold move_down. by rewrite (proj2 (Nat.ltb_ge _ _)).
    + cbn [text_op]. by rewrite Er, El, (proj2 (Nat.ltb_ge _ _)).
Qed.
Lemma top_does t : wf t → does Top t.
Proof.
  intros W. destruct (doc_pos t W) as [_ Ec]. destruct (wf_row t W). apply (places_at _ t 0 (col t)); [done| |done|cbn [text_op]; by rewrite Ec].
  cbn. unfold move_top. by rewrite clamp_row by lia.
Qed.
Lemma bottom_does t : wf t → does Bottom t.
Proof.
  intros W. destruct (doc_pos t W) as [_ Ec]. pose proof (doc_lines t W) as El. destruct (wf_row t W).
  apply (places_at _ t (line_count t - 1) (col t)); [done| |done|cbn [text_op]; by rewrite Ec, El].
  cbn. unfold move_bottom. by rewrite clamp_row by lia.
Qed.

(** A move by characters. *)
Lemma left_does t : wf t → does Left t.
Proof.
  intros W. pose proof (prev_spec t _ (wf_cursor t W)) as Hp. pose proof (valid_offset _ _ (wf_cursor t W)) as Ho. fold (content t) in Ho.
  unfold prev_pos, cursor in Hp. cbn [fst snd] in Hp. fold (cursor t) in Hp.
  assert (run_op Left t = Done (move_left t)) as E by done. unfold move_left in E.
  destruct (0 <? col t); [|destruct (0 <? row t)].
  1, 2: destruct Hp as [Hq Eq]; eapply moves; [done|exact Hq|exact E|done|]; rewrite here_at; cbn [text_op]; rewrite retreat_at by done; f_equal; lia.
  eapply stays; [done|exact E|done|]. rewrite here_at. cbn [text_op]. rewrite retreat_at by done. by rewrite Hp.
Qed.
Lemma right_does t : wf t → does Right t.
Proof.
  intros W. pose proof (next_spec t _ (wf_cursor t W)) as Hp. pose proof (valid_offset _ _ (wf_cursor t W)) as Ho. fold (content t) in Ho.
  unfold next_pos, cursor in Hp. cbn [fst snd] in Hp. fold (cursor t) in Hp.
  assert (run_op Right t = Done (move_right t)) as E by done. unfold move_right in E.
  destruct (col t <? char_len (row t) t); [|destruct (row t + 1 <? line_count t)].
  1, 2: destruct Hp as [Hq Eq]; eapply moves; [done|exact Hq|exact E|done|]; rewrite here_at; cbn [text_op]; rewrite advance_at; f_equal; lia.
  eapply stays; [done|exact E|done|]. rewrite here_at. cbn [text_op]. rewrite advance_at, at_all by lia. by rewrite Hp.
Qed.
Notation not_nl := (λ c, negb (c =? NL)%Z).
Lemma run_all p s r : Forall (λ c, p c = true) s → match r with [] => True | c :: _ => p c = false end → run p (s ++ r) = length s.
Proof. induction 1 as [|c s Hc _ IH]; intros Hr; cbn; [destruct r; [done|]; cbn; by rewrite Hr|]. by rewrite Hc, IH. Qed.
Lemma plain_not_nl l : plain l → Forall (λ c, not_nl c = true) l.
Proof. intros Hl. eapply Forall_impl; [exact Hl|]. intros c Hc. cbn. by rewrite (proj2 (Z.eqb_neq _ _) Hc). Qed.
Lemma end_does t : wf t → does End t.
Proof.
  intros W. pose proof (wf_cursor t W) as (above & l1 & l2 & below & C)%valid_cut. pose proof (wf_plain t W) as Hp. pose proof C as [El Ep]. unfold cursor in Ep. injection Ep as Er Ec.
  rewrite El in Hp. apply Forall_app in Hp as [_ [[_ Hl2]%Forall_app _]%Forall_cons].
  assert (cut (lines t) (row t, char_len (row t) t) above (l1 ++ l2) [] below) as C2.
  { split; [by rewrite app_nil_r|]. unfold char_len. rewrite El, Er, list_lookup_middle by done. done. }
  eapply (moves _ t (row t, char_len (row t) t)); [done|apply valid_cut; by eexists _, _, _, _|done|done|].
  rewrite here_at. cbn [text_op]. rewrite advance_at. f_equal. unfold at_, content. cbn [snd]. rewrite (cut_drop C), (cut_offset C), (cut_offset C2).
  rewrite run_all; [rewrite !length_app; lia|by apply plain_not_nl|]. by destruct below.
Qed.
Lemma home_does t : wf t → does Home t.
Proof.
  intros W. pose proof (wf_cursor t W) as (above & l1 & l2 & below & C)%valid_cut. pose proof (wf_plain t W) as Hp. pose proof C as [El Ep]. unfold cursor in Ep. injection Ep as Er Ec.
  rewrite El in Hp. apply Forall_app in Hp as [_ [[Hl1 _]%Forall_app _]%Forall_cons].
  pose proof (valid_offset _ _ (wf_cursor t W)) as Ho. fold (content t) in Ho.
  assert (cut (lines t) (row t, 0) above [] (l1 ++ l2) below) as C2 by (split; [done|by rewrite Er]).
  eapply (moves _ t (row t, 0)); [done|apply valid_cut; by eexists _, _, _, _|done|done|].
  rewrite here_at. cbn [text_op]. rewrite retreat_at by done. f_equal. unfold at_, content. cbn [fst]. rewrite (cut_take C), (cut_offset C), (cut_offset C2), reverse_app, run_all.
  - rewrite length_reverse, !length_app. cbn. lia.
  - by apply Forall_reverse, plain_not_nl.
  - destruct above as [|a above _] using rev_ind; [done|]. rewrite lead_app. cbn. rewrite app_nil_r, app_assoc, reverse_snoc. done.
Qed.

(** ** Words *)

Lemma set_cursor_valid t q : valid (lines t) q → set_cursor q.1 q.2 t = set_pos q t.
Proof.
  intros (l & Hl & Hc). pose proof (lookup_lt_Some _ _ _ Hl). rewrite set_cursor_clamp. f_equal. unfold clamp. rewrite Nat.min_l by lia. rewrite Hl. cbn [default from_option].
  rewrite Nat.min_l by done. by destruct q.
Qed.
Lemma walk_room t q : length (content t) - offset (lines t) q < S (places t).
Proof. unfold places. lia. Qed.
Notation in_word c big := (λ k, in_run k (char_class c) big).

Lemma drop_head {A} (s : list A) k c d r : s !! k = Some c → drop k s = d :: r → d = c ∧ r = drop (S k) s.
Proof. intros E. rewrite (drop_S _ _ _ E). by intros [= -> ->]. Qed.
Lemma next_word_at big k text : next_word big (at_ k text) = at_ (k + match text !! k with
  | Some c => let n := run (λ d, in_run (char_class d) (char_class c) big) (drop k text) in n + run spaceb (drop (k + n) text) | None => 0 end) text.
Proof.
  unfold next_word. change ((at_ k text).2) with (drop k text). destruct (text !! k) as [c|] eqn:Ec.
  - destruct (drop k text) as [|d r] eqn:Ed; [by rewrite (drop_S _ _ _ Ec) in Ed|]. destruct (drop_head _ _ _ _ _ Ec Ed) as [-> _]. rewrite advance_at. cbv zeta.
    rewrite <-Ed, drop_drop. done.
  - apply lookup_ge_None in Ec. rewrite drop_ge by done. by rewrite Nat.add_0_r.
Qed.
Lemma word_forward_does big t : wf t → does (WordForward big) t.
Proof.
  intros W. pose proof (wf_cursor t W) as Hv. set (k := offset (lines t) (cursor t)).
  assert (∃ q1 b1, (if bool_decide (class t (cursor t) = Word) || bool_decide (class t (cursor t) = Punct)
             then walk (next_pos t) (λ p, in_run (class t p) (class t (cursor t)) big) (S (places t)) (cursor t) else Done (cursor t, false)) = Done (q1, b1) ∧
    valid (lines t) q1 ∧ offset (lines t) q1 = k + match content t !! k with Some c => run (λ d, in_run (char_class d) (char_class c) big) (drop k (content t)) | None => 0 end) as (q1 & b1 & E1 & V1 & O1).
  { rewrite (class_at t (cursor t) Hv). fold k. destruct (content t !! k) as [c|] eqn:Ec.
    - assert (cls (content t) k = char_class c) as -> by (unfold cls; by rewrite Ec). destruct (bool_decide (char_class c = Word) || bool_decide (char_class c = Punct)) eqn:Eb.
      + destruct (walk_next t (λ p, in_run (class t p) (char_class c) big) (in_word c big)) with (fuel := S (places t)) (q := cursor t) as (q & E & V & O);
          [intros q Hq; by rewrite class_at|done|done|apply walk_room|]. exists q, false. split; [exact E|]. split; [exact V|exact O].
      + exists (cursor t), false. split; [done|]. split; [done|]. fold k. rewrite (drop_S _ _ _ Ec). cbn [run]. destruct (char_class c); [by vm_compute in Eb..|cbn; lia|cbn; lia].
    - assert (cls (content t) k = End_) as -> by (unfold cls; by rewrite Ec). exists (cursor t), false. split; [done|]. split; [done|]. fold k. lia. }
  destruct (walk_next t (is_space t) (λ c, bool_decide (c = Space))) with (fuel := S (places t)) (q := q1) as (q2 & E2 & V2 & O2); [apply space_at|done|done|apply walk_room|].
  eapply (moves _ t q2); [done|done| |done|].
  - cbn [run_op]. unfold word_forward. rewrite E1, bind_done. cbv beta iota. rewrite E2, bind_done. cbv beta iota. by rewrite set_cursor_valid.
  - rewrite here_at. cbn [text_op]. fold k. rewrite next_word_at, O2, O1. f_equal. destruct (content t !! k) as [c|] eqn:Ec; cbv zeta; [rewrite Nat.add_assoc; done|].
    apply lookup_ge_None in Ec. rewrite drop_ge by lia. cbn. lia.
Qed.
(** The run a class continues, after a character of it. *)
Notation same_run k s := (run (λ d, in_run (char_class d) k false) s).
Lemma end_of_word_at k text : k < length text → let j := S k + run spaceb (drop (S k) text) in
  end_of_word (at_ k text) = at_ (j + same_run (cls text j) (drop (S j) text)) text.
Proof.
  intros Hk j. destruct (lookup_lt_is_Some_2 text k Hk) as [c0 E0]. unfold end_of_word. change ((at_ k text).2) with (drop k text).
  destruct (drop k text) as [|d s] eqn:Ed; [by rewrite (drop_S _ _ _ E0) in Ed|]. destruct (drop_head _ _ _ _ _ E0 Ed) as [_ ->]. rewrite drop_drop. fold j. unfold cls.
  destruct (text !! j) as [c|] eqn:Ec.
  - rewrite (drop_S _ _ _ Ec), advance_at. f_equal. subst j. lia.
  - apply lookup_ge_None in Ec. rewrite (drop_ge text j), (drop_ge text (S j)) by lia. rewrite advance_at. cbn [run]. f_equal. subst j. lia.
Qed.
Lemma end_does_word t : wf t → does WordEnd t.
Proof.
  intros W. pose proof (wf_cursor t W) as Hv. set (k := offset (lines t) (cursor t)). pose proof (next_spec t _ Hv) as Hn. fold k in Hn.
  assert (run_op WordEnd t = scan_word (next_pos t) t) as E by done. unfold scan_word in E. destruct (next_pos t (cursor t)) as [q|].
  2: { eapply stays; [done|exact E|done|]. rewrite here_at. fold k. cbn [text_op]. unfold end_of_word, at_. cbn [snd]. by rewrite drop_ge by lia. }
  destruct Hn as [Hq Oq]. pose proof (valid_offset _ _ Hq) as Ho. fold (content t) in Ho.
  destruct (walk_next t (is_space t) (λ c, bool_decide (c = Space))) with (fuel := S (places t)) (q := q) as (q1 & E1 & V1 & O1); [apply space_at|done|done|apply walk_room|].
  rewrite E1, bind_done in E. cbv beta iota in E. rewrite (class_at t q1 V1) in E.
  destruct (extend_next t (λ p, in_run (class t p) (cls (content t) (offset (lines t) q1)) false) (λ d, in_run d (cls (content t) (offset (lines t) q1)) false))
    with (fuel := S (places t)) (q := q1) as (q2 & E2 & V2 & O2); [intros x Hx; by rewrite class_at|done|done|apply walk_room|].
  rewrite E2, bind_done, set_cursor_valid in E by done. eapply (moves _ t q2); [done|done|exact E|done|].
  rewrite here_at. fold k. cbn [text_op]. rewrite end_of_word_at by lia. rewrite Oq in O1. fold spaceb in O1. rewrite O2, O1. done.
Qed.

Lemma start_of_word_at k text : S k ≤ length text → let n := run spaceb (back (take (S k) text)) in
  start_of_word (at_ (S k) text) = if bool_decide (n = S k) then at_ 0 text else at_ (k - n - same_run (cls text (k - n)) (back (take (k - n) text))) text.
Proof.
  intros Hk n. unfold start_of_word. change ((at_ (S k) text).1) with (take (S k) text). fold n.
  assert (n ≤ S k) as Hn. { subst n. assert (∀ s, run spaceb s ≤ length s) as Hr by (intros s; induction s as [|x s IH]; cbn; [lia|]; destruct (spaceb x); lia).
    specialize (Hr (back (take (S k) text))). rewrite length_reverse, length_take_le in Hr by lia. lia. }
  rewrite drop_reverse, length_take_le, take_take by lia. replace ((S k - n) `min` S k) with (S k - n) by lia. case_bool_decide as Hd.
  - rewrite Hd, Nat.sub_diag. cbn [take reverse]. rewrite retreat_at by done. by rewrite Nat.sub_diag.
  - replace (S k - n) with (S (k - n)) by lia. destruct (lookup_lt_is_Some_2 text (k - n)) as [c Ec]; [lia|]. rewrite (take_S_r _ _ _ Ec), reverse_snoc, retreat_at by done.
    unfold cls. rewrite Ec. f_equal. lia.
Qed.
Lemma back_does t : wf t → does WordBack t.
Proof.
  intros W. pose proof (wf_cursor t W) as Hv. set (k := offset (lines t) (cursor t)). pose proof (prev_spec t _ Hv) as Hn. fold k in Hn.
  pose proof (valid_offset _ _ Hv) as Ho. fold (content t) k in Ho.
  assert (run_op WordBack t = scan_word (prev_pos t) t) as E by done. unfold scan_word in E. destruct (prev_pos t (cursor t)) as [q|].
  2: { eapply stays; [done|exact E|done|]. rewrite here_at. fold k. by rewrite Hn. }
  destruct Hn as [Hq Oq]. set (j := offset (lines t) q) in *.
  destruct (walk_prev t (is_space t) (λ c, bool_decide (c = Space))) with (fuel := S (places t)) (q := q) as (q1 & E1 & V1 & O1);
    [apply space_at|done|fold j; lia|fold j; unfold places; lia|]. fold spaceb j in O1, E1.
  rewrite E1, bind_done in E. cbv beta iota in E. pose proof (start_of_word_at j (content t) ltac:(lia)) as Es. cbv zeta in Es. fold spaceb in Es.
  set (n := run spaceb (back (take (S j) (content t)))) in *. destruct (bool_decide (n = S j)) eqn:Eb.
  - apply bool_decide_eq_true in Eb. rewrite set_cursor_valid in E by done. eapply (moves _ t q1); [done|done|exact E|done|]. rewrite here_at. fold k. cbn [text_op].
    rewrite Oq, Es. f_equal. lia.
  - apply bool_decide_eq_false in Eb. rewrite (class_at t q1 V1) in E.
    destruct (extend_prev t (λ p, in_run (class t p) (cls (content t) (offset (lines t) q1)) false) (λ d, in_run d (cls (content t) (offset (lines t) q1)) false))
      with (fuel := S (places t)) (q := q1) as (q2 & E2 & V2 & O2); [intros x Hx; by rewrite class_at|done|unfold places; lia|].
    rewrite E2, bind_done, set_cursor_valid in E by done. eapply (moves _ t q2); [done|done|exact E|done|].
    rewrite here_at. fold k. cbn [text_op]. rewrite Oq, Es, O2, O1. done.
Qed.

(** ** Edits *)

Lemma bumped t : (rev t + 1 ≤ u_max 64)%Z → bump t = Done (mkText (lines t) (row t) (col t) (undo t) (rev t + 1)).
Proof. intros Hr. unfold bump. by rewrite uadd_ok. Qed.
(** An edit that leaves the cursor at a cut of the new lines. *)
Lemma edited o t t' above l1 l2 below : wf t → spec_op o (doc t) = mkDoc (text_op o (here (doc t))) (history (doc t)) →
  cut (lines t') (cursor t') above l1 l2 below → Forall plain above ∧ plain l1 ∧ plain l2 ∧ Forall plain below → undo t' = undo t →
  (rev t < rev t' ≤ rev t + cost o)%Z → text_op o (here (doc t)) = (lead above ++ l1, l2 ++ trail below) → steps o t t'.
Proof.
  intros [W1 W2 W3] Es C (P1 & P2 & P3 & P4) Eu Hr Et. split; [split|split; [|split; [lia|lia]]].
  - rewrite (cut_lines _ _ _ _ _ _ C). apply Forall_app; split; [done|]. constructor; [by apply Forall_app|done].
  - apply valid_cut. by eexists _, _, _, _.
  - by rewrite Eu.
  - rewrite Es, Et. unfold doc. by rewrite (cut_halves C), Eu.
Qed.
(** What is known at the cursor. *)
Lemma at_cursor t : wf t → ∃ above l1 l2 below, lines t = above ++ (l1 ++ l2) :: below ∧ row t = length above ∧ col t = length l1 ∧
  (Forall plain above ∧ plain l1 ∧ plain l2 ∧ Forall plain below) ∧ here (doc t) = (lead above ++ l1, l2 ++ trail below).
Proof.
  intros W. pose proof (wf_cursor t W) as (above & l1 & l2 & below & C)%valid_cut. exists above, l1, l2, below. pose proof (cut_halves C) as Hh. destruct C as [El Ep].
  pose proof (wf_plain t W) as Hp. rewrite El in Hp. apply Forall_app in Hp as [? [[? ?]%Forall_app ?]%Forall_cons]. injection Ep as Er Ec. done.
Qed.

Lemma newline_does t : wf t → (rev t + 1 ≤ u_max 64)%Z → does InsertNewline t.
Proof.
  intros W Hr. destruct (at_cursor t W) as (above & l1 & l2 & below & El & Er & Ec & (P1 & P2 & P3 & P4) & Eh).
  eexists. split; [cbn [run_op]; unfold insert_newline; rewrite bumped, bind_done by done; cbn [lines row col]; rewrite El, Er, Ec, list_lookup_middle by done; cbn [unwrap];
    rewrite bind_done, split_off_mid, bind_done; cbv beta iota; unfold vec_insert; rewrite insert_app_r_alt, Nat.sub_diag by lia; cbn [list_insert insert];
    rewrite (proj2 (Nat.leb_le _ _)) by (rewrite length_app; cbn; lia); rewrite bind_done; reflexivity|].
  eapply (edited _ t _ (above ++ [l1]) [] l2 below); [done|done| |split_and!; [apply Forall_app; by repeat constructor|done..]|done|cbn; lia|].
  - split; cbn [lines set_pos set_lines cursor row col fst snd length]; [|rewrite length_app; done].
    replace (above ++ l1 :: below) with ((above ++ [l1]) ++ below) by by rewrite <-app_assoc.
    by rewrite take_app_length', drop_app_length' by (rewrite length_app; cbn; lia).
  - rewrite Eh. cbn [text_op fst snd]. rewrite lead_app. cbn. by rewrite !app_nil_r, <-!app_assoc.
Qed.
Lemma edit_at f t above l below : lines t = above ++ l :: below → row t = length above →
  edit_line f t = (l' ← f l; Done (set_lines (above ++ l' :: below) t)).
Proof.
  intros El Er. unfold edit_line. rewrite El, Er, list_lookup_middle by done. cbn [unwrap]. rewrite bind_done. destruct (f l) as [l'| |]; [|done..].
  by rewrite !bind_done, insert_app_r_alt, Nat.sub_diag by lia.
Qed.
Notation bumped_at t := (mkText (lines t) (row t) (col t) (undo t) (rev t + 1)).
Lemma insert_does c t : wf t → (rev t + 2 ≤ u_max 64)%Z → does (InsertChar c) t.
Proof.
  intros W Hr. unfold does. cbn [run_op]. unfold insert_char. rewrite bumped, bind_done by lia. destruct (Z.eqb_spec c NL) as [->|Hc].
  { assert (wf (bumped_at t)) as W1 by (destruct W; by split). destruct (newline_does _ W1) as (t' & E & W' & D' & R' & _); [cbn; lia|].
    exists t'. split; [exact E|]. split; [done|]. split; [done|]. cbn in R' |- *. lia. }
  destruct (at_cursor t W) as (above & l1 & l2 & below & El & Er & Ec & (P1 & P2 & P3 & P4) & Eh).
  rewrite (edit_at _ _ above (l1 ++ l2) below) by done. cbn [col]. rewrite Ec, str_insert_mid, !bind_done. eexists. split; [reflexivity|].
  eapply (edited _ t _ above (l1 ++ [c]) l2 below); [done|done| | |done|cbn; lia|].
  - split; cbn; [by rewrite <-app_assoc|]. rewrite Er, length_app. done.
  - split_and!; try done. apply Forall_app. by repeat constructor.
  - rewrite Eh. cbn. by rewrite app_assoc.
Qed.
Lemma insert_run s : ∀ t, wf t → (rev t + 2 * zlen s ≤ u_max 64)%Z → ∃ t', foldM (λ t ch, insert_char ch t) t s = Done t' ∧ wf t' ∧
  doc t' = mkDoc ((here (doc t)).1 ++ s, (here (doc t)).2) (history (doc t)) ∧ (rev t ≤ rev t' ≤ rev t + 2 * zlen s)%Z.
Proof.
  induction s as [|c s IH]; intros t W Hr; cbn [foldM].
  { exists t. split; [done|]. split; [done|]. split; [|cbn; lia]. rewrite app_nil_r. by destruct (doc t) as [[? ?] ?]. }
  cbn [length] in *. destruct (insert_does c t W) as (t1 & E1 & W1 & D1 & R1 & _); [lia|]. cbn [run_op] in E1. rewrite E1, bind_done. cbn [cost] in R1.
  destruct (IH t1 W1) as (t' & -> & W' & D' & R'); [lia|]. exists t'. split; [done|]. split; [done|]. split; [|lia]. rewrite D', D1. cbn. by rewrite <-app_assoc.
Qed.
Lemma insert_str_does s t : wf t → (rev t + (1 + 2 * zlen s) ≤ u_max 64)%Z → does (InsertStr s) t.
Proof.
  intros W Hr. unfold does. cbn [run_op]. unfold insert_str. rewrite bumped, bind_done by lia. assert (wf (bumped_at t)) as W1 by (destruct W; by split).
  destruct (insert_run s _ W1) as (t' & E & W' & D' & R'); [cbn; lia|]. exists t'. split; [exact E|]. split; [done|]. split; [done|]. cbn in R' |- *. lia.
Qed.
Lemma delete_mid {A} (above : list A) l below : delete (length above) (above ++ l :: below) = above ++ below.
Proof. rewrite delete_take_drop, take_app_length. f_equal. rewrite cons_middle, app_assoc, drop_app_length' by (rewrite length_app; cbn; lia). done. Qed.
Lemma take_less (s : list Z) c : take (length (s ++ [c]) - 1) (s ++ [c]) = s.
Proof. rewrite length_app. cbn. replace (length s + 1 - 1) with (length s) by lia. apply take_app_length. Qed.
Lemma backspace_does t : wf t → (rev t + 1 ≤ u_max 64)%Z → does Backspace t.
Proof.
  intros W Hr. unfold does. cbn [run_op]. unfold backspace. rewrite bumped, bind_done by lia. cbn [col row lines].
  destruct (at_cursor t W) as (above & l1 & l2 & below & El & Er & Ec & (P1 & P2 & P3 & P4) & Eh). destruct l1 as [|c l1 _] using rev_ind.
  - rewrite Ec. cbn [length]. rewrite (proj2 (Nat.ltb_ge _ _)) by lia. destruct above as [|a above _] using rev_ind.
    + rewrite Er. cbn [length]. rewrite (proj2 (Nat.ltb_ge _ _)) by lia. eexists. split; [done|].
      eapply (edited _ t _ [] [] l2 below); [done|done| |done|done|cbn; lia|by rewrite Eh]. split; [done|unfold cursor; cbn; congruence].
    + rewrite Er, length_app. cbn [length]. rewrite (proj2 (Nat.ltb_lt _ _)) by lia. rewrite El, list_lookup_middle by (rewrite length_app; done). cbn [unwrap app].
      rewrite bind_done. unfold vec_remove. rewrite (proj2 (Nat.ltb_lt _ _)) by (rewrite !length_app; cbn; lia). rewrite bind_done.
      replace (length above + 1) with (length (above ++ [a])) by (rewrite length_app; done). rewrite delete_mid. apply Forall_app in P1 as [P1 [Pa _]%Forall_cons].
      cbn [set_lines lines row]. erewrite edit_at with (above := above) (l := a) (below := below); [|by cbn; rewrite <-app_assoc|cbn; rewrite length_app; cbn; lia].
      rewrite bind_done. eexists. split; [reflexivity|]. eapply (edited _ t _ above a l2 below); [done|done| |done|done|cbn; lia|].
      * split; [done|]. unfold cursor. cbn. rewrite length_app. cbn. replace (length above + 1 - 1) with (length above) by lia. f_equal. unfold char_len. cbn.
        rewrite <-app_assoc. cbn [app]. by rewrite list_lookup_middle.
      * rewrite Eh. cbn [text_op fst snd]. rewrite app_nil_r, lead_app. change (lead [a]) with ((a ++ [NL]) ++ []). rewrite app_nil_r, app_assoc, take_less. done.
  - rewrite Ec, length_app. cbn [length]. rewrite (proj2 (Nat.ltb_lt _ _)) by lia. apply Forall_app in P2 as [P2 _]. rewrite <-app_assoc in El. rewrite (edit_at _ _ above (l1 ++ [c] ++ l2) below) by done.
    cbn [col]. replace (length l1 + 1 - 1) with (length l1) by lia. cbn [app]. rewrite str_remove_mid, !bind_done. eexists. split; [reflexivity|].
    eapply (edited _ t _ above l1 l2 below); [done|done| |done|done|cbn; lia|].
    + split; [done|]. unfold cursor. cbn [set_pos set_lines row col fst snd]. rewrite Er. f_equal. rewrite ?Ec, ?length_app. cbn [length]. lia.
    + rewrite Eh. cbn [text_op fst snd]. by rewrite app_assoc, take_less.
Qed.
Lemma delete_char_does t : wf t → (rev t + 1 ≤ u_max 64)%Z → does DeleteChar t.
Proof.
  intros W Hr. unfold does. cbn [run_op]. unfold delete_char. rewrite bumped, bind_done by lia. cbn [col row lines].
  destruct (at_cursor t W) as (above & l1 & l2 & below & El & Er & Ec & (P1 & P2 & P3 & P4) & Eh).
  assert (char_len (row t) (bumped_at t) = length (l1 ++ l2)) as -> by (unfold char_len; cbn; by rewrite El, Er, list_lookup_middle).
  rewrite Ec, length_app. destruct l2 as [|c l2].
  - cbn [length]. rewrite (proj2 (Nat.ltb_ge _ _)) by lia. unfold line_count. cbn [lines]. rewrite Er, El, length_app. destruct below as [|l below]; cbn [length].
    + rewrite (proj2 (Nat.ltb_ge _ _)) by lia. eexists. split; [done|]. eapply (edited _ t _ above l1 [] []); [done|done| |done|done|cbn; lia|by rewrite Eh].
      split; [done|]. unfold cursor. cbn. congruence.
    + rewrite (proj2 (Nat.ltb_lt _ _)) by lia. rewrite (cons_middle (l1 ++ [])), app_assoc.
      rewrite list_lookup_middle by (rewrite length_app; cbn; lia). cbn [unwrap]. rewrite bind_done. unfold vec_remove. rewrite (proj2 (Nat.ltb_lt _ _)) by (rewrite !length_app; cbn; lia).
      rewrite bind_done. replace (length above + 1) with (length (above ++ [l1 ++ []])) by (rewrite length_app; done). rewrite delete_mid.
      erewrite edit_at with (above := above) (l := l1 ++ []) (below := below); [|by cbn; rewrite <-app_assoc|done]. rewrite bind_done.
      eexists. split; [reflexivity|]. apply Forall_cons in P4 as [Pl P4]. eapply (edited _ t _ above l1 l below); [done|done| |done|done|cbn; lia|by rewrite Eh].
      split; [by cbn; rewrite app_nil_r|]. unfold cursor. cbn. congruence.
  - cbn [length]. rewrite (proj2 (Nat.ltb_lt _ _)) by lia. apply Forall_cons in P3 as [_ P3]. rewrite (edit_at _ _ above (l1 ++ c :: l2) below) by done. cbn [col]. rewrite str_remove_mid, bind_done.
    eexists. split; [reflexivity|]. eapply (edited _ t _ above l1 l2 below); [done|done| |done|done|cbn; lia|by rewrite Eh]. split; [done|]. unfold cursor. cbn. congruence.
Qed.
(** An edit that leaves other lines, the cursor put on them. *)
Lemma relined o t t' : wf t → Forall plain (lines t') → valid (lines t') (cursor t') → undo t' = undo t → (rev t < rev t' ≤ rev t + cost o)%Z →
  spec_op o (doc t) = mkDoc (text_op o (here (doc t))) (history (doc t)) → text_op o (here (doc t)) = halves (lines t') (cursor t') → steps o t t'.
Proof.
  intros [W1 W2 W3] P V Eu Hr Es Et. split; [split; [done|done|by rewrite Eu]|]. split; [rewrite Es, Et; unfold doc; by rewrite Eu|]. split; lia.
Qed.
Lemma delete_line_does t : wf t → (rev t + 1 ≤ u_max 64)%Z → does DeleteLine t.
Proof.
  intros W Hr. unfold does. cbn [run_op]. unfold delete_line. rewrite bumped, bind_done by lia. unfold line_count. cbn [lines row col].
  destruct (doc_pos t W) as [Er Ec]. pose proof (doc_lines t W) as El. destruct (wf_row t W) as [Hrow _]. unfold line_count in Hrow.
  destruct (Nat.eqb_spec (length (lines t)) 1) as [H1|H1].
  - eexists. split; [reflexivity|]. destruct (lines t) as [|l [|]] eqn:E; try done. assert (row t = 0) as E0 by (cbn in Hrow; lia).
    apply (edited _ t _ [] [] [] []); [done|done|split; [done|by cbn; rewrite E0]|done|done|cbn; lia|]. cbn [text_op]. unfold without_line. by rewrite El.
  - unfold vec_remove. rewrite (proj2 (Nat.ltb_lt _ _)) by lia. rewrite bind_done. cbn [set_lines lines row col]. set (ls := delete (row t) (lines t)).
    assert (length ls = length (lines t) - 1) as Hl by (apply length_delete, lookup_lt_is_Some_2; lia).
    eexists. split; [reflexivity|]. assert ((if length ls <=? row t then length ls - 1 else row t) = row t `min` (length ls - 1)) as -> by (destruct (Nat.leb_spec (length ls) (row t)); lia).
    assert (ls ≠ []) as Hne by (intros E; rewrite E in Hl; cbn in Hl; lia).
    rewrite len_at. cbn [lines]. change (row t `min` (length ls - 1), _) with (clamp ls (row t) (col t)).
    apply relined; [done|by apply Forall_delete, (wf_plain t W)|by apply clamp_valid|done|cbn; lia|done|]. cbn [text_op]. unfold without_line. rewrite El, Er, Ec.
    by rewrite (proj2 (Nat.eqb_neq _ _) H1).
Qed.

Lemma offset_mono ls lo hi : valid ls lo → pos_leb lo hi = true → offset ls lo ≤ offset ls hi.
Proof.
  intros (l & Hl & Hc) Hle. unfold pos_leb in Hle. unfold offset. apply orb_true_iff in Hle as [Hlt%Nat.ltb_lt|[Heq%Nat.eqb_eq Hle%Nat.leb_le]%andb_true_iff]; [|rewrite Heq; lia].
  assert (length (lead (take (S lo.1) ls)) ≤ length (lead (take hi.1 ls))) as Hm.
  { replace (take (S lo.1) ls) with (take (S lo.1) (take hi.1 ls)) by (rewrite take_take; f_equal; lia). rewrite <-(take_drop (S lo.1) (take hi.1 ls)) at 2. rewrite lead_app, length_app. lia. }
  rewrite (take_S_r _ _ _ Hl), lead_snoc_len in Hm. lia.
Qed.
Lemma order_spec a b : ∃ lo hi, order a b = (lo, hi) ∧ pos_leb lo hi = true ∧ ((lo = a ∧ hi = b) ∨ (lo = b ∧ hi = a)).
Proof.
  unfold order. destruct (pos_leb a b) eqn:E; [exists a, b; auto|]. exists b, a. split; [done|]. split; [|auto]. unfold pos_leb in *.
  apply orb_false_iff in E as [E1%Nat.ltb_ge E2]. apply orb_true_iff. destruct (Nat.eq_dec a.1 b.1) as [Eq|Hne]; [right|left; apply Nat.ltb_lt; lia].
  rewrite Eq, Nat.eqb_refl in *. cbn in *. apply Nat.leb_gt in E2. apply Nat.leb_le. lia.
Qed.
(** The range of two positions: its ends, and the cuts there. *)
Lemma range_cuts t a b : wf t → valid (lines t) a → valid (lines t) b → ∃ lo hi l l' i j, order a b = (lo, hi) ∧ lines t !! lo.1 = Some l ∧ lines t !! hi.1 = Some l' ∧
  lo.2 ≤ length l ∧ hi.2 ≤ length l' ∧ lo.1 ≤ hi.1 ∧ (lo.1 = hi.1 → lo.2 ≤ hi.2) ∧ range_of a b (content t) = (i, j) ∧ i ≤ j ≤ length (content t) ∧
  take i (content t) = lead (take lo.1 (lines t)) ++ take lo.2 l ∧ drop j (content t) = drop (hi.2 + 1) l' ++ trail (drop (S hi.1) (lines t)).
Proof.
  intros W Va Vb. destruct (order_spec a b) as (lo & hi & Eo & Hle & Hab). assert (valid (lines t) lo ∧ valid (lines t) hi) as [Vl Vh] by (destruct Hab as [[-> ->]|[-> ->]]; done).
  pose proof (offset_mono _ _ _ Vl Hle) as Hm. pose proof (valid_offset _ _ Vh) as Hoh. fold (content t) in Hoh. pose proof Vl as (l & Hl & Hc). pose proof Vh as (l' & Hl' & Hc').
  assert (cut (lines t) lo (take lo.1 (lines t)) (take lo.2 l) (drop lo.2 l) (drop (S lo.1) (lines t))) as Cl.
  { pose proof (lookup_lt_Some _ _ _ Hl). split; [rewrite take_drop; by apply take_drop_middle in Hl|]. rewrite !length_take_le by lia. by destruct lo. }
  assert (cut (lines t) hi (take hi.1 (lines t)) (take hi.2 l') (drop hi.2 l') (drop (S hi.1) (lines t))) as Ch.
  { pose proof (lookup_lt_Some _ _ _ Hl'). split; [rewrite take_drop; by apply take_drop_middle in Hl'|]. rewrite !length_take_le by lia. by destruct hi. }
  exists lo, hi, l, l', (offset (lines t) lo), (offset (lines t) hi + 1 `min` (length l' - hi.2)). split; [done|]. split; [done|]. split; [done|]. split; [done|]. split; [done|].
  unfold pos_leb in Hle. split; [|split]; [apply orb_true_iff in Hle as [Hlt%Nat.ltb_lt|[?%Nat.eqb_eq _]%andb_true_iff]; lia| |].
  { intros Heq. rewrite Heq, Nat.ltb_irrefl, Nat.eqb_refl in Hle. by apply Nat.leb_le. }
  split; [|split; [|split]].
  - unfold range_of, content. rewrite split_join by (apply wf_some || apply W; done). rewrite Eo, Hl'. done.
  - assert (length (content t) = offset (lines t) hi + (length l' - hi.2) + length (trail (drop (S hi.1) (lines t)))) as Hlen; [|lia].
    unfold content. rewrite (cut_join Ch), (cut_offset Ch), (length_app (_ ++ _)), (length_app (drop _ _)), length_drop. lia.
  - apply (cut_take Cl).
  - rewrite <-drop_drop. unfold content. rewrite (cut_drop Ch). replace (1 `min` (length l' - hi.2)) with (1 `min` length (drop hi.2 l')) by (rewrite length_drop; done).
    rewrite <-(drop_drop l' 1 hi.2). by destruct (drop hi.2 l').
Qed.
Lemma delete_range_does a b t : wf t → valid (lines t) a → valid (lines t) b → (rev t + 1 ≤ u_max 64)%Z → does (DeleteRange a b) t.
Proof.
  intros W Va Vb Hr. destruct (range_cuts t a b W Va Vb) as (lo & hi & l & l' & i & j & Eo & Hl & Hl' & Hc & Hc' & Hrow & _ & Er & Hij & Ti & Dj).
  unfold does. cbn [run_op]. unfold delete_range. rewrite bumped, bind_done by lia. rewrite Eo. unfold line. cbn [lines]. rewrite Hl, Hl'. cbn [default from_option id].
  rewrite !char_slice_eq, !bind_done. assert (char_len hi.1 (bumped_at t) = length l') as -> by (unfold char_len; cbn; by rewrite Hl'). rewrite drop_0, Nat.sub_0_r.
  rewrite (take_ge (drop _ l')) by (rewrite length_drop; lia). pose proof (lookup_lt_Some _ _ _ Hl') as Hlt. unfold splice_one.
  rewrite !(proj2 (Nat.leb_le _ _)) by lia. cbn [andb]. rewrite bind_done. eexists. split; [reflexivity|].
  set (ls := take lo.1 (lines t) ++ (take lo.2 l ++ drop (hi.2 + 1) l') :: drop (hi.1 + 1) (lines t)).
  assert (length (take lo.1 (lines t)) = lo.1) as Hlo by (apply length_take_le; lia). assert (length (take lo.2 l) = lo.2) as Hlo2 by (by apply length_take_le).
  pose proof (wf_plain t W) as P. apply (edited _ t _ (take lo.1 (lines t)) (take lo.2 l) (drop (hi.2 + 1) l') (drop (hi.1 + 1) (lines t))); [done|done| | |done|cbn; lia|].
  - split; [done|]. unfold cursor. cbn [set_pos set_lines row col fst snd]. unfold char_len. cbn [set_lines lines]. unfold ls. rewrite list_lookup_middle by done.
    rewrite length_app, Hlo, Hlo2. f_equal. lia.
  - rewrite Forall_forall in P. split_and!; [apply Forall_take, Forall_forall; done|apply Forall_take|apply Forall_drop|apply Forall_drop, Forall_forall; done]; apply P; by eapply list_elem_of_lookup_2.
  - cbn [text_op]. unfold without_range. rewrite here_at. unfold at_. cbn [fst snd]. rewrite take_drop, Er, Nat.max_r by lia. rewrite Ti, Dj. by replace (hi.1 + 1) with (S hi.1) by lia.
Qed.
(** ** History *)

Lemma push_doc t : snap_doc <$> undo (checkpoint t) = push (here (doc t)) (history (doc t)).
Proof.
  unfold checkpoint, push, doc. cbn [undo set_undo history here]. rewrite fmap_app, length_fmap. f_equal. by destruct (length (undo t) =? UNDO_CAP); rewrite ?fmap_drop.
Qed.
Lemma checkpoint_wf t : wf t → wf (checkpoint t).
Proof.
  intros [W1 W2 [W3 W4]]. split; [done|done|]. unfold checkpoint. cbn [undo set_undo]. split.
  - rewrite length_app. cbn. destruct (Nat.eqb_spec (length (undo t)) UNDO_CAP); [rewrite length_drop|]; unfold UNDO_CAP in *; lia.
  - apply Forall_app; split; [destruct (_ =? _); [by apply Forall_drop|done]|]. by repeat constructor.
Qed.
Lemma checkpoint_does t : wf t → does Checkpoint t.
Proof.
  intros W. eexists. split; [reflexivity|]. split; [by apply checkpoint_wf|]. split; [|split; [cbn; lia|done]]. unfold doc at 1. cbn [spec_op]. by rewrite push_doc.
Qed.
Lemma undo_does t : wf t → (rev t + 1 ≤ u_max 64)%Z → does Undo t.
Proof.
  intros [W1 W2 [W3 W4]] Hr. unfold does. cbn [run_op]. unfold undo_. destruct (last (undo t)) as [s|] eqn:El.
  - assert (snap_ok s) as [S1 S2]. { apply last_Some in El as [h El]. rewrite El in W4. apply Forall_app in W4 as [_ W4]. by apply Forall_cons in W4 as [? _]. }
    pose proof (set_cursor_valid (set_lines (s_lines s) (set_undo (take (length (undo t) - 1) (undo t)) t)) (s_row s, s_col s) S2) as Es. cbn [fst snd] in Es. rewrite Es.
    rewrite bumped by done. rewrite !bind_done. cbv beta iota. eexists. split; [reflexivity|]. cbn [lines row col undo rev set_pos set_lines set_undo fst snd]. split; [split; [done|done|]|].
    + cbn. rewrite length_take. split; [lia|by apply Forall_take].
    + split; [|split; cbn; lia]. cbn [spec_op]. unfold doc at 2. cbn [history]. rewrite fmap_last, El. cbn [fmap option_fmap option_map]. unfold doc. cbn. by rewrite length_fmap, <-fmap_take.
  - rewrite bind_done. eexists. split; [reflexivity|]. split; [done|]. split; [|split; [cbn; lia|done]]. cbn [spec_op]. unfold doc at 2. cbn [history]. by rewrite fmap_last, El.
Qed.
Lemma replace_does s t : wf t → (rev t + 1 ≤ u_max 64)%Z → does (ReplaceContent s) t.
Proof.
  intros W Hr. unfold does. cbn [run_op]. unfold replace_content. rewrite bumped, bind_done by lia. destruct (doc_pos t W) as [Er Ec]. destruct (split_nl_ok s) as (Hne & Hp & Hj).
  assert (lines_of s = split_nl s) as Els by (unfold lines_of; by destruct (split_nl s)). rewrite Els, set_cursor_clamp. eexists. split; [reflexivity|].
  assert (wf (checkpoint (bumped_at t))) as [_ _ Wu] by (apply checkpoint_wf; by destruct W). pose proof (push_doc (bumped_at t)) as Hpush.
  split; [split; [done|by apply (clamp_valid (split_nl s) (row t) (col t))|done]|]. split; [|cbn; lia]. unfold doc at 1. cbn [spec_op lines set_lines set_pos undo]. f_equal; [|exact Hpush].
  cbn [text_op]. unfold place. rewrite app_nil_r, Er, Ec. done.
Qed.

(** Every operation is its specification's. *)
Lemma op_does o t : wf t → allowed o t → (rev t + cost o ≤ u_max 64)%Z → does o t.
Proof.
  intros W Ha Hr. destruct o; cbn [cost allowed] in *.
  - by apply insert_does.
  - by apply newline_does.
  - by apply insert_str_does.
  - apply backspace_does; [done|lia].
  - apply delete_char_does; [done|lia].
  - apply delete_line_does; [done|lia].
  - destruct Ha. apply delete_range_does; [done..|lia].
  - apply replace_does; [done|lia].
  - by apply checkpoint_does.
  - apply undo_does; [done|lia].
  - by apply set_cursor_does.
  - by apply left_does.
  - by apply right_does.
  - by apply up_does.
  - by apply down_does.
  - by apply home_does.
  - by apply end_does.
  - by apply top_does.
  - by apply bottom_does.
  - by apply word_forward_does.
  - by apply end_does_word.
  - by apply back_does.
Qed.
Lemma new_wf s : wf (new s) ∧ doc (new s) = mkDoc ([], s) [].
Proof.
  destruct (split_nl_ok s) as (Hne & Hp & Hj). assert (lines (new s) = split_nl s) as El by (cbn; unfold lines_of; by destruct (split_nl s)).
  split; [split|].
  - by rewrite El.
  - rewrite El. destruct (split_nl s) as [|l ls]; [done|]. exists l. cbn. split; [done|lia].
  - split; [cbn; lia|constructor].
  - unfold doc. rewrite El. unfold halves, offset. cbn. by rewrite Hj.
Qed.
End Ops.
End NoraOps.

Import NoraOps.

Module NoraFind.

(** ** The text of a range *)

Lemma lead_map t k : ∀ r, r + k ≤ length (lines t) → concat ((λ r, line r t ++ [NL]) <$> seq r k) = lead (take k (drop r (lines t))).
Proof.
  induction k as [|k IH]; intros r Hr; [done|]. destruct (lookup_lt_is_Some_2 (lines t) r) as [l Hl]; [lia|].
  cbn [seq fmap list_fmap concat]. rewrite IH by lia. rewrite (drop_S _ _ _ Hl). cbn [take]. unfold line. rewrite Hl. done.
Qed.
(** [range_text] is the segment of the content that [delete_range] takes out. *)
Lemma range_text_ok t a b : wf t → valid (lines t) a → valid (lines t) b → ∃ i j, range_of a b (content t) = (i, j) ∧ i ≤ j ≤ length (content t) ∧
  range_text a b t = Done (segment i j (content t)).
Proof.
  intros W Va Vb. destruct (range_cuts t a b W Va Vb) as (lo & hi & l & l' & i & j & Eo & Hl & Hl' & Hc & Hc' & Hrow & Hsame & Er & Hij & Ti & Dj).
  exists i, j. split; [done|]. split; [done|].
  assert (∀ mid, content t = take i (content t) ++ mid ++ drop j (content t) → segment i j (content t) = mid) as Hseg.
  { intros mid E. unfold segment. assert (length (take i (content t)) = i) as Hi by (rewrite length_take; lia).
    assert (length mid = j - i) as Hm. { apply (f_equal length) in E. rewrite !length_app, length_take, length_drop in E. lia. }
    rewrite E. rewrite <-Hi at 2. rewrite drop_app_length, <-Hm, take_app_length. done. }
  assert (cut (lines t) hi (take hi.1 (lines t)) (take hi.2 l') (drop hi.2 l') (drop (S hi.1) (lines t))) as Ch.
  { pose proof (lookup_lt_Some _ _ _ Hl'). split; [rewrite take_drop; by apply take_drop_middle in Hl'|]. rewrite !length_take_le by lia. by destruct hi. }
  pose proof (lookup_lt_Some _ _ _ Hl') as Hlt. unfold range_text. rewrite Eo. unfold line. rewrite Hl, Hl'. cbn [default from_option id].
  destruct (Nat.eqb_spec lo.1 hi.1) as [Eq|Hne].
  - rewrite char_slice_eq. f_equal. symmetry. apply Hseg. rewrite Ti, Dj, Eq. rewrite Eq in Hl. rewrite Hl in Hl'. injection Hl' as <-. specialize (Hsame Eq).
    unfold content at 1. rewrite (cut_join Ch), <-!app_assoc. f_equal. rewrite !app_assoc, take_drop. f_equal.
    replace (drop (hi.2 + 1) l) with (drop (hi.2 + 1 - lo.2) (drop lo.2 l)) by (rewrite drop_drop; f_equal; lia). by rewrite <-!app_assoc, !take_drop.
  - cbv zeta. rewrite !char_slice_eq, !bind_done. f_equal. symmetry. apply Hseg. rewrite Ti, Dj.
    change (λ r, default [] (lines t !! r) ++ [NL]) with (λ r, line r t ++ [NL]). rewrite lead_map by lia.
    assert (char_len lo.1 t = length l) as -> by (unfold char_len; by rewrite Hl). rewrite (take_ge (drop lo.2 l)) by (rewrite length_drop; lia). rewrite drop_0, Nat.sub_0_r.
    unfold content at 1. rewrite (cut_join Ch). rewrite <-!app_assoc. rewrite (app_assoc (take hi.2 l')), take_drop.
    assert (take hi.1 (lines t) = take lo.1 (lines t) ++ l :: take (hi.1 - (lo.1 + 1)) (drop (lo.1 + 1) (lines t))) as ->.
    { rewrite <-(take_drop_middle _ _ _ Hl) at 1. rewrite take_app_ge by (rewrite length_take; lia). rewrite length_take_le by lia. f_equal.
      replace (hi.1 - lo.1) with (S (hi.1 - (lo.1 + 1))) by lia. cbn [take]. by replace (S lo.1) with (lo.1 + 1) by lia. }
    rewrite lead_app, <-!app_assoc. f_equal. change (lead (l :: ?x)) with ((l ++ [NL]) ++ lead x). rewrite <-!app_assoc.
    rewrite (app_assoc (take lo.2 l)), take_drop. f_equal. f_equal. f_equal. by rewrite app_assoc, take_drop.
Qed.

(** ** Search *)

(** [pat] stands at a position. *)
Definition hit (pat : list Z) (t : TextBuffer) (p : Pos) : Prop := ∃ l, lines t !! p.1 = Some l ∧ starts_with pat (drop p.2 l) = true.
(** How far a position is from the cursor, going down and around: the rest of the
    cursor's line, the lines below, those above, and the cursor's line again. *)
Definition rank (t : TextBuffer) (p : Pos) : Pos :=
  (if p.1 =? row t then if col t <? p.2 then 0 else line_count t
   else if row t <? p.1 then p.1 - row t else p.1 + line_count t - row t, p.2).

Lemma starts_app pat s : starts_with pat s = true ↔ ∃ r, s = pat ++ r.
Proof.
  revert s. induction pat as [|p pat IH]; intros s; [split; [by exists s|done]|]. destruct s as [|c s]; cbn; [split; [done|by intros [r ?]]|].
  rewrite andb_true_iff, Z.eqb_eq, IH. split; [intros [-> [r ->]]; by exists r|intros [r E]; injection E as -> ->; eauto].
Qed.
(** [find_sub] is the first place. *)
Lemma find_sub_spec pat s : match find_sub pat s with
  | Some i => i ≤ length s ∧ starts_with pat (drop i s) = true ∧ (∀ k, k < i → starts_with pat (drop k s) = false)
  | None => ∀ k, starts_with pat (drop k s) = false
  end.
Proof.
  induction s as [|c s IH]; cbn [find_sub].
  - destruct (starts_with pat []) eqn:E; [split; [done|]; split; [done|lia]|]. intros k. by rewrite drop_nil.
  - destruct (starts_with pat (c :: s)) eqn:E; [split; [lia|]; split; [done|lia]|]. destruct (find_sub pat s) as [i|]; cbn.
    + destruct IH as (? & ? & H3). split; [lia|]. split; [done|]. intros [|k] Hk; [done|]. apply H3. lia.
    + intros [|k]; [done|apply IH].
Qed.
Lemma starts_past pat s k : pat ≠ [] → length s ≤ k → starts_with pat (drop k s) = false.
Proof. intros Hp Hk. rewrite drop_ge by done. by destruct pat. Qed.
(** A search of a line from a column: the first place at or after it. *)
Lemma find_from_at pat l n : pat ≠ [] → ∃ h, find_from pat l (byte_of l n) = Done h ∧ match h with
  | Some b => ∃ c, b = byte_of l c ∧ c < length l ∧ n ≤ c ∧ starts_with pat (drop c l) = true ∧ (∀ k, n ≤ k → starts_with pat (drop k l) = true → c ≤ k)
  | None => ∀ k, n ≤ k → starts_with pat (drop k l) = false
  end.
Proof.
  intros Hp. unfold find_from. rewrite boundary_byte_of, bind_done. eexists. split; [reflexivity|].
  pose proof (find_sub_spec pat (drop (n `min` length l) l)) as Hf. destruct (find_sub _ _) as [i|].
  - destruct Hf as (Hi & Hs & Hmin). rewrite drop_drop in Hs. set (c := n `min` length l + i) in *.
    assert (c < length l) as Hc. { destruct (Nat.lt_ge_cases c (length l)) as [?|Hge]; [done|]. by rewrite (starts_past pat l c Hp Hge) in Hs. }
    assert (n `min` length l = n) as Hn by (unfold c in Hc; lia). exists c. split; [|split_and!; [done|unfold c; lia|done|]].
    + rewrite !byte_of_eq, <-str_len_app. unfold c. rewrite Hn. f_equal. rewrite <-(take_drop n l) at 3. rewrite take_app_ge by (rewrite length_take; lia).
      rewrite length_take_le by lia. f_equal. f_equal. lia.
    + intros k Hk Hks. destruct (Nat.le_gt_cases c k) as [?|Hlt]; [done|]. rewrite Hn in *. assert (starts_with pat (drop (k - n) (drop n l)) = false) as Hf by (apply Hmin; unfold c in Hlt; lia).
      rewrite drop_drop in Hf. replace (n + (k - n)) with k in Hf by lia. congruence.
  - intros k Hk. destruct (Nat.le_gt_cases (length l) k) as [Hge|Hlt]; [by apply starts_past|]. specialize (Hf (k - n)). rewrite drop_drop in Hf. by replace (n `min` length l + (k - n)) with k in Hf by lia.
Qed.
Lemma col_of_byte l c : char_col_of l (byte_of l c) = Done (c `min` length l).
Proof.
  unfold char_col_of. assert (byte_of l c ≤ str_len l) as Hle. { rewrite byte_of_eq. rewrite <-(take_drop c l) at 2. rewrite str_len_app. lia. }
  rewrite Nat.min_l by done. apply boundary_byte_of.
Qed.
Lemma byte_of_le l n : byte_of l n ≤ str_len l.
Proof. rewrite byte_of_eq. rewrite <-(take_drop n l) at 2. rewrite str_len_app. lia. Qed.

(** The places a probe looks at: on one line, past the cursor the first time. *)
Definition cand (t : TextBuffer) (off : nat) (q : Pos) : Prop := q.1 = (row t + off) mod line_count t ∧ (off = 0 → col t < q.2).
Lemma around a b n : a < n → b ≤ n → (a + b) mod n = if a + b <? n then a + b else a + b - n.
Proof.
  intros Ha Hb. destruct (Nat.ltb_spec (a + b) n); [by apply Nat.mod_small|]. symmetry. apply (Nat.mod_unique _ _ 1); lia.
Qed.
Lemma rank_cand t q : row t < line_count t → q.1 < line_count t →
  cand t (rank t q).1 q ∧ (rank t q).1 ≤ line_count t ∧ ∀ off, off ≤ line_count t → cand t off q → (rank t q).1 ≤ off.
Proof.
  intros Hr Hq. unfold rank, cand. cbn [fst].
  destruct (Nat.eqb_spec q.1 (row t)) as [Eq|Hne]; [destruct (Nat.ltb_spec (col t) q.2) as [Hc|Hc]|destruct (Nat.ltb_spec (row t) q.1)].
  - split; [by rewrite around, Nat.add_0_r, (proj2 (Nat.ltb_lt _ _)) by lia|]. split; [lia|]. intros; lia.
  - split; [split; [rewrite around, (proj2 (Nat.ltb_ge _ _)) by lia|]; lia|]. split; [done|]. intros off Ho [E Hpos]. rewrite around in E by lia.
    destruct (Nat.ltb_spec (row t + off) (line_count t)); [|lia]. assert (off = 0) as E0 by lia. specialize (Hpos E0). lia.
  - split; [split; [rewrite around, (proj2 (Nat.ltb_lt _ _)) by lia|]; lia|]. split; [lia|]. intros off Ho [E _]. rewrite around in E by lia. destruct (Nat.ltb_spec (row t + off) (line_count t)); lia.
  - split; [split; [rewrite around, (proj2 (Nat.ltb_ge _ _)) by lia|]; lia|]. split; [lia|]. intros off Ho [E _]. rewrite around in E by lia. destruct (Nat.ltb_spec (row t + off) (line_count t)); lia.
Qed.
Definition best (pat : list Z) (t : TextBuffer) (off : nat) (h : option Pos) : Prop :=
  match h with
  | Some p => hit pat t p ∧ cand t off p ∧ ∀ q, hit pat t q → cand t off q → p.2 ≤ q.2
  | None => ∀ q, hit pat t q → ¬ cand t off q
  end.
Lemma probe_at pat t off : pat ≠ [] → wf t → off ≤ line_count t → ∃ h, probe pat t off = Done h ∧ best pat t off h.
Proof.
  intros Hp W Ho. destruct (wf_row t W) as [Hr _]. unfold probe. destruct (Nat.eqb_spec (line_count t) 0) as [?|_]; [lia|].
  set (r := (row t + off) mod line_count t). assert (r < line_count t) as Hlt by (apply Nat.mod_upper_bound; lia).
  destruct (lookup_lt_is_Some_2 (lines t) r) as [l Hl]; [done|]. rewrite Hl. cbn [unwrap]. rewrite bind_done.
  set (n := if off =? 0 then col t + 1 else 0). assert ((if off =? 0 then byte_of l (col t + 1) else 0) = byte_of l n) as ->.
  { unfold n. destruct (off =? 0); [done|]. by rewrite byte_of_eq. }
  rewrite (proj2 (Nat.leb_le _ _)) by apply byte_of_le. destruct (find_from_at pat l n Hp) as (h & E & Hh). rewrite E, bind_done.
  assert (∀ c, cand t off (r, c) ↔ n ≤ c) as Hn. { intros c. unfold cand, n. cbn [fst snd]. destruct (Nat.eqb_spec off 0); split; [intros [_ H1]; lia|split; lia|lia|split; lia]. }
  assert (∀ q, hit pat t q → cand t off q → q = (r, q.2) ∧ n ≤ q.2 ∧ starts_with pat (drop q.2 l) = true) as Hq.
  { intros q (l' & Hl' & Hs) Hc. assert (q = (r, q.2)) as Eq by (destruct Hc as [E' _]; destruct q; cbn in *; by rewrite E'). rewrite Eq in Hc. apply Hn in Hc.
    split; [done|]. split; [done|]. rewrite Eq in Hl'. cbn [fst] in Hl'. rewrite Hl in Hl'. by injection Hl' as <-. }
  destruct h as [b|].
  - destruct Hh as (c & -> & Hc & Hnc & Hs & Hmin). rewrite col_of_byte, bind_done, Nat.min_l by lia. eexists. split; [reflexivity|]. split; [by exists l|]. split; [by apply Hn|].
    intros q H1 H2. destruct (Hq q H1 H2) as (_ & ? & ?). by apply Hmin.
  - assert (best pat t off None) as Hb. { intros q H1 H2. destruct (Hq q H1 H2) as (_ & Hle & Hs). rewrite (Hh _ Hle) in Hs. done. }
    destruct (Nat.eqb_spec off (line_count t)) as [Eoff|]; [|by exists None]. assert (r = row t) as Er. { unfold r. rewrite around, (proj2 (Nat.ltb_ge _ _)) by lia. lia. }
    rewrite <-Er, Hl. cbn [unwrap]. rewrite bind_done. assert (n = 0) as En by (unfold n; destruct (Nat.eqb_spec off 0); lia).
    rewrite En, byte_of_eq in E. change (str_len (take 0 l)) with 0 in E. rewrite E, bind_done. by exists None.
Qed.
Lemma probes pat t : pat ≠ [] → wf t → ∀ m s, s + m = line_count t + 1 → (∀ q, hit pat t q → ∀ off, off < s → ¬ cand t off q) →
  ∃ h, find_mapM (probe pat t) (seq s m) = Done h ∧
    match h with
    | Some p => ∃ off, off ≤ line_count t ∧ best pat t off (Some p) ∧ ∀ q, hit pat t q → ∀ o, o < off → ¬ cand t o q
    | None => ∀ q, hit pat t q → ∀ off, off ≤ line_count t → ¬ cand t off q
    end.
Proof.
  intros Hp W. induction m as [|m IH]; intros s Hs Hno; cbn [seq find_mapM]; [exists None; split; [done|]; intros q Hq off Ho; apply Hno; [done|lia]|].
  destruct (probe_at pat t s Hp W) as (h & E & Hb); [lia|]. rewrite E, bind_done. destruct h as [p|]; [eexists; split; [reflexivity|]; exists s; split; [lia|done]|].
  apply IH; [lia|]. intros q Hq off Ho. destruct (Nat.eq_dec off s) as [->|]; [by apply Hb|apply Hno; [done|lia]].
Qed.
End NoraFind.
