(* ===== verification/NoraDiag.v ===== *)
(** * The editor's display models (usr/nora/src, diag.rs, debug.rs, vartree.rs)

    Diagnostics of the buffer shown, the debugger's snapshot, and the tree of
    variables whose visible rows the snapshot lists. *)

From S2P Require Import Prelude NoraText.
From stdpp Require Import strings.
Import NoraText.

Module NoraDiag.

(** ** Diagnostics (diag.rs) *)

Inductive Severity := Error | Warning | Info | Hint_.
#[global] Instance Severity_eq_dec : EqDecision Severity.
Proof. solve_decision. Defined.
Definition sev_rank (s : Severity) : nat := match s with Error => 0 | Warning => 1 | Info => 2 | Hint_ => 3 end.
Record LineDiag := mkDiag { d_line : nat; d_col : nat; end_col : nat; severity : Severity; message : list Z }.
Notation Diagnostics := (list LineDiag).

(** [min_by]: the first of the least. *)
Definition min_by {A} (lt : A → A → bool) (l : list A) : option A :=
  foldl (λ m x, match m with Some y => if lt x y then Some x else Some y | None => Some x end) None l.
Definition for_line (line : nat) (ds : Diagnostics) : option LineDiag :=
  min_by (λ a b, (sev_rank (severity a) <? sev_rank (severity b)) || (sev_rank (severity a) =? sev_rank (severity b)) && (d_col a <? d_col b))
    (List.filter (λ d, d_line d =? line) ds).
Definition severity_of_line (line : nat) (ds : Diagnostics) : option Severity := severity <$> for_line line ds.
Definition counts (ds : Diagnostics) : nat * nat :=
  foldl (λ ew d, match severity d with Error => (ew.1 + 1, ew.2) | Warning => (ew.1, ew.2 + 1) | _ => ew end) (0, 0) ds.
(** [sort_by_key(|d| (d.line, d.col))], which is stable. *)
Fixpoint insert_by (x : LineDiag) (l : Diagnostics) : Diagnostics :=
  match l with
  | [] => [x]
  | y :: l => if pos_leb (d_line x, d_col x) (d_line y, d_col y) then x :: y :: l else y :: insert_by x l
  end.
Definition sorted_diags (ds : Diagnostics) : Diagnostics := foldr insert_by [] ds.
Definition next_after (line : nat) (ds : Diagnostics) : option LineDiag :=
  let s := sorted_diags ds in
  match List.find (λ d, line <? d_line d) s with Some d => Some d | None => head s end.
Definition prev_before (line : nat) (ds : Diagnostics) : option LineDiag :=
  let s := sorted_diags ds in
  match List.find (λ d, d_line d <? line) (reverse s) with Some d => Some d | None => last s end.

(** ** The debugger's snapshot (debug.rs) *)

Record StackRow := mkStack { func : list Z; location : list Z; kernel_ : bool }.
Definition go_row (f loc : list Z) : StackRow := mkStack f loc false.
Definition kernel_row (f loc : list Z) : StackRow := mkStack f loc true.
Record VarRow := mkVarRow { v_name : list Z; v_value : list Z; v_depth : Z; v_expandable : bool; v_expanded : bool }.
Record GoroutineRow := mkGor { g_id : Z; g_state : list Z }.
Record DebugView := mkView {
  dv_status : list Z; frames : list StackRow; locals : list VarRow; goroutines : list GoroutineRow; console : list (list Z) }.
Definition launching (status : list Z) : DebugView := mkView status [] [] [] [].

(** [trim_start_matches], [trim_start], [trim], [str::lines]. *)
Fixpoint trim_start_matches (p : Z → bool) (s : list Z) : list Z :=
  match s with [] => [] | c :: r => if p c then trim_start_matches p r else s end.
Definition trim_end_matches (p : Z → bool) (s : list Z) : list Z := reverse (trim_start_matches p (reverse s)).
Definition trim_start : list Z → list Z := trim_start_matches is_whitespace.
Definition trim (s : list Z) : list Z := trim_end_matches is_whitespace (trim_start s).
Definition strip_cr (l : list Z) : list Z := match last l with Some 13%Z => take (length l - 1) l | _ => l end.
Definition str_lines (s : list Z) : list (list Z) :=
  let ls := split_nl s in
  strip_cr <$> (match last ls with Some [] => take (length ls - 1) ls | _ => ls end).
Definition parse_kstack (text : list Z) : list StackRow :=
  omap (λ l,
    match trim l with
    | 35%Z :: rest =>
        match trim_start (trim_start_matches (λ c, (48 <=? c)%Z && (c <=? 57)%Z) rest) with
        | [] => None
        | sym => Some (kernel_row sym [])
        end
    | _ => None
    end) (str_lines text).

(** ** The tree of variables (vartree.rs) *)

Inductive VarNode := mkVar (name value : list Z) (var_ref : Z) (expanded fetched : bool) (children : list VarNode).
Definition n_name (n : VarNode) : list Z := let 'mkVar a _ _ _ _ _ := n in a.
Definition n_value (n : VarNode) : list Z := let 'mkVar _ a _ _ _ _ := n in a.
Definition var_ref (n : VarNode) : Z := let 'mkVar _ _ a _ _ _ := n in a.
Definition expanded (n : VarNode) : bool := let 'mkVar _ _ _ a _ _ := n in a.
Definition children (n : VarNode) : list VarNode := let 'mkVar _ _ _ _ _ a := n in a.
Definition new_var (name value : list Z) (r : Z) : VarNode := mkVar name value r false false [].
Definition expandable (n : VarNode) : bool := negb (var_ref n =? 0)%Z.
Definition row_at (n : VarNode) (depth : Z) : VarRow := mkVarRow (n_name n) (n_value n) depth (expandable n) (expanded n).

(** A node's own rows, and the rows of a forest after those already out. *)
Fixpoint flatten_node (n : VarNode) (depth : Z) : outcome (list VarRow) :=
  let row := row_at n depth in
  match n with
  | mkVar _ _ _ true _ ch =>
      d ← uadd 16 depth 1;
      rs ← (fix go (l : list VarNode) : outcome (list VarRow) :=
              match l with [] => Done [] | n :: l => a ← flatten_node n d; b ← go l; Done (a ++ b) end) ch;
      Done (row :: rs)
  | _ => Done [row]
  end.
Definition flatten (nodes : list VarNode) (depth : Z) (out : list VarRow) : outcome (list VarRow) :=
  foldM (λ out n, rs ← flatten_node n depth; Done (out ++ rs)) out nodes.
Fixpoint node_count (n : VarNode) : nat :=
  match n with
  | mkVar _ _ _ true _ ch => 1 + (fix go (l : list VarNode) : nat := match l with [] => 0 | n :: l => node_count n + go l end) ch
  | _ => 1
  end.
Definition visible_count (nodes : list VarNode) : nat := foldr (λ n k, node_count n + k) 0 nodes.
(** One turn of [walk]'s loop, at the node's own path: what was found, and the
    counter. *)
Fixpoint walk_node (n : VarNode) (target counter : nat) (path : list nat) : option (list nat) * nat :=
  if counter =? target then (Some path, counter) else
  let counter := counter + 1 in
  match n with
  | mkVar _ _ _ true _ ch =>
      (fix go (l : list VarNode) (i counter : nat) : option (list nat) * nat :=
         match l with
         | [] => (None, counter)
         | n :: l =>
             match walk_node n target counter (path ++ [i]) with
             | (Some p, c) => (Some p, c)
             | (None, c) => go l (S i) c
             end
         end) ch 0 counter
  | _ => (None, counter)
  end.
Fixpoint walk_vars (l : list VarNode) (i target counter : nat) (prefix : list nat) : option (list nat) * nat :=
  match l with
  | [] => (None, counter)
  | n :: l =>
      match walk_node n target counter (prefix ++ [i]) with
      | (Some p, c) => (Some p, c)
      | (None, c) => walk_vars l (S i) target c prefix
      end
  end.
Definition visible_path (nodes : list VarNode) (target : nat) : option (list nat) := (walk_vars nodes 0 target 0 []).1.
Fixpoint node_at_path (roots : list VarNode) (path : list nat) : option VarNode :=
  match path with
  | [] => None
  | i :: rest =>
      match rest with
      | [] => roots !! i
      | _ => match roots !! i with Some n => node_at_path (children n) rest | None => None end
      end
  end.
Fixpoint find_node (reference : Z) (n : VarNode) : option VarNode :=
  if (var_ref n =? reference)%Z then Some n else
  match n with
  | mkVar _ _ _ _ _ ch =>
      (fix go (l : list VarNode) : option VarNode :=
         match l with [] => None | n :: l => match find_node reference n with Some m => Some m | None => go l end end) ch
  end.
Fixpoint find_by_ref (nodes : list VarNode) (reference : Z) : option VarNode :=
  match nodes with
  | [] => None
  | n :: l => match find_node reference n with Some m => Some m | None => find_by_ref l reference end
  end.

End NoraDiag.
