(* ===== verification/NoraEdit.v ===== *)
(** * The editor (usr/nora/src/editor.rs)

    The modal core: the state, a handler per mode, several cursors, text objects,
    several buffers, the debugger's dashboard, and the file requests main.rs
    carries out.  A row, a column or an index is a [nat], a character a [Z], a
    [String] the list of its characters. *)

From S2P Require Import Prelude Digits Vt Kaua KauaIn NoraText NoraDiag.
From stdpp Require Import strings.
Import NoraText NoraDiag.

Module NoraEdit.

(** ** Data *)

Inductive Mode :=
  | Normal | Insert_ | Visual | Command (buf : list Z) | Menu | DebugMenu
  | BufferPicker (sel : nat) | FilePicker (query : list Z) (sel : nat) | Completion (sel : nat).
#[global] Instance Mode_eq_dec : EqDecision Mode.
Proof. solve_decision. Defined.
Inductive Request := Save (path : option (list Z)) | Open_ (path : list Z) | ListDir (path : list Z).
Inductive LspRequest := Definition_ | Hover | Completion_.
Inductive DapRequest :=
  | Launch (p : list Z) | Break (s : list Z) | Continue_ | Next | Step | StepOut | Backtrace | Print_ (s : list Z)
  | SelectFrame (i : nat) | SelectGoroutine (i : nat) | ExpandVar (i : nat) | CollapseVar (i : nat) | Kill.
Inductive DashPane := PEditor | Variables | CallStack | Goroutines | PConsole.
#[global] Instance DashPane_eq_dec : EqDecision DashPane.
Proof. solve_decision. Defined.
Record DashState := mkDash {
  focus : DashPane; console_tab : nat; var_sel : nat; stack_sel : nat; gor_sel : nat; locals_expanded : bool; show_sidebar : bool; show_console : bool; zoom : bool
}.
Definition with_focus (v : DashPane) (d : DashState) : DashState := mkDash v (console_tab d) (var_sel d) (stack_sel d) (gor_sel d) (locals_expanded d) (show_sidebar d) (show_console d) (zoom d).
Definition with_console_tab (v : nat) (d : DashState) : DashState := mkDash (focus d) v (var_sel d) (stack_sel d) (gor_sel d) (locals_expanded d) (show_sidebar d) (show_console d) (zoom d).
Definition with_var_sel (v : nat) (d : DashState) : DashState := mkDash (focus d) (console_tab d) v (stack_sel d) (gor_sel d) (locals_expanded d) (show_sidebar d) (show_console d) (zoom d).
Definition with_stack_sel (v : nat) (d : DashState) : DashState := mkDash (focus d) (console_tab d) (var_sel d) v (gor_sel d) (locals_expanded d) (show_sidebar d) (show_console d) (zoom d).
Definition with_gor_sel (v : nat) (d : DashState) : DashState := mkDash (focus d) (console_tab d) (var_sel d) (stack_sel d) v (locals_expanded d) (show_sidebar d) (show_console d) (zoom d).
Definition with_locals_expanded (v : bool) (d : DashState) : DashState := mkDash (focus d) (console_tab d) (var_sel d) (stack_sel d) (gor_sel d) v (show_sidebar d) (show_console d) (zoom d).
Definition with_show_sidebar (v : bool) (d : DashState) : DashState := mkDash (focus d) (console_tab d) (var_sel d) (stack_sel d) (gor_sel d) (locals_expanded d) v (show_console d) (zoom d).
Definition with_show_console (v : bool) (d : DashState) : DashState := mkDash (focus d) (console_tab d) (var_sel d) (stack_sel d) (gor_sel d) (locals_expanded d) (show_sidebar d) v (zoom d).
Definition with_zoom (v : bool) (d : DashState) : DashState := mkDash (focus d) (console_tab d) (var_sel d) (stack_sel d) (gor_sel d) (locals_expanded d) (show_sidebar d) (show_console d) v.
Definition dash_new : DashState := mkDash PEditor 0 0 0 0 true true true false.
Record Candidate := mkCand { label : list Z; detail : option (list Z); insert_text : list Z }.
Record Sel := mkSel { s_anchor : Pos; s_head : Pos }.
Definition range (s : Sel) : Pos * Pos := if pos_leb (s_anchor s) (s_head s) then (s_anchor s, s_head s) else (s_head s, s_anchor s).
Inductive MultiEdit := MChar (c : Z) | MNewline | MBackspace.
Definition shift_after (p at_ : Pos) (edit : MultiEdit) : Pos :=
  match edit with
  | MChar _ => if (p.1 =? at_.1) && (at_.2 <=? p.2) then (p.1, p.2 + 1) else p
  | MNewline =>
      if (p.1 =? at_.1) && (at_.2 <=? p.2) then (p.1 + 1, p.2 - at_.2)
      else if at_.1 <? p.1 then (p.1 + 1, p.2)
      else p
  | MBackspace => if (0 <? at_.2) && (p.1 =? at_.1) && (at_.2 <=? p.2) then (p.1, p.2 - 1) else p
  end.
(** A subtraction of [usize]s. *)
Definition nsub (a b : nat) : outcome nat := if b <=? a then Done (a - b) else Panic.
Definition shift_after_delete (p lo hi : Pos) : outcome Pos :=
  if (p.1 =? lo.1) && (hi.2 <? p.2) then w ← nsub hi.2 lo.2; c ← nsub p.2 (w + 1); Done (p.1, c) else Done p.
Inductive FindKind := Forward | ForwardTill | Backward | BackwardTill.
Definition reversed (k : FindKind) : FindKind :=
  match k with Forward => Backward | Backward => Forward | ForwardTill => BackwardTill | BackwardTill => ForwardTill end.
Inductive Pending := FindChar (k : FindKind) | Match_ | TextObject (around : bool) | Goto | Bracket (forward : bool).
Record DocState := mkDoc_ {
  b_text : TextBuffer; b_filename : option (list Z); b_readonly : bool; b_modified : bool; b_top : nat; b_top_sub : nat; b_left : nat;
  b_anchor : option Pos; b_last_search : list Z }.
Definition doc_new (filename : option (list Z)) (content : list Z) (readonly : bool) : DocState :=
  mkDoc_ (NoraText.new content) filename readonly false 0 0 0 None [].

Record Editor := mkEditor {
  text : TextBuffer; mode : Mode; filename : option (list Z); readonly : bool; modified : bool;
  top : nat; top_sub : nat; left_ : nat; wrap : bool; status : option (list Z);
  quit : bool; diags : list LineDiag; hover : option (list Z); completion : list Candidate; completion_prefix : list Z;
  lsp_request : option LspRequest; dap_request : option DapRequest; debug : option DebugView; debug_line : option (list Z * nat); dash : DashState;
  pending_jump : option Pos; anchor : option Pos; register : list Z; carets : list Sel; split_buf : option (list Z);
  pending : option Pending; count : option Z; last_find : option (FindKind * Z); last_search : list Z; request : option Request;
  bufs : list DocState; active : nat; vp_tw : nat; file_entries : list (list Z)
}.

Definition with_text (v : TextBuffer) (e : Editor) : Editor := mkEditor v (mode e) (filename e) (readonly e) (modified e) (top e) (top_sub e) (left_ e) (wrap e) (status e) (quit e) (diags e) (hover e) (completion e) (completion_prefix e) (lsp_request e) (dap_request e) (debug e) (debug_line e) (dash e) (pending_jump e) (anchor e) (register e) (carets e) (split_buf e) (pending e) (count e) (last_find e) (last_search e) (request e) (bufs e) (active e) (vp_tw e) (file_entries e).
Definition with_mode (v : Mode) (e : Editor) : Editor := mkEditor (text e) v (filename e) (readonly e) (modified e) (top e) (top_sub e) (left_ e) (wrap e) (status e) (quit e) (diags e) (hover e) (completion e) (completion_prefix e) (lsp_request e) (dap_request e) (debug e) (debug_line e) (dash e) (pending_jump e) (anchor e) (register e) (carets e) (split_buf e) (pending e) (count e) (last_find e) (last_search e) (request e) (bufs e) (active e) (vp_tw e) (file_entries e).
Definition with_filename (v : option (list Z)) (e : Editor) : Editor := mkEditor (text e) (mode e) v (readonly e) (modified e) (top e) (top_sub e) (left_ e) (wrap e) (status e) (quit e) (diags e) (hover e) (completion e) (completion_prefix e) (lsp_request e) (dap_request e) (debug e) (debug_line e) (dash e) (pending_jump e) (anchor e) (register e) (carets e) (split_buf e) (pending e) (count e) (last_find e) (last_search e) (request e) (bufs e) (active e) (vp_tw e) (file_entries e).
Definition with_readonly (v : bool) (e : Editor) : Editor := mkEditor (text e) (mode e) (filename e) v (modified e) (top e) (top_sub e) (left_ e) (wrap e) (status e) (quit e) (diags e) (hover e) (completion e) (completion_prefix e) (lsp_request e) (dap_request e) (debug e) (debug_line e) (dash e) (pending_jump e) (anchor e) (register e) (carets e) (split_buf e) (pending e) (count e) (last_find e) (last_search e) (request e) (bufs e) (active e) (vp_tw e) (file_entries e).
Definition with_modified (v : bool) (e : Editor) : Editor := mkEditor (text e) (mode e) (filename e) (readonly e) v (top e) (top_sub e) (left_ e) (wrap e) (status e) (quit e) (diags e) (hover e) (completion e) (completion_prefix e) (lsp_request e) (dap_request e) (debug e) (debug_line e) (dash e) (pending_jump e) (anchor e) (register e) (carets e) (split_buf e) (pending e) (count e) (last_find e) (last_search e) (request e) (bufs e) (active e) (vp_tw e) (file_entries e).
Definition with_top (v : nat) (e : Editor) : Editor := mkEditor (text e) (mode e) (filename e) (readonly e) (modified e) v (top_sub e) (left_ e) (wrap e) (status e) (quit e) (diags e) (hover e) (completion e) (completion_prefix e) (lsp_request e) (dap_request e) (debug e) (debug_line e) (dash e) (pending_jump e) (anchor e) (register e) (carets e) (split_buf e) (pending e) (count e) (last_find e) (last_search e) (request e) (bufs e) (active e) (vp_tw e) (file_entries e).
Definition with_top_sub (v : nat) (e : Editor) : Editor := mkEditor (text e) (mode e) (filename e) (readonly e) (modified e) (top e) v (left_ e) (wrap e) (status e) (quit e) (diags e) (hover e) (completion e) (completion_prefix e) (lsp_request e) (dap_request e) (debug e) (debug_line e) (dash e) (pending_jump e) (anchor e) (register e) (carets e) (split_buf e) (pending e) (count e) (last_find e) (last_search e) (request e) (bufs e) (active e) (vp_tw e) (file_entries e).
Definition with_left (v : nat) (e : Editor) : Editor := mkEditor (text e) (mode e) (filename e) (readonly e) (modified e) (top e) (top_sub e) v (wrap e) (status e) (quit e) (diags e) (hover e) (completion e) (completion_prefix e) (lsp_request e) (dap_request e) (debug e) (debug_line e) (dash e) (pending_jump e) (anchor e) (register e) (carets e) (split_buf e) (pending e) (count e) (last_find e) (last_search e) (request e) (bufs e) (active e) (vp_tw e) (file_entries e).
Definition with_wrap (v : bool) (e : Editor) : Editor := mkEditor (text e) (mode e) (filename e) (readonly e) (modified e) (top e) (top_sub e) (left_ e) v (status e) (quit e) (diags e) (hover e) (completion e) (completion_prefix e) (lsp_request e) (dap_request e) (debug e) (debug_line e) (dash e) (pending_jump e) (anchor e) (register e) (carets e) (split_buf e) (pending e) (count e) (last_find e) (last_search e) (request e) (bufs e) (active e) (vp_tw e) (file_entries e).
Definition with_status (v : option (list Z)) (e : Editor) : Editor := mkEditor (text e) (mode e) (filename e) (readonly e) (modified e) (top e) (top_sub e) (left_ e) (wrap e) v (quit e) (diags e) (hover e) (completion e) (completion_prefix e) (lsp_request e) (dap_request e) (debug e) (debug_line e) (dash e) (pending_jump e) (anchor e) (register e) (carets e) (split_buf e) (pending e) (count e) (last_find e) (last_search e) (request e) (bufs e) (active e) (vp_tw e) (file_entries e).
Definition with_quit (v : bool) (e : Editor) : Editor := mkEditor (text e) (mode e) (filename e) (readonly e) (modified e) (top e) (top_sub e) (left_ e) (wrap e) (status e) v (diags e) (hover e) (completion e) (completion_prefix e) (lsp_request e) (dap_request e) (debug e) (debug_line e) (dash e) (pending_jump e) (anchor e) (register e) (carets e) (split_buf e) (pending e) (count e) (last_find e) (last_search e) (request e) (bufs e) (active e) (vp_tw e) (file_entries e).
Definition with_diags (v : list LineDiag) (e : Editor) : Editor := mkEditor (text e) (mode e) (filename e) (readonly e) (modified e) (top e) (top_sub e) (left_ e) (wrap e) (status e) (quit e) v (hover e) (completion e) (completion_prefix e) (lsp_request e) (dap_request e) (debug e) (debug_line e) (dash e) (pending_jump e) (anchor e) (register e) (carets e) (split_buf e) (pending e) (count e) (last_find e) (last_search e) (request e) (bufs e) (active e) (vp_tw e) (file_entries e).
Definition with_hover (v : option (list Z)) (e : Editor) : Editor := mkEditor (text e) (mode e) (filename e) (readonly e) (modified e) (top e) (top_sub e) (left_ e) (wrap e) (status e) (quit e) (diags e) v (completion e) (completion_prefix e) (lsp_request e) (dap_request e) (debug e) (debug_line e) (dash e) (pending_jump e) (anchor e) (register e) (carets e) (split_buf e) (pending e) (count e) (last_find e) (last_search e) (request e) (bufs e) (active e) (vp_tw e) (file_entries e).
Definition with_completion (v : list Candidate) (e : Editor) : Editor := mkEditor (text e) (mode e) (filename e) (readonly e) (modified e) (top e) (top_sub e) (left_ e) (wrap e) (status e) (quit e) (diags e) (hover e) v (completion_prefix e) (lsp_request e) (dap_request e) (debug e) (debug_line e) (dash e) (pending_jump e) (anchor e) (register e) (carets e) (split_buf e) (pending e) (count e) (last_find e) (last_search e) (request e) (bufs e) (active e) (vp_tw e) (file_entries e).
Definition with_completion_prefix (v : list Z) (e : Editor) : Editor := mkEditor (text e) (mode e) (filename e) (readonly e) (modified e) (top e) (top_sub e) (left_ e) (wrap e) (status e) (quit e) (diags e) (hover e) (completion e) v (lsp_request e) (dap_request e) (debug e) (debug_line e) (dash e) (pending_jump e) (anchor e) (register e) (carets e) (split_buf e) (pending e) (count e) (last_find e) (last_search e) (request e) (bufs e) (active e) (vp_tw e) (file_entries e).
Definition with_lsp_request (v : option LspRequest) (e : Editor) : Editor := mkEditor (text e) (mode e) (filename e) (readonly e) (modified e) (top e) (top_sub e) (left_ e) (wrap e) (status e) (quit e) (diags e) (hover e) (completion e) (completion_prefix e) v (dap_request e) (debug e) (debug_line e) (dash e) (pending_jump e) (anchor e) (register e) (carets e) (split_buf e) (pending e) (count e) (last_find e) (last_search e) (request e) (bufs e) (active e) (vp_tw e) (file_entries e).
Definition with_dap_request (v : option DapRequest) (e : Editor) : Editor := mkEditor (text e) (mode e) (filename e) (readonly e) (modified e) (top e) (top_sub e) (left_ e) (wrap e) (status e) (quit e) (diags e) (hover e) (completion e) (completion_prefix e) (lsp_request e) v (debug e) (debug_line e) (dash e) (pending_jump e) (anchor e) (register e) (carets e) (split_buf e) (pending e) (count e) (last_find e) (last_search e) (request e) (bufs e) (active e) (vp_tw e) (file_entries e).
Definition with_debug (v : option DebugView) (e : Editor) : Editor := mkEditor (text e) (mode e) (filename e) (readonly e) (modified e) (top e) (top_sub e) (left_ e) (wrap e) (status e) (quit e) (diags e) (hover e) (completion e) (completion_prefix e) (lsp_request e) (dap_request e) v (debug_line e) (dash e) (pending_jump e) (anchor e) (register e) (carets e) (split_buf e) (pending e) (count e) (last_find e) (last_search e) (request e) (bufs e) (active e) (vp_tw e) (file_entries e).
Definition with_debug_line (v : option (list Z * nat)) (e : Editor) : Editor := mkEditor (text e) (mode e) (filename e) (readonly e) (modified e) (top e) (top_sub e) (left_ e) (wrap e) (status e) (quit e) (diags e) (hover e) (completion e) (completion_prefix e) (lsp_request e) (dap_request e) (debug e) v (dash e) (pending_jump e) (anchor e) (register e) (carets e) (split_buf e) (pending e) (count e) (last_find e) (last_search e) (request e) (bufs e) (active e) (vp_tw e) (file_entries e).
Definition with_dash (v : DashState) (e : Editor) : Editor := mkEditor (text e) (mode e) (filename e) (readonly e) (modified e) (top e) (top_sub e) (left_ e) (wrap e) (status e) (quit e) (diags e) (hover e) (completion e) (completion_prefix e) (lsp_request e) (dap_request e) (debug e) (debug_line e) v (pending_jump e) (anchor e) (register e) (carets e) (split_buf e) (pending e) (count e) (last_find e) (last_search e) (request e) (bufs e) (active e) (vp_tw e) (file_entries e).
Definition with_pending_jump (v : option Pos) (e : Editor) : Editor := mkEditor (text e) (mode e) (filename e) (readonly e) (modified e) (top e) (top_sub e) (left_ e) (wrap e) (status e) (quit e) (diags e) (hover e) (completion e) (completion_prefix e) (lsp_request e) (dap_request e) (debug e) (debug_line e) (dash e) v (anchor e) (register e) (carets e) (split_buf e) (pending e) (count e) (last_find e) (last_search e) (request e) (bufs e) (active e) (vp_tw e) (file_entries e).
Definition with_anchor (v : option Pos) (e : Editor) : Editor := mkEditor (text e) (mode e) (filename e) (readonly e) (modified e) (top e) (top_sub e) (left_ e) (wrap e) (status e) (quit e) (diags e) (hover e) (completion e) (completion_prefix e) (lsp_request e) (dap_request e) (debug e) (debug_line e) (dash e) (pending_jump e) v (register e) (carets e) (split_buf e) (pending e) (count e) (last_find e) (last_search e) (request e) (bufs e) (active e) (vp_tw e) (file_entries e).
Definition with_register (v : list Z) (e : Editor) : Editor := mkEditor (text e) (mode e) (filename e) (readonly e) (modified e) (top e) (top_sub e) (left_ e) (wrap e) (status e) (quit e) (diags e) (hover e) (completion e) (completion_prefix e) (lsp_request e) (dap_request e) (debug e) (debug_line e) (dash e) (pending_jump e) (anchor e) v (carets e) (split_buf e) (pending e) (count e) (last_find e) (last_search e) (request e) (bufs e) (active e) (vp_tw e) (file_entries e).
Definition with_carets (v : list Sel) (e : Editor) : Editor := mkEditor (text e) (mode e) (filename e) (readonly e) (modified e) (top e) (top_sub e) (left_ e) (wrap e) (status e) (quit e) (diags e) (hover e) (completion e) (completion_prefix e) (lsp_request e) (dap_request e) (debug e) (debug_line e) (dash e) (pending_jump e) (anchor e) (register e) v (split_buf e) (pending e) (count e) (last_find e) (last_search e) (request e) (bufs e) (active e) (vp_tw e) (file_entries e).
Definition with_split_buf (v : option (list Z)) (e : Editor) : Editor := mkEditor (text e) (mode e) (filename e) (readonly e) (modified e) (top e) (top_sub e) (left_ e) (wrap e) (status e) (quit e) (diags e) (hover e) (completion e) (completion_prefix e) (lsp_request e) (dap_request e) (debug e) (debug_line e) (dash e) (pending_jump e) (anchor e) (register e) (carets e) v (pending e) (count e) (last_find e) (last_search e) (request e) (bufs e) (active e) (vp_tw e) (file_entries e).
Definition with_pending (v : option Pending) (e : Editor) : Editor := mkEditor (text e) (mode e) (filename e) (readonly e) (modified e) (top e) (top_sub e) (left_ e) (wrap e) (status e) (quit e) (diags e) (hover e) (completion e) (completion_prefix e) (lsp_request e) (dap_request e) (debug e) (debug_line e) (dash e) (pending_jump e) (anchor e) (register e) (carets e) (split_buf e) v (count e) (last_find e) (last_search e) (request e) (bufs e) (active e) (vp_tw e) (file_entries e).
Definition with_count (v : option Z) (e : Editor) : Editor := mkEditor (text e) (mode e) (filename e) (readonly e) (modified e) (top e) (top_sub e) (left_ e) (wrap e) (status e) (quit e) (diags e) (hover e) (completion e) (completion_prefix e) (lsp_request e) (dap_request e) (debug e) (debug_line e) (dash e) (pending_jump e) (anchor e) (register e) (carets e) (split_buf e) (pending e) v (last_find e) (last_search e) (request e) (bufs e) (active e) (vp_tw e) (file_entries e).
Definition with_last_find (v : option (FindKind * Z)) (e : Editor) : Editor := mkEditor (text e) (mode e) (filename e) (readonly e) (modified e) (top e) (top_sub e) (left_ e) (wrap e) (status e) (quit e) (diags e) (hover e) (completion e) (completion_prefix e) (lsp_request e) (dap_request e) (debug e) (debug_line e) (dash e) (pending_jump e) (anchor e) (register e) (carets e) (split_buf e) (pending e) (count e) v (last_search e) (request e) (bufs e) (active e) (vp_tw e) (file_entries e).
Definition with_last_search (v : list Z) (e : Editor) : Editor := mkEditor (text e) (mode e) (filename e) (readonly e) (modified e) (top e) (top_sub e) (left_ e) (wrap e) (status e) (quit e) (diags e) (hover e) (completion e) (completion_prefix e) (lsp_request e) (dap_request e) (debug e) (debug_line e) (dash e) (pending_jump e) (anchor e) (register e) (carets e) (split_buf e) (pending e) (count e) (last_find e) v (request e) (bufs e) (active e) (vp_tw e) (file_entries e).
Definition with_request (v : option Request) (e : Editor) : Editor := mkEditor (text e) (mode e) (filename e) (readonly e) (modified e) (top e) (top_sub e) (left_ e) (wrap e) (status e) (quit e) (diags e) (hover e) (completion e) (completion_prefix e) (lsp_request e) (dap_request e) (debug e) (debug_line e) (dash e) (pending_jump e) (anchor e) (register e) (carets e) (split_buf e) (pending e) (count e) (last_find e) (last_search e) v (bufs e) (active e) (vp_tw e) (file_entries e).
Definition with_bufs (v : list DocState) (e : Editor) : Editor := mkEditor (text e) (mode e) (filename e) (readonly e) (modified e) (top e) (top_sub e) (left_ e) (wrap e) (status e) (quit e) (diags e) (hover e) (completion e) (completion_prefix e) (lsp_request e) (dap_request e) (debug e) (debug_line e) (dash e) (pending_jump e) (anchor e) (register e) (carets e) (split_buf e) (pending e) (count e) (last_find e) (last_search e) (request e) v (active e) (vp_tw e) (file_entries e).
Definition with_active (v : nat) (e : Editor) : Editor := mkEditor (text e) (mode e) (filename e) (readonly e) (modified e) (top e) (top_sub e) (left_ e) (wrap e) (status e) (quit e) (diags e) (hover e) (completion e) (completion_prefix e) (lsp_request e) (dap_request e) (debug e) (debug_line e) (dash e) (pending_jump e) (anchor e) (register e) (carets e) (split_buf e) (pending e) (count e) (last_find e) (last_search e) (request e) (bufs e) v (vp_tw e) (file_entries e).
Definition with_vp_tw (v : nat) (e : Editor) : Editor := mkEditor (text e) (mode e) (filename e) (readonly e) (modified e) (top e) (top_sub e) (left_ e) (wrap e) (status e) (quit e) (diags e) (hover e) (completion e) (completion_prefix e) (lsp_request e) (dap_request e) (debug e) (debug_line e) (dash e) (pending_jump e) (anchor e) (register e) (carets e) (split_buf e) (pending e) (count e) (last_find e) (last_search e) (request e) (bufs e) (active e) v (file_entries e).
Definition with_file_entries (v : list (list Z)) (e : Editor) : Editor := mkEditor (text e) (mode e) (filename e) (readonly e) (modified e) (top e) (top_sub e) (left_ e) (wrap e) (status e) (quit e) (diags e) (hover e) (completion e) (completion_prefix e) (lsp_request e) (dap_request e) (debug e) (debug_line e) (dash e) (pending_jump e) (anchor e) (register e) (carets e) (split_buf e) (pending e) (count e) (last_find e) (last_search e) (request e) (bufs e) (active e) (vp_tw e) v.

Definition say (s : list Z) (e : Editor) : Editor := with_status (Some s) e.
Definition on_dash (f : DashState → DashState) (e : Editor) : Editor := with_dash (f (dash e)) e.
(** The text moved, or edited. *)
Definition mv (f : TextBuffer → TextBuffer) (e : Editor) : Editor := with_text (f (text e)) e.
Definition on_text (f : TextBuffer → outcome TextBuffer) (e : Editor) : outcome Editor := t ← f (text e); Done (with_text t e).
(** [for _ in 0..n]. *)
Fixpoint times {A} (n : nat) (f : A → outcome A) (a : A) : outcome A :=
  match n with O => Done a | S n => a ← f a; times n f a end.

Notation lit := Vt.lit.
Definition ch (s : string) : Z := default 0%Z (head (lit s)).
Notation KeyEvent := KauaIn.KeyEvent.
Definition is_key (k : KeyEvent) (c : KauaIn.KeyCode) : bool := bool_decide (KauaIn.code k = c).
Definition is_char (k : KeyEvent) (s : string) : bool := is_key k (KauaIn.Char (ch s)).
Definition the_char (k : KeyEvent) : option Z := match KauaIn.code k with KauaIn.Char c => Some c | _ => None end.
Definition has_mod (k : KeyEvent) (m : Z) : bool := (Z.land (KauaIn.mods k) m =? m)%Z.
Definition pop (s : list Z) : list Z := take (length s - 1) s.

(** ** Formatting *)

(** Twenty digits hold a [usize]. *)
Fixpoint itoa_loop (room : nat) (n : Z) (buf : list Z) : list Z :=
  match room with
  | O => buf
  | S room => if (n =? 0)%Z then buf else itoa_loop room (n / 10)%Z ((48 + n mod 10)%Z :: buf)
  end.
Definition itoa (n : Z) : list Z := if (n =? 0)%Z then lit "0" else itoa_loop 20 n [].
Definition quote : Z := 34%Z.
Definition string_fmt_saved (path : list Z) (bytes : nat) : list Z :=
  [quote] ++ path ++ [quote; 32%Z] ++ itoa (Z.of_nat bytes) ++ lit "B written".
Definition string_fmt_unknown (cmd : list Z) : list Z := lit "unknown command: " ++ cmd.
Definition string_fmt_not_found (pat : list Z) : list Z := lit "not found: " ++ pat.
Definition string_fmt_buffers (i total : nat) : list Z := lit "[" ++ itoa (Z.of_nat i) ++ lit "/" ++ itoa (Z.of_nat total) ++ lit "]".
Definition on_off (name : list Z) (on : bool) : list Z := name ++ lit (if on then ": on" else ": off").
Definition opt (arg : list Z) : option (list Z) := match arg with [] => None | _ => Some arg end.

(** ** Questions *)

Definition selection (e : Editor) : option (Pos * Pos) :=
  match mode e, anchor e with
  | Visual, Some a => let c := cursor (text e) in Some (if pos_leb a c then (a, c) else (c, a))
  | _, _ => None
  end.
Definition selection_ranges (e : Editor) : list (Pos * Pos) :=
  match carets e with
  | [] => match selection e with Some s => [s] | None => [] end
  | cs => range <$> cs
  end.
Definition debugging (e : Editor) : bool := bool_decide (is_Some (debug e)).
Definition block_cursor (e : Editor) : bool :=
  bool_decide (split_buf e = None) && match mode e with Normal | Insert_ | Visual => true | _ => false end.
Definition show_hint (e : Editor) : bool :=
  bool_decide (filename e = None) && negb (modified e) && bool_decide (content (text e) = []) &&
  match carets e with [] => true | _ => false end && bool_decide (mode e = Normal).
Definition mode_str (e : Editor) : list Z :=
  match mode e with
  | Normal | Menu | DebugMenu | BufferPicker _ | FilePicker _ _ => if readonly e then lit "VIEW" else lit "NOR"
  | Insert_ | Completion _ => lit "INS"
  | Visual => lit "VIS"
  | Command _ => lit "CMD"
  end.
Definition buffer_indicator (e : Editor) : option (list Z) :=
  if 1 <? length (bufs e) then Some (string_fmt_buffers (active e + 1) (length (bufs e))) else None.
(** [rsplit('/').next()]. *)
Fixpoint basename (s : list Z) : list Z :=
  match s with [] => [] | c :: r => if existsb (λ d, (d =? 47)%Z) r then basename r else if (c =? 47)%Z then r else s end.
Definition filename_basename (e : Editor) : option (list Z) := basename <$> filename e.
Definition buffer_count (e : Editor) : nat := length (bufs e).
Definition show_tabs (e : Editor) : bool := 1 <? length (bufs e).
Definition buffer_tabs (e : Editor) : list (list Z * bool) :=
  imap (λ i d, (basename (default (lit "[No Name]") (if i =? active e then filename e else b_filename d)), i =? active e)) (bufs e).
Definition debug_line_row (e : Editor) : option nat :=
  match debug_line e with
  | Some (base, l) => if bool_decide (filename_basename e = Some base) then Some l else None
  | None => None
  end.

(** ** Buffers *)

Definition save_active (e : Editor) : DocState :=
  mkDoc_ (text e) (filename e) (readonly e) (modified e) (top e) (top_sub e) (left_ e) (anchor e) (last_search e).
Definition load_active (d : DocState) (e : Editor) : Editor :=
  let e := with_text (b_text d) e in
  let e := with_filename (b_filename d) e in
  let e := with_readonly (b_readonly d) e in
  let e := with_modified (b_modified d) e in
  let e := with_top (b_top d) (with_top_sub (b_top_sub d) (with_left (b_left d) e)) in
  let e := with_anchor (b_anchor d) (with_last_search (b_last_search d) e) in
  let e := with_carets [] (with_split_buf None (with_pending None (with_count None e))) in
  let e := with_diags [] e in
  with_hover None (with_completion [] (with_completion_prefix [] e)).
Definition editor_new (fname : option (list Z)) (content : list Z) (ro : bool) : Editor :=
  let d := doc_new fname content ro in
  let e := mkEditor (NoraText.new []) Normal None false false 0 0 0 false None false [] None [] [] None None None None dash_new
             None None [] [] None None None None [] None [] 0 0 [] in
  load_active d (with_bufs [d] e).
(** [self.bufs\[self.active\] = d]. *)
Definition park (d : DocState) (e : Editor) : outcome Editor :=
  if active e <? length (bufs e) then Done (with_bufs (<[active e := d]> (bufs e)) e) else Panic.
Definition switch_to (i : nat) (e : Editor) : outcome Editor :=
  if (i =? active e) || (length (bufs e) <=? i) then Done e else
  e ← park (save_active e) e;
  d ← unwrap (bufs e !! i);
  let e := with_mode Normal (with_active i (load_active d e)) in
  Done (with_status (buffer_indicator e) e).
Definition next_buffer (e : Editor) : outcome Editor :=
  let n := length (bufs e) in
  if 1 <? n then switch_to ((active e + 1) mod n) e else Done (say (lit "only one buffer") e).
Definition prev_buffer (e : Editor) : outcome Editor :=
  let n := length (bufs e) in
  if 1 <? n then switch_to ((active e + n - 1) mod n) e else Done (say (lit "only one buffer") e).
(** The active buffer parked, and a new one made active. *)
Definition add_buffer (d : DocState) (e : Editor) : outcome Editor :=
  e ← park (save_active e) e;
  let e := with_bufs (bufs e ++ [d]) e in
  Done (load_active d (with_active (length (bufs e) - 1) e)).
Definition open_buffer (fname : option (list Z)) (cont : list Z) (e : Editor) : outcome Editor :=
  let d := doc_new fname cont false in
  let pristine := (length (bufs e) =? 1) && negb (modified e) && bool_decide (filename e = None) && bool_decide (content (text e) = []) in
  e ← (if pristine then
         (if 0 <? length (bufs e) then Done (load_active d (with_bufs (<[0 := d]> (bufs e)) e)) else Panic)
       else add_buffer d e);
  let e := with_mode Normal e in
  let e := with_status (Some (default (lit "opened") (buffer_indicator e))) e in
  let e' := with_pending_jump None e in
  Done (match pending_jump e with Some (l, c) => mv (set_cursor l c) e' | None => e' end).
Definition HELP_NAME : list Z := lit "*help*".
(** The manual's text. *)
Class Manual := { HELP_TEXT : list Z }.
Definition open_help `{!Manual} (e : Editor) : outcome Editor :=
  if bool_decide (filename e = Some HELP_NAME) then Done e else
  match position (λ d, bool_decide (b_filename d = Some HELP_NAME)) (bufs e) with
  | Some i => switch_to i e
  | None =>
      e ← add_buffer (doc_new (Some HELP_NAME) HELP_TEXT true) e;
      Done (say (lit "help -- press q to close") (with_mode Normal e))
  end.
Definition open_scratch (name cont : list Z) (e : Editor) : outcome Editor :=
  let fresh := doc_new (Some name) cont true in
  e ← (match position (λ d, bool_decide (b_filename d = Some name)) (bufs e) with
       | Some i =>
           e ← (if active e =? i then Done e else e ← park (save_active e) e; Done (with_active i e));
           if i <? length (bufs e) then Done (load_active fresh (with_bufs (<[i := fresh]> (bufs e)) e)) else Panic
       | None => add_buffer fresh e
       end);
  Done (with_mode Normal e).
Definition close_buffer (force : bool) (e : Editor) : outcome Editor :=
  if length (bufs e) <=? 1 then Done (say (lit "only one buffer") e) else
  if modified e && negb force then Done (say (lit "unsaved changes (:bd! to discard)") e) else
  bs ← vec_remove (bufs e) (active e);
  let e := with_bufs bs e in
  let e := if length (bufs e) <=? active e then with_active (length (bufs e) - 1) e else e in
  d ← unwrap (bufs e !! active e);
  let e := with_mode Normal (load_active d e) in
  Done (with_status (buffer_indicator e) e).
Definition mark_saved (path : list Z) (bytes : nat) (e : Editor) : Editor :=
  with_modified false (with_filename (Some path) (say (string_fmt_saved path bytes) e)).

(** ** Scrolling and rows *)

(** The walk from the anchor, [room] steps before it gives up: at the cursor,
    given up, or at the end of the document. *)
Inductive Seek := Reached | Below | Lost.
Fixpoint seek (t : TextBuffer) (tw : nat) (cur p : Pos) (room : nat) : Seek :=
  if bool_decide (p = cur) then Reached else
  match room with
  | O => Below
  | S room => match forward t tw p with Some q => seek t tw cur q room | None => Lost end
  end.
Definition scroll_to (tw height : nat) (e : Editor) : Editor :=
  if height =? 0 then e else
  let e := with_vp_tw tw e in
  let t := text e in
  if negb (wrap e) then
    let e := with_top_sub 0 e in
    let '(row, col) := cursor t in
    let e := if row <? top e then with_top row e
             else if top e + height <=? row then with_top (row + 1 - height) e else e in
    let twc := tw `max` 1 in
    if col <? left_ e then with_left col e
    else if left_ e + twc <=? col then with_left (col + 1 - twc) e else e
  else
    let e := with_left 0 e in
    let cur := cursor_visual t tw in
    let anchor := (top e, top_sub e) in
    let put p := with_top p.1 (with_top_sub p.2 e) in
    if (cur.1 <? anchor.1) || (cur.1 =? anchor.1) && (cur.2 <? anchor.2) then put cur else
    match seek t tw cur anchor (height - 1) with
    | Reached => e
    | Lost => put cur
    | Below => put (back_n t tw cur (height - 1))
    end.
Definition toggle_wrap (e : Editor) : Editor := with_left 0 (with_top_sub 0 (with_wrap (negb (wrap e)) e)).
Definition move_down (e : Editor) : Editor :=
  if negb (wrap e && (0 <? vp_tw e)) then mv NoraText.move_down e else
  let tw := vp_tw e in
  let '(row, col) := cursor (text e) in
  let sub := col / tw in
  let vcol := col - sub * tw in
  if sub + 1 <? row_rows (text e) row tw then mv (set_cursor row (((sub + 1) * tw + vcol) `min` char_len row (text e))) e
  else if row + 1 <? line_count (text e) then mv (set_cursor (row + 1) (vcol `min` char_len (row + 1) (text e))) e
  else e.
Definition move_up (e : Editor) : Editor :=
  if negb (wrap e && (0 <? vp_tw e)) then mv NoraText.move_up e else
  let tw := vp_tw e in
  let '(row, col) := cursor (text e) in
  let sub := col / tw in
  let vcol := col - sub * tw in
  if 0 <? sub then mv (set_cursor row ((sub - 1) * tw + vcol)) e
  else if 0 <? row then
    let prow := row - 1 in
    let last_sub := row_rows (text e) prow tw - 1 in
    mv (set_cursor prow ((last_sub * tw + vcol) `min` char_len prow (text e))) e
  else e.
Definition PAGE : nat := 20.
Definition page (up : bool) (e : Editor) : Editor := Nat.iter PAGE (λ e, if up then move_up e else move_down e) e.
Definition goto_line (n : Z) (e : Editor) : Editor := mv (set_cursor (Z.to_nat (sat_sub n 1)) 0) e.

(** ** Several cursors *)

Definition run_split (pat : list Z) (e : Editor) : outcome Editor :=
  match pat with
  | [] => Done (say (lit "empty pattern") e)
  | _ =>
      matches ← find_all pat (text e);
      match matches with
      | [] => Done (say (lit "no matches") e)
      | (_, head) :: _ =>
          let e := with_carets ((λ m, mkSel m.1 m.2) <$> matches) e in
          let e := mv (set_cursor head.1 head.2) e in
          let e := with_mode Visual (with_anchor None e) in
          Done (say (itoa (zlen (carets e)) ++ lit " cursors") e)
      end
  end.
Definition collapse_carets (e : Editor) : Editor :=
  let e := match carets e with s :: _ => mv (set_cursor (s_head s).1 (s_head s).2) e | [] => e end in
  say (lit "single cursor") (with_mode Normal (with_anchor None (with_split_buf None (with_carets [] e)))).
(** [self.carets\[0\].head], and the cursor put there. *)
Definition to_primary (e : Editor) : outcome Editor :=
  s ← unwrap (head (carets e));
  Done (mv (set_cursor (s_head s).1 (s_head s).2) e).
(** One turn of the loop over the carets: the selection deleted, its caret at its
    start, the later ones shifted. *)
Definition shift_sel (lo hi : Pos) (s : Sel) : outcome Sel :=
  h ← shift_after_delete (s_head s) lo hi; a ← shift_after_delete (s_anchor s) lo hi; Done (mkSel a h).
Definition delete_caret (st : list Sel * TextBuffer) (i : nat) : outcome (list Sel * TextBuffer) :=
  let '(cs, t) := st in
  s ← unwrap (cs !! i);
  let '(lo, hi) := range s in
  t ← delete_range lo hi t;
  later ← mapM_o (shift_sel lo hi) (drop (S i) cs);
  Done (take i cs ++ mkSel lo lo :: later, t).
Definition delete_all_carets (e : Editor) : outcome Editor :=
  let e := mv checkpoint e in
  '(cs, t) ← foldM delete_caret (carets e, text e) (seq 0 (length (carets e)));
  e ← to_primary (with_carets cs (with_text t e));
  Done (with_modified true (with_anchor None e)).
Definition change (e : Editor) : outcome Editor :=
  if readonly e then Done e else
  match carets e with
  | [] =>
      match selection e with
      | Some (lo, hi) =>
          e ← on_text (delete_range lo hi) (mv checkpoint e);
          Done (with_modified true (with_mode Insert_ (with_anchor None e)))
      | None => Done e
      end
  | _ => e ← delete_all_carets e; Done (with_mode Insert_ e)
  end.
Definition delete (e : Editor) : outcome Editor :=
  if readonly e then Done e else
  match carets e with
  | [] =>
      e ← (match selection e with
           | Some (lo, hi) =>
               r ← range_text lo hi (text e);
               e ← on_text (delete_range lo hi) (mv checkpoint (with_register r e));
               Done (with_modified true e)
           | None => Done e
           end);
      Done (with_mode Normal (with_anchor None e))
  | cs =>
      e ← delete_all_carets e;
      Done (say (lit "deleted " ++ itoa (zlen cs) ++ lit " selections") (with_mode Normal e))
  end.
Definition edit_at_caret (edit : MultiEdit) (t : TextBuffer) : outcome TextBuffer :=
  match edit with MChar c => insert_char c t | MNewline => insert_newline t | MBackspace => backspace t end.
Definition apply_caret (edit : MultiEdit) (st : list Sel * TextBuffer) (i : nat) : outcome (list Sel * TextBuffer) :=
  let '(cs, t) := st in
  s ← unwrap (cs !! i);
  let at_ := s_head s in
  t ← edit_at_caret edit (set_cursor at_.1 at_.2 t);
  let np := cursor t in
  let later := (λ s, let p := shift_after (s_head s) at_ edit in mkSel p p) <$> drop (S i) cs in
  Done (take i cs ++ mkSel np np :: later, t).
Definition multi_apply (edit : MultiEdit) (e : Editor) : outcome Editor :=
  '(cs, t) ← foldM (apply_caret edit) (carets e, text e) (seq 0 (length (carets e)));
  e ← to_primary (with_carets cs (with_text t e));
  Done (with_modified true e).
Definition multi_insert (k : KeyEvent) (e : Editor) : outcome Editor :=
  match KauaIn.code k with
  | KauaIn.KEsc => Done (with_mode Normal e)
  | KauaIn.Enter => multi_apply MNewline e
  | KauaIn.Backspace => multi_apply MBackspace e
  | KauaIn.Tab => times 4 (multi_apply (MChar 32)) e
  | KauaIn.Char c => multi_apply (MChar c) e
  | _ => Done e
  end.

(** ** Motions on a character *)

Definition find_char (kind : FindKind) (c : Z) (e : Editor) : Editor :=
  let '(row, col) := cursor (text e) in
  let l := line row (text e) in
  let forward := match kind with Forward | ForwardTill => true | _ => false end in
  let till := match kind with ForwardTill | BackwardTill => true | _ => false end in
  let hit i := bool_decide (l !! i = Some c) in
  let found := if forward then List.find hit (seq (col + 1) (length l - (col + 1))) else List.find hit (reverse (seq 0 col)) in
  match found with
  | Some i => mv (set_cursor row (if till then if forward then i - 1 else i + 1 else i)) e
  | None => e
  end.
Definition repeat_find (reverse : bool) (e : Editor) : Editor :=
  match last_find e with Some (k, c) => find_char (if reverse then reversed k else k) c e | None => e end.
Definition goto_diagnostic (forward : bool) (e : Editor) : Editor :=
  match (if forward then next_after else prev_before) (row (text e)) (diags e) with
  | Some d => say (message d) (mv (set_cursor (d_line d) (d_col d)) e)
  | None => say (lit "no diagnostics") e
  end.

(** ** Brackets *)

(** Along a line, the depth going with it: where it comes back to zero. *)
Fixpoint scan_line (up down : Z) (cs : list (Pos * Z)) (depth : Z) : outcome (option Pos * Z) :=
  match cs with
  | [] => Done (None, depth)
  | (p, c) :: cs =>
      if (c =? up)%Z then depth ← ichk 32 (depth + 1); scan_line up down cs depth
      else if (c =? down)%Z then
        depth ← ichk 32 (depth - 1);
        if (depth =? 0)%Z then Done (Some p, depth) else scan_line up down cs depth
      else scan_line up down cs depth
  end.
Fixpoint scan_lines (up down : Z) (ls : list (outcome (list (Pos * Z)))) (depth : Z) : outcome (option Pos) :=
  match ls with
  | [] => Done None
  | l :: ls =>
      cs ← l;
      '(found, depth) ← scan_line up down cs depth;
      match found with Some p => Done (Some p) | None => scan_lines up down ls depth end
  end.
Definition placed (r : nat) (l : list Z) : list (Pos * Z) := imap (λ i c, ((r, i), c)) l.
Definition scan_forward_match (open close : Z) (from : Pos) (t : TextBuffer) : outcome (option Pos) :=
  scan_lines open close
    ((λ r, Done (drop (if r =? from.1 then from.2 else 0) (placed r (line r t)))) <$> seq from.1 (line_count t - from.1)) 0.
Definition scan_backward_match (open close : Z) (from : Pos) (t : TextBuffer) : outcome (option Pos) :=
  scan_lines close open
    ((λ r, let l := line r t in
           let upto := if r =? from.1 then from.2 + 1 else length l in
           if upto <=? length l then Done (reverse (take upto (placed r l))) else Panic) <$> reverse (seq 0 (from.1 + 1))) 0.
Definition match_bracket (e : Editor) : outcome Editor :=
  let p := cursor (text e) in
  match char_at p.1 p.2 (text e) with
  | None => Done e
  | Some here =>
      dest ← (if (here =? ch "(")%Z then scan_forward_match (ch "(") (ch ")") p (text e)
              else if (here =? ch ")")%Z then scan_backward_match (ch "(") (ch ")") p (text e)
              else if (here =? ch "[")%Z then scan_forward_match (ch "[") (ch "]") p (text e)
              else if (here =? ch "]")%Z then scan_backward_match (ch "[") (ch "]") p (text e)
              else if (here =? ch "{")%Z then scan_forward_match (ch "{") (ch "}") p (text e)
              else if (here =? ch "}")%Z then scan_backward_match (ch "{") (ch "}") p (text e)
              else Done None);
      Done (match dest with Some q => mv (set_cursor q.1 q.2) e | None => e end)
  end.
(** Back from [p], as many positions as [fuel]. *)
Fixpoint back_open (fuel : nat) (open close : Z) (t : TextBuffer) (p : Pos) (depth : Z) : outcome (option Pos) :=
  match fuel with
  | O => OutOfFuel
  | S fuel =>
      let next depth := match pos_before t p with Some q => back_open fuel open close t q depth | None => Done None end in
      match char_at p.1 p.2 t with
      | Some c =>
          if (c =? close)%Z then depth ← ichk 32 (depth + 1); next depth
          else if (c =? open)%Z then if (depth =? 0)%Z then Done (Some p) else depth ← ichk 32 (depth - 1); next depth
          else next depth
      | None => next depth
      end
  end.
Definition scan_back_enclosing_open (open close : Z) (from : Pos) (t : TextBuffer) : outcome (option Pos) :=
  match pos_before t from with Some p => back_open (places t) open close t p 0 | None => Done None end.
Definition find_enclosing_pair (open close : Z) (t : TextBuffer) : outcome (option (Pos * Pos)) :=
  let cur := cursor t in
  let inside :=
    op ←! scan_back_enclosing_open open close cur t;
    cp ←! scan_forward_match open close op t;
    Done (Some (op, cp)) in
  match char_at cur.1 cur.2 t with
  | Some c =>
      if (c =? open)%Z then cp ←! scan_forward_match open close cur t; Done (Some (cur, cp))
      else if (c =? close)%Z then op ←! scan_backward_match open close cur t; Done (Some (op, cur))
      else inside
  | None => inside
  end.

(** ** Text objects *)

Definition pair_object (open close : Z) (around : bool) (t : TextBuffer) : outcome (option (Pos * Pos)) :=
  '(op, cp) ←! find_enclosing_pair open close t;
  if around then Done (Some (op, cp)) else
  Done (match pos_after t op, pos_before t cp with
        | Some lo, Some hi => if pos_leb lo hi then Some (lo, hi) else None
        | _, _ => None
        end).
Fixpoint quote_pairs (row col : nat) (around : bool) (quotes : list nat) : option (Pos * Pos) :=
  match quotes with
  | a :: b :: rest =>
      if col <=? b then
        if around then Some ((row, a), (row, b))
        else if a + 1 <? b then Some ((row, a + 1), (row, b - 1))
        else None
      else quote_pairs row col around rest
  | _ => None
  end.
Definition quote_object (q : Z) (around : bool) (t : TextBuffer) : option (Pos * Pos) :=
  let '(row, col) := cursor t in
  quote_pairs row col around (omap (λ ic, if (ic.2 =? q)%Z then Some ic.1 else None) (imap (λ i c, (i, c)) (line row t))).
Definition char_ws (c : Z) : bool := is_whitespace c.
Definition ws_at (t : TextBuffer) (r c : nat) : bool := match char_at r c t with Some c => char_ws c | None => false end.
Fixpoint ws_end (fuel : nat) (t : TextBuffer) (r len end_ : nat) : outcome nat :=
  match fuel with
  | O => OutOfFuel
  | S fuel => if (end_ + 1 <? len) && ws_at t r (end_ + 1) then ws_end fuel t r len (end_ + 1) else Done end_
  end.
Fixpoint ws_start (t : TextBuffer) (r start : nat) : nat :=
  match start with O => O | S s => if ws_at t r s then ws_start t r s else start end.

Section Keys.
Context `{!Unicode, !Manual}.

Definition word_object (around : bool) (t : TextBuffer) : outcome (option (Pos * Pos)) :=
  let cur := cursor t in
  '(lo, hi) ←! word_span_at cur t;
  if around then
    let len := char_len cur.1 t in
    end_ ← ws_end (S len) t cur.1 len hi.2;
    if hi.2 <? end_ then Done (Some (lo, (hi.1, end_))) else Done (Some ((lo.1, ws_start t cur.1 lo.2), hi))
  else Done (Some (lo, hi)).
Definition text_object (around : bool) (obj : Z) (t : TextBuffer) : outcome (option (Pos * Pos)) :=
  let one s := (obj =? ch s)%Z in
  if one "(" || one ")" || one "b" then pair_object (ch "(") (ch ")") around t
  else if one "[" || one "]" then pair_object (ch "[") (ch "]") around t
  else if one "{" || one "}" || one "B" then pair_object (ch "{") (ch "}") around t
  else if (obj =? quote)%Z then Done (quote_object quote around t)
  else if one "'" then Done (quote_object (ch "'") around t)
  else if one "w" then word_object around t
  else Done None.
Definition select_text_object (around : bool) (obj : Z) (e : Editor) : outcome Editor :=
  r ← text_object around obj (text e);
  Done (match r with
        | Some (lo, hi) => with_mode Visual (mv (set_cursor hi.1 hi.2) (with_anchor (Some lo) e))
        | None => e
        end).

(** ** The debugger's dashboard *)

Definition pane_visible (p : DashPane) (d : DashState) : bool :=
  match p with
  | PEditor => true
  | Variables | CallStack | Goroutines => show_sidebar d
  | PConsole => show_console d
  end.
Definition ORDER : list DashPane := [PEditor; Variables; CallStack; Goroutines; PConsole].
Definition cycle_focus (e : Editor) : Editor :=
  if negb (debugging e) then e else
  let cur := default 0 (position (λ p, bool_decide (p = focus (dash e))) ORDER) in
  let cands := (λ step, default PEditor (ORDER !! ((cur + step) mod 5))) <$> seq 1 5 in
  match List.find (λ p, pane_visible p (dash e)) cands with
  | Some p => on_dash (with_focus p) e
  | None => e
  end.
Definition dash_rows (e : Editor) : nat :=
  match debug e with
  | None => 0
  | Some dv =>
      match focus (dash e) with
      | Variables => if locals_expanded (dash e) then 1 + length (locals dv) else 1
      | CallStack => length (frames dv)
      | Goroutines => length (goroutines dv)
      | PConsole | PEditor => 0
      end
  end.
(** The focused tile's selection, changed. *)
Definition dash_sel (f : nat → nat) (e : Editor) : Editor :=
  match focus (dash e) with
  | Variables => on_dash (λ d, with_var_sel (f (var_sel d)) d) e
  | CallStack => on_dash (λ d, with_stack_sel (f (stack_sel d)) d) e
  | Goroutines => on_dash (λ d, with_gor_sel (f (gor_sel d)) d) e
  | PConsole | PEditor => e
  end.
Definition dash_move (delta : Z) (e : Editor) : Editor :=
  let rows := dash_rows e in
  if rows =? 0 then e else
  let max := (Z.of_nat rows - 1)%Z in
  dash_sel (λ sel, Z.to_nat (Z.max 0 (Z.min (Z.min (Z.of_nat sel) max + delta) max))) e.
Definition dash_move_top (e : Editor) : Editor := dash_sel (λ _, 0) e.
Definition dash_move_bottom (e : Editor) : Editor :=
  let rows := dash_rows e in if rows =? 0 then e else dash_sel (λ _, rows - 1) e.
Definition dash_activate (e : Editor) : Editor :=
  let rows := dash_rows e in
  if rows =? 0 then e else
  let idx sel := sel `min` (rows - 1) in
  match focus (dash e) with
  | CallStack => with_dap_request (Some (SelectFrame (idx (stack_sel (dash e))))) e
  | Goroutines => with_dap_request (Some (SelectGoroutine (idx (gor_sel (dash e))))) e
  | _ => e
  end.
Definition dash_expand (open : bool) (e : Editor) : Editor :=
  match focus (dash e) with
  | Variables =>
      if var_sel (dash e) =? 0 then
        let e := on_dash (with_locals_expanded open) e in
        if negb open then on_dash (with_var_sel 0) e else e
      else
        let i := var_sel (dash e) - 1 in
        let expandable := match debug e with Some dv => match locals dv !! i with Some r => v_expandable r | None => false end | None => false end in
        if expandable then with_dap_request (Some (if open then ExpandVar i else CollapseVar i)) e else e
  | PConsole => on_dash (with_console_tab (if open then 1 else 0)) e
  | _ => e
  end.
Definition dash_nav (k : KeyEvent) (e : Editor) : Editor :=
  if is_key k KauaIn.Tab then cycle_focus e
  else if is_key k KauaIn.KEsc then on_dash (with_focus PEditor) e
  else if is_char k " " then with_mode Menu e
  else if is_char k "j" || is_key k KauaIn.Down then dash_move 1 e
  else if is_char k "k" || is_key k KauaIn.Up then dash_move (-1) e
  else if is_char k "g" then dash_move_top e
  else if is_char k "G" then dash_move_bottom e
  else if is_char k "l" || is_key k KauaIn.Right then dash_expand true e
  else if is_char k "h" || is_key k KauaIn.Left then dash_expand false e
  else if is_key k KauaIn.Enter then dash_activate e
  else e.
Definition debug_hotkey (k : KeyEvent) : option DapRequest :=
  let shift := has_mod k KauaIn.SHIFT in
  if is_key k (KauaIn.F 5) then Some (if shift then Kill else Continue_)
  else if is_key k (KauaIn.F 10) then Some Next
  else if is_key k (KauaIn.F 11) then Some (if shift then StepOut else Step)
  else None.
Definition set_debug_view (view : option DebugView) (e : Editor) : Editor :=
  let e := if bool_decide (view = None) || negb (debugging e) then with_dash dash_new e else e in
  with_debug view e.
Definition follow_debug (base : list Z) (line0 : nat) (e : Editor) : Editor :=
  let e := with_debug_line (Some (base, line0)) e in
  if bool_decide (filename_basename e = Some base) then mv (set_cursor (line0 `min` (line_count (text e) - 1)) 0) e else e.
Definition clear_debug_line (e : Editor) : Editor := with_debug_line None e.
Definition jump_to_open_basename (base : list Z) (line0 col0 : nat) (e : Editor) : outcome (bool * Editor) :=
  let put e := mv (set_cursor (line0 `min` (line_count (text e) - 1)) col0) e in
  if bool_decide (filename_basename e = Some base) then Done (true, put e) else
  match List.find (λ id, negb (id.1 =? active e) && bool_decide (basename <$> b_filename id.2 = Some base)) (imap (λ i d, (i, d)) (bufs e)) with
  | Some (i, _) => e ← switch_to i e; Done (true, put e)
  | None => Done (false, e)
  end.

(** ** Language server *)

Definition show_hover (s : list Z) (e : Editor) : Editor :=
  match trim s with [] => say (lit "no hover information") e | _ => with_hover (Some s) e end.
(** [rposition], as how much of a reversed list is before it. *)
Definition word_prefix_at_cursor (e : Editor) : list Z :=
  let '(row, col) := cursor (text e) in
  let chars := take col (line row (text e)) in
  let start := match position (λ c, negb (is_word_char c)) (reverse chars) with Some i => length chars - i | None => 0 end in
  drop start chars.
Definition show_completion (items : list Candidate) (e : Editor) : Editor :=
  if negb (bool_decide (mode e = Insert_)) then e else
  match items with
  | [] => say (lit "no completions") e
  | _ => with_mode (Completion 0) (with_completion items (with_completion_prefix (word_prefix_at_cursor e) e))
  end.
Definition jump_to (path : option (list Z)) (l c : nat) (e : Editor) : Editor :=
  let elsewhere := match path, filename e with
                   | Some p, Some cur => negb (bool_decide (p = cur))
                   | Some _, None => true
                   | None, _ => false
                   end in
  if elsewhere then with_request (Some (Open_ (default [] path))) (with_pending_jump (Some (l, c)) e)
  else mv (set_cursor l c) e.
Definition close_completion (e : Editor) : Editor := with_mode Insert_ (with_completion_prefix [] (with_completion [] e)).
Definition accept_completion (sel : nat) (e : Editor) : outcome Editor :=
  match completion e !! sel with
  | None => Done (close_completion e)
  | Some c =>
      let prefix_len := length (completion_prefix e) in
      let e := close_completion e in
      if readonly e then Done (say (lit "read-only") e) else
      e ← times prefix_len (on_text backspace) (mv checkpoint e);
      e ← on_text (insert_str (insert_text c)) e;
      Done (with_modified true e)
  end.

(** ** Insert mode *)

Definition typed (f : TextBuffer → outcome TextBuffer) (e : Editor) : outcome Editor :=
  e ← on_text f e; Done (with_modified true e).
Definition insert_single (k : KeyEvent) (e : Editor) : outcome Editor :=
  if KauaIn.is_ctrl k (ch "n") then Done (with_lsp_request (Some Completion_) e) else
  match KauaIn.code k with
  | KauaIn.KEsc => Done (with_mode Normal e)
  | KauaIn.Enter => typed insert_newline e
  | KauaIn.Backspace => typed backspace e
  | KauaIn.Delete => typed delete_char e
  | KauaIn.Left => Done (mv move_left e)
  | KauaIn.Right => Done (mv move_right e)
  | KauaIn.Up => Done (move_up e)
  | KauaIn.Down => Done (move_down e)
  | KauaIn.Home => Done (mv move_home e)
  | KauaIn.End_ => Done (mv move_end e)
  | KauaIn.PageUp => Done (page true e)
  | KauaIn.PageDown => Done (page false e)
  | KauaIn.Tab => typed (insert_str (lit "    ")) e
  | KauaIn.Char c => typed (insert_char c) e
  | _ => Done e
  end.
Definition insert (k : KeyEvent) (e : Editor) : outcome Editor :=
  match carets e with [] => insert_single k e | _ => multi_insert k e end.
Definition completion_key (k : KeyEvent) (e : Editor) : outcome Editor :=
  match mode e with
  | Completion sel =>
      let len := length (completion e) in
      let down := Done (with_mode (Completion ((sel + 1) mod len)) e) in
      let up := Done (with_mode (Completion (if sel =? 0 then len - 1 else sel - 1)) e) in
      if len =? 0 then Done (close_completion e)
      else if KauaIn.is_ctrl k (ch "n") then down
      else if KauaIn.is_ctrl k (ch "p") then up
      else match KauaIn.code k with
           | KauaIn.KEsc => Done (close_completion e)
           | KauaIn.Down => down
           | KauaIn.Up => up
           | KauaIn.Enter | KauaIn.Tab => accept_completion sel e
           | _ => insert k (close_completion e)
           end
  | _ => Done e
  end.

(** ** Commands and search *)

Definition search (pat : list Z) (e : Editor) : outcome Editor :=
  match pat with
  | [] => Done e
  | _ =>
      hit ← find pat (text e);
      Done (match hit with
            | Some (r, c) => mv (set_cursor r c) e
            | None => say (string_fmt_not_found pat) e
            end)
  end.
(** [split_once(char::is_whitespace)]. *)
Fixpoint split_once (s : list Z) : option (list Z * list Z) :=
  match s with
  | [] => None
  | c :: s => if is_whitespace c then Some ([], s) else match split_once s with Some (v, a) => Some (c :: v, a) | None => None end
  end.
Definition save_or_refuse (arg : list Z) (then_ : Editor → Editor) (e : Editor) : Editor :=
  if readonly e then say (lit "read-only") e else then_ (with_request (Some (Save (opt arg))) e).
Definition needs (arg : list Z) (msg : string) (r : list Z → Editor) (e : Editor) : Editor :=
  match arg with [] => say (lit msg) e | _ => r arg end.
Definition run_verb (cmd verb arg : list Z) (e : Editor) : outcome Editor :=
  let v s := bool_decide (verb = lit s) in
  let dap r := with_dap_request (Some r) e in
  if v "w" then Done (save_or_refuse arg id e)
  else if v "wq" then Done (save_or_refuse arg (with_quit true) e)
  else if v "q" then Done (if modified e then say (lit "unsaved changes (:q! to discard)") e else with_quit true e)
  else if v "q!" then Done (with_quit true e)
  else if v "e" then
    Done (needs arg ":e needs a filename" (λ a,
      if modified e then say (lit "unsaved changes (:w first, or :e!)") e else with_request (Some (Open_ a)) e) e)
  else if v "e!" then Done (needs arg ":e! needs a filename" (λ a, with_request (Some (Open_ a)) e) e)
  else if v "bn" then next_buffer e
  else if v "bp" then prev_buffer e
  else if v "bd" then close_buffer false e
  else if v "bd!" then close_buffer true e
  else if v "help" then open_help e
  else if v "debug" then Done (needs arg ":debug needs a program (e.g. :debug /goroot/bin/prog)" (λ a, dap (Launch a)) e)
  else if v "break" || v "br" then Done (needs arg ":break needs a function or file:line" (λ a, dap (Break a)) e)
  else if v "cont" || v "c" then Done (dap Continue_)
  else if v "next" || v "n" then Done (dap Next)
  else if v "step" || v "s" then Done (dap Step)
  else if v "stepout" || v "so" then Done (dap StepOut)
  else if v "bt" || v "stack" then Done (dap Backtrace)
  else if v "print" || v "p" then Done (needs arg ":print needs an expression" (λ a, dap (Print_ a)) e)
  else if v "kill" || v "stop" then Done (dap Kill)
  else Done (say (string_fmt_unknown cmd) e).
(** A [:] line: the command, its verb and its argument. *)
Definition parse_command (buf : list Z) : list Z * list Z * list Z :=
  let cmd := trim (trim_start_matches (λ c, (c =? 58)%Z) buf) in
  match split_once cmd with Some (v, a) => (cmd, v, trim a) | None => (cmd, cmd, []) end.
Definition run_command (buf : list Z) (e : Editor) : outcome Editor :=
  let e := with_mode Normal e in
  match buf with
  | 47%Z :: pat => search pat (with_last_search pat e)
  | _ => let '(cmd, verb, arg) := parse_command buf in run_verb cmd verb arg e
  end.
Definition command (k : KeyEvent) (e : Editor) : outcome Editor :=
  match mode e with
  | Command buf =>
      match KauaIn.code k with
      | KauaIn.KEsc => Done (with_mode Normal e)
      | KauaIn.Backspace => Done (with_mode (match pop buf with [] => Normal | b => Command b end) e)
      | KauaIn.Enter => run_command buf e
      | KauaIn.Char c => Done (with_mode (Command (buf ++ [c])) e)
      | _ => Done e
      end
  | _ => Done e
  end.
Definition COMMANDS : list (list Z * list Z) :=
  (λ c, (lit c.1, lit c.2)) <$>
    [("w", "write the buffer (:w <name> to save-as)");
     ("wq", "write the buffer and quit");
     ("q", "quit (blocked if there are unsaved changes)");
     ("q!", "quit, discarding unsaved changes");
     ("e", "open a file in a new buffer (:e <name>)");
     ("e!", "open a file, discarding unsaved changes");
     ("bn", "next buffer");
     ("bp", "previous buffer");
     ("bd", "close the current buffer");
     ("bd!", "close the buffer, discarding changes");
     ("help", "open the manual in a new buffer");
     ("debug", "start debugging a program (:debug <prog>)");
     ("break", "set a breakpoint (:break <func>)");
     ("cont", "continue the debuggee (:c)");
     ("next", "step over one line (:n)");
     ("step", "step into a call (:s)");
     ("stepout", "step out of the function (:so)");
     ("bt", "show the call stack");
     ("print", "evaluate an expression (:p <expr>)");
     ("kill", "end the debug session")].
(** The names and descriptions listed for a command line. *)
Definition command_completions (e : Editor) : list (list Z * list Z) :=
  match mode e with
  | Command (58%Z :: rest) =>
      let verb := match split_once (trim_start rest) with Some (v, _) => v | None => trim_start rest end in
      List.filter (λ c, starts_with verb c.1) COMMANDS
  | _ => []
  end.
Definition command_buf (e : Editor) : option (list Z) := match mode e with Command s => Some s | _ => None end.

(** ** Menus and pickers *)

Inductive MenuAction :=
  | AFilePicker | ABufferPicker | NextBuffer | PrevBuffer | CloseBuffer | ToggleWrap | ASave | Quit_ | DebugSubmenu
  | ToggleSidebar | ToggleConsole | ToggleZoom | Evaluate.
Record MenuItem := mkItem { m_key : Z; m_label : list Z; m_action : MenuAction }.
Definition MENU : list MenuItem :=
  [mkItem (ch "f") (lit "open file picker") AFilePicker;
   mkItem (ch "b") (lit "open buffer picker") ABufferPicker;
   mkItem (ch "n") (lit "next buffer") NextBuffer;
   mkItem (ch "p") (lit "previous buffer") PrevBuffer;
   mkItem (ch "c") (lit "close buffer") CloseBuffer;
   mkItem (ch "w") (lit "toggle soft-wrap") ToggleWrap;
   mkItem (ch "d") (lit "debug submenu") DebugSubmenu;
   mkItem (ch "s") (lit "save file") ASave;
   mkItem (ch "q") (lit "quit") Quit_].
Definition DEBUG_MENU : list MenuItem :=
  [mkItem (ch "v") (lit "toggle the sidebar") ToggleSidebar;
   mkItem (ch "c") (lit "toggle the console") ToggleConsole;
   mkItem (ch "z") (lit "zoom the focused pane") ToggleZoom;
   mkItem (ch "e") (lit "evaluate an expression") Evaluate].
Definition menu_table (e : Editor) : list MenuItem := if bool_decide (mode e = DebugMenu) then DEBUG_MENU else MENU.
Definition menu_entries (e : Editor) : list (Z * list Z) := (λ m, (m_key m, m_label m)) <$> menu_table e.
Definition menu_title (e : Editor) : list Z := lit (if bool_decide (mode e = DebugMenu) then " <space>d " else " <space> ").
Definition menu_open (e : Editor) : bool := match mode e with Menu | DebugMenu => true | _ => false end.
Definition buffer_picker_sel (e : Editor) : option nat := match mode e with BufferPicker sel => Some sel | _ => None end.
Definition file_picker_state (e : Editor) : option (list Z * nat) := match mode e with FilePicker query sel => Some (query, sel) | _ => None end.
Definition completion_state (e : Editor) : option (list Candidate * nat) := match mode e with Completion sel => Some (completion e, sel) | _ => None end.
Definition run_menu (action : MenuAction) (e : Editor) : outcome Editor :=
  match action with
  | AFilePicker => Done (with_request (Some (ListDir (lit "."))) e)
  | ABufferPicker => Done (with_mode (BufferPicker (active e)) e)
  | NextBuffer => next_buffer e
  | PrevBuffer => prev_buffer e
  | CloseBuffer => close_buffer false e
  | ToggleWrap => let e := toggle_wrap e in Done (say (lit (if wrap e then "soft-wrap: on" else "soft-wrap: off")) e)
  | ASave => Done (if readonly e then say (lit "read-only") e else with_request (Some (Save None)) e)
  | Quit_ => Done (if modified e then say (lit "unsaved changes (:q! to discard)") e else with_quit true e)
  | DebugSubmenu => Done (if debugging e then with_mode DebugMenu e else say (lit "no debug session") e)
  | ToggleSidebar =>
      let e := on_dash (λ d, with_show_sidebar (negb (show_sidebar d)) d) e in
      let stranded := negb (show_sidebar (dash e)) && match focus (dash e) with Variables | CallStack | Goroutines => true | _ => false end in
      let e := if stranded then on_dash (with_focus PEditor) e else e in
      Done (say (on_off (lit "sidebar") (show_sidebar (dash e))) e)
  | ToggleConsole =>
      let e := on_dash (λ d, with_show_console (negb (show_console d)) d) e in
      let stranded := negb (show_console (dash e)) && bool_decide (focus (dash e) = PConsole) in
      let e := if stranded then on_dash (with_focus PEditor) e else e in
      Done (say (on_off (lit "console") (show_console (dash e))) e)
  | ToggleZoom =>
      let e := on_dash (λ d, with_zoom (negb (zoom d)) d) e in
      Done (say (on_off (lit "zoom") (zoom (dash e))) e)
  | Evaluate => Done (with_mode (Command (lit ":print ")) e)
  end.
Definition menu (k : KeyEvent) (e : Editor) : outcome Editor :=
  match KauaIn.code k with
  | KauaIn.KEsc => Done (with_mode Normal e)
  | KauaIn.Char c =>
      if (c =? 32)%Z then Done (with_mode Normal e) else
      let action := m_action <$> List.find (λ m, (m_key m =? c)%Z) (menu_table e) in
      let e := with_mode Normal e in
      match action with Some a => run_menu a e | None => Done e end
  | _ => Done e
  end.
Definition buffer_picker (k : KeyEvent) (e : Editor) : outcome Editor :=
  match mode e with
  | BufferPicker sel =>
      let n := length (bufs e) in
      let pick i := if n =? 0 then Panic else Done (with_mode (BufferPicker (i mod n)) e) in
      if is_key k KauaIn.KEsc then Done (with_mode Normal e)
      else if is_key k KauaIn.Up || is_char k "k" then pick (sel + n - 1)
      else if is_key k KauaIn.Down || is_char k "j" then pick (sel + 1)
      else if is_key k KauaIn.Enter then switch_to sel (with_mode Normal e)
      else Done e
  | _ => Done e
  end.
Definition to_ascii_lowercase (c : Z) : Z := if ((65 <=? c) && (c <=? 90))%Z then (c + 32)%Z else c.
Fixpoint fuzzy_loop (want : Z) (q cs : list Z) : bool :=
  match cs with
  | [] => false
  | cc :: cs =>
      if (cc =? want)%Z then match q with [] => true | c :: q => fuzzy_loop c q cs end
      else fuzzy_loop want q cs
  end.
Definition fuzzy_match (query candidate : list Z) : bool :=
  match to_ascii_lowercase <$> query with
  | [] => true
  | want :: q => fuzzy_loop want q (to_ascii_lowercase <$> candidate)
  end.
Definition file_picker_filtered (e : Editor) : list (list Z) :=
  match mode e with FilePicker q _ => List.filter (fuzzy_match q) (file_entries e) | _ => [] end.
Definition open_file_picker (entries : list (list Z)) (e : Editor) : Editor :=
  with_mode (FilePicker [] 0) (with_file_entries entries e).
Definition file_picker (k : KeyEvent) (e : Editor) : Editor :=
  match mode e with
  | FilePicker query sel =>
      let count := length (file_picker_filtered e) in
      let down := if sel + 1 <? count then sel + 1 else sel in
      let stay q s := with_mode (FilePicker q s) e in
      match KauaIn.code k with
      | KauaIn.KEsc => with_mode Normal e
      | KauaIn.Enter =>
          with_mode Normal (match file_picker_filtered e !! sel with Some name => with_request (Some (Open_ name)) e | None => e end)
      | KauaIn.Up => stay query (sel - 1)
      | KauaIn.Down => stay query down
      | KauaIn.Backspace => stay (pop query) 0
      | KauaIn.Char c =>
          if (c =? ch "p")%Z && has_mod k KauaIn.CTRL then stay query (sel - 1)
          else if (c =? ch "n")%Z && has_mod k KauaIn.CTRL then stay query down
          else stay (query ++ [c]) 0
      | _ => e
      end
  | _ => e
  end.

(** ** Keys *)

Definition resolve_pending (p : Pending) (k : KeyEvent) (e : Editor) : outcome Editor :=
  match p with
  | FindChar kind => Done (match the_char k with Some c => find_char kind c (with_last_find (Some (kind, c)) e) | None => e end)
  | Match_ =>
      if is_char k "m" then match_bracket e
      else if is_char k "i" then Done (with_pending (Some (TextObject false)) e)
      else if is_char k "a" then Done (with_pending (Some (TextObject true)) e)
      else Done e
  | TextObject around => match the_char k with Some c => select_text_object around c e | None => Done e end
  | Goto =>
      Done (if is_char k "g" then mv move_top e
            else if is_char k "e" then mv move_bottom e
            else if is_char k "d" then with_lsp_request (Some Definition_) e
            else e)
  | Bracket forward => Done (if is_char k "d" then goto_diagnostic forward e else e)
  end.
Definition split_prompt (k : KeyEvent) (e : Editor) : outcome Editor :=
  match split_buf e with
  | None => Done e
  | Some buf =>
      let e := with_split_buf None e in
      match KauaIn.code k with
      | KauaIn.KEsc => Done e
      | KauaIn.Enter => run_split buf e
      | KauaIn.Backspace => Done (with_split_buf (Some (pop buf)) e)
      | KauaIn.Char c => Done (with_split_buf (Some (buf ++ [c])) e)
      | _ => Done (with_split_buf (Some buf) e)
      end
  end.
Definition visual (k : KeyEvent) (e : Editor) : outcome Editor :=
  let multi := match carets e with [] => false | _ => true end in
  if is_key k KauaIn.KEsc then Done (with_mode Normal (with_carets [] (with_anchor None e)))
  else if is_char k "s" then Done (with_split_buf (Some []) e)
  else if is_char k "c" && negb (readonly e) then change e
  else if is_char k "," && multi then Done (collapse_carets e)
  else if is_char k "y" then
    e ← (match selection e with Some (lo, hi) => r ← range_text lo hi (text e); Done (with_register r e) | None => Done e end);
    Done (say (lit "yanked") (with_mode Normal (with_anchor None e)))
  else if (is_char k "d" || is_char k "x") && negb (readonly e) then delete e
  else if is_char k "h" || is_key k KauaIn.Left then Done (mv move_left e)
  else if is_char k "j" || is_key k KauaIn.Down then Done (move_down e)
  else if is_char k "k" || is_key k KauaIn.Up then Done (move_up e)
  else if is_char k "l" || is_key k KauaIn.Right then Done (mv move_right e)
  else if is_char k "0" || is_key k KauaIn.Home then Done (mv move_home e)
  else if is_char k "$" || is_key k KauaIn.End_ then Done (mv move_end e)
  else if is_char k "g" then Done (with_pending (Some Goto) e)
  else if is_char k "G" then Done (mv move_bottom e)
  else if is_char k "w" then on_text move_word_forward e
  else if is_char k "W" then on_text move_long_word_forward e
  else if is_char k "e" then on_text move_word_end e
  else if is_char k "b" then on_text move_word_back e
  else if is_key k KauaIn.PageUp then Done (page true e)
  else if is_key k KauaIn.PageDown then Done (page false e)
  else Done e.
Definition COUNT_MAX : Z := 100000.
(** The keys of normal mode once a count is complete: [n] of them, asked for or
    not. *)
Definition normal_key (k : KeyEvent) (explicit : bool) (n : Z) (e : Editor) : outcome Editor :=
  let editable := negb (readonly e) in
  let again f := times (Z.to_nat n) f in
  let wait p := Done (with_pending (Some p) e) in
  if is_char k "i" && editable then Done (with_mode Insert_ (mv checkpoint e))
  else if is_char k "a" && editable then Done (with_mode Insert_ (mv move_right (mv checkpoint e)))
  else if is_char k "o" && editable then
    e ← on_text insert_newline (mv move_end (mv checkpoint e));
    Done (with_modified true (with_mode Insert_ e))
  else if is_char k "A" && editable then Done (with_mode Insert_ (mv move_end (mv checkpoint e)))
  else if is_char k "v" then Done (with_mode Visual (with_anchor (Some (cursor (text e))) e))
  else if is_char k "%" then Done (with_mode Visual (mv move_end (mv move_bottom (with_anchor (Some (0, 0)) e))))
  else if is_char k ":" then Done (with_mode (Command (lit ":")) e)
  else if is_char k "/" then Done (with_mode (Command (lit "/")) e)
  else if is_char k " " then Done (with_mode Menu e)
  else if is_key k KauaIn.Tab && debugging e then Done (cycle_focus e)
  else if is_char k "n" && negb (bool_decide (last_search e = [])) then search (last_search e) e
  else if is_char k "p" && editable then
    match register e with
    | [] => Done e
    | _ =>
        e ← again (λ e, on_text (insert_str (register e)) e) (mv checkpoint e);
        Done (with_modified true e)
    end
  else if is_char k "h" || is_key k KauaIn.Left then again (λ e, Done (mv move_left e)) e
  else if is_char k "j" || is_key k KauaIn.Down then again (λ e, Done (move_down e)) e
  else if is_char k "k" || is_key k KauaIn.Up then again (λ e, Done (move_up e)) e
  else if is_char k "l" || is_key k KauaIn.Right then again (λ e, Done (mv move_right e)) e
  else if is_char k "0" || is_key k KauaIn.Home then Done (mv move_home e)
  else if is_char k "$" || is_key k KauaIn.End_ then Done (mv move_end e)
  else if is_char k "g" && explicit then Done (goto_line n e)
  else if is_char k "G" && explicit then Done (goto_line n e)
  else if is_char k "g" then wait Goto
  else if is_char k "G" then Done (mv move_bottom e)
  else if is_char k "]" then wait (Bracket true)
  else if is_char k "[" then wait (Bracket false)
  else if is_char k "K" then Done (with_lsp_request (Some Hover) e)
  else if is_char k "w" then again (on_text move_word_forward) e
  else if is_char k "W" then again (on_text move_long_word_forward) e
  else if is_char k "e" then again (on_text move_word_end) e
  else if is_char k "b" then again (on_text move_word_back) e
  else if is_char k "f" then wait (FindChar Forward)
  else if is_char k "F" then wait (FindChar Backward)
  else if is_char k "t" then wait (FindChar ForwardTill)
  else if is_char k "T" then wait (FindChar BackwardTill)
  else if is_char k "m" then wait Match_
  else if is_char k ";" then Done (repeat_find false e)
  else if is_char k "," then Done (repeat_find true e)
  else if is_key k KauaIn.PageUp then Done (page true e)
  else if is_key k KauaIn.PageDown then Done (page false e)
  else if is_char k "x" && editable then
    e ← again (on_text delete_char) (mv checkpoint e); Done (with_modified true e)
  else if is_char k "d" && editable then
    e ← again (on_text delete_line) (mv checkpoint e); Done (with_modified true e)
  else if is_char k "u" && editable then
    '(ok, t) ← undo_ (text e);
    let e := with_text t e in
    Done (if (ok : bool) then with_modified true e else say (lit "already at oldest change") e)
  else if (is_char k "q" || is_key k KauaIn.KEsc) && readonly e then
    if 1 <? length (bufs e) then close_buffer true e else Done (with_quit true e)
  else Done e.
(** A digit of a count. *)
Definition count_digit (k : KeyEvent) (e : Editor) : option Z :=
  match the_char k with
  | Some c =>
      if Digits.is_ascii_digit c && (negb (c =? 48)%Z || bool_decide (is_Some (count e)))
      then Some (Z.min (sat_add 64 (sat_mul 64 (default 0%Z (count e)) 10) (c - 48)) COUNT_MAX) else None
  | None => None
  end.
Definition normal (k : KeyEvent) (e : Editor) : outcome Editor :=
  let hot := if debugging e then debug_hotkey k else None in
  match hot with
  | Some req => Done (with_dap_request (Some req) e)
  | None =>
      if debugging e && negb (bool_decide (focus (dash e) = PEditor)) then Done (dash_nav k e) else
      let multi := match carets e with [] => false | _ => true end in
      let e := if multi then collapse_carets e else e in
      if multi && is_char k "," then Done e else
      match count_digit k e with
      | Some acc => Done (say (itoa acc) (with_count (Some acc) e))
      | None =>
          normal_key k (bool_decide (is_Some (count e))) (default 1%Z (count e)) (with_count None e)
      end
  end.
Definition handle_key (k : KeyEvent) (e : Editor) : outcome Editor :=
  let e := with_hover None (with_status None e) in
  if bool_decide (is_Some (split_buf e)) then split_prompt k e else
  match pending e with
  | Some p => resolve_pending p k (with_pending None e)
  | None =>
      match mode e with
      | Normal => normal k e
      | Insert_ => insert k e
      | Visual => visual k e
      | Command _ => command k e
      | Menu | DebugMenu => menu k e
      | BufferPicker _ => buffer_picker k e
      | FilePicker _ _ => Done (file_picker k e)
      | Completion _ => completion_key k e
      end
  end.

(** ** File requests (main.rs)

    What the files and [gofmt] answer is a parameter. *)

Inductive FmtOutcome := Formatted (s : list Z) | Rejected (msg : list Z) | Unavailable.
Inductive ReadOutcome := ReadOk (s : list Z) | NotFound | ReadErr (msg : list Z).
Class Files := {
  gofmt_source : list Z → FmtOutcome;
  write_file : list Z → list Z → result (list Z) nat;
  file_exists : list Z → bool;
  read_file : list Z → ReadOutcome;
  list_dir_files : list Z → result (list Z) (list (list Z))
}.
Definition ends_with (suffix s : list Z) : bool := bool_decide (drop (length s - length suffix) s = suffix).
Definition handle_request `{!Files} (req : Request) (e : Editor) : outcome Editor :=
  match req with
  | Save name =>
      match (match name with Some p => Some p | None => filename e end) with
      | None => Done (say (lit "no file name (use :w <name>)") e)
      | Some p =>
          let bytes := content (text e) in
          '(bytes, note, e) ← (if ends_with (lit ".go") p then
              match gofmt_source bytes with
              | Formatted s =>
                  if bool_decide (s = bytes) then Done (bytes, None, e)
                  else e ← on_text (replace_content s) e; Done (s, None, e)
              | Rejected msg => Done (bytes, Some msg, e)
              | Unavailable => Done (bytes, None, e)
              end else Done (bytes, None, e));
          Done (match write_file p bytes with
                | Ok n =>
                    let e := mark_saved p n e in
                    match note with Some msg => say (lit "saved unformatted; gofmt: " ++ msg) e | None => e end
                | Err msg => say (p ++ lit ": " ++ msg) e
                end)
      end
  | Open_ p =>
      if negb (file_exists p) then open_buffer (Some p) [] e else
      match read_file p with
      | ReadOk s => open_buffer (Some p) s e
      | NotFound => open_buffer (Some p) [] e
      | ReadErr msg => Done (say (p ++ lit ": " ++ msg) e)
      end
  | ListDir dir =>
      Done (match list_dir_files dir with
            | Ok names => open_file_picker names e
            | Err msg => say (dir ++ lit ": " ++ msg) e
            end)
  end.
(** A key of a burst: handled, and its request carried out. *)
Definition dispatch_key `{!Files} (k : KeyEvent) (e : Editor) : outcome Editor :=
  e ← handle_key k e;
  match request e with
  | Some req => handle_request req (with_request None e)
  | None => Done e
  end.

End Keys.
End NoraEdit.
