(* ===== verification/NoraMulti.v ===== *)
(** * The editor: several cursors, replacement, brackets and text objects

    NoraMulti: the matches of a pattern cut each line at the same word; a key at every
    cursor changes that word wherever it stands.  NoraReplace: [%], [s], a pattern and
    Enter, [c], the new text and Esc, key by key.  NoraObjects: what the bracket scans
    find is in the document; the match of a match is where one was. *)

From S2P Require Import Prelude Digits Vt Kaua KauaIn NoraText NoraDiag NoraEdit NoraSpec NoraOps.
From stdpp Require Import strings.
Import NoraText NoraFlat NoraSpec NoraRefine NoraOps NoraFind NoraEdit.

Module NoraMulti.

(** ** Lines cut at a word *)

(** The text before the first occurrence, and after each. *)
Notation Cut := (list Z * list (list Z))%type.
Definition tail_of (w : list Z) (gs : list (list Z)) : list Z := concat ((λ g, w ++ g) <$> gs).
Definition row_text (w : list Z) (x : Cut) : list Z := x.1 ++ tail_of w x.2.
(** The columns of a word of [n] characters, the first at [base]. *)
Fixpoint cols (n base : nat) (gs : list (list Z)) : list nat :=
  match gs with [] => [] | g :: gs => base :: cols n (base + n + length g) gs end.
Fixpoint sites (n r : nat) (xs : list Cut) : list Pos :=
  match xs with [] => [] | x :: xs => ((λ c, (r, c)) <$> cols n (length x.1) x.2) ++ sites n (S r) xs end.
Notation sels mk ps := ((λ p : Pos, mk p.1 p.2) <$> ps).

Lemma cols_shift n m k gs base : (λ c, c - n + m) <$> cols k (base + n) gs = cols k (base + m) gs.
Proof.
  revert base. induction gs as [|g gs IH]; intros base; [done|]. cbn [cols fmap list_fmap]. f_equal; [lia|].
  replace (base + n + k + length g) with (base + k + length g + n) by lia. rewrite IH. f_equal. lia.
Qed.
Lemma cols_ge n base gs : Forall (λ c, base ≤ c) (cols n base gs).
Proof.
  revert base. induction gs as [|g gs IH]; intros base; constructor; [done|]. eapply Forall_impl; [apply IH|]. intros c Hc; cbn in Hc; lia.
Qed.
Lemma sites_below n r xs : Forall (λ p : Pos, r ≤ p.1) (sites n r xs).
Proof.
  revert r. induction xs as [|x xs IH]; intros r; [constructor|]. cbn [sites]. apply Forall_app; split.
  - apply Forall_fmap, Forall_true. intros c. cbn. lia.
  - eapply Forall_impl; [apply IH|]. intros p Hp; cbn in Hp; lia.
Qed.
Lemma length_cols n base gs : length (cols n base gs) = length gs.
Proof. revert base. induction gs as [|g gs IH]; intros base; [done|]. cbn. by rewrite IH. Qed.
Lemma sites_length n m xs : ∀ r s, length (sites n r xs) = length (sites m s xs).
Proof. induction xs as [|x xs IH]; intros r s; [done|]. cbn [sites]. rewrite !length_app, !length_fmap, !length_cols. f_equal. apply IH. Qed.

(** ** A key at every cursor *)

Section Turn.
(** The word becomes [v] where it was [u], and its cursor [mk_v] where it was
    [mk_u]; [step] is a turn of the loop. *)
Context (u v : list Z) (mk_u mk_v : nat → nat → Sel) (step : list Sel * TextBuffer → nat → outcome (list Sel * TextBuffer)).
Hypothesis Hstep : ∀ t above d x below A rest ps,
  wf t → (rev t + 2 ≤ u_max 64)%Z → lines t = above ++ (d ++ u ++ x) :: below →
  Forall (λ c, length d + length u ≤ c) rest → Forall (λ p : Pos, length above < p.1) ps →
  let r := length above in
  ∃ t', step (A ++ mk_u r (length d) :: (mk_u r <$> rest) ++ sels mk_u ps, t) (length A) =
      Done (A ++ mk_v r (length d) :: ((λ c, mk_u r (c - length u + length v)) <$> rest) ++ sels mk_u ps, t') ∧
    wf t' ∧ lines t' = above ++ (d ++ v ++ x) :: below ∧ (rev t' ≤ rev t + 2)%Z ∧ history (doc t') = history (doc t).

(** Along a line, and down the document. *)
Lemma row_turn above below ps : Forall (λ p : Pos, length above < p.1) ps → ∀ gs d A t,
  wf t → (rev t + 2 * zlen gs ≤ u_max 64)%Z → lines t = above ++ (d ++ tail_of u gs) :: below → let r := length above in
  ∃ t', foldM step (A ++ (mk_u r <$> cols (length u) (length d) gs) ++ sels mk_u ps, t) (seq (length A) (length gs)) =
      Done (A ++ (mk_v r <$> cols (length v) (length d) gs) ++ sels mk_u ps, t') ∧
    wf t' ∧ lines t' = above ++ (d ++ tail_of v gs) :: below ∧ (rev t' ≤ rev t + 2 * zlen gs)%Z ∧ history (doc t') = history (doc t).
Proof.
  intros Hps. induction gs as [|g gs IH]; intros d A t W Hr El r; [exists t; cbn in *; split_and!; auto with lia|].
  cbn [length] in Hr. destruct (Hstep t above d (g ++ tail_of u gs) below A (cols (length u) (length d + length u + length g) gs) ps) as (t1 & E1 & W1 & L1 & R1 & Y1); [done|lia| |..|done|].
  { rewrite El. unfold tail_of. cbn. by rewrite <-app_assoc. }
  { eapply Forall_impl; [apply cols_ge|]. intros c Hc; cbn in Hc; lia. }
  destruct (IH (d ++ v ++ g) (A ++ [mk_v r (length d)]) t1) as (t2 & E2 & W2 & L2 & R2 & Y2); [done|lia|rewrite L1; by rewrite <-!app_assoc|].
  exists t2. split; [|split; [done|split; [rewrite L2; unfold tail_of; cbn; by rewrite <-!app_assoc|split; [cbn [length]; lia|congruence]]]].
  cbn [cols fmap list_fmap seq length foldM]. cbn [app] in E1 |- *. unfold r in *. rewrite E1, bind_done.
  assert ((λ c, mk_u (length above) (c - length u + length v)) <$> cols (length u) (length d + length u + length g) gs =
    mk_u (length above) <$> cols (length u) (length (d ++ v ++ g)) gs) as ->.
  { trans (mk_u (length above) <$> ((λ c, c - length u + length v) <$> cols (length u) (length d + length u + length g) gs)); [by rewrite <-list_fmap_compose|]. f_equal. replace (length d + length u + length g) with (length d + length g + length u) by lia.
    rewrite cols_shift. f_equal. rewrite !length_app. lia. }
  rewrite cons_middle, app_assoc. replace (S (length A)) with (length (A ++ [mk_v (length above) (length d)])) by (rewrite length_app; cbn; lia).
  rewrite E2. f_equal. f_equal. rewrite <-!app_assoc. cbn [app]. rewrite !length_app. do 3 f_equal. f_equal. f_equal. lia.
Qed.
Lemma doc_turn xs : ∀ above A t, wf t → (rev t + 2 * zlen (sites 0 0 xs) ≤ u_max 64)%Z → lines t = above ++ (row_text u <$> xs) → let r := length above in
  ∃ t', foldM step (A ++ sels mk_u (sites (length u) r xs), t) (seq (length A) (length (sites 0 0 xs))) = Done (A ++ sels mk_v (sites (length v) r xs), t') ∧
    wf t' ∧ lines t' = above ++ (row_text v <$> xs) ∧ (rev t' ≤ rev t + 2 * zlen (sites 0 0 xs))%Z ∧ history (doc t') = history (doc t).
Proof.
  induction xs as [|x xs IH]; intros above A t W Hr El r; [exists t; cbn in *; split_and!; auto with lia|].
  cbn [sites] in Hr |- *. rewrite length_app, length_fmap, length_cols in Hr |- *. rewrite (sites_length 0 0 xs 1 0) in Hr |- *.
  destruct (row_turn above (row_text u <$> xs) (sites (length u) (S r) xs)) with (gs := x.2) (d := x.1) (A := A) (t := t) as (t1 & E1 & W1 & L1 & R1 & Y1); [|done|lia|by rewrite El|].
  { eapply Forall_impl; [apply sites_below|]. unfold r. intros p Hp; cbn in Hp; lia. }
  destruct (IH (above ++ [row_text v x]) (A ++ (mk_v r <$> cols (length v) (length x.1) x.2)) t1) as (t2 & E2 & W2 & L2 & R2 & Y2); [done|lia|rewrite L1; by rewrite <-app_assoc|].
  exists t2. split; [|split; [done|split; [rewrite L2; by rewrite <-app_assoc|split; [lia|congruence]]]].
  rewrite seq_app, foldM_app, !fmap_app. rewrite <-!list_fmap_compose.
  change ((λ p : Pos, mk_u p.1 p.2) ∘ (λ c, (r, c))) with (mk_u r). change ((λ p : Pos, mk_v p.1 p.2) ∘ (λ c, (r, c))) with (mk_v r).
  fold r in E1. rewrite E1, bind_done. rewrite length_app in E2. cbn [length] in E2. rewrite Nat.add_1_r in E2. fold r in E2.
  rewrite app_assoc. rewrite length_app, length_fmap, length_cols in E2. rewrite E2. by rewrite app_assoc.
Qed.
End Turn.

(** ** The matches of a pattern *)

(** A line cut at the leftmost matches that do not overlap. *)
Fixpoint cut_line (fuel : nat) (pat l : list Z) : Cut :=
  match fuel with
  | O => (l, [])
  | S fuel =>
      match find_sub pat l with
      | None => (l, [])
      | Some i => let '(g, gs) := cut_line fuel pat (drop (i + length pat) l) in (take i l, g :: gs)
      end
  end.
Definition cuts (pat : list Z) (ls : list (list Z)) : list Cut := (λ l, cut_line (S (length l)) pat l) <$> ls.
(** What replacing them gives. *)
Fixpoint replaced (fuel : nat) (pat s l : list Z) : list Z :=
  match fuel with
  | O => l
  | S fuel =>
      match find_sub pat l with
      | None => l
      | Some i => take i l ++ s ++ replaced fuel pat s (drop (i + length pat) l)
      end
  end.
Lemma replaced_cut fuel pat s l : row_text s (cut_line fuel pat l) = replaced fuel pat s l.
Proof.
  revert l. induction fuel as [|fuel IH]; intros l; cbn [cut_line replaced]; [by unfold row_text; cbn; rewrite app_nil_r|].
  destruct (find_sub pat l) as [i|]; [|by unfold row_text; cbn; rewrite app_nil_r]. rewrite <-IH. destruct (cut_line fuel pat _) as [g gs].
  unfold row_text, tail_of. cbn. by rewrite <-app_assoc.
Qed.
Lemma find_split pat l i : find_sub pat l = Some i → l = take i l ++ pat ++ drop (i + length pat) l ∧ i + length pat ≤ length l.
Proof.
  intros E. pose proof (find_sub_spec pat l) as Hf. rewrite E in Hf. destruct Hf as (Hi & Hs & _). apply starts_app in Hs as [r Er].
  assert (drop (i + length pat) l = r) as Ed by (rewrite <-drop_drop, Er; apply drop_app_length). apply (f_equal length) in Er as El. rewrite length_drop, length_app in El.
  rewrite Ed, <-Er, take_drop. split; [done|lia].
Qed.
Lemma cut_line_text fuel pat l : row_text pat (cut_line fuel pat l) = l.
Proof.
  rewrite replaced_cut. revert l. induction fuel as [|fuel IH]; intros l; cbn; [done|]. destruct (find_sub pat l) as [i|] eqn:E; [|done].
  rewrite IH. by apply find_split in E as [<- _].
Qed.
(** Every match is a place, and a place takes a character at least. *)
Lemma sites_some pat n ls : Exists (λ l, find_sub pat l ≠ None) ls → ∀ r, sites n r (cuts pat ls) ≠ [].
Proof.
  induction 1 as [l ls Hl|l ls _ IH]; intros r; cbn [cuts fmap list_fmap sites cut_line].
  - destruct (find_sub pat l); [|done]. by destruct (cut_line (length l) pat _) as [g gs].
  - intros [_ E]%app_eq_nil. by apply (IH (S r)).
Qed.
Lemma tail_length pat gs : pat ≠ [] → length gs ≤ length (tail_of pat gs).
Proof.
  intros Hp. induction gs as [|g gs IH]; [done|]. unfold tail_of in *. cbn. rewrite !length_app. destruct pat; [done|]. cbn in *. lia.
Qed.
Lemma sites_room pat ls n r : pat ≠ [] → length (sites n r (cuts pat ls)) ≤ length (join_nl ls).
Proof.
  intros Hp. assert (∀ l, length (cut_line (S (length l)) pat l).2 ≤ length l) as Hl.
  { intros l. rewrite <-(cut_line_text (S (length l)) pat l) at 3. unfold row_text. rewrite length_app. pose proof (tail_length pat (cut_line (S (length l)) pat l).2 Hp). lia. }
  destruct ls as [|l ls]; [cbn; lia|]. rewrite join_cons, length_app. assert (∀ ls r, length (sites n r (cuts pat ls)) ≤ length (trail ls)) as Ht.
  { clear r. induction ls0 as [|m ls0 IH]; intros r; [cbn; lia|]. change (trail (m :: ls0)) with (NL :: m ++ trail ls0). change (cuts pat (m :: ls0)) with (cut_line (S (length m)) pat m :: cuts pat ls0). cbn [sites length]. rewrite !length_app, length_fmap, length_cols. specialize (IH (S r)). specialize (Hl m). lia. }
  change (cuts pat (l :: ls)) with (cut_line (S (length l)) pat l :: cuts pat ls). cbn [sites]. rewrite length_app, length_fmap, length_cols. specialize (Ht ls (S r)). specialize (Hl l). lia.
Qed.
Lemma cuts_lines pat ls : row_text pat <$> cuts pat ls = ls.
Proof. unfold cuts. rewrite <-list_fmap_compose. rewrite <-(list_fmap_id ls) at 2. apply list_fmap_ext. intros i l _. apply cut_line_text. Qed.
Lemma row_text_app s g gs : row_text s (g, gs) = g ++ tail_of s gs.
Proof. done. Qed.
Lemma matches_at pat : pat ≠ [] → ∀ fuel s p, length s < fuel → let x := cut_line fuel pat s in
  match_indices fuel (str_len p) pat s = Done ((λ c, str_len (take c (p ++ s))) <$> cols (length pat) (length p + length x.1) x.2).
Proof.
  intros Hp. induction fuel as [|fuel IH]; intros s p Hf; [lia|]. cbn [cut_line]. cbn [match_indices]. destruct (find_sub pat s) as [i|] eqn:E; [|done].
  apply find_split in E as [Es Hi]. set (d := drop (i + length pat) s) in *. assert (length pat > 0) by (destruct pat; [done|cbn; lia]).
  assert (length d < fuel) as Hd by (unfold d; rewrite length_drop; lia). specialize (IH d (p ++ take i s ++ pat) Hd). cbv zeta in IH. destruct (cut_line fuel pat d) as [g gs]. cbn [fst snd cols] in *.
  replace (str_len p + str_len (take i s) + str_len pat) with (str_len (p ++ take i s ++ pat)) by (rewrite !str_len_app; lia). rewrite IH, bind_done. assert (length (take i s) = i) as Li by (rewrite length_take; lia). cbn [fmap list_fmap]. f_equal. f_equal.
  - rewrite Li, take_app_add, str_len_app. done.
  - rewrite !length_app. rewrite <-!app_assoc. rewrite <-Es. rewrite Li. f_equal. f_equal. lia.
Qed.
Lemma mapM_on {A B C} (f : B → outcome C) (h : A → B) (g : A → C) l : (∀ a, a ∈ l → f (h a) = Done (g a)) → mapM_o f (h <$> l) = Done (g <$> l).
Proof.
  induction l as [|a l IH]; intros H; [done|]. cbn. rewrite H by left. rewrite bind_done, IH; [done|]. intros b Hb. apply H. by right.
Qed.
Lemma line_matches pat r l : pat ≠ [] → let x := cut_line (S (length l)) pat l in
  find_line_matches pat (r, l) = Done ((λ c, ((r, c), (r, c + length pat - 1))) <$> cols (length pat) (length x.1) x.2).
Proof.
  intros Hp x. unfold find_line_matches. pose proof (matches_at pat Hp (S (length l)) l [] ltac:(lia)) as Hm. cbn [app length str_len] in Hm. rewrite Hm, bind_done. fold x.
  assert (Forall (λ c, c ≤ length l) (cols (length pat) (length x.1) x.2)) as Hc.
  { assert (∀ gs (d : list Z), Forall (λ c, c ≤ length d + length (tail_of pat gs)) (cols (length pat) (length d) gs)) as Hg.
    { induction gs as [|g gs IH]; intros d; constructor; [lia|]. specialize (IH (d ++ pat ++ g)). rewrite !length_app in IH. unfold tail_of in *. cbn. rewrite !length_app, Nat.add_assoc in *.
      eapply Forall_impl; [exact IH|]. intros c Hc; cbn in Hc; lia. }
    specialize (Hg x.2 x.1). rewrite <-length_app in Hg. change (x.1 ++ tail_of pat x.2) with (row_text pat x) in Hg. unfold x in Hg at 1. by rewrite cut_line_text in Hg. }
  apply mapM_on. intros c Hin. rewrite Forall_forall in Hc. specialize (Hc c Hin). cbn in Hc. rewrite <-byte_of_eq, col_of_byte, Nat.min_l by done. done.
Qed.
Lemma find_all_sites pat t : pat ≠ [] → find_all pat t = Done ((λ p : Pos, (p, (p.1, p.2 + length pat - 1))) <$> sites (length pat) 0 (cuts pat (lines t))).
Proof.
  intros Hp. unfold find_all. replace (match pat with [] => _ | _ => _ end) with (ms ← mapM_o (find_line_matches pat) (imap (λ r l, (r, l)) (lines t)); Done (concat ms)) by by destruct pat.
  assert (∀ ls r, ∃ ms, mapM_o (find_line_matches pat) (imap (λ i l, (r + i, l)) ls) = Done ms ∧
    concat ms = (λ p : Pos, (p, (p.1, p.2 + length pat - 1))) <$> sites (length pat) r (cuts pat ls)) as Hm.
  { induction ls as [|l ls IH]; intros r; [by exists []|]. destruct (IH (S r)) as (ms & E & Ec). cbn [imap mapM_o]. rewrite line_matches by done. rewrite bind_done.
    replace (imap ((λ i l, (r + i, l)) ∘ S) ls) with (imap (λ i l, (S r + i, l)) ls) by (apply imap_ext; intros i x _; cbn; f_equal; lia).
    rewrite E, bind_done. eexists. split; [reflexivity|]. cbn [concat cuts fmap list_fmap sites]. rewrite fmap_app, Ec, Nat.add_0_r, <-list_fmap_compose. done. }
  destruct (Hm (lines t) 0) as (ms & E & Ec). cbn [Nat.add] in E. by rewrite E, bind_done, Ec.
Qed.

(** ** The turns: a selection deleted, a character typed *)

(** No word motion is made here, and any table will do. *)
#[local] Instance any_table : Unicode := {| is_alphanumeric _ := true |}.

Lemma lines_from t ls : wf t → ls ≠ [] → Forall plain ls → (here (doc t)).1 ++ (here (doc t)).2 = join_nl ls → lines t = ls.
Proof. intros W Hne Hp E. rewrite <-(doc_lines t W), E. by apply split_join. Qed.
Lemma at_site t above w x below : wf t → lines t = above ++ (w ++ x) :: below →
  Forall plain above ∧ plain w ∧ plain x ∧ Forall plain below ∧ cut (lines t) (length above, length w) above w x below.
Proof.
  intros W El. pose proof (wf_plain t W) as P. rewrite El in P. apply Forall_app in P as [P1 [P2 P3]%Forall_cons]. apply Forall_app in P2 as [P2 P2'].
  by split_and!.
Qed.
Lemma plain_line above l below : Forall plain above → plain l → Forall plain below → Forall plain (above ++ l :: below) ∧ above ++ l :: below ≠ [].
Proof. intros. split; [apply Forall_app; split; [done|by constructor]|by destruct above]. Qed.

Definition sel_word (n : nat) (r c : nat) : Sel := mkSel (r, c) (r, c + n - 1).
Definition caret_after (n : nat) (r c : nat) : Sel := mkSel (r, c + n) (r, c + n).

Lemma delete_range_site t above d w x below : wf t → (rev t + 2 ≤ u_max 64)%Z → w ≠ [] → lines t = above ++ (d ++ w ++ x) :: below →
  ∃ t', delete_range (length above, length d) (length above, length d + length w - 1) t = Done t' ∧ wf t' ∧
    lines t' = above ++ (d ++ x) :: below ∧ (rev t' ≤ rev t + 2)%Z ∧ history (doc t') = history (doc t).
Proof.
  intros W Hr Hw El. destruct (at_site t above d (w ++ x) below W El) as (P1 & P2 & [P3 P4]%Forall_app & P5 & C). set (lo := (length above, length d)) in *. set (hi := (length above, length d + length w - 1)).
  assert (0 < length w) as Hl by (destruct w; [done|cbn; lia]).
  assert (valid (lines t) lo ∧ valid (lines t) hi) as [Vl Vh].
  { split; exists (d ++ w ++ x); (split; [exact (NoraFlat.cut_line C)|]); rewrite !length_app; unfold lo, hi; cbn; lia. }
  destruct (delete_range_does lo hi t W Vl Vh) as (t' & E & W' & D & R & _); [lia|]. exists t'. split; [exact E|]. split; [done|]. split; [|split; [cbn in R; lia|by rewrite D]].
  apply lines_from; [done|apply plain_line; by try apply Forall_app|apply plain_line; by try apply Forall_app|]. rewrite D. cbn [spec_op here text_op].
  destruct (range_cuts t lo hi W Vl Vh) as (lo' & hi' & l & l' & i & j & Eo & Hl1 & Hl2 & _ & _ & _ & _ & Er & Hij & Ti & Dj).
  unfold without_range. rewrite here_at. unfold at_. cbn [fst snd]. rewrite take_drop, Er, Nat.max_r by lia. cbn [fst snd]. rewrite Ti, Dj.
  assert (order lo hi = (lo, hi)) as Eo'. { unfold order, pos_leb, lo, hi. cbn [fst snd]. rewrite Nat.ltb_irrefl, Nat.eqb_refl, (proj2 (Nat.leb_le _ _)) by lia. done. }
  rewrite Eo' in Eo. injection Eo as <- <-. pose proof (NoraFlat.cut_line C) as Hcl. change hi.1 with lo.1 in Hl2. rewrite Hcl in Hl1, Hl2. injection Hl1 as <-. injection Hl2 as <-.
  unfold lo, hi. cbn [fst snd]. rewrite El, join_at. rewrite take_app_length, take_app_length. replace (length d + length w - 1 + 1) with (length (d ++ w)) by (rewrite length_app; lia).
  rewrite !(app_assoc d w x), drop_app_length. replace (S (length above)) with (length (above ++ [(d ++ w) ++ x])) by (rewrite length_app; cbn; lia).
  replace (above ++ ((d ++ w) ++ x) :: below) with ((above ++ [(d ++ w) ++ x]) ++ below) by by rewrite <-app_assoc. rewrite drop_app_length. by rewrite <-!app_assoc.
Qed.
Lemma shift_same r c lo n : lo + n ≤ c → 0 < n → shift_after_delete (r, c) (r, lo) (r, lo + n - 1) = Done (r, c - n).
Proof.
  intros Hc Hn. unfold shift_after_delete, nsub. cbn [fst snd]. rewrite Nat.eqb_refl, (proj2 (Nat.ltb_lt _ _)) by lia. cbn [andb].
  rewrite (proj2 (Nat.leb_le lo _)) by lia. rewrite bind_done, (proj2 (Nat.leb_le _ c)) by lia. rewrite bind_done. do 2 f_equal. lia.
Qed.
Lemma shift_other p lo hi : p.1 ≠ lo.1 → shift_after_delete p lo hi = Done p.
Proof. intros H. unfold shift_after_delete. by rewrite (proj2 (Nat.eqb_neq _ _) H). Qed.
Lemma mapM_app {A B} (f : A → outcome B) l1 l2 a b : mapM_o f l1 = Done a → mapM_o f l2 = Done b → mapM_o f (l1 ++ l2) = Done (a ++ b).
Proof.
  revert a. induction l1 as [|x l1 IH]; intros a; cbn; [by intros [= <-]|]. destruct (f x) as [y| |]; cbn; [|done..]. destruct (mapM_o f l1) as [ys| |]; cbn; [|done..].
  intros [= <-] E. by rewrite (IH ys), bind_done.
Qed.
Lemma range_word n r c : 0 < n → range (sel_word n r c) = ((r, c), (r, c + n - 1)).
Proof.
  intros Hn. unfold range, sel_word, pos_leb. cbn [s_anchor s_head fst snd]. by rewrite Nat.ltb_irrefl, Nat.eqb_refl, (proj2 (Nat.leb_le _ _)) by lia.
Qed.
Lemma delete_turn u t above d x below A rest ps : u ≠ [] →
  wf t → (rev t + 2 ≤ u_max 64)%Z → lines t = above ++ (d ++ u ++ x) :: below →
  Forall (λ c, length d + length u ≤ c) rest → Forall (λ p : Pos, length above < p.1) ps →
  let r := length above in
  ∃ t', delete_caret (A ++ sel_word (length u) r (length d) :: (sel_word (length u) r <$> rest) ++ sels (sel_word (length u)) ps, t) (length A) =
      Done (A ++ caret_after 0 r (length d) :: ((λ c, sel_word (length u) r (c - length u + 0)) <$> rest) ++ sels (sel_word (length u)) ps, t') ∧
    wf t' ∧ lines t' = above ++ (d ++ [] ++ x) :: below ∧ (rev t' ≤ rev t + 2)%Z ∧ history (doc t') = history (doc t).
Proof.
  intros Hu W Hr El Hrest Hps r. destruct (delete_range_site t above d u x below W Hr Hu El) as (t' & E & W' & L' & R' & Y'). exists t'. split; [|done].
  assert (0 < length u) as Hn by (destruct u; [done|cbn; lia]). unfold delete_caret. rewrite list_lookup_middle by done. cbn [unwrap]. rewrite bind_done.
  rewrite range_word by done. cbv beta iota.
  unfold r. rewrite E, bind_done. rewrite take_app_length, drop_past. erewrite mapM_app; [rewrite bind_done; unfold caret_after; rewrite Nat.add_0_r; reflexivity| |].
  - apply mapM_on. intros c Hc. rewrite Forall_forall in Hrest. specialize (Hrest c Hc). cbn in Hrest. unfold shift_sel, sel_word. cbn [s_head s_anchor].
    rewrite !shift_same by lia. rewrite !bind_done. do 2 f_equal; f_equal; lia.
  - rewrite <-(list_fmap_id (sels _ ps)). apply mapM_on. intros c (p & -> & Hp)%list_elem_of_fmap. rewrite Forall_forall in Hps. specialize (Hps p Hp). cbn in Hps. unfold shift_sel, sel_word. cbn [s_head s_anchor].
    rewrite !shift_other by (cbn; lia). done.
Qed.
Lemma insert_turn u c t above d x below A rest ps : c ≠ NL →
  wf t → (rev t + 2 ≤ u_max 64)%Z → lines t = above ++ (d ++ u ++ x) :: below →
  Forall (λ c, length d + length u ≤ c) rest → Forall (λ p : Pos, length above < p.1) ps →
  let r := length above in let v := u ++ [c] in
  ∃ t', apply_caret (MChar c) (A ++ caret_after (length u) r (length d) :: (caret_after (length u) r <$> rest) ++ sels (caret_after (length u)) ps, t) (length A) =
      Done (A ++ caret_after (length v) r (length d) :: ((λ c, caret_after (length u) r (c - length u + length v)) <$> rest) ++ sels (caret_after (length u)) ps, t') ∧
    wf t' ∧ lines t' = above ++ (d ++ v ++ x) :: below ∧ (rev t' ≤ rev t + 2)%Z ∧ history (doc t') = history (doc t).
Proof.
  intros Hc W Hr El Hrest Hps r v. rewrite app_assoc in El. destruct (at_site t above (d ++ u) x below W El) as (P1 & P2 & P3 & P4 & C). rewrite length_app in C.
  assert (valid (lines t) (length above, length d + length u)) as Vp by (apply valid_cut; eauto).
  pose proof (set_cursor_valid t _ Vp) as Es. cbn [fst snd] in Es. set (t0 := set_pos (length above, length d + length u) t) in *.
  assert (wf t0) as W0 by (destruct W as [W1 W2 W3]; by split).
  destruct (insert_does c t0 W0) as (t' & E & W' & D & R & _); [done|]. cbn [run_op] in E. exists t'.
  assert (here (doc t') = (lead above ++ (d ++ u) ++ [c], x ++ trail below)) as Hh. { rewrite D. cbn [spec_op here text_op doc]. change (lines t0) with (lines t). change (cursor t0) with (length above, length d + length u). rewrite (cut_halves C). cbn [fst snd]. by rewrite <-!app_assoc. }
  assert (plain ((d ++ u) ++ [c])) as Pv by (apply Forall_app; split; [done|by repeat constructor]).
  assert (cursor t' = (length above, length d + length v)) as Ec.
  { destruct (doc_pos t' W') as [Er Ec]. unfold row_of, col_of in Er, Ec. rewrite Hh in Er, Ec. cbn [fst] in Er, Ec. rewrite split_before in Er, Ec by done. unfold cursor. rewrite <-Er, <-Ec.
    rewrite last_snoc. cbn [default from_option id]. unfold v. rewrite !length_app. cbn. f_equal; lia. }
  split; [|split; [done|split; [|split; [cbn in R; lia|by rewrite D]]]].
  - unfold apply_caret. rewrite list_lookup_middle by done. cbn [unwrap]. rewrite bind_done. cbv zeta. change (s_head (caret_after (length u) r (length d))) with (r, length d + length u). cbn [fst snd edit_at_caret]. unfold r. rewrite Es, E, bind_done, Ec. cbv zeta.
    rewrite take_app_length, drop_past, fmap_app, <-!list_fmap_compose. f_equal. f_equal. f_equal. f_equal. f_equal.
    + apply list_fmap_ext. intros i k Hk. apply list_elem_of_lookup_2 in Hk. rewrite Forall_forall in Hrest. specialize (Hrest k Hk). cbn in Hrest.
      unfold caret_after. cbn. rewrite Nat.eqb_refl, (proj2 (Nat.leb_le _ _)) by lia. cbn. unfold v. rewrite length_app. cbn. f_equal; f_equal; lia.
    + apply list_fmap_ext. intros i p Hk. apply list_elem_of_lookup_2 in Hk. rewrite Forall_forall in Hps. specialize (Hps p Hk). cbn in Hps.
      unfold caret_after. cbn. rewrite (proj2 (Nat.eqb_neq _ _)) by lia. done.
  - replace (d ++ v ++ x) with (((d ++ u) ++ [c]) ++ x) by (unfold v; by rewrite <-!app_assoc). destruct (plain_line above (((d ++ u) ++ [c]) ++ x) below) as [Q1 Q2]; [done|by apply Forall_app|done|].
    apply lines_from; [done..|]. rewrite Hh. cbn [fst snd]. rewrite join_at. by rewrite <-!app_assoc.
Qed.

(** ** The loops *)

(** The cursors select the matches of a pattern. *)
Definition marked (pat : list Z) (cs : list Sel) (ls : list (list Z)) : Prop :=
  pat ≠ [] ∧ cs ≠ [] ∧ cs = sels (sel_word (length pat)) (sites (length pat) 0 (cuts pat ls)).
(** The word typed so far at each place is [u], and the cursors are after it. *)
Definition typing (u : list Z) (xs : list Cut) (e : Editor) : Prop :=
  wf (text e) ∧ lines (text e) = row_text u <$> xs ∧ carets e = sels (caret_after (length u)) (sites (length u) 0 xs) ∧ xs ≠ [] ∧ carets e ≠ [].
Lemma set_cursor_wf r c t : wf t → wf (set_cursor r c t).
Proof.
  intros W. destruct (set_cursor_does r c t W) as (t' & E & Wt & _). injection E as <-. done.
Qed.
Lemma primary e : carets e ≠ [] → ∃ s, head (carets e) = Some s ∧ to_primary e = Done (mv (set_cursor (s_head s).1 (s_head s).2) e).
Proof. destruct (carets e) as [|s cs] eqn:E; [done|]. intros _. exists s. unfold to_primary. by rewrite E. Qed.
Lemma delete_all_ok pat e : wf (text e) → marked pat (carets e) (lines (text e)) → (rev (text e) + 2 * zlen (carets e) ≤ u_max 64)%Z →
  ∃ e' t' p, delete_all_carets e = Done e' ∧ wf t' ∧ lines t' = row_text [] <$> cuts pat (lines (text e)) ∧
    history (doc t') = push (here (doc (text e))) (history (doc (text e))) ∧ (rev t' ≤ rev (text e) + 2 * zlen (carets e))%Z ∧
    let cs := sels (caret_after 0) (sites 0 0 (cuts pat (lines (text e)))) in
    e' = with_modified true (with_anchor None (mv (set_cursor p.1 p.2) (with_carets cs (with_text t' (mv checkpoint e))))) ∧ cs ≠ [].
Proof.
  intros W (Hp & Hne & Ec) Hr. set (xs := cuts pat (lines (text e))) in *.
  assert (zlen (carets e) = zlen (sites 0 0 xs)) as Hlen by (rewrite Ec, length_fmap; f_equal; apply sites_length).
  destruct (doc_turn pat [] (sel_word (length pat)) (caret_after 0) delete_caret) with (xs := xs) (above := @nil (list Z)) (A := @nil Sel) (t := checkpoint (text e)) as (t' & E & W' & L' & R' & Y').
  { intros t above d x below A rest ps. by apply delete_turn. }
  { by apply checkpoint_wf. }
  { cbn. lia. }
  { cbn. unfold xs. by rewrite cuts_lines. }
  set (cs := sels (caret_after 0) (sites 0 0 xs)). assert (cs ≠ []) as Hcs. { intros E0. apply (f_equal length) in E0. unfold cs in E0. rewrite length_fmap in E0. cbn in E0. destruct (carets e); [done|]. cbn in Hlen. lia. }
  destruct (primary (with_carets cs (with_text t' (mv checkpoint e)))) as (s & _ & Es); [done|].
  unfold delete_all_carets. cbv zeta. change (carets (mv checkpoint e)) with (carets e). rewrite (sites_length 0 (length pat) xs 0 0) in E. change (text (mv checkpoint e)) with (checkpoint (text e)).
  cbn [app] in E. replace (length (sites (length pat) 0 xs)) with (length (carets e)) in E by (rewrite Ec, length_fmap; done). change (length (@nil Z)) with 0 in E. change (length (@nil Sel)) with 0 in E. change (length (@nil (list Z))) with 0 in E. rewrite <-Ec in E.
  rewrite E, bind_done. cbv beta iota. fold cs. rewrite Es, bind_done. eexists _, t', (s_head s). split; [reflexivity|]. split; [done|]. split; [done|]. split; [rewrite Y'; apply push_doc|]. split; [cbn in R'; lia|done].
Qed.
Lemma type_char_ok u xs c e : c ≠ NL → typing u xs e → (rev (text e) + 2 * zlen (carets e) ≤ u_max 64)%Z →
  ∃ e' t' p, multi_apply (MChar c) e = Done e' ∧ typing (u ++ [c]) xs e' ∧ history (doc t') = history (doc (text e)) ∧ (rev t' ≤ rev (text e) + 2 * zlen (carets e))%Z ∧
    e' = with_modified true (mv (set_cursor p.1 p.2) (with_carets (carets e') (with_text t' e))).
Proof.
  intros Hc (W & El & Ec & Hx & Hne) Hr. assert (zlen (carets e) = zlen (sites 0 0 xs)) as Hlen by (rewrite Ec, length_fmap; f_equal; apply sites_length).
  destruct (doc_turn u (u ++ [c]) (caret_after (length u)) (caret_after (length (u ++ [c]))) (apply_caret (MChar c))) with (xs := xs) (above := @nil (list Z)) (A := @nil Sel) (t := text e) as (t' & E & W' & L' & R' & Y').
  { intros t above d x below A rest ps. by apply insert_turn. }
  { done. }
  { lia. }
  { done. }
  set (cs := sels (caret_after (length (u ++ [c]))) (sites (length (u ++ [c])) 0 xs)). assert (cs ≠ []) as Hcs. { intros E0. apply (f_equal length) in E0. unfold cs in E0. rewrite length_fmap in E0. rewrite (sites_length _ 0 xs 0 0) in E0. cbn in E0. destruct (carets e); [done|]. cbn in Hlen. lia. }
  destruct (primary (with_carets cs (with_text t' e))) as (s & _ & Es); [done|].
  unfold multi_apply. cbn [app] in E. change (length (@nil (list Z))) with 0 in E. rewrite <-Ec in E. rewrite (sites_length 0 (length u) xs 0 0) in E. replace (length (sites (length u) 0 xs)) with (length (carets e)) in E by (rewrite Ec, length_fmap; done).
  change (length (@nil Sel)) with 0 in E. rewrite E, bind_done. cbv beta iota. fold cs. rewrite Es, bind_done. eexists _, t', (s_head s). split; [reflexivity|]. split; [|split; [done|split; [lia|done]]].
  split; [by apply set_cursor_wf|]. split; [exact L'|]. split; [done|]. split; [done|exact Hcs].
Qed.

End NoraMulti.

Import NoraMulti.
Open Scope nat_scope.

Module NoraReplace.

Definition press (s : string) : KeyEvent := KauaIn.key_char (ch s).
Definition strike (c : KauaIn.KeyCode) : KeyEvent := KauaIn.key c.
(** Replace [pat] by [s]. *)
Definition replace_keys (pat s : list Z) : list KeyEvent :=
  [press "%"; press "s"] ++ (KauaIn.key_char <$> pat) ++ [strike KauaIn.Enter; press "c"] ++ (KauaIn.key_char <$> s) ++ [strike KauaIn.KEsc].

(** The tests of a key that is known. *)
Ltac key_tests :=
  repeat match goal with
    | |- context [is_char ?k ?s] => let b := eval vm_compute in (is_char k s) in change (is_char k s) with b
    | |- context [is_key ?k ?c] => let b := eval vm_compute in (is_key k c) in change (is_key k c) with b
    end; cbn [andb orb negb].

(** A field of an editor that has been updated. *)
Ltac field p :=
  repeat match goal with
    | |- context [p ?x] =>
        let y := eval cbn [p with_text with_mode with_filename with_readonly with_modified with_top with_top_sub with_left with_wrap
          with_status with_quit with_diags with_hover with_completion with_completion_prefix with_lsp_request with_dap_request with_debug
          with_debug_line with_dash with_pending_jump with_anchor with_register with_carets with_split_buf with_pending with_count
          with_last_find with_last_search with_request with_bufs with_active with_vp_tw with_file_entries
          mv say on_dash] in (p x) in
        progress change (p x) with y
    end.
Ltac fields := field split_buf; field pending; field mode; field debug; field carets; field count; field readonly; field text.

Section Replace.
Context `{!Unicode, !Manual}.

Definition handle_keys (ks : list KeyEvent) (e : Editor) : outcome Editor := foldM (λ e k, handle_key k e) e ks.

(** An editor that waits for a key. *)
Record idle (e : Editor) : Prop := mkIdle { i_split : split_buf e = None; i_pending : pending e = None; i_debug : debug e = None }.
(** The same document, in an editor that may change it. *)
Record same_doc (t : TextBuffer) (e : Editor) : Prop := mkSame {
  sd_wf : wf (text e); sd_lines : lines (text e) = lines t; sd_history : history (doc (text e)) = history (doc t);
  sd_rev : rev (text e) = rev t; sd_readonly : readonly e = false; sd_debug : debug e = None }.

Lemma moved_does o t t' : run_op o t = Done t' → does o t → wf t'.
Proof. intros E (t2 & E2 & W & _). congruence. Qed.
Lemma move_bottom_wf t : wf t → wf (move_bottom t).
Proof. intros W. by eapply (moved_does Bottom t _ eq_refl), bottom_does. Qed.
Lemma move_end_wf t : wf t → wf (move_end t).
Proof. intros W. by eapply (moved_does End t _ eq_refl), end_does. Qed.
Notation clean e := (with_hover None (with_status None e)).
Lemma normal_press k e : idle e → mode e = Normal → carets e = [] → count_digit k (clean e) = None →
  handle_key k e = normal_key k (bool_decide (is_Some (count e))) (default 1%Z (count e)) (with_count None (clean e)).
Proof.
  intros [I1 I2 I3] Hm Hc Hk. unfold handle_key. cbv zeta. fields. rewrite I1, I2, Hm. unfold normal, debugging. fields. rewrite I3, Hc. cbv zeta.
  change (bool_decide (is_Some (@None (list Z)))) with false. change (bool_decide (is_Some (@None NoraDiag.DebugView))) with false. cbn [andb]. cbv iota. rewrite Hk. fields. done.
Qed.
Lemma mode_press k e : split_buf e = None → pending e = None → handle_key k e =
  match mode e with
  | Normal => normal k (clean e) | Insert_ => insert k (clean e) | Visual => visual k (clean e) | Command _ => command k (clean e)
  | Menu | DebugMenu => menu k (clean e) | BufferPicker _ => buffer_picker k (clean e) | FilePicker _ _ => Done (file_picker k (clean e))
  | Completion _ => completion_key k (clean e)
  end.
Proof. intros I1 I2. unfold handle_key. cbv zeta. fields. by rewrite I1, I2. Qed.
Lemma prompt_press k b e : split_buf e = Some b → handle_key k e = split_prompt k (clean e).
Proof. intros I1. unfold handle_key. cbv zeta. fields. by rewrite I1. Qed.

Lemma press_percent e : wf (text e) → idle e → mode e = Normal → carets e = [] → readonly e = false →
  ∃ e', handle_key (press "%") e = Done e' ∧ same_doc (text e) e' ∧ idle e' ∧ mode e' = Visual ∧ carets e' = [].
Proof.
  intros W I Hm Hc Hr. rewrite normal_press by done. unfold normal_key. key_tests. eexists. split; [reflexivity|]. split; [|split; [by destruct I|done]].
  split; [by apply move_end_wf, move_bottom_wf|done|done|done|done|apply I].
Qed.
Lemma press_s t e : same_doc t e → idle e → mode e = Visual → carets e = [] →
  ∃ e', handle_key (press "s") e = Done e' ∧ same_doc t e' ∧ split_buf e' = Some [] ∧ pending e' = None ∧ mode e' = Visual ∧ carets e' = [].
Proof.
  intros S I Hm Hc. rewrite mode_press by apply I. rewrite Hm. unfold visual. cbv zeta. key_tests. eexists. split; [reflexivity|]. destruct S, I. done.
Qed.
Lemma press_pattern t pat : ∀ e b, same_doc t e → split_buf e = Some b → pending e = None → mode e = Visual → carets e = [] →
  ∃ e', handle_keys (KauaIn.key_char <$> pat) e = Done e' ∧ same_doc t e' ∧ split_buf e' = Some (b ++ pat) ∧ pending e' = None ∧ mode e' = Visual ∧ carets e' = [].
Proof.
  induction pat as [|c pat IH]; intros e b S Hs Hp Hm Hc; [exists e; by rewrite app_nil_r|]. unfold handle_keys in *. cbn [fmap list_fmap foldM].
  rewrite (prompt_press _ b) by done. unfold split_prompt. fields. rewrite Hs. cbn [KauaIn.key_char KauaIn.key KauaIn.code]. rewrite bind_done.
  edestruct (IH (with_split_buf (Some (b ++ [c])) (with_split_buf None (clean e))) (b ++ [c])) as (e' & E & H1 & H2 & H3); [destruct S; split; done|done..|].
  exists e'. split; [exact E|]. split; [done|]. split; [|done]. by rewrite H2, <-app_assoc.
Qed.
Lemma press_enter t pat e : pat ≠ [] → same_doc t e → split_buf e = Some pat → pending e = None → mode e = Visual → carets e = [] → sites (length pat) 0 (cuts pat (lines t)) ≠ [] →
  ∃ e', handle_key (strike KauaIn.Enter) e = Done e' ∧ same_doc t e' ∧ idle e' ∧ mode e' = Visual ∧ marked pat (carets e') (lines (text e')).
Proof.
  intros Hp S Hs Hpe Hm Hc Hne. rewrite (prompt_press _ pat) by done. unfold split_prompt. fields. rewrite Hs. cbn [strike KauaIn.key KauaIn.code]. unfold run_split.
  destruct pat as [|c pat']; [done|]. set (pat := c :: pat') in *. fields. rewrite find_all_sites by done. rewrite bind_done. rewrite (sd_lines t e S).
  destruct (sites (length pat) 0 (cuts pat (lines t))) as [|q qs] eqn:Eq; [done|]. cbn [fmap list_fmap]. cbv beta iota zeta. eexists. split; [reflexivity|].
  destruct S as [S1 S2 S3 S4 S5 S6]. split; [split; try done|].
  - by apply set_cursor_wf.
  - split; [by split|]. split; [done|]. split; [done|]. split; [done|]. change (lines (text _)) with (lines (text e)). rewrite S2, Eq. field carets.
    cbn [fmap list_fmap]. change (list_fmap _ _ ?f ?l) with (f <$> l). f_equal; [by destruct q|]. rewrite <-list_fmap_compose. apply list_fmap_ext. by intros i [r c'] _.
Qed.
Lemma press_c t pat e : same_doc t e → idle e → mode e = Visual → marked pat (carets e) (lines (text e)) → (rev t + 2 * zlen (carets e) ≤ u_max 64)%Z →
  ∃ e', handle_key (press "c") e = Done e' ∧ typing [] (cuts pat (lines t)) e' ∧ idle e' ∧ mode e' = Insert_ ∧ readonly e' = false ∧ modified e' = true ∧
    (∃ x, x.1 ++ x.2 = content t ∧ history (doc (text e')) = push x (history (doc t))) ∧ (rev (text e') ≤ rev t + 2 * zlen (carets e))%Z ∧ length (carets e') = length (carets e).
Proof.
  intros [S1 S2 S3 S4 S5 S6] I Hm Hk Hr. rewrite mode_press by apply I. rewrite Hm. unfold visual. cbv zeta. fields. rewrite S5. key_tests. unfold change. fields. rewrite S5.
  destruct (delete_all_ok pat (clean e)) as (e' & t' & p & E & W' & L' & Y' & R' & Ee & Hcs); [done|done|fields; lia|].
  replace (match carets e with [] => _ | _ => _ end) with (e0 ← delete_all_carets (clean e); Done (with_mode Insert_ e0)) by (destruct Hk as (_ & Hne & _); by destruct (carets e)).
  rewrite E, bind_done. eexists. split; [reflexivity|]. rewrite Ee. change (text (clean e)) with (text e) in *. rewrite S2 in *.
  assert (lines t ≠ []) as Hlt. { rewrite <-S2. by apply wf_some. }
  split; [split; [by apply set_cursor_wf|]; split; [exact L'|]; split; [done|]; split; [|exact Hcs]|].
  { unfold cuts. by destruct (lines t). }
  split; [by destruct I|]. split; [done|]. split; [done|]. split; [done|]. split; [exists (here (doc (text e))); split; [|]|split].
  - cbn [here doc]. rewrite halves_app. unfold content. by rewrite S2.
  - rewrite <-S3. exact Y'.
  - cbn [text with_text with_mode with_modified with_anchor mv with_carets rev set_cursor set_pos]. change (carets (clean e)) with (carets e) in R'. cbn in R' |- *. lia.
  - cbn [carets with_text with_mode with_modified with_anchor mv with_carets]. destruct Hk as (_ & _ & Ek). rewrite Ek, !length_fmap. change (lines (text e)) with (lines (text (clean e))). cbn [text]. rewrite <-S2. apply sites_length.
Qed.

Lemma insert_multi k e : carets e ≠ [] → insert k e = multi_insert k e.
Proof. unfold insert. by destruct (carets e). Qed.
Lemma press_text xs s : plain s → ∀ u e, typing u xs e → idle e → mode e = Insert_ → readonly e = false → modified e = true → (rev (text e) + 2 * zlen (carets e) * zlen s ≤ u_max 64)%Z →
  ∃ e', handle_keys (KauaIn.key_char <$> s) e = Done e' ∧ typing (u ++ s) xs e' ∧ idle e' ∧ mode e' = Insert_ ∧ readonly e' = false ∧ modified e' = true ∧
    history (doc (text e')) = history (doc (text e)) ∧ (rev (text e') ≤ rev (text e) + 2 * zlen (carets e) * zlen s)%Z.
Proof.
  induction 1 as [|c s Hc Hs IH]; intros u e T I Hm Hr Hmo Hb; [exists e; rewrite app_nil_r; split_and!; try done; lia|]. unfold handle_keys in *. cbn [fmap list_fmap foldM].
  cbn [length] in Hb. rewrite mode_press by apply I. rewrite Hm. rewrite insert_multi by (fields; apply T). unfold multi_insert. cbn [KauaIn.key_char KauaIn.key KauaIn.code].
  destruct (type_char_ok u xs c (clean e)) as (e1 & t1 & p & E1 & T1 & Y1 & R1 & Ee); [done|exact T|change (text (clean e)) with (text e); change (carets (clean e)) with (carets e); nia|].
  rewrite E1, bind_done. change (text (clean e)) with (text e) in *. change (carets (clean e)) with (carets e) in *.
  assert (length (carets e1) = length (carets e)) as Hl. { destruct T1 as (_ & _ & -> & _), T as (_ & _ & -> & _). rewrite !length_fmap. apply sites_length. }
  assert (rev (text e1) = rev t1 ∧ history (doc (text e1)) = history (doc t1)) as [Hrv Hhy] by (rewrite Ee; done).
  destruct (IH (u ++ [c]) e1) as (e' & E & T' & I' & M' & R' & Mo' & H' & Rv'); [done| | | | |rewrite Hl, Hrv; nia|].
  - rewrite Ee. by destruct I.
  - by rewrite Ee.
  - by rewrite Ee.
  - by rewrite Ee.
  - exists e'. rewrite <-app_assoc in T'. cbn [app] in T'. split; [exact E|]. split_and!; try done; [congruence|]. cbn [length]. rewrite Hl, Hrv in Rv'. nia.
Qed.
Lemma press_esc e : idle e → mode e = Insert_ → carets e ≠ [] → handle_key (strike KauaIn.KEsc) e = Done (with_mode Normal (clean e)).
Proof. intros I Hm Hc. rewrite mode_press by apply I. rewrite Hm, insert_multi by done. done. Qed.
(** [u] after several cursors: one again, and the last checkpoint's text back. *)
Lemma press_u e x h : wf (text e) → idle e → mode e = Normal → carets e ≠ [] → readonly e = false → (rev (text e) + 2 ≤ u_max 64)%Z → history (doc (text e)) = push x h →
  ∃ e', handle_key (press "u") e = Done e' ∧ content (text e') = x.1 ++ x.2.
Proof.
  intros W I Hm Hc Hr Hb Hh. rewrite mode_press by apply I. rewrite Hm. unfold normal, debugging. fields. rewrite (i_debug e I). change (bool_decide (is_Some (@None NoraDiag.DebugView))) with false. cbv iota zeta. cbn [andb].
  replace (match carets e with [] => false | _ => true end) with true by by destruct (carets e). key_tests. cbv iota.
  change (count_digit (press "u") _) with (@None Z). cbv iota. unfold normal_key. cbv zeta. set (e1 := with_count None (collapse_carets (clean e))).
  destruct (carets e) as [|s cs] eqn:Ec; [done|].
  assert (e1 = with_count None (say (lit "single cursor") (with_mode Normal (with_anchor None (with_split_buf None (with_carets [] (mv (set_cursor (s_head s).1 (s_head s).2) (clean e)))))))) as Ee.
  { unfold e1, collapse_carets. fields. by rewrite Ec. }
  assert (readonly e1 = false) as -> by (rewrite Ee; exact Hr). key_tests.
  assert (text e1 = set_cursor (s_head s).1 (s_head s).2 (text e)) as -> by (rewrite Ee; done).
  destruct (undo_does (set_cursor (s_head s).1 (s_head s).2 (text e))) as (t' & E & W' & D & _); [by apply set_cursor_wf|cbn; lia|]. cbn [run_op] in E.
  destruct (undo_ _) as [[ok t2]| |]; [|done..]. injection E as ->. rewrite bind_done. cbv beta iota.
  exists (if ok then with_modified true (with_text t' e1) else say (lit "already at oldest change") (with_text t' e1)). split; [done|].
  assert (text (if ok then with_modified true (with_text t' e1) else say (lit "already at oldest change") (with_text t' e1)) = t') as -> by by destruct ok.
  cbn [spec_op] in D. change (history (doc (set_cursor _ _ (text e)))) with (history (doc (text e))) in D. rewrite Hh in D. unfold push in D. rewrite last_snoc in D.
  unfold content. rewrite <-(halves_app (lines t') (cursor t')). change (halves (lines t') (cursor t')) with (here (doc t')). by rewrite D.
Qed.
End Replace.
End NoraReplace.

Module NoraObjects.

(** ** Scans without widths *)

Notation Place := (prod Pos Z).
Notation place_ r c x := (@pair Pos Z (r, c) x) (only parsing).
Fixpoint scan (up down : Z) (cs : list Place) (depth : Z) : option Pos * Z :=
  match cs with
  | [] => (None, depth)
  | (p, c) :: cs =>
      if (c =? up)%Z then scan up down cs (depth + 1)
      else if (c =? down)%Z then if (depth - 1 =? 0)%Z then (Some p, (depth - 1)%Z) else scan up down cs (depth - 1)
      else scan up down cs depth
  end.
(** An [i32] holds the depth of a document of less than 2^31 characters. *)
Lemma scan_line_eq up down cs : ∀ depth, (Z.abs depth + zlen cs < 2 ^ 31)%Z → scan_line up down cs depth = Done (scan up down cs depth) ∧ (Z.abs (scan up down cs depth).2 ≤ Z.abs depth + zlen cs)%Z.
Proof.
  induction cs as [|[p c] cs IH]; intros depth Hd; [cbn; split; [done|lia]|]. cbn [scan_line scan length] in *. change (2 ^ 31)%Z with 2147483648%Z in *.
  assert (∀ x, (Z.abs x < 2147483648)%Z → ichk 32 x = Done x) as Hi by (intros x Hx; apply ichk_ok; unfold in_i; change (2 ^ (32 - 1))%Z with 2147483648%Z; lia).
  destruct (c =? up)%Z; [rewrite Hi, bind_done by lia; destruct (IH (depth + 1)%Z) as [E1 E2]; [lia|]; split; [done|lia]|].
  destruct (c =? down)%Z; [|destruct (IH depth) as [E1 E2]; [lia|]; split; [done|lia]]. rewrite Hi, bind_done by lia.
  destruct (depth - 1 =? 0)%Z; [split; [done|cbn; lia]|]. destruct (IH (depth - 1)%Z) as [E1 E2]; [lia|]. split; [done|lia].
Qed.
Lemma scan_app up down cs cs' depth : scan up down (cs ++ cs') depth = match scan up down cs depth with (Some p, d) => (Some p, d) | (None, d) => scan up down cs' d end.
Proof.
  revert depth. induction cs as [|[p c] cs IH]; intros depth; [done|]. cbn [app scan]. destruct (c =? up)%Z; [apply IH|]. destruct (c =? down)%Z; [|apply IH].
  destruct (depth - 1 =? 0)%Z; [done|apply IH].
Qed.
(** Lines one after the other are one text. *)
Lemma scan_lines_eq up down css : ∀ depth, (Z.abs depth + zlen (concat css) < 2 ^ 31)%Z → scan_lines up down (Done <$> css) depth = Done (scan up down (concat css) depth).1.
Proof.
  induction css as [|cs css IH]; intros depth Hd; [done|]. cbn [fmap list_fmap scan_lines concat] in *. rewrite length_app in Hd. rewrite bind_done.
  destruct (scan_line_eq up down cs depth) as [E Hb]; [lia|]. rewrite E, bind_done, scan_app. destruct (scan up down cs depth) as [[q|] d]; cbn in *; [done|]. apply IH. lia.
Qed.
(** What a scan finds is one of the places. *)
Lemma scan_in up down cs depth p : (scan up down cs depth).1 = Some p → (p, down) ∈ cs.
Proof.
  revert depth. induction cs as [|[q c] cs IH]; intros depth; [done|]. cbn [scan]. destruct (c =? up)%Z; [intros H; right; by eapply IH|].
  destruct (Z.eqb_spec c down) as [->|]; [|intros H; right; by eapply IH]. destruct (depth - 1 =? 0)%Z; [intros [= <-]; left|intros H; right; by eapply IH].
Qed.

(** ** Balance *)

Section Balance.
Context (up down : Z) (Hne : up ≠ down).
Definition weight (x : Place) : Z := if (x.2 =? up)%Z then 1 else if (x.2 =? down)%Z then -1 else 0.
Definition sum (cs : list Place) : Z := foldr (λ x z, weight x + z)%Z 0%Z cs.
Lemma sum_app a b : sum (a ++ b) = (sum a + sum b)%Z.
Proof. unfold sum. induction a as [|x a IH]; [done|]. cbn [app foldr]. rewrite IH. lia. Qed.
(** [pre] leads down from [depth] to one, and not below on the way. *)
Definition above_one (depth : Z) (pre : list Place) : Prop := (depth + sum pre = 1)%Z ∧ ∀ q r, pre = q ++ r → (1 ≤ depth + sum q)%Z.
Lemma above_cons depth x pre : (1 ≤ depth)%Z → above_one (depth + weight x) pre → above_one depth (x :: pre).
Proof.
  intros Hd [H1 H2]. split; [unfold sum in *; cbn [foldr]; lia|]. intros [|y q] r E; [unfold sum; cbn; lia|]. injection E as -> E. specialize (H2 q r E). unfold sum in *. cbn [foldr]. lia.
Qed.
Lemma scan_found cs p : ∀ depth, (1 ≤ depth)%Z → (scan up down cs depth).1 = Some p → ∃ pre post, cs = pre ++ (p, down) :: post ∧ above_one depth pre.
Proof.
  induction cs as [|[q c] cs IH]; intros depth Hd; [done|]. cbn [scan]. assert (weight (q, c) = if (c =? up)%Z then 1 else if (c =? down)%Z then -1 else 0)%Z as Hw by done.
  destruct (c =? up)%Z; [|destruct (Z.eqb_spec c down) as [->|]; [destruct (Z.eqb_spec (depth - 1) 0) as [E|]|]].
  - intros H. destruct (IH (depth + 1)%Z) as (pre & post & -> & Ha); [lia|done|]. exists ((q, c) :: pre), post. split; [done|]. apply above_cons; [done|by rewrite Hw].
  - intros [= <-]. exists [], cs. split; [done|]. split; [cbn; lia|]. intros [|] r Er; [cbn; lia|done].
  - intros H. destruct (IH (depth - 1)%Z) as (pre & post & -> & Ha); [lia|done|]. exists ((q, down) :: pre), post. split; [done|]. apply above_cons; [done|by rewrite Hw].
  - intros H. destruct (IH _ Hd H) as (pre & post & -> & Ha). exists ((q, c) :: pre), post. split; [done|]. apply above_cons; [done|by rewrite Hw, Z.add_0_r].
Qed.
Lemma scan_finds pre p post : ∀ depth, above_one depth pre → (scan up down (pre ++ (p, down) :: post) depth).1 = Some p.
Proof.
  induction pre as [|[q c] pre IH]; intros depth [H1 H2].
  - cbn. rewrite (proj2 (Z.eqb_neq _ _)) by done. rewrite Z.eqb_refl. cbn in H1. by replace (depth - 1 =? 0)%Z with true by (symmetry; apply Z.eqb_eq; lia).
  - assert (above_one (depth + weight (q, c)) pre) as Ha. { split; [unfold sum in *; cbn [foldr] in H1; lia|]. intros a r E. specialize (H2 ((q, c) :: a) r ltac:(by rewrite E)). unfold sum in *. cbn [foldr] in H2. lia. }
    assert (1 ≤ depth + weight (q, c))%Z as Hg by (destruct Ha as [_ Ha]; specialize (Ha [] pre eq_refl); cbn in Ha; lia). specialize (IH _ Ha). unfold weight in *. cbn [snd] in *. cbn [app scan].
    destruct (c =? up)%Z; [done|]. destruct (c =? down)%Z; [|by rewrite Z.add_0_r in IH]. rewrite (proj2 (Z.eqb_neq _ _)) by lia. exact IH.
Qed.
End Balance.
Lemma weight_swap up down x : up ≠ down → weight down up x = (- weight up down x)%Z.
Proof. intros Hne. unfold weight. destruct (Z.eqb_spec x.2 up), (Z.eqb_spec x.2 down); congruence || done. Qed.
Lemma sum_swap up down cs : up ≠ down → sum down up (reverse cs) = (- sum up down cs)%Z.
Proof.
  intros Hne. induction cs as [|x cs IH]; [done|]. rewrite reverse_cons, sum_app, IH. unfold sum. cbn [foldr]. rewrite weight_swap by done. lia.
Qed.
(** Balanced from one side, balanced from the other. *)
Lemma above_reverse up down pre : up ≠ down → above_one up down 1 pre → above_one down up 1 (reverse pre).
Proof.
  intros Hne [H1 H2]. split; [rewrite sum_swap by done; lia|]. intros q r E. apply (f_equal reverse) in E. rewrite reverse_involutive, reverse_app in E.
  specialize (H2 _ _ E) as Hq. rewrite <-(reverse_involutive q), sum_swap by done. rewrite E, sum_app in H1. lia.
Qed.
(** The match of a match. *)
Lemma scan_back up down p0 cs p before : up ≠ down → (scan up down ((p0, up) :: cs) 0).1 = Some p →
  ∃ mid post, cs = mid ++ (p, down) :: post ∧ (scan down up ((p, down) :: reverse mid ++ (p0, up) :: before) 0).1 = Some p0.
Proof.
  intros Hne. cbn [scan]. rewrite Z.eqb_refl. intros H. destruct (scan_found up down cs p (0 + 1)%Z) as (pre & post & -> & Ha); [lia|done|].
  exists pre, post. split; [done|]. rewrite Z.eqb_refl. apply scan_finds; [done|]. by apply above_reverse.
Qed.

(** ** The document as one row of places *)

Fixpoint rows (k : nat) (ls : list (list Z)) : list Place := match ls with [] => [] | l :: ls => placed k l ++ rows (S k) ls end.
Lemma length_placed r l : length (placed r l) = length l.
Proof. apply length_imap. Qed.
Lemma placed_at r l i : placed r l !! i = (λ c, ((r, i), c)) <$> l !! i.
Proof. unfold placed. by rewrite list_lookup_imap. Qed.
Lemma drop_placed r l c x : l !! c = Some x → drop c (placed r l) = place_ r c x :: drop (S c) (placed r l).
Proof. intros Hc. apply drop_S. by rewrite placed_at, Hc. Qed.
Lemma take_placed r l c x : l !! c = Some x → take (S c) (placed r l) = take c (placed r l) ++ [place_ r c x].
Proof. intros Hc. apply take_S_r. by rewrite placed_at, Hc. Qed.
Lemma rows_app k a b : rows k (a ++ b) = rows k a ++ rows (k + length a) b.
Proof. revert k. induction a as [|l a IH]; intros k; [by rewrite Nat.add_0_r|]. cbn [app rows length]. rewrite IH, app_assoc. do 2 f_equal. lia. Qed.
Lemma rows_length k ls : length (rows k ls) ≤ length (trail ls).
Proof. revert k. induction ls as [|l ls IH]; intros k; [done|]. change (trail (l :: ls)) with (NL :: l ++ trail ls). cbn [rows length]. rewrite !length_app, length_placed. specialize (IH (S k)). lia. Qed.
Lemma rows_content t : length (rows 0 (lines t)) ≤ length (content t).
Proof.
  unfold content. destruct (lines t) as [|l ls]; [done|]. rewrite join_cons. cbn [rows]. rewrite !length_app, length_placed. pose proof (rows_length 1 ls). lia.
Qed.
(** A place says where it is. *)
Lemma rows_split ls r c x A B : ∀ k, rows k ls = A ++ place_ r c x :: B →
  ∃ i l, r = k + i ∧ ls !! i = Some l ∧ l !! c = Some x ∧ A = rows k (take i ls) ++ take c (placed r l) ∧ B = drop (S c) (placed r l) ++ rows (S r) (drop (S i) ls).
Proof.
  revert A. induction ls as [|l ls IH]; intros A k E; [by destruct A|]. cbn [rows] in E. destruct (Nat.lt_ge_cases (length A) (length (placed k l))) as [Hlt|Hge].
  - assert (placed k l !! length A = Some (place_ r c x)) as Hx by (rewrite <-(lookup_app_l _ (rows (S k) ls)), E by done; by apply list_lookup_middle).
    rewrite placed_at in Hx. destruct (l !! length A) as [y|] eqn:El; [|done]. injection Hx as <- Ec ->. exists 0, l. rewrite <-Ec. split; [lia|]. split; [done|]. split; [done|].
    split; [|]; [apply (f_equal (take (length A))) in E; rewrite take_app_length, take_app_le in E by lia; done|].
    apply (f_equal (drop (S (length A)))) in E. rewrite drop_app_le in E by lia. rewrite drop_past in E. symmetry. exact E.
  - assert (A = placed k l ++ drop (length (placed k l)) A) as EA. { rewrite <-(take_drop (length (placed k l)) A) at 1. f_equal. apply (f_equal (take (length (placed k l)))) in E. rewrite take_app_length, take_app_le in E by done. done. }
    rewrite EA, <-app_assoc in E. apply app_inv_head in E. destruct (IH _ _ E) as (i & l' & -> & Hl & Hc & HA & HB). exists (S i), l'. split; [lia|]. split; [done|]. split; [done|].
    split; [rewrite EA, HA; cbn [take rows]; by rewrite <-app_assoc|done].
Qed.
Lemma rows_at t r c x : char_at r c t = Some x → ∃ A B, rows 0 (lines t) = A ++ place_ r c x :: B.
Proof.
  unfold char_at. destruct (lines t !! r) as [l|] eqn:El; [cbn|done]. intros Hc. pose proof (lookup_lt_Some _ _ _ El) as Hr.
  rewrite <-(take_drop_middle _ _ _ El), rows_app. cbn [rows]. rewrite length_take_le by lia. cbn [Nat.add].
  assert (placed r l !! c = Some (place_ r c x)) as Hp by (rewrite placed_at, Hc; done). rewrite <-(take_drop_middle _ _ _ Hp). rewrite <-!app_assoc. cbn [app].
  eexists (_ ++ _), _. rewrite <-app_assoc. reflexivity.
Qed.

(** The lists the scans run over, from a place. *)
Section At.
Context (t : TextBuffer) (r c : nat) (x : Z) (A B : list Place) (E : rows 0 (lines t) = A ++ place_ r c x :: B) (Hsmall : (zlen (content t) < 2 ^ 31)%Z).
Lemma lines_from_row n : ∀ k, r < k → k + n = line_count t → concat ((λ r', drop (if r' =? r then c else 0) (placed r' (line r' t))) <$> seq k n) = rows k (drop k (lines t)).
Proof.
  induction n as [|n IH]; intros k Hk Hn; [rewrite drop_ge by (unfold line_count in Hn; lia); done|]. cbn [seq fmap list_fmap concat]. rewrite IH by lia.
  destruct (lookup_lt_is_Some_2 (lines t) k) as [l Hl]; [unfold line_count in Hn; lia|]. rewrite (drop_S _ _ _ Hl). cbn [rows]. rewrite (proj2 (Nat.eqb_neq _ _)) by lia. unfold line. rewrite Hl. done.
Qed.
Lemma forward_eq open close : scan_forward_match open close (r, c) t = Done (scan open close (place_ r c x :: B) 0).1.
Proof.
  destruct (rows_split _ _ _ _ _ _ _ E) as (i & l & Ei & Hl & Hc & HA & HB). cbn in Ei. subst i. pose proof (lookup_lt_Some _ _ _ Hl) as Hlt.
  assert (concat ((λ r', drop (if r' =? r then c else 0) (placed r' (line r' t))) <$> seq r (line_count t - r)) = place_ r c x :: B) as Hs.
  { replace (line_count t - r) with (S (line_count t - S r)) by (unfold line_count; lia). cbn [seq fmap list_fmap concat]. rewrite Nat.eqb_refl. cbv iota. unfold line at 1. rewrite Hl. cbn [default from_option id].
    rewrite (drop_placed _ _ _ _ Hc). cbn [app]. f_equal. rewrite HB. f_equal.
    apply lines_from_row; [lia|unfold line_count; lia]. }
  unfold scan_forward_match. cbn [fst snd]. rewrite <-Hs. rewrite <-scan_lines_eq; [by rewrite <-list_fmap_compose|]. rewrite Hs.
  pose proof (rows_content t) as Hr. rewrite E, length_app in Hr. lia.
Qed.
Lemma lines_to_row n : n ≤ r → r ≤ length (lines t) → concat ((λ r', reverse (take (if r' =? r then c + 1 else length (line r' t)) (placed r' (line r' t)))) <$> reverse (seq 0 n)) = reverse (rows 0 (take n (lines t))).
Proof.
  induction n as [|n IH]; intros Hn Hr; [done|]. rewrite seq_S, reverse_snoc. cbn [fmap list_fmap concat Nat.add]. rewrite (proj2 (Nat.eqb_neq _ _)) by lia.
  destruct (lookup_lt_is_Some_2 (lines t) n) as [l Hl]; [lia|]. rewrite (take_S_r _ _ _ Hl), rows_app, reverse_app. cbn [rows]. rewrite app_nil_r, length_take_le by lia. cbn [Nat.add].
  unfold line at 1 2. rewrite Hl. cbn [default from_option id]. rewrite take_ge by (rewrite length_placed; lia). f_equal. apply IH; lia.
Qed.
Lemma backward_eq open close : scan_backward_match open close (r, c) t = Done (scan close open (place_ r c x :: reverse A) 0).1.
Proof.
  destruct (rows_split _ _ _ _ _ _ _ E) as (i & l & Ei & Hl & Hc & HA & HB). cbn in Ei. subst i. pose proof (lookup_lt_Some _ _ _ Hl) as Hlt. pose proof (lookup_lt_Some _ _ _ Hc) as Hcl.
  set (up r' := if r' =? r then c + 1 else length (line r' t)).
  assert (concat ((λ r', reverse (take (up r') (placed r' (line r' t)))) <$> reverse (seq 0 (r + 1))) = place_ r c x :: reverse A) as Hs.
  { replace (r + 1) with (S r) by lia. rewrite seq_S, reverse_snoc. cbn [fmap list_fmap concat Nat.add]. unfold up at 1. rewrite Nat.eqb_refl. cbv iota. unfold line at 1. rewrite Hl. cbn [default from_option id].
    replace (c + 1) with (S c) by lia. rewrite (take_placed _ _ _ _ Hc), reverse_snoc. cbn [app]. f_equal.
    rewrite HA, reverse_app. f_equal. apply lines_to_row; lia. }
  unfold scan_backward_match. cbn [fst snd].
  replace ((λ r', let l := line r' t in let upto := if r' =? r then c + 1 else length l in if upto <=? length l then Done (reverse (take upto (placed r' l))) else Panic) <$> reverse (seq 0 (r + 1)))
    with (Done <$> ((λ r', reverse (take (up r') (placed r' (line r' t)))) <$> reverse (seq 0 (r + 1)))).
  - rewrite scan_lines_eq; [by rewrite Hs|]. rewrite Hs. cbn [length]. rewrite length_reverse. pose proof (rows_content t) as Hr. rewrite E, length_app in Hr. cbn in Hr. lia.
  - rewrite <-list_fmap_compose. apply list_fmap_ext. intros i r' Hi. cbn. fold (up r'). destruct (Nat.leb_spec (up r') (length (line r' t))) as [|Hgt]; [done|]. exfalso. unfold up in Hgt.
    destruct (Nat.eqb_spec r' r) as [->|]; [|lia]. unfold line in Hgt. rewrite Hl in Hgt. cbn in Hgt. lia.
Qed.
End At.

(** ** Brackets *)

Notation small t := (zlen (content t) < 2 ^ 31)%Z.
Lemma place_valid t p x : (p, x) ∈ rows 0 (lines t) → valid (lines t) p ∧ char_at p.1 p.2 t = Some x.
Proof.
  intros (A & B & E)%list_elem_of_split. destruct p as [r c]. destruct (rows_split _ _ _ _ _ _ _ E) as (i & l & Ei & Hl & Hc & _). cbn in Ei. subst i.
  split; [exists l; split; [done|]; apply lookup_lt_Some in Hc; cbn; lia|]. cbn. unfold char_at. by rewrite Hl.
Qed.
Lemma in_mid {A} (a : list A) x b : x ∈ a ++ x :: b.
Proof. apply elem_of_app. right. left. Qed.
Lemma char_valid t p x : char_at p.1 p.2 t = Some x → valid (lines t) p.
Proof. intros (A & B & E)%rows_at. eapply (place_valid t p x). rewrite E. destruct p. apply in_mid. Qed.
Lemma forward_ok open close t p x : small t → char_at p.1 p.2 t = Some x →
  ∃ h, scan_forward_match open close p t = Done h ∧ ∀ q, h = Some q → (q, close) ∈ (p, x) :: rows 0 (lines t).
Proof.
  intros Hs Hc. pose proof (rows_at t _ _ _ Hc) as (A & B & E). destruct p as [r c]. rewrite (forward_eq t r c x A B E Hs). eexists. split; [reflexivity|].
  intros q Hq%scan_in. cbn [fst snd] in E. rewrite E. apply elem_of_cons in Hq as [Hq|Hq]; [rewrite Hq; left|right]. apply elem_of_app. right. by right.
Qed.
Lemma backward_ok open close t p x : small t → char_at p.1 p.2 t = Some x →
  ∃ h, scan_backward_match open close p t = Done h ∧ ∀ q, h = Some q → (q, open) ∈ (p, x) :: rows 0 (lines t).
Proof.
  intros Hs Hc. pose proof (rows_at t _ _ _ Hc) as (A & B & E). destruct p as [r c]. rewrite (backward_eq t r c x A B E Hs). eexists. split; [reflexivity|].
  intros q Hq%scan_in. cbn [fst snd] in E. rewrite E. apply elem_of_cons in Hq as [Hq|Hq]; [rewrite Hq; left|right]. apply elem_of_app. left. by rewrite elem_of_reverse in Hq.
Qed.
(** A pair: an open bracket and its close, what is between them balanced. *)
Definition paired (open close : Z) (t : TextBuffer) (p q : Pos) : Prop :=
  ∃ A mid B, rows 0 (lines t) = A ++ (p, open) :: mid ++ (q, close) :: B ∧ above_one open close 1 mid.
Lemma forward_paired open close t p q : small t → open ≠ close → char_at p.1 p.2 t = Some open → scan_forward_match open close p t = Done (Some q) → paired open close t p q.
Proof.
  intros Hs Hne (A & B & E)%rows_at Hf. destruct p as [r c]. rewrite (forward_eq t r c open A B E Hs) in Hf. injection Hf as Hf. cbn [scan] in Hf. rewrite Z.eqb_refl in Hf.
  apply scan_found in Hf as (mid & post & -> & Ha); [|lia]. exists A, mid, post. by split.
Qed.
Lemma backward_paired open close t p q : small t → open ≠ close → char_at p.1 p.2 t = Some close → scan_backward_match open close p t = Done (Some q) → paired open close t q p.
Proof.
  intros Hs Hne (A & B & E)%rows_at Hf. destruct p as [r c]. rewrite (backward_eq t r c close A B E Hs) in Hf. injection Hf as Hf. cbn [scan] in Hf. rewrite Z.eqb_refl in Hf.
  apply scan_found in Hf as (mid & post & EA & Ha); [|lia]. apply (f_equal reverse) in EA. rewrite reverse_involutive, reverse_app, reverse_cons, <-app_assoc in EA. cbn [app] in EA.
  exists (reverse post), (reverse mid), B. split; [rewrite E, EA; cbn [fst snd]; by rewrite <-app_assoc|]. by apply above_reverse.
Qed.
(** The pair is found from either end. *)
Lemma paired_scans open close t p q : small t → open ≠ close → paired open close t p q →
  scan_forward_match open close p t = Done (Some q) ∧ scan_backward_match open close q t = Done (Some p) ∧ char_at p.1 p.2 t = Some open ∧ char_at q.1 q.2 t = Some close.
Proof.
  intros Hs Hne (A & mid & B & E & Ha). destruct p as [r c], q as [r' c'].
  split; [|split; [|split]].
  - rewrite (forward_eq t r c open A (mid ++ ((r', c'), close) :: B) E Hs). cbn [scan]. rewrite Z.eqb_refl. by rewrite (scan_finds open close Hne mid).
  - rewrite (backward_eq t r' c' close (A ++ ((r, c), open) :: mid) B) by (done || by rewrite E, <-app_assoc). cbn [scan]. rewrite Z.eqb_refl.
    rewrite reverse_app, reverse_cons, <-app_assoc. cbn [app]. rewrite (scan_finds close open) by (done || by apply above_reverse). done.
  - eapply (place_valid t (r, c) open). rewrite E. apply in_mid.
  - eapply (place_valid t (r', c') close). rewrite E. apply elem_of_app. right. right. apply in_mid.
Qed.

(** ** Text objects *)

Lemma back_open_ok open close t : small t → ∀ fuel p depth, valid (lines t) p → offset (lines t) p < fuel → (0 ≤ depth)%Z → (depth + Z.of_nat (offset (lines t) p) < zlen (content t))%Z →
  ∃ h, back_open fuel open close t p depth = Done h ∧ ∀ q, h = Some q → char_at q.1 q.2 t = Some open.
Proof.
  intros Hs. induction fuel as [|fuel IH]; intros p depth Hv Hf Hd Hb; [lia|]. cbn [back_open]. change (2 ^ 31)%Z with 2147483648%Z in *.
  assert (∀ x, (0 ≤ x < 2147483648)%Z → ichk 32 x = Done x) as Hi by (intros x Hx; apply ichk_ok; unfold in_i; change (2 ^ (32 - 1))%Z with 2147483648%Z; lia).
  assert (∀ d, (0 ≤ d ≤ depth + 1)%Z → ∃ h, match pos_before t p with Some q => back_open fuel open close t q d | None => Done None end = Done h ∧ ∀ q, h = Some q → char_at q.1 q.2 t = Some open) as Hnext.
  { intros d Hle. pose proof (prev_spec t p Hv) as Hp. unfold pos_before. destruct (prev_pos t p) as [q|]; [|exists None; split; [done|by intros q]]. destruct Hp as [Hq Eo]. apply IH; [done|lia..]. }
  destruct (char_at p.1 p.2 t) as [c|] eqn:Ec; [|apply Hnext; lia]. destruct (c =? close)%Z; [rewrite Hi, bind_done by lia; apply Hnext; lia|].
  destruct (Z.eqb_spec c open) as [->|]; [|apply Hnext; lia]. destruct (Z.eqb_spec depth 0); [exists (Some p); split; [done|by intros q [= <-]]|]. rewrite Hi, bind_done by lia. apply Hnext. lia.
Qed.
Lemma enclosing_open_ok open close t from : small t → valid (lines t) from → ∃ h, scan_back_enclosing_open open close from t = Done h ∧ ∀ q, h = Some q → char_at q.1 q.2 t = Some open.
Proof.
  intros Hs Hv. unfold scan_back_enclosing_open. pose proof (prev_spec t from Hv) as Hp. unfold pos_before. destruct (prev_pos t from) as [p|]; [|exists None; split; [done|by intros q]].
  destruct Hp as [Hq Eo]. pose proof (valid_offset _ _ Hv) as Ho. fold (content t) in Ho. apply back_open_ok; [done|done|unfold places; lia..].
Qed.
Lemma found_char t p x q y : char_at p.1 p.2 t = Some x → (q, y) ∈ (p, x) :: rows 0 (lines t) → char_at q.1 q.2 t = Some y.
Proof. intros Hc [[= -> ->]|Hin]%elem_of_cons; [done|]. by apply place_valid in Hin as [_ ?]. Qed.
Lemma enclosing_pair_ok open close t : small t → wf t → ∃ h, find_enclosing_pair open close t = Done h ∧
  ∀ op cp, h = Some (op, cp) → valid (lines t) op ∧ valid (lines t) cp.
Proof.
  intros Hs W. unfold find_enclosing_pair. cbv zeta.
  assert (∀ op x, char_at op.1 op.2 t = Some x → ∃ h, (cp ←! scan_forward_match open close op t; Done (Some (op, cp))) = Done h ∧ ∀ a b, h = Some (a, b) → valid (lines t) a ∧ valid (lines t) b) as Hfwd.
  { intros op x Hx. destruct (forward_ok open close t op x Hs Hx) as (h & -> & Hh). destruct h as [cp|]; cbn [opt_try]; [|exists None; split; [done|by intros]].
    eexists. split; [reflexivity|]. intros a b [= <- <-]. split; [by eapply char_valid|]. eapply (char_valid t cp close), (found_char t op x); [done|by apply Hh]. }
  assert (∃ h, (op ←! scan_back_enclosing_open open close (cursor t) t; cp ←! scan_forward_match open close op t; Done (Some (op, cp))) = Done h ∧
    ∀ a b, h = Some (a, b) → valid (lines t) a ∧ valid (lines t) b) as Hin.
  { destruct (enclosing_open_ok open close t (cursor t) Hs (wf_cursor t W)) as (h & -> & Hh). destruct h as [op|]; cbn [opt_try]; [|exists None; split; [done|by intros]]. by eapply Hfwd, Hh. }
  destruct (char_at (cursor t).1 (cursor t).2 t) as [c|] eqn:Ec; [|exact Hin]. destruct (c =? open)%Z; [by eapply Hfwd|]. destruct (c =? close)%Z; [|exact Hin].
  destruct (backward_ok open close t (cursor t) c Hs Ec) as (h & -> & Hh). destruct h as [op|]; cbn [opt_try]; [|exists None; split; [done|by intros]].
  eexists. split; [reflexivity|]. intros a b [= <- <-]. split; [|apply W]. eapply (char_valid t op open), (found_char t (cursor t) c); [done|by apply Hh].
Qed.
Definition object_found (t : TextBuffer) (m : outcome (option (Pos * Pos))) : Prop := ∃ h, m = Done h ∧ ∀ lo hi, h = Some (lo, hi) → valid (lines t) lo.
Lemma pair_object_ok open close around t : small t → wf t → object_found t (pair_object open close around t).
Proof.
  intros Hs W. unfold pair_object. destruct (enclosing_pair_ok open close t Hs W) as (h & -> & Hh). destruct h as [[op cp]|]; cbn [opt_try]; [|exists None; split; [done|by intros]].
  destruct (Hh op cp eq_refl) as [Vo Vc]. destruct around; [exists (Some (op, cp)); split; [done|by intros lo hi [= <- <-]]|]. eexists. split; [reflexivity|]. intros lo hi.
  pose proof (next_spec t op Vo) as Hn. unfold pos_after. destruct (next_pos t op) as [q|]; [|done]. destruct (pos_before t cp); [|done]. destruct (pos_leb _ _); [|done]. intros [= <- _]. apply Hn.
Qed.
Lemma quote_pairs_ok row col around n quotes lo hi : Forall (λ i, i < n) quotes → quote_pairs row col around quotes = Some (lo, hi) → lo.1 = row ∧ lo.2 ≤ n.
Proof.
  assert (∀ m qs, length qs ≤ m → Forall (λ i, i < n) qs → quote_pairs row col around qs = Some (lo, hi) → lo.1 = row ∧ lo.2 ≤ n) as Hm; [|by apply (Hm (length quotes))].
  induction m as [|m IH]; intros [|a [|b rest]] Hl Hq; cbn [quote_pairs length] in *; try (done || lia). apply Forall_cons in Hq as [Ha [Hb Hq]%Forall_cons].
  destruct (col <=? b); [|apply IH; [lia|done]]. destruct around; [intros [= <- <-]; cbn; lia|]. destruct (Nat.ltb_spec (a + 1) b); [intros [= <- <-]; cbn; lia|done].
Qed.
Lemma quote_object_ok q around t lo hi : wf t → quote_object q around t = Some (lo, hi) → valid (lines t) lo.
Proof.
  intros W. destruct (wf_cursor t W) as (l & Hl & _). unfold quote_object. change (cursor t) with (row t, col t) in *. cbn [fst] in Hl. cbv beta iota. intros Hq.
  apply (quote_pairs_ok _ _ _ (length l)) in Hq as [E1 E2]; [exists l; by rewrite E1|]. apply Forall_forall. intros i Hi. apply list_elem_of_omap in Hi as ([j c] & Hj & Hc). unfold line in Hj. rewrite Hl in Hj. cbn in Hj.
  apply list_elem_of_lookup in Hj as [k Hk]. rewrite list_lookup_imap in Hk. destruct (l !! k) eqn:El; [|done]. injection Hk as <- <-. cbn in Hc. destruct (_ =? _)%Z; [|done]. injection Hc as <-. by eapply lookup_lt_Some.
Qed.
Lemma ws_start_le t r s : ws_start t r s ≤ s.
Proof. induction s as [|s IH]; [done|]. cbn. destruct (ws_at t r s); lia. Qed.
Lemma ws_end_ok t r len : ∀ fuel e, len - e < fuel → ∃ x, ws_end fuel t r len e = Done x.
Proof.
  induction fuel as [|fuel IH]; intros e Hf; [lia|]. cbn [ws_end]. destruct (Nat.ltb_spec (e + 1) len); cbn [andb]; [|by eexists]. destruct (ws_at t r (e + 1)); [apply IH; lia|by eexists].
Qed.
Section WithWords.
Context `{!Unicode}.
Lemma run_lo_le t r g lo : run_lo t r g lo ≤ lo.
Proof. induction lo as [|lo IH]; [done|]. cbn. case_bool_decide; lia. Qed.
Lemma run_hi_ok t r len g : ∀ fuel hi, len - hi < fuel → ∃ x, run_hi fuel t r len g hi = Done x.
Proof.
  induction fuel as [|fuel IH]; intros hi Hf; [lia|]. cbn [run_hi]. destruct (Nat.ltb_spec (hi + 1) len); cbn [andb]; [|by eexists]. case_bool_decide; [apply IH; lia|by eexists].
Qed.
Lemma word_object_ok around t : wf t → object_found t (word_object around t).
Proof.
  intros W. destruct (wf_cursor t W) as (l & Hl & Hc). unfold word_object, word_span_at. cbv zeta. assert (char_len (cursor t).1 t = length l) as El by (unfold char_len; by rewrite Hl). rewrite El.
  destruct (Nat.eqb_spec (length l) 0); [exists None; split; [done|by intros]|]. set (c := _ `min` _).
  destruct (run_hi_ok t (cursor t).1 (length l) (class t ((cursor t).1, c)) (S (length l)) c) as [hi ->]; [lia|]. rewrite bind_done. cbn [opt_try fst snd].
  pose proof (run_lo_le t (cursor t).1 (class t ((cursor t).1, c)) c) as Hlo. set (lo := run_lo _ _ _ _) in *.
  assert (∀ x, x ≤ lo → valid (lines t) ((cursor t).1, x)) as Hv by (intros x Hx; exists l; split; [done|]; cbn; unfold c in Hlo; lia).
  destruct around; [|eexists; split; [reflexivity|]; intros a b [= <- <-]; by apply Hv]. destruct (ws_end_ok t (cursor t).1 (length l) (S (length l)) hi) as [x ->]; [lia|]. rewrite bind_done.
  destruct (hi <? x); eexists; (split; [reflexivity|]); intros a b [= <- <-]; apply Hv; [done|apply ws_start_le].
Qed.
Lemma text_object_ok around obj t : small t → wf t → object_found t (text_object around obj t).
Proof.
  intros Hs W. unfold text_object. repeat match goal with |- object_found t (if ?b then _ else _) => destruct b end;
    first [by apply pair_object_ok|by apply word_object_ok|exists None; split; [done|by intros]|eexists; split; [reflexivity|]; intros lo hi E; by eapply quote_object_ok].
Qed.
End WithWords.

End NoraObjects.
