(* ===== verification/NoraKeys.v ===== *)
(** * The editor: what every key keeps *)

From S2P Require Import Prelude Digits Vt Kaua KauaIn NoraText NoraDiag NoraEdit NoraSpec NoraOps NoraMulti.
From stdpp Require Import strings.
Import NoraText NoraFlat NoraSpec NoraRefine NoraOps NoraFind NoraEdit NoraMulti NoraObjects NoraReplace.
Open Scope nat_scope.

Module NoraKeys.

(** ** Documents *)

(** What there is to lose of a document: its text, whether it is read only, and
    whether it is marked modified. *)
Notation Work := (list Z * bool * bool)%type.
Definition work (d : DocState) : Work := (content (b_text d), b_readonly d, b_modified d).
Definition shown (e : Editor) : Work := (content (text e), readonly e, modified e).
(** Of every buffer; the active one's is the live one. *)
Definition works (e : Editor) : list Work := <[active e := shown e]> (work <$> bufs e).

(** A text that changes is marked modified, and a read-only one does not change. *)
Definition kept (w w' : Work) : Prop :=
  w'.1.2 = w.1.2 ∧ (w.1.2 = true → w'.1.1 = w.1.1 ∧ w'.2 = w.2) ∧ (w'.2 = false → w.2 = false ∧ w'.1.1 = w.1.1).
(** What may happen to the documents: one is edited; one is closed, which is not
    modified, or is read only, or is given up ([forced]); one is added. *)
Inductive changes (forced : Prop) : list Work → list Work → Prop :=
  | ch_edit ws i w w' : ws !! i = Some w → kept w w' → changes forced ws (<[i := w']> ws)
  | ch_close ws i w : ws !! i = Some w → w.2 = false ∨ w.1.2 = true ∨ forced → changes forced ws (base.delete i ws)
  | ch_add ws w : w.2 = false → changes forced ws (ws ++ [w]).

(** ** The invariant *)

Definition doc_ok (d : DocState) : Prop := wf (b_text d).
(** The text, the count being typed, and a text object being named, which is named
    with one cursor. *)
Record local_ok (e : Editor) : Prop := mkLocal {
  b_wf : wf (text e);
  b_count : match count e with Some n => (0 ≤ n ≤ COUNT_MAX)%Z | None => True end;
  b_pend : match pending e with Some Match_ | Some (TextObject _) => carets e = [] ∧ split_buf e = None | _ => True end
}.
Record base (e : Editor) : Prop := mkBase {
  b_local : local_ok e;
  b_active : active e < length (bufs e);
  b_bufs : Forall doc_ok (bufs e)
}.
(** In visual mode the anchor is a position and the cursors select matches; what
    types may type. *)
Definition mode_ok (e : Editor) : Prop :=
  match mode e with
  | Visual => (∀ a, anchor e = Some a → valid (lines (text e)) a) ∧ (carets e = [] ∨ ∃ pat, marked pat (carets e) (lines (text e)))
  | Insert_ | Completion _ => readonly e = false
  | _ => True
  end.
Definition einv (e : Editor) : Prop := base e ∧ mode_ok e.
Definition no_save (e : Editor) : Prop := ∀ p, request e ≠ Some (Save p).

(** What a key does, [forced] and [quits] being what it asked for; a save is asked
    for in normal mode, and of the text as it is. *)
Record post (forced quits : Prop) (e e' : Editor) : Prop := mkPost {
  p_inv : einv e';
  p_works : rtc (changes forced) (works e) (works e');
  p_req : ∀ p, request e' = Some (Save p) → mode e' = Normal ∧ rev (text e') = rev (text e);
  p_quit : quit e' = true → quit e = true ∨ modified e = false ∨ readonly e = true ∨ quits
}.
Definition keyed (forced quits : Prop) (e : Editor) (m : outcome Editor) : Prop := ∃ e', m = Done e' ∧ post forced quits e e'.

Section Post.
Context (F Q : Prop).

Notation same e := (lines (text e), readonly e, modified e, bufs e, active e, quit e).
Lemma content_lines t t' : lines t = lines t' → content t = content t'.
Proof. unfold content. by intros ->. Qed.
Lemma works_same e e' : lines (text e') = lines (text e) → readonly e' = readonly e → modified e' = modified e → bufs e' = bufs e → active e' = active e → works e' = works e.
Proof. unfold works, shown. intros H1 -> -> -> ->. by rewrite (content_lines _ _ H1). Qed.
Lemma works_len e : length (works e) = length (bufs e).
Proof. unfold works. by rewrite length_insert, length_fmap. Qed.
Lemma works_shown e : base e → works e !! active e = Some (shown e).
Proof. intros B. unfold works. apply list_lookup_insert_eq. rewrite length_fmap. apply B. Qed.
(** The document as it was. *)
Lemma post_doc e e' : base e → same e' = same e → local_ok e' → mode_ok e' → no_save e' → post F Q e e'.
Proof.
  intros [B1 B2 B3] Hs L Hm Hr. injection Hs as H1 H2 H3 H4 H5 H6. split; [split; [split; [done|by rewrite H4, H5|by rewrite H4]|done]| |intros p E; by destruct (Hr p)|rewrite H6; auto].
  rewrite (works_same e e') by done. apply rtc_refl.
Qed.
(** The active document edited. *)
Lemma post_edit e e' : base e → readonly e = false → readonly e' = false → modified e' = true → bufs e' = bufs e → active e' = active e → quit e' = quit e →
  local_ok e' → mode_ok e' → no_save e' → post F Q e e'.
Proof.
  intros B H1 H2 H3 H4 H5 H6 L Hm Hr. split; [split; [split; [done|rewrite H4, H5; apply B|rewrite H4; apply B]|done]| |intros p E; by destruct (Hr p)|rewrite H6; auto].
  apply rtc_once. replace (works e') with (<[active e := shown e']> (works e)).
  - apply (ch_edit F _ _ (shown e)); [by apply works_shown|]. unfold shown. rewrite H1, H2, H3. done.
  - unfold works. rewrite list_insert_insert_eq. by rewrite H4, H5.
Qed.
(** Post-conditions after a change that leaves the documents alone. *)
Lemma post_from e e1 e' : (rev (text e1), same e1) = (rev (text e), same e) → post F Q e1 e' → post F Q e e'.
Proof.
  intros Hs [P1 P2 P3 P4]. injection Hs as H0 H1 H2 H3 H4 H5 H6. split; [done| |by rewrite <-H0|by rewrite H6, H3, H2 in P4]. by rewrite (works_same e e1) in P2.
Qed.
Lemma keyed_from e e1 m : (rev (text e1), same e1) = (rev (text e), same e) → keyed F Q e1 m → keyed F Q e m.
Proof. intros Hs (e' & E & P). exists e'. split; [done|]. by eapply post_from. Qed.
Lemma keyed_done e e' : post F Q e e' → keyed F Q e (Done e').
Proof. intros P. by exists e'. Qed.
End Post.

(** ** Moves *)

(** The cursor elsewhere in the same lines. *)
Definition glide (t t' : TextBuffer) : Prop := wf t' ∧ lines t' = lines t ∧ rev t' = rev t.
Definition slid (e e' : Editor) : Prop := ∃ t, e' = with_text t e ∧ glide (text e) t.
Lemma glide_refl t : wf t → glide t t.
Proof. by split. Qed.
Lemma slid_refl e : wf (text e) → slid e e.
Proof. intros W. exists (text e). split; [by destruct e|by apply glide_refl]. Qed.
Lemma slid_trans e1 e2 e3 : slid e1 e2 → slid e2 e3 → slid e1 e3.
Proof. intros (t & -> & W1 & L1 & R1) (t' & -> & W2 & L2 & R2). exists t'. split; [done|]. cbn in *. split; [done|]. split; congruence. Qed.
Lemma slid_wf e e' : slid e e' → wf (text e').
Proof. by intros (t & -> & W & _). Qed.

Section Glides.
Context `{!Unicode}.
Lemma glide_set r c t : wf t → glide t (set_cursor r c t).
Proof. intros W. split; [by apply set_cursor_wf|done]. Qed.
Lemma glide_op o t t' : wf t → run_op o t = Done t' → does o t → lines t' = lines t → rev t' = rev t → glide t t'.
Proof. intros W E D L R. split; [by eapply moved_does|done]. Qed.
Lemma glide_left t : wf t → glide t (move_left t).
Proof. intros W. eapply (glide_op Left); [done|done|by apply left_does|unfold move_left; repeat case_match; done..]. Qed.
Lemma glide_right t : wf t → glide t (move_right t).
Proof. intros W. eapply (glide_op Right); [done|done|by apply right_does|unfold move_right; repeat case_match; done..]. Qed.
Lemma glide_up t : wf t → glide t (NoraText.move_up t).
Proof. intros W. eapply (glide_op Up); [done|done|by apply up_does|unfold NoraText.move_up; repeat case_match; done..]. Qed.
Lemma glide_down t : wf t → glide t (NoraText.move_down t).
Proof. intros W. eapply (glide_op Down); [done|done|by apply down_does|unfold NoraText.move_down; repeat case_match; done..]. Qed.
Lemma glide_home t : wf t → glide t (move_home t).
Proof. intros W. eapply (glide_op Home); [done|done|by apply home_does|done..]. Qed.
Lemma glide_end t : wf t → glide t (move_end t).
Proof. intros W. eapply (glide_op End); [done|done|by apply end_does|done..]. Qed.
Lemma glide_top t : wf t → glide t (move_top t).
Proof. intros W. eapply (glide_op Top); [done|done|by apply top_does|done..]. Qed.
Lemma glide_bottom t : wf t → glide t (move_bottom t).
Proof. intros W. eapply (glide_op Bottom); [done|done|by apply bottom_does|done..]. Qed.
Lemma glide_checkpoint t : wf t → glide t (checkpoint t).
Proof. intros W. split; [by apply checkpoint_wf|done]. Qed.
(** A word motion ends where it puts the cursor. *)
Definition puts (m : outcome TextBuffer) (t : TextBuffer) : Prop := ∀ t', m = Done t' → t' = t ∨ ∃ q : Pos, t' = set_cursor q.1 q.2 t.
Lemma puts_bind {A} (m : outcome A) k t : (∀ a, puts (k a) t) → puts (a ← m; k a) t.
Proof. intros Hk t'. destruct m; cbn; [apply Hk|done..]. Qed.
Lemma puts_forward big t : puts (word_forward big t) t.
Proof. unfold word_forward. apply puts_bind. intros [q b]. apply puts_bind. intros [q' b'] t' [= <-]. right. by exists q'. Qed.
Lemma puts_scan step t : puts (scan_word step t) t.
Proof.
  unfold scan_word. destruct (step (cursor t)) as [q|]; [|intros t' [= <-]; by left]. apply puts_bind. intros [q' [|]]; [intros t' [= <-]; right; by exists q'|].
  apply puts_bind. intros q2 t' [= <-]. right. by exists q2.
Qed.
Lemma glide_word o m t : wf t → run_op o t = m → does o t → puts m t → ∃ t', m = Done t' ∧ glide t t'.
Proof.
  intros W E (t' & E' & W' & _) P. exists t'. rewrite E in E'. split; [done|]. destruct (P t' E') as [->|[q ->]]; [by apply glide_refl|by apply glide_set].
Qed.
Lemma glide_forward big t : wf t → ∃ t', word_forward big t = Done t' ∧ glide t t'.
Proof. intros W. apply (glide_word (WordForward big)); [done|done|by apply word_forward_does|apply puts_forward]. Qed.
Lemma glide_word_end t : wf t → ∃ t', move_word_end t = Done t' ∧ glide t t'.
Proof. intros W. apply (glide_word WordEnd); [done|done|by apply end_does_word|apply puts_scan]. Qed.
Lemma glide_word_back t : wf t → ∃ t', move_word_back t = Done t' ∧ glide t t'.
Proof. intros W. apply (glide_word WordBack); [done|done|by apply back_does|apply puts_scan]. Qed.
End Glides.

(** ** Keys that move, or only show *)

Notation core e := (lines (text e), mode e, anchor e, carets e, readonly e, modified e, bufs e, active e, request e, quit e).
Definition calm (m : Mode) : Prop := match m with Visual | Insert_ | Completion _ => False | _ => True end.
Lemma base_wf e : base e → wf (text e).
Proof. intros B. apply B. Qed.
(** Between keys no prefix waits when a handler is reached. *)
Lemma local_none e : wf (text e) → match count e with Some n => (0 ≤ n ≤ COUNT_MAX)%Z | None => True end → pending e = None → local_ok e.
Proof. intros W C P. split; [done|done|by rewrite P]. Qed.
Ltac locally := apply local_none; [try done|try done|try done].

Section Moves.
Context (F Q : Prop) `{!Unicode, !Manual}.

Lemma post_core e e' : einv e → no_save e → core e' = core e → local_ok e' → post F Q e e'.
Proof.
  intros [B M] N Hc L. injection Hc as H1 H2 H3 H4 H5 H6 H7 H8 H9 H10. apply post_doc; [done|by rewrite H1, H5, H6, H7, H8, H10|done| |].
  - unfold mode_ok in *. by rewrite H2, H3, H4, H1, H5.
  - intros p. rewrite H9. intros E. by destruct (N p).
Qed.
Lemma post_calm e e' : base e → no_save e → (lines (text e'), readonly e', modified e', bufs e', active e', quit e') = (lines (text e), readonly e, modified e, bufs e, active e, quit e) →
  request e' = request e → calm (mode e') → local_ok e' → post F Q e e'.
Proof.
  intros B N Hs Hr Hm L. apply post_doc; [done|done|done| |].
  - unfold mode_ok. by destruct (mode e').
  - intros p. rewrite Hr. intros E. by destruct (N p).
Qed.
Lemma local_with t e : wf t → local_ok e → local_ok (with_text t e).
Proof. intros W L. split; [done|apply L|apply L]. Qed.
Lemma post_slid e e' : einv e → no_save e → slid e e' → post F Q e e'.
Proof. intros I N (t & -> & W & L & R). apply post_core; [done|done|cbn; by rewrite L|]. apply local_with; [done|apply I]. Qed.
Lemma post_same e : einv e → no_save e → post F Q e e.
Proof. intros I N. apply post_core; [done|done|done|apply I]. Qed.

Lemma slid_mv f e : glide (text e) (f (text e)) → slid e (mv f e).
Proof. intros G. by exists (f (text e)). Qed.
Lemma slid_set r c e : wf (text e) → slid e (mv (set_cursor r c) e).
Proof. intros W. by apply slid_mv, glide_set. Qed.
Lemma slid_up e : wf (text e) → slid e (move_up e).
Proof. intros W. unfold move_up, cursor. repeat case_match; simplify_eq; [by apply slid_mv, glide_up|by apply slid_set..|by apply slid_refl]. Qed.
Lemma slid_down e : wf (text e) → slid e (move_down e).
Proof. intros W. unfold move_down, cursor. repeat case_match; simplify_eq; [by apply slid_mv, glide_down|by apply slid_set..|by apply slid_refl]. Qed.
Lemma slid_iter f n e : (∀ e, wf (text e) → slid e (f e)) → wf (text e) → slid e (Nat.iter n f e).
Proof. intros Hf W. induction n as [|n IH]; [by apply slid_refl|]. eapply slid_trans; [exact IH|]. by eapply Hf, slid_wf. Qed.
Lemma slid_page up e : wf (text e) → slid e (page up e).
Proof. intros W. apply slid_iter; [|done]. intros e0 W0. destruct up; [by apply slid_up|by apply slid_down]. Qed.
Lemma slid_find kind c e : wf (text e) → slid e (find_char kind c e).
Proof. intros W. unfold find_char, cursor. case_match; [by apply slid_set|by apply slid_refl]. Qed.
Lemma slid_repeat b e : wf (text e) → slid e (repeat_find b e).
Proof. intros W. unfold repeat_find. repeat case_match; [by apply slid_find..|by apply slid_refl]. Qed.
(** A move repeated. *)
Lemma slid_times f n e : (∀ e, wf (text e) → ∃ e', f e = Done e' ∧ slid e e') → wf (text e) → ∃ e', times n f e = Done e' ∧ slid e e'.
Proof.
  intros Hf. revert e. induction n as [|n IH]; intros e W; [exists e; split; [done|by apply slid_refl]|]. cbn [times]. destruct (Hf e W) as (e1 & -> & S1). rewrite bind_done.
  destruct (IH e1 (slid_wf _ _ S1)) as (e2 & -> & S2). exists e2. split; [done|]. by eapply slid_trans.
Qed.
Lemma slid_on f e : (∀ t, wf t → ∃ t', f t = Done t' ∧ glide t t') → wf (text e) → ∃ e', on_text f e = Done e' ∧ slid e e'.
Proof. intros Hf W. destruct (Hf _ W) as (t & E & G). exists (with_text t e). unfold on_text. rewrite E. split; [done|by exists t]. Qed.
Lemma keyed_slid e m : einv e → no_save e → (∃ e', m = Done e' ∧ slid e e') → keyed F Q e m.
Proof. intros I N (e' & E & S). exists e'. split; [done|by apply post_slid]. Qed.
Lemma keyed_to e e' : einv e → no_save e → slid e e' → keyed F Q e (Done e').
Proof. intros I N S. apply keyed_slid; eauto. Qed.

(** ** Search, brackets, text objects *)

Lemma find_total pat t : pat ≠ [] → wf t → ∃ h, find pat t = Done h.
Proof.
  intros Hp W. destruct (probes pat t Hp W (line_count t + 1) 0) as (h & E & _); [lia|lia|]. exists h. unfold find. by destruct pat.
Qed.
Lemma search_key pat e : einv e → no_save e → keyed F Q e (search pat e).
Proof.
  intros I N. pose proof I as [B _]. pose proof (base_wf e B) as W. unfold search. destruct pat as [|c pat']; [apply keyed_to; [done|done|by apply slid_refl]|].
  destruct (find_total (c :: pat') (text e)) as [h ->]; [done..|]. rewrite bind_done. destruct h as [[r k]|]; [apply keyed_to; [done|done|by apply slid_set]|].
  apply keyed_done, post_core; [done|done|done|]. split; apply B.
Qed.
Lemma diagnostic_key b e : einv e → no_save e → keyed F Q e (Done (goto_diagnostic b e)).
Proof.
  intros I N. pose proof I as [B _]. pose proof (base_wf e B) as W. apply keyed_done. unfold goto_diagnostic. destruct (_ : option NoraDiag.LineDiag) as [d|];
    (apply post_core; [done|done|done|]); split; try apply B. by apply set_cursor_wf.
Qed.
Lemma bracket_key e : einv e → no_save e → small (text e) → keyed F Q e (match_bracket e).
Proof.
  intros I N Hs. pose proof I as [B _]. pose proof (base_wf e B) as W. unfold match_bracket. cbv zeta. destruct (char_at _ _ (text e)) as [here|] eqn:Eh; [|apply keyed_to; [done|done|by apply slid_refl]].
  assert (∀ m : outcome (option Pos), (∃ h, m = Done h) → keyed F Q e (dest ← m; Done (match dest with Some q => mv (set_cursor q.1 q.2) e | None => e end))) as Hm.
  { intros m [h ->]. rewrite bind_done. apply keyed_to; [done|done|]. destruct h; [by apply slid_set|by apply slid_refl]. }
  apply Hm. repeat match goal with |- ∃ h, (if ?b then _ else _) = _ => destruct b end; try (by eexists);
    first [edestruct forward_ok as (h & Eq & _); [exact Hs|exact Eh|by exists h]|edestruct backward_ok as (h & Eq & _); [exact Hs|exact Eh|by exists h]].
Qed.
Lemma object_key around obj e : einv e → no_save e → small (text e) → carets e = [] → pending e = None → keyed F Q e (select_text_object around obj e).
Proof.
  intros I N Hs Hc Hp. pose proof I as [B _]. pose proof (base_wf e B) as W. unfold select_text_object. destruct (text_object_ok around obj (text e) Hs W) as (h & -> & Hh). rewrite bind_done.
  apply keyed_done. destruct h as [[lo hi]|]; [|by apply post_same]. apply post_doc; [done|done|locally; [by apply set_cursor_wf|apply B]| |].
  - split; [intros a [= <-]; by eapply Hh|by left].
  - intros p E. by destruct (N p).
Qed.
End Moves.

(** ** Keys that edit *)

(** An edit of the text that takes at most [k] revisions. *)
Definition edits (f : TextBuffer → outcome TextBuffer) (k : Z) : Prop :=
  ∀ t, wf t → (rev t + k ≤ u_max 64)%Z → ∃ t', f t = Done t' ∧ wf t' ∧ (rev t' ≤ rev t + k)%Z.

(** No word motion is made by an edit, and any table will do. *)
#[local] Instance plain_table : Unicode := {| is_alphanumeric _ := true |}.
Section Edits.
Context (F Q : Prop).

Lemma edit_op o f : (∀ t, run_op o t = f t) → (∀ t, allowed o t) → edits f (cost o).
Proof. intros Ef Ha t W Hr. destruct (op_does o t W (Ha t) Hr) as (t' & E & W' & _ & R & _). exists t'. rewrite <-Ef. split; [done|]. split; [done|lia]. Qed.
Lemma edits_newline : edits insert_newline 1.
Proof. by apply (edit_op InsertNewline). Qed.
Lemma edits_char c : edits (insert_char c) 2.
Proof. by apply (edit_op (InsertChar c)). Qed.
Lemma edits_str s : edits (insert_str s) (1 + 2 * zlen s).
Proof. by apply (edit_op (InsertStr s)). Qed.
Lemma edits_backspace : edits backspace 2.
Proof. by apply (edit_op Backspace). Qed.
Lemma edits_delete : edits delete_char 2.
Proof. by apply (edit_op DeleteChar). Qed.
Lemma edits_line : edits delete_line 2.
Proof. by apply (edit_op DeleteLine). Qed.
(** An edit repeated. *)
Lemma times_edit g f k n e : edits f k → (0 ≤ k)%Z → (∀ t, g (with_text t e) = on_text f (with_text t e)) → ∀ t, wf t → (rev t + Z.of_nat n * k ≤ u_max 64)%Z →
  ∃ t', times n g (with_text t e) = Done (with_text t' e) ∧ wf t' ∧ (rev t' ≤ rev t + Z.of_nat n * k)%Z.
Proof.
  intros Hf Hk Hg. induction n as [|n IH]; intros t W Hr; [exists t; split; [done|]; split; [done|lia]|]. cbn [times]. rewrite Hg.
  destruct (Hf t W) as (t1 & E1 & W1 & R1); [nia|]. unfold on_text. change (text (with_text t e)) with t. rewrite E1, !bind_done. change (with_text t1 (with_text t e)) with (with_text t1 e).
  destruct (IH t1 W1) as (t2 & E2 & W2 & R2); [nia|]. exists t2. split; [done|]. split; [done|nia].
Qed.
Lemma with_text_same e : with_text (text e) e = e.
Proof. by destruct e. Qed.

(** The active text edited, in a mode that may. *)
Lemma edited_post e e' : einv e → no_save e → readonly e = false → (readonly e', modified e', bufs e', active e', quit e', request e') = (readonly e, true, bufs e, active e, quit e, request e) →
  local_ok e' → mode e' ≠ Visual → post F Q e e'.
Proof.
  intros [B M] N Hr Hs L Hm. injection Hs as H1 H2 H3 H4 H5 H6. apply post_edit; [done|done|by rewrite H1|done..| |].
  - unfold mode_ok. rewrite H1. by destruct (mode e').
  - intros p. rewrite H6. intros E. by destruct (N p).
Qed.
Lemma typed_key f k e : einv e → no_save e → mode e = Insert_ → pending e = None → edits f k → (rev (text e) + k ≤ u_max 64)%Z → keyed F Q e (typed f e).
Proof.
  intros I N Hm Hp Hf Hr. pose proof I as [B M]. destruct (Hf (text e) (base_wf e B) Hr) as (t & E & W & _). unfold typed, on_text. rewrite E, !bind_done. apply keyed_done.
  unfold mode_ok in M. rewrite Hm in M. apply edited_post; [done|done|done|done|locally; apply B|cbn; by rewrite Hm].
Qed.
Lemma caret_edits edit : edits (edit_at_caret edit) 2.
Proof. destruct edit as [c| |]; [apply edits_char| |apply edits_backspace]. intros t W Hr. destruct (edits_newline t W) as (t' & E & W' & R); [lia|]. exists t'. split; [done|]. split; [done|lia]. Qed.
(** A key at every cursor, wherever the cursors are. *)
Lemma apply_carets edit : ∀ m i cs t, i + m = length cs → wf t → (rev t + 2 * Z.of_nat m ≤ u_max 64)%Z →
  ∃ cs' t', foldM (apply_caret edit) (cs, t) (seq i m) = Done (cs', t') ∧ length cs' = length cs ∧ wf t' ∧ (rev t' ≤ rev t + 2 * Z.of_nat m)%Z.
Proof.
  induction m as [|m IH]; intros i cs t Hi W Hr; [exists cs, t; split; [done|]; split; [done|]; split; [done|lia]|]. cbn [seq foldM].
  destruct (lookup_lt_is_Some_2 cs i) as [s0 Hs]; [lia|]. unfold apply_caret at 2. rewrite Hs. cbn [unwrap]. rewrite bind_done. cbv zeta.
  destruct (caret_edits edit (set_cursor (s_head s0).1 (s_head s0).2 t)) as (t1 & E1 & W1 & R1); [by apply set_cursor_wf|cbn; lia|]. rewrite E1, !bind_done. cbn [rev set_cursor set_pos] in R1.
  edestruct (IH (S i)) as (cs' & t' & E & L' & W' & R'); [|exact W1| |exists cs', t'; split; [exact E|]; split; [|split; [done|lia]]].
  - rewrite length_app. cbn. rewrite length_fmap, length_take_le, length_drop by lia. lia.
  - lia.
  - rewrite L', length_app. cbn. rewrite length_fmap, length_take_le, length_drop by lia. lia.
Qed.
Lemma multi_ok edit e : carets e ≠ [] → wf (text e) → (rev (text e) + 2 * zlen (carets e) ≤ u_max 64)%Z →
  ∃ cs t, multi_apply edit e = Done (with_modified true (with_carets cs (with_text t e))) ∧ cs ≠ [] ∧ length cs = length (carets e) ∧ wf t ∧ (rev t ≤ rev (text e) + 2 * zlen (carets e))%Z.
Proof.
  intros Hc W Hr. destruct (apply_carets edit (length (carets e)) 0 (carets e) (text e)) as (cs & t & E & Hl & W' & R'); [done|done|done|]. unfold multi_apply. rewrite E, bind_done. cbv beta iota.
  assert (cs ≠ []) as Hn. { intros ->. cbn in Hl. by destruct (carets e). } destruct (primary (with_carets cs (with_text t e))) as (s0 & _ & Es); [done|]. rewrite Es, bind_done.
  exists cs, (set_cursor (s_head s0).1 (s_head s0).2 t). split; [done|]. split; [done|]. split; [done|]. split; [by apply set_cursor_wf|done].
Qed.
Lemma multi_key edit e : einv e → no_save e → mode e = Insert_ → pending e = None → carets e ≠ [] → (rev (text e) + 2 * zlen (carets e) ≤ u_max 64)%Z → keyed F Q e (multi_apply edit e).
Proof.
  intros I N Hm Hp Hc Hr. pose proof I as [B M]. destruct (multi_ok edit e Hc (base_wf e B) Hr) as (cs & t & -> & _ & _ & W & _). apply keyed_done.
  unfold mode_ok in M. rewrite Hm in M. apply edited_post; [done|done|done|done|locally; apply B|cbn; by rewrite Hm].
Qed.
Lemma multi_times edit n e : mode e = Insert_ → carets e ≠ [] → wf (text e) → (rev (text e) + Z.of_nat n * (2 * zlen (carets e)) ≤ u_max 64)%Z → 0 < n →
  ∃ cs t, times n (multi_apply edit) e = Done (with_modified true (with_carets cs (with_text t e))) ∧ wf t.
Proof.
  revert e. induction n as [|n IH]; intros e Hm Hc W Hr Hn; [lia|]. cbn [times]. destruct (multi_ok edit e Hc W) as (cs & t & -> & Hcs & Hl & W1 & R1); [nia|]. rewrite bind_done.
  destruct n as [|n]; [exists cs, t; split; [done|done]|]. destruct (IH (with_modified true (with_carets cs (with_text t e)))) as (cs' & t' & E & W'); [done|done|done|cbn; rewrite Hl; nia|lia|]. rewrite E. by exists cs', t'.
Qed.
Lemma mode_calm e m : einv e → no_save e → calm m → keyed F Q e (Done (with_mode m e)).
Proof. intros [B M] N Hm. apply keyed_done, post_calm; [done|done|done|done|done|]. destruct B as [[] _ _]. by split. Qed.
Lemma multi_insert_key k e : einv e → no_save e → mode e = Insert_ → pending e = None → carets e ≠ [] → (rev (text e) + 8 * zlen (carets e) ≤ u_max 64)%Z → keyed F Q e (multi_insert k e).
Proof.
  intros I N Hm Hp Hc Hr. unfold multi_insert. destruct (KauaIn.code k); try (apply keyed_done; by apply post_same); try (by apply mode_calm); try (apply multi_key; done || lia).
  pose proof I as [B M]. destruct (multi_times (MChar 32) 4 e Hm Hc (base_wf e B)) as (cs & t & -> & W); [lia|lia|]. apply keyed_done.
  unfold mode_ok in M. rewrite Hm in M. apply edited_post; [done|done|done|done|locally; apply B|cbn; by rewrite Hm].
Qed.
Lemma insert_key k e : einv e → no_save e → mode e = Insert_ → pending e = None → (rev (text e) + 10 + 8 * zlen (carets e) ≤ u_max 64)%Z → keyed F Q e (insert k e).
Proof.
  intros I N Hm Hp Hr. unfold insert. destruct (carets e) as [|s0 cs] eqn:Ec; [|apply multi_insert_key; [done..|by rewrite Ec|rewrite Ec; lia]]. pose proof I as [B M]. pose proof (base_wf e B) as W.
  unfold insert_single. destruct (KauaIn.is_ctrl k _). { apply keyed_done, post_core; [done|done|done|]. destruct B as [[] _ _]. by split. }
  destruct (KauaIn.code k); try (apply keyed_done; by apply post_same); try (by apply mode_calm).
  - eapply typed_key; [done..|apply edits_char|cbn in Hr; lia].
  - eapply typed_key; [done..|apply edits_newline|cbn in Hr; lia].
  - eapply typed_key; [done..|apply edits_backspace|cbn in Hr; lia].
  - eapply typed_key; [done..|apply edits_str|cbn in Hr |- *; lia].
  - apply keyed_to; [done|done|by apply slid_mv, glide_left].
  - apply keyed_to; [done|done|by apply slid_mv, glide_right].
  - apply keyed_to; [done|done|by apply slid_up].
  - apply keyed_to; [done|done|by apply slid_down].
  - apply keyed_to; [done|done|by apply slid_mv, glide_home].
  - apply keyed_to; [done|done|by apply slid_mv, glide_end].
  - apply keyed_to; [done|done|by apply slid_page].
  - apply keyed_to; [done|done|by apply slid_page].
  - eapply typed_key; [done..|apply edits_delete|cbn in Hr; lia].
Qed.
End Edits.

(** ** Completion, selections, the prompt *)

Section Handlers.
Context (F Q : Prop) `{!Unicode, !Manual}.

Lemma insert_after_close k e : einv e → no_save e → (∃ sel, mode e = Completion sel) → pending e = None → (rev (text e) + 10 + 8 * zlen (carets e) ≤ u_max 64)%Z →
  keyed F Q e (insert k (close_completion e)).
Proof.
  intros [B M] N [sel Hm] Hp Hr. unfold mode_ok in M. rewrite Hm in M. eapply (keyed_from F Q e (close_completion e)); [done|]. apply insert_key; [|done..].
  split; [|done]. destruct B as [[] B2 B3]. split; [by split|done|done].
Qed.
Lemma closed_post e : einv e → no_save e → (∃ sel, mode e = Completion sel) → keyed F Q e (Done (close_completion e)).
Proof.
  intros [B M] N [sel Hm]. unfold mode_ok in M. rewrite Hm in M. apply keyed_done, post_doc; [done|done| |done|intros p E; by destruct (N p)]. destruct B as [[] _ _]. by split.
Qed.
Lemma completion_mode e sel m : einv e → no_save e → mode e = Completion sel → (∃ sel', m = Completion sel') → keyed F Q e (Done (with_mode m e)).
Proof.
  intros [B M] N Hm [sel' ->]. unfold mode_ok in M. rewrite Hm in M. apply keyed_done, post_doc; [done|done| |done|intros p E; by destruct (N p)]. destruct B as [[] _ _]. by split.
Qed.
Lemma accept_key sel e : einv e → no_save e → (∃ s, mode e = Completion s) → pending e = None →
  (rev (text e) + 2 * zlen (completion_prefix e) + 1 + 2 * zlen (concat (insert_text <$> completion e)) ≤ u_max 64)%Z → keyed F Q e (accept_completion sel e).
Proof.
  intros I N Hm Hp Hr. unfold accept_completion. destruct (completion e !! sel) as [c|] eqn:Ec; [|by apply closed_post]. pose proof I as [B M]. destruct Hm as [s0 Hm]. unfold mode_ok in M. rewrite Hm in M.
  cbv zeta. change (readonly (close_completion e)) with (readonly e). rewrite M.
  assert (zlen (insert_text c) ≤ zlen (concat (insert_text <$> completion e)))%Z as Hi.
  { apply take_drop_middle in Ec. rewrite <-Ec, fmap_app, concat_app, length_app. cbn. rewrite length_app. lia. }
  destruct (times_edit (on_text backspace) backspace 2 (length (completion_prefix e)) (mv checkpoint (close_completion e)) edits_backspace) with (t := checkpoint (text e)) as (t1 & E1 & W1 & R1); [lia|done|apply checkpoint_wf, B|cbn; lia|].
  change (with_text (checkpoint (text e)) (mv checkpoint (close_completion e))) with (mv checkpoint (close_completion e)) in E1. rewrite E1, bind_done. cbn [checkpoint rev set_undo] in R1.
  destruct (edits_str (insert_text c) t1 W1) as (t2 & E2 & W2 & R2); [lia|]. unfold on_text. change (text (with_text t1 _)) with t1. rewrite E2, !bind_done. apply keyed_done.
  apply edited_post; [done|done|done|done|locally; apply B|done].
Qed.
Lemma completion_key_key k e : einv e → no_save e → (∃ s, mode e = Completion s) → pending e = None →
  (rev (text e) + 10 + 8 * zlen (carets e) + 2 * zlen (completion_prefix e) + 2 * zlen (concat (insert_text <$> completion e)) ≤ u_max 64)%Z → keyed F Q e (completion_key k e).
Proof.
  intros I N Hs Hp Hr. pose proof Hs as [sel Hm]. unfold completion_key. rewrite Hm. cbv zeta. destruct (length (completion e) =? 0); [by apply closed_post|].
  destruct (KauaIn.is_ctrl k _); [eapply completion_mode; eauto|]. destruct (KauaIn.is_ctrl k _); [eapply completion_mode; eauto|].
  destruct (KauaIn.code k); try (apply insert_after_close; [done..|lia]); try (by apply closed_post); try (apply accept_key; [done..|lia]); eapply completion_mode; eauto.
Qed.

(** ** Visual mode *)

Lemma selection_valid e lo hi : einv e → selection e = Some (lo, hi) → valid (lines (text e)) lo ∧ valid (lines (text e)) hi ∧ mode e = Visual.
Proof.
  intros [B M]. unfold selection, mode_ok in *. destruct (mode e); try done. destruct (anchor e) as [a|]; [|done]. destruct M as [M _]. specialize (M a eq_refl). pose proof (wf_cursor _ (base_wf e B)) as Hc.
  destruct (pos_leb _ _); intros [= <- <-]; done.
Qed.
Lemma edits_range a b t : wf t → valid (lines t) a → valid (lines t) b → (rev t + 2 ≤ u_max 64)%Z → ∃ t', delete_range a b t = Done t' ∧ wf t' ∧ (rev t' ≤ rev t + 2)%Z.
Proof. intros W Va Vb Hr. destruct (op_does (DeleteRange a b) t W) as (t' & E & W' & _ & R & _); [done|done|]. exists t'. split; [done|]. split; [done|cbn in R; lia]. Qed.
Lemma marked_carets e : einv e → mode e = Visual → carets e ≠ [] → ∃ pat, marked pat (carets e) (lines (text e)).
Proof. intros [_ M] Hm Hc. unfold mode_ok in M. rewrite Hm in M. by destruct M as [_ [?|?]]. Qed.
Lemma change_key e : einv e → no_save e → mode e = Visual → pending e = None → readonly e = false → (rev (text e) + 2 + 2 * zlen (carets e) ≤ u_max 64)%Z → keyed F Q e (change e).
Proof.
  intros I N Hm Hp Hro Hr. pose proof I as [B M]. pose proof (base_wf e B) as W. unfold change. rewrite Hro. destruct (carets e) as [|s0 cs] eqn:Ec.
  - destruct (selection e) as [[lo hi]|] eqn:Es; [|apply keyed_done; by apply post_same]. destruct (selection_valid e lo hi I Es) as (Vl & Vh & _).
    destruct (edits_range lo hi (checkpoint (text e))) as (t & E & W' & _); [by apply checkpoint_wf|done|done|cbn in *; lia|]. unfold on_text. change (text (mv checkpoint e)) with (checkpoint (text e)). rewrite E, !bind_done. apply keyed_done.
    apply edited_post; [done|done|done|done|locally; apply B|done].
  - destruct (marked_carets e I Hm) as [pat Hk]; [by rewrite Ec|]. destruct (delete_all_ok pat e W Hk) as (e' & t & p & E & W' & _ & _ & _ & Ee & _); [rewrite Ec; lia|]. rewrite E, bind_done. apply keyed_done.
    rewrite Ee. apply edited_post; [done|done|done|done|locally; [by apply set_cursor_wf|apply B]|done].
Qed.
Lemma delete_key e : einv e → no_save e → mode e = Visual → pending e = None → readonly e = false → (rev (text e) + 2 + 2 * zlen (carets e) ≤ u_max 64)%Z → keyed F Q e (delete e).
Proof.
  intros I N Hm Hp Hro Hr. pose proof I as [B M]. pose proof (base_wf e B) as W. unfold delete. rewrite Hro. destruct (carets e) as [|s0 cs] eqn:Ec.
  - destruct (selection e) as [[lo hi]|] eqn:Es; [|rewrite bind_done; apply keyed_done, post_calm; [done..|]; locally; apply B]. destruct (selection_valid e lo hi I Es) as (Vl & Vh & _).
    destruct (range_text_ok (text e) lo hi W Vl Vh) as (i & j & _ & _ & Et). rewrite Et, bind_done.
    destruct (edits_range lo hi (checkpoint (text e))) as (t & E & W' & _); [by apply checkpoint_wf|done|done|cbn in *; lia|]. unfold on_text. change (text (mv checkpoint (with_register _ e))) with (checkpoint (text e)). rewrite E, !bind_done. apply keyed_done.
    apply edited_post; [done|done|done|done|locally; apply B|done].
  - destruct (marked_carets e I Hm) as [pat Hk]; [by rewrite Ec|]. destruct (delete_all_ok pat e W Hk) as (e' & t & p & E & W' & _ & _ & _ & Ee & _); [rewrite Ec; lia|]. rewrite E, bind_done. apply keyed_done.
    rewrite Ee. apply edited_post; [done|done|done|done|locally; [by apply set_cursor_wf|apply B]|done].
Qed.
Lemma collapse_post e : base e → no_save e → pending e = None → post F Q e (collapse_carets e).
Proof.
  intros B N Hp. unfold collapse_carets. destruct (carets e) as [|s0 cs]; (apply post_calm; [done..|]); locally; try apply B. apply set_cursor_wf, B.
Qed.
Lemma visual_key k e : einv e → no_save e → mode e = Visual → pending e = None → (rev (text e) + 2 + 2 * zlen (carets e) ≤ u_max 64)%Z → keyed F Q e (visual k e).
Proof.
  intros I N Hm Hp Hr. pose proof I as [B M]. pose proof (base_wf e B) as W. assert (∀ e', slid e e' → keyed F Q e (Done e')) as Hsl by (intros; by apply keyed_to).
  unfold visual. cbv zeta.
  destruct (is_key k _); [apply keyed_done, post_calm; [done..|]; locally; apply B|].
  destruct (is_char k "s"); [apply keyed_done, post_core; [done|done|done|]; locally; apply B|].
  destruct (is_char k "c" && negb (readonly e)) eqn:Ec; [apply andb_true_iff in Ec as [_ Hro%negb_true_iff]; by apply change_key|]. clear Ec.
  destruct (is_char k "," && _); [apply keyed_done; by apply collapse_post|].
  destruct (is_char k "y").
  { destruct (selection e) as [[lo hi]|] eqn:Es.
    - destruct (selection_valid e lo hi I Es) as (Vl & Vh & _). destruct (range_text_ok (text e) lo hi W Vl Vh) as (i & j & _ & _ & Et). rewrite Et, !bind_done. apply keyed_done, post_calm; [done..|]; locally; apply B.
    - rewrite bind_done. apply keyed_done, post_calm; [done..|]; locally; apply B. }
  destruct ((is_char k "d" || is_char k "x") && negb (readonly e)) eqn:Ec; [apply andb_true_iff in Ec as [_ Hro%negb_true_iff]; by apply delete_key|]. clear Ec.
  destruct (is_char k "h" || _); [by apply Hsl, slid_mv, glide_left|]. destruct (is_char k "j" || _); [by apply Hsl, slid_down|]. destruct (is_char k "k" || _); [by apply Hsl, slid_up|].
  destruct (is_char k "l" || _); [by apply Hsl, slid_mv, glide_right|]. destruct (is_char k "0" || _); [by apply Hsl, slid_mv, glide_home|]. destruct (is_char k "$" || _); [by apply Hsl, slid_mv, glide_end|].
  destruct (is_char k "g"); [apply keyed_done, post_core; [done|done|done|]; split; [done|apply B|done]|]. destruct (is_char k "G"); [by apply Hsl, slid_mv, glide_bottom|].
  destruct (is_char k "w"); [apply keyed_slid; [done..|]; apply slid_on; [apply glide_forward|done]|]. destruct (is_char k "W"); [apply keyed_slid; [done..|]; apply slid_on; [apply glide_forward|done]|].
  destruct (is_char k "e"); [apply keyed_slid; [done..|]; apply slid_on; [apply glide_word_end|done]|]. destruct (is_char k "b"); [apply keyed_slid; [done..|]; apply slid_on; [apply glide_word_back|done]|].
  destruct (is_key k _); [by apply Hsl, slid_page|]. destruct (is_key k _); [by apply Hsl, slid_page|]. apply keyed_done. by apply post_same.
Qed.

(** ** The prompt and the prefixes *)

Lemma split_key pat e : einv e → no_save e → (match pending e with Some Match_ | Some (TextObject _) => False | _ => True end) → keyed F Q e (run_split pat e).
Proof.
  intros I N Hp. pose proof I as [B M]. pose proof (base_wf e B) as W. unfold run_split. destruct pat as [|c pat']; [apply keyed_done, post_core; [done|done|done|]; destruct B as [[] _ _]; by split|].
  set (pat := c :: pat'). rewrite find_all_sites, bind_done by done. destruct (sites (length pat) 0 (cuts pat (lines (text e)))) as [|q qs] eqn:Eq.
  { apply keyed_done, post_core; [done|done|done|]. destruct B as [[] _ _]. by split. }
  cbn [fmap list_fmap]. cbv beta iota zeta. apply keyed_done, post_doc; [done|done|split; [by apply set_cursor_wf|apply B|]| |intros p E; by destruct (N p)].
  - field pending. by destruct (pending e) as [[]|].
  - split; [done|]. right. exists pat. split; [done|]. split; [done|]. change (lines (text _)) with (lines (text e)). rewrite Eq. field carets. cbn [fmap list_fmap]. change (list_fmap _ _ ?f ?l) with (f <$> l).
    f_equal; [by destruct q|]. rewrite <-list_fmap_compose. apply list_fmap_ext. by intros i [r c'] _.
Qed.
Lemma prompt_key k b e : einv e → no_save e → split_buf e = Some b → keyed F Q e (split_prompt k e).
Proof.
  intros I N Hs. pose proof I as [[L B2 B3] M]. unfold split_prompt. rewrite Hs. cbv zeta.
  assert (match pending e with Some Match_ | Some (TextObject _) => False | _ => True end) as Hp. { pose proof (b_pend e L) as Hb. rewrite Hs in Hb. destruct (pending e) as [[]|]; by try destruct Hb. }
  assert (∀ b', local_ok (with_split_buf b' (with_split_buf None e))) as L'. { intros b'. split; [apply L|apply L|]. change (pending _) with (pending e). by destruct (pending e) as [[]|]. }
  assert (einv (with_split_buf None e)) as I' by (split; [split; [apply (L' None)|done|done]|done]).
  destruct (KauaIn.code k); try (apply keyed_done, post_core; [done|done|done|apply L']).
  - eapply (keyed_from F Q e (with_split_buf None e)); [done|]. by apply split_key.
Qed.
Lemma pending_key p k e : einv e → no_save e → pending e = None → (match p with Match_ | TextObject _ => carets e = [] ∧ split_buf e = None | _ => True end) → small (text e) →
  keyed F Q e (resolve_pending p k e).
Proof.
  intros I N Hp Hb Hs. pose proof I as [B M]. pose proof (base_wf e B) as W. unfold resolve_pending. destruct p as [kind| |around| |b].
  - apply keyed_done. destruct (the_char k) as [c|]; [|by apply post_same]. eapply (post_from F Q e (with_last_find (Some (kind, c)) e)); [done|]. apply post_slid; [|done|by apply slid_find].
    split; [|done]. destruct B as [[] B2 B3]. split; [by split|done|done].
  - destruct (is_char k "m"); [by apply bracket_key|]. destruct (is_char k "i"); [|destruct (is_char k "a"); [|apply keyed_done; by apply post_same]];
      (apply keyed_done, post_core; [done|done|done|]; split; [done|apply B|done]).
  - destruct (the_char k) as [c|]; [|apply keyed_done; by apply post_same]. apply object_key; [done..|apply Hb|done].
  - apply keyed_done. destruct (is_char k "g"); [apply post_slid; [done..|by apply slid_mv, glide_top]|]. destruct (is_char k "e"); [apply post_slid; [done..|by apply slid_mv, glide_bottom]|].
    destruct (is_char k "d"); [|by apply post_same]. apply post_core; [done|done|done|]. destruct B as [[] _ _]. by split.
  - destruct (is_char k "d"); [by apply diagnostic_key|apply keyed_done; by apply post_same].
Qed.
End Handlers.

(** ** Buffers *)

Lemma insert_fmap_same (ds : list DocState) i d : ds !! i = Some d → <[i := work d]> (work <$> ds) = work <$> ds.
Proof. intros H. rewrite <-list_fmap_insert. by rewrite list_insert_id. Qed.
(** An editor that shows the buffer it has parked as active. *)
Lemma works_loaded e d : bufs e !! active e = Some d → shown e = work d → works e = work <$> bufs e.
Proof. intros Hd Hs. unfold works. rewrite Hs. by apply insert_fmap_same. Qed.
Lemma works_status s e : works (with_status s e) = works e.
Proof. done. Qed.
Lemma load_local d e : doc_ok d → local_ok (load_active d e).
Proof. intros Hd. by split. Qed.
Lemma parked e : base e → ∃ e', park (save_active e) e = Done e' ∧ e' = with_bufs (<[active e := save_active e]> (bufs e)) e ∧ work <$> bufs e' = works e ∧ Forall doc_ok (bufs e') ∧ length (bufs e') = length (bufs e).
Proof.
  intros [L B2 B3]. unfold park. rewrite (proj2 (Nat.ltb_lt _ _) B2). eexists. split; [reflexivity|]. split; [done|]. cbn [bufs with_bufs]. split; [|split; [|apply length_insert]].
  - by rewrite list_fmap_insert.
  - apply Forall_insert; [done|apply L].
Qed.

Section Buffers.
Context (F Q : Prop) `{!Manual}.
(** The documents, and another of them shown. *)
Lemma post_shown e e' : works e' = works e ∨ (∃ i w, works e !! i = Some w ∧ (w.2 = false ∨ w.1.2 = true ∨ F) ∧ works e' = base.delete i (works e)) ∨ (∃ w, w.2 = false ∧ works e' = works e ++ [w]) →
  base e' → calm (mode e') → quit e' = quit e → no_save e' → post F Q e e'.
Proof.
  intros Hw B Hm Hq N. split; [split; [done|]| |intros p E; by destruct (N p)|rewrite Hq; auto].
  - unfold mode_ok. by destruct (mode e').
  - destruct Hw as [->|[(i & w & H1 & H2 & ->)|(w & H1 & ->)]]; [apply rtc_refl|apply rtc_once; by eapply ch_close|apply rtc_once; by apply ch_add].
Qed.
Lemma switch_key i e : einv e → no_save e → keyed F Q e (switch_to i e).
Proof.
  intros I N. pose proof I as [B M]. unfold switch_to. destruct ((i =? active e) || (length (bufs e) <=? i)) eqn:Ei; [apply keyed_done; by apply post_same|].
  apply orb_false_iff in Ei as [Hne%Nat.eqb_neq Hlt%Nat.leb_gt]. destruct (parked e B) as (e1 & E1 & Ee & Hw & Hf & Hl). rewrite E1, bind_done. destruct (lookup_lt_is_Some_2 (bufs e1) i) as [d Hd]; [lia|]. rewrite Hd. cbn [unwrap]. rewrite bind_done.
  apply keyed_done. set (e' := with_mode Normal (with_active i (load_active d e1))). assert (doc_ok d) as Hok by (rewrite Forall_lookup in Hf; by eapply Hf).
  assert (quit e1 = quit e ∧ request e1 = request e) as [Hq1 Hr1] by (by rewrite Ee). clear Ee E1. apply post_shown; [left| |done|done|unfold no_save; cbn; by rewrite Hr1].
  - rewrite works_status. rewrite (works_loaded e' d); [exact Hw|exact Hd|done].
  - split; [by split|cbn; lia|done].
Qed.
Lemma cycle_buffer n e : einv e → no_save e → keyed F Q e (if 1 <? length (bufs e) then switch_to n e else Done (say (lit "only one buffer") e)).
Proof.
  intros I N. destruct (1 <? _); [by apply switch_key|]. apply keyed_done, post_core; [done|done|done|]. destruct I as [[[] _ _] _]. by split.
Qed.
Lemma add_ok d e : base e → doc_ok d → b_modified d = false → ∃ e', add_buffer d e = Done e' ∧ base e' ∧ works e' = works e ++ [work d] ∧ quit e' = quit e ∧ request e' = request e ∧ pending_jump e' = pending_jump e ∧ pending e' = None ∧ count e' = None.
Proof.
  intros B Hd Hm. unfold add_buffer. destruct (parked e B) as (e1 & E1 & Ee & Hw & Hf & Hl). rewrite E1, bind_done. cbv zeta. eexists. split; [reflexivity|].
  assert (length (bufs e1 ++ [d]) - 1 = length (bufs e1)) as Hn by (rewrite length_app; cbn; lia).
  assert (quit e1 = quit e ∧ request e1 = request e ∧ pending_jump e1 = pending_jump e) as (Hq1 & Hr1 & Hj1) by (by rewrite Ee). clear Ee E1. split; [split; [by split| |]|split; [|done]].
  - cbn [bufs active load_active with_active with_bufs]. cbn. rewrite length_app. cbn. lia.
  - cbn. apply Forall_app; split; [done|by apply Forall_singleton].
  - erewrite works_loaded; [|cbn; rewrite Hn; by apply list_lookup_middle|done]. cbn. by rewrite fmap_app, Hw.
Qed.
Lemma help_key e : einv e → no_save e → keyed F Q e (open_help e).
Proof.
  intros I N. pose proof I as [B M]. unfold open_help. case_bool_decide; [apply keyed_done; by apply post_same|]. destruct (position _ _) as [i|]; [by apply switch_key|].
  destruct (add_ok (doc_new (Some HELP_NAME) HELP_TEXT true) e B) as (e' & -> & B' & Hw & Hq & Hr & _ & Hp & Hc); [apply new_wf|done|]. rewrite bind_done. apply keyed_done.
  apply post_shown; [right; right; by exists (work (doc_new (Some HELP_NAME) HELP_TEXT true))| |done|done|unfold no_save; cbn; by rewrite Hr].
  destruct B' as [[] B2 B3]. split; [by split|done|done].
Qed.
Lemma delete_fmap (ds : list DocState) i : work <$> base.delete i ds = base.delete i (work <$> ds).
Proof. revert i. induction ds as [|d ds IH]; intros [|i]; [done..|]. cbn. f_equal. apply IH. Qed.
Lemma delete_over {A} (l : list A) i x : base.delete i (<[i := x]> l) = base.delete i l.
Proof. revert i. induction l as [|y l IH]; intros [|i]; [done..|]. cbn. f_equal. apply IH. Qed.
Lemma close_key force e : einv e → no_save e → mode e = Normal → (force = true → readonly e = true ∨ F) → keyed F Q e (close_buffer force e).
Proof.
  intros I N Hm Hf. pose proof I as [B M]. pose proof B as [L B2 B3]. unfold close_buffer. destruct (Nat.leb_spec (length (bufs e)) 1) as [|Hlen]; [apply keyed_done, post_core; [done|done|done|]; destruct L; by split|].
  destruct (modified e && negb force) eqn:Ef; [apply keyed_done, post_core; [done|done|done|]; destruct L; by split|]. unfold vec_remove. rewrite (proj2 (Nat.ltb_lt _ _) B2), bind_done. cbv zeta.
  set (bs := base.delete (active e) (bufs e)). assert (length bs = length (bufs e) - 1) as Hl by (apply length_delete, lookup_lt_is_Some_2; done).
  set (e1 := if length (bufs (with_bufs bs e)) <=? active (with_bufs bs e) then with_active (length (bufs (with_bufs bs e)) - 1) (with_bufs bs e) else with_bufs bs e).
  assert (bufs e1 = bs ∧ quit e1 = quit e ∧ request e1 = request e ∧ active e1 < length bs) as (Hb & Hq & Hr & Ha).
  { unfold e1. change (bufs (with_bufs bs e)) with bs. change (active (with_bufs bs e)) with (active e). destruct (Nat.leb_spec (length bs) (active e)); split_and!; try done; cbn; lia. }
  clearbody e1. rewrite Hb. destruct (lookup_lt_is_Some_2 bs (active e1) Ha) as [d Hd]. rewrite Hd. cbn [unwrap]. rewrite bind_done. apply keyed_done.
  assert (Forall doc_ok bs) as Hok by by apply Forall_delete. assert (doc_ok d) as Hdok by (rewrite Forall_lookup in Hok; by eapply Hok).
  apply post_shown; [right; left| |done|done|unfold no_save; cbn; by rewrite Hr].
  - exists (active e), (shown e). split; [by apply works_shown|]. split.
    + cbn. destruct (modified e), force; cbn in *; auto; try done.
    + rewrite works_status. rewrite (works_loaded _ d); [cbn; rewrite Hb|cbn; by rewrite Hb|done]. unfold works, bs. by rewrite delete_fmap, delete_over.
  - split; [by split|cbn; by rewrite Hb|cbn; by rewrite Hb].
Qed.

(** ** Commands *)

(** Normal mode, and something asked for. *)
Lemma post_asks e e' : base e → (lines (text e'), readonly e', modified e', bufs e', active e', rev (text e')) = (lines (text e), readonly e, modified e, bufs e, active e, rev (text e)) → mode e' = Normal → local_ok e' →
  (quit e' = true → quit e = true ∨ modified e = false ∨ readonly e = true ∨ Q) → post F Q e e'.
Proof.
  intros [B1 B2 B3] Hs Hm L Hq. injection Hs as H1 H2 H3 H4 H5 H6. split; [split; [split; [done|by rewrite H4, H5|by rewrite H4]|unfold mode_ok; by rewrite Hm]| |by intros p _|done].
  rewrite (works_same e e') by done. apply rtc_refl.
Qed.
Lemma verb_key cmd verb arg e : einv e → no_save e → mode e = Normal → (verb = lit "bd!" → F) → (verb = lit "q!" ∨ verb = lit "wq" → Q) → keyed F Q e (run_verb cmd verb arg e).
Proof.
  intros I N Hm Hf Hq. pose proof I as [B M]. unfold run_verb. cbv zeta. assert (local_ok e) as L by apply B.
  assert (∀ e', (lines (text e'), readonly e', modified e', bufs e', active e', quit e', mode e', rev (text e')) = (lines (text e), readonly e, modified e, bufs e, active e, quit e, mode e, rev (text e)) → local_ok e' → keyed F Q e (Done e')) as Hk.
  { intros e' E L'. injection E as H1 H2 H3 H4 H5 H6 H7 H8. apply keyed_done, post_asks; [done|by rewrite H1, H2, H3, H4, H5, H8|congruence|done|rewrite H6; auto]. }
  case_bool_decide as Hv. { unfold save_or_refuse. destruct (readonly e) eqn:Er; (apply Hk; [cbn; by rewrite Er|destruct L; by split]). } clear Hv.
  case_bool_decide as Hv. { unfold save_or_refuse. destruct (readonly e) eqn:Er; [apply Hk; [cbn; by rewrite Er|destruct L; by split]|]. apply keyed_done, post_asks; [done|cbn; by rewrite Er|done|destruct L; by split|auto 10]. } clear Hv.
  case_bool_decide as Hv. { destruct (modified e) eqn:Em; [apply Hk; [cbn; by rewrite Em|destruct L; by split]|]. apply keyed_done, post_asks; [done|cbn; by rewrite Em|done|destruct L; by split|auto 10]. } clear Hv.
  case_bool_decide as Hv. { apply keyed_done, post_asks; [done|done|done|destruct L; by split|auto 10]. } clear Hv.
  assert (∀ msg r, (∀ a, keyed F Q e (Done (r a))) → keyed F Q e (Done (needs arg msg r e))) as Hn. { intros msg r Hr. unfold needs. destruct arg; [apply Hk; [done|destruct L; by split]|apply Hr]. }
  case_bool_decide as Hv. { apply Hn. intros a. destruct (modified e) eqn:Em; apply Hk; [cbn; by rewrite Em|destruct L; by split|cbn; by rewrite Em|destruct L; by split]. } clear Hv.
  case_bool_decide as Hv. { apply Hn. intros a. apply Hk; [done|destruct L; by split]. } clear Hv.
  case_bool_decide as Hv; [by apply cycle_buffer|clear Hv]. case_bool_decide as Hv; [by apply cycle_buffer|clear Hv].
  case_bool_decide as Hv; [by apply close_key|clear Hv]. case_bool_decide as Hv; [apply close_key; auto|clear Hv]. case_bool_decide as Hv; [by apply help_key|clear Hv].
  repeat match goal with |- keyed F Q e (if ?b then _ else _) => destruct b end; first [apply Hn; intros a; apply Hk; [done|destruct L; by split]|apply Hk; [done|destruct L; by split]].
Qed.
End Buffers.

(** ** Modes *)

Definition asked (v : list Z) (e : Editor) : Prop := ∃ buf, mode e = Command buf ∧ (parse_command buf).1.2 = v.

Section Modes.
Context (F Q : Prop) `{!Unicode, !Manual}.

Lemma einv_calm e m : einv e → calm m → einv (with_mode m e).
Proof. intros [[[] B2 B3] M] Hm. split; [split; [by split|done|done]|]. unfold mode_ok. cbn. by destruct m. Qed.
Lemma slash_or buf : (∃ pat, buf = 47%Z :: pat) ∨ ∀ (A : Type) (f : list Z → A) (g : A), match buf with 47%Z :: pat => f pat | _ => g end = g.
Proof.
  destruct buf as [|c pat]; [by right|]. destruct (decide (c = 47%Z)) as [->|Hc]; [left; by exists pat|right]. intros A f g. destruct c as [|p|p]; [done| |done]. repeat (destruct p as [p|p|]; try done).
Qed.
Lemma command_key k e : einv e → no_save e → (asked (lit "bd!") e → F) → (asked (lit "q!") e ∨ asked (lit "wq") e → Q) → keyed F Q e (command k e).
Proof.
  intros I N Hf Hq. unfold command. destruct (mode e) as [| | |buf| | | | |] eqn:Hm; try (apply keyed_done; by apply post_same).
  destruct (KauaIn.code k); try (apply keyed_done; by apply post_same); try (by apply mode_calm).
  - eapply (keyed_from F Q e (with_mode Normal e)); [done|]. assert (einv (with_mode Normal e)) as I' by by apply einv_calm. unfold run_command. cbv zeta.
    assert (keyed F Q (with_mode Normal e) (let '(cmd, verb, arg) := parse_command buf in run_verb cmd verb arg (with_mode Normal e))) as Hv.
    { destruct (parse_command buf) as [[cmd verb] arg] eqn:Ep. apply verb_key; [done|done|done| |].
      - intros ->. apply Hf. exists buf. by rewrite Ep.
      - intros [->| ->]; apply Hq; [left|right]; exists buf; by rewrite Ep. }
    destruct (slash_or buf) as [[pat ->]|Hs]; [|rewrite Hs; exact Hv].
    eapply (keyed_from F Q (with_mode Normal e) (with_last_search pat (with_mode Normal e))); [done|]. apply search_key; [|done]. destruct I' as [[[] B2 B3] M]. split; [split; [by split|done|done]|done].
  - apply mode_calm; [done|done|]. by destruct (pop buf).
Qed.
Lemma menu_action a e : einv e → no_save e → mode e = Normal → keyed F Q e (run_menu a e).
Proof.
  intros I N Hm. pose proof I as [B M]. assert (local_ok e) as L by apply B.
  assert (∀ e', (lines (text e'), readonly e', modified e', bufs e', active e', quit e', mode e', rev (text e')) = (lines (text e), readonly e, modified e, bufs e, active e, quit e, mode e, rev (text e)) → local_ok e' → keyed F Q e (Done e')) as Hk.
  { intros e' E L'. injection E as H1 H2 H3 H4 H5 H6 H7 H8. apply keyed_done, post_asks; [done|by rewrite H1, H2, H3, H4, H5, H8|congruence|done|rewrite H6; auto]. }
  destruct a; cbn [run_menu].
  - apply Hk; [done|destruct L; by split].
  - by apply mode_calm.
  - by apply cycle_buffer.
  - by apply cycle_buffer.
  - by apply close_key.
  - apply Hk; [done|destruct L; by split].
  - destruct (readonly e) eqn:Er; (apply Hk; [cbn; by rewrite Er|destruct L; by split]).
  - destruct (modified e) eqn:Em; [apply Hk; [cbn; by rewrite Em|destruct L; by split]|]. apply keyed_done, post_asks; [done|cbn; by rewrite Em|done|destruct L; by split|auto].
  - destruct (debugging e); [by apply mode_calm|]. apply Hk; [done|destruct L; by split].
  - cbv zeta. destruct (_ && _); (apply Hk; [done|destruct L; by split]).
  - cbv zeta. destruct (_ && _); (apply Hk; [done|destruct L; by split]).
  - apply Hk; [done|destruct L; by split].
  - by apply mode_calm.
Qed.
Lemma menu_key k e : einv e → no_save e → keyed F Q e (menu k e).
Proof.
  intros I N. unfold menu. destruct (KauaIn.code k); try (apply keyed_done; by apply post_same); try (by apply mode_calm). destruct (_ =? 32)%Z; [by apply mode_calm|]. cbv zeta.
  destruct (m_action <$> _) as [a|]; [|by apply mode_calm]. eapply (keyed_from F Q e (with_mode Normal e)); [done|]. apply menu_action; [by apply einv_calm|done|done].
Qed.
Lemma picker_key k e : einv e → no_save e → keyed F Q e (buffer_picker k e).
Proof.
  intros I N. unfold buffer_picker. destruct (mode e) as [| | | | | |sel| |] eqn:Hm; try (apply keyed_done; by apply post_same). cbv zeta. pose proof I as [[_ B2 _] _].
  destruct (is_key k _); [by apply mode_calm|]. rewrite (proj2 (Nat.eqb_neq (length (bufs e)) 0)) by lia. destruct (is_key k _ || _); [by apply mode_calm|]. destruct (is_key k _ || _); [by apply mode_calm|].
  destruct (is_key k _); [|apply keyed_done; by apply post_same]. eapply (keyed_from F Q e (with_mode Normal e)); [done|]. apply switch_key; [by apply einv_calm|done].
Qed.
Lemma file_picker_key k e : einv e → no_save e → keyed F Q e (Done (file_picker k e)).
Proof.
  intros I N. unfold file_picker. destruct (mode e) as [| | | | | | |q sel|] eqn:Hm; try (apply keyed_done; by apply post_same). cbv zeta.
  destruct (KauaIn.code k); try (by apply mode_calm); try (apply keyed_done; by apply post_same).
  - destruct (_ && _); [by apply mode_calm|]. destruct (_ && _); by apply mode_calm.
  - destruct (_ !! sel); [|by apply mode_calm]. apply keyed_done. destruct I as [[[] B2 B3] M]. apply post_asks; [split; [by split|done|done]|done|done|by split|auto].
Qed.
Lemma dash_core e e' : einv e → no_save e → mode e = Normal → core e' = core e → (text e', count e', pending e', split_buf e') = (text e, count e, pending e, split_buf e) → keyed F Q e (Done e').
Proof.
  intros I N Hm Hc Ht. apply keyed_done, post_core; [done|done|done|]. injection Ht as H1 H2 H3 H4. injection Hc as _ _ _ H5 _ _ _ _ _ _. destruct I as [[[] _ _] _]. split; [by rewrite H1|by rewrite H2|by rewrite H3, H5, H4].
Qed.
Lemma dash_key k e : einv e → no_save e → mode e = Normal → keyed F Q e (Done (dash_nav k e)).
Proof.
  intros I N Hm. assert (∀ f e, core (dash_sel f e) = core e ∧ (text (dash_sel f e), count (dash_sel f e), pending (dash_sel f e), split_buf (dash_sel f e)) = (text e, count e, pending e, split_buf e)) as Hs by (intros f e0; unfold dash_sel; by destruct (focus (dash e0))).
  assert (∀ e', core e' = core e ∧ (text e', count e', pending e', split_buf e') = (text e, count e, pending e, split_buf e) → keyed F Q e (Done e')) as Hk by (intros e' [H1 H2]; by apply dash_core).
  unfold dash_nav. destruct (is_key k _); [apply Hk; unfold cycle_focus; destruct (negb _); [done|]; cbv zeta; by destruct (List.find _ _)|]. destruct (is_key k _); [by apply Hk|].
  destruct (is_char k " "); [by apply mode_calm|]. destruct (_ || _); [apply Hk; unfold dash_move; cbv zeta; by destruct (_ =? 0)|]. destruct (_ || _); [apply Hk; unfold dash_move; cbv zeta; by destruct (_ =? 0)|].
  destruct (is_char k "g"); [apply Hk, Hs|]. destruct (is_char k "G"); [apply Hk; unfold dash_move_bottom; cbv zeta; by destruct (_ =? 0)|].
  assert (∀ b, keyed F Q e (Done (dash_expand b e))) as He. { intros b. apply Hk. unfold dash_expand. destruct (focus (dash e)); try done. cbv zeta. destruct (var_sel (dash e) =? 0); [by destruct b|]. by destruct (debug e) as [dv|]; [destruct (NoraDiag.locals dv !! _) as [r|]; [destruct (NoraDiag.v_expandable r)|]|]. }
  destruct (_ || _); [apply He|]. destruct (_ || _); [apply He|]. destruct (is_key k _); [|by apply Hk]. apply Hk. unfold dash_activate. destruct (_ =? 0); [done|]. by destruct (focus (dash e)).
Qed.
(** The keys that repeat an edit. *)
Lemma again_key g f k n e : einv e → no_save e → mode e = Normal → pending e = None → readonly e = false → edits f k → (0 ≤ k)%Z → (0 ≤ n)%Z → (∀ t, g (with_text t e) = on_text f (with_text t e)) →
  (rev (text e) + n * k ≤ u_max 64)%Z → keyed F Q e (e ← times (Z.to_nat n) g (mv checkpoint e); Done (with_modified true e)).
Proof.
  intros I N Hm Hp Hro Hf Hk Hn Hg Hr. pose proof I as [B M]. destruct (times_edit g f k (Z.to_nat n) e Hf Hk Hg (checkpoint (text e))) as (t & E & W & _); [apply checkpoint_wf, B|cbn; nia|].
  change (with_text (checkpoint (text e)) e) with (mv checkpoint e) in E. rewrite E, bind_done. apply keyed_done, edited_post; [done|done|done|done|locally; apply B|cbn; by rewrite Hm].
Qed.
Lemma undo_key e : einv e → no_save e → mode e = Normal → pending e = None → readonly e = false → (rev (text e) + 2 ≤ u_max 64)%Z →
  keyed F Q e ('(ok, t) ← undo_ (text e); let e := with_text t e in Done (if (ok : bool) then with_modified true e else say (lit "already at oldest change") e)).
Proof.
  intros I N Hm Hp Hro Hr. pose proof I as [B M]. pose proof (base_wf e B) as W. unfold undo_. destruct (last (undo (text e))) as [s0|] eqn:El.
  - destruct (undo_does (text e) W) as (t & E & W' & _); [lia|]. cbn [run_op] in E. unfold undo_ in E. rewrite El in E. cbv zeta in E |- *. destruct (bump _) as [t2| |]; [|done..]. rewrite !bind_done in *. injection E as ->. cbv beta iota.
    apply keyed_done, edited_post; [done|done|done|done|locally; apply B|cbn; by rewrite Hm].
  - rewrite bind_done. apply keyed_done, post_core; [done|done|done|]. locally; apply B.
Qed.
Lemma to_insert e t : einv e → no_save e → pending e = None → readonly e = false → wf t → lines t = lines (text e) → keyed F Q e (Done (with_mode Insert_ (with_text t e))).
Proof.
  intros I N Hp Hro W L. pose proof I as [B M]. apply keyed_done, post_doc; [done|cbn; by rewrite L|locally; apply B|done|intros p E; by destruct (N p)].
Qed.
Lemma to_visual e t a : einv e → no_save e → pending e = None → carets e = [] → valid (lines (text e)) a → wf t → lines t = lines (text e) → keyed F Q e (Done (with_mode Visual (with_text t (with_anchor (Some a) e)))).
Proof.
  intros I N Hp Hc Va W L. pose proof I as [B M]. apply keyed_done, post_doc; [done|cbn; by rewrite L|locally; apply B| |intros p E; by destruct (N p)].
  split; [intros a' [= <-]; cbn; by rewrite L|by left].
Qed.
Lemma wait_key e p : einv e → no_save e → carets e = [] → split_buf e = None → keyed F Q e (Done (with_pending (Some p) e)).
Proof.
  intros I N Hc Hs. pose proof I as [[[L1 L2 L3] _ _] M]. apply keyed_done, post_core; [done|done|done|]. split; [done|done|]. cbn. by destruct p.
Qed.
Lemma normal_key_key k explicit n e : einv e → no_save e → mode e = Normal → pending e = None → carets e = [] → split_buf e = None → (0 ≤ n ≤ COUNT_MAX)%Z →
  (rev (text e) + 10 + n * (3 + 2 * zlen (register e)) ≤ u_max 64)%Z → keyed F Q e (normal_key k explicit n e).
Proof.
  intros I N Hm Hp Hc Hsb Hn Hr. pose proof I as [B M]. pose proof (base_wf e B) as W.
  assert (∀ e', slid e e' → keyed F Q e (Done e')) as Hsl by (intros; by apply keyed_to).
  assert (∀ f, (∀ e, wf (text e) → slid e (f e)) → keyed F Q e (times (Z.to_nat n) (λ e, Done (f e)) e)) as Hmv by (intros f Hf; apply keyed_slid; [done..|]; apply slid_times; [|done]; intros e0 W0; eauto).
  assert (∀ f, (∀ t, wf t → ∃ t', f t = Done t' ∧ glide t t') → keyed F Q e (times (Z.to_nat n) (on_text f) e)) as Hwd by (intros f Hf; apply keyed_slid; [done..|]; apply slid_times; [|done]; intros e0 W0; by apply slid_on).
  assert (∀ p, keyed F Q e (Done (with_pending (Some p) e))) as Hwt by (intros p; by apply wait_key).
  pose proof (glide_checkpoint (text e) W) as (Wc & Lc & Rc).
  unfold normal_key. cbv zeta.
  destruct (is_char k "i" && negb (readonly e)) eqn:Ei; [apply andb_true_iff in Ei as [_ Hro%negb_true_iff]; by apply (to_insert e (checkpoint (text e)))|clear Ei].
  destruct (is_char k "a" && negb (readonly e)) eqn:Ei; [apply andb_true_iff in Ei as [_ Hro%negb_true_iff]; destruct (glide_right _ Wc) as (W1 & L1 & _); apply (to_insert e (move_right (checkpoint (text e)))); [done..|congruence]|clear Ei].
  destruct (is_char k "o" && negb (readonly e)) eqn:Ei.
  { apply andb_true_iff in Ei as [_ Hro%negb_true_iff]. destruct (edits_newline (move_end (checkpoint (text e)))) as (t & E & W1 & _); [by apply glide_end|cbn; lia|]. unfold on_text. change (text (mv move_end (mv checkpoint e))) with (move_end (checkpoint (text e))).
    rewrite E, !bind_done. apply keyed_done, edited_post; [done|done|done|done|locally; apply B|done]. }
  clear Ei. destruct (is_char k "A" && negb (readonly e)) eqn:Ei; [apply andb_true_iff in Ei as [_ Hro%negb_true_iff]; apply (to_insert e (move_end (checkpoint (text e)))); [done..|by apply glide_end|done]|clear Ei].
  destruct (is_char k "v"). { pose proof (to_visual e (text e) (cursor (text e)) I N Hp Hc (wf_cursor _ W) W eq_refl) as Hv. exact Hv. }
  destruct (is_char k "%").
  { destruct (glide_bottom _ W) as (W1 & L1 & _). destruct (glide_end _ W1) as (W2 & L2 & _). apply (to_visual e (move_end (move_bottom (text e))) (0, 0)); [done..| |done|done].
    destruct (lines (text e)) as [|l ls] eqn:El; [by destruct (wf_some _ W)|]. exists l. cbn. split; [done|lia]. }
  destruct (is_char k ":"); [by apply mode_calm|]. destruct (is_char k "/"); [by apply mode_calm|]. destruct (is_char k " "); [by apply mode_calm|].
  destruct (_ && debugging e). { apply dash_core; [done..| |]; unfold cycle_focus; destruct (negb _); try done; cbv zeta; by destruct (List.find _ _). }
  destruct (is_char k "n" && _); [by apply search_key|].
  destruct (is_char k "p" && negb (readonly e)) eqn:Ei.
  { apply andb_true_iff in Ei as [_ Hro%negb_true_iff]. destruct (register e) as [|c r] eqn:Er; [apply keyed_done; by apply post_same|].
    apply (again_key _ (insert_str (register e)) (1 + 2 * zlen (register e))); [done..|apply edits_str|lia|lia|done|]. rewrite Er. cbn [length] in *. nia. }
  clear Ei. destruct (is_char k "h" || _); [apply Hmv; intros e0 W0; by apply slid_mv, glide_left|]. destruct (is_char k "j" || _); [apply Hmv; intros e0 W0; by apply slid_down|].
  destruct (is_char k "k" || _); [apply Hmv; intros e0 W0; by apply slid_up|]. destruct (is_char k "l" || _); [apply Hmv; intros e0 W0; by apply slid_mv, glide_right|].
  destruct (is_char k "0" || _); [by apply Hsl, slid_mv, glide_home|]. destruct (is_char k "$" || _); [by apply Hsl, slid_mv, glide_end|].
  destruct (is_char k "g" && explicit); [by apply Hsl, slid_set|]. destruct (is_char k "G" && explicit); [by apply Hsl, slid_set|].
  destruct (is_char k "g"); [apply Hwt|]. destruct (is_char k "G"); [by apply Hsl, slid_mv, glide_bottom|]. destruct (is_char k "]"); [apply Hwt|]. destruct (is_char k "["); [apply Hwt|].
  destruct (is_char k "K"). { apply keyed_done, post_core; [done|done|done|]. locally; apply B. }
  destruct (is_char k "w"); [apply Hwd, glide_forward|]. destruct (is_char k "W"); [apply Hwd, glide_forward|]. destruct (is_char k "e"); [apply Hwd, glide_word_end|]. destruct (is_char k "b"); [apply Hwd, glide_word_back|].
  destruct (is_char k "f"); [apply Hwt|]. destruct (is_char k "F"); [apply Hwt|]. destruct (is_char k "t"); [apply Hwt|]. destruct (is_char k "T"); [apply Hwt|]. destruct (is_char k "m"); [apply Hwt|].
  destruct (is_char k ";"); [by apply Hsl, slid_repeat|]. destruct (is_char k ","); [by apply Hsl, slid_repeat|]. destruct (is_key k _); [by apply Hsl, slid_page|]. destruct (is_key k _); [by apply Hsl, slid_page|].
  destruct (is_char k "x" && negb (readonly e)) eqn:Ei; [apply andb_true_iff in Ei as [_ Hro%negb_true_iff]; apply (again_key _ delete_char 2); [done..|apply edits_delete|lia|lia|done|nia]|clear Ei].
  destruct (is_char k "d" && negb (readonly e)) eqn:Ei; [apply andb_true_iff in Ei as [_ Hro%negb_true_iff]; apply (again_key _ delete_line 2); [done..|apply edits_line|lia|lia|done|nia]|clear Ei].
  destruct (is_char k "u" && negb (readonly e)) eqn:Ei; [apply andb_true_iff in Ei as [_ Hro%negb_true_iff]; apply undo_key; [done..|nia]|clear Ei].
  destruct ((_ || _) && readonly e) eqn:Ei; [|apply keyed_done; by apply post_same]. apply andb_true_iff in Ei as [_ Hro]. destruct (1 <? _); [apply close_key; auto|].
  apply keyed_done, post_asks; [done|done|done|locally; apply B|auto].
Qed.
Lemma count_range k e acc : (match count e with Some n => (0 ≤ n ≤ COUNT_MAX)%Z | None => True end) → count_digit k e = Some acc → (0 ≤ acc ≤ COUNT_MAX)%Z.
Proof.
  intros Hc. unfold count_digit. destruct (the_char k) as [c|]; [|done]. destruct (Digits.is_ascii_digit c) eqn:Ed; [|done]. apply Digits.digit_range in Ed. destruct (_ && _); [|done]. intros [= <-].
  unfold sat_add, sat_mul, u_max, COUNT_MAX in *. change (2 ^ 64)%Z with 18446744073709551616%Z. destruct (count e); cbn in *; lia.
Qed.
Lemma collapsed e : einv e → no_save e → mode e = Normal → pending e = None → split_buf e = None → let e1 := match carets e with [] => e | _ => collapse_carets e end in
  einv e1 ∧ no_save e1 ∧ mode e1 = Normal ∧ pending e1 = None ∧ carets e1 = [] ∧ split_buf e1 = None ∧ (count e1, register e1, rev (text e1)) = (count e, register e, rev (text e)) ∧
    (lines (text e1), readonly e1, modified e1, bufs e1, active e1, quit e1) = (lines (text e), readonly e, modified e, bufs e, active e, quit e).
Proof.
  intros I N Hm Hp Hs e1. unfold e1. destruct (carets e) as [|s0 cs] eqn:Ec; [done|]. pose proof I as [B M]. destruct (collapse_post F Q e B N Hp) as [P1 _ _ _]. unfold collapse_carets in *. rewrite Ec in *. done.
Qed.
Lemma normal_mode_key k e : einv e → no_save e → mode e = Normal → pending e = None → split_buf e = None → (rev (text e) + 10 + COUNT_MAX * (3 + 2 * zlen (register e)) ≤ u_max 64)%Z →
  keyed F Q e (normal k e).
Proof.
  intros I N Hm Hp Hs Hr. unfold normal. cbv zeta. destruct (if debugging e then debug_hotkey k else None) as [req|]. { apply keyed_done, post_core; [done|done|done|]. locally; apply I. }
  destruct (debugging e && _); [by apply dash_key|]. destruct (collapsed e I N Hm Hp Hs) as (I1 & N1 & M1 & P1 & C1 & S1 & E1 & D1).
  set (e1 := if match carets e with [] => false | _ => true end then collapse_carets e else e). assert (e1 = match carets e with [] => e | _ => collapse_carets e end) as Ee by (unfold e1; by destruct (carets e)).
  rewrite <-Ee in *. clearbody e1. injection E1 as H1 H2 H3. eapply (keyed_from F Q e e1); [by rewrite H3, D1|]. destruct (_ && is_char k ","); [apply keyed_done; by apply post_same|].
  pose proof (b_count _ (b_local _ (proj1 I1))) as Hcnt. destruct (count_digit k e1) as [acc|] eqn:Ed.
  - apply count_range in Ed; [|done]. apply keyed_done, post_core; [done|done|done|]. locally. apply I1.
  - eapply (keyed_from F Q e1 (with_count None e1)); [done|]. assert (0 ≤ default 1%Z (count e1) ≤ COUNT_MAX)%Z as Hn by (destruct (count e1); cbn; [done|unfold COUNT_MAX; lia]).
    apply normal_key_key; [|done..|]. { destruct I1 as [[[] B2 B3] M']. split; [split; [by split|done|done]|done]. }
    cbn [text register with_count]. cbn. rewrite H3, H2. nia.
Qed.
End Modes.

(** ** Every key *)

(** Revisions left for one key, and a document an [i32] counts brackets in. *)
Definition room (e : Editor) : Prop :=
  (rev (text e) + 10 + COUNT_MAX * (3 + 2 * zlen (register e)) + 8 * zlen (carets e) + 2 * zlen (completion_prefix e) + 2 * zlen (concat (insert_text <$> completion e)) ≤ u_max 64)%Z ∧
  (zlen (content (text e)) < 2 ^ 31)%Z.
Definition gives_up (e : Editor) : Prop := split_buf e = None ∧ pending e = None ∧ asked (lit "bd!") e.
Definition quits (e : Editor) : Prop := split_buf e = None ∧ pending e = None ∧ (asked (lit "q!") e ∨ asked (lit "wq") e).
Lemma handles `{!Unicode, !Manual} k e : einv e → no_save e → room e → keyed (gives_up e) (quits e) e (handle_key k e).
Proof.
  intros I N [Hr Hs]. unfold handle_key. cbv zeta. set (e0 := with_hover None (with_status None e)). assert (einv e0) as I0. { destruct I as [[[] B2 B3] M]. split; [split; [by split|done|done]|done]. }
  apply (keyed_from _ _ e e0); [done|]. destruct (split_buf e0) as [b|] eqn:Es; [by eapply prompt_key|]. destruct (pending e0) as [p|] eqn:Ep.
  { change (bool_decide (is_Some None)) with false. cbv iota. pose proof (b_pend _ (b_local _ (proj1 I0))) as Hb. rewrite Ep in Hb. eapply (keyed_from _ _ e0 (with_pending None e0)); [done|]. apply pending_key; [|done|done|by destruct p|done].
    destruct I0 as [[[] B2 B3] M]. split; [split; [by split|done|done]|done]. }
  change (bool_decide (is_Some None)) with false. cbv iota. assert (no_save e0) as N0 by done. change (text e) with (text e0) in *. change (carets e) with (carets e0) in *. change (register e) with (register e0) in *.
  change (completion_prefix e) with (completion_prefix e0) in *. change (completion e) with (completion e0) in *.
  destruct (mode e0) eqn:Hm.
  - apply normal_mode_key; [done..|lia].
  - apply insert_key; [done..|unfold COUNT_MAX in Hr; lia].
  - apply visual_key; [done..|unfold COUNT_MAX in Hr; lia].
  - apply command_key; [done..| |]; unfold gives_up, quits; tauto.
  - by apply menu_key.
  - by apply menu_key.
  - by apply picker_key.
  - by apply file_picker_key.
  - apply completion_key_key; [done..|by eexists|done|unfold COUNT_MAX in Hr; lia].
Qed.
End NoraKeys.
