(* ===== verification/NoraHost.v ===== *)
(** * The editor, its host and its screen

    The binary's side (usr/nora/src/main.rs): keys with their file requests, the
    answers of the language server and of the debugger.  NoraView: the screen, visual
    rows in order (wrap.rs), the scroll that keeps the cursor on it (editor.rs,
    scroll_to), and the rows of the variables tile with their paths (vartree.rs). *)

From S2P Require Import Prelude Digits Vt Kaua KauaIn NoraText NoraDiag NoraEdit NoraSpec NoraOps NoraMulti NoraKeys.
From stdpp Require Import strings.
Import NoraText NoraFlat NoraSpec NoraRefine NoraOps NoraFind NoraEdit NoraMulti NoraObjects NoraReplace NoraKeys.
Open Scope nat_scope.

Module NoraHost.

(** What reaches the editor. *)
Inductive Input :=
  | Pressed (k : KeyEvent) | Drained
  | Hovered (s : list Z) | Completed (items : list Candidate) | Defined_ (path : option (list Z)) (l c : nat) | Diagnosed (ds : list NoraDiag.LineDiag)
  | Debugging (view : option NoraDiag.DebugView) | Followed (name : list Z) (l : nat) | Resumed | Framed (name : list Z) (l c : nat) | Scratch (name cont : list Z)
  | Told (s : list Z) | Drawn (tw height : nat) | LspTaken | DapTaken.

Section Host.
Context `{!Unicode, !Manual, !Files}.

(** A request raised by an answer. *)
Definition drain (e : Editor) : outcome Editor :=
  match request e with Some req => handle_request req (with_request None e) | None => Done e end.
Definition feed (e : Editor) (i : Input) : outcome Editor :=
  match i with
  | Pressed k => dispatch_key k e
  | Drained => drain e
  | Hovered s => Done (show_hover s e)
  | Completed items => Done (show_completion items e)
  | Defined_ path l c => Done (jump_to path l c e)
  | Diagnosed ds => Done (with_diags ds e)
  | Debugging view => Done (set_debug_view view e)
  | Followed name l => Done (follow_debug name l e)
  | Resumed => Done (clear_debug_line e)
  | Framed name l c => '(_, e) ← jump_to_open_basename name l c e; Done e
  | Scratch name cont => open_scratch name cont e
  | Told s => Done (say s e)
  | Drawn tw height => Done (scroll_to tw height e)
  | LspTaken => Done (with_lsp_request None e)
  | DapTaken => Done (with_dap_request None e)
  end.

(** ** The invariant is kept *)

Definition hinv (e : Editor) : Prop := einv e ∧ no_save e.
Definition sound (m : outcome Editor) : Prop := ∃ e, m = Done e ∧ hinv e.

Lemma hinv_core e e' : hinv e → (lines (text e'), mode e', anchor e', carets e', readonly e', modified e', bufs e', active e', request e', quit e') = (lines (text e), mode e, anchor e, carets e, readonly e, modified e, bufs e, active e, request e, quit e) →
  local_ok e' → hinv e'.
Proof. intros [I N] Hc L. destruct (post_core False False e e' I N Hc L) as [P1 _ _ _]. split; [done|]. injection Hc as _ _ _ _ _ _ _ _ H9 _. unfold no_save. by rewrite H9. Qed.
Lemma hinv_slid e e' : hinv e → slid e e' → hinv e'.
Proof. intros [I N] S. destruct (post_slid False False e e' I N S) as [P1 _ _ _]. split; [done|]. by destruct S as (t & -> & _). Qed.
Lemma hinv_set r c e : hinv e → hinv (mv (set_cursor r c) e).
Proof. intros I. eapply hinv_slid; [done|]. apply slid_set, I. Qed.
(** Fields the invariant does not read. *)
Ltac unread := eapply hinv_core; [eassumption|reflexivity|match goal with I : hinv ?e |- _ => destruct I as [[[[] ? ?] ?] ?]; by split end].

Lemma loaded e d : doc_ok d → bufs e !! active e = Some d → Forall doc_ok (bufs e) → no_save e → hinv (with_mode Normal (load_active d e)).
Proof. intros Hd Hb Hf N. split; [split; [split; [by split|cbn; by eapply lookup_lt_Some|done]|done]|done]. Qed.
Lemma hinv_status s e : hinv e → hinv (with_status s e).
Proof. intros I. unread. Qed.
Lemma doc_new_ok f s ro : doc_ok (doc_new f s ro).
Proof. apply new_wf. Qed.
Lemma hinv_normal e : base e → no_save e → hinv (with_mode Normal e).
Proof. intros [[] B2 B3] N. split; [split; [split; [by split|done|done]|done]|done]. Qed.

Lemma opened fname cont e : hinv e → sound (open_buffer fname cont e).
Proof.
  intros [[B M] N]. unfold open_buffer. cbv zeta.
  assert (∀ e1, base e1 → no_save e1 → sound (Done (match pending_jump (with_status (Some (default (lit "opened") (buffer_indicator (with_mode Normal e1)))) (with_mode Normal e1)) with
    | Some (l, c) => mv (set_cursor l c) (with_pending_jump None (with_status (Some (default (lit "opened") (buffer_indicator (with_mode Normal e1)))) (with_mode Normal e1)))
    | None => with_pending_jump None (with_status (Some (default (lit "opened") (buffer_indicator (with_mode Normal e1)))) (with_mode Normal e1)) end))) as Hk.
  { intros e1 B1 N1. pose proof (hinv_normal e1 B1 N1) as I1. eexists. split; [reflexivity|]. destruct (pending_jump _) as [[l c]|]; [apply hinv_set|]; unread. }
  destruct (_ && bool_decide (content (text e) = [])) eqn:Ep.
  - apply andb_true_iff in Ep as [Ep _]. apply andb_true_iff in Ep as [Ep _]. apply andb_true_iff in Ep as [Ep%Nat.eqb_eq _]. rewrite Ep. cbn [Nat.ltb Nat.leb]. rewrite bind_done.
    apply Hk; [|done]. split; [apply load_local, doc_new_ok|cbn; rewrite length_insert; apply B|cbn; apply Forall_insert; [apply B|apply doc_new_ok]].
  - destruct (add_ok (doc_new fname cont false) e B) as (e1 & -> & B1 & _ & _ & Hr & _); [apply doc_new_ok|done|]. rewrite bind_done. apply Hk; [done|]. unfold no_save. by rewrite Hr.
Qed.
Lemma scratched name cont e : hinv e → sound (open_scratch name cont e).
Proof.
  intros [[B M] N]. unfold open_scratch. cbv zeta. destruct (position _ (bufs e)) as [i|] eqn:Ei.
  - apply position_Some in Ei as (d & Hd & _). apply lookup_lt_Some in Hd.
    assert (∃ e1, (if active e =? i then Done e else e ← park (save_active e) e; Done (with_active i e)) = Done e1 ∧ active e1 = i ∧ Forall doc_ok (bufs e1) ∧ length (bufs e1) = length (bufs e) ∧ request e1 = request e) as (e1 & -> & Ha & Hf & Hl & Hr).
    { destruct (Nat.eqb_spec (active e) i) as [E|]; [exists e; split; [done|]; split; [done|]; split; [apply B|done]|].
      destruct (parked e B) as (e1 & -> & Ee & _ & Hf & Hl). rewrite bind_done. eexists. split; [reflexivity|]. split; [done|]. split; [done|]. split; [done|]. by rewrite Ee. }
    rewrite bind_done. rewrite (proj2 (Nat.ltb_lt _ _)) by lia. rewrite bind_done. eexists. split; [reflexivity|]. apply loaded; [apply doc_new_ok|cbn; rewrite Ha; apply list_lookup_insert_eq; lia| |].
    + cbn. apply Forall_insert; [done|apply doc_new_ok].
    + unfold no_save. cbn. by rewrite Hr.
  - destruct (add_ok (doc_new (Some name) cont true) e B) as (e1 & -> & B1 & _ & _ & Hr & _); [apply doc_new_ok|done|]. rewrite bind_done. eexists. split; [reflexivity|]. apply hinv_normal; [done|]. unfold no_save. by rewrite Hr.
Qed.
Lemma switched i e : hinv e → sound (switch_to i e).
Proof.
  intros [I N]. destruct (switch_key False False i e I N) as (e' & E & [P1 _ _ _]). exists e'. split; [done|]. split; [done|]. unfold switch_to in E. destruct (_ || _); [by injection E as <-|]. pose proof I as [B _].
  destruct (parked e B) as (e1 & E1 & Ee & _). rewrite E1, bind_done in E. destruct (bufs e1 !! i); [|done]. cbn [unwrap] in E. rewrite bind_done in E. injection E as <-. unfold no_save. cbn. by rewrite Ee.
Qed.
Lemma framed base l c e : hinv e → ∃ b e', jump_to_open_basename base l c e = Done (b, e') ∧ hinv e'.
Proof.
  intros I. unfold jump_to_open_basename. cbv zeta. case_bool_decide; [eexists _, _; split; [reflexivity|by apply hinv_set]|]. destruct (List.find _ _) as [[i d]|]; [|by exists false, e].
  destruct (switched i e I) as (e1 & -> & I1). rewrite bind_done. eexists _, _. split; [reflexivity|by apply hinv_set].
Qed.
(** A request carried out. *)
Lemma requested req e : einv e → no_save e → (∀ p, req = Save p → mode e = Normal ∧ (rev (text e) + 2 ≤ u_max 64)%Z) → sound (handle_request req e).
Proof.
  intros I N Hsave. assert (hinv e) as HI by done. unfold handle_request. destruct req as [name|path|dir].
  - destruct (Hsave name eq_refl) as [Hm Hr]. destruct (match name with Some p => Some p | None => filename e end) as [p|]; [|eexists; split; [reflexivity|unread]]. cbv zeta.
    assert (∀ bytes note e1, hinv e1 → sound (Done (match write_file p bytes with
      | Ok n => match note with Some msg => say (lit "saved unformatted; gofmt: " ++ msg) (mark_saved p n e1) | None => mark_saved p n e1 end
      | Err msg => say (p ++ lit ": " ++ msg) e1 end))) as Hw.
    { intros bytes note e1 I1. eexists. split; [reflexivity|]. assert (∀ n, hinv (mark_saved p n e1)) as Hs. { intros n. destruct I1 as [[[[] B2 B3] M1] N1]. split; [split; [split; [by split|done|done]|done]|done]. }
      destruct (write_file p bytes) as [n|msg]; [destruct note; [by apply hinv_status|apply Hs]|by apply hinv_status]. }
    destruct (ends_with _ p); [|rewrite bind_done; by apply (Hw _ None)]. destruct (gofmt_source _) as [s|msg|]; [|rewrite bind_done; by apply (Hw _ (Some msg))|rewrite bind_done; by apply (Hw _ None)].
    case_bool_decide; [rewrite bind_done; by apply (Hw _ None)|].
    pose proof I as [B M]. destruct (replace_does s (text e) (base_wf e B)) as (t & E & W & _); [lia|]. cbn [run_op] in E. unfold on_text. rewrite E, !bind_done. apply (Hw _ None).
    split; [|done]. destruct B as [[] B2 B3]. split; [split; [by split|done|done]|]. unfold mode_ok. cbn. by rewrite Hm.
  - destruct (negb _); [by apply opened|]. destruct (read_file path); [by apply opened|by apply opened|]. eexists. split; [reflexivity|]. by apply hinv_status.
  - eexists. split; [reflexivity|]. destruct (list_dir_files dir); [|by apply hinv_status]. destruct I as [[[] B2 B3] M]. split; [split; [split; [by split|done|done]|done]|done].
Qed.
Lemma unasked e : einv e → einv (with_request None e) ∧ no_save (with_request None e).
Proof. intros [[[] B2 B3] M]. split; [split; [split; [by split|done|done]|done]|done]. Qed.
Lemma dispatched k e : hinv e → room e → sound (dispatch_key k e).
Proof.
  intros [I N] R. unfold dispatch_key. destruct (handles k e I N R) as (e1 & -> & [P1 _ P3 _]). rewrite bind_done. destruct (request e1) as [req|] eqn:Er.
  - destruct (unasked e1 P1) as [I1 N1]. apply requested; [done|done|]. intros p ->. destruct (P3 p eq_refl) as [Hm Hr]. split; [done|]. change (text (with_request None e1)) with (text e1). rewrite Hr. destruct R as [R _]. unfold COUNT_MAX in R. lia.
  - exists e1. split; [done|]. split; [done|]. intros p. by rewrite Er.
Qed.
(** Anything that reaches the editor. *)
Lemma fed e i : hinv e → room e → sound (feed e i).
Proof.
  intros HI R. destruct i; cbn [feed]; try (eexists; split; [reflexivity|]; first [unread|idtac]).
  - by apply dispatched.
  - unfold drain. destruct (request e) as [req|] eqn:Er; [|by exists e]. destruct HI as [I N]. destruct (unasked e I) as [I1 N1]. apply requested; [done|done|]. intros p ->. by destruct (N p).
  - unfold show_hover. destruct (NoraDiag.trim s); unread.
  - unfold show_completion. case_bool_decide as Hm; [|done]. cbn [negb]. destruct items; [unread|]. destruct HI as [[[[] B2 B3] M] N]. unfold mode_ok in M. rewrite Hm in M. split; [split; [split; [by split|done|done]|done]|done].
  - unfold jump_to. cbv zeta. destruct (match path, filename e with Some p, Some cur => _ | Some _, None => _ | None, _ => _ end); [|by apply hinv_set]. destruct HI as [[[[] B2 B3] M] N]. split; [split; [split; [by split|done|done]|done]|done].
  - unfold set_debug_view. cbv zeta. destruct (_ || _); unread.
  - unfold follow_debug. cbv zeta. case_bool_decide; [apply hinv_set|]; unread.
  - destruct (framed name l c e HI) as (b & e' & -> & I'). rewrite bind_done. by exists e'.
  - by apply scratched.
  - unfold scroll_to. destruct (height =? 0); [done|]. cbv zeta. destruct (negb _); [unfold cursor|]; repeat case_match; unread.
Qed.
End Host.
End NoraHost.

Module NoraView.

(** ** Scrolling *)

(** [k] visual rows below [p]. *)
Fixpoint below (t : TextBuffer) (tw k : nat) (p : Pos) : option Pos :=
  match k with O => Some p | S k => q ← forward t tw p; below t tw k q end.
(** The cursor is on a screen of [height] rows of [tw] columns: with soft wrap its
    visual row is one of those that follow the anchor; without, its line and its
    column are in the window. *)
Definition on_screen (tw height : nat) (e : Editor) : Prop :=
  if wrap e then ∃ k, k < height ∧ below (text e) tw k (top e, top_sub e) = Some (cursor_visual (text e) tw)
  else top e ≤ row (text e) < top e + height ∧ left_ e ≤ col (text e) < left_ e + tw `max` 1.

Lemma rows_pos n tw : 0 < line_rows n tw.
Proof. unfold line_rows. destruct (Nat.eqb_spec n 0); [lia|]. apply Nat.div_str_pos. lia. Qed.
(** A visual row of the document. *)
Definition vis (t : TextBuffer) (tw : nat) (p : Pos) : Prop := p.1 < line_count t ∧ p.2 < row_rows t p.1 tw.
Lemma back_forth t tw p q : vis t tw p → backward t tw p = Some q → vis t tw q ∧ forward t tw q = Some p.
Proof.
  destruct p as [r s]. unfold vis, backward, forward. cbn [fst snd]. intros [Hr Hs]. destruct (Nat.ltb_spec 0 s).
  - intros [= <-]. cbn [fst snd]. rewrite (proj2 (Nat.ltb_lt _ _)) by lia. split; [lia|]. repeat f_equal. lia.
  - destruct (Nat.ltb_spec 0 r); [|done]. intros [= <-]. cbn [fst snd]. pose proof (rows_pos (char_len (r - 1) t) tw) as Hp. unfold row_rows in *.
    rewrite (proj2 (Nat.ltb_ge _ _)) by lia. rewrite (proj2 (Nat.ltb_lt _ _)) by lia. split; [lia|]. repeat f_equal; lia.
Qed.
Lemma below_snoc t tw k : ∀ p q, below t tw k p = Some q → below t tw (S k) p = forward t tw q.
Proof.
  induction k as [|k IH]; intros p q H; [injection H as <-; cbn; by destruct (forward t tw p)|]. cbn [below] in H. apply bind_Some in H as (p1 & E & H).
  change (below t tw (S (S k)) p) with (q ← forward t tw p; below t tw (S k) q). rewrite E. cbn [mbind option_bind]. by apply IH.
Qed.
Lemma back_below t tw n : ∀ p, vis t tw p → ∃ k, k ≤ n ∧ below t tw k (back_n t tw p n) = Some p.
Proof.
  induction n as [|n IH]; intros p Hv; [by exists 0|]. cbn [back_n]. destruct (backward t tw p) as [q|] eqn:E; [|exists 0; split; [lia|done]].
  destruct (back_forth t tw p q Hv E) as [Vq Ef]. destruct (IH q Vq) as (k & Hk & Hb). exists (S k). split; [lia|]. by rewrite (below_snoc _ _ _ _ _ Hb).
Qed.
(** The walk finds exactly what is on the screen. *)
Lemma seek_reached t tw cur n : ∀ p, seek t tw cur p n = Reached ↔ ∃ k, k ≤ n ∧ below t tw k p = Some cur.
Proof.
  induction n as [|n IH]; intros p; cbn [seek]; case_bool_decide as Hp.
  - split; [|done]. intros _. exists 0. cbn. by rewrite Hp.
  - split; [done|]. intros (k & Hk & Hb). destruct k; [cbn in Hb; congruence|lia].
  - split; [|done]. intros _. exists 0. split; [lia|]. cbn. by rewrite Hp.
  - destruct (forward t tw p) as [q|] eqn:E.
    + rewrite IH. split; intros (k & Hk & Hb); [exists (S k); cbn; rewrite E; split; [lia|done]|]. destruct k as [|k]; [cbn in Hb; congruence|]. cbn in Hb. rewrite E in Hb. exists k. split; [lia|done].
    + split; [done|]. intros (k & Hk & Hb). destruct k; [cbn in Hb; congruence|]. cbn in Hb. by rewrite E in Hb.
Qed.
Definition before (p q : Pos) : bool := (p.1 <? q.1) || (p.1 =? q.1) && (p.2 <? q.2).
Lemma below_after t tw k : ∀ p q, below t tw k p = Some q → before q p = false.
Proof.
  induction k as [|k IH]; intros p q H; [injection H as <-; unfold before; rewrite !Nat.ltb_irrefl; by destruct (_ =? _)|]. cbn [below] in H. apply bind_Some in H as (p1 & E & H).
  apply IH in H. revert H E. unfold before, forward. destruct p as [r s], q as [r' s'], p1 as [r1 s1]. cbn [fst snd]. rewrite !orb_false_iff, !andb_false_iff, !Nat.ltb_ge, !Nat.eqb_neq. intros H E.
  destruct (_ <? _); [injection E as <- <-; lia|]. destruct (_ <? _); [injection E as <- <-; lia|done].
Qed.
Lemma cursor_vis t tw : wf t → vis t tw (cursor_visual t tw).
Proof. intros W. destruct (wf_row t W) as [Hr _]. unfold vis, cursor_visual. cbn [fst snd]. split; [done|]. pose proof (rows_pos (char_len (row t) t) tw). unfold row_rows. lia. Qed.

(** The scroll, by the two ways of showing lines. *)
Lemma scroll_wrapped tw height e : 0 < height → wf (text e) → wrap e = true →
  on_screen tw height (scroll_to tw height e) ∧ (on_screen tw height e → (top (scroll_to tw height e), top_sub (scroll_to tw height e)) = (top e, top_sub e)).
Proof.
  intros Hh W Hw. unfold scroll_to. rewrite (proj2 (Nat.eqb_neq _ _)) by lia. cbv zeta. change (wrap (with_vp_tw tw e)) with (wrap e). rewrite Hw. cbn [negb].
  change (text (with_left 0 (with_vp_tw tw e))) with (text e). change (top (with_left 0 (with_vp_tw tw e))) with (top e). change (top_sub (with_left 0 (with_vp_tw tw e))) with (top_sub e).
  change (text (with_vp_tw tw e)) with (text e). set (e0 := with_left 0 (with_vp_tw tw e)). set (cur := cursor_visual (text e) tw). pose proof (cursor_vis (text e) tw W) as Hv. fold cur in Hv.
  assert (∀ p, (∃ k, k ≤ height - 1 ∧ below (text e) tw k p = Some cur) → on_screen tw height (with_top p.1 (with_top_sub p.2 e0))) as Hon.
  { intros p (k & Hk & Hb). unfold on_screen. change (wrap (with_top p.1 (with_top_sub p.2 e0))) with (wrap e). rewrite Hw. exists k. split; [lia|]. cbn. destruct p. exact Hb. }
  assert (on_screen tw height e → ∃ k, k ≤ height - 1 ∧ below (text e) tw k (top e, top_sub e) = Some cur) as Hoff.
  { unfold on_screen. rewrite Hw. intros (k & Hk & Hb). exists k. split; [lia|done]. }
  assert (∃ k, k ≤ height - 1 ∧ below (text e) tw k cur = Some cur) as H0 by (exists 0; split; [lia|done]).
  change (_ || _) with (before cur (top e, top_sub e)). destruct (before cur _) eqn:Eb.
  - split; [by apply Hon|]. intros (k & _ & Hb)%Hoff. apply below_after in Hb. congruence.
  - destruct (seek _ _ _ _ _) eqn:Es.
    + split; [|done]. apply seek_reached in Es. destruct Es as (k & Hk & Hb). unfold on_screen. change (wrap e0) with (wrap e). rewrite Hw. exists k. split; [lia|exact Hb].
    + split; [apply Hon, back_below, Hv|]. intros Hs%Hoff%seek_reached. congruence.
    + split; [by apply Hon|]. intros Hs%Hoff%seek_reached. congruence.
Qed.
Lemma scroll_plain tw height e : 0 < height → wrap e = false →
  on_screen tw height (scroll_to tw height e) ∧ (on_screen tw height e → (top (scroll_to tw height e), left_ (scroll_to tw height e)) = (top e, left_ e)).
Proof.
  intros Hh Hw. unfold scroll_to. rewrite (proj2 (Nat.eqb_neq _ _)) by lia. cbv zeta. change (wrap (with_vp_tw tw e)) with (wrap e). rewrite Hw. cbn [negb].
  unfold cursor. change (text (with_vp_tw tw e)) with (text e). cbn [top with_top_sub with_vp_tw]. destruct (Nat.ltb_spec (row (text e)) (top e)); [|destruct (Nat.leb_spec (top e + height) (row (text e)))]; cbn [left_ with_top with_top_sub with_vp_tw];
  (destruct (Nat.ltb_spec (col (text e)) (left_ e)); [|destruct (Nat.leb_spec (left_ e + tw `max` 1) (col (text e)))]); unfold on_screen; cbn; rewrite Hw; (split; [lia|intros [? ?]; f_equal; lia]).
Qed.

(** ** The tree of variables *)

Import NoraDiag.

Lemma var_ind (P : VarNode → Prop) : (∀ a b r ex f ch, Forall P ch → P (mkVar a b r ex f ch)) → ∀ n, P n.
Proof. intros H. fix IH 1. intros [a b r ex f ch]. apply H. induction ch as [|n ch IHc]; constructor; [apply IH|exact IHc]. Qed.

(** What is shown, in order: each node with its path from the roots. *)
Fixpoint outline_node (n : VarNode) (path : list nat) : list (list nat * VarNode) :=
  (path, n) :: match n with
               | mkVar _ _ _ true _ ch =>
                   (fix go (l : list VarNode) (i : nat) : list (list nat * VarNode) :=
                      match l with [] => [] | n :: l => outline_node n (path ++ [i]) ++ go l (S i) end) ch 0
               | _ => []
               end.
Fixpoint outline (l : list VarNode) (i : nat) (prefix : list nat) : list (list nat * VarNode) :=
  match l with [] => [] | n :: l => outline_node n (prefix ++ [i]) ++ outline l (S i) prefix end.
(** How deep the open nodes are nested. *)
Fixpoint levels (n : VarNode) : nat :=
  match n with
  | mkVar _ _ _ true _ ch => S ((fix go (l : list VarNode) : nat := match l with [] => 0 | n :: l => levels n `max` go l end) ch)
  | _ => 0
  end.
Definition depth_of (l : list VarNode) : nat := foldr (λ n k, levels n `max` k) 0 l.

Lemma outline_unfold n path : outline_node n path = (path, n) :: (if expanded n then outline (children n) 0 path else []).
Proof.
  destruct n as [a b r [] f ch]; [|done]. cbn [expanded children outline_node]. f_equal. generalize 0. induction ch as [|n ch IH]; intros i; [done|]. cbn [outline]. f_equal. apply IH.
Qed.
Lemma levels_unfold n : levels n = if expanded n then S (depth_of (children n)) else 0.
Proof. by destruct n as [a b r [] f ch]. Qed.
Lemma count_unfold n : node_count n = S (if expanded n then visible_count (children n) else 0).
Proof. destruct n as [a b r [] f ch]; [|done]. reflexivity. Qed.
Lemma walk_unfold n target counter path : walk_node n target counter path =
  if counter =? target then (Some path, counter) else if expanded n then walk_vars (children n) 0 target (counter + 1) path else (None, counter + 1).
Proof.
  destruct n as [a b r [] f ch]; [|done]. cbn [expanded children walk_node]. cbv zeta. destruct (_ =? _); [done|]. generalize 0, (counter + 1). induction ch as [|n ch IH]; intros i c; [done|]. cbn [walk_vars].
  destruct (walk_node n target c (path ++ [i])) as [[p|] c']; [done|]. apply IH.
Qed.
Lemma flatten_unfold n d : flatten_node n d = if expanded n then (d' ← uadd 16 d 1; rs ← flatten (children n) d' []; Done (row_at n d :: rs)) else Done [row_at n d].
Proof.
  destruct n as [a b r [] f ch]; [|done]. cbn [expanded children flatten_node]. cbv zeta. destruct (uadd 16 d 1) as [d'| |]; [|done|done]. rewrite !bind_done.
  enough (∀ out, flatten ch d' out = (rs ← (fix go (l : list VarNode) : outcome (list VarRow) := match l with [] => Done [] | n :: l => a ← flatten_node n d'; b ← go l; Done (a ++ b) end) ch; Done (out ++ rs))) as Hf.
  { rewrite (Hf []). cbn [app]. by destruct ((fix go (l : list VarNode) : outcome (list VarRow) := _) ch). }
  unfold flatten. induction ch as [|n ch IH]; intros out; cbn [foldM]; [rewrite bind_done; by rewrite app_nil_r|]. destruct (flatten_node n d') as [rs| |]; [|done|done]. rewrite !bind_done, IH.
  destruct ((fix go (l : list VarNode) : outcome (list VarRow) := _) ch) as [rs'| |]; [|done|done]. rewrite !bind_done. by rewrite app_assoc.
Qed.

(** The rows are those of the outline, at the depths of its paths. *)
Definition row_of (off : Z) (x : list nat * VarNode) : VarRow := row_at x.2 (zlen x.1 - off).
Definition node_rows (n : VarNode) : Prop := ∀ d path, (0 ≤ d)%Z → (d + Z.of_nat (levels n) ≤ u_max 16)%Z → flatten_node n d = Done (row_of (zlen path - d) <$> outline_node n path).
Lemma forest_rows l d : Forall node_rows l → (0 ≤ d)%Z → (d + Z.of_nat (depth_of l) ≤ u_max 16)%Z → ∀ i prefix out,
  flatten l d out = Done (out ++ (row_of (zlen prefix + 1 - d) <$> outline l i prefix)).
Proof.
  intros H Hd. unfold flatten. induction H as [|n l Hn _ IH]; intros Hl i prefix out; cbn [foldM outline]; [by rewrite app_nil_r|]. cbn [depth_of foldr] in Hl. fold (depth_of l) in Hl.
  rewrite (Hn d (prefix ++ [i])), !bind_done by lia. rewrite (IH ltac:(lia) (S i) prefix). rewrite fmap_app, app_assoc, length_app. cbn [length]. repeat f_equal; lia.
Qed.
Lemma rows_node n : node_rows n.
Proof.
  induction n as [a b r ex f ch IH] using var_ind. intros d path Hd Hl. rewrite flatten_unfold, outline_unfold. rewrite levels_unfold in Hl. cbn [expanded children] in *.
  assert (row_of (zlen path - d) (path, mkVar a b r ex f ch) = row_at (mkVar a b r ex f ch) d) as Hrow by (unfold row_of; cbn [fst snd]; f_equal; lia).
  destruct ex; [|by rewrite fmap_cons, Hrow]. rewrite uadd_ok by lia. rewrite bind_done.
  rewrite (forest_rows ch (d + 1) IH ltac:(lia) ltac:(lia) 0 path []), bind_done, fmap_cons, Hrow. cbn [app]. replace (zlen path + 1 - (d + 1))%Z with (zlen path - d)%Z by lia. done.
Qed.

(** The walk is a lookup in the outline. *)
Definition walked (found : option (list nat * VarNode)) (counter n : nat) (m : option (list nat) * nat) : Prop :=
  match found with Some x => m.1 = Some x.1 | None => m = (None, counter + n) end.
Definition node_walk (n : VarNode) : Prop := ∀ target counter path, counter ≤ target →
  walked (outline_node n path !! (target - counter)) counter (length (outline_node n path)) (walk_node n target counter path).
Lemma forest_walk l : Forall node_walk l → ∀ i target counter prefix, counter ≤ target →
  walked (outline l i prefix !! (target - counter)) counter (length (outline l i prefix)) (walk_vars l i target counter prefix).
Proof.
  induction 1 as [|n l Hn _ IH]; intros i target counter prefix Hc; cbn [outline walk_vars]; [rewrite lookup_nil; cbn; by rewrite Nat.add_0_r|].
  specialize (Hn target counter (prefix ++ [i]) Hc). destruct (Nat.lt_ge_cases (target - counter) (length (outline_node n (prefix ++ [i])))) as [Hlt|Hge].
  - rewrite lookup_app_l by done. destruct (lookup_lt_is_Some_2 _ _ Hlt) as [x Hx]. rewrite Hx in *. cbn in *. destruct (walk_node n target counter (prefix ++ [i])) as [m c]. cbn in *. by rewrite Hn.
  - rewrite lookup_app_r by done. rewrite (lookup_ge_None_2 _ _ Hge) in Hn. cbn in Hn. rewrite Hn, length_app. specialize (IH (S i) target (counter + length (outline_node n (prefix ++ [i]))) prefix ltac:(lia)).
    rewrite Nat.sub_add_distr in IH. unfold walked in *. destruct (outline l (S i) prefix !! _); [done|]. by rewrite Nat.add_assoc.
Qed.
Lemma walk_node_ok n : node_walk n.
Proof.
  induction n as [a b r ex f ch IH] using var_ind. intros target counter path Hc. rewrite walk_unfold, outline_unfold. cbn [expanded children]. destruct (Nat.eqb_spec counter target) as [->|Hne].
  - by rewrite Nat.sub_diag.
  - replace (target - counter) with (S (target - (counter + 1))) by lia. rewrite lookup_cons_ne_0 by lia. cbn [length Nat.pred]. destruct ex.
    + pose proof (forest_walk ch IH 0 target (counter + 1) path ltac:(lia)) as Hw. unfold walked in *. destruct (outline ch 0 path !! _); [done|]. rewrite Hw. f_equal. lia.
    + rewrite lookup_nil. cbn. f_equal. 
Qed.

(** The outline's paths lead to its nodes. *)
Definition node_paths (n : VarNode) : Prop := ∀ path x, x ∈ outline_node n path → ∃ rest, x.1 = path ++ rest ∧ match rest with [] => x.2 = n | _ => node_at_path (children n) rest = Some x.2 end.
Lemma at_path_cons roots i rest n m : roots !! i = Some n → match rest with [] => m = n | _ => node_at_path (children n) rest = Some m end → node_at_path roots (i :: rest) = Some m.
Proof. intros Hi H. cbn [node_at_path]. rewrite Hi. destruct rest; [by subst|done]. Qed.
Lemma forest_paths l : Forall node_paths l → ∀ roots i prefix, drop i roots = l → ∀ x, x ∈ outline l i prefix → ∃ rest, x.1 = prefix ++ rest ∧ node_at_path roots rest = Some x.2.
Proof.
  induction 1 as [|n l Hn _ IH]; intros roots i prefix Hd x Hx; cbn [outline] in Hx; [by apply elem_of_nil in Hx|]. apply elem_of_app in Hx as [Hx|Hx].
  - destruct (Hn _ _ Hx) as (rest & E & Hr). exists (i :: rest). rewrite E, <-app_assoc. split; [done|]. eapply at_path_cons; [|done]. rewrite <-(Nat.add_0_r i), <-lookup_drop, Hd. done.
  - apply (IH roots (S i) prefix); [|done]. by rewrite <-Nat.add_1_r, <-drop_drop, Hd.
Qed.
Lemma paths_node n : node_paths n.
Proof.
  induction n as [a b r ex f ch IH] using var_ind. intros path x. rewrite outline_unfold. cbn [expanded children]. intros [->|Hx]%elem_of_cons; [exists []; by rewrite app_nil_r|].
  destruct ex; [|by apply elem_of_nil in Hx]. destruct (forest_paths ch IH ch 0 path eq_refl x Hx) as (rest & E & Hr). exists rest. split; [done|]. by destruct rest.
Qed.
Definition node_counts (n : VarNode) : Prop := ∀ path, length (outline_node n path) = node_count n.
Lemma forest_count l : Forall node_counts l → ∀ i prefix, length (outline l i prefix) = visible_count l.
Proof. induction 1 as [|n l Hn _ IH]; intros i prefix; [done|]. cbn. rewrite length_app, Hn. f_equal. apply IH. Qed.
Lemma count_node n : node_counts n.
Proof. induction n as [a b r ex f ch IH] using var_ind. intros path. rewrite outline_unfold, count_unfold. cbn [expanded children length]. f_equal. destruct ex; [by apply forest_count|done]. Qed.

Lemma all_nodes (P : VarNode → Prop) l : (∀ n, P n) → Forall P l.
Proof. intros H. apply Forall_forall. auto. Qed.
Lemma rows_outline l : (Z.of_nat (depth_of l) ≤ u_max 16)%Z → flatten l 0 [] = Done (row_of 1 <$> outline l 0 []).
Proof. intros H. rewrite (forest_rows l 0 (all_nodes _ l rows_node) ltac:(lia) ltac:(lia) 0 []). done. Qed.
Lemma path_outline l target : visible_path l target = fst <$> outline l 0 [] !! target.
Proof.
  unfold visible_path. pose proof (forest_walk l (all_nodes _ l walk_node_ok) 0 target 0 [] ltac:(lia)) as H. rewrite Nat.sub_0_r in H. unfold walked in H. destruct (outline l 0 [] !! target); [done|]. by rewrite H.
Qed.
Lemma node_outline l x : x ∈ outline l 0 [] → node_at_path l x.1 = Some x.2.
Proof. intros Hx. destruct (forest_paths l (all_nodes _ l paths_node) l 0 [] eq_refl x Hx) as (rest & -> & Hr). done. Qed.

End NoraView.
