(* ===== verification/NoraClaims.v ===== *)
(** * The editor: what its text buffer and its edits promise *)

From S2P Require Import Prelude Vt KauaIn NoraText NoraSpec NoraOps NoraEdit NoraMulti.
From stdpp Require Import strings.
Import NoraText NoraFlat NoraSpec NoraRefine NoraOps NoraFind.
Open Scope nat_scope.

Module NoraClaims.

(** ** The text buffer *)

Section Buffer.
Context `{!Unicode}.

Definition run_ops (os : list Op) (t : TextBuffer) : outcome TextBuffer := foldM (λ t o, run_op o t) t os.
Definition spec_ops (os : list Op) (d : Doc) : Doc := foldl (λ d o, spec_op o d) d os.
(** The ranges of a sequence are of positions the document has by then. *)
Fixpoint in_range (os : list Op) (d : Doc) : Prop :=
  match os with
  | [] => True
  | o :: os =>
      match o with
      | DeleteRange a b => let ls := split_nl ((here d).1 ++ (here d).2) in valid ls a ∧ valid ls b
      | _ => True
      end ∧ in_range os (spec_op o d)
  end.
Definition costs (os : list Op) : Z := foldr (λ o z, cost o + z)%Z 0%Z os.

Lemma costs_pos os : (0 ≤ costs os)%Z.
Proof. unfold costs. induction os as [|o os IH]; cbn [foldr]; [done|]. pose proof (cost_pos o). lia. Qed.
Lemma costs_app os os' : costs (os ++ os') = (costs os + costs os')%Z.
Proof. unfold costs. induction os as [|o os IH]; cbn [foldr app]; [done|]. rewrite IH. lia. Qed.
Lemma in_range_app os os' d : in_range (os ++ os') d ↔ in_range os d ∧ in_range os' (spec_ops os d).
Proof. revert d. induction os as [|o os IH]; intros d; cbn; [tauto|]. rewrite IH. tauto. Qed.
Lemma in_range_allowed o os t : wf t → in_range (o :: os) (doc t) → allowed o t.
Proof. intros W [Ho _]. destruct o; try done. by rewrite doc_lines in Ho. Qed.
Lemma ops_do os : ∀ t, wf t → in_range os (doc t) → (rev t + costs os ≤ u_max 64)%Z → ∃ t', run_ops os t = Done t' ∧ wf t' ∧ doc t' = spec_ops os (doc t) ∧
  (rev t ≤ rev t' ≤ rev t + costs os)%Z ∧ (rev t' = rev t → content t' = content t).
Proof.
  induction os as [|o os IH]; intros t W Hr Hc; [exists t; cbn; auto with lia|]. cbn [costs foldr] in Hc. fold (costs os) in Hc. pose proof (costs_pos os).
  destruct (op_does o t W (in_range_allowed o os t W Hr)) as (t1 & E1 & W1 & D1 & R1 & C1); [lia|]. destruct Hr as [_ Hr]. rewrite <-D1 in Hr.
  destruct (IH t1 W1 Hr) as (t2 & E2 & W2 & D2 & R2 & C2); [lia|]. exists t2. unfold run_ops in *. cbn [foldM]. rewrite E1, bind_done. split; [done|]. split; [done|].
  split; [by rewrite D2, D1|]. cbn [costs foldr]. fold (costs os). split; [lia|]. intros E. rewrite C2 by lia. apply C1. lia.
Qed.
(** C19: The text buffer implements its abstract document, a text with a caret and a
    history: any sequence of edits, cuts, moves, word motions, checkpoints and
    undos of a buffer made from any text runs to completion, and leaves exactly the
    text, the caret and the history the document prescribes; the cursor is in the
    text and at most [UNDO_CAP] snapshots are kept; and a later state with the same
    revision number has the same content. *)
Theorem text_refines s os os' : in_range (os ++ os') (mkDoc ([], s) []) → (costs (os ++ os') ≤ u_max 64)%Z →
  ∃ t t', run_ops os (new s) = Done t ∧ run_ops os' t = Done t' ∧ wf t' ∧
    doc t = spec_ops os (mkDoc ([], s) []) ∧ doc t' = spec_ops os' (doc t) ∧ (rev t' = rev t → content t' = content t).
Proof.
  rewrite costs_app, in_range_app. intros [Hr Hr'] Hc. destruct (new_wf s) as [W D]. rewrite <-D in Hr, Hr'. pose proof (costs_pos os').
  destruct (ops_do os (new s) W Hr) as (t & E & Wt & Dt & Rt & _); [cbn; lia|]. rewrite <-Dt in Hr'. cbn in Rt.
  destruct (ops_do os' t Wt Hr') as (t' & E' & Wt' & Dt' & _ & Ct); [lia|]. exists t, t'. rewrite <-D. by split_and!.
Qed.
End Buffer.

(** The alphanumeric characters of ASCII. *)
#[local] Instance ascii : Unicode :=
  {| is_alphanumeric c := ((48 <=? c) && (c <=? 57) || (65 <=? c) && (c <=? 90) || (97 <=? c) && (c <=? 122))%Z |}.
(** "ab c\n(de)" and an edit of it: two words on, a break inserted, a cut across
    the lines, and the cut undone. *)
Definition sample : list Z := [97; 98; 32; 99; 10; 40; 100; 101; 41]%Z.
Definition sample_ops : list Op := [WordForward false; InsertNewline; Checkpoint; WordForward true; InsertChar 233; Down; DeleteRange (1, 1) (2, 1)].
Lemma text_refines_witness : ∃ t t', run_ops sample_ops (new sample) = Done t ∧ run_ops [Backspace; Undo] t = Done t' ∧ wf t' ∧
  doc t = spec_ops sample_ops (mkDoc ([], sample) []) ∧ doc t' = spec_ops [Backspace; Undo] (doc t) ∧ (rev t' = rev t → content t' = content t).
Proof.
  apply (text_refines sample sample_ops [Backspace; Undo]); [|vm_compute; done]. cbn [in_range sample_ops app]. repeat (split; [done|]). split; [|by repeat split].
  split; eexists; (split; [vm_compute; reflexivity|cbn; lia]).
Defined.

(** C21: Cut and paste: the text of a range is exactly the part of the content
    between its ends (the lower first, whichever order they are given in),
    [delete_range] takes exactly that part out and leaves the cursor there, and
    inserting the text again restores the content. *)
Theorem cut_paste t a b : wf t → valid (lines t) a → valid (lines t) b → (rev t + 3 + 2 * zlen (content t) ≤ u_max 64)%Z →
  ∃ s t1 t2 i j, range_of a b (content t) = (i, j) ∧ range_text a b t = Done s ∧ s = segment i j (content t) ∧
    delete_range a b t = Done t1 ∧ here (doc t1) = (take i (content t), drop j (content t)) ∧
    insert_str s t1 = Done t2 ∧ content t2 = content t.
Proof.
  intros W Va Vb Hr. destruct (range_text_ok t a b W Va Vb) as (i & j & Er & Hij & Et). pose proof (wf_cursor t W) as _.
  destruct (delete_range_does (H := {| is_alphanumeric _ := true |}) a b t W Va Vb) as (t1 & E1 & W1 & D1 & R1 & _); [lia|].
  assert (here (doc t1) = (take i (content t), drop j (content t))) as H1.
  { rewrite D1. cbn [spec_op here text_op]. unfold without_range. rewrite here_at. unfold at_. cbn [fst snd]. rewrite take_drop, Er. by rewrite Nat.max_r by lia. }
  exists (segment i j (content t)), t1. assert (zlen (segment i j (content t)) ≤ zlen (content t))%Z as Hs. { unfold segment. rewrite length_take, length_drop. lia. }
  destruct (insert_str_does (H := {| is_alphanumeric _ := true |}) (segment i j (content t)) t1 W1) as (t2 & E2 & W2 & D2 & _); [cbn [cost] in R1; lia|].
  exists t2, i, j. split_and!; try done. pose proof (f_equal here D2) as D3. cbn [spec_op text_op] in D3. rewrite H1 in D3. cbn [fst snd here] in D3.
  unfold content at 1. rewrite <-(halves_app (lines t2) (cursor t2)). change (halves (lines t2) (cursor t2)) with (here (doc t2)). rewrite D3. cbn [fst snd].
  rewrite <-app_assoc. unfold segment. replace (drop j (content t)) with (drop (j - i) (drop i (content t))) by (rewrite drop_drop; f_equal; lia). by rewrite !take_drop.
Qed.
(** From inside the second line of the sample back to the end of its first. *)
Lemma cut_paste_witness : ∃ s t1 t2 i j, range_of (1, 1) (0, 4) (content (new sample)) = (i, j) ∧ range_text (1, 1) (0, 4) (new sample) = Done s ∧ s = segment i j (content (new sample)) ∧
    delete_range (1, 1) (0, 4) (new sample) = Done t1 ∧ here (doc t1) = (take i (content (new sample)), drop j (content (new sample))) ∧
    insert_str s t1 = Done t2 ∧ content t2 = content (new sample).
Proof.
  apply (cut_paste (new sample) (1, 1) (0, 4)); [apply new_wf|eexists; split; [vm_compute; reflexivity|cbn; lia]..|vm_compute; done].
Defined.

(** C22: Search: for a pattern that is not empty the next match is found wherever it
    is, the one that comes first going down from just past the cursor, around the
    end of the document and up to the cursor itself; and nothing is found only when
    no line has the pattern. *)
Theorem find_next pat t : pat ≠ [] → wf t → ∃ h, find pat t = Done h ∧
  match h with
  | Some p => hit pat t p ∧ ∀ q, hit pat t q → pos_leb (rank t p) (rank t q) = true
  | None => ∀ q, ¬ hit pat t q
  end.
Proof.
  intros Hp W. destruct (wf_row t W) as [Hr _]. unfold find. destruct (probes pat t Hp W (line_count t + 1) 0) as (h & E & Hh); [lia|lia|].
  replace (match pat with [] => _ | _ => _ end) with (find_mapM (probe pat t) (seq 0 (line_count t + 1))) by by destruct pat. rewrite E. exists h. split; [done|].
  assert (∀ q, hit pat t q → q.1 < line_count t) as Hlt by (intros q (l & Hl & _); by eapply lookup_lt_Some).
  destruct h as [p|].
  - destruct Hh as (off & Ho & (Hhit & Hc & Hmin) & Hno). split; [done|]. intros q Hq.
    destruct (rank_cand t p Hr (Hlt p Hhit)) as (_ & _ & Hpm). specialize (Hpm off Ho Hc). destruct (rank_cand t q Hr (Hlt q Hq)) as (Hqc & Hqle & _).
    assert (off ≤ (rank t q).1) as Hge. { destruct (Nat.le_gt_cases off (rank t q).1) as [?|H1]; [done|]. by destruct (Hno q Hq _ H1). }
    unfold pos_leb. apply orb_true_iff. destruct (Nat.eq_dec off (rank t q).1) as [Eq|]; [|left; apply Nat.ltb_lt; lia].
    rewrite <-Eq in Hqc. specialize (Hmin q Hq Hqc). destruct (Nat.eq_dec (rank t p).1 (rank t q).1) as [E'|]; [right|left; apply Nat.ltb_lt; lia].
    apply andb_true_iff. split; [by apply Nat.eqb_eq|by apply Nat.leb_le].
  - intros q Hq. destruct (rank_cand t q Hr (Hlt q Hq)) as (Hqc & Hqle & _). exact (Hh q Hq _ Hqle Hqc).
Qed.
(** The match before the cursor of its own line, the last to be tried. *)
Lemma find_next_witness : let t := set_cursor 0 3 (new sample) in ∃ h, find [98; 32]%Z t = Done h ∧
  match h with
  | Some p => hit [98; 32]%Z t p ∧ ∀ q, hit [98; 32]%Z t q → pos_leb (rank t p) (rank t q) = true
  | None => ∀ q, ¬ hit [98; 32]%Z t q
  end.
Proof.
  apply (find_next [98; 32]%Z (set_cursor 0 3 (new sample))); [done|]. destruct (new_wf sample) as [W _].
  destruct (set_cursor_does 0 3 (new sample) W) as (t & E & Wt & _). injection E as <-. exact Wt.
Defined.

(** ** Replacing *)

(** C20: Replacing with several cursors, key by key: in normal mode with one cursor, no
    key sequence half typed, no debugger attached and an editable text ([idle]), [%s], a
    pattern of one or more characters that some line has, Enter, [c], a text without line
    breaks and Esc run to completion, while the revision counter has room, and replace, on every line, the matches of the pattern that do not
    overlap, from left to right, by the text, and nothing else; the buffer is marked
    modified; and one [u] then restores the document.  With a pattern that no line has
    the whole text stays selected, and [c] replaces all of it ([no_match_replaced]). *)
Theorem replace_all `{!Unicode, !NoraEdit.Manual} e pat s : wf (NoraEdit.text e) → NoraReplace.idle e → NoraEdit.mode e = NoraEdit.Normal → NoraEdit.carets e = [] →
  NoraEdit.readonly e = false → pat ≠ [] → Exists (λ l, find_sub pat l ≠ None) (lines (NoraEdit.text e)) → plain s →
  (rev (NoraEdit.text e) + 2 * (1 + zlen s) * (1 + zlen (content (NoraEdit.text e))) ≤ u_max 64)%Z →
  ∃ e', NoraReplace.handle_keys (NoraReplace.replace_keys pat s) e = Done e' ∧
    lines (NoraEdit.text e') = (λ l, NoraMulti.replaced (S (length l)) pat s l) <$> lines (NoraEdit.text e) ∧
    NoraEdit.mode e' = NoraEdit.Normal ∧ NoraEdit.modified e' = true ∧
    ∃ e2, NoraEdit.handle_key (NoraReplace.press "u") e' = Done e2 ∧ content (NoraEdit.text e2) = content (NoraEdit.text e).
Proof.
  intros W I Hm Hc Hr Hp Hex Hs Hb. pose proof (NoraMulti.sites_room pat (lines (NoraEdit.text e)) (length pat) 0 Hp) as Hroom. fold (content (NoraEdit.text e)) in Hroom.
  set (n := zlen (NoraMulti.sites (length pat) 0 (NoraMulti.cuts pat (lines (NoraEdit.text e))))) in *.
  destruct (NoraReplace.press_percent e W I Hm Hc Hr) as (e1 & E1 & S1 & I1 & M1 & C1). destruct (NoraReplace.press_s _ e1 S1 I1 M1 C1) as (e2 & E2 & S2 & P2 & Q2 & M2 & C2).
  destruct (NoraReplace.press_pattern _ pat e2 [] S2 P2 Q2 M2 C2) as (e3 & E3 & S3 & P3 & Q3 & M3 & C3).
  destruct (NoraReplace.press_enter _ pat e3 Hp S3 P3 Q3 M3 C3 (NoraMulti.sites_some pat _ _ Hex 0)) as (e4 & E4 & S4 & I4 & M4 & K4).
  assert (zlen (NoraEdit.carets e4) = n) as Hn by (destruct K4 as (_ & _ & ->); rewrite length_fmap, (NoraReplace.sd_lines _ _ S4); done).
  destruct (NoraReplace.press_c _ pat e4 S4 I4 M4 K4) as (e5 & E5 & T5 & I5 & M5 & R5 & Mo5 & (x & Ex & H5) & V5 & L5); [nia|].
  destruct (NoraReplace.press_text _ s Hs [] e5 T5 I5 M5 R5 Mo5) as (e6 & E6 & T6 & I6 & M6 & R6 & Mo6 & H6 & V6); [rewrite L5; nia|]. cbn [app] in T6.
  assert (NoraEdit.carets e6 ≠ []) as C6 by apply T6. pose proof (NoraReplace.press_esc e6 I6 M6 C6) as E7. set (e7 := NoraEdit.with_mode NoraEdit.Normal _) in E7.
  exists e7. unfold NoraReplace.handle_keys, NoraReplace.replace_keys in *. set (f := λ e k, NoraEdit.handle_key k e) in *.
  assert (foldM f e [NoraReplace.press "%"; NoraReplace.press "s"] = Done e2) as F1 by (unfold f; cbn [foldM]; rewrite E1, bind_done, E2; done).
  assert (foldM f e3 [NoraReplace.strike KauaIn.Enter; NoraReplace.press "c"] = Done e5) as F2 by (unfold f; cbn [foldM]; rewrite E4, bind_done, E5; done).
  assert (foldM f e6 [NoraReplace.strike KauaIn.KEsc] = Done e7) as F3 by (unfold f; cbn [foldM]; rewrite E7; done).
  rewrite foldM_app, F1, bind_done, foldM_app, E3, bind_done, foldM_app, F2, bind_done, foldM_app, E6, bind_done, F3.
  split; [done|]. destruct T6 as (W6 & L6 & _). split; [|split; [done|split; [exact Mo6|]]].
  - change (lines (NoraEdit.text e7)) with (lines (NoraEdit.text e6)). rewrite L6. unfold NoraMulti.cuts. rewrite <-list_fmap_compose. apply list_fmap_ext. intros i l _. apply NoraMulti.replaced_cut.
  - destruct (NoraReplace.press_u e7 x (history (doc (NoraEdit.text e)))) as (e8 & E8 & C8); [done|by destruct I6|done|done|done|change (rev (NoraEdit.text e7)) with (rev (NoraEdit.text e6)); rewrite L5 in V6; nia|change (NoraEdit.text e7) with (NoraEdit.text e6); congruence|].
    exists e8. by rewrite C8.
Qed.
#[local] Instance no_manual : NoraEdit.Manual := {| NoraEdit.HELP_TEXT := [] |}.
(** "foo bar foo\nx foofoo", and every "foo" made "oof!". *)
Definition memo : NoraEdit.Editor := NoraEdit.editor_new None (Vt.lit "foo bar foo" ++ [10%Z] ++ Vt.lit "x foofoo") false.
Lemma memo_wf : wf (NoraEdit.text memo).
Proof. apply new_wf. Qed.
Lemma replace_all_witness : ∃ e', NoraReplace.handle_keys (NoraReplace.replace_keys (Vt.lit "foo") (Vt.lit "oof!")) memo = Done e' ∧
    lines (NoraEdit.text e') = (λ l, NoraMulti.replaced (S (length l)) (Vt.lit "foo") (Vt.lit "oof!") l) <$> lines (NoraEdit.text memo) ∧
    NoraEdit.mode e' = NoraEdit.Normal ∧ NoraEdit.modified e' = true ∧
    ∃ e2, NoraEdit.handle_key (NoraReplace.press "u") e' = Done e2 ∧ content (NoraEdit.text e2) = content (NoraEdit.text memo).
Proof.
  apply (replace_all memo (Vt.lit "foo") (Vt.lit "oof!")); [exact memo_wf|done|done|done|done|done| | |vm_compute; done].
  - left. vm_compute. done.
  - vm_compute. repeat constructor; done.
Defined.
(** And what the lines are then. *)
Example replaced_memo : (λ l, NoraMulti.replaced (S (length l)) (Vt.lit "foo") (Vt.lit "oof!") l) <$> lines (NoraEdit.text memo) =
  [Vt.lit "oof! bar oof!"; Vt.lit "x oof!oof!"].
Proof. vm_compute. reflexivity. Qed.
Example no_match_replaced : match NoraReplace.handle_keys (NoraReplace.replace_keys (Vt.lit "fob") (Vt.lit "oof!")) memo with Done e => lines (NoraEdit.text e) | _ => [] end =
  [Vt.lit "oof!"].
Proof. vm_compute. reflexivity. Qed.

End NoraClaims.
