(* ===== verification/NoraPromises.v ===== *)
(** * The editor: what it promises its user

    Sessions of keys and answers, what a key may do to the documents, bracket jumps,
    scrolling and the rows of the variables tile. *)

From S2P Require Import Prelude Vt KauaIn NoraText NoraSpec NoraOps NoraDiag NoraEdit NoraMulti NoraKeys NoraHost.
From stdpp Require Import strings.
Import NoraText NoraFlat NoraSpec NoraRefine NoraOps NoraEdit NoraObjects NoraReplace NoraKeys NoraHost NoraView.
Open Scope nat_scope.

Module NoraPromises.

(** ** Sessions *)

Section Session.
Context `{!Unicode, !Manual}.

(** Each input with what the files, the directories and gofmt answer by then. *)
Notation Moment := (Files * Input)%type.
Definition take_in (e : Editor) (m : Moment) : outcome Editor := let _ : Files := m.1 in feed e m.2.
Definition session (ms : list Moment) (e : Editor) : outcome Editor := foldM take_in e ms.
(** The states the inputs meet. *)
Fixpoint met (ms : list Moment) (e : Editor) : list Editor :=
  match ms with [] => [] | m :: ms => e :: match take_in e m with Done e' => met ms e' | _ => [] end end.
(** Before each input the revision counter and the bracket depth have room. *)
Definition roomy (ms : list Moment) (e : Editor) : Prop := Forall room (met ms e).

#[global] Instance room_dec e : Decision (room e).
Proof. unfold room. apply _. Defined.
#[global] Instance roomy_dec ms e : Decision (roomy ms e).
Proof. unfold roomy. apply _. Defined.

Lemma hinv_new fname s ro : hinv (editor_new fname s ro).
Proof.
  split; [|done]. split; [|done]. split; [split; [apply new_wf|done|done]|cbn; lia|cbn]. constructor; [apply doc_new_ok|done].
Qed.
Lemma session_ok ms : ∀ e, hinv e → roomy ms e → ∃ e', session ms e = Done e' ∧ hinv e'.
Proof.
  unfold session. induction ms as [|m ms IH]; intros e I R; [by exists e|]. apply Forall_cons in R as [Hr R]. destruct (@fed _ _ m.1 e m.2 I Hr) as (e1 & E & I1). cbn [foldM].
  change (take_in e m) with (@feed _ _ m.1 e m.2) in *. rewrite E in *. rewrite bind_done. by apply IH.
Qed.
(** C17: An editor opened on any file and fed any sequence of keys (with the saves,
    opens and directory listings they ask for, whatever the files answer at each time), answers
    of the language server and of the debugger, and redraws never panics, while its
    counters have room: afterwards the active buffer exists, and in it and in every
    parked one the cursor is a position of the text; and what types is not read
    only. *)
Theorem editor_safe fname s ro ms : roomy ms (editor_new fname s ro) → ∃ e, session ms (editor_new fname s ro) = Done e ∧
  wf (text e) ∧ active e < length (bufs e) ∧ Forall (λ d, wf (b_text d)) (bufs e) ∧ (mode e = Insert_ → readonly e = false).
Proof.
  intros R. destruct (session_ok ms _ (hinv_new fname s ro) R) as (e & E & [[B M] N]). exists e. split; [done|]. split; [apply B|]. split; [apply B|]. split; [apply B|].
  intros Hm. unfold mode_ok in M. by rewrite Hm in M.
Qed.

(** C18: No key loses work unasked: from any state of a session a key is handled
    without a panic, and what happens to the documents of the open buffers is a
    sequence of edits that mark the buffer modified and leave read-only ones alone,
    of new unmodified buffers, and of closes of buffers that are not modified, are
    read only, or were given up by [:bd!]; and the key makes the editor quit only if
    the buffer on the screen is not modified or is read only, or the key ran [:q!]
    or [:wq]. *)
Theorem keys_keep k e : hinv e → room e → ∃ e', handle_key k e = Done e' ∧ rtc (changes (gives_up e)) (works e) (works e') ∧
  (quit e' = true → quit e = true ∨ modified e = false ∨ readonly e = true ∨ quits e).
Proof. intros [I N] R. destruct (handles k e I N R) as (e' & E & [P1 P2 P3 P4]). by exists e'. Qed.
End Session.

(** Letters of ASCII, an empty manual, and a disk without files that is full. *)
#[local] Instance letters : Unicode := {| is_alphanumeric c := ((97 <=? c) && (c <=? 122))%Z |}.
#[local] Instance blank_manual : Manual := {| HELP_TEXT := [] |}.
Definition full_disk : Files :=
  {| gofmt_source _ := Unavailable; write_file _ _ := Err (lit "full"); file_exists _ := false; read_file _ := NotFound; list_dir_files _ := Err (lit "none") |}.
(** A character typed, a save that fails, a redraw. *)
Definition keys_of (s : string) : list (Files * Input) := (λ c, (full_disk, Pressed (KauaIn.key_char c))) <$> lit s.
Definition visit : list (Files * Input) :=
  keys_of "ix" ++ [(full_disk, Pressed (strike KauaIn.KEsc))] ++ keys_of ":w" ++ [(full_disk, Pressed (strike KauaIn.Enter)); (full_disk, Drawn 10 4)].
Lemma editor_safe_witness : ∃ e, session visit (editor_new (Some (lit "f")) (lit "abc") false) = Done e ∧
  wf (text e) ∧ active e < length (bufs e) ∧ Forall (λ d, wf (b_text d)) (bufs e) ∧ (mode e = Insert_ → readonly e = false).
Proof.
  apply (editor_safe (Some (lit "f")) (lit "abc") false visit). apply (bool_decide_unpack _). vm_compute. done.
Defined.
(** What keys can still lose: [:wq] quits whether or not the write succeeds, and [:q]
    looks at the buffer on the screen only. *)
Example wq_full_disk : ∃ e, session (keys_of "ix" ++ [(full_disk, Pressed (strike KauaIn.KEsc))] ++ keys_of ":wq" ++ [(full_disk, Pressed (strike KauaIn.Enter))])
  (editor_new (Some (lit "f")) (lit "abc") false) = Done e ∧ quit e = true ∧ modified e = true.
Proof. eexists. split; [vm_compute; reflexivity|by vm_compute]. Qed.
Example q_other_buffer : ∃ e, session (keys_of "ix" ++ [(full_disk, Pressed (strike KauaIn.KEsc))] ++ keys_of ":e! g" ++ [(full_disk, Pressed (strike KauaIn.Enter))] ++ keys_of ":q" ++ [(full_disk, Pressed (strike KauaIn.Enter))])
  (editor_new (Some (lit "f")) (lit "abc") false) = Done e ∧ quit e = true ∧ (λ w, w.2) <$> works e = [true; false].
Proof. eexists. split; [vm_compute; reflexivity|by vm_compute]. Qed.
(** Typing in the first of two buffers. *)
Definition typing_in : Editor := with_bufs [doc_new None (lit "abc") false; doc_new None (lit "d") false] (with_mode Insert_ (with_modified true (editor_new None (lit "abc") false))).
Lemma keys_keep_witness : ∃ e', handle_key (press "x") typing_in = Done e' ∧ rtc (changes (gives_up typing_in)) (works typing_in) (works e') ∧
  (quit e' = true → quit typing_in = true ∨ modified typing_in = false ∨ readonly typing_in = true ∨ quits typing_in).
Proof.
  apply (keys_keep (press "x") typing_in); [|split; vm_compute; done]. split; [|done]. split; [|done]. split; [split; [apply new_wf|done|done]|cbn; lia|].
  constructor; [apply doc_new_ok|]. constructor; [apply doc_new_ok|done].
Defined.

(** ** Brackets *)

Definition brackets : list (Z * Z) := [(ch "(", ch ")"); (ch "[", ch "]"); (ch "{", ch "}")].
(** The two ends of a balanced pair. *)
Definition partner (t : TextBuffer) (p q : Pos) : Prop := ∃ o c, (o, c) ∈ brackets ∧ (paired o c t p q ∨ paired o c t q p).
Lemma bracket_ne o c : (o, c) ∈ brackets → o ≠ c.
Proof. unfold brackets. rewrite !elem_of_cons, elem_of_nil. by intros [[= -> ->]|[[= -> ->]|[[= -> ->]|[]]]]. Qed.
Lemma partner_lines t t' p q : lines t' = lines t → partner t p q → partner t' p q.
Proof. intros E (o & c & Hb & H). exists o, c. split; [done|]. unfold paired in *. by rewrite E. Qed.
Lemma partner_sym t p q : partner t p q → partner t q p.
Proof. intros (o & c & Hb & H). exists o, c. split; [done|tauto]. Qed.
Definition scan_from (x : Z) (p : Pos) (t : TextBuffer) : outcome (option Pos) :=
  if (x =? ch "(")%Z then scan_forward_match (ch "(") (ch ")") p t else if (x =? ch ")")%Z then scan_backward_match (ch "(") (ch ")") p t
  else if (x =? ch "[")%Z then scan_forward_match (ch "[") (ch "]") p t else if (x =? ch "]")%Z then scan_backward_match (ch "[") (ch "]") p t
  else if (x =? ch "{")%Z then scan_forward_match (ch "{") (ch "}") p t else if (x =? ch "}")%Z then scan_backward_match (ch "{") (ch "}") p t
  else Done None.
Lemma scan_open o c p t : (o, c) ∈ brackets → scan_from o p t = scan_forward_match o c p t.
Proof. unfold brackets. rewrite !elem_of_cons, elem_of_nil. by intros [[= -> ->]|[[= -> ->]|[[= -> ->]|[]]]]. Qed.
Lemma scan_close o c p t : (o, c) ∈ brackets → scan_from c p t = scan_backward_match o c p t.
Proof. unfold brackets. rewrite !elem_of_cons, elem_of_nil. by intros [[= -> ->]|[[= -> ->]|[[= -> ->]|[]]]]. Qed.
Lemma scan_cases x p t : (∃ o c, (o, c) ∈ brackets ∧ (x = o ∨ x = c)) ∨ scan_from x p t = Done None.
Proof.
  unfold scan_from. assert (∀ b, b ∈ brackets → x = b.1 ∨ x = b.2 → ∃ o c, (o, c) ∈ brackets ∧ (x = o ∨ x = c)) as Hb by (intros [o c]; eauto).
  repeat (match goal with |- context [(x =? ?y)%Z] => destruct (Z.eqb_spec x y); [left|] end); [..|by right];
  first [by apply (Hb (ch "(", ch ")")); [repeat constructor|auto] | by apply (Hb (ch "[", ch "]")); [repeat constructor|auto] | by apply (Hb (ch "{", ch "}")); [repeat constructor|auto]].
Qed.
(** What a scan finds is the partner, and a partner is found. *)
Lemma scan_partner x p t : small t → char_at p.1 p.2 t = Some x → ∃ h, scan_from x p t = Done h ∧ ∀ q, h = Some q ↔ partner t p q.
Proof.
  intros Hs Hc. assert (∀ o c q, (o, c) ∈ brackets → paired o c t p q → scan_from x p t = Done (Some q)) as Hf.
  { intros o c q Hb H. destruct (paired_scans o c t p q Hs (bracket_ne o c Hb) H) as (E & _ & Ho & _). assert (x = o) as -> by congruence. by rewrite (scan_open o c). }
  assert (∀ o c q, (o, c) ∈ brackets → paired o c t q p → scan_from x p t = Done (Some q)) as Hg.
  { intros o c q Hb H. destruct (paired_scans o c t q p Hs (bracket_ne o c Hb) H) as (_ & E & _ & Ho). assert (x = c) as -> by congruence. by rewrite (scan_close o c). }
  assert (∀ h, scan_from x p t = Done h → ∀ q, partner t p q → h = Some q) as Hu by (intros h E q (o & c & Hb & [H|H]); [apply (Hf o c q Hb) in H|apply (Hg o c q Hb) in H]; congruence).
  destruct (scan_cases x p t) as [(o & c & Hb & Hx)|E]; [|exists None; split; [done|]; intros q; split; [done|]; by apply Hu].
  destruct Hx as [->| ->].
  - destruct (forward_ok o c t p o Hs Hc) as (h & E & _). exists h. rewrite (scan_open o c) by done. split; [done|]. intros q. split; [|apply Hu; by rewrite (scan_open o c)].
    intros ->. exists o, c. split; [done|left]. by apply forward_paired; [|apply bracket_ne|..].
  - destruct (backward_ok o c t p c Hs Hc) as (h & E & _). exists h. rewrite (scan_close o c) by done. split; [done|]. intros q. split; [|apply Hu; by rewrite (scan_close o c)].
    intros ->. exists o, c. split; [done|right]. by apply backward_paired; [|apply bracket_ne|..].
Qed.
Lemma partner_valid t p q : small t → partner t p q → valid (lines t) q ∧ ∃ x, char_at p.1 p.2 t = Some x.
Proof.
  intros Hs (o & c & Hb & [H|H]); destruct (paired_scans _ _ _ _ _ Hs (bracket_ne o c Hb) H) as (_ & _ & H1 & H2); (split; [by eapply char_valid|eauto]).
Qed.
(** Where the cursor goes. *)
Lemma jump_lands e : small (text e) → ∃ h, match_bracket e = Done (match h with Some q => mv (set_pos q) e | None => e end) ∧ ∀ q, h = Some q ↔ partner (text e) (cursor (text e)) q.
Proof.
  intros Hs. destruct (char_at (cursor (text e)).1 (cursor (text e)).2 (text e)) as [x|] eqn:Hc.
  - destruct (scan_partner x _ _ Hs Hc) as (h & E & Hh).
    assert (match_bracket e = (dest ← scan_from x (cursor (text e)) (text e); Done (match dest with Some q => mv (set_cursor q.1 q.2) e | None => e end))) as -> by (unfold match_bracket; rewrite Hc; reflexivity).
    rewrite E, bind_done. exists h. split; [|done]. destruct h as [q|]; [|done]. destruct (partner_valid _ _ _ Hs (proj1 (Hh q) eq_refl)) as [V _].
    unfold mv. by rewrite (set_cursor_valid _ _ V).
  - exists None. split; [unfold match_bracket; by rewrite Hc|]. intros q. split; [done|]. intros [_ [x Hx]]%partner_valid; [congruence|done].
Qed.
(** C23: The bracket jump: from either bracket of a balanced pair of round, square
    or curly brackets the cursor goes to the other, over any number of lines, and a
    second jump comes back; from anywhere else, an unmatched bracket included,
    nothing changes. *)
Theorem bracket_jump e : small (text e) → ∃ e', match_bracket e = Done e' ∧ lines (text e') = lines (text e) ∧
  (∀ q, partner (text e) (cursor (text e)) q → cursor (text e') = q ∧ ∃ e2, match_bracket e' = Done e2 ∧ cursor (text e2) = cursor (text e)) ∧
  ((∀ q, ¬ partner (text e) (cursor (text e)) q) → e' = e).
Proof.
  intros Hs. destruct (jump_lands e Hs) as (h & E & Hh). eexists. split; [exact E|]. destruct h as [q|].
  - split; [done|]. split; [|intros Hn; by destruct (Hn q); apply Hh]. intros q' Hq'. assert (q' = q) as -> by (apply Hh in Hq'; congruence). split; [by destruct q|].
    assert (small (text (mv (set_pos q) e))) as Hs' by exact Hs. destruct (jump_lands _ Hs') as (h' & E' & Hh'). eexists. split; [exact E'|].
    assert (h' = Some (cursor (text e))) as ->; [|by destruct (cursor (text e))]. apply Hh'. apply partner_sym in Hq'. eapply (partner_lines (text e)); [done|]. by destruct q.
  - split; [done|]. split; [|done]. intros q Hq. by apply Hh in Hq.
Qed.
(** "f(a[1],\n (b))", the cursor on the outer open bracket. *)
Definition nested : Editor := mv (set_cursor 0 1) (editor_new None (Vt.lit "f(a[1]," ++ [10%Z] ++ Vt.lit " (b))") false).
Lemma bracket_jump_witness : ∃ e', match_bracket nested = Done e' ∧ lines (text e') = lines (text nested) ∧
  (∀ q, partner (text nested) (cursor (text nested)) q → cursor (text e') = q ∧ ∃ e2, match_bracket e' = Done e2 ∧ cursor (text e2) = cursor (text nested)) ∧
  ((∀ q, ¬ partner (text nested) (cursor (text nested)) q) → e' = nested).
Proof. apply (bracket_jump nested). vm_compute. done. Defined.
Example nested_jump : match_bracket nested = Done (mv (set_cursor 1 4) nested).
Proof. vm_compute. reflexivity. Qed.

(** ** The screen *)

(** C24: After [scroll_to] the cursor is on the screen: with soft wrap its visual row
    is within [height] rows of the anchor, and without its line and its column are in
    the window; and a screen that shows the cursor already does not scroll. *)
Theorem scroll_shows tw height e : 0 < height → wf (text e) →
  on_screen tw height (scroll_to tw height e) ∧
  (on_screen tw height e → top (scroll_to tw height e) = top e ∧ if wrap e then top_sub (scroll_to tw height e) = top_sub e else left_ (scroll_to tw height e) = left_ e).
Proof.
  intros Hh W. destruct (wrap e) eqn:Hw; [destruct (scroll_wrapped tw height e Hh W Hw) as [H1 H2]|destruct (scroll_plain tw height e Hh Hw) as [H1 H2]]; (split; [exact H1|]); intros Hs; specialize (H2 Hs); by injection H2.
Qed.
(** Two lines of ten columns or less, wrapped at four, on two rows. *)
Definition long_lines : Editor := with_wrap true (mv (set_cursor 1 9) (editor_new None (Vt.lit "0123456789" ++ [10%Z] ++ Vt.lit "abcdefghij") false)).
Lemma scroll_shows_witness : on_screen 4 2 (scroll_to 4 2 long_lines) ∧
  (on_screen 4 2 long_lines → top (scroll_to 4 2 long_lines) = top long_lines ∧
    if wrap long_lines then top_sub (scroll_to 4 2 long_lines) = top_sub long_lines else left_ (scroll_to 4 2 long_lines) = left_ long_lines).
Proof. apply (scroll_shows 4 2 long_lines); [lia|]. apply NoraMulti.set_cursor_wf, new_wf. Defined.
Example long_scroll : (top (scroll_to 4 2 long_lines), top_sub (scroll_to 4 2 long_lines)) = (1, 1).
Proof. vm_compute. reflexivity. Qed.

(** With soft wrap, up from the end of a line that fills its last visual row stays
    on that row. *)
Definition full_line : Editor := with_vp_tw 4 (with_wrap true (mv (set_cursor 0 8) (editor_new None (Vt.lit "01234567") false))).
Example up_full_line : (cursor_visual (text full_line) 4, cursor_visual (text (move_up full_line)) 4) = ((0, 1), (0, 1)).
Proof. vm_compute. reflexivity. Qed.

(** C25: The variables tile: flattening a forest whose open nodes are nested no
    deeper than a [u16] counts gives [visible_count] rows, and the numbering is
    inverted by [visible_path]: the path of a row's index leads to the node the row
    shows, at the depth of the path, and an index past the rows has no path. *)
Theorem rows_paths nodes : (Z.of_nat (depth_of nodes) ≤ u_max 16)%Z → ∃ rows, NoraDiag.flatten nodes 0 [] = Done rows ∧ length rows = NoraDiag.visible_count nodes ∧
  ∀ i, match rows !! i with
       | Some r => ∃ path n, NoraDiag.visible_path nodes i = Some path ∧ NoraDiag.node_at_path nodes path = Some n ∧ r = NoraDiag.row_at n (zlen path - 1)
       | None => NoraDiag.visible_path nodes i = None
       end.
Proof.
  intros Hd. exists (row_of 1 <$> outline nodes 0 []). split; [by apply rows_outline|]. split; [rewrite length_fmap; apply forest_count, all_nodes, count_node|]. intros i. rewrite path_outline, list_lookup_fmap.
  destruct (outline nodes 0 [] !! i) as [[p n]|] eqn:Ei; [|done]. cbn. exists p, n. split; [done|]. split; [|done]. apply (node_outline nodes (p, n)). by eapply list_elem_of_lookup_2.
Qed.
(** [i] and an open [p] with two fields. *)
Definition locals : list NoraDiag.VarNode :=
  [NoraDiag.new_var (Vt.lit "i") (Vt.lit "7") 0; NoraDiag.mkVar (Vt.lit "p") (Vt.lit "*T") 2001 true true [NoraDiag.new_var (Vt.lit "a") (Vt.lit "1") 0; NoraDiag.new_var (Vt.lit "b") (Vt.lit "2") 0]].
Lemma rows_paths_witness : ∃ rows, NoraDiag.flatten locals 0 [] = Done rows ∧ length rows = NoraDiag.visible_count locals ∧
  ∀ i, match rows !! i with
       | Some r => ∃ path n, NoraDiag.visible_path locals i = Some path ∧ NoraDiag.node_at_path locals path = Some n ∧ r = NoraDiag.row_at n (zlen path - 1)
       | None => NoraDiag.visible_path locals i = None
       end.
Proof. apply (rows_paths locals). vm_compute. done. Defined.

End NoraPromises.
