(* ===== verification/Frame.v ===== *)
(** * Content-Length framing (usr/lib/parley/src/frame.rs)

    The envelope of LSP and DAP messages: the encoder and the streaming decoder.
    Bytes are [Z]; a slice or a drain out of range is a panic; the value of the
    length header is read in a checked [usize] of 64 bits. *)

From S2P Require Import Prelude Digits.
Import Digits.
Open Scope Z_scope.

Module Frame.

Definition CR : Z := 13.
Definition LF : Z := 10.
Definition COLON : Z := 58.
Definition MAX_HEADER_BYTES : Z := 8192.
Definition MAX_BODY_BYTES : Z := 67108864.

(** The messages of [FrameError]. *)
Inductive FrameError :=
  | HeaderTooLarge | LengthExceedsCap | InvalidLength | LengthOverflow | MissingLength.

(** ** Encoding *)

(** ["Content-Length: "] *)
Definition LENGTH_NAME : list Z := [67; 111; 110; 116; 101; 110; 116; 45; 76; 101; 110; 103; 116; 104].
Definition hdr (n : Z) : list Z := LENGTH_NAME ++ [COLON; 32] ++ digits n.
Definition encode (body : list Z) : list Z := hdr (zlen body) ++ [CR; LF; CR; LF] ++ body.

(** ** Reading a header block *)

Fixpoint find_sep_from (buf : list Z) (i : nat) : option nat :=
  match buf with
  | a :: ((b :: c :: d :: _) as r) =>
      if (a =? CR) && (b =? LF) && (c =? CR) && (d =? LF) then Some i else find_sep_from r (S i)
  | _ => None
  end.
Definition find_sep (buf : list Z) : option nat := find_sep_from buf 0.

(** A line and what follows its [\r\n], if there is one. *)
Fixpoint split_line (b : list Z) : list Z * option (list Z) :=
  match b with
  | x :: ((y :: r) as t) =>
      if (x =? CR) && (y =? LF) then ([], Some r)
      else let '(line, rest) := split_line t in (x :: line, rest)
  | _ => (b, None)
  end.
Fixpoint split_crlf_f (fuel : nat) (b : list Z) : list (list Z) :=
  match fuel with
  | O => []
  | S fuel =>
      match b with
      | [] => []
      | _ =>
          let '(line, rest) := split_line b in
          line :: match rest with Some r => split_crlf_f fuel r | None => [] end
      end
  end.
Definition split_crlf (b : list Z) : list (list Z) := split_crlf_f (length b) b.

Definition is_ascii_whitespace (b : Z) : bool := (b =? 32) || (b =? 9) || (b =? 10) || (b =? 12) || (b =? 13).
Definition to_ascii_lowercase (b : Z) : Z := if (65 <=? b) && (b <=? 90) then b + 32 else b.

Fixpoint trim_start (b : list Z) : list Z :=
  match b with
  | first :: rest => if is_ascii_whitespace first then trim_start rest else b
  | [] => []
  end.
Definition trim (b : list Z) : list Z := rev (trim_start (rev (trim_start b))).

Definition eq_ignore_ascii_case (a b : list Z) : bool :=
  (length a =? length b)%nat &&
  forallb (λ xy : Z * Z, to_ascii_lowercase xy.1 =? to_ascii_lowercase xy.2) (zip a b).

Definition add_digit (n b : Z) : option Z := x ← checked_mul 64 n 10; checked_add 64 x (b - 48).
Fixpoint read_digits (n : Z) (val : list Z) : option Z :=
  match val with
  | [] => Some n
  | b :: val => n ← add_digit n b; read_digits n val
  end.

Fixpoint find_length (ls : list (list Z)) : result FrameError Z :=
  match ls with
  | [] => Err MissingLength
  | line :: ls =>
      match position (Z.eqb COLON) line with
      | None => find_length ls
      | Some colon =>
          if eq_ignore_ascii_case (trim (take colon line)) LENGTH_NAME then
            let val := trim (drop (S colon) line) in
            if bool_decide (val = []) || negb (forallb is_ascii_digit val) then Err InvalidLength
            else match read_digits 0 val with Some n => Ok n | None => Err LengthOverflow end
          else find_length ls
      end
  end.
Definition parse_content_length (headers : list Z) : result FrameError Z := find_length (split_crlf headers).

(** ** The decoder *)

Record Decoder := mkDecoder { buf : list Z; body_len : option Z }.
Definition new : Decoder := mkDecoder [] None.
Definition push (d : Decoder) (bytes : list Z) : Decoder := mkDecoder (buf d ++ bytes) (body_len d).

(** [self.buf.drain(0..n)]: what was drained and what is left. *)
Definition drain (b : list Z) (n : nat) : outcome (list Z * list Z) :=
  if (n <=? length b)%nat then Done (take n b, drop n b) else Panic.

(** The turn of the loop that awaits a body of [n] bytes. *)
Definition take_body (d : Decoder) (n : Z) : outcome (Decoder * result FrameError (option (list Z))) :=
  if n <=? zlen (buf d) then
    '(body, rest) ← drain (buf d) (Z.to_nat n);
    Done (mkDecoder rest None, Ok (Some body))
  else Done (d, Ok None).

Definition next_frame (d : Decoder) : outcome (Decoder * result FrameError (option (list Z))) :=
  match body_len d with
  | None =>
      match find_sep (buf d) with
      | None =>
          Done (d, if MAX_HEADER_BYTES <? zlen (buf d) then Err HeaderTooLarge else Ok None)
      | Some sep =>
          match parse_content_length (take sep (buf d)) with
          | Err e => Done (d, Err e)
          | Ok n =>
              if MAX_BODY_BYTES <? n then Done (d, Err LengthExceedsCap) else
              '(_, rest) ← drain (buf d) (sep + 4);
              take_body (mkDecoder rest (Some n)) n
          end
      end
  | Some n => take_body d n
  end.

(** ** A reader

    The loop the decoder is made for: every frame out after each push, the
    connection torn down at an error. *)

Fixpoint drain_frames (fuel : nat) (d : Decoder) : outcome (Decoder * list (list Z) * option FrameError) :=
  match fuel with
  | O => OutOfFuel
  | S fuel =>
      '(d, r) ← next_frame d;
      match r with
      | Err e => Done (d, [], Some e)
      | Ok None => Done (d, [], None)
      | Ok (Some body) =>
          '(d, bodies, e) ← drain_frames fuel d;
          Done (d, body :: bodies, e)
      end
  end.
(** A frame takes at least its separator from the buffer, but for one whose
    header is already taken. *)
Definition frames (d : Decoder) := drain_frames (length (buf d) + 2) d.

Fixpoint feed (d : Decoder) (chunks : list (list Z)) : outcome (Decoder * list (list Z) * option FrameError) :=
  match chunks with
  | [] => Done (d, [], None)
  | c :: chunks =>
      '(d, bodies, e) ← frames (push d c);
      match e with
      | Some e => Done (d, bodies, Some e)
      | None =>
          '(d, more, e) ← feed d chunks;
          Done (d, bodies ++ more, e)
      end
  end.

End Frame.
