(* ===== verification/FrameProofs.v ===== *)
(** * The decoder gives back what was encoded

    Whatever chunks a stream of encoded messages arrives in, draining the decoder
    after each push gives every message once, whole and in order.  On arbitrary
    bytes the decoder returns, and what it keeps buffered is capped. *)

From S2P Require Import Prelude Digits Frame.
Import Digits Frame.
Open Scope Z_scope.

Module FrameProofs.

(** ** Numbers *)

Lemma read_digits_ok ds n : all_digits ds → 0 ≤ n → value n ds ≤ u_max 64 → read_digits n ds = Some (value n ds).
Proof.
  revert n. induction ds as [|b ds IH]; intros n Hd Hn Hv; [done|]. apply Forall_cons in Hd as [Hb%digit_range Hd].
  cbn [read_digits]. cbn in Hv. pose proof (value_grows ds (n * 10 + (b - 48)) Hd ltac:(lia)) as Hg. unfold value in Hg.
  unfold add_digit, checked_add, checked_mul. rewrite !(proj2 (Z.leb_le _ _)) by lia. cbn [mbind option_bind].
  rewrite (proj2 (Z.leb_le _ _)) by lia. cbn [mbind option_bind]. rewrite IH by (done || lia). done.
Qed.

(** ** The header of an encoded message *)

Lemma find_sep_skip x r i : x ≠ CR → find_sep_from (x :: r) i = find_sep_from r (S i).
Proof.
  intros Hx. destruct r as [|a [|b [|c r]]]; try done. cbn [find_sep_from]. by rewrite (proj2 (Z.eqb_neq x CR)).
Qed.
Lemma find_sep_hdr h rest i : CR ∉ h → find_sep_from (h ++ [CR; LF; CR; LF] ++ rest) i = Some (i + length h)%nat.
Proof.
  revert i. induction h as [|x h IH]; intros i Hh; [cbn; f_equal; lia|]. apply not_elem_of_cons in Hh as [Hx Hh].
  cbn [app]. rewrite find_sep_skip by done. change (CR :: LF :: CR :: LF :: rest) with ([CR; LF; CR; LF] ++ rest).
  rewrite IH by done. cbn. f_equal. lia.
Qed.
Lemma find_sep_part h k i : CR ∉ h → (k < length h + 4)%nat → find_sep_from (take k (h ++ [CR; LF; CR; LF])) i = None.
Proof.
  revert k i. induction h as [|x h IH]; intros k i Hh Hk.
  - cbn in Hk. by destruct k as [|[|[|[|k]]]]; [..|lia].
  - apply not_elem_of_cons in Hh as [Hx Hh]. destruct k as [|k]; [done|]. cbn [app take].
    rewrite find_sep_skip by done. apply IH; [done|]. cbn in Hk. lia.
Qed.

Lemma split_line_whole b : CR ∉ b → split_line b = (b, None).
Proof.
  induction b as [|x b IH]; [done|]. intros [Hx Hb]%not_elem_of_cons. destruct b as [|y b]; [done|].
  cbn [split_line] in *. rewrite (proj2 (Z.eqb_neq x CR)) by done. cbn [andb]. by rewrite IH.
Qed.

Lemma digit_plain b : is_ascii_digit b = true → is_ascii_whitespace b = false ∧ b ≠ CR ∧ b ≠ COLON.
Proof. rewrite digit_range. intros H. unfold is_ascii_whitespace, CR, COLON. lia. Qed.
Lemma trim_start_digits ds : all_digits ds → trim_start ds = ds.
Proof.
  destruct ds as [|b ds]; [done|]. intros [[Hb _]%digit_plain _]%Forall_cons. cbn. by rewrite Hb.
Qed.
Lemma trim_digits ds : all_digits ds → trim (32 :: ds) = ds.
Proof.
  intros Hd. unfold trim. cbn [trim_start]. rewrite (trim_start_digits ds) by done.
  rewrite trim_start_digits by (by apply Forall_rev). apply rev_involutive.
Qed.

Lemma hdr_no_cr n : 0 ≤ n → CR ∉ hdr n.
Proof.
  intros Hn. destruct (digits_ok n Hn) as [Hd _]. unfold hdr. intros [H|[H|H]%elem_of_app]%elem_of_app.
  - unfold LENGTH_NAME, CR in H. repeat (apply elem_of_cons in H as [H|H]; [done|]). by apply elem_of_nil in H.
  - unfold CR, COLON in H. repeat (apply elem_of_cons in H as [H|H]; [done|]). by apply elem_of_nil in H.
  - rewrite Forall_forall in Hd. apply Hd in H. by apply digit_plain in H as (_ & H & _).
Qed.
Lemma hdr_parses n : 0 ≤ n ≤ u_max 64 → parse_content_length (hdr n) = Ok n.
Proof.
  intros Hn. destruct (digits_ok n) as (Hd & Hne & Hv & _); [lia|]. unfold parse_content_length, split_crlf.
  destruct (length (hdr n)) as [|k] eqn:Hl; [done|]. cbn [split_crlf_f]. rewrite split_line_whole by (apply hdr_no_cr; lia).
  change (match hdr n with [] => [] | _ => [hdr n] end) with [hdr n].
  assert (position (Z.eqb COLON) (hdr n) = Some 14%nat) as Hp by done. cbn [find_length]. rewrite Hp.
  change (take 14 (hdr n)) with LENGTH_NAME. change (drop 15 (hdr n)) with (32 :: digits n).
  rewrite trim_digits by done. rewrite bool_decide_eq_false_2 by done.
  rewrite (proj2 (forallb_Forall _ _) Hd). cbn [orb negb]. rewrite read_digits_ok by (done || lia). by rewrite Hv.
Qed.

(** ** Arbitrary bytes *)

Lemma find_sep_bound b i k : find_sep_from b i = Some k → (i ≤ k ∧ k + 4 ≤ i + length b)%nat.
Proof.
  revert i. induction b as [|x b IH]; intros i; [done|]. destruct b as [|y [|z [|w b]]]; try done.
  cbn [find_sep_from]. destruct (_ && _).
  - intros [= <-]. cbn. lia.
  - intros H%IH. cbn [length] in *. lia.
Qed.
Lemma find_length_pos ls n : find_length ls = Ok n → 0 ≤ n.
Proof.
  induction ls as [|line ls IH]; [done|]. cbn [find_length]. destruct (position _ line) as [c|]; [|done].
  destruct (eq_ignore_ascii_case _ _); [|done]. set (val := trim _). destruct (_ || _) eqn:Hb; [done|].
  apply orb_false_iff in Hb as [_ Hb%negb_false_iff]. apply forallb_Forall in Hb.
  assert (∀ ds a m, all_digits ds → 0 ≤ a → read_digits a ds = Some m → 0 ≤ m) as Hr.
  { induction ds as [|b ds IHd]; intros a m Hd Ha; cbn [read_digits]; [intros [= <-]; done|].
    apply Forall_cons in Hd as [Hd%digit_range Hds]. unfold add_digit, checked_add, checked_mul.
    destruct (_ <=? _); [|done]. cbn [mbind option_bind]. destruct (_ <=? _); [|done]. cbn [mbind option_bind].
    apply IHd; [done|lia]. }
  destruct (read_digits 0 val) as [m|] eqn:Hm; [|done]. intros [= <-]. by eapply Hr.
Qed.

(** A decoder that awaits a body awaits one within the cap. *)
Definition wf (d : Decoder) : Prop := ∀ n, body_len d = Some n → 0 ≤ n ≤ MAX_BODY_BYTES.
(** What may stay buffered. *)
Definition settled (d : Decoder) : Prop :=
  match body_len d with None => zlen (buf d) ≤ MAX_HEADER_BYTES | Some n => zlen (buf d) < n end.
Definition load (d : Decoder) : nat := length (buf d) + match body_len d with Some _ => 1 | None => 0 end.

Lemma take_body_total d n : 0 ≤ n ≤ MAX_BODY_BYTES → body_len d = Some n →
  ∃ d' r, take_body d n = Done (d', Ok r) ∧
    match r with
    | Some b => body_len d' = None ∧ buf d = b ++ buf d' ∧ zlen b = n
    | None => d' = d ∧ zlen (buf d) < n
    end.
Proof.
  intros Hn Hb. unfold take_body, drain. destruct (Z.leb_spec n (zlen (buf d))) as [H|H]; [|by exists d, None].
  rewrite (proj2 (Nat.leb_le _ _)) by lia. obind. eexists _, (Some _). split; [done|]. split; [done|].
  split; [cbn [buf]; by rewrite take_drop|]. rewrite length_take. lia.
Qed.

(** [next_frame] on any bytes. *)
Lemma next_total d : wf d → ∃ d' r, next_frame d = Done (d', r) ∧ wf d' ∧
  match r with
  | Ok (Some b) => (load d' < load d)%nat ∧ zlen b ≤ MAX_BODY_BYTES
  | Ok None => settled d'
  | Err _ => True
  end.
Proof.
  intros Hwf. unfold next_frame, wf, settled, load. destruct (body_len d) as [n|] eqn:Hbl.
  - specialize (Hwf n Hbl). destruct (take_body_total d n Hwf Hbl) as (d' & r & -> & Hr). exists d', (Ok r). split; [done|].
    destruct r as [b|].
    + destruct Hr as (Hb' & Hbuf & Hl). rewrite Hb'. split; [done|]. rewrite Hbuf, length_app. lia.
    + destruct Hr as [-> Hlt]. rewrite Hbl. split; [|done]. by intros m [= <-].
  - destruct (find_sep (buf d)) as [sep|] eqn:Hsep.
    2:{ eexists d, _. split; [done|]. rewrite Hbl. split; [done|]. destruct (Z.ltb_spec MAX_HEADER_BYTES (zlen (buf d))); [done|lia]. }
    pose proof (find_sep_bound _ _ _ Hsep) as [_ Hs]. cbn in Hs.
    destruct (parse_content_length (take sep (buf d))) as [n|e] eqn:Hp; [|exists d, (Err e); by rewrite Hbl].
    apply find_length_pos in Hp. destruct (Z.ltb_spec MAX_BODY_BYTES n) as [|Hn]; [eexists d, _; by rewrite Hbl|].
    unfold drain. rewrite (proj2 (Nat.leb_le _ _)) by done. obind.
    destruct (take_body_total (mkDecoder (drop (sep + 4) (buf d)) (Some n)) n) as (d' & r & -> & Hr); [lia|done|].
    exists d', (Ok r). split; [done|]. cbn [buf body_len] in Hr. destruct r as [b|].
    + destruct Hr as (Hb' & Hbuf & Hl). rewrite Hb'. split; [done|].
      apply (f_equal length) in Hbuf. rewrite length_app, length_drop in Hbuf. lia.
    + destruct Hr as [-> Hlt]. cbn [body_len buf]. split; [|done]. intros m [= <-]. lia.
Qed.

Lemma drain_total fuel d : wf d → (load d < fuel)%nat → ∃ d' bs e, drain_frames fuel d = Done (d', bs, e) ∧ wf d' ∧
  Forall (λ b, zlen b ≤ MAX_BODY_BYTES) bs ∧ (e = None → settled d').
Proof.
  revert d. induction fuel as [|fuel IH]; intros d Hwf Hf; [lia|]. cbn [drain_frames].
  destruct (next_total d Hwf) as (d1 & r & -> & Hwf1 & Hr). obind. destruct r as [[b|]|e].
  - destruct Hr as [Hlt Hb]. destruct (IH d1 Hwf1) as (d' & bs & e & -> & Hwf' & Hbs & He); [lia|]. obind.
    eexists d', _, e. split; [done|]. split; [done|]. split; [by constructor|done].
  - eexists d1, [], None. split; [done|]. split; [done|]. by split.
  - eexists d1, [], (Some e). split; [done|]. split; [done|]. by split.
Qed.
Lemma frames_total d : wf d → ∃ d' bs e, frames d = Done (d', bs, e) ∧ wf d' ∧
  Forall (λ b, zlen b ≤ MAX_BODY_BYTES) bs ∧ (e = None → settled d').
Proof. intros Hwf. apply drain_total; [done|]. unfold load. destruct (body_len d); lia. Qed.

(** ** A stream of encoded messages *)

Notation fits := (Forall (λ b, zlen b ≤ MAX_BODY_BYTES)).
Definition stream (bodies : list (list Z)) : list Z := concat (encode <$> bodies).

(** What is buffered, followed by what is still to come, is the messages [bodies]. *)
Definition ahead (d : Decoder) (bodies : list (list Z)) (fut : list Z) : Prop :=
  match body_len d with
  | None => buf d ++ fut = stream bodies
  | Some n => ∃ b rest, bodies = b :: rest ∧ n = zlen b ∧ buf d ++ fut = b ++ stream rest
  end.

Lemma prefix_cut {A} (b f x y : list A) : b ++ f = x ++ y → (length x ≤ length b)%nat → ∃ z, b = x ++ z ∧ z ++ f = y.
Proof.
  intros H Hl. exists (drop (length x) b). assert (b = x ++ drop (length x) b) as Hb.
  { rewrite <-(take_drop (length x) b) at 1. f_equal.
    rewrite <-(take_app_le b f) by done. by rewrite H, take_app_length. }
  split; [done|]. apply (app_inv_head x). by rewrite app_assoc, <-Hb.
Qed.
Lemma prefix_take {A} (b f x y : list A) : b ++ f = x ++ y → (length b < length x)%nat → b = take (length b) x ∧ f ≠ [].
Proof.
  intros H Hl. split.
  - rewrite <-(take_app_length b f) at 1. by rewrite H, take_app_le by lia.
  - intros ->. rewrite app_nil_r in H. apply (f_equal length) in H. rewrite length_app in H. lia.
Qed.

Lemma take_body_ahead d b rest fut : zlen b ≤ MAX_BODY_BYTES → body_len d = Some (zlen b) → buf d ++ fut = b ++ stream rest →
  ∃ d' r, take_body d (zlen b) = Done (d', Ok r) ∧
    match r with
    | Some b' => b' = b ∧ ahead d' rest fut
    | None => ahead d' (b :: rest) fut ∧ fut ≠ []
    end.
Proof.
  intros Hb Hbl Hs. destruct (take_body_total d (zlen b)) as (d' & r & -> & Hr); [lia|done|]. exists d', r. split; [done|].
  destruct r as [b'|].
  - destruct Hr as (Hb' & Hbuf & Hl). rewrite Hbuf, <-app_assoc in Hs. apply app_inj_1 in Hs as [-> Hs]; [|lia].
    split; [done|]. unfold ahead. by rewrite Hb'.
  - destruct Hr as [-> Hlt]. split; [unfold ahead; rewrite Hbl; by exists b, rest|].
    apply (prefix_take _ _ _ _ Hs). lia.
Qed.

Lemma hdr_length n : 0 ≤ n ≤ MAX_BODY_BYTES → zlen (hdr n) + 4 ≤ MAX_HEADER_BYTES.
Proof.
  intros Hn. destruct (digits_ok n) as (_ & _ & _ & Hl & _); [lia|]. unfold hdr, MAX_HEADER_BYTES. rewrite !length_app.
  assert (Z.log2 n ≤ 26) as Hlog by (etransitivity; [apply (Z.log2_le_mono n MAX_BODY_BYTES); lia|done]).
  change (length LENGTH_NAME) with 14%nat. cbn [length]. lia.
Qed.

Lemma next_ahead d bodies fut : fits bodies → ahead d bodies fut →
  ∃ d' r, next_frame d = Done (d', Ok r) ∧
    match r with
    | Some b => ∃ rest, bodies = b :: rest ∧ ahead d' rest fut
    | None => ahead d' bodies fut ∧ (fut = [] → bodies = [])
    end.
Proof.
  intros Hfit Ha. unfold ahead in Ha. unfold next_frame. destruct (body_len d) as [n|] eqn:Hbl.
  - destruct Ha as (b & rest & -> & -> & Hs). apply Forall_cons in Hfit as [Hb _].
    destruct (take_body_ahead d b rest fut Hb Hbl Hs) as (d' & r & -> & Hr). exists d', r. split; [done|].
    destruct r as [b'|]; [destruct Hr as [-> Hr]; eauto|]. destruct Hr as [Hr Hf]. by split.
  - destruct bodies as [|b rest].
    { apply app_eq_nil in Ha as [Hb Hf]. unfold find_sep. rewrite Hb. exists d, None. split; [done|]. split; [|done].
      unfold ahead. by rewrite Hbl, Hb, Hf. }
    apply Forall_cons in Hfit as [Hb _]. cbn beta in Hb. unfold stream in Ha. rewrite fmap_cons in Ha. cbn [concat] in Ha. fold (stream rest) in Ha.
    unfold encode in Ha. rewrite <-!app_assoc in Ha. set (h := hdr (zlen b)) in *.
    assert (CR ∉ h) as Hcr by (apply hdr_no_cr; lia).
    assert (buf d ++ fut = (h ++ [CR; LF; CR; LF]) ++ (b ++ stream rest)) as Ha' by (rewrite Ha; by rewrite <-!app_assoc).
    destruct (decide (length (buf d) < length h + 4)%nat) as [Hlt|Hge].
    + destruct (prefix_take _ _ _ _ Ha') as [Hbuf Hf]; [rewrite length_app; cbn [length]; lia|].
      assert (find_sep (buf d) = None) as -> by (unfold find_sep; rewrite Hbuf; by apply find_sep_part).
      rewrite (proj2 (Z.ltb_ge _ _)) by (pose proof (hdr_length (zlen b) ltac:(lia)); unfold h in Hlt; lia).
      exists d, None. split; [done|]. split; [|done]. unfold ahead. rewrite Hbl. rewrite Ha'.
      unfold stream, encode. cbn. by rewrite <-!app_assoc.
    + destruct (prefix_cut _ _ _ _ Ha') as (z & Hbuf & Hz); [rewrite length_app; cbn [length]; lia|].
      assert (find_sep (buf d) = Some (length h)) as ->.
      { unfold find_sep. rewrite Hbuf, <-app_assoc, find_sep_hdr by done. done. }
      rewrite Hbuf, <-app_assoc, take_app_length. unfold h at 1. rewrite hdr_parses by (unfold MAX_BODY_BYTES, u_max in *; lia).
      rewrite (proj2 (Z.ltb_ge _ _)) by done. unfold drain.
      rewrite (proj2 (Nat.leb_le _ _)) by (rewrite !length_app; cbn [length]; lia). obind.
      rewrite app_assoc, drop_app_length' by (rewrite length_app; cbn [length]; lia).
      destruct (take_body_ahead (mkDecoder z (Some (zlen b))) b rest fut Hb eq_refl Hz) as (d' & r & -> & Hr).
      exists d', r. split; [done|]. destruct r as [b'|]; [destruct Hr as [-> Hr]; eauto|]. destruct Hr as [Hr Hf]. by split.
Qed.

Lemma drain_ahead fuel d bodies fut : fits bodies → ahead d bodies fut → (load d < fuel)%nat → wf d →
  ∃ d' bs rest, drain_frames fuel d = Done (d', bs, None) ∧ bodies = bs ++ rest ∧ ahead d' rest fut ∧
    (fut = [] → rest = []) ∧ wf d'.
Proof.
  revert d bodies. induction fuel as [|fuel IH]; intros d bodies Hfit Ha Hf Hwf; [lia|]. cbn [drain_frames].
  destruct (next_total d Hwf) as (d1 & r & Hn & Hwf1 & Hr).
  destruct (next_ahead d bodies fut Hfit Ha) as (d2 & o & Hn2 & Ho). rewrite Hn in Hn2. injection Hn2 as <- ->. rewrite Hn. obind.
  destruct o as [b|].
  - destruct Ho as (rest & -> & Ha1), Hr as [Hlt _]. apply Forall_cons in Hfit as [_ Hfit].
    destruct (IH d1 rest Hfit Ha1) as (d' & bs & rest' & -> & -> & Ha' & He & Hwf'); [lia|done|]. obind.
    by exists d', (b :: bs), rest'.
  - destruct Ho as [Ha1 He]. by exists d1, [], bodies.
Qed.

Lemma push_ahead d bodies c fut : ahead d bodies (c ++ fut) → ahead (push d c) bodies fut.
Proof. unfold ahead, push. cbn [body_len buf]. rewrite <-app_assoc. done. Qed.

Lemma feed_ahead chunks d bodies : fits bodies → ahead d bodies (concat chunks) → wf d → (concat chunks = [] → bodies = []) →
  ∃ d', feed d chunks = Done (d', bodies, None) ∧ ahead d' [] [].
Proof.
  revert d bodies. induction chunks as [|c chunks IH]; intros d bodies Hfit Ha Hwf He; cbn [feed].
  { rewrite (He eq_refl) in *. by exists d. }
  cbn [concat] in Ha. apply push_ahead in Ha. unfold frames.
  destruct (drain_ahead (length (buf (push d c)) + 2) (push d c) bodies (concat chunks) Hfit Ha) as (d1 & bs & rest & -> & -> & Ha1 & He1 & Hwf1);
    [unfold load; destruct (body_len _); lia|done|].
  obind. apply Forall_app in Hfit as [_ Hfit].
  destruct (IH d1 rest Hfit Ha1 Hwf1 He1) as (d' & -> & Hd). obind. by exists d'.
Qed.

Lemma stream_nil bodies : stream bodies = [] → bodies = [].
Proof. by destruct bodies. Qed.

(** A header block above the cap, with its blank line in the same push, is taken. *)
Example late_cap : ∃ d, next_frame (push new (repeat 120 (Z.to_nat 8200) ++ [CR; LF] ++ encode [])) = Done (d, Ok (Some [])).
Proof. eexists. vm_compute. reflexivity. Qed.

(** ** The theorems *)

(** C11: whatever chunks the encoding of a sequence of messages arrives in (empty
    ones, ones that split a header or a body, ones that hold several messages), a
    reader that drains the decoder after each gets exactly those messages, in
    order and without an error, and the decoder ends as it began. *)
Theorem stream_round_trip bodies chunks : Forall (λ b, zlen b ≤ MAX_BODY_BYTES) bodies →
  concat chunks = concat (encode <$> bodies) → feed new chunks = Done (new, bodies, None).
Proof.
  intros Hfit Hc. destruct (feed_ahead chunks new bodies Hfit) as (d' & -> & Ha).
  - unfold ahead. cbn. done.
  - done.
  - rewrite Hc. apply stream_nil.
  - f_equal. f_equal. f_equal. destruct d' as [b o]. unfold ahead in Ha. cbn in Ha. destruct o as [n|].
    + by destruct Ha as (? & ? & ? & _).
    + rewrite app_nil_r in Ha. by rewrite Ha.
Qed.
(** Two messages, the second [

], cut inside the first header and the second
    body. *)
Lemma stream_round_trip_witness :
  feed new [take 5 (encode [104; 105]); drop 5 (encode [104; 105]) ++ take 19 (encode [13; 10; 13; 10]);
            drop 19 (encode [13; 10; 13; 10])] = Done (new, [[104; 105]; [13; 10; 13; 10]], None).
Proof. apply (stream_round_trip [[104; 105]; [13; 10; 13; 10]]); [by repeat constructor|by vm_compute]. Defined.

(** On arbitrary bytes, from any decoder a reader can hold, draining returns:
    no drain or slice is out of range and the loop ends; every message is within
    the body cap, and unless the stream is rejected what stays buffered is within
    the header cap, or is less than the body awaited, itself within the body cap. *)
Theorem decoder_bounded d bytes : wf d → ∃ d' bodies e, frames (push d bytes) = Done (d', bodies, e) ∧ wf d' ∧
  Forall (λ b, zlen b ≤ MAX_BODY_BYTES) bodies ∧ (e = None → settled d' ∧ zlen (buf d') ≤ MAX_BODY_BYTES).
Proof.
  intros Hwf. destruct (frames_total (push d bytes)) as (d' & bs & e & He & Hwf' & Hbs & Hset); [done|].
  exists d', bs, e. split; [done|]. split; [done|]. split; [done|]. intros H. specialize (Hset H). split; [done|].
  unfold settled, wf in *. destruct (body_len d') as [n|]; [specialize (Hwf' n eq_refl); lia|].
  unfold MAX_HEADER_BYTES, MAX_BODY_BYTES in *. lia.
Qed.
Lemma decoder_bounded_witness : ∃ d' bodies e, frames (push new [1; 2; 3]) = Done (d', bodies, e) ∧ wf d' ∧
  Forall (λ b, zlen b ≤ MAX_BODY_BYTES) bodies ∧ (e = None → settled d' ∧ zlen (buf d') ≤ MAX_BODY_BYTES).
Proof. apply (decoder_bounded new [1; 2; 3]). by intros n. Defined.

End FrameProofs.
