(* ===== verification/Virtq.v ===== *)
(** * The counters of a split virtqueue (usr/lib/netdev/src/ring.rs)

    The transmit and receive rings a network driver keeps beside the device's:
    free-running counters of 16 bits that wrap, and the slots they name.  A
    remainder by a size of zero is a panic. *)

From S2P Require Import Prelude.
Open Scope Z_scope.

Module Virtq.

Definition wrapping_add (a b : Z) : Z := as_u 16 (a + b).
Definition wrapping_sub (a b : Z) : Z := as_u 16 (a - b).
Definition slot_of (i size : Z) : outcome Z := if size =? 0 then Panic else Done (i mod size).

(** ** Transmitting *)

Record TxRing := mkTx { tx_size : Z; tx_avail_idx : Z; tx_seen_used : Z }.

Definition tx_new (size : Z) : TxRing := mkTx size 0 0.
Definition in_flight (t : TxRing) : Z := wrapping_sub (tx_avail_idx t) (tx_seen_used t).
Definition can_post (t : TxRing) : bool := in_flight t <? tx_size t.
Definition next_slot (t : TxRing) : outcome Z := slot_of (tx_avail_idx t) (tx_size t).
Definition commit_post (t : TxRing) : TxRing * Z :=
  let a := wrapping_add (tx_avail_idx t) 1 in (mkTx (tx_size t) a (tx_seen_used t), a).

(** [while self.seen_used != cur_used && n < reapable]: at most [reapable] turns. *)
Fixpoint reap_f (fuel : nat) (seen cur n : Z) : Z * Z :=
  match fuel with
  | O => (seen, n)
  | S fuel => if seen =? cur then (seen, n) else reap_f fuel (wrapping_add seen 1) cur (wrapping_add n 1)
  end.
Definition reap (t : TxRing) (cur_used cap : Z) : TxRing * Z :=
  let reapable := Z.min (in_flight t) cap in
  let '(seen, n) := reap_f (Z.to_nat reapable) (tx_seen_used t) cur_used 0 in
  (mkTx (tx_size t) (tx_avail_idx t) seen, n).

(** ** Receiving *)

Record RxRing := mkRx { rx_size : Z; rx_avail_idx : Z; rx_seen_used : Z }.

Definition rx_new (size : Z) : RxRing := mkRx size size 0.
Definition has_used (r : RxRing) (cur_used : Z) : bool := negb (rx_seen_used r =? cur_used).
Definition take_used (r : RxRing) (cur_used : Z) : outcome (RxRing * option Z) :=
  if rx_seen_used r =? cur_used then Done (r, None) else
  slot ← slot_of (rx_seen_used r) (rx_size r);
  Done (mkRx (rx_size r) (rx_avail_idx r) (wrapping_add (rx_seen_used r) 1), Some slot).
Definition recycle_slot (r : RxRing) : outcome (RxRing * Z) :=
  slot ← slot_of (rx_avail_idx r) (rx_size r);
  Done (mkRx (rx_size r) (wrapping_add (rx_avail_idx r) 1) (rx_seen_used r), slot).

(** ** The driver's use of the rings

    Posting is gated; the device's used index is whatever it reports.  [posted] and
    [reaped] count without wrapping. *)

Record tx_run := mkTxRun { ring : TxRing; posted : Z; reaped : Z }.
Inductive tx_step : tx_run → tx_run → Prop :=
  | tx_post s : can_post (ring s) = true →
      tx_step s (mkTxRun (commit_post (ring s)).1 (posted s + 1) (reaped s))
  | tx_reap s cur cap : 0 ≤ cur ≤ u_max 16 → 0 ≤ cap ≤ u_max 16 →
      tx_step s (mkTxRun (reap (ring s) cur cap).1 (posted s) (reaped s + (reap (ring s) cur cap).2)).

(** A drain of the receive ring up to the index the device reported, each entry
    recycled: the used slots read and the avail slots written. *)
Fixpoint rx_drain (fuel : nat) (r : RxRing) (cur_used : Z) : outcome (RxRing * list (Z * Z)) :=
  match fuel with
  | O => OutOfFuel
  | S fuel =>
      '(r, o) ← take_used r cur_used;
      match o with
      | None => Done (r, [])
      | Some used =>
          '(r, avail) ← recycle_slot r;
          '(r, rest) ← rx_drain fuel r cur_used;
          Done (r, (used, avail) :: rest)
      end
  end.

End Virtq.
