(* ===== verification/VirtqProofs.v ===== *)
(** * The rings stay in step with the device

    The counters wrap at 2^16 and the device's report is untrusted; against the
    counts that do not wrap, the transmit ring never posts over a descriptor in
    flight and never reaps what was not posted, and the receive ring drains
    exactly what the device reported, slot after slot. *)

From S2P Require Import Prelude Virtq.
Import Virtq.
Open Scope Z_scope.

Module VirtqProofs.

(** A ring size a split virtqueue may have divides the counters' range. *)
Definition size_ok (n : Z) : Prop := 0 < n ≤ u_max 16 ∧ (n | 2 ^ 16).

(** ** Counters *)

Lemma as_u_range x : 0 ≤ as_u 16 x ≤ u_max 16.
Proof. unfold as_u, u_max. pose proof (Z.mod_pos_bound x (2 ^ 16)). lia. Qed.
Lemma wrap_add x k : wrapping_add (as_u 16 x) k = as_u 16 (x + k).
Proof. unfold wrapping_add, as_u. by rewrite Zplus_mod_idemp_l. Qed.
Lemma wrap_sub x y : wrapping_sub (as_u 16 x) (as_u 16 y) = as_u 16 (x - y).
Proof. unfold wrapping_sub, as_u. by rewrite <-Zminus_mod. Qed.
Lemma wrap_small x : 0 ≤ x ≤ u_max 16 → as_u 16 x = x.
Proof. intros H. apply Z.mod_small. unfold u_max in H. lia. Qed.
Lemma as_u_cur c : 0 ≤ c ≤ u_max 16 → c = as_u 16 c.
Proof. intros H. by rewrite wrap_small. Qed.

(** A slot is the count modulo the size, however often the counter wrapped. *)
Lemma slot_wraps n x : size_ok n → slot_of (as_u 16 x) n = Done (x mod n).
Proof.
  intros [Hn [k Hk]]. unfold slot_of, as_u. rewrite (proj2 (Z.eqb_neq _ _)) by lia. f_equal.
  rewrite Hk, Z.mul_comm. by rewrite Z.rem_mul_r, Z.mul_comm, Z_mod_plus_full, Zmod_mod by lia.
Qed.

(** Counts less than a lap of the ring apart have distinct slots. *)
Lemma slots_apart n a b : 0 < n → a < b < a + n → a mod n ≠ b mod n.
Proof.
  intros Hn Hab He. assert ((b - a) mod n = 0) as Hz by (rewrite Zminus_mod, He, Z.sub_diag; by rewrite Zmod_0_l).
  rewrite Z.mod_small in Hz by lia. lia.
Qed.

(** How far a counter is behind the index reported. *)
Lemma lag_zero x cur : 0 ≤ cur ≤ u_max 16 → as_u 16 (cur - x) = 0 ↔ as_u 16 x = cur.
Proof.
  intros Hc. rewrite (as_u_cur cur Hc) at 2. unfold as_u. split; intros H.
  - replace cur with (x + (cur - x)) by lia. by rewrite <-Zplus_mod_idemp_r, H, Z.add_0_r.
  - by rewrite Zminus_mod, H, Z.sub_diag.
Qed.
Lemma lag_step x cur : 0 ≤ cur ≤ u_max 16 → as_u 16 x ≠ cur → as_u 16 (cur - (x + 1)) = as_u 16 (cur - x) - 1.
Proof.
  intros Hc He. pose proof (as_u_range (cur - x)) as Hr. pose proof (lag_zero x cur Hc) as Hz.
  replace (cur - (x + 1)) with ((cur - x) - 1) by lia. unfold as_u in *. rewrite Zminus_mod.
  rewrite (Z.mod_small 1) by lia. rewrite Z.mod_small; [done|]. unfold u_max in Hr.
  destruct (Z.eq_dec ((cur - x) mod 2 ^ 16) 0) as [E|E]; [by apply Hz in E|lia].
Qed.

(** ** Transmitting *)

Lemma reap_count fuel x cur n : 0 ≤ cur ≤ u_max 16 → 0 ≤ n → n + Z.of_nat fuel ≤ u_max 16 →
  reap_f fuel (as_u 16 x) cur n =
    let m := Z.min (Z.of_nat fuel) (as_u 16 (cur - x)) in (as_u 16 (x + m), n + m).
Proof.
  intros Hc. revert x n. induction fuel as [|fuel IH]; intros x n Hn Hf; cbn [reap_f].
  { cbn zeta. pose proof (as_u_range (cur - x)). rewrite Z.min_l by lia. cbn. by rewrite !Z.add_0_r. }
  destruct (Z.eqb_spec (as_u 16 x) cur) as [He|He].
  - cbn zeta. rewrite (proj2 (lag_zero x cur Hc) He), Z.min_r by lia. by rewrite !Z.add_0_r.
  - rewrite wrap_add. unfold wrapping_add. rewrite (wrap_small (n + 1)) by lia. rewrite IH by lia. cbn zeta.
    rewrite (lag_step x cur Hc He). pose proof (as_u_range (cur - x)).
    f_equal; [f_equal|]; lia.
Qed.

(** The ring and the counts it stands for. *)
Definition tx_ok (n : Z) (s : tx_run) : Prop :=
  0 ≤ reaped s ≤ posted s ∧ posted s ≤ reaped s + n ∧
  ring s = mkTx n (as_u 16 (posted s)) (as_u 16 (reaped s)).

Lemma tx_in_flight n s : size_ok n → tx_ok n s → in_flight (ring s) = posted s - reaped s.
Proof.
  intros [Hn _] (H1 & H2 & ->). unfold in_flight. cbn [tx_avail_idx tx_seen_used]. rewrite wrap_sub. apply wrap_small. lia.
Qed.
Lemma tx_reap_ok n s cur cap : size_ok n → tx_ok n s → 0 ≤ cur ≤ u_max 16 → 0 ≤ cap ≤ u_max 16 →
  reap (ring s) cur cap =
    let m := Z.min (Z.min (posted s - reaped s) cap) (as_u 16 (cur - reaped s)) in
    (mkTx n (as_u 16 (posted s)) (as_u 16 (reaped s + m)), m).
Proof.
  intros Hn Hs Hc Hcap. unfold reap. rewrite (tx_in_flight n s Hn Hs). destruct Hs as (H1 & H2 & ->), Hn as [Hn _].
  cbn [tx_size tx_avail_idx tx_seen_used]. rewrite reap_count by lia. cbn zeta. by rewrite Z2Nat.id by lia.
Qed.
Lemma tx_step_ok n s s' : size_ok n → tx_ok n s → tx_step s s' → tx_ok n s'.
Proof.
  intros Hn Hs Hstep. destruct Hstep as [s Hp|s cur cap Hc Hcap].
  - unfold can_post in Hp. apply Z.ltb_lt in Hp. rewrite (tx_in_flight n s Hn Hs) in Hp. destruct Hs as (H1 & H2 & Hr).
    rewrite Hr in Hp. cbn [tx_size] in Hp. split; [cbn [reaped posted]; lia|]. split; [cbn [reaped posted]; lia|].
    unfold commit_post. rewrite Hr. cbn [ring posted reaped fst tx_size tx_avail_idx tx_seen_used]. by rewrite wrap_add.
  - rewrite (tx_reap_ok n s cur cap Hn Hs Hc Hcap). cbn zeta. pose proof (as_u_range (cur - reaped s)).
    destruct Hs as (H1 & H2 & Hr).
    split; [cbn [reaped posted snd]; lia|]. split; [cbn [reaped posted snd]; lia|done].
Qed.
Lemma tx_reach_ok n s : size_ok n → rtc tx_step (mkTxRun (tx_new n) 0 0) s → tx_ok n s.
Proof.
  intros Hn. apply (rtc_keeps tx_step (tx_ok n)).
  - intros x y Hxy Hx. by eapply tx_step_ok.
  - destruct Hn as [Hn _]. split; [cbn [reaped posted]; lia|]. split; [cbn [reaped posted]; lia|done].
Qed.

(** ** Receiving *)

Lemma rx_drain_ok n a s cur fuel : size_ok n → 0 ≤ cur ≤ u_max 16 → (Z.to_nat (as_u 16 (cur - s)) < fuel)%nat →
  rx_drain fuel (mkRx n (as_u 16 a) (as_u 16 s)) cur =
    let m := as_u 16 (cur - s) in
    Done (mkRx n (as_u 16 (a + m)) cur, (λ i, ((s + i) mod n, (a + i) mod n)) <$> seqZ 0 m).
Proof.
  intros Hn Hc. revert a s. induction fuel as [|fuel IH]; intros a s Hf; [lia|]. cbn [rx_drain].
  unfold take_used. cbn [rx_seen_used rx_size rx_avail_idx]. pose proof (as_u_range (cur - s)) as Hr.
  destruct (Z.eqb_spec (as_u 16 s) cur) as [He|He].
  - rewrite (proj2 (lag_zero s cur Hc) He). obind. cbn zeta. by rewrite Z.add_0_r, He.
  - rewrite slot_wraps by done. obind. unfold recycle_slot. cbn [rx_seen_used rx_size rx_avail_idx].
    rewrite slot_wraps by done. obind. rewrite !wrap_add.
    assert (as_u 16 (cur - s) ≠ 0) as Hne by (intros E; by apply He, (lag_zero s cur Hc)).
    rewrite IH by (rewrite lag_step by done; lia). rewrite lag_step by done. obind. cbn zeta. f_equal. f_equal.
    + f_equal. f_equal. lia.
    + rewrite (seqZ_cons 0 (as_u 16 (cur - s))) by lia. cbn [fmap list_fmap]. rewrite !Z.add_0_r. f_equal.
      rewrite <-(fmap_add_seqZ 1 0), <-list_fmap_compose. rewrite Z.sub_1_r.
      apply list_fmap_ext. intros i x _. unfold compose. f_equal; f_equal; lia.
Qed.

(** ** The theorems *)

(** C38: in every run of the transmit ring, whatever used index the device reports
    and however often the counters wrap, no more than the ring's size is in
    flight, nothing is reaped that was not posted, the gate is open exactly while
    a slot is free, and the slot the next post uses holds no descriptor in
    flight. *)
Theorem tx_exclusive n s : size_ok n → rtc tx_step (mkTxRun (tx_new n) 0 0) s →
  0 ≤ reaped s ≤ posted s ∧ posted s ≤ reaped s + n ∧ in_flight (ring s) = posted s - reaped s ∧
  can_post (ring s) = bool_decide (posted s < reaped s + n) ∧
  next_slot (ring s) = Done (posted s mod n) ∧
  (can_post (ring s) = true → ∀ k, reaped s ≤ k < posted s → k mod n ≠ posted s mod n).
Proof.
  intros Hn Hs%tx_reach_ok; [|done]. pose proof (tx_in_flight n s Hn Hs) as Hf. pose proof Hs as (H1 & H2 & Hr).
  assert (can_post (ring s) = bool_decide (posted s < reaped s + n)) as Hp.
  { unfold can_post. rewrite Hf, Hr. cbn [tx_size]. apply eq_iff_eq_true. rewrite Z.ltb_lt, bool_decide_eq_true. lia. }
  split; [done|]. split; [done|]. split; [done|]. split; [done|]. split.
  - unfold next_slot. rewrite Hr. cbn [tx_size tx_avail_idx]. by apply slot_wraps.
  - rewrite Hp, bool_decide_eq_true. intros Hlt k Hk. apply slots_apart; [apply Hn|lia].
Qed.
Lemma tx_exclusive_witness :
  let s := mkTxRun (mkTx 16 1 1) 1 1 in in_flight (ring s) = 0 ∧ next_slot (ring s) = Done 1.
Proof.
  destruct (tx_exclusive 16 (mkTxRun (mkTx 16 1 1) 1 1)) as (_ & _ & H1 & _ & H2 & _); [| |by split].
  - split; [unfold u_max; lia|by exists 4096].
  - eapply rtc_l; [by apply tx_post|]. eapply rtc_l; [|apply rtc_refl].
    refine (tx_reap (mkTxRun (mkTx 16 1 0) 1 0) 30000 16 _ _); unfold u_max; lia.
Defined.

(** A reap counts the least of what is in flight, the cap and how far the
    reported index is ahead, and frees exactly that many slots: a report far
    ahead of what was posted frees no more than was posted, and an honest one
    within the cap frees it all. *)
Theorem tx_reap_exact n s cur cap : size_ok n → rtc tx_step (mkTxRun (tx_new n) 0 0) s →
  0 ≤ cur ≤ u_max 16 → 0 ≤ cap ≤ u_max 16 →
  let m := Z.min (Z.min (posted s - reaped s) cap) (as_u 16 (cur - reaped s)) in
  (reap (ring s) cur cap).2 = m ∧ in_flight (reap (ring s) cur cap).1 = posted s - reaped s - m ∧
  (posted s - reaped s ≤ cap → cur = as_u 16 (posted s) → m = posted s - reaped s).
Proof.
  intros Hn Hs%tx_reach_ok Hc Hcap m; [|done]. rewrite (tx_reap_ok n s cur cap Hn Hs Hc Hcap). fold m. cbn zeta.
  destruct Hs as (H1 & H2 & _), Hn as [Hn _]. split; [done|]. pose proof (as_u_range (cur - reaped s)) as Hr. split.
  - unfold in_flight. cbn [fst tx_avail_idx tx_seen_used]. rewrite wrap_sub. rewrite wrap_small by lia. lia.
  - intros Hle ->. assert (as_u 16 (as_u 16 (posted s) - reaped s) = posted s - reaped s) as E.
    { unfold as_u at 1 2. rewrite Zminus_mod_idemp_l. apply wrap_small. lia. }
    lia.
Qed.
Lemma tx_reap_exact_witness : (reap (mkTx 16 4 0) 30004 16).2 = 4.
Proof.
  destruct (tx_reap_exact 16 (mkTxRun (mkTx 16 4 0) 4 0) 30004 16) as (H & _); [| | | |done].
  - split; [unfold u_max; lia|by exists 4096].
  - do 4 (eapply rtc_l; [by apply tx_post|]). apply rtc_refl.
  - unfold u_max. lia.
  - unfold u_max. lia.
Defined.

(** A drain of the receive ring ends and takes exactly the entries up to the
    index the device reported, in order: the used slots follow the cursor, the
    avail slots each is recycled into follow the other, across any wrap, all
    within the ring. *)
Theorem rx_drains n a s cur : size_ok n → 0 ≤ cur ≤ u_max 16 →
  let m := as_u 16 (cur - s) in
  rx_drain (S (Z.to_nat m)) (mkRx n (as_u 16 a) (as_u 16 s)) cur =
    Done (mkRx n (as_u 16 (a + m)) cur, (λ i, ((s + i) mod n, (a + i) mod n)) <$> seqZ 0 m) ∧
  Forall (λ x : Z * Z, 0 ≤ x.1 < n ∧ 0 ≤ x.2 < n) ((λ i, ((s + i) mod n, (a + i) mod n)) <$> seqZ 0 m).
Proof.
  intros Hn Hc m. split; [by apply rx_drain_ok; [..|unfold m; lia]|]. apply Forall_fmap, Forall_forall. intros i _.
  unfold compose. cbn [fst snd]. destruct Hn as [Hn _]. split; apply Z.mod_pos_bound; lia.
Qed.
Lemma rx_drains_witness : rx_drain 4 (mkRx 16 (as_u 16 65535) (as_u 16 65534)) 1 =
  Done (mkRx 16 2 1, [(14, 15); (15, 0); (0, 1)]).
Proof.
  destruct (rx_drains 16 65535 65534 1) as [H _]; [split; [unfold u_max; lia|by exists 4096]|unfold u_max; lia|].
  exact H.
Defined.

End VirtqProofs.
