(* ===== verification/Va.v ===== *)
(** * The compositor's mapping window (src/usr/tapestryd/src/va.rs)

    A first-fit allocator of address ranges over a window [[base, top)], page
    granular.  The free ranges are a list of pairs of a start and a length, as in
    the code; [u64] arithmetic keeps its overflow checks. *)

From S2P Require Import Prelude.
Open Scope Z_scope.

Module Va.

Definition PAGE : Z := 4096.

Record VaWindow := mkVa {
  va_base : Z; va_top : Z; va_free : list (Z * Z); va_live : Z; va_peak : Z }.

(** [n.checked_add(PAGE - 1).map(|v| v & !(PAGE - 1))] *)
Definition page_round (n : Z) : option Z :=
  (λ v, Z.land v (Z.lxor (u_max 64) (PAGE - 1))) <$> checked_add 64 n (PAGE - 1).

Definition va_new (base top : Z) : VaWindow :=
  mkVa base top
    (if (base mod PAGE =? 0) && (top mod PAGE =? 0) && (base <? top) then [(base, top - base)] else [])
    0 0.

(** On a list partitioned by [p], as a sorted one is. *)
Fixpoint partition_point {A} (p : A → bool) (v : list A) : nat :=
  match v with
  | [] => 0
  | x :: v => if p x then S (partition_point p v) else 0
  end.

Definition set_free (f : list (Z * Z)) (w : VaWindow) : VaWindow :=
  mkVa (va_base w) (va_top w) f (va_live w) (va_peak w).

Definition va_alloc (w : VaWindow) (size : Z) : outcome (VaWindow * option Z) :=
  if size =? 0 then Done (w, None) else
  match page_round size with
  | None => Done (w, None)
  | Some need =>
      match position (λ r : Z * Z, need <=? r.2) (va_free w) with
      | None => Done (w, None)
      | Some i =>
          '(start, len) ← unwrap (va_free w !! i);
          f ← (if len =? need then vec_remove (va_free w) i else
               s ← uadd 64 start need;
               l ← usub len need;
               Done (<[i := (s, l)]> (va_free w)));
          live ← uadd 64 (va_live w) need;
          Done (mkVa (va_base w) (va_top w) f live (if va_peak w <? live then live else va_peak w),
                Some start)
      end
  end.

(** The last writes of a free: the merged or inserted range, then the count. *)
Definition va_settle (w : VaWindow) (f : list (Z * Z)) (i : nat) (va len total : Z) :
    outcome (VaWindow * bool) :=
  let insert :=
    f ← vec_insert f i (va, total);
    live ← usub (va_live w) len;
    Done (mkVa (va_base w) (va_top w) f live (va_peak w), true) in
  match i with
  | O => insert
  | S j =>
      '(ps, pl) ← unwrap (f !! j);
      e ← uadd 64 ps pl;
      if e =? va then
        total ← uadd 64 total pl;
        live ← usub (va_live w) len;
        Done (mkVa (va_base w) (va_top w) (<[j := (ps, total)]> f) live (va_peak w), true)
      else insert
  end.

(** The range before index [i] ends past [va]. *)
Definition va_overlaps_before (f : list (Z * Z)) (i : nat) (va : Z) : outcome bool :=
  match i with
  | O => Done false
  | S j => '(ps, pl) ← unwrap (f !! j); e ← uadd 64 ps pl; Done (va <? e)
  end.

(** The range at index [i] is taken in when it starts at [stop]. *)
Definition va_absorb (f : list (Z * Z)) (i : nat) (stop len : Z) : outcome (list (Z * Z) * Z) :=
  match f !! i with
  | Some (s, l) =>
      if s =? stop then
        total ← uadd 64 len l;
        f ← vec_remove f i;
        Done (f, total)
      else Done (f, len)
  | None => Done (f, len)
  end.

Definition va_release (w : VaWindow) (va size : Z) : outcome (VaWindow * bool) :=
  if (size =? 0) || negb (va mod PAGE =? 0) then Done (w, false) else
  match page_round size with
  | None => Done (w, false)
  | Some len =>
      match checked_add 64 va len with
      | None => Done (w, false)
      | Some stop =>
          if (va <? va_base w) || (va_top w <? stop) then Done (w, false) else
          let i := partition_point (λ r : Z * Z, r.1 <? va) (va_free w) in
          if from_option (λ r : Z * Z, r.1 <? stop) false (va_free w !! i) then Done (w, false) else
          ov ← va_overlaps_before (va_free w) i va;
          if (ov : bool) then Done (w, false) else
          '(f, total) ← va_absorb (va_free w) i stop len;
          va_settle w f i va len total
      end
  end.

(** [iter().map(..).max().unwrap_or(0)] *)
Definition largest_free (w : VaWindow) : Z :=
  match va_free w with
  | [] => 0
  | r :: rs => fold_left (λ (m : Z) (r : Z * Z), Z.max m r.2) rs r.2
  end.
Definition free_ranges (w : VaWindow) : nat := length (va_free w).

Example alloc_reuses :
  (let w := va_new 4096 (4096 * 5) in
   '(w, a) ← va_alloc w 5000;
   '(w, b) ← va_alloc w 1;
   '(w, ok) ← va_release w 4096 5000;
   '(w, c) ← va_alloc w 1;
   Done (a, b, ok, c, va_free w, va_live w, va_peak w)) =
  Done (Some 4096, Some 12288, true, Some 4096, [(8192, 4096); (16384, 4096)], 8192, 12288).
Proof. reflexivity. Qed.

End Va.
