(* ===== verification/VaProofs.v ===== *)
(** * The mapping window refines a set of free addresses

    A well-formed window keeps its free ranges sorted, apart and inside the
    window; two such lists with the same addresses are the same list.  An
    allocation takes the lowest run of free addresses that is long enough, a
    release puts a run back, neither can panic, and a release after its
    allocation restores the list.  Over any sequence of operations the ranges
    handed out stay disjoint and, with the free ranges, fill the window. *)

From stdpp Require Import sorting.
From S2P Require Import Prelude Carve CarveProofs Va.
Import Va.
Open Scope Z_scope.

Module VaProofs.

(** ** Pages *)

Definition aligned (x : Z) : Prop := (PAGE | x).

Lemma page_mask v : in_u 64 v → Z.land v (Z.lxor (u_max 64) (PAGE - 1)) = v / PAGE * PAGE.
Proof.
  intros [H0 H1]. change (u_max 64) with (Z.ones 64). change (PAGE - 1) with (Z.ones 12).
  change PAGE with (2 ^ 12). rewrite <-Z.shiftr_div_pow2, <-Z.shiftl_mul_pow2 by lia.
  apply Z.bits_inj'. intros i Hi. rewrite Z.land_spec, Z.lxor_spec, Z.shiftl_spec by done.
  destruct (Z_lt_le_dec i 12) as [Hlt|Hge].
  - rewrite !Z.ones_spec_low, (Z.testbit_neg_r _ (i - 12)) by lia. apply andb_false_r.
  - rewrite (Z.ones_spec_high 12), xorb_false_r, Z.shiftr_spec by lia. rewrite Z.sub_add.
    destruct (Z_lt_le_dec i 64) as [Hlt|Hge'].
    + rewrite Z.ones_spec_low by lia. apply andb_true_r.
    + rewrite Z.ones_spec_high by lia. rewrite andb_false_r. symmetry.
      rewrite <-(Z.mod_small v (2 ^ 64)) by done. by rewrite Z.mod_pow2_bits_high.
Qed.

Lemma page_round_Some n m : 0 ≤ n → page_round n = Some m → aligned m ∧ n ≤ m < n + PAGE ∧ m ≤ u_max 64.
Proof.
  intros Hn. unfold page_round, checked_add. destruct (Z.leb_spec (n + (PAGE - 1)) (u_max 64)) as [Hle|]; [|done].
  cbn [fmap option_fmap option_map]. intros [= <-]. unfold PAGE in *. rewrite page_mask by (unfold in_u, u_max in *; lia).
  unfold PAGE. split; [by apply Z.divide_factor_r|].
  pose proof (Z.div_mod (n + (4096 - 1)) 4096). pose proof (Z.mod_pos_bound (n + (4096 - 1)) 4096). lia.
Qed.
Lemma page_round_aligned n : 0 ≤ n → aligned n → n + PAGE ≤ u_max 64 → page_round n = Some n.
Proof.
  intros Hn [k ->] Hm. unfold page_round, checked_add. unfold PAGE in *.
  rewrite (proj2 (Z.leb_le _ _)) by lia. cbn [fmap option_fmap option_map].
  rewrite page_mask by (unfold in_u, u_max in *; lia). unfold PAGE. f_equal.
  rewrite Z.div_add_l by lia. change ((4096 - 1) / 4096) with 0. lia.
Qed.
Lemma aligned_add a b : aligned a → aligned b → aligned (a + b).
Proof. apply Z.divide_add_r. Qed.
Lemma aligned_sub a b : aligned a → aligned b → aligned (a - b).
Proof. apply Z.divide_sub_r. Qed.
Lemma aligned_gap a b : aligned a → aligned b → a < b → a + PAGE ≤ b.
Proof. intros [x ->] [y ->]. unfold PAGE. nia. Qed.
Lemma aligned_mod a : a mod PAGE = 0 ↔ aligned a.
Proof. apply Z.mod_divide. done. Qed.

(** ** Ranges *)

(** The addresses of a list of ranges. *)
Definition covers (fs : list (Z * Z)) (a : Z) : Prop := ∃ s l, (s, l) ∈ fs ∧ s ≤ a < s + l.
Definition before (x y : Z * Z) : Prop := x.1 + x.2 < y.1.
Definition in_window (b t : Z) (r : Z * Z) : Prop :=
  b ≤ r.1 ∧ 0 < r.2 ∧ r.1 + r.2 ≤ t ∧ aligned r.1 ∧ aligned r.2.
Definition total (fs : list (Z * Z)) : Z := Carve.zsum (snd <$> fs).

Record ranges (b t : Z) (fs : list (Z * Z)) : Prop := mkRanges {
  rg_in : Forall (in_window b t) fs;
  rg_sorted : StronglySorted before fs }.

Lemma covers_nil a : ¬ covers [] a.
Proof. intros (s & l & H & _). by apply elem_of_nil in H. Qed.
Lemma free_covers_app fs gs a : covers (fs ++ gs) a ↔ covers fs a ∨ covers gs a.
Proof.
  unfold covers. setoid_rewrite elem_of_app. naive_solver.
Qed.
Lemma covers_cons s l fs a : covers ((s, l) :: fs) a ↔ s ≤ a < s + l ∨ covers fs a.
Proof.
  unfold covers. setoid_rewrite elem_of_cons. split.
  - intros (s' & l' & [[= -> ->]|H] & Ha); eauto.
  - intros [Ha|(s' & l' & H & Ha)]; eauto 6.
Qed.
Lemma total_cons r fs : total (r :: fs) = r.2 + total fs.
Proof. apply CarveProofs.zsum_cons. Qed.
Lemma total_app fs gs : total (fs ++ gs) = total fs + total gs.
Proof. induction fs as [|r fs IH]; [done|]. cbn [app]. rewrite !total_cons, IH. lia. Qed.

Lemma ranges_nil b t : ranges b t [].
Proof. split; constructor. Qed.
Lemma ranges_app b t fs gs : ranges b t (fs ++ gs) ↔
  ranges b t fs ∧ ranges b t gs ∧ ∀ x y, x ∈ fs → y ∈ gs → before x y.
Proof.
  split.
  - intros [H1 H2]. rewrite Forall_app in H1. rewrite StronglySorted_app in H2.
    destruct H1, H2 as (? & ? & ?). by split_and!.
  - intros ([H1 H2] & [H3 H4] & H5). split; [by apply Forall_app|]. by apply StronglySorted_app.
Qed.
Lemma ranges_cons b t x fs : ranges b t (x :: fs) ↔
  in_window b t x ∧ ranges b t fs ∧ ∀ y, y ∈ fs → before x y.
Proof.
  rewrite (ranges_app b t [x] fs : ranges b t (x :: fs) ↔ _). split.
  - intros ([H1 _] & H2 & H3). apply Forall_cons in H1 as [? _]. split; [done|]. split; [done|].
    intros y. apply H3. by left.
  - intros (H1 & H2 & H3). split; [split; [by apply Forall_singleton|by repeat constructor]|]. split; [done|].
    intros ? y ->%list_elem_of_singleton. apply H3.
Qed.

(** The head of a list of ranges and its first address. *)
Lemma covers_ge b t fs a : ranges b t fs → covers fs a → b ≤ a < t.
Proof.
  intros [H _] (s & l & Hin & Ha). rewrite Forall_forall in H. specialize (H _ Hin).
  unfold in_window in H. cbn in H. lia.
Qed.
Lemma covers_after b t s l fs a : ranges b t ((s, l) :: fs) → covers fs a → s + l < a.
Proof.
  intros (_ & _ & H)%ranges_cons (s' & l' & Hin & Ha). specialize (H _ Hin). unfold before in H. cbn in H. lia.
Qed.
(** A range of the list ends where no address of the list follows. *)
Lemma covers_end b t fs s l : ranges b t fs → (s, l) ∈ fs → ¬ covers fs (s + l).
Proof.
  intros Hr Hin (s' & l' & Hin' & Ha). apply list_elem_of_split in Hin as (f1 & f2 & ->).
  apply ranges_app in Hr as (H1 & H2 & H3). apply ranges_cons in H2 as (H4 & H5 & H6).
  apply elem_of_app in Hin' as [Hin'|[[= -> ->]|Hin']%elem_of_cons].
  - specialize (H3 (s', l') (s, l) Hin' ltac:(by left)). destruct H4 as (_ & ? & _). unfold before in H3. cbn in *. lia.
  - lia.
  - specialize (H6 _ Hin'). unfold before in H6. cbn in *. lia.
Qed.

(** Two lists of ranges with the same addresses are the same. *)
Lemma ranges_ext b t fs gs : ranges b t fs → ranges b t gs → (∀ a, covers fs a ↔ covers gs a) → fs = gs.
Proof.
  revert gs. induction fs as [|[s l] fs IH]; intros gs Hf Hg Heq.
  { destruct gs as [|[s l] gs]; [done|]. exfalso. apply (covers_nil s), Heq, covers_cons. left.
    apply ranges_cons in Hg as ((_ & ? & _) & _). cbn in *. lia. }
  destruct gs as [|[s' l'] gs].
  { exfalso. apply (covers_nil s), Heq, covers_cons. left. apply ranges_cons in Hf as ((_ & ? & _) & _). cbn in *. lia. }
  pose proof Hf as ((_ & Hl & _) & Hfs & _)%ranges_cons. pose proof Hg as ((_ & Hl' & _) & Hgs & _)%ranges_cons.
  cbn in Hl, Hl'. pose proof (λ a, covers_after b t s l fs a Hf) as Af. pose proof (λ a, covers_after b t s' l' gs a Hg) as Ag.
  assert (s = s') as <-.
  { assert (covers ((s', l') :: gs) s) as H1 by (apply Heq, covers_cons; lia).
    assert (covers ((s, l) :: fs) s') as H2 by (apply Heq, covers_cons; lia).
    apply covers_cons in H1 as [?|?%Ag], H2 as [?|?%Af]; lia. }
  assert (l = l') as <-.
  { destruct (Z.lt_trichotomy l l') as [Hlt|[?|Hlt]]; [|done|].
    - exfalso. apply (covers_end b t ((s, l) :: fs) s l Hf); [by left|]. apply Heq, covers_cons. lia.
    - exfalso. apply (covers_end b t ((s, l') :: gs) s l' Hg); [by left|]. apply Heq, covers_cons. lia. }
  f_equal. apply IH; [done|done|]. intros a. specialize (Heq a). rewrite !covers_cons in Heq.
  split; intros Ha.
  - pose proof (Af a Ha). destruct Heq as [[?|?] _]; [by right|lia|done].
  - pose proof (Ag a Ha). destruct Heq as [_ [?|?]]; [by right|lia|done].
Qed.

(** A run of addresses of the list lies within one range. *)
Lemma run_within b t fs x n : ranges b t fs → 0 < n → (∀ a, x ≤ a < x + n → covers fs a) →
  ∃ s l, (s, l) ∈ fs ∧ s ≤ x ∧ x + n ≤ s + l.
Proof.
  intros Hr Hn Hrun. destruct (Hrun x ltac:(lia)) as (s & l & Hin & Hx). exists s, l. split; [done|]. split; [lia|].
  destruct (Z.le_gt_cases (x + n) (s + l)) as [|Hgt]; [done|]. exfalso.
  apply (covers_end b t fs s l Hr Hin), Hrun. lia.
Qed.

(** Disjoint ranges fit the window. *)
Lemma total_bound b t fs : b ≤ t → Forall (λ r, b ≤ r.1 ∧ 0 < r.2 ∧ r.1 + r.2 ≤ t) fs →
  StronglySorted (λ x y : Z * Z, x.1 + x.2 ≤ y.1) fs → 0 ≤ total fs ≤ t - b.
Proof.
  intros Hbt HF HS. revert b Hbt HF. induction HS as [|[s l] fs HS IH Hall]; intros b Hbt HF; [cbn; lia|].
  apply Forall_cons in HF as [(H1 & H2 & H3) HF]. cbn in H1, H2, H3. rewrite total_cons. cbn [snd].
  enough (0 ≤ total fs ≤ t - (s + l)) by lia. apply IH; [lia|]. rewrite Forall_forall in *.
  intros r Hr. specialize (HF r Hr). specialize (Hall r Hr). cbn in *. lia.
Qed.
Lemma ranges_total b t fs : b ≤ t → ranges b t fs → 0 ≤ total fs ≤ t - b.
Proof.
  intros Hbt [H1 H2]. apply total_bound; [done| |].
  - eapply Forall_impl; [exact H1|]. unfold in_window. tauto.
  - clear H1. induction H2 as [|x fs _ IH Hx]; constructor; [done|].
    eapply Forall_impl; [exact Hx|]. unfold before. lia.
Qed.

(** ** The invariant of a window *)

Record va_ok (w : VaWindow) : Prop := mkVaOk {
  vo_base : 0 ≤ va_base w ∧ aligned (va_base w);
  vo_top : va_base w < va_top w ≤ u_max 64 ∧ aligned (va_top w);
  vo_free : ranges (va_base w) (va_top w) (va_free w);
  vo_live : va_live w + total (va_free w) = va_top w - va_base w;
  vo_peak : va_live w ≤ va_peak w ≤ va_top w - va_base w }.

(** The free addresses: what the window is an implementation of. *)
Definition is_free (w : VaWindow) (a : Z) : Prop := covers (va_free w) a.

Lemma va_live_bound w : va_ok w → 0 ≤ va_live w ≤ va_top w - va_base w.
Proof.
  intros [H1 H2 H3 H4 H5]. pose proof (ranges_total (va_base w) (va_top w) (va_free w) ltac:(lia) H3). lia.
Qed.

Lemma va_new_ok base top : 0 ≤ base → aligned base → aligned top → base < top ≤ u_max 64 →
  va_ok (va_new base top) ∧ ∀ a, is_free (va_new base top) a ↔ base ≤ a < top.
Proof.
  intros H0 Hb Ht Hlt. unfold va_new.
  rewrite (proj2 (Z.eqb_eq _ _) (proj2 (aligned_mod _) Hb)), (proj2 (Z.eqb_eq _ _) (proj2 (aligned_mod _) Ht)).
  rewrite (proj2 (Z.ltb_lt _ _)) by lia. cbn [andb]. split.
  - split; cbn [va_base va_top va_free va_live va_peak]; [done|done| |unfold total, Carve.zsum; cbn; lia|lia].
    apply ranges_cons. split; [|split; [apply ranges_nil|by intros y ?%elem_of_nil]].
    unfold in_window. cbn. split_and!; try done; [lia..|]. by apply aligned_sub.
  - intros a. unfold is_free. cbn [va_free]. rewrite covers_cons. pose proof (covers_nil a). intuition lia.
Qed.

(** ** Allocation *)

(** The run of [n] free addresses at [va]. *)
Definition run (w : VaWindow) (va n : Z) : Prop := ∀ a, va ≤ a < va + n → is_free w a.

Definition allocated (w w' : VaWindow) (need : Z) (va : Z) : Prop :=
  aligned va ∧ run w va need ∧ (∀ va', run w va' need → va ≤ va') ∧
  (∀ a, is_free w' a ↔ is_free w a ∧ ¬ va ≤ a < va + need) ∧
  va_live w' = va_live w + need ∧ va_base w' = va_base w ∧ va_top w' = va_top w.

Lemma ranges_shrink b t s l need f2 : ranges b t ((s, l) :: f2) → aligned need → 0 < need < l →
  ranges b t ((s + need, l - need) :: f2).
Proof.
  intros ((H1 & H2 & H3 & H4 & H5) & H6 & H7)%ranges_cons Hn Hlt. cbn in *. apply ranges_cons. split.
  - unfold in_window. cbn. split_and!; [lia..|by apply aligned_add|by apply aligned_sub].
  - split; [done|]. intros y Hy. specialize (H7 y Hy). unfold before in *. cbn in *. lia.
Qed.

(** The first range that fits holds the lowest run. *)
Lemma first_fit b t f1 s l f2 need x : ranges b t (f1 ++ (s, l) :: f2) → 0 < need →
  Forall (λ r : Z * Z, (need <=? r.2) = false) f1 →
  (∀ a, x ≤ a < x + need → covers (f1 ++ (s, l) :: f2) a) → s ≤ x.
Proof.
  intros Hr Hn Hf1 Hx. destruct (run_within b t _ x need Hr Hn Hx) as (s' & l' & Hin & H1 & H2).
  apply ranges_app in Hr as (_ & Hr & _). apply ranges_cons in Hr as ((_ & Hl & _) & _ & Haf). cbn in Hl.
  apply elem_of_app in Hin as [Hin|[[= -> ->]|Hin]%elem_of_cons].
  - rewrite Forall_forall in Hf1. specialize (Hf1 _ Hin). apply Z.leb_gt in Hf1. cbn in Hf1. lia.
  - lia.
  - specialize (Haf _ Hin). unfold before in Haf. cbn in Haf. lia.
Qed.

Lemma va_alloc_ok w size : va_ok w → 0 ≤ size →
  ∃ w' o, va_alloc w size = Done (w', o) ∧ va_ok w' ∧
    match o with
    | None => w' = w ∧ (size = 0 ∨ ∀ need, page_round size = Some need → ∀ va, ¬ run w va need)
    | Some va => ∃ need, page_round size = Some need ∧ size ≤ need ∧ allocated w w' need va
    end.
Proof.
  intros Hw Hs0. pose proof Hw as [(Hb0 & Hb) (Hbt & Ht) Hfr Hlv Hpk].
  pose proof (va_live_bound w Hw) as Hlb. unfold va_alloc.
  destruct (Z.eqb_spec size 0) as [->|Hs]; [exists w, None; auto|].
  destruct (page_round size) as [need|] eqn:Hpr; [|exists w, None; naive_solver].
  destruct (page_round_Some size need Hs0 Hpr) as (Hna & Hnb & _).
  destruct (position _ _) as [i|] eqn:Hpos.
  2:{ apply position_None in Hpos. exists w, None. split; [done|]. split; [done|]. split; [done|]. right.
      intros n [= <-] va Hrun. destruct (run_within _ _ _ va need Hfr ltac:(lia) Hrun) as (s & l & Hin & H1 & H2).
      rewrite Forall_forall in Hpos. specialize (Hpos _ Hin). apply Z.leb_gt in Hpos. cbn in Hpos. lia. }
  apply position_split in Hpos as (f1 & [s l] & f2 & Hf & Hi & Hfit & Hf1). apply Z.leb_le in Hfit. cbn in Hfit.
  rewrite Hf in Hfr, Hlv |- *. subst i. rewrite list_lookup_middle by done. cbn [unwrap mbind outcome_bind].
  rewrite total_app, total_cons in Hlv. cbn [snd] in Hlv.
  pose proof Hfr as (Hr1 & Hr2 & Hr12)%ranges_app. pose proof Hr2 as ((HA & HB & HC & HD & HE) & Hr3 & Haf)%ranges_cons.
  cbn in HA, HB, HC, HD, HE.
  assert (0 ≤ total f1 ∧ 0 ≤ total f2) as [Ht1 Ht2].
  { split; eapply ranges_total; [|exact Hr1| |exact Hr3]; lia. }
  set (f' := if l =? need then f1 ++ f2 else f1 ++ (s + need, l - need) :: f2).
  assert ((if l =? need then vec_remove (f1 ++ (s, l) :: f2) (length f1) else
     s0 ← uadd 64 s need; l0 ← usub l need; Done (<[length f1 := (s0, l0)]> (f1 ++ (s, l) :: f2))) = Done f') as ->.
  { unfold f'. destruct (Z.eqb_spec l need) as [->|Hne].
    - unfold vec_remove. rewrite (proj2 (Nat.ltb_lt _ _)) by (rewrite length_app; cbn; lia). by rewrite delete_middle.
    - rewrite uadd_ok by lia. obind. rewrite usub_ok by lia. obind.
      f_equal. by rewrite insert_app_r_alt, Nat.sub_diag. }
  assert (ranges (va_base w) (va_top w) f' ∧ total f' = total f1 + (l - need) + total f2 ∧
    ∀ a, covers f' a ↔ covers (f1 ++ (s, l) :: f2) a ∧ ¬ s ≤ a < s + need) as (Hr' & Htot & Hcov).
  { unfold f'. destruct (Z.eqb_spec l need) as [->|Hne].
    - split; [|split; [rewrite total_app; lia|]].
      + apply ranges_app. split; [done|]. split; [done|]. intros x y Hx Hy. apply Hr12; [done|by right].
      + intros a. rewrite !free_covers_app, covers_cons.
        assert (covers f1 a → a < s) as A1.
        { intros (s' & l' & Hin & Ha). specialize (Hr12 (s', l') (s, need) Hin ltac:(by left)).
          unfold before in Hr12. cbn in Hr12. lia. }
        pose proof (covers_after _ _ s need f2 a Hr2) as A2. intuition lia.
    - assert (0 < need < l) as Hlt by lia. split; [|split; [rewrite total_app, total_cons; cbn; lia|]].
      + apply ranges_app. split; [done|]. split; [by apply ranges_shrink|]. intros x y Hx [->|Hy]%elem_of_cons.
        * specialize (Hr12 x (s, l) Hx ltac:(by left)). unfold before in *. cbn in *. lia.
        * apply Hr12; [done|by right].
      + intros a. rewrite !free_covers_app, !covers_cons.
        assert (covers f1 a → a < s) as A1.
        { intros (s' & l' & Hin & Ha). specialize (Hr12 (s', l') (s, l) Hin ltac:(by left)).
          unfold before in Hr12. cbn in Hr12. lia. }
        pose proof (covers_after _ _ s l f2 a Hr2) as A2. intuition lia. }
  obind. rewrite uadd_ok by lia. obind.
  eexists _, (Some s). split; [done|]. split.
  - split; cbn [va_base va_top va_free va_live va_peak]; [done|done|done|lia|].
    destruct (Z.ltb_spec (va_peak w) (va_live w + need)); lia.
  - exists need. split; [done|]. split; [lia|]. split; [done|]. unfold run, is_free. rewrite Hf. split_and!.
    + intros a Ha. rewrite free_covers_app, covers_cons. right. left. lia.
    + intros va' Hrun. eapply first_fit; [exact Hfr| |exact Hf1|exact Hrun]. lia.
    + exact Hcov.
    + done.
    + done.
    + done.
Qed.

(** ** Release *)

Lemma partition_split {A} (p : A → bool) v : ∃ v1 v2, v = v1 ++ v2 ∧ length v1 = partition_point p v ∧
  Forall (λ x, p x = true) v1 ∧ (∀ x, head v2 = Some x → p x = false).
Proof.
  induction v as [|x v (v1 & v2 & -> & Hl & H1 & H2)]; [by exists [], []|]. cbn [partition_point].
  destruct (p x) eqn:Hx.
  - exists (x :: v1), v2. split; [done|]. split; [cbn; lia|]. split; [by constructor|done].
  - exists [], (x :: v1 ++ v2). split; [done|]. split; [done|]. split; [constructor|]. by intros ? [= <-].
Qed.

(** A range put between two lists that it may touch on the left. *)
Definition merged (f1 : list (Z * Z)) (va tot : Z) (f2 : list (Z * Z)) : list (Z * Z) :=
  match last f1 with
  | Some (ps, pl) => if ps + pl =? va then removelast f1 ++ (ps, tot + pl) :: f2 else f1 ++ (va, tot) :: f2
  | None => f1 ++ (va, tot) :: f2
  end.

Section settle.
Context (b t : Z) (f1 f2 : list (Z * Z)) (va tot : Z).
Context (H1 : ranges b t f1) (H2 : ranges b t f2) (Hva : in_window b t (va, tot)).
Context (Hl : ∀ s l, (s, l) ∈ f1 → s + l ≤ va) (Hr : ∀ s l, (s, l) ∈ f2 → va + tot < s).

Lemma merged_last (f : list (Z * Z)) ps pl : last f = Some (ps, pl) → f = removelast f ++ [(ps, pl)].
Proof. intros H. apply last_Some in H as [f' ->]. by rewrite removelast_last. Qed.

Lemma merged_ranges : ranges b t (merged f1 va tot f2).
Proof using H1 H2 Hva Hl Hr.
  assert ((∀ s l, (s, l) ∈ f1 → s + l < va) → ranges b t (f1 ++ (va, tot) :: f2)) as Happ.
  { intros Hlt. apply ranges_app. split; [done|]. split.
    - apply ranges_cons. split; [done|]. split; [done|]. intros [s l] Hy. by apply Hr in Hy.
    - intros [s l] y Hx [->|Hy]%elem_of_cons; [by apply Hlt in Hx|]. destruct y as [s' l'].
      apply Hlt in Hx. apply Hr in Hy. unfold before, in_window in *. cbn in *. lia. }
  unfold merged. destruct (last f1) as [[ps pl]|] eqn:Hlast.
  - pose proof (merged_last f1 ps pl Hlast) as Hf1. destruct (Z.eqb_spec (ps + pl) va) as [Heq|Hne].
    + rewrite Hf1 in H1. apply ranges_app in H1 as (H3 & H4 & H5). apply ranges_cons in H4 as [Hin _].
      destruct Hin as (I1 & I2 & I3 & I4 & I5), Hva as (V1 & V2 & V3 & V4 & V5). cbn in *.
      apply ranges_app. split; [done|]. split.
      * apply ranges_cons. split; [unfold in_window; cbn; split_and!; [lia..|done|by apply aligned_add]|].
        split; [done|]. intros [s l] Hy. apply Hr in Hy. unfold before. cbn. lia.
      * intros [s l] y Hx [->|Hy]%elem_of_cons.
        -- specialize (H5 (s, l) (ps, pl) Hx ltac:(by left)). unfold before in *. cbn in *. lia.
        -- specialize (H5 (s, l) (ps, pl) Hx ltac:(by left)). destruct y as [s' l']. apply Hr in Hy.
           unfold before in *. cbn in *. lia.
    + apply Happ. intros s l Hx. pose proof (Hl s l Hx). rewrite Hf1 in Hx, H1.
      apply elem_of_app in Hx as [Hx|[= -> ->]%list_elem_of_singleton]; [|lia].
      apply ranges_app in H1 as (_ & H4 & H5). apply ranges_cons in H4 as [Hin _].
      specialize (H5 (s, l) (ps, pl) Hx ltac:(by left)). unfold before, in_window in *. cbn in *.
      assert (ps + pl ≤ va) by (apply Hl; rewrite Hf1; set_solver). lia.
  - apply last_None in Hlast as ->. apply Happ. by intros s l ?%elem_of_nil.
Qed.

Lemma merged_total : total (merged f1 va tot f2) = total f1 + tot + total f2.
Proof using.
  unfold merged. destruct (last f1) as [[ps pl]|] eqn:Hlast.
  - pose proof (merged_last f1 ps pl Hlast) as Hf1. destruct (ps + pl =? va).
    + rewrite Hf1 at 2. rewrite !total_app, !total_cons. change (total []) with 0. cbn [snd]. lia.
    + rewrite total_app, total_cons. cbn. lia.
  - rewrite total_app, total_cons. cbn. lia.
Qed.

Lemma merged_covers a : 0 < tot → covers (merged f1 va tot f2) a ↔ covers f1 a ∨ va ≤ a < va + tot ∨ covers f2 a.
Proof using H1.
  intros Htot. unfold merged. destruct (last f1) as [[ps pl]|] eqn:Hlast; [|by rewrite free_covers_app, covers_cons].
  pose proof (merged_last f1 ps pl Hlast) as Hf1. destruct (Z.eqb_spec (ps + pl) va) as [Heq|Hne];
    [|by rewrite free_covers_app, covers_cons].
  rewrite Hf1 in H1. apply ranges_app in H1 as (_ & [(_ & Hpl & _) _]%ranges_cons & _). cbn in Hpl.
  rewrite Hf1 at 2. rewrite !free_covers_app, !covers_cons. pose proof (covers_nil a). intuition lia.
Qed.

Lemma settle_run w len : va_base w = b → va_top w = t → 0 ≤ b → t ≤ u_max 64 → len ≤ va_live w →
  va_settle w (f1 ++ f2) (length f1) va len tot =
    Done (mkVa b t (merged f1 va tot f2) (va_live w - len) (va_peak w), true).
Proof using H1 H2 Hva.
  intros <- <- Hb Ht Hlen. unfold va_settle.
  assert ((f ← vec_insert (f1 ++ f2) (length f1) (va, tot); live ← usub (va_live w) len;
      Done (mkVa (va_base w) (va_top w) f live (va_peak w), true)) =
    Done (mkVa (va_base w) (va_top w) (f1 ++ (va, tot) :: f2) (va_live w - len) (va_peak w), true)) as Hins.
  { unfold vec_insert. rewrite (proj2 (Nat.leb_le _ _)) by (rewrite length_app; lia). obind.
    rewrite usub_ok by lia. obind. by rewrite take_app_length, drop_app_length. }
  unfold merged. destruct (last f1) as [[ps pl]|] eqn:Hlast.
  - pose proof (merged_last f1 ps pl Hlast) as Hf1.
    assert (length f1 = S (length (removelast f1))) as Hlen1.
    { rewrite Hf1 at 1. rewrite length_app. cbn. lia. }
    rewrite Hlen1. rewrite Hf1 in H1. apply ranges_app in H1 as (_ & [Hin _]%ranges_cons & _).
    unfold in_window in *. cbn in Hin, Hva.
    assert ((f1 ++ f2) !! length (removelast f1) = Some (ps, pl)) as ->.
    { transitivity (((removelast f1 ++ [(ps, pl)]) ++ f2) !! length (removelast f1)); [by rewrite <-Hf1|].
      rewrite <-app_assoc. cbn. by rewrite list_lookup_middle. }
    cbn [unwrap mbind outcome_bind]. rewrite (uadd_ok 64 ps pl) by lia. obind.
    destruct (Z.eqb_spec (ps + pl) va) as [Heq|Hne].
    + rewrite uadd_ok by lia. obind. rewrite usub_ok by lia. obind.
      do 3 f_equal.
      transitivity (<[length (removelast f1) := (ps, tot + pl)]> ((removelast f1 ++ [(ps, pl)]) ++ f2));
        [by rewrite <-Hf1|].
      rewrite <-app_assoc. cbn. by rewrite insert_app_r_alt, Nat.sub_diag by lia.
    + rewrite <-Hlen1. exact Hins.
  - apply last_None in Hlast. rewrite Hlast in Hins |- *. exact Hins.
Qed.
End settle.

(** A range the window takes back. *)
Definition returnable (w : VaWindow) (va size len : Z) : Prop :=
  size ≠ 0 ∧ page_round size = Some len ∧ aligned va ∧ va_base w ≤ va ∧ va + len ≤ va_top w ∧
  ∀ a, va ≤ a < va + len → ¬ is_free w a.

Definition released (w w' : VaWindow) (len va : Z) : Prop :=
  (∀ a, is_free w' a ↔ is_free w a ∨ va ≤ a < va + len) ∧ va_live w' = va_live w - len ∧
  va_base w' = va_base w ∧ va_top w' = va_top w ∧ va_peak w' = va_peak w.

(** The range before the split point is the last of the left part. *)
Lemma overlaps_before_ok b t f1 f2 va : ranges b t f1 → t ≤ u_max 64 →
  va_overlaps_before (f1 ++ f2) (length f1) va = Done (from_option (λ r : Z * Z, va <? r.1 + r.2) false (last f1)).
Proof.
  intros H1 Ht. unfold va_overlaps_before. destruct (last f1) as [[ps pl]|] eqn:Hlast.
  - apply last_Some in Hlast as [f ->]. rewrite length_app, Nat.add_1_r, <-app_assoc. cbn.
    rewrite list_lookup_middle by done. cbn. apply ranges_app in H1 as (_ & [Hin _]%ranges_cons & _).
    unfold in_window in Hin. cbn in Hin. by rewrite uadd_ok by lia.
  - by apply last_None in Hlast as ->.
Qed.

Lemma last_end b t f ps pl s l : ranges b t f → last f = Some (ps, pl) → (s, l) ∈ f → s + l ≤ ps + pl.
Proof.
  intros Hr [f' ->]%last_Some [Hin|[= -> ->]%list_elem_of_singleton]%elem_of_app; [|lia].
  apply ranges_app in Hr as (_ & [Hw _]%ranges_cons & H). specialize (H _ _ Hin ltac:(by left)).
  unfold before, in_window in *. cbn in *. lia.
Qed.

(** What the splice needs of the window's parts. *)
Lemma release_parts b t f1 f2 va stop : ranges b t (f1 ++ f2) →
  Forall (λ r : Z * Z, (r.1 <? va) = true) f1 → (∀ x : Z * Z, head f2 = Some x → (x.1 <? va) = false) →
  from_option (λ r : Z * Z, r.1 <? stop) false (head f2) = false →
  from_option (λ r : Z * Z, va <? r.1 + r.2) false (last f1) = false →
  (∀ s l, (s, l) ∈ f1 → s + l ≤ va) ∧ (∀ s l, (s, l) ∈ f2 → stop ≤ s).
Proof.
  intros Hr Hf1 Hf2 Hs Hv. apply ranges_app in Hr as (H1 & H2 & _). split.
  - intros s l Hin. destruct (last f1) as [[ps pl]|] eqn:Hlast.
    + apply Z.ltb_ge in Hv. cbn in Hv. pose proof (last_end _ _ _ _ _ _ _ H1 Hlast Hin). lia.
    + apply last_None in Hlast as ->. by apply elem_of_nil in Hin.
  - intros s l Hin. destruct f2 as [|[s0 l0] f2]; [by apply elem_of_nil in Hin|]. apply Z.ltb_ge in Hs. cbn in Hs.
    apply elem_of_cons in Hin as [[= -> ->]|Hin]; [done|]. apply ranges_cons in H2 as (Hw & _ & H2).
    specialize (H2 _ Hin). unfold before, in_window in *. cbn in *. lia.
Qed.

(** The successor is taken in when it touches. *)
Lemma absorb_ok b t f1 f2 va len : ranges b t f2 → (∀ s l, (s, l) ∈ f2 → va + len ≤ s) →
  in_window b t (va, len) → 0 ≤ b → t ≤ u_max 64 →
  ∃ g tot, va_absorb (f1 ++ f2) (length f1) (va + len) len = Done (f1 ++ g, tot) ∧ ranges b t g ∧ in_window b t (va, tot) ∧
    (∀ s l, (s, l) ∈ g → va + tot < s) ∧ tot + total g = len + total f2 ∧
    ∀ a, va ≤ a < va + tot ∨ covers g a ↔ va ≤ a < va + len ∨ covers f2 a.
Proof.
  intros Hr2 Hstarts (Hlo & Hlen & Hhi & Hal & Hla) Hb0 Hbt. cbn in Hlo, Hlen, Hhi, Hal, Hla. unfold va_absorb.
  rewrite lookup_app_r, Nat.sub_diag by lia. destruct f2 as [|[s l] f2]; cbn [lookup list_lookup].
  - exists [], len. rewrite app_nil_r. split; [done|]. split; [done|]. unfold in_window. cbn [fst snd].
    split; [split_and!; (lia || done)|]. split; [by intros ? ? ?%elem_of_nil|]. done.
  - pose proof Hr2 as ((W1 & W2 & W3 & W4 & W5) & Hr3 & Haf)%ranges_cons. cbn in W1, W2, W3, W4, W5.
    pose proof (Hstarts s l ltac:(by left)). destruct (Z.eqb_spec s (va + len)) as [->|Hne].
    + exists f2, (len + l). rewrite uadd_ok by lia. obind. unfold vec_remove.
      rewrite (proj2 (Nat.ltb_lt _ _)) by (rewrite length_app; cbn; lia). obind.
      rewrite delete_middle. split; [done|]. split; [done|]. unfold in_window. cbn [fst snd].
      split; [split_and!; try done; [lia..|by apply aligned_add]|].
      split; [intros s' l' Hin; specialize (Haf _ Hin); unfold before in Haf; cbn in Haf; lia|].
      rewrite total_cons. cbn [snd]. split; [lia|]. intros a. rewrite covers_cons. clear -W2 Hlen. intuition lia.
    + exists ((s, l) :: f2), len. split; [done|]. split; [done|]. unfold in_window. cbn [fst snd].
      split; [split_and!; (lia || done)|]. split; [|done]. intros s' l' [[= -> ->]|Hin]%elem_of_cons; [lia|].
      specialize (Haf _ Hin). unfold before in Haf. cbn in Haf. lia.
Qed.

Lemma va_release_ok w va size : va_ok w → 0 ≤ size → 0 ≤ va →
  ∃ w' b, va_release w va size = Done (w', b) ∧ va_ok w' ∧
    if b : bool then ∃ len, returnable w va size len ∧ released w w' len va
    else w' = w ∧ ∀ len, ¬ returnable w va size len.
Proof.
  intros Hw Hs0 Hva0. pose proof Hw as [(Hb0 & Hb) (Hbt & Ht) Hfr Hlv Hpk].
  assert (∀ P : Prop, (∀ len, returnable w va size len → False) →
    ∃ w' b, Done (w, false) = Done (w', b) ∧ va_ok w' ∧
    if b : bool then ∃ len, returnable w va size len ∧ released w w' len va
    else w' = w ∧ ∀ len, ¬ returnable w va size len) as Hno by (intros _ H; by exists w, false).
  unfold va_release. destruct (Z.eqb_spec size 0) as [->|Hs]; [apply (Hno True); by intros len []|].
  destruct (Z.eqb_spec (va mod PAGE) 0) as [Hal|Hal]; cbn [negb orb].
  2:{ apply (Hno True). intros len (_ & _ & H & _). by apply aligned_mod in H. }
  apply aligned_mod in Hal. destruct (page_round size) as [len|] eqn:Hpr.
  2:{ apply (Hno True). intros len (_ & H & _). congruence. }
  destruct (page_round_Some size len Hs0 Hpr) as (Hla & Hlb & _).
  assert (∀ P : Prop, (returnable w va size len → False) → ∀ l, returnable w va size l → False) as Hone.
  { intros _ H l Hl. assert (l = len) as -> by (destruct Hl as (_ & ? & _); congruence). auto. }
  unfold checked_add. destruct (Z.leb_spec (va + len) (u_max 64)) as [Hov|Hov].
  2:{ apply (Hno True), (Hone True). intros (_ & _ & _ & _ & ? & _). lia. }
  destruct (Z.ltb_spec va (va_base w)) as [Hlo|Hlo]; [apply (Hno True), (Hone True); intros (_ & _ & _ & ? & _); lia|].
  destruct (Z.ltb_spec (va_top w) (va + len)) as [Hhi|Hhi]; cbn [orb];
    [apply (Hno True), (Hone True); intros (_ & _ & _ & _ & ? & _); lia|].
  destruct (partition_split (λ r : Z * Z, r.1 <? va) (va_free w)) as (f1 & f2 & Hf & <- & Hf1 & Hf2).
  unfold returnable, released, is_free in *. rewrite Hf in *. pose proof Hfr as (Hr1 & Hr2 & Hr12)%ranges_app.
  assert ((f1 ++ f2) !! length f1 = head f2) as Hhead.
  { rewrite lookup_app_r, Nat.sub_diag by lia. by destruct f2. }
  rewrite Hhead. destruct (from_option (λ r : Z * Z, r.1 <? va + len) false (head f2)) eqn:Hafter.
  { apply (Hno True), (Hone True). intros (_ & _ & _ & _ & _ & Hfree). destruct f2 as [|[s l] f2]; [done|].
    apply Z.ltb_lt in Hafter. cbn in Hafter. specialize (Hf2 _ eq_refl). apply Z.ltb_ge in Hf2. cbn in Hf2.
    apply (Hfree s); [lia|]. rewrite free_covers_app, covers_cons. right. left.
    apply ranges_cons in Hr2 as ((_ & ? & _) & _). cbn in *. lia. }
  rewrite (overlaps_before_ok _ _ f1 f2 va Hr1) by lia. obind.
  destruct (from_option (λ r : Z * Z, va <? r.1 + r.2) false (last f1)) eqn:Hbefore.
  { apply (Hno True), (Hone True). intros (_ & _ & _ & _ & _ & Hfree). destruct (last f1) as [[ps pl]|] eqn:Hlast; [|done].
    apply Z.ltb_lt in Hbefore. cbn in Hbefore. apply last_Some in Hlast as [f ->].
    apply Forall_app in Hf1 as [_ [Hps _]%Forall_cons]. apply Z.ltb_lt in Hps. cbn in Hps.
    apply (Hfree va); [lia|]. rewrite !free_covers_app, covers_cons. left. right. left. lia. }
  destruct (release_parts _ _ f1 f2 va (va + len) Hfr Hf1 Hf2 Hafter Hbefore) as [Hends Hstarts].
  rewrite total_app in Hlv.
  destruct (absorb_ok _ _ f1 f2 va len Hr2 Hstarts) as (g & tot & Hab & Hg & Hwin & Hgs & Htot & Hcov);
    [split_and!; (done || cbn; lia)|done|lia|]. rewrite Hab.
  obind.
  pose proof (merged_ranges _ _ f1 g va tot Hr1 Hg Hwin Hends Hgs) as Hm.
  pose proof (merged_total f1 g va tot) as Hmt.
  pose proof (ranges_total (va_base w) (va_top w) _ ltac:(lia) Hm) as Hmb.
  rewrite (settle_run _ _ f1 g va tot Hr1 Hg Hwin w len) by (done || lia).
  eexists _, true. split; [done|]. split.
  - split; cbn [va_base va_top va_free va_live va_peak]; [done|done|done|lia|lia].
  - exists len. split.
    + split_and!; try done. intros a Ha. rewrite free_covers_app. intros [(s & l & Hin & Hx)|(s & l & Hin & Hx)].
      * specialize (Hends s l Hin). lia.
      * specialize (Hstarts s l Hin). lia.
    + cbn [va_base va_top va_free va_live va_peak]. split; [|done]. intros a.
      rewrite (merged_covers _ _ f1 g va tot Hr1) by (destruct Hwin as (_ & ? & _); done).
      rewrite Hcov, free_covers_app. tauto.
Qed.

(** ** What the compositor holds *)

Definition extent (size : Z) : Z := default 0 (page_round size).
(** The addresses of a held range. *)
Definition holds (r : Z * Z) (a : Z) : Prop := r.1 ≤ a < r.1 + extent r.2.
Definition apart (r r' : Z * Z) : Prop := ∀ a, holds r a → holds r' a → False.

(** One operation of the window's owner, who releases only what it holds. *)
Inductive va_step : VaWindow * list (Z * Z) → VaWindow * list (Z * Z) → Prop :=
  | step_taken w w' size va held : 0 ≤ size → va_alloc w size = Done (w', Some va) →
      va_step (w, held) (w', (va, size) :: held)
  | step_refused w w' size held : 0 ≤ size → va_alloc w size = Done (w', None) →
      va_step (w, held) (w', held)
  | step_returned w w' va size b h1 h2 : va_release w va size = Done (w', b) →
      va_step (w, h1 ++ (va, size) :: h2) (w', h1 ++ h2).

(** The window is the free addresses and the held ranges, with no overlap. *)
Record owned (w : VaWindow) (held : list (Z * Z)) : Prop := mkOwned {
  ow_ok : va_ok w;
  ow_held : Forall (λ r, 0 < r.2 ∧ page_round r.2 = Some (extent r.2) ∧ aligned r.1 ∧
    va_base w ≤ r.1 ∧ r.1 + extent r.2 ≤ va_top w) held;
  ow_apart : StronglySorted apart held;
  ow_split a : is_free w a ↔ va_base w ≤ a < va_top w ∧ Forall (λ r, ¬ holds r a) held }.

Lemma owned_alloc w held size w' va : owned w held → 0 ≤ size → va_alloc w size = Done (w', Some va) →
  owned w' ((va, size) :: held).
Proof.
  intros [Hok Hheld Hap Hsp] Hs He. destruct (va_alloc_ok w size Hok Hs) as (w1 & o & He' & Hok' & Ho).
  rewrite He in He'. injection He' as <- <-. destruct Ho as (need & Hpr & Hle & Hal & Hrun & _ & Hcov & _ & Hb & Ht).
  assert (extent size = need) as Hext by (unfold extent; by rewrite Hpr).
  assert (size ≠ 0) as Hnz by (intros ->; by unfold va_alloc in He).
  assert (∀ a, va ≤ a < va + need → va_base w ≤ a < va_top w ∧ Forall (λ r, ¬ holds r a) held) as Hin
    by (intros a Ha; by apply Hsp, Hrun).
  split; [done| | |].
  - rewrite Hb, Ht. constructor; [|done]. cbn [fst snd]. rewrite Hext. split; [lia|]. split; [done|]. split; [done|].
    pose proof (Hin va ltac:(lia)) as [? _]. pose proof (Hin (va + need - 1) ltac:(lia)) as [? _]. lia.
  - constructor; [done|]. apply Forall_forall. intros r Hr a Ha Hra. unfold holds at 1 in Ha. cbn in Ha. rewrite Hext in Ha.
    destruct (Hin a Ha) as [_ HF]. rewrite Forall_forall in HF. by apply (HF r Hr).
  - intros a. rewrite Hcov, Hsp, Hb, Ht, Forall_cons. unfold holds at 2. cbn [fst snd]. rewrite Hext. tauto.
Qed.

Lemma owned_release w h1 va size h2 : owned w (h1 ++ (va, size) :: h2) →
  ∃ w', va_release w va size = Done (w', true) ∧ owned w' (h1 ++ h2).
Proof.
  intros [Hok Hheld Hap Hsp]. pose proof Hheld as [HF1 [(Hsz & Hpr & Hal & Hlo & Hhi) HF2]%Forall_cons]%Forall_app.
  cbn in Hsz, Hpr, Hal, Hlo, Hhi. rewrite StronglySorted_app in Hap. destruct Hap as (Hx & HS1 & HS2).
  apply StronglySorted_inv in HS2 as [HS2 Hall].
  destruct Hok as [(Hb0 & Hb) Hrest1 Hrest2 Hrest3 Hrest4] eqn:Heq. clear Heq.
  destruct (va_release_ok w va size Hok ltac:(lia) ltac:(lia)) as (w' & b & He & Hok' & Hb').
  assert (returnable w va size (extent size)) as Hret.
  { split_and!; try done; [lia|]. intros a Ha [_ HF]%Hsp. apply Forall_app in HF as [_ [HF _]%Forall_cons]. by apply HF. }
  destruct b; [|by destruct Hb' as [_ Hb']; apply Hb' in Hret].
  destruct Hb' as (len & (_ & Hpr' & _) & Hcov & _ & Hbb & Htt & _).
  assert (len = extent size) as -> by congruence.
  exists w'. split; [done|]. split; [done| | |].
  - rewrite Hbb, Htt. by apply Forall_app.
  - apply StronglySorted_app. split; [|done]. intros x y Hx' Hy. apply Hx; [done|by right].
  - intros a. rewrite Hcov, Hsp, Hbb, Htt, !Forall_app, Forall_cons.
    change (¬ holds (va, size) a) with (¬ va ≤ a < va + extent size). rewrite !Forall_forall in *.
    assert (va ≤ a < va + extent size → (∀ r, r ∈ h1 → ¬ holds r a) ∧ ∀ r, r ∈ h2 → ¬ holds r a) as Hdis.
    { intros Ha. split; intros r Hr Hh.
      - eapply (Hx r (va, size)); [done|by left|exact Hh|exact Ha].
      - eapply (Hall r Hr); [exact Ha|exact Hh]. }
    destruct (decide (va ≤ a < va + extent size)) as [Ha|Ha]; [|tauto].
    destruct (Hdis Ha). split; [|by right]. intros _. split; [lia|done].
Qed.

Lemma owned_step st st' : va_step st st' → owned st.1 st.2 → owned st'.1 st'.2.
Proof.
  intros [w w' size va held Hs He|w w' size held Hs He|w w' va size b h1 h2 He] Hown; cbn [fst snd] in *.
  - by eapply owned_alloc.
  - destruct (va_alloc_ok w size (ow_ok _ _ Hown) Hs) as (w1 & o & He' & _ & Ho). rewrite He in He'.
    injection He' as <- <-. by destruct Ho as [-> _].
  - destruct (owned_release w h1 va size h2 Hown) as (w1 & He' & Hown'). congruence.
Qed.
Lemma owned_steps st st' : rtc va_step st st' → owned st.1 st.2 → owned st'.1 st'.2.
Proof. induction 1 as [|st1 st2 st3 Hs _ IH]; [done|]. intros Ho. by apply IH, (owned_step st1 st2). Qed.
Lemma owned_new base top : 0 ≤ base → aligned base → aligned top → base < top ≤ u_max 64 → owned (va_new base top) [].
Proof.
  intros H0 Hb Ht Hlt. destruct (va_new_ok base top H0 Hb Ht Hlt) as [Hok Hcov]. split; [done|constructor|constructor|].
  intros a. rewrite Hcov. cbn [va_base va_top va_new]. split; [by intros|tauto].
Qed.

(** An allocation from a well-formed window returns without a panic; it takes
    the lowest run of free addresses that holds the size in whole pages, page
    aligned, and removes exactly those from the free addresses; it refuses only a
    zero size or when no run of free addresses, however the window is fragmented,
    is long enough, and then changes nothing. *)
Theorem va_alloc_lowest w size : va_ok w → 0 ≤ size →
  ∃ w' o, va_alloc w size = Done (w', o) ∧ va_ok w' ∧
    match o with
    | None => w' = w ∧ (size = 0 ∨ ∀ need, page_round size = Some need → ∀ va, ¬ run w va need)
    | Some va => ∃ need, page_round size = Some need ∧ size ≤ need ∧ allocated w w' need va
    end.
Proof. apply va_alloc_ok. Qed.
Lemma va_alloc_lowest_witness : ∃ w' need, va_alloc (va_new 4096 40960) 5000 = Done (w', Some 4096) ∧
  page_round 5000 = Some need ∧ allocated (va_new 4096 40960) w' need 4096.
Proof.
  destruct (va_alloc_lowest (va_new 4096 40960) 5000) as (w' & o & He & _ & Ho).
  - apply va_new_ok; [lia|by exists 1|by exists 10|unfold u_max; lia].
  - lia.
  - assert (match va_alloc (va_new 4096 40960) 5000 with Done (_, o) => o | _ => None end = Some 4096) as Hv
      by (vm_compute; reflexivity).
    rewrite He in Hv. cbn in Hv. subst o. destruct Ho as (need & H1 & _ & H2). by exists w', need.
Defined.

(** Releasing what was just allocated restores the window's free list, range
    for range, and its live count. *)
Theorem va_round_trip w size w1 va : va_ok w → 0 ≤ size → va_alloc w size = Done (w1, Some va) →
  ∃ w2, va_release w1 va size = Done (w2, true) ∧ va_free w2 = va_free w ∧ va_live w2 = va_live w.
Proof.
  intros Hw Hs He. destruct (va_alloc_ok w size Hw Hs) as (w1' & o & He' & Hw1 & Ho). rewrite He in He'.
  injection He' as <- <-. destruct Ho as (need & Hpr & Hle & Hal & Hrun & _ & Hcov & Hlive & Hb & Ht).
  assert (size ≠ 0) as Hnz by (intros ->; by unfold va_alloc in He).
  pose proof (covers_ge _ _ _ va (vo_free _ Hw) (Hrun va ltac:(lia))) as Hva.
  pose proof (covers_ge _ _ _ (va + need - 1) (vo_free _ Hw) (Hrun (va + need - 1) ltac:(lia))) as Hva'.
  pose proof (vo_base _ Hw) as [Hb0 _].
  destruct (va_release_ok w1 va size Hw1 Hs ltac:(lia)) as (w2 & b & Hre & Hw2 & Hb2).
  assert (returnable w1 va size need) as Hret.
  { split_and!; try done; [lia..|]. intros a Ha H. by apply Hcov in H as [_ ?]. }
  destruct b; [|by destruct Hb2 as [_ Hb2]; apply Hb2 in Hret].
  destruct Hb2 as (len & (_ & Hpr' & _) & Hcov2 & Hlive2 & Hbb & Htt & _).
  assert (len = need) as -> by congruence. exists w2. split; [done|]. split; [|lia].
  apply (ranges_ext (va_base w) (va_top w)); [rewrite <-Hb, <-Hbb, <-Ht, <-Htt; apply Hw2|apply Hw|].
  intros a. specialize (Hcov a). specialize (Hcov2 a). specialize (Hrun a). unfold is_free in *. rewrite Hcov2, Hcov.
  destruct (decide (va ≤ a < va + need)); tauto.
Qed.
Lemma va_round_trip_witness : ∃ w1 w2, va_alloc (va_new 4096 40960) 5000 = Done (w1, Some 4096) ∧
  va_release w1 4096 5000 = Done (w2, true) ∧ va_free w2 = [(4096, 36864)].
Proof.
  eexists (mkVa 4096 40960 [(12288, 28672)] 8192 8192).
  destruct (va_round_trip (va_new 4096 40960) 5000 (mkVa 4096 40960 [(12288, 28672)] 8192 8192) 4096)
    as (w2 & H1 & H2 & _).
  - apply va_new_ok; [lia|by exists 1|by exists 10|unfold u_max; lia].
  - lia.
  - vm_compute. reflexivity.
  - exists w2. split; [vm_compute; reflexivity|]. by split.
Defined.

(** C39: over any sequence of allocations and of releases of what is held, from a
    new window, the ranges held never overlap each other or a free address and
    with the free addresses fill the window; so a release of a held range is
    never refused. *)
Theorem va_exclusive base top w held : 0 ≤ base → aligned base → aligned top → base < top ≤ u_max 64 →
  rtc va_step (va_new base top, []) (w, held) →
  owned w held ∧ ∀ h1 va size h2, held = h1 ++ (va, size) :: h2 → ∃ w', va_release w va size = Done (w', true).
Proof.
  intros H0 Hb Ht Hlt Hst. pose proof (owned_steps _ _ Hst (owned_new base top H0 Hb Ht Hlt)) as Hown. cbn in Hown.
  split; [done|]. intros h1 va size h2 ->. destruct (owned_release w h1 va size h2 Hown) as (w' & H & _). by exists w'.
Qed.
Lemma va_exclusive_witness : ∃ w, rtc va_step (va_new 4096 40960, []) (w, [(12288, 1); (4096, 5000)]) ∧
  owned w [(12288, 1); (4096, 5000)].
Proof.
  assert (rtc va_step (va_new 4096 40960, [])
    (mkVa 4096 40960 [(16384, 24576)] 12288 12288, [(12288, 1); (4096, 5000)])) as Hst.
  { eapply rtc_l; [apply (step_taken _ (mkVa 4096 40960 [(12288, 28672)] 8192 8192) 5000); [lia|vm_compute; reflexivity]|].
    apply rtc_once, step_taken; [lia|vm_compute; reflexivity]. }
  eexists. split; [exact Hst|].
  apply (va_exclusive 4096 40960 _ _ ltac:(lia) ltac:(by exists 1) ltac:(by exists 10) ltac:(unfold u_max; lia) Hst).
Defined.

End VaProofs.
