(* ===== verification/Ring.v ===== *)
(** * The event ring (src/usr/lib/libtapestry/src/ring.rs, and RingCore of lib.rs)

    The slots of a client's event set: a surface joins a slot and leaves it, a
    read is armed on every slot that wants one, and a completion is routed by the
    tag it carries to the slot and generation it was armed for.  The kernel side
    of a [RingCore] operation (the replaced handle table, the submission queue,
    the completions and the bytes they left in the staging buffer) is its
    argument. *)

From S2P Require Import Prelude.
Open Scope Z_scope.

Module Ring.

Definition TEVENT_LEN : Z := 24.
Definition TEV_LAYOUT : Z := 10.
Definition EV_REGION : Z := 128.
Definition EV_CAP : Z := 4 * TEVENT_LEN.
Definition MAX_RING_SURFACES : nat := 48.
Definition SLOT_QUEUE_CAP : nat := 256.
Definition UD_EVENT : Z := 2.

Record Event := mkEvent {
  ev_kind : Z; ev_code : Z; ev_value : Z; ev_rune : Z; ev_mods : Z; ev_flags : Z; ev_tick : Z }.

(** The errors of the client library; the ring answers with [Full], [Loom] and [Closed]. *)
Inductive TapError := Full | Connect | Protocol | Create | Map | Loom | Present | Closed | Busy.
#[global] Instance tap_error_eq_dec : EqDecision TapError.
Proof. solve_decision. Defined.

Record Slot := mkSlot {
  used : bool; retiring : bool; event_fd : Z; armed : bool; closed : bool; gen : Z; pending : list Event }.

Definition set_used (b : bool) (s : Slot) : Slot :=
  mkSlot b (retiring s) (event_fd s) (armed s) (closed s) (gen s) (pending s).
Definition set_retiring (b : bool) (s : Slot) : Slot :=
  mkSlot (used s) b (event_fd s) (armed s) (closed s) (gen s) (pending s).
Definition set_armed (b : bool) (s : Slot) : Slot :=
  mkSlot (used s) (retiring s) (event_fd s) b (closed s) (gen s) (pending s).
Definition set_closed (b : bool) (s : Slot) : Slot :=
  mkSlot (used s) (retiring s) (event_fd s) (armed s) b (gen s) (pending s).
Definition set_pending (q : list Event) (s : Slot) : Slot :=
  mkSlot (used s) (retiring s) (event_fd s) (armed s) (closed s) (gen s) q.

Definition new_slots : list Slot :=
  replicate MAX_RING_SURFACES (mkSlot false false (-1) false false 0 []).

Definition ud (slot : nat) (gen : Z) : Z :=
  Z.lor (Z.lor (ushl 64 (Z.of_nat slot) 40) (ushl 64 gen 8)) UD_EVENT.

(** The slot a surface takes, made anew. *)
Definition joined (fd : Z) (s : Slot) : Slot :=
  mkSlot true false fd false false (as_u 32 (gen s + 1)) [].
Definition join (slots : list Slot) (fd : Z) : outcome (list Slot * result TapError Z) :=
  match position (λ s, negb (used s)) slots with
  | None => Done (slots, Err Full)
  | Some i =>
      s ← unwrap (slots !! i);
      Done (<[i := joined fd s]> slots, Ok (as_u 16 (Z.of_nat i)))
  end.

Definition left (s : Slot) : Slot :=
  let s := set_pending [] s in
  if armed s then set_retiring true s else set_used false s.
Definition leave (slots : list Slot) (slot : nat) : list Slot * bool :=
  match slots !! slot with
  | Some s => if used s then (<[slot := left s]> slots, true) else (slots, false)
  | None => (slots, false)
  end.

Definition table (slots : list Slot) (placeholder : Z) : list Z :=
  (λ s, if used s && negb (retiring s) then event_fd s else placeholder) <$> slots.

Definition arm_wanted (s : Slot) : bool :=
  used s && negb (retiring s) && negb (armed s) && negb (closed s) &&
  (length (pending s) <? SLOT_QUEUE_CAP)%nat.
Definition any_armed (slots : list Slot) : bool := existsb armed slots.

Definition event_at (d : list Z) (off : Z) : outcome Event :=
  kind ← get_le d 2 off;
  code ← get_le d 2 (off + 2);
  value ← get_le d 4 (off + 4);
  rune ← get_le d 4 (off + 8);
  mods ← get_le d 2 (off + 12);
  flags ← get_le d 2 (off + 14);
  tick ← get_le d 8 (off + 16);
  Done (mkEvent kind code value rune mods flags tick).

(** [(region..end_).step_by(TEVENT_LEN)] *)
Definition offsets (region end_ : Z) : list Z :=
  (λ k, region + TEVENT_LEN * Z.of_nat k) <$> seq 0 (Z.to_nat ((end_ - region + TEVENT_LEN - 1) / TEVENT_LEN)).
Definition has_layout (d : list Z) (region end_ : Z) : outcome bool :=
  if zlen d <? end_ then Done false else
  anyM (λ o, if end_ <? o + TEVENT_LEN then Done false
             else k ← get_le d 2 o; Done (k =? TEV_LAYOUT)) (offsets region end_).

(** The records of the region, pushed in turn. *)
Fixpoint push_events (fuel : nat) (d : list Z) (off end_ : Z) (q : list Event) : outcome (list Event) :=
  match fuel with
  | O => OutOfFuel
  | S fuel =>
      if off + TEVENT_LEN <=? end_ then
        e ← event_at d off;
        push_events fuel d (off + TEVENT_LEN) end_ (q ++ [e])
      else Done q
  end.

Definition route (slots : list Slot) (staging : list Z) (user_data result : Z) : outcome (list Slot * bool) :=
  if negb (Z.land user_data 0xff =? UD_EVENT) then Done (slots, false) else
  let i := Z.to_nat (Z.shiftr user_data 40) in
  let g := as_u 32 (Z.land (Z.shiftr user_data 8) 0xffffffff) in
  match slots !! i with
  | None => Done (slots, false)
  | Some s =>
      if negb (used s) || negb (gen s =? g) then Done (slots, false) else
      let s := set_armed false s in
      let region := Z.of_nat i * EV_REGION in
      let n := if 0 <? result then Z.min result EV_CAP else 0 in
      let end_ := region + n in
      layout ← has_layout staging region end_;
      if retiring s then
        Done (<[i := set_retiring false (set_used false s)]> slots, layout)
      else if result <=? 0 then
        Done (<[i := set_closed true s]> slots, false)
      else if zlen staging <? end_ then
        Done (<[i := s]> slots, false)
      else
        q ← push_events (S (Z.to_nat n)) staging region end_ (pending s);
        Done (<[i := set_pending q s]> slots, layout)
  end.

Definition take_event (slots : list Slot) (slot : nat) : list Slot * result TapError (option Event) :=
  match slots !! slot with
  | None => (slots, Err Closed)
  | Some s =>
      match pending s with
      | [] => if closed s then (slots, Err Closed) else (slots, Ok None)
      | e :: q => (<[slot := set_pending q s]> slots, Ok (Some e))
      end
  end.

(** ** RingCore *)

(** [reg]: whether the kernel took the replaced handle table. *)
Definition core_join (slots : list Slot) (fd : Z) (reg : bool) : outcome (list Slot * result TapError Z) :=
  '(slots, r) ← join slots fd;
  match r with
  | Err e => Done (slots, Err e)
  | Ok i =>
      if reg then Done (slots, Ok i) else
      s ← unwrap (slots !! Z.to_nat i);
      Done (<[Z.to_nat i := set_used false s]> slots, Err Loom)
  end.

(** [arm_all] from slot [i] on; [submit i] is whether the queue takes the entry
    for slot [i], and the tags of those it took come back with the count. *)
Fixpoint arm_from (todo i : nat) (submit : nat → bool) (slots : list Slot) (n : Z) (tags : list Z) :
    outcome (list Slot * list Z * result TapError Z) :=
  match todo with
  | O => Done (slots, tags, Ok n)
  | S todo =>
      s ← unwrap (slots !! i);
      if negb (arm_wanted s) then arm_from todo (S i) submit slots n tags else
      if submit i then
        n ← uadd 32 n 1;
        arm_from todo (S i) submit (<[i := set_armed true s]> slots) n (tags ++ [ud i (gen s)])
      else Done (slots, tags, Err Loom)
  end.
Definition arm_all (submit : nat → bool) (slots : list Slot) := arm_from (length slots) 0 submit slots 0 [].

(** The completions reaped in turn; a layout notice marks the hint. *)
Definition reap_all (slots : list Slot) (hint : bool) (staging : list Z) (cqes : list (Z * Z)) :
    outcome (list Slot * bool) :=
  foldM (λ st c, '(slots, l) ← route st.1 staging c.1 c.2; Done (slots, st.2 || l)) (slots, hint) cqes.

(** [entered]: whether the kernel's enter succeeded; [cqes]: the tag and result of
    each completion it had posted by then. *)
Definition pump (slots : list Slot) (hint block : bool) (submit : nat → bool) (entered : bool)
    (staging : list Z) (cqes : list (Z * Z)) : outcome (list Slot * bool * list Z * result TapError unit) :=
  '(slots, tags, r) ← arm_all submit slots;
  match r with
  | Err e => Done (slots, hint, tags, Err e)
  | Ok n =>
      if block && negb (any_armed slots) then Done (slots, hint, tags, Err Closed) else
      if (block || (0 <? n)) && negb entered then Done (slots, hint, tags, Err Loom) else
      '(slots, hint) ← reap_all slots hint staging cqes;
      Done (slots, hint, tags, Ok tt)
  end.

(** How many surfaces are on the ring. *)
Definition surfaces (slots : list Slot) : nat := length (filter (λ s, used s = true) slots).

Example one_key :
  (let key := [1; 0; 30; 0; 1; 0; 0; 0; 97; 0; 0; 0; 0; 0; 0; 0; 7; 0; 0; 0; 0; 0; 0; 0] in
   '(slots, _) ← join new_slots 9;
   '(slots, tags, _) ← arm_all (λ _, true) slots;
   '(slots, l) ← route slots (key ++ replicate (Z.to_nat 6120) 0) (default 0 (head tags)) 24;
   let '(slots, e) := take_event slots 0 in
   Done (length tags, l, e, any_armed slots, snd (take_event slots 0))) =
  Done (1%nat, false, Ok (Some (mkEvent 1 30 1 97 0 0 7)), false, Ok None).
Proof. vm_compute. reflexivity. Qed.

End Ring.
