(* ===== verification/RingProofs.v ===== *)
(** * The event ring routes every completion to the surface that armed it

    The ring with the reads in flight as a state machine: surfaces join and leave,
    events are taken, and a pump arms reads and routes completions.  In every
    state it reaches the reads in flight are exactly one per armed slot, tagged
    with that slot's generation, so a completion finds the slot and the surface
    it was armed for; a slot whose surface left is not taken again before its
    read completes, and is free when it has; queues are bounded and FIFO. *)

From S2P Require Import Prelude Ring.
Import Ring.
Open Scope Z_scope.

Module RingProofs.

(** ** Tags *)

Lemma ud_val i g : Z.of_nat i < 2 ^ 24 → in_u 32 g → ud i g = 2 + g * 2 ^ 8 + Z.of_nat i * 2 ^ 40.
Proof.
  intros Hi Hg. unfold ud, ushl, in_u, UD_EVENT in *.
  rewrite !as_u_small by (unfold in_u; rewrite Z.shiftl_mul_pow2; lia).
  rewrite Z.lor_comm, (Z.lor_comm (Z.shiftl (Z.of_nat i) 40)), Z.lor_assoc.
  rewrite (lor_shiftl_add 2 g 8) by (unfold in_u; lia). rewrite lor_shiftl_add by (unfold in_u; lia). done.
Qed.

Lemma ud_class i g : Z.of_nat i < 2 ^ 24 → in_u 32 g → Z.land (ud i g) 0xff = UD_EVENT.
Proof.
  intros Hi Hg. rewrite ud_val, land_255 by done. unfold UD_EVENT.
  replace (2 + g * 2 ^ 8 + Z.of_nat i * 2 ^ 40) with (2 + (g + Z.of_nat i * 2 ^ 32) * 256) by lia.
  by rewrite Z.mod_add by lia.
Qed.
Lemma ud_slot i g : Z.of_nat i < 2 ^ 24 → in_u 32 g → Z.to_nat (Z.shiftr (ud i g) 40) = i.
Proof.
  intros Hi Hg. rewrite ud_val, Z.shiftr_div_pow2 by (done || lia). unfold in_u in Hg.
  rewrite Z.div_add, Z.div_small by lia. lia.
Qed.
Lemma ud_gen i g : Z.of_nat i < 2 ^ 24 → in_u 32 g →
  as_u 32 (Z.land (Z.shiftr (ud i g) 8) 0xffffffff) = g.
Proof.
  intros Hi Hg. rewrite ud_val, Z.shiftr_div_pow2 by (done || lia). change 0xffffffff with (Z.ones 32).
  rewrite Z.land_ones by lia. unfold as_u. rewrite Z.mod_mod by lia. unfold in_u in Hg.
  replace (2 + g * 2 ^ 8 + Z.of_nat i * 2 ^ 40) with (2 + (g + Z.of_nat i * 2 ^ 32) * 2 ^ 8) by lia.
  rewrite Z.div_add by lia. change (2 / 2 ^ 8) with 0. rewrite Z.add_0_l, Z.mod_add, Z.mod_small by lia. done.
Qed.
Lemma ud_inj i j g h : Z.of_nat i < 2 ^ 24 → Z.of_nat j < 2 ^ 24 → in_u 32 g → in_u 32 h → ud i g = ud j h → i = j ∧ g = h.
Proof.
  intros Hi Hj Hg Hh Heq. split.
  - rewrite <-(ud_slot i g), <-(ud_slot j h) by done. by rewrite Heq.
  - rewrite <-(ud_gen i g), <-(ud_gen j h) by done. by rewrite Heq.
Qed.

(** ** Records *)

(** The record at [o]. *)
Definition record_at (d : list Z) (o : Z) : Event :=
  mkEvent (le_val (bytes_at d 2 o)) (le_val (bytes_at d 2 (o + 2))) (le_val (bytes_at d 4 (o + 4)))
    (le_val (bytes_at d 4 (o + 8))) (le_val (bytes_at d 2 (o + 12))) (le_val (bytes_at d 2 (o + 14)))
    (le_val (bytes_at d 8 (o + 16))).
(** The records of a delivery of [n] bytes at [o]. *)
Definition records (d : list Z) (o n : Z) : list Event :=
  (λ k, record_at d (o + TEVENT_LEN * Z.of_nat k)) <$> seq 0 (Z.to_nat (n / TEVENT_LEN)).

Lemma event_at_ok d o : 0 ≤ o → o + TEVENT_LEN ≤ zlen d → zlen d ≤ u_max 64 → event_at d o = Done (record_at d o).
Proof.
  unfold TEVENT_LEN. intros H0 H1 H2. unfold event_at.
  rewrite !get_le_ok by lia. done.
Qed.

Lemma push_events_ok fuel d o e q : 0 ≤ o ≤ e → e ≤ zlen d → zlen d ≤ u_max 64 → (Z.to_nat (e - o) < fuel)%nat →
  push_events fuel d o e q = Done (q ++ records d o (e - o)).
Proof.
  revert o q. induction fuel as [|fuel IH]; intros o q Ho He Hd Hf; [lia|]. cbn [push_events].
  unfold TEVENT_LEN in *. destruct (Z.leb_spec (o + 24) e) as [Hle|Hgt].
  - rewrite event_at_ok by (unfold TEVENT_LEN; lia). obind. rewrite IH by lia. f_equal.
    rewrite <-app_assoc. f_equal. unfold records, TEVENT_LEN.
    replace (e - o) with ((e - (o + 24)) + 1 * 24) by lia. rewrite Z.div_add by lia.
    assert (0 ≤ (e - (o + 24)) / 24) by (apply Z.div_pos; lia).
    replace (Z.to_nat ((e - (o + 24)) / 24 + 1)) with (S (Z.to_nat ((e - (o + 24)) / 24))) by lia.
    cbn [seq fmap list_fmap]. rewrite Z.mul_0_r, Z.add_0_r. cbn. f_equal.
    rewrite <-(fmap_S_seq 0), <-list_fmap_compose. apply list_fmap_ext. intros k x _. unfold compose. f_equal. lia.
  - unfold records, TEVENT_LEN. rewrite Z.div_small by lia. cbn. by rewrite app_nil_r.
Qed.

Definition is_layout (e : Event) : bool := ev_kind e =? TEV_LAYOUT.
(** A delivery announces a layout when a whole record of it does. *)
Lemma has_layout_ok d o n : 0 ≤ o → 0 ≤ n → o + n ≤ zlen d → zlen d ≤ u_max 64 →
  has_layout d o (o + n) = Done (existsb is_layout (records d o n)).
Proof.
  intros Ho Hn He Hd. unfold has_layout. rewrite (proj2 (Z.ltb_ge _ _)) by lia.
  set (g x := (x + TEVENT_LEN <=? o + n) && is_layout (record_at d x)).
  rewrite (anyM_existsb _ g).
  - f_equal. unfold offsets, records. replace (o + n - o) with n by lia. unfold TEVENT_LEN in *.
    rewrite !existsb_fmap. pose proof (Z.div_mod n 24 ltac:(lia)) as Hq. pose proof (Z.mod_pos_bound n 24 ltac:(lia)) as Hm.
    assert (∀ k, (k < Z.to_nat (n / 24))%nat →
      g (o + 24 * Z.of_nat k) = is_layout (record_at d (o + 24 * Z.of_nat k))) as Hin.
    { intros k Hk. unfold g. by rewrite (proj2 (Z.leb_le _ _)) by (unfold TEVENT_LEN; lia). }
    assert (existsb (λ k : nat, g (o + 24 * Z.of_nat k)) (seq 0 (Z.to_nat (n / 24))) =
      existsb (λ k : nat, is_layout (record_at d (o + 24 * Z.of_nat k))) (seq 0 (Z.to_nat (n / 24)))) as Hfull.
    { apply existsb_ext_in. intros k Hk%elem_of_seq. apply Hin. lia. }
    destruct (Z.eq_dec (n mod 24) 0) as [Hz|Hz].
    + by replace ((n + 24 - 1) / 24) with (n / 24)
        by (apply Z.div_unique with 23; lia).
    + replace ((n + 24 - 1) / 24) with (n / 24 + 1) by (apply Z.div_unique with (n mod 24 - 1); lia).
      replace (Z.to_nat (n / 24 + 1)) with (Z.to_nat (n / 24) + 1)%nat by lia.
      rewrite seq_app, existsb_app, Hfull. cbn [seq existsb]. unfold g at 1.
      rewrite (proj2 (Z.leb_gt _ _)) by (unfold TEVENT_LEN; lia). by rewrite !orb_false_r.
  - intros x (k & -> & _)%list_elem_of_fmap. unfold g. destruct (Z.ltb_spec (o + n) (o + TEVENT_LEN * Z.of_nat k + TEVENT_LEN)).
    + by rewrite (proj2 (Z.leb_gt _ _)) by lia.
    + unfold TEVENT_LEN in *. rewrite get_le_ok by lia. rewrite (proj2 (Z.leb_le _ _)) by lia. done.
Qed.

(** ** The ring with its reads in flight *)

(** The staging buffer: a region per slot. *)
Definition staged (d : list Z) : Prop := zlen d = Z.of_nat MAX_RING_SURFACES * EV_REGION.

(** One operation.  The kernel completes reads that are in flight, each once. *)
Inductive ring_step : list Slot * list Z → list Slot * list Z → Prop :=
  | rs_join slots fl fd reg slots' r : core_join slots fd reg = Done (slots', r) →
      ring_step (slots, fl) (slots', fl)
  | rs_leave slots fl slot : ring_step (slots, fl) (fst (leave slots slot), fl)
  | rs_take slots fl slot : ring_step (slots, fl) (fst (take_event slots slot), fl)
  | rs_pump slots fl hint block submit entered d cqes slots' hint' tags r fl' : staged d →
      pump slots hint block submit entered d cqes = Done (slots', hint', tags, r) →
      fl ++ tags ≡ₚ (match r with Ok _ => fst <$> cqes | Err _ => [] end) ++ fl' →
      ring_step (slots, fl) (slots', fl').

(** The facts of one slot. *)
Definition slot_ok (s : Slot) : Prop :=
  in_u 32 (gen s) ∧ (armed s = true → used s = true ∧ (length (pending s) < SLOT_QUEUE_CAP)%nat) ∧
  (retiring s = true → armed s = true) ∧ (length (pending s) < SLOT_QUEUE_CAP + 4)%nat.

Definition armed_tag (slots : list Slot) (t : Z) : Prop :=
  ∃ i s, slots !! i = Some s ∧ armed s = true ∧ t = ud i (gen s).

Record ring_ok (slots : list Slot) (fl : list Z) : Prop := mkRingOk {
  ro_len : length slots = MAX_RING_SURFACES;
  ro_slots : Forall slot_ok slots;
  ro_nodup : NoDup fl;
  ro_flight t : t ∈ fl ↔ armed_tag slots t }.

Lemma slot_lt slots i (s : Slot) : length slots = MAX_RING_SURFACES → slots !! i = Some s → Z.of_nat i < 2 ^ 24.
Proof. intros Hl Hi%lookup_lt_Some. unfold MAX_RING_SURFACES in Hl. lia. Qed.

Lemma slot_at slots fl i s : ring_ok slots fl → slots !! i = Some s → Z.of_nat i < 2 ^ 24 ∧ slot_ok s.
Proof. intros Hok Hi. split; [by eapply slot_lt; [apply Hok|]|by eapply Forall_lookup_1; [apply Hok|]]. Qed.

Lemma ring_new : ring_ok new_slots [].
Proof.
  assert (∀ i s, new_slots !! i = Some s → s = mkSlot false false (-1) false false 0 []) as Hs.
  { intros i s Hi. unfold new_slots in Hi. by apply lookup_replicate in Hi as [-> _]. }
  split; [done| |constructor|].
  - apply Forall_lookup. intros i s ->%Hs. unfold slot_ok, in_u, SLOT_QUEUE_CAP. cbn. split; [lia|].
    split; [done|]. split; [done|]. lia.
  - intros t. rewrite elem_of_nil. split; [done|]. intros (i & s & Hi & Ha & _). apply Hs in Hi as ->. done.
Qed.

(** A change to one slot that is not in flight before or after. *)
Lemma ring_idle slots fl i s s' : ring_ok slots fl → slots !! i = Some s → slot_ok s' →
  armed s' = armed s → (armed s = true → gen s' = gen s) → ring_ok (<[i := s']> slots) fl.
Proof.
  intros [H1 H2 H3 H4] Hi Hok Ha Hg. split; [by rewrite length_insert|by apply Forall_insert|done|].
  intros t. rewrite H4. unfold armed_tag. split.
  - intros (j & x & Hj & Hax & ->). destruct (decide (i = j)) as [<-|Hne].
    + assert (x = s) as -> by congruence. exists i, s'. rewrite list_lookup_insert_eq by (by eapply lookup_lt_Some).
      rewrite Ha, Hg by done. done.
    + exists j, x. by rewrite list_lookup_insert_ne.
  - intros (j & x & Hj & Hax & ->). destruct (decide (i = j)) as [<-|Hne].
    + rewrite list_lookup_insert_eq in Hj by (by eapply lookup_lt_Some). injection Hj as <-.
      rewrite Ha in Hax. exists i, s. by rewrite Hg.
    + rewrite list_lookup_insert_ne in Hj by done. by exists j, x.
Qed.

(** A read goes in flight. *)
Lemma ring_arm slots fl i s : ring_ok slots fl → slots !! i = Some s → arm_wanted s = true →
  ring_ok (<[i := set_armed true s]> slots) (fl ++ [ud i (gen s)]).
Proof.
  intros [H1 H2 H3 H4] Hi Hw. unfold arm_wanted in Hw. rewrite !andb_true_iff, !negb_true_iff, Nat.ltb_lt in Hw.
  destruct Hw as [[[[Hu Hr] Hna] Hc] Hp]. pose proof (slot_lt slots i s H1 Hi) as Hlt.
  pose proof (Forall_lookup_1 _ _ _ _ H2 Hi) as (Hg & Hs2 & Hs3 & Hs4).
  assert (∀ j x, slots !! j = Some x → armed x = true → ud j (gen x) = ud i (gen s) → False) as Hfresh.
  { intros j x Hj Hax Heq. pose proof (Forall_lookup_1 _ _ _ _ H2 Hj) as [Hgx _].
    apply ud_inj in Heq as [-> _]; [congruence|by eapply slot_lt|done..]. }
  split; [by rewrite length_insert| | |].
  - apply Forall_insert; [done|]. exact (conj Hg (conj (λ _, conj Hu Hp) (conj (λ _, eq_refl) Hs4))).
  - apply NoDup_app. split; [done|]. split; [|apply NoDup_singleton].
    intros t (j & x & Hj & Hax & ->)%H4 Heq%list_elem_of_singleton. by eapply Hfresh.
  - intros t. rewrite elem_of_app, list_elem_of_singleton, H4. unfold armed_tag. split.
    + intros [(j & x & Hj & Hax & ->)| ->].
      * exists j, x. rewrite list_lookup_insert_ne; [done|]. intros <-. congruence.
      * exists i, (set_armed true s). by rewrite list_lookup_insert_eq by (by eapply lookup_lt_Some).
    + intros (j & x & Hj & Hax & ->). destruct (decide (i = j)) as [<-|Hne].
      * rewrite list_lookup_insert_eq in Hj by (by eapply lookup_lt_Some). injection Hj as <-. by right.
      * rewrite list_lookup_insert_ne in Hj by done. left. by exists j, x.
Qed.

(** A read comes back. *)
Lemma ring_back slots fl fl' i s s' : ring_ok slots fl → slots !! i = Some s → armed s = true →
  fl ≡ₚ ud i (gen s) :: fl' → slot_ok s' → armed s' = false → ring_ok (<[i := s']> slots) fl'.
Proof.
  intros [H1 H2 H3 H4] Hi Ha Hp Hok Ha'. rewrite Hp in H3. apply NoDup_cons in H3 as [Hni H3].
  split; [by rewrite length_insert|by apply Forall_insert|done|]. intros t.
  pose proof (Forall_lookup_1 _ _ _ _ H2 Hi) as [Hg _].
  assert (t ∈ fl' ↔ t ∈ fl ∧ t ≠ ud i (gen s)) as ->.
  { rewrite Hp, elem_of_cons. split; [intros Ht; split; [by right|by intros ->]|tauto]. }
  rewrite H4. unfold armed_tag. split.
  - intros [(j & x & Hj & Hax & ->) Hne]. exists j, x. rewrite list_lookup_insert_ne; [done|].
    intros <-. assert (x = s) as -> by congruence. done.
  - intros (j & x & Hj & Hax & ->). destruct (decide (i = j)) as [<-|Hne].
    + rewrite list_lookup_insert_eq in Hj by (by eapply lookup_lt_Some). injection Hj as <-. congruence.
    + rewrite list_lookup_insert_ne in Hj by done. split; [by exists j, x|]. intros Heq.
      pose proof (Forall_lookup_1 _ _ _ _ H2 Hj) as [Hgx _].
      apply ud_inj in Heq as [-> _]; [done|by eapply slot_lt|by eapply slot_lt|done..].
Qed.

(** ** Completions *)

(** What a completion of [result] bytes makes of the slot [i] it was armed on. *)
Definition completed (d : list Z) (i : nat) (result : Z) (s : Slot) : Slot :=
  let s := set_armed false s in
  if retiring s then set_retiring false (set_used false s)
  else if result <=? 0 then set_closed true s
  else set_pending (pending s ++ records d (Z.of_nat i * EV_REGION) (Z.min result EV_CAP)) s.

Lemma gen_completed d i result s : gen (completed d i result s) = gen s.
Proof. unfold completed. destruct (retiring _); [done|]. by destruct (result <=? 0). Qed.

(** Whether that completion announces a layout. *)
Definition announces (d : list Z) (i : nat) (result : Z) : bool :=
  (0 <? result) && existsb is_layout (records d (Z.of_nat i * EV_REGION) (Z.min result EV_CAP)).

Lemma records_length d o n : 0 ≤ n ≤ EV_CAP → (length (records d o n) ≤ 4)%nat.
Proof.
  unfold EV_CAP, TEVENT_LEN. intros Hn. unfold records. rewrite length_fmap, length_seq. unfold TEVENT_LEN.
  assert (n / 24 ≤ 4) by (apply Z.div_le_upper_bound; lia). lia.
Qed.

Lemma route_hit slots fl i s d result : ring_ok slots fl → slots !! i = Some s → armed s = true → staged d →
  route slots d (ud i (gen s)) result = Done (<[i := completed d i result s]> slots, announces d i result).
Proof.
  intros [H1 H2 H3 H4] Hi Ha Hd. pose proof (slot_lt slots i s H1 Hi) as Hlt.
  pose proof (Forall_lookup_1 _ _ _ _ H2 Hi) as (Hg & Hu & Hr & Hp). apply Hu in Ha as [Hus _].
  unfold route. rewrite ud_class, ud_slot, ud_gen, Z.eqb_refl, Hi, Hus, Z.eqb_refl by done. cbn [negb orb].
  unfold staged, MAX_RING_SURFACES, EV_REGION in Hd. apply lookup_lt_Some in Hi as Hi'. rewrite H1 in Hi'.
  unfold MAX_RING_SURFACES in Hi'. set (region := Z.of_nat i * EV_REGION).
  set (n := if 0 <? result then Z.min result EV_CAP else 0).
  assert (0 ≤ region ∧ 0 ≤ n ≤ EV_CAP ∧ region + n ≤ zlen d) as (B1 & B2 & B3).
  { unfold region, n, EV_REGION, EV_CAP, TEVENT_LEN. destruct (Z.ltb_spec 0 result); lia. }
  rewrite has_layout_ok by (unfold u_max; lia). obind.
  assert (existsb is_layout (records d region n) = announces d i result) as ->.
  { unfold announces, n. by destruct (Z.ltb_spec 0 result). }
  unfold completed. change (retiring (set_armed false s)) with (retiring s).
  destruct (retiring s); [done|]. destruct (Z.leb_spec result 0) as [|Hres].
  { unfold announces. by rewrite (proj2 (Z.ltb_ge _ _)) by lia. }
  rewrite (proj2 (Z.ltb_ge _ _)) by lia.
  rewrite push_events_ok by (unfold u_max; lia). obind. do 5 f_equal.
  unfold n. rewrite (proj2 (Z.ltb_lt _ _)) by lia. f_equal. lia.
Qed.

Lemma completed_ok d i result s : slot_ok s → armed s = true →
  slot_ok (completed d i result s) ∧ armed (completed d i result s) = false.
Proof.
  intros (Hg & Hu & Hr & Hp) Ha. apply Hu in Ha as [Hus Hq]. unfold SLOT_QUEUE_CAP in *. unfold completed.
  change (retiring (set_armed false s)) with (retiring s).
  destruct (retiring s) eqn:Hrt; [|destruct (Z.leb_spec result 0)]; unfold slot_ok; cbn; (split; [|done]);
    (split; [done|]); (split; [done|]); (split; [congruence|]); unfold SLOT_QUEUE_CAP; [lia..|].
  rewrite length_app. pose proof (records_length d (Z.of_nat i * EV_REGION) (Z.min result EV_CAP)).
  unfold EV_CAP, TEVENT_LEN in *. lia.
Qed.

Lemma route_ok slots fl t fl' d result : ring_ok slots fl → fl ≡ₚ t :: fl' → staged d →
  ∃ i s, slots !! i = Some s ∧ armed s = true ∧ t = ud i (gen s) ∧
    route slots d t result = Done (<[i := completed d i result s]> slots, announces d i result) ∧
    ring_ok (<[i := completed d i result s]> slots) fl'.
Proof.
  intros Hok Hp Hd. assert (t ∈ fl) as Ht by (rewrite Hp; by left).
  apply (ro_flight _ _ Hok) in Ht as (i & s & Hi & Ha & ->).
  pose proof (route_hit slots fl i s d result Hok Hi Ha Hd) as He. exists i, s. split_and!; try done.
  destruct (completed_ok d i result s) as [Hc1 Hc2]; [by eapply Forall_lookup_1; [apply Hok|]|done|].
  by eapply ring_back.
Qed.

Lemma ring_reap_ok slots fl hint d cqes fl' : ring_ok slots fl → staged d → fl ≡ₚ (fst <$> cqes) ++ fl' →
  ∃ slots' hint', reap_all slots hint d cqes = Done (slots', hint') ∧ ring_ok slots' fl'.
Proof.
  unfold reap_all. revert slots fl hint. induction cqes as [|[t res] cqes IH]; intros slots fl hint Hok Hd Hp.
  - exists slots, hint. split; [done|]. destruct Hok as [H1 H2 H3 H4]. cbn in Hp. split; [done|done|by rewrite <-Hp|].
    intros x. by rewrite <-Hp, H4.
  - rewrite fmap_cons in Hp. cbn [foldM fst snd]. destruct (route_ok slots fl t _ d res Hok Hp Hd)
      as (i & s & _ & _ & _ & -> & Hok'). obind. by eapply IH.
Qed.

(** ** Arming *)

Lemma arm_from_ok todo i submit slots fl n tags : ring_ok slots (fl ++ tags) →
  (i + todo = length slots)%nat → 0 ≤ n → n + Z.of_nat todo ≤ u_max 32 →
  ∃ slots' tags' r, arm_from todo i submit slots n tags = Done (slots', tags', r) ∧ ring_ok slots' (fl ++ tags').
Proof.
  revert i slots n tags. induction todo as [|todo IH]; intros i slots n tags Hok Hi Hn Hm; cbn [arm_from]; [by eauto|].
  destruct (lookup_lt_is_Some_2 slots i) as [s Hs]; [lia|]. rewrite Hs. cbn [unwrap mbind outcome_bind].
  destruct (arm_wanted s) eqn:Hw; cbn [negb]; [|apply IH; [done|lia..]].
  destruct (submit i); [|by eauto 6]. rewrite uadd_ok by lia. obind.
  apply IH; [rewrite app_assoc; by apply ring_arm|rewrite length_insert; lia|lia..].
Qed.
Lemma arm_all_ok submit slots fl : ring_ok slots fl →
  ∃ slots' tags r, arm_all submit slots = Done (slots', tags, r) ∧ ring_ok slots' (fl ++ tags).
Proof.
  intros Hok. apply arm_from_ok; [by rewrite app_nil_r|done..|]. rewrite (ro_len _ _ Hok). unfold MAX_RING_SURFACES, u_max. lia.
Qed.

(** What arming leaves alone: a slot it does not want, and all but [armed] of the others. *)
Definition same_but_armed (s s' : Slot) : Prop := s' = s ∨ (arm_wanted s = true ∧ s' = set_armed true s).
Lemma arm_from_frame todo i submit slots n tags slots' tags' r :
  arm_from todo i submit slots n tags = Done (slots', tags', r) →
  ∀ j s, slots !! j = Some s → ∃ s', slots' !! j = Some s' ∧ same_but_armed s s' ∧ ((j < i)%nat → s' = s).
Proof.
  revert i slots n tags. induction todo as [|todo IH]; intros i slots n tags; cbn [arm_from].
  { intros [= -> -> <-] j s Hj. exists s. unfold same_but_armed. auto. }
  destruct (slots !! i) as [x|] eqn:Hx; cbn [unwrap mbind outcome_bind]; [|done].
  destruct (arm_wanted x) eqn:Hw; cbn [negb].
  2:{ intros H j s Hj. destruct (IH _ _ _ _ H j s Hj) as (s' & Hj' & Hs & Hlt). exists s'. split_and!; [done..|].
      intros ?. apply Hlt. lia. }
  destruct (submit i).
  2:{ intros [= -> -> <-] j s Hj. exists s. unfold same_but_armed. auto. }
  destruct (uadd 32 n 1); obind; [|done..].
  intros H j s Hj. destruct (decide (i = j)) as [<-|Hne].
  - assert (x = s) as -> by congruence.
    destruct (IH _ _ _ _ H i (set_armed true s)) as (s' & Hj' & Hs & Hlt).
    { apply list_lookup_insert_eq. by eapply lookup_lt_Some. }
    rewrite Hlt in Hj' by lia. exists (set_armed true s). split; [done|]. split; [by right|lia].
  - destruct (IH _ _ _ _ H j s) as (s' & Hj' & Hs & Hlt); [by rewrite list_lookup_insert_ne|].
    exists s'. split_and!; [done..|]. intros ?. apply Hlt. lia.
Qed.
Lemma arm_from_all todo i submit slots n tags slots' tags' m :
  arm_from todo i submit slots n tags = Done (slots', tags', Ok m) → (i + todo = length slots)%nat →
  ∀ j s, slots !! j = Some s → (i ≤ j)%nat → arm_wanted s = true → slots' !! j = Some (set_armed true s).
Proof.
  revert i slots n tags. induction todo as [|todo IH]; intros i slots n tags; cbn [arm_from].
  { intros _ Hi j s Hj%lookup_lt_Some ?. lia. }
  destruct (slots !! i) as [x|] eqn:Hx; cbn [unwrap mbind outcome_bind]; [|done].
  destruct (arm_wanted x) eqn:Hw; cbn [negb].
  2:{ intros H Hi j s Hj Hij Hwj. assert (i ≠ j) by congruence. apply (IH _ _ _ _ H ltac:(lia) j s Hj ltac:(lia) Hwj). }
  destruct (submit i); [|done]. destruct (uadd 32 n 1); obind; [|done..].
  intros H Hi j s Hj Hij Hwj. destruct (decide (i = j)) as [<-|Hne].
  - assert (x = s) as -> by congruence.
    destruct (arm_from_frame _ _ _ _ _ _ _ _ _ H i (set_armed true s)) as (s' & Hj' & _ & Hlt).
    { apply list_lookup_insert_eq. by eapply lookup_lt_Some. }
    rewrite Hlt in Hj' by lia. done.
  - apply (IH _ _ _ _ H); [by rewrite length_insert; lia|by rewrite list_lookup_insert_ne|lia|done].
Qed.

(** ** Every operation keeps the invariant *)

Lemma join_ok slots fl fd : ring_ok slots fl →
  (join slots fd = Done (slots, Err Full) ∧ Forall (λ s, used s = true) slots) ∨
  (∃ i s, slots !! i = Some s ∧ used s = false ∧ armed s = false ∧ slot_ok (joined fd s) ∧
    Z.to_nat (as_u 16 (Z.of_nat i)) = i ∧
    join slots fd = Done (<[i := joined fd s]> slots, Ok (as_u 16 (Z.of_nat i)))).
Proof.
  intros Hok. unfold join. destruct (position _ slots) as [i|] eqn:Hpos.
  - right. apply position_Some in Hpos as (s & Hi & Hu). apply negb_true_iff in Hu.
    pose proof (Forall_lookup_1 _ _ _ _ (ro_slots _ _ Hok) Hi) as (Hg & Ha & _ & _).
    assert (armed s = false) by (destruct (armed s) eqn:E; [destruct Ha; congruence|done]).
    exists i, s. rewrite Hi. cbn [unwrap mbind outcome_bind]. split_and!; try done.
    + split; [by apply as_u_in|]. split; [done|]. split; [done|]. cbn [length pending joined]. unfold SLOT_QUEUE_CAP. lia.
    + apply lookup_lt_Some in Hi. rewrite (ro_len _ _ Hok) in Hi. unfold MAX_RING_SURFACES in Hi.
      rewrite as_u_small by (unfold in_u; lia). lia.
  - left. split; [done|]. apply position_None in Hpos. eapply Forall_impl; [exact Hpos|]. intros s Hs. by apply negb_false_iff.
Qed.

Lemma core_join_ok slots fl fd reg : ring_ok slots fl →
  ∃ slots' r, core_join slots fd reg = Done (slots', r) ∧ ring_ok slots' fl.
Proof.
  intros Hok. unfold core_join. destruct (join_ok slots fl fd Hok) as [[-> _]|(i & s & Hi & Hu & Ha & Hj & Hz & ->)];
    obind; [by eauto|].
  assert (ring_ok (<[i := joined fd s]> slots) fl) as Hok' by (eapply ring_idle; [done..|congruence]).
  destruct reg; [by eauto|]. rewrite Hz, list_lookup_insert_eq by (by eapply lookup_lt_Some).
  cbn [unwrap mbind outcome_bind]. eexists _, _. split; [done|].
  eapply ring_idle; [exact Hok'|by apply list_lookup_insert_eq; eapply lookup_lt_Some| |done|done].
  destruct Hj as (Hg & _ & _ & Hp). done.
Qed.

Lemma left_ok s : slot_ok s → slot_ok (left s) ∧ armed (left s) = armed s ∧ gen (left s) = gen s.
Proof.
  intros (Hg & Ha & Hr & Hp). unfold left. cbn [armed set_pending]. destruct (armed s) eqn:E.
  - split; [|done]. destruct Ha as [Hu Hq]; [done|]. unfold slot_ok. cbn. unfold SLOT_QUEUE_CAP.
    split; [done|]. split; [intros _; split; [done|lia]|]. split; [done|lia].
  - split; [|done]. unfold slot_ok. cbn. rewrite E. unfold SLOT_QUEUE_CAP.
    split; [done|]. split; [done|]. split; [intros Hrt; by apply Hr in Hrt|lia].
Qed.

Lemma leave_ok slots fl i : ring_ok slots fl → ring_ok (fst (leave slots i)) fl.
Proof.
  intros Hok. unfold leave. destruct (slots !! i) as [s|] eqn:Hi; [|done]. destruct (used s); [|done]. cbn [fst].
  destruct (left_ok s) as (H1 & H2 & H3); [by eapply Forall_lookup_1; [apply Hok|]|]. by eapply ring_idle.
Qed.

Lemma take_ok slots fl i : ring_ok slots fl → ring_ok (fst (take_event slots i)) fl.
Proof.
  intros Hok. unfold take_event. destruct (slots !! i) as [s|] eqn:Hi; [|done].
  destruct (pending s) as [|e q] eqn:Hq; [by destruct (closed s)|]. cbn [fst].
  eapply ring_idle; [done..| |done|done].
  pose proof (Forall_lookup_1 _ _ _ _ (ro_slots _ _ Hok) Hi) as (Hg & Ha & Hr & Hp). rewrite Hq in *. cbn [length] in *.
  unfold slot_ok. cbn [gen armed used retiring pending set_pending]. split; [done|]. split; [|split; [done|lia]].
  intros [Hu ?]%Ha. split; [done|lia].
Qed.

Lemma pump_ok slots fl hint block submit entered d cqes slots' hint' tags r fl' : ring_ok slots fl → staged d →
  pump slots hint block submit entered d cqes = Done (slots', hint', tags, r) →
  fl ++ tags ≡ₚ (match r with Ok _ => fst <$> cqes | Err _ => [] end) ++ fl' →
  ring_ok slots' fl'.
Proof.
  intros Hok Hd. unfold pump. destruct (arm_all_ok submit slots fl Hok) as (s1 & t1 & r1 & -> & Hok1).
  assert (∀ fl2, fl ++ t1 ≡ₚ fl2 → ring_ok s1 fl2) as Hperm.
  { intros fl2 Hp. destruct (ring_reap_ok s1 _ false d [] fl2 Hok1 Hd Hp) as (? & ? & [= <- <-] & ?). done. }
  obind. destruct r1 as [m|e].
  2:{ intros [= <- <- <- <-]. apply Hperm. }
  destruct (block && negb (any_armed s1)); [intros [= <- <- <- <-]; apply Hperm|].
  destruct ((block || (0 <? m)) && negb entered); [intros [= <- <- <- <-]; apply Hperm|].
  destruct (reap_all s1 hint d cqes) as [[s2 h2]| |] eqn:Hreap; obind; [|done..].
  intros [= <- <- <- <-] Hp. destruct (ring_reap_ok s1 _ hint d cqes fl' Hok1 Hd Hp) as (? & ? & Heq & ?). congruence.
Qed.

Lemma ring_step_ok st st' : ring_step st st' → ring_ok st.1 st.2 → ring_ok st'.1 st'.2.
Proof.
  destruct 1 as [slots fl fd reg slots' r Hj|slots fl i|slots fl i|slots fl hint block submit entered d cqes slots' hint' tags r fl' Hd Hp Hfl];
    cbn [fst snd]; intros Hok.
  - destruct (core_join_ok slots fl fd reg Hok) as (? & ? & ? & ?). congruence.
  - by apply leave_ok.
  - by apply take_ok.
  - by eapply pump_ok.
Qed.
Lemma ring_reach_ok slots fl : rtc ring_step (new_slots, []) (slots, fl) → ring_ok slots fl.
Proof.
  intros H. apply (rtc_keeps ring_step (λ st, ring_ok st.1 st.2) (new_slots, []) (slots, fl)); [apply ring_step_ok|apply ring_new|done].
Qed.

End RingProofs.
