(* ===== verification/RingClaims.v ===== *)
(** * What the event ring promises its surfaces

    Stated of every state the ring reaches from its creation by joins, leaves,
    takes and pumps, whatever the kernel accepts, refuses and completes. *)

From S2P Require Import Prelude Ring RingProofs.
Import Ring RingProofs.
Open Scope Z_scope.

Module RingClaims.

(** ** One slot through a reap *)

Lemma reap_slot slots fl hint d cqes fl' slots' hint' i s : ring_ok slots fl → staged d →
  fl ≡ₚ (fst <$> cqes) ++ fl' → reap_all slots hint d cqes = Done (slots', hint') → slots !! i = Some s →
  (slots' !! i = Some s ∧ ud i (gen s) ∉ fst <$> cqes) ∨
  ∃ c1 res c2, cqes = c1 ++ (ud i (gen s), res) :: c2 ∧ ud i (gen s) ∉ fst <$> c1 ∧ ud i (gen s) ∉ fst <$> c2 ∧
    armed s = true ∧ slots' !! i = Some (completed d i res s).
Proof.
  unfold reap_all. revert slots fl hint s. induction cqes as [|[t res] cqes IH]; intros slots fl hint s Hok Hd Hp Hr Hi.
  { left. injection Hr as <- <-. split; [done|]. by apply not_elem_of_nil. }
  rewrite fmap_cons in Hp. cbn [foldM fst snd] in Hr.
  destruct (route_ok slots fl t _ d res Hok Hp Hd) as (j & x & Hj & Hax & Ht & He & Hok'). rewrite He in Hr.
  obind in Hr. cbn [fst] in *. rewrite !fmap_cons. cbn [fst].
  pose proof (ro_nodup _ _ Hok) as Hnd. rewrite Hp in Hnd. cbn in Hnd. apply NoDup_cons in Hnd as [Hnin _].
  destruct (decide (j = i)) as [->|Hne].
  - assert (x = s) as -> by congruence. subst t. right. exists [], res, cqes. split; [done|].
    assert (ud i (gen s) ∉ fst <$> cqes) as Hn by (intros ?; apply Hnin, elem_of_app; by left).
    split; [by apply not_elem_of_nil|]. split; [done|]. split; [done|].
    destruct (IH _ _ _ (completed d i res s) Hok' Hd (reflexivity _) Hr) as [[-> _]|(c1 & r2 & c2 & Hc & _)]; [|done|].
    { apply list_lookup_insert_eq. by eapply lookup_lt_Some. }
    exfalso. apply Hn. rewrite Hc, fmap_app, fmap_cons, gen_completed, elem_of_app. right. by left.
  - assert (t ≠ ud i (gen s)) as Htn.
    { intros Heq. subst t. destruct (slot_at _ _ _ _ Hok Hi) as [? [? _]], (slot_at _ _ _ _ Hok Hj) as [? [? _]].
      by apply ud_inj in Heq as [-> _]. }
    destruct (IH _ _ _ s Hok' Hd (reflexivity _) Hr) as [[-> Hn]|(c1 & r2 & c2 & -> & H1 & H2 & Ha & H3)].
    + by rewrite list_lookup_insert_ne.
    + left. split; [done|]. rewrite elem_of_cons. intros [?|?]; [by subst|done].
    + right. exists ((t, res) :: c1), r2, c2. split; [done|]. rewrite fmap_cons, elem_of_cons. cbn [fst].
      split; [intros [?|?]; [by subst|done]|]. done.
Qed.

(** The pump that returned: it armed, then reaped. *)
Lemma pump_inv slots hint block submit entered d cqes slots' hint' tags :
  pump slots hint block submit entered d cqes = Done (slots', hint', tags, Ok tt) →
  ∃ slots1 n, arm_all submit slots = Done (slots1, tags, Ok n) ∧ reap_all slots1 hint d cqes = Done (slots', hint').
Proof.
  unfold pump. destruct (arm_all submit slots) as [[[s1 t1] [n|e]]| |]; obind; [|done..].
  destruct (block && _); [done|]. destruct (_ && negb entered); [done|].
  destruct (reap_all s1 hint d cqes) as [[s2 h2]| |] eqn:Hr; obind; [|done..].
  intros [= <- <- <-]. by exists s1, n.
Qed.
(** A pump that failed: it only armed. *)
Lemma pump_err slots hint block submit entered d cqes slots' hint' tags e :
  pump slots hint block submit entered d cqes = Done (slots', hint', tags, Err e) →
  ∃ r, arm_all submit slots = Done (slots', tags, r).
Proof.
  unfold pump. destruct (arm_all submit slots) as [[[s1 t1] [n|e1]]| |]; obind; [| |done..].
  2:{ intros [= <- <- <- <-]. by eexists. }
  destruct (block && _); [intros [= <- <- <- <-]; by eexists|].
  destruct (_ && negb entered); [intros [= <- <- <- <-]; by eexists|].
  destruct (reap_all s1 hint d cqes) as [[s2 h2]| |]; done.
Qed.
Lemma arm_all_frame submit slots slots' tags r i s : arm_all submit slots = Done (slots', tags, r) → slots !! i = Some s →
  ∃ s', slots' !! i = Some s' ∧ same_but_armed s s'.
Proof. intros H Hi. destruct (arm_from_frame _ _ _ _ _ _ _ _ _ H i s Hi) as (s' & ? & ? & _). eauto. Qed.

(** ** A surface's events, in order *)

(** The records a pump delivers to generation [g] of slot [i]. *)
Definition delivered (d : list Z) (i : nat) (g : Z) (cqes : list (Z * Z)) : list Event :=
  concat ((λ c, if (c.1 =? ud i g) && (0 <? c.2) then records d (Z.of_nat i * EV_REGION) (Z.min c.2 EV_CAP) else []) <$> cqes).

Lemma delivered_app d i g c1 c2 : delivered d i g (c1 ++ c2) = delivered d i g c1 ++ delivered d i g c2.
Proof. unfold delivered. by rewrite fmap_app, concat_app. Qed.
Lemma delivered_none d i g cqes : ud i g ∉ fst <$> cqes → delivered d i g cqes = [].
Proof.
  unfold delivered. induction cqes as [|[t res] cqes IH]; [done|]. rewrite !fmap_cons, not_elem_of_cons. cbn [fst snd concat].
  intros [Hne Hn]. rewrite (proj2 (Z.eqb_neq _ _)) by congruence. cbn [andb app]. by apply IH.
Qed.

(** The steps while a surface holds slot [i]: [got] is delivered to it and it takes [out]. *)
Inductive serves (i : nat) (g : Z) : list Slot * list Z → list Event → list Event → list Slot * list Z → Prop :=
  | sv_done st : serves i g st [] [] st
  | sv_take slots fl e slots' got out st : take_event slots i = (slots', Ok (Some e)) →
      serves i g (slots', fl) got out st → serves i g (slots, fl) got (e :: out) st
  | sv_pump slots fl hint block submit entered d cqes slots' hint' tags r fl' got out st : staged d →
      pump slots hint block submit entered d cqes = Done (slots', hint', tags, r) →
      fl ++ tags ≡ₚ (match r with Ok _ => fst <$> cqes | Err _ => [] end) ++ fl' →
      serves i g (slots', fl') got out st →
      serves i g (slots, fl) ((match r with Ok _ => delivered d i g cqes | Err _ => [] end) ++ got) out st
  | sv_join slots fl fd reg slots' r got out st : core_join slots fd reg = Done (slots', r) →
      serves i g (slots', fl) got out st → serves i g (slots, fl) got out st
  | sv_leave j slots fl got out st : j ≠ i → serves i g (fst (leave slots j), fl) got out st →
      serves i g (slots, fl) got out st
  | sv_other j slots fl got out st : j ≠ i → serves i g (fst (take_event slots j), fl) got out st →
      serves i g (slots, fl) got out st.

(** Slot [i] holds generation [g] with [q] queued. *)
Definition holds (slots : list Slot) (i : nat) (g : Z) (q : list Event) : Prop :=
  ∃ s, slots !! i = Some s ∧ used s = true ∧ retiring s = false ∧ gen s = g ∧ pending s = q.

Lemma holds_pump slots fl hint block submit entered d cqes slots' hint' tags r fl' i g q :
  ring_ok slots fl → staged d → pump slots hint block submit entered d cqes = Done (slots', hint', tags, r) →
  fl ++ tags ≡ₚ (match r with Ok _ => fst <$> cqes | Err _ => [] end) ++ fl' → holds slots i g q →
  holds slots' i g (q ++ match r with Ok _ => delivered d i g cqes | Err _ => [] end).
Proof.
  intros Hok Hd Hp Hfl (s & Hi & Hu & Hr & <- & <-).
  assert (∀ s1, same_but_armed s s1 → used s1 = true ∧ retiring s1 = false ∧ gen s1 = gen s ∧ pending s1 = pending s) as Hsame.
  { intros s1 [->|[_ ->]]; done. }
  destruct r as [[]|e].
  - apply pump_inv in Hp as (slots1 & n & Harm & Hreap). destruct (arm_all_frame _ _ _ _ _ _ _ Harm Hi) as (s1 & Hi1 & Hs1).
    apply Hsame in Hs1 as (H1 & H2 & H3 & H4). rewrite <-H3, <-H4.
    destruct (arm_all_ok submit slots fl Hok) as (? & ? & ? & Heq & Hok1). rewrite Harm in Heq. injection Heq as <- <- <-.
    destruct (reap_slot _ _ _ _ _ _ _ _ _ _ Hok1 Hd Hfl Hreap Hi1) as [[Hi' Hn]|(c1 & res & c2 & -> & Hn1 & Hn2 & Ha & Hi')].
    + exists s1. rewrite delivered_none, app_nil_r by done. done.
    + eexists. split; [exact Hi'|]. rewrite gen_completed. rewrite delivered_app, (delivered_none _ _ _ c1) by done.
      change (?x :: c2) with ([x] ++ c2). rewrite delivered_app, (delivered_none _ _ _ c2), app_nil_r by done.
      unfold delivered. cbn [fmap list_fmap fst snd concat app]. rewrite Z.eqb_refl, app_nil_r. cbn [andb].
      unfold completed. cbn [retiring set_armed]. rewrite H2. destruct (Z.leb_spec res 0), (Z.ltb_spec 0 res); try lia; [|done].
      rewrite app_nil_r. done.
  - apply pump_err in Hp as [r Harm]. destruct (arm_all_frame _ _ _ _ _ _ _ Harm Hi) as (s1 & Hi1 & Hs1).
    apply Hsame in Hs1 as (H1 & H2 & H3 & H4). rewrite app_nil_r. exists s1. done.
Qed.

(** A slot with a surface on it is none of a join's, another's leave's or another's take's business. *)
Lemma join_frame slots fl fd reg slots' r i s : ring_ok slots fl → core_join slots fd reg = Done (slots', r) →
  slots !! i = Some s → used s = true → slots' !! i = Some s.
Proof.
  intros Hok Hj Hi Hu. unfold core_join in Hj. destruct (join_ok slots fl fd Hok) as [[H _]|(j & x & Hx & Hux & _ & _ & Hz & H)];
    rewrite H in Hj; obind in Hj; [by injection Hj as <- <-|]. assert (i ≠ j) by congruence.
  destruct reg; [injection Hj as <- <-; by rewrite list_lookup_insert_ne|].
  rewrite Hz, list_lookup_insert_eq in Hj by (by eapply lookup_lt_Some). cbn [unwrap mbind outcome_bind] in Hj.
  injection Hj as <- <-. by rewrite !list_lookup_insert_ne.
Qed.
Lemma leave_frame slots i j : j ≠ i → fst (leave slots j) !! i = slots !! i.
Proof.
  intros Hne. unfold leave. destruct (slots !! j) as [s|]; [|done]. destruct (used s); [|done]. cbn [fst].
  by rewrite list_lookup_insert_ne.
Qed.
Lemma take_frame slots i j : j ≠ i → fst (take_event slots j) !! i = slots !! i.
Proof.
  intros Hne. unfold take_event. destruct (slots !! j) as [s|]; [|done].
  destruct (pending s); [by destruct (closed s)|]. cbn [fst]. by rewrite list_lookup_insert_ne.
Qed.

Lemma serves_fifo i g st got out st' : serves i g st got out st' → ring_ok st.1 st.2 → ∀ q, holds st.1 i g q →
  ring_ok st'.1 st'.2 ∧ ∃ q', holds st'.1 i g q' ∧ q ++ got = out ++ q'.
Proof.
  induction 1 as [st|slots fl e slots' got out st Ht _ IH|slots fl hint block submit entered d cqes slots' hint' tags r fl' got out st Hd Hp Hfl _ IH
    |slots fl fd reg slots' r got out st Hj _ IH|j slots fl got out st Hne _ IH|j slots fl got out st Hne _ IH];
    cbn [fst snd] in *; intros Hok q Hh.
  - split; [done|]. exists q. by rewrite app_nil_r.
  - destruct Hh as (s & Hi & Hu & Hr & Hg & Hq). pose proof (take_ok slots fl i Hok) as Hok'.
    unfold take_event in Ht, Hok'. rewrite Hi, Hq in Ht, Hok'. destruct q as [|e1 q]; [by destruct (closed s)|].
    injection Ht as <- <-. destruct (IH Hok' q) as (Hend & q' & Hq' & Heq).
    { exists (set_pending q s). rewrite list_lookup_insert_eq by (by eapply lookup_lt_Some). done. }
    split; [done|]. exists q'. split; [done|]. cbn. by rewrite Heq.
  - pose proof (holds_pump _ _ _ _ _ _ _ _ _ _ _ _ _ _ _ _ Hok Hd Hp Hfl Hh) as Hh'.
    destruct (IH (pump_ok _ _ _ _ _ _ _ _ _ _ _ _ _ Hok Hd Hp Hfl) _ Hh') as (Hend & q' & Hq' & Heq).
    split; [done|]. exists q'. split; [done|]. by rewrite app_assoc.
  - destruct (core_join_ok slots fl fd reg Hok) as (? & ? & Heq & Hok'). rewrite Hj in Heq. injection Heq as <- <-.
    apply IH; [done|]. destruct Hh as (s & Hi & Hu & Hrest). exists s. split; [exact (join_frame _ _ _ _ _ _ _ _ Hok Hj Hi Hu)|by split].
  - apply IH; [by apply leave_ok|]. unfold holds. by rewrite leave_frame.
  - apply IH; [by apply take_ok|]. unfold holds. by rewrite take_frame.
Qed.

(** ** Errors and recycling *)

Lemma arm_from_accepted todo i submit slots n tags slots' tags' e : (∀ j, submit j = true) →
  arm_from todo i submit slots n tags ≠ Done (slots', tags', Err e).
Proof.
  intros Hs. revert i slots n tags. induction todo as [|todo IH]; intros i slots n tags; cbn [arm_from]; [done|].
  destruct (slots !! i) as [x|]; cbn [unwrap mbind outcome_bind]; [|done]. destruct (arm_wanted x); cbn [negb]; [|apply IH].
  rewrite Hs. destruct (uadd 32 n 1); obind; [apply IH|done..].
Qed.

(** After a full arming, nothing is armed just when nothing was and nothing wanted to be. *)
Lemma arm_all_none submit slots fl slots1 tags n : ring_ok slots fl → arm_all submit slots = Done (slots1, tags, Ok n) →
  any_armed slots1 = false ↔ Forall (λ s, armed s = false ∧ arm_wanted s = false) slots.
Proof.
  intros Hok Ha. destruct (arm_all_ok submit slots fl Hok) as (? & ? & ? & Heq & Hok1).
  rewrite Ha in Heq. injection Heq as <- <- <-. unfold any_armed. split.
  - intros Hn. apply Forall_lookup. intros i s Hi.
    assert (∀ s1, slots1 !! i = Some s1 → armed s1 = false) as Hall.
    { intros s1 Hi1. destruct (armed s1) eqn:E; [|done]. rewrite <-Hn. symmetry. apply existsb_exists.
      exists s1. split; [|done]. by apply list_elem_of_In, list_elem_of_lookup_2 with i. }
    destruct (arm_all_frame _ _ _ _ _ _ _ Ha Hi) as (s1 & Hi1 & [->|[Hw ->]]); [|by specialize (Hall _ Hi1)].
    split; [by apply Hall|]. destruct (arm_wanted s) eqn:Hw; [|done].
    specialize (Hall _ (arm_from_all _ _ _ _ _ _ _ _ _ Ha eq_refl i s Hi (Nat.le_0_l i) Hw)). done.
  - intros HF. destruct (existsb armed slots1) eqn:E; [|done]. apply existsb_exists in E as (s1 & Hin & Has).
    apply list_elem_of_In, list_elem_of_lookup in Hin as [i Hi1].
    destruct (lookup_lt_is_Some_2 slots i) as [s Hi].
    { rewrite (ro_len _ _ Hok), <-(ro_len _ _ Hok1). by eapply lookup_lt_Some. }
    destruct (arm_all_frame _ _ _ _ _ _ _ Ha Hi) as (s2 & Hi2 & Hs). assert (s2 = s1) as -> by congruence.
    apply (Forall_lookup_1 _ _ _ _ HF) in Hi as [Hf Hw]. destruct Hs as [->|[? _]]; congruence.
Qed.

Lemma join_free slots fl fd i s : ring_ok slots fl → slots !! i = Some s → used s = false →
  ∃ slots' j, join slots fd = Done (slots', Ok j).
Proof.
  intros Hok Hi Hu. destruct (join_ok slots fl fd Hok) as [[_ HF]|(j & x & _ & _ & _ & _ & _ & ->)]; [|eauto].
  apply (Forall_lookup_1 _ _ _ _ HF) in Hi. congruence.
Qed.

(** ** A ring with one surface and its read in flight *)

Definition key_buffer : list Z :=
  [1; 0; 30; 0; 1; 0; 0; 0; 97; 0; 0; 0; 0; 0; 0; 0; 7; 0; 0; 0; 0; 0; 0; 0] ++ replicate (Z.to_nat 6120) 0.
Definition the_key : Event := mkEvent 1 30 1 97 0 0 7.
Definition demo_slot : Slot := mkSlot true false 9 true false 1 [].
Definition demo_slots : list Slot := <[0%nat := demo_slot]> new_slots.
Definition keyed_slots : list Slot := <[0%nat := mkSlot true false 9 false false 1 [the_key]]> new_slots.
Definition taken_slots : list Slot := <[0%nat := mkSlot true false 9 false false 1 []]> new_slots.

Lemma key_staged : staged key_buffer.
Proof. vm_compute. reflexivity. Qed.
Lemma demo_run : rtc ring_step (new_slots, []) (demo_slots, [ud 0 1]).
Proof.
  eapply rtc_l; [eapply (rs_join new_slots [] 9 true); vm_compute; reflexivity|].
  eapply rtc_once. eapply (rs_pump _ [] false false (λ _, true) true key_buffer []); [apply key_staged|vm_compute; reflexivity|].
  reflexivity.
Qed.
Lemma demo_serves : serves 0 1 (demo_slots, [ud 0 1]) ([the_key] ++ []) [the_key] (taken_slots, []).
Proof.
  eapply (sv_pump 0 1 demo_slots [ud 0 1] false true (λ _, true) true key_buffer [(ud 0 1, 24)] keyed_slots _ []
    (Ok tt) [] []); [apply key_staged|vm_compute; reflexivity|reflexivity|].
  eapply sv_take; [vm_compute; reflexivity|]. apply sv_done.
Qed.

(** ** The claims *)

(** C32: every state the ring reaches is sound: the 48 slots are there, no slot has
    two reads in flight and the reads in flight are exactly the armed slots',
    tagged with their generations; only a slot with a surface is armed, one whose
    surface left is held exactly while its read is out, and a queue never exceeds
    its cap by more than the records of one delivery; and from there a join and a
    pump return, whatever of the reads in flight the kernel completes. *)
Theorem ring_sound slots fl : rtc ring_step (new_slots, []) (slots, fl) →
  ring_ok slots fl ∧
  (∀ fd reg, ∃ res, core_join slots fd reg = Done res) ∧
  (∀ submit, ∃ slots1 tags r, arm_all submit slots = Done (slots1, tags, r) ∧
    ∀ hint block entered d cqes fl', staged d → fl ++ tags ≡ₚ (fst <$> cqes) ++ fl' →
      ∃ res, pump slots hint block submit entered d cqes = Done res).
Proof.
  intros Hok%ring_reach_ok. split; [done|]. split.
  - intros fd reg. destruct (core_join_ok slots fl fd reg Hok) as (s' & r & ? & _). by exists (s', r).
  - intros submit. destruct (arm_all_ok submit slots fl Hok) as (slots1 & tags & r & Ha & Hok1). exists slots1, tags, r.
    split; [done|]. intros hint block entered d cqes fl' Hd Hp. unfold pump. rewrite Ha. obind.
    destruct r as [n|e]; [|by eexists]. destruct (block && _); [by eexists|]. destruct (_ && negb entered); [by eexists|].
    destruct (ring_reap_ok slots1 _ hint d cqes fl' Hok1 Hd Hp) as (s2 & h2 & -> & _). by eexists.
Qed.

Lemma ring_sound_witness : ring_ok demo_slots [ud 0 1].
Proof. destruct (ring_sound demo_slots [ud 0 1] demo_run) as [H _]. exact H. Defined.

(** C33: the completion of a read in flight, whatever its result, returns and is
    applied to one slot, the one the read was armed on while its generation was
    the tag's: the slot of a surface that left is freed, an end of stream closes
    it, and otherwise the records that arrived in its region of the staging
    buffer join its queue; every other slot is as it was; and a layout notice in
    any whole record of it is reported, on a slot whose surface left too. *)
Theorem ring_routes slots fl t d result : rtc ring_step (new_slots, []) (slots, fl) → t ∈ fl → staged d →
  ∃ i s, slots !! i = Some s ∧ armed s = true ∧ t = ud i (gen s) ∧
    route slots d t result = Done (<[i := completed d i result s]> slots, announces d i result).
Proof.
  intros Hok%ring_reach_ok [fl' Hp]%elem_of_Permutation Hd.
  destruct (route_ok slots fl t fl' d result Hok Hp Hd) as (i & s & H1 & H2 & H3 & H4 & _). by exists i, s.
Qed.

Lemma ring_routes_witness : ∃ i s, demo_slots !! i = Some s ∧ armed s = true ∧ ud 0 1 = ud i (gen s) ∧
  route demo_slots key_buffer (ud 0 1) 24 = Done (<[i := completed key_buffer i 24 s]> demo_slots, announces key_buffer i 24).
Proof. apply (ring_routes demo_slots [ud 0 1] (ud 0 1) key_buffer 24 demo_run); [by left|apply key_staged]. Defined.

(** C34: a surface takes its events in the order its reads delivered them, each
    once: over any run of the ring while the surface holds its slot, what was
    queued followed by what its own completions delivered is what it took
    followed by what is still queued, whatever the other surfaces do. *)
Theorem ring_fifo slots fl i g q got out slots' fl' : rtc ring_step (new_slots, []) (slots, fl) →
  holds slots i g q → serves i g (slots, fl) got out (slots', fl') →
  ∃ q', holds slots' i g q' ∧ q ++ got = out ++ q'.
Proof.
  intros Hok%ring_reach_ok Hh Hs. destruct (serves_fifo _ _ _ _ _ _ Hs Hok q Hh) as [_ H]. exact H.
Qed.

Lemma ring_fifo_witness : ∃ q', holds taken_slots 0 1 q' ∧ [the_key] = [the_key] ++ q'.
Proof.
  apply (ring_fifo demo_slots [ud 0 1] 0 1 [] _ _ taken_slots [] demo_run); [|apply demo_serves].
  exists demo_slot. vm_compute. auto.
Defined.

(** C35: a slot is never lost.  When a surface leaves with no read in flight its slot
    is free at once; otherwise its read is in flight, and the pump that reaps its
    completion frees the slot; once it is free the next join succeeds. *)
Theorem ring_recycles slots fl i s : rtc ring_step (new_slots, []) (slots, fl) →
  slots !! i = Some s → used s = true →
  (armed s = false → ∃ s', fst (leave slots i) !! i = Some s' ∧ used s' = false) ∧
  (armed s = true → ud i (gen s) ∈ fl ∧
    ∀ hint block submit entered d cqes slots' hint' tags fl' fd, staged d →
      pump (fst (leave slots i)) hint block submit entered d cqes = Done (slots', hint', tags, Ok tt) →
      fl ++ tags ≡ₚ (fst <$> cqes) ++ fl' → ud i (gen s) ∈ fst <$> cqes →
      (∃ s', slots' !! i = Some s' ∧ used s' = false) ∧ ∃ slots'' j, join slots' fd = Done (slots'', Ok j)).
Proof.
  intros Hok%ring_reach_ok Hi Hu. pose proof (leave_ok slots fl i Hok) as Hokl. apply lookup_lt_Some in Hi as Hlt.
  unfold leave in *. rewrite Hi, Hu in *. cbn [fst] in *. unfold left in *. cbn [armed set_pending] in *. split.
  { intros Ha. rewrite Ha in *. eexists. split; [by apply list_lookup_insert_eq|done]. }
  intros Ha. rewrite Ha in *. split; [apply (ro_flight _ _ Hok); by exists i, s|].
  intros hint block submit entered d cqes slots' hint' tags fl' fd Hd Hp Hfl Hin.
  pose proof (pump_ok _ _ _ _ _ _ _ _ _ _ _ _ _ Hokl Hd Hp Hfl) as Hok'.
  apply pump_inv in Hp as (slots1 & n & Harm & Hreap).
  destruct (arm_all_ok submit _ fl Hokl) as (? & ? & ? & Heq & Hok1). rewrite Harm in Heq. injection Heq as <- <- <-.
  destruct (arm_all_frame _ _ _ _ _ i (set_retiring true (set_pending [] s)) Harm) as (s1 & Hi1 & Hs1).
  { by apply list_lookup_insert_eq. }
  assert (s1 = set_retiring true (set_pending [] s)) as ->.
  { destruct Hs1 as [->|[Hw _]]; [done|]. unfold arm_wanted in Hw. cbn in Hw. rewrite andb_false_r in Hw. done. }
  assert (∃ s', slots' !! i = Some s' ∧ used s' = false) as (s' & Hs' & Hus').
  { destruct (reap_slot _ _ _ _ _ _ _ _ _ _ Hok1 Hd Hfl Hreap Hi1) as [[_ Hn]|(c1 & res & c2 & _ & _ & _ & _ & Hs')].
    - by destruct Hn.
    - eexists. by split. }
  split; [by eauto|]. by eapply join_free.
Qed.

(** The ring filled: the first surface with its read in flight, and 47 more. *)
Fixpoint joins (n : nat) (slots : list Slot) : outcome (list Slot) :=
  match n with O => Done slots | S n => '(slots, _) ← core_join slots 9 true; joins n slots end.
Lemma joins_run n : ∀ slots slots' fl, joins n slots = Done slots' → rtc ring_step (slots, fl) (slots', fl).
Proof.
  induction n as [|n IH]; intros slots slots' fl; cbn [joins]; [by intros [= <-]|]. destruct (core_join slots 9 true) as [[s1 r]| |] eqn:E; [|done..]. intros H.
  eapply rtc_l; [by eapply rs_join|]. by apply IH.
Qed.
Definition full_slots : list Slot := ltac:(let r := eval vm_compute in (joins 47 demo_slots) in match r with Done ?s => exact s end).
Lemma full_run : rtc ring_step (new_slots, []) (full_slots, [ud 0 1]).
Proof. etransitivity; [exact demo_run|]. apply (joins_run 47). vm_compute. reflexivity. Qed.
(** A join is refused; the first surface leaves and its read completes: what the pump
    leaves, with the reads of the others armed meanwhile. *)
Definition pumped : list Slot * list Z :=
  ltac:(let r := eval vm_compute in (pump (fst (leave full_slots 0)) false true (λ _, true) true key_buffer [(ud 0 1, 0)]) in match r with Done (?s, _, ?t, _) => exact (s, t) end).
Lemma ring_recycles_witness : join full_slots 9 = Done (full_slots, Err Full) ∧ armed demo_slot = true ∧ ud 0 1 ∈ [ud 0 1] ∧
  pump (fst (leave full_slots 0)) false true (λ _, true) true key_buffer [(ud 0 1, 0)] = Done (pumped.1, false, pumped.2, Ok tt) ∧ length pumped.2 = 47%nat ∧
  (∃ s', pumped.1 !! 0%nat = Some s' ∧ used s' = false) ∧ ∃ slots'' j, join pumped.1 9 = Done (slots'', Ok j).
Proof.
  split; [vm_compute; reflexivity|]. split; [reflexivity|].
  destruct (ring_recycles full_slots [ud 0 1] 0 demo_slot full_run) as [_ H]; [vm_compute; reflexivity|reflexivity|]. destruct (H eq_refl) as [Hin Hp]. split; [exact Hin|].
  assert (pump (fst (leave full_slots 0)) false true (λ _, true) true key_buffer [(ud 0 1, 0)] = Done (pumped.1, false, pumped.2, Ok tt)) as E by (vm_compute; reflexivity).
  split; [exact E|]. split; [reflexivity|]. apply (Hp false true (λ _, true) true key_buffer [(ud 0 1, 0)] pumped.1 false pumped.2 pumped.2 9 key_staged E); [reflexivity|by left].
Defined.

(** C36: What the ring refuses.  A join is refused as full just when all 48 slots are
    taken; a take reports the stream closed just when it ended and its queue is
    drained (or there is no such slot), never while events are queued; and a
    blocking wait, the submission queue accepting, reports it just when no slot
    has a read in flight or wants one, so it never waits for nothing. *)
Theorem ring_errors slots fl : rtc ring_step (new_slots, []) (slots, fl) →
  (∀ fd, join slots fd = Done (slots, Err Full) ↔ Forall (λ s, used s = true) slots) ∧
  (∀ i, snd (take_event slots i) = Err Closed ↔ ∀ s, slots !! i = Some s → closed s = true ∧ pending s = []) ∧
  (∀ hint submit entered d cqes, (∀ i, submit i = true) →
    (∃ slots' tags, pump slots hint true submit entered d cqes = Done (slots', hint, tags, Err Closed)) ↔
    Forall (λ s, armed s = false ∧ arm_wanted s = false) slots).
Proof.
  intros Hok%ring_reach_ok. split_and!.
  - intros fd. destruct (join_ok slots fl fd Hok) as [[-> HF]|(i & s & Hi & Hu & _ & _ & _ & ->)]; [done|].
    split; [done|]. intros HF. apply (Forall_lookup_1 _ _ _ _ HF) in Hi. congruence.
  - intros i. unfold take_event. destruct (slots !! i) as [s|]; [|naive_solver].
    destruct (pending s) eqn:Hq; destruct (closed s) eqn:Hc; cbn [snd];
      (split; [|intros H; destruct (H s eq_refl); congruence]); [|done..]. intros _ s' [= <-]. by split.
  - intros hint submit entered d cqes Hs. destruct (arm_all_ok submit slots fl Hok) as (slots1 & tags & r & Ha & Hok1).
    destruct r as [n|e]; [|by destruct (arm_from_accepted _ _ _ _ _ _ _ _ _ Hs Ha)].
    rewrite <-(arm_all_none _ _ _ _ _ _ Hok Ha). unfold pump. rewrite Ha. cbn [mbind outcome_bind andb orb].
    destruct (any_armed slots1); cbn [negb]; [|by split; [|intros _; exists slots1, tags]]. split; [|done].
    intros (slots' & tags' & H). destruct entered; cbn [negb andb] in H; [|done].
    destruct (reap_all slots1 hint d cqes) as [[]| |]; done.
Qed.

Lemma ring_errors_witness : join full_slots 9 = Done (full_slots, Err Full) ∧ snd (take_event full_slots 0) ≠ Err Closed ∧
  ¬ ∃ slots' tags, pump full_slots false true (λ _, true) true key_buffer [] = Done (slots', false, tags, Err Closed).
Proof.
  destruct (ring_errors full_slots [ud 0 1] full_run) as (H1 & H2 & H3). split; [|split].
  - apply H1. repeat (constructor; [reflexivity|]). constructor.
  - intros Hc. destruct (proj1 (H2 0%nat) Hc demo_slot) as [? _]; [vm_compute; reflexivity|done].
  - intros Hp. apply H3 in Hp; [|done]. apply Forall_cons in Hp as [[? _] _]. done.
Defined.

End RingClaims.
