(* ===== verification/Present.v ===== *)
(** * Presenting a frame

    The two ends of a present.  The client (the [Surface] of
    src/usr/lib/libtapestry/src/lib.rs) rotates through the slots of its weave,
    keeps the age of each slot's content and writes a descriptor of the damage;
    the compositor ([present] and [rects_cover_full] of
    src/usr/tapestryd/src/server.rs) decodes the descriptor, refuses one that does
    not fit the surface, and latches a client whose slots are patchwork. *)

From S2P Require Import Prelude Ring.
Import Ring(TapError, Present, Protocol, Map, Busy, Event, ev_kind, ev_value, ev_code).
Open Scope Z_scope.

Module Present.

Definition TPRESENT_LEN : Z := 32.
Definition TPRESENT_V1 : Z := 1.
Definition TPRESENT_HOLD : Z := 1.
Definition TRECT_LEN : Z := 16.
Definition MAX_RECTS : Z := 63.
Definition PRESENT_MAX : Z := TPRESENT_LEN + (MAX_RECTS - 1) * TRECT_LEN.
Definition MAX_SLOTS : nat := 8.
Definition SLOT_UNSEEN : Z := u_max 64.
Definition TEV_CONFIGURE : Z := 6.

(** A damage rectangle. *)
Record Rect := mkRect { rx : Z; ry : Z; rw : Z; rh : Z }.

(** ** The client *)

Section Client.

(** The fields the presents keep; the file descriptors and the mapping are not
    part of it. *)
Record Surface := mkSurface {
  sf_w : Z; sf_h : Z; nslots : Z; cur_slot : Z; presents : Z; slot_seen : list Z; single_slot : bool }.

Definition errno_to_taperror (rc : Z) : TapError := if rc =? -11 then Busy else Protocol.

(** The surface the open returns. *)
Definition opened (w h n : Z) : Surface := mkSurface w h n 0 0 (replicate MAX_SLOTS SLOT_UNSEEN) false.

Definition set_single_slot (on : bool) (s : Surface) : Surface :=
  mkSurface (sf_w s) (sf_h s) (nslots s) (cur_slot s) (presents s) (slot_seen s) on.

Definition invalidate_slots (s : Surface) : Surface :=
  mkSurface (sf_w s) (sf_h s) (nslots s) (cur_slot s) 0 (replicate MAX_SLOTS SLOT_UNSEEN) (single_slot s).
Definition invalidate := invalidate_slots.

(** [ack] is what the resize write returned, [weave] the geometry line the new
    weave announced, when its fid opened and the line parsed ([None], or why
    not), and [mapped] whether it was mapped. *)
Definition reweave (ack : Z) (weave : result TapError (Z * Z * Z * Z)) (mapped : bool) (w h : Z) (s : Surface) :
    outcome (Surface * result TapError unit) :=
  if ack <? 0 then Done (s, Err (errno_to_taperror ack)) else
  match weave with
  | Err e => Done (s, Err e)
  | Ok (gw, gh, stride, n) =>
      if negb (gw =? w) || negb (gh =? h) then Done (s, Err Protocol) else
      bytes ← umul 32 w 4;
      if negb (stride =? bytes) || negb (n =? nslots s) then Done (s, Err Protocol) else
      if negb mapped then Done (s, Err Map) else
      Done (invalidate_slots (mkSurface w h (nslots s) 0 (presents s) (slot_seen s) (single_slot s)), Ok tt)
  end.

Definition handle_configure (ack : Z) (weave : result TapError (Z * Z * Z * Z)) (mapped : bool) (ev : Event) (s : Surface) :
    outcome (Surface * result TapError bool) :=
  if negb (ev_kind ev =? TEV_CONFIGURE) then Done (s, Ok false) else
  let cw := Z.shiftr (ev_value ev) 16 in
  let ch := Z.land (ev_value ev) 0xffff in
  if (cw =? sf_w s) && (ch =? sf_h s) then Done (invalidate_slots s, Ok false) else
  '(s, r) ← reweave ack weave mapped cw ch s;
  match r with
  | Err e => Done (s, Err e)
  | Ok _ => Done (s, Ok true)
  end.

Definition age (s : Surface) : outcome Z :=
  seen ← idx (slot_seen s) (cur_slot s);
  if seen =? SLOT_UNSEEN then Done 0 else
  d ← usub (presents s) seen;
  Done (Z.min d (u_max 32)).

Definition put32 (d : list Z) (o v : Z) : outcome (list Z) := copy_from_slice d o (o + 4) (le_bytes 4 v).
Definition put_rect (d : list Z) (o : Z) (r : Rect) : outcome (list Z) :=
  d ← put32 d o (rx r);
  d ← put32 d (o + 4) (ry r);
  d ← put32 d (o + 8) (rw r);
  put32 d (o + 12) (rh r).

(** The bytes of [d[..len]] that [submit_present] writes. *)
Definition descriptor (slot flags : Z) (rects : list Rect) : outcome (result TapError (list Z)) :=
  if MAX_RECTS <? zlen rects then Done (Err Present) else
  let len := if zlen rects <=? 1 then TPRESENT_LEN else TPRESENT_LEN + (zlen rects - 1) * TRECT_LEN in
  d ← put32 (replicate (Z.to_nat PRESENT_MAX) 0) 0 TPRESENT_V1;
  d ← put32 d 4 slot;
  d ← put32 d 8 flags;
  d ← put32 d 12 (zlen rects);
  d ← put_rect d 16 (default (mkRect 0 0 0 0) (head rects));
  d ← foldM (λ d ir, put_rect d (TPRESENT_LEN + (Z.of_nat ir.1 - 1) * TRECT_LEN) ir.2) d
        (drop 1 (imap pair rects));
  Done (Ok (take (Z.to_nat len) d)).

(** [written]: whether the write of the descriptor succeeded; the descriptor
    comes back with the surface. *)
Definition submit_present (flags : Z) (rects : list Rect) (written : bool) (s : Surface) :
    outcome (Surface * option (list Z) * result TapError unit) :=
  r ← descriptor (cur_slot s) flags rects;
  match r with
  | Err e => Done (s, None, Err e)
  | Ok d =>
      if negb written then Done (s, Some d, Err Present) else
      seen ← set_idx (slot_seen s) (cur_slot s) (presents s);
      n ← uadd 64 (presents s) 1;
      slot ← (if single_slot s then Done (cur_slot s)
              else c ← uadd 32 (cur_slot s) 1; if nslots s =? 0 then Panic else Done (c mod nslots s));
      Done (mkSurface (sf_w s) (sf_h s) (nslots s) slot n seen (single_slot s), Some d, Ok tt)
  end.

Definition present (rect : option Rect) :=
  match rect with None => submit_present 0 [] | Some r => submit_present 0 [r] end.
Definition present_rects (rects : list Rect) := submit_present 0 rects.
Definition present_hold (rect : option Rect) :=
  match rect with None => submit_present TPRESENT_HOLD [] | Some r => submit_present TPRESENT_HOLD [r] end.

End Client.

(** ** The compositor *)

Section Server.

Definition E_BADF : Z := 9.
Definition E_INVAL : Z := 22.
Definition E_OPNOTSUPP : Z := 95.
Definition TPRESENT_MAX_RECTS : Z := 64.
Definition WEAVE_SLOTS : Z := 3.

Inductive SurfState := Minted | Woven | Live.
#[global] Instance surf_state_eq_dec : EqDecision SurfState.
Proof. solve_decision. Defined.

(** A rectangle as the server holds it: [(x, y, pw, ph)]. *)
Definition srect : Type := Z * Z * Z * Z.

Definition rect_ok (w h : Z) (r : srect) : bool :=
  let '(x, y, pw, ph) := r in
  negb ((pw =? 0) || (ph =? 0) || (w <? x + pw) || (h <? y + ph)).

Definition read_rect (data : list Z) (o : Z) : outcome srect :=
  x ← get_le data 4 o; y ← get_le data 4 (o + 4);
  pw ← get_le data 4 (o + 8); ph ← get_le data 4 (o + 12);
  Done (x, y, pw, ph).

(** The gates of a present: the slot, the hold flag and the damage, or the error.
    [held] is whether the build and the session take a hold, [surf] the size and
    state of the surface the fid names. *)
Definition present_parse (held : bool) (surf : option (Z * Z * SurfState)) (data : list Z) :
    outcome (result Z (Z * bool * list srect)) :=
  if zlen data <? TPRESENT_LEN then Done (Err E_INVAL) else
  version ← get_le data 4 0;
  slot ← get_le data 4 4;
  flags ← get_le data 4 8;
  rect_count ← get_le data 4 12;
  if negb (version =? TPRESENT_V1) then Done (Err E_INVAL) else
  let hold := negb (Z.land flags TPRESENT_HOLD =? 0) in
  if hold && negb held then Done (Err E_OPNOTSUPP) else
  if TPRESENT_MAX_RECTS <? rect_count then Done (Err E_INVAL) else
  let expect := if rect_count <=? 1 then TPRESENT_LEN else TPRESENT_LEN + (rect_count - 1) * TRECT_LEN in
  if negb (zlen data =? expect) then Done (Err E_INVAL) else
  match surf with
  | None => Done (Err E_BADF)
  | Some (w, h, state) =>
      if bool_decide (state = Minted) then Done (Err E_INVAL) else
      if WEAVE_SLOTS <=? slot then Done (Err E_INVAL) else
      rects ← (if rect_count =? 0 then Done [(0, 0, w, h)] else
        mapM_o (λ i, read_rect data (if (i =? 0)%nat then 16 else TPRESENT_LEN + (Z.of_nat i - 1) * TRECT_LEN))
          (seq 0 (Z.to_nat rect_count)));
      if negb (forallb (rect_ok w h) rects) then Done (Err E_INVAL) else
      Done (Ok (slot, hold, rects))
  end.

(** [sort_unstable] followed by [dedup]. *)
Fixpoint dedup (l : list Z) : list Z :=
  match l with
  | a :: (b :: _) as l' => if a =? b then dedup l' else a :: dedup l'
  | _ => l
  end.
Definition pair_le (a b : Z * Z) : bool := (a.1 <? b.1) || ((a.1 =? b.1) && (a.2 <=? b.2)).

(** [ys.windows(2)] *)
Definition windows2 {A} (l : list A) : list (A * A) := zip l (tail l).

(** How far right the intervals reach from [reach] on, or [None] at a gap. *)
Fixpoint sweep (reach : Z) (xs : list (Z * Z)) : option Z :=
  match xs with
  | [] => Some reach
  | (x0, x1) :: xs => if reach <? x0 then None else sweep (Z.max reach x1) xs
  end.

Definition band_covered (rects : list srect) (w : Z) (band : Z * Z) : outcome bool :=
  spanning ← filterM (λ r, let '(_, y, _, ph) := r in
    if y <=? band.1 then b ← uadd 32 y ph; Done (band.2 <=? b) else Done false) rects;
  xs ← mapM_o (λ r, let '(x, _, pw, _) := r in e ← uadd 32 x pw; Done (x, e)) spanning;
  Done (match sweep 0 (isort pair_le xs) with None => false | Some reach => negb (reach <? w) end).

Definition rects_cover_full (rects : list srect) (w h : Z) : outcome bool :=
  if existsb (λ r : srect, let '(x, y, pw, ph) := r in (x =? 0) && (y =? 0) && (pw =? w) && (ph =? h)) rects
  then Done true else
  edges ← mapM_o (λ r, let '(_, y, _, ph) := r in b ← uadd 32 y ph; Done [y; b]) rects;
  allM (band_covered rects w) (windows2 (dedup (isort Z.leb (0 :: h :: concat edges)))).

(** The present-style latch: the slots ever presented and whether the surface is
    patchwork, and whether it became so now. *)
Definition latch (slots_presented : Z) (patchwork covers_full : bool) (slot : Z) : outcome (Z * bool * bool) :=
  let sp := Z.lor slots_presented (ushl 32 1 slot) in
  below ← usub sp 1;
  let rotates := negb (Z.land sp below =? 0) in
  if negb covers_full && rotates && negb patchwork then Done (sp, true, true) else Done (sp, patchwork, false).

End Server.

Example tiles_cover : rects_cover_full [(0, 0, 8, 3); (0, 3, 5, 5); (4, 3, 4, 5)] 8 8 = Done true.
Proof. vm_compute. reflexivity. Qed.
Example hole_uncovered : rects_cover_full [(0, 0, 8, 3); (0, 3, 4, 5); (5, 3, 3, 5)] 8 8 = Done false.
Proof. vm_compute. reflexivity. Qed.
Example one_rect_travels :
  (r ← descriptor 2 0 [mkRect 1 2 3 4];
   match r with Ok d => present_parse false (Some (100, 100, Live)) d | Err _ => Panic end) =
  Done (Ok (2, false, [(1, 2, 3, 4)])).
Proof. vm_compute. reflexivity. Qed.

End Present.
