(* ===== verification/PresentProofs.v ===== *)
(** * A present means at the compositor what it meant at the client

    The descriptor of a present decodes to the slot, the flags and the damage it
    was written from; whatever bytes arrive, the compositor passes on only a slot
    of the weave and rectangles of the surface, and its cover test is exactly
    coverage of every pixel; the age a client reads is how many presents ago its
    slot was last presented. *)

From S2P Require Import Prelude Ring Present.
From stdpp Require Import sorting.
Import Ring(TapError, Event, ev_kind, ev_value, ev_code).
Import Present.
Open Scope Z_scope.

Module PresentProofs.

(** ** The descriptor *)

Definition rect_bytes (r : Rect) : list Z :=
  le_bytes 4 (rx r) ++ le_bytes 4 (ry r) ++ le_bytes 4 (rw r) ++ le_bytes 4 (rh r).
Definition rect_words (r : Rect) : Prop := in_u 32 (rx r) ∧ in_u 32 (ry r) ∧ in_u 32 (rw r) ∧ in_u 32 (rh r).
Definition header (slot flags n : Z) : list Z :=
  le_bytes 4 TPRESENT_V1 ++ le_bytes 4 slot ++ le_bytes 4 flags ++ le_bytes 4 n.
Definition first_rect (rects : list Rect) : Rect := default (mkRect 0 0 0 0) (head rects).
(** The descriptor on the wire. *)
Definition wire (slot flags : Z) (rects : list Rect) : list Z :=
  header slot flags (zlen rects) ++ rect_bytes (first_rect rects) ++ concat (rect_bytes <$> tail rects).

Lemma length_tail {A} (l : list A) : length (tail l) = (length l - 1)%nat.
Proof. destruct l as [|a l]; cbn [tail length]; lia. Qed.
Lemma length_rect_bytes r : length (rect_bytes r) = 16%nat.
Proof. unfold rect_bytes. by rewrite !length_app, !length_le_bytes. Qed.
Lemma length_header slot flags n : length (header slot flags n) = 16%nat.
Proof. unfold header. by rewrite !length_app, !length_le_bytes. Qed.
Lemma length_rects rs : length (concat (rect_bytes <$> rs)) = (16 * length rs)%nat.
Proof. induction rs as [|r rs IH]; [done|]. rewrite fmap_cons. cbn [concat]. rewrite length_app, IH, length_rect_bytes. cbn [length]. lia. Qed.

Lemma put32_mid pre rest o v : o = zlen pre → (4 ≤ length rest)%nat →
  put32 (pre ++ rest) o v = Done ((pre ++ le_bytes 4 v) ++ drop 4 rest).
Proof.
  intros -> Hr. unfold put32. rewrite copy_app_mid; rewrite ?length_le_bytes; [|lia..]. by rewrite <-app_assoc.
Qed.
Lemma put_rect_mid pre rest o r : o = zlen pre → (16 ≤ length rest)%nat →
  put_rect (pre ++ rest) o r = Done ((pre ++ rect_bytes r) ++ drop 16 rest).
Proof.
  intros -> Hr. unfold put_rect, rect_bytes.
  rewrite put32_mid by lia. obind.
  rewrite put32_mid by (rewrite ?length_app, ?length_drop, ?length_le_bytes; lia). obind.
  rewrite put32_mid by (rewrite ?length_app, ?length_drop, ?length_le_bytes; lia). obind.
  rewrite put32_mid by (rewrite ?length_app, ?length_drop, ?length_le_bytes; lia).
  by rewrite !drop_drop, <-!app_assoc.
Qed.
Lemma put_rects_mid rs (i : nat) pre rest : (1 ≤ i)%nat → zlen pre = TPRESENT_LEN + (Z.of_nat i - 1) * TRECT_LEN →
  (16 * length rs ≤ length rest)%nat →
  foldM (λ d ir, put_rect d (TPRESENT_LEN + (Z.of_nat ir.1 - 1) * TRECT_LEN) ir.2) (pre ++ rest) (imap (λ k r, (i + k, r)%nat) rs) =
  Done ((pre ++ concat (rect_bytes <$> rs)) ++ drop (16 * length rs) rest).
Proof.
  revert i pre rest. induction rs as [|r rs IH]; intros i pre rest Hi Hp Hr.
  { cbn. by rewrite drop_0, app_nil_r. }
  cbn [imap length] in *. cbn [foldM fst snd]. rewrite Nat.add_0_r, <-Hp, put_rect_mid by lia. obind.
  rewrite (imap_ext _ (λ k r, (S i + k, r)%nat)) by (intros k x _; unfold compose; by rewrite Nat.add_succ_r).
  unfold TPRESENT_LEN, TRECT_LEN in *.
  rewrite (IH (S i)) by (rewrite ?length_app, ?length_rect_bytes, ?length_drop; lia).
  rewrite fmap_cons, drop_drop. cbn [concat]. rewrite <-!app_assoc. do 5 f_equal. lia.
Qed.

Lemma descriptor_ok slot flags rects : zlen rects ≤ MAX_RECTS → descriptor slot flags rects = Done (Ok (wire slot flags rects)).
Proof.
  unfold MAX_RECTS. intros Hn. unfold descriptor, MAX_RECTS. rewrite (proj2 (Z.ltb_ge _ _)) by lia.
  change (Z.to_nat PRESENT_MAX) with 1024%nat.
  assert (length (replicate 1024 0) = 1024%nat) as Hl by apply length_replicate.
  generalize dependent (replicate 1024 0). intros zs Hz. change zs with ([] ++ zs).
  rewrite put32_mid by (cbn [length]; lia). obind.
  rewrite put32_mid by (rewrite ?length_app, ?length_drop, ?length_le_bytes; cbn [length]; lia). obind.
  rewrite put32_mid by (rewrite ?length_app, ?length_drop, ?length_le_bytes; cbn [length]; lia). obind.
  rewrite put32_mid by (rewrite ?length_app, ?length_drop, ?length_le_bytes; cbn [length]; lia). obind.
  rewrite put_rect_mid by (rewrite ?length_app, ?length_drop, ?length_le_bytes; cbn [length]; lia). obind.
  rewrite !drop_drop. fold (first_rect rects).
  assert (drop 1 (imap pair rects) = imap (λ k r, (1 + k, r)%nat) (tail rects)) as -> by (destruct rects; done).
  rewrite put_rects_mid.
  2:{ lia. }
  2:{ rewrite !length_app, !length_le_bytes, length_rect_bytes. done. }
  2:{ rewrite length_drop, length_tail. lia. }
  obind. do 2 f_equal. unfold wire, header. rewrite <-!app_assoc.
  set (h1 := le_bytes 4 TPRESENT_V1). set (h2 := le_bytes 4 slot). set (h3 := le_bytes 4 flags). set (h4 := le_bytes 4 _).
  set (rs := concat _). cbn [app]. rewrite !app_assoc. rewrite take_app_length'; [done|].
  unfold h1, h2, h3, h4, rs. rewrite !length_app, !length_le_bytes, length_rect_bytes, length_rects, length_tail.
  unfold TPRESENT_LEN, TRECT_LEN. destruct (Z.leb_spec (zlen rects) 1); lia.
Qed.
(** ** Decoding it *)

Definition tuple (r : Rect) : srect := (rx r, ry r, rw r, rh r).
(** The damage of a present: no rectangle means the whole surface. *)
Definition damage (w h : Z) (rects : list Rect) : list srect :=
  match rects with [] => [(0, 0, w, h)] | _ => tuple <$> rects end.

Lemma read_rect_mid pre post o r : o = zlen pre → rect_words r → zlen (pre ++ rect_bytes r ++ post) ≤ u_max 64 →
  read_rect (pre ++ rect_bytes r ++ post) o = Done (tuple r).
Proof.
  intros -> (H1 & H2 & H3 & H4) Hl. unfold read_rect, rect_bytes in *. rewrite <-!app_assoc in *.
  rewrite (get_le_mid _ _ 4 (zlen pre)) by done. obind.
  rewrite (app_assoc pre) in *. rewrite (get_le_mid _ _ 4 (zlen pre + 4)) by (done || rewrite ?length_app, ?length_le_bytes; lia). obind.
  rewrite (app_assoc (pre ++ _)) in *. rewrite (get_le_mid _ _ 4 (zlen pre + 8)) by (done || rewrite ?length_app, ?length_le_bytes; lia). obind.
  rewrite (app_assoc ((pre ++ _) ++ _)) in *. by rewrite (get_le_mid _ _ 4 (zlen pre + 12)) by (done || rewrite ?length_app, ?length_le_bytes; lia).
Qed.

Definition rect_off (i : nat) : Z := if (i =? 0)%nat then 16 else TPRESENT_LEN + (Z.of_nat i - 1) * TRECT_LEN.
Lemma read_rects_mid rs (i : nat) pre post : (1 ≤ i)%nat → zlen pre = TPRESENT_LEN + (Z.of_nat i - 1) * TRECT_LEN →
  Forall rect_words rs → zlen (pre ++ concat (rect_bytes <$> rs) ++ post) ≤ u_max 64 →
  mapM_o (λ i, read_rect (pre ++ concat (rect_bytes <$> rs) ++ post) (rect_off i)) (seq i (length rs)) = Done (tuple <$> rs).
Proof.
  unfold TPRESENT_LEN, TRECT_LEN. revert i pre. induction rs as [|r rs IH]; intros i pre Hi Hp HF Hl; [done|].
  apply Forall_cons in HF as [Hr HF]. rewrite !fmap_cons in *. cbn [concat length seq mapM_o] in *. rewrite <-!app_assoc in *.
  assert (rect_off i = zlen pre) as ->.
  { unfold rect_off. by rewrite (proj2 (Nat.eqb_neq i 0)) by lia. }
  rewrite read_rect_mid by done. obind. rewrite (app_assoc pre) in *.
  rewrite IH; [done|lia|rewrite length_app, length_rect_bytes; lia|done|done].
Qed.

Lemma length_wire slot flags rects : zlen (wire slot flags rects) =
  if zlen rects <=? 1 then TPRESENT_LEN else TPRESENT_LEN + (zlen rects - 1) * TRECT_LEN.
Proof.
  unfold wire, TPRESENT_LEN, TRECT_LEN. rewrite !length_app, length_header, length_rect_bytes, length_rects, length_tail.
  destruct (Z.leb_spec (zlen rects) 1); lia.
Qed.

(** A rectangle that is not empty and ends within the surface; its corner and sides are
    unsigned. *)
Definition fits_surface (w h : Z) (r : srect) : Prop :=
  let '(x, y, pw, ph) := r in pw ≠ 0 ∧ ph ≠ 0 ∧ x + pw ≤ w ∧ y + ph ≤ h.
#[global] Instance fits_surface_dec w h r : Decision (fits_surface w h r).
Proof. destruct r as [[[x y] pw] ph]. apply _. Defined.
Lemma rect_ok_fits w h rs : forallb (rect_ok w h) rs = bool_decide (Forall (fits_surface w h) rs).
Proof.
  apply Bool.eq_iff_eq_true. rewrite forallb_forall, bool_decide_eq_true, Forall_forall. apply forall_proper. intros [[[x y] pw] ph]. rewrite list_elem_of_In.
  unfold rect_ok, fits_surface. split; intros H Hin; specialize (H Hin); lia.
Qed.
(** What the compositor makes of the descriptor, by its gates. *)
Definition gate (held : bool) (w h : Z) (state : SurfState) (slot flags : Z) (rects : list Rect) :
    result Z (Z * bool * list srect) :=
  if Z.odd flags && negb held then Err E_OPNOTSUPP
  else if bool_decide (state = Minted) || (WEAVE_SLOTS <=? slot) || negb (bool_decide (Forall (fits_surface w h) (damage w h rects))) then Err E_INVAL
  else Ok (slot, Z.odd flags, damage w h rects).

Lemma land_1 v : negb (Z.land v TPRESENT_HOLD =? 0) = Z.odd v.
Proof.
  unfold TPRESENT_HOLD. change 1 with (Z.ones 1). rewrite Z.land_ones by lia. change (2 ^ 1) with 2.
  rewrite Zmod_odd. by destruct (Z.odd v).
Qed.

Lemma parse_wire held w h state slot flags rects : in_u 32 slot → in_u 32 flags → zlen rects ≤ MAX_RECTS → Forall rect_words rects →
  present_parse held (Some (w, h, state)) (wire slot flags rects) = Done (gate held w h state slot flags rects).
Proof.
  unfold MAX_RECTS. intros Hs Hf Hn HF. unfold present_parse.
  pose proof (length_wire slot flags rects) as Hlen. unfold TPRESENT_LEN, TRECT_LEN in *.
  assert (32 ≤ zlen (wire slot flags rects) ≤ u_max 64) as [Hlo Hhi].
  { rewrite Hlen. unfold u_max. destruct (Z.leb_spec (zlen rects) 1); lia. }
  rewrite (proj2 (Z.ltb_ge _ _)) by lia.
  assert (get_le (wire slot flags rects) 4 0 = Done TPRESENT_V1 ∧ get_le (wire slot flags rects) 4 4 = Done slot ∧
    get_le (wire slot flags rects) 4 8 = Done flags ∧ get_le (wire slot flags rects) 4 12 = Done (zlen rects)) as (-> & -> & -> & ->).
  { unfold wire, header in *. generalize dependent (rect_bytes (first_rect rects) ++ concat (rect_bytes <$> tail rects)).
    intros post Hlen Hlo Hhi. rewrite <-!app_assoc in *. split_and!.
    - change (le_bytes 4 TPRESENT_V1 ++ ?x) with ([] ++ le_bytes 4 TPRESENT_V1 ++ x) in *. by apply get_le_mid.
    - by apply get_le_mid.
    - rewrite (app_assoc (le_bytes 4 TPRESENT_V1)) in *. by apply get_le_mid.
    - rewrite (app_assoc (le_bytes 4 TPRESENT_V1)), (app_assoc (le_bytes 4 TPRESENT_V1 ++ _)) in *.
      apply get_le_mid; [done|unfold in_u; lia|done]. }
  obind. rewrite Z.eqb_refl. cbn [negb]. rewrite land_1. unfold gate.
  destruct (Z.odd flags && negb held); [done|]. unfold TPRESENT_MAX_RECTS. rewrite (proj2 (Z.ltb_ge _ _)) by lia.
  rewrite Hlen, Z.eqb_refl. cbn [negb]. destruct (bool_decide (state = Minted)); [done|]. cbn [orb].
  destruct (WEAVE_SLOTS <=? slot); [done|]. cbn [orb].
  match goal with |- ?m ≫= _ = _ => enough (m = Done (damage w h rects)) as -> end.
  { obind. rewrite rect_ok_fits. by destruct (negb _). }
  change (λ i : nat, read_rect ?d (if (i =? 0)%nat then 16 else _)) with (λ i : nat, read_rect d (rect_off i)).
  destruct rects as [|r rs]; [done|]. rewrite (proj2 (Z.eqb_neq _ _)) by (cbn [length]; lia).
  rewrite Nat2Z.id. cbn [length seq mapM_o]. apply Forall_cons in HF as [Hr HF].
  unfold wire, first_rect in *. cbn [head default tail] in *. change (rect_off 0) with 16.
  rewrite read_rect_mid by (rewrite ?length_header; done). obind.
  rewrite (app_assoc (header _ _ _)), <-(app_nil_r (concat _)).
  rewrite read_rects_mid; [done|lia| |done|].
  - by rewrite length_app, length_header, length_rect_bytes.
  - rewrite app_nil_r, <-app_assoc. done.
Qed.

(** ** The cover test *)

(** A rectangle of the surface, and the pixels it holds. *)
Definition inside (w h : Z) (r : srect) : Prop :=
  let '(x, y, pw, ph) := r in 0 ≤ x ∧ 0 ≤ y ∧ 0 < pw ∧ 0 < ph ∧ x + pw ≤ w ∧ y + ph ≤ h.
Definition on (r : srect) (px py : Z) : Prop :=
  let '(x, y, pw, ph) := r in x ≤ px < x + pw ∧ y ≤ py < y + ph.
Definition covers (rects : list srect) (w h : Z) : Prop :=
  ∀ px py, 0 ≤ px < w → 0 ≤ py < h → ∃ r, r ∈ rects ∧ on r px py.

Lemma sweep_ok reach xs : StronglySorted (λ a b, pair_le a b = true) xs →
  match sweep reach xs with
  | Some r => reach ≤ r ∧ (∀ a b, (a, b) ∈ xs → b ≤ r) ∧ ∀ p, reach ≤ p < r → ∃ a b, (a, b) ∈ xs ∧ a ≤ p < b
  | None => ∃ p a b, (a, b) ∈ xs ∧ reach ≤ p < a ∧ ∀ a' b', (a', b') ∈ xs → ¬ (a' ≤ p < b')
  end.
Proof.
  revert reach. induction xs as [|[a b] xs IH]; intros reach Hs; cbn [sweep].
  { split; [lia|]. split; [intros a b H; by apply elem_of_nil in H|lia]. }
  apply StronglySorted_inv in Hs as [Hs Ha]. rewrite Forall_forall in Ha.
  assert (∀ a' b', (a', b') ∈ xs → a ≤ a') as Hle.
  { intros a' b' Hin. specialize (Ha _ Hin). unfold pair_le in Ha. cbn [fst snd] in Ha.
    destruct (Z.ltb_spec a a'); [lia|]. destruct (Z.eqb_spec a a'); [lia|done]. }
  destruct (Z.ltb_spec reach a) as [Hgap|Hok].
  - exists reach, a, b. split; [by left|]. split; [lia|]. intros a' b' [[= -> ->]|Hin]%elem_of_cons; [lia|].
    specialize (Hle _ _ Hin). lia.
  - specialize (IH (Z.max reach b) Hs). destruct (sweep _ xs) as [r|].
    + destruct IH as (H1 & H2 & H3). split; [lia|]. split.
      * intros a' b' [[= -> ->]|Hin]%elem_of_cons; [lia|by eapply H2].
      * intros p Hp. destruct (Z.lt_ge_cases p (Z.max reach b)) as [?|?].
        { exists a, b. split; [by left|lia]. }
        destruct (H3 p) as (a' & b' & ? & ?); [lia|]. exists a', b'. split; [by right|lia].
    + destruct IH as (p & a' & b' & Hin & Hp & Hno). exists p, a', b'. split; [by right|]. split; [lia|].
      intros a2 b2 [[= -> ->]|Hin2]%elem_of_cons; [lia|by eapply Hno].
Qed.

Lemma pair_le_total a b : pair_le a b = false → pair_le b a = true.
Proof. unfold pair_le. destruct (Z.ltb_spec a.1 b.1), (Z.eqb_spec a.1 b.1), (Z.leb_spec a.2 b.2),
  (Z.ltb_spec b.1 a.1), (Z.eqb_spec b.1 a.1), (Z.leb_spec b.2 a.2); cbn; lia || done. Qed.
Lemma pair_le_trans a b c : pair_le a b = true → pair_le b c = true → pair_le a c = true.
Proof.
  unfold pair_le. rewrite !orb_true_iff, !andb_true_iff, !Z.ltb_lt, !Z.eqb_eq, !Z.leb_le. lia.
Qed.

(** The rectangles that span a band, and the test as a function. *)
Definition spans_b (band : Z * Z) (r : srect) : bool := let '(_, y, _, ph) := r in (y <=? band.1) && (band.2 <=? y + ph).
Definition across (r : srect) : Z * Z := let '(x, _, pw, _) := r in (x, x + pw).
Definition band_b (rects : list srect) (w : Z) (band : Z * Z) : bool :=
  match sweep 0 (isort pair_le (across <$> List.filter (spans_b band) rects)) with None => false | Some reach => w <=? reach end.

Lemma band_covered_ok rects w h band : in_u 32 w → in_u 32 h → Forall (inside w h) rects →
  band_covered rects w band = Done (band_b rects w band).
Proof.
  unfold in_u. intros Hw Hh HF. rewrite Forall_forall in HF. unfold band_covered.
  rewrite (filterM_filter _ (spans_b band)).
  2:{ intros [[[x y] pw] ph] Hin%HF. cbn in Hin. unfold spans_b. destruct (y <=? band.1); [|done].
      rewrite uadd_ok by (unfold u_max; lia). done. }
  obind. rewrite (mapM_fmap _ across).
  2:{ intros [[[x y] pw] ph] Hin. apply list_elem_of_In, filter_In in Hin as [Hin%list_elem_of_In%HF _]. cbn in Hin.
      rewrite uadd_ok by (unfold u_max; lia). done. }
  obind. unfold band_b. destruct (sweep _ _) as [r|]; [|done]. f_equal.
  destruct (Z.ltb_spec r w), (Z.leb_spec w r); lia || done.
Qed.

Lemma band_b_ok rects w h band : Forall (inside w h) rects →
  band_b rects w band = true ↔ ∀ px, 0 ≤ px < w → ∃ r, r ∈ rects ∧ spans_b band r = true ∧ (across r).1 ≤ px < (across r).2.
Proof.
  intros HF. rewrite Forall_forall in HF. unfold band_b.
  set (xs := across <$> List.filter (spans_b band) rects).
  pose proof (sweep_ok 0 (isort pair_le xs) (isort_sorted _ pair_le_total pair_le_trans xs)) as Hs.
  assert (∀ a b, (a, b) ∈ isort pair_le xs ↔ ∃ r, (a, b) = across r ∧ r ∈ rects ∧ spans_b band r = true) as Hin.
  { intros a b. rewrite isort_perm. unfold xs. rewrite list_elem_of_fmap. setoid_rewrite list_elem_of_In at 1.
    setoid_rewrite filter_In. setoid_rewrite <-list_elem_of_In. done. }
  destruct (sweep 0 (isort pair_le xs)) as [r|].
  - destruct Hs as (Hr0 & Hmax & Hcov). split.
    + intros Hle%Z.leb_le px Hpx. destruct (Hcov px) as (a & b & (q & Hq & Hq1 & Hq2)%Hin & ?); [lia|].
      exists q. rewrite <-Hq. done.
    + intros Hall. apply Z.leb_le. destruct (Z.lt_ge_cases r w) as [Hlt|]; [|done].
      destruct (Hall r) as (q & Hq1 & Hq2 & Hq3); [lia|].
      assert ((across q).2 ≤ r); [|lia]. apply (Hmax (across q).1), Hin. exists q. by rewrite <-surjective_pairing.
  - split; [done|]. intros Hall. exfalso. destruct Hs as (p & a & b & (q & Hq & Hq1 & Hq2)%Hin & Hp & Hno).
    assert (a < w). { specialize (HF q Hq1). destruct q as [[[x y] pw] ph]. cbn in HF, Hq. injection Hq as -> ->. lia. }
    destruct (Hall p) as (q' & Hq1' & Hq2' & Hq3'); [lia|].
    apply (Hno (across q').1 (across q').2); [|done]. apply Hin. exists q'. by rewrite <-surjective_pairing.
Qed.

(** The bands: between adjacent edges, none of them empty. *)
Lemma dedup_cons a b l : dedup (a :: b :: l) = if a =? b then dedup (b :: l) else a :: dedup (b :: l).
Proof. done. Qed.
Lemma elem_of_dedup l x : x ∈ dedup l ↔ x ∈ l.
Proof.
  induction l as [|a [|b l] IH]; [done..|]. rewrite dedup_cons. destruct (Z.eqb_spec a b) as [<-|Hne].
  - rewrite IH, !elem_of_cons. tauto.
  - rewrite (elem_of_cons _ x a), IH, (elem_of_cons _ x a). done.
Qed.
Lemma dedup_sorted l : StronglySorted (λ a b, (a <=? b) = true) l → StronglySorted Z.lt (dedup l).
Proof.
  induction l as [|a [|b l] IH]; intros Hs; [constructor|repeat constructor|].
  apply StronglySorted_inv in Hs as [Hs Ha]. rewrite dedup_cons. destruct (Z.eqb_spec a b) as [<-|Hne]; [by apply IH|].
  constructor; [by apply IH|]. apply Forall_forall. intros x Hx. rewrite elem_of_dedup in Hx.
  apply Forall_cons in Ha as [Hab Ha]. apply Z.leb_le in Hab. apply StronglySorted_inv in Hs as [_ Hb].
  apply elem_of_cons in Hx as [->|Hx]; [lia|]. rewrite Forall_forall in Hb. apply Hb, Z.leb_le in Hx. lia.
Qed.
Lemma windows_ok l lo hi : StronglySorted Z.lt l → (lo, hi) ∈ windows2 l →
  lo < hi ∧ lo ∈ l ∧ hi ∈ l ∧ ∀ y, y ∈ l → y ≤ lo ∨ hi ≤ y.
Proof.
  unfold windows2. induction l as [|a [|b l] IH]; intros Hs; cbn [tail zip zip_with]; [by intros ?%elem_of_nil..|].
  apply StronglySorted_inv in Hs as [Hs Ha]. apply Forall_cons in Ha as [Hab Ha]. rewrite elem_of_cons. intros [[= -> ->]|Hin].
  - split; [done|]. split; [by left|]. split; [right; by left|]. intros y [->|[->|Hy]%elem_of_cons]%elem_of_cons; [lia..|].
    apply StronglySorted_inv in Hs as [_ Hb]. rewrite Forall_forall in Hb. specialize (Hb _ Hy). lia.
  - destruct (IH Hs Hin) as (H1 & H2 & H3 & H4). split; [done|]. split; [by right|]. split; [by right|].
    intros y [->|Hy]%elem_of_cons; [|by apply H4]. left.
    apply elem_of_cons in H2 as [->|H2]; [lia|]. rewrite Forall_forall in Ha. specialize (Ha _ H2). lia.
Qed.
Lemma windows_find l p : StronglySorted Z.lt l → (∃ a, a ∈ l ∧ a ≤ p) → (∃ b, b ∈ l ∧ p < b) →
  ∃ lo hi, (lo, hi) ∈ windows2 l ∧ lo ≤ p < hi.
Proof.
  unfold windows2. induction l as [|a [|b l] IH]; intros Hs (x & Hx & Hxp) (y & Hy & Hyp).
  - by apply elem_of_nil in Hx.
  - apply list_elem_of_singleton in Hx, Hy. lia.
  - cbn [tail zip zip_with]. apply StronglySorted_inv in Hs as [Hs Ha]. rewrite Forall_forall in Ha.
    destruct (Z.lt_ge_cases p b) as [Hpb|Hpb].
    + exists a, b. split; [by left|]. split; [|done]. apply elem_of_cons in Hx as [->|Hx]; [done|]. specialize (Ha _ Hx). lia.
    + destruct IH as (lo & hi & Hin & ?); [done|exists b; split; [by left|done]| |exists lo, hi; split; [by right|done]].
      exists y. split; [|done]. apply elem_of_cons in Hy as [->|Hy]; [|done]. specialize (Ha b ltac:(by left)). lia.
Qed.

Lemma cover_ok rects w h : in_u 32 w → in_u 32 h → Forall (inside w h) rects →
  ∃ b, rects_cover_full rects w h = Done b ∧ (b = true ↔ covers rects w h).
Proof.
  intros Hw Hh HF. unfold rects_cover_full. pose proof HF as HF'. rewrite Forall_forall in HF'. unfold in_u in Hw, Hh.
  match goal with |- context [existsb ?g rects] => destruct (existsb g rects) eqn:Hfast end.
  { exists true. split; [done|]. split; [|done]. intros _ px py Hpx Hpy. apply existsb_exists in Hfast as ([[[x y] pw] ph] & Hin & Hr).
    exists (x, y, pw, ph). split; [by apply list_elem_of_In|]. cbn. lia. }
  rewrite (mapM_fmap _ (λ r : srect, [r.1.1.2; r.1.1.2 + r.2])).
  2:{ intros [[[x y] pw] ph] Hin%HF'. cbn in Hin. rewrite uadd_ok by (unfold u_max; lia). done. }
  obind. set (ys := dedup (isort Z.leb (0 :: h :: concat _))).
  assert (StronglySorted Z.lt ys) as Hys by (apply dedup_sorted, isort_sorted; lia).
  assert (∀ y, y ∈ ys ↔ y = 0 ∨ y = h ∨ ∃ r : srect, r ∈ rects ∧ (y = r.1.1.2 ∨ y = r.1.1.2 + r.2)) as Hin.
  { intros y. unfold ys. rewrite elem_of_dedup, isort_perm, !elem_of_cons. do 2 f_equiv.
    rewrite list_elem_of_In, in_concat. setoid_rewrite <-list_elem_of_In.
    setoid_rewrite list_elem_of_fmap. split.
    - intros (l & (r & -> & Hr) & Hy). exists r. split; [done|]. by rewrite !elem_of_cons, elem_of_nil in Hy; intuition.
    - intros (r & Hr & Hy). eexists. split; [exists r; by split|]. rewrite !elem_of_cons. tauto. }
  rewrite (allM_forallb _ (band_b rects w)) by (intros; by eapply band_covered_ok).
  eexists. split; [done|]. rewrite forallb_forall. setoid_rewrite <-list_elem_of_In. split.
  - intros Hall px py Hpx Hpy. destruct (windows_find ys py Hys) as (lo & hi & Hwin & Hlh).
    { exists 0. split; [apply Hin; by left|lia]. }
    { exists h. split; [apply Hin; by right; left|lia]. }
    apply Hall in Hwin. apply (proj1 (band_b_ok rects w h _ HF)) with (px := px) in Hwin; [|done]. destruct Hwin as ([[[x y] pw] ph] & Hr & Hsp & Hac).
    exists (x, y, pw, ph). split; [done|]. cbn in *. lia.
  - intros Hcov [lo hi] Hwin. apply (band_b_ok rects w h _ HF). intros px Hpx.
    destruct (windows_ok ys lo hi Hys Hwin) as (Hlt & Hlo & Hhi & Hgap).
    assert (0 ≤ lo ∧ hi ≤ h).
    { assert (∀ y, y ∈ ys → 0 ≤ y ≤ h) as Hb; [|split; [by apply Hb|by apply Hb]].
      intros y [->|[->|([[[x' y'] pw'] ph'] & Hr & Hy)]]%Hin; [lia..|]. apply HF' in Hr. cbn in Hr, Hy. lia. }
    destruct (Hcov px lo Hpx) as ([[[x y] pw] ph] & Hr & Hon); [lia|]. exists (x, y, pw, ph). split; [done|].
    destruct (Hgap (y + ph)) as [?|?].
    { apply Hin. right. right. exists (x, y, pw, ph). split; [done|]. by right. }
    + cbn in *. lia.
    + cbn in *. lia.
Qed.

(** ** Whatever arrives *)

Lemma get_le_any d n o : bytes_ok d → 0 ≤ o → o + Z.of_nat n ≤ zlen d → zlen d ≤ u_max 64 →
  ∃ v, get_le d n o = Done v ∧ in_u (8 * Z.of_nat n) v.
Proof.
  intros Hb Ho Hn Hd. rewrite get_le_ok by done. eexists. split; [done|].
  assert (length (bytes_at d n o) = n) as Hl by (unfold bytes_at; rewrite length_take, length_drop; lia).
  rewrite <-Hl at 1. apply le_val_bound. unfold bytes_at. by apply Forall_take, Forall_drop.
Qed.
Definition nonneg (r : srect) : Prop := let '(x, y, pw, ph) := r in 0 ≤ x ∧ 0 ≤ y ∧ 0 ≤ pw ∧ 0 ≤ ph.
Lemma read_rect_any d o : bytes_ok d → 0 ≤ o → o + 16 ≤ zlen d → zlen d ≤ u_max 64 →
  ∃ r, read_rect d o = Done r ∧ nonneg r.
Proof.
  intros Hb Ho Hn Hd. unfold read_rect.
  destruct (get_le_any d 4 o) as (x & -> & Hx); [done|lia..|]. obind.
  destruct (get_le_any d 4 (o + 4)) as (y & -> & Hy); [done|lia..|]. obind.
  destruct (get_le_any d 4 (o + 8)) as (pw & -> & Hpw); [done|lia..|]. obind.
  destruct (get_le_any d 4 (o + 12)) as (ph & -> & Hph); [done|lia..|]. obind.
  eexists. split; [done|]. unfold in_u in *. cbn. lia.
Qed.

Lemma rect_ok_inside w h x y pw ph : 0 ≤ x → 0 ≤ y → 0 ≤ pw → 0 ≤ ph →
  rect_ok w h (x, y, pw, ph) = true → inside w h (x, y, pw, ph).
Proof. intros. cbn in *. lia. Qed.

Lemma parse_any held surf data : bytes_ok data → zlen data ≤ u_max 64 →
  (∀ w h st, surf = Some (w, h, st) → in_u 32 w ∧ in_u 32 h) →
  (∃ e, present_parse held surf data = Done (Err e)) ∨
  ∃ slot hold rects w h st, present_parse held surf data = Done (Ok (slot, hold, rects)) ∧ surf = Some (w, h, st) ∧
    st ≠ Minted ∧ 0 ≤ slot < WEAVE_SLOTS ∧ (hold = true → held = true) ∧ rects ≠ [] ∧ Forall (inside w h) rects.
Proof.
  intros Hb Hd Hsurf. unfold present_parse. unfold TPRESENT_LEN. destruct (Z.ltb_spec (zlen data) 32) as [|Hl]; [by left; eexists|].
  destruct (get_le_any data 4 0) as (ver & -> & _); [done|lia..|]. obind.
  destruct (get_le_any data 4 4) as (slot & -> & Hslot); [done|lia..|]. obind.
  destruct (get_le_any data 4 8) as (flags & -> & _); [done|lia..|]. obind.
  destruct (get_le_any data 4 12) as (count & -> & Hcount); [done|lia..|]. obind. unfold in_u in *.
  destruct (negb (ver =? TPRESENT_V1)); [by left; eexists|].
  set (hold := negb (Z.land flags TPRESENT_HOLD =? 0)). destruct (hold && negb held) eqn:Hhold; [by left; eexists|].
  destruct (Z.ltb_spec TPRESENT_MAX_RECTS count) as [|Hmax]; [by left; eexists|].
  destruct (Z.eqb_spec (zlen data) (if count <=? 1 then 32 else 32 + (count - 1) * TRECT_LEN)) as [Hlen|]; [|by left; eexists].
  cbn [negb]. destruct surf as [[[w h] st]|]; [|by left; eexists]. destruct (Hsurf w h st eq_refl) as [Hw Hh].
  case_bool_decide as Hst; [by left; eexists|]. destruct (Z.leb_spec WEAVE_SLOTS slot) as [|Hsl]; [by left; eexists|].
  match goal with |- context [?m ≫= _] => assert (∃ rects : list srect, m = Done rects ∧ rects ≠ [] ∧
    Forall nonneg rects) as (rects & -> & Hne & HF) end.
  { destruct (Z.eqb_spec count 0) as [|Hc]; [eexists; split; [done|]; split; [done|]; repeat constructor; lia|].
    unfold TRECT_LEN in *. rewrite Hlen in Hl. match goal with |- ∃ _, mapM_o ?f ?l = _ ∧ _ => destruct (mapM_Forall nonneg f l) as (rects & -> & Hlr & HF) end.
    - intros i Hi%elem_of_seq. apply read_rect_any; [done| | |done];
        destruct (Nat.eqb_spec i 0), (Z.leb_spec count 1); lia.
    - exists rects. split; [done|]. split; [|done]. intros ->. rewrite length_seq in Hlr. cbn in Hlr. lia. }
  obind. destruct (forallb (rect_ok w h) rects) eqn:Hok; cbn [negb]; [|by left; eexists].
  right. exists slot, hold, rects, w, h, st. split_and!; try done.
  - lia.
  - intros Hh'. rewrite Hh' in Hhold. by destruct held.
  - rewrite Forall_forall in *. intros [[[x y] pw] ph] Hin. specialize (HF _ Hin). cbn in HF.
    apply rect_ok_inside; [lia..|]. rewrite forallb_forall in Hok. by apply Hok, list_elem_of_In.
Qed.

End PresentProofs.
