(* ===== verification/PresentClaims.v ===== *)
(** * What a present promises

    The descriptor across the wire, the compositor's gates on any bytes, the
    buffer age of a rotating client and the latch of a patchwork one. *)

From S2P Require Import Prelude Ring Present PresentProofs.
Import Ring(TapError, Event, mkEvent, ev_kind, ev_value, ev_code).
Import Present PresentProofs.
Open Scope Z_scope.

Module PresentClaims.

(** ** The client's slots *)

(** How many presents ago slot [j] was last presented, the latest being 0. *)
Definition ago (j : Z) (hist : list Z) : option nat := position (Z.eqb j) (reverse hist).

Lemma ago_snoc j c hist : ago j (hist ++ [c]) = if j =? c then Some 0%nat else S <$> ago j hist.
Proof. unfold ago. by rewrite reverse_snoc. Qed.

(** The slots presented so far, after a configure event answered [r]: the redraw
    request and the resize invalidate every slot. *)
Definition after_configure (ev : Event) (r : result TapError bool) (hist : list Z) : list Z :=
  match r with
  | Ok true => []
  | Ok false => if ev_kind ev =? TEV_CONFIGURE then [] else hist
  | Err _ => hist
  end.

(** A surface and the slots presented since its slots were last invalidated, oldest first. *)
Inductive client_step : Surface * list Z → Surface * list Z → Prop :=
  | cs_present flags rects written s hist s' d r :
      submit_present flags rects written s = Done (s', d, r) →
      client_step (s, hist) (s', match r with Ok _ => hist ++ [cur_slot s] | Err _ => hist end)
  | cs_configure ack weave mapped ev s hist s' r :
      handle_configure ack weave mapped ev s = Done (s', r) →
      client_step (s, hist) (s', after_configure ev r hist)
  | cs_invalidate s hist : client_step (s, hist) (invalidate s, [])
  | cs_single on s hist : client_step (s, hist) (set_single_slot on s, hist).

Record surf_ok (s : Surface) (hist : list Z) : Prop := mkSurfOk {
  so_nslots : 1 ≤ nslots s ≤ 8;
  so_cur : 0 ≤ cur_slot s < nslots s;
  so_len : length (slot_seen s) = MAX_SLOTS;
  so_presents : presents s = zlen hist;
  so_max : zlen hist ≤ u_max 64;
  so_seen j : 0 ≤ j < 8 → slot_seen s !! Z.to_nat j =
    Some (match ago j hist with None => SLOT_UNSEEN | Some p => zlen hist - 1 - Z.of_nat p end) }.

Lemma unseen j : 0 ≤ j < 8 → replicate MAX_SLOTS SLOT_UNSEEN !! Z.to_nat j = Some SLOT_UNSEEN.
Proof. intros Hj. apply lookup_replicate_2. unfold MAX_SLOTS. lia. Qed.

Lemma surf_fresh s hist w h cur : surf_ok s hist → 0 ≤ cur < nslots s →
  surf_ok (invalidate_slots (mkSurface w h (nslots s) cur (presents s) (slot_seen s) (single_slot s))) [].
Proof. intros [H1 _ _ _ _ _] Hc. split; [done..|]. cbn [slot_seen invalidate_slots]. intros j Hj. by rewrite unseen. Qed.
Lemma surf_stale s hist : surf_ok s hist → surf_ok (invalidate_slots s) [].
Proof. intros Hok. exact (surf_fresh s hist (sf_w s) (sf_h s) (cur_slot s) Hok (so_cur _ _ Hok)). Qed.
Lemma surf_opened w h n : 1 ≤ n ≤ 8 → surf_ok (opened w h n) [].
Proof.
  intros Hn. split; cbn [nslots cur_slot presents slot_seen opened]; [done|lia|done..|].
  intros j Hj. by rewrite unseen.
Qed.

(** The present that rotates. *)
Definition next_slot (s : Surface) : Z := if single_slot s then cur_slot s else (cur_slot s + 1) mod nslots s.
Definition presented (s : Surface) : Surface :=
  mkSurface (sf_w s) (sf_h s) (nslots s) (next_slot s) (presents s + 1) (<[Z.to_nat (cur_slot s) := presents s]> (slot_seen s)) (single_slot s).

Lemma submit_ok flags rects s hist : surf_ok s hist → zlen rects ≤ MAX_RECTS → zlen hist < u_max 64 →
  submit_present flags rects true s = Done (presented s, Some (wire (cur_slot s) flags rects), Ok tt).
Proof.
  intros [H1 H2 H3 H4 H5 H6] Hn Hmax. unfold submit_present. rewrite descriptor_ok by done. cbn [mbind outcome_bind negb].
  unfold set_idx. rewrite H3. unfold MAX_SLOTS. rewrite (proj2 (Z.leb_le _ _)), (proj2 (Z.ltb_lt _ _)) by lia. cbn [andb mbind outcome_bind].
  rewrite (uadd_ok 64) by lia. obind. unfold presented, next_slot. destruct (single_slot s) eqn:Hs; [by cbn|].
  rewrite (uadd_ok 32) by (unfold u_max; lia). obind. rewrite (proj2 (Z.eqb_neq _ _)) by lia. done.
Qed.

Lemma presented_ok s hist : surf_ok s hist → zlen hist < u_max 64 → surf_ok (presented s) (hist ++ [cur_slot s]).
Proof.
  intros [H1 H2 H3 H4 H5 H6] Hmax. split; unfold presented; cbn [nslots cur_slot presents slot_seen].
  - done.
  - unfold next_slot. destruct (single_slot s); [done|]. apply Z.mod_pos_bound. lia.
  - by rewrite length_insert.
  - rewrite length_app. cbn [length]. lia.
  - rewrite length_app. cbn [length]. lia.
  - intros j Hj. rewrite ago_snoc, length_app. cbn [length]. destruct (Z.eqb_spec j (cur_slot s)) as [->|Hne].
    + rewrite list_lookup_insert_eq by (rewrite H3; unfold MAX_SLOTS; lia). f_equal. lia.
    + rewrite list_lookup_insert_ne by lia. rewrite H6 by done. f_equal. destruct (ago j hist); cbn; lia.
Qed.

Lemma submit_inv flags rects written s hist s' d r : surf_ok s hist → submit_present flags rects written s = Done (s', d, r) →
  (s' = s ∧ ∃ e, r = Err e) ∨ (s' = presented s ∧ r = Ok tt ∧ zlen hist < u_max 64).
Proof.
  intros Hok He. destruct (Z.le_gt_cases (zlen rects) MAX_RECTS) as [Hn|Hn].
  2:{ left. unfold submit_present, descriptor in He. rewrite (proj2 (Z.ltb_lt _ _)) in He by done. injection He as <- _ <-. eauto. }
  destruct written.
  2:{ left. unfold submit_present in He. rewrite descriptor_ok in He by done. injection He as <- _ <-. eauto. }
  destruct (Z.lt_ge_cases (zlen hist) (u_max 64)) as [Hlt|Hge].
  - right. rewrite (submit_ok flags rects s hist Hok Hn Hlt) in He. injection He as <- _ <-. done.
  - exfalso. destruct Hok as [H1 H2 H3 H4 H5 H6]. unfold submit_present in He. rewrite descriptor_ok in He by done.
    cbn [mbind outcome_bind negb] in He. destruct (set_idx _ _ _); obind in He; [|done..].
    rewrite (uadd_panic 64) in He by lia. done.
Qed.

Lemma configure_inv ack weave mapped ev s hist s' r : surf_ok s hist → handle_configure ack weave mapped ev s = Done (s', r) →
  (s' = s ∧ after_configure ev r hist = hist) ∨
  (surf_ok s' [] ∧ after_configure ev r hist = [] ∧ single_slot s' = single_slot s).
Proof.
  intros Hok. unfold handle_configure, after_configure. destruct (ev_kind ev =? TEV_CONFIGURE); cbn [negb].
  2:{ intros [= <- <-]. by left. }
  destruct (_ && _).
  { intros [= <- <-]. right. split; [by eapply surf_stale|done]. }
  unfold reweave. destruct (ack <? 0); [intros [= <- <-]; by left|].
  destruct weave as [[[[gw gh] stride] n]|e]; [|intros [= <- <-]; by left].
  destruct (_ || _); [intros [= <- <-]; by left|].
  destruct (umul 32 _ 4); obind; [|done..].
  destruct (_ || _); [intros [= <- <-]; by left|]. destruct (negb mapped); intros [= <- <-]; [by left|].
  right. split; [|done]. eapply (surf_fresh _ hist); [done|]. destruct Hok. lia.
Qed.

Lemma client_ok st st' : client_step st st' → surf_ok st.1 st.2 → surf_ok st'.1 st'.2.
Proof.
  destruct 1 as [flags rects written s hist s' d r He|ack weave mapped ev s hist s' r He|s hist|on s hist]; cbn [fst snd]; intros Hok.
  - destruct (submit_inv _ _ _ _ _ _ _ _ Hok He) as [(-> & e & ->)|(-> & -> & Hlt)]; [done|by apply presented_ok].
  - destruct (configure_inv _ _ _ _ _ _ _ _ Hok He) as [[-> ->]|(? & -> & _)]; done.
  - by eapply surf_stale.
  - destruct Hok. by split.
Qed.

Lemma age_ok s hist : surf_ok s hist →
  age s = Done (match ago (cur_slot s) hist with None => 0 | Some p => Z.min (Z.of_nat p + 1) (u_max 32) end).
Proof.
  intros [H1 H2 H3 H4 H5 H6]. unfold age, idx. rewrite (proj2 (Z.leb_le _ _)) by lia. rewrite H6 by lia.
  cbn [unwrap mbind outcome_bind]. destruct (ago (cur_slot s) hist) as [p|] eqn:Hp; [|by rewrite Z.eqb_refl].
  apply position_Some in Hp as (x & Hx%lookup_lt_Some & _). rewrite length_reverse in Hx.
  unfold SLOT_UNSEEN. rewrite (proj2 (Z.eqb_neq _ _)) by (unfold u_max in *; lia).
  rewrite usub_ok by lia. obind. do 2 f_equal. lia.
Qed.

(** ** Rotation *)

(** Back from the current slot, the slots presented count down. *)
Definition rotated (s : Surface) (hist : list Z) : Prop :=
  single_slot s = false ∧ ∀ k x, reverse hist !! k = Some x → x = (cur_slot s - 1 - Z.of_nat k) mod nslots s.

Lemma rotated_nil s : single_slot s = false → rotated s [].
Proof. intros H. split; [done|]. intros k x Hk. by rewrite reverse_nil, lookup_nil in Hk. Qed.

Lemma next_back cur n k : ((cur + 1) mod n - 1 - k) mod n = (cur - k) mod n.
Proof. rewrite <-Z.sub_add_distr, Zminus_mod_idemp_l. f_equal. lia. Qed.
Lemma rotated_next s hist : surf_ok s hist → rotated s hist → rotated (presented s) (hist ++ [cur_slot s]).
Proof.
  intros Hok [Hs Hr]. split; [done|]. destruct (so_nslots _ _ Hok), (so_cur _ _ Hok). unfold presented, next_slot. rewrite Hs.
  cbn [cur_slot nslots]. intros k x. rewrite reverse_snoc, next_back. destruct k as [|k]; cbn [lookup list_lookup].
  - intros [= <-]. rewrite Z.mod_small by lia. lia.
  - intros ->%Hr. f_equal. lia.
Qed.

Lemma rotated_step st st' : client_step st st' → single_slot st'.1 = false → surf_ok st.1 st.2 → rotated st.1 st.2 → rotated st'.1 st'.2.
Proof.
  destruct 1 as [flags rects written s hist s' d r He|ack weave mapped ev s hist s' r He|s hist|on s hist]; cbn [fst snd]; intros Hsn Hok Hr.
  - destruct (submit_inv _ _ _ _ _ _ _ _ Hok He) as [(-> & e & ->)|(-> & -> & Hlt)]; [done|by apply rotated_next].
  - destruct (configure_inv _ _ _ _ _ _ _ _ Hok He) as [[-> ->]|(? & -> & _)]; [done|by apply rotated_nil].
  - by apply rotated_nil.
  - destruct Hr as [_ Hr]. by split.
Qed.

Lemma back_ne cur n k : 0 ≤ cur < n → 0 ≤ k → (cur - 1 - k) mod n = cur → n ≤ k + 1.
Proof.
  intros Hc Hk He. destruct (Z.lt_ge_cases (k + 1) n) as [Hlt|]; [|lia]. exfalso.
  destruct (Z.lt_ge_cases cur (k + 1)).
  - rewrite <-(Z_mod_plus_full _ 1) in He. rewrite Z.mod_small in He by lia. lia.
  - rewrite Z.mod_small in He by lia. lia.
Qed.

Lemma rotated_ago s hist : surf_ok s hist → rotated s hist →
  ago (cur_slot s) hist = if zlen hist <? nslots s then None else Some (Z.to_nat (nslots s - 1)).
Proof.
  intros Hok [_ Hr]. pose proof (so_nslots _ _ Hok). pose proof (so_cur _ _ Hok) as Hc. unfold ago.
  assert (∀ k x, reverse hist !! k = Some x → (cur_slot s =? x) = true → nslots s ≤ Z.of_nat k + 1) as Hback.
  { intros k x Hk Hx%Z.eqb_eq. apply Hr in Hk. apply (back_ne (cur_slot s)); [done|lia|congruence]. }
  destruct (Z.ltb_spec (zlen hist) (nslots s)) as [Hlt|Hge].
  - destruct (position _ _) as [p|] eqn:Hp; [|done]. apply position_Some in Hp as (x & Hx & He).
    pose proof (Hback _ _ Hx He). apply lookup_lt_Some in Hx. rewrite length_reverse in Hx. lia.
  - destruct (lookup_lt_is_Some_2 (reverse hist) (Z.to_nat (nslots s - 1))) as [x Hx]; [rewrite length_reverse; lia|].
    eapply position_first; [exact Hx| |].
    + apply Hr in Hx as ->. apply Z.eqb_eq. rewrite <-(Z_mod_plus_full _ 1), Z.mod_small; lia.
    + intros j y Hj Hy. destruct (cur_slot s =? y) eqn:He; [|done]. pose proof (Hback _ _ Hy He). lia.
Qed.

Lemma reach_surf w h n s hist : 1 ≤ n ≤ 8 → rtc client_step (opened w h n, []) (s, hist) → surf_ok s hist.
Proof.
  intros Hn H. apply (rtc_keeps client_step (λ st, surf_ok st.1 st.2) (opened w h n, []) (s, hist)); [apply client_ok|by apply surf_opened|done].
Qed.

(** Steps that leave the surface rotating. *)
Definition rotating_step (st st' : Surface * list Z) : Prop := client_step st st' ∧ single_slot st'.1 = false.
Lemma reach_rotated w h n s hist : 1 ≤ n ≤ 8 → rtc rotating_step (opened w h n, []) (s, hist) → surf_ok s hist ∧ rotated s hist.
Proof.
  intros Hn H. apply (rtc_keeps rotating_step (λ st, surf_ok st.1 st.2 ∧ rotated st.1 st.2) (opened w h n, []) (s, hist)); [| |done].
  - intros x y [Hs Hf] []. split; [by eapply client_ok|by eapply rotated_step].
  - split; [by apply surf_opened|by apply rotated_nil].
Qed.

(** ** The patchwork latch *)

(** The surface's latch over a run of presents: the slot and whether the damage covered it. *)
Definition latches (l : list (Z * bool)) : outcome (Z * bool * bool) :=
  foldM (λ st p, latch st.1.1 st.1.2 p.2 p.1) (0, false, false) l.
(** Two slots of the run differ. *)
Definition rotates (l : list (Z * bool)) : Prop := ∃ a b, a ∈ fst <$> l ∧ b ∈ fst <$> l ∧ a ≠ b.

Definition mask_of (sp : Z) (l : list (Z * bool)) : Prop :=
  0 ≤ sp < 8 ∧ ∀ k, 0 ≤ k < 3 → Z.testbit sp k = true ↔ k ∈ fst <$> l.

Lemma mask_cases sp : 0 ≤ sp < 8 → sp = 0 ∨ sp = 1 ∨ sp = 2 ∨ sp = 3 ∨ sp = 4 ∨ sp = 5 ∨ sp = 6 ∨ sp = 7.
Proof. lia. Qed.
Lemma two_bits sp : 0 < sp < 8 → Z.land sp (sp - 1) ≠ 0 ↔
  ∃ a b, 0 ≤ a < 3 ∧ 0 ≤ b < 3 ∧ a ≠ b ∧ Z.testbit sp a = true ∧ Z.testbit sp b = true.
Proof.
  intros Hsp. split.
  - intros Hl. destruct (mask_cases sp) as [->|[->|[->|[->|[->|[->|[->| ->]]]]]]]; try lia; try done.
    + exists 0, 1. split_and!; done.
    + exists 0, 2. split_and!; done.
    + exists 1, 2. split_and!; done.
    + exists 0, 1. split_and!; done.
  - intros (a & b & Ha & Hb & Hne & H1 & H2).
    assert (a = 0 ∨ a = 1 ∨ a = 2) as Ha' by lia. assert (b = 0 ∨ b = 1 ∨ b = 2) as Hb' by lia.
    destruct (mask_cases sp) as [->|[->|[->|[->|[->|[->|[->| ->]]]]]]]; [lia|..];
      destruct Ha' as [->|[->| ->]], Hb' as [->|[->| ->]]; done.
Qed.

Lemma mask_add sp l slot c : mask_of sp l → 0 ≤ slot < 3 → mask_of (Z.lor sp (ushl 32 1 slot)) (l ++ [(slot, c)]).
Proof.
  intros [Hsp Hb] Hs. assert (ushl 32 1 slot = 2 ^ slot) as ->.
  { unfold ushl. rewrite Z.shiftl_1_l, as_u_small; [done|]. unfold in_u. split; [by apply Z.pow_nonneg|]. apply Z.pow_lt_mono_r; lia. }
  split.
  - assert (slot = 0 ∨ slot = 1 ∨ slot = 2) as [->|[->| ->]] by lia;
      destruct (mask_cases sp Hsp) as [->|[->|[->|[->|[->|[->|[->| ->]]]]]]]; done.
  - intros k Hk. rewrite Z.lor_spec, orb_true_iff, Hb, fmap_app, elem_of_app by done. f_equiv.
    change (fst <$> [(slot, c)]) with [slot]. rewrite list_elem_of_singleton, Z.pow2_bits_eqb, Z.eqb_eq by lia. intuition.
Qed.

Lemma mask_rotates sp l : mask_of sp l → Forall (λ p, 0 ≤ p.1 < 3) l → 0 < sp → Z.land sp (sp - 1) ≠ 0 ↔ rotates l.
Proof.
  intros [Hsp Hb] HF Hpos. rewrite two_bits by lia. unfold rotates. rewrite Forall_forall in HF. split.
  - intros (a & b & Ha & Hb' & Hne & H1%Hb & H2%Hb); [|done..]. eauto 6.
  - intros (a & b & H1 & H2 & Hne). assert (0 ≤ a < 3 ∧ 0 ≤ b < 3) as [Ha Hb'].
    { apply list_elem_of_fmap in H1 as (x & -> & Hx), H2 as (y & -> & Hy). split; by apply HF. }
    exists a, b. rewrite !Hb by done. done.
Qed.

Lemma mask_pos sp l slot c : mask_of sp (l ++ [(slot, c)]) → 0 ≤ slot < 3 → 0 < sp.
Proof.
  intros [Hsp Hb] Hs. destruct (Z.eq_dec sp 0) as [->|]; [|lia].
  assert (Z.testbit 0 slot = true) as H; [|by rewrite Z.testbit_0_l in H].
  apply Hb; [done|]. rewrite fmap_app. apply elem_of_app. right. by left.
Qed.

Lemma latches_ok l : Forall (λ p, 0 ≤ p.1 < 3) l →
  ∃ sp pw now, latches l = Done (sp, pw, now) ∧ mask_of sp l ∧
    (pw = true ↔ ∃ l1 slot l2, l = l1 ++ (slot, false) :: l2 ∧ rotates (l1 ++ [(slot, false)])).
Proof.
  unfold latches. induction l as [|[slot c] l IH] using rev_ind; intros HF.
  { exists 0, false, false. split; [done|]. split.
    - split; [done|]. intros k Hk. rewrite Z.testbit_0_l, elem_of_nil. done.
    - split; [done|]. intros (l1 & slot & l2 & H & _). by destruct l1. }
  apply Forall_app in HF as [HF Hc]. rewrite Forall_singleton in Hc. cbn [fst] in Hc.
  destruct (IH HF) as (sp & pw & now & He & Hm & Hpw). rewrite foldM_app, He. cbn [mbind outcome_bind foldM fst snd].
  pose proof (mask_add sp l slot c Hm Hc) as Hm'. pose proof (mask_pos _ _ _ _ Hm' Hc) as Hpos. unfold latch.
  set (sp' := Z.lor sp _) in *. rewrite usub_ok by lia. obind.
  assert (Forall (λ p : Z * bool, 0 ≤ p.1 < 3) (l ++ [(slot, c)])) as HF' by (apply Forall_app; split; [done|by apply Forall_singleton]).
  assert ((∃ l1 s l2, l ++ [(slot, c)] = l1 ++ (s, false) :: l2 ∧ rotates (l1 ++ [(s, false)])) ↔
    pw = true ∨ (c = false ∧ Z.land sp' (sp' - 1) ≠ 0)) as Hspec.
  { rewrite (mask_rotates sp' _ Hm' HF' Hpos), Hpw. split.
    - intros (l1 & s & l2 & Heq & Hrot). destruct l2 as [|x l2 _] using rev_ind.
      + apply app_inj_tail in Heq as [-> [= -> ->]]. by right.
      + rewrite app_comm_cons, app_assoc in Heq. apply app_inj_tail in Heq as [-> _]. left. by exists l1, s, l2.
    - intros [(l1 & s & l2 & -> & Hrot)|[-> Hrot]].
      + exists l1, s, (l2 ++ [(slot, c)]). split; [|done]. by rewrite <-app_assoc.
      + exists l, slot, []. done. }
  destruct (Z.eqb_spec (Z.land sp' (sp' - 1)) 0) as [Hz|Hz], c, pw; cbn [negb andb];
    (eexists _, _, _; split; [done|]; split; [done|]; rewrite Hspec; intuition done).
Qed.

(** ** The claims *)

(** C37: a present crosses the wire intact.  Over any life of a surface, a present of
    at most 63 rectangles returns a descriptor which the compositor decodes to
    that surface's current slot, the hold flag and exactly those rectangles, or
    the whole surface when there are none; it refuses it just when a hold is not
    taken, the surface has no weave, the slot is not one of its three, or a
    rectangle is empty or leaves the surface. *)
Theorem present_round_trip w h n s hist flags rects held st : 1 ≤ n ≤ 8 →
  rtc client_step (opened w h n, []) (s, hist) → zlen hist < u_max 64 →
  in_u 32 flags → zlen rects ≤ MAX_RECTS → Forall rect_words rects →
  ∃ s' d, submit_present flags rects true s = Done (s', Some d, Ok tt) ∧
    present_parse held (Some (sf_w s, sf_h s, st)) d = Done (gate held (sf_w s) (sf_h s) st (cur_slot s) flags rects).
Proof.
  intros Hn Hr Hmax Hf Hc HF. pose proof (reach_surf _ _ _ _ _ Hn Hr) as Hok. eexists _, _.
  split; [by eapply submit_ok|]. apply parse_wire; [|done..]. destruct (so_cur _ _ Hok), (so_nslots _ _ Hok). unfold in_u. lia.
Qed.

Lemma present_round_trip_witness : ∃ s' d,
  submit_present 0 [mkRect 1 2 3 4] true (opened 100 100 3) = Done (s', Some d, Ok tt) ∧
  present_parse false (Some (100, 100, Live)) d = Done (gate false 100 100 Live 0 0 [mkRect 1 2 3 4]).
Proof.
  apply (present_round_trip 100 100 3 (opened 100 100 3) [] 0 [mkRect 1 2 3 4] false Live).
  - lia.
  - reflexivity.
  - reflexivity.
  - unfold in_u. lia.
  - unfold MAX_RECTS. cbn. lia.
  - apply Forall_singleton. unfold rect_words, in_u. cbn. lia.
Defined.

(** Whatever bytes a client writes, the present returns, and what passes its
    gates is a woven surface, one of its three slots, a hold only where holds are
    taken, and at least one rectangle, each nonempty and within the surface; on
    those the cover test returns, and answers whether every pixel of the surface
    is in some rectangle. *)
Theorem present_gate held surf data : bytes_ok data → zlen data ≤ u_max 64 →
  (∀ w h st, surf = Some (w, h, st) → in_u 32 w ∧ in_u 32 h) →
  (∃ e, present_parse held surf data = Done (Err e)) ∨
  ∃ slot hold rects w h st b, present_parse held surf data = Done (Ok (slot, hold, rects)) ∧ surf = Some (w, h, st) ∧
    st ≠ Minted ∧ 0 ≤ slot < WEAVE_SLOTS ∧ (hold = true → held = true) ∧ rects ≠ [] ∧ Forall (inside w h) rects ∧
    rects_cover_full rects w h = Done b ∧ (b = true ↔ covers rects w h).
Proof.
  intros Hb Hd Hs. destruct (parse_any held surf data Hb Hd Hs) as [H|(slot & hold & rects & w & h & st & H1 & H2 & H3 & H4 & H5 & H6 & H7)].
  { by left. }
  right. destruct (Hs w h st H2) as [Hw Hh]. destruct (cover_ok rects w h Hw Hh H7) as (b & Hb1 & Hb2).
  exists slot, hold, rects, w, h, st, b. done.
Qed.

Lemma present_gate_witness : ∃ data, bytes_ok data ∧
  ((∃ e, present_parse false (Some (8, 8, Live)) data = Done (Err e)) ∨
   ∃ slot hold rects w h st b, present_parse false (Some (8, 8, Live)) data = Done (Ok (slot, hold, rects)) ∧
    Some (8, 8, Live) = Some (w, h, st) ∧ st ≠ Minted ∧ 0 ≤ slot < WEAVE_SLOTS ∧ (hold = true → false = true) ∧ rects ≠ [] ∧
    Forall (inside w h) rects ∧ rects_cover_full rects w h = Done b ∧ (b = true ↔ covers rects w h)).
Proof.
  assert (bytes_ok (wire 2 0 [mkRect 1 2 3 4])) as Hb.
  { repeat (apply Forall_app; split); try apply le_bytes_ok. constructor. }
  exists (wire 2 0 [mkRect 1 2 3 4]). split; [exact Hb|]. apply present_gate.
  - exact Hb.
  - unfold u_max. vm_compute. discriminate.
  - intros w h st [= <- <- <-]. unfold in_u. lia.
Defined.

(** The buffer age is exact.  Over any sequence of presents, failed or not,
    configure events, invalidations and changes of the slot discipline, the age
    read is zero when the current slot was not presented since the slots were
    last invalidated, and otherwise how many presents ago it last was, saturated
    at 32 bits. *)
Theorem present_age w h n s hist : 1 ≤ n ≤ 8 → rtc client_step (opened w h n, []) (s, hist) →
  age s = Done (match ago (cur_slot s) hist with None => 0 | Some p => Z.min (Z.of_nat p + 1) (u_max 32) end).
Proof. intros Hn Hr. apply age_ok. by eapply reach_surf. Qed.

Lemma present_age_witness : age (presented (set_single_slot true (opened 100 100 3))) = Done 1.
Proof.
  apply (present_age 100 100 3 (presented (set_single_slot true (opened 100 100 3))) [0]); [lia|].
  eapply rtc_l; [apply (cs_single true)|]. eapply rtc_once.
  refine (cs_present 0 [] true (set_single_slot true (opened 100 100 3)) []
    (presented (set_single_slot true (opened 100 100 3))) (Some (wire 0 0 [])) (Ok tt) _).
  vm_compute. reflexivity.
Defined.

(** A rotating client repaints each slot once and then reads a constant age: while
    its discipline stays rotating, the first presents after an invalidation, as
    many as there are slots, each read age zero, and from then on the age is the
    number of slots. *)
Theorem age_rotates w h n s hist : 1 ≤ n ≤ 8 → rtc rotating_step (opened w h n, []) (s, hist) →
  age s = Done (if zlen hist <? nslots s then 0 else nslots s).
Proof.
  intros Hn Hr. destruct (reach_rotated _ _ _ _ _ Hn Hr) as [Hok Hrot]. rewrite (age_ok s hist Hok), (rotated_ago s hist Hok Hrot).
  destruct (zlen hist <? nslots s); [done|]. f_equal. destruct (so_nslots _ _ Hok). unfold u_max. lia.
Qed.

Lemma age_rotates_witness : age (presented (presented (opened 100 100 2))) = Done 2.
Proof.
  apply (age_rotates 100 100 2 (presented (presented (opened 100 100 2))) [0; 1]); [lia|].
  eapply rtc_l; [|eapply rtc_once].
  - split; [refine (cs_present 0 [] true (opened 100 100 2) [] (presented (opened 100 100 2)) (Some (wire 0 0 [])) (Ok tt) _); vm_compute; reflexivity|done].
  - split; [refine (cs_present 0 [] true (presented (opened 100 100 2)) [0] (presented (presented (opened 100 100 2)))
      (Some (wire 1 0 [])) (Ok tt) _); vm_compute; reflexivity|done].
Defined.

(** The compositor latches a surface as patchwork just when it is: over any run of
    presents of the three slots the latch returns, and it is set exactly when
    some present left part of the surface uncovered after two different slots,
    its own included, had been presented; it is never cleared. *)
Theorem patchwork_latches l : Forall (λ p, 0 ≤ p.1 < WEAVE_SLOTS) l →
  ∃ sp pw now, latches l = Done (sp, pw, now) ∧
    (pw = true ↔ ∃ l1 slot l2, l = l1 ++ (slot, false) :: l2 ∧ rotates (l1 ++ [(slot, false)])).
Proof. intros HF. destruct (latches_ok l HF) as (sp & pw & now & H1 & _ & H2). by exists sp, pw, now. Qed.

Lemma patchwork_latches_witness : ∃ sp pw now, latches [(0, true); (1, false)] = Done (sp, pw, now) ∧
  (pw = true ↔ ∃ l1 slot l2, [(0, true); (1, false)] = l1 ++ (slot, false) :: l2 ∧ rotates (l1 ++ [(slot, false)])).
Proof. apply (patchwork_latches [(0, true); (1, false)]). unfold WEAVE_SLOTS. repeat constructor; cbn; lia. Defined.

End PresentClaims.
