(* ===== verification/Heap.v ===== *)
(** * The native heap (src/usr/lib/thyla-heap/src/lib.rs)

    dlmalloc's platform, [Reservations]: its segments are carved at a bump pointer
    inside reservations the table owns; and the direct blocks of the [Heap], each a
    mapping of its own.  The kernel calls of a [Backend] are the arguments
    [reserve], [decommit] and [detach] of the operations that make them: what the
    kernel answers that call.  dlmalloc is third-party code and not part of the
    model. *)

From S2P Require Import Prelude.
Open Scope Z_scope.

Module Heap.

Definition PAGE : Z := 4096.
Definition DIRECT_MIN : Z := 256 * 1024.
Definition RESERVATION_LEN : Z := Z.shiftl 256 20.
Definition RESERVATION_DOUBLINGS : Z := 17.
Definition RESERVATIONS_MAX : nat := 64.
Definition isize_max : Z := 2 ^ 63 - 1.

Definition is_multiple_of (a b : Z) : bool := a mod b =? 0.
Definition trailing_zeros (a : Z) : Z := Z.log2 (Z.land a (- a)).

Definition page_round (size : Z) : option Z := (λ s, Z.ldiff s (PAGE - 1)) <$> checked_add 64 size (PAGE - 1).
Definition is_direct (size align : Z) : bool := (DIRECT_MIN <=? size) || (DIRECT_MIN <=? align).

(** dlmalloc's segment in a reservation is [[base, bump)]. *)
Record Reservation := mkRes { r_base : Z; r_len : Z; r_bump : Z }.
(** [live] is [live[..n]], oldest first. *)
Record Table := mkTable { live : list Reservation; carved : Z; direct : Z; peak : Z }.

Definition set_live (l : list Reservation) (t : Table) : Table := mkTable l (carved t) (direct t) (peak t).
Definition set_carved (c : Z) (t : Table) : Table := mkTable (live t) c (direct t) (peak t).
Definition set_direct (d : Z) (t : Table) : Table := mkTable (live t) (carved t) d (peak t).
Definition set_peak (p : Z) (t : Table) : Table := mkTable (live t) (carved t) (direct t) p.

Definition new_table : Table := mkTable [] 0 0 0.

Definition grew (t : Table) : outcome Table :=
  f ← uadd 64 (carved t) (direct t); Done (set_peak (Z.max (peak t) f) t).
Definition count (t : Table) : nat := length (live t).
Definition footprint (t : Table) : outcome Z := uadd 64 (carved t) (direct t).
Definition reset_peak (t : Table) : outcome Table := f ← uadd 64 (carved t) (direct t); Done (set_peak f t).

Definition add_direct (len : Z) (t : Table) : outcome (Table * bool) :=
  match f ← checked_add 64 (carved t) (direct t); checked_add 64 f len with
  | Some f =>
      if f <=? isize_max then
        d ← uadd 64 (direct t) len;
        t ← grew (set_direct d t);
        Done (t, true)
      else Done (t, false)
  | None => Done (t, false)
  end.
Definition sub_direct (len : Z) (t : Table) : outcome Table :=
  d ← usub (direct t) len; Done (set_direct d t).

(** The lengths asked for, halved down to the least that would do. *)
Fixpoint reserve_loop (fuel : nat) (reserve : Z → option Z) (least len : Z) : outcome (option (Z * Z)) :=
  match fuel with
  | O => OutOfFuel
  | S fuel =>
      match reserve len with
      | Some base => Done (Some (base, len))
      | None => if len =? least then Done None
                else reserve_loop fuel reserve least (Z.max (len / 2 / PAGE * PAGE) least)
      end
  end.

(** A segment of [size] more bytes from a new reservation. *)
Definition carve_new (reserve : Z → option Z) (first_len size : Z) (t : Table) : outcome (Table * option Z) :=
  if (length (live t) =? RESERVATIONS_MAX)%nat then Done (t, None) else
  match checked_add 64 size PAGE with
  | None => Done (t, None)
  | Some least =>
      match checked_mul 64 first_len (ushl 64 1 (Z.min (Z.of_nat (length (live t))) RESERVATION_DOUBLINGS)) with
      | None => Done (t, None)
      | Some len =>
          found ← reserve_loop 64 reserve least (Z.max len least);
          match found with
          | None => Done (t, None)
          | Some (base, len) =>
              bump ← uadd 64 base size;
              let t := set_live (live t ++ [mkRes base len bump]) t in
              c ← uadd 64 (carved t) size;
              t ← grew (set_carved c t);
              Done (t, Some base)
          end
      end
  end.

Definition carve (reserve : Z → option Z) (first_len size : Z) (t : Table) : outcome (Table * option Z) :=
  if (size =? 0) || negb (is_multiple_of size PAGE) then Done (t, None) else
  match last (live t) with
  | Some r =>
      e ← uadd 64 (r_base r) (r_len r);
      room ← usub e (r_bump r);
      if size <? room then
        bump ← uadd 64 (r_bump r) size;
        let t := set_live (<[pred (length (live t)) := mkRes (r_base r) (r_len r) bump]> (live t)) t in
        c ← uadd 64 (carved t) size;
        t ← grew (set_carved c t);
        Done (t, Some (r_bump r))
      else carve_new reserve first_len size t
  | None => carve_new reserve first_len size t
  end.

Definition shrink (decommit : bool) (base old new : Z) (t : Table) : outcome (Table * bool) :=
  match last (live t) with
  | None => Done (t, false)
  | Some r =>
      if negb (base =? r_base r) then Done (t, false) else
      held ← usub (r_bump r) (r_base r);
      if negb (held =? old) || (old <? new) then Done (t, false) else
      d ← usub old new;
      if negb (is_multiple_of d PAGE) then Done (t, false) else
      if new =? old then Done (t, true) else
      if negb decommit then Done (t, false) else
      bump ← uadd 64 base new;
      let t := set_live (<[pred (length (live t)) := mkRes (r_base r) (r_len r) bump]> (live t)) t in
      c ← usub (carved t) d;
      Done (set_carved c t, true)
  end.

Definition release (detach : bool) (base size : Z) (t : Table) : outcome (Table * bool) :=
  match position (λ r, r_base r =? base) (live t) with
  | None => Done (t, false)
  | Some i =>
      r ← unwrap (live t !! i);
      held ← usub (r_bump r) (r_base r);
      if negb (held =? size) then Done (t, false) else
      if negb detach then Done (t, false) else
      c ← usub (carved t) size;
      Done (set_carved c (set_live (delete i (live t)) t), true)
  end.

(** [Allocator::alloc] as dlmalloc sees it: a refusal is a null pointer and no
    length. *)
Definition platform_alloc (reserve : Z → option Z) (first_len size : Z) (t : Table) : outcome (Table * (Z * Z)) :=
  '(t, r) ← carve reserve first_len size t;
  Done (t, match r with Some va => (va, size) | None => (0, 0) end).

(** ** Direct blocks *)

Definition direct_alloc (reserve : Z → Z → option Z) (size align : Z) (t : Table) : outcome (Table * Z) :=
  match page_round size with
  | None => Done (t, 0)
  | Some len =>
      let align_log2 := if PAGE <? align then trailing_zeros align else 0 in
      '(t, ok) ← add_direct len t;
      if negb ok then Done (t, 0) else
      match reserve len align_log2 with
      | Some va => Done (t, va)
      | None => t ← sub_direct len t; Done (t, 0)
      end
  end.

Definition direct_free (detach : bool) (size : Z) (t : Table) : outcome Table :=
  let len := default 0 (page_round size) in
  if detach then sub_direct len t else Done t.

(** [tail] is what the detach of the tail answers, [whole] what that of the old
    block does after a move; the copied bytes are not part of the model. *)
Definition direct_realloc (tail : bool) (reserve : Z → Z → option Z) (whole : bool) (p old align new : Z) (t : Table) :
    outcome (Table * Z) :=
  let old_len := default 0 (page_round old) in
  match page_round new with
  | None => Done (t, 0)
  | Some new_len =>
      if new_len =? old_len then Done (t, p) else
      if (new_len <? old_len) && tail then
        d ← usub old_len new_len;
        t ← sub_direct d t;
        Done (t, p)
      else
        '(t, q) ← direct_alloc reserve new align t;
        if q =? 0 then Done (t, q) else
        t ← direct_free whole old t;
        Done (t, q)
  end.

Example two_carves :
  ('(t, a) ← carve (λ len, if len <=? 16 * PAGE then Some (2 ^ 40) else None) (64 * PAGE) (3 * PAGE) new_table;
   '(t, b) ← carve (λ _, None) (64 * PAGE) (12 * PAGE) t;
   '(t, c) ← carve (λ _, Some (2 ^ 41)) (64 * PAGE) PAGE t;
   '(t, s) ← shrink true (2 ^ 41) PAGE 0 t;
   '(t, f) ← release true (2 ^ 40) (15 * PAGE) t;
   Done (a, b, c, s, f, carved t, count t)) =
  Done (Some (2 ^ 40), Some (2 ^ 40 + 3 * PAGE), Some (2 ^ 41), true, true, 0, 1%nat).
Proof. vm_compute. reflexivity. Qed.

End Heap.
