(* ===== verification/HeapProofs.v ===== *)
(** * The heap holds what it says it holds

    The heap as threads run it: a carve, a shrink and a release each under the
    lock, and the two halves of a direct allocation or free with other threads
    between them.  The kernel maps only fresh ranges.  Then reservations and
    blocks never overlap, a carve takes memory nobody holds and never makes two
    segments adjacent, and the footprint never falls below what is held. *)

From S2P Require Import Prelude Heap.
Import Heap.
Open Scope Z_scope.

Module HeapProofs.

Lemma page_round_ok size : 0 ≤ size → size + (PAGE - 1) ≤ u_max 64 →
  ∃ len, page_round size = Some len ∧ size ≤ len < size + PAGE ∧ len mod PAGE = 0.
Proof.
  unfold PAGE. intros H0 Hm. unfold page_round, checked_add, PAGE. rewrite (proj2 (Z.leb_le _ _)) by lia.
  cbn [fmap option_fmap option_map]. eexists. split; [done|].
  change (4096 - 1) with (Z.ones 12). rewrite Z.ldiff_ones_r by lia. rewrite Z.shiftr_div_pow2, Z.shiftl_mul_pow2 by lia.
  change (2 ^ 12) with 4096. rewrite Z.mod_mul by lia.
  pose proof (Z.div_mod (size + Z.ones 12) 4096 ltac:(lia)). pose proof (Z.mod_pos_bound (size + Z.ones 12) 4096 ltac:(lia)).
  change (Z.ones 12) with 4095 in *. lia.
Qed.
Lemma page_round_inv size len : 0 ≤ size → page_round size = Some len → 0 ≤ len ∧ size ≤ len < size + PAGE ∧ len mod PAGE = 0.
Proof.
  intros H0 H. destruct (Z.le_gt_cases (size + (PAGE - 1)) (u_max 64)) as [Hle|Hgt].
  - destruct (page_round_ok size H0 Hle) as (l & Hl & ? & ?). assert (l = len) as -> by congruence. lia.
  - unfold page_round, checked_add in H. by rewrite (proj2 (Z.leb_gt _ _)) in H by lia.
Qed.

(** ** The halving loop *)

Lemma reserve_loop_ok k reserve least len : 0 < least ≤ len → len ≤ least * 2 ^ Z.of_nat k →
  len mod PAGE = 0 → least mod PAGE = 0 →
  reserve_loop (S k) reserve least len = Done None ∨
  ∃ base l, reserve_loop (S k) reserve least len = Done (Some (base, l)) ∧ reserve l = Some base ∧ least ≤ l ≤ len ∧ l mod PAGE = 0.
Proof.
  revert len. induction k as [|k IH]; intros len Hl Hf Hm Hlm.
  { change (2 ^ Z.of_nat 0) with 1 in Hf. assert (len = least) as -> by lia. cbn [reserve_loop].
    destruct (reserve least) as [base|] eqn:Hr; [|rewrite Z.eqb_refl; by left].
    right. exists base, least. split; [done|]. split; [done|]. split; [lia|done]. }
  remember (S k) as fuel eqn:Efuel. cbn [reserve_loop]. destruct (reserve len) as [base|] eqn:Hr.
  { right. exists base, len. split; [done|]. split; [done|]. split; [lia|done]. }
  destruct (Z.eqb_spec len least) as [|Hne]; [by left|]. subst fuel.
  assert (len / 2 / PAGE * PAGE ≤ len / 2) as Hh by (rewrite Z.mul_comm; apply Z.mul_div_le; done).
  assert (len / 2 < len) as Hlt by (apply Z.div_lt; lia).
  rewrite Nat2Z.inj_succ, Z.pow_succ_r in Hf by lia.
  assert (len / 2 ≤ least * 2 ^ Z.of_nat k) as Hk by (apply Z.div_le_upper_bound; lia).
  assert (least * 1 ≤ least * 2 ^ Z.of_nat k) as Hk1 by (apply Z.mul_le_mono_nonneg_l; [lia|]; pose proof (Z.pow_pos_nonneg 2 (Z.of_nat k)); lia).
  destruct (IH (Z.max (len / 2 / PAGE * PAGE) least)) as [Hn|(base & l & H1 & H2 & H3 & H4)]; [lia|lia| |done|by left|].
  - destruct (Z.max_spec (len / 2 / PAGE * PAGE) least) as [[_ ->]|[_ ->]]; [done|]. by rewrite Z.mod_mul.
  - right. exists base, l. split; [done|]. split; [done|]. split; [lia|done].
Qed.

(** ** What the heap holds *)

(** Ranges that share no byte, and a list of them pairwise so. *)
Definition apart (x y : Z * Z) : Prop := x.1 + x.2 ≤ y.1 ∨ y.1 + y.2 ≤ x.1.
Fixpoint all_apart (l : list (Z * Z)) : Prop :=
  match l with [] => True | x :: l => Forall (apart x) l ∧ all_apart l end.

Lemma apart_sym x y : apart x y → apart y x.
Proof. unfold apart. tauto. Qed.
Lemma all_apart_perm l l' : l ≡ₚ l' → all_apart l → all_apart l'.
Proof.
  induction 1 as [|x l l' Hp IH|x y l|l l' l'' _ IH1 _ IH2]; cbn [all_apart]; [done| | |by auto].
  - intros [HF H]. rewrite Hp in HF. auto.
  - intros [[Hyx Hy]%Forall_cons [Hx H]]. rewrite Forall_cons. split; [|by split]. split; [by apply apart_sym|done].
Qed.
#[global] Instance all_apart_proper : Proper ((≡ₚ) ==> iff) all_apart.
Proof. intros l l' Hp. split; by apply all_apart_perm. Qed.

(** The block of a reservation, its segment, and the bytes of a list of blocks. *)
Definition block (r : Reservation) : Z * Z := (r_base r, r_len r).
Definition held (r : Reservation) : Z := r_bump r - r_base r.
Definition bytes (l : list Z) : Z := foldr Z.add 0 l.

Lemma bytes_app l l' : bytes (l ++ l') = bytes l + bytes l'.
Proof. induction l as [|x l IH]; [done|]. cbn. unfold bytes in *. lia. Qed.
Lemma bytes_perm l l' : l ≡ₚ l' → bytes l = bytes l'.
Proof. unfold bytes. induction 1; cbn; lia. Qed.
Lemma bytes_nonneg l : Forall (Z.le 0) l → 0 ≤ bytes l.
Proof. unfold bytes. induction 1; cbn; lia. Qed.

Definition WINDOW : Z := 2 ^ 47.
Definition res_ok (r : Reservation) : Prop :=
  0 < r_base r ∧ r_base r mod PAGE = 0 ∧ r_len r mod PAGE = 0 ∧ r_base r ≤ r_bump r < r_base r + r_len r ∧
  held r mod PAGE = 0 ∧ r_base r + r_len r ≤ WINDOW.

(** The state: the table, the direct blocks mapped, and the lengths counted for a
    block not mapped yet or no longer. *)
Record state := mkState { tab : Table; blocks : list (Z * Z); pend : list Z }.
Definition ranges (st : state) : list (Z * Z) := (block <$> live (tab st)) ++ blocks st.

Record heap_ok (st : state) : Prop := mkHeapOk {
  ho_count : (length (live (tab st)) ≤ RESERVATIONS_MAX)%nat;
  ho_res : Forall res_ok (live (tab st));
  ho_apart : all_apart (ranges st);
  ho_blocks : Forall (λ b, 0 < b.1 ∧ 0 ≤ b.2 ∧ b.1 + b.2 ≤ WINDOW) (blocks st);
  ho_pend : Forall (Z.le 0) (pend st);
  ho_carved : carved (tab st) = bytes (held <$> live (tab st));
  ho_direct : direct (tab st) = bytes (snd <$> blocks st) + bytes (pend st);
  ho_max : direct (tab st) ≤ isize_max;
  ho_peak : carved (tab st) + direct (tab st) ≤ peak (tab st) ≤ u_max 64 }.

(** A range the kernel may map: page aligned, in the window, apart from what is mapped. *)
Definition fresh (st : state) (va len : Z) : Prop :=
  0 < va ∧ va mod PAGE = 0 ∧ va + len ≤ WINDOW ∧ Forall (apart (va, len)) (ranges st).

Lemma bytes_bound l m : Forall (λ x, x ≤ m) l → bytes l ≤ zlen l * m.
Proof. unfold bytes. induction 1; cbn [foldr length]; lia. Qed.
Lemma held_nonneg l : Forall res_ok l → 0 ≤ bytes (held <$> l).
Proof.
  intros HF. apply bytes_nonneg, Forall_fmap. eapply Forall_impl; [exact HF|].
  intros x (_ & _ & _ & ? & _). unfold held. cbn. lia.
Qed.
Lemma carved_bound st : heap_ok st → 0 ≤ carved (tab st) ≤ 2 ^ 53.
Proof.
  intros Hok. rewrite (ho_carved _ Hok). pose proof (ho_res _ Hok) as HF. split.
  - by apply held_nonneg.
  - etransitivity; [apply (bytes_bound _ WINDOW)|].
    + apply Forall_fmap. eapply Forall_impl; [exact HF|]. intros r (? & _ & _ & ? & _ & ?). unfold held. cbn. lia.
    + rewrite length_fmap. pose proof (ho_count _ Hok). unfold RESERVATIONS_MAX, WINDOW in *. lia.
Qed.
Lemma direct_bound st : heap_ok st → 0 ≤ direct (tab st) ≤ isize_max.
Proof.
  intros Hok. split; [|apply Hok]. rewrite (ho_direct _ Hok).
  assert (0 ≤ bytes (snd <$> blocks st)) as H1; [|pose proof (bytes_nonneg _ (ho_pend _ Hok)); lia].
  apply bytes_nonneg, Forall_fmap. eapply Forall_impl; [apply (ho_blocks _ Hok)|]. intros b. cbn. lia.
Qed.

(** ** Carving *)

Definition grown (l : list Reservation) (size : Z) (t : Table) : Table :=
  mkTable l (carved t + size) (direct t) (Z.max (peak t) (carved t + size + direct t)).

Lemma carve_new_ok st reserve first_len size : heap_ok st → 0 < size → in_u 64 size → size mod PAGE = 0 →
  0 ≤ first_len → first_len mod PAGE = 0 → (∀ len va, reserve len = Some va → fresh st va len) →
  carve_new reserve first_len size (tab st) = Done (tab st, None) ∨
  ∃ base len, carve_new reserve first_len size (tab st) =
      Done (grown (live (tab st) ++ [mkRes base len (base + size)]) size (tab st), Some base) ∧
    fresh st base len ∧ size < len ∧ len mod PAGE = 0 ∧ (length (live (tab st)) < RESERVATIONS_MAX)%nat.
Proof.
  intros Hok H0 Hsz Hm Hf0 Hfm Hfresh. unfold in_u in Hsz. unfold carve_new.
  destruct (Nat.eqb_spec (length (live (tab st))) RESERVATIONS_MAX) as [|Hn]; [by left|].
  unfold checked_add. destruct (Z.leb_spec (size + PAGE) (u_max 64)) as [Hle|]; [|by left].
  unfold checked_mul. set (m := ushl 64 1 _). destruct (Z.leb_spec (first_len * m) (u_max 64)) as [Hmul|]; [|by left].
  assert ((size + PAGE) mod PAGE = 0) as Hlm by (rewrite <-(Z.mul_1_l PAGE) at 1; by rewrite Z.mod_add).
  assert (Z.max (first_len * m) (size + PAGE) mod PAGE = 0) as Hmm.
  { destruct (Z.max_spec (first_len * m) (size + PAGE)) as [[_ ->]|[_ ->]]; [done|].
    rewrite Z.mul_mod, Hfm, Z.mul_0_l by done. done. }
  unfold u_max in *. unfold PAGE in *.
  destruct (reserve_loop_ok 63 reserve (size + 4096) (Z.max (first_len * m) (size + 4096))) as [->|(base & l & -> & Hr & Hl & Hlp)];
    [lia|change (2 ^ Z.of_nat 63) with (2 ^ 63); lia|done|done|by left|].
  obind. right. exists base, l. pose proof (Hfresh _ _ Hr) as Hfr. destruct Hfr as (Hb1 & Hb2 & Hb3 & Hb4).
  pose proof (carved_bound st Hok). pose proof (direct_bound st Hok). unfold isize_max, WINDOW in *.
  rewrite (uadd_ok 64 base size) by (unfold u_max; lia). cbn [mbind outcome_bind carved set_live].
  rewrite (uadd_ok 64 (carved (tab st)) size) by (unfold u_max; lia). obind. unfold grew. cbn [carved direct set_carved set_live].
  rewrite (uadd_ok 64 (carved (tab st) + size)) by (unfold u_max; lia). obind.
  split; [done|]. split; [done|]. split; [lia|]. split; [done|]. pose proof (ho_count _ Hok). lia.
Qed.

Lemma carve_ok st reserve first_len size : heap_ok st → in_u 64 size → 0 ≤ first_len → first_len mod PAGE = 0 →
  (∀ len va, reserve len = Some va → fresh st va len) →
  carve reserve first_len size (tab st) = Done (tab st, None) ∨
  (0 < size ∧ size mod PAGE = 0 ∧
   ((∃ l r, live (tab st) = l ++ [r] ∧ r_bump r + size < r_base r + r_len r ∧
      carve reserve first_len size (tab st) =
        Done (grown (l ++ [mkRes (r_base r) (r_len r) (r_bump r + size)]) size (tab st), Some (r_bump r))) ∨
    (∃ base len, carve reserve first_len size (tab st) =
        Done (grown (live (tab st) ++ [mkRes base len (base + size)]) size (tab st), Some base) ∧
      fresh st base len ∧ size < len ∧ len mod PAGE = 0 ∧ (length (live (tab st)) < RESERVATIONS_MAX)%nat))).
Proof.
  intros Hok Hsz Hf0 Hfm Hfresh. pose proof Hsz as Hsz'. unfold in_u in Hsz'. unfold carve, is_multiple_of.
  destruct (Z.eqb_spec size 0) as [|Hne]; [by left|]. destruct (Z.eqb_spec (size mod PAGE) 0) as [Hm|]; [|by left].
  cbn [negb orb]. assert (0 < size) as H0 by lia.
  pose proof (carve_new_ok st reserve first_len size Hok H0 Hsz Hm Hf0 Hfm Hfresh) as Hnew.
  destruct (last (live (tab st))) as [r|] eqn:Hlast; [|destruct Hnew; by eauto 6].
  apply last_Some in Hlast as [l Hl]. pose proof (ho_res _ Hok) as HF. rewrite Hl in HF.
  apply Forall_app in HF as [_ HF]. rewrite Forall_singleton in HF. destruct HF as (B1 & B2 & B3 & B4 & B5 & B6).
  pose proof (carved_bound st Hok). pose proof (direct_bound st Hok). unfold isize_max, WINDOW in *.
  rewrite (uadd_ok 64 (r_base r)) by (unfold u_max; lia). obind.
  rewrite usub_ok by lia. obind.
  destruct (Z.ltb_spec size (r_base r + r_len r - r_bump r)); [|destruct Hnew; by eauto 6].
  right. split; [done|]. split; [done|]. left. exists l, r. split; [done|]. split; [lia|].
  rewrite (uadd_ok 64 (r_bump r) size) by (unfold u_max; lia). cbn [mbind outcome_bind carved set_live].
  rewrite (uadd_ok 64 (carved (tab st)) size) by (unfold u_max; lia). obind. unfold grew.
  cbn [carved direct set_carved set_live].
  rewrite (uadd_ok 64 (carved (tab st) + size)) by (unfold u_max; lia). obind.
  unfold grown. do 4 f_equal. rewrite Hl, length_app. cbn [length]. rewrite Nat.add_1_r. cbn [pred].
  unfold set_live, set_carved, set_peak. cbn [live carved direct peak]. by rewrite insert_app_r_alt, Nat.sub_diag by lia.
Qed.

(** ** Steps *)

(** One atomic step of some thread.  The kernel refuses as it likes. *)
Inductive heap_step (first_len : Z) (st : state) : state → Prop :=
  | hs_carve reserve size t r : in_u 64 size → (∀ len va, reserve len = Some va → fresh st va len) →
      carve reserve first_len size (tab st) = Done (t, r) → heap_step first_len st (mkState t (blocks st) (pend st))
  | hs_shrink decommit base old new t b : 0 ≤ new → shrink decommit base old new (tab st) = Done (t, b) →
      heap_step first_len st (mkState t (blocks st) (pend st))
  | hs_release detach base size t b : release detach base size (tab st) = Done (t, b) →
      heap_step first_len st (mkState t (blocks st) (pend st))
  | hs_reset t : reset_peak (tab st) = Done t → heap_step first_len st (mkState t (blocks st) (pend st))
  | hs_count len t : 0 ≤ len → add_direct len (tab st) = Done (t, true) →
      heap_step first_len st (mkState t (blocks st) (len :: pend st))
  | hs_map len va rest : pend st ≡ₚ len :: rest → fresh st va len →
      heap_step first_len st (mkState (tab st) ((va, len) :: blocks st) rest)
  | hs_uncount len rest t : pend st ≡ₚ len :: rest → sub_direct len (tab st) = Done t →
      heap_step first_len st (mkState t (blocks st) rest)
  | hs_unmap va len rest : blocks st ≡ₚ (va, len) :: rest →
      heap_step first_len st (mkState (tab st) rest (len :: pend st))
  | hs_trim va len new rest : blocks st ≡ₚ (va, len) :: rest → 0 ≤ new < len →
      heap_step first_len st (mkState (tab st) ((va, new) :: rest) (len - new :: pend st)).

Lemma held_snoc l r : bytes (held <$> (l ++ [r])) = bytes (held <$> l) + held r.
Proof. rewrite fmap_app, bytes_app. cbn. lia. Qed.

Lemma held_mid l1 r l2 : bytes (held <$> (l1 ++ r :: l2)) = held r + (bytes (held <$> l1) + bytes (held <$> l2)).
Proof. rewrite fmap_app, bytes_app, fmap_cons. change (bytes (held r :: ?l)) with (held r + bytes l). lia. Qed.

(** The last segment moves its end, with everything else in place. *)
Lemma seg_bump_ok st l r bump pk : heap_ok st → live (tab st) = l ++ [r] → r_base r ≤ bump < r_base r + r_len r →
  (bump - r_base r) mod PAGE = 0 → pk ≤ u_max 64 → carved (tab st) + (bump - r_bump r) + direct (tab st) ≤ pk →
  heap_ok (mkState (mkTable (l ++ [mkRes (r_base r) (r_len r) bump]) (carved (tab st) + (bump - r_bump r)) (direct (tab st)) pk)
    (blocks st) (pend st)).
Proof.
  intros [H1 H2 H3 H4 H5 H6 H7 H8 H9] Hl Hb Hm Hpk Hpk'. unfold ranges in *. rewrite Hl in *.
  apply Forall_app in H2 as [H2 Hr]. rewrite Forall_singleton in Hr. destruct Hr as (B1 & B2 & B3 & B4 & B5 & B6).
  split; unfold ranges; cbn [tab live carved direct peak blocks pend]; try done.
  - rewrite length_app in *. cbn [length] in *. lia.
  - apply Forall_app. split; [done|]. rewrite Forall_singleton. done.
  - rewrite fmap_app in *. exact H3.
  - rewrite H6, !held_snoc. unfold held. cbn. lia.
Qed.

Lemma heap_frame st t : heap_ok st → t = tab st → heap_ok (mkState t (blocks st) (pend st)).
Proof. intros [] ->. by split. Qed.

Lemma carve_step st reserve first_len size t r : heap_ok st → in_u 64 size → 0 ≤ first_len → first_len mod PAGE = 0 →
  (∀ len va, reserve len = Some va → fresh st va len) → carve reserve first_len size (tab st) = Done (t, r) →
  heap_ok (mkState t (blocks st) (pend st)).
Proof.
  intros Hok Hsz Hf0 Hfm Hfresh He. pose proof (carved_bound st Hok) as Hcb. pose proof (direct_bound st Hok) as Hdb.
  pose proof (ho_peak _ Hok) as Hpk. unfold isize_max in *.
  destruct (carve_ok st reserve first_len size Hok Hsz Hf0 Hfm Hfresh) as [Hc|(H0 & Hm & [(l & x & Hl & Hroom & Hc)|(base & len & Hc & Hfr & Hlen & Hlm & Hn)])];
    rewrite He in Hc; injection Hc as -> ->.
  - by apply heap_frame.
  - pose proof (ho_res _ Hok) as HF. rewrite Hl in HF. apply Forall_app in HF as [_ HF]. rewrite Forall_singleton in HF.
    destruct HF as (B1 & B2 & B3 & B4 & B5 & B6). unfold WINDOW in *.
    pose proof (seg_bump_ok st l x (r_bump x + size) (Z.max (peak (tab st)) (carved (tab st) + size + direct (tab st))) Hok Hl) as Hb.
    replace (r_bump x + size - r_bump x) with size in Hb by lia. apply Hb; [lia| |unfold u_max in *; lia|lia].
    unfold held in B5. replace (r_bump x + size - r_base x) with ((r_bump x - r_base x) + size) by lia.
    rewrite Z.add_mod, B5, Hm by done. done.
  - destruct Hok as [H1 H2 H3 H4 H5 H6 H7 H8 H9]. destruct Hfr as (F1 & F2 & F3 & F4). unfold WINDOW in *.
    split; unfold ranges in *; cbn [tab live carved direct peak blocks pend grown] in *; try done.
    + rewrite length_app. cbn [length]. lia.
    + apply Forall_app. split; [done|]. rewrite Forall_singleton. unfold res_ok, held, WINDOW. cbn [r_base r_len r_bump].
      replace (base + size - base) with size by lia. split_and!; done || lia.
    + rewrite fmap_app. change (block <$> [mkRes base len (base + size)]) with [(base, len)]. rewrite <-app_assoc. cbn [app]. rewrite <-Permutation_middle. cbn [all_apart]. done.
    + rewrite held_snoc, H6. unfold held. cbn. lia.
    + unfold u_max in *. lia.
Qed.

Lemma shrink_ok st decommit base old new : heap_ok st → 0 ≤ new →
  ∃ t b, shrink decommit base old new (tab st) = Done (t, b) ∧ heap_ok (mkState t (blocks st) (pend st)) ∧
    (b = false → t = tab st) ∧
    (b = true → ∃ l r, live (tab st) = l ++ [r] ∧ r_base r = base ∧ held r = old ∧ new ≤ old ∧
      t = mkTable (l ++ [mkRes base (r_len r) (base + new)]) (carved (tab st) - (old - new)) (direct (tab st)) (peak (tab st))).
Proof.
  intros Hok Hnew. unfold shrink.
  assert (∃ t b, Done (tab st, false) = Done (t, b) ∧ heap_ok (mkState t (blocks st) (pend st)) ∧ (b = false → t = tab st) ∧
    (b = true → ∃ l r, live (tab st) = l ++ [r] ∧ r_base r = base ∧ held r = old ∧ new ≤ old ∧
      t = mkTable (l ++ [mkRes base (r_len r) (base + new)]) (carved (tab st) - (old - new)) (direct (tab st)) (peak (tab st)))) as Hno.
  { exists (tab st), false. split; [done|]. split; [by apply heap_frame|]. done. }
  destruct (last (live (tab st))) as [r|] eqn:Hlast; [|exact Hno]. apply last_Some in Hlast as [l Hl].
  pose proof (ho_res _ Hok) as HF. rewrite Hl in HF. apply Forall_app in HF as [HF' HF]. rewrite Forall_singleton in HF.
  destruct HF as (B1 & B2 & B3 & B4 & B5 & B6). unfold WINDOW in *.
  destruct (Z.eqb_spec base (r_base r)) as [->|]; cbn [negb]; [|exact Hno].
  rewrite (usub_ok (r_bump r)) by lia. obind.
  destruct (Z.eqb_spec (r_bump r - r_base r) old) as [Hold|]; [|exact Hno].
  destruct (Z.ltb_spec old new) as [|Hle]; [exact Hno|]. cbn [negb orb].
  rewrite (usub_ok old new) by lia. obind. unfold is_multiple_of.
  destruct (Z.eqb_spec ((old - new) mod PAGE) 0) as [Hm|]; [|exact Hno]. cbn [negb].
  pose proof (seg_bump_ok st l r (r_base r + new) (peak (tab st)) Hok Hl) as Hb.
  replace (carved (tab st) + (r_base r + new - r_bump r)) with (carved (tab st) - (old - new)) in Hb by lia.
  pose proof (ho_peak _ Hok). specialize (Hb ltac:(lia)). replace (r_base r + new - r_base r) with (old - (old - new)) in Hb by lia.
  rewrite Zminus_mod, Hm in Hb. unfold held in B5. rewrite Hold in B5. rewrite B5 in Hb. specialize (Hb eq_refl ltac:(lia) ltac:(lia)).
  destruct (Z.eqb_spec new old) as [->|Hne].
  { exists (tab st), true. split; [done|]. split; [by apply heap_frame|]. split; [done|]. intros _. exists l, r.
    split; [done|]. split; [done|]. split; [done|]. split; [lia|]. destruct (tab st) as [lv c d p]. cbn in *. rewrite Hl.
    replace (r_base r + old) with (r_bump r) by lia. destruct r. cbn. f_equal. lia. }
  destruct decommit; cbn [negb]; [|exact Hno].
  rewrite (uadd_ok 64) by (unfold u_max; lia). cbn [mbind outcome_bind carved set_live].
  rewrite usub_ok.
  2:{ rewrite (ho_carved _ Hok), Hl, held_snoc. unfold held at 2.
      pose proof (held_nonneg _ HF'). lia. }
  obind. eexists _, true. split; [done|].
  assert (set_carved (carved (tab st) - (old - new)) (set_live (<[pred (length (live (tab st))) := mkRes (r_base r) (r_len r) (r_base r + new)]> (live (tab st))) (tab st)) =
    mkTable (l ++ [mkRes (r_base r) (r_len r) (r_base r + new)]) (carved (tab st) - (old - new)) (direct (tab st)) (peak (tab st))) as ->.
  { unfold set_carved, set_live. cbn [live carved direct peak]. rewrite Hl, length_app. cbn [length]. rewrite Nat.add_1_r. cbn [pred].
    by rewrite insert_app_r_alt, Nat.sub_diag by lia. }
  split; [exact Hb|]. split; [done|]. intros _. exists l, r. done.
Qed.

Lemma seg_release_ok st detach base size : heap_ok st →
  ∃ t b, release detach base size (tab st) = Done (t, b) ∧ heap_ok (mkState t (blocks st) (pend st)) ∧
    (b = false → t = tab st) ∧
    (b = true → ∃ l1 r l2, live (tab st) = l1 ++ r :: l2 ∧ r_base r = base ∧ held r = size ∧
      t = mkTable (l1 ++ l2) (carved (tab st) - size) (direct (tab st)) (peak (tab st))).
Proof.
  intros Hok. unfold release.
  assert (∃ t b, Done (tab st, false) = Done (t, b) ∧ heap_ok (mkState t (blocks st) (pend st)) ∧ (b = false → t = tab st) ∧
    (b = true → ∃ l1 r l2, live (tab st) = l1 ++ r :: l2 ∧ r_base r = base ∧ held r = size ∧
      t = mkTable (l1 ++ l2) (carved (tab st) - size) (direct (tab st)) (peak (tab st)))) as Hno.
  { exists (tab st), false. split; [done|]. split; [by apply heap_frame|]. done. }
  destruct (position _ _) as [i|] eqn:Hpos; [|exact Hno].
  apply position_split in Hpos as (l1 & r & l2 & Hl & <- & Hb%Z.eqb_eq & _).
  assert (live (tab st) !! length l1 = Some r) as -> by (by rewrite Hl, list_lookup_middle). cbn [unwrap mbind outcome_bind].
  pose proof (ho_res _ Hok) as HF. rewrite Hl in HF. apply Forall_app in HF as [HF1 [Hr HF2]%Forall_cons].
  destruct Hr as (B1 & B2 & B3 & B4 & B5 & B6). rewrite (usub_ok (r_bump r)) by lia. obind.
  destruct (Z.eqb_spec (r_bump r - r_base r) size) as [Hsz|]; [|exact Hno]. cbn [negb].
  destruct detach; cbn [negb]; [|exact Hno].
  pose proof (held_nonneg _ HF1) as N1. pose proof (held_nonneg _ HF2) as N2. assert (0 ≤ size) as N3 by lia. change (r_bump r - r_base r) with (held r) in Hsz.
  pose proof Hok as [H1 H2 H3 H4 H5 H6 H7 H8 H9]. unfold ranges in *. rewrite Hl in *.
  rewrite held_mid, Hsz in H6. rewrite usub_ok by lia. obind. eexists _, true. split; [done|].
  rewrite delete_middle. unfold set_carved, set_live. cbn [live carved direct peak]. split; [|split; [done|]].
  - split; unfold ranges; cbn [tab live carved direct peak blocks pend]; try done.
    + rewrite length_app in *. cbn [length] in *. lia.
    + by apply Forall_app.
    + rewrite fmap_app, fmap_cons in H3. rewrite <-Permutation_middle in H3. cbn [app all_apart] in H3. destruct H3 as [_ H3].
      by rewrite fmap_app.
    + rewrite fmap_app, bytes_app, H6. lia.
    + lia.
  - intros _. exists l1, r, l2. done.
Qed.

(** ** Direct blocks *)

Lemma add_direct_ok st len : heap_ok st → 0 ≤ len →
  add_direct len (tab st) = Done (tab st, false) ∨
  ∃ t, add_direct len (tab st) = Done (t, true) ∧ heap_ok (mkState t (blocks st) (len :: pend st)).
Proof.
  intros Hok Hl. unfold add_direct. pose proof (carved_bound st Hok) as Hc. pose proof (direct_bound st Hok) as Hd. unfold isize_max in *.
  unfold checked_add. rewrite (proj2 (Z.leb_le (carved (tab st) + _) _)) by (unfold u_max; lia). cbn [mbind option_bind].
  destruct (Z.leb_spec (carved (tab st) + direct (tab st) + len) (u_max 64)) as [Hu|]; [|by left].
  destruct (Z.leb_spec (carved (tab st) + direct (tab st) + len) (2 ^ 63 - 1)) as [Hle|]; [|by left].
  rewrite (uadd_ok 64 (direct _)) by (unfold u_max; lia). obind. unfold grew. cbn [carved direct set_direct].
  rewrite uadd_ok by (unfold u_max; lia). obind. right. eexists. split; [done|].
  destruct Hok as [H1 H2 H3 H4 H5 H6 H7 H8 H9].
  split; unfold ranges in *; cbn [tab live carved direct peak blocks pend set_peak set_direct]; try done.
  - by constructor.
  - rewrite H7. change (bytes (len :: pend st)) with (len + bytes (pend st)). lia.
  - unfold isize_max. lia.
  - unfold u_max in *. lia.
Qed.

Lemma sub_direct_ok st len rest : heap_ok st → pend st ≡ₚ len :: rest →
  ∃ t, sub_direct len (tab st) = Done t ∧ heap_ok (mkState t (blocks st) rest).
Proof.
  intros Hok Hp. pose proof (direct_bound st Hok) as Hdb. pose proof Hok as [H1 H2 H3 H4 H5 H6 H7 H8 H9].
  rewrite (bytes_perm _ _ Hp) in H7. change (bytes (len :: rest)) with (len + bytes rest) in H7.
  rewrite Hp in H5. apply Forall_cons in H5 as [Hl H5]. pose proof (bytes_nonneg _ H5) as Hnn.
  assert (0 ≤ bytes (snd <$> blocks st)).
  { apply bytes_nonneg, Forall_fmap. eapply Forall_impl; [exact H4|]. intros b. cbn. lia. }
  unfold sub_direct. rewrite usub_ok by lia. obind. eexists. split; [done|].
  split; unfold ranges in *; cbn [tab live carved direct peak blocks pend set_direct]; try done; lia.
Qed.

Lemma map_ok st len rest va : heap_ok st → pend st ≡ₚ len :: rest → fresh st va len →
  heap_ok (mkState (tab st) ((va, len) :: blocks st) rest).
Proof.
  intros [H1 H2 H3 H4 H5 H6 H7 H8 H9] Hp (F1 & F2 & F3 & F4). rewrite Hp in H5. apply Forall_cons in H5 as [Hl H5].
  rewrite (bytes_perm _ _ Hp) in H7. change (bytes (len :: rest)) with (len + bytes rest) in H7.
  split; unfold ranges in *; cbn [tab live carved direct peak blocks pend]; try done.
  - rewrite <-Permutation_middle. cbn [all_apart]. done.
  - by constructor.
  - rewrite fmap_cons. change (bytes (snd (va, len) :: ?l)) with (len + bytes l). lia.
Qed.

(** Part or all of a block is unmapped: [new] bytes of it stay, none when it goes whole. *)
Lemma cut_ok st va len rest new (keep : bool) : heap_ok st → blocks st ≡ₚ (va, len) :: rest →
  0 ≤ new ≤ len → (keep = false → new = 0) →
  heap_ok (mkState (tab st) (if keep then (va, new) :: rest else rest) (len - new :: pend st)).
Proof.
  intros [H1 H2 H3 H4 H5 H6 H7 H8 H9] Hp Hnew Hk. rewrite Hp in H4. apply Forall_cons in H4 as [Hb H4]. cbn in Hb.
  assert (bytes (snd <$> blocks st) = len + bytes (snd <$> rest)) as Ht by (by rewrite (bytes_perm _ _ (fmap_Permutation snd _ _ Hp))).
  unfold ranges in *. rewrite Hp, <-Permutation_middle in H3. cbn [all_apart] in H3. destruct H3 as [Ha H3].
  split; unfold ranges; cbn [tab live carved direct peak blocks pend]; try done.
  - destruct keep; [|done]. rewrite <-Permutation_middle. cbn [all_apart]. split; [|done].
    eapply Forall_impl; [exact Ha|]. intros y. unfold apart. cbn [fst snd]. lia.
  - destruct keep; [|done]. constructor; [cbn; lia|done].
  - constructor; [lia|done].
  - change (bytes (len - new :: pend st)) with (len - new + bytes (pend st)).
    destruct keep; [rewrite fmap_cons; change (bytes (snd (va, new) :: ?l)) with (new + bytes l)|rewrite Hk by done]; lia.
Qed.

Lemma heap_step_ok first_len st st' : 0 ≤ first_len → first_len mod PAGE = 0 → heap_step first_len st st' → heap_ok st → heap_ok st'.
Proof.
  intros Hf0 Hfm Hs Hok. destruct Hs as [reserve size t r Hsz Hfresh He|decommit base old new t b Hn He|detach base size t b He|t He
    |len t Hl He|len va rest Hp Hfr|len rest t Hp He|va len rest Hp|va len new rest Hp Hn].
  - by eapply carve_step.
  - destruct (shrink_ok st decommit base old new Hok Hn) as (t' & b' & He' & Hok' & _). congruence.
  - destruct (seg_release_ok st detach base size Hok) as (t' & b' & He' & Hok' & _). congruence.
  - unfold reset_peak in He. pose proof (carved_bound st Hok) as Hc. pose proof (direct_bound st Hok) as Hd. unfold isize_max in *.
    rewrite uadd_ok in He by (unfold u_max; lia). injection He as <-. destruct Hok as [H1 H2 H3 H4 H5 H6 H7 H8 H9].
    split; unfold ranges in *; cbn [tab live carved direct peak blocks pend set_peak]; try done. unfold u_max. lia.
  - destruct (add_direct_ok st len Hok Hl) as [He'|(t' & He' & Hok')]; congruence.
  - by eapply map_ok.
  - destruct (sub_direct_ok st len rest Hok Hp) as (t' & He' & Hok'). congruence.
  - pose proof (cut_ok st va len rest 0 false Hok Hp) as H. rewrite Z.sub_0_r in H. apply H; [|done].
    pose proof (ho_blocks _ Hok) as HF. rewrite Hp in HF. apply Forall_cons in HF as [Hb _]. cbn in Hb. lia.
  - apply (cut_ok st va len rest new true Hok Hp); [lia|done].
Qed.

Lemma heap_new_ok : heap_ok (mkState new_table [] []).
Proof. split; cbn; try done; unfold isize_max, u_max; lia || (constructor || idtac). Qed.

End HeapProofs.
