(* ===== verification/HeapClaims.v ===== *)
(** * What the heap promises

    Of every state threads reach by carving, shrinking and releasing segments and
    by allocating, freeing and resizing direct blocks, however those interleave. *)

From S2P Require Import Prelude Heap HeapProofs.
Import Heap HeapProofs.
Open Scope Z_scope.

Module HeapClaims.

Definition empty : state := mkState new_table [] [].
Definition reachable (first_len : Z) (st : state) : Prop := rtc (heap_step first_len) empty st.

Lemma heap_reach_ok first_len st : 0 ≤ first_len → first_len mod PAGE = 0 → reachable first_len st → heap_ok st.
Proof.
  intros Hf0 Hfm H. eapply rtc_keeps; [|apply heap_new_ok|exact H]. intros x y. by apply heap_step_ok.
Qed.

(** ** Direct blocks, as runs of steps *)

Definition run (first_len : Z) (st : state) (t : Table) (bs : list (Z * Z)) : Prop :=
  rtc (heap_step first_len) st (mkState t bs (pend st)).

Lemma run_refl first_len st : run first_len st (tab st) (blocks st).
Proof. unfold run. by destruct st. Qed.

Lemma direct_alloc_run first_len st reserve size align : heap_ok st → 0 ≤ size →
  (∀ len a va, reserve len a = Some va → fresh st va len) →
  ∃ t va, direct_alloc reserve size align (tab st) = Done (t, va) ∧
    ((va = 0 ∧ run first_len st t (blocks st)) ∨
     (0 < va ∧ ∃ len, page_round size = Some len ∧ run first_len st t ((va, len) :: blocks st))).
Proof.
  intros Hok Hs Hfresh. unfold direct_alloc. destruct (page_round size) as [len|] eqn:Hlen.
  2:{ exists (tab st), 0. split; [done|]. left. split; [done|apply run_refl]. }
  destruct (page_round_inv size len Hs Hlen) as (Hl0 & _).
  destruct (add_direct_ok st len Hok Hl0) as [->|(t & Ha & Hok')].
  { cbn [mbind outcome_bind negb]. exists (tab st), 0. split; [done|]. left. split; [done|apply run_refl]. }
  rewrite Ha. cbn [mbind outcome_bind negb]. destruct (reserve len _) as [va|] eqn:Hr.
  - exists t, va. split; [done|]. right. pose proof (Hfresh _ _ _ Hr) as Hfr. split; [apply Hfr|]. exists len. split; [done|].
    eapply rtc_l; [by eapply hs_count|]. eapply rtc_once. apply (hs_map _ (mkState t (blocks st) (len :: pend st)) len va); [done|].
    unfold fresh, ranges in *. cbn [tab blocks]. assert (live t = live (tab st)) as ->; [|done].
    unfold add_direct in Ha. destruct (_ ≫= _); [|done]. destruct (_ <=? _); [|done].
    destruct (uadd 64 (direct (tab st)) len); obind in Ha; [|done..]. unfold grew in Ha. cbn [carved direct set_direct] in Ha.
    destruct (uadd 64 _ _); obind in Ha; [|done..]. by injection Ha as <-.
  - destruct (sub_direct_ok _ len (pend st) Hok') as (t' & Hsub & _); [done|]. cbn [tab] in Hsub. rewrite Hsub. obind.
    exists t', 0. split; [done|]. left. split; [done|]. eapply rtc_l; [by eapply hs_count|]. eapply rtc_once.
    by apply (hs_uncount _ (mkState t (blocks st) (len :: pend st)) len).
Qed.

Lemma direct_free_run first_len st p size len rest detach : heap_ok st → blocks st ≡ₚ (p, len) :: rest → page_round size = Some len →
  ∃ t, direct_free detach size (tab st) = Done t ∧ run first_len st t (if detach then rest else blocks st).
Proof.
  intros Hok Hp Hlen. unfold direct_free. rewrite Hlen. cbn [from_option id]. destruct detach.
  2:{ exists (tab st). split; [done|apply run_refl]. }
  pose proof (cut_ok st p len rest 0 false Hok Hp) as Hcut. rewrite Z.sub_0_r in Hcut.
  destruct (sub_direct_ok (mkState (tab st) rest (len :: pend st)) len (pend st)) as (t & Hsub & _); [|done|].
  { apply Hcut; [|done]. pose proof (ho_blocks _ Hok) as HF. rewrite Hp in HF. apply Forall_cons in HF as [Hb _]. cbn in Hb. lia. }
  exists t. split; [done|]. eapply rtc_l; [by eapply hs_unmap|]. eapply rtc_once.
  by apply (hs_uncount _ (mkState (tab st) rest (len :: pend st)) len).
Qed.

Lemma direct_trim_run first_len st p len new rest : heap_ok st → blocks st ≡ₚ (p, len) :: rest → 0 ≤ new < len →
  ∃ t, sub_direct (len - new) (tab st) = Done t ∧ run first_len st t ((p, new) :: rest).
Proof.
  intros Hok Hp Hn. pose proof (cut_ok st p len rest new true Hok Hp ltac:(lia) ltac:(done)) as Hcut.
  destruct (sub_direct_ok _ (len - new) (pend st) Hcut) as (t & Hsub & _); [done|]. exists t. split; [done|].
  eapply rtc_l; [by eapply hs_trim|]. eapply rtc_once.
  by apply (hs_uncount _ (mkState (tab st) ((p, new) :: rest) (len - new :: pend st)) (len - new)).
Qed.

(** What a resize of the block at [p] leaves: nothing changed, the block resized in
    place, or a new block, the old one still there when its detach was refused. *)
Definition resized (p old_len new_len : Z) (rest bs : list (Z * Z)) (whole : bool) (q : Z) : Prop :=
  (q = 0 ∧ bs ≡ₚ (p, old_len) :: rest) ∨ (q = p ∧ bs ≡ₚ (p, new_len) :: rest) ∨
  (0 < q ∧ bs ≡ₚ (q, new_len) :: if whole then rest else (p, old_len) :: rest).

Lemma direct_realloc_run first_len st tail reserve whole p old align new old_len rest : 0 ≤ first_len → first_len mod PAGE = 0 →
  heap_ok st → 0 ≤ old → 0 ≤ new →
  blocks st ≡ₚ (p, old_len) :: rest → page_round old = Some old_len → (∀ len a va, reserve len a = Some va → fresh st va len) →
  ∃ t q bs, direct_realloc tail reserve whole p old align new (tab st) = Done (t, q) ∧ run first_len st t bs ∧
    resized p old_len (default 0 (page_round new)) rest bs whole q.
Proof.
  intros Hf0 Hfm Hok Hold Hnew Hp Ho Hfresh. unfold direct_realloc. rewrite Ho. cbn [from_option id].
  destruct (page_round new) as [new_len|] eqn:Hn; cbn [from_option id].
  2:{ exists (tab st), 0, (blocks st). split; [done|]. split; [apply run_refl|]. by left. }
  destruct (page_round_inv new new_len Hnew Hn) as [Hn0 _].
  destruct (Z.eqb_spec new_len old_len) as [->|Hne].
  { exists (tab st), p, (blocks st). split; [done|]. split; [apply run_refl|]. right. by left. }
  destruct ((new_len <? old_len) && tail) eqn:Htail.
  { apply andb_true_iff in Htail as [Hlt%Z.ltb_lt _]. rewrite usub_ok by lia. obind.
    destruct (direct_trim_run first_len st p old_len new_len rest Hok Hp ltac:(lia)) as (t & -> & Hrun). obind.
    eexists t, p, _. split; [done|]. split; [exact Hrun|]. right. by left. }
  destruct (direct_alloc_run first_len st reserve new align Hok Hnew Hfresh) as (t & q & -> & [[-> Hrun]|(Hq & len & Hlen & Hrun)]);
    obind.
  { exists t, 0, (blocks st). split; [done|]. split; [done|]. by left. }
  rewrite Hn in Hlen. injection Hlen as <-. rewrite (proj2 (Z.eqb_neq q 0)) by lia.
  set (st1 := mkState t ((q, new_len) :: blocks st) (pend st)).
  assert (heap_ok st1) as Hok1.
  { eapply rtc_keeps; [|exact Hok|exact Hrun]. intros x y. by apply heap_step_ok. }
  assert (blocks st1 ≡ₚ (p, old_len) :: (q, new_len) :: rest) as Hp1 by (cbn [blocks st1]; rewrite Hp; apply Permutation_swap).
  destruct (direct_free_run first_len st1 p old old_len _ whole Hok1 Hp1 Ho) as (t2 & Hfree & Hrun2).
  cbn [tab st1] in Hfree. rewrite Hfree. obind. eexists t2, q, _. split; [done|]. split.
  - unfold run. etransitivity; [exact Hrun|]. exact Hrun2.
  - right. right. split; [done|]. destruct whole; [done|]. cbn [blocks st1]. by rewrite Hp.
Qed.

(** ** A heap with one segment, then one direct block *)

Definition demo_len : Z := 64 * PAGE.
Definition demo_reserve (len : Z) : option Z := if len <=? 2 ^ 30 then Some (2 ^ 40) else None.
Definition demo : state :=
  mkState (mkTable [mkRes (2 ^ 40) demo_len (2 ^ 40 + 3 * PAGE)] (3 * PAGE) 0 (3 * PAGE)) [] [].
Definition demo_block : state := mkState (mkTable [] 0 DIRECT_MIN DIRECT_MIN) [(2 ^ 41, DIRECT_MIN)] [].

Lemma demo_fresh len va : demo_reserve len = Some va → fresh empty va len.
Proof.
  unfold demo_reserve. destruct (Z.leb_spec len (2 ^ 30)); [|done]. intros [= <-].
  split; [lia|]. split; [done|]. split; [unfold WINDOW; lia|constructor].
Qed.
Lemma heap_demo_reached : reachable demo_len demo.
Proof.
  eapply rtc_once. apply (hs_carve demo_len empty demo_reserve (3 * PAGE) _ (Some (2 ^ 40))); [done|apply demo_fresh|].
  vm_compute. reflexivity.
Qed.
Lemma demo_block_reached : reachable demo_len demo_block.
Proof.
  eapply rtc_l; [apply (hs_count demo_len empty DIRECT_MIN (mkTable [] 0 DIRECT_MIN DIRECT_MIN)); [done|vm_compute; reflexivity]|].
  eapply rtc_once. apply (hs_map _ (mkState (mkTable [] 0 DIRECT_MIN DIRECT_MIN) [] [DIRECT_MIN]) DIRECT_MIN (2 ^ 41) []); [done|].
  split; [lia|]. split; [done|]. split; [unfold WINDOW, DIRECT_MIN; lia|constructor].
Qed.

(** ** The claims *)

(** C31: the heap holds what it says it holds.  In every state threads reach, with
    their steps interleaved anywhere between a count and its mapping or an
    unmapping and its uncount, the mapped ranges share no byte, every segment is
    page aligned and ends strictly inside its reservation, the table counts
    exactly the segments, and the footprint, which returns, is never below the
    bytes held nor above the recorded peak. *)
Theorem heap_holds first_len st : 0 ≤ first_len → first_len mod PAGE = 0 → reachable first_len st →
  heap_ok st ∧ ∃ f, footprint (tab st) = Done f ∧
    bytes (held <$> live (tab st)) + bytes (snd <$> blocks st) ≤ f ≤ peak (tab st).
Proof.
  intros Hf0 Hfm Hr. pose proof (heap_reach_ok _ _ Hf0 Hfm Hr) as Hok. split; [done|].
  pose proof (carved_bound st Hok). pose proof (direct_bound st Hok). unfold isize_max in *.
  eexists. split; [apply uadd_ok; unfold u_max; lia|]. pose proof (bytes_nonneg _ (ho_pend _ Hok)).
  rewrite <-(ho_carved _ Hok). pose proof (ho_direct _ Hok). pose proof (ho_peak _ Hok). lia.
Qed.

Lemma heap_holds_witness : ∃ f, footprint (tab demo) = Done f ∧
  bytes (held <$> live (tab demo)) + bytes (snd <$> blocks demo) ≤ f ≤ peak (tab demo).
Proof. destruct (heap_holds demo_len demo) as [_ H]; [done|done|apply heap_demo_reached|exact H]. Defined.

(** The segments dlmalloc holds. *)
Definition segments (t : Table) : list (Z * Z) := (λ r, (r_base r, held r)) <$> live t.

(** A carve returns, whatever the kernel refuses, and takes memory nobody holds:
    a refusal changes nothing; otherwise the pages it answers share no byte with
    any segment or direct block, and either they extend the latest segment in
    place or they start a segment of a new reservation that is not adjacent to
    any other segment, so that dlmalloc never merges two. *)
Theorem carve_takes_fresh first_len st reserve size : 0 ≤ first_len → first_len mod PAGE = 0 → reachable first_len st →
  in_u 64 size → (∀ len va, reserve len = Some va → fresh st va len) →
  carve reserve first_len size (tab st) = Done (tab st, None) ∨
  ∃ t va, carve reserve first_len size (tab st) = Done (t, Some va) ∧ 0 < size ∧ va mod PAGE = 0 ∧ size mod PAGE = 0 ∧
    Forall (apart (va, size)) (segments (tab st) ++ blocks st) ∧
    ((∃ l b n, segments (tab st) = l ++ [(b, n)] ∧ va = b + n ∧ segments t = l ++ [(b, n + size)]) ∨
     (segments t = segments (tab st) ++ [(va, size)] ∧
      Forall (λ s, s.1 + s.2 < va ∨ va + size < s.1) (segments (tab st)))).
Proof.
  intros Hf0 Hfm Hr Hsz Hfresh. pose proof (heap_reach_ok _ _ Hf0 Hfm Hr) as Hok. pose proof (ho_res _ Hok) as HF.
  destruct (carve_ok st reserve first_len size Hok Hsz Hf0 Hfm Hfresh) as [Hc|(H0 & Hm & [(l & r & Hl & Hroom & Hc)|(base & len & Hc & Hfr & Hlen & Hlm & Hn)])];
    [by left|right; eexists _, _; split; [exact Hc|]..]; (split; [done|]).
  - rewrite Hl in HF. apply Forall_app in HF as [HF Hrr]. rewrite Forall_singleton in Hrr. destruct Hrr as (B1 & B2 & B3 & B4 & B5 & B6).
    pose proof (ho_apart _ Hok) as Hap. unfold ranges in Hap. rewrite Hl, fmap_app, <-app_assoc in Hap.
    change (block <$> [r]) with [block r] in Hap. cbn [app] in Hap. rewrite <-Permutation_middle in Hap. destruct Hap as [Hap _].
    assert (held r + r_base r = r_bump r) as Hh by (unfold held; lia). split; [|split; [done|]].
    { rewrite <-Hh, Z.add_mod, B5, B2 by done. done. }
    unfold segments. rewrite Hl. cbn [live grown]. rewrite !fmap_app. split.
    + apply Forall_app in Hap as [Hap1 Hap2]. rewrite Forall_app, Forall_app. split_and!.
      * rewrite Forall_fmap in Hap1. apply Forall_fmap. rewrite Forall_forall in *. intros x Hx. specialize (Hap1 x Hx). specialize (HF x Hx).
        destruct HF as (_ & _ & _ & ? & _). unfold compose, apart, block, held in *. cbn [fst snd] in *. lia.
      * rewrite Forall_fmap, Forall_singleton. unfold apart, held. cbn. lia.
      * eapply Forall_impl; [exact Hap2|]. intros x. unfold apart, block. cbn [fst snd]. lia.
    + left. exists ((λ r, (r_base r, held r)) <$> l), (r_base r), (held r). split; [done|]. split; [lia|].
      unfold held. cbn. do 3 f_equal. lia.
  - destruct Hfr as (F1 & F2 & F3 & F4). unfold ranges in F4. apply Forall_app in F4 as [F4 F5].
    rewrite Forall_fmap in F4. split; [done|]. split; [done|]. split.
    + apply Forall_app. split; [|eapply Forall_impl; [exact F5|]; intros x; unfold apart; cbn [fst snd]; lia].
      apply Forall_fmap. rewrite Forall_forall in *. intros x Hx. specialize (F4 x Hx). destruct (HF x Hx) as (_ & _ & _ & ? & _).
      unfold compose, apart, block, held in *. cbn [fst snd] in *. lia.
    + right. unfold segments. cbn [live grown]. rewrite fmap_app. split.
      * f_equal. unfold held. cbn [fmap list_fmap r_base r_bump]. do 2 f_equal. lia.
      * apply Forall_fmap. rewrite Forall_forall in *. intros x Hx. specialize (F4 x Hx). destruct (HF x Hx) as (_ & _ & _ & ? & _).
        unfold compose, apart, block, held in *. cbn [fst snd] in *. lia.
Qed.

Lemma carve_takes_fresh_witness : ∃ t va, carve (λ _, None) demo_len (2 * PAGE) (tab demo) = Done (t, Some va) ∧
  Forall (apart (va, 2 * PAGE)) (segments (tab demo) ++ blocks demo).
Proof.
  destruct (carve_takes_fresh demo_len demo (λ _, None) (2 * PAGE)) as [Hn|(t & va & Hc & _ & _ & _ & Ha & _)];
    [done|done|apply heap_demo_reached|done|done|vm_compute in Hn; discriminate Hn|].
  exists t, va. split; [exact Hc|exact Ha].
Defined.

(** The direct blocks are what the footprint counts.  From any state, an
    allocation, a free and a resize return whatever the kernel answers, and each
    is a run of counted steps that other threads may interleave with: an
    allocation fails with nothing mapped or maps one block of the rounded size;
    a free unmaps the block, or keeps it counted when the kernel refuses; a
    resize leaves the block as it was, cuts it in place or moves it. *)
Theorem direct_blocks_counted first_len st : 0 ≤ first_len → first_len mod PAGE = 0 → reachable first_len st →
  (∀ reserve size align, 0 ≤ size → (∀ len a va, reserve len a = Some va → fresh st va len) →
    ∃ t va, direct_alloc reserve size align (tab st) = Done (t, va) ∧
      ((va = 0 ∧ run first_len st t (blocks st)) ∨
       (0 < va ∧ ∃ len, page_round size = Some len ∧ run first_len st t ((va, len) :: blocks st)))) ∧
  (∀ p size len rest detach, blocks st ≡ₚ (p, len) :: rest → page_round size = Some len →
    ∃ t, direct_free detach size (tab st) = Done t ∧ run first_len st t (if detach then rest else blocks st)) ∧
  (∀ tail reserve whole p old align new old_len rest, 0 ≤ old → 0 ≤ new → blocks st ≡ₚ (p, old_len) :: rest →
    page_round old = Some old_len → (∀ len a va, reserve len a = Some va → fresh st va len) →
    ∃ t q bs, direct_realloc tail reserve whole p old align new (tab st) = Done (t, q) ∧ run first_len st t bs ∧
      resized p old_len (default 0 (page_round new)) rest bs whole q).
Proof.
  intros Hf0 Hfm Hr. pose proof (heap_reach_ok _ _ Hf0 Hfm Hr) as Hok. split_and!.
  - intros reserve size align Hs Hfresh. by apply direct_alloc_run.
  - intros p size len rest detach Hp Hlen. by eapply direct_free_run.
  - intros tail reserve whole p old align new old_len rest Hold Hnew Hp Ho Hfresh. by apply direct_realloc_run.
Qed.

Lemma direct_blocks_counted_witness : ∃ t, direct_free true DIRECT_MIN (tab demo_block) = Done t ∧ run demo_len demo_block t [].
Proof.
  destruct (direct_blocks_counted demo_len demo_block) as (_ & H & _); [done|done|apply demo_block_reached|].
  apply (H (2 ^ 41) DIRECT_MIN DIRECT_MIN [] true); reflexivity.
Defined.

End HeapClaims.
